(* ===== verification/_CoqProject ===== *)
-Q . S2P
Prelude.v
CString.v
Base64.v
DataBlock.v
DataBlockFacts.v
MemoryStream.v
MemoryStreamFacts.v
MemoryStreamOps.v
MemoryStreamSpec.v
ByteStream.v
NumStreaming.v
RecordIO.v
RecordIOSpec.v
RecordIOProps.v
LogIO.v
LogIOSpec.v
LogIOReader.v
LogIOProps.v
LogFlushed.v
StrUtil.v
Url.v
UrlProps.v
HttpConsts.v
HttpHeader.v
HttpHeaderSpec.v
HttpHeaderProps.v
Raft.v
RaftSpec.v
RaftNet.v
RaftRepl.v
RaftProps.v
RaftFiles.v
RaftFilesProps.v
RaftReader.v
RaftClient.v
RaftClientProps.v
Words.v
Fips180.v
Sha256.v
Sha256Props.v
Sha1.v
Sha1Props.v
LruCache.v
LruCacheSpec.v
LruCacheProps.v
LockFree.v
LockFreeSpec.v
LockFreeProps.v
HttpRequest.v
HttpRequestSpec.v
HttpReceive.v
HttpSafety.v
HttpRequestProps.v
Zlib.v
ZlibSpec.v
ZlibCopy.v
ZlibProps.v
HttpGzip.v
ThreadQueue.v
ThreadQueueProps.v
Utf8Tables.v
Utf8.v
Utf8Props.v
JsonText.v
Tokens.v
JsonCodec.v
JsonCodecProps.v
Cache.v
CacheProps.v
FreeList.v
