(* ===== verification/Prelude.v ===== *)
(** * whisperlib: a verification development

    whisperlib ([src/whisperlib]) is a C++ library for network servers: buffers and streams,
    files of records and logs made of them, string and HTTP utilities, RPC, and a replicated
    log built on all of these.  This development translates the parts that carry its logic
    into Rocq functions and proves what makes them correct.

    ** Parts and files

    - [Prelude], [CString]: bytes, integers of fixed width, [loop] (a C++ loop with fuel and
      the rule [loop_total] it is proved with), failing computations ([option]; a failed
      [CHECK] or an access outside a live object is [None]), tactics; the C and C++ string
      functions the library calls.
    - [Base64] ([io/util/base64]): the encoder and decoder state machines; they agree with
      the groups of RFC 4648, invert each other, and [EncodeString] stays in its buffer.
    - [DataBlock], [DataBlockFacts], [MemoryStream], [MemoryStreamFacts], [MemoryStreamOps],
      [MemoryStreamSpec] ([io/buffer/data_block], [io/buffer/memory_stream],
      [base/ref_counted]): reference counted blocks in a heap, shared between streams, and
      every operation of a stream on them.  [MemoryStreamSpec.streams_refine_queues]: any
      number of streams behave as byte queues with markers; [references_exact]: no block
      leaks or is freed too early.
    - [ByteStream]: the interface of a stream of bytes, a type class whose laws the queues
      and the memory streams satisfy; [NumStreaming] ([io/num_streaming.h]) and the HTTP
      parser are proved against it.
    - [RecordIO], [RecordIOSpec], [RecordIOProps] ([io/logio/recordio]): records cut into
      blocks with checksums, and the reader; what is written is read back, from any block
      boundary, and damaged blocks are reported.
    - [LogIO], [LogIOSpec], [LogIOReader], [LogIOProps] ([io/logio/logio]): positions,
      writer and reader of logs of several files on a disk that can fail; a log written is
      read back whole, and while it is being written.  [LogFlushed]: a log that is flushed
      after every record can be read from, and cut at, the position of each.
    - [StrUtil] ([base/strutil]), [HttpConsts] ([http/http_consts]), [HttpHeader],
      [HttpHeaderSpec], [HttpHeaderProps] ([http/http_header]): strings and paths; the header
      of a message, its incremental parser and its printer: print and parse are inverse,
      and parsing does not depend on how the data arrives.
    - [Utf8Tables], [Utf8], [Utf8Props], [JsonText] ([base/strutil], [base/unicode_table.h]):
      UTF-8 and [strutil::i18n] with its tables, the strings of JSON and XML.  On the text of
      any code points the operations are those on the code points; what is escaped for JSON
      reads as the text by the standards, but [JsonStrUnescape] does not give it back.
    - [Tokens] ([DataBlockPointer::ReadNextAsciiToken]): the tokens of a stream, whatever the
      blocks it lies in.  [JsonCodec], [JsonCodecProps] ([rpc/codec]): the JSON encoder and
      decoder of values nested in vectors and maps, over any [ByteStream] and any
      [TokenStream]: which values come back, which do not, and that the decoder always ends
      ([JsonCodec.turns]: a turn of its loops takes a byte).
    - [Raft] ([raft/raft_server]): state, messages and handlers of the replicated log, over
      the interface [Raft.RaftLog] for the log.  [RaftSpec]: what every handler keeps.
      [RaftNet]: the laws of a log ([RaftLogLaws]), a log in memory that has them, and a
      world of servers with calls in flight.  [RaftRepl]: what is sent and what a follower
      makes of it.  [RaftProps]: replication, commits by majority, votes, and the two ways
      the code loses committed entries.  [RaftFiles], [RaftFilesProps]: the log files as an
      instance of [RaftLog] with its laws, as long as no entry ends with a file; where one
      does, a leader fails.  [RaftReader]: the same files through the one reader a node keeps,
      with the file it has open, in the calls the server makes.
    - [RaftClient], [RaftClientProps] ([raft/raft_client]): the requests of a client, the
      closures of its select loop and its calls, which may be answered at any time.  A request
      is answered once and not told of a success without a position; but one can be sent
      twice, and a write that failed is taken for a success.
    - [Url], [UrlProps] ([url/simple_url]): URLs; what is put together comes apart again, and
      where it does not.
    - [Words], [Sha256], [Sha1] ([io/util/sha256], [io/util/sha1]): words, their bits and
      bytes; the digests and HMAC.  [Fips180] is written from the standards alone;
      [Sha256Props] and [Sha1Props] show that the code computes what it defines, data given
      in any pieces, and where it does not: keys of [HmacSha256] of 33 to 64 bytes.
    - [LruCache], [LruCacheSpec], [LruCacheProps] ([base/lru_cache.h]): a call is a thread
      that goes through the sections of the code under the lock, step by step, with the
      reference counted values on a heap.  Alone a call answers what a list of entries in
      the order of use answers; interleaved, no check fails and no reference is lost, except
      that [TrimToSize] can leave with the lock held.
    - [Cache], [CacheProps] ([base/cache.h]): a cache with a life for its values; what a call
      does with the mutex is a section, and any sequence of sections answers as a list of
      entries does; after [Clear], though, the cache reads deleted items.  [FreeList]
      ([base/free_list.h]): objects kept to be used again, and aligned blocks of memory.
    - [LockFree], [LockFreeSpec], [LockFreeProps] ([sync/lock_free_producer_consumer_queue]):
      every access to shared memory is a step of a thread.  Whatever the interleaving, a
      pointer is got once and in order, and a call that runs alone with room ends.
    - [ThreadQueue], [ThreadQueueProps] ([sync/producer_consumer_queue.h]): what a call does
      with the mutex is a step; waits, signals and wakings come in any order.  Elements keep
      their order and are not lost, and no thread is left asleep, but for [GetAll], [Clear].
    - [HttpRequest], [HttpRequestSpec], [HttpReceive], [HttpSafety], [HttpRequestProps]
      ([http/http_request]): bodies and chunks going out, and the state machine that parses
      requests and replies, over an interface of the compressors, [HttpRequest.Codec].  What
      a client sends a server receives, in any pieces; whatever comes, no call fails
      ([HttpSafety.CodecLaws] is what that needs of the compressors).
    - [Zlib], [ZlibSpec], [ZlibProps] ([io/zlib/zlibwrapper]): the wrappers of zlib over an
      interface of it, [Zlib.Zlib], with the laws it documents, [ZlibSpec.ZlibLaws]; a small
      zlib that has them is [ZlibCopy].  The laws are of streams that were initialised
      ([deflateInit2] succeeds for the levels -1 to 9, if there is memory:
      [ZlibSpec.ZlibMemory]).  What the gzip encoder writes the decoder reads in any pieces;
      the wrappers are an instance of [Codec], with its laws as long as their streams are
      initialised, and [HttpGzip] puts both together: a body in gzip, from the encoder to the
      request that is parsed.

    The names are those of the code: a method [M] of a class is the definition [M], a member
    [x_] a field [x_] (with a prefix where two classes share it), and a loop of [M] is
    [loop] over [M_step] or a Fixpoint named after it.

    ** Conventions and bounds

    Integers are [Z], wrapped ([wrapU], [wrapS]) where the code can leave their width.  A
    memory stream passes its sizes through an [int] ([BlockSize]): the casts are in the model,
    and the theorems are about lengths, blocks and contents below 2^31; the numbers of the
    blocks of a stream are not wrapped.  The terms of the raft server are [int64]; its theorems
    say which terms they need below 2^63.  The block sizes and dump thresholds of the record
    files are those the writer works with ([LogIOProps.sizes_ok]).  The
    fuel of every loop is computed from its state (the bytes or entries left, plus one), and
    the theorems state that a result is produced, not only what it would be.  crc32, deflate,
    inflate and the wire format of protocol buffers are parameters; the laws used of them are
    hypotheses of the theorems that need them, with concrete instances in the witnesses.
    The operating system is a map from names to contents and a list of answers to the calls
    that can fail.  Assertions that only a debug build has are stated where they matter.

    ** What is not modelled

    Sockets and the selector (the code runs its handlers one at a time under a mutex or in
    one thread, and so does the model, but for the caches and the two queues); the inside of
    zlib, protocol buffers and google-url (third party); callbacks (generated templates); dates,
    floating point numbers (those of the JSON codec too) and formatted output.  The HTTP
    protocols on top of connections and the services of the RPC are not modelled.  Of the
    log, [DetectLogSettings] and the textual forms of positions are left. *)

From Stdlib Require Export ZArith Lia List String.
From coqutil Require Export Byte.
From stdpp Require Export base tactics decidable option list gmap strings numbers.

#[global] Open Scope Z_scope.

Declare Scope whisper_scope.
Delimit Scope whisper_scope with whisper.
#[global] Open Scope whisper_scope.

#[global] Arguments Z.eqb : simpl never.
#[global] Arguments Z.ltb : simpl never.
#[global] Arguments Z.leb : simpl never.

Create HintDb whisper.
Create Rewrite HintDb zlen.

(** ** Bytes and machine integers *)

Abbreviation bytes := (list byte).

#[export] Instance byte_eq_dec : EqDecision byte := Byte.byte_eq_dec.

Definition wrapU (w z : Z) : Z := z mod 2 ^ w.
Definition wrapS (w z : Z) : Z := (z + 2 ^ (w - 1)) mod 2 ^ w - 2 ^ (w - 1).

Abbreviation size_t z := (wrapU 64 z).
Abbreviation uint32 z := (wrapU 32 z).
Abbreviation int32 z := (wrapS 32 z).
Abbreviation int64 z := (wrapS 64 z).

(** The value of an [unsigned char], of a [char] (signed on the modelled
    targets), and the truncating conversion of an [int] to either. *)
Definition uchar (b : byte) : Z := byte.unsigned b.
Definition schar (b : byte) : Z := wrapS 8 (byte.unsigned b).
Definition to_byte (z : Z) : byte := byte.of_Z z.

(** The bytes of a string literal. *)
Definition bytes_of (s : string) : bytes := list_byte_of_string s.
Notation "'bstr' s" := (bytes_of s%string) (at level 9, s at level 0) : whisper_scope.

Lemma wrapU_range w z : 0 <= w -> 0 <= wrapU w z < 2 ^ w.
Proof. intros. apply Z.mod_pos_bound. lia. Qed.

Lemma wrapU_small w z : 0 <= z < 2 ^ w -> wrapU w z = z.
Proof. intros. by apply Z.mod_small. Qed.

Lemma wrapU_id w z : wrapU w (wrapU w z) = wrapU w z.
Proof. unfold wrapU. apply Zmod_mod. Qed.

Lemma wrapS_range w z : 0 < w -> - 2 ^ (w - 1) <= wrapS w z < 2 ^ (w - 1).
Proof.
  intros. unfold wrapS. pose proof (Z.mod_pos_bound (z + 2 ^ (w - 1)) (2 ^ w)).
  assert (2 ^ w = 2 * 2 ^ (w - 1)).
  { rewrite <- Z.pow_succ_r by lia. f_equal. lia. }
  lia.
Qed.

Lemma wrapS_small w z : 0 < w -> - 2 ^ (w - 1) <= z < 2 ^ (w - 1) -> wrapS w z = z.
Proof.
  intros. unfold wrapS.
  assert (2 ^ w = 2 * 2 ^ (w - 1)).
  { rewrite <- Z.pow_succ_r by lia. f_equal. lia. }
  rewrite Z.mod_small; lia.
Qed.

Lemma int32_small z : - 2 ^ 31 <= z < 2 ^ 31 -> int32 z = z.
Proof. intros. by apply wrapS_small. Qed.

Lemma wrapU_wrapS w z : 0 < w -> wrapU w (wrapS w z) = wrapU w z.
Proof.
  intros. unfold wrapU, wrapS.
  rewrite Zminus_mod, Zmod_mod, <- Zminus_mod. f_equal. lia.
Qed.

Lemma wrapS_wrapU w z : 0 < w -> wrapS w (wrapU w z) = wrapS w z.
Proof.
  intros. unfold wrapU, wrapS. f_equal. by rewrite Zplus_mod_idemp_l.
Qed.

Lemma uchar_range b : 0 <= uchar b < 256.
Proof. apply byte.unsigned_range. Qed.

Lemma schar_range b : -128 <= schar b < 128.
Proof. by apply (wrapS_range 8). Qed.

Lemma uchar_to_byte z : uchar (to_byte z) = z mod 256.
Proof. apply byte.unsigned_of_Z. Qed.

Lemma uchar_to_byte_small z : 0 <= z < 256 -> uchar (to_byte z) = z.
Proof. intros. rewrite uchar_to_byte. by apply Z.mod_small. Qed.

Lemma to_byte_uchar b : to_byte (uchar b) = b.
Proof. apply byte.of_Z_unsigned. Qed.

Lemma to_byte_eq z b : z = uchar b -> to_byte z = b.
Proof. intros ->. apply to_byte_uchar. Qed.

Lemma uchar_inj b1 b2 : uchar b1 = uchar b2 -> b1 = b2.
Proof. apply byte.unsigned_inj. Qed.

Lemma to_byte_schar b : to_byte (schar b) = b.
Proof. by destruct b. Qed.

Lemma schar_pos b : uchar b < 128 -> schar b = uchar b.
Proof. intros. pose proof (uchar_range b). apply wrapS_small; unfold uchar in *; lia. Qed.

(** [lia] with division and remainder by constants. *)
Ltac dlia := Z.to_euclidean_division_equations; lia.

(** Shifts and masks as arithmetic. *)
Lemma shiftr_div a n : 0 <= n -> Z.shiftr a n = a / 2 ^ n.
Proof. apply Z.shiftr_div_pow2. Qed.

Lemma shiftl_mul a n : 0 <= n -> Z.shiftl a n = a * 2 ^ n.
Proof. apply Z.shiftl_mul_pow2. Qed.

Lemma land_mod a n : 0 <= n -> Z.land a (2 ^ n - 1) = a mod 2 ^ n.
Proof. intros. rewrite <- Z.land_ones by lia. by rewrite Z.ones_equiv. Qed.

Lemma lor_disjoint k a b :
  0 <= k -> a mod 2 ^ k = 0 -> 0 <= b < 2 ^ k -> Z.lor a b = a + b.
Proof.
  intros Hk Ha Hb. assert (Hz : Z.land a b = 0).
  { apply Z.bits_inj_0. intros i. rewrite Z.land_spec.
    destruct (decide (i < 0)); [by rewrite (Z.testbit_neg_r a) by lia|].
    destruct (decide (i < k)).
    - rewrite <- (Z.mod_pow2_bits_low a k) by lia. by rewrite Ha, Z.bits_0.
    - rewrite <- (Z.mod_small b (2 ^ k)) by lia.
      rewrite (Z.mod_pow2_bits_high b k) by lia. by rewrite andb_false_r. }
  rewrite <- Z.lxor_lor by done. symmetry. by apply Z.add_nocarry_lxor.
Qed.

Lemma land_schar c m : 0 <= m < 256 -> Z.land (schar c) m = Z.land (uchar c) m.
Proof.
  intros Hm.
  assert (Hlow : forall x, Z.land x m = Z.land (x mod 2 ^ 8) m).
  { intros x. rewrite <- (Z.mod_small m (2 ^ 8)) by lia.
    rewrite <- !Z.land_ones by lia. apply Z.bits_inj'. intros i Hi.
    rewrite !Z.land_spec. by destruct (Z.testbit x i), (Z.testbit (Z.ones 8) i), (Z.testbit m i). }
  rewrite (Hlow (schar c)), (Hlow (uchar c)). f_equal. unfold schar.
  fold (wrapU 8 (wrapS 8 (byte.unsigned c))). by rewrite wrapU_wrapS.
Qed.

(** Decide a property of the integers below a constant by evaluation. *)
Definition below (n : nat) (f : Z -> bool) : bool := forallb (fun i => f (Z.of_nat i)) (seq 0 n).

Lemma below_spec n f z : below n f = true -> 0 <= z < Z.of_nat n -> f z = true.
Proof.
  intros Hf Hz. unfold below in Hf. rewrite forallb_forall in Hf.
  specialize (Hf (Z.to_nat z)). rewrite Z2Nat.id in Hf by lia.
  apply Hf, in_seq. lia.
Qed.

(** ** Failing computations

    A [CHECK] that fails aborts the process, and an access outside a live object
    is undefined: both are [None].  Code that can do neither is a plain function. *)
Definition CHECK (b : bool) : option unit := if b then Some () else None.

Lemma CHECK_true b : b = true -> CHECK b = Some ().
Proof. by intros ->. Qed.

(** ** Loops

    A C++ loop is [loop fuel step s]: [step] is one evaluation of the condition and
    of the body, [inl s'] continues with the variables [s'] and [inr r] leaves the
    loop.  [loop_total] is the total-correctness rule the loops are proved with. *)
Section Loop.
Context {S R : Type}.
Variable step : S -> option (S + R).

Fixpoint loop (fuel : nat) (s : S) : option R :=
  match fuel with
  | O => None
  | Datatypes.S fuel =>
    x ← step s;
    match x with
    | inl s' => loop fuel s'
    | inr r => Some r
    end
  end.

(** The invariant may carry its own bound on the iterations left. *)
Lemma loop_total_ix (I : nat -> S -> Prop) (Q : R -> Prop) :
  (forall n s, I n s -> exists x, step s = Some x /\
      match x with inl s' => exists n', I n' s' /\ (n' < n)%nat | inr r => Q r end) ->
  forall fuel n s, I n s -> (n < fuel)%nat -> exists r, loop fuel s = Some r /\ Q r.
Proof.
  intros Hstep fuel. induction fuel as [|fuel IH]; intros n s Hs Hm; [lia|].
  destruct (Hstep n s Hs) as ([s'|r] & Heq & Hx); simpl; rewrite Heq; simpl.
  - destruct Hx as (n' & ? & ?). apply (IH n'); [done|lia].
  - eauto.
Qed.

Lemma loop_total (I : S -> Prop) (Q : R -> Prop) (m : S -> nat) :
  (forall s, I s -> exists x, step s = Some x /\
      match x with inl s' => I s' /\ (m s' < m s)%nat | inr r => Q r end) ->
  forall fuel s, I s -> (m s < fuel)%nat -> exists r, loop fuel s = Some r /\ Q r.
Proof.
  intros Hstep fuel s Hs Hm.
  apply (loop_total_ix (fun n s => I s /\ n = m s) Q) with (n := m s); [|done..].
  intros n s' [Hs' ->]. destruct (Hstep s' Hs') as ([s''|r] & Heq & Hx);
    eexists; (split; [done|]); [|done].
  destruct Hx. eauto.
Qed.

Lemma loop_mono fuel fuel' s r :
  loop fuel s = Some r -> (fuel <= fuel')%nat -> loop fuel' s = Some r.
Proof.
  revert fuel' s. induction fuel as [|fuel IH]; intros fuel' s Hl Hle; [done|].
  destruct fuel' as [|fuel']; [lia|]. simpl in *.
  destruct (step s) as [[s'|r']|]; simpl in *; [|done..]. apply IH; [done|lia].
Qed.

Lemma loop_S fuel s :
  loop (Datatypes.S fuel) s =
  (x ← step s; match x with inl s' => loop fuel s' | inr r => Some r end).
Proof. done. Qed.
End Loop.

#[global] Arguments loop : simpl never.

(** ** Lists *)
Definition zlen {A} (l : list A) : Z := Z.of_nat (length l).

Lemma zlen_nil {A} : zlen (@nil A) = 0.
Proof. done. Qed.

Lemma zlen_cons {A} (x : A) l : zlen (x :: l) = 1 + zlen l.
Proof. unfold zlen. simpl. lia. Qed.

Lemma zlen_app {A} (l1 l2 : list A) : zlen (l1 ++ l2) = zlen l1 + zlen l2.
Proof. unfold zlen. rewrite length_app. lia. Qed.

Lemma zlen_snoc {A} (l : list A) x : zlen (l ++ [x]) = zlen l + 1.
Proof. by rewrite zlen_app. Qed.

Lemma zlen_nonneg {A} (l : list A) : 0 <= zlen l.
Proof. unfold zlen. lia. Qed.

#[export] Hint Rewrite @zlen_nil @zlen_cons @zlen_app : zlen.
#[export] Hint Resolve @zlen_nonneg uchar_range schar_range : whisper.

(** [takeZ]/[dropZ]: the first [n] elements and the rest, [n] an [int]. *)
Definition takeZ {A} (n : Z) (l : list A) : list A := take (Z.to_nat n) l.
Definition dropZ {A} (n : Z) (l : list A) : list A := drop (Z.to_nat n) l.

Lemma takeZ_dropZ {A} n (l : list A) : takeZ n l ++ dropZ n l = l.
Proof. apply take_drop. Qed.

Lemma zlen_takeZ {A} n (l : list A) : 0 <= n -> zlen (takeZ n l) = Z.min n (zlen l).
Proof. unfold takeZ, zlen. rewrite length_take. lia. Qed.

Lemma zlen_dropZ {A} n (l : list A) : 0 <= n -> zlen (dropZ n l) = Z.max 0 (zlen l - n).
Proof. unfold dropZ, zlen. rewrite length_drop. lia. Qed.

Lemma zlen_dropZ_le {A} n (l : list A) : zlen (dropZ n l) <= zlen l.
Proof. unfold dropZ, zlen. rewrite length_drop. lia. Qed.

Lemma takeZ_all {A} n (l : list A) : zlen l <= n -> takeZ n l = l.
Proof. unfold takeZ, zlen. intros. apply take_ge. lia. Qed.

Lemma dropZ_all {A} n (l : list A) : zlen l <= n -> dropZ n l = [].
Proof. unfold dropZ, zlen. intros. apply drop_ge. lia. Qed.

Lemma takeZ_0 {A} (l : list A) : takeZ 0 l = [].
Proof. done. Qed.

Lemma dropZ_0 {A} (l : list A) : dropZ 0 l = l.
Proof. done. Qed.

Lemma takeZ_nil {A} n : takeZ n (@nil A) = [].
Proof. apply take_nil. Qed.

Lemma dropZ_nil {A} n : dropZ n (@nil A) = [].
Proof. apply drop_nil. Qed.

Lemma dropZ_1 {A} (x : A) l : dropZ 1 (x :: l) = l.
Proof. done. Qed.

Lemma takeZ_neg {A} n (l : list A) : n <= 0 -> takeZ n l = [].
Proof. intros. unfold takeZ. by replace (Z.to_nat n) with O by lia. Qed.

Lemma dropZ_neg {A} n (l : list A) : n <= 0 -> dropZ n l = l.
Proof. intros. unfold dropZ. by replace (Z.to_nat n) with O by lia. Qed.

Lemma takeZ_app_l {A} n (l1 l2 : list A) : n <= zlen l1 -> takeZ n (l1 ++ l2) = takeZ n l1.
Proof. unfold takeZ, zlen. intros. apply take_app_le. lia. Qed.

Lemma dropZ_app_l {A} n (l1 l2 : list A) : n <= zlen l1 -> dropZ n (l1 ++ l2) = dropZ n l1 ++ l2.
Proof. unfold dropZ, zlen. intros. apply drop_app_le. lia. Qed.

Lemma takeZ_app_r {A} n (l1 l2 : list A) :
  zlen l1 <= n -> takeZ n (l1 ++ l2) = l1 ++ takeZ (n - zlen l1) l2.
Proof.
  unfold takeZ, zlen. intros. rewrite take_app_ge by lia. do 2 f_equal. lia.
Qed.

Lemma dropZ_app_r {A} n (l1 l2 : list A) :
  zlen l1 <= n -> dropZ n (l1 ++ l2) = dropZ (n - zlen l1) l2.
Proof. unfold dropZ, zlen. intros. rewrite drop_app_ge by lia. f_equal. lia. Qed.

Lemma dropZ_dropZ {A} n m (l : list A) :
  0 <= n -> 0 <= m -> dropZ n (dropZ m l) = dropZ (m + n) l.
Proof. intros. unfold dropZ. rewrite drop_drop. f_equal. lia. Qed.

Lemma takeZ_takeZ_dropZ {A} n m (l : list A) :
  0 <= n -> 0 <= m -> takeZ n l ++ takeZ m (dropZ n l) = takeZ (n + m) l.
Proof.
  intros. unfold takeZ, dropZ. rewrite take_take_drop. f_equal. lia.
Qed.

Lemma elem_of_dropZ {A} n (l : list A) x : x ∈ dropZ n l -> x ∈ l.
Proof. intros H. rewrite <- (takeZ_dropZ n l). apply elem_of_app. by right. Qed.

Lemma elem_of_takeZ {A} n (l : list A) x : x ∈ takeZ n l -> x ∈ l.
Proof. intros H. rewrite <- (takeZ_dropZ n l). apply elem_of_app. by left. Qed.

(** ** Tactics *)

(** Use the computation rule of every successful monadic step in the context. *)
Ltac inv_opt :=
  repeat match goal with
  | H : CHECK ?b = Some _ |- _ =>
      let Hb := fresh "Hcheck" in
      destruct b eqn:Hb; [clear H | discriminate H]
  | H : (_ ≫= _) = Some _ |- _ => apply bind_Some in H as (? & ? & H)
  | H : Some _ = Some _ |- _ => injection H as H
  | H : context [match ?x with (_, _) => _ end] |- _ => destruct x eqn:?
  end.

(** Booleans of the code's conditions to propositions. *)
Ltac bool_prop :=
  repeat match goal with
  | H : (_ && _)%bool = true |- _ => apply andb_true_iff in H as [? ?]
  | H : (_ || _)%bool = false |- _ => apply orb_false_iff in H as [? ?]
  | H : negb _ = true |- _ => apply negb_true_iff in H
  | H : negb _ = false |- _ => apply negb_false_iff in H
  | H : (_ <? _) = true |- _ => apply Z.ltb_lt in H
  | H : (_ <? _) = false |- _ => apply Z.ltb_ge in H
  | H : (_ <=? _) = true |- _ => apply Z.leb_le in H
  | H : (_ <=? _) = false |- _ => apply Z.leb_gt in H
  | H : (_ =? _) = true |- _ => apply Z.eqb_eq in H
  | H : (_ =? _) = false |- _ => apply Z.eqb_neq in H
  | H : bool_decide _ = true |- _ => apply bool_decide_eq_true in H
  | H : bool_decide _ = false |- _ => apply bool_decide_eq_false in H
  end.
