(* ===== verification/CString.v ===== *)
(** * CString: the C library's characters and strings, and [std::string]

    What [strutil], [http] and the other string handling parts use of [<ctype.h>],
    [<string.h>], [strtol], [printf] and [std::string], in the "C" locale.  A C string is
    the list of its bytes without the terminating NUL; [cstr s] is what a C function sees
    of [s.c_str()].  A position in a [std::string] is a [nat], [npos] is [None]. *)

From S2P Require Import Prelude.

(** ** Characters *)

Definition NUL : byte := Byte.x00.
Definition SP : byte := Byte.x20.

Definition between (lo hi : Z) (c : byte) : bool := (lo <=? uchar c) && (uchar c <=? hi).

Definition isspace (c : byte) : bool := (uchar c =? 32) || between 9 13 c.
Definition isdigit (c : byte) : bool := between 48 57 c.
Definition isupper (c : byte) : bool := between 65 90 c.
Definition islower (c : byte) : bool := between 97 122 c.
Definition isalpha (c : byte) : bool := isupper c || islower c.
Definition toupper (c : byte) : byte := if islower c then to_byte (uchar c - 32) else c.
Definition tolower (c : byte) : byte := if isupper c then to_byte (uchar c + 32) else c.

Lemma toupper_tolower c : toupper (tolower c) = toupper c.
Proof. by destruct c. Qed.

Lemma tolower_toupper c : tolower (toupper c) = tolower c.
Proof. by destruct c. Qed.

(** Decide a property of all characters by evaluation. *)
Definition all_bytes : list byte := (fun i => to_byte (Z.of_nat i)) <$> seq 0 256.

Lemma all_bytes_spec (f : byte -> bool) c : forallb f all_bytes = true -> f c = true.
Proof.
  intros H. rewrite forallb_forall in H. apply H. rewrite <- (to_byte_uchar c).
  pose proof (uchar_range c). apply in_map_iff. exists (Z.to_nat (uchar c)).
  split; [by rewrite Z2Nat.id by lia|]. apply in_seq. lia.
Qed.

Ltac check_all_bytes c :=
  match goal with
  | |- ?b = true =>
      match eval pattern c in b with ?f c => apply (all_bytes_spec f); vm_compute; reflexivity end
  end.

#[export] Instance byte_countable : Countable byte.
Proof. refine (inj_countable' uchar to_byte _). intros. apply to_byte_uchar. Defined.

(** ** Lists of characters *)

Fixpoint drop_while (P : byte -> bool) (s : bytes) : bytes :=
  match s with
  | c :: s' => if P c then drop_while P s' else s
  | [] => []
  end.

Fixpoint take_while (P : byte -> bool) (s : bytes) : bytes :=
  match s with
  | c :: s' => if P c then c :: take_while P s' else []
  | [] => []
  end.

(** Not starting with a character of [P]. *)
Definition starts_not (P : byte -> bool) (s : bytes) : Prop :=
  match s with c :: _ => P c = false | [] => True end.

Lemma drop_while_id P s : starts_not P s -> drop_while P s = s.
Proof. destruct s as [|c s]; [done|]. simpl. by intros ->. Qed.

Lemma drop_while_starts P s : starts_not P (drop_while P s).
Proof. induction s as [|c s IH]; simpl; [done|]. destruct (P c) eqn:E; simpl; done. Qed.

Lemma drop_while_app P a s :
  forallb P a = true -> drop_while P (a ++ s) = drop_while P s.
Proof.
  induction a as [|c a IH]; [done|]. cbn. intros H. bool_prop.
  replace (P c) with true by done. auto.
Qed.

Lemma take_while_app P a s :
  forallb P a = true -> starts_not P s -> take_while P (a ++ s) = a.
Proof.
  induction a as [|c a IH]; cbn.
  - intros _. destruct s; cbn; [done|]. by intros ->.
  - intros H Hs. bool_prop. replace (P c) with true by done. by rewrite IH.
Qed.

Lemma take_drop_while P s : take_while P s ++ drop_while P s = s.
Proof. induction s as [|c s IH]; cbn; [done|]. destruct (P c); cbn; by rewrite ?IH. Qed.

Lemma drop_while_suffix P s : exists a, s = a ++ drop_while P s /\ forallb P a = true.
Proof.
  exists (take_while P s). split; [by rewrite take_drop_while|].
  induction s as [|c s IH]; cbn; [done|]. destruct (P c) eqn:E; cbn; [by rewrite E|done].
Qed.

(** By evaluation, for lists that are closed. *)
Lemma not_in (c : byte) (l : bytes) : bool_decide (c ∈ l) = false -> c ∉ l.
Proof. by intros ?%bool_decide_eq_false. Qed.

(** ** C strings *)

Definition not_nul (c : byte) : bool := negb (bool_decide (c = NUL)).

Definition cstr (s : bytes) : bytes := take_while not_nul s.

Lemma cstr_id s : NUL ∉ s -> cstr s = s.
Proof.
  induction s as [|c s IH]; [done|]. rewrite not_elem_of_cons. intros [Hc Hs].
  unfold cstr in *. cbn. unfold not_nul at 1. rewrite bool_decide_false by done. cbn.
  by rewrite IH.
Qed.

(** [strcasecmp(a, b) == 0] *)
Definition strcaseeq (a b : bytes) : bool := bool_decide (tolower <$> cstr a = tolower <$> cstr b).

(** What [strchr(s, c)] points to, for a character that is not NUL. *)
Fixpoint strchr (s : bytes) (c : byte) : option bytes :=
  match s with
  | x :: s' => if bool_decide (x = c) then Some s else strchr s' c
  | [] => None
  end.

Lemma strchr_found a c s : c ∉ a -> strchr (a ++ c :: s) c = Some (c :: s).
Proof.
  induction a as [|x a IH]; cbn; [by rewrite bool_decide_true|].
  rewrite not_elem_of_cons. intros [Hx Ha]. rewrite bool_decide_false by done. auto.
Qed.

(** ** [std::string] *)

Fixpoint starts_with (p s : bytes) : bool :=
  match p, s with
  | [], _ => true
  | x :: p', y :: s' => bool_decide (x = y) && starts_with p' s'
  | _ :: _, [] => false
  end.

(** [s.find(p)] *)
Fixpoint find_sub (p s : bytes) : option nat :=
  if starts_with p s then Some O
  else match s with [] => None | _ :: s' => S <$> find_sub p s' end.

(** [s.find(p, pos)] *)
Definition string_find (s p : bytes) (pos : nat) : option nat :=
  if (pos <=? length s)%nat then (fun i => pos + i)%nat <$> find_sub p (drop pos s) else None.

(** [s.rfind(p)] *)
Fixpoint string_rfind (s p : bytes) : option nat :=
  match s with
  | [] => if starts_with p [] then Some O else None
  | _ :: s' =>
      match string_rfind s' p with
      | Some i => Some (S i)
      | None => if starts_with p s then Some O else None
      end
  end.

(** [s.substr(pos, n)], for a [pos] that is not beyond the end. *)
Definition substr (s : bytes) (pos n : nat) : bytes := take n (drop pos s).

Lemma starts_with_spec p s : starts_with p s = true <-> exists b, s = p ++ b.
Proof.
  revert s. induction p as [|x p IH]; intros s; cbn; [by split; eauto|].
  destruct s as [|y s]; [split; [done|intros (b & ?); done]|].
  rewrite andb_true_iff, bool_decide_eq_true, IH. split.
  - intros (-> & b & ->). eauto.
  - intros (b & [= -> ->]). eauto.
Qed.

Lemma starts_with_app p s : starts_with p (p ++ s) = true.
Proof. apply starts_with_spec. eauto. Qed.

Lemma starts_with_false p s b : starts_with p s = false -> s <> p ++ b.
Proof. intros H ->. by rewrite starts_with_app in H. Qed.

Lemma find_sub_Some p s i : find_sub p s = Some i ->
  exists a b, s = a ++ p ++ b /\ length a = i /\
    forall a' b', s = a' ++ p ++ b' -> (length a <= length a')%nat.
Proof.
  revert i. induction s as [|c s IH]; intros i; simpl.
  - destruct (starts_with p []) eqn:E; [|done]. intros [= <-].
    apply starts_with_spec in E as (b & E). exists [], b. split_and!; [done|done|simpl; lia].
  - destruct (starts_with p (c :: s)) eqn:E.
    + intros [= <-]. apply starts_with_spec in E as (b & ->).
      exists [], b. split_and!; [done|done|simpl; lia].
    + destruct (find_sub p s) as [j|] eqn:Hj; [|done]. intros [= <-].
      destruct (IH j eq_refl) as (a & b & -> & Hl & Hmin).
      exists (c :: a), b. split_and!; [done|simpl; lia|]. intros [|x a'] b' H.
      * exfalso. by eapply (starts_with_false p).
      * simplify_eq/=. apply le_n_S. by eapply Hmin.
Qed.

Lemma find_sub_None p s : find_sub p s = None -> forall a b, s <> a ++ p ++ b.
Proof.
  induction s as [|c s IH]; cbn [find_sub]; destruct (starts_with p _) eqn:E; try done; intros H a b.
  - destruct a; [by apply (starts_with_false p)|done].
  - destruct (find_sub p s); [done|]. destruct a as [|x a]; [by apply (starts_with_false p)|].
    intros [= _ H']. by eapply (IH eq_refl).
Qed.

Lemma find_char a c s : c ∉ a -> find_sub [c] (a ++ c :: s) = Some (length a).
Proof.
  induction a as [|x a IH]; simpl; [by rewrite bool_decide_true|].
  rewrite not_elem_of_cons. intros [Hx Ha]. rewrite bool_decide_false by done. cbn.
  by rewrite IH.
Qed.

Lemma find_char_None c s : c ∉ s -> find_sub [c] s = None.
Proof.
  intros Hc. destruct (find_sub [c] s) eqn:E; [|done].
  apply find_sub_Some in E as (a & b & -> & _). set_solver.
Qed.

(** The order of [std::map<std::string, _>]: bytes as [unsigned char], as [memcmp] has it. *)
Fixpoint bytes_leb (a b : bytes) : bool :=
  match a, b with
  | [], _ => true
  | _ :: _, [] => false
  | x :: a', y :: b' => (uchar x <? uchar y) || ((uchar x =? uchar y) && bytes_leb a' b')
  end.

Definition bytes_ltb (a b : bytes) : bool := negb (bytes_leb b a).

Lemma bytes_leb_app_l p a b : bytes_leb (p ++ a) (p ++ b) = bytes_leb a b.
Proof. induction p as [|c p IH]; [done|]. cbn. by rewrite Z.ltb_irrefl, Z.eqb_refl, IH. Qed.

(** ** Numbers *)

(** The decimal digits of [0 <= z < 10 ^ (fuel + 1)]. *)
Fixpoint digits_of (fuel : nat) (z : Z) : bytes :=
  match fuel with
  | O => [to_byte (48 + z mod 10)]
  | S fuel =>
      if z <? 10 then [to_byte (48 + z)]
      else digits_of fuel (z / 10) ++ [to_byte (48 + z mod 10)]
  end.

(** [printf("%d", z)]: the twenty digits are enough for any 64-bit integer. *)
Definition print_int (z : Z) : bytes :=
  if z <? 0 then Byte.x2d :: digits_of 19 (- z) else digits_of 19 z.

Definition digit_val (c : byte) : Z := uchar c - 48.

Definition digits_val (s : bytes) : Z := foldl (fun v c => v * 10 + digit_val c) 0 s.

Definition LONG_MAX : Z := 2 ^ 63 - 1.
Definition LONG_MIN : Z := - 2 ^ 63.

(** [strtol(s, NULL, 10)]: its result, and whether it sets [errno] (to [ERANGE]). *)
Definition strtol (s : bytes) : Z * bool :=
  let s := drop_while isspace (cstr s) in
  let '(neg, s) :=
    match s with
    | c :: s' => if bool_decide (c = Byte.x2d) then (true, s')
                 else if bool_decide (c = Byte.x2b) then (false, s') else (false, s)
    | [] => (false, s)
    end in
  let v := digits_val (take_while isdigit s) in
  let v := if neg : bool then - v else v in
  if v <? LONG_MIN then (LONG_MIN, true)
  else if LONG_MAX <? v then (LONG_MAX, true)
  else (v, false).

Lemma digit_byte d : 0 <= d < 10 -> isdigit (to_byte (48 + d)) = true /\ digit_val (to_byte (48 + d)) = d.
Proof.
  intros Hd. unfold isdigit, between, digit_val. rewrite uchar_to_byte_small by lia.
  split; [|lia]. apply andb_true_iff. split; apply Z.leb_le; lia.
Qed.

Lemma digits_of_spec fuel z : 0 <= z < 10 ^ (Z.of_nat fuel + 1) ->
  forallb isdigit (digits_of fuel z) = true /\ digits_val (digits_of fuel z) = z /\
  digits_of fuel z <> [].
Proof.
  revert z. induction fuel as [|fuel IH]; intros z Hz.
  - change (10 ^ (Z.of_nat 0 + 1)) with 10 in Hz. cbn [digits_of]. rewrite Z.mod_small by lia.
    destruct (digit_byte z) as [H1 H2]; [lia|]. cbn. rewrite H1. unfold digits_val. cbn. by rewrite H2.
  - cbn [digits_of]. destruct (Z.ltb_spec z 10).
    + destruct (digit_byte z) as [H1 H2]; [lia|]. cbn. rewrite H1. unfold digits_val. cbn. by rewrite H2.
    + assert (Hz' : 0 <= z / 10 < 10 ^ (Z.of_nat fuel + 1)).
      { replace (Z.of_nat (S fuel) + 1) with (Z.succ (Z.of_nat fuel + 1)) in Hz by lia.
        rewrite Z.pow_succ_r in Hz by lia. dlia. }
      destruct (IH _ Hz') as (H1 & H2 & H3).
      destruct (digit_byte (z mod 10)) as [H4 H5]; [dlia|].
      rewrite forallb_app, H1. cbn. rewrite H4. unfold digits_val in *. rewrite foldl_app, H2. cbn.
      rewrite H5. split_and!; [done|dlia|]. by destruct (digits_of fuel (z / 10)).
Qed.

Lemma isdigit_spec c : isdigit c = true ->
  isspace c = false /\ c <> Byte.x2d /\ c <> Byte.x2b /\ c <> NUL /\ c <> SP /\ c <> Byte.x0d.
Proof. by destruct c. Qed.

Lemma print_int_chars z c : - 2 ^ 63 <= z < 2 ^ 63 -> c ∈ print_int z ->
  c = Byte.x2d \/ isdigit c = true.
Proof.
  intros Hz Hc. unfold print_int in Hc. destruct (Z.ltb_spec z 0).
  - apply elem_of_cons in Hc as [->|Hc]; [by left|].
    destruct (digits_of_spec 19 (- z)) as (H1 & _); [lia|].
    rewrite forallb_forall in H1. right. apply H1. by apply list_elem_of_In.
  - destruct (digits_of_spec 19 z) as (H1 & _); [lia|].
    rewrite forallb_forall in H1. right. apply H1. by apply list_elem_of_In.
Qed.

(** [strtol] reads back what [%d] prints. *)
Lemma strtol_print_int z : - 2 ^ 63 <= z < 2 ^ 63 -> strtol (print_int z) = (z, false).
Proof.
  intros Hz. unfold strtol.
  assert (Hc : cstr (print_int z) = print_int z).
  { apply cstr_id. intros Hc. apply print_int_chars in Hc as [|Hc]; done. }
  rewrite Hc. unfold print_int. destruct (Z.ltb_spec z 0).
  - destruct (digits_of_spec 19 (- z)) as (H1 & H2 & H3); [lia|]. cbn [drop_while].
    change (isspace Byte.x2d) with false. cbn iota. rewrite bool_decide_true by done.
    rewrite <- (app_nil_r (digits_of _ _)), take_while_app, H2 by done.
    unfold LONG_MIN, LONG_MAX. rewrite !(proj2 (Z.ltb_ge _ _)) by lia. f_equal. lia.
  - destruct (digits_of_spec 19 z) as (H1 & H2 & H3); [lia|].
    destruct (digits_of 19 z) as [|c l] eqn:E; [done|]. cbn [forallb] in H1. bool_prop.
    destruct (isdigit_spec c) as (Hs & ? & ? & ?); [done|]. cbn [drop_while]. rewrite Hs.
    rewrite !bool_decide_false by done.
    rewrite <- (app_nil_r (c :: l)), take_while_app, H2; [|by apply andb_true_iff|done].
    unfold LONG_MIN, LONG_MAX. by rewrite !(proj2 (Z.ltb_ge _ _)) by lia.
Qed.
