(* ===== verification/Base64.v ===== *)
(** * Base64: [io/util/base64.h], [io/util/base64.cc]

    The streaming encoder and decoder of [whisper::base64].  The C code is a
    coroutine: a [switch] into the middle of a [while (1)] whose position is saved
    in [step], with the partial result in [result] / [decchar].  One [EncodeChar]
    (resp. [DecodeChar]) is what that loop does between two reads of its input, so
    a block is the fold of the bytes read and a later call resumes where the
    earlier one stopped.

    The buffers the callers pass are the lists of bytes written; the size they
    must have is the subject of [EncodeString_fits]. *)

From S2P Require Import Prelude.

Module Base64.

(** ** Encoding *)

Inductive EncodeStep := ENC_STEP_A | ENC_STEP_B | ENC_STEP_C.

Record EncodeState := mkEncodeState {
  enc_step : EncodeStep;
  enc_result : byte;
  enc_stepcount : Z;
}.

Definition InitEncodeState : EncodeState := mkEncodeState ENC_STEP_A (to_byte 0) 0.

(** The array holds the 64 digits and the terminating NUL of the literal. *)
Definition kEncoding : bytes :=
  bstr "ABCDEFGHIJKLMNOPQRSTUVWXYZabcdefghijklmnopqrstuvwxyz0123456789+/" ++ [to_byte 0].

Definition EncodeValue (value_in : byte) : byte :=
  if zlen kEncoding <=? size_t (schar value_in) then Byte.x3d
  else default (to_byte 0) (kEncoding !! Z.to_nat (schar value_in)).

Definition kCharsPerLine : Z := 72.

(** One character of [EncodeBlock]'s input: the new state and what is written. *)
Definition EncodeChar (chars_per_line : Z) (s : EncodeState) (c : byte)
    : EncodeState * bytes :=
  let fragment := schar c in
  match enc_step s with
  | ENC_STEP_A =>
      let result := to_byte (Z.shiftr (Z.land fragment 0xfc) 2) in
      (mkEncodeState ENC_STEP_B (to_byte (Z.shiftl (Z.land fragment 0x03) 4)) (enc_stepcount s),
       [EncodeValue result])
  | ENC_STEP_B =>
      let result := to_byte (Z.lor (schar (enc_result s)) (Z.shiftr (Z.land fragment 0xf0) 4)) in
      (mkEncodeState ENC_STEP_C (to_byte (Z.shiftl (Z.land fragment 0x0f) 2)) (enc_stepcount s),
       [EncodeValue result])
  | ENC_STEP_C =>
      let result := to_byte (Z.lor (schar (enc_result s)) (Z.shiftr (Z.land fragment 0xc0) 6)) in
      let result' := to_byte (Z.shiftr (Z.land fragment 0x3f) 0) in
      let stepcount := enc_stepcount s + 1 in
      if (0 <? chars_per_line) && (stepcount =? Z.quot chars_per_line 4) then
        (mkEncodeState ENC_STEP_A result' 0,
         [EncodeValue result; EncodeValue result'; Byte.x0a])
      else
        (mkEncodeState ENC_STEP_A result' stepcount,
         [EncodeValue result; EncodeValue result'])
  end.

Fixpoint EncodeBlock (chars_per_line : Z) (s : EncodeState) (plaintext_in : bytes)
    : EncodeState * bytes :=
  match plaintext_in with
  | [] => (s, [])
  | c :: rest =>
      let '(s1, out) := EncodeChar chars_per_line s c in
      let '(s2, out') := EncodeBlock chars_per_line s1 rest in
      (s2, out ++ out')
  end.

Definition EncodeBlockEnd (s : EncodeState) : bytes :=
  match enc_step s with
  | ENC_STEP_B => [EncodeValue (enc_result s); Byte.x3d; Byte.x3d]
  | ENC_STEP_C => [EncodeValue (enc_result s); Byte.x3d]
  | ENC_STEP_A => []
  end.

(** [Encoder::Encode] then [Encoder::EncodeEnd] on a fresh encoder. *)
Definition EncodeAll (chars_per_line : Z) (s : bytes) : bytes :=
  let '(st, out) := EncodeBlock chars_per_line InitEncodeState s in
  out ++ EncodeBlockEnd st.

(** The fourth argument of [Encoder::Encode] is [chars_per_line]; [EncodeString]
    passes the length of its buffer there. *)
Definition EncodeString_buflen (s : bytes) : Z := int32 (2 * zlen s + 4).

Definition EncodeString (s : bytes) : bytes := EncodeAll (EncodeString_buflen s) s.

Definition EncodeVector (v : bytes) : bytes := EncodeAll (EncodeString_buflen v) v.

(** ** Decoding *)

Inductive DecodeStep := DEC_STEP_A | DEC_STEP_B | DEC_STEP_C | DEC_STEP_D.

Record DecodeState := mkDecodeState {
  dec_step : DecodeStep;
  dec_decchar : byte;
}.

Definition InitDecodeState : DecodeState := mkDecodeState DEC_STEP_A (to_byte 0).

Definition kDecoding : list Z :=
  [62; -1; -1; -1; 63; 52; 53; 54; 55; 56; 57; 58; 59; 60; 61;
   -1; -1; -1; -2; -1; -1; -1;
   0; 1; 2; 3; 4; 5; 6; 7; 8; 9; 10;
   11; 12; 13; 14; 15; 16; 17; 18; 19; 20; 21; 22; 23; 24; 25;
   -1; -1; -1; -1; -1; -1;
   26; 27; 28; 29; 30; 31; 32; 33; 34;
   35; 36; 37; 38; 39; 40; 41; 42; 43; 44; 45; 46; 47; 48; 49; 50; 51].

(** [value_in -= 43] is computed in a [char]. *)
Definition DecodeValue (value_in : byte) : Z :=
  let value_in := wrapS 8 (schar value_in - 43) in
  if (value_in <? 0) || (zlen kDecoding <=? size_t value_in) then -1
  else default (-1) (kDecoding !! Z.to_nat value_in).

Section Decode.
(** What the cell after the last complete byte holds when a group of four
    characters ends: the caller's buffer is not initialised there. *)
Variable stale : byte.

(** One character of [DecodeBlock]'s input; characters of negative value are
    skipped by the inner [do .. while (fragment < 0)]. *)
Definition DecodeChar (s : DecodeState) (c : byte) : DecodeState * bytes :=
  let fragment := wrapS 8 (DecodeValue c) in
  if fragment <? 0 then (s, [])
  else
    let decchar := uchar (dec_decchar s) in
    match dec_step s with
    | DEC_STEP_A =>
        (mkDecodeState DEC_STEP_B (to_byte (Z.shiftl (Z.land fragment 0x3f) 2)), [])
    | DEC_STEP_B =>
        (mkDecodeState DEC_STEP_C (to_byte (Z.shiftl (Z.land fragment 0x0f) 4)),
         [to_byte (Z.lor decchar (Z.shiftr (Z.land fragment 0x30) 4))])
    | DEC_STEP_C =>
        (mkDecodeState DEC_STEP_D (to_byte (Z.shiftl (Z.land fragment 0x03) 6)),
         [to_byte (Z.lor decchar (Z.shiftr (Z.land fragment 0x3c) 2))])
    | DEC_STEP_D =>
        (mkDecodeState DEC_STEP_A stale,
         [to_byte (Z.lor decchar (Z.land fragment 0x3f))])
    end.

Fixpoint DecodeBlock (s : DecodeState) (code_in : bytes) : DecodeState * bytes :=
  match code_in with
  | [] => (s, [])
  | c :: rest =>
      let '(s1, out) := DecodeChar s c in
      let '(s2, out') := DecodeBlock s1 rest in
      (s2, out ++ out')
  end.

(** [Decoder::Decode] on a fresh decoder. *)
Definition Decode (code_in : bytes) : bytes := (DecodeBlock InitDecodeState code_in).2.
End Decode.

(** ** The reference: RFC 4648 groups, with the optional line breaks *)

Definition digit (v : Z) : byte := EncodeValue (to_byte v).

Definition quad (a b c : byte) : bytes :=
  let n := uchar a * 65536 + uchar b * 256 + uchar c in
  [digit (n / 262144); digit (n / 4096 mod 64); digit (n / 64 mod 64); digit (n mod 64)].

(** [n] is the number of complete groups on the current line. *)
Fixpoint rfc4648 (chars_per_line n : Z) (s : bytes) : bytes :=
  match s with
  | a :: b :: c :: rest =>
      quad a b c ++
      (if (0 <? chars_per_line) && (n + 1 =? chars_per_line / 4)
       then Byte.x0a :: rfc4648 chars_per_line 0 rest
       else rfc4648 chars_per_line (n + 1) rest)
  | [a; b] => take 3 (quad a b Byte.x00) ++ [Byte.x3d]
  | [a] => take 2 (quad a Byte.x00 Byte.x00) ++ [Byte.x3d; Byte.x3d]
  | [] => []
  end.

Lemma bytes_ind3 (P : bytes -> Prop) :
  P [] -> (forall a, P [a]) -> (forall a b, P [a; b]) ->
  (forall a b c s, P s -> P (a :: b :: c :: s)) -> forall s, P s.
Proof.
  intros H0 H1 H2 H3. fix IH 1. intros [|a [|b [|c s]]]; [done|done|done|].
  apply H3, IH.
Qed.

(** The six-bit fields as the code computes them, as arithmetic. *)
Lemma field1 a : to_byte (Z.shiftr (Z.land (schar a) 0xfc) 2) = to_byte (uchar a / 4).
Proof. by destruct a. Qed.
Lemma field2_hi a : schar (to_byte (Z.shiftl (Z.land (schar a) 0x03) 4)) = (uchar a mod 4) * 16.
Proof. by destruct a. Qed.
Lemma field2_lo b : Z.shiftr (Z.land (schar b) 0xf0) 4 = uchar b / 16.
Proof. by destruct b. Qed.
Lemma field3_hi b : schar (to_byte (Z.shiftl (Z.land (schar b) 0x0f) 2)) = (uchar b mod 16) * 4.
Proof. by destruct b. Qed.
Lemma field3_lo c : Z.shiftr (Z.land (schar c) 0xc0) 6 = uchar c / 64.
Proof. by destruct c. Qed.
Lemma field4 c : to_byte (Z.shiftr (Z.land (schar c) 0x3f) 0) = to_byte (uchar c mod 64).
Proof. by destruct c. Qed.

Lemma field2 a b :
  to_byte (Z.lor (schar (to_byte (Z.shiftl (Z.land (schar a) 0x03) 4)))
                 (Z.shiftr (Z.land (schar b) 0xf0) 4))
  = to_byte ((uchar a mod 4) * 16 + uchar b / 16).
Proof.
  rewrite field2_hi, field2_lo. pose proof (uchar_range b).
  rewrite (lor_disjoint 4); [done|lia|by rewrite Z.mod_mul|dlia].
Qed.

Lemma field3 b c :
  to_byte (Z.lor (schar (to_byte (Z.shiftl (Z.land (schar b) 0x0f) 2)))
                 (Z.shiftr (Z.land (schar c) 0xc0) 6))
  = to_byte ((uchar b mod 16) * 4 + uchar c / 64).
Proof.
  rewrite field3_hi, field3_lo. pose proof (uchar_range c).
  rewrite (lor_disjoint 2); [done|lia|by rewrite Z.mod_mul|dlia].
Qed.

Lemma quad_fields a b c :
  quad a b c = [digit (uchar a / 4); digit ((uchar a mod 4) * 16 + uchar b / 16);
                digit ((uchar b mod 16) * 4 + uchar c / 64); digit (uchar c mod 64)].
Proof.
  unfold quad. pose proof (uchar_range a). pose proof (uchar_range b). pose proof (uchar_range c).
  assert (Ha : (uchar a * 65536 + uchar b * 256 + uchar c) / 262144 = uchar a / 4) by dlia.
  assert (Hb : (uchar a * 65536 + uchar b * 256 + uchar c) / 4096 mod 64
               = (uchar a mod 4) * 16 + uchar b / 16) by dlia.
  assert (Hc : (uchar a * 65536 + uchar b * 256 + uchar c) / 64 mod 64
               = (uchar b mod 16) * 4 + uchar c / 64) by dlia.
  assert (Hd : (uchar a * 65536 + uchar b * 256 + uchar c) mod 64 = uchar c mod 64) by dlia.
  by rewrite Ha, Hb, Hc, Hd.
Qed.

Lemma EncodeBlock_quad cpl r n a b c s :
  EncodeBlock cpl (mkEncodeState ENC_STEP_A r n) (a :: b :: c :: s) =
  let nl := (0 <? cpl) && (n + 1 =? Z.quot cpl 4) in
  let '(st, out) := EncodeBlock cpl
      (mkEncodeState ENC_STEP_A (to_byte (uchar c mod 64)) (if nl then 0 else n + 1)) s in
  (st, quad a b c ++ (if nl then [Byte.x0a] else []) ++ out).
Proof.
  rewrite quad_fields. cbn [EncodeBlock]. unfold EncodeChar at 1 2 3. cbn [enc_step enc_result enc_stepcount].
  rewrite field1, field2, field3, field4. unfold digit.
  destruct ((0 <? cpl) && (n + 1 =? Z.quot cpl 4)) eqn:E; cbn [enc_step enc_result enc_stepcount];
    by destruct (EncodeBlock cpl _ s) as [st out].
Qed.

Lemma EncodeBlock_rfc cpl r n s :
  let '(st, out) := EncodeBlock cpl (mkEncodeState ENC_STEP_A r n) s in
  out ++ EncodeBlockEnd st = rfc4648 cpl n s.
Proof.
  revert r n. induction s as [|a|a b|a b c s IH] using bytes_ind3; intros r n.
  - done.
  - cbn -[quad]. rewrite field1, quad_fields. cbn.
    rewrite Z.add_0_r. unfold digit. do 3 f_equal. by destruct a.
  - cbn -[quad]. rewrite field1, field2, quad_fields. cbn.
    rewrite Z.add_0_r. unfold digit. do 4 f_equal. by destruct b.
  - rewrite EncodeBlock_quad. cbn -[quad EncodeBlock Z.quot Z.div].
    assert (Hq : (0 <? cpl) && (n + 1 =? Z.quot cpl 4) = (0 <? cpl) && (n + 1 =? cpl / 4)).
    { destruct (0 <? cpl) eqn:E; [|done]. bool_prop. by rewrite Z.quot_div_nonneg by lia. }
    rewrite Hq. destruct ((0 <? cpl) && (n + 1 =? cpl / 4)).
    + specialize (IH (to_byte (uchar c mod 64)) 0).
      destruct (EncodeBlock cpl _ s) as [st out]. by rewrite <- IH.
    + specialize (IH (to_byte (uchar c mod 64)) (n + 1)).
      destruct (EncodeBlock cpl _ s) as [st out]. by rewrite <- IH.
Qed.

Lemma EncodeAll_rfc4648 chars_per_line s : EncodeAll chars_per_line s = rfc4648 chars_per_line 0 s.
Proof.
  unfold EncodeAll. pose proof (EncodeBlock_rfc chars_per_line (to_byte 0) 0 s) as H.
  by destruct (EncodeBlock _ _ s).
Qed.

(** The encoder computes the base64 encoding of RFC 4648 of any input, padding
    included, broken into lines of [chars_per_line] characters when that argument
    is positive. *)
Theorem Encode_rfc4648 (chars_per_line : Z) (s : bytes) :
  EncodeAll chars_per_line s = rfc4648 chars_per_line 0 s.
Proof. apply EncodeAll_rfc4648. Qed.

(** ** Decoding what was encoded *)

Lemma digit_value v : 0 <= v < 64 -> wrapS 8 (DecodeValue (digit v)) = v.
Proof.
  intros Hv. apply Z.eqb_eq.
  by apply (below_spec 64 (fun v => wrapS 8 (DecodeValue (digit v)) =? v)).
Qed.

Section DecodeEncoded.
Variable stale : byte.

Lemma DecodeChar_skip s c : (wrapS 8 (DecodeValue c) <? 0) = true -> DecodeChar stale s c = (s, []).
Proof. intros H. unfold DecodeChar. by rewrite H. Qed.

Lemma DecodeChar_digit s v : 0 <= v < 64 ->
  DecodeChar stale s (digit v) =
  match dec_step s with
  | DEC_STEP_A => (mkDecodeState DEC_STEP_B (to_byte (v * 4)), [])
  | DEC_STEP_B => (mkDecodeState DEC_STEP_C (to_byte ((v mod 16) * 16)),
                   [to_byte (Z.lor (uchar (dec_decchar s)) (v / 16))])
  | DEC_STEP_C => (mkDecodeState DEC_STEP_D (to_byte ((v mod 4) * 64)),
                   [to_byte (Z.lor (uchar (dec_decchar s)) (v / 4))])
  | DEC_STEP_D => (mkDecodeState DEC_STEP_A stale,
                   [to_byte (Z.lor (uchar (dec_decchar s)) v)])
  end.
Proof.
  intros Hv. unfold DecodeChar. rewrite digit_value by done.
  destruct (Z.ltb_spec v 0); [lia|].
  assert (Hf : (Z.shiftl (Z.land v 0x3f) 2 =? v * 4) && (Z.shiftl (Z.land v 0x0f) 4 =? (v mod 16) * 16)
    && (Z.shiftl (Z.land v 0x03) 6 =? (v mod 4) * 64) && (Z.shiftr (Z.land v 0x30) 4 =? v / 16)
    && (Z.shiftr (Z.land v 0x3c) 2 =? v / 4) && (Z.land v 0x3f =? v) = true).
  { by apply (below_spec 64 (fun v => (Z.shiftl (Z.land v 0x3f) 2 =? v * 4) && (Z.shiftl (Z.land v 0x0f) 4 =? (v mod 16) * 16)
    && (Z.shiftl (Z.land v 0x03) 6 =? (v mod 4) * 64) && (Z.shiftr (Z.land v 0x30) 4 =? v / 16)
    && (Z.shiftr (Z.land v 0x3c) 2 =? v / 4) && (Z.land v 0x3f =? v))). }
  bool_prop. destruct (dec_step s); congruence.
Qed.

Lemma join_byte k p h l : p = 2 ^ k -> 0 <= k -> 0 <= h -> 0 <= l < p -> h * p + l < 256 ->
  to_byte (Z.lor (uchar (to_byte (h * p))) l) = to_byte (h * p + l).
Proof.
  intros -> ????. assert (0 < 2 ^ k) by (apply Z.pow_pos_nonneg; lia).
  rewrite uchar_to_byte_small by (split; [apply Z.mul_nonneg_nonneg|]; lia).
  rewrite (lor_disjoint k); [done|lia|by rewrite Z.mod_mul by lia|lia].
Qed.

Lemma DecodeBlock_app s l1 l2 :
  DecodeBlock stale s (l1 ++ l2) =
  let '(s1, o1) := DecodeBlock stale s l1 in
  let '(s2, o2) := DecodeBlock stale s1 l2 in (s2, o1 ++ o2).
Proof.
  revert s. induction l1 as [|c l1 IH]; intros s; cbn [app DecodeBlock].
  - by destruct (DecodeBlock stale s l2).
  - destruct (DecodeChar stale s c) as [s1 o1]. rewrite IH.
    destruct (DecodeBlock stale s1 l1) as [s2 o2].
    destruct (DecodeBlock stale s2 l2). by rewrite app_assoc.
Qed.

(** The three bytes of a quad, one character after the other. *)
Lemma Decode_quad2 d a b c :
  DecodeBlock stale (mkDecodeState DEC_STEP_A d) (take 2 (quad a b c)) =
  (mkDecodeState DEC_STEP_C (to_byte ((uchar b / 16) * 16)), [a]).
Proof.
  pose proof (uchar_range a). pose proof (uchar_range b). rewrite quad_fields.
  cbn [take DecodeBlock].
  rewrite DecodeChar_digit by dlia. cbn [dec_step].
  rewrite DecodeChar_digit by dlia. cbn [dec_step dec_decchar app].
  rewrite (join_byte 2 4 (uchar a / 4)) by dlia.
  do 3 f_equal.
  - f_equal. dlia.
  - apply to_byte_eq. dlia.
Qed.

Lemma Decode_quad3 d a b c :
  DecodeBlock stale (mkDecodeState DEC_STEP_A d) (take 3 (quad a b c)) =
  (mkDecodeState DEC_STEP_D (to_byte ((uchar c / 64) * 64)), [a; b]).
Proof.
  pose proof (uchar_range b). pose proof (uchar_range c).
  assert (Ht : take 3 (quad a b c) =
    take 2 (quad a b c) ++ [digit ((uchar b mod 16) * 4 + uchar c / 64)]) by (by rewrite quad_fields).
  rewrite Ht, DecodeBlock_app, Decode_quad2. cbn [DecodeBlock].
  rewrite DecodeChar_digit by dlia. cbn [dec_step dec_decchar app].
  rewrite (join_byte 4 16 (uchar b / 16)) by dlia. do 3 f_equal.
  - f_equal. dlia.
  - f_equal. apply to_byte_eq. dlia.
Qed.

Lemma Decode_quad d a b c :
  DecodeBlock stale (mkDecodeState DEC_STEP_A d) (quad a b c) =
  (mkDecodeState DEC_STEP_A stale, [a; b; c]).
Proof.
  pose proof (uchar_range c).
  rewrite <- (take_drop 3 (quad a b c)), DecodeBlock_app, Decode_quad3, quad_fields.
  cbn [drop DecodeBlock]. rewrite DecodeChar_digit by dlia. cbn [dec_step dec_decchar app].
  rewrite (join_byte 6 64 (uchar c / 64)) by dlia. do 4 f_equal.
  apply to_byte_eq. dlia.
Qed.

Lemma Decode_rfc4648 cpl n d s :
  (DecodeBlock stale (mkDecodeState DEC_STEP_A d) (rfc4648 cpl n s)).2 = s.
Proof.
  revert n d. induction s as [|a|a b|a b c s IH] using bytes_ind3; intros n d.
  - done.
  - cbn [rfc4648]. rewrite DecodeBlock_app, Decode_quad2. cbn [DecodeBlock].
    by rewrite !DecodeChar_skip.
  - cbn [rfc4648]. rewrite DecodeBlock_app, Decode_quad3. cbn [DecodeBlock].
    by rewrite !DecodeChar_skip.
  - cbn [rfc4648]. rewrite DecodeBlock_app, Decode_quad.
    destruct (_ && _); cbn [DecodeBlock]; rewrite ?DecodeChar_skip by done.
    + specialize (IH 0 stale). destruct (DecodeBlock _ _ _). cbn in *. by rewrite IH.
    + specialize (IH (n + 1) stale). destruct (DecodeBlock _ _ _). cbn in *. by rewrite IH.
Qed.
End DecodeEncoded.

Lemma Decode_EncodeAll stale chars_per_line s : Decode stale (EncodeAll chars_per_line s) = s.
Proof. rewrite EncodeAll_rfc4648. apply Decode_rfc4648. Qed.

(** C26: Decoding what the encoder produced, whatever the line length, gives back the
    bytes that were encoded, for all inputs. *)
Theorem Decode_Encode (stale : byte) (chars_per_line : Z) (s : bytes) :
  Decode stale (EncodeAll chars_per_line s) = s.
Proof. apply Decode_EncodeAll. Qed.

(** ** Sizes *)

Lemma zlen_rfc4648_nolines cpl n s :
  0 <= n -> cpl <= 0 \/ n + zlen s / 3 < cpl / 4 ->
  rfc4648 cpl n s = rfc4648 0 0 s /\ zlen (rfc4648 0 0 s) = (zlen s + 2) / 3 * 4.
Proof.
  assert (H0 : forall n' t, rfc4648 0 n' t = rfc4648 0 0 t).
  { intros n' t. revert n'. induction t as [|a|a b|a b c t IH] using bytes_ind3; intros n'; try done.
    cbn [rfc4648]. change (0 <? 0) with false. cbn [andb]. by rewrite IH, (IH (0 + 1)). }
  revert n. induction s as [|a|a b|a b c s IH] using bytes_ind3; intros n Hn Hcpl; try done.
  cbn [rfc4648]. rewrite !zlen_cons in Hcpl.
  assert (Hdiv : (1 + (1 + (1 + zlen s))) / 3 = zlen s / 3 + 1) by dlia.
  pose proof (zlen_nonneg s). assert (0 <= zlen s / 3) by dlia.
  destruct (IH (n + 1)) as [IH1 IH2]; [lia|lia|].
  assert (Hb : (0 <? cpl) && (n + 1 =? cpl / 4) = false).
  { destruct Hcpl; [apply andb_false_intro1, Z.ltb_ge; lia|apply andb_false_intro2, Z.eqb_neq; lia]. }
  change (0 <? 0) with false. cbn [andb]. rewrite Hb, IH1, (H0 (0 + 1)). split; [done|].
  rewrite zlen_app, IH2, !zlen_cons. unfold quad. rewrite !zlen_cons, zlen_nil. dlia.
Qed.

Lemma EncodeBlock_len cpl r n s :
  0 <= n ->
  let '(st, out) := EncodeBlock cpl (mkEncodeState ENC_STEP_A r n) s in zlen out <= 2 * zlen s.
Proof.
  revert r n. induction s as [|a|a b|a b c s IH] using bytes_ind3; intros r n Hn.
  - done.
  - cbn. done.
  - cbn. done.
  - rewrite EncodeBlock_quad. cbv zeta.
    destruct ((0 <? cpl) && (n + 1 =? Z.quot cpl 4)) eqn:E.
    + specialize (IH (to_byte (uchar c mod 64)) 0).
      destruct (EncodeBlock _ _ s). rewrite !zlen_app, !zlen_cons. unfold quad.
      rewrite !zlen_cons, !zlen_nil. lia.
    + specialize (IH (to_byte (uchar c mod 64)) (n + 1)).
      destruct (EncodeBlock _ _ s). rewrite !zlen_app, !zlen_cons. unfold quad.
      rewrite !zlen_cons, !zlen_nil. lia.
Qed.

(** [EncodeString] never writes past its buffer: the text and its terminating NUL
    fit in the [2 * size + 4] bytes it allocates, the text has the length of the
    RFC 4648 encoding, and no line break is inserted although the buffer length is
    passed as the line length; the block encoder on a fresh state needs at most
    twice its input. *)
Theorem EncodeString_fits (s : bytes) :
  2 * zlen s + 4 < 2 ^ 31 ->
  zlen (EncodeString s) + 1 <= EncodeString_buflen s /\
  zlen (EncodeString s) = (zlen s + 2) / 3 * 4 /\
  EncodeString s = rfc4648 0 0 s /\
  zlen (EncodeBlock (EncodeString_buflen s) InitEncodeState s).2 <= 2 * zlen s.
Proof.
  intros Hs. pose proof (zlen_nonneg s).
  assert (Hbuf : EncodeString_buflen s = 2 * zlen s + 4) by (apply wrapS_small; lia).
  assert (Henc : EncodeString s = rfc4648 (2 * zlen s + 4) 0 s).
  { unfold EncodeString, EncodeAll. rewrite Hbuf.
    pose proof (EncodeBlock_rfc (2 * zlen s + 4) (to_byte 0) 0 s) as H'.
    by destruct (EncodeBlock _ _ s). }
  destruct (zlen_rfc4648_nolines (2 * zlen s + 4) 0 s) as [H1 H2]; [lia|right; dlia|].
  rewrite Henc, Hbuf, H1, H2. repeat split.
  - dlia.
  - pose proof (EncodeBlock_len (2 * zlen s + 4) (to_byte 0) 0 s) as H'.
    unfold InitEncodeState. destruct (EncodeBlock _ _ s). cbn. lia.
Qed.

Lemma EncodeString_fits_witness :
  2 * zlen (bstr "Aladdin:open sesame") + 4 < 2 ^ 31 /\
  zlen (EncodeString (bstr "Aladdin:open sesame")) + 1 <= EncodeString_buflen (bstr "Aladdin:open sesame").
Proof.
  split; [by vm_compute|]. apply (EncodeString_fits (bstr "Aladdin:open sesame")). by vm_compute.
Defined.
End Base64.
