(* ===== verification/DataBlock.v ===== *)
(** * DataBlock: [io/buffer/data_block.h], [io/buffer/data_block.cc], [base/ref_counted.h]

    The reference-counted blocks a [MemoryStream] is made of, the queue of block
    pointers ([BlockDqueue], in its [std::vector] variant, which is the one
    compiled) and the pointers into that queue ([DataBlockPointer]).

    Blocks are shared between streams, so they live in a [heap]; a stream holds
    their addresses.  A method of [DataBlockPointer] takes the heap and the owning
    queue besides the pointer.  Sizes ([BlockSize]) are [int]s: where [memory_stream.cc]
    passes a [size_t] for one of them, the caller converts it ([int32]); the sums of the
    walks below stay under the size of what a stream holds.  Identifiers of blocks
    ([BlockId], also [int]) are taken as mathematical integers: fewer than 2^31 blocks
    pass through a stream. *)

From S2P Require Import Prelude.

Abbreviation addr := nat.

(** ** Reference-counted blocks *)

Record DataBlock := mkDataBlock {
  is_mutable : bool;          (* writable_buffer_ != NULL *)
  buffer : bytes;             (* readable_buffer_[0 .. buffer_size_) *)
  size : Z;                   (* size_ *)
  disposer : option nat;      (* disposer_: which closure, if any *)
  ref_count : Z;              (* ref_count_ *)
}.

Definition buffer_size (b : DataBlock) : Z := zlen (buffer b).

(** The bytes of a block that hold data. *)
Definition data (b : DataBlock) : bytes := takeZ (size b) (buffer b).

(** The store.  [fresh] is what uninitialised memory holds; [disposed] records the
    blocks whose destructor ran, with the closure it ran, the last one first. *)
Record heap := mkHeap {
  blocks : gmap addr DataBlock;
  next : addr;
  fresh : addr -> byte;
  disposed : list (addr * option nat);
}.

Definition set_block (h : heap) (a : addr) (b : DataBlock) : heap :=
  mkHeap (<[a := b]> (blocks h)) (next h) (fresh h) (disposed h).

Definition alloc (h : heap) (b : DataBlock) : addr * heap :=
  (next h, mkHeap (<[next h := b]> (blocks h)) (S (next h)) (fresh h) (disposed h)).

(** [DataBlock(BlockSize buffer_size)] *)
Definition DataBlock_new (h : heap) (buffer_size : Z) : option (addr * heap) :=
  CHECK (0 <? buffer_size);;
  Some (alloc h (mkDataBlock true (replicate (Z.to_nat buffer_size) (fresh h (next h))) 0 None 0)).

(** [DataBlock(buffer, size, disposer, NULL)] *)
Definition DataBlock_raw (h : heap) (buffer : bytes) (disposer : option nat)
    : option (addr * heap) :=
  CHECK (0 <? zlen buffer);;
  Some (alloc h (mkDataBlock false buffer (zlen buffer) disposer 0)).

Definition set_size (b : DataBlock) (size : Z) : DataBlock :=
  mkDataBlock (is_mutable b) (buffer b) size (disposer b) (ref_count b).

Definition set_ref (b : DataBlock) (n : Z) : DataBlock :=
  mkDataBlock (is_mutable b) (buffer b) (size b) (disposer b) n.

(** [memcpy(mutable_buffer() + pos, src, n)] *)
Definition splice (pos : Z) (src l : bytes) : bytes :=
  takeZ pos l ++ src ++ dropZ (pos + zlen src) l.

Definition set_buffer (b : DataBlock) (buffer : bytes) : DataBlock :=
  mkDataBlock (is_mutable b) buffer (size b) (disposer b) (ref_count b).

Definition IncRef (h : heap) (a : addr) : option heap :=
  b ← blocks h !! a;
  Some (set_block h a (set_ref b (ref_count b + 1))).

(** [DecRef]: the destructor runs the disposer, or frees the buffer. *)
Definition DecRef (h : heap) (a : addr) : option heap :=
  b ← blocks h !! a;
  if 1 =? ref_count b
  then Some (mkHeap (delete a (blocks h)) (next h) (fresh h) ((a, disposer b) :: disposed h))
  else Some (set_block h a (set_ref b (ref_count b - 1))).

(** ** BlockDqueue *)

Record BlockDqueue := mkBlockDqueue {
  vec : list addr;
  begin_id_ : Z;
  correction_ : Z;
}.

Definition kResizeThreshold : Z := 25.

Definition BlockDqueue_new : BlockDqueue := mkBlockDqueue [] 0 0.

Definition begin_id (q : BlockDqueue) : Z := begin_id_ q + correction_ q.
Definition end_id (q : BlockDqueue) : Z := zlen (vec q) + correction_ q.
Definition dq_size (q : BlockDqueue) : Z := zlen (vec q) - begin_id_ q.
Definition dq_empty (q : BlockDqueue) : bool := begin_id_ q =? zlen (vec q).

Definition pop_front (q : BlockDqueue) : BlockDqueue :=
  mkBlockDqueue (vec q) (begin_id_ q + 1) (correction_ q).

Definition push_back (q : BlockDqueue) (a : addr) : BlockDqueue :=
  mkBlockDqueue (vec q ++ [a]) (begin_id_ q) (correction_ q).

Definition dq_clear (q : BlockDqueue) : BlockDqueue :=
  mkBlockDqueue [] 0 (correction_ q + begin_id_ q).

(** The blocks from [begin()] on. *)
Definition live (q : BlockDqueue) : list addr := dropZ (begin_id_ q) (vec q).

Definition front (q : BlockDqueue) : option addr := vec q !! Z.to_nat (begin_id_ q).

(** The dereferenced [buffer_it(id)]. *)
Definition dq_addr (q : BlockDqueue) (id : Z) : option addr :=
  if correction_ q <=? id then vec q !! Z.to_nat (id - correction_ q) else None.

Definition dq_block (h : heap) (q : BlockDqueue) (id : Z) : option DataBlock :=
  a ← dq_addr q id; blocks h !! a.

(** Moves the elements down over the popped ones once these are more than the
    threshold and more than the live ones. *)
Definition correct_buffer (q : BlockDqueue) : BlockDqueue :=
  let elem_size := dq_size q in
  if (0 <? begin_id_ q) && (kResizeThreshold <? begin_id_ q) && (elem_size <? begin_id_ q)
  then mkBlockDqueue (takeZ elem_size (dropZ (begin_id_ q) (vec q))) 0
                     (correction_ q + begin_id_ q)
  else q.

(** ** DataBlockPointer *)

Record DataBlockPointer := mkPointer {
  block_id : Z;
  pos : Z;
}.

#[export] Instance DataBlockPointer_eq_dec : EqDecision DataBlockPointer.
Proof. solve_decision. Defined.

Definition Pointer_Clear : DataBlockPointer := mkPointer (-1) (-1).
Definition IsNull (p : DataBlockPointer) : bool := block_id p =? -1.

(** [operator<] *)
Definition ptr_lt (p m : DataBlockPointer) : bool :=
  if block_id p =? block_id m then pos p <? pos m else block_id p <? block_id m.

(** [operator>], [operator==], [operator<=], [operator>=] *)
Definition ptr_gt (p m : DataBlockPointer) : bool :=
  if block_id p =? block_id m then pos m <? pos p else block_id m <? block_id p.
Definition ptr_eqb (p m : DataBlockPointer) : bool :=
  (block_id p =? block_id m) && (pos p =? pos m).
Definition ptr_le (p m : DataBlockPointer) : bool := ptr_lt p m || ptr_eqb p m.
Definition ptr_ge (p m : DataBlockPointer) : bool := ptr_gt p m || ptr_eqb p m.

Section Pointer.
Variable h : heap.
Variable q : BlockDqueue.

Definition AvailableForWrite (p : DataBlockPointer) : option Z :=
  if IsNull p then Some 0
  else b ← dq_block h q (block_id p); Some (buffer_size b - pos p).

(** Marks the rest of the current block as written. *)
Definition AdvanceToCurrentBlockEnd (p : DataBlockPointer)
    : option (heap * DataBlockPointer * Z) :=
  if IsNull p then Some (h, p, 0)
  else
    a ← dq_addr q (block_id p);
    b ← blocks h !! a;
    let ret := buffer_size b - pos p in
    Some (set_block h a (set_size b (buffer_size b)),
          mkPointer (block_id p) (buffer_size b), ret).

Definition SkipToCurrentBlockEnd (p : DataBlockPointer) : option DataBlockPointer :=
  if IsNull p then Some p
  else b ← dq_block h q (block_id p); Some (mkPointer (block_id p) (size b)).

Definition MarkCurrentBlockEndAtPointer (p : DataBlockPointer) : option heap :=
  a ← dq_addr q (block_id p);
  b ← blocks h !! a;
  Some (set_block h a (set_size b (pos p))).

(** The sum of the sizes of the [n] blocks from [id] on. *)
Fixpoint sum_sizes (id : Z) (n : nat) : option Z :=
  match n with
  | O => Some 0
  | S n => b ← dq_block h q id; r ← sum_sizes (id + 1) n; Some (size b + r)
  end.

Definition ReadableSize (p : DataBlockPointer) : option Z :=
  s ← sum_sizes (block_id p) (Z.to_nat (end_id q - block_id p)); Some (s - pos p).

Definition Distance (p m : DataBlockPointer) : option Z :=
  let dist p m :=
    s ← sum_sizes (block_id p) (Z.to_nat (block_id m - block_id p));
    Some (s - pos p + pos m) in
  if ptr_lt m p then dist m p else dist p m.

(** Bounds for the loops below: every iteration moves to another block or
    consumes all that remains of [cb] or of the block. *)
Definition walk_fuel : nat := 3 + 2 * length (vec q).

(** One iteration of the loop of [Advance]; the state is the pointer, [cb] and
    [delta]. *)
Definition Advance_step (s : DataBlockPointer * Z * Z)
    : option (DataBlockPointer * Z * Z + DataBlockPointer * Z) :=
  let '(p, cb, delta) := s in
  b ← dq_block h q (block_id p);
  if (0 <? cb) || (pos p =? size b) then
    if pos p =? size b then
      if end_id q <=? block_id p + 1 then Some (inr (p, delta))
      else Some (inl (mkPointer (block_id p + 1) 0, cb, delta))
    else
      let to_add := Z.min (size b - pos p) cb in
      Some (inl (mkPointer (block_id p) (pos p + to_add), cb - to_add, delta + to_add))
  else Some (inr (p, delta)).

Definition Devance_step (s : DataBlockPointer * Z * Z)
    : option (DataBlockPointer * Z * Z + DataBlockPointer * Z) :=
  let '(p, cb, delta) := s in
  if (0 <? cb) || (pos p =? 0) then
    if pos p =? 0 then
      if block_id p =? begin_id q then Some (inr (p, delta))
      else
        b ← dq_block h q (block_id p - 1);
        Some (inl (mkPointer (block_id p - 1) (size b), cb, delta))
    else
      let to_del := Z.min (pos p) cb in
      Some (inl (mkPointer (block_id p) (pos p - to_del), cb - to_del, delta + to_del))
  else Some (inr (p, delta)).

(** [Advance] and [Devance] call each other on a negative argument. *)
Definition Advance (p : DataBlockPointer) (cb : Z) : option (DataBlockPointer * Z) :=
  if cb <? 0 then loop Devance_step walk_fuel (p, - cb, 0)
  else loop Advance_step walk_fuel (p, cb, 0).

Definition Devance (p : DataBlockPointer) (cb : Z) : option (DataBlockPointer * Z) :=
  if cb <? 0 then loop Advance_step walk_fuel (p, - cb, 0)
  else loop Devance_step walk_fuel (p, cb, 0).

(** [AdvanceToNextBlock]: to the next block that is not empty; [None] inside means
    it returned [false] and left the pointer alone. *)
Definition NextBlock_step (id : Z) : option (Z + option DataBlockPointer) :=
  if id <? end_id q then
    b ← dq_block h q id;
    if size b =? 0 then Some (inl (id + 1)) else Some (inr (Some (mkPointer id 0)))
  else Some (inr None).

Definition AdvanceToNextBlock (p : DataBlockPointer) : option (option DataBlockPointer) :=
  loop NextBlock_step walk_fuel (block_id p + 1).

(** [ReadBlock(buffer, len)]: [None] inside is [false]; otherwise the pointer after
    the call and the bytes [*buffer .. *buffer + *len). *)
Definition ReadBlock_step (p : DataBlockPointer)
    : option (DataBlockPointer + option (DataBlockPointer * DataBlock)) :=
  b ← dq_block h q (block_id p);
  if pos p =? size b then
    np ← AdvanceToNextBlock p;
    match np with
    | None => Some (inr None)
    | Some p' => Some (inl p')
    end
  else Some (inr (Some (p, b))).

Definition ReadBlock (p : DataBlockPointer) (len : Z)
    : option (option (DataBlockPointer * bytes)) :=
  r ← loop ReadBlock_step walk_fuel p;
  match r with
  | None => Some None
  | Some (p, b) =>
      let len := if 0 <? len then Z.min len (size b - pos p) else size b - pos p in
      Some (Some (mkPointer (block_id p) (pos p + len),
                  takeZ len (dropZ (pos p) (buffer b))))
  end.

(** [ReadData(buffer, len)]: the pointer after the call and the bytes read. *)
Definition ReadData_step (s : DataBlockPointer * Z * bytes)
    : option (DataBlockPointer * Z * bytes + DataBlockPointer * bytes) :=
  let '(p, len, out) := s in
  if 0 <? len then
    b ← dq_block h q (block_id p);
    if pos p =? size b then
      np ← AdvanceToNextBlock p;
      match np with
      | None => Some (inr (p, out))
      | Some p' => Some (inl (p', len, out))
      end
    else
      let to_read := Z.min (size b - pos p) len in
      Some (inl (mkPointer (block_id p) (pos p + to_read), len - to_read,
                 out ++ takeZ to_read (dropZ (pos p) (buffer b))))
  else Some (inr (p, out)).

Definition ReadData (p : DataBlockPointer) (len : Z) : option (DataBlockPointer * bytes) :=
  loop ReadData_step walk_fuel (p, len, []).

(** [ReadStringData] reads into a string; [ReadToString] reads all there is. *)
Definition ReadStringData (p : DataBlockPointer) (len : Z)
    : option (DataBlockPointer * bytes) := ReadData p len.

Definition ReadToString (p : DataBlockPointer) : option (DataBlockPointer * bytes) :=
  len ← ReadableSize p;
  '(p', s) ← ReadStringData p len;
  CHECK (zlen s =? len);;
  Some (p', s).

(** [ReadToChars(fin, prev, s)]: one character, or one change of block, of its
    nested loops.  The state is the pointer, [len] and [last]; the result is
    [Some len] when the two characters were found. *)
Definition ReadToChars_step (fin prev : byte) (s : DataBlockPointer * Z * byte)
    : option (DataBlockPointer * Z * byte + option Z) :=
  let '(p, len, last) := s in
  b ← dq_block h q (block_id p);
  if pos p =? size b then
    np ← AdvanceToNextBlock p;
    match np with
    | None => Some (inr None)
    | Some p' => Some (inl (p', len, last))
    end
  else
    c ← buffer b !! Z.to_nat (pos p);
    let p' := mkPointer (block_id p) (pos p + 1) in
    let len := len + 1 in
    if bool_decide (c = fin) && (bool_decide (prev = Byte.x00) || bool_decide (last = prev))
    then Some (inr (Some len))
    else Some (inl (p', len, c)).
End Pointer.

(** All the data a queue holds: the bound of the character loops. *)
Definition char_fuel (h : heap) (q : BlockDqueue) : nat :=
  walk_fuel q + list_sum ((fun a => match blocks h !! a with
                                    | Some b => Z.to_nat (size b) | None => O end) <$> vec q).

Definition ReadToChars (h : heap) (q : BlockDqueue) (p : DataBlockPointer) (fin prev : byte)
    : option (DataBlockPointer * option bytes) :=
  r ← loop (ReadToChars_step h q fin prev) (char_fuel h q) (p, 0, Byte.x00);
  match r with
  | None => Some (p, None)
  | Some len => '(p', s) ← ReadStringData h q p len; Some (p', Some s)
  end.

Definition Pointer_ReadCRLFLine (h : heap) (q : BlockDqueue) (p : DataBlockPointer) :=
  ReadToChars h q p Byte.x0a Byte.x0d.
Definition Pointer_ReadLFLine (h : heap) (q : BlockDqueue) (p : DataBlockPointer) :=
  ReadToChars h q p Byte.x0a Byte.x00.

(** [WriteData(buffer, len)]: one iteration; the state is the heap, the pointer, what
    is left to write (the first [len] bytes of the buffer) and what was written. *)
Definition WriteData_step (q : BlockDqueue) (s : heap * DataBlockPointer * bytes * Z)
    : option (heap * DataBlockPointer * bytes * Z + heap * DataBlockPointer * Z) :=
  let '(h, p, buf, cb) := s in
  if 0 <? zlen buf then
    a ← dq_addr q (block_id p);
    b ← blocks h !! a;
    if pos p =? buffer_size b then
      if end_id q <=? block_id p + 1 then Some (inr (h, p, cb))
      else
        b' ← dq_block h q (block_id p + 1);
        CHECK (size b' =? 0);;
        Some (inl (h, mkPointer (block_id p + 1) 0, buf, cb))
    else
      let to_write := Z.min (buffer_size b - pos p) (zlen buf) in
      CHECK (is_mutable b);;
      let b' := set_size (set_buffer b (splice (pos p) (takeZ to_write buf) (buffer b)))
                         (size b + to_write) in
      Some (inl (set_block h a b', mkPointer (block_id p) (pos p + to_write),
                 dropZ to_write buf, cb + to_write))
  else Some (inr (h, p, cb)).

Definition WriteData (h : heap) (q : BlockDqueue) (p : DataBlockPointer) (buf : bytes)
    : option (heap * DataBlockPointer * Z) :=
  loop (WriteData_step q) (walk_fuel q) (h, p, buf, 0).
