(* ===== verification/DataBlockFacts.v ===== *)
(** * Facts about blocks, queues and pointers

    A pointer into a queue denotes the bytes from its position to the end of the
    last block ([valid_at]).  Each method of [DataBlockPointer] is specified on
    these bytes; the loops are proved to end within their fuel. *)

From S2P Require Import Prelude.
From S2P Require Import DataBlock.

(** ** The blocks from an identifier on *)

Definition block_ok (b : DataBlock) : Prop := 0 <= size b <= buffer_size b /\ 0 < buffer_size b < 2 ^ 31.

Definition window (h : heap) (q : BlockDqueue) (id : Z) : option (list DataBlock) :=
  mapM (fun a => blocks h !! a) (dropZ (id - correction_ q) (vec q)).

Definition flat (W : list DataBlock) : bytes := concat (data <$> W).

Record at_block (h : heap) (q : BlockDqueue) (id : Z) (W : list DataBlock) : Prop := mk_at_block {
  at_low : correction_ q <= id;
  at_high : id <= end_id q;
  at_window : window h q id = Some W;
  at_ok : Forall block_ok W;
}.

Lemma data_len b : block_ok b -> zlen (data b) = size b.
Proof. intros [H _]. unfold data, buffer_size in *. rewrite zlen_takeZ; lia. Qed.

(** A slice of the buffer below the size is a slice of the data. *)
Lemma data_slice b i n : 0 <= i -> 0 <= n -> i + n <= size b -> block_ok b ->
  takeZ n (dropZ i (buffer b)) = takeZ n (dropZ i (data b)).
Proof.
  intros Hi Hn Hle [Hs _]. unfold data, takeZ, dropZ.
  rewrite skipn_firstn_comm, take_take. f_equal. lia.
Qed.

Lemma flat_cons b W : flat (b :: W) = data b ++ flat W.
Proof. done. Qed.

Lemma flat_app W W' : flat (W ++ W') = flat W ++ flat W'.
Proof. unfold flat. by rewrite fmap_app, concat_app. Qed.

Lemma at_block_len h q id W : at_block h q id W -> zlen W = end_id q - id.
Proof.
  intros [Hl Hh Hw _]. apply mapM_Some, Forall2_length in Hw. unfold zlen, end_id in *.
  rewrite <- Hw. unfold dropZ. rewrite length_drop. unfold zlen in *. lia.
Qed.

Lemma drop_lookup_cons {A} n (l : list A) x l' :
  drop n l = x :: l' -> l !! n = Some x /\ drop (S n) l = l'.
Proof.
  intros H. split.
  - rewrite <- (Nat.add_0_r n), <- lookup_drop, H. done.
  - replace (S n) with (n + 1)%nat by lia. by rewrite <- drop_drop, H.
Qed.

Lemma at_block_cons h q id b W :
  at_block h q id (b :: W) ->
  id < end_id q /\ block_ok b /\ dq_block h q id = Some b /\
  (exists a, dq_addr q id = Some a /\ blocks h !! a = Some b) /\
  at_block h q (id + 1) W.
Proof.
  intros Hat. pose proof (at_block_len _ _ _ _ Hat) as Hlen. rewrite zlen_cons in Hlen.
  pose proof (zlen_nonneg W). destruct Hat as [Hl Hh Hw Hok].
  apply mapM_Some in Hw as Hw2. unfold dropZ in Hw2.
  destruct (drop (Z.to_nat (id - correction_ q)) (vec q)) as [|a r] eqn:Hd; [inversion Hw2|].
  apply drop_lookup_cons in Hd as [Ha Hr].
  inversion Hw2 as [|? ? ? ? Hb HW]; subst. inversion Hok; subst.
  assert (Haddr : dq_addr q id = Some a).
  { unfold dq_addr. destruct (Z.leb_spec (correction_ q) id); [done|lia]. }
  split_and!; [lia|done| |by exists a|].
  - unfold dq_block. by rewrite Haddr.
  - constructor; [lia|lia| |done]. unfold window, dropZ.
    replace (Z.to_nat (id + 1 - correction_ q)) with (S (Z.to_nat (id - correction_ q))) by lia.
    by apply mapM_Some.
Qed.

(** ** What a pointer denotes *)

Definition valid_at (h : heap) (q : BlockDqueue) (p : DataBlockPointer) (c : bytes) : Prop :=
  exists b W, at_block h q (block_id p) (b :: W) /\ 0 <= pos p <= size b /\
              c = dropZ (pos p) (data b) ++ flat W.

Lemma valid_at_id h q p c : valid_at h q p c -> correction_ q <= block_id p < end_id q.
Proof.
  intros (b & W & Hat & _). destruct (at_block_cons _ _ _ _ _ Hat) as (? & _).
  destruct Hat. lia.
Qed.

(** To the start of the next block, from the end of a block. *)
Lemma valid_at_next h q id b b' W :
  at_block h q id (b :: b' :: W) ->
  valid_at h q (mkPointer (id + 1) 0) (dropZ (size b) (data b) ++ flat (b' :: W)).
Proof.
  intros Hat. destruct (at_block_cons _ _ _ _ _ Hat) as (_ & Hb & _ & _ & Hat').
  destruct (at_block_cons _ _ _ _ _ Hat') as (_ & Hb' & _ & _ & _).
  exists b', W. split_and!; [done|simpl; lia|destruct Hb'; simpl; lia|].
  by rewrite (dropZ_all (size b)), flat_cons by (rewrite data_len by done; lia).
Qed.

(** Inside a block. *)
Lemma valid_at_move h q p b W n :
  at_block h q (block_id p) (b :: W) -> 0 <= pos p -> 0 <= n -> pos p + n <= size b ->
  valid_at h q (mkPointer (block_id p) (pos p + n))
           (dropZ n (dropZ (pos p) (data b) ++ flat W)).
Proof.
  intros Hat Hp Hn Hle. destruct (at_block_cons _ _ _ _ _ Hat) as (_ & Hb & _).
  exists b, W. simpl. split_and!; [done|lia|lia|].
  rewrite dropZ_app_l by (rewrite zlen_dropZ, data_len by done; lia).
  by rewrite dropZ_dropZ by lia.
Qed.

Lemma valid_at_chunk b W p n :
  block_ok b -> 0 <= pos p -> 0 <= n -> pos p + n <= size b ->
  takeZ n (dropZ (pos p) (buffer b)) = takeZ n (dropZ (pos p) (data b) ++ flat W).
Proof.
  intros Hb Hp Hn Hle. rewrite data_slice by (done || lia).
  by rewrite takeZ_app_l by (rewrite zlen_dropZ, data_len by done; lia).
Qed.

(** ** AdvanceToNextBlock *)

Lemma NextBlock_spec h q id W :
  at_block h q id W ->
  exists r, loop (NextBlock_step h q) (walk_fuel q) id = Some r /\
    match r with
    | None => flat W = []
    | Some p' => id <= block_id p' /\ pos p' = 0 /\ valid_at h q p' (flat W) /\ flat W <> [] /\
                 exists b, dq_block h q (block_id p') = Some b /\ 0 < size b
    end.
Proof.
  intros Hat.
  apply (loop_total (NextBlock_step h q)
    (fun i => id <= i /\ exists W', at_block h q i W' /\ flat W' = flat W) _
    (fun i => Z.to_nat (end_id q - i))).
  - intros i (Hi & W' & Hat' & Hf). unfold NextBlock_step.
    destruct W' as [|b W'].
    + pose proof (at_block_len _ _ _ _ Hat') as Hl. rewrite zlen_nil in Hl.
      destruct (Z.ltb_spec i (end_id q)); [lia|]. eexists; split; [done|]. by rewrite <- Hf.
    + destruct (at_block_cons _ _ _ _ _ Hat') as (Hlt & Hb & Hq & _ & Hn).
      destruct (Z.ltb_spec i (end_id q)); [|lia]. rewrite Hq. simpl.
      destruct (Z.eqb_spec (size b) 0) as [E|E].
      * eexists; split; [done|]. split; [|lia]. split; [lia|]. exists W'. split; [done|].
        rewrite <- Hf, flat_cons. unfold data. by rewrite E.
      * eexists; split; [done|]. simpl. destruct Hb as [Hb1 Hb2].
        split_and!; [lia|done| | |exists b; split; [done|lia]].
        -- exists b, W'. simpl. split_and!; [done|lia|lia|]. by rewrite <- Hf.
        -- intros E'. rewrite <- Hf, flat_cons in E'. apply app_nil in E' as [E' _].
           apply (f_equal zlen) in E'. rewrite data_len in E' by done. done.
  - split; [lia|]. by exists W.
  - pose proof (at_block_len _ _ _ _ Hat). destruct Hat. unfold walk_fuel, end_id, zlen in *. lia.
Qed.

Lemma AdvanceToNextBlock_spec h q p b W :
  at_block h q (block_id p) (b :: W) -> pos p = size b ->
  exists r, AdvanceToNextBlock h q p = Some r /\
    match r with
    | None => dropZ (pos p) (data b) ++ flat W = []
    | Some p' => block_id p < block_id p' /\ valid_at h q p' (dropZ (pos p) (data b) ++ flat W) /\
                 dropZ (pos p) (data b) ++ flat W <> [] /\ pos p' = 0 /\
                 exists b', dq_block h q (block_id p') = Some b' /\ 0 < size b'
    end.
Proof.
  intros Hat Hp. destruct (at_block_cons _ _ _ _ _ Hat) as (_ & Hb & _ & _ & Hn).
  rewrite Hp, (dropZ_all (size b)) by (rewrite data_len by done; lia). simpl.
  destruct (NextBlock_spec _ _ _ _ Hn) as ([p'|] & Hr & H).
  - exists (Some p'). split; [done|]. destruct H as (? & ? & ? & ? & ?). split_and!; [lia|done..].
  - by exists None.
Qed.

(** ** The loops that consume: ReadData, Advance, ReadBlock *)

(** Twice the blocks ahead, plus one when the pointer is inside a block, plus one
    when something is left to consume. *)
Definition walk_measure (h : heap) (q : BlockDqueue) (p : DataBlockPointer) (len : Z) : nat :=
  Z.to_nat (2 * (end_id q - block_id p))
  + match dq_block h q (block_id p) with
    | Some b => if pos p =? size b then 0 else 1 | None => 0 end
  + (if 0 <? len then 1 else 0).

Lemma walk_measure_bound h q p c len :
  valid_at h q p c -> (walk_measure h q p len < walk_fuel q)%nat.
Proof.
  intros Hv. apply valid_at_id in Hv. unfold walk_measure, walk_fuel, end_id, zlen in *.
  destruct (dq_block h q (block_id p)) as [b|]; [destruct (pos p =? size b)|];
    destruct (0 <? len); lia.
Qed.

Lemma walk_measure_next h q p p' c len b :
  valid_at h q p' c -> block_id p < block_id p' ->
  dq_block h q (block_id p) = Some b -> pos p = size b ->
  (walk_measure h q p' len < walk_measure h q p len)%nat.
Proof.
  intros Hv Hlt Hb Hp. apply valid_at_id in Hv. unfold walk_measure.
  rewrite Hb, Hp, Z.eqb_refl.
  destruct (dq_block h q (block_id p')) as [b'|]; [destruct (pos p' =? size b')|]; lia.
Qed.

Lemma walk_measure_move h q p len b n :
  dq_block h q (block_id p) = Some b -> pos p <> size b -> 0 < len ->
  n = Z.min (size b - pos p) len ->
  (walk_measure h q (mkPointer (block_id p) (pos p + n)) (len - n)
     < walk_measure h q p len)%nat.
Proof.
  intros Hb Hne Hlen Hn. unfold walk_measure. simpl. rewrite Hb.
  destruct (Z.eqb_spec (pos p) (size b)); [done|].
  destruct (Z.eqb_spec (pos p + n) (size b)), (Z.ltb_spec 0 (len - n)), (Z.ltb_spec 0 len); lia.
Qed.

Lemma valid_at_block h q p c : valid_at h q p c ->
  exists b W, at_block h q (block_id p) (b :: W) /\ 0 <= pos p <= size b /\ block_ok b /\
              dq_block h q (block_id p) = Some b /\ c = dropZ (pos p) (data b) ++ flat W.
Proof.
  intros (b & W & Hat & Hp & Hc). exists b, W.
  by destruct (at_block_cons _ _ _ _ _ Hat) as (_ & Hb & Hq & _).
Qed.

(** One round of a consuming loop, from inside a block. *)
Lemma consume_step h q p c len b :
  valid_at h q p c -> dq_block h q (block_id p) = Some b -> pos p <> size b -> 0 < len ->
  let n := Z.min (size b - pos p) len in
  0 < n /\
  takeZ n (dropZ (pos p) (buffer b)) = takeZ n c /\
  valid_at h q (mkPointer (block_id p) (pos p + n)) (dropZ n c) /\
  takeZ n c ++ takeZ (len - n) (dropZ n c) = takeZ len c /\
  dropZ (len - n) (dropZ n c) = dropZ len c /\ n <= zlen c.
Proof.
  intros Hv Hb Hne Hlen n.
  destruct (valid_at_block _ _ _ _ Hv) as (b' & W & Hat & Hp & Hok & Hb' & ->).
  simplify_eq. assert (Hn : 0 < n <= size b - pos p) by lia.
  split_and!; [lia| | | | |].
  - by apply valid_at_chunk; try lia.
  - apply valid_at_move; [done|lia..].
  - rewrite takeZ_takeZ_dropZ by lia. f_equal. lia.
  - rewrite dropZ_dropZ by lia. f_equal. lia.
  - rewrite zlen_app, zlen_dropZ, data_len by (done || lia). pose proof (zlen_nonneg (flat W)). lia.
Qed.

Lemma end_of_block h q p c b :
  valid_at h q p c -> dq_block h q (block_id p) = Some b -> pos p = size b ->
  exists r, AdvanceToNextBlock h q p = Some r /\
    match r with
    | None => c = []
    | Some p' => block_id p < block_id p' /\ valid_at h q p' c /\ c <> [] /\
                 exists b', dq_block h q (block_id p') = Some b' /\ pos p' <> size b'
    end.
Proof.
  intros Hv Hb Hp.
  destruct (valid_at_block _ _ _ _ Hv) as (b' & W & Hat & _ & Hok & Hb' & ->). simplify_eq.
  destruct (AdvanceToNextBlock_spec _ _ _ _ _ Hat Hp) as ([p'|] & Hr & H);
    eexists; (split; [done|]); [|done].
  destruct H as (? & ? & ? & Hp' & b'' & ? & ?). split_and!; [done..|].
  exists b''. split; [done|lia].
Qed.

Lemma ReadData_spec h q p c len :
  valid_at h q p c ->
  exists r, ReadData h q p len = Some r /\
    r.2 = takeZ len c /\ valid_at h q r.1 (dropZ len c) /\ block_id p <= block_id r.1.
Proof.
  intros Hv.
  apply (loop_total (ReadData_step h q)
    (fun '(p', n, out) => exists c', valid_at h q p' c' /\ block_id p <= block_id p' /\
       out ++ takeZ n c' = takeZ len c /\ dropZ n c' = dropZ len c) _
    (fun '(p', n, _) => walk_measure h q p' n)).
  - intros [[p' n] out] (c' & Hv' & Hid & Htake & Hdrop). unfold ReadData_step.
    destruct (Z.ltb_spec 0 n) as [Hn|Hn].
    + destruct (valid_at_block _ _ _ _ Hv') as (b & _ & _ & _ & _ & Hb & _).
      rewrite Hb. simpl. destruct (Z.eqb_spec (pos p') (size b)) as [E|E].
      * destruct (end_of_block _ _ _ _ _ Hv' Hb E) as ([p''|] & -> & H); simpl;
          eexists; (split; [done|]).
        -- destruct H as (Hlt & Hv'' & _). split; [|by eapply walk_measure_next].
           exists c'. split_and!; [done|lia|done..].
        -- subst c'. rewrite takeZ_nil, app_nil_r in Htake. rewrite dropZ_nil in Hdrop.
           rewrite <- Hdrop. by split_and!.
      * eexists; split; [done|].
        destruct (consume_step _ _ _ _ n _ Hv' Hb E Hn) as (_ & Hc & Hm & Ht & Hd & _).
        split; [|by eapply walk_measure_move].
        eexists; split_and!; [exact Hm|done| |by rewrite Hd].
        by rewrite Hc, <- app_assoc, Ht.
    + eexists; split; [done|]. rewrite takeZ_neg, app_nil_r in Htake by done.
      rewrite dropZ_neg in Hdrop by done. by subst.
  - by exists c.
  - by eapply walk_measure_bound.
Qed.

Lemma Advance_spec h q p c cb :
  valid_at h q p c -> 0 <= cb ->
  exists r, Advance h q p cb = Some r /\
    r.2 = zlen (takeZ cb c) /\ valid_at h q r.1 (dropZ cb c) /\ block_id p <= block_id r.1.
Proof.
  intros Hv Hcb. unfold Advance. destruct (Z.ltb_spec cb 0); [lia|].
  apply (loop_total (Advance_step h q)
    (fun '(p', n, delta) => exists c', valid_at h q p' c' /\ block_id p <= block_id p' /\
       0 <= n /\ delta + zlen (takeZ n c') = zlen (takeZ cb c) /\ dropZ n c' = dropZ cb c) _
    (fun '(p', n, _) => walk_measure h q p' n)).
  - intros [[p' n] delta] (c' & Hv' & Hid & Hn0 & Hlen & Hdrop). unfold Advance_step.
    destruct (valid_at_block _ _ _ _ Hv') as (b & W & Hat & Hp & Hok & Hb & Hc).
    rewrite Hb. simpl. destruct (Z.eqb_spec (pos p') (size b)) as [E|E].
    + rewrite orb_true_r. rewrite E, (dropZ_all (size b)) in Hc by (rewrite data_len by done; lia).
      simpl in Hc. pose proof (at_block_len _ _ _ _ Hat) as HW. rewrite zlen_cons in HW.
      destruct (Z.leb_spec (end_id q) (block_id p' + 1)); eexists; (split; [done|]).
      * destruct W as [|b' W]; [|rewrite zlen_cons in HW; pose proof (zlen_nonneg W); lia].
        change (flat []) with (@nil byte) in Hc. subst c'. rewrite takeZ_nil in Hlen.
        rewrite dropZ_nil in Hdrop. rewrite <- Hdrop.
        split_and!; [rewrite <- Hlen, zlen_nil; simpl; lia|done..].
      * destruct W as [|b' W]; [rewrite zlen_nil in HW; lia|].
        assert (Hv2 : valid_at h q (mkPointer (block_id p' + 1) 0) c').
        { subst c'. pose proof (valid_at_next _ _ _ _ _ _ Hat) as Hv2.
          by rewrite (dropZ_all (size b)) in Hv2 by (rewrite data_len by done; lia). }
        split; [|eapply (walk_measure_next _ _ p' _ _ _ _ Hv2); [simpl; lia|done..]].
        exists c'. simpl. split_and!; [done|lia|done..].
    + rewrite orb_false_r. destruct (Z.ltb_spec 0 n) as [Hn|Hn]; eexists; (split; [done|]).
      * destruct (consume_step _ _ _ _ n _ Hv' Hb E Hn) as (Hk & _ & Hm & Ht & Hd & Hz).
        split; [|by eapply walk_measure_move].
        eexists; split_and!; [exact Hm|done|lia| |by rewrite Hd].
        rewrite <- Hlen, <- Ht, zlen_app, (zlen_takeZ (Z.min _ _)) by lia. lia.
      * assert (n = 0) as -> by lia. simpl. rewrite dropZ_0 in Hdrop. subst c'.
        split_and!; [rewrite <- Hlen, takeZ_0, zlen_nil; lia|done|done].
  - exists c. split_and!; [done|lia..|done].
  - by eapply walk_measure_bound.
Qed.

(** [ReadBlock]: what is left of the first block that has something left. *)
Lemma ReadBlock_spec h q p c :
  valid_at h q p c ->
  exists r, ReadBlock h q p 0 = Some r /\
    match r with
    | None => c = []
    | Some (p', chunk) =>
        chunk <> [] /\ (exists c', c = chunk ++ c' /\ valid_at h q p' c') /\
        block_id p <= block_id p' /\ (walk_measure h q p' 0 < walk_measure h q p 0)%nat
    end.
Proof.
  intros Hv. unfold ReadBlock.
  destruct (loop_total (ReadBlock_step h q)
    (fun p' => valid_at h q p' c /\ block_id p <= block_id p' /\
               (walk_measure h q p' 0 <= walk_measure h q p 0)%nat)
    (fun r => match r with
       | None => c = []
       | Some (p', b) => valid_at h q p' c /\ block_id p <= block_id p' /\
                         (walk_measure h q p' 0 <= walk_measure h q p 0)%nat /\
                         dq_block h q (block_id p') = Some b /\ pos p' <> size b
       end)
    (fun p' => walk_measure h q p' 0)) with (fuel := walk_fuel q) (s := p)
    as (r & -> & Hr).
  - intros p' (Hv' & Hid & Hm). unfold ReadBlock_step.
    destruct (valid_at_block _ _ _ _ Hv') as (b & _ & _ & _ & _ & Hb & _).
    rewrite Hb. simpl. destruct (Z.eqb_spec (pos p') (size b)) as [E|E].
    + destruct (end_of_block _ _ _ _ _ Hv' Hb E) as ([p''|] & -> & H); simpl;
        eexists; (split; [done|]); [|done].
      destruct H as (Hlt & Hv'' & _).
      pose proof (walk_measure_next _ _ p' p'' _ 0 b Hv'' Hlt Hb E). split_and!; [done|lia..].
    + eexists; split; [done|]. by split_and!.
  - done.
  - by eapply walk_measure_bound.
  - destruct r as [[p' b]|]; [|by exists None]. simpl.
    destruct Hr as (Hv' & Hid & Hm & Hb & Hne).
    eexists; split; [done|]. simpl.
    destruct (valid_at_block _ _ _ _ Hv') as (b' & W & Hat & Hp & Hok & Hb' & Hc).
    simplify_eq. set (n := size b - pos p').
    assert (0 < n) by lia. rewrite (valid_at_chunk b W p') by (done || lia).
    split_and!; [| |done|].
    + intros E. apply (f_equal zlen) in E. change (zlen []) with 0 in E.
      rewrite zlen_takeZ in E by lia. rewrite zlen_app in E.
      rewrite zlen_dropZ in E by lia. rewrite data_len in E by done.
      pose proof (zlen_nonneg (flat W)). lia.
    + eexists. split; [symmetry; apply takeZ_dropZ|]. apply valid_at_move; [done|lia..].
    + eapply Nat.lt_le_trans; [|exact Hm]. unfold walk_measure. simpl. rewrite Hb.
      destruct (Z.eqb_spec (pos p' + n) (size b)), (Z.eqb_spec (pos p') (size b)); lia.
Qed.

(** ** ReadToChars *)

(** The shortest prefix that ends in [fin], preceded by [prev] unless that is NUL. *)
Fixpoint find_chars (fin prev last : byte) (c : bytes) : option bytes :=
  match c with
  | [] => None
  | x :: c =>
      if bool_decide (x = fin) && (bool_decide (prev = Byte.x00) || bool_decide (last = prev))
      then Some [x]
      else (fun s => x :: s) <$> find_chars fin prev x c
  end.

Lemma find_chars_prefix fin prev last c s :
  find_chars fin prev last c = Some s -> exists c', c = s ++ c'.
Proof.
  revert last s. induction c as [|x c IH]; intros last s H; [done|]. simpl in H.
  destruct (_ && _); [injection H as <-; by exists c|].
  apply fmap_Some in H as (s' & H & ->). destruct (IH _ _ H) as (c' & ->). by exists c'.
Qed.

Lemma valid_at_size h q p c :
  valid_at h q p c ->
  (Z.to_nat (zlen c) + Z.to_nat (end_id q - block_id p) < char_fuel h q)%nat.
Proof.
  intros Hv. pose proof (valid_at_id _ _ _ _ Hv) as Hid.
  destruct Hv as (b & W & Hat & Hp & ->).
  assert (Hlen : (Z.to_nat (zlen (flat (b :: W))) <=
    list_sum ((fun a => match blocks h !! a with
                        | Some b => Z.to_nat (size b) | None => O end) <$> vec q))%nat).
  { destruct Hat as [_ _ Hw Hok]. unfold window in Hw. revert Hw Hok.
    rewrite <- (takeZ_dropZ (block_id p - correction_ q) (vec q)) at 2.
    generalize (b :: W). intros W'. rewrite fmap_app, list_sum_app.
    generalize (dropZ (block_id p - correction_ q) (vec q)). intros l Hl Hok.
    apply mapM_Some in Hl. clear Hp b W.
    assert (forall l, Forall2 (fun a y => blocks h !! a = Some y) l W' ->
      (Z.to_nat (zlen (flat W')) <= list_sum ((fun a => match blocks h !! a with
          | Some b => Z.to_nat (size b) | None => O end) <$> l)))%nat as Hgen.
    { clear l Hl. intros l Hl. induction Hl as [|a b l W' Ha HW IH]; [done|].
      inversion Hok; subst. rewrite flat_cons, zlen_app, data_len by done.
      rewrite fmap_cons. simpl. rewrite Ha. specialize (IH ltac:(done)).
      pose proof (zlen_nonneg (flat W')). lia. }
    specialize (Hgen _ Hl). lia. }
  rewrite flat_cons, zlen_app in Hlen. rewrite zlen_app, zlen_dropZ by lia.
  unfold char_fuel, walk_fuel, end_id, zlen in *. lia.
Qed.

Lemma data_lookup b i W : block_ok b -> 0 <= i < size b ->
  exists x, buffer b !! Z.to_nat i = Some x /\
    dropZ i (data b) ++ flat W = x :: (dropZ (i + 1) (data b) ++ flat W).
Proof.
  intros Hok Hi. destruct (lookup_lt_is_Some_2 (data b) (Z.to_nat i)) as [x Hx].
  { pose proof (data_len _ Hok). unfold zlen in *. lia. }
  exists x. split.
  - unfold data, takeZ in Hx. by apply lookup_take_Some in Hx as [? _].
  - unfold dropZ. rewrite (drop_S _ x) by done. simpl. do 3 f_equal. lia.
Qed.

Lemma ReadToChars_spec h q p c fin prev :
  valid_at h q p c ->
  exists r, ReadToChars h q p fin prev = Some r /\
    r.2 = find_chars fin prev Byte.x00 c /\
    match r.2 with
    | None => r.1 = p
    | Some s => valid_at h q r.1 (dropZ (zlen s) c) /\ block_id p <= block_id r.1
    end.
Proof.
  intros Hv. unfold ReadToChars.
  destruct (loop_total_ix (ReadToChars_step h q fin prev)
    (fun m '(p', n, last) => exists c', valid_at h q p' c' /\
       m = (Z.to_nat (zlen c') + Z.to_nat (end_id q - block_id p'))%nat /\
       (fun s => n + zlen s) <$> find_chars fin prev last c' =
       zlen <$> find_chars fin prev Byte.x00 c)
    (fun r => r = zlen <$> find_chars fin prev Byte.x00 c))
    with (fuel := char_fuel h q) (s := (p, 0, Byte.x00))
         (n := (Z.to_nat (zlen c) + Z.to_nat (end_id q - block_id p))%nat) as (r & -> & ->).
  - intros m [[p' n] last] (c' & Hv' & -> & Heq). unfold ReadToChars_step.
    destruct (valid_at_block _ _ _ _ Hv') as (b & W & Hat & Hp & Hok & Hb & Hc).
    rewrite Hb. simpl. destruct (Z.eqb_spec (pos p') (size b)) as [E|E].
    + destruct (end_of_block _ _ _ _ _ Hv' Hb E) as ([p''|] & -> & H); simpl;
        eexists; (split; [done|]).
      * destruct H as (Hlt & Hv'' & _). pose proof (valid_at_id _ _ _ _ Hv').
        pose proof (valid_at_id _ _ _ _ Hv'').
        eexists; split; [exists c'; split_and!; [done|reflexivity|done]|lia].
      * by rewrite <- Heq, H.
    + destruct (data_lookup b (pos p') W Hok ltac:(lia)) as (x & -> & Hx). simpl.
      rewrite Hx in Hc. rewrite Hc in Heq. simpl in Heq.
      destruct (_ && _); eexists; (split; [done|]).
      * rewrite <- Heq. simpl. by rewrite zlen_cons, zlen_nil.
      * assert (Hv2 := valid_at_move _ _ _ _ _ 1 Hat ltac:(lia) ltac:(lia) ltac:(lia)).
        rewrite Hx, dropZ_1 in Hv2. eexists; split; [eexists; split_and!; [exact Hv2|reflexivity|]|].
        -- rewrite <- Heq. destruct (find_chars _ _ _ _); [|done].
           simpl. f_equal. rewrite zlen_cons. lia.
        -- simpl. subst c'. rewrite zlen_cons.
           pose proof (zlen_nonneg (dropZ (pos p' + 1) (data b) ++ flat W)). lia.
  - exists c. split_and!; [done..|]. by destruct (find_chars _ _ _ c).
  - by apply valid_at_size.
  - destruct (find_chars fin prev Byte.x00 c) as [s|] eqn:Hf; simpl; [|by exists (p, None)].
    destruct (ReadData_spec _ _ _ _ (zlen s) Hv) as ([p' out] & Hr & Hout & Hv' & Hid).
    unfold ReadStringData. rewrite Hr. simpl in *.
    destruct (find_chars_prefix _ _ _ _ _ Hf) as (c' & ->).
    rewrite takeZ_app_l, takeZ_all in Hout by lia. subst out.
    eexists; split; [done|]. by split_and!.
Qed.

(** ** Sizes and distances *)

Lemma sum_sizes_spec h q id W W' :
  at_block h q id (W ++ W') -> sum_sizes h q id (length W) = Some (zlen (flat W)).
Proof.
  revert id. induction W as [|b W IH]; intros id Hat; [done|].
  simpl in Hat. destruct (at_block_cons _ _ _ _ _ Hat) as (_ & Hok & Hb & _ & Hn).
  simpl. rewrite Hb, (IH _ Hn), flat_cons, zlen_app, data_len by done. done.
Qed.

Lemma ReadableSize_spec h q p c : valid_at h q p c -> ReadableSize h q p = Some (zlen c).
Proof.
  intros Hv. destruct (valid_at_block _ _ _ _ Hv) as (b & W & Hat & Hp & Hok & _ & ->).
  pose proof (at_block_len _ _ _ _ Hat) as Hl. unfold ReadableSize.
  replace (Z.to_nat (end_id q - block_id p)) with (length (b :: W)) by (unfold zlen in Hl; lia).
  rewrite (sum_sizes_spec _ _ _ (b :: W) []) by (by rewrite app_nil_r). simpl.
  rewrite flat_cons, !zlen_app, zlen_dropZ, data_len by (done || lia). f_equal. lia.
Qed.

Lemma ReadToString_spec h q p c :
  valid_at h q p c ->
  exists p', ReadToString h q p = Some (p', c) /\ valid_at h q p' [] /\ block_id p <= block_id p'.
Proof.
  intros Hv. unfold ReadToString. rewrite (ReadableSize_spec _ _ _ _ Hv). simpl.
  destruct (ReadData_spec _ _ _ _ (zlen c) Hv) as ([p' out] & Hr & Hout & Hv' & Hid).
  unfold ReadStringData. rewrite Hr. simpl in *. rewrite takeZ_all in Hout by lia.
  rewrite dropZ_all in Hv' by lia. subst out. rewrite Z.eqb_refl. simpl. by exists p'.
Qed.

Lemma at_block_skip h q id W W' :
  at_block h q id (W ++ W') -> at_block h q (id + zlen W) W'.
Proof.
  revert id. induction W as [|b W IH]; intros id Hat.
  - by rewrite zlen_nil, Z.add_0_r.
  - destruct (at_block_cons _ _ _ _ _ Hat) as (_ & _ & _ & _ & Hn).
    rewrite zlen_cons. replace (id + (1 + zlen W)) with (id + 1 + zlen W) by lia. by apply IH.
Qed.

Lemma at_block_fun h q id W W' : at_block h q id W -> at_block h q id W' -> W = W'.
Proof. intros [_ _ H1 _] [_ _ H2 _]. by simplify_eq. Qed.

(** Two pointers into one queue: the bytes between them. *)
Lemma valid_at_between h q p m c d :
  valid_at h q p c -> valid_at h q m d -> ptr_lt m p = false -> exists l, c = l ++ d.
Proof.
  intros (b & W & Hat & Hp & ->) (b' & W' & Hat' & Hm & ->) Hlt. unfold ptr_lt in Hlt.
  destruct (Z.eqb_spec (block_id m) (block_id p)) as [E|E]; bool_prop.
  - rewrite E in Hat'. pose proof (at_block_fun _ _ _ _ _ Hat Hat') as Heq.
    injection Heq as <- <-.
    exists (takeZ (pos m - pos p) (dropZ (pos p) (data b))).
    rewrite app_assoc. f_equal. replace (dropZ (pos m) (data b))
      with (dropZ (pos m - pos p) (dropZ (pos p) (data b))); [by rewrite takeZ_dropZ|].
    rewrite dropZ_dropZ by lia. f_equal. lia.
  - pose proof (at_block_len _ _ _ _ Hat) as Hl. pose proof (at_block_len _ _ _ _ Hat') as Hl'.
    set (n := Z.to_nat (block_id m - block_id p - 1)).
    rewrite zlen_cons in *. pose proof (zlen_nonneg W').
    assert (HW : b :: W = (b :: take n W) ++ drop n W) by (simpl; by rewrite take_drop).
    rewrite HW in Hat. apply at_block_skip in Hat.
    rewrite zlen_cons in Hat. replace (block_id p + (1 + zlen (take n W))) with (block_id m) in Hat.
    2: { unfold zlen in *. rewrite length_take. lia. }
    pose proof (at_block_fun _ _ _ _ _ Hat Hat') as Hd.
    exists (dropZ (pos p) (data b) ++ flat (take n W) ++ takeZ (pos m) (data b')).
    rewrite <- (take_drop n W) at 1. rewrite flat_app, Hd, flat_cons, <- !app_assoc.
    do 2 f_equal. rewrite app_assoc. by rewrite takeZ_dropZ.
Qed.

Lemma Distance_spec h q p m c d :
  valid_at h q p c -> valid_at h q m d -> ptr_lt m p = false ->
  Distance h q p m = Some (zlen c - zlen d).
Proof.
  intros Hv Hv' Hlt. unfold Distance. rewrite Hlt.
  pose proof (valid_at_between _ _ _ _ _ _ Hv Hv' Hlt) as _.
  destruct Hv as (b & W & Hat & Hp & ->), Hv' as (b' & W' & Hat' & Hm & ->).
  destruct (at_block_cons _ _ _ _ _ Hat) as (_ & Hok & _).
  destruct (at_block_cons _ _ _ _ _ Hat') as (_ & Hok' & _).
  pose proof (at_block_len _ _ _ _ Hat) as Hl. pose proof (at_block_len _ _ _ _ Hat') as Hl'.
  unfold ptr_lt in Hlt. set (n := Z.to_nat (block_id m - block_id p)).
  assert (Hle : block_id p <= block_id m) by (destruct (Z.eqb_spec (block_id m) (block_id p)); bool_prop; lia).
  rewrite zlen_cons in *. pose proof (zlen_nonneg W').
  assert (HW : b :: W = take n (b :: W) ++ drop n (b :: W)) by (by rewrite take_drop).
  assert (Hlen : length (take n (b :: W)) = n).
  { rewrite length_take. simpl. unfold zlen in *. lia. }
  rewrite HW in Hat. pose proof (sum_sizes_spec _ _ _ _ _ Hat) as Hs. rewrite Hlen in Hs.
  apply at_block_skip in Hat. replace (block_id p + zlen (take n (b :: W))) with (block_id m) in Hat
    by (unfold zlen; lia).
  pose proof (at_block_fun _ _ _ _ _ Hat Hat') as Hd. rewrite Hs. simpl. f_equal.
  apply (f_equal (fun w => zlen (flat w))) in HW. rewrite flat_app, Hd, zlen_app, !flat_cons in HW.
  rewrite !zlen_app, !data_len in HW by done.
  rewrite !zlen_app, !zlen_dropZ, !data_len by (done || lia). lia.
Qed.

(** ** Writing at the end of the last block *)

(** The block after [s] was written at its end. *)
Definition fill (b : DataBlock) (s : bytes) : DataBlock :=
  set_size (set_buffer b (splice (size b) s (buffer b))) (size b + zlen s).

Lemma fill_ok b s : block_ok b -> size b + zlen s <= buffer_size b ->
  block_ok (fill b s) /\ data (fill b s) = data b ++ s /\ buffer_size (fill b s) = buffer_size b.
Proof.
  intros [Hs Hb] Hle. pose proof (zlen_nonneg s).
  assert (Hz : buffer_size (fill b s) = buffer_size b).
  { unfold buffer_size, fill, set_size, set_buffer, splice in *. simpl.
    rewrite !zlen_app, zlen_takeZ, zlen_dropZ by lia. lia. }
  split_and!; [split; rewrite Hz; simpl; lia| |done].
  unfold data, fill, splice, buffer_size in *. simpl.
  rewrite app_assoc, takeZ_app_l by (rewrite zlen_app, zlen_takeZ; lia).
  apply takeZ_all. rewrite zlen_app, zlen_takeZ; lia.
Qed.

(** One iteration at the end of the block [b]. *)
Lemma WriteData_step_at q h id a b buf cb :
  dq_addr q id = Some a -> blocks h !! a = Some b -> block_ok b -> 0 < zlen buf ->
  WriteData_step q (h, mkPointer id (size b), buf, cb) =
    if size b =? buffer_size b then
      if end_id q <=? id + 1 then Some (inr (h, mkPointer id (size b), cb))
      else b' ← dq_block h q (id + 1); CHECK (size b' =? 0);;
           Some (inl (h, mkPointer (id + 1) 0, buf, cb))
    else
      let n := Z.min (buffer_size b - size b) (zlen buf) in
      CHECK (is_mutable b);;
      Some (inl (set_block h a (fill b (takeZ n buf)), mkPointer id (size b + n),
                 dropZ n buf, cb + n)).
Proof.
  intros Ha Hb [Hs _] Hl. unfold WriteData_step. destruct (Z.ltb_spec 0 (zlen buf)); [|lia]. simpl.
  rewrite Ha. simpl. rewrite Hb. simpl.
  destruct (Z.eqb_spec (size b) (buffer_size b)); [done|]. cbv zeta. unfold fill.
  assert (Hn : zlen (takeZ (Z.min (buffer_size b - size b) (zlen buf)) buf) =
               Z.min (buffer_size b - size b) (zlen buf)) by (rewrite zlen_takeZ; lia).
  by rewrite Hn.
Qed.

Lemma WriteData_step_nil q h p cb : WriteData_step q (h, p, [], cb) = Some (inr (h, p, cb)).
Proof. done. Qed.

Lemma WriteData_loop h q id a b buf k cb :
  id = end_id q - 1 -> dq_addr q id = Some a -> blocks h !! a = Some b -> block_ok b ->
  (size b < buffer_size b -> is_mutable b = true) ->
  let n := Z.min (buffer_size b - size b) (zlen buf) in
  loop (WriteData_step q) (S (S k)) (h, mkPointer id (size b), buf, cb) =
    Some (if 0 <? n then set_block h a (fill b (takeZ n buf)) else h,
          mkPointer id (size b + n), cb + n).
Proof.
  intros Hid Ha Hb Hok Hmut n. pose proof Hok as [Hs Hpos]. pose proof (zlen_nonneg buf).
  rewrite loop_S. destruct (decide (buf = [])) as [->|Hne].
  { rewrite WriteData_step_nil. assert (E : n = 0) by (unfold n; change (zlen []) with 0; lia).
    rewrite E. simpl. by rewrite !Z.add_0_r. }
  assert (Hl : 0 < zlen buf).
  { destruct buf; [done|]. rewrite zlen_cons in *. pose proof (zlen_nonneg buf). lia. }
  rewrite (WriteData_step_at _ _ _ a) by done.
  destruct (Z.eqb_spec (size b) (buffer_size b)) as [E|E].
  { destruct (Z.leb_spec (end_id q) (id + 1)); [|lia]. assert (E' : n = 0) by lia.
    rewrite E'. simpl. by rewrite !Z.add_0_r. }
  fold n. cbv zeta. rewrite Hmut by lia. simpl. destruct (Z.ltb_spec 0 n); [|lia]. rewrite loop_S.
  destruct (fill_ok b (takeZ n buf)) as (Hok' & _ & Hbs); [done|rewrite zlen_takeZ; lia|].
  assert (Hsz : size (fill b (takeZ n buf)) = size b + n) by (simpl; rewrite zlen_takeZ; lia).
  destruct (decide (dropZ n buf = [])) as [->|Hd]; [by rewrite WriteData_step_nil|].
  rewrite <- Hsz, (WriteData_step_at _ _ _ a (fill b (takeZ n buf))).
  - assert (n = buffer_size b - size b).
    { destruct (Z.min_spec (buffer_size b - size b) (zlen buf)) as [[_ ?]|[_ Hn]]; [done|].
      unfold n in Hd. by rewrite Hn, dropZ_all in Hd by lia. }
    destruct (Z.eqb_spec (size (fill b (takeZ n buf))) (buffer_size (fill b (takeZ n buf)))); [|lia].
    destruct (Z.leb_spec (end_id q) (id + 1)); [|lia]. done.
  - done.
  - simpl. by rewrite lookup_insert_eq.
  - done.
  - destruct (dropZ n buf); [done|]. rewrite zlen_cons. pose proof (zlen_nonneg l). lia.
Qed.

Lemma WriteData_spec h q id a b buf :
  id = end_id q - 1 -> dq_addr q id = Some a -> blocks h !! a = Some b -> block_ok b ->
  (size b < buffer_size b -> is_mutable b = true) ->
  let n := Z.min (buffer_size b - size b) (zlen buf) in
  WriteData h q (mkPointer id (size b)) buf =
    Some (if 0 <? n then set_block h a (fill b (takeZ n buf)) else h,
          mkPointer id (size b + n), n).
Proof. intros. by apply WriteData_loop. Qed.

(** From the end of a full block into the empty last one. *)
Lemma WriteData_next h q id b a b' buf :
  id + 1 = end_id q - 1 -> dq_block h q id = Some b -> block_ok b -> size b = buffer_size b ->
  dq_addr q (id + 1) = Some a -> blocks h !! a = Some b' -> block_ok b' -> size b' = 0 ->
  is_mutable b' = true -> 0 < zlen buf ->
  let n := Z.min (buffer_size b') (zlen buf) in
  WriteData h q (mkPointer id (size b)) buf =
    Some (if 0 <? n then set_block h a (fill b' (takeZ n buf)) else h,
          mkPointer (id + 1) n, n).
Proof.
  intros Hid Hb Hbok Hfull Ha Hb' Hok Hz Hmut Hlen n. unfold WriteData.
  change (walk_fuel q) with (S (S (S (2 * length (vec q))))). rewrite loop_S.
  unfold dq_block in Hb. apply bind_Some in Hb as (a0 & Ha0 & Hb).
  rewrite (WriteData_step_at _ _ _ a0 b) by done.
  destruct (Z.eqb_spec (size b) (buffer_size b)); [|lia].
  destruct (Z.leb_spec (end_id q) (id + 1)); [lia|]. unfold dq_block. rewrite Ha. simpl.
  rewrite Hb'. simpl. rewrite Hz. simpl. rewrite <- Hz.
  rewrite (WriteData_loop h q (id + 1) a b' buf) by done.
  rewrite Hz, Z.sub_0_r, !Z.add_0_l. done.
Qed.
