(* ===== verification/MemoryStream.v ===== *)
(** * MemoryStream: [io/buffer/memory_stream.h], [io/buffer/memory_stream.cc]

    The byte stream every other component reads and writes.  An operation takes the
    heap of blocks and the stream (two streams for the appends and [Equals]) and
    returns them updated with its result; it is [None] when a [CHECK] fails or when
    it would leave the memory it owns.  The debug dumps are not modelled, and the
    appends are the variant compiled, [__APPEND_WITH_BLOCK_REUSE__].  A [size_t] that the
    code passes as a [BlockSize] or keeps in an [int] is converted with [int32]. *)

From S2P Require Import Prelude.
From S2P Require Import DataBlock.

Record MemoryStream := mkMemoryStream {
  block_size_ : Z;
  blocks_ : BlockDqueue;
  read_pointer_ : DataBlockPointer;
  write_pointer_ : DataBlockPointer;
  scratch_pointer_ : DataBlockPointer;
  markers_ : list (Z * DataBlockPointer);
  invalid_markers_size_ : bool;
  size_ : Z;
}.

Definition with_blocks (s : MemoryStream) (q : BlockDqueue) : MemoryStream :=
  mkMemoryStream (block_size_ s) q (read_pointer_ s) (write_pointer_ s) (scratch_pointer_ s)
    (markers_ s) (invalid_markers_size_ s) (size_ s).
Definition with_read (s : MemoryStream) (p : DataBlockPointer) (size : Z) : MemoryStream :=
  mkMemoryStream (block_size_ s) (blocks_ s) p (write_pointer_ s) (scratch_pointer_ s)
    (markers_ s) (invalid_markers_size_ s) size.
Definition with_write (s : MemoryStream) (p : DataBlockPointer) (size : Z) : MemoryStream :=
  mkMemoryStream (block_size_ s) (blocks_ s) (read_pointer_ s) p (scratch_pointer_ s)
    (markers_ s) (invalid_markers_size_ s) size.
Definition with_scratch (s : MemoryStream) (p : DataBlockPointer) : MemoryStream :=
  mkMemoryStream (block_size_ s) (blocks_ s) (read_pointer_ s) (write_pointer_ s) p
    (markers_ s) (invalid_markers_size_ s) (size_ s).
Definition with_markers (s : MemoryStream) (m : list (Z * DataBlockPointer)) : MemoryStream :=
  mkMemoryStream (block_size_ s) (blocks_ s) (read_pointer_ s) (write_pointer_ s)
    (scratch_pointer_ s) m (invalid_markers_size_ s) (size_ s).
Definition with_invalid (s : MemoryStream) (b : bool) : MemoryStream :=
  mkMemoryStream (block_size_ s) (blocks_ s) (read_pointer_ s) (write_pointer_ s)
    (scratch_pointer_ s) (markers_ s) b (size_ s).

Definition null_pointer : DataBlockPointer := mkPointer (-1) 0.

Definition MemoryStream_new (block_size : Z) : option MemoryStream :=
  CHECK (0 <? block_size);;
  Some (mkMemoryStream block_size BlockDqueue_new null_pointer null_pointer null_pointer
          [] false 0).

Definition IsEmpty (s : MemoryStream) : bool := size_ s <=? 0.
Definition Size (s : MemoryStream) : Z := size_ s.
Definition MarkerIsSet (s : MemoryStream) : bool :=
  match markers_ s with [] => false | _ => true end.

Fixpoint DecRef_all (h : heap) (l : list addr) : option heap :=
  match l with
  | [] => Some h
  | a :: l => h ← DecRef h a; DecRef_all h l
  end.

(** [Clear], also the destructor. *)
Definition Clear (h : heap) (s : MemoryStream) : option (heap * MemoryStream) :=
  CHECK (negb (MarkerIsSet s));;
  h ← DecRef_all h (live (blocks_ s));
  Some (h, mkMemoryStream (block_size_ s) (dq_clear (blocks_ s)) null_pointer null_pointer
             (scratch_pointer_ s) (markers_ s) (invalid_markers_size_ s) 0).

Definition AppendBlock (h : heap) (s : MemoryStream) (block : addr)
    : option (heap * MemoryStream) :=
  h ← IncRef h block;
  b ← blocks h !! block;
  let q := push_back (blocks_ s) block in
  Some (h, mkMemoryStream (block_size_ s) q (read_pointer_ s)
             (mkPointer (end_id q - 1) (size b)) (scratch_pointer_ s)
             (markers_ s) true (size_ s + size b)).

Definition AppendRaw (h : heap) (s : MemoryStream) (data : bytes) (disposer : option nat)
    : option (heap * MemoryStream) :=
  '(a, h) ← DataBlock_raw h (takeZ (int32 (zlen data)) data) disposer;
  AppendBlock h s a.

(** [None] is [false]. *)
Definition MaybeInitReadPointer (s : MemoryStream) : option MemoryStream :=
  if IsNull (read_pointer_ s) then
    if IsNull (write_pointer_ s) then None
    else Some (with_read s (mkPointer (begin_id (blocks_ s)) (pos (read_pointer_ s))) (size_ s))
  else Some s.

Definition Dispose_step (s : MemoryStream) (x : heap * BlockDqueue)
    : option (heap * BlockDqueue + heap * BlockDqueue) :=
  let '(h, q) := x in
  if (begin_id q <? block_id (read_pointer_ s)) && (begin_id q <? end_id q) &&
     match markers_ s with
     | [] => true
     | (_, m) :: _ => begin_id q <? block_id m
     end
  then a ← front q; h ← DecRef h a; Some (inl (h, pop_front q))
  else Some (inr (h, q)).

Definition MaybeDisposeBlocks (h : heap) (s : MemoryStream) : option (heap * MemoryStream) :=
  '(h, q) ← loop (Dispose_step s) (S (length (vec (blocks_ s)))) (h, blocks_ s);
  Some (h, with_blocks s (correct_buffer q)).

(** The value [*size] has on entry is not used. *)
Definition ReadNext (h : heap) (s : MemoryStream)
    : option (heap * MemoryStream * option bytes) :=
  CHECK (IsNull (scratch_pointer_ s));;
  match MaybeInitReadPointer s with
  | None => Some (h, s, None)
  | Some s =>
      '(h, s) ← MaybeDisposeBlocks h s;
      r ← ReadBlock h (blocks_ s) (read_pointer_ s) 0;
      match r with
      | Some (p, buffer) => Some (h, with_read s p (size_ s - zlen buffer), Some buffer)
      | None => Some (h, s, None)
      end
  end.

(** The loop of [ReadForWritev]: the state is the stream, [max_size] and [v]. *)
Definition Writev_step (h : heap) (x : MemoryStream * Z * list bytes)
    : option (MemoryStream * Z * list bytes + MemoryStream * list bytes) :=
  let '(s, max_size, v) := x in
  if 0 <? max_size then
    r ← ReadBlock h (blocks_ s) (read_pointer_ s) 0;
    match r with
    | None => Some (inr (s, v))
    | Some (p, buffer) =>
        if 0 <? zlen buffer then
          let max_size := if max_size <? zlen buffer then 0 else max_size - zlen buffer in
          Some (inl (with_read s p (size_ s - zlen buffer), max_size, v ++ [buffer]))
        else Some (inl (with_read s p (size_ s), max_size, v))
    end
  else Some (inr (s, v)).

Definition ReadForWritev (h : heap) (s : MemoryStream) (max_size : Z)
    : option (heap * MemoryStream * list bytes) :=
  CHECK (IsNull (scratch_pointer_ s));;
  match MaybeInitReadPointer s with
  | None => Some (h, s, [])
  | Some s =>
      '(h, s) ← MaybeDisposeBlocks h s;
      '(s, v) ← loop (Writev_step h) (walk_fuel (blocks_ s)) (s, max_size, []);
      Some (h, s, v)
  end.

(** A fresh block at the end of the queue, as [GetScratchSpace] and [Write] add it. *)
Definition push_new_block (h : heap) (q : BlockDqueue) (buffer_size : Z)
    : option (heap * BlockDqueue) :=
  '(a, h) ← DataBlock_new h buffer_size;
  h ← IncRef h a;
  Some (h, push_back q a).

(** The result is the space handed out: a block, an offset in it and a length. *)
Definition GetScratchSpace (h : heap) (s : MemoryStream)
    : option (heap * MemoryStream * (addr * Z * Z)) :=
  CHECK (IsNull (scratch_pointer_ s));;
  av ← AvailableForWrite h (blocks_ s) (write_pointer_ s);
  '(h, s) ← (if IsNull (write_pointer_ s) || (av =? 0) then
     '(h, q) ← push_new_block h (blocks_ s) (block_size_ s);
     Some (h, with_write (with_blocks s q) (mkPointer (end_id q - 1) 0) (size_ s))
   else Some (h, s));
  let scratch := write_pointer_ s in
  a ← dq_addr (blocks_ s) (block_id scratch);
  '(h, p, n) ← AdvanceToCurrentBlockEnd h (blocks_ s) scratch;
  Some (h, with_invalid (with_scratch (with_write s p (size_ s)) scratch) true,
        (a, pos scratch, n)).

Definition ConfirmScratch (h : heap) (s : MemoryStream) (size : Z)
    : option (heap * MemoryStream) :=
  CHECK (negb (IsNull (scratch_pointer_ s)));;
  '(p, _) ← Advance h (blocks_ s) (scratch_pointer_ s) (int32 size);
  h ← MarkCurrentBlockEndAtPointer h (blocks_ s) p;
  Some (h, with_invalid (with_scratch (with_write s p (size_ s + size)) Pointer_Clear) true).

Definition ReadInternal (h : heap) (s : MemoryStream) (len : Z) (dispose : bool)
    : option (heap * MemoryStream * bytes) :=
  if len =? 0 then Some (h, s, [])
  else
    match MaybeInitReadPointer s with
    | None => Some (h, s, [])
    | Some s =>
        '(p, out) ← ReadData h (blocks_ s) (read_pointer_ s) (int32 len);
        let s := with_read s p (size_ s - zlen out) in
        if dispose then '(h, s) ← MaybeDisposeBlocks h s; Some (h, s, out)
        else Some (h, s, out)
    end.

Definition Read (h : heap) (s : MemoryStream) (len : Z) := ReadInternal h s len true.
Definition ReadBuffer (h : heap) (s : MemoryStream) (len : Z) := ReadInternal h s len true.

Definition Skip (h : heap) (s : MemoryStream) (len : Z) : option (heap * MemoryStream * Z) :=
  match MaybeInitReadPointer s with
  | None => Some (h, s, 0)
  | Some s =>
      '(p, cb) ← Advance h (blocks_ s) (read_pointer_ s) (int32 len);
      '(h, s) ← MaybeDisposeBlocks h (with_read s p (size_ s - cb));
      Some (h, s, cb)
  end.

Definition ReadString (h : heap) (s : MemoryStream) (len : Z)
    : option (heap * MemoryStream * bytes) :=
  Read h s (if len <? 0 then size_ s else len).

Definition ToString (h : heap) (s : MemoryStream) := ReadString h s (-1).

Definition GetReadPointer (s : MemoryStream) : DataBlockPointer :=
  if IsNull (read_pointer_ s) && negb (IsNull (write_pointer_ s))
  then mkPointer (begin_id (blocks_ s)) (pos (read_pointer_ s))
  else read_pointer_ s.

Definition Peek (h : heap) (s : MemoryStream) (len : Z) : option bytes :=
  let reader := GetReadPointer s in
  if IsNull reader then Some []
  else '(_, out) ← ReadData h (blocks_ s) reader (int32 len); Some out.

Definition DebugString (h : heap) (s : MemoryStream) : option bytes := Peek h s (Size s).

(** The line readers: [None] inside is [false], the stream being left as it was but
    for the initialisation of the read pointer. *)
Definition ReadCRLFLine (h : heap) (s : MemoryStream)
    : option (MemoryStream * option bytes) :=
  match MaybeInitReadPointer s with
  | None => Some (s, None)
  | Some s =>
      '(p, r) ← Pointer_ReadCRLFLine h (blocks_ s) (read_pointer_ s);
      match r with
      | Some line => Some (with_read s p (size_ s - zlen line), Some line)
      | None => Some (with_read s p (size_ s), None)
      end
  end.

Definition ReadLFLine (h : heap) (s : MemoryStream)
    : option (MemoryStream * option bytes) :=
  match MaybeInitReadPointer s with
  | None => Some (s, None)
  | Some s =>
      '(p, r) ← Pointer_ReadLFLine h (blocks_ s) (read_pointer_ s);
      match r with
      | Some line => Some (with_read s p (size_ s - zlen line), Some line)
      | None => Some (with_read s p (size_ s), None)
      end
  end.

(** The trailing CR and LF characters removed. *)
Fixpoint strip_eol (rev_line : bytes) : bytes :=
  match rev_line with
  | c :: r => if bool_decide (c = Byte.x0a) || bool_decide (c = Byte.x0d) then strip_eol r
              else rev_line
  | [] => []
  end.

Definition ReadLine (h : heap) (s : MemoryStream) : option (MemoryStream * option bytes) :=
  '(s, r) ← ReadCRLFLine h s;
  match r with
  | None => Some (s, None)
  | Some line => Some (s, Some (rev (strip_eol (rev line))))
  end.

(** The loop of [Write]: the state is the heap, the stream and what is left. *)
Definition Write_step (x : heap * MemoryStream * bytes)
    : option (heap * MemoryStream * bytes + heap * MemoryStream) :=
  let '(h, s, p) := x in
  if 0 <? zlen p then
    '(h, wp, delta) ← WriteData h (blocks_ s) (write_pointer_ s) (takeZ (int32 (zlen p)) p);
    let p := dropZ delta p in
    let s := with_write s wp (size_ s + delta) in
    if 0 <? zlen p then
      '(h, q) ← push_new_block h (blocks_ s) (int32 (Z.max (zlen p) (block_size_ s)));
      Some (inl (h, with_blocks s q, p))
    else Some (inl (h, s, p))
  else Some (inr (h, s)).

(** All of the buffer is written: the value returned is its length. *)
Definition Write (h : heap) (s : MemoryStream) (buffer : bytes)
    : option (heap * MemoryStream) :=
  let s := with_invalid s true in
  '(h, s) ← (if IsNull (write_pointer_ s) then
     '(h, q) ← push_new_block h (blocks_ s) (int32 (Z.max (zlen buffer) (block_size_ s)));
     Some (h, with_write (with_blocks s q) (mkPointer (begin_id (blocks_ s)) 0) (size_ s))
   else Some (h, s));
  loop Write_step 4 (h, s, buffer).

(** ** Markers *)

Definition MarkerSet (s : MemoryStream) : MemoryStream :=
  let s' := match markers_ s with [] => with_invalid s false | _ => s end in
  with_markers s' (markers_ s ++ [(int32 (size_ s), read_pointer_ s)]).

Definition MarkerRestore (h : heap) (s : MemoryStream) : option MemoryStream :=
  '(sz, m) ← list.last (markers_ s);
  let s := with_read s m (size_ s) in
  s ← (if invalid_markers_size_ s then
     let s := default s (MaybeInitReadPointer s) in
     d ← Distance h (blocks_ s) (read_pointer_ s) (write_pointer_ s);
     Some (with_read s (read_pointer_ s) (size_t (int32 d)))
   else Some (with_read s (read_pointer_ s) (size_t sz)));
  Some (with_markers s (removelast (markers_ s))).

Definition MarkerClear (h : heap) (s : MemoryStream) : option (heap * MemoryStream) :=
  _ ← list.last (markers_ s);
  MaybeDisposeBlocks h (with_markers s (removelast (markers_ s))).

(** ** Appends *)

Definition AppendNewBlock (h : heap) (s : MemoryStream) (data : DataBlock)
    (pos_begin pos_end : Z) : option (heap * MemoryStream) :=
  let size := pos_end - pos_begin in
  if 0 <? size then Write h s (takeZ size (dropZ pos_begin (buffer data)))
  else Some (h, s).

(** The loop over the blocks between two pointers of the queue [q]. *)
Definition AppendRange_step (q : BlockDqueue) (fin : DataBlockPointer)
    (x : heap * MemoryStream * DataBlockPointer)
    : option (heap * MemoryStream * DataBlockPointer + heap * MemoryStream) :=
  let '(h, s, p) := x in
  if block_id p <=? block_id fin then
    a ← dq_addr q (block_id p);
    b ← blocks h !! a;
    let pos_begin := pos p in
    let pos_end := if block_id p =? block_id fin then pos fin else size b in
    '(h, s) ← (if pos_begin <? pos_end then
        if (pos_begin =? 0) && (pos_end =? buffer_size b) then AppendBlock h s a
        else AppendNewBlock h s b pos_begin pos_end
      else Some (h, s));
    Some (inl (h, s, mkPointer (block_id p + 1) 0))
  else Some (inr (h, s)).

Definition AppendStreamNonDestructive_range (h : heap) (s : MemoryStream)
    (q : BlockDqueue) (p fin : DataBlockPointer) : option (heap * MemoryStream) :=
  '(h, s) ← (if ptr_lt p fin
    then loop (AppendRange_step q fin) (S (S (length (vec q)))) (h, s, p)
    else Some (h, s));
  wp ← SkipToCurrentBlockEnd h (blocks_ s) (write_pointer_ s);
  Some (h, with_write s wp (size_ s)).

Definition AppendStreamNonDestructive (h : heap) (s buffer : MemoryStream) (size : Z)
    : option (heap * MemoryStream) :=
  let p := GetReadPointer buffer in
  if IsNull p then Some (h, s)
  else
    fin ← (if 0 <=? size then
        '(fin, _) ← Advance h (blocks_ buffer) p (int32 (Z.min size (Size buffer))); Some fin
      else Some (write_pointer_ buffer));
    if negb (IsEmpty buffer)
    then AppendStreamNonDestructive_range h s (blocks_ buffer) p fin
    else Some (h, s).

Definition AppendStream (h : heap) (s buffer : MemoryStream) (size : Z)
    : option (heap * MemoryStream * MemoryStream) :=
  '(h, s) ← AppendStreamNonDestructive h s buffer size;
  '(h, buffer, _) ←
    (if (0 <=? size) && (size <? Size buffer) then Skip h buffer size
     else Skip h buffer (Size buffer));
  Some (h, s, buffer).

(** ** Equals *)

(** One round of the comparison; [inr] is the value returned. *)
Definition Equals_step (x : heap * MemoryStream * MemoryStream)
    : option (heap * MemoryStream * MemoryStream + heap * MemoryStream * MemoryStream * bool) :=
  let '(h, a, b) := x in
  '(h, a, a_buf) ← Read h a 128;
  CHECK ((zlen a_buf =? 128) || IsEmpty a);;
  '(h, b, b_buf) ← Read h b 128;
  CHECK ((zlen b_buf =? 128) || IsEmpty b);;
  if negb (zlen a_buf =? zlen b_buf) || negb (bool_decide (a_buf = b_buf))
  then Some (inr (h, a, b, false))
  else if zlen a_buf =? 0 then Some (inr (h, a, b, true))
  else Some (inl (h, a, b)).

Definition Equals (h : heap) (a b : MemoryStream)
    : option (heap * MemoryStream * MemoryStream * bool) :=
  if negb (Size a =? Size b) then Some (h, a, b, false)
  else
    '(h, a, b, r) ← loop Equals_step (S (S (Z.to_nat (Size a)))) (h, MarkerSet a, MarkerSet b);
    a ← MarkerRestore h a;
    b ← MarkerRestore h b;
    Some (h, a, b, r).
