(* ===== verification/MemoryStreamFacts.v ===== *)
(** * Facts about memory streams

    The heap of blocks shared by all streams is described by [heap_ok h T]: a block is
    allocated exactly when some stream holds it, its reference count is the number [T]
    of places that hold it, and a block that can still be written is held once.
    [Rep h s c ms] says that the stream [s] holds the bytes [c] and that its markers
    were set in front of the bytes [ms].  [Inv O h s c ms] puts the two together, [O]
    counting the references of all the other streams, and every operation is specified
    as a transformer of [Inv] that [keeps] the blocks of the others. *)

From S2P Require Import Prelude.
From S2P Require Import DataBlock.
From S2P Require Import DataBlockFacts.
From S2P Require Import MemoryStream.

(** ** Occurrences *)

Fixpoint occ (a : addr) (l : list addr) : Z :=
  match l with
  | [] => 0
  | x :: l => (if decide (a = x) then 1 else 0) + occ a l
  end.

Lemma occ_app a l l' : occ a (l ++ l') = occ a l + occ a l'.
Proof. induction l as [|x l IH]; simpl; lia. Qed.

Lemma occ_nonneg a l : 0 <= occ a l.
Proof. induction l as [|x l IH]; simpl; [lia|]. destruct (decide _); lia. Qed.

Lemma occ_pos a l : a ∈ l <-> 0 < occ a l.
Proof.
  induction l as [|x l IH]; simpl.
  - rewrite elem_of_nil. lia.
  - rewrite elem_of_cons, IH. pose proof (occ_nonneg a l).
    destruct (decide (a = x)) as [->|Hne]; [split; [lia|by left]|].
    split; [intros [?|?]; [done|lia]|intros; right; lia].
Qed.

(** ** The heap *)

Record heap_ok (h : heap) (T : addr -> Z) : Prop := mk_heap_ok {
  ho_block a b : blocks h !! a = Some b ->
    block_ok b /\ ref_count b = T a /\ 0 < T a /\
    (size b < buffer_size b -> is_mutable b = true /\ T a = 1);
  ho_none a : blocks h !! a = None -> T a = 0;
  ho_next a : (next h <= a)%nat -> blocks h !! a = None;
  ho_disposed a : a ∈ (disposed h).*1 <-> (a < next h)%nat /\ blocks h !! a = None;
  ho_nodup : NoDup (disposed h).*1;
}.

(** Equal but for the reference count. *)
Definition same (b b' : DataBlock) : Prop := set_ref b 0 = set_ref b' 0.

Lemma same_fields b b' : same b b' ->
  is_mutable b = is_mutable b' /\ buffer b = buffer b' /\ size b = size b' /\
  disposer b = disposer b'.
Proof. destruct b, b'. unfold same, set_ref. simpl. by intros [= -> -> -> ->]. Qed.

Lemma same_data b b' : same b b' -> size b = size b' /\ data b = data b' /\ buffer_size b = buffer_size b'.
Proof.
  intros H. apply same_fields in H as (_ & Hb & Hs & _). unfold data, buffer_size. by rewrite Hb, Hs.
Qed.

Lemma same_ok b b' : same b b' -> block_ok b -> block_ok b'.
Proof. intros H. apply same_data in H as (? & _ & ?). unfold block_ok. intros. lia. Qed.

Definition keeps (O : addr -> Z) (h h' : heap) : Prop :=
  forall a b, 0 < O a -> blocks h !! a = Some b ->
    exists b', blocks h' !! a = Some b' /\ same b b'.

#[export] Instance keeps_refl O : Reflexive (keeps O).
Proof. intros h a b _ H. by exists b. Qed.

#[export] Instance keeps_trans O : Transitive (keeps O).
Proof.
  intros h1 h2 h3 H12 H23 a b Ha Hb. destruct (H12 a b Ha Hb) as (b' & Hb' & Hs).
  destruct (H23 a b' Ha Hb') as (b'' & Hb'' & Hs'). exists b''. split; [done|].
  unfold same in *. congruence.
Qed.

#[export] Hint Resolve keeps_refl : whisper.

Lemma heap_ok_ext h T T' : (forall a, T a = T' a) -> heap_ok h T -> heap_ok h T'.
Proof.
  intros HT [H1 H2 H3 H4 H5]. constructor; [|intros a; rewrite <- HT; auto|done..].
  intros a b Hb. rewrite <- HT. auto.
Qed.

Lemma heap_ok_alloc h T a : heap_ok h T -> 0 < T a -> exists b, blocks h !! a = Some b.
Proof.
  intros Hok Ha. destruct (blocks h !! a) as [b|] eqn:Hb; [by exists b|].
  pose proof (ho_none _ _ Hok a Hb). lia.
Qed.

Definition one (a : addr) : addr -> Z := fun x => if decide (x = a) then 1 else 0.

(** Replacing an allocated block. *)
Lemma heap_ok_set h T T' a b b' :
  heap_ok h T -> blocks h !! a = Some b -> block_ok b' -> ref_count b' = T' a -> 0 < T' a ->
  (size b' < buffer_size b' -> is_mutable b' = true /\ T' a = 1) ->
  (forall x, x <> a -> T' x = T x) -> heap_ok (set_block h a b') T'.
Proof.
  intros Hok Ha Hb' Hr Hp Hm HT. constructor; simpl.
  - intros x y. destruct (decide (x = a)) as [->|Hne].
    + rewrite lookup_insert_eq. intros [= <-]. by split_and!.
    + rewrite lookup_insert_ne by done. rewrite HT by done. apply (ho_block _ _ Hok).
  - intros x. destruct (decide (x = a)) as [->|Hne]; [by rewrite lookup_insert_eq|].
    rewrite lookup_insert_ne, HT by done. apply (ho_none _ _ Hok).
  - intros x Hx. assert (x <> a).
    { intros ->. pose proof (ho_next _ _ Hok a Hx). congruence. }
    rewrite lookup_insert_ne by done. by apply (ho_next _ _ Hok).
  - intros x. rewrite (ho_disposed _ _ Hok). destruct (decide (x = a)) as [->|Hne].
    + rewrite lookup_insert_eq, Ha. by split; intros [_ ?].
    + by rewrite lookup_insert_ne.
  - apply (ho_nodup _ _ Hok).
Qed.

Lemma keeps_set O h a b' :
  (forall b, blocks h !! a = Some b -> 0 < O a -> same b b') -> keeps O h (set_block h a b').
Proof.
  intros H x y Hx Hy. simpl. destruct (decide (x = a)) as [->|Hne].
  - rewrite lookup_insert_eq. eauto.
  - rewrite lookup_insert_ne by done. by exists y.
Qed.

Lemma IncRef_spec h T a b :
  heap_ok h T -> blocks h !! a = Some b -> size b = buffer_size b ->
  exists h', IncRef h a = Some h' /\ heap_ok h' (fun x => T x + one a x) /\
    (forall O, keeps O h h') /\ exists b', blocks h' !! a = Some b' /\ same b b'.
Proof.
  intros Hok Ha Hfull. unfold IncRef. rewrite Ha. simpl. eexists; split; [done|].
  destruct (ho_block _ _ Hok a b Ha) as (Hb & Hr & Hp & _). split_and!.
  - eapply heap_ok_set; try done; unfold one.
    + simpl. rewrite decide_True by done. lia.
    + rewrite decide_True by done. lia.
    + unfold buffer_size in *. simpl. lia.
    + intros x Hx. rewrite decide_False by done. lia.
  - intros O. apply keeps_set. intros b0 Hb0 _. by simplify_eq.
  - simpl. rewrite lookup_insert_eq. by eexists.
Qed.

Lemma DecRef_spec h O a :
  heap_ok h (fun x => O x + one a x) -> (forall x, 0 <= O x) ->
  exists h', DecRef h a = Some h' /\ heap_ok h' O /\ keeps O h h'.
Proof.
  intros Hok HO. destruct (heap_ok_alloc _ _ a Hok) as [b Hb].
  { unfold one. rewrite decide_True by done. specialize (HO a). lia. }
  unfold DecRef. rewrite Hb. simpl. specialize (HO a) as HOa.
  destruct (ho_block _ _ Hok a b Hb) as (Hbok & Hr & Hp & Hm).
  unfold one in Hr, Hp, Hm. rewrite decide_True in Hr, Hp, Hm by done.
  destruct (Z.eqb_spec 1 (ref_count b)) as [E|E]; eexists; (split; [done|]).
  - assert (HOz : O a = 0) by lia. split.
    + constructor; simpl.
      * intros x y Hy. apply lookup_delete_Some in Hy as [Hne Hy].
        pose proof (ho_block _ _ Hok x y Hy) as Hx. unfold one in Hx.
        rewrite decide_False, Z.add_0_r in Hx by done. exact Hx.
      * intros x Hx. apply lookup_delete_None in Hx as [<-|Hx]; [done|].
        pose proof (ho_none _ _ Hok x Hx) as Hz. specialize (HO x). unfold one in Hz.
        destruct (decide _); lia.
      * intros x Hx. apply lookup_delete_None. right. by apply (ho_next _ _ Hok).
      * intros x. rewrite elem_of_cons, (ho_disposed _ _ Hok), lookup_delete_None.
        assert (a < next h)%nat.
        { destruct (decide (next h <= a)%nat) as [H|]; [|lia].
          pose proof (ho_next _ _ Hok a H). congruence. }
        destruct (decide (x = a)) as [->|Hne]; [by split; [auto|by left]|].
        split; [intros [?|[? ?]]; [done|auto]|intros [? [?|?]]; [by subst|auto]].
      * apply list.NoDup_cons. split; [|apply (ho_nodup _ _ Hok)].
        rewrite (ho_disposed _ _ Hok). intros [_ ?]. congruence.
    + intros x y Hx Hy. simpl. exists y. split; [|done].
      apply lookup_delete_Some. split; [|done]. intros ->. lia.
  - split; [|by apply keeps_set; intros b0 Hb0 _; simplify_eq].
    eapply heap_ok_set; try done.
    + simpl. lia.
    + lia.
    + unfold buffer_size in *. simpl. intros Hlt. specialize (Hm Hlt). lia.
    + intros x Hx. unfold one. rewrite decide_False by done. lia.
Qed.

(** A new block, referenced once. *)
Lemma alloc_spec h T b h' :
  heap_ok h T -> block_ok b -> (size b < buffer_size b -> is_mutable b = true) ->
  ref_count b = 0 -> alloc h b = (next h, h') ->
  exists h'', IncRef h' (next h) = Some h'' /\
    heap_ok h'' (fun x => T x + one (next h) x) /\
    (forall O, keeps O h h'') /\ blocks h'' !! next h = Some (set_ref b 1).
Proof.
  intros Hok Hb Hm Hr [= <-]. unfold IncRef. simpl. rewrite lookup_insert_eq. simpl.
  rewrite Hr. eexists; split; [done|].
  pose proof (ho_next _ _ Hok (next h) ltac:(lia)) as Hnone. split_and!.
  - pose proof (ho_none _ _ Hok _ Hnone) as HT. constructor; unfold one; simpl.
    + intros x y. rewrite insert_insert_eq. destruct (decide (x = next h)) as [->|Hne].
      * rewrite lookup_insert_eq. intros [= <-]. rewrite HT.
        split_and!; [done|simpl; lia|lia|]. intros. split; [by apply Hm|lia].
      * rewrite lookup_insert_ne by done. rewrite Z.add_0_r. apply (ho_block _ _ Hok).
    + intros x. rewrite insert_insert_eq. destruct (decide (x = next h)) as [->|Hne].
      * by rewrite lookup_insert_eq.
      * rewrite lookup_insert_ne, Z.add_0_r by done. apply (ho_none _ _ Hok).
    + intros x Hx. rewrite insert_insert_eq, lookup_insert_ne by lia.
      apply (ho_next _ _ Hok). lia.
    + intros x. rewrite insert_insert_eq, (ho_disposed _ _ Hok).
      destruct (decide (x = next h)) as [->|Hne].
      * rewrite lookup_insert_eq. split; intros [? ?]; [lia|done].
      * rewrite lookup_insert_ne by done. assert (x <> next h) by done.
        split; intros [? ?]; (split; [|done]); lia || (destruct (decide (x < next h)%nat); [done|lia]).
    + apply (ho_nodup _ _ Hok).
  - intros O x y _ Hy. simpl. exists y. split; [|done].
    rewrite insert_insert_eq, lookup_insert_ne; [done|]. intros <-. congruence.
  - simpl. by rewrite lookup_insert_eq.
Qed.

(** ** Queues and views *)

Definition dq_ok (q : BlockDqueue) : Prop :=
  0 <= correction_ q /\ 0 <= begin_id_ q <= zlen (vec q).

(** Every live block is allocated. *)
Definition held (h : heap) (q : BlockDqueue) : Prop :=
  forall a, a ∈ live q -> exists b, blocks h !! a = Some b /\ block_ok b.

Lemma live_len q : dq_ok q -> zlen (live q) = end_id q - begin_id q.
Proof. intros [? ?]. unfold live, end_id, begin_id. rewrite zlen_dropZ by lia. lia. Qed.

Lemma mapM_dropZ_live h q id : begin_id q <= id -> dq_ok q ->
  window h q id = mapM (fun a => blocks h !! a) (dropZ (id - begin_id q) (live q)).
Proof.
  intros Hid [? ?]. unfold window, live, begin_id in *. rewrite dropZ_dropZ by lia.
  do 2 f_equal. lia.
Qed.

Lemma Forall2_at_block (h : heap) l : (forall a, a ∈ l -> exists b, blocks h !! a = Some b /\ block_ok b) ->
  exists W, mapM (fun a => blocks h !! a) l = Some W /\ Forall block_ok W.
Proof.
  induction l as [|a l IH]; intros H.
  - by exists [].
  - destruct (H a ltac:(by left)) as (b & Hb & Hok).
    destruct IH as (W & HW & Hoks); [intros x Hx; apply H; by right|].
    exists (b :: W). split; [|by constructor]. simpl. by rewrite Hb, HW.
Qed.

Lemma at_block_ex h q id : dq_ok q -> held h q -> begin_id q <= id <= end_id q ->
  exists W, at_block h q id W.
Proof.
  intros Hq Hh Hid.
  destruct (Forall2_at_block h (dropZ (id - begin_id q) (live q))) as (W & HW & Hok).
  { intros a Ha. by eapply Hh, elem_of_dropZ. }
  exists W. constructor; [|lia|by rewrite mapM_dropZ_live by (done || lia)|done].
  destruct Hq. unfold begin_id in *. lia.
Qed.

Definition view (h : heap) (q : BlockDqueue) (p : DataBlockPointer) (c : bytes) : Prop :=
  if IsNull p then pos p = 0 /\ exists W, at_block h q (begin_id q) W /\ c = flat W
  else begin_id q <= block_id p /\ valid_at h q p c.

Lemma IsNull_spec p : IsNull p = true <-> block_id p = -1.
Proof. unfold IsNull. apply Z.eqb_eq. Qed.

(** *** The same blocks in another heap, or in a queue with blocks popped *)

Lemma Forall2_same_flat W W' : Forall2 same W W' -> flat W = flat W'.
Proof.
  induction 1 as [|b b' W W' Hb HW IH]; [done|].
  rewrite !flat_cons, IH. by destruct (same_data _ _ Hb) as (_ & -> & _).
Qed.

Lemma window_frame (h h' : heap) l W :
  (forall a b, a ∈ l -> blocks h !! a = Some b -> exists b', blocks h' !! a = Some b' /\ same b b') ->
  mapM (fun a => blocks h !! a) l = Some W -> Forall block_ok W ->
  exists W', mapM (fun a => blocks h' !! a) l = Some W' /\ Forall2 same W W' /\ Forall block_ok W'.
Proof.
  intros Hk HW. apply mapM_Some in HW. induction HW as [|a b l W Ha HW IH]; intros Hok.
  - by exists [].
  - destruct (Hk a b ltac:(by left) Ha) as (b' & Hb' & Hs). inversion Hok; subst.
    destruct IH as (W' & HW' & Hs' & Hok'); [intros x y ?; apply Hk; by right|done|].
    exists (b' :: W'). simpl. rewrite Hb', HW'. split_and!; [done|by constructor|].
    constructor; [by eapply same_ok|done].
Qed.

(** [q'] is [q] with [n] blocks popped, possibly corrected. *)
Definition popped (q q' : BlockDqueue) : Prop :=
  dq_ok q' /\ end_id q' = end_id q /\ begin_id q <= begin_id q' /\
  live q' = dropZ (begin_id q' - begin_id q) (live q).

Lemma popped_refl q : dq_ok q -> popped q q.
Proof. intros. split_and!; [done|done|done|]. by rewrite Z.sub_diag, dropZ_0. Qed.

Lemma at_block_popped h q h' q' id W :
  dq_ok q -> popped q q' -> (forall a b, a ∈ live q' -> blocks h !! a = Some b ->
     exists b', blocks h' !! a = Some b' /\ same b b') ->
  at_block h q id W -> begin_id q' <= id ->
  exists W', at_block h' q' id W' /\ Forall2 same W W'.
Proof.
  intros Hq (Hq' & Hend & Hbeg & Hlive) Hk [Hl Hh Hw Hok] Hid.
  rewrite mapM_dropZ_live in Hw by (done || lia).
  assert (Hd : dropZ (id - begin_id q) (live q) = dropZ (id - begin_id q') (live q')).
  { rewrite Hlive, dropZ_dropZ by lia. f_equal. lia. }
  rewrite Hd in Hw. destruct (window_frame h h' (dropZ (id - begin_id q') (live q')) W)
    as (W' & HW' & Hs & Hok'); [|done..|].
  - intros a b Ha. by eapply Hk, elem_of_dropZ.
  - exists W'. split; [|done]. constructor; [|lia|by rewrite mapM_dropZ_live by (done || lia)|done].
    destruct Hq'. unfold begin_id in *. lia.
Qed.

Lemma view_popped h q h' q' p c :
  dq_ok q -> popped q q' -> (forall a b, a ∈ live q' -> blocks h !! a = Some b ->
     exists b', blocks h' !! a = Some b' /\ same b b') ->
  view h q p c -> (IsNull p = true -> begin_id q' = begin_id q) ->
  (IsNull p = false -> begin_id q' <= block_id p) -> view h' q' p c.
Proof.
  intros Hq Hpop Hk Hv Hn Hnn. unfold view in *. destruct (IsNull p) eqn:E.
  - destruct Hv as (Hp & W & Hat & ->). rewrite Hn by done. split; [done|].
    destruct (at_block_popped _ _ h' q' _ _ Hq Hpop Hk Hat) as (W' & Hat' & Hs); [rewrite Hn; done|].
    exists W'. split; [done|]. by apply Forall2_same_flat.
  - specialize (Hnn eq_refl). split; [done|]. destruct Hv as (_ & b & W & Hat & Hp & ->).
    destruct (at_block_popped _ _ h' q' _ _ Hq Hpop Hk Hat Hnn) as (W' & Hat' & Hs).
    inversion Hs as [|? b' ? W0 Hb HW]; subst. destruct (same_data _ _ Hb) as (Hsz & Hd & _).
    exists b', W0. split_and!; [done|lia..|]. by rewrite Hd, (Forall2_same_flat _ _ HW).
Qed.

Lemma correct_buffer_popped q : dq_ok q -> popped q (correct_buffer q) /\
  begin_id (correct_buffer q) = begin_id q /\ live (correct_buffer q) = live q.
Proof.
  intros Hq. pose proof Hq as [Hc Hb]. unfold correct_buffer. destruct (_ && _).
  2: { split_and!; [by apply popped_refl|done..]. }
  pose proof (live_len _ Hq) as Hl. unfold dq_size.
  assert (Hlive : takeZ (zlen (vec q) - begin_id_ q) (dropZ (begin_id_ q) (vec q)) = live q).
  { unfold live. apply takeZ_all. rewrite zlen_dropZ by lia. lia. }
  rewrite Hlive. pose proof (zlen_nonneg (live q)).
  assert (Hb' : begin_id (mkBlockDqueue (live q) 0 (correction_ q + begin_id_ q)) = begin_id q).
  { unfold begin_id. simpl. lia. }
  assert (Hl' : live (mkBlockDqueue (live q) 0 (correction_ q + begin_id_ q)) = live q) by done.
  split_and!; [|done|done]. split_and!.
  - split; simpl; lia.
  - unfold end_id, begin_id in *. simpl. lia.
  - lia.
  - rewrite Hl', Hb', Z.sub_diag, dropZ_0. done.
Qed.

Lemma live_cons q : dq_ok q -> begin_id q < end_id q ->
  exists a, front q = Some a /\ live q = a :: live (pop_front q) /\ popped q (pop_front q).
Proof.
  intros [Hc Hb] Hlt. unfold begin_id, end_id in Hlt.
  destruct (lookup_lt_is_Some_2 (vec q) (Z.to_nat (begin_id_ q))) as [a Ha].
  { unfold zlen in *. lia. }
  exists a. split; [done|].
  assert (Hl : live q = a :: live (pop_front q)).
  { unfold live, dropZ. simpl. rewrite (drop_S _ a) by done. do 2 f_equal. lia. }
  split; [done|]. unfold popped, dq_ok, begin_id, end_id. simpl. split_and!; [lia..|].
  rewrite Hl. replace (begin_id_ q + 1 + correction_ q - (begin_id_ q + correction_ q)) with 1 by lia.
  by rewrite dropZ_1.
Qed.

(** *** A block filled, a block pushed *)

Lemma last_block q id a : dq_ok q -> dq_addr q id = Some a -> id = end_id q - 1 -> begin_id q <= id ->
  exists l, live q = l ++ [a].
Proof.
  intros Hq Ha -> Hid. pose proof (live_len _ Hq) as Hl. destruct Hq as [Hc Hb].
  unfold dq_addr in Ha. destruct (Z.leb_spec (correction_ q) (end_id q - 1)); [|done].
  destruct (live q) as [|x l] eqn:E using rev_ind; [rewrite zlen_nil in Hl; lia|]. clear IHl.
  exists l. do 2 f_equal. unfold live, dropZ in E.
  assert (Hx : (l ++ [x]) !! length l = Some x) by (by apply list_lookup_middle).
  rewrite <- E, lookup_drop in Hx. rewrite zlen_app, zlen_cons, zlen_nil in Hl.
  unfold begin_id, end_id, zlen in *.
  replace (Z.to_nat (begin_id_ q) + length l)%nat
    with (Z.to_nat (Z.of_nat (length (vec q)) + correction_ q - 1 - correction_ q)) in Hx by lia.
  congruence.
Qed.

Lemma at_block_fill h q id W a b s :
  dq_ok q -> at_block h q id W -> begin_id q <= id < end_id q ->
  dq_addr q (end_id q - 1) = Some a -> blocks h !! a = Some b -> occ a (live q) = 1 ->
  block_ok b -> size b + zlen s <= buffer_size b ->
  exists W0, W = W0 ++ [b] /\ at_block (set_block h a (fill b s)) q id (W0 ++ [fill b s]).
Proof.
  intros Hq [Hl Hh Hw Hok] Hid Ha Hb Hocc Hbok Hsz.
  destruct (last_block _ _ _ Hq Ha eq_refl ltac:(lia)) as [l El].
  rewrite mapM_dropZ_live in Hw by (done || lia).
  assert (Hll : zlen (live q) = zlen l + 1) by (by rewrite El, zlen_app, zlen_cons, zlen_nil).
  rewrite live_len in Hll by done.
  assert (Hd : dropZ (id - begin_id q) (live q) = dropZ (id - begin_id q) l ++ [a]).
  { by rewrite El, dropZ_app_l by lia. }
  assert (Hna : a ∉ dropZ (id - begin_id q) l).
  { intros H. apply elem_of_dropZ, occ_pos in H. rewrite El, occ_app in Hocc. simpl in Hocc.
    rewrite decide_True in Hocc by done. lia. }
  rewrite Hd in Hw. apply mapM_Some, Forall2_app_inv_l in Hw as (W0 & Wl & HW0 & HWl & ->).
  inversion HWl as [|? b' ? ? Hb' HWn]; subst. inversion HWn; subst. simplify_eq.
  exists W0. split; [done|]. apply Forall_app in Hok as [Hok0 _].
  constructor; [done|done| |apply Forall_app; split; [done|constructor; [|done]; by apply fill_ok]].
  rewrite mapM_dropZ_live, Hd by (done || lia). apply mapM_Some, Forall2_app.
  - apply Forall2_same_length_lookup in HW0 as [Hlen HW0].
    apply Forall2_same_length_lookup. split; [done|]. intros i x y Hx Hy. simpl.
    rewrite lookup_insert_ne; [by eapply HW0|]. intros <-. apply Hna. by eapply list_elem_of_lookup_2.
  - constructor; [|done]. simpl. by rewrite lookup_insert_eq.
Qed.

Lemma flat_one b : flat [b] = data b.
Proof. unfold flat. simpl. by rewrite app_nil_r. Qed.

Lemma view_fill h q p c a b s :
  dq_ok q -> begin_id q < end_id q ->
  dq_addr q (end_id q - 1) = Some a -> blocks h !! a = Some b -> occ a (live q) = 1 ->
  block_ok b -> size b + zlen s <= buffer_size b ->
  view h q p c -> view (set_block h a (fill b s)) q p (c ++ s).
Proof.
  intros Hq Hne Ha Hb Hocc Hbok Hsz Hv. destruct (fill_ok b s Hbok Hsz) as (_ & Hfill & _).
  pose proof (zlen_nonneg s). unfold view in *.
  destruct (IsNull p).
  - destruct Hv as (Hp & W & Hat & ->). split; [done|].
    destruct (at_block_fill _ _ _ _ _ _ s Hq Hat ltac:(lia) Ha Hb Hocc Hbok Hsz) as (W0 & -> & Hat').
    eexists; split; [exact Hat'|]. by rewrite !flat_app, !flat_one, Hfill, app_assoc.
  - destruct Hv as (Hid & Hv). split; [done|]. pose proof (valid_at_id _ _ _ _ Hv).
    destruct Hv as (b1 & W & Hat & Hp & ->).
    destruct (at_block_fill _ _ _ _ _ _ s Hq Hat ltac:(lia) Ha Hb Hocc Hbok Hsz) as (W0 & E & Hat').
    destruct W0 as [|b0 W0]; simpl in E; injection E as -> ->.
    + exists (fill b s), []. simpl. split_and!; [exact Hat'|lia..|].
      rewrite !app_nil_r, Hfill, dropZ_app_l; [done|]. rewrite data_len by done. lia.
    + exists b0, (W0 ++ [fill b s]). split_and!; [exact Hat'|lia..|].
      by rewrite !flat_app, !flat_one, Hfill, !app_assoc.
Qed.

Lemma at_block_push h h' q id W a b :
  dq_ok q -> at_block h q id W -> begin_id q <= id ->
  (forall x y, x ∈ live q -> blocks h !! x = Some y -> exists y', blocks h' !! x = Some y' /\ same y y') ->
  blocks h' !! a = Some b -> block_ok b ->
  exists W', at_block h' (push_back q a) id (W' ++ [b]) /\ Forall2 same W W'.
Proof.
  intros Hq [Hl Hh Hw Hok] Hid Hk Hb Hbok.
  rewrite mapM_dropZ_live in Hw by (done || lia).
  destruct (window_frame h h' (dropZ (id - begin_id q) (live q)) W)
    as (W' & HW' & Hs & Hok'); [|done..|].
  { intros x y Hx. by eapply Hk, elem_of_dropZ. }
  exists W'. split; [|done]. pose proof (live_len _ Hq) as Hll. destruct Hq as [Hc Hbe].
  assert (Hlive : live (push_back q a) = live q ++ [a]).
  { unfold live, push_back. simpl. rewrite dropZ_app_l by lia. done. }
  constructor.
  - done.
  - unfold end_id in *. simpl. rewrite zlen_snoc. lia.
  - rewrite mapM_dropZ_live; [|done|].
    + rewrite Hlive. change (begin_id (push_back q a)) with (begin_id q).
      rewrite dropZ_app_l by lia. apply mapM_Some. apply mapM_Some in HW'.
      apply Forall2_app; [done|]. by constructor.
    + split; simpl; [done|]. rewrite zlen_snoc. lia.
  - apply Forall_app. split; [done|by constructor].
Qed.

Lemma view_push h h' q p c a b :
  dq_ok q ->
  (forall x y, x ∈ live q -> blocks h !! x = Some y -> exists y', blocks h' !! x = Some y' /\ same y y') ->
  blocks h' !! a = Some b -> block_ok b ->
  view h q p c -> view h' (push_back q a) p (c ++ data b).
Proof.
  intros Hq Hk Hb Hbok Hv. unfold view in *. destruct (IsNull p).
  - destruct Hv as (Hp & W & Hat & ->). split; [done|].
    destruct (at_block_push _ h' _ _ _ a b Hq Hat ltac:(lia) Hk Hb Hbok) as (W' & Hat' & Hs).
    eexists; split; [exact Hat'|]. by rewrite flat_app, flat_one, (Forall2_same_flat _ _ Hs).
  - destruct Hv as (Hid & b1 & W & Hat & Hp & ->). split; [done|].
    destruct (at_block_push _ h' _ _ _ a b Hq Hat ltac:(lia) Hk Hb Hbok) as (W' & Hat' & Hs).
    inversion Hs as [|? b' ? W0 Hb' HW]; subst. destruct (same_data _ _ Hb') as (Hsz & Hd & _).
    exists b', (W0 ++ [b]). split_and!; [exact Hat'|lia..|].
    by rewrite flat_app, flat_one, Hd, (Forall2_same_flat _ _ HW), app_assoc.
Qed.

(** ** The invariant of a stream *)

Definition marker_ids (s : MemoryStream) : list Z := (fun m => block_id m.2) <$> markers_ s.

(** The first marker, the only one the disposal of blocks looks at, is the lowest. *)
Definition first_low (s : MemoryStream) : Prop :=
  match markers_ s with
  | [] => True
  | m :: _ => Forall (Z.le (block_id m.2)) (marker_ids s ++ [block_id (read_pointer_ s)])
  end.

Record RepC (h : heap) (s : MemoryStream) (c : bytes) (ms : list bytes) : Prop := mk_RepC {
  r_bs : 0 < block_size_ s < 2 ^ 31;
  r_dq : dq_ok (blocks_ s);
  r_scratch : IsNull (scratch_pointer_ s) = true;
  r_read : view h (blocks_ s) (read_pointer_ s) c;
  r_marks : Forall2 (fun m mk => view h (blocks_ s) m.2 mk) (markers_ s) ms;
  r_low : first_low s;
  r_size : size_ s = zlen c;
  r_msize : invalid_markers_size_ s = false -> Forall2 (fun m mk => m.1 = int32 (zlen mk)) (markers_ s) ms;
}.

(** The write pointer is at the end of the last block. *)
Definition at_write (h : heap) (s : MemoryStream) : Prop :=
  (live (blocks_ s) = [] /\ write_pointer_ s = null_pointer /\ IsNull (read_pointer_ s) = true) \/
  exists a b, begin_id (blocks_ s) < end_id (blocks_ s) /\
    dq_addr (blocks_ s) (end_id (blocks_ s) - 1) = Some a /\ blocks h !! a = Some b /\
    write_pointer_ s = mkPointer (end_id (blocks_ s) - 1) (size b).

Definition Rep (h : heap) (s : MemoryStream) (c : bytes) (ms : list bytes) : Prop :=
  RepC h s c ms /\ at_write h s.

Definition hold (O : addr -> Z) (q : BlockDqueue) : addr -> Z := fun a => O a + occ a (live q).

Definition InvC (O : addr -> Z) (h : heap) (s : MemoryStream) (c : bytes) (ms : list bytes) : Prop :=
  heap_ok h (hold O (blocks_ s)) /\ (forall a, 0 <= O a) /\ RepC h s c ms.

Definition Inv (O : addr -> Z) (h : heap) (s : MemoryStream) (c : bytes) (ms : list bytes) : Prop :=
  InvC O h s c ms /\ at_write h s.

Lemma keeps_mono (O O' : addr -> Z) h h' :
  (forall a, 0 < O' a -> 0 < O a) -> keeps O h h' -> keeps O' h h'.
Proof. intros HO Hk a b Ha. by apply Hk, HO. Qed.

Lemma keeps_live O q h h' : (forall a, 0 <= O a) -> keeps (hold O q) h h' ->
  forall a b, a ∈ live q -> blocks h !! a = Some b -> exists b', blocks h' !! a = Some b' /\ same b b'.
Proof.
  intros HO Hk a b Ha. apply Hk. apply occ_pos in Ha. unfold hold. specialize (HO a). lia.
Qed.

Lemma keeps_others O q h h' : keeps (hold O q) h h' -> keeps O h h'.
Proof. apply keeps_mono. intros a Ha. unfold hold. pose proof (occ_nonneg a (live q)). lia. Qed.

Lemma heap_held O h q : heap_ok h (hold O q) -> (forall a, 0 <= O a) -> held h q.
Proof.
  intros Hh HO a Ha. apply occ_pos in Ha. specialize (HO a).
  destruct (heap_ok_alloc _ _ a Hh) as [b Hb]; [unfold hold; lia|].
  exists b. split; [done|]. by destruct (ho_block _ _ Hh a b Hb).
Qed.

Lemma dq_addr_live q id : dq_ok q -> begin_id q <= id ->
  dq_addr q id = live q !! Z.to_nat (id - begin_id q).
Proof.
  intros [Hc Hb] Hid. unfold dq_addr, live, dropZ, begin_id in *. rewrite lookup_drop.
  destruct (Z.leb_spec (correction_ q) id); [f_equal; lia|lia].
Qed.

Lemma live_nil_ids q : dq_ok q -> live q = [] <-> begin_id q = end_id q.
Proof.
  intros Hq. pose proof (live_len _ Hq) as Hl. split.
  - intros E. rewrite E, zlen_nil in Hl. lia.
  - intros E. destruct (live q); [done|]. rewrite zlen_cons in Hl. pose proof (zlen_nonneg l). lia.
Qed.

Lemma begin_nonneg q : dq_ok q -> 0 <= begin_id q.
Proof. intros [? ?]. unfold begin_id. lia. Qed.

Lemma view_nonnull h q p c : view h q p c -> IsNull p = false ->
  begin_id q <= block_id p /\ valid_at h q p c.
Proof. unfold view. intros H E. by rewrite E in H. Qed.

Lemma view_intro h q p c : dq_ok q -> begin_id q <= block_id p -> valid_at h q p c -> view h q p c.
Proof.
  intros Hq Hb Hv. unfold view. pose proof (begin_nonneg _ Hq).
  replace (IsNull p) with false; [done|]. symmetry. apply Z.eqb_neq. lia.
Qed.

Lemma view_empty h q p c : dq_ok q -> live q = [] -> view h q p c -> IsNull p = true /\ c = [].
Proof.
  intros Hq Hl Hv. apply live_nil_ids in Hl; [|done]. unfold view in Hv. destruct (IsNull p).
  - destruct Hv as (_ & W & Hat & ->). apply at_block_len in Hat.
    destruct W; [done|]. rewrite zlen_cons in Hat. pose proof (zlen_nonneg W). lia.
  - destruct Hv as (Hb & Hv). apply valid_at_id in Hv. lia.
Qed.

(** ** Moving the read pointer *)

Lemma InvC_with_read O h s c ms p c' :
  InvC O h s c ms -> begin_id (blocks_ s) <= block_id p -> valid_at h (blocks_ s) p c' ->
  block_id (read_pointer_ s) <= block_id p -> InvC O h (with_read s p (zlen c')) c' ms.
Proof.
  intros (Hh & HO & HR) Hb Hv Hle. split_and!; [done..|].
  destruct HR as [H1 H2 H3 H4 H5 H6 H7 H8]. constructor; try done.
  - by apply view_intro.
  - unfold first_low in *. simpl. destruct (markers_ s) as [|m ml] eqn:E; [done|].
    unfold marker_ids in *. simpl in *. apply Forall_app in H6 as [Hm Hr].
    apply Forall_app. split; [done|]. inversion Hr; subst. constructor; [lia|done].
Qed.

Lemma Inv_with_read O h s c ms p c' :
  Inv O h s c ms -> begin_id (blocks_ s) <= block_id p -> valid_at h (blocks_ s) p c' ->
  block_id (read_pointer_ s) <= block_id p -> Inv O h (with_read s p (zlen c')) c' ms.
Proof.
  intros [HI Hw] Hb Hv Hle. split; [by eapply InvC_with_read|].
  destruct Hw as [(Hl & _)|Hw]; [|by right]. destruct HI as (_ & _ & HR).
  apply live_nil_ids in Hl; [|apply HR]. apply valid_at_id in Hv. lia.
Qed.

Lemma MaybeInit_spec O h s c ms :
  Inv O h s c ms ->
  match MaybeInitReadPointer s with
  | None => c = [] /\ live (blocks_ s) = []
  | Some s' => Inv O h s' c ms /\ begin_id (blocks_ s') <= block_id (read_pointer_ s') /\
               valid_at h (blocks_ s') (read_pointer_ s') c /\
               s' = with_read s (GetReadPointer s) (size_ s) /\ IsNull (GetReadPointer s) = false
  end.
Proof.
  intros HI. pose proof HI as [(Hh & HO & HR) Hw]. pose proof (r_read _ _ _ _ HR) as Hv.
  pose proof (begin_nonneg _ (r_dq _ _ _ _ HR)) as Hbeg.
  unfold MaybeInitReadPointer, GetReadPointer. destruct (IsNull (read_pointer_ s)) eqn:E; simpl.
  - destruct Hw as [(Hl & -> & _)|(a & b & Hne & _ & _ & Hwp)].
    + simpl. split; [|done]. by eapply view_empty in Hv as [_ ?]; [|apply HR|].
    + assert (IsNull (write_pointer_ s) = false) as ->.
      { rewrite Hwp. apply Z.eqb_neq. simpl. lia. }
      simpl. unfold view in Hv. rewrite E in Hv. destruct Hv as (Hp & W & Hat & ->).
      pose proof (at_block_len _ _ _ _ Hat) as Hlen.
      destruct W as [|b0 W]; [rewrite zlen_nil in Hlen; lia|].
      assert (Hv : valid_at h (blocks_ s) (mkPointer (begin_id (blocks_ s)) (pos (read_pointer_ s)))
                     (flat (b0 :: W))).
      { exists b0, W. rewrite Hp. simpl. destruct (at_block_cons _ _ _ _ _ Hat) as (_ & [? ?] & _).
        split_and!; [done|lia..|]. by rewrite dropZ_0. }
      split_and!; [|simpl; lia|done|done|].
      * rewrite (r_size _ _ _ _ HR). eapply Inv_with_read; [done|simpl; lia|done|].
        apply IsNull_spec in E. simpl. lia.
      * apply Z.eqb_neq. simpl. lia.
  - destruct (view_nonnull _ _ _ _ Hv E). split_and!; [done..| |done]. by destruct s.
Qed.

(** ** Disposing of the blocks behind *)

Lemma popped_trans q1 q2 q3 : dq_ok q1 -> popped q1 q2 -> popped q2 q3 -> popped q1 q3.
Proof.
  intros Hq1 (Hq2 & He2 & Hb2 & Hl2) (Hq3 & He3 & Hb3 & Hl3). split_and!; [done|lia|lia|].
  rewrite Hl3, Hl2, dropZ_dropZ by lia. f_equal. lia.
Qed.

Lemma popped_live_in q q' a : popped q q' -> a ∈ live q' -> a ∈ live q.
Proof. intros (_ & _ & _ & ->). apply elem_of_dropZ. Qed.

Lemma dq_addr_popped q q' id : dq_ok q -> popped q q' -> begin_id q' <= id ->
  dq_addr q' id = dq_addr q id.
Proof.
  intros Hq (Hq' & _ & Hb & Hl) Hid. rewrite !dq_addr_live by (done || lia).
  rewrite Hl. unfold dropZ. rewrite lookup_drop. f_equal. lia.
Qed.

(** The queue after some pops that the pointers of [s] allow. *)
Definition pops_ok (s : MemoryStream) (q : BlockDqueue) : Prop :=
  popped (blocks_ s) q /\
  (begin_id q = begin_id (blocks_ s) \/
   (begin_id q <= block_id (read_pointer_ s) /\
    Forall (Z.le (begin_id q)) (marker_ids s))).

Lemma Rep_popped h s c ms h' q :
  Rep h s c ms -> pops_ok s q ->
  (forall a b, a ∈ live q -> blocks h !! a = Some b -> exists b', blocks h' !! a = Some b' /\ same b b') ->
  Rep h' (with_blocks s q) c ms.
Proof.
  intros [HR Hw] [Hpop Hid] Hkl.
  destruct HR as [H1 H2 H3 H4 H5 H6 H7 H8]. pose proof Hpop as (Hq' & He & Hb & Hl).
  pose proof (begin_nonneg _ H2). pose proof (begin_nonneg _ Hq').
  assert (Hview : forall p d, view h (blocks_ s) p d ->
     (begin_id q = begin_id (blocks_ s) \/ begin_id q <= block_id p) -> view h' q p d).
  { intros p d Hv Hor. apply (view_popped h (blocks_ s)); try done.
    - intros Hn. apply IsNull_spec in Hn. destruct Hor; [done|lia].
    - intros Hn. destruct (view_nonnull _ _ _ _ Hv Hn). destruct Hor; lia. }
  split.
  - constructor; try done; simpl.
    + apply Hview; [done|]. destruct Hid as [?|[? _]]; auto.
    + clear H6 H8. unfold marker_ids in Hid.
      induction H5 as [|m mk ml ms Hm Hms IH]; [done|]. constructor.
      * apply Hview; [done|]. destruct Hid as [?|[_ Hf]]; [by left|right].
        by inversion Hf; subst.
      * apply IH. destruct Hid as [?|[? Hf]]; [by left|right]. inversion Hf; by subst.
  - destruct Hw as [(Hl0 & Hwp & Hr)|(a & b & Hne & Ha & Hb0 & Hwp)]; [left; simpl; split_and!; try done|].
    + rewrite Hl, Hl0. apply dropZ_nil.
    + right. simpl. assert (Hlt : begin_id q < end_id q).
      { destruct Hid as [->|[Hid _]]; [lia|]. rewrite He.
        assert (IsNull (read_pointer_ s) = false) as Hn by (apply Z.eqb_neq; lia).
        destruct (view_nonnull _ _ _ _ H4 Hn) as [_ Hv]. apply valid_at_id in Hv. lia. }
      assert (Ha' : dq_addr q (end_id q - 1) = Some a).
      { rewrite (dq_addr_popped (blocks_ s)) by (done || lia). by rewrite He. }
      destruct (Hkl a b) as (b' & Hb' & Hs); [|done|].
      { rewrite dq_addr_live in Ha' by (done || lia). by eapply list_elem_of_lookup_2. }
      exists a, b'. destruct (same_data _ _ Hs) as (<- & _). by rewrite He in *.
Qed.

Lemma Inv_Rep O h s c ms : Inv O h s c ms <->
  heap_ok h (hold O (blocks_ s)) /\ (forall a, 0 <= O a) /\ Rep h s c ms.
Proof. unfold Inv, InvC, Rep. tauto. Qed.

Lemma Inv_popped O h s c ms h' q :
  Inv O h s c ms -> pops_ok s q -> heap_ok h' (hold O q) ->
  keeps (hold O q) h h' -> Inv O h' (with_blocks s q) c ms.
Proof.
  rewrite !Inv_Rep. intros (Hh & HO & HR) Hpop Hh' Hk. split_and!; [done..|].
  eapply Rep_popped; [done..|]. by eapply keeps_live.
Qed.

(** A stream does not notice the changes to the heap that keep its blocks. *)
Lemma Rep_frame h s c ms h' :
  Rep h s c ms ->
  (forall a b, a ∈ live (blocks_ s) -> blocks h !! a = Some b ->
     exists b', blocks h' !! a = Some b' /\ same b b') ->
  Rep h' s c ms.
Proof.
  intros HR Hk. pose proof HR as [HRC _].
  assert (H : Rep h' (with_blocks s (blocks_ s)) c ms).
  { apply (Rep_popped h); [done| |done]. split; [apply popped_refl, HRC|by left]. }
  by destruct s.
Qed.

Lemma MaybeDispose_spec O h s c ms :
  Inv O h s c ms ->
  exists h' s', MaybeDisposeBlocks h s = Some (h', s') /\ Inv O h' s' c ms /\ keeps O h h' /\
    (exists q, s' = with_blocks s q /\ popped (blocks_ s) q /\
       forall p d, begin_id q <= block_id p -> valid_at h (blocks_ s) p d -> valid_at h' q p d).
Proof.
  intros HI. pose proof HI as [(Hh & HO & HR) Hw]. pose proof (r_dq _ _ _ _ HR) as Hq.
  unfold MaybeDisposeBlocks.
  destruct (loop_total (Dispose_step s)
    (fun x => let '(h1, q1) := x in
       pops_ok s q1 /\ heap_ok h1 (hold O q1) /\ keeps (hold O q1) h h1)
    (fun x => let '(h1, q1) := x in
       pops_ok s q1 /\ heap_ok h1 (hold O q1) /\ keeps (hold O q1) h h1)
    (fun x => let '(h1, q1) := x in Z.to_nat (end_id q1 - begin_id q1)))
    with (fuel := S (length (vec (blocks_ s)))) (s := (h, blocks_ s))
    as ([h1 q1] & Hloop & Hpop & Hh1 & Hk1).
  - intros [h1 q1] (Hpop & Hh1 & Hk1). unfold Dispose_step.
    destruct (_ && _) eqn:E; [|eexists; by split].
    bool_prop. destruct Hpop as [Hpop Hid]. pose proof Hpop as (Hq1 & He & Hb & Hl).
    destruct (live_cons q1) as (a & Hfr & Hlive & Hpop1); [done|lia|]. rewrite Hfr. simpl.
    destruct (DecRef_spec h1 (hold O (pop_front q1)) a) as (h2 & -> & Hh2 & Hk2).
    { eapply heap_ok_ext; [|exact Hh1]. intros x. unfold hold, one. rewrite Hlive. simpl. lia. }
    { intros x. unfold hold. specialize (HO x). pose proof (occ_nonneg x (live (pop_front q1))). lia. }
    simpl. eexists; split; [done|]. split.
    2: { unfold end_id, begin_id in *. simpl. lia. }
    split; [split; [by apply (popped_trans _ q1)|]|split; [done|]].
    + right. change (begin_id (pop_front q1)) with (begin_id_ q1 + 1 + correction_ q1).
      replace (begin_id_ q1 + 1 + correction_ q1) with (begin_id q1 + 1) by (unfold begin_id; lia).
      split; [lia|]. pose proof (r_low _ _ _ _ HR) as Hlow. unfold first_low in Hlow.
      destruct (markers_ s) as [|[z m] ml] eqn:Em; [unfold marker_ids; by rewrite Em; constructor|].
      bool_prop. apply Forall_app in Hlow as [Hlow _]. revert Hlow. apply Forall_impl.
      simpl. intros x Hx. lia.
    + eapply (keeps_trans _ _ h1); [|done]. eapply keeps_mono; [|exact Hk1].
      intros x. unfold hold. rewrite Hlive. simpl. destruct (decide _); lia.
  - split; [split; [by apply popped_refl|by left]|done].
  - destruct Hq. unfold end_id, begin_id, zlen in *. lia.
  - rewrite Hloop. simpl. eexists _, _; split; [done|].
    destruct Hpop as [Hpop Hid]. pose proof Hpop as (Hq1 & _).
    destruct (correct_buffer_popped q1 Hq1) as (Hc & Hcb & Hcl).
    assert (Hpop' : popped (blocks_ s) (correct_buffer q1)) by (by apply (popped_trans _ q1)).
    assert (Hhold : forall x, hold O (correct_buffer q1) x = hold O q1 x).
    { intros x. unfold hold. by rewrite Hcl. }
    assert (Hk' : keeps (hold O (correct_buffer q1)) h h1).
    { eapply keeps_mono; [|exact Hk1]. intros x. by rewrite Hhold. }
    split_and!.
    + apply (Inv_popped O h); [done|split; [done|by rewrite Hcb]| |done].
      eapply heap_ok_ext; [|exact Hh1]. intros x. by rewrite Hhold.
    + by eapply keeps_others.
    + eexists; split_and!; [done|done|]. intros p d Hp (b & W & Hat & Hpos & ->).
      destruct (at_block_popped _ _ h1 _ _ _ Hq Hpop' (keeps_live _ _ _ _ HO Hk') Hat Hp)
        as (W' & Hat' & Hs).
      inversion Hs as [|? b' ? W0 Hb' HW]; subst. destruct (same_data _ _ Hb') as (Hsz & Hd & _).
      exists b', W0. split_and!; [done|lia..|]. by rewrite Hd, (Forall2_same_flat _ _ HW).
Qed.
