(* ===== verification/MemoryStreamOps.v ===== *)
(** * The operations of memory streams

    Each operation of [MemoryStream] as a transformer of [Inv]: it runs to the end, the
    content and the markers of the stream become what the operation promises, and the
    blocks the other streams hold are kept. *)

From S2P Require Import Prelude.
From S2P Require Import DataBlock.
From S2P Require Import DataBlockFacts.
From S2P Require Import MemoryStream.
From S2P Require Import MemoryStreamFacts.

(** ** The reading operations *)

Lemma Inv_size O h s c ms : Inv O h s c ms -> size_ s = zlen c.
Proof. intros [(_ & _ & HR) _]. apply HR. Qed.

Lemma Inv_scratch O h s c ms : Inv O h s c ms -> IsNull (scratch_pointer_ s) = true.
Proof. intros [(_ & _ & HR) _]. apply HR. Qed.

Lemma Inv_dq O h s c ms : Inv O h s c ms -> dq_ok (blocks_ s).
Proof. intros [(_ & _ & HR) _]. apply HR. Qed.

(** The stream after [x] was consumed from the front of its content. *)
Lemma Inv_consume O h s x c ms p :
  Inv O h s (x ++ c) ms -> begin_id (blocks_ s) <= block_id (read_pointer_ s) ->
  valid_at h (blocks_ s) p c -> block_id (read_pointer_ s) <= block_id p ->
  Inv O h (with_read s p (size_ s - zlen x)) c ms.
Proof.
  intros HI Hb Hv Hid. rewrite (Inv_size _ _ _ _ _ HI), zlen_app.
  replace (zlen x + zlen c - zlen x) with (zlen c) by lia.
  eapply Inv_with_read; [done|lia|done..].
Qed.

Lemma ReadInternal_spec O h s c ms len dispose :
  Inv O h s c ms -> 0 <= len < 2 ^ 31 ->
  exists h' s', ReadInternal h s len dispose = Some (h', s', takeZ len c) /\
    Inv O h' s' (dropZ len c) ms /\ keeps O h h'.
Proof.
  intros HI H31. unfold ReadInternal. rewrite (int32_small len) by lia.
  destruct (Z.eqb_spec len 0) as [->|Hlen].
  { exists h, s. by rewrite takeZ_0, dropZ_0. }
  pose proof (MaybeInit_spec _ _ _ _ _ HI) as Hi.
  destruct (MaybeInitReadPointer s) as [s1|].
  2: { destruct Hi as [-> _]. exists h, s. by rewrite takeZ_nil, dropZ_nil. }
  destruct Hi as (HI1 & Hb & Hv & _).
  destruct (ReadData_spec _ _ _ _ len Hv) as ([p out] & -> & Hout & Hv' & Hid). simpl in *. subst out.
  assert (HI2 : Inv O h (with_read s1 p (size_ s1 - zlen (takeZ len c))) (dropZ len c) ms).
  { eapply Inv_consume; [by rewrite takeZ_dropZ|done..]. }
  destruct dispose; [|eexists _, _; split_and!; [done|done|apply keeps_refl]].
  destruct (MaybeDispose_spec _ _ _ _ _ HI2) as (h' & s' & -> & HI' & Hk & _). simpl.
  eexists _, _; by split_and!.
Qed.

Lemma Skip_spec O h s c ms len :
  Inv O h s c ms -> 0 <= len < 2 ^ 31 ->
  exists h' s', Skip h s len = Some (h', s', zlen (takeZ len c)) /\
    Inv O h' s' (dropZ len c) ms /\ keeps O h h'.
Proof.
  intros HI Hlen. unfold Skip. rewrite (int32_small len) by lia. pose proof (MaybeInit_spec _ _ _ _ _ HI) as Hi.
  destruct (MaybeInitReadPointer s) as [s1|].
  2: { destruct Hi as [-> _]. exists h, s. by rewrite takeZ_nil, dropZ_nil. }
  destruct Hi as (HI1 & Hb & Hv & _).
  destruct (Advance_spec _ _ _ _ len Hv ltac:(lia)) as ([p out] & -> & Hout & Hv' & Hid). simpl in *. subst out.
  assert (HI2 : Inv O h (with_read s1 p (size_ s1 - zlen (takeZ len c))) (dropZ len c) ms).
  { eapply Inv_consume; [by rewrite takeZ_dropZ|done..]. }
  destruct (MaybeDispose_spec _ _ _ _ _ HI2) as (h' & s' & -> & HI' & Hk & _). simpl.
  eexists _, _; by split_and!.
Qed.

(** What the operations that read by blocks start with. *)
Lemma dispose_view O h s c ms :
  Inv O h s c ms -> begin_id (blocks_ s) <= block_id (read_pointer_ s) ->
  exists h' s', MaybeDisposeBlocks h s = Some (h', s') /\ Inv O h' s' c ms /\ keeps O h h' /\
    begin_id (blocks_ s') <= block_id (read_pointer_ s') /\
    valid_at h' (blocks_ s') (read_pointer_ s') c.
Proof.
  intros HI Hb. destruct (MaybeDispose_spec _ _ _ _ _ HI) as (h' & s' & -> & HI' & Hk & q & -> & _).
  eexists _, _; split; [done|]. split; [done|]. split; [done|]. simpl.
  pose proof HI' as [(_ & _ & HR) _].
  apply (view_nonnull h' q (read_pointer_ s) c); [exact (r_read _ _ _ _ HR)|].
  pose proof (begin_nonneg _ (Inv_dq _ _ _ _ _ HI)). apply Z.eqb_neq. lia.
Qed.

Lemma ReadNext_spec O h s c ms :
  Inv O h s c ms ->
  exists h' s' r, ReadNext h s = Some (h', s', r) /\ keeps O h h' /\
    match r with
    | None => c = [] /\ Inv O h' s' c ms
    | Some chunk => chunk <> [] /\ exists c', c = chunk ++ c' /\ Inv O h' s' c' ms
    end.
Proof.
  intros HI. unfold ReadNext. rewrite (Inv_scratch _ _ _ _ _ HI). simpl.
  pose proof (MaybeInit_spec _ _ _ _ _ HI) as Hi.
  destruct (MaybeInitReadPointer s) as [s1|].
  2: { destruct Hi as [-> _]. by exists h, s, None. }
  destruct Hi as (HI1 & Hb & _).
  destruct (dispose_view _ _ _ _ _ HI1 Hb) as (h' & s' & -> & HI' & Hk & Hb' & Hv'). simpl.
  destruct (ReadBlock_spec _ _ _ _ Hv') as ([[p chunk]|] & -> & H); simpl.
  - destruct H as (Hne & (c' & -> & Hv2) & Hid & _). eexists _, _, _; split_and!; [done|done|]. split; [done|].
    exists c'. split; [done|]. by eapply Inv_consume.
  - subst c. by exists h', s', None.
Qed.

Lemma Writev_loop_spec O h s n c ms :
  Inv O h s c ms -> begin_id (blocks_ s) <= block_id (read_pointer_ s) ->
  valid_at h (blocks_ s) (read_pointer_ s) c ->
  exists r, loop (Writev_step h) (walk_fuel (blocks_ s)) (s, n, []) = Some r /\
    exists c', c = concat r.2 ++ c' /\ Forall (fun x => x <> []) r.2 /\ Inv O h r.1 c' ms /\
      (c' = [] \/ n <= zlen (concat r.2)).
Proof.
  intros HI Hb Hv.
  apply (loop_total (Writev_step h)
    (fun '(s', n', v) => exists c', c = concat v ++ c' /\ Forall (fun x => x <> []) v /\
       Inv O h s' c' ms /\ begin_id (blocks_ s') <= block_id (read_pointer_ s') /\
       valid_at h (blocks_ s') (read_pointer_ s') c' /\ n - zlen (concat v) <= n') _
    (fun '(s', _, _) => walk_measure h (blocks_ s') (read_pointer_ s') 0)).
  - intros [[s' n'] v] (c' & -> & Hne & HI' & Hb' & Hv' & Hn). unfold Writev_step.
    destruct (Z.ltb_spec 0 n').
    2: { eexists; split; [done|]. exists c'. simpl. split_and!; [done..|right; lia]. }
    destruct (ReadBlock_spec _ _ _ _ Hv') as ([[p chunk]|] & -> & H1); simpl.
    2: { eexists; split; [done|]. exists c'. simpl. split_and!; [done..|by left]. }
    destruct H1 as (Hc & (c2 & -> & Hv2) & Hid & Hm).
    destruct (Z.ltb_spec 0 (zlen chunk)).
    2: { destruct chunk; [done|]. rewrite zlen_cons in *. pose proof (zlen_nonneg chunk). lia. }
    eexists; split; [done|]. split; [|done]. exists c2.
    rewrite concat_app, zlen_app. simpl. rewrite app_nil_r. split_and!.
    + by rewrite <- app_assoc.
    + apply Forall_app. by split; [|constructor].
    + by eapply Inv_consume.
    + lia.
    + done.
    + destruct (Z.ltb_spec n' (zlen chunk)); lia.
  - exists c. simpl. split_and!; [done|constructor|done..|unfold zlen; simpl; lia].
  - by eapply walk_measure_bound.
Qed.

Lemma ReadForWritev_spec O h s c ms n :
  Inv O h s c ms ->
  exists h' s' v c', ReadForWritev h s n = Some (h', s', v) /\ keeps O h h' /\
    c = concat v ++ c' /\ Forall (fun x => x <> []) v /\ Inv O h' s' c' ms /\
    (c' = [] \/ n <= zlen (concat v)).
Proof.
  intros HI. unfold ReadForWritev. rewrite (Inv_scratch _ _ _ _ _ HI). simpl.
  pose proof (MaybeInit_spec _ _ _ _ _ HI) as Hi.
  destruct (MaybeInitReadPointer s) as [s1|].
  2: { destruct Hi as [-> _]. exists h, s, [], []. split_and!; [done..|constructor|done|by left]. }
  destruct Hi as (HI1 & Hb & _).
  destruct (dispose_view _ _ _ _ _ HI1 Hb) as (h' & s' & -> & HI' & Hk & Hb' & Hv'). simpl.
  destruct (Writev_loop_spec _ _ _ n _ _ HI' Hb' Hv') as ([s2 v] & -> & c' & ? & ? & ? & ?). simpl.
  eexists _, _, _, c'. by split_and!.
Qed.

(** The line readers; a line that is not there leaves the content. *)
Lemma ReadLine_init O h s c ms :
  Inv O h s c ms ->
  match MaybeInitReadPointer s with
  | None => c = []
  | Some s' => forall fin, exists p r,
      ReadToChars h (blocks_ s') (read_pointer_ s') Byte.x0a fin = Some (p, r) /\
      r = find_chars Byte.x0a fin Byte.x00 c /\
      Inv O h (with_read s' p (size_ s' - zlen (default [] r))) (dropZ (zlen (default [] r)) c) ms
  end.
Proof.
  intros HI. pose proof (MaybeInit_spec _ _ _ _ _ HI) as Hi.
  destruct (MaybeInitReadPointer s) as [s1|]; [|apply Hi].
  destruct Hi as (HI1 & Hb & Hv & _). intros fin.
  destruct (ReadToChars_spec _ _ _ _ Byte.x0a fin Hv) as ([p r] & -> & Hr & Hp). simpl in *.
  exists p, r. split_and!; [done..|]. destruct r as [line|]; simpl.
  - destruct Hp as [Hv' Hid]. symmetry in Hr. destruct (find_chars_prefix _ _ _ _ _ Hr) as (c' & ->).
    rewrite dropZ_app_r, Z.sub_diag, dropZ_0 in * by lia. by eapply Inv_consume.
  - subst p. rewrite zlen_nil, dropZ_0, Z.sub_0_r. by destruct s1.
Qed.

Lemma ReadCRLFLine_spec O h s c ms :
  Inv O h s c ms ->
  exists s', let r := find_chars Byte.x0a Byte.x0d Byte.x00 c in
    ReadCRLFLine h s = Some (s', r) /\ Inv O h s' (dropZ (zlen (default [] r)) c) ms.
Proof.
  intros HI. pose proof (ReadLine_init _ _ _ _ _ HI) as Hi. unfold ReadCRLFLine.
  destruct (MaybeInitReadPointer s) as [s1|]; [|subst c; by exists s].
  destruct (Hi Byte.x0d) as (p & r & Hr & -> & HI'). unfold Pointer_ReadCRLFLine. rewrite Hr. simpl.
  destruct (find_chars _ _ _ _) as [line|]; eexists; (split; [done|]); [done|].
  simpl in HI'. by rewrite zlen_nil, Z.sub_0_r in HI'.
Qed.

Lemma ReadLFLine_spec O h s c ms :
  Inv O h s c ms ->
  exists s', let r := find_chars Byte.x0a Byte.x00 Byte.x00 c in
    ReadLFLine h s = Some (s', r) /\ Inv O h s' (dropZ (zlen (default [] r)) c) ms.
Proof.
  intros HI. pose proof (ReadLine_init _ _ _ _ _ HI) as Hi. unfold ReadLFLine.
  destruct (MaybeInitReadPointer s) as [s1|]; [|subst c; by exists s].
  destruct (Hi Byte.x00) as (p & r & Hr & -> & HI'). unfold Pointer_ReadLFLine. rewrite Hr. simpl.
  destruct (find_chars _ _ _ _) as [line|]; eexists; (split; [done|]); [done|].
  simpl in HI'. by rewrite zlen_nil, Z.sub_0_r in HI'.
Qed.

Lemma Peek_spec O h s c ms len : Inv O h s c ms -> 0 <= len < 2 ^ 31 ->
  Peek h s len = Some (takeZ len c).
Proof.
  intros HI Hlen. pose proof (MaybeInit_spec _ _ _ _ _ HI) as Hi. unfold Peek.
  rewrite (int32_small len) by lia.
  destruct (MaybeInitReadPointer s) as [s1|] eqn:E.
  - destruct Hi as (_ & _ & Hv & -> & Hn). rewrite Hn. simpl in Hv.
    destruct (ReadData_spec _ _ _ _ len Hv) as ([p out] & -> & Hout & _). simpl in *. by subst.
  - destruct Hi as [-> _]. unfold MaybeInitReadPointer, GetReadPointer in *.
    destruct (IsNull (read_pointer_ s)) eqn:E1; [|done].
    destruct (IsNull (write_pointer_ s)) eqn:E2; [|done]. simpl. rewrite E1.
    by rewrite takeZ_nil.
Qed.

(** ** Growing a stream at its end *)

(** The stream after its queue grew to [q] by the bytes [x]. *)
Definition grown (s : MemoryStream) (q : BlockDqueue) (wp : DataBlockPointer) (n : Z) : MemoryStream :=
  mkMemoryStream (block_size_ s) q (read_pointer_ s) wp (scratch_pointer_ s) (markers_ s) true
    (size_ s + n).

Definition grows (h : heap) (q : BlockDqueue) (h' : heap) (q' : BlockDqueue) (x : bytes) : Prop :=
  forall p d, view h q p d -> view h' q' p (d ++ x).

Lemma grows_trans h1 q1 h2 q2 h3 q3 x y :
  grows h1 q1 h2 q2 x -> grows h2 q2 h3 q3 y -> grows h1 q1 h3 q3 (x ++ y).
Proof. intros H1 H2 p d Hv. rewrite app_assoc. by apply H2, H1. Qed.

Lemma grows_refl h q : grows h q h q [].
Proof. intros p d. by rewrite app_nil_r. Qed.

Lemma InvC_grow O h s c ms h' q wp x :
  InvC O h s c ms -> dq_ok q -> heap_ok h' (hold O q) -> grows h (blocks_ s) h' q x ->
  InvC O h' (grown s q wp (zlen x)) (c ++ x) ((fun m => m ++ x) <$> ms).
Proof.
  intros (Hh & HO & HR) Hq Hh' Hg. split_and!; [done..|].
  destruct HR as [H1 H2 H3 H4 H5 H6 H7 H8]. constructor; try done; simpl.
  - by apply Hg.
  - apply Forall2_fmap_r. revert H5. apply Forall2_impl. intros m mk. simpl. apply Hg.
  - by rewrite H7, zlen_app.
Qed.

Lemma fill_step O h q a b buf :
  heap_ok h (hold O q) -> (forall a, 0 <= O a) -> dq_ok q -> begin_id q < end_id q ->
  dq_addr q (end_id q - 1) = Some a -> blocks h !! a = Some b ->
  let n := Z.min (buffer_size b - size b) (zlen buf) in
  let h' := if 0 <? n then set_block h a (fill b (takeZ n buf)) else h in
  heap_ok h' (hold O q) /\ keeps O h h' /\ grows h q h' q (takeZ n buf) /\
  exists b', blocks h' !! a = Some b' /\ size b' = size b + n /\ block_ok b' /\
             buffer_size b' = buffer_size b.
Proof.
  intros Hh HO Hq Hne Ha Hb n h'. pose proof (zlen_nonneg buf).
  destruct (ho_block _ _ Hh a b Hb) as (Hok & Hr & Hp & Hm). pose proof Hok as [Hs Hpos].
  unfold h'. destruct (Z.ltb_spec 0 n) as [Hn|Hn].
  2: { assert (n = 0) as -> by lia. rewrite takeZ_0.
       split_and!; [done|apply keeps_refl|apply grows_refl|]. exists b. by rewrite Z.add_0_r. }
  destruct Hm as [Hmut HT]; [lia|].
  assert (Hzt : zlen (takeZ n buf) = n) by (rewrite zlen_takeZ; lia).
  destruct (fill_ok b (takeZ n buf)) as (Hok' & _ & Hbs); [done|lia|].
  destruct (last_block _ _ _ Hq Ha eq_refl ltac:(lia)) as [l Hl].
  assert (Hocc : occ a (live q) = 1 /\ O a = 0).
  { unfold hold in HT. specialize (HO a). assert (0 < occ a (live q)).
    { apply occ_pos. rewrite Hl. apply elem_of_app. right. by left. }
    lia. }
  split_and!.
  - by eapply heap_ok_set.
  - apply keeps_set. intros. lia.
  - intros p d Hv. apply view_fill; try done; lia.
  - simpl. rewrite lookup_insert_eq. eexists; split_and!; [done| |done..].
    simpl. lia.
Qed.

Lemma end_push q a : end_id (push_back q a) = end_id q + 1.
Proof. unfold end_id. simpl. rewrite zlen_snoc. lia. Qed.

Lemma push_back_ok q a : dq_ok q -> dq_ok (push_back q a) /\ live (push_back q a) = live q ++ [a] /\
  dq_addr (push_back q a) (end_id q) = Some a /\ begin_id (push_back q a) = begin_id q.
Proof.
  intros [Hc Hb]. split_and!.
  - split; [done|]. simpl. rewrite zlen_snoc. lia.
  - unfold live. simpl. by rewrite dropZ_app_l by lia.
  - unfold dq_addr, end_id. simpl. pose proof (zlen_nonneg (vec q)).
    destruct (Z.leb_spec (correction_ q) (zlen (vec q) + correction_ q)); [|lia].
    apply list_lookup_middle. unfold zlen. lia.
  - done.
Qed.

Lemma hold_push O q a x : dq_ok q -> hold O (push_back q a) x = hold O q x + one a x.
Proof.
  intros Hq. unfold hold, one. destruct (push_back_ok q a Hq) as (_ & -> & _).
  rewrite occ_app. simpl. lia.
Qed.

Lemma push_new_block_spec O h q n :
  heap_ok h (hold O q) -> (forall a, 0 <= O a) -> dq_ok q -> 0 < n < 2 ^ 31 ->
  exists h' b, push_new_block h q n = Some (h', push_back q (next h)) /\
    heap_ok h' (hold O (push_back q (next h))) /\ keeps (hold O q) h h' /\
    grows h q h' (push_back q (next h)) [] /\
    blocks h' !! next h = Some b /\ block_ok b /\ size b = 0 /\ buffer_size b = n /\
    is_mutable b = true.
Proof.
  intros Hh HO Hq Hn. unfold push_new_block, DataBlock_new.
  destruct (Z.ltb_spec 0 n); [|lia]. simpl.
  set (b := mkDataBlock true (replicate (Z.to_nat n) (fresh h (next h))) 0 None 0).
  assert (Hbs : buffer_size b = n).
  { unfold buffer_size, zlen. simpl. rewrite length_replicate. lia. }
  assert (Hok : block_ok b) by (split; [simpl; rewrite Hbs|]; simpl; lia).
  destruct (alloc_spec h (hold O q) b (alloc h b).2 Hh Hok) as (h' & Hi & Hh' & Hk & Hb); [done|done|done|].
  fold b. simpl in Hi |- *. rewrite Hi. simpl. exists h', (set_ref b 1).
  assert (Hok1 : block_ok (set_ref b 1)) by done. split_and!; try done.
  - eapply heap_ok_ext; [|exact Hh']. intros x. by rewrite hold_push.
  - intros p d Hv. change (@nil byte) with (data (set_ref b 1)).
    eapply view_push; try done. by eapply keeps_live.
Qed.

Lemma live_push_ne q a : dq_ok q -> begin_id (push_back q a) < end_id (push_back q a).
Proof.
  intros Hq. rewrite end_push. change (begin_id (push_back q a)) with (begin_id q).
  destruct Hq. unfold begin_id, end_id in *. lia.
Qed.

(** ** Write *)

(** The second case of [at_write]: there is a last block, and the pointer is at its end. *)
Definition at_last (h : heap) (q : BlockDqueue) (wp : DataBlockPointer) : Prop :=
  begin_id q < end_id q /\
  exists a b, dq_addr q (end_id q - 1) = Some a /\ blocks h !! a = Some b /\
    wp = mkPointer (end_id q - 1) (size b).

Lemma at_last_write h s : at_last h (blocks_ s) (write_pointer_ s) -> at_write h s.
Proof. intros (? & a & b & ? & ? & ?). right. exists a, b. by split_and!. Qed.

Lemma at_last_push h q a b : dq_ok q -> blocks h !! a = Some b ->
  at_last h (push_back q a) (mkPointer (end_id q) (size b)).
Proof.
  intros Hq Hb. split; [by apply live_push_ne|]. exists a, b.
  destruct (push_back_ok q a Hq) as (_ & _ & Ha & _).
  rewrite end_push, Z.add_simpl_r. by split_and!.
Qed.

Lemma map_app_nil (ms : list bytes) : (fun m => m ++ []) <$> ms = ms.
Proof. induction ms as [|m ms IH]; [done|]. csimpl. by rewrite app_nil_r, IH. Qed.

Lemma map_app_app (ms : list bytes) x y :
  (fun m => m ++ y) <$> ((fun m => m ++ x) <$> ms) = (fun m => m ++ (x ++ y)) <$> ms.
Proof. rewrite <- list_fmap_compose. apply list_fmap_ext. intros. simpl. by rewrite app_assoc. Qed.

Lemma zlen_pos_cons {A} (l : list A) : l <> [] -> 0 < zlen l.
Proof. destruct l; [done|]. intros _. rewrite zlen_cons. pose proof (zlen_nonneg l). lia. Qed.

(** What fits in the last block. *)
Lemma WriteData_last O h q wp buf :
  heap_ok h (hold O q) -> (forall a, 0 <= O a) -> dq_ok q -> at_last h q wp ->
  exists h' wp' n, WriteData h q wp buf = Some (h', wp', n) /\
    heap_ok h' (hold O q) /\ keeps O h h' /\ grows h q h' q (takeZ n buf) /\
    at_last h' q wp' /\ 0 <= n <= zlen buf /\
    (n < zlen buf -> exists a b, dq_addr q (end_id q - 1) = Some a /\ blocks h' !! a = Some b /\
       size b = buffer_size b /\ wp' = mkPointer (end_id q - 1) (size b)).
Proof.
  intros Hh HO Hq (Hne & a & b & Ha & Hb & ->). pose proof (zlen_nonneg buf).
  destruct (ho_block _ _ Hh a b Hb) as (Hok & _ & _ & Hm). pose proof Hok as [? ?].
  assert (Hmut : size b < buffer_size b -> is_mutable b = true) by (intros Hlt; by apply Hm).
  rewrite (WriteData_spec h q _ a b buf) by done.
  destruct (fill_step O h q a b buf Hh HO Hq Hne Ha Hb)
    as (Hh1 & Hk1 & Hg1 & b1 & Hb1 & Hs1 & Hok1 & Hbs1).
  eexists _, _, _; split; [done|]. split_and!; [done..| |lia|lia|].
  - split; [done|]. exists a, b1. by rewrite Hs1.
  - intros Hlt. exists a, b1. rewrite Hs1. split_and!; [done..|lia|done].
Qed.

(** The rest, in a new block. *)
Lemma WriteData_push O h q a b m buf :
  heap_ok h (hold O q) -> (forall a, 0 <= O a) -> dq_ok q -> begin_id q < end_id q ->
  dq_addr q (end_id q - 1) = Some a -> blocks h !! a = Some b -> size b = buffer_size b ->
  0 < zlen buf <= m -> m < 2 ^ 31 ->
  exists h2 q2 h3 wp, push_new_block h q m = Some (h2, q2) /\
    WriteData h2 q2 (mkPointer (end_id q - 1) (size b)) buf = Some (h3, wp, zlen buf) /\
    heap_ok h3 (hold O q2) /\ keeps O h h3 /\ dq_ok q2 /\ grows h q h3 q2 buf /\ at_last h3 q2 wp.
Proof.
  intros Hh HO Hq Hne Ha Hb Hfull Hm Hm31.
  destruct (push_new_block_spec O h q m Hh HO Hq ltac:(lia))
    as (h2 & b2 & Hpush & Hh2 & Hk2 & Hg2 & Hb2 & Hok2 & Hz2 & Hbs2 & Hm2).
  set (a2 := next h) in *. set (q2 := push_back q a2) in *.
  destruct (push_back_ok q a2 Hq) as (Hq2 & Hl2 & Ha2 & Hbeg2). fold q2 in Hq2, Hl2, Ha2, Hbeg2.
  assert (He2 : end_id q2 = end_id q + 1) by apply end_push.
  assert (Ha2' : dq_addr q2 (end_id q2 - 1) = Some a2) by (by rewrite He2, Z.add_simpl_r).
  destruct (fill_step O h2 q2 a2 b2 buf Hh2 HO Hq2 (live_push_ne q a2 Hq) Ha2' Hb2)
    as (Hh3 & Hk3 & Hg3 & b3 & Hb3 & Hs3 & _).
  assert (Hd : exists b', dq_block h2 q2 (end_id q - 1) = Some b' /\ same b b').
  { destruct (keeps_live _ _ _ _ HO Hk2 a b) as (b' & Hb' & Hs); [|done|].
    - rewrite dq_addr_live in Ha by (done || lia). by eapply list_elem_of_lookup_2.
    - exists b'. split; [|done]. unfold dq_block.
      rewrite (dq_addr_live q2); [|done|rewrite Hbeg2; lia]. rewrite Hbeg2, Hl2.
      rewrite lookup_app_l by (pose proof (live_len q Hq); unfold zlen in *; lia).
      rewrite <- dq_addr_live by (done || lia). by rewrite Ha. }
  destruct Hd as (b' & Hd & Hsame). destruct (same_data _ _ Hsame) as (Hsz & _ & Hbsz).
  destruct (ho_block _ _ Hh a b Hb) as (Hok & _).
  assert (Hw := WriteData_next h2 q2 (end_id q - 1) b' a2 b2 buf ltac:(lia) Hd (same_ok _ _ Hsame Hok)
                  ltac:(lia) ltac:(by rewrite Z.sub_add) Hb2 Hok2 Hz2 Hm2 ltac:(lia)).
  rewrite Hz2, Z.sub_0_r in Hh3, Hk3, Hg3, Hb3, Hs3. cbv zeta in Hw. rewrite <- Hsz in Hw.
  rewrite Z.sub_add, Hbs2, Z.min_r in Hw by lia. rewrite Hbs2, Z.min_r in * by lia.
  eexists _, _, _, _. split_and!; [exact Hpush|exact Hw|done| |done| |].
  - eapply keeps_trans; [by eapply keeps_others|done].
  - pose proof (grows_trans _ _ _ _ _ _ [] _ Hg2 Hg3) as Hg. simpl in Hg.
    revert Hg. generalize (if 0 <? zlen buf then set_block h2 a2 (fill b2 (takeZ (zlen buf) buf)) else h2).
    intros h3 Hg. by rewrite (takeZ_all (zlen buf)) in Hg by lia.
  - split; [by apply live_push_ne|]. exists a2, b3. rewrite Hs3, He2, Z.add_simpl_r, Z.add_0_l.
    split_and!; [done..|]. done.
Qed.

Lemma Write_step_eq h s p : 0 < zlen p < 2 ^ 31 -> 0 < block_size_ s < 2 ^ 31 ->
  Write_step (h, s, p) =
    ('(h, wp, delta) ← WriteData h (blocks_ s) (write_pointer_ s) p;
     let p := dropZ delta p in
     let s := with_write s wp (size_ s + delta) in
     if 0 <? zlen p then
       '(h, q) ← push_new_block h (blocks_ s) (Z.max (zlen p) (block_size_ s));
       Some (inl (h, with_blocks s q, p))
     else Some (inl (h, s, p))).
Proof.
  intros H Hbs. unfold Write_step. destruct (Z.ltb_spec 0 (zlen p)); [|lia].
  rewrite int32_small, takeZ_all by lia.
  destruct (WriteData _ _ _ _) as [[[h1 wp] delta]|]; [|done]. cbn [mbind option_bind]. cbv zeta.
  destruct (Z.ltb_spec 0 (zlen (dropZ delta p))); [|done].
  assert (zlen (dropZ delta p) <= zlen p).
  { destruct (Z.le_gt_cases 0 delta); [rewrite zlen_dropZ by lia|rewrite dropZ_neg by lia]; lia. }
  rewrite int32_small; [done|]. cbn [with_write block_size_]. lia.
Qed.

(** The blocks written by the loop of [Write]. *)
Lemma Write_loop O h s buf :
  heap_ok h (hold O (blocks_ s)) -> (forall a, 0 <= O a) -> dq_ok (blocks_ s) ->
  at_last h (blocks_ s) (write_pointer_ s) -> invalid_markers_size_ s = true ->
  zlen buf < 2 ^ 31 -> 0 < block_size_ s < 2 ^ 31 ->
  exists h' q' wp, loop Write_step 4 (h, s, buf) = Some (h', grown s q' wp (zlen buf)) /\
    heap_ok h' (hold O q') /\ keeps O h h' /\ dq_ok q' /\ grows h (blocks_ s) h' q' buf /\
    at_last h' q' wp.
Proof.
  intros Hh HO Hq Hl Hinv H31 Hbs.
  assert (Hnil : forall k h s, loop Write_step (S k) (h, s, []) = Some (h, s)) by done.
  destruct (decide (buf = [])) as [->|Hne].
  { rewrite Hnil. exists h, (blocks_ s), (write_pointer_ s).
    split_and!; [|done|apply keeps_refl|done|apply grows_refl|apply Hl..].
    unfold grown. rewrite Z.add_0_r, <- Hinv. by destruct s. }
  apply zlen_pos_cons in Hne. rewrite loop_S, Write_step_eq by (done || lia).
  destruct (WriteData_last O h _ _ buf Hh HO Hq Hl)
    as (h1 & wp1 & n & -> & Hh1 & Hk1 & Hg1 & Hl1 & Hn & Hfull).
  cbn [mbind option_bind]. cbv zeta.
  destruct (Z.ltb_spec 0 (zlen (dropZ n buf))) as [Hr|Hr]; rewrite zlen_dropZ in Hr by lia.
  2: { rewrite (dropZ_all n) by lia. cbn [mbind option_bind]. rewrite Hnil.
       exists h1, (blocks_ s), wp1. assert (n = zlen buf) as -> by lia.
       rewrite takeZ_all in Hg1 by lia. split_and!; try done; try apply Hl1.
       unfold grown, with_write. by rewrite Hinv. }
  destruct Hfull as (a & b & Ha & Hb & Hfull & ->); [lia|]. destruct Hl1 as [Hne1 _].
  destruct (WriteData_push O h1 (blocks_ s) a b (Z.max (zlen (dropZ n buf)) (block_size_ s))
              (dropZ n buf) Hh1 HO Hq Hne1 Ha Hb Hfull) as
    (h2 & q2 & h3 & wp & Hpush & Hw & Hh3 & Hk3 & Hq2 & Hg3 & Hl3); [rewrite zlen_dropZ; lia..|].
  cbn [with_write blocks_ block_size_]. rewrite Hpush. cbn [mbind option_bind].
  rewrite loop_S, Write_step_eq by (done || rewrite zlen_dropZ; lia).
  cbn [with_blocks with_write blocks_ write_pointer_]. rewrite Hw. cbn [mbind option_bind]. cbv zeta.
  rewrite (dropZ_all (zlen _)) by lia. change (0 <? zlen []) with false. cbn [mbind option_bind]. rewrite Hnil.
  exists h3, q2, wp. split_and!; try done; try apply Hl3.
  - unfold grown, with_write, with_blocks. simpl. rewrite Hinv, zlen_dropZ by lia. do 3 f_equal. lia.
  - by eapply keeps_trans.
  - rewrite <- (takeZ_dropZ n buf). by eapply grows_trans.
Qed.

Lemma Inv_with_invalid O h s c ms : Inv O h s c ms -> Inv O h (with_invalid s true) c ms.
Proof.
  intros [(Hh & HO & HR) Hw]. split; [split_and!; [done..|]|done].
  destruct HR as [H1 H2 H3 H4 H5 H6 H7 H8]. by constructor.
Qed.

(** The first block of an empty stream, as [Write] and [GetScratchSpace] add it. *)
Lemma Inv_last O h s c ms : Inv O h s c ms -> IsNull (write_pointer_ s) = false ->
  at_last h (blocks_ s) (write_pointer_ s).
Proof.
  intros [_ [(_ & Hwp & _)|(a & b & ? & ? & ? & ?)]] Hn; [by rewrite Hwp in Hn|].
  split; [done|]. by exists a, b.
Qed.

Lemma Inv_null O h s c ms : Inv O h s c ms -> IsNull (write_pointer_ s) = true ->
  live (blocks_ s) = [].
Proof.
  intros HI Hn. pose proof (begin_nonneg _ (Inv_dq _ _ _ _ _ HI)).
  destruct HI as [_ [(? & _)|(a & b & ? & ? & ? & Hwp)]]; [done|].
  rewrite Hwp in Hn. apply IsNull_spec in Hn. simpl in Hn. lia.
Qed.

Lemma Write_spec O h s c ms buf :
  Inv O h s c ms -> zlen buf < 2 ^ 31 ->
  exists h' s', Write h s buf = Some (h', s') /\
    Inv O h' s' (c ++ buf) ((fun m => m ++ buf) <$> ms) /\ keeps O h h'.
Proof.
  intros HI H31. apply Inv_with_invalid in HI. unfold Write.
  assert (Hinv : invalid_markers_size_ (with_invalid s true) = true) by done.
  set (s0 := with_invalid s true) in *. clearbody s0. cbv zeta.
  pose proof HI as [(Hh & HO & HR) _]. pose proof (r_dq _ _ _ _ HR) as Hq.
  pose proof (r_bs _ _ _ _ HR) as Hbs. rewrite (int32_small (Z.max _ _)) by lia.
  destruct (IsNull (write_pointer_ s0)) eqn:E.
  - pose proof (Inv_null _ _ _ _ _ HI E) as Hl0. apply live_nil_ids in Hl0; [|done].
    destruct (push_new_block_spec O h (blocks_ s0) (Z.max (zlen buf) (block_size_ s0)) Hh HO Hq ltac:(lia))
      as (h1 & b & Hpush & Hh1 & Hk1 & Hg1 & Hb & Hok & Hz & _). rewrite Hpush.
    cbn [mbind option_bind]. set (q := push_back _ _) in *.
    destruct (push_back_ok (blocks_ s0) (next h) Hq) as (Hq1 & Hl1 & Ha1 & Hbeg1).
    fold q in Hq1, Hl1, Ha1, Hbeg1.
    set (wp := mkPointer _ _). assert (Hlast : at_last h1 q wp).
    { unfold wp. rewrite Hl0, <- Hz. by apply at_last_push. }
    destruct (Write_loop O h1 (with_write (with_blocks s0 q) wp (size_ s0)) buf)
      as (h' & q' & wp' & -> & Hh' & Hk' & Hq' & Hg' & Hl'); [done..|].
    eexists _, _; split; [done|]. split.
    + split; [|by apply at_last_write]. apply (InvC_grow O h s0 c ms); [apply HI|done|done|].
      by apply (grows_trans _ _ _ _ _ _ [] _ Hg1).
    + eapply keeps_trans; [by eapply keeps_others|done].
  - cbn [mbind option_bind].
    destruct (Write_loop O h s0 buf Hh HO Hq (Inv_last _ _ _ _ _ HI E) Hinv H31 Hbs)
      as (h' & q' & wp' & -> & Hh' & Hk' & Hq' & Hg' & Hl').
    eexists _, _; split; [done|]. split; [|done].
    split; [|by apply at_last_write]. apply (InvC_grow O h s0 c ms); [apply HI|done..].
Qed.

(** ** Appends *)

Lemma Inv_grow O h s c ms h' q wp x :
  InvC O h s c ms -> dq_ok q -> heap_ok h' (hold O q) -> grows h (blocks_ s) h' q x ->
  at_last h' q wp -> Inv O h' (grown s q wp (zlen x)) (c ++ x) ((fun m => m ++ x) <$> ms).
Proof. intros. split; [by eapply InvC_grow|by apply at_last_write]. Qed.

Lemma AppendBlock_spec O h s c ms a b :
  Inv O h s c ms -> blocks h !! a = Some b -> size b = buffer_size b ->
  exists h' s', AppendBlock h s a = Some (h', s') /\
    Inv O h' s' (c ++ data b) ((fun m => m ++ data b) <$> ms) /\ keeps O h h'.
Proof.
  intros HI Hb Hfull. pose proof HI as [(Hh & HO & HR) _]. pose proof (r_dq _ _ _ _ HR) as Hq.
  unfold AppendBlock. destruct (IncRef_spec _ _ _ _ Hh Hb Hfull) as (h' & -> & Hh' & Hk & b' & Hb' & Hs).
  cbn [mbind option_bind]. rewrite Hb'. cbn [mbind option_bind].
  destruct (same_data _ _ Hs) as (Hsz & Hd & _). destruct (ho_block _ _ Hh a b Hb) as (Hok & _).
  eexists _, _; split; [done|]. split; [|apply Hk]. rewrite <- Hsz, <- (data_len b) by done.
  apply (Inv_grow O h).
  - apply HI.
  - by apply push_back_ok.
  - eapply heap_ok_ext; [|exact Hh']. intros x. by rewrite hold_push.
  - intros p d Hv. rewrite Hd. eapply view_push; try done.
    + eapply keeps_live; [done|apply Hk].
    + by eapply same_ok.
  - rewrite end_push, Z.add_simpl_r, data_len, Hsz by done. by apply at_last_push.
Qed.

Lemma AppendRaw_spec O h s c ms raw disposer :
  Inv O h s c ms -> raw <> [] -> zlen raw < 2 ^ 31 ->
  exists h' s', AppendRaw h s raw disposer = Some (h', s') /\
    Inv O h' s' (c ++ raw) ((fun m => m ++ raw) <$> ms) /\ keeps O h h'.
Proof.
  intros HI Hne H31. apply zlen_pos_cons in Hne. pose proof HI as [(Hh & HO & HR) _].
  pose proof (r_dq _ _ _ _ HR) as Hq. unfold AppendRaw, DataBlock_raw.
  rewrite int32_small, takeZ_all by lia.
  destruct (Z.ltb_spec 0 (zlen raw)); [|lia].
  set (b := mkDataBlock false raw (zlen raw) disposer 0).
  assert (Hok : block_ok b) by (unfold block_ok, buffer_size; simpl; lia).
  destruct (alloc_spec h _ b (alloc h b).2 Hh Hok) as (h' & Hi & Hh' & Hk & Hb);
    [unfold buffer_size; simpl; lia|done|done|].
  change (alloc h b) with (next h, (alloc h b).2). cbn [mbind option_bind CHECK].
  unfold AppendBlock. rewrite Hi. cbn [mbind option_bind]. rewrite Hb. cbn [mbind option_bind].
  assert (Hd : data b = raw) by (apply takeZ_all; simpl; lia).
  eexists _, _; split; [done|]. split; [|apply Hk].
  change (size (set_ref b 1)) with (zlen raw). apply (Inv_grow O h).
  - apply HI.
  - by apply push_back_ok.
  - eapply heap_ok_ext; [|exact Hh']. intros x. by rewrite hold_push.
  - intros p d Hv. rewrite <- Hd at 1. change (data b) with (data (set_ref b 1)).
    eapply view_push; try done. eapply keeps_live; [done|apply Hk].
  - rewrite end_push, Z.add_simpl_r. by apply (at_last_push _ _ _ (set_ref b 1)).
Qed.

(** The body of the loop over the blocks of the source. *)
Lemma Append_chunk O h s c ms a b i j :
  Inv O h s c ms -> blocks h !! a = Some b -> block_ok b -> 0 <= i <= j -> j <= size b ->
  let x := takeZ (j - i) (dropZ i (data b)) in
  exists h' s',
    (if i <? j then
       if (i =? 0) && (j =? buffer_size b) then AppendBlock h s a else AppendNewBlock h s b i j
     else Some (h, s)) = Some (h', s') /\
    Inv O h' s' (c ++ x) ((fun m => m ++ x) <$> ms) /\ keeps O h h'.
Proof.
  intros HI Hb Hok Hi Hj x. destruct (Z.ltb_spec i j) as [Hlt|Hge].
  2: { exists h, s. assert (x = []) as -> by (apply takeZ_neg; lia).
       rewrite app_nil_r, map_app_nil. split_and!; [done..|apply keeps_refl]. }
  destruct ((i =? 0) && (j =? buffer_size b)) eqn:E.
  - bool_prop. subst i. assert (Hx : x = data b).
    { apply takeZ_all. rewrite data_len by done. destruct Hok. lia. }
    rewrite Hx. apply AppendBlock_spec; [done..|]. destruct Hok. lia.
  - unfold AppendNewBlock. destruct (Z.ltb_spec 0 (j - i)); [|lia].
    rewrite data_slice by (done || lia). apply Write_spec; [done|]. destruct Hok.
    fold x. unfold x. rewrite zlen_takeZ, zlen_dropZ, data_len by (done || lia). lia.
Qed.

(** Two pointers are ordered when their contents are. *)
Lemma valid_at_order h q p m c d :
  valid_at h q p c -> valid_at h q m d -> block_id p <= block_id m -> zlen d <= zlen c ->
  ptr_lt m p = false.
Proof.
  intros (b & W & Hat & Hp & ->) (b' & W' & Hat' & Hm & ->) Hid Hlen. unfold ptr_lt.
  destruct (Z.eqb_spec (block_id m) (block_id p)) as [E|E]; [|apply Z.ltb_ge; lia].
  rewrite E in Hat'. pose proof (at_block_fun _ _ _ _ _ Hat Hat') as Heq. injection Heq as <- <-.
  destruct (at_block_cons _ _ _ _ _ Hat) as (_ & Hok & _).
  rewrite !zlen_app, !zlen_dropZ, data_len in Hlen by (done || lia). apply Z.ltb_ge. lia.
Qed.

(** The range to append, split at the end of the current block. *)
Lemma range_split h q p fin l d :
  valid_at h q p (l ++ d) -> valid_at h q fin d -> ptr_lt fin p = false ->
  exists b, dq_block h q (block_id p) = Some b /\ block_ok b /\ 0 <= pos p <= size b /\
    let j := if block_id p =? block_id fin then pos fin else size b in
    pos p <= j <= size b /\
    exists l', l = takeZ (j - pos p) (dropZ (pos p) (data b)) ++ l' /\
      ((block_id p + 1 <= block_id fin /\ valid_at h q (mkPointer (block_id p + 1) 0) (l' ++ d) /\
        ptr_lt fin (mkPointer (block_id p + 1) 0) = false) \/
       (block_id fin < block_id p + 1 /\ l' = [])).
Proof.
  intros (b & W & Hat & Hp & Hc) Hfin Hlt. pose proof Hfin as (bf & Wf & Hatf & Hpf & Hd).
  destruct (at_block_cons _ _ _ _ _ Hat) as (_ & Hok & Hdq & _ & _).
  exists b. split_and!; [done|done|lia|lia|]. unfold ptr_lt in Hlt.
  destruct (Z.eqb_spec (block_id p) (block_id fin)) as [E|E].
  - rewrite <- E, Z.eqb_refl in *. apply Z.ltb_ge in Hlt.
    pose proof (at_block_fun _ _ _ _ _ Hat Hatf) as Heq. injection Heq as <- <-.
    split; [lia|]. exists []. split; [|right; split; [lia|done]]. rewrite app_nil_r.
    apply (app_inv_tail d). rewrite Hc, Hd, app_assoc. f_equal.
    replace (dropZ (pos fin) (data b)) with (dropZ (pos fin - pos p) (dropZ (pos p) (data b))).
    + by rewrite takeZ_dropZ.
    + rewrite dropZ_dropZ by lia. f_equal. lia.
  - destruct (Z.eqb_spec (block_id fin) (block_id p)); [lia|]. apply Z.ltb_ge in Hlt.
    split; [lia|]. rewrite takeZ_all by (rewrite zlen_dropZ, data_len by (done || lia); lia).
    destruct W as [|b' W].
    { apply at_block_len in Hat. rewrite zlen_cons, zlen_nil in Hat.
      apply valid_at_id in Hfin. lia. }
    pose proof (valid_at_next _ _ _ _ _ _ Hat) as Hn.
    rewrite (dropZ_all (size b)) in Hn by (rewrite data_len by done; lia). simpl in Hn.
    assert (Hlt' : ptr_lt fin (mkPointer (block_id p + 1) 0) = false).
    { unfold ptr_lt. simpl. destruct (Z.eqb_spec (block_id fin) (block_id p + 1)); apply Z.ltb_ge; lia. }
    destruct (valid_at_between _ _ _ _ _ _ Hn Hfin Hlt') as (l' & Hl').
    exists l'. split; [|left; split; [lia|split; [by rewrite <- Hl'|done]]].
    apply (app_inv_tail d). by rewrite Hc, Hl', app_assoc.
Qed.

Lemma AppendRange_spec O h s c ms q p fin l d :
  Inv O h s c ms -> dq_ok q -> (forall a, a ∈ live q -> 0 < O a) ->
  begin_id q <= block_id p -> valid_at h q p (l ++ d) -> valid_at h q fin d ->
  ptr_lt fin p = false ->
  exists x, loop (AppendRange_step q fin) (S (S (length (vec q)))) (h, s, p) = Some x /\
    Inv O x.1 x.2 (c ++ l) ((fun m => m ++ l) <$> ms) /\ keeps O h x.1.
Proof.
  intros HI Hq HO Hb Hv Hfin Hlt.
  apply (loop_total (AppendRange_step q fin)
    (fun '(h1, s1, p1) => exists l1 l2, l = l1 ++ l2 /\ begin_id q <= block_id p1 /\
       Inv O h1 s1 (c ++ l1) ((fun m => m ++ l1) <$> ms) /\ keeps O h h1 /\
       ((block_id p1 <= block_id fin /\ valid_at h q p1 (l2 ++ d) /\ ptr_lt fin p1 = false) \/
        (block_id fin < block_id p1 /\ l2 = []))) _
    (fun '(_, _, p1) => Z.to_nat (block_id fin + 1 - block_id p1))).
  - intros [[h1 s1] p1] (l1 & l2 & -> & Hb1 & HI1 & Hk1 & Hcase). unfold AppendRange_step.
    destruct Hcase as [(Hid & Hv1 & Hlt1)|(Hid & ->)].
    2: { destruct (Z.leb_spec (block_id p1) (block_id fin)); [lia|]. eexists; split; [done|].
         rewrite app_nil_r. by split. }
    destruct (Z.leb_spec (block_id p1) (block_id fin)); [|lia].
    destruct (range_split _ _ _ _ _ _ Hv1 Hfin Hlt1)
      as (b & Hdq & Hok & Hp & Hj & l' & -> & Hcase).
    unfold dq_block in Hdq. apply bind_Some in Hdq as (a & Ha & Hba).
    destruct (Hk1 a b) as (b1 & Hb1' & Hs); [|done|].
    { apply HO. rewrite dq_addr_live in Ha by (done || lia). by eapply list_elem_of_lookup_2. }
    destruct (same_data _ _ Hs) as (Hsz & Hda & Hbz). rewrite Ha. cbn [mbind option_bind].
    rewrite Hb1'. cbn [mbind option_bind]. cbv zeta. rewrite <- Hsz, Hda in *.
    destruct (Append_chunk O h1 s1 _ _ a b1 (pos p1)
               (if block_id p1 =? block_id fin then pos fin else size b) HI1 Hb1')
      as (h2 & s2 & -> & HI2 & Hk2); [by eapply same_ok|lia|lia|].
    cbn [mbind option_bind]. eexists; split; [done|]. split; [|simpl; lia].
    rewrite map_app_app, <- app_assoc in HI2.
    eexists _, l'. split; [by rewrite app_assoc|]. simpl. split_and!; [lia|done|by etrans|].
    destruct Hcase as [(? & ? & ?)|(? & ?)]; [left|right]; by split_and!.
  - exists [], l. rewrite app_nil_r, map_app_nil. split_and!; [done..|apply keeps_refl|].
    left. split_and!; [|done..]. unfold ptr_lt in Hlt. destruct (Z.eqb_spec (block_id fin) (block_id p));
      [lia|apply Z.ltb_ge in Hlt; lia].
  - apply valid_at_id in Hfin, Hv. unfold end_id, zlen in *. lia.
Qed.

Lemma at_last_valid O h q wp : heap_ok h (hold O q) -> (forall a, 0 <= O a) -> dq_ok q ->
  at_last h q wp -> valid_at h q wp [].
Proof.
  intros Hh HO Hq (Hne & a & b & Ha & Hb & ->).
  destruct (at_block_ex h q (end_id q - 1)) as [W Hat]; [done|by eapply heap_held|lia|].
  pose proof (at_block_len _ _ _ _ Hat) as Hl.
  destruct W as [|b' W]; [rewrite zlen_nil in Hl; lia|]. rewrite zlen_cons in Hl.
  destruct (at_block_cons _ _ _ _ _ Hat) as (_ & Hok & Hdq & _).
  unfold dq_block in Hdq. rewrite Ha in Hdq. simpl in Hdq. rewrite Hb in Hdq. injection Hdq as <-.
  exists b, W. simpl. destruct Hok. split_and!; [done|lia..|].
  destruct W; [|rewrite zlen_cons in Hl; pose proof (zlen_nonneg W); lia].
  by rewrite dropZ_all by (rewrite data_len by done; lia).
Qed.

Lemma Inv_at_last O h s c ms p d : Inv O h s c ms -> begin_id (blocks_ s) <= block_id p ->
  valid_at h (blocks_ s) p d -> at_last h (blocks_ s) (write_pointer_ s).
Proof.
  intros HI Hb Hv. destruct (IsNull (write_pointer_ s)) eqn:E2; [|by eapply Inv_last].
  apply (Inv_null _ _ _ _ _ HI) in E2. apply live_nil_ids in E2; [|by eapply Inv_dq].
  apply valid_at_id in Hv. lia.
Qed.

Lemma AppendStreamNonDestructive_spec O O' h s c ms b d md n :
  Inv O h s c ms -> Inv O' h b d md -> (forall a, a ∈ live (blocks_ b) -> 0 < O a) ->
  zlen d < 2 ^ 31 ->
  let x := if 0 <=? n then takeZ n d else d in
  exists h' s', AppendStreamNonDestructive h s b n = Some (h', s') /\
    Inv O h' s' (c ++ x) ((fun m => m ++ x) <$> ms) /\ keeps O h h'.
Proof.
  intros HI HIb HO Hd31 x.
  assert (Hsame : forall y, y = [] -> Inv O h s (c ++ y) ((fun m => m ++ y) <$> ms) /\ keeps O h h).
  { intros y ->. rewrite app_nil_r, map_app_nil. split; [done|apply keeps_refl]. }
  unfold AppendStreamNonDestructive. pose proof (MaybeInit_spec _ _ _ _ _ HIb) as Hi.
  destruct (MaybeInitReadPointer b) as [b1|] eqn:E.
  2: { destruct Hi as [-> _]. assert (x = []) as -> by (unfold x; rewrite takeZ_nil; by destruct (0 <=? n)).
       assert (IsNull (GetReadPointer b) = true) as ->.
       { unfold MaybeInitReadPointer, GetReadPointer in *.
         destruct (IsNull (read_pointer_ b)) eqn:E1; [|done].
         by destruct (IsNull (write_pointer_ b)) eqn:E2. }
       exists h, s. split; [done|by apply Hsame]. }
  destruct Hi as (HIb1 & Hbeg & Hv & -> & Hn). simpl in Hbeg, Hv. rewrite Hn.
  set (q := blocks_ b) in *. set (p := GetReadPointer b) in *.
  pose proof HIb as [(Hhb & HOb & HRb) _]. pose proof (r_dq _ _ _ _ HRb) as Hq. fold q in Hq.
  assert (Hend : exists l fin e, d = l ++ e /\ x = l /\ valid_at h q fin e /\ ptr_lt fin p = false /\
    (if 0 <=? n then '(fin, _) ← Advance h q p (int32 (Z.min n (Size b))); Some fin
     else Some (write_pointer_ b)) = Some fin).
  { unfold x, Size. rewrite (Inv_size _ _ _ _ _ HIb). destruct (Z.leb_spec 0 n).
    - pose proof (zlen_nonneg d). rewrite int32_small by lia.
      destruct (Advance_spec _ _ _ _ (Z.min n (zlen d)) Hv ltac:(lia)) as ([fin k] & -> & _ & Hf & Hid).
      simpl in *. eexists (takeZ (Z.min n (zlen d)) d), fin, _. split_and!; [by rewrite takeZ_dropZ| |done| |done].
      + destruct (Z.min_spec n (zlen d)) as [[_ ->]|[? ->]]; [done|]. rewrite !takeZ_all by lia. done.
      + eapply valid_at_order; try done. rewrite zlen_dropZ by lia. lia.
    - exists d, (write_pointer_ b), []. rewrite app_nil_r.
      assert (Hl : at_last h q (write_pointer_ b)).
      { by eapply Inv_at_last. }
      pose proof (at_last_valid _ _ _ _ Hhb HOb Hq Hl) as Hw. split_and!; [done|done|done| |done].
      apply valid_at_id in Hv as Hid. eapply valid_at_order; [done|done| |apply zlen_nonneg].
      destruct Hl as (_ & ? & ? & _ & _ & ->). simpl. lia. }
  destruct Hend as (l & fin & e & -> & Hx & Hfin & Hlt & ->). cbn [mbind option_bind]. clearbody x. subst x.
  unfold IsEmpty. rewrite (Inv_size _ _ _ _ _ HIb), zlen_app.
  pose proof (zlen_nonneg l). pose proof (zlen_nonneg e).
  destruct (Z.leb_spec (zlen l + zlen e) 0); simpl.
  { assert (l = []) as -> by (destruct l; [done|]; rewrite zlen_cons in *; pose proof (zlen_nonneg l); lia).
    exists h, s. split; [done|by apply Hsame]. }
  unfold AppendStreamNonDestructive_range.
  destruct (AppendRange_spec O h s c ms q p fin l e) as ([h1 s1] & Hloop & HI1 & Hk1); [done..|]. cbn [fst snd] in HI1, Hk1.
  assert (Hskip : forall h2 s2 c2 ms2, Inv O h2 s2 c2 ms2 ->
    (wp ← SkipToCurrentBlockEnd h2 (blocks_ s2) (write_pointer_ s2);
     Some (h2, with_write s2 wp (size_ s2))) = Some (h2, s2)).
  { intros h2 s2 c2 ms2 HI2. unfold SkipToCurrentBlockEnd.
    destruct (IsNull (write_pointer_ s2)) eqn:Ew; [simpl; by destruct s2|].
    destruct (Inv_last _ _ _ _ _ HI2 Ew) as (_ & a & b2 & Ha & Hb & Hwp).
    unfold dq_block. rewrite Hwp. simpl. rewrite Ha. simpl. rewrite Hb. simpl. rewrite <- Hwp.
    by destruct s2. }
  destruct (ptr_lt p fin) eqn:Hpf.
  - rewrite Hloop. cbn [mbind option_bind]. rewrite (Hskip _ _ _ _ HI1). by exists h1, s1.
  - cbn [mbind option_bind]. rewrite (Hskip _ _ _ _ HI). exists h, s. split; [done|]. apply Hsame.
    destruct (valid_at_between _ _ _ _ _ _ Hfin Hv Hpf) as (l2 & Hl2).
    apply (f_equal zlen) in Hl2. rewrite !zlen_app in Hl2. pose proof (zlen_nonneg l2).
    destruct l; [done|]. rewrite zlen_cons in *. pose proof (zlen_nonneg l). lia.
Qed.

(** ** Markers *)

Lemma MarkerSet_spec O h s c ms : Inv O h s c ms -> Inv O h (MarkerSet s) c (ms ++ [c]).
Proof.
  intros [(Hh & HO & [H1 H2 H3 H4 H5 H6 H7 H8]) Hw]. unfold MarkerSet.
  assert (Hm : Forall2 (fun m mk => view h (blocks_ s) m.2 mk)
                 (markers_ s ++ [(int32 (size_ s), read_pointer_ s)]) (ms ++ [c])).
  { apply Forall2_app; [done|]. by constructor. }
  destruct (markers_ s) as [|m ml] eqn:E.
  - split; [split_and!; [done..|]|done]. constructor; try done.
    + unfold first_low, marker_ids. simpl. constructor; [done|]. by constructor.
    + intros _. inversion H5; subst. simpl. rewrite H7. constructor; [done|constructor].
  - split; [split_and!; [done..|]|done]. constructor; try done.
    + unfold first_low, marker_ids in *. rewrite E in H6. simpl in *. rewrite fmap_app. simpl.
      apply Forall_cons_iff in H6 as [? H6]. apply Forall_app in H6 as [? H6].
      inversion H6; subst. constructor; [done|]. rewrite !Forall_app. split_and!; [done|by constructor..].
    + intros Hi. specialize (H8 Hi).
      change (Forall2 (fun m mk => m.1 = int32 (zlen mk)) ((m :: ml) ++ [(int32 (size_ s), read_pointer_ s)]) (ms ++ [c])).
      apply Forall2_app; [done|]. rewrite H7. by constructor.
Qed.

Lemma removelast_snoc {A} (l : list A) x : removelast (l ++ [x]) = l.
Proof. rewrite removelast_app by done. by rewrite app_nil_r. Qed.

Lemma markers_snoc O h s c ms m : Inv O h s c (ms ++ [m]) ->
  exists l sz p, markers_ s = l ++ [(sz, p)] /\ view h (blocks_ s) p m /\
    (invalid_markers_size_ s = false -> sz = int32 (zlen m)) /\
    Inv O h (with_markers s l) c ms /\ Inv O h (with_markers (with_read s p (zlen m)) l) m ms.
Proof.
  intros [(Hh & HO & [H1 H2 H3 H4 H5 H6 H7 H8]) Hw].
  apply Forall2_app_inv_r in H5 as (l & lx & Hl & Hx & E).
  inversion Hx as [|[sz p] ? ? ? Hv Hn]; subst. inversion Hn; subst.
  assert (Hsz : invalid_markers_size_ s = false ->
    Forall2 (fun m mk => m.1 = int32 (zlen mk)) l ms /\ sz = int32 (zlen m)).
  { intros Hi. specialize (H8 Hi). rewrite E in H8.
    apply Forall2_app_inv in H8 as [? H8]; [|by eapply Forall2_length].
    split; [done|]. by inversion H8. }
  exists l, sz, p. split_and!; [done|done|intros; by apply Hsz| |].
  - split; [split_and!; [done..|]|done]. constructor; try done; simpl.
    + unfold first_low, marker_ids in *. rewrite E in H6. destruct l as [|m0 l]; [done|].
      simpl in *. rewrite fmap_app in H6. revert H6. rewrite !Forall_cons_iff, !Forall_app. tauto.
    + intros Hi. by apply Hsz.
  - split; [split_and!; [done..|]|].
    + constructor; try done; simpl.
      * unfold first_low, marker_ids in *. rewrite E in H6. destruct l as [|m0 l]; [done|].
        simpl in *. rewrite fmap_app in H6. revert H6. rewrite !Forall_cons_iff, !Forall_app. tauto.
      * intros Hi. by apply Hsz.
    + destruct Hw as [(Hl0 & ? & ?)|Hw]; [left|by right]. split_and!; [done..|].
      by apply (view_empty h (blocks_ s) p m).
Qed.

Lemma MaybeInit_default s :
  default s (MaybeInitReadPointer s) = with_read s (GetReadPointer s) (size_ s).
Proof.
  unfold MaybeInitReadPointer, GetReadPointer.
  destruct (IsNull (read_pointer_ s)), (IsNull (write_pointer_ s)); by destruct s.
Qed.

(** The distance from the read pointer to the write pointer is the size. *)
Lemma Distance_write O h s c ms : Inv O h s c ms ->
  Distance h (blocks_ s) (GetReadPointer s) (write_pointer_ s) = Some (zlen c) /\
  Inv O h (with_read s (GetReadPointer s) (zlen c)) c ms.
Proof.
  intros HI. pose proof HI as [(Hh & HO & HR) Hw]. pose proof (MaybeInit_spec _ _ _ _ _ HI) as Hi.
  destruct (MaybeInitReadPointer s) as [s1|] eqn:E.
  - destruct Hi as (HI1 & Hb & Hv & -> & Hn). rewrite (Inv_size _ _ _ _ _ HI) in HI1. split; [|done].
    simpl in *. assert (Hl : at_last h (blocks_ s) (write_pointer_ s)).
    { by eapply Inv_at_last. }
    pose proof (at_last_valid _ _ _ _ Hh HO (r_dq _ _ _ _ HR) Hl) as Hwv.
    rewrite (Distance_spec _ _ _ _ _ _ Hv Hwv); [f_equal; rewrite zlen_nil; lia|].
    eapply valid_at_order; [done|done| |apply zlen_nonneg].
    apply valid_at_id in Hv. destruct Hl as (_ & ? & ? & _ & _ & ->). simpl. lia.
  - destruct Hi as [-> Hl]. unfold MaybeInitReadPointer, GetReadPointer in *.
    pose proof (r_read _ _ _ _ HR) as Hv. unfold view in Hv.
    destruct (IsNull (read_pointer_ s)) eqn:E1; [|done].
    destruct (IsNull (write_pointer_ s)) eqn:E2; [|done]. simpl.
    destruct Hw as [(_ & Hwp & _)|(a & b & Hne & _)]; [|apply live_nil_ids in Hl; [lia|apply HR]].
    destruct Hv as [Hp _]. apply IsNull_spec in E1. unfold Distance, ptr_lt. rewrite Hwp, E1, Hp. split; [done|].
    rewrite <- (Inv_size _ _ _ _ _ HI). by destruct s.
Qed.

Lemma MarkerRestore_spec O h s c ms m : Inv O h s c (ms ++ [m]) -> zlen m < 2 ^ 31 ->
  exists s', MarkerRestore h s = Some s' /\ Inv O h s' m ms.
Proof.
  intros HI H31. destruct (markers_snoc _ _ _ _ _ _ HI) as (l & sz & p & E & Hv & Hsz & _ & HI').
  pose proof (zlen_nonneg m). assert (Hm : size_t (int32 (zlen m)) = zlen m)
    by (rewrite int32_small, wrapU_small; lia).
  unfold MarkerRestore. rewrite E, last_snoc. cbn [mbind option_bind]. cbv zeta.
  cbn [with_read invalid_markers_size_]. destruct (invalid_markers_size_ s).
  - rewrite MaybeInit_default. destruct (Distance_write _ _ _ _ _ HI') as [Hd HI2].
    change (GetReadPointer (with_markers (with_read s p (zlen m)) l)) with
      (GetReadPointer (with_read s p (size_ s))) in *. cbn [with_read with_markers blocks_ write_pointer_ read_pointer_] in *.
    rewrite Hd. cbn [mbind option_bind]. eexists; split; [done|]. cbn [with_read markers_]. rewrite E, removelast_snoc, Hm. exact HI2.
  - cbn [mbind option_bind]. eexists; split; [done|]. cbn [with_read markers_].
    rewrite E, removelast_snoc, (Hsz eq_refl), Hm. exact HI'.
Qed.

Lemma MarkerClear_spec O h s c ms m : Inv O h s c (ms ++ [m]) ->
  exists h' s', MarkerClear h s = Some (h', s') /\ Inv O h' s' c ms /\ keeps O h h'.
Proof.
  intros HI. destruct (markers_snoc _ _ _ _ _ _ HI) as (l & sz & p & E & _ & _ & HI' & _).
  unfold MarkerClear. rewrite E, last_snoc, removelast_snoc. cbn [mbind option_bind].
  destruct (MaybeDispose_spec _ _ _ _ _ HI') as (h' & s' & ? & ? & ? & _). by exists h', s'.
Qed.

(** ** Clear *)

Lemma DecRef_all_spec O l : forall h,
  heap_ok h (fun a => O a + occ a l) -> (forall a, 0 <= O a) ->
  exists h', DecRef_all h l = Some h' /\ heap_ok h' O /\ keeps O h h'.
Proof.
  induction l as [|a l IH]; intros h Hh HO.
  - exists h. split_and!; [done| |apply keeps_refl]. eapply heap_ok_ext; [|exact Hh]. simpl. lia.
  - destruct (DecRef_spec h (fun x => O x + occ x l) a) as (h1 & Hd & Hh1 & Hk1).
    { eapply heap_ok_ext; [|exact Hh]. intros x. unfold one. simpl. lia. }
    { intros x. specialize (HO x). pose proof (occ_nonneg x l). lia. }
    destruct (IH h1 Hh1 HO) as (h2 & Hd2 & Hh2 & Hk2). exists h2. simpl. rewrite Hd. simpl.
    split_and!; [done..|]. etrans; [|done]. revert Hk1. apply keeps_mono. intros x.
    pose proof (occ_nonneg x l). lia.
Qed.

Lemma dq_clear_ok q : dq_ok q -> dq_ok (dq_clear q).
Proof. intros [? ?]. split; simpl; [lia|]. unfold zlen. simpl. lia. Qed.

Lemma RepC_empty h s q :
  0 < block_size_ s < 2 ^ 31 -> IsNull (scratch_pointer_ s) = true -> dq_ok q -> live q = [] ->
  Rep h (mkMemoryStream (block_size_ s) q null_pointer null_pointer (scratch_pointer_ s)
           [] (invalid_markers_size_ s) 0) [] [].
Proof.
  intros Hbs Hs Hq Hl. split; [|by left].
  constructor; try done; simpl. split; [done|]. exists []. split; [|done].
  pose proof (proj1 (live_nil_ids q Hq) Hl) as He. pose proof Hq as [? ?].
  constructor; [unfold begin_id; lia|lia| |done].
  rewrite mapM_dropZ_live, Hl, dropZ_nil by (done || lia). done.
Qed.

Lemma Clear_spec O h s c : Inv O h s c [] ->
  exists h' s', Clear h s = Some (h', s') /\ Inv O h' s' [] [] /\ keeps O h h' /\
                heap_ok h' O /\ live (blocks_ s') = [].
Proof.
  intros [(Hh & HO & [H1 H2 H3 H4 H5 H6 H7 H8]) Hw]. unfold Clear, MarkerIsSet.
  apply Forall2_nil_inv_r in H5. rewrite H5. cbn [negb CHECK mbind option_bind].
  destruct (DecRef_all_spec O (live (blocks_ s)) h Hh HO) as (h' & -> & Hh' & Hk).
  cbn [mbind option_bind]. eexists _, _; split; [done|].
  assert (Hhold : heap_ok h' (hold O (dq_clear (blocks_ s)))).
  { eapply heap_ok_ext; [|exact Hh']. intros x. unfold hold. simpl. lia. }
  destruct (RepC_empty h' s (dq_clear (blocks_ s)) H1 H3 (dq_clear_ok _ H2) eq_refl) as [HR Hw'].
  split_and!; [split; [by split_and!|done]|done..].
Qed.

(** ** The scratch space *)

Lemma Inv_with_scratch O h s c ms p : Inv O h s c ms -> IsNull p = true ->
  Inv O h (with_scratch s p) c ms.
Proof.
  intros [(Hh & HO & [H1 H2 H3 H4 H5 H6 H7 H8]) Hw] Hp.
  split; [split_and!; [done..|]|done]. by constructor.
Qed.

(** The block that the caller fills: [w] copied to the offset [off] of the block [a]. *)
Definition store (h : heap) (a : addr) (off : Z) (w : bytes) : option heap :=
  b ← blocks h !! a; Some (set_block h a (set_buffer b (splice off w (buffer b)))).

(** What [GetScratchSpace] has before it marks the block: an end that is not full. *)
Lemma scratch_block O h s c ms :
  Inv O h s c ms ->
  exists h1 q a b,
    (av ← AvailableForWrite h (blocks_ s) (write_pointer_ s);
     if IsNull (write_pointer_ s) || (av =? 0) then
       '(h, q) ← push_new_block h (blocks_ s) (block_size_ s);
       Some (h, with_write (with_blocks s q) (mkPointer (end_id q - 1) 0) (size_ s))
     else Some (h, s)) =
      Some (h1, with_write (with_blocks s q) (mkPointer (end_id q - 1) (size b)) (size_ s)) /\
    heap_ok h1 (hold O q) /\ dq_ok q /\ grows h (blocks_ s) h1 q [] /\ keeps O h h1 /\
    begin_id q < end_id q /\ dq_addr q (end_id q - 1) = Some a /\ blocks h1 !! a = Some b /\
    block_ok b /\ size b < buffer_size b.
Proof.
  intros HI. pose proof HI as [(Hh & HO & HR) _]. pose proof (r_dq _ _ _ _ HR) as Hq.
  pose proof (r_bs _ _ _ _ HR) as Hbs.
  destruct (push_new_block_spec O h (blocks_ s) _ Hh HO Hq Hbs)
    as (h1 & b & Hpush & Hh1 & Hk1 & Hg1 & Hb & Hok & Hz & Hbz & _).
  destruct (push_back_ok (blocks_ s) (next h) Hq) as (Hq1 & _ & Ha1 & _).
  assert (Hnew : exists h1 q a b,
    ('(h, q) ← push_new_block h (blocks_ s) (block_size_ s);
     Some (h, with_write (with_blocks s q) (mkPointer (end_id q - 1) 0) (size_ s))) =
      Some (h1, with_write (with_blocks s q) (mkPointer (end_id q - 1) (size b)) (size_ s)) /\
    heap_ok h1 (hold O q) /\ dq_ok q /\ grows h (blocks_ s) h1 q [] /\ keeps O h h1 /\
    begin_id q < end_id q /\ dq_addr q (end_id q - 1) = Some a /\ blocks h1 !! a = Some b /\
    block_ok b /\ size b < buffer_size b).
  { exists h1, (push_back (blocks_ s) (next h)), (next h), b. rewrite Hpush. simpl.
    rewrite end_push, Z.add_simpl_r, Hz. split_and!; try done.
    - by eapply keeps_others.
    - rewrite <- (end_push _ (next h)). by apply live_push_ne.
    - lia. }
  unfold AvailableForWrite. destruct (IsNull (write_pointer_ s)) eqn:En; [done|].
  destruct (Inv_last _ _ _ _ _ HI En) as (Hne & a & b0 & Ha & Hb0 & Hwp).
  unfold dq_block. rewrite Hwp. cbn [block_id pos]. rewrite Ha. cbn [mbind option_bind].
  rewrite Hb0. cbn [mbind option_bind orb].
  destruct (Z.eqb_spec (buffer_size b0 - size b0) 0); [done|].
  destruct (ho_block _ _ Hh a b0 Hb0) as (Hok0 & _).
  exists h, (blocks_ s), a, b0. rewrite <- Hwp.
  split_and!; try done; [by destruct s|apply grows_refl|destruct Hok0; lia].
Qed.

Lemma fill_nil b : fill b [] = b.
Proof.
  unfold fill, splice, set_size, set_buffer. change (zlen []) with 0.
  rewrite !Z.add_0_r. simpl. rewrite takeZ_dropZ. by destruct b.
Qed.

(** Confirming after the caller filled the front of the space. *)
Lemma ConfirmScratch_fill O h q a b s w :
  heap_ok h (hold O q) -> (forall a, 0 <= O a) -> dq_ok q -> begin_id q < end_id q ->
  dq_addr q (end_id q - 1) = Some a -> blocks h !! a = Some b -> block_ok b ->
  size b < buffer_size b -> zlen w <= buffer_size b - size b ->
  blocks_ s = q -> scratch_pointer_ s = mkPointer (end_id q - 1) (size b) ->
  exists h2, store (set_block h a (set_size b (buffer_size b))) a (size b) w = Some h2 /\
    ConfirmScratch h2 s (zlen w) =
      Some (set_block h a (fill b w),
            with_scratch (grown s q (mkPointer (end_id q - 1) (size b + zlen w)) (zlen w)) Pointer_Clear).
Proof.
  intros Hh HO Hq Hne Ha Hb Hok Hlt Hw Hbl Hsc. pose proof Hok as [Hs Hpos].
  pose proof (zlen_nonneg w). unfold store. simpl. rewrite lookup_insert_eq. simpl.
  eexists; split; [done|]. set (b1 := set_buffer _ _). set (h2 := set_block _ a b1).
  assert (Hb1 : block_ok b1 /\ size b1 = buffer_size b).
  { unfold block_ok, b1, splice. simpl. unfold buffer_size in *. simpl.
    rewrite !zlen_app, zlen_takeZ, zlen_dropZ by lia. lia. }
  destruct Hb1 as [Hok1 Hs1]. assert (Hh2 : blocks h2 !! a = Some b1) by (simpl; by rewrite lookup_insert_eq).
  assert (Hv : valid_at h2 q (mkPointer (end_id q - 1) (size b)) (dropZ (size b) (data b1))).
  { destruct (at_block_ex h2 q (end_id q - 1)) as [W Hat]; [done| |lia|].
    - intros x Hx. destruct (decide (x = a)) as [->|Hxa]; [by exists b1|].
      destruct (heap_held _ _ _ Hh HO x Hx) as (y & Hy & Hyok). exists y. split; [|done].
      simpl. by rewrite !lookup_insert_ne.
    - pose proof (at_block_len _ _ _ _ Hat) as Hl.
      destruct W as [|b' W]; [change (zlen []) with 0 in Hl; lia|]. rewrite zlen_cons in Hl.
      destruct (at_block_cons _ _ _ _ _ Hat) as (_ & _ & Hdq & _).
      unfold dq_block in Hdq. rewrite Ha in Hdq. simpl in Hdq. rewrite lookup_insert_eq in Hdq.
      injection Hdq as <-. destruct W; [|rewrite zlen_cons in Hl; pose proof (zlen_nonneg W); lia].
      exists b1, []. simpl. rewrite app_nil_r. split_and!; [done|lia|fold b1; lia|done]. }
  unfold ConfirmScratch. rewrite (int32_small (zlen w)) by lia. rewrite Hsc, Hbl. pose proof (begin_nonneg _ Hq).
  replace (IsNull (mkPointer (end_id q - 1) (size b))) with false
    by (symmetry; apply Z.eqb_neq; simpl; lia). cbn [negb CHECK mbind option_bind].
  destruct (Advance_spec _ _ _ _ (zlen w) Hv ltac:(lia)) as ([p k] & -> & _ & Hv' & Hid).
  cbn [fst snd block_id mbind option_bind] in *.
  assert (Hp : p = mkPointer (end_id q - 1) (size b + zlen w)).
  { pose proof (valid_at_id _ _ _ _ Hv'). assert (Hpid : block_id p = end_id q - 1) by lia.
    destruct Hv' as (b' & W & Hat & Hpp & Hc). rewrite Hpid in Hat.
    pose proof (at_block_len _ _ _ _ Hat) as Hl. rewrite zlen_cons in Hl.
    destruct W; [|rewrite zlen_cons in Hl; pose proof (zlen_nonneg W); lia].
    destruct (at_block_cons _ _ _ _ _ Hat) as (_ & _ & Hdq & _).
    unfold dq_block in Hdq. rewrite Ha in Hdq. simpl in Hdq. rewrite lookup_insert_eq in Hdq.
    injection Hdq as <-. apply (f_equal zlen) in Hc. rewrite zlen_app in Hc.
    change (flat []) with (@nil byte) in Hc. change (zlen []) with 0 in Hc.
    fold b1 in Hc. rewrite !zlen_dropZ, data_len, Hs1 in Hc by (done || lia).
    destruct p. simpl in *. f_equal; lia. }
  subst p. unfold MarkCurrentBlockEndAtPointer. cbn [block_id pos]. rewrite Ha.
  cbn [mbind option_bind]. rewrite Hh2. cbn [mbind option_bind].
  assert (E : set_block h2 a (set_size b1 (size b + zlen w)) = set_block h a (fill b w)).
  { unfold h2, set_block. simpl. f_equal. by rewrite !insert_insert_eq. }
  rewrite E. unfold grown, with_invalid, with_scratch, with_write. simpl. by rewrite Hbl.
Qed.

Lemma GetScratchSpace_spec O h s c ms :
  Inv O h s c ms ->
  exists h1 s1 a off n, GetScratchSpace h s = Some (h1, s1, (a, off, n)) /\ 0 < n /\
    forall w, zlen w <= n -> exists h2 h3 s3,
      store h1 a off w = Some h2 /\ ConfirmScratch h2 s1 (zlen w) = Some (h3, s3) /\
      Inv O h3 s3 (c ++ w) ((fun m => m ++ w) <$> ms) /\ keeps O h h3.
Proof.
  intros HI. pose proof HI as [(Hh & HO & HR) _]. unfold GetScratchSpace.
  rewrite (Inv_scratch _ _ _ _ _ HI). cbn [CHECK mbind option_bind].
  destruct (scratch_block _ _ _ _ _ HI)
    as (h1 & q & a & b & Heq & Hh1 & Hq & Hg & Hk & Hne & Ha & Hb & Hok & Hlt).
  unfold mbind, option_bind in Heq |- *.
  destruct (AvailableForWrite h (blocks_ s) (write_pointer_ s)) as [av|]; [|done].
  rewrite Heq. cbn [with_write with_blocks blocks_ write_pointer_ block_id]. rewrite Ha.
  unfold AdvanceToCurrentBlockEnd. pose proof (begin_nonneg _ Hq).
  replace (IsNull (mkPointer (end_id q - 1) (size b))) with false
    by (symmetry; apply Z.eqb_neq; simpl; lia).
  cbn [block_id pos]. unfold mbind, option_bind. rewrite Ha, Hb.
  eexists _, _, _, _, _; split; [done|]. split; [lia|]. intros w Hw.
  match goal with |- context [ConfirmScratch _ ?s1 _] => set (s' := s1) end.
  destruct (ConfirmScratch_fill O h1 q a b s' w Hh1 HO Hq Hne Ha Hb Hok Hlt ltac:(lia) eq_refl eq_refl)
    as (h2 & Hst & Hcf).
  exists h2, (set_block h1 a (fill b w)). eexists. split; [exact Hst|]. split; [exact Hcf|].
  destruct (fill_step O h1 q a b w Hh1 HO Hq Hne Ha Hb) as (Hh3 & Hk3 & Hg3 & b3 & Hb3 & Hs3 & _).
  pose proof (zlen_nonneg w). rewrite Z.min_r in * by lia.
  assert (E : (if 0 <? zlen w then set_block h1 a (fill b (takeZ (zlen w) w)) else h1) =
              set_block h1 a (fill b w)).
  { rewrite takeZ_all by lia. destruct (Z.ltb_spec 0 (zlen w)); [done|].
    assert (w = []) as -> by (destruct w; [done|]; rewrite zlen_cons in *; pose proof (zlen_nonneg w); lia).
    rewrite fill_nil. unfold set_block. rewrite insert_id by done. by destruct h1. }
  rewrite E in *. rewrite takeZ_all in Hg3 by lia. split; [|by etrans].
  apply (Inv_with_scratch O _ (grown s q (mkPointer (end_id q - 1) (size b + zlen w)) (zlen w)));
    [|done]. rewrite <- Hs3.
  apply (Inv_grow O h s c ms); [apply HI|done|done| |].
  - by apply (grows_trans _ _ _ _ _ _ [] w Hg).
  - split; [done|]. by exists a, b3.
Qed.
