(* ===== verification/MemoryStreamSpec.v ===== *)
(** * What memory streams promise: byte queues

    A program that works on any number of streams cannot tell them from independent
    queues of bytes with marks, although the streams share blocks.  The abstract state
    is a list of queues, [spec_step] says what each call does to it, and the refinement
    theorem says that every sequence of calls whose preconditions hold runs (no [CHECK]
    fails, no loop runs out of fuel, no memory is touched outside a live block) and
    gives the outputs of the specification.  The reference counts are exact throughout. *)

From S2P Require Import Prelude.
From S2P Require Import DataBlock.
From S2P Require Import DataBlockFacts.
From S2P Require Import MemoryStream.
From S2P Require Import MemoryStreamFacts.
From S2P Require Import MemoryStreamOps.

(** ** Programs over streams *)

Record world := mkWorld {
  wheap : heap;
  streams : list MemoryStream;
}.

Inductive call :=
  | CNew (block_size : Z)
  | CClear (i : nat)
  | CWrite (i : nat) (buffer : bytes)
  | CAppendRaw (i : nat) (data : bytes) (disposer : option nat)
  | CScratch (i : nat) (buffer : bytes)
  | CRead (i : nat) (len : Z)
  | CReadString (i : nat) (len : Z)
  | CPeek (i : nat) (len : Z)
  | CSkip (i : nat) (len : Z)
  | CReadNext (i : nat)
  | CReadForWritev (i : nat) (max_size : Z)
  | CReadCRLFLine (i : nat)
  | CReadLFLine (i : nat)
  | CReadLine (i : nat)
  | CSize (i : nat)
  | CMarkerSet (i : nat)
  | CMarkerRestore (i : nat)
  | CMarkerClear (i : nat)
  | CAppendStream (i j : nat) (size : Z)
  | CAppendStreamNonDestructive (i j : nat) (size : Z)
  | CEquals (i j : nat).

Inductive output :=
  | ONone
  | OBytes (b : bytes)
  | OLine (l : option bytes)
  | OInt (n : Z)
  | OBool (b : bool)
  | OChunks (v : list bytes).

(** A call on the stream [i], and on the streams [i] and [j]. *)
Definition on_stream (w : world) (i : nat)
    (f : heap -> MemoryStream -> option (heap * MemoryStream * output)) : option (world * output) :=
  s ← streams w !! i;
  '(h, s, r) ← f (wheap w) s;
  Some (mkWorld h (<[i := s]> (streams w)), r).

Definition on_streams (w : world) (i j : nat)
    (f : heap -> MemoryStream -> MemoryStream -> option (heap * MemoryStream * MemoryStream * output))
    : option (world * output) :=
  a ← streams w !! i;
  b ← streams w !! j;
  '(h, a, b, r) ← f (wheap w) a b;
  Some (mkWorld h (<[j := b]> (<[i := a]> (streams w))), r).

(** The caller fills the scratch space with as much of [buffer] as there is room for. *)
Definition use_scratch (h : heap) (s : MemoryStream) (buffer : bytes)
    : option (heap * MemoryStream * output) :=
  '(h, s, (a, off, n)) ← GetScratchSpace h s;
  let w := takeZ n buffer in
  h ← store h a off w;
  '(h, s) ← ConfirmScratch h s (zlen w);
  Some (h, s, OInt (zlen w)).

Definition run (w : world) (c : call) : option (world * output) :=
  match c with
  | CNew bs =>
      s ← MemoryStream_new bs; Some (mkWorld (wheap w) (streams w ++ [s]), ONone)
  | CClear i => on_stream w i (fun h s => '(h, s) ← Clear h s; Some (h, s, ONone))
  | CWrite i x => on_stream w i (fun h s => '(h, s) ← Write h s x; Some (h, s, ONone))
  | CAppendRaw i x d =>
      on_stream w i (fun h s => '(h, s) ← AppendRaw h s x d; Some (h, s, ONone))
  | CScratch i x => on_stream w i (fun h s => use_scratch h s x)
  | CRead i n => on_stream w i (fun h s => '(h, s, b) ← Read h s n; Some (h, s, OBytes b))
  | CReadString i n =>
      on_stream w i (fun h s => '(h, s, b) ← ReadString h s n; Some (h, s, OBytes b))
  | CPeek i n => on_stream w i (fun h s => b ← Peek h s n; Some (h, s, OBytes b))
  | CSkip i n => on_stream w i (fun h s => '(h, s, k) ← Skip h s n; Some (h, s, OInt k))
  | CReadNext i => on_stream w i (fun h s => '(h, s, r) ← ReadNext h s; Some (h, s, OLine r))
  | CReadForWritev i n =>
      on_stream w i (fun h s => '(h, s, v) ← ReadForWritev h s n; Some (h, s, OChunks v))
  | CReadCRLFLine i =>
      on_stream w i (fun h s => '(s, r) ← ReadCRLFLine h s; Some (h, s, OLine r))
  | CReadLFLine i =>
      on_stream w i (fun h s => '(s, r) ← ReadLFLine h s; Some (h, s, OLine r))
  | CReadLine i =>
      on_stream w i (fun h s => '(s, r) ← ReadLine h s; Some (h, s, OLine r))
  | CSize i => on_stream w i (fun h s => Some (h, s, OInt (Size s)))
  | CMarkerSet i => on_stream w i (fun h s => Some (h, MarkerSet s, ONone))
  | CMarkerRestore i =>
      on_stream w i (fun h s => s ← MarkerRestore h s; Some (h, s, ONone))
  | CMarkerClear i =>
      on_stream w i (fun h s => '(h, s) ← MarkerClear h s; Some (h, s, ONone))
  | CAppendStream i j n =>
      on_streams w i j (fun h a b => '(h, a, b) ← AppendStream h a b n; Some (h, a, b, ONone))
  | CAppendStreamNonDestructive i j n =>
      on_streams w i j (fun h a b =>
        '(h, a) ← AppendStreamNonDestructive h a b n; Some (h, a, b, ONone))
  | CEquals i j =>
      on_streams w i j (fun h a b => '(h, a, b, r) ← Equals h a b; Some (h, a, b, OBool r))
  end.

Fixpoint run_all (w : world) (l : list call) : option (world * list output) :=
  match l with
  | [] => Some (w, [])
  | c :: l =>
      '(w, o) ← run w c;
      '(w, os) ← run_all w l;
      Some (w, o :: os)
  end.

Definition empty_world (fresh : addr -> byte) : world := mkWorld (mkHeap ∅ O fresh []) [].

(** ** The specification: queues with marks *)

Record queue := mkQueue {
  content : bytes;
  marks : list bytes;      (* what was in front of each marker, the oldest first *)
}.

(** Appending: also what is in front of the markers grows. *)
Definition q_append (q : queue) (x : bytes) : queue :=
  mkQueue (content q ++ x) ((fun m => m ++ x) <$> marks q).

Definition q_drop (q : queue) (n : Z) : queue := mkQueue (dropZ n (content q)) (marks q).

Definition CR : byte := Byte.x0d.
Definition LF : byte := Byte.x0a.

Definition crlf_line (c : bytes) : option bytes := find_chars LF CR Byte.x00 c.
Definition lf_line (c : bytes) : option bytes := find_chars LF Byte.x00 Byte.x00 c.

(** The first [n] bytes; all of them when [n] is negative. *)
Definition prefix_of (n : Z) (c : bytes) : bytes := if 0 <=? n then takeZ n c else c.

(** Sizes that [int] holds: the code keeps the sizes of blocks, of markers and of what
    a stream reads in [int]s, and takes lengths as [size_t]. *)
Definition fits (q : queue) : Prop :=
  zlen (content q) < 2 ^ 31 /\ Forall (fun m => zlen m < 2 ^ 31) (marks q).

(** The calls a program may make: the stream is there, markers are there to restore or
    clear and not left at [Clear], the two streams of an append or of [Equals] differ,
    lengths, block sizes and the bytes written at once are under 2 GB. *)
Definition allowed_call (A : list queue) (c : call) : Prop :=
  match c with
  | CNew bs => 0 < bs < 2 ^ 31
  | CClear i => exists x, A !! i = Some (mkQueue x [])
  | CWrite i x => is_Some (A !! i) /\ zlen x < 2 ^ 31
  | CAppendRaw i x _ => is_Some (A !! i) /\ 0 < zlen x < 2 ^ 31
  | CRead i n | CPeek i n | CSkip i n => is_Some (A !! i) /\ 0 <= n < 2 ^ 31
  | CReadString i n => is_Some (A !! i) /\ n < 2 ^ 31
  | CMarkerRestore i | CMarkerClear i => exists q, A !! i = Some q /\ marks q <> []
  | CAppendStream i j _ | CAppendStreamNonDestructive i j _ | CEquals i j =>
      is_Some (A !! i) /\ is_Some (A !! j) /\ i <> j
  | CScratch i _ | CReadNext i | CReadForWritev i _ | CReadCRLFLine i | CReadLFLine i
  | CReadLine i | CSize i | CMarkerSet i => is_Some (A !! i)
  end.

(** No stream holds more when the call is made, nor has more in front of a marker. *)
Definition allowed (A : list queue) (c : call) : Prop := Forall fits A /\ allowed_call A c.

(** What a call does to the queue it is made on, and what it answers. *)
Definition queue_step (c : call) (q q' : queue) (o : output) : Prop :=
  match c with
  | CClear _ => q' = mkQueue [] [] /\ o = ONone
  | CWrite _ x | CAppendRaw _ x _ => q' = q_append q x /\ o = ONone
  | CScratch _ x => exists n, 0 <= n <= zlen x /\ (x <> [] -> 0 < n) /\
      q' = q_append q (takeZ n x) /\ o = OInt n
  | CRead _ n => q' = q_drop q n /\ o = OBytes (takeZ n (content q))
  | CReadString _ n =>
      let b := prefix_of n (content q) in q' = q_drop q (zlen b) /\ o = OBytes b
  | CPeek _ n => q' = q /\ o = OBytes (takeZ n (content q))
  | CSkip _ n => q' = q_drop q n /\ o = OInt (zlen (takeZ n (content q)))
  | CReadNext _ =>
      (content q = [] /\ q' = q /\ o = OLine None) \/
      exists b c, b <> [] /\ content q = b ++ c /\ q' = mkQueue c (marks q) /\ o = OLine (Some b)
  | CReadForWritev _ n => exists v c, content q = concat v ++ c /\ Forall (fun b => b <> []) v /\
      (c = [] \/ n <= zlen (concat v)) /\ q' = mkQueue c (marks q) /\ o = OChunks v
  | CReadCRLFLine _ =>
      let r := crlf_line (content q) in q' = q_drop q (zlen (default [] r)) /\ o = OLine r
  | CReadLFLine _ =>
      let r := lf_line (content q) in q' = q_drop q (zlen (default [] r)) /\ o = OLine r
  | CReadLine _ =>
      let r := crlf_line (content q) in q' = q_drop q (zlen (default [] r)) /\
        o = OLine ((fun l => rev (strip_eol (rev l))) <$> r)
  | CSize _ => q' = q /\ o = OInt (zlen (content q))
  | CMarkerSet _ => q' = mkQueue (content q) (marks q ++ [content q]) /\ o = ONone
  | CMarkerRestore _ => exists ms m, marks q = ms ++ [m] /\ q' = mkQueue m ms /\ o = ONone
  | CMarkerClear _ => exists ms m, marks q = ms ++ [m] /\ q' = mkQueue (content q) ms /\ o = ONone
  | _ => False
  end.

(** And for the calls on two queues. *)
Definition pair_step (c : call) (a b a' b' : queue) (o : output) : Prop :=
  match c with
  | CAppendStream _ _ n =>
      let x := prefix_of n (content b) in
      a' = q_append a x /\ b' = q_drop b (zlen x) /\ o = ONone
  | CAppendStreamNonDestructive _ _ n =>
      a' = q_append a (prefix_of n (content b)) /\ b' = b /\ o = ONone
  | CEquals _ _ => a' = a /\ b' = b /\ o = OBool (bool_decide (content a = content b))
  | _ => False
  end.

Definition spec_step (A : list queue) (c : call) (A' : list queue) (o : output) : Prop :=
  match c with
  | CNew _ => A' = A ++ [mkQueue [] []] /\ o = ONone
  | CAppendStream i j _ | CAppendStreamNonDestructive i j _ | CEquals i j =>
      exists a b a' b', A !! i = Some a /\ A !! j = Some b /\ pair_step c a b a' b' o /\
        A' = <[j := b']> (<[i := a']> A)
  | CClear i | CWrite i _ | CAppendRaw i _ _ | CScratch i _ | CRead i _ | CReadString i _
  | CPeek i _ | CSkip i _ | CReadNext i | CReadForWritev i _ | CReadCRLFLine i
  | CReadLFLine i | CReadLine i | CSize i | CMarkerSet i | CMarkerRestore i | CMarkerClear i =>
      exists q q', A !! i = Some q /\ queue_step c q q' o /\ A' = <[i := q']> A
  end.

Fixpoint spec_run (A : list queue) (l : list call) (A' : list queue) (os : list output) : Prop :=
  match l, os with
  | [], [] => A' = A
  | c :: l, o :: os => exists A1, spec_step A c A1 o /\ spec_run A1 l A' os
  | _, _ => False
  end.

(** Whatever the specification answers, the next call is allowed. *)
Fixpoint allowed_all (A : list queue) (l : list call) : Prop :=
  match l with
  | [] => True
  | c :: l => allowed A c /\ forall A' o, spec_step A c A' o -> allowed_all A' l
  end.

(** ** The invariant of a world *)

Definition tot (ss : list MemoryStream) (a : addr) : Z :=
  foldr (fun s n => occ a (live (blocks_ s)) + n) 0 ss.

Definition represents (h : heap) (s : MemoryStream) (q : queue) : Prop :=
  Rep h s (content q) (marks q).

Definition WInv (w : world) (A : list queue) : Prop :=
  heap_ok (wheap w) (tot (streams w)) /\ Forall2 (represents (wheap w)) (streams w) A.

Lemma tot_insert ss i s s' a : ss !! i = Some s ->
  tot (<[i := s']> ss) a = tot ss a - occ a (live (blocks_ s)) + occ a (live (blocks_ s')).
Proof.
  revert i. induction ss as [|x ss IH]; intros [|i] H; simpl in *; [done..| |].
  - injection H as ->. lia.
  - rewrite (IH i) by done. lia.
Qed.

Lemma tot_lookup ss i s a : ss !! i = Some s -> occ a (live (blocks_ s)) <= tot ss a.
Proof.
  revert i. induction ss as [|x ss IH]; intros [|i] H; simpl in *; [done..| |].
  - injection H as ->. assert (forall l, 0 <= tot l a); [|specialize (H ss); lia].
    intros l. induction l as [|y l IHl]; simpl; [lia|]. pose proof (occ_nonneg a (live (blocks_ y))). lia.
  - specialize (IH i H). pose proof (occ_nonneg a (live (blocks_ x))). lia.
Qed.

(** The references of everybody but [s]. *)
Definition rest (ss : list MemoryStream) (s : MemoryStream) (a : addr) : Z :=
  tot ss a - occ a (live (blocks_ s)).

Lemma WInv_focus w A i q : WInv w A -> A !! i = Some q ->
  exists s, streams w !! i = Some s /\
    Inv (rest (streams w) s) (wheap w) s (content q) (marks q).
Proof.
  intros [Hh HR] Hq. destruct (Forall2_lookup_r _ _ _ _ _ HR Hq) as (s & Hs & Hrep).
  exists s. split; [done|]. apply Inv_Rep. split_and!; [|intros a|done].
  - eapply heap_ok_ext; [|exact Hh]. intros a. unfold hold, rest. lia.
  - unfold rest. pose proof (tot_lookup _ _ _ a Hs). lia.
Qed.

Lemma rest_other ss i j s s' a : ss !! i = Some s -> ss !! j = Some s' -> i <> j ->
  a ∈ live (blocks_ s') -> 0 < rest ss s a.
Proof.
  intros Hi Hj Hij Ha. apply occ_pos in Ha.
  pose proof (tot_insert ss i s (with_blocks s BlockDqueue_new) a Hi) as Ht. simpl in Ht.
  assert (Hj' : <[i := with_blocks s BlockDqueue_new]> ss !! j = Some s') by (by rewrite list_lookup_insert_ne).
  pose proof (tot_lookup _ _ _ a Hj'). unfold rest. lia.
Qed.

Lemma WInv_update w A i s h' s' c' ms' :
  WInv w A -> streams w !! i = Some s ->
  Inv (rest (streams w) s) h' s' c' ms' -> keeps (rest (streams w) s) (wheap w) h' ->
  WInv (mkWorld h' (<[i := s']> (streams w))) (<[i := mkQueue c' ms']> A).
Proof.
  intros [Hh HR] Hi HI Hk. apply Inv_Rep in HI as (Hh' & _ & HR'). split; simpl.
  - eapply heap_ok_ext; [|exact Hh']. intros a. rewrite (tot_insert _ _ s) by done.
    unfold hold, rest. lia.
  - apply Forall2_same_length_lookup. apply Forall2_same_length_lookup in HR as [Hlen HR].
    split; [by rewrite !length_insert|]. intros j x y Hx Hy.
    destruct (decide (j = i)) as [->|Hne].
    + rewrite list_lookup_insert_eq in Hx by (by eapply lookup_lt_Some). injection Hx as <-.
      rewrite list_lookup_insert_eq in Hy by (rewrite <- Hlen; by eapply lookup_lt_Some).
      by injection Hy as <-.
    + rewrite list_lookup_insert_ne in Hx by done. rewrite list_lookup_insert_ne in Hy by done.
      eapply Rep_frame; [by eapply HR|]. intros a b Ha. apply Hk.
      eapply rest_other; [exact Hi|exact Hx|done|done].
Qed.

Lemma on_stream_spec w A i q f (P : bytes -> list bytes -> output -> Prop) :
  WInv w A -> A !! i = Some q ->
  (forall O h s, Inv O h s (content q) (marks q) ->
     exists h' s' r, f h s = Some (h', s', r) /\
       exists c' ms', P c' ms' r /\ Inv O h' s' c' ms' /\ keeps O h h') ->
  exists w' r, on_stream w i f = Some (w', r) /\
    exists c' ms', P c' ms' r /\ WInv w' (<[i := mkQueue c' ms']> A).
Proof.
  intros HW Hq Hf. destruct (WInv_focus _ _ _ _ HW Hq) as (s & Hs & HI).
  destruct (Hf _ _ _ HI) as (h' & s' & r & Heq & c' & ms' & HP & HI' & Hk).
  unfold on_stream. rewrite Hs. cbn [mbind option_bind]. rewrite Heq. cbn [mbind option_bind].
  eexists _, _; split; [done|]. exists c', ms'. split; [done|]. by eapply WInv_update.
Qed.

(** ** Calls on one stream *)

Lemma find_chars_len fin prev c : zlen (default [] (find_chars fin prev Byte.x00 c)) <= zlen c.
Proof.
  destruct (find_chars fin prev Byte.x00 c) as [s|] eqn:E; simpl; [|apply zlen_nonneg].
  destruct (find_chars_prefix _ _ _ _ _ E) as (c' & ->). rewrite zlen_app.
  pose proof (zlen_nonneg c'). lia.
Qed.

Lemma use_scratch_spec O h s c ms x : Inv O h s c ms ->
  exists h' s' n, use_scratch h s x = Some (h', s', OInt n) /\
    0 <= n <= zlen x /\ (x <> [] -> 0 < n) /\
    Inv O h' s' (c ++ takeZ n x) ((fun m => m ++ takeZ n x) <$> ms) /\ keeps O h h'.
Proof.
  intros HI. destruct (GetScratchSpace_spec _ _ _ _ _ HI) as (h1 & s1 & a & off & n & Hg & Hn & Hw).
  unfold use_scratch. rewrite Hg. cbn [mbind option_bind].
  destruct (Hw (takeZ n x)) as (h2 & h3 & s3 & -> & Hc & HI3 & Hk); [rewrite zlen_takeZ; lia|].
  cbn [mbind option_bind]. rewrite Hc. cbn [mbind option_bind].
  pose proof (zlen_nonneg x).
  assert (E : takeZ (zlen (takeZ n x)) x = takeZ n x).
  { rewrite zlen_takeZ by lia. destruct (Z.min_spec n (zlen x)) as [[_ ->]|[? ->]]; [done|].
    by rewrite !takeZ_all by lia. }
  eexists _, _, _; split; [done|]. rewrite E. rewrite zlen_takeZ in * by lia.
  split; [lia|]. split; [|done]. intros Hx. apply zlen_pos_cons in Hx. lia.
Qed.

(** A call on one stream, given what it does to the stream. *)
Lemma stream_call w A c i q f :
  WInv w A -> A !! i = Some q -> run w c = on_stream w i f ->
  (forall q' o, queue_step c q q' o -> spec_step A c (<[i := q']> A) o) ->
  (forall O h s, Inv O h s (content q) (marks q) ->
     exists h' s' r q', f h s = Some (h', s', r) /\ queue_step c q q' r /\
       Inv O h' s' (content q') (marks q') /\ keeps O h h') ->
  exists w' o A', run w c = Some (w', o) /\ spec_step A c A' o /\ WInv w' A'.
Proof.
  intros HW Hq Hrun Hspec Hf.
  destruct (on_stream_spec w A i q f (fun c' ms' r => queue_step c q (mkQueue c' ms') r) HW Hq)
    as (w' & r & Heq & c' & ms' & Hstep & HW').
  - intros O h s HI. destruct (Hf O h s HI) as (h' & s' & r & [c' ms'] & Heq & Hstep & HI' & Hk).
    exists h', s', r. split; [done|]. by exists c', ms'.
  - exists w', r, (<[i := mkQueue c' ms']> A). rewrite Hrun. split_and!; [done|by apply Hspec|done].
Qed.

Ltac stream_call i q Hq :=
  eapply (stream_call _ _ _ i q);
  [eassumption|exact Hq|reflexivity|intros ? ? ?; eexists _, _; split_and!; [exact Hq|eassumption|done]|].

Lemma write_call w A c i q :
  WInv w A -> A !! i = Some q -> allowed A c ->
  (match c with
   | CWrite j _ | CAppendRaw j _ _ | CScratch j _ => j = i | _ => False end) ->
  exists w' o A', run w c = Some (w', o) /\ spec_step A c A' o /\ WInv w' A'.
Proof.
  intros HW Hq Hal Hc. destruct c; try done; subst i0; stream_call i q Hq; intros O h s HI.
  - destruct Hal as (_ & _ & H31).
    destruct (Write_spec _ _ _ _ _ buffer HI H31) as (h' & s' & -> & HI' & Hk).
    exists h', s', ONone, (q_append q buffer). by split_and!.
  - destruct Hal as (_ & _ & Hx). assert (Hne : data <> []) by (intros ->; by destruct Hx as [Hx _]).
    destruct (AppendRaw_spec _ _ _ _ _ data disposer HI Hne (proj2 Hx)) as (h' & s' & -> & HI' & Hk).
    exists h', s', ONone, (q_append q data). by split_and!.
  - destruct (use_scratch_spec _ _ _ _ _ buffer HI) as (h' & s' & n & -> & Hn & Hp & HI' & Hk).
    exists h', s', (OInt n), (q_append q (takeZ n buffer)). split_and!; [done| |done..].
    by exists n.
Qed.

Lemma prefix_of_drop n (c : bytes) : dropZ n c = dropZ (zlen (takeZ n c)) c.
Proof.
  destruct (Z.le_gt_cases n 0); [by rewrite takeZ_neg, !dropZ_neg by (done || lia)|].
  rewrite zlen_takeZ by lia. destruct (Z.min_spec n (zlen c)) as [[_ ->]|[? ->]]; [done|].
  by rewrite !dropZ_all by lia.
Qed.

Lemma ReadString_spec O h s c ms n : Inv O h s c ms -> zlen c < 2 ^ 31 -> n < 2 ^ 31 ->
  let b := prefix_of n c in
  exists h' s', ReadString h s n = Some (h', s', b) /\ Inv O h' s' (dropZ (zlen b) c) ms /\
    keeps O h h'.
Proof.
  intros HI Hc Hn b. unfold ReadString, Read. rewrite (Inv_size _ _ _ _ _ HI).
  pose proof (zlen_nonneg c).
  destruct (ReadInternal_spec _ _ _ _ _ (if n <? 0 then zlen c else n) true HI)
    as (h' & s' & Hr & HI' & Hk); [destruct (Z.ltb_spec n 0); lia|].
  assert (E : takeZ (if n <? 0 then zlen c else n) c = b).
  { unfold b, prefix_of. destruct (Z.ltb_spec n 0), (Z.leb_spec 0 n); try lia; [|done].
    by apply takeZ_all. }
  rewrite prefix_of_drop, E in HI'. rewrite E in Hr. by exists h', s'.
Qed.

Lemma allowed_content A c i q : allowed A c -> A !! i = Some q -> zlen (content q) < 2 ^ 31.
Proof. intros [HA _] Hq. by destruct (Forall_lookup_1 _ _ _ _ HA Hq). Qed.

Lemma allowed_mark A c i q m : allowed A c -> A !! i = Some q -> m ∈ marks q -> zlen m < 2 ^ 31.
Proof.
  intros [HA _] Hq Hm. destruct (Forall_lookup_1 _ _ _ _ HA Hq) as [_ H].
  rewrite List.Forall_forall in H. by apply H, list_elem_of_In.
Qed.

Lemma read_call w A c i q :
  WInv w A -> A !! i = Some q -> allowed A c ->
  (match c with
   | CRead j _ | CReadString j _ | CPeek j _ | CSkip j _ | CReadNext j | CReadForWritev j _
   | CSize j => j = i | _ => False end) ->
  exists w' o A', run w c = Some (w', o) /\ spec_step A c A' o /\ WInv w' A'.
Proof.
  intros HW Hq Hal Hc. destruct c; try done; subst i0; stream_call i q Hq; intros O h s HI.
  - destruct (ReadInternal_spec _ _ _ _ _ len true HI (proj2 (proj2 Hal))) as (h' & s' & Hr & HI' & Hk).
    exists h', s', (OBytes (takeZ len (content q))), (q_drop q len). unfold Read. rewrite Hr.
    by split_and!.
  - destruct (ReadString_spec _ _ _ _ _ len HI (allowed_content _ _ _ _ Hal Hq) (proj2 (proj2 Hal))) as (h' & s' & -> & HI' & Hk).
    eexists h', s', _, (q_drop q _). split_and!; [done|split; reflexivity|done|done].
  - exists h, s, (OBytes (takeZ len (content q))), q. rewrite (Peek_spec _ _ _ _ _ len HI (proj2 (proj2 Hal))).
    split_and!; [done..|apply keeps_refl].
  - destruct Hal as (_ & _ & Hlen).
    destruct (Skip_spec _ _ _ _ _ len HI Hlen) as (h' & s' & -> & HI' & Hk).
    eexists h', s', _, (q_drop q len). split_and!; [done|split; reflexivity|done|done].
  - destruct (ReadNext_spec _ _ _ _ _ HI) as (h' & s' & r & -> & Hk & H). destruct r as [b|].
    + destruct H as (Hne & c' & Hc' & HI').
      eexists h', s', _, (mkQueue c' (marks q)). split_and!; [done| |done|done]. right.
      by exists b, c'.
    + destruct H as [Hc' HI']. exists h', s', (OLine None), q. split_and!; [done|by left|done|done].
  - destruct (ReadForWritev_spec _ _ _ _ _ max_size HI) as (h' & s' & v & c' & -> & Hk & Hc' & Hv & HI' & Hd).
    exists h', s', (OChunks v), (mkQueue c' (marks q)). split_and!; [done| |done|done].
    by exists v, c'.
  - exists h, s, (OInt (Size s)), q. split_and!; [done| |done|apply keeps_refl].
    split; [done|]. unfold Size. by rewrite (Inv_size _ _ _ _ _ HI).
Qed.

Lemma line_call w A c i q :
  WInv w A -> A !! i = Some q ->
  (match c with CReadCRLFLine j | CReadLFLine j | CReadLine j => j = i | _ => False end) ->
  exists w' o A', run w c = Some (w', o) /\ spec_step A c A' o /\ WInv w' A'.
Proof.
  intros HW Hq Hc. destruct c; try done; subst i0; stream_call i q Hq; intros O h s HI.
  - destruct (ReadCRLFLine_spec _ _ _ _ _ HI) as (s' & Hr & HI'). rewrite Hr.
    eexists h, s', _, (q_drop q _). split_and!; [done|split; reflexivity|done|apply keeps_refl].
  - destruct (ReadLFLine_spec _ _ _ _ _ HI) as (s' & Hr & HI'). rewrite Hr.
    eexists h, s', _, (q_drop q _). split_and!; [done|split; reflexivity|done|apply keeps_refl].
  - destruct (ReadCRLFLine_spec _ _ _ _ _ HI) as (s' & Hr & HI'). unfold ReadLine. rewrite Hr.
    unfold crlf_line in *. cbn [mbind option_bind].
    exists h, s', (OLine ((fun l => rev (strip_eol (rev l))) <$> crlf_line (content q))),
      (q_drop q (zlen (default [] (crlf_line (content q))))).
    split_and!; [|done|done|apply keeps_refl].
    unfold crlf_line, LF, CR. by destruct (find_chars _ _ _ _).
Qed.

Lemma marks_snoc q : marks q <> [] -> exists ms m, marks q = ms ++ [m].
Proof. destruct (marks q) as [|m ms _] using rev_ind; [done|]. intros _. by exists ms, m. Qed.

Lemma marker_call w A c i :
  WInv w A -> allowed A c ->
  (match c with
   | CMarkerSet j | CMarkerRestore j | CMarkerClear j | CClear j => j = i | _ => False end) ->
  exists w' o A', run w c = Some (w', o) /\ spec_step A c A' o /\ WInv w' A'.
Proof.
  intros HW Hal0 Hc. pose proof (proj2 Hal0) as Hal. destruct c; try done; subst i0; simpl in Hal.
  - destruct Hal as (x & Hq). stream_call i (mkQueue x []) Hq. intros O h s HI. simpl in HI.
    destruct (Clear_spec _ _ _ _ HI) as (h' & s' & -> & HI' & Hk & _).
    exists h', s', ONone, (mkQueue [] []). by split_and!.
  - destruct Hal as (q & Hq). stream_call i q Hq. intros O h s HI.
    exists h, (MarkerSet s), ONone, (mkQueue (content q) (marks q ++ [content q])).
    split_and!; [done..|by apply MarkerSet_spec|apply keeps_refl].
  - destruct Hal as (q & Hq & Hm). destruct (marks_snoc _ Hm) as (ms & m & Em).
    stream_call i q Hq. intros O h s HI. rewrite Em in HI.
    assert (H31 : zlen m < 2 ^ 31).
    { eapply allowed_mark; [exact Hal0|exact Hq|]. rewrite Em. apply elem_of_app. right. by left. }
    destruct (MarkerRestore_spec _ _ _ _ _ _ HI H31) as (s' & -> & HI').
    exists h, s', ONone, (mkQueue m ms). split_and!; [done| |done|apply keeps_refl]. by exists ms, m.
  - destruct Hal as (q & Hq & Hm). destruct (marks_snoc _ Hm) as (ms & m & Em).
    stream_call i q Hq. intros O h s HI. rewrite Em in HI.
    destruct (MarkerClear_spec _ _ _ _ _ _ HI) as (h' & s' & -> & HI' & Hk).
    exists h', s', ONone, (mkQueue (content q) ms). split_and!; [done| |done|done]. by exists ms, m.
Qed.

Lemma new_call w A bs : WInv w A -> 0 < bs < 2 ^ 31 ->
  exists w' o A', run w (CNew bs) = Some (w', o) /\ spec_step A (CNew bs) A' o /\ WInv w' A'.
Proof.
  intros [Hh HR] Hbs. unfold run, MemoryStream_new.
  destruct (Z.ltb_spec 0 bs); [|lia]. eexists _, _, _; split; [done|]. split; [done|].
  split; simpl.
  - eapply heap_ok_ext; [|exact Hh]. intros a. unfold tot. rewrite foldr_app. done.
  - apply Forall2_app; [done|]. constructor; [|done].
    apply (RepC_empty _ (mkMemoryStream bs BlockDqueue_new null_pointer null_pointer null_pointer [] false 0));
      done.
Qed.

(** ** Calls on two streams *)

Definition Inv2 (O : addr -> Z) (h : heap) (a b : MemoryStream) (qa qb : queue) : Prop :=
  Inv (hold O (blocks_ b)) h a (content qa) (marks qa) /\
  Inv (hold O (blocks_ a)) h b (content qb) (marks qb).

Lemma Inv_ext (O O' : addr -> Z) h s c ms : (forall a, O a = O' a) -> Inv O h s c ms -> Inv O' h s c ms.
Proof.
  rewrite !Inv_Rep. intros HO (Hh & Hp & HR). split_and!; [|intros a; by rewrite <- HO|done].
  eapply heap_ok_ext; [|exact Hh]. intros a. unfold hold. by rewrite HO.
Qed.

Lemma Inv2_sym O h a b qa qb : Inv2 O h a b qa qb -> Inv2 O h b a qb qa.
Proof. by intros [? ?]. Qed.

(** What one of the two does, the other does not notice. *)
Lemma Inv2_left O h a b qa qb h' a' c' m' :
  Inv2 O h a b qa qb -> Inv (hold O (blocks_ b)) h' a' c' m' ->
  keeps (hold O (blocks_ b)) h h' -> (forall x, 0 <= O x) ->
  Inv2 O h' a' b (mkQueue c' m') qb /\ keeps O h h'.
Proof.
  intros [_ Hb] Ha' Hk HO. split; [split; [done|]|by eapply keeps_others].
  apply Inv_Rep in Hb as (_ & _ & HR). apply Inv_Rep in Ha' as (Hh' & _ & _).
  apply Inv_Rep. split_and!.
  - eapply heap_ok_ext; [|exact Hh']. intros x. unfold hold. lia.
  - intros x. unfold hold. specialize (HO x). pose proof (occ_nonneg x (live (blocks_ a'))). lia.
  - eapply Rep_frame; [done|]. by eapply keeps_live.
Qed.

(** The references of everybody but the streams at [i] and [j]. *)
Lemma tot_two ss i j s t x : ss !! i = Some s -> ss !! j = Some t -> i <> j ->
  let e := with_blocks s BlockDqueue_new in
  tot (<[j := e]> (<[i := e]> ss)) x =
    tot ss x - occ x (live (blocks_ s)) - occ x (live (blocks_ t)).
Proof.
  intros Hs Ht Hij e. rewrite (tot_insert _ _ t) by (by rewrite list_lookup_insert_ne).
  rewrite (tot_insert _ _ s) by done. simpl. lia.
Qed.

Lemma tot_nonneg ss x : 0 <= tot ss x.
Proof. induction ss as [|y ss IH]; simpl; [lia|]. pose proof (occ_nonneg x (live (blocks_ y))). lia. Qed.

Lemma pair_others w A i j a b s t h' s' t' a' b' O :
  WInv w A -> streams w !! i = Some s -> streams w !! j = Some t -> i <> j ->
  A !! i = Some a -> A !! j = Some b ->
  (forall x, O x = tot (streams w) x - occ x (live (blocks_ s)) - occ x (live (blocks_ t))) ->
  Inv2 O h' s' t' a' b' -> keeps O (wheap w) h' ->
  WInv (mkWorld h' (<[j := t']> (<[i := s']> (streams w)))) (<[j := b']> (<[i := a']> A)).
Proof.
  intros [Hh HR] Hs Ht Hij Ha Hb HO [HIs' HIt'] Hk.
  apply Inv_Rep in HIs' as (Hh' & _ & HRs). apply Inv_Rep in HIt' as (_ & _ & HRt).
  assert (Ht2 : <[i := s']> (streams w) !! j = Some t) by (by rewrite list_lookup_insert_ne).
  split; simpl.
  - eapply heap_ok_ext; [|exact Hh']. intros x. rewrite (tot_insert _ _ t), (tot_insert _ _ s) by done.
    unfold hold. rewrite HO. lia.
  - apply Forall2_same_length_lookup. apply Forall2_same_length_lookup in HR as [Hlen HR].
    split; [by rewrite !length_insert|]. intros k u y Hu Hy.
    destruct (decide (k = j)) as [->|Hkj].
    { rewrite list_lookup_insert_eq in Hu by (eapply lookup_lt_Some; exact Ht2).
      rewrite list_lookup_insert_eq in Hy by (rewrite length_insert; by eapply lookup_lt_Some).
      by simplify_eq. }
    rewrite list_lookup_insert_ne in Hu by done. rewrite list_lookup_insert_ne in Hy by done.
    destruct (decide (k = i)) as [->|Hki].
    { rewrite list_lookup_insert_eq in Hu by (by eapply lookup_lt_Some).
      rewrite list_lookup_insert_eq in Hy by (by eapply lookup_lt_Some). by simplify_eq. }
    rewrite list_lookup_insert_ne in Hu by done. rewrite list_lookup_insert_ne in Hy by done.
    eapply Rep_frame; [by eapply HR|]. intros x b0 Hx. apply Hk. rewrite HO.
    rewrite <- (tot_two _ i j) by done. apply occ_pos in Hx. eapply Z.lt_le_trans; [exact Hx|].
    apply (tot_lookup _ k). by rewrite !list_lookup_insert_ne.
Qed.

Lemma pair_call w A c i j a b f :
  WInv w A -> A !! i = Some a -> A !! j = Some b -> i <> j -> run w c = on_streams w i j f ->
  (forall a' b' o, pair_step c a b a' b' o -> spec_step A c (<[j := b']> (<[i := a']> A)) o) ->
  (forall O h s t, (forall x, 0 <= O x) -> Inv2 O h s t a b ->
     exists h' s' t' r a' b', f h s t = Some (h', s', t', r) /\ pair_step c a b a' b' r /\
       Inv2 O h' s' t' a' b' /\ keeps O h h') ->
  exists w' o A', run w c = Some (w', o) /\ spec_step A c A' o /\ WInv w' A'.
Proof.
  intros HW Ha Hb Hij Hrun Hspec Hf.
  destruct (WInv_focus _ _ _ _ HW Ha) as (s & Hs & HIs).
  destruct (WInv_focus _ _ _ _ HW Hb) as (t & Ht & HIt).
  set (O := fun x => tot (streams w) x - occ x (live (blocks_ s)) - occ x (live (blocks_ t))).
  assert (HO : forall x, 0 <= O x).
  { intros x. unfold O. rewrite <- (tot_two _ i j) by done. apply tot_nonneg. }
  assert (HI2 : Inv2 O (wheap w) s t a b).
  { split; [revert HIs|revert HIt]; apply Inv_ext; intros x; unfold hold, O, rest; lia. }
  destruct (Hf O (wheap w) s t HO HI2) as (h' & s' & t' & r & a' & b' & Heq & Hstep & HI' & Hk).
  eexists _, r, _. split_and!; [|by apply Hspec|].
  - rewrite Hrun. unfold on_streams. rewrite Hs, Ht. cbn [mbind option_bind]. by rewrite Heq.
  - by eapply pair_others.
Qed.

Lemma hold_other O (b : MemoryStream) : (forall x, 0 <= O x) -> forall x, x ∈ live (blocks_ b) -> 0 < hold O (blocks_ b) x.
Proof. intros HO x Hx. apply occ_pos in Hx. unfold hold. specialize (HO x). lia. Qed.

(** *** AppendStream *)

Lemma AppendND_spec2 O h s t a b n :
  (forall x, 0 <= O x) -> Inv2 O h s t a b -> zlen (content b) < 2 ^ 31 ->
  exists h' s', AppendStreamNonDestructive h s t n = Some (h', s') /\
    Inv2 O h' s' t (q_append a (prefix_of n (content b))) b /\ keeps O h h'.
Proof.
  intros HO HI2 H31. pose proof HI2 as [HIs HIt].
  destruct (AppendStreamNonDestructive_spec _ _ _ _ _ _ _ _ _ n HIs HIt (hold_other _ t HO) H31)
    as (h' & s' & Heq & HI' & Hk).
  exists h', s'. split; [done|]. by eapply Inv2_left.
Qed.

Lemma AppendStream_spec2 O h s t a b n :
  (forall x, 0 <= O x) -> Inv2 O h s t a b -> zlen (content b) < 2 ^ 31 ->
  let x := prefix_of n (content b) in
  exists h' s' t', AppendStream h s t n = Some (h', s', t') /\
    Inv2 O h' s' t' (q_append a x) (q_drop b (zlen x)) /\ keeps O h h'.
Proof.
  intros HO HI2 H31 x. destruct (AppendND_spec2 O h s t a b n HO HI2 H31) as (h1 & s1 & Heq & HI1 & Hk1).
  unfold AppendStream. rewrite Heq. cbn [mbind option_bind].
  pose proof HI1 as [_ HIt]. unfold Size. rewrite (Inv_size _ _ _ _ _ HIt).
  assert (Hskip : exists h' t', 
    (if (0 <=? n) && (n <? zlen (content b)) then Skip h1 t n else Skip h1 t (zlen (content b))) =
      Some (h', t', zlen x) /\
    Inv (hold O (blocks_ s1)) h' t' (dropZ (zlen x) (content b)) (marks b) /\
    keeps (hold O (blocks_ s1)) h1 h').
  { unfold x, prefix_of. pose proof (zlen_nonneg (content b)).
    destruct (Z.leb_spec 0 n); cbn [andb].
    - destruct (Z.ltb_spec n (zlen (content b))).
      + destruct (Skip_spec _ _ _ _ _ n HIt ltac:(lia)) as (h' & t' & Hsk & HI' & Hk).
        rewrite prefix_of_drop in HI'. by exists h', t'.
      + destruct (Skip_spec _ _ _ _ _ (zlen (content b)) HIt ltac:(lia)) as (h' & t' & Hsk & HI' & Hk).
        rewrite (takeZ_all n) by lia. rewrite takeZ_all in Hsk by lia. by exists h', t'.
    - destruct (Skip_spec _ _ _ _ _ (zlen (content b)) HIt ltac:(lia)) as (h' & t' & Hsk & HI' & Hk).
      rewrite takeZ_all in Hsk by lia. by exists h', t'. }
  destruct Hskip as (h2 & t2 & -> & HI2' & Hk2). cbn [mbind option_bind].
  destruct (Inv2_left _ _ _ _ _ _ _ _ _ _ (Inv2_sym _ _ _ _ _ _ HI1) HI2' Hk2 HO) as [HI3 Hk3].
  exists h2, s1, t2. split; [done|]. split; [by apply Inv2_sym|by etrans].
Qed.

(** *** Equals *)

Lemma Inv2_read O h s t a b n :
  (forall x, 0 <= O x) -> Inv2 O h s t a b -> 0 <= n < 2 ^ 31 ->
  exists h' s', Read h s n = Some (h', s', takeZ n (content a)) /\
    Inv2 O h' s' t (q_drop a n) b /\ keeps O h h'.
Proof.
  intros HO HI2 Hn. pose proof HI2 as [HIs _].
  destruct (ReadInternal_spec _ _ _ _ _ n true HIs Hn) as (h' & s' & Heq & HI' & Hk).
  exists h', s'. split; [done|]. by eapply Inv2_left.
Qed.

(** A read shorter than asked for has emptied the stream. *)
Lemma read_check O h s c ms n (d : bytes) : 0 <= n -> Inv O h s (dropZ n d) ms -> c = takeZ n d ->
  (zlen c =? n) || IsEmpty s = true.
Proof.
  intros Hn HI ->. unfold IsEmpty. rewrite (Inv_size _ _ _ _ _ HI), zlen_dropZ, zlen_takeZ by lia.
  destruct (Z.eqb_spec (Z.min n (zlen d)) n); [done|]. apply Z.leb_le. lia.
Qed.

Lemma bytes_eq_split n (a b : bytes) : takeZ n a = takeZ n b -> dropZ n a = dropZ n b <-> a = b.
Proof.
  intros Ht. split; [|by intros ->]. intros Hd.
  by rewrite <- (takeZ_dropZ n a), <- (takeZ_dropZ n b), Ht, Hd.
Qed.

Lemma Equals_loop O h s t a b :
  (forall x, 0 <= O x) -> Inv2 O h s t a b ->
  exists r, loop Equals_step (S (S (Z.to_nat (zlen (content a))))) (h, s, t) = Some r /\
    let '(h', s', t', res) := r in
    res = bool_decide (content a = content b) /\ keeps O h h' /\
    exists ca cb, Inv2 O h' s' t' (mkQueue ca (marks a)) (mkQueue cb (marks b)).
Proof.
  intros HO HI2.
  apply (loop_total_ix Equals_step (fun n '(h1, s1, t1) => keeps O h h1 /\
    exists ca cb, Inv2 O h1 s1 t1 (mkQueue ca (marks a)) (mkQueue cb (marks b)) /\
      (ca = cb <-> content a = content b) /\ n = S (Z.to_nat (zlen ca)))) with (n := S (Z.to_nat (zlen (content a)))).
  - intros n [[h1 s1] t1] (Hk & ca & cb & HI & Hiff & ->). unfold Equals_step.
    destruct (Inv2_read O h1 s1 t1 _ _ 128 HO HI ltac:(lia)) as (h2 & s2 & -> & HI1 & Hk1).
    cbn [mbind option_bind content]. pose proof (proj1 HI1) as HIs.
    rewrite (read_check _ _ _ _ _ 128 ca ltac:(lia) HIs eq_refl). cbn [CHECK].
    destruct (Inv2_read O h2 t1 s2 _ _ 128 HO (Inv2_sym _ _ _ _ _ _ HI1) ltac:(lia)) as (h3 & t3 & -> & HI3 & Hk3).
    cbn [mbind option_bind content]. pose proof (proj1 HI3) as HIt.
    rewrite (read_check _ _ _ _ _ 128 cb ltac:(lia) HIt eq_refl). cbn [CHECK].
    apply Inv2_sym in HI3. assert (Hk' : keeps O h h3) by (etrans; [exact Hk|]; by etrans).
    destruct (Z.eqb_spec (zlen (takeZ 128 ca)) (zlen (takeZ 128 cb))) as [El|El]; cbn [negb orb].
    2: { eexists; split; [done|]. cbn beta iota. split_and!; [|done|by eexists _, _].
         symmetry. apply bool_decide_eq_false. rewrite <- Hiff. intros ->. done. }
    destruct (bool_decide (takeZ 128 ca = takeZ 128 cb)) eqn:Eb; cbn [negb orb]; bool_prop.
    2: { eexists; split; [done|]. cbn beta iota. split_and!; [|done|by eexists _, _].
         symmetry. apply bool_decide_eq_false. rewrite <- Hiff. intros ->. done. }
    destruct (Z.eqb_spec (zlen (takeZ 128 ca)) 0) as [Ez|Ez].
    + eexists; split; [done|]. cbn beta iota. split_and!; [|done|by eexists _, _].
      symmetry. apply bool_decide_eq_true. apply Hiff. rewrite <- (bytes_eq_split 128 _ _ Eb).
      rewrite !zlen_takeZ in El by lia. rewrite zlen_takeZ in Ez by lia.
      pose proof (zlen_nonneg ca). pose proof (zlen_nonneg cb). by rewrite !dropZ_all by lia.
    + eexists; split; [done|]. rewrite zlen_takeZ in Ez by lia.
      exists (S (Z.to_nat (zlen (dropZ 128 ca)))). split.
      * split; [done|]. eexists _, _. split; [exact HI3|]. split; [|done].
        by rewrite (bytes_eq_split 128 _ _ Eb).
      * pose proof (zlen_nonneg ca). rewrite zlen_dropZ by lia. lia.
  - split; [apply keeps_refl|]. exists (content a), (content b). destruct a, b. by split_and!.
  - lia.
Qed.

Lemma Equals_spec O h s t a b :
  (forall x, 0 <= O x) -> Inv2 O h s t a b ->
  zlen (content a) < 2 ^ 31 -> zlen (content b) < 2 ^ 31 ->
  exists h' s' t', Equals h s t = Some (h', s', t', bool_decide (content a = content b)) /\
    Inv2 O h' s' t' a b /\ keeps O h h'.
Proof.
  intros HO HI2 Ha31 Hb31. pose proof HI2 as [HIs HIt]. unfold Equals, Size.
  rewrite (Inv_size _ _ _ _ _ HIs), (Inv_size _ _ _ _ _ HIt).
  destruct (Z.eqb_spec (zlen (content a)) (zlen (content b))) as [E|E]; cbn [negb].
  2: { exists h, s, t. split_and!; [|done|apply keeps_refl].
       rewrite bool_decide_eq_false_2; [done|]. congruence. }
  assert (HIm : Inv2 O h (MarkerSet s) (MarkerSet t) (mkQueue (content a) (marks a ++ [content a]))
                  (mkQueue (content b) (marks b ++ [content b]))).
  { assert (Hq : forall s, blocks_ (MarkerSet s) = blocks_ s).
    { intros s0. unfold MarkerSet. by destruct (markers_ s0). }
    split; rewrite Hq; simpl; by apply MarkerSet_spec. }
  destruct (Equals_loop O h _ _ _ _ HO HIm) as ([[[h1 s1] t1] r] & Hl & -> & Hk & ca & cb & HI1).
  simpl in Hl, HI1. rewrite Hl. cbn [mbind option_bind]. destruct HI1 as [HIs1 HIt1].
  assert (Hmr : forall s s' c ms m O', Inv O' h1 s c (ms ++ [m]) -> MarkerRestore h1 s = Some s' ->
                blocks_ s' = blocks_ s).
  { intros s0 s' c ms m O' HI0. destruct (markers_snoc _ _ _ _ _ _ HI0) as (l & sz & p & Em & _).
    unfold MarkerRestore. rewrite Em, last_snoc. cbn [mbind option_bind]. cbv zeta.
    cbn [with_read invalid_markers_size_]. destruct (invalid_markers_size_ s0).
    - rewrite MaybeInit_default. intros H. apply bind_Some in H as (s2 & H2 & [= <-]).
      apply bind_Some in H2 as (d & _ & [= <-]). done.
    - by intros [= <-]. }
  destruct (MarkerRestore_spec _ _ _ _ _ _ HIs1 Ha31) as (s2 & Hs2 & HIs2).
  destruct (MarkerRestore_spec _ _ _ _ _ _ HIt1 Hb31) as (t2 & Ht2 & HIt2).
  rewrite Hs2. cbn [mbind option_bind]. rewrite Ht2. cbn [mbind option_bind].
  exists h1, s2, t2. split; [done|]. split; [|done].
  split; [by rewrite (Hmr _ _ _ _ _ _ HIt1 Ht2)|by rewrite (Hmr _ _ _ _ _ _ HIs1 Hs2)].
Qed.

Lemma two_call w A c i j :
  WInv w A -> allowed A c -> is_Some (A !! i) -> is_Some (A !! j) -> i <> j ->
  (match c with
   | CAppendStream k l _ | CAppendStreamNonDestructive k l _ | CEquals k l => k = i /\ l = j
   | _ => False end) ->
  exists w' o A', run w c = Some (w', o) /\ spec_step A c A' o /\ WInv w' A'.
Proof.
  intros HW Hal [a Ha] [b Hb] Hij Hc.
  pose proof (allowed_content _ _ _ _ Hal Ha) as Ha31. pose proof (allowed_content _ _ _ _ Hal Hb) as Hb31.
  destruct c; try done; destruct Hc as [-> ->];
    (eapply (pair_call _ _ _ i j a b); [done..|reflexivity| |]);
    try (by intros a' b' o Hp; exists a, b, a', b'); intros O h s t HO HI2.
  - destruct (AppendStream_spec2 O h s t a b size HO HI2 Hb31) as (h' & s' & t' & -> & HI' & Hk).
    eexists h', s', t', ONone, _, _. split_and!; [done|by split_and!|done|done].
  - destruct (AppendND_spec2 O h s t a b size HO HI2 Hb31) as (h' & s' & -> & HI' & Hk).
    eexists h', s', t, ONone, _, _. split_and!; [done|by split_and!|done|done].
  - destruct (Equals_spec O h s t a b HO HI2 Ha31 Hb31) as (h' & s' & t' & -> & HI' & Hk).
    eexists h', s', t', _, _, _. split_and!; [done|by split_and!|done|done].
Qed.

(** ** Refinement *)

Lemma run_refines w A c : WInv w A -> allowed A c ->
  exists w' o A', run w c = Some (w', o) /\ spec_step A c A' o /\ WInv w' A'.
Proof.
  intros HW Hal. pose proof (proj2 Hal) as Hc. destruct c;
    try exact (marker_call _ _ _ _ HW Hal eq_refl); try exact (new_call _ _ _ HW Hc);
    try (destruct Hc as (Hi & Hj & Hij); by apply (two_call _ _ _ _ _ HW Hal Hi Hj Hij));
    (assert (Hq : is_Some (A !! i)) by (done || apply Hc)); destruct Hq as [q Hq];
    first [ exact (write_call _ _ _ _ _ HW Hq Hal eq_refl)
          | exact (read_call _ _ _ _ _ HW Hq Hal eq_refl)
          | by apply (line_call _ _ _ _ _ HW Hq) ].
Qed.

Lemma run_all_refines l : forall w A, WInv w A -> allowed_all A l ->
  exists w' os A', run_all w l = Some (w', os) /\ spec_run A l A' os /\ WInv w' A'.
Proof.
  induction l as [|c l IH]; intros w A HW Hal.
  - by exists w, [], A.
  - destruct Hal as [Hc Hl]. destruct (run_refines _ _ _ HW Hc) as (w1 & o & A1 & Hr & Hs & HW1).
    destruct (IH w1 A1 HW1 (Hl _ _ Hs)) as (w' & os & A' & Hr' & Hs' & HW').
    exists w', (o :: os), A'. simpl. rewrite Hr. simpl. rewrite Hr'. split_and!; [done| |done].
    by exists A1.
Qed.

Lemma WInv_empty fresh : WInv (empty_world fresh) [].
Proof.
  split; [|done]. constructor; simpl; try done.
  - intros a. rewrite elem_of_nil. split; [done|]. intros [? _]. lia.
  - constructor.
Qed.

(** A stream that holds given bytes, for the concrete instances below. *)
Definition heap0 : heap := mkHeap ∅ O (fun _ => Byte.x00) [].

Lemma stream_with x : zlen x < 2 ^ 31 -> exists h s, Inv (fun _ => 0) h s x [].
Proof.
  intros Hx. assert (HI : Inv (fun _ => 0) heap0
    (mkMemoryStream 4 BlockDqueue_new null_pointer null_pointer null_pointer [] false 0) [] []).
  { apply Inv_Rep. split_and!; [|done|].
    - eapply heap_ok_ext; [|apply (WInv_empty (fun _ => Byte.x00))]. done.
    - by apply (RepC_empty _ (mkMemoryStream 4 BlockDqueue_new null_pointer null_pointer null_pointer [] false 0)). }
  destruct (Write_spec _ _ _ _ _ x HI Hx) as (h & s & _ & HI' & _). by exists h, s.
Qed.

(** ** Properties *)

(** C1: every sequence of allowed calls on any number of memory streams, from an empty heap,
    runs to the end without a failed [CHECK], without touching memory outside the live blocks
    and within the loops' bounds, and its outputs are those of independent byte queues with
    marks, although the streams share blocks. Allowed are the calls that the comments of the
    class allow, with lengths, block sizes and buffers below 2^31, on streams that hold less
    than 2^31 bytes before and after the call: the sizes go through the [int] of [BlockSize],
    which is modelled, and larger ones do not come through it. (The numbers of the blocks of a
    stream are not wrapped: a stream sees less than 2^31 of them.) *)
Theorem streams_refine_queues fresh l :
  allowed_all [] l ->
  exists w os A, run_all (empty_world fresh) l = Some (w, os) /\ spec_run [] l A os /\ WInv w A.
Proof. intros H. by apply run_all_refines; [apply WInv_empty|]. Qed.

Definition demo : list call :=
  [CNew 4; CNew 3; CWrite 0 (bstr "abcdef"); CMarkerSet 0; CRead 0 2;
   CAppendStreamNonDestructive 1 0 (-1); CWrite 0 (bstr "gh"); CMarkerRestore 0; CRead 0 8;
   CEquals 0 1; CRead 1 9].

(** Computes the queues after each call of a concrete sequence. *)
Ltac fits_now :=
  repeat (apply Forall_cons_2; [reflexivity|]); apply Forall_nil_2.

Ltac allowed_now :=
  split;
  [ repeat (apply Forall_cons_2; [split; [reflexivity|cbn [marks]; fits_now]|]); apply Forall_nil_2
  | vm_compute; repeat split; try discriminate;
    first [eexists; reflexivity|eexists; split; [reflexivity|discriminate]|idtac] ].

Ltac spec_next H :=
  vm_compute in H;
  first [ destruct H as [-> ->]
        | destruct H as (? & ? & ? & ? & [= <-] & [= <-] & (-> & -> & ->) & ->)
        | destruct H as (? & ? & [= <-] & (-> & ->) & ->)
        | destruct H as (? & ? & [= <-] & (? & ? & E & -> & ->) & ->);
          apply (app_inj_tail []) in E as [<- <-] ].

Ltac allowed_steps :=
  repeat match goal with
  | |- allowed_all _ [] => exact I
  | |- allowed_all _ _ => split; [allowed_now|let H := fresh in intros ? ? H; spec_next H]
  end.

Lemma streams_refine_queues_witness :
  allowed_all [] demo /\
  exists w os A, run_all (empty_world (fun _ => Byte.x00)) demo = Some (w, os) /\
                 spec_run [] demo A os /\ WInv w A.
Proof.
  assert (H : allowed_all [] demo) by (unfold demo; allowed_steps).
  split; [exact H|]. by apply (streams_refine_queues (fun _ => Byte.x00) demo).
Defined.

(** C2: the reference counts are exact: after any sequence of allowed calls (lengths, block
    sizes and contents below 2^31, as in [streams_refine_queues]) a block is allocated exactly
    when a stream still holds it, its count is the number of places that hold it, and every
    block ever allocated and no longer held was destroyed once. *)
Theorem references_exact fresh l :
  allowed_all [] l ->
  exists w os, run_all (empty_world fresh) l = Some (w, os) /\
    (forall a, match blocks (wheap w) !! a with
               | Some b => ref_count b = tot (streams w) a /\ 0 < ref_count b
               | None => tot (streams w) a = 0
               end) /\
    NoDup (disposed (wheap w)).*1 /\
    (forall a, a ∈ (disposed (wheap w)).*1 <->
               (a < next (wheap w))%nat /\ tot (streams w) a = 0).
Proof.
  intros H. destruct (run_all_refines l _ _ (WInv_empty fresh) H) as (w & os & A & Hr & _ & [Hh _]).
  exists w, os. split_and!; [done| |apply (ho_nodup _ _ Hh)|].
  - intros a. destruct (blocks (wheap w) !! a) as [b|] eqn:E.
    + destruct (ho_block _ _ Hh a b E) as (_ & -> & ? & _). done.
    + by apply (ho_none _ _ Hh).
  - intros a. rewrite (ho_disposed _ _ Hh). split; intros [Ha Hb]; (split; [done|]).
    + by apply (ho_none _ _ Hh).
    + destruct (blocks (wheap w) !! a) as [b|] eqn:E; [|done].
      destruct (ho_block _ _ Hh a b E) as (_ & _ & ? & _). lia.
Qed.

Lemma references_exact_witness :
  allowed_all [] (demo ++ [CClear 0]) /\
  exists w os, run_all (empty_world (fun _ => Byte.x00)) (demo ++ [CClear 0]) = Some (w, os) /\
    (forall a, match blocks (wheap w) !! a with
               | Some b => ref_count b = tot (streams w) a /\ 0 < ref_count b
               | None => tot (streams w) a = 0
               end) /\
    NoDup (disposed (wheap w)).*1 /\
    (forall a, a ∈ (disposed (wheap w)).*1 <->
               (a < next (wheap w))%nat /\ tot (streams w) a = 0).
Proof.
  assert (H : allowed_all [] (demo ++ [CClear 0])) by (unfold demo; cbn [app]; allowed_steps).
  split; [exact H|]. by apply (references_exact (fun _ => Byte.x00) (demo ++ [CClear 0])).
Defined.

(** *** Lines *)

(** No CR LF in [c]. *)
Definition no_crlf (c : bytes) : Prop := forall a b, c <> a ++ CR :: LF :: b.

Lemma find_crlf_cons last x c :
  find_chars LF CR last (x :: c) =
    if bool_decide (x = LF) && bool_decide (last = CR) then Some [x]
    else (fun s => x :: s) <$> find_chars LF CR x c.
Proof. done. Qed.

(** With the last character [last] put in front, so that a line feed can complete it. *)
Lemma crlf_line_gen last c :
  match find_chars LF CR last c with
  | Some s => exists l rest, c = s ++ rest /\ last :: s = l ++ [CR; LF] /\ no_crlf (l ++ [CR])
  | None => no_crlf (last :: c)
  end.
Proof.
  revert last. induction c as [|x c IH]; intros last.
  - simpl. intros a b H. destruct a as [|? [|? ?]]; done.
  - rewrite find_crlf_cons. destruct (_ && _) eqn:E.
    + bool_prop. subst. exists [], c. split_and!; [done..|]. intros a b H.
      destruct a as [|? [|? ?]]; done.
    + specialize (IH x). assert (Hx : forall b, last :: x :: c <> CR :: LF :: b).
      { intros b [= -> -> ->]. done. }
      destruct (find_chars LF CR x c) as [s|]; simpl.
      * destruct IH as (l & rest & -> & Hs & Hn). exists (last :: l), rest.
        split_and!; [done|simpl; by rewrite Hs|]. intros a b H. destruct a as [|y a].
        -- destruct l as [|z l]; simpl in H; [done|]. by simplify_eq/=.
        -- simplify_eq/=. by eapply Hn.
      * intros a b H. destruct a as [|y a]; simplify_eq/=. by eapply IH.
Qed.

Lemma crlf_line_spec c :
  match crlf_line c with
  | Some s => exists l rest, c = l ++ CR :: LF :: rest /\ s = l ++ [CR; LF] /\ no_crlf (l ++ [CR])
  | None => no_crlf c
  end.
Proof.
  unfold crlf_line. pose proof (crlf_line_gen Byte.x00 c) as H.
  destruct (find_chars LF CR Byte.x00 c) as [s|].
  - destruct H as (l & rest & -> & Hs & Hn). destruct l as [|x l]; simpl in Hs; [done|].
    injection Hs as <- ->. exists l, rest. rewrite <- app_assoc. split_and!; [done..|].
    intros a b E. apply (Hn (Byte.x00 :: a) b). simpl. by rewrite E.
  - intros a b ->. by apply (H (Byte.x00 :: a) b).
Qed.

(** [ReadCRLFLine] takes from the stream exactly the bytes up to the first CR LF, this
    included, wherever the blocks are split, and when there is none it answers [false]
    and leaves the content as it was. *)
Theorem ReadCRLFLine_first O h s c ms :
  Inv O h s c ms ->
  exists s' r, ReadCRLFLine h s = Some (s', r) /\
    match r with
    | Some line => exists l rest, line = l ++ [CR; LF] /\ c = line ++ rest /\
                     no_crlf (l ++ [CR]) /\ Inv O h s' rest ms
    | None => no_crlf c /\ Inv O h s' c ms
    end.
Proof.
  intros HI. destruct (ReadCRLFLine_spec _ _ _ _ _ HI) as (s' & Hr & HI').
  pose proof (crlf_line_spec c) as Hl. unfold crlf_line, LF, CR in *.
  exists s', (find_chars Byte.x0a Byte.x0d Byte.x00 c). split; [done|].
  destruct (find_chars _ _ _ c) as [line|]; simpl in HI'.
  - destruct Hl as (l & rest & -> & -> & Hn). exists l, rest. split_and!; [done| |done|].
    + by rewrite <- app_assoc.
    + change (l ++ Byte.x0d :: Byte.x0a :: rest) with (l ++ [Byte.x0d; Byte.x0a] ++ rest) in HI'.
      rewrite app_assoc, dropZ_app_r, Z.sub_diag, dropZ_0 in HI' by lia. done.
  - split; [done|]. by change (zlen []) with 0 in HI'; rewrite dropZ_0 in HI'.
Qed.

Lemma ReadCRLFLine_first_witness :
  exists h s, Inv (fun _ => 0) h s ([Byte.x41; CR; Byte.x42] ++ [CR; LF; Byte.x43]) [] /\
  exists s' r, ReadCRLFLine h s = Some (s', r) /\
    match r with
    | Some line => exists l rest, line = l ++ [CR; LF] /\
                     [Byte.x41; CR; Byte.x42] ++ [CR; LF; Byte.x43] = line ++ rest /\
                     no_crlf (l ++ [CR]) /\ Inv (fun _ => 0) h s' rest []
    | None => no_crlf ([Byte.x41; CR; Byte.x42] ++ [CR; LF; Byte.x43]) /\
              Inv (fun _ => 0) h s' ([Byte.x41; CR; Byte.x42] ++ [CR; LF; Byte.x43]) []
    end.
Proof.
  destruct (stream_with ([Byte.x41; CR; Byte.x42] ++ [CR; LF; Byte.x43]) eq_refl) as (h & s & HI).
  exists h, s. split; [exact HI|]. exact (ReadCRLFLine_first _ h s _ [] HI).
Defined.

(** [GetScratchSpace] hands out a space that is not empty, and whatever bytes the
    caller puts at its front and confirms are appended to the stream and to what is in
    front of its markers; the blocks of other streams are not touched. *)
Theorem scratch_appends O h s q :
  Inv O h s (content q) (marks q) ->
  exists h1 s1 a off n, GetScratchSpace h s = Some (h1, s1, (a, off, n)) /\ 0 < n /\
    forall w, zlen w <= n -> exists h2 h3 s3,
      store h1 a off w = Some h2 /\ ConfirmScratch h2 s1 (zlen w) = Some (h3, s3) /\
      Inv O h3 s3 (content (q_append q w)) (marks (q_append q w)) /\ keeps O h h3.
Proof. apply GetScratchSpace_spec. Qed.

Lemma scratch_appends_witness :
  exists h s, Inv (fun _ => 0) h s (bstr "ab") [] /\
  exists h1 s1 a off n, GetScratchSpace h s = Some (h1, s1, (a, off, n)) /\ 0 < n /\
    forall w, zlen w <= n -> exists h2 h3 s3,
      store h1 a off w = Some h2 /\ ConfirmScratch h2 s1 (zlen w) = Some (h3, s3) /\
      Inv (fun _ => 0) h3 s3 (bstr "ab" ++ w) [] /\ keeps (fun _ => 0) h h3.
Proof.
  destruct (stream_with (bstr "ab") eq_refl) as (h & s & HI). exists h, s.
  split; [exact HI|]. exact (scratch_appends _ h s (mkQueue (bstr "ab") []) HI).
Defined.
