(* ===== verification/ByteStream.v ===== *)
(** * ByteStream: what the clients of [io::MemoryStream] rely on

    The [http] component and the other users of a memory stream write to it, ask its size
    and take lines from it.  [ByteStream] is that interface with its laws over the bytes
    the stream holds and the room it has; memory streams in a heap implement it up to 2 GB
    (the sizes of their blocks and lines are [int]s), whatever the other streams of the heap
    are, and so does a plain queue of bytes, without a bound.  What is proved of a client over the
    queue thus holds over the block structure of [MemoryStream.v]. *)

From S2P Require Import Prelude.
From S2P Require Import DataBlock.
From S2P Require Import DataBlockFacts.
From S2P Require Import MemoryStream.
From S2P Require Import MemoryStreamFacts.
From S2P Require Import MemoryStreamOps.
From S2P Require Import MemoryStreamSpec.

Class ByteStream (M : Type) := {
  holds : M -> bytes -> Prop;
  bs_room : bytes -> Prop;      (* contents that the stream has room for *)
  bs_Write : M -> bytes -> option M;
  bs_Size : M -> Z;
  bs_ReadCRLFLine : M -> option (M * option bytes);
  bs_room_prefix x y : bs_room (x ++ y) -> bs_room x;
  bs_Write_law m c x : holds m c -> bs_room (c ++ x) -> exists m', bs_Write m x = Some m' /\ holds m' (c ++ x);
  bs_Size_law m c : holds m c -> bs_Size m = zlen c;
  bs_ReadCRLFLine_law m c : holds m c ->
    exists m', bs_ReadCRLFLine m = Some (m', crlf_line c) /\
      holds m' (dropZ (zlen (default [] (crlf_line c))) c);
}.

(** The queue is its own contents. *)
#[export, refine] Instance queue_stream : ByteStream bytes := {|
  holds c c' := c = c';
  bs_room _ := True;
  bs_Write c x := Some (c ++ x);
  bs_Size c := zlen c;
  bs_ReadCRLFLine c := Some (dropZ (zlen (default [] (crlf_line c))) c, crlf_line c);
|}.
Proof.
  - done.
  - intros m c x -> _. eauto.
  - by intros m c ->.
  - intros m c ->. eauto.
Defined.

(** A memory stream with the heap its blocks are in; [O] counts the references that others
    hold to the blocks of the heap. *)
#[refine] Instance memory_stream (O : addr -> Z) : ByteStream (heap * MemoryStream) := {|
  holds m c := zlen c < 2 ^ 31 /\ exists ms, Inv O m.1 m.2 c ms;
  bs_room c := zlen c < 2 ^ 31;
  bs_Write m x := Write m.1 m.2 x;
  bs_Size m := Size m.2;
  bs_ReadCRLFLine m := '(s, r) ← ReadCRLFLine m.1 m.2; Some ((m.1, s), r);
|}.
Proof.
  - intros x y H. rewrite zlen_app in H. pose proof (zlen_nonneg y). lia.
  - intros [h s] c x [_ [ms HI]] Hx. pose proof (zlen_nonneg c).
    destruct (Write_spec _ _ _ _ _ x HI) as (h' & s' & -> & HI' & _); [rewrite zlen_app in Hx; lia|].
    exists (h', s'). eauto.
  - intros [h s] c [_ [ms HI]]. unfold Size. by rewrite (Inv_size _ _ _ _ _ HI).
  - intros [h s] c [Hc [ms HI]]. cbn [fst snd] in *.
    destruct (ReadCRLFLine_spec _ _ _ _ _ HI) as (s' & -> & HI').
    exists (h, s'). split; [done|]. split; [|by exists ms].
    pose proof (zlen_dropZ_le (zlen (default [] (crlf_line c))) c). lia.
Defined.
