(* ===== verification/NumStreaming.v ===== *)
(** * NumStreaming: [io/num_streaming.h], the integer part of [BaseNumStreamer<R, W>]

    The template reads numbers from any stream with [ReadBuffer] and [Peek], and writes
    them to any stream with [WriteBuffer]: these are the classes [Reader] and [Writer],
    with the laws the results need, and byte queues are instances.  The floating point
    variants and [BitArray], which has no implementation in the tree, are left out. *)

From S2P Require Import Prelude.

(** ** Bytes of an integer *)

Fixpoint le_bytes (n : nat) (z : Z) : bytes :=
  match n with
  | O => []
  | S n => to_byte z :: le_bytes n (z / 256)
  end.

Fixpoint le_value (l : bytes) : Z :=
  match l with
  | [] => 0
  | b :: l => uchar b + 256 * le_value l
  end.

Lemma zlen_le_bytes n z : zlen (le_bytes n z) = Z.of_nat n.
Proof. revert z. induction n as [|n IH]; intros z; [done|]. simpl. rewrite zlen_cons, IH. lia. Qed.

Lemma le_value_range l : 0 <= le_value l < 256 ^ zlen l.
Proof.
  induction l as [|b l IH]; [done|]. simpl. rewrite zlen_cons.
  pose proof (uchar_range b). pose proof (zlen_nonneg l). rewrite Z.pow_add_r by lia. lia.
Qed.

Lemma le_value_bytes n z : le_value (le_bytes n z) = z mod 256 ^ Z.of_nat n.
Proof.
  revert z. induction n as [|n IH]; intros z; [by rewrite Z.mod_1_r|].
  simpl. rewrite IH, uchar_to_byte. replace (Z.of_nat (S n)) with (1 + Z.of_nat n) by lia.
  rewrite Z.pow_add_r, Z.pow_1_r by lia.
  assert (0 < 256 ^ Z.of_nat n) by (apply Z.pow_pos_nonneg; lia).
  rewrite Z.rem_mul_r by lia. lia.
Qed.

Lemma le_bytes_value l : le_bytes (length l) (le_value l) = l.
Proof.
  induction l as [|b l IH]; [done|]. simpl. pose proof (uchar_range b). f_equal.
  - apply uchar_inj. rewrite uchar_to_byte. dlia.
  - replace ((uchar b + 256 * le_value l) / 256) with (le_value l) by dlia. done.
Qed.

Lemma le_bytes_mod n z : le_bytes n (z mod 256 ^ Z.of_nat n) = le_bytes n z.
Proof.
  rewrite <- le_value_bytes. pose proof (le_bytes_value (le_bytes n z)) as H.
  replace (length (le_bytes n z)) with n in H; [done|].
  pose proof (zlen_le_bytes n z). unfold zlen in *. lia.
Qed.

Lemma le_bytes_congr n y z : y mod 256 ^ Z.of_nat n = z mod 256 ^ Z.of_nat n -> le_bytes n y = le_bytes n z.
Proof. intros H. by rewrite <- (le_bytes_mod n y), H, le_bytes_mod. Qed.

(** ** SwapBytes: two pointers that move towards each other *)

Definition swap (l : bytes) (i j : nat) : option bytes :=
  x ← l !! i; y ← l !! j; Some (<[j := x]> (<[i := y]> l)).

Definition SwapBytes_step (s : bytes * Z * Z) : option (bytes * Z * Z + bytes) :=
  let '(data, p1, p2) := s in
  if p1 <? p2 then
    data ← swap data (Z.to_nat p1) (Z.to_nat p2); Some (inl (data, p1 + 1, p2 - 1))
  else Some (inr data).

Definition SwapBytes (data : bytes) : option bytes :=
  loop SwapBytes_step (S (length data)) (data, 0, zlen data - 1).

Lemma swap_ends a x m y b :
  swap (a ++ x :: m ++ y :: b) (length a) (length a + S (length m)) = Some (a ++ y :: m ++ x :: b).
Proof.
  unfold swap. rewrite (list_lookup_middle a (m ++ y :: b) x (length a) eq_refl). simpl.
  assert (Hy : (a ++ x :: m ++ y :: b) !! (length a + S (length m))%nat = Some y).
  { rewrite lookup_app_r by lia. replace (length a + S (length m) - length a)%nat with (S (length m)) by lia.
    simpl. by apply list_lookup_middle. }
  rewrite Hy. simpl. f_equal.
  rewrite insert_app_r_alt by lia. replace (length a - length a)%nat with O by lia. simpl.
  rewrite insert_app_r_alt by lia.
  replace (length a + S (length m) - length a)%nat with (S (length m)) by lia. simpl.
  rewrite insert_app_r_alt by lia. by rewrite Nat.sub_diag.
Qed.

Lemma SwapBytes_step_stop data p1 p2 : p2 <= p1 -> SwapBytes_step (data, p1, p2) = Some (inr data).
Proof. intros. unfold SwapBytes_step. by destruct (Z.ltb_spec p1 p2); [lia|]. Qed.

Lemma SwapBytes_step_swap data p1 p2 data' :
  p1 < p2 -> swap data (Z.to_nat p1) (Z.to_nat p2) = Some data' ->
  SwapBytes_step (data, p1, p2) = Some (inl (data', p1 + 1, p2 - 1)).
Proof. intros ? H. unfold SwapBytes_step. destruct (Z.ltb_spec p1 p2); [|lia]. by rewrite H. Qed.

(** From the middle [m] outwards the bytes are still to be swapped. *)
Lemma SwapBytes_loop fuel : forall a m b, (length m < fuel)%nat ->
  loop SwapBytes_step fuel (a ++ m ++ b, zlen a, zlen a + zlen m - 1) = Some (a ++ rev m ++ b).
Proof.
  induction fuel as [|fuel IH]; intros a m b Hm; [lia|]. rewrite loop_S.
  destruct (decide (length m <= 1)%nat) as [Hs|Hs].
  { rewrite SwapBytes_step_stop by (unfold zlen; lia). simpl.
    destruct m as [|x [|y m]]; simpl in *; [done|done|lia]. }
  destruct m as [|x m]; simpl in Hs; [lia|].
  destruct m as [|y m _] using rev_ind; simpl in Hs; [lia|].
  rewrite zlen_cons, zlen_snoc. pose proof (zlen_nonneg m).
  replace (a ++ (x :: m ++ [y]) ++ b) with (a ++ x :: m ++ y :: b)
    by (simpl; by rewrite <- !app_assoc).
  rewrite (SwapBytes_step_swap _ _ _ (a ++ y :: m ++ x :: b)); [|lia|].
  2: { replace (Z.to_nat (zlen a)) with (length a) by (unfold zlen; lia).
       replace (Z.to_nat (zlen a + (1 + (zlen m + 1)) - 1)) with (length a + S (length m))%nat
         by (unfold zlen; lia).
       apply swap_ends. }
  cbn [mbind option_bind].
  replace (a ++ y :: m ++ x :: b) with ((a ++ [y]) ++ m ++ (x :: b)) by (by rewrite <- app_assoc).
  replace (zlen a + 1) with (zlen (a ++ [y])) by apply zlen_snoc.
  replace (zlen a + (1 + (zlen m + 1)) - 1 - 1) with (zlen (a ++ [y]) + zlen m - 1)
    by (rewrite zlen_snoc; lia).
  rewrite IH by (simpl in Hm; rewrite length_app in Hm; simpl in Hm; lia).
  simpl. rewrite rev_app_distr. simpl. by rewrite <- !app_assoc.
Qed.

Lemma SwapBytes_rev data : SwapBytes data = Some (rev data).
Proof.
  unfold SwapBytes. pose proof (SwapBytes_loop (S (length data)) [] data [] ltac:(lia)) as H.
  simpl in H. by rewrite !app_nil_r in H.
Qed.

(** ** Streams *)

Class Reader (R : Type) := {
  rd_content : R -> bytes;
  ReadBuffer : R -> Z -> bytes * R;
  PeekBuffer : R -> Z -> bytes;
  ReadBuffer_bytes r n : (ReadBuffer r n).1 = takeZ n (rd_content r);
  ReadBuffer_rest r n : rd_content (ReadBuffer r n).2 = dropZ n (rd_content r);
  PeekBuffer_bytes r n : PeekBuffer r n = takeZ n (rd_content r);
}.

Class Writer (W : Type) := {
  wr_content : W -> bytes;
  WriteBuffer : W -> bytes -> W;
  WriteBuffer_bytes w b : wr_content (WriteBuffer w b) = wr_content w ++ b;
}.

#[export] Program Instance bytes_Reader : Reader bytes := {
  rd_content := fun r => r;
  ReadBuffer := fun r n => (takeZ n r, dropZ n r);
  PeekBuffer := fun r n => takeZ n r;
}.
Solve All Obligations with done.

#[export] Program Instance bytes_Writer : Writer bytes := {
  wr_content := fun w => w;
  WriteBuffer := fun w b => w ++ b;
}.
Solve All Obligations with done.

Inductive ByteOrder := BIGENDIAN | LILENDIAN.

#[export] Instance ByteOrder_eq_dec : EqDecision ByteOrder.
Proof. solve_decision. Defined.

Definition kByteOrder : ByteOrder := LILENDIAN.

(** The number types: their size in bytes and whether they are signed; [uint24] is the
    struct of three bytes, whose conversion operators give an unsigned value. *)
Record NumType := mkNumType { num_bytes : nat; num_signed : bool }.
Definition Uint8 := mkNumType 1 false.
Definition Int16 := mkNumType 2 true.
Definition Uint16 := mkNumType 2 false.
Definition Uint24 := mkNumType 3 false.
Definition Int32 := mkNumType 4 true.
Definition Uint32 := mkNumType 4 false.
Definition Int64 := mkNumType 8 true.
Definition Uint64 := mkNumType 8 false.

Definition num_bits (N : NumType) : Z := 8 * Z.of_nat (num_bytes N).

(** What an object of the type holds for any integer converted to it. *)
Definition convert (N : NumType) (z : Z) : Z :=
  if num_signed N then wrapS (num_bits N) z else wrapU (num_bits N) z.

Definition object_bytes (N : NumType) (z : Z) : bytes := le_bytes (num_bytes N) z.
Definition object_value (N : NumType) (l : bytes) : Z := convert N (le_value l).

Section Streamer.
Context {R W : Type} `{Reader R} `{Writer W}.

Definition order_bytes (order : ByteOrder) (l : bytes) : option bytes :=
  if decide (kByteOrder = order) then Some l else SwapBytes l.

(** The calls with a NULL [success]: a short stream fails the [CHECK_EQ]. *)
Definition ReadNumber (N : NumType) (is_ : R) (order : ByteOrder) : option (Z * R) :=
  let '(result, is_) := ReadBuffer is_ (Z.of_nat (num_bytes N)) in
  CHECK (zlen result =? Z.of_nat (num_bytes N));;
  result ← order_bytes order result;
  Some (object_value N result, is_).

(** With a [success]: [None] inside is [*success == false], the bytes are consumed all
    the same and the number is not meaningful. *)
Definition ReadNumber_success (N : NumType) (is_ : R) (order : ByteOrder)
    : option (option Z * R) :=
  let '(result, is_) := ReadBuffer is_ (Z.of_nat (num_bytes N)) in
  if zlen result =? Z.of_nat (num_bytes N) then
    result ← order_bytes order result;
    Some (Some (object_value N result), is_)
  else Some (None, is_).

Definition PeekNumber (N : NumType) (is_ : R) (order : ByteOrder) : option Z :=
  let result := PeekBuffer is_ (Z.of_nat (num_bytes N)) in
  CHECK (zlen result =? Z.of_nat (num_bytes N));;
  result ← order_bytes order result;
  Some (object_value N result).

Definition WriteNumber (N : NumType) (os : W) (data : Z) (order : ByteOrder) : option W :=
  data ← order_bytes order (object_bytes N data);
  Some (WriteBuffer os data).

Definition ReadByte (is_ : R) := ReadNumber Uint8 is_ kByteOrder.
Definition ReadInt16 := ReadNumber Int16.
Definition ReadUInt16 := ReadNumber Uint16.
Definition ReadUInt24 := ReadNumber Uint24.
Definition ReadInt32 := ReadNumber Int32.
Definition ReadUInt32 := ReadNumber Uint32.
Definition ReadInt64 := ReadNumber Int64.
Definition ReadUInt64 := ReadNumber Uint64.
Definition PeekByte (is_ : R) := PeekNumber Uint8 is_ kByteOrder.
Definition PeekInt16 := PeekNumber Int16.
Definition PeekUInt16 := PeekNumber Uint16.
Definition PeekUInt24 := PeekNumber Uint24.
Definition PeekInt32 := PeekNumber Int32.
Definition PeekUInt32 := PeekNumber Uint32.
Definition PeekInt64 := PeekNumber Int64.
Definition PeekUInt64 := PeekNumber Uint64.
Definition WriteByte (os : W) (byte : Z) := WriteNumber Uint8 os byte kByteOrder.
Definition WriteInt16 := WriteNumber Int16.
Definition WriteUInt16 := WriteNumber Uint16.
Definition WriteUInt24 := WriteNumber Uint24.
Definition WriteInt32 := WriteNumber Int32.
Definition WriteUInt32 := WriteNumber Uint32.
Definition WriteInt64 := WriteNumber Int64.
Definition WriteUInt64 := WriteNumber Uint64.

(** ** What is on the wire *)

Definition wire (N : NumType) (order : ByteOrder) (z : Z) : bytes :=
  match order with
  | LILENDIAN => le_bytes (num_bytes N) z
  | BIGENDIAN => rev (le_bytes (num_bytes N) z)
  end.

Lemma order_bytes_eq order l :
  order_bytes order l = Some (match order with LILENDIAN => l | BIGENDIAN => rev l end).
Proof. unfold order_bytes. destruct order; [apply SwapBytes_rev|done]. Qed.

Lemma WriteNumber_wire N os data order :
  exists os', WriteNumber N os data order = Some os' /\
    wr_content os' = wr_content os ++ wire N order data.
Proof.
  unfold WriteNumber. rewrite order_bytes_eq. cbn [mbind option_bind].
  eexists; split; [done|]. rewrite WriteBuffer_bytes. by destruct order.
Qed.

Lemma zlen_wire N order z : zlen (wire N order z) = Z.of_nat (num_bytes N).
Proof.
  destruct order; simpl; rewrite <- ?(zlen_le_bytes (num_bytes N) z); [|done].
  unfold zlen. by rewrite length_rev.
Qed.

Lemma object_value_bytes N z : object_value N (le_bytes (num_bytes N) z) = convert N z.
Proof.
  unfold object_value, convert, num_bits. rewrite le_value_bytes.
  assert (E : 256 ^ Z.of_nat (num_bytes N) = 2 ^ (8 * Z.of_nat (num_bytes N))).
  { change 256 with (2 ^ 8). by rewrite <- Z.pow_mul_r by lia. }
  rewrite E. destruct (num_signed N); [|apply wrapU_id].
  destruct (num_bytes N) as [|n]; [|by apply wrapS_wrapU; lia].
  unfold wrapS. simpl. by rewrite !Z.mod_1_r.
Qed.

Lemma ReadNumber_wire N is_ order z rest :
  rd_content is_ = wire N order z ++ rest ->
  exists is_', ReadNumber N is_ order = Some (convert N z, is_') /\ rd_content is_' = rest.
Proof.
  intros Hc. unfold ReadNumber. pose proof (ReadBuffer_bytes is_ (Z.of_nat (num_bytes N))) as Hb.
  pose proof (ReadBuffer_rest is_ (Z.of_nat (num_bytes N))) as Hr.
  destruct (ReadBuffer is_ (Z.of_nat (num_bytes N))) as [result is_']. simpl in *.
  rewrite Hc, takeZ_app_l, takeZ_all in Hb by (rewrite zlen_wire; lia).
  rewrite Hc, dropZ_app_r, zlen_wire, Z.sub_diag, dropZ_0 in Hr by (rewrite zlen_wire; lia).
  subst result. rewrite zlen_wire, Z.eqb_refl. cbn [CHECK mbind option_bind].
  rewrite order_bytes_eq. cbn [mbind option_bind]. exists is_'. split; [|done].
  destruct order; simpl; rewrite ?rev_involutive; by rewrite object_value_bytes.
Qed.

Lemma ReadNumber_short N is_ order :
  zlen (rd_content is_) < Z.of_nat (num_bytes N) -> ReadNumber N is_ order = None.
Proof.
  intros Hs. unfold ReadNumber. pose proof (ReadBuffer_bytes is_ (Z.of_nat (num_bytes N))) as Hb.
  destruct (ReadBuffer is_ (Z.of_nat (num_bytes N))) as [result is_']. simpl in *.
  subst result. rewrite takeZ_all by lia.
  by destruct (Z.eqb_spec (zlen (rd_content is_)) (Z.of_nat (num_bytes N))); [lia|].
Qed.
End Streamer.

(** A number written to any stream in either byte order and read back in the same
    order from any stream that starts with what was written, is the number converted to
    its type; the rest of the stream is what follows, and [Peek] gives the same number
    and consumes nothing. *)
Theorem WriteNumber_ReadNumber {R W} `{Reader R} `{Writer W} N (os : W) (is_ : R) order data rest :
  exists os', WriteNumber N os data order = Some os' /\
    (rd_content is_ = dropZ (zlen (wr_content os)) (wr_content os') ++ rest ->
     PeekNumber N is_ order = Some (convert N data) /\
     exists is_', ReadNumber N is_ order = Some (convert N data, is_') /\ rd_content is_' = rest).
Proof.
  destruct (WriteNumber_wire N os data order) as (os' & Hw & Hc). exists os'. split; [done|].
  rewrite Hc, dropZ_app_r, Z.sub_diag, dropZ_0 by lia. intros Hi.
  destruct (ReadNumber_wire N is_ order data rest Hi) as (is_' & Hr & Hrest). split; [|by exists is_'].
  unfold PeekNumber. unfold ReadNumber in Hr. rewrite PeekBuffer_bytes.
  pose proof (ReadBuffer_bytes is_ (Z.of_nat (num_bytes N))) as Hb.
  destruct (ReadBuffer is_ (Z.of_nat (num_bytes N))) as [result i2]. simpl in Hb. subst result.
  destruct (zlen _ =? _); [|done]. cbn [CHECK mbind option_bind] in *.
  destruct (order_bytes order _); [|done]. cbn [mbind option_bind] in *. congruence.
Qed.

Lemma WriteNumber_ReadNumber_witness :
  exists os', WriteNumber Int32 [Byte.x07] (-2) BIGENDIAN = Some os' /\
    rd_content [Byte.xff; Byte.xff; Byte.xff; Byte.xfe; Byte.x09] = dropZ 1 os' ++ [Byte.x09] /\
    PeekNumber Int32 [Byte.xff; Byte.xff; Byte.xff; Byte.xfe; Byte.x09] BIGENDIAN = Some (-2) /\
    exists is', ReadNumber Int32 [Byte.xff; Byte.xff; Byte.xff; Byte.xfe; Byte.x09] BIGENDIAN
                  = Some (-2, is') /\ rd_content is' = [Byte.x09].
Proof.
  destruct (WriteNumber_ReadNumber Int32 [Byte.x07] [Byte.xff; Byte.xff; Byte.xff; Byte.xfe; Byte.x09]
              BIGENDIAN (-2) [Byte.x09]) as (os' & Hw & H).
  exists os'. split; [exact Hw|]. vm_compute in Hw. injection Hw as <-.
  split; [reflexivity|]. exact (H eq_refl).
Defined.
