(* ===== verification/RecordIO.v ===== *)
(** * RecordIO: [io/logio/recordio.h], [io/logio/recordio.cc]

    Records written to a stream of blocks of fixed size and read back.  The memory
    streams the code works on are byte queues here, which is what MemoryStreamSpec
    proves of them: [AppendStream] moves bytes from the front of one to the end of
    another.  The checksum and the compression belong to zlib and are parameters. *)

From S2P Require Import Prelude.
From S2P Require Import NumStreaming.

Definition kBlockTrailerEnd : Z := 12.
Definition kRecordHeaderSize : Z := 4.
Definition kMaximumRecordBlockSize : Z := 0xFFFFFF.
Definition HAS_CONT : Z := 1.
Definition IS_ZIPPED : Z := 2.
Definition IS_FIRST : Z := 4.

(** [dst->AppendStream(src, n)]: what is moved and what is left in the source. *)
Definition moved (n : Z) (src : bytes) : bytes := if 0 <=? n then takeZ n src else src.
Definition left_in (n : Z) (src : bytes) : bytes := dropZ (zlen (moved n src)) src.

Section Crc.
(** zlib's [crc32(crc, buf, len)]. *)
Variable crc32 : Z -> bytes -> Z.

(** [ComputeCRC] over the pieces its [ReadNext] calls give; the running value is an
    [int32] that is converted to zlib's [unsigned long]. *)
Definition ComputeCRC_chunks (chunks : list bytes) : Z :=
  fold_left (fun crc c => int32 (crc32 (wrapU 64 crc) c)) chunks (int32 (crc32 0 [])).

Definition ComputeCRC (buf : bytes) : Z :=
  ComputeCRC_chunks (match buf with [] => [] | _ => [buf] end).

(** ** RecordWriter *)

Record RecordWriter := mkRecordWriter {
  w_block_size : Z;
  w_dumpable_size : Z;       (* dumpable_percent of what a block can hold *)
  w_content : bytes;
  w_zlib : bool;             (* zlib_ != NULL *)
  w_record_count : Z;
  w_prev_crc : Z;
}.

Definition RecordWriter_new (block_size dumpable_size : Z) (deflate : bool)
    : option RecordWriter :=
  CHECK (block_size <? kMaximumRecordBlockSize);;
  Some (mkRecordWriter block_size dumpable_size [] deflate 0 0).

Definition Writer_Clear (w : RecordWriter) : RecordWriter :=
  mkRecordWriter (w_block_size w) (w_dumpable_size w) (w_content w) (w_zlib w)
    (w_record_count w) 0.

Definition FinalizeContent (w : RecordWriter) (out : bytes) : option (RecordWriter * bytes) :=
  let content := w_content w in
  let content_size := zlen content in
  if content_size =? 0 then Some (w, out)
  else
    CHECK (content_size + kBlockTrailerEnd <=? w_block_size w);;
    let padding_size := w_block_size w - content_size - kBlockTrailerEnd in
    let content := content ++ replicate (Z.to_nat padding_size) Byte.x00 in
    content ← WriteInt32 content (int32 content_size) BIGENDIAN;
    content ← WriteInt32 content (w_prev_crc w) BIGENDIAN;
    let crc := ComputeCRC content in
    content ← WriteInt32 content crc BIGENDIAN;
    Some (mkRecordWriter (w_block_size w) (w_dumpable_size w) [] (w_zlib w) 0 crc,
          out ++ content).

(** The flags, the length and [data] at the end of the content. *)
Definition add_piece (w : RecordWriter) (flags len : Z) (data : bytes) : option RecordWriter :=
  content ← WriteByte (w_content w) flags;
  content ← WriteUInt24 content (int32 len) BIGENDIAN;
  Some (mkRecordWriter (w_block_size w) (w_dumpable_size w) (content ++ data) (w_zlib w)
          (w_record_count w + 1) (w_prev_crc w)).

Definition available (w : RecordWriter) : Z :=
  size_t (w_block_size w - kBlockTrailerEnd - kRecordHeaderSize - zlen (w_content w)).

(** One round of the loop of [AppendRecord] on a stream; the state is the writer, what
    is left in [in], [is_first], the blocks written and [out]. *)
Definition AppendRecord_step (s : RecordWriter * bytes * bool * Z * bytes)
    : option (RecordWriter * bytes * bool * Z * bytes + RecordWriter * Z * bytes) :=
  let '(w, inp, is_first, count, out) := s in
  if zlen inp <=? 0 then Some (inr (w, count, out))
  else
    let avail := available w in
    if zlen inp <=? avail then
      w ← add_piece w (if is_first then IS_FIRST else 0) (zlen inp) (moved (-1) inp);
      Some (inl (w, left_in (-1) inp, is_first, count, out))
    else
      w ← add_piece w (Z.lor HAS_CONT (if is_first then IS_FIRST else 0)) avail
                    (moved (int64 avail) inp);
      let inp := left_in (int64 avail) inp in
      '(w, out) ← FinalizeContent w out;
      Some (inl (w, inp, false, count + 1, out)).

(** The same loop over a buffer: [p] is what is left of it, and an empty one is written. *)
Definition AppendBuffer_step (s : RecordWriter * bytes * bool * Z * bytes)
    : option (RecordWriter * bytes * bool * Z * bytes + RecordWriter * Z * bytes) :=
  let '(w, p, is_first, count, out) := s in
  let avail := available w in
  if zlen p <=? avail then
    w ← add_piece w (if is_first then IS_FIRST else 0) (zlen p) p;
    Some (inr (w, count, out))
  else
    w ← add_piece w (Z.lor HAS_CONT (if is_first then IS_FIRST else 0)) avail (takeZ avail p);
    let p := dropZ avail p in
    '(w, out) ← FinalizeContent w out;
    if 0 <? zlen p then Some (inl (w, p, false, count + 1, out))
    else Some (inr (w, count + 1, out)).

(** After the loop: a block full enough is written out. *)
Definition maybe_dump (x : RecordWriter * Z * bytes) : option (RecordWriter * bool * bytes) :=
  let '(w, count, out) := x in
  '(w, count, out) ←
    (if w_dumpable_size w <? zlen (w_content w) then
       '(w, out) ← FinalizeContent w out; Some (w, count + 1, out)
     else Some (w, count, out));
  Some (w, 1 <=? count, out).

(** Every round but the last two writes a block with at least one byte of the record. *)
Definition record_fuel (inp : bytes) : nat := 3 + length inp.

Definition AppendRecord_loop (w : RecordWriter) (inp out : bytes)
    : option (RecordWriter * bool * bytes) :=
  x ← loop AppendRecord_step (record_fuel inp) (w, inp, true, 0, out);
  maybe_dump x.

(** zlib's deflation of a whole record; [None] when it fails. *)
Variable Deflate : bytes -> option bytes.

Definition AppendRecord (w : RecordWriter) (inp out : bytes)
    : option (RecordWriter * bool * bytes) :=
  if w_zlib w then z ← Deflate inp; AppendRecord_loop w z out
  else AppendRecord_loop w inp out.

Definition AppendRecord_buffer (w : RecordWriter) (buffer out : bytes)
    : option (RecordWriter * bool * bytes) :=
  if w_zlib w then z ← Deflate buffer; AppendRecord_loop w z out
  else
    x ← loop AppendBuffer_step (record_fuel buffer) (w, buffer, true, 0, out);
    maybe_dump x.

(** ** RecordReader *)

Inductive ReadResult :=
  | READ_OK | READ_NO_DATA | READ_CRC_CORRUPTED | READ_ZIP_CORRUPTED | READ_CRC_BLOCK_BROKEN.

#[export] Instance ReadResult_eq_dec : EqDecision ReadResult.
Proof. solve_decision. Defined.

Record RecordReader := mkRecordReader {
  r_block_size : Z;
  r_content : bytes;
  r_record : bytes;          (* record_content_ *)
  r_prev_crc : Z;
  r_skip : bool;             (* skip_record_ *)
}.

Definition RecordReader_new (block_size : Z) : RecordReader :=
  mkRecordReader block_size [] [] 0 false.

Definition Reader_Clear (r : RecordReader) : RecordReader :=
  mkRecordReader (r_block_size r) [] (r_record r) 0 (r_skip r).

Definition with_content (r : RecordReader) (c : bytes) : RecordReader :=
  mkRecordReader (r_block_size r) c (r_record r) (r_prev_crc r) (r_skip r).
Definition with_record (r : RecordReader) (c rec : bytes) : RecordReader :=
  mkRecordReader (r_block_size r) c rec (r_prev_crc r) (r_skip r).
Definition with_skip (r : RecordReader) (c : bytes) (skip : bool) : RecordReader :=
  mkRecordReader (r_block_size r) c (r_record r) (r_prev_crc r) skip.

Definition ReadNextBlock (r : RecordReader) (inp : bytes)
    : option (RecordReader * bytes * ReadResult) :=
  if zlen inp <? r_block_size r then Some (r, inp, READ_NO_DATA)
  else
    let n := size_t (r_block_size r - kBlockTrailerEnd) in
    let temp := moved (int64 n) inp in
    let inp := left_in (int64 n) inp in
    '(content_size, inp) ← ReadInt32 inp BIGENDIAN;
    let content_size := size_t content_size in
    '(prev_crc, inp) ← ReadInt32 inp BIGENDIAN;
    '(crc, inp) ← ReadInt32 inp BIGENDIAN;
    temp ← WriteInt32 temp (int32 content_size) BIGENDIAN;
    temp ← WriteInt32 temp prev_crc BIGENDIAN;
    let expected_crc := ComputeCRC temp in
    if negb (expected_crc =? crc) || (n <? content_size)
    then Some (r, inp, READ_CRC_CORRUPTED)
    else
      let ret := if negb (prev_crc =? 0) && negb (r_prev_crc r =? 0) &&
                    negb (prev_crc =? r_prev_crc r)
                 then READ_CRC_BLOCK_BROKEN else READ_OK in
      Some (mkRecordReader (r_block_size r) (r_content r ++ moved (int64 content_size) temp)
              (r_record r) crc (r_skip r), inp, ret).

(** The header of the piece at the front of the content. *)
Definition read_header (c : bytes) : option (Z * Z * bytes) :=
  CHECK (4 <=? zlen c);;
  '(flags, c) ← ReadByte c;
  '(len, c) ← ReadUInt24 c BIGENDIAN;
  Some (flags, len, c).

Definition has (flags flag : Z) : bool := negb (Z.land flags flag =? 0).

Definition SkipRecord (r : RecordReader) : option RecordReader :=
  '(flags, len, c) ← read_header (r_content r);
  Some (with_skip r (dropZ len c) (has flags HAS_CONT)).

(** The inner loop that skips the rest of a corrupt record; [Some true] when the caller
    returns because enough was skipped. *)
Definition Skip_step (max_num_skip : Z) (s : RecordReader * Z)
    : option (RecordReader * Z + RecordReader * Z * bool) :=
  let '(r, num_skipped) := s in
  if r_skip r && (0 <? zlen (r_content r)) then
    let num_skipped := num_skipped + 1 in
    r ← SkipRecord r;
    if negb (max_num_skip =? 0) && (max_num_skip <=? num_skipped)
    then Some (inr (r, num_skipped, true))
    else Some (inl (r, num_skipped))
  else Some (inr (r, num_skipped, false)).

(** zlib's inflation of a whole record: what is added to the output, and whether the
    end of the compressed data was met ([Z_STREAM_END]). *)
Variable Inflate : bytes -> bytes * bool.

Definition read_state : Type := RecordReader * bytes * Z.
Definition read_answer : Type := RecordReader * bytes * Z * option bytes * ReadResult.

(** The first part of a round of [ReadRecord]: a block is read when there is no content. *)
Definition fetch_block (r : RecordReader) (inp : bytes)
    : option (RecordReader * bytes * ReadResult) :=
  if zlen (r_content r) =? 0 then
    '(r, inp, ret) ← ReadNextBlock r inp;
    if bool_decide (ret = READ_CRC_BLOCK_BROKEN) && (0 <? zlen (r_record r))
    then Some (with_skip r (r_content r) true, inp, READ_OK)
    else Some (r, inp, ret)
  else Some (r, inp, READ_OK).

(** The last part: one piece of the content.  [out] is [None] for a NULL pointer. *)
Definition take_piece (out : option bytes) (max_num_skip : Z) (s : read_state)
    : option (read_state + read_answer) :=
  let '(r, inp, num_skipped) := s in
  '(flags, len, c) ← read_header (r_content r);
  if has flags IS_FIRST && (0 <? zlen (r_record r)) then
    Some (inr (with_record r (dropZ len c) [], inp, num_skipped + 1, out, READ_CRC_CORRUPTED))
  else if bool_decide (is_Some out) && (zlen (r_record r) =? 0) && negb (has flags IS_FIRST) then
    let num_skipped := num_skipped + 1 in
    if negb (max_num_skip =? 0) && (max_num_skip <=? num_skipped)
    then Some (inr (with_content r (dropZ len c), inp, num_skipped, out, READ_OK))
    else Some (inl (with_content r (dropZ len c), inp, num_skipped))
  else
    let r := match out with
             | Some _ => with_record r (left_in len c) (r_record r ++ moved len c)
             | None => with_content r (dropZ len c)
             end in
    if has flags HAS_CONT then Some (inl (r, inp, num_skipped))
    else
      match out with
      | None => Some (inr (with_record r (r_content r) [], inp, num_skipped, None, READ_OK))
      | Some o =>
          let r' := with_record r (r_content r) [] in
          if has flags IS_ZIPPED then
            let '(data, ended) := Inflate (r_record r) in
            Some (inr (r', inp, num_skipped, Some (o ++ data),
                       if ended then READ_OK else READ_ZIP_CORRUPTED))
          else
            Some (inr (r', inp, num_skipped, Some (o ++ moved (-1) (r_record r)), READ_OK))
      end.

(** One round of [ReadRecord]: the state is the reader, [in] and [*num_skipped]. *)
Definition ReadRecord_step (out : option bytes) (max_num_skip : Z) (s : read_state)
    : option (read_state + read_answer) :=
  let '(r, inp, num_skipped) := s in
  '(r, inp, ret) ← fetch_block r inp;
  if negb (bool_decide (ret = READ_OK)) then Some (inr (r, inp, num_skipped, out, ret))
  else
    '(r, num_skipped, enough) ←
      loop (Skip_step max_num_skip) (S (length (r_content r))) (r, num_skipped);
    if (enough : bool) then Some (inr (r, inp, num_skipped, out, READ_OK))
    else if zlen (r_content r) =? 0 then Some (inl (r, inp, num_skipped))
    else take_piece out max_num_skip (r, inp, num_skipped).

(** Every round consumes the header of a piece or a block. *)
Definition read_fuel (r : RecordReader) (inp : bytes) : nat :=
  S (length inp + length (r_content r)).

Definition ReadRecord (r : RecordReader) (inp : bytes) (out : option bytes)
    (num_skipped max_num_skip : Z) : option read_answer :=
  loop (ReadRecord_step out max_num_skip) (read_fuel r inp) (r, inp, num_skipped).
End Crc.

(** With zlib's law for running checksums, the checksum of a stream does not depend on
    the chunks its blocks give. *)
Theorem ComputeCRC_chunks_any crc32 chunks :
  (forall c a b, int32 (crc32 (wrapU 64 (int32 (crc32 c a))) b) = int32 (crc32 c (a ++ b))) ->
  ComputeCRC_chunks crc32 chunks = ComputeCRC crc32 (concat chunks).
Proof.
  intros law. assert (H : forall l a, fold_left (fun crc c => int32 (crc32 (wrapU 64 crc) c)) l (int32 (crc32 0 a)) =
                            int32 (crc32 0 (a ++ concat l))).
  { induction l as [|c l IH]; intros a; simpl; [by rewrite app_nil_r|]. by rewrite law, IH, app_assoc. }
  unfold ComputeCRC, ComputeCRC_chunks. rewrite H. destruct (concat chunks) as [|x l] eqn:E; [done|].
  rewrite H. simpl. by rewrite app_nil_r.
Qed.

(** A checksum with the law: the sum of the bytes. *)
Definition sum_crc (c : Z) (b : bytes) : Z := c + foldr (fun x s => uchar x + s) 0 b.

Lemma ComputeCRC_chunks_any_witness :
  ComputeCRC_chunks sum_crc [[Byte.x01]; [Byte.x02; Byte.x03]] =
  ComputeCRC sum_crc [Byte.x01; Byte.x02; Byte.x03].
Proof.
  apply (ComputeCRC_chunks_any sum_crc [[Byte.x01]; [Byte.x02; Byte.x03]]). intros c a b.
  assert (H : sum_crc c (a ++ b) = sum_crc c a + sum_crc 0 b).
  { unfold sum_crc. rewrite foldr_app. induction a as [|x a IH]; simpl in *; lia. }
  rewrite H. unfold sum_crc at 1. change (foldr _ 0 b) with (sum_crc 0 b).
  generalize (sum_crc c a) (sum_crc 0 b). intros x y. unfold wrapS, wrapU. dlia.
Defined.
