(* ===== verification/RecordIOSpec.v ===== *)
(** * RecordIO: what is written is read back

    A record is written as a sequence of pieces, and pieces fill blocks.  The writer
    keeps its content and its output in the form [enc_all] and [chain]; the reader
    consumes that form piece by piece, from the first block or from any later one. *)

From S2P Require Import Prelude.
From S2P Require Import NumStreaming.
From S2P Require Import RecordIO.

(** ** Numbers on byte queues *)

(** An [int32] in big endian order. *)
Definition be32 (z : Z) : bytes := wire Int32 BIGENDIAN z.
Definition be24 (z : Z) : bytes := wire Uint24 BIGENDIAN z.

Lemma be32_int32 z : be32 (int32 z) = be32 z.
Proof.
  unfold be32, wire. f_equal. apply le_bytes_congr.
  change (256 ^ Z.of_nat (num_bytes Int32)) with (2 ^ 32). by apply (wrapU_wrapS 32).
Qed.

Lemma int32_size_t z : int32 (size_t z) = int32 z.
Proof.
  unfold wrapS, wrapU. do 1 f_equal. change (2 ^ 64) with (2 ^ 32 * 2 ^ 32).
  rewrite Z.rem_mul_r, Z.mul_comm by lia. dlia.
Qed.

Lemma zlen_be32 z : zlen (be32 z) = 4.
Proof. apply (zlen_wire Int32). Qed.

Lemma zlen_be24 z : zlen (be24 z) = 3.
Proof. apply (zlen_wire Uint24). Qed.

Lemma write_wire N (os : bytes) z order : WriteNumber N os z order = Some (os ++ wire N order z).
Proof. destruct (WriteNumber_wire N os z order) as (os' & -> & H). simpl in H. by subst. Qed.

Lemma read_wire N z rest order :
  ReadNumber N (wire N order z ++ rest) order = Some (convert N z, rest).
Proof.
  destruct (ReadNumber_wire N (wire N order z ++ rest) order z rest) as (i & -> & H); [done|].
  simpl in H. by subst.
Qed.

(** Any four bytes are some [int32]. *)
Lemma be32_value l : zlen l = 4 -> exists z, l = be32 z /\ - 2 ^ 31 <= z < 2 ^ 31.
Proof.
  intros Hl. exists (int32 (le_value (rev l))). split; [|by apply (wrapS_range 32)].
  rewrite be32_int32. unfold be32, wire. change (num_bytes Int32) with 4%nat.
  assert (E : length (rev l) = 4%nat) by (rewrite length_rev; unfold zlen in Hl; lia).
  rewrite <- E, le_bytes_value. by rewrite rev_involutive.
Qed.

Section Spec.
Variable crc32 : Z -> bytes -> Z.

Lemma ComputeCRC_range b : int32 (ComputeCRC crc32 b) = ComputeCRC crc32 b.
Proof.
  assert (H : forall l c, int32 c = c ->
    int32 (fold_left (fun crc c => int32 (crc32 (wrapU 64 crc) c)) l c) =
    fold_left (fun crc c => int32 (crc32 (wrapU 64 crc) c)) l c).
  { induction l as [|x l IH]; intros c Hc; [done|]. simpl. apply IH.
    apply wrapS_small; [lia|]. by apply (wrapS_range 32). }
  apply H. apply wrapS_small; [lia|]. by apply (wrapS_range 32).
Qed.

(** ** Pieces and blocks *)

Record piece := mkPiece { p_first : bool; p_cont : bool; p_data : bytes }.

Definition flags_of (p : piece) : Z :=
  Z.lor (if p_cont p then HAS_CONT else 0) (if p_first p then IS_FIRST else 0).

Definition enc (p : piece) : bytes :=
  to_byte (flags_of p) :: be24 (zlen (p_data p)) ++ p_data p.

Definition enc_all (ps : list piece) : bytes := concat (enc <$> ps).

Lemma enc_all_app ps qs : enc_all (ps ++ qs) = enc_all ps ++ enc_all qs.
Proof. unfold enc_all. by rewrite fmap_app, concat_app. Qed.

Lemma enc_all_one p : enc_all [p] = enc p.
Proof. apply app_nil_r. Qed.

Lemma enc_all_cons p ps : enc_all (p :: ps) = enc p ++ enc_all ps.
Proof. done. Qed.

Lemma zlen_enc p : zlen (enc p) = 4 + zlen (p_data p).
Proof. unfold enc. rewrite zlen_cons, zlen_app, zlen_be24. lia. Qed.

Lemma enc_all_nil ps : enc_all ps = [] -> ps = [].
Proof. by destruct ps. Qed.

Definition body (bs prev : Z) (ps : list piece) : bytes :=
  enc_all ps ++ replicate (Z.to_nat (bs - zlen (enc_all ps) - 12)) Byte.x00 ++
  be32 (zlen (enc_all ps)) ++ be32 prev.

Definition block_crc (bs prev : Z) (ps : list piece) : Z := ComputeCRC crc32 (body bs prev ps).

Definition block (bs prev : Z) (ps : list piece) : bytes :=
  body bs prev ps ++ be32 (block_crc bs prev ps).

(** Blocks one after the other, each with the checksum it gives for the one before: the
    right one, or 0 when the writer was cleared in between. *)
Definition chain (bs : Z) (bls : list (Z * list piece)) : bytes :=
  concat ((fun b => block bs b.1 b.2) <$> bls).

Definition pieces (bls : list (Z * list piece)) : list piece := concat (snd <$> bls).

Fixpoint last_crc (bs p : Z) (bls : list (Z * list piece)) : Z :=
  match bls with
  | [] => p
  | b :: bls => last_crc bs (block_crc bs b.1 b.2) bls
  end.

Definition is_int32 (z : Z) : Prop := - 2 ^ 31 <= z < 2 ^ 31.

(** [p] is the checksum the reader has, 0 when it has none. *)
Fixpoint linked (bs p : Z) (bls : list (Z * list piece)) : Prop :=
  match bls with
  | [] => True
  | b :: bls =>
      is_int32 b.1 /\ (b.1 = 0 \/ p = 0 \/ p = b.1) /\ linked bs (block_crc bs b.1 b.2) bls
  end.

Definition fits (bs : Z) (ps : list piece) : Prop := zlen (enc_all ps) + 12 <= bs.

Lemma zlen_block bs prev ps : fits bs ps -> zlen (block bs prev ps) = bs.
Proof.
  intros Hf. unfold block, body, fits in *. rewrite !zlen_app, !zlen_be32.
  unfold zlen at 2. rewrite length_replicate. pose proof (zlen_nonneg (enc_all ps)). lia.
Qed.

Lemma chain_app bs a b : chain bs (a ++ b) = chain bs a ++ chain bs b.
Proof. unfold chain. by rewrite fmap_app, concat_app. Qed.

Lemma pieces_app a b : pieces (a ++ b) = pieces a ++ pieces b.
Proof. unfold pieces. by rewrite fmap_app, concat_app. Qed.

Lemma chain_one bs q ps : chain bs [(q, ps)] = block bs q ps.
Proof. apply app_nil_r. Qed.

Lemma pieces_one q ps : pieces [(q, ps)] = ps.
Proof. apply app_nil_r. Qed.

Lemma last_crc_app bs p a b : last_crc bs p (a ++ b) = last_crc bs (last_crc bs p a) b.
Proof. revert p. induction a as [|x a IH]; intros p; [done|]. simpl. apply IH. Qed.

Lemma linked_app bs p a b :
  linked bs p (a ++ b) <-> linked bs p a /\ linked bs (last_crc bs p a) b.
Proof. revert p. induction a as [|x a IH]; intros p; simpl; [tauto|]. rewrite IH. tauto. Qed.

(** A reader that has no checksum accepts any link. *)
Lemma linked_0 bs p bls : linked bs p bls -> linked bs 0 bls.
Proof. destruct bls; simpl; [done|]. tauto. Qed.

Definition all_fit (bs : Z) (bls : list (Z * list piece)) : Prop :=
  Forall (fun b => fits bs b.2 /\ b.2 <> []) bls.

Lemma zlen_chain bs bls : all_fit bs bls -> zlen (chain bs bls) = zlen bls * bs.
Proof.
  intros H. induction H as [|b bls [Hf _] H IH]; [done|]. change (b :: bls) with ([b] ++ bls).
  rewrite chain_app, !zlen_app, IH. destruct b as [q ps]. rewrite chain_one, zlen_block by done.
  change (zlen [(q, ps)]) with 1. lia.
Qed.

Lemma block_crc_int32 bs prev ps : is_int32 (block_crc bs prev ps).
Proof. unfold block_crc. rewrite <- ComputeCRC_range. by apply (wrapS_range 32). Qed.

(** ** The writer *)

Definition ok_size (bs : Z) : Prop := 16 < bs < kMaximumRecordBlockSize.

Lemma FinalizeContent_spec w out ps :
  ok_size (w_block_size w) -> w_content w = enc_all ps -> ps <> [] -> fits (w_block_size w) ps ->
  FinalizeContent crc32 w out =
    Some (mkRecordWriter (w_block_size w) (w_dumpable_size w) [] (w_zlib w) 0
            (block_crc (w_block_size w) (w_prev_crc w) ps),
          out ++ block (w_block_size w) (w_prev_crc w) ps).
Proof.
  intros [Hbs1 Hbs2] Hc Hne Hf. unfold FinalizeContent. rewrite Hc. unfold fits in Hf.
  assert (Hz : 0 < zlen (enc_all ps)).
  { destruct ps as [|p ps]; [done|]. rewrite enc_all_cons, zlen_app, zlen_enc.
    pose proof (zlen_nonneg (p_data p)). pose proof (zlen_nonneg (enc_all ps)). lia. }
  destruct (Z.eqb_spec (zlen (enc_all ps)) 0); [lia|].
  unfold kBlockTrailerEnd. destruct (Z.leb_spec (zlen (enc_all ps) + 12) (w_block_size w)); [|lia].
  cbn [CHECK mbind option_bind]. cbv zeta. unfold WriteInt32. rewrite !write_wire.
  cbn [mbind option_bind]. rewrite !write_wire. cbn [mbind option_bind]. rewrite !write_wire.
  cbn [mbind option_bind]. fold (be32 (w_prev_crc w)). fold (be32 (int32 (zlen (enc_all ps)))).
  rewrite be32_int32. unfold block, block_crc, body. by rewrite <- !app_assoc.
Qed.

Lemma FinalizeContent_nil w out : w_content w = [] -> FinalizeContent crc32 w out = Some (w, out).
Proof. intros H. unfold FinalizeContent. by rewrite H. Qed.

Lemma add_piece_spec w p ps flags data :
  w_content w = enc_all ps -> flags_of p = flags -> p_data p = data -> zlen data < 2 ^ 24 ->
  add_piece w flags (zlen data) data =
    Some (mkRecordWriter (w_block_size w) (w_dumpable_size w) (enc_all (ps ++ [p])) (w_zlib w)
            (w_record_count w + 1) (w_prev_crc w)).
Proof.
  intros Hc <- <- Hz. unfold add_piece, WriteByte, WriteUInt24. rewrite !write_wire.
  cbn [mbind option_bind]. rewrite !write_wire. cbn [mbind option_bind].
  rewrite Hc, enc_all_app. do 2 f_equal. rewrite wrapS_small by (pose proof (zlen_nonneg (p_data p)); lia).
  unfold enc_all at 3. simpl. rewrite app_nil_r. unfold enc. rewrite <- !app_assoc. done.
Qed.

(** [split first r ps]: the record [r] is cut into the pieces [ps]. *)
Fixpoint split (first : bool) (r : bytes) (ps : list piece) : Prop :=
  match ps with
  | [] => False
  | p :: ps =>
      p_first p = first /\
      match ps with
      | [] => p_cont p = false /\ p_data p = r
      | _ => p_cont p = true /\ p_data p <> [] /\
             exists r', r = p_data p ++ r' /\ split false r' ps
      end
  end.

Lemma split_cons p ps first r' : ps <> [] -> p_first p = first -> p_cont p = true ->
  p_data p <> [] -> split false r' ps -> split first (p_data p ++ r') (p :: ps).
Proof. intros. destruct ps; [done|]. split; [done|]. split_and!; [done..|]. by exists r'. Qed.

(** The writer after it wrote the pieces [P]: the blocks [F] went somewhere before, and
    [out] is [out0] and the blocks since then. *)
Definition written (bs d : Z) (zl : bool) (F : list (Z * list piece)) (out0 : bytes)
    (P : list piece) (w : RecordWriter) (out : bytes) : Prop :=
  w_block_size w = bs /\ w_dumpable_size w = d /\ w_zlib w = zl /\ (w_content w = [] -> w_record_count w = 0) /\
  exists bls cur, pieces (F ++ bls) ++ cur = P /\ all_fit bs bls /\ fits bs cur /\
    w_content w = enc_all cur /\ out = out0 ++ chain bs bls /\ linked bs 0 (F ++ bls) /\
    is_int32 (w_prev_crc w) /\ (w_prev_crc w = 0 \/ w_prev_crc w = last_crc bs 0 (F ++ bls)).

Lemma chain_split bs bls k : all_fit bs bls -> 0 <= k <= zlen bls ->
  takeZ (k * bs) (chain bs bls) = chain bs (takeZ k bls) /\
  dropZ (k * bs) (chain bs bls) = chain bs (dropZ k bls).
Proof.
  intros Hf Hk. rewrite <- (takeZ_dropZ k bls) in Hf. apply Forall_app in Hf as [Hf1 Hf2].
  assert (Hz : zlen (chain bs (takeZ k bls)) = k * bs).
  { rewrite zlen_chain by done. rewrite zlen_takeZ by lia. f_equal. lia. }
  assert (E : chain bs bls = chain bs (takeZ k bls) ++ chain bs (dropZ k bls))
    by (by rewrite <- chain_app, takeZ_dropZ).
  rewrite E, takeZ_app_l, takeZ_all, dropZ_app_r, Hz, Z.sub_diag by lia. done.
Qed.

(** The owner takes [k] blocks of the output away. *)
Lemma written_moved bs d zl F P w out k :
  0 < bs -> written bs d zl F [] P w out -> 0 <= k -> k * bs <= zlen out ->
  exists a, zlen a = k /\ all_fit bs a /\ takeZ (k * bs) out = chain bs a /\
    written bs d zl (F ++ a) [] P w (dropZ (k * bs) out).
Proof.
  intros Hb (Hbs & Hd & Hz & Hn & bls & cur & HP & Hbl & Hf & Hc & Ho & Hln & Hpi & Hp) Hk Hkl.
  rewrite app_nil_l in Ho. subst out. rewrite zlen_chain in Hkl by done. assert (k <= zlen bls) by nia.
  destruct (chain_split bs bls k Hbl) as [-> ->]; [lia|].
  exists (takeZ k bls). split; [rewrite zlen_takeZ; lia|].
  pose proof Hbl as Hbl'. rewrite <- (takeZ_dropZ k bls) in Hbl'. apply Forall_app in Hbl' as [Hf1 Hf2].
  split_and!; [done..|]. unfold written. split_and!; [done..|]. exists (dropZ k bls), cur.
  rewrite <- app_assoc, takeZ_dropZ. by split_and!.
Qed.

Lemma written_whole bs d zl F P w out :
  written bs d zl F [] P w out -> exists n, 0 <= n /\ zlen out = n * bs.
Proof.
  intros (_ & _ & _ & _ & bls & cur & _ & Hbl & _ & _ & -> & _). exists (zlen bls).
  split; [apply zlen_nonneg|]. by apply zlen_chain.
Qed.

Lemma all_fit_bound bs F : all_fit bs F -> zlen F <= zlen (pieces F).
Proof.
  intros Hf. induction Hf as [|[q ps] F [_ Hne] Hf IH]; [done|]. simpl in Hne.
  change ((q, ps) :: F) with ([(q, ps)] ++ F). rewrite pieces_app, pieces_one, !zlen_app.
  change (zlen [(q, ps)]) with 1. destruct ps as [|p ps]; [done|]. rewrite zlen_cons.
  pose proof (zlen_nonneg ps). lia.
Qed.

Lemma written_bound bs d zl F P w out :
  all_fit bs F -> written bs d zl F [] P w out -> zlen F <= zlen P.
Proof.
  intros Hf (_ & _ & _ & _ & bls & cur & HP & _). rewrite <- HP, zlen_app, pieces_app, zlen_app.
  pose proof (zlen_nonneg cur). pose proof (zlen_nonneg (pieces bls)). pose proof (all_fit_bound bs F Hf). lia.
Qed.

Lemma split_length ps : forall first r, split first r ps -> zlen ps <= zlen r + 1.
Proof.
  induction ps as [|p ps IH]; intros first r H; [done|]. destruct H as [_ H].
  destruct ps as [|p' ps]; [pose proof (zlen_nonneg r); change (zlen [p]) with 1; lia|].
  destruct H as (_ & Hne & r' & -> & Hsp). specialize (IH _ _ Hsp). rewrite zlen_cons, zlen_app.
  destruct (p_data p) as [|x l]; [done|]. rewrite (zlen_cons x l). pose proof (zlen_nonneg l). lia.
Qed.

(** There is room for a header and a byte. *)
Definition room (w : RecordWriter) : Prop := zlen (w_content w) + 16 < w_block_size w.

Lemma written_piece bs d zl F out0 P w out p flags :
  ok_size bs -> written bs d zl F out0 P w out -> flags_of p = flags ->
  zlen (w_content w) + 16 + zlen (p_data p) <= bs ->
  exists w', add_piece w flags (zlen (p_data p)) (p_data p) = Some w' /\
    written bs d zl F out0 (P ++ [p]) w' out.
Proof.
  intros [Hb1 Hb2] (Hbs & Hd & Hz & Hn & bls & cur & HP & Hbl & Hf & Hc & Ho & Hln & Hpi & Hp) Hfl Hroom.
  pose proof (zlen_nonneg (w_content w)). unfold kMaximumRecordBlockSize in Hb2.
  rewrite (add_piece_spec w p cur) by (done || lia). eexists; split; [done|].
  split_and!; [done..| |].
  { intros Hnil%(f_equal zlen). cbn [w_content] in Hnil. rewrite enc_all_app, zlen_app, enc_all_one, zlen_enc in Hnil.
    pose proof (zlen_nonneg (enc_all cur)). pose proof (zlen_nonneg (p_data p)). change (zlen []) with 0 in Hnil. lia. }
  exists bls, (cur ++ [p]). split_and!; try done.
  - by rewrite app_assoc, HP.
  - unfold fits. rewrite enc_all_app, zlen_app, enc_all_one, zlen_enc, <- Hc. lia.
Qed.

Lemma written_finalize bs d zl F out0 P w out :
  ok_size bs -> written bs d zl F out0 P w out ->
  exists w' out', FinalizeContent crc32 w out = Some (w', out') /\
    written bs d zl F out0 P w' out' /\ w_content w' = [].
Proof.
  intros Hs (Hbs & Hd & Hz & Hn & bls & cur & HP & Hbl & Hf & Hc & Ho & Hln & Hpi & Hp).
  destruct (decide (cur = [])) as [->|Hne].
  - rewrite FinalizeContent_nil by done. eexists _, _; split; [done|]. split; [|done].
    split_and!; [done..|]. by exists bls, [].
  - rewrite (FinalizeContent_spec w out cur) by (rewrite ?Hbs; done).
    eexists _, _; split; [done|]. split; [|done]. split_and!; [done..|].
    exists (bls ++ [(w_prev_crc w, cur)]), []. rewrite Hbs, Ho, (app_assoc F). split_and!.
    + by rewrite pieces_app, pieces_one, app_nil_r.
    + apply Forall_app. by split; [|constructor].
    + destruct Hs. unfold fits. change (zlen (enc_all [])) with 0. lia.
    + done.
    + rewrite chain_app. by rewrite chain_one, app_assoc.
    + apply linked_app. split; [done|]. simpl. split_and!; [done| |done].
      destruct Hp as [->| ->]; auto.
    + apply block_crc_int32.
    + right. by rewrite last_crc_app.
Qed.

(** The writer's owner takes the output away. *)
Lemma written_taken bs d zl F out0 P w out :
  written bs d zl F out0 P w out ->
  exists bls cur, out = out0 ++ chain bs bls /\ all_fit bs bls /\ linked bs 0 (F ++ bls) /\
    pieces (F ++ bls) ++ cur = P /\ (w_content w = [] -> cur = []) /\
    forall out1, written bs d zl (F ++ bls) out1 P w out1.
Proof.
  intros (Hbs & Hd & Hz & Hn & bls & cur & HP & Hbl & Hf & Hc & Ho & Hln & Hpi & Hp).
  exists bls, cur. split_and!; [done..| |].
  - intros Hnil. rewrite Hnil in Hc. symmetry in Hc. by apply enc_all_nil in Hc.
  - intros out1. split_and!; [done..|]. exists [], cur. rewrite !app_nil_r.
    split_and!; try done. constructor.
Qed.

(** [Clear] forgets the checksum. *)
Lemma written_Clear bs d zl F out0 P w out :
  written bs d zl F out0 P w out -> written bs d zl F out0 P (Writer_Clear w) out.
Proof.
  intros (Hbs & Hd & Hz & Hn & bls & cur & HP & Hbl & Hf & Hc & Ho & Hln & Hpi & Hp).
  split_and!; [done..|]. exists bls, cur. split_and!; try done. by left.
Qed.

Lemma available_room w : ok_size (w_block_size w) -> zlen (w_content w) + 16 <= w_block_size w ->
  available w = w_block_size w - 16 - zlen (w_content w).
Proof.
  intros [? ?] ?. pose proof (zlen_nonneg (w_content w)). unfold available, kBlockTrailerEnd, kRecordHeaderSize.
  unfold kMaximumRecordBlockSize in *. rewrite wrapU_small; lia.
Qed.

Lemma moved_all inp : moved (-1) inp = inp /\ left_in (-1) inp = [].
Proof. unfold left_in, moved. simpl. split; [done|]. apply dropZ_all. lia. Qed.

Lemma moved_some n inp : 0 <= n <= zlen inp -> moved n inp = takeZ n inp /\ left_in n inp = dropZ n inp.
Proof.
  intros Hn. unfold left_in, moved. destruct (Z.leb_spec 0 n); [|lia].
  split; [done|]. rewrite zlen_takeZ by lia. f_equal. lia.
Qed.

(** What the two loops do with [inp] when it does not fit: the piece and the block. *)
Lemma partial_round bs d zl F out0 P w out inp (is_first : bool) :
  ok_size bs -> written bs d zl F out0 P w out -> room w -> available w < zlen inp ->
  exists p w1 w2 out2,
    p = mkPiece is_first true (takeZ (available w) inp) /\ p_data p <> [] /\
    add_piece w (Z.lor HAS_CONT (if is_first then IS_FIRST else 0)) (available w)
      (takeZ (available w) inp) = Some w1 /\
    FinalizeContent crc32 w1 out = Some (w2, out2) /\
    written bs d zl F out0 (P ++ [p]) w2 out2 /\ room w2 /\ 0 < available w.
Proof.
  intros Hs HW Hroom Hlt. pose proof HW as (Hbs & _). unfold room in Hroom.
  pose proof (available_room w ltac:(by rewrite Hbs) ltac:(lia)) as Hav.
  pose proof (zlen_nonneg (w_content w)). set (p := mkPiece is_first true (takeZ (available w) inp)).
  assert (Hzl : zlen (p_data p) = available w) by (simpl; rewrite zlen_takeZ; lia).
  destruct (written_piece bs d zl F out0 P w out p _ Hs HW eq_refl ltac:(lia)) as (w1 & Hadd & HW1).
  destruct (written_finalize bs d zl F out0 _ w1 out Hs HW1) as (w2 & out2 & Hfin & HW2 & Hnil).
  exists p, w1, w2, out2. split_and!; try done.
  - intros E. rewrite E in Hzl. change (zlen []) with 0 in Hzl. lia.
  - rewrite Hzl in Hadd. exact Hadd.
  - unfold room. rewrite Hnil. destruct HW2 as (-> & _). destruct Hs. change (zlen []) with 0. lia.
  - lia.
Qed.

(** The last piece. *)
Lemma full_round bs d zl F out0 P w out inp (is_first : bool) :
  ok_size bs -> written bs d zl F out0 P w out -> room w -> zlen inp <= available w ->
  exists w1, add_piece w (if is_first then IS_FIRST else 0) (zlen inp) inp = Some w1 /\
    written bs d zl F out0 (P ++ [mkPiece is_first false inp]) w1 out.
Proof.
  intros Hs HW Hroom Hle. pose proof HW as (Hbs & _). unfold room in Hroom.
  pose proof (available_room w ltac:(by rewrite Hbs) ltac:(lia)) as Hav.
  apply (written_piece bs d zl F out0 P w out (mkPiece is_first false inp)); [done..|simpl; lia].
Qed.

(** The loops' invariant: [ps0] was written of [r], and [inp] is what is left. *)
Definition in_record bs d zl F out0 P (r : bytes) (w : RecordWriter) (inp : bytes) (is_first : bool) (out : bytes) : Prop :=
  exists ps0, written bs d zl F out0 (P ++ ps0) w out /\ room w /\
    forall ps, split is_first inp ps -> split true r (ps0 ++ ps).

Definition record_done bs d zl F out0 P (r : bytes) (x : RecordWriter * Z * bytes) : Prop :=
  let '(w, _, out) := x in
  exists ps, split true r ps /\ written bs d zl F out0 (P ++ ps) w out.

Lemma in_record_partial bs d zl F out0 P r w inp is_first out :
  ok_size bs -> in_record bs d zl F out0 P r w inp is_first out -> available w < zlen inp ->
  exists w1 w2 out2,
    add_piece w (Z.lor HAS_CONT (if is_first then IS_FIRST else 0)) (available w)
      (takeZ (available w) inp) = Some w1 /\
    FinalizeContent crc32 w1 out = Some (w2, out2) /\ 0 < available w /\
    in_record bs d zl F out0 P r w2 (dropZ (available w) inp) false out2.
Proof.
  intros Hs (ps0 & HW & Hroom & Hsp) Hlt.
  destruct (partial_round _ _ _ _ _ _ _ _ _ is_first Hs HW Hroom Hlt)
    as (p & w1 & w2 & out2 & Hp & Hne & Hadd & Hfin & HW2 & Hroom2 & Hav).
  exists w1, w2, out2. split_and!; [done..|]. exists (ps0 ++ [p]).
  rewrite app_assoc. split_and!; [done..|]. intros ps Hps. rewrite <- app_assoc. apply Hsp. simpl.
  rewrite <- (takeZ_dropZ (available w) inp). replace (takeZ (available w) inp) with (p_data p) by (by subst).
  apply split_cons; [by destruct ps|by subst..|done|done].
Qed.

Lemma in_record_full bs d zl F out0 P r w inp is_first out :
  ok_size bs -> in_record bs d zl F out0 P r w inp is_first out -> zlen inp <= available w ->
  exists w1, add_piece w (if is_first then IS_FIRST else 0) (zlen inp) inp = Some w1 /\
    forall n, record_done bs d zl F out0 P r (w1, n, out).
Proof.
  intros Hs (ps0 & HW & Hroom & Hsp) Hle.
  destruct (full_round _ _ _ _ _ _ _ _ _ is_first Hs HW Hroom Hle) as (w1 & Hadd & HW1).
  exists w1. split; [done|]. intros n. exists (ps0 ++ [mkPiece is_first false inp]).
  rewrite app_assoc. split; [|done]. by apply Hsp.
Qed.

Lemma in_record_start bs d zl F out0 P r w out :
  written bs d zl F out0 P w out -> room w -> in_record bs d zl F out0 P r w r true out.
Proof. intros HW Hr. exists []. rewrite app_nil_r. by split_and!. Qed.

Lemma AppendBuffer_loop bs d zl F out0 P r w out :
  ok_size bs -> written bs d zl F out0 P w out -> room w ->
  exists x, loop (AppendBuffer_step crc32) (record_fuel r) (w, r, true, 0, out) = Some x /\
    record_done bs d zl F out0 P r x.
Proof.
  intros Hs HW Hroom.
  apply (loop_total (AppendBuffer_step crc32)
    (fun '(w, p, first, _, out) => in_record bs d zl F out0 P r w p first out) _
    (fun '(_, p, _, _, _) => length p)).
  - intros [[[[w1 p] first] n] out1] HI. unfold AppendBuffer_step.
    destruct (Z.leb_spec (zlen p) (available w1)) as [Hle|Hgt].
    + destruct (in_record_full _ _ _ _ _ _ _ _ _ _ _ Hs HI Hle) as (w2 & -> & Hd).
      eexists; split; [done|]. apply Hd.
    + destruct (in_record_partial _ _ _ _ _ _ _ _ _ _ _ Hs HI Hgt) as (w2 & w3 & out3 & -> & Hf & Hav & HI').
      cbn [mbind option_bind]. rewrite Hf. cbn [mbind option_bind].
      destruct (Z.ltb_spec 0 (zlen (dropZ (available w1) p))) as [Hl|Hl];
        rewrite zlen_dropZ in Hl by lia; [|lia].
      eexists; split; [done|]. split; [done|]. unfold dropZ. rewrite length_drop.
      unfold zlen in *. lia.
  - by apply in_record_start.
  - unfold record_fuel. lia.
Qed.

Lemma AppendRecord_stream_loop bs d zl F out0 P r w out :
  ok_size bs -> written bs d zl F out0 P w out -> room w -> r <> [] ->
  exists x, loop (AppendRecord_step crc32) (record_fuel r) (w, r, true, 0, out) = Some x /\
    record_done bs d zl F out0 P r x.
Proof.
  intros Hs HW Hroom Hne.
  assert (Hpos : forall l : bytes, l <> [] -> 0 < zlen l).
  { intros [|x l] H; [done|]. rewrite zlen_cons. pose proof (zlen_nonneg l). lia. }
  apply (loop_total (AppendRecord_step crc32)
    (fun '(w, p, first, n, out) => (p <> [] /\ in_record bs d zl F out0 P r w p first out) \/
                                   (p = [] /\ record_done bs d zl F out0 P r (w, n, out))) _
    (fun '(_, p, _, _, _) => length p)).
  - intros [[[[w1 p] first] n] out1] HI. unfold AppendRecord_step.
    destruct HI as [[Hp HI]|[-> Hd]]; [|by eexists]. specialize (Hpos p Hp).
    destruct (Z.leb_spec (zlen p) 0); [lia|].
    destruct (Z.leb_spec (zlen p) (available w1)) as [Hle|Hgt].
    + destruct (in_record_full _ _ _ _ _ _ _ _ _ _ _ Hs HI Hle) as (w2 & Hadd & Hd).
      destruct (moved_all p) as [-> ->]. rewrite Hadd.
      eexists; split; [done|]. split; [by right|]. destruct p; [done|]. simpl. lia.
    + destruct (in_record_partial _ _ _ _ _ _ _ _ _ _ _ Hs HI Hgt) as (w2 & w3 & out3 & Hadd & Hf & Hav & HI').
      assert (Hi : int64 (available w1) = available w1).
      { apply wrapS_small; [lia|]. destruct HI as (ps0 & HW1 & Hr1 & _). pose proof HW1 as (Hbs1 & _).
        rewrite available_room; rewrite ?Hbs1; unfold room in Hr1; try done; try lia.
        destruct Hs. unfold kMaximumRecordBlockSize in *. pose proof (zlen_nonneg (w_content w1)). lia. }
      rewrite Hi. destruct (moved_some (available w1) p) as [-> ->]; [lia|].
      rewrite Hadd. cbn [mbind option_bind]. rewrite Hf. cbn [mbind option_bind].
      eexists; split; [done|]. split.
      * left. split; [|done]. intros E. apply (f_equal zlen) in E. change (zlen []) with 0 in E.
        rewrite zlen_dropZ in E by lia. lia.
      * unfold dropZ. rewrite length_drop. unfold zlen in *. lia.
  - left. split; [done|]. by apply in_record_start.
  - unfold record_fuel. lia.
Qed.

Lemma maybe_dump_spec bs d zl F out0 P w n out :
  ok_size bs -> d + 16 < bs -> written bs d zl F out0 P w out ->
  exists w' b out', maybe_dump crc32 (w, n, out) = Some (w', b, out') /\
    written bs d zl F out0 P w' out' /\ room w'.
Proof.
  intros Hs Hd HW. pose proof HW as (Hbs & Hdd & _). unfold maybe_dump.
  destruct (Z.ltb_spec (w_dumpable_size w) (zlen (w_content w))) as [Hlt|Hge].
  - destruct (written_finalize bs d zl F out0 P w out Hs HW) as (w' & out' & -> & HW' & Hnil).
    cbn [mbind option_bind]. eexists _, _, _; split; [done|]. split; [done|].
    destruct HW' as (Hbs' & _). unfold room. rewrite Hnil, Hbs'. destruct Hs.
    change (zlen []) with 0. lia.
  - cbn [mbind option_bind]. eexists _, _, _; split; [done|]. split; [done|]. unfold room. lia.
Qed.

Variable Deflate : bytes -> option bytes.

(** What is cut into pieces for a record. *)
Definition stored (zl : bool) (r : bytes) : option bytes := if zl then Deflate r else Some r.

Lemma AppendRecord_spec bs d zl F out0 P w r s out (buffer : bool) :
  ok_size bs -> d + 16 < bs -> written bs d zl F out0 P w out -> room w ->
  stored zl r = Some s -> (buffer && negb zl = false -> s <> []) ->
  exists w' b out' ps,
    (if buffer then AppendRecord_buffer crc32 Deflate w r out
     else AppendRecord crc32 Deflate w r out) = Some (w', b, out') /\
    written bs d zl F out0 (P ++ ps) w' out' /\ room w' /\ split true s ps.
Proof.
  intros Hs Hd HW Hroom Hst Hr. pose proof HW as (_ & _ & Hz & _).
  assert (H : exists w' n out', (if buffer && negb zl then
      loop (AppendBuffer_step crc32) (record_fuel s) (w, s, true, 0, out)
    else loop (AppendRecord_step crc32) (record_fuel s) (w, s, true, 0, out)) = Some (w', n, out') /\
    record_done bs d zl F out0 P s (w', n, out')).
  { destruct (buffer && negb zl).
    - destruct (AppendBuffer_loop bs d zl F out0 _ s w out Hs HW Hroom) as ([[w' n] out'] & H); eauto.
    - destruct (AppendRecord_stream_loop bs d zl F out0 _ s w out Hs HW Hroom (Hr eq_refl)) as ([[w' n] out'] & H); eauto. }
  destruct H as (w1 & n & out1 & Hl & ps & Hsp & HW1).
  destruct (maybe_dump_spec _ _ _ _ _ _ w1 n out1 Hs Hd HW1) as (w2 & b & out2 & Hm & HW2 & Hroom2).
  exists w2, b, out2, ps. split_and!; [|done..].
  unfold AppendRecord_buffer, AppendRecord, AppendRecord_loop, stored in *. rewrite Hz.
  destruct zl; [rewrite Hst|injection Hst as <-]; destruct buffer; simpl in Hl;
    cbn [mbind option_bind]; rewrite Hl; cbn [mbind option_bind]; done.
Qed.

(** ** The reader *)

Lemma read_header_spec p c :
  zlen (p_data p) < 2 ^ 24 ->
  read_header (enc p ++ c) = Some (flags_of p, zlen (p_data p), p_data p ++ c).
Proof.
  intros Hz. unfold read_header. pose proof (zlen_nonneg (p_data p)). pose proof (zlen_nonneg c).
  destruct (Z.leb_spec 4 (zlen (enc p ++ c))) as [_|H1]; [|rewrite zlen_app, zlen_enc in H1; lia].
  cbn [CHECK mbind option_bind].
  assert (E : enc p ++ c = wire Uint8 LILENDIAN (flags_of p) ++
                           (wire Uint24 BIGENDIAN (zlen (p_data p)) ++ (p_data p ++ c))).
  { unfold enc. change (be24 (zlen (p_data p))) with (wire Uint24 BIGENDIAN (zlen (p_data p))).
    by rewrite <- app_comm_cons, <- app_assoc. }
  rewrite E.
  unfold ReadByte. change kByteOrder with LILENDIAN. rewrite read_wire. cbn [mbind option_bind].
  unfold ReadUInt24. rewrite read_wire. cbn [mbind option_bind].
  do 3 f_equal.
  - f_equal. by destruct p as [[] [] ?].
  - apply wrapU_small. change (num_bits Uint24) with 24. lia.
Qed.

Lemma has_flags p : has (flags_of p) IS_FIRST = p_first p /\ has (flags_of p) HAS_CONT = p_cont p /\
  has (flags_of p) IS_ZIPPED = false.
Proof. by destruct p as [[] [] ?]. Qed.

(** The three numbers of a trailer. *)
Lemma ReadNextBlock_spec r inp :
  ok_size (r_block_size r) -> r_block_size r <= zlen inp ->
  let bs := r_block_size r in
  exists size prev crc,
    takeZ 12 (dropZ (bs - 12) inp) = be32 size ++ be32 prev ++ be32 crc /\
    - 2 ^ 31 <= size < 2 ^ 31 /\ - 2 ^ 31 <= prev < 2 ^ 31 /\ - 2 ^ 31 <= crc < 2 ^ 31 /\
    ReadNextBlock crc32 r inp =
      if negb (ComputeCRC crc32 (takeZ (bs - 4) inp) =? crc) || (bs - 12 <? size_t size)
      then Some (r, dropZ bs inp, READ_CRC_CORRUPTED)
      else Some (mkRecordReader bs (r_content r ++ takeZ size inp) (r_record r) crc (r_skip r),
                 dropZ bs inp,
                 if negb (prev =? 0) && negb (r_prev_crc r =? 0) && negb (prev =? r_prev_crc r)
                 then READ_CRC_BLOCK_BROKEN else READ_OK).
Proof.
  intros [Hb1 Hb2] Hlen bs. unfold kMaximumRecordBlockSize in Hb2. set (t := dropZ (bs - 12) inp).
  assert (Ht : 12 <= zlen t) by (unfold t; rewrite zlen_dropZ; lia).
  destruct (be32_value (takeZ 4 t)) as (size & Hsize & Hrs); [rewrite zlen_takeZ; lia|].
  destruct (be32_value (takeZ 4 (dropZ 4 t))) as (prev & Hprev & Hrp);
    [rewrite zlen_takeZ, zlen_dropZ; lia|].
  destruct (be32_value (takeZ 4 (dropZ 8 t))) as (crc & Hcrc & Hrc);
    [rewrite zlen_takeZ, zlen_dropZ; lia|].
  assert (Hd : t = be32 size ++ be32 prev ++ be32 crc ++ dropZ 12 t).
  { rewrite <- Hsize, <- Hprev, <- Hcrc. pose proof (takeZ_dropZ 4 t) as E1.
    pose proof (takeZ_dropZ 4 (dropZ 4 t)) as E2. pose proof (takeZ_dropZ 4 (dropZ 8 t)) as E3.
    rewrite dropZ_dropZ in E2, E3 by lia. change (4 + 4) with 8 in E2. change (8 + 4) with 12 in E3.
    by rewrite E3, E2, E1. }
  exists size, prev, crc. split_and!; [|lia..|].
  { rewrite Hd, !app_assoc, takeZ_app_l by (rewrite !zlen_app, !zlen_be32; lia).
    apply takeZ_all. rewrite !zlen_app, !zlen_be32. lia. }
  assert (Hn : size_t (bs - 12) = bs - 12) by (apply wrapU_small; lia).
  assert (Hi : int64 (bs - 12) = bs - 12) by (apply wrapS_small; lia).
  unfold ReadNextBlock, kBlockTrailerEnd. fold bs.
  destruct (Z.ltb_spec (zlen inp) bs); [lia|]. rewrite Hn, Hi.
  destruct (moved_some (bs - 12) inp) as [-> ->]; [lia|]. fold t.
  assert (Hc : forall z, - 2 ^ 31 <= z < 2 ^ 31 -> convert Int32 z = z)
    by (intros z Hz; by apply (wrapS_small 32)).
  assert (Hrd : forall z tl, - 2 ^ 31 <= z < 2 ^ 31 -> ReadInt32 (be32 z ++ tl) BIGENDIAN = Some (z, tl)).
  { intros z tl Hz. unfold ReadInt32, be32. rewrite read_wire. by rewrite Hc. }
  assert (Hrest : dropZ 12 t = dropZ bs inp).
  { unfold t. rewrite dropZ_dropZ by lia. f_equal. lia. }
  rewrite Hrest in Hd. cbv zeta. rewrite Hd, Hrd by done. cbn [mbind option_bind].
  rewrite Hrd by done. cbn [mbind option_bind]. rewrite Hrd by done.
  cbn [mbind option_bind]. unfold WriteInt32. rewrite !write_wire. cbn [mbind option_bind].
  rewrite !write_wire. cbn [mbind option_bind].
  assert (Hsz : int32 (size_t size) = size)
    by (rewrite <- (wrapS_small 32 size) at 2 by lia; apply int32_size_t).
  fold (be32 (int32 (size_t size))). fold (be32 prev). rewrite Hsz.
  assert (Htmp : (takeZ (bs - 12) inp ++ be32 size) ++ be32 prev = takeZ (bs - 4) inp).
  { rewrite <- app_assoc. replace (be32 size ++ be32 prev) with (takeZ 8 t).
    - unfold t. rewrite takeZ_takeZ_dropZ by lia. f_equal. lia.
    - rewrite Hd, app_assoc, takeZ_app_l by (rewrite zlen_app, !zlen_be32; lia).
      apply takeZ_all. rewrite zlen_app, !zlen_be32. lia. }
  rewrite Htmp. destruct (Z.eqb_spec (ComputeCRC crc32 (takeZ (bs - 4) inp)) crc); [|done].
  simpl. destruct (Z.ltb_spec (bs - 12) (size_t size)) as [|Hle]; [done|].
  assert (Hss : size_t size = size).
  { assert (size_t size < 2 ^ 31) by lia. rewrite <- Hsz at 2. symmetry. apply wrapS_small; [lia|].
    pose proof (wrapU_range 64 size ltac:(lia)). lia. }
  pose proof (wrapU_range 64 size ltac:(lia)). rewrite Hss in *.
  do 5 f_equal. rewrite (wrapS_small 64 size) by lia.
  destruct (moved_some size (takeZ (bs - 4) inp)) as [-> _]; [rewrite zlen_takeZ; lia|].
  unfold takeZ. rewrite take_take. f_equal. lia.
Qed.

Lemma be32_inj a b : - 2 ^ 31 <= a < 2 ^ 31 -> - 2 ^ 31 <= b < 2 ^ 31 -> be32 a = be32 b -> a = b.
Proof.
  intros Ha Hb E. pose proof (read_wire Int32 a [] BIGENDIAN) as Hr. fold (be32 a) in Hr.
  rewrite E in Hr. unfold be32 in Hr. rewrite read_wire in Hr. injection Hr as Hr.
  change (int32 b = int32 a) in Hr. by rewrite !wrapS_small in Hr by lia.
Qed.

Lemma zlen_body bs prev ps : fits bs ps -> zlen (body bs prev ps) = bs - 4.
Proof.
  intros Hf. pose proof (zlen_block bs prev ps Hf) as H. unfold block in H.
  rewrite zlen_app, zlen_be32 in H. lia.
Qed.

(** A block is read back when the checksum of the one before is unknown or right. *)
Lemma ReadNextBlock_block bs prev ps rest r :
  r_block_size r = bs -> ok_size bs -> fits bs ps -> is_int32 prev ->
  (prev = 0 \/ r_prev_crc r = 0 \/ r_prev_crc r = prev) ->
  ReadNextBlock crc32 r (block bs prev ps ++ rest) =
    Some (mkRecordReader bs (r_content r ++ enc_all ps) (r_record r) (block_crc bs prev ps) (r_skip r),
          rest, READ_OK).
Proof.
  intros Hbs Hok Hf Hprev Hcrc. pose proof (zlen_block bs prev ps Hf) as Hlen.
  pose proof (zlen_nonneg rest). pose proof (zlen_body bs prev ps Hf) as Hbody. pose proof Hok as [Hk1 Hk2].
  unfold kMaximumRecordBlockSize in Hk2. pose proof (zlen_nonneg (enc_all ps)). pose proof Hf as Hf'. unfold fits in Hf'.
  destruct (ReadNextBlock_spec r (block bs prev ps ++ rest)) as (size & prev' & crc & Htr & Hr1 & Hr2 & Hr3 & ->);
    [by rewrite Hbs|rewrite zlen_app; lia|]. rewrite Hbs in *.
  assert (E : takeZ 12 (dropZ (bs - 12) (block bs prev ps ++ rest)) =
              be32 (zlen (enc_all ps)) ++ be32 prev ++ be32 (block_crc bs prev ps)).
  { set (pad := replicate (Z.to_nat (bs - zlen (enc_all ps) - 12)) Byte.x00).
    assert (Hpad : zlen (enc_all ps ++ pad) = bs - 12).
    { rewrite zlen_app. unfold pad, zlen at 2. rewrite length_replicate. lia. }
    replace (block bs prev ps ++ rest) with ((enc_all ps ++ pad) ++
      ((be32 (zlen (enc_all ps)) ++ be32 prev ++ be32 (block_crc bs prev ps)) ++ rest))
      by (unfold block, body; by rewrite <- !app_assoc).
    rewrite dropZ_app_r, Hpad, Z.sub_diag, dropZ_0 by lia.
    rewrite takeZ_app_l, takeZ_all by (rewrite !zlen_app, !zlen_be32; lia). done. }
  rewrite E in Htr. apply app_inj_1 in Htr as [H1 Htr].
  2: { pose proof (zlen_be32 (zlen (enc_all ps))). pose proof (zlen_be32 size). unfold zlen in *. lia. }
  apply app_inj_1 in Htr as [H2 H3].
  2: { pose proof (zlen_be32 prev). pose proof (zlen_be32 prev'). unfold zlen in *. lia. }
  apply be32_inj in H1; [|lia..]. apply be32_inj in H2; [|done..].
  apply be32_inj in H3; [|apply block_crc_int32|done]. subst size prev' crc.
  assert (Hb : takeZ (bs - 4) (block bs prev ps ++ rest) = body bs prev ps).
  { unfold block. rewrite <- app_assoc, takeZ_app_l, takeZ_all by lia. done. }
  rewrite Hb. fold (block_crc bs prev ps). rewrite Z.eqb_refl, wrapU_small by lia.
  destruct (Z.ltb_spec (bs - 12) (zlen (enc_all ps))); [lia|]. simpl.
  rewrite dropZ_app_r, Hlen, Z.sub_diag, dropZ_0 by lia.
  rewrite takeZ_app_l by lia. unfold block, body. rewrite <- !app_assoc, takeZ_app_l, takeZ_all by lia.
  do 2 f_equal. destruct Hcrc as [->|[->| ->]]; [done|by rewrite andb_false_r|].
  by rewrite Z.eqb_refl, andb_false_r.
Qed.

(** The reader has the pieces [Q] before it, and then [tail], which is no block; behind
    them it knows the checksum [e] or none. *)
Definition small (p : piece) : Prop := zlen (p_data p) < 2 ^ 24.

Definition pending (bs e : Z) (tail : bytes) (r : RecordReader) (inp : bytes) (Q : list piece) : Prop :=
  r_block_size r = bs /\ r_skip r = false /\
  exists cs bls, r_content r = enc_all cs /\ Forall small cs /\
    inp = chain bs bls ++ tail /\ all_fit bs bls /\ cs ++ pieces bls = Q /\
    linked bs (r_prev_crc r) bls /\
    (last_crc bs (r_prev_crc r) bls = 0 \/ last_crc bs (r_prev_crc r) bls = e).

Lemma fits_small bs ps : ok_size bs -> fits bs ps -> Forall small ps.
Proof.
  intros [_ Hb] Hf. unfold kMaximumRecordBlockSize, fits in *.
  assert (H : zlen (enc_all ps) < 2 ^ 24 -> Forall small ps).
  { clear. induction ps as [|p ps IH]; intros H; constructor; rewrite enc_all_cons, zlen_app, zlen_enc in H;
      pose proof (zlen_nonneg (p_data p)); pose proof (zlen_nonneg (enc_all ps)).
    - unfold small. lia.
    - apply IH. lia. }
  apply H. lia.
Qed.

Lemma Skip_loop_idle mx r ns fuel : r_skip r = false ->
  loop (Skip_step mx) (S fuel) (r, ns) = Some (r, ns, false).
Proof. intros H. rewrite loop_S. unfold Skip_step. by rewrite H. Qed.

Lemma zlen_0_nil (l : bytes) : zlen l = 0 -> l = [].
Proof. destruct l as [|x l]; [done|]. rewrite zlen_cons. pose proof (zlen_nonneg l). lia. Qed.

(** The first part of a round: a piece is at the front of the content, or a block
    without any was read. *)
Lemma fetch_pending bs e tail r inp Q :
  ok_size bs -> zlen tail < bs -> pending bs e tail r inp Q ->
  (exists r' inp', fetch_block crc32 r inp = Some (r', inp', READ_OK) /\
     pending bs e tail r' inp' Q /\ r_record r' = r_record r /\
     ((r' = r /\ inp' = inp /\ r_content r' <> []) \/
      (zlen inp' + zlen (r_content r') < zlen inp /\ r_content r = []))) \/
  (Q = [] /\ inp = tail /\ r_content r = [] /\ fetch_block crc32 r inp = Some (r, inp, READ_NO_DATA)).
Proof.
  intros Hok Htail (Hbs & Hsk & cs & bls & Hc & Hsm & Hi & Hf & HQ & Hln & He).
  unfold fetch_block. destruct (Z.eqb_spec (zlen (r_content r)) 0) as [Hz|Hz].
  2: { left. exists r, inp. split_and!; [done| |done|]. { split_and!; [done..|]. by exists cs, bls. }
       left. split_and!; [done..|]. intros E. by rewrite E in Hz. }
  apply zlen_0_nil in Hz. pose proof Hz as Hnil.
  rewrite Hnil in Hc. symmetry in Hc. apply enc_all_nil in Hc. subst cs.
  destruct bls as [|[q ps] bls].
  - right. simpl in *. subst. split_and!; [done..|]. unfold ReadNextBlock.
    destruct (Z.ltb_spec (zlen tail) (r_block_size r)); [|lia]. simpl. by destruct r.
  - left. inversion Hf as [|? ? [Hf1 _] Hf2]; subst. destruct Hln as (Hq & Hlink & Hln). simpl in *.
    change ((q, ps) :: bls) with ([(q, ps)] ++ bls). rewrite chain_app, chain_one.
    rewrite <- app_assoc, ReadNextBlock_block by done. cbn [mbind option_bind].
    eexists _, _; split; [done|]. split_and!; [|done|].
    + split_and!; [done..|]. exists ps, bls.
      split_and!; try done; [by simpl; rewrite Hnil|by apply (fits_small (r_block_size r))].
    + right. split; [|done]. simpl. rewrite Hnil. simpl. rewrite !zlen_app, (zlen_block _ _ _ Hf1).
      unfold fits in Hf1. lia.
Qed.

Variable Inflate : bytes -> bytes * bool.

(** What a step leaves behind once the piece [p] is taken. *)
Definition taken (bs e : Z) (tail : bytes) (Q : list piece) (r : RecordReader) (rec : bytes)
    (r' : RecordReader) (inp : bytes) : Prop :=
  pending bs e tail r' inp Q /\ r_record r' = rec /\
  (length (r_content r') < length (r_content r))%nat.

Lemma pending_front bs e tail r inp p Q :
  pending bs e tail r inp (p :: Q) -> r_content r <> [] ->
  exists c, r_content r = enc p ++ c /\ small p /\ 0 <= zlen (p_data p) /\
    forall r' rec, r_block_size r' = r_block_size r -> r_skip r' = false -> r_record r' = rec ->
      r_prev_crc r' = r_prev_crc r -> r_content r' = c -> taken bs e tail Q r rec r' inp.
Proof.
  intros (Hbs & Hsk & cs & bls & Hc & Hsm & Hi & Hf & HQ & Hln & He) Hne.
  destruct cs as [|p' cs]; [by rewrite Hc in Hne|]. injection HQ as -> HQ.
  exists (enc_all cs). split; [by rewrite Hc|]. inversion Hsm; subst.
  split; [done|]. split; [apply zlen_nonneg|].
  intros r' rec Hb' Hs' Hr' Hp' Hc'. unfold taken. split_and!; [|done|].
  - split_and!; [done..|]. exists cs, bls. by rewrite Hp'.
  - rewrite Hc, Hc', enc_all_cons, length_app. simpl. lia.
Qed.

Lemma moved_front d c : moved (zlen d) (d ++ c) = d /\ left_in (zlen d) (d ++ c) = c.
Proof.
  pose proof (zlen_nonneg d). pose proof (zlen_nonneg c).
  destruct (moved_some (zlen d) (d ++ c)) as [-> ->]; [rewrite zlen_app; lia|].
  rewrite takeZ_app_l, takeZ_all, dropZ_app_r, Z.sub_diag by lia. done.
Qed.

Lemma record_empty (l : bytes) : (0 <? zlen l) = negb (bool_decide (l = [])) /\
  (zlen l =? 0) = bool_decide (l = []).
Proof.
  destruct l as [|x l]; [done|]. rewrite zlen_cons. pose proof (zlen_nonneg l).
  by destruct (Z.ltb_spec 0 (1 + zlen l)), (Z.eqb_spec (1 + zlen l) 0); try lia.
Qed.

(** What [ReadRecord] makes of the pieces before it: [acc] is the record in progress, and
    [keep] says whether there is an output to copy to. *)
Inductive fed :=
  | FEnd (acc : bytes) (ns : Z)
  | FRecord (rec : bytes) (ns : Z) (Q : list piece)
  | FBroken (ns : Z) (Q : list piece)
  | FEnough (ns : Z) (Q : list piece).

Fixpoint feed (keep : bool) (mx : Z) (acc : bytes) (ns : Z) (Q : list piece) : fed :=
  match Q with
  | [] => FEnd acc ns
  | p :: Q =>
      if p_first p && negb (bool_decide (acc = [])) then FBroken (ns + 1) Q
      else if keep && bool_decide (acc = []) && negb (p_first p) then
        if negb (mx =? 0) && (mx <=? ns + 1) then FEnough (ns + 1) Q
        else feed keep mx acc (ns + 1) Q
      else
        let acc := if keep then acc ++ p_data p else acc in
        if p_cont p then feed keep mx acc ns Q else FRecord acc ns Q
  end.

(** The answer of [ReadRecord] for what the pieces give. *)
Definition answers (bs e : Z) (tail : bytes) (out : option bytes) (F : fed) (a : read_answer) : Prop :=
  let '(r, inp, ns, out', ret) := a in
  match F with
  | FEnd acc n => ns = n /\ inp = tail /\ out' = out /\ ret = READ_NO_DATA /\
      pending bs e tail r inp [] /\ r_record r = acc
  | FRecord rec n Q => ns = n /\ out' = (o ← out; Some (o ++ rec)) /\ ret = READ_OK /\
      pending bs e tail r inp Q /\ r_record r = []
  | FBroken n Q => ns = n /\ out' = out /\ ret = READ_CRC_CORRUPTED /\
      pending bs e tail r inp Q /\ r_record r = []
  | FEnough n Q => ns = n /\ out' = out /\ ret = READ_OK /\
      pending bs e tail r inp Q /\ r_record r = []
  end.

Lemma take_piece_feed bs e tail r inp p Q out ns mx :
  pending bs e tail r inp (p :: Q) -> r_content r <> [] ->
  let keep := bool_decide (is_Some out) in
  exists x, take_piece Inflate out mx (r, inp, ns) = Some x /\
    match x with
    | inl (r', inp', ns') => inp' = inp /\ (length (r_content r') < length (r_content r))%nat /\
        pending bs e tail r' inp Q /\ feed keep mx (r_record r') ns' Q = feed keep mx (r_record r) ns (p :: Q)
    | inr a => answers bs e tail out (feed keep mx (r_record r) ns (p :: Q)) a
    end.
Proof.
  intros HP Hne keep. pose proof HP as (_ & Hsk & _).
  destruct (pending_front _ _ _ _ _ _ _ HP Hne) as (c & Hc & Hsm & Hpos & Hnext).
  unfold take_piece. rewrite Hc, read_header_spec by done. cbn [mbind option_bind].
  destruct (has_flags p) as (-> & -> & ->). destruct (record_empty (r_record r)) as [-> ->].
  destruct (moved_front (p_data p) c) as [-> ->]. fold keep. cbn [feed].
  assert (Hd : dropZ (zlen (p_data p)) (p_data p ++ c) = c)
    by (rewrite dropZ_app_r, Z.sub_diag by lia; done).
  rewrite Hd, <- Hc. set (emp := bool_decide (r_record r = [])).
  destruct (p_first p && negb emp).
  { eexists; split; [done|]. split_and!; try done. by apply (Hnext _ []). }
  destruct (keep && emp && negb (p_first p)) eqn:Hlead.
  { assert (Hr : r_record r = []).
    { apply andb_true_iff in Hlead as [Hl _]. apply andb_true_iff in Hl as [_ Hl].
      by apply bool_decide_eq_true in Hl. }
    destruct (Hnext (with_content r c) (r_record r)) as (HP' & _ & Hlt); [done..|].
    destruct (negb (mx =? 0) && (mx <=? ns + 1)); (eexists; split; [done|]); by split_and!. }
  destruct out as [o|]; simpl in keep; subst keep; cbv iota in *.
  - destruct (Hnext (with_record r c (r_record r ++ p_data p)) (r_record r ++ p_data p))
      as (HP' & _ & Hlt); [done..|].
    destruct (p_cont p); [eexists; split; [done|]; by split_and!|].
    eexists; split; [done|]. by split_and!.
  - destruct (Hnext (with_content r c) (r_record r)) as (HP' & _ & Hlt); [done..|].
    destruct (p_cont p); [eexists; split; [done|]; by split_and!|].
    eexists; split; [done|]. by split_and!.
Qed.

Lemma ReadRecord_step_fetched out mx r inp ns r' inp' :
  fetch_block crc32 r inp = Some (r', inp', READ_OK) -> r_skip r' = false ->
  ReadRecord_step crc32 Inflate out mx (r, inp, ns) =
    if zlen (r_content r') =? 0 then Some (inl (r', inp', ns))
    else take_piece Inflate out mx (r', inp', ns).
Proof.
  intros Hf Hsk. unfold ReadRecord_step. rewrite Hf. cbn [mbind option_bind].
  by rewrite bool_decide_eq_true_2, Skip_loop_idle by done.
Qed.

Definition left_to_read (s : read_state) : nat :=
  let '(r, inp, _) := s in (length inp + length (r_content r))%nat.

(** [ReadRecord] terminates and does what [feed] does on the pieces before it. *)
Lemma ReadRecord_feed bs e tail r inp Q out ns mx :
  ok_size bs -> zlen tail < bs -> pending bs e tail r inp Q ->
  exists a, ReadRecord crc32 Inflate r inp out ns mx = Some a /\
    answers bs e tail out (feed (bool_decide (is_Some out)) mx (r_record r) ns Q) a.
Proof.
  intros Hok Htail HP. unfold ReadRecord. set (keep := bool_decide (is_Some out)).
  set (F := feed keep mx (r_record r) ns Q).
  apply (loop_total (ReadRecord_step crc32 Inflate out mx)
    (fun '(r', inp', n) => exists Q', pending bs e tail r' inp' Q' /\ feed keep mx (r_record r') n Q' = F)
    (answers bs e tail out F) left_to_read); [|by exists Q|unfold read_fuel; simpl; lia].
  intros [[r1 inp1] ns1] (Q1 & HP1 & HF).
  destruct (fetch_pending _ _ _ _ _ _ Hok Htail HP1) as [(r2 & inp2 & Hf & HP2 & Hrec2 & Hcase)|(-> & -> & _ & Hf)].
  2: { unfold ReadRecord_step. rewrite Hf. cbn [mbind option_bind]. simpl.
       eexists; split; [done|]. simpl in HF. rewrite <- HF. by split_and!. }
  rewrite (ReadRecord_step_fetched _ _ _ _ _ _ _ Hf) by apply HP2. rewrite <- Hrec2 in HF.
  assert (Hle : (left_to_read (r2, inp2, ns1) <= left_to_read (r1, inp1, ns1))%nat).
  { destruct Hcase as [(-> & -> & _)|[Hlt _]]; simpl; unfold zlen in *; lia. }
  destruct (Z.eqb_spec (zlen (r_content r2)) 0) as [Hz|Hz].
  - apply zlen_0_nil in Hz. eexists; split; [done|]. split; [by exists Q1|].
    destruct Hcase as [(-> & -> & ?)|[Hlt _]]; [done|]. simpl. unfold zlen in *. lia.
  - assert (Hne : r_content r2 <> []) by (intros E; by rewrite E in Hz).
    destruct Q1 as [|p Q1].
    { pose proof HP2 as (_ & _ & cs & bls & Hc & _ & _ & _ & HQ & _).
      apply app_nil in HQ as [-> _]. done. }
    destruct (take_piece_feed _ _ _ _ _ _ _ out ns1 mx HP2 Hne) as (x & Hx & Hq). fold keep in Hq.
    exists x. split; [done|]. destruct x as [[[r' inp'] ns']|a]; [|by rewrite <- HF].
    destruct Hq as (-> & Hlt & HP' & HF'). split; [exists Q1; by rewrite HF'|]. simpl in *. lia.
Qed.
End Spec.

(** ** What [feed] makes of the pieces of records *)

Definition nonfirst (p : piece) : Prop := p_first p = false.

Lemma feed_lead lead ns Q : Forall nonfirst lead ->
  feed true 0 [] ns (lead ++ Q) = feed true 0 [] (ns + zlen lead) Q.
Proof.
  intros H. revert ns. induction H as [|p lead Hp H IH]; intros ns.
  - change (zlen []) with 0. by rewrite Z.add_0_r.
  - simpl. rewrite Hp. simpl. rewrite IH, zlen_cons. f_equal. lia.
Qed.

(** The pieces of a record, the first of them, or the ones after [acc]. *)
Lemma feed_split ps : forall acc rest ns Q, split (bool_decide (acc = [])) rest ps ->
  feed true 0 acc ns (ps ++ Q) = FRecord (acc ++ rest) ns Q.
Proof.
  induction ps as [|p ps IH]; intros acc rest ns Q H; [done|]. destruct H as [Hfirst H].
  simpl. rewrite Hfirst. destruct ps as [|p' ps].
  - destruct H as [-> <-]. by destruct (bool_decide (acc = [])).
  - destruct H as (-> & Hne & r' & -> & Hsp). rewrite app_assoc, <- (IH _ r').
    + by destruct (bool_decide (acc = [])).
    + rewrite bool_decide_eq_false_2; [done|]. intros E. by apply app_nil in E as [_ ?].
Qed.

(** [feed] in two parts, and without the number of skipped records. *)
Definition forget (F : fed) : fed :=
  match F with
  | FEnd acc _ => FEnd acc 0
  | FRecord rec _ Q => FRecord rec 0 Q
  | FBroken _ Q => FBroken 0 Q
  | FEnough _ Q => FEnough 0 Q
  end.

Lemma feed_forget keep Q : forall acc n m,
  forget (feed keep 0 acc n Q) = forget (feed keep 0 acc m Q).
Proof.
  induction Q as [|p Q IH]; intros acc n m; [done|]. simpl.
  destruct (p_first p && _); [done|]. destruct (keep && _ && _); [apply IH|].
  destruct (p_cont p); [apply IH|done].
Qed.

Lemma feed_app keep mx Q1 Q2 : forall acc n,
  feed keep mx acc n (Q1 ++ Q2) =
  match feed keep mx acc n Q1 with
  | FEnd acc n => feed keep mx acc n Q2
  | FRecord rec n Q => FRecord rec n (Q ++ Q2)
  | FBroken n Q => FBroken n (Q ++ Q2)
  | FEnough n Q => FEnough n (Q ++ Q2)
  end.
Proof.
  induction Q1 as [|p Q1 IH]; intros acc n; [done|]. simpl.
  destruct (p_first p && _); [done|]. destruct (keep && _ && _).
  - destruct (negb _ && _); [done|apply IH].
  - destruct (p_cont p); [apply IH|done].
Qed.
