(* ===== verification/RecordIOProps.v ===== *)
(** * RecordIO: files of records

    The theorems on whole files: what a client that appends records and a client that
    reads them see. *)

From S2P Require Import Prelude.
From S2P Require Import NumStreaming.
From S2P Require Import RecordIO.
From S2P Require Import RecordIOSpec.

Section Files.
Variable crc32 : Z -> bytes -> Z.
Variable Deflate : bytes -> option bytes.
Variable Inflate : bytes -> bytes * bool.

(** A client that appends records, each from a buffer or from a stream. *)
Fixpoint write_records (w : RecordWriter) (recs : list (bool * bytes)) (out : bytes)
    : option (RecordWriter * bytes) :=
  match recs with
  | [] => Some (w, out)
  | (buffer, r) :: recs =>
      '(w, _, out) ← (if (buffer : bool) then AppendRecord_buffer crc32 Deflate w r out
                      else AppendRecord crc32 Deflate w r out);
      write_records w recs out
  end.

(** The whole file: a new writer, the records, and the last block. *)
Definition write_file (bs d : Z) (zl : bool) (recs : list (bool * bytes)) : option bytes :=
  w ← RecordWriter_new bs d zl;
  '(w, out) ← write_records w recs [];
  '(_, out) ← FinalizeContent crc32 w out;
  Some out.

(** A client that reads [n] records, all of them without an error. *)
Fixpoint read_records (n : nat) (r : RecordReader) (inp : bytes) (num_skipped : Z)
    : option (list bytes * Z * RecordReader * bytes) :=
  match n with
  | O => Some ([], num_skipped, r, inp)
  | S n =>
      '(r, inp, num_skipped, out, ret) ← ReadRecord crc32 Inflate r inp (Some []) num_skipped 0;
      CHECK (bool_decide (ret = READ_OK));;
      rec ← out;
      '(recs, num_skipped, r, inp) ← read_records n r inp num_skipped;
      Some (rec :: recs, num_skipped, r, inp)
  end.

(** A client that reads the records of a file from the byte [pos] to the end. *)
Definition reads_all (bs : Z) (file : bytes) (recs : list bytes) (num_skipped : Z) : Prop :=
  exists ns r inp r',
    read_records (length recs) (RecordReader_new bs) file 0 = Some (recs, ns, r, inp) /\
    ReadRecord crc32 Inflate r inp (Some []) ns 0 = Some (r', [], num_skipped, Some [], READ_NO_DATA).

(** What can be appended: the stored form is not empty, except from a buffer. *)
Definition storable (zl : bool) (x : bool * bytes) (s : bytes) : Prop :=
  stored Deflate zl x.2 = Some s /\ (x.1 && negb zl = false -> s <> []).

Lemma write_records_spec bs d zl F out0 recs ss :
  ok_size bs -> d + 16 < bs -> Forall2 (storable zl) recs ss -> forall P w out,
  written crc32 bs d zl F out0 P w out -> room w ->
  exists w' out' pss, write_records w recs out = Some (w', out') /\
    written crc32 bs d zl F out0 (P ++ concat pss) w' out' /\ room w' /\ Forall2 (split true) ss pss.
Proof.
  intros Hok Hd H. induction H as [|[buffer r] s recs ss [Hst Hne] H IH]; intros P w out HW Hroom.
  all: cbn [fst snd] in *.
  - exists w, out, []. by rewrite app_nil_r.
  - destruct (AppendRecord_spec crc32 Deflate _ _ _ _ _ _ _ _ _ _ buffer Hok Hd HW Hroom Hst Hne)
      as (w1 & b & out1 & ps & Hadd & HW1 & Hroom1 & Hsp).
    destruct (IH _ _ _ HW1 Hroom1) as (w2 & out2 & pss & Hwr & HW2 & Hroom2 & Hf).
    exists w2, out2, (ps :: pss). split_and!; [|by simpl; rewrite app_assoc|done|by constructor].
    simpl. rewrite Hadd. cbn [mbind option_bind]. done.
Qed.

Lemma read_records_spec bs e tail ss pss :
  ok_size bs -> zlen tail < bs -> Forall2 (split true) ss pss -> forall r inp lead ns,
  pending crc32 bs e tail r inp (lead ++ concat pss) -> Forall nonfirst lead -> r_record r = [] ->
  exists ns' r' inp' r'', read_records (length ss) r inp ns = Some (ss, ns', r', inp') /\
    ReadRecord crc32 Inflate r' inp' (Some []) ns' 0 = Some (r'', tail, ns + zlen lead, Some [], READ_NO_DATA).
Proof.
  intros Hok Htail H. induction H as [|s ps ss pss Hsp H IH]; intros r inp lead ns HP Hl Hr.
  - destruct (ReadRecord_feed crc32 Inflate bs e tail r inp _ (Some []) ns 0 Hok Htail HP)
      as ([[[[r' inp'] ns'] out] ret] & HR & Ha).
    change (bool_decide (is_Some (Some _))) with true in Ha. rewrite Hr, feed_lead in Ha by done.
    simpl in Ha. destruct Ha as (-> & -> & -> & -> & _). by exists ns, r, inp, r'.
  - destruct (ReadRecord_feed crc32 Inflate bs e tail r inp _ (Some []) ns 0 Hok Htail HP)
      as ([[[[r1 inp1] ns1] out] ret] & HR & Ha).
    change (bool_decide (is_Some (Some _))) with true in Ha. rewrite Hr, feed_lead in Ha by done.
    simpl concat in Ha. rewrite (feed_split ps [] s) in Ha by done.
    destruct Ha as (-> & -> & -> & HP1 & Hr1). simpl app in HR.
    destruct (IH r1 inp1 [] (ns + zlen lead) HP1) as (ns' & r' & inp' & r'' & Hrd & Hend); [done..|].
    exists ns', r', inp', r''. change (zlen []) with 0 in Hend. rewrite Z.add_0_r in Hend.
    split; [|done]. simpl. rewrite HR. cbn [mbind option_bind]. simpl. by rewrite Hrd.
Qed.

Lemma new_writer bs d zl : ok_size bs ->
  exists w, RecordWriter_new bs d zl = Some w /\ written crc32 bs d zl [] [] [] w [] /\ room w.
Proof.
  intros [H1 H2]. unfold RecordWriter_new. destruct (Z.ltb_spec bs kMaximumRecordBlockSize); [|lia].
  eexists; split; [done|]. split; [|unfold room; simpl; change (zlen []) with 0; lia].
  split_and!; [done..|]. exists [], []. split_and!; try done; [constructor| |by left].
  unfold fits. change (zlen (enc_all [])) with 0. lia.
Qed.

(** A new reader at a block. *)
Lemma new_reader bs p bls : all_fit bs bls -> linked crc32 bs p bls ->
  pending crc32 bs (last_crc crc32 bs 0 bls) [] (RecordReader_new bs) (chain crc32 bs bls) (pieces bls).
Proof.
  intros Hf Hl. split_and!; [done..|]. exists [], bls. split_and!; try done; [by rewrite app_nil_r|by apply linked_0 in Hl|by right].
Qed.

Lemma write_records_app recs_a recs_b : forall w out,
  write_records w (recs_a ++ recs_b) out =
  ('(w, out) ← write_records w recs_a out; write_records w recs_b out).
Proof.
  induction recs_a as [|[bf r] recs_a IH]; intros w out; [done|]. simpl.
  destruct (if bf then _ else _) as [[[v1 b1] o1]|]; [|done]. cbn [mbind option_bind]. apply IH.
Qed.

Lemma write_file_spec bs d zl recs_a recs_b ss_a ss_b :
  ok_size bs -> d + 16 < bs -> Forall2 (storable zl) recs_a ss_a -> Forall2 (storable zl) recs_b ss_b ->
  exists w0 w out pss_a pss_b bl0 cur0 bl1,
    RecordWriter_new bs d zl = Some w0 /\ write_records w0 recs_a [] = Some (w, out) /\
    zlen out = zlen bl0 * bs /\
    write_file bs d zl (recs_a ++ recs_b) = Some (chain crc32 bs (bl0 ++ bl1)) /\
    all_fit bs (bl0 ++ bl1) /\ linked crc32 bs 0 (bl0 ++ bl1) /\
    Forall2 (split true) ss_a pss_a /\ Forall2 (split true) ss_b pss_b /\
    pieces bl0 ++ cur0 = concat pss_a /\ pieces bl1 = cur0 ++ concat pss_b.
Proof.
  intros Hok Hd Ha Hb. destruct (new_writer bs d zl Hok) as (w0 & Hn & HW0 & Hr0).
  destruct (write_records_spec bs d zl [] [] recs_a ss_a Hok Hd Ha [] w0 [] HW0 Hr0)
    as (w & out & pss_a & Hwr & HW & Hroom & Hsa). rewrite app_nil_l in HW.
  destruct (written_taken crc32 _ _ _ _ _ _ _ _ HW) as (bl0 & cur0 & Ho & Hf0 & _ & HP0 & _ & HW1).
  specialize (HW1 out). rewrite app_nil_l in *.
  destruct (write_records_spec bs d zl bl0 out recs_b ss_b Hok Hd Hb _ w out HW1 Hroom)
    as (w2 & out2 & pss_b & Hwr2 & HW2 & _ & Hsb).
  destruct (written_finalize crc32 _ _ _ _ _ _ _ _ Hok HW2) as (w3 & out3 & Hfin & HW3 & Hnil).
  destruct (written_taken crc32 _ _ _ _ _ _ _ _ HW3) as (bl1 & cur1 & Ho3 & Hf1 & Hln & HP1 & Hc1 & _).
  rewrite (Hc1 Hnil), app_nil_r, pieces_app in HP1.
  exists w0, w, out, pss_a, pss_b, bl0, cur0, bl1. split_and!; try done.
  - rewrite Ho. by apply zlen_chain.
  - unfold write_file. rewrite Hn. cbn [mbind option_bind].
    rewrite write_records_app, Hwr. cbn [mbind option_bind]. rewrite Hwr2. cbn [mbind option_bind].
    rewrite Hfin. cbn [mbind option_bind]. by rewrite Ho3, Ho, chain_app.
  - by apply Forall_app.
  - rewrite <- HP0, <- app_assoc in HP1. by apply app_inv_head in HP1.
Qed.
End Files.

(** ** Reading from the middle *)

Lemma split_nonfirst first r p ps : split first r (p :: ps) -> Forall nonfirst ps.
Proof.
  revert first r p. induction ps as [|q ps IH]; intros first r p H; [constructor|].
  destruct H as (_ & _ & _ & r' & _ & H). constructor; [by destruct H|]. by apply (IH false r' q).
Qed.

(** What is left of the pieces of some records behind the first of them. *)
Lemma pieces_suffix ss pss : Forall2 (split true) ss pss -> forall A B, concat pss = A ++ B ->
  exists ss0 ss1 lead pss1, ss = ss0 ++ ss1 /\ B = lead ++ concat pss1 /\
    Forall nonfirst lead /\ Forall2 (split true) ss1 pss1.
Proof.
  induction 1 as [|s ps ss pss Hsp H IH]; intros A B E.
  { symmetry in E. apply app_nil in E as [-> ->]. by exists [], [], [], []. }
  destruct A as [|a A].
  { exists [], (s :: ss), [], (ps :: pss). split_and!; try done. by constructor. }
  change (ps ++ concat pss = (a :: A) ++ B) in E.
  apply app_eq_app in E as [l [[E1 E2]|[E1 E2]]].
  - exists [s], ss, l, pss. split_and!; [done..| |done]. rewrite E1 in Hsp.
    apply split_nonfirst in Hsp. by apply Forall_app in Hsp as [_ ?].
  - destruct (IH l B E2) as (ss0 & ss1 & lead & pss1 & -> & ? & ? & ?).
    by exists (s :: ss0), ss1, lead, pss1.
Qed.

Lemma storable_plain Deflate recs : Forall (fun x : bool * bytes => x.1 = false -> x.2 <> []) recs ->
  Forall2 (storable Deflate false) recs (snd <$> recs).
Proof.
  induction 1 as [|x recs Hx H IH]; constructor; [|done]. split; [done|].
  by rewrite andb_true_r.
Qed.

Lemma reads_all_chain crc32 Inflate bs p bls ss pss lead :
  ok_size bs -> all_fit bs bls -> linked crc32 bs p bls -> Forall2 (split true) ss pss ->
  Forall nonfirst lead -> pieces bls = lead ++ concat pss ->
  reads_all crc32 Inflate bs (chain crc32 bs bls) ss (zlen lead).
Proof.
  intros Hok Hf Hln Hs Hl Hc. pose proof (new_reader crc32 bs p bls Hf Hln) as HP. rewrite Hc in HP.
  destruct (read_records_spec crc32 Inflate bs (last_crc crc32 bs 0 bls) [] ss pss) with (lead := lead) (ns := 0)
    (r := RecordReader_new bs) (inp := chain crc32 bs bls)
    as (ns & r & inp & r' & H1 & H2); try done.
  { destruct Hok. change (zlen []) with 0. lia. }
  by exists ns, r, inp, r'.
Qed.

(** C13: records appended to a file, from buffers or from streams that are not empty, are read
    back one by one, none skipped, and then there is no data, for every block size between 17
    and the maximum and every dump threshold more than 16 below it (closer to it a nearly full
    block is not dumped, and the writer fails a [CHECK]), however the records are cut into
    blocks and whatever the checksum function is. *)
Theorem write_read_file crc32 Deflate Inflate bs d recs :
  16 < bs < kMaximumRecordBlockSize -> d + 16 < bs ->
  Forall (fun x : bool * bytes => x.1 = false -> x.2 <> []) recs ->
  exists file, write_file crc32 Deflate bs d false recs = Some file /\
    (exists n, zlen file = n * bs) /\
    reads_all crc32 Inflate bs file (snd <$> recs) 0.
Proof.
  intros Hok Hd Hr. destruct (write_file_spec crc32 Deflate bs d false [] recs [] (snd <$> recs) Hok Hd)
    as (w0 & w & out & pss_a & pss & bl0 & cur0 & bl1 & _ & _ & _ & Hfile & Hfits & Hln & Ha & Hb & Hc0 & Hc1);
    [constructor|by apply storable_plain|].
  inversion Ha; subst. apply app_nil in Hc0 as [Hc0 ->].
  eexists; split; [done|]. split; [exists (zlen (bl0 ++ bl1)); by apply zlen_chain|].
  apply (reads_all_chain crc32 Inflate bs 0 (bl0 ++ bl1) _ pss []); try done.
  by rewrite pieces_app, Hc0, Hc1.
Qed.

Definition sample_crc (c : Z) (b : bytes) : Z := fold_left (fun c x => uint32 (c * 31 + uchar x)) b c.
Definition sample_recs : list (bool * bytes) :=
  [(false, bstr "a record of more than one block, cut"); (true, []); (true, bstr "x"); (false, bstr "last")].

Lemma write_read_file_witness :
  (16 < 30 < kMaximumRecordBlockSize /\ 10 + 16 < 30) /\
  exists file, write_file sample_crc (fun _ => None) 30 10 false sample_recs = Some file /\
    (exists n, zlen file = n * 30) /\
    reads_all sample_crc (fun _ => ([], false)) 30 file (snd <$> sample_recs) 0.
Proof.
  split; [unfold kMaximumRecordBlockSize; lia|].
  apply (write_read_file sample_crc (fun _ => None) (fun _ => ([], false)) 30 10 sample_recs);
    [unfold kMaximumRecordBlockSize; lia|lia|].
  repeat constructor; simpl; intros; discriminate.
Defined.

(** A reader that starts at any block boundary of the file recovers: it skips the rest
    of the record it lands in and then reads a suffix of the records, and every record
    appended after that boundary was written out is among them. *)
Theorem read_from_any_block crc32 Deflate Inflate bs d w0 w recs_a recs_b out file k :
  16 < bs < kMaximumRecordBlockSize -> d + 16 < bs ->
  Forall (fun x : bool * bytes => x.1 = false -> x.2 <> []) (recs_a ++ recs_b) ->
  RecordWriter_new bs d false = Some w0 ->
  write_records crc32 Deflate w0 recs_a [] = Some (w, out) ->
  write_file crc32 Deflate bs d false (recs_a ++ recs_b) = Some file ->
  0 <= k -> k * bs <= zlen out ->
  exists lost kept n, snd <$> recs_a = lost ++ kept /\
    reads_all crc32 Inflate bs (dropZ (k * bs) file) (kept ++ (snd <$> recs_b)) n.
Proof.
  intros Hok Hd Hr Hw0 Hwr Hfile Hk Hkl. apply Forall_app in Hr as [Hra Hrb].
  destruct (write_file_spec crc32 Deflate bs d false recs_a recs_b _ _ Hok Hd
              (storable_plain Deflate _ Hra) (storable_plain Deflate _ Hrb))
    as (w0' & w' & out' & pss_a & pss & bl0 & cur0 & bl1 & Hw0' & Hwr' & Hlen & Hfile' & Hfits & Hln & Ha & Hb & Hc0 & Hc1).
  simplify_eq. rewrite Hlen in Hkl. destruct Hok as [Hb1 Hb2]. assert (Hk' : k <= zlen bl0) by nia.
  rewrite <- (takeZ_dropZ k bl0), pieces_app, <- app_assoc in Hc0. symmetry in Hc0.
  destruct (pieces_suffix _ _ Ha _ _ Hc0) as (ss0 & ss1 & lead & pss1 & Hss & Hlead & Hnf & Hs1).
  exists ss0, ss1, (zlen lead). split; [done|].
  rewrite <- (takeZ_dropZ k bl0) in Hfits, Hln |- *. rewrite <- app_assoc in Hfits, Hln |- *.
  apply Forall_app in Hfits as [Hf0 Hf1]. apply linked_app in Hln as [_ Hln].
  assert (Hz : zlen (chain crc32 bs (takeZ k bl0)) = k * bs).
  { rewrite zlen_chain by done. rewrite zlen_takeZ by lia. f_equal. lia. }
  rewrite chain_app, dropZ_app_r, Hz, Z.sub_diag, dropZ_0 by lia.
  eapply (reads_all_chain crc32 Inflate bs _ _ _ (pss1 ++ pss)); try done.
  - by apply Forall2_app.
  - by rewrite pieces_app, Hc1, app_assoc, Hlead, concat_app, app_assoc.
Qed.

Lemma read_from_any_block_witness :
  exists w0 w out file,
    RecordWriter_new 30 10 false = Some w0 /\
    write_records sample_crc (fun _ => None) w0 [(false, bstr "a record of more than one block"); (true, bstr "b")] []
      = Some (w, out) /\
    write_file sample_crc (fun _ => None) 30 10 false
      ([(false, bstr "a record of more than one block"); (true, bstr "b")] ++ [(true, bstr "c")]) = Some file /\
    1 * 30 <= zlen out /\
    exists lost kept n, snd <$> [(false, bstr "a record of more than one block"); (true, bstr "b")] = lost ++ kept /\
      reads_all sample_crc (fun _ => ([], false)) 30 (dropZ (1 * 30) file) (kept ++ [bstr "c"]) n.
Proof.
  eexists _, _, _, _. split; [reflexivity|]. split; [vm_compute; reflexivity|].
  split; [vm_compute; reflexivity|]. split; [vm_compute; discriminate|].
  eapply (read_from_any_block sample_crc (fun _ => None) _ 30 10 _ _ _ [(true, bstr "c")] _ _ 1);
    [unfold kMaximumRecordBlockSize; lia|lia| |reflexivity|vm_compute; reflexivity
    |vm_compute; reflexivity|lia|vm_compute; discriminate].
  repeat constructor; simpl; intros; discriminate.
Defined.

(** A writer that deflates never marks a record as zipped, so the reader hands out the
    compressed bytes of every record, whatever inflation would give. *)
Theorem deflated_records_stay_deflated crc32 Deflate Inflate bs d recs zs :
  16 < bs < kMaximumRecordBlockSize -> d + 16 < bs ->
  Forall2 (fun (x : bool * bytes) z => Deflate x.2 = Some z /\ z <> []) recs zs ->
  exists file, write_file crc32 Deflate bs d true recs = Some file /\
    reads_all crc32 Inflate bs file zs 0.
Proof.
  intros Hok Hd Hr. destruct (write_file_spec crc32 Deflate bs d true [] recs [] zs Hok Hd)
    as (w0 & w & out & pss_a & pss & bl0 & cur0 & bl1 & _ & _ & _ & Hfile & Hfits & Hln & Ha & Hb & Hc0 & Hc1);
    [constructor|revert Hr; apply Forall2_impl; by intros x z [H ?]|].
  inversion Ha; subst. apply app_nil in Hc0 as [Hc0 ->]. eexists; split; [done|].
  apply (reads_all_chain crc32 Inflate bs 0 (bl0 ++ bl1) _ pss []); try done.
  by rewrite pieces_app, Hc0, Hc1.
Qed.

Lemma deflated_records_stay_deflated_witness :
  exists file, write_file sample_crc (fun r => Some (Byte.x78 :: rev r)) 30 10 true [(true, bstr "abc")] = Some file /\
    reads_all sample_crc (fun z => (rev (tl z), true)) 30 file [Byte.x78 :: bstr "cba"] 0.
Proof.
  apply (deflated_records_stay_deflated sample_crc (fun r => Some (Byte.x78 :: rev r))
           (fun z => (rev (tl z), true)) 30 10); [unfold kMaximumRecordBlockSize; lia|lia|].
  repeat constructor. discriminate.
Defined.

(** The checksum at the end of a block. *)
Definition stored_crc (blk : bytes) : Z := int32 (le_value (rev (dropZ (zlen blk - 4) blk))).

(** A block whose last four bytes are not the checksum of the rest is reported, and
    consumed, and nothing else changes: the record in progress, the output and the number
    of skipped records are as before. *)
Theorem corrupt_block_reported crc32 Inflate r blk rest out ns mx :
  16 < r_block_size r < kMaximumRecordBlockSize -> zlen blk = r_block_size r -> r_content r = [] ->
  ComputeCRC crc32 (takeZ (zlen blk - 4) blk) <> stored_crc blk ->
  ReadRecord crc32 Inflate r (blk ++ rest) out ns mx = Some (r, rest, ns, out, READ_CRC_CORRUPTED).
Proof.
  intros Hok Hlen Hnil Hcrc. pose proof (zlen_nonneg rest). set (bs := r_block_size r) in *.
  destruct (ReadNextBlock_spec crc32 r (blk ++ rest) Hok) as (size & prev & crc & Ht & _ & _ & Hr3 & Hread);
    [rewrite zlen_app; fold bs; lia|]. fold bs in Ht, Hread.
  assert (E : stored_crc blk = crc).
  { unfold stored_crc. rewrite dropZ_app_l, takeZ_app_l in Ht by (rewrite ?zlen_dropZ; lia).
    rewrite takeZ_all in Ht by (rewrite zlen_dropZ; lia). apply (f_equal (dropZ 8)) in Ht.
    rewrite dropZ_dropZ in Ht by lia. replace (bs - 12 + 8) with (bs - 4) in Ht by lia.
    rewrite app_assoc, dropZ_app_r, zlen_app, !zlen_be32 in Ht by (rewrite zlen_app, !zlen_be32; lia).
    rewrite Hlen, Ht. unfold be32, wire. simpl (8 - (4 + 4)). rewrite dropZ_0, rev_involutive, le_value_bytes.
    change (int32 (wrapU 32 crc) = crc). rewrite wrapS_wrapU by lia. by apply wrapS_small. }
  assert (Hbad : ReadNextBlock crc32 r (blk ++ rest) = Some (r, rest, READ_CRC_CORRUPTED)).
  { rewrite Hread, takeZ_app_l by lia. rewrite Hlen, E in Hcrc.
    destruct (Z.eqb_spec (ComputeCRC crc32 (takeZ (bs - 4) blk)) crc); [done|]. simpl.
    by rewrite dropZ_app_r, Hlen, Z.sub_diag, dropZ_0 by lia. }
  assert (Hs : ReadRecord_step crc32 Inflate out mx (r, blk ++ rest, ns) = Some (inr (r, rest, ns, out, READ_CRC_CORRUPTED))).
  { unfold ReadRecord_step, fetch_block. rewrite Hnil. change (zlen [] =? 0) with true. cbv iota.
    by rewrite Hbad. }
  unfold ReadRecord, read_fuel. by rewrite loop_S, Hs.
Qed.

Lemma corrupt_block_reported_witness :
  exists blk, zlen blk = 30 /\ ComputeCRC sample_crc (takeZ (zlen blk - 4) blk) <> stored_crc blk /\
    ReadRecord sample_crc (fun _ => ([], false)) (RecordReader_new 30) (blk ++ [Byte.x01]) (Some []) 0 0 =
      Some (RecordReader_new 30, [Byte.x01], 0, Some [], READ_CRC_CORRUPTED).
Proof.
  exists (replicate 30 Byte.x01). assert (H : zlen (replicate 30 Byte.x01) = 30) by reflexivity.
  assert (Hc : ComputeCRC sample_crc (takeZ (zlen (replicate 30 Byte.x01) - 4) (replicate 30 Byte.x01))
               <> stored_crc (replicate 30 Byte.x01)) by (vm_compute; discriminate).
  split; [exact H|]. split; [exact Hc|].
  apply corrupt_block_reported; [unfold kMaximumRecordBlockSize; simpl; lia|exact H|reflexivity|exact Hc].
Defined.
