(* ===== verification/LogIO.v ===== *)
(** * LogIO: [io/logio/logio.h], [io/logio/logio.cc]

    A log is a sequence of numbered files of at most [blocks_per_file] blocks of records.
    The files of one log (one directory, base name and block size) are a map from their
    number to their content; what the operating system answers to a call that can fail is
    a list the calls consume, where an exhausted list means success. *)

From stdpp Require Import sorting.
From S2P Require Import Prelude.
From S2P Require Import RecordIO.

(** ** LogPos *)

Record LogPos := mkLogPos { file_num_ : Z; block_num_ : Z; record_num_ : Z }.

#[export] Instance LogPos_eq_dec : EqDecision LogPos.
Proof. solve_decision. Defined.

Definition LogPos_null : LogPos := mkLogPos (-1) 0 0.

Definition LogPos_sub (a b : LogPos) : LogPos :=
  mkLogPos (file_num_ a - file_num_ b)
    (if file_num_ a =? file_num_ b then block_num_ a - block_num_ b else 0)
    (if (file_num_ a =? file_num_ b) && (block_num_ a =? block_num_ b)
     then record_num_ a - record_num_ b else 0).

Definition LogPos_Compare (a b : LogPos) : Z :=
  if file_num_ a <? file_num_ b then -1
  else if file_num_ b <? file_num_ a then 1
  else if block_num_ a <? block_num_ b then -1
  else if block_num_ b <? block_num_ a then 1
  else if record_num_ a <? record_num_ b then -1
  else if record_num_ b <? record_num_ a then 1
  else 0.

Definition LogPos_eqb (a b : LogPos) : bool :=
  (file_num_ a =? file_num_ b) && (block_num_ a =? block_num_ b) && (record_num_ a =? record_num_ b).
Definition LogPos_neqb (a b : LogPos) : bool :=
  negb (file_num_ a =? file_num_ b) || negb (block_num_ a =? block_num_ b) ||
  negb (record_num_ a =? record_num_ b).
Definition LogPos_lt (a b : LogPos) : bool := LogPos_Compare a b <? 0.
Definition LogPos_le (a b : LogPos) : bool := LogPos_Compare a b <=? 0.
Definition LogPos_gt (a b : LogPos) : bool := 0 <? LogPos_Compare a b.
Definition LogPos_ge (a b : LogPos) : bool := 0 <=? LogPos_Compare a b.

Definition LogPos_IsNull (a : LogPos) : bool := file_num_ a =? -1.

Definition LogPos_Decrement (blocks_per_file : Z) (a : LogPos) : LogPos :=
  if 0 <? record_num_ a then mkLogPos (file_num_ a) (block_num_ a) (record_num_ a - 1)
  else if 0 <? block_num_ a then mkLogPos (file_num_ a) (block_num_ a - 1) 0
  else if 0 <? file_num_ a then mkLogPos (file_num_ a - 1) (blocks_per_file - 1) 0
  else LogPos_null.

(** [hash<LogPos>]: the conversions of [int32_t] to [size_t] sign-extend. *)
Definition LogPos_hash (a : LogPos) : Z :=
  Z.lxor (Z.lxor (size_t (Z.shiftl (size_t (file_num_ a)) 24)) (size_t (block_num_ a)))
         (size_t (Z.shiftl (size_t (record_num_ a)) 8)).

(** ** The files of a log *)

Inductive answer :=
  | A_ok                 (* the call does all it was asked *)
  | A_short (n : Z)      (* a read or a write stops after [n] bytes *)
  | A_error (n : Z).     (* the call fails, a write after [n] bytes *)

Record Disk := mkDisk {
  d_log : gmap Z bytes;      (* log_dir/<base>_<block_size>_<number> *)
  d_temp : gmap Z bytes;     (* the same names in log_dir/temp *)
  d_lock : option Z;         (* log_dir/<base>.lock, the pid it holds *)
  d_answers : list answer;
}.

Definition ask (d : Disk) : answer * Disk :=
  match d_answers d with
  | [] => (A_ok, d)
  | a :: l => (a, mkDisk (d_log d) (d_temp d) (d_lock d) l)
  end.

(** An open file: which of the two names it was opened with, and the position.  The content is
    looked up by the name, which is the file that was opened as long as no other file gets the
    name: a file is renamed after it is closed, and one that is removed must not be open
    (the writer closes its file first; [RaftReader.removes_open] asks it of a reader). *)
Record handle := mkHandle { h_temp : bool; h_num : Z; h_pos : Z }.

Definition content_of (d : Disk) (h : handle) : bytes :=
  default [] ((if h_temp h then d_temp d else d_log d) !! h_num h).

Definition set_content (d : Disk) (h : handle) (c : bytes) : Disk :=
  if h_temp h then mkDisk (d_log d) (<[h_num h := c]> (d_temp d)) (d_lock d) (d_answers d)
  else mkDisk (<[h_num h := c]> (d_log d)) (d_temp d) (d_lock d) (d_answers d).

Definition File_Size (d : Disk) (h : handle) : Z := zlen (content_of d h).

(** [File::Open(name, GENERIC_WRITE, OPEN_ALWAYS)]. *)
Definition Open_always (d : Disk) (temp : bool) (num : Z) : Disk * option handle :=
  let '(a, d) := ask d in
  let h := mkHandle temp num 0 in
  match a with
  | A_ok => (set_content d h (content_of d h), Some h)
  | _ => (d, None)
  end.

(** [File::Open(name, GENERIC_READ, OPEN_EXISTING)] of a file in the log's directory. *)
Definition Open_existing (d : Disk) (num : Z) : Disk * option handle :=
  let '(a, d) := ask d in
  match a, d_log d !! num with
  | A_ok, Some _ => (d, Some (mkHandle false num 0))
  | _, _ => (d, None)
  end.

(** [ftruncate] also extends. *)
Definition resize_to (n : Z) (c : bytes) : bytes :=
  takeZ n c ++ replicate (Z.to_nat (n - zlen c)) Byte.x00.

(** [File::Truncate(pos)], which ends at the end of the file. *)
Definition File_Truncate (d : Disk) (h : handle) (pos : Z) : Disk * handle :=
  let '(a, d) := ask d in
  match a with
  | A_ok => let d := set_content d h (resize_to pos (content_of d h)) in
            (d, mkHandle (h_temp h) (h_num h) (File_Size d h))
  | _ => (d, h)
  end.

(** [File::SetPosition(0, FILE_END)] and [SetPosition(pos, FILE_SET)]. *)
Definition Seek_end (d : Disk) (h : handle) : Disk * option handle :=
  let '(a, d) := ask d in
  match a with A_ok => (d, Some (mkHandle (h_temp h) (h_num h) (File_Size d h))) | _ => (d, None) end.

Definition Seek_set (d : Disk) (h : handle) (pos : Z) : Disk * option handle :=
  let '(a, d) := ask d in
  match a with
  | A_ok => if pos <? 0 then (d, None) else (d, Some (mkHandle (h_temp h) (h_num h) pos))
  | _ => (d, None)
  end.

Definition write_at (pos : Z) (data c : bytes) : bytes :=
  takeZ pos c ++ replicate (Z.to_nat (pos - zlen c)) Byte.x00 ++ data ++ dropZ (pos + zlen data) c.

(** [File::Write(buf, len)]: what it returns, the bytes it took from [buf] being restored
    by the caller unless all went out. *)
Definition File_Write (d : Disk) (h : handle) (data : bytes) : Disk * handle * Z :=
  let '(a, d) := ask d in
  let put n :=
    (set_content d h (write_at (h_pos h) (takeZ n data) (content_of d h)),
     mkHandle (h_temp h) (h_num h) (h_pos h + zlen (takeZ n data))) in
  match a with
  | A_ok => (put (zlen data), zlen data)
  | A_short n => (put n, zlen (takeZ n data))
  | A_error n => (put n, -1)
  end.

(** [File::Read(buf, len)]: the bytes, and what it returns. *)
Definition File_Read (d : Disk) (h : handle) (len : Z) : Disk * handle * bytes * Z :=
  let '(a, d) := ask d in
  let get n :=
    let data := takeZ n (dropZ (h_pos h) (content_of d h)) in
    (d, mkHandle (h_temp h) (h_num h) (h_pos h + zlen data), data) in
  match a with
  | A_ok => let '(d, h, data) := get len in (d, h, data, zlen data)
  | A_short n => let '(d, h, data) := get (Z.min n len) in (d, h, data, zlen data)
  | A_error n => let '(d, h, data) := get (Z.min n len) in (d, h, data, -1)
  end.

(** [io::Rename(temp/<num>, <num>, false)]. *)
Definition Rename (d : Disk) (num : Z) : Disk :=
  match d_temp d !! num, d_log d !! num with
  | Some c, None => mkDisk (<[num := c]> (d_log d)) (delete num (d_temp d)) (d_lock d) (d_answers d)
  | _, _ => d
  end.

(** The sorted list of file numbers [GetLogFiles] gives: the names end in ten digits. *)
Definition log_files (d : Disk) : list Z := merge_sort Z.le ((map_to_list (d_log d)).*1).

Definition Rm (d : Disk) (num : Z) : Disk * bool :=
  let '(a, d) := ask d in
  match a with
  | A_ok => (mkDisk (delete num (d_log d)) (d_temp d) (d_lock d) (d_answers d), true)
  | _ => (d, false)
  end.

Section Log.
Variable crc32 : Z -> bytes -> Z.
Variable Deflate : bytes -> option bytes.
Variable Inflate : bytes -> bytes * bool.

(** ** LogWriter *)

Record LogWriter := mkLogWriter {
  lw_block_size : Z;
  lw_blocks_per_file : Z;
  lw_temporary : bool;              (* temporary_incomplete_file_ *)
  lw_file_num : Z;
  lw_file : option handle;          (* file_ *)
  lw_buf : bytes;
  lw_recorder : RecordWriter;
}.

Definition set_file (w : LogWriter) (f : option handle) : LogWriter :=
  mkLogWriter (lw_block_size w) (lw_blocks_per_file w) (lw_temporary w) (lw_file_num w) f
    (lw_buf w) (lw_recorder w).
Definition set_file_num (w : LogWriter) (n : Z) : LogWriter :=
  mkLogWriter (lw_block_size w) (lw_blocks_per_file w) (lw_temporary w) n (lw_file w)
    (lw_buf w) (lw_recorder w).
Definition set_buf (w : LogWriter) (b : bytes) : LogWriter :=
  mkLogWriter (lw_block_size w) (lw_blocks_per_file w) (lw_temporary w) (lw_file_num w) (lw_file w)
    b (lw_recorder w).
Definition set_recorder (w : LogWriter) (r : RecordWriter) (b : bytes) : LogWriter :=
  mkLogWriter (lw_block_size w) (lw_blocks_per_file w) (lw_temporary w) (lw_file_num w) (lw_file w)
    b r.

(** [dumpable_size] is what the recorder computes of its default percentage. *)
Definition LogWriter_new (block_size blocks_per_file : Z) (temporary deflate : bool)
    (dumpable_size : Z) : option LogWriter :=
  r ← RecordWriter_new block_size dumpable_size deflate;
  Some (mkLogWriter block_size blocks_per_file temporary (-1) None [] r).

(** [int32] arithmetic that must not overflow. *)
Definition next_file (n : Z) : option Z := CHECK (n <? 2 ^ 31 - 1);; Some (n + 1).

Definition file_limit (w : LogWriter) : Z := size_t (lw_block_size w * lw_blocks_per_file w).

Definition CloseLog (w : LogWriter) (d : Disk) : LogWriter * Disk :=
  match lw_file w with
  | None => (w, d)
  | Some h =>
      let w := set_recorder w (Writer_Clear (lw_recorder w)) (lw_buf w) in
      let w := set_file w None in
      (w, if lw_temporary w && h_temp h then Rename d (lw_file_num w) else d)
  end.

(** The last part of [OpenNextLog]: the file of number [file_num_]; [inl] is the tail call
    when it is full. *)
Definition open_log (w : LogWriter) (d : Disk)
    : option (LogWriter * Disk + LogWriter * Disk * bool) :=
  let '(d, f) := Open_always d (lw_temporary w) (lw_file_num w) in
  match f with
  | None => Some (inr (w, d, false))
  | Some h =>
      let bs := lw_block_size w in
      let '(d, h) := if negb (File_Size d h mod bs =? 0)
                     then File_Truncate d h (File_Size d h / bs * bs) else (d, h) in
      CHECK (File_Size d h mod bs =? 0);;
      let '(d, f) := Seek_end d h in
      match f with
      | None => Some (inr (set_file w (Some h), d, false))
      | Some h =>
          let w := set_file w (Some h) in
          if h_pos h =? file_limit w then Some (inl (w, d)) else Some (inr (w, d, true))
      end
  end.

(** One call of [OpenNextLog]. *)
Definition OpenNextLog_step (s : LogWriter * Disk)
    : option (LogWriter * Disk + LogWriter * Disk * bool) :=
  let '(w, d) := s in
  CHECK (0 <=? lw_file_num w);;
  '(w, d) ← match lw_file w with
             | None => Some (w, d)
             | Some _ => let '(w, d) := CloseLog w d in
                         n ← next_file (lw_file_num w); Some (set_file_num w n, d)
             end;
  open_log (set_recorder w (Writer_Clear (lw_recorder w)) (lw_buf w)) d.

(** Every call but the last finds another file that exists already. *)
Definition OpenNextLog (w : LogWriter) (d : Disk) : option (LogWriter * Disk * bool) :=
  loop OpenNextLog_step (3 + size (d_log d) + size (d_temp d)) (w, d).

Definition WriteBuffer_step (s : LogWriter * Disk)
    : option (LogWriter * Disk + LogWriter * Disk * bool) :=
  let '(w, d) := s in
  if zlen (lw_buf w) =? 0 then Some (inr (w, d, true))
  else
    h ← lw_file w;
    let pos := h_pos h in
    if negb (pos mod lw_block_size w =? 0) || (file_limit w <? pos) then Some (inr (w, d, false))
    else
      let to_write := Z.min (size_t (file_limit w - pos)) (zlen (lw_buf w)) in
      let '(d, h, cb) := File_Write d h (takeZ to_write (lw_buf w)) in
      if cb <? 0 then Some (inr (set_file w (Some h), d, false))
      else if negb (cb =? to_write) then
        let '(d, h) := File_Truncate d h pos in Some (inr (set_file w (Some h), d, false))
      else
        let w := set_file (set_buf w (dropZ to_write (lw_buf w))) (Some h) in
        if h_pos h =? file_limit w then
          '(w, d, ok) ← OpenNextLog w d;
          if (ok : bool) then Some (inl (w, d)) else Some (inr (w, d, false))
        else Some (inl (w, d)).

(** Every round writes a byte, or finds the file full.  Flushing does not change what
    the files hold. *)
Definition WriteBuffer (w : LogWriter) (d : Disk) : option (LogWriter * Disk * bool) :=
  CHECK (bool_decide (is_Some (lw_file w)));;
  loop WriteBuffer_step (2 + 2 * length (lw_buf w)) (w, d).

Definition ensure_open (w : LogWriter) (d : Disk) : option (LogWriter * Disk * bool) :=
  match lw_file w with
  | Some _ => Some (w, d, true)
  | None => OpenNextLog w d
  end.

Definition WriteRecord (buffer : bool) (w : LogWriter) (d : Disk) (r : bytes)
    : option (LogWriter * Disk * bool) :=
  '(w, d, ok) ← ensure_open w d;
  if negb ok then Some (w, d, false)
  else
    '(rec, b, out) ← (if buffer then AppendRecord_buffer crc32 Deflate (lw_recorder w) r (lw_buf w)
                      else AppendRecord crc32 Deflate (lw_recorder w) r (lw_buf w));
    let w := set_recorder w rec out in
    if (b : bool) then WriteBuffer w d else Some (w, d, true).

Definition finalize_buf (w : LogWriter) : option LogWriter :=
  '(rec, out) ← FinalizeContent crc32 (lw_recorder w) (lw_buf w);
  Some (set_recorder w rec out).

Definition Flush (w : LogWriter) (d : Disk) : option (LogWriter * Disk * bool) :=
  w ← finalize_buf w;
  if zlen (lw_buf w) =? 0 then Some (w, d, true) else WriteBuffer w d.

Definition Close (w : LogWriter) (d : Disk) : option (LogWriter * Disk) :=
  match lw_file w with
  | None => Some (w, d)
  | Some _ =>
      w ← finalize_buf w;
      '(w, d, _) ← WriteBuffer w d;
      let '(w, d) := CloseLog w d in
      Some (w, mkDisk (d_log d) (d_temp d) None (d_answers d))
  end.

(** [DCHECK(file_.is_open())], and the position is a whole number of blocks. *)
Definition Writer_Tell (w : LogWriter) : option LogPos :=
  h ← lw_file w;
  if h_pos h =? file_limit w
  then n ← next_file (lw_file_num w); Some (mkLogPos n 0 (int32 (w_record_count (lw_recorder w))))
  else Some (mkLogPos (lw_file_num w) (int32 (h_pos h / lw_block_size w))
               (int32 (w_record_count (lw_recorder w)))).

(** [Initialize]: [pid] is this process, [alive] says which processes run. *)
Definition last_file (d : Disk) : Z := default (-1) (list.last (log_files d)).

Definition Initialize (pid : Z) (alive : Z -> bool) (w : LogWriter) (d : Disk)
    : option (LogWriter * Disk * bool) :=
  let '(a, d) := ask d in
  if negb (match a with A_ok => true | _ => false end) then Some (w, d, false)
  else
    let holder := default 0 (d_lock d) in
    if negb (holder =? 0) && alive holder then Some (w, d, false)
    else
      let d := mkDisk (d_log d) (d_temp d) (Some pid) (d_answers d) in
      let n := last_file d in
      let w := set_file_num w (if n =? -1 then 0 else n) in
      OpenNextLog w d.

(** [TruncateAt]: the files from [start] on are removed, then the last one is cut. *)
Fixpoint remove_from (start : Z) (files : list Z) (d : Disk) : Disk :=
  match files with
  | [] => d
  | n :: files => remove_from start files (if start <=? n then (Rm d n).1 else d)
  end.

Definition TruncateAt (pos : LogPos) (w : LogWriter) (d : Disk) : option (LogWriter * Disk * bool) :=
  if lw_temporary w then Some (w, d, false)
  else
    w ← finalize_buf w;
    '(w, d, _) ← WriteBuffer w d;
    let '(w, d) := CloseLog w d in
    start ← (if block_num_ pos =? 0 then Some (file_num_ pos) else next_file (file_num_ pos));
    let d := remove_from start (log_files d) d in
    let d :=
      if 0 <? block_num_ pos then
        let '(d, f) := Open_always d false (file_num_ pos) in
        match f with
        | Some h => (File_Truncate d h (int64 (size_t (block_num_ pos * lw_block_size w)))).1
        | None => d
        end
      else d in
    OpenNextLog (set_file_num w (if file_num_ pos <? 0 then 0 else file_num_ pos)) d.

(** ** LogReader *)

Record LogReader := mkLogReader {
  lr_block_size : Z;
  lr_blocks_per_file : Z;
  lr_file : option handle;
  lr_file_num : Z;
  lr_record_num : Z;
  lr_reader : RecordReader;
  lr_num_errors : Z;
  lr_buf : bytes;
}.

Definition LogReader_new (block_size blocks_per_file : Z) : LogReader :=
  mkLogReader block_size blocks_per_file None (-1) 0 (RecordReader_new block_size) 0 [].

Definition lr_limit (r : LogReader) : Z := size_t (lr_block_size r * lr_blocks_per_file r).

Definition lr_set_file (r : LogReader) (f : option handle) : LogReader :=
  mkLogReader (lr_block_size r) (lr_blocks_per_file r) f (lr_file_num r) (lr_record_num r)
    (lr_reader r) (lr_num_errors r) (lr_buf r).
Definition lr_set_pos (r : LogReader) (file_num record_num : Z) : LogReader :=
  mkLogReader (lr_block_size r) (lr_blocks_per_file r) (lr_file r) file_num record_num
    (lr_reader r) (lr_num_errors r) (lr_buf r).
Definition lr_set_reader (r : LogReader) (rd : RecordReader) (b : bytes) : LogReader :=
  mkLogReader (lr_block_size r) (lr_blocks_per_file r) (lr_file r) (lr_file_num r) (lr_record_num r)
    rd (lr_num_errors r) b.
Definition lr_add_error (r : LogReader) : LogReader :=
  mkLogReader (lr_block_size r) (lr_blocks_per_file r) (lr_file r) (lr_file_num r) (lr_record_num r)
    (lr_reader r) (lr_num_errors r + 1) (lr_buf r).

Definition Reader_Tell (r : LogReader) : LogPos :=
  let block_num :=
    match lr_file r with
    | Some h => if 0 <? h_pos h
                then int32 (h_pos h / lr_block_size r - (if lr_record_num r =? 0 then 0 else 1))
                else 0
    | None => 0
    end in
  mkLogPos (lr_file_num r) block_num (lr_record_num r).

Definition TellAtBlock (r : LogReader) : LogPos :=
  match lr_file r with
  | Some h =>
      if 0 <? h_pos h then
        let block_num := int32 (h_pos h / lr_block_size r) in
        if (block_num <? 0) && (lr_blocks_per_file r <=? size_t block_num)
        then mkLogPos (lr_file_num r + 1) 0 0
        else mkLogPos (lr_file_num r) block_num 0
      else mkLogPos (lr_file_num r) 0 0
  | None => mkLogPos (lr_file_num r) 0 0
  end.

Definition CloseInternal (on_error : bool) (r : LogReader) : LogReader :=
  mkLogReader (lr_block_size r) (lr_blocks_per_file r) None (-1) 0 (Reader_Clear (lr_reader r))
    (if on_error then lr_num_errors r + 1 else lr_num_errors r) [].

Definition OpenFile (file_num : Z) (r : LogReader) (d : Disk) : option (LogReader * Disk * bool) :=
  if (lr_file_num r =? file_num) && bool_decide (is_Some (lr_file r)) then Some (r, d, true)
  else
    let r := lr_set_pos (CloseInternal false r) file_num 0 in
    CHECK (0 <=? file_num);;
    match d_log d !! file_num with
    | None => Some (r, d, false)
    | Some _ =>
        let '(d, f) := Open_existing d file_num in
        match f with
        | None => Some (r, d, false)
        | Some h => CHECK (h_pos h =? 0);; Some (lr_set_file r (Some h), d, true)
        end
    end.

(** The part of [ReadBlock] that reads the file. *)
Definition read_file (r : LogReader) (d : Disk) : option (LogReader * Disk * bool) :=
  CHECK (zlen (lr_buf r) =? 0);;
  h ← lr_file r;
  let '(d, h', data, cb) := File_Read d h (lr_block_size r) in
  if cb <? lr_block_size r then
    let '(d, f) := Seek_set d h' (h_pos h) in
    let h' := match f with Some h' => h' | None => h' end in
    Some (lr_set_reader (lr_set_file r (Some h')) (lr_reader r) [], d, false)
  else
    CHECK (zlen data =? lr_block_size r);;
    Some (lr_set_reader (lr_set_file r (Some h')) (lr_reader r) data, d, true).

Definition ReadBlock (r : LogReader) (d : Disk) : option (LogReader * Disk * bool) :=
  h ← lr_file r;
  '(r, d, ok) ← (if h_pos h =? lr_limit r
                  then n ← next_file (lr_file_num r); OpenFile n r d
                  else Some (r, d, true));
  if negb ok then Some (r, d, false) else read_file r d.

(** [DirList] and [sort]: the first file. *)
Definition Rewind (r : LogReader) (d : Disk) : LogReader :=
  let r := CloseInternal false r in
  match log_files d with
  | [] => r
  | n :: _ => lr_set_pos r n 0
  end.

(** One round of [GetNextRecord]'s loop. *)
Definition GetNextRecord_step (s : LogReader * Disk * option bytes)
    : option (LogReader * Disk * option bytes + LogReader * Disk * option bytes * bool) :=
  let '(r, d, out) := s in
  '(rd, buf, num_skipped, out, res) ← ReadRecord crc32 Inflate (lr_reader r) (lr_buf r) out 0 0;
  let r := lr_set_reader r rd buf in
  if decide (res = READ_NO_DATA) then
    '(r, d, ok) ← ReadBlock (lr_set_pos r (lr_file_num r) 0) d;
    if (ok : bool) then Some (inl (r, d, out)) else Some (inr (r, d, out, false))
  else
    let r := lr_set_pos r (lr_file_num r) (int32 (lr_record_num r + num_skipped + 1)) in
    let r := if decide (res = READ_OK) then r else lr_add_error r in
    Some (inr (r, d, out, true)).

(** Every round reads a block. *)
Definition blocks_left (r : LogReader) (d : Disk) : nat :=
  2 + size (d_log d) + map_fold (fun _ c n => (length c + n)%nat) O (d_log d).

Definition GetNextRecord (r : LogReader) (d : Disk) (out : option bytes)
    : option (LogReader * Disk * option bytes * bool) :=
  let r := if lr_file_num r =? -1 then Rewind r d else r in
  if lr_file_num r =? -1 then Some (r, d, out, false)
  else
    '(r, d, ok) ← (match lr_file r with
                    | Some _ => Some (r, d, true)
                    | None => OpenFile (lr_file_num r) r d
                    end);
    if negb ok then Some (r, d, out, false)
    else loop GetNextRecord_step (blocks_left r d) (r, d, out).

(** One round of [AdvanceToPosInFile]'s loop. *)
Definition Advance_step (record_num : Z) (r : LogReader) : option (LogReader + LogReader * bool) :=
  if lr_record_num r <? record_num then
    '(rd, buf, num_skipped, _, res) ←
      ReadRecord crc32 Inflate (lr_reader r) (lr_buf r) None 0 (size_t record_num);
    let r := lr_set_reader r rd buf in
    if decide (res = READ_OK)
    then Some (inl (lr_set_pos r (lr_file_num r) (int32 (lr_record_num r + num_skipped + 1))))
    else Some (inr (r, false))
  else Some (inr (r, true)).

Definition AdvanceToPosInFile (pos : LogPos) (r : LogReader) (d : Disk)
    : option (LogReader * Disk * bool) :=
  CHECK (bool_decide (is_Some (lr_file r)));;
  CHECK (lr_file_num r =? file_num_ pos);;
  let r := lr_set_reader r (Reader_Clear (lr_reader r)) [] in
  h ← lr_file r;
  let '(d, f) := Seek_set d h (int64 (size_t (block_num_ pos * lr_block_size r))) in
  match f with
  | None => Some (r, d, false)
  | Some h =>
      let r := lr_set_file r (Some h) in
      if record_num_ pos =? 0 then Some (r, d, true)
      else
        '(r, d, ok) ← ReadBlock r d;
        if negb ok then Some (r, d, false)
        else
          CHECK (zlen (lr_buf r) =? lr_block_size r);;
          '(r, ok) ← loop (Advance_step (record_num_ pos)) (S (Z.to_nat (record_num_ pos)))
                        (lr_set_pos r (lr_file_num r) 0);
          Some (r, d, ok)
  end.

Definition Seek (pos : LogPos) (r : LogReader) (d : Disk) : option (LogReader * Disk * bool) :=
  if LogPos_IsNull pos then Some (Rewind r d, d, true)
  else if (block_num_ pos =? 0) && (record_num_ pos =? 0) && (0 <? file_num_ pos) &&
          bool_decide (is_Some (d_log d !! (file_num_ pos - 1))) &&
          negb (bool_decide (is_Some (d_log d !! file_num_ pos)))
  then Some (lr_set_pos (CloseInternal false r) (file_num_ pos) 0, d, true)
  else
    '(r, d, ok) ← OpenFile (file_num_ pos) r d;
    if negb ok then Some (r, d, false) else AdvanceToPosInFile pos r d.

(** ** The directory *)

Definition CountLogFiles (d : Disk) : Z := zlen (log_files d).

Fixpoint CleanLog_loop (first : Z) (files : list Z) (d : Disk) (num_deleted : Z) : Disk * Z :=
  match files with
  | [] => (d, num_deleted)
  | n :: files =>
      if first <=? n then (d, num_deleted)
      else
        let '(d, ok) := Rm d n in
        CleanLog_loop first files d (if (ok : bool) then num_deleted + 1 else num_deleted)
  end.

Definition CleanLog (d : Disk) (first_pos : LogPos) : Disk * Z :=
  CleanLog_loop (file_num_ first_pos) (log_files d) d 0.

End Log.

(** ** Positions *)

Definition LogPos_before (a b : LogPos) : Prop :=
  file_num_ a < file_num_ b \/ (file_num_ a = file_num_ b /\
    (block_num_ a < block_num_ b \/ (block_num_ a = block_num_ b /\ record_num_ a < record_num_ b))).

Lemma LogPos_ext a b : a = b <->
  file_num_ a = file_num_ b /\ block_num_ a = block_num_ b /\ record_num_ a = record_num_ b.
Proof. destruct a, b; simpl. split; [by intros [= -> -> ->]|by intros (-> & -> & ->)]. Qed.

Lemma LogPos_Compare_cases a b :
  (LogPos_before a b /\ LogPos_Compare a b = -1) \/ (a = b /\ LogPos_Compare a b = 0) \/
  (LogPos_before b a /\ LogPos_Compare a b = 1).
Proof.
  rewrite LogPos_ext. unfold LogPos_before, LogPos_Compare.
  destruct (Z.ltb_spec (file_num_ a) (file_num_ b)); [left; split; [lia|done]|].
  destruct (Z.ltb_spec (file_num_ b) (file_num_ a)); [right; right; split; [lia|done]|].
  destruct (Z.ltb_spec (block_num_ a) (block_num_ b)); [left; split; [lia|done]|].
  destruct (Z.ltb_spec (block_num_ b) (block_num_ a)); [right; right; split; [lia|done]|].
  destruct (Z.ltb_spec (record_num_ a) (record_num_ b)); [left; split; [lia|done]|].
  destruct (Z.ltb_spec (record_num_ b) (record_num_ a)); [right; right; split; [lia|done]|].
  right. left. split; [lia|done].
Qed.

#[export] Instance LogPos_before_strict : StrictOrder LogPos_before.
Proof.
  split.
  - intros a H. unfold complement, LogPos_before in *. lia.
  - intros a b c H1 H2. unfold LogPos_before in *. lia.
Qed.

Lemma LogPos_before_irrefl a b : LogPos_before a b -> a <> b.
Proof. intros H ->. by apply (irreflexivity LogPos_before) in H. Qed.

Lemma LogPos_Compare_iff a b :
  (LogPos_Compare a b < 0 <-> LogPos_before a b) /\ (0 < LogPos_Compare a b <-> LogPos_before b a) /\
  (LogPos_Compare a b = 0 <-> a = b) /\ LogPos_Compare b a = - LogPos_Compare a b.
Proof.
  pose proof (LogPos_before_irrefl a b) as Hi. pose proof (LogPos_before_irrefl b a) as Hi'.
  assert (Hasym : LogPos_before a b -> LogPos_before b a -> False).
  { intros H1 H2. pose proof (transitivity H1 H2) as H3. by apply (irreflexivity LogPos_before) in H3. }
  destruct (LogPos_Compare_cases a b) as [[H1 ->]|[[H1 ->]|[H1 ->]]];
    destruct (LogPos_Compare_cases b a) as [[H2 ->]|[[H2 ->]|[H2 ->]]];
    split_and!; try done; try split; intros; try done; try lia; naive_solver.
Qed.

(** The operators on positions are those of one strict total order, the lexicographic
    order of file, block and record; [Compare] is antisymmetric and 0 exactly for equal
    positions, and the null position is before every position of a log. *)
Theorem LogPos_order a b :
  (LogPos_lt a b = true <-> LogPos_before a b) /\ (LogPos_gt a b = true <-> LogPos_before b a) /\
  (LogPos_le a b = true <-> LogPos_before a b \/ a = b) /\
  (LogPos_ge a b = true <-> LogPos_before b a \/ a = b) /\
  (LogPos_eqb a b = true <-> a = b) /\ (LogPos_neqb a b = true <-> a <> b) /\
  LogPos_Compare b a = - LogPos_Compare a b /\ (LogPos_Compare a b = 0 <-> a = b) /\
  (0 <= file_num_ a -> LogPos_lt LogPos_null a = true).
Proof.
  assert (He : LogPos_eqb a b = true <-> a = b).
  { rewrite LogPos_ext. unfold LogPos_eqb. rewrite !andb_true_iff, !Z.eqb_eq. tauto. }
  assert (Hn : LogPos_neqb a b = negb (LogPos_eqb a b))
    by (unfold LogPos_neqb, LogPos_eqb; by rewrite !negb_andb).
  assert (Hz : 0 <= file_num_ a -> LogPos_lt LogPos_null a = true).
  { intros H. unfold LogPos_lt, LogPos_Compare, LogPos_null. simpl. by destruct (Z.ltb_spec (-1) (file_num_ a)); [|lia]. }
  rewrite Hn, negb_true_iff, <- not_true_iff_false, He.
  destruct (LogPos_Compare_iff a b) as (Hl & Hg & H0 & Hneg).
  unfold LogPos_lt, LogPos_le, LogPos_gt, LogPos_ge in *. rewrite !Z.ltb_lt, !Z.leb_le, <- Hl, <- Hg, <- H0.
  split_and!; try done; try lia; tauto.
Qed.

Lemma LogPos_order_witness : 0 <= 0 /\ LogPos_lt LogPos_null (mkLogPos 0 0 0) = true.
Proof. split; [lia|]. apply (LogPos_order (mkLogPos 0 0 0) LogPos_null). simpl. lia. Defined.

(** [Decrement] goes to a position that is strictly before, and stays within the log:
    the block numbers below [blocks_per_file], and the null position once the first
    position of file 0 is passed. *)
Theorem LogPos_Decrement_before bpf a :
  0 < bpf -> 0 <= file_num_ a -> 0 <= block_num_ a < bpf -> 0 <= record_num_ a ->
  let b := LogPos_Decrement bpf a in
  LogPos_lt b a = true /\ (LogPos_IsNull b = true <-> a = mkLogPos 0 0 0) /\
  (LogPos_IsNull b = false -> 0 <= file_num_ b /\ 0 <= block_num_ b < bpf /\ 0 <= record_num_ b).
Proof.
  intros Hb Hf Hbl Hr b.
  assert (Hlt : LogPos_before b a -> LogPos_lt b a = true).
  { intros H. unfold LogPos_lt. destruct (LogPos_Compare_cases b a) as [[_ ->]|[[-> _]|[H' _]]]; [done| |].
    - by apply (irreflexivity LogPos_before) in H.
    - pose proof (transitivity H H') as H3. by apply (irreflexivity LogPos_before) in H3. }
  rewrite LogPos_ext. unfold b, LogPos_Decrement, LogPos_IsNull, LogPos_before in *. destruct a as [f k r]. simpl in *.
  destruct (Z.ltb_spec 0 r), (Z.ltb_spec 0 k), (Z.ltb_spec 0 f); simpl in *;
    (split; [apply Hlt; lia|]); (split; [rewrite Z.eqb_eq; lia|intros _; lia]) ||
    (split; [rewrite Z.eqb_eq; lia|intros; discriminate]).
Qed.

Lemma LogPos_Decrement_before_witness :
  let b := LogPos_Decrement 4 (mkLogPos 2 0 0) in
  LogPos_lt b (mkLogPos 2 0 0) = true /\ (LogPos_IsNull b = true <-> mkLogPos 2 0 0 = mkLogPos 0 0 0) /\
  (LogPos_IsNull b = false -> 0 <= file_num_ b /\ 0 <= block_num_ b < 4 /\ 0 <= record_num_ b).
Proof. apply (LogPos_Decrement_before 4 (mkLogPos 2 0 0)); simpl; lia. Defined.

(** ** The directory *)

Lemma CleanLog_loop_spec first files : StronglySorted Z.le files -> forall d k,
  d_answers d = [] ->
  let '(d', n) := CleanLog_loop first files d k in
  (forall i, d_log d' !! i = if bool_decide (i ∈ files /\ i < first) then None else d_log d !! i) /\
  n = k + zlen (filter (fun i => i < first) files) /\ d_temp d' = d_temp d.
Proof.
  induction 1 as [|x files Hs IH Hx]; intros d k Ha; cbn [CleanLog_loop].
  { split_and!; [|rewrite filter_nil; change (zlen []) with 0; lia|done]. intros i. rewrite bool_decide_eq_false_2; [done|]. intros [Hi _]. by apply elem_of_nil in Hi. }
  destruct (Z.leb_spec first x) as [Hle|Hlt].
  - assert (Hnone : forall i, i ∈ x :: files -> ~ i < first).
    { rewrite Forall_forall in Hx. intros i Hi. apply elem_of_cons in Hi as [->|Hi]; [lia|]. apply list_elem_of_In in Hi; specialize (Hx i Hi). lia. }
    split_and!; [| |done].
    + intros i. rewrite bool_decide_eq_false_2; [done|]. intros [Hi ?]. by apply (Hnone i).
    + assert (Hf : filter (fun i => i < first) (x :: files) = []).
      { clear - Hnone. induction (x :: files) as [|y l IH]; [done|]. rewrite filter_cons.
        rewrite decide_False by (apply Hnone, elem_of_cons; by left). apply IH. intros i Hi. apply Hnone, elem_of_cons. by right. }
      rewrite Hf. change (zlen []) with 0. lia.
  - unfold Rm, ask. rewrite Ha. cbv iota zeta.
    set (d1 := mkDisk (delete x (d_log d)) (d_temp d) (d_lock d) (d_answers d)).
    specialize (IH d1 (k + 1) Ha). destruct (CleanLog_loop first files d1 (k + 1)) as [d' n].
    destruct IH as (H1 & -> & H2). split_and!; [| |done].
    + intros i. rewrite H1. simpl. destruct (decide (i = x)) as [->|Hne].
      * rewrite lookup_delete_eq. rewrite (bool_decide_eq_true_2 (x ∈ x :: files /\ x < first)) by (split; [apply elem_of_cons; by left|done]).
        by destruct (bool_decide _).
      * rewrite lookup_delete_ne by done. erewrite bool_decide_ext; [done|]. rewrite elem_of_cons. tauto.
    + rewrite filter_cons, decide_True, zlen_cons by done. lia.
Qed.

(** [CleanLog] removes exactly the files before the given position and says how many
    there were; the files from the position's on are as before. *)
Theorem CleanLog_keeps d pos :
  d_answers d = [] ->
  let '(d', n) := CleanLog d pos in
  (forall i, d_log d' !! i = if i <? file_num_ pos then None else d_log d !! i) /\
  n = zlen (filter (fun i => i < file_num_ pos) (log_files d)) /\
  (forall i, i ∈ log_files d <-> is_Some (d_log d !! i)).
Proof.
  intros Ha. unfold CleanLog.
  pose proof (StronglySorted_merge_sort Z.le (map_to_list (d_log d)).*1) as Hs.
  pose proof (merge_sort_Permutation Z.le (map_to_list (d_log d)).*1) as Hp.
  assert (Hin : forall i, i ∈ log_files d <-> is_Some (d_log d !! i)).
  { intros i. unfold log_files. rewrite Hp. rewrite list_elem_of_fmap. split.
    - intros ([j c] & -> & Hj). apply elem_of_map_to_list in Hj. by exists c.
    - intros [c Hc]. exists (i, c). split; [done|]. by apply elem_of_map_to_list. }
  pose proof (CleanLog_loop_spec (file_num_ pos) (log_files d) Hs d 0 Ha) as H.
  destruct (CleanLog_loop _ _ _ _) as [d' n]. destruct H as (H1 & -> & _). split_and!; [|lia|done].
  intros i. rewrite H1. destruct (Z.ltb_spec i (file_num_ pos)) as [Hlt|Hge].
  - destruct (d_log d !! i) eqn:E.
    + by rewrite bool_decide_eq_true_2 by (split; [apply Hin; by rewrite E|done]).
    + by destruct (bool_decide _).
  - rewrite bool_decide_eq_false_2; [done|]. lia.
Qed.

Lemma CleanLog_keeps_witness :
  let d := mkDisk {[3 := [Byte.x01]; 5 := []; 8 := []]} ∅ None [] in
  let '(d', n) := CleanLog d (mkLogPos 5 1 1) in
  (forall i, d_log d' !! i = if i <? 5 then None else d_log d !! i) /\
  n = zlen (filter (fun i => i < 5) (log_files d)) /\
  (forall i, i ∈ log_files d <-> is_Some (d_log d !! i)).
Proof. apply (CleanLog_keeps (mkDisk {[3 := [Byte.x01]; 5 := []; 8 := []]} ∅ None []) (mkLogPos 5 1 1)). reflexivity. Defined.
