(* ===== verification/LogIOSpec.v ===== *)
(** * LogIO: what the files hold, and what a reader sees

    While no call fails, the files of a log are the blocks of its records, [N] to a file;
    the writer keeps this whatever the records, and a reader hands the records out again,
    also while the log grows. *)

From S2P Require Import Prelude.
From S2P Require Import RecordIO.
From S2P Require Import RecordIOSpec.
From S2P Require Import LogIO.

Section Spec.
Variable crc32 : Z -> bytes -> Z.
Variable Deflate : bytes -> option bytes.
Variable Inflate : bytes -> bytes * bool.
Variables bs N dump : Z.
Hypothesis Hok : ok_size bs.
Hypothesis HN : 0 < N.
Hypothesis Hlim : bs * N < 2 ^ 63.
Hypothesis Hdump : dump + 16 < bs.

Lemma bs_pos : 0 < bs.
Proof. destruct Hok. lia. Qed.

Lemma limit_eq : size_t (bs * N) = bs * N.
Proof. pose proof bs_pos. apply wrapU_small. nia. Qed.

(** The blocks of file [i]. *)
Definition file_of (F : list (Z * list piece)) (i : Z) : list (Z * list piece) :=
  takeZ N (dropZ (i * N) F).

Definition disk_has (n : Z) (F : list (Z * list piece)) (dk : Disk) : Prop :=
  d_answers dk = [] /\
  forall i, d_log dk !! i = if (0 <=? i) && (i <? n) then Some (chain crc32 bs (file_of F i)) else None.

Lemma div_mod_N (F : list (Z * list piece)) : zlen F = zlen F / N * N + zlen F mod N /\ 0 <= zlen F mod N < N /\ 0 <= zlen F / N.
Proof.
  pose proof (zlen_nonneg F). pose proof (Z.div_mod (zlen F) N ltac:(lia)).
  pose proof (Z.mod_pos_bound (zlen F) N HN). pose proof (Z.div_pos (zlen F) N). lia.
Qed.

Lemma div_mod_eq x q m : x = q * N + m -> 0 <= m < N -> x / N = q /\ x mod N = m.
Proof.
  intros -> Hm. rewrite Z.div_add_l, Z.div_small, (Z.add_comm (q * N)), Z.mod_add, Z.mod_small by lia. lia.
Qed.

Lemma file_of_app F a i : 0 <= i < zlen F / N -> file_of (F ++ a) i = file_of F i.
Proof.
  intros Hi. destruct (div_mod_N F) as (HF & Hm & _). unfold file_of.
  rewrite dropZ_app_l by nia. rewrite takeZ_app_l; [done|]. rewrite zlen_dropZ by nia. nia.
Qed.

Lemma file_of_last F : file_of F (zlen F / N) = dropZ (zlen F / N * N) F.
Proof.
  destruct (div_mod_N F) as (HF & Hm & Hq). unfold file_of. apply takeZ_all. rewrite zlen_dropZ by nia. nia.
Qed.

Lemma zlen_file_of_last F : zlen (file_of F (zlen F / N)) = zlen F mod N.
Proof.
  destruct (div_mod_N F) as (HF & Hm & Hq). rewrite file_of_last, zlen_dropZ by nia. nia.
Qed.

Lemma file_of_last_app F a : zlen F mod N + zlen a <= N ->
  file_of (F ++ a) (zlen F / N) = file_of F (zlen F / N) ++ a.
Proof.
  intros Ha. destruct (div_mod_N F) as (HF & Hm & Hq). rewrite file_of_last. unfold file_of.
  rewrite dropZ_app_l by nia. apply takeZ_all. rewrite zlen_app, zlen_dropZ by nia. nia.
Qed.

Lemma file_of_fit F i : all_fit bs F -> all_fit bs (file_of F i).
Proof.
  intros H. unfold file_of, takeZ, dropZ. by apply Forall_take, Forall_drop.
Qed.

Lemma file_of_beyond (F : list (Z * list piece)) i : zlen F <= i * N -> file_of F i = [].
Proof. intros H. unfold file_of. by rewrite dropZ_all, takeZ_nil. Qed.

(** ** The writer *)

Record lw_ok (zl : bool) (F : list (Z * list piece)) (P : list piece) (w : LogWriter) (dk : Disk) : Prop := {
  ok_bs : lw_block_size w = bs;
  ok_N : lw_blocks_per_file w = N;
  ok_temp : lw_temporary w = false;
  ok_num : lw_file_num w = zlen F / N;
  ok_file : lw_file w = Some (mkHandle false (zlen F / N) (zlen F mod N * bs));
  ok_fit : all_fit bs F;
  ok_written : written crc32 bs dump zl F [] P (lw_recorder w) (lw_buf w);
  ok_disk : disk_has (zlen F / N + 1) F dk;
}.

Lemma next_file_ok n : n < 2 ^ 31 - 1 -> next_file n = Some (n + 1).
Proof. intros H. unfold next_file. by destruct (Z.ltb_spec n (2 ^ 31 - 1)); [|lia]. Qed.

Lemma open_log_opens w dk n c :
  lw_block_size w = bs -> lw_blocks_per_file w = N -> lw_temporary w = false -> lw_file_num w = n ->
  d_answers dk = [] -> c = default [] (d_log dk !! n) -> zlen c mod bs = 0 -> zlen c <> bs * N ->
  open_log w dk = Some (inr (set_file w (Some (mkHandle false n (zlen c))),
                             mkDisk (<[n := c]> (d_log dk)) (d_temp dk) (d_lock dk) [], true)).
Proof.
  intros E1 E2 E3 E4 Ha Hc Hm Hne. unfold open_log. destruct dk as [dl dt dlk da]. simpl in Ha, Hc |- *. subst da.
  assert (HS : File_Size (mkDisk (<[n:=c]> dl) dt dlk []) (mkHandle false n 0) = zlen c).
  { unfold File_Size, content_of. simpl. by rewrite lookup_insert_eq. }
  rewrite E3, E4. unfold Open_always, ask, content_of, set_content. simpl. rewrite <- Hc, HS, E1, Hm.
  simpl. rewrite ?HS, ?Hm. simpl. rewrite ?HS. unfold file_limit. simpl. rewrite E1, E2, limit_eq.
  by destruct (Z.eqb_spec (zlen c) (bs * N)).
Qed.

(** Opening the next file: a new one or one to continue, but not a full one. *)
Lemma OpenNextLog_opens w dk n c :
  lw_block_size w = bs -> lw_blocks_per_file w = N -> lw_temporary w = false -> 0 <= n ->
  d_answers dk = [] -> c = default [] (d_log dk !! n) -> zlen c mod bs = 0 -> zlen c <> bs * N ->
  (lw_file w = None /\ lw_file_num w = n) \/
  (0 <= lw_file_num w < 2 ^ 31 - 1 /\ n = lw_file_num w + 1 /\ exists h, lw_file w = Some h) ->
  OpenNextLog w dk =
    Some (mkLogWriter bs N false n (Some (mkHandle false n (zlen c))) (lw_buf w)
            (Writer_Clear (lw_recorder w)),
          mkDisk (<[n := c]> (d_log dk)) (d_temp dk) (d_lock dk) [], true).
Proof.
  intros Hb HNw Ht Hn Ha Hc Hm Hne Hf. unfold OpenNextLog. cbn [Nat.add]. rewrite loop_S.
  unfold OpenNextLog_step. destruct Hf as [[Hf Hnum]|(Hnum & -> & h & Hf)]; rewrite Hf.
  - destruct (Z.leb_spec 0 (lw_file_num w)); [|lia]. cbn [CHECK mbind option_bind].
    rewrite (open_log_opens _ dk n c) by done. cbn [mbind option_bind].
    do 4 f_equal. destruct w; simpl in *; by subst.
  - destruct (Z.leb_spec 0 (lw_file_num w)); [|lia]. cbn [CHECK mbind option_bind].
    unfold CloseLog. rewrite Hf. cbn -[next_file open_log]. rewrite Ht, next_file_ok by lia.
    cbn -[open_log]. rewrite (open_log_opens _ dk (lw_file_num w + 1) c) by done.
    cbn [mbind option_bind]. do 4 f_equal. destruct w; simpl in *; by subst.
Qed.

Lemma write_at_end c data : write_at (zlen c) data c = c ++ data.
Proof.
  unfold write_at. rewrite takeZ_all, Z.sub_diag by lia. rewrite dropZ_all; [|pose proof (zlen_nonneg data); lia].
  by rewrite app_nil_r.
Qed.

Lemma disk_has_next n F dk dk' : 0 <= n -> disk_has n F dk -> d_answers dk' = [] ->
  d_log dk' = <[n := chain crc32 bs (file_of F n)]> (d_log dk) -> disk_has (n + 1) F dk'.
Proof.
  intros Hn [_ H] Ha Hl. split; [done|]. intros i. rewrite Hl.
  destruct (decide (i = n)) as [->|Hne].
  - rewrite lookup_insert_eq. by destruct (Z.leb_spec 0 n), (Z.ltb_spec n (n + 1)); try lia.
  - rewrite lookup_insert_ne, H by done.
    by destruct (Z.leb_spec 0 i), (Z.ltb_spec i n), (Z.ltb_spec i (n + 1)); try lia.
Qed.

Lemma disk_has_grow F a dk dk' : let q := zlen F / N in
  disk_has (q + 1) F dk -> d_answers dk' = [] ->
  d_log dk' = <[q := chain crc32 bs (file_of (F ++ a) q)]> (d_log dk) -> disk_has (q + 1) (F ++ a) dk'.
Proof.
  intros q [_ H] Ha Hl. split; [done|]. intros i. rewrite Hl.
  destruct (div_mod_N F) as (_ & _ & Hq). fold q in Hq. destruct (decide (i = q)) as [->|Hne].
  - rewrite lookup_insert_eq. by destruct (Z.leb_spec 0 q), (Z.ltb_spec q (q + 1)); try lia.
  - rewrite lookup_insert_ne, H by done.
    destruct (Z.leb_spec 0 i), (Z.ltb_spec i (q + 1)); simpl; try done.
    rewrite file_of_app; [done|]. fold q. lia.
Qed.

Lemma disk_content F dk : disk_has (zlen F / N + 1) F dk ->
  forall h, h_temp h = false -> h_num h = zlen F / N ->
  content_of dk h = chain crc32 bs (file_of F (zlen F / N)).
Proof.
  intros [_ H] h Ht Hn. unfold content_of. rewrite Ht, Hn, H. destruct (div_mod_N F) as (_ & _ & Hq).
  by destruct (Z.leb_spec 0 (zlen F / N)), (Z.ltb_spec (zlen F / N) (zlen F / N + 1)); try lia.
Qed.

(** One round writes the blocks that fit the file. *)
Lemma WriteBuffer_round zl F P w dk :
  lw_ok zl F P w dk -> lw_buf w <> [] -> zlen P < 2 ^ 31 - 1 ->
  exists w' dk' a, WriteBuffer_step (w, dk) = Some (inl (w', dk')) /\ lw_ok zl (F ++ a) P w' dk' /\
    (length (lw_buf w') < length (lw_buf w))%nat /\
    w_content (lw_recorder w') = w_content (lw_recorder w).
Proof.
  intros [Hb HNw Ht Hnum Hfile Hfit HW Hdk] Hbuf HP. destruct (div_mod_N F) as (HF & Hm & Hq).
  set (q := zlen F / N) in *. set (m := zlen F mod N) in *. pose proof bs_pos as Hbs.
  destruct (written_whole _ _ _ _ _ _ _ _ HW) as (nb & Hnb & Hlen).
  assert (Hbpos : 0 < zlen (lw_buf w)).
  { destruct (lw_buf w) as [|x l]; [done|]. rewrite zlen_cons. pose proof (zlen_nonneg l). lia. }
  assert (Hnb1 : 1 <= nb) by nia. set (k := Z.min (N - m) nb).
  assert (Hk : 1 <= k <= nb /\ k <= N - m /\ (k < N - m -> k = nb)) by (unfold k; lia).
  destruct (written_moved _ _ _ _ _ _ _ _ k Hbs HW) as (a & Hka & Hfa & Htake & HW'); [lia|nia|].
  assert (Hfl : file_limit w = bs * N) by (unfold file_limit; by rewrite Hb, HNw, limit_eq).
  assert (Hcont : forall h, h_temp h = false -> h_num h = q -> content_of dk h = chain crc32 bs (file_of F q))
    by (by apply disk_content).
  assert (Hzc : zlen (chain crc32 bs (file_of F q)) = m * bs).
  { rewrite zlen_chain by (by apply file_of_fit). unfold q. by rewrite zlen_file_of_last. }
  assert (Hnew : chain crc32 bs (file_of F q) ++ chain crc32 bs a = chain crc32 bs (file_of (F ++ a) q)).
  { rewrite <- chain_app. unfold q. rewrite file_of_last_app; [done|]. fold m. lia. }
  assert (Hqb : q < 2 ^ 31 - 1).
  { pose proof (written_bound _ _ _ _ _ _ _ _ Hfit HW). nia. }
  unfold WriteBuffer_step. destruct (Z.eqb_spec (zlen (lw_buf w)) 0); [lia|].
  rewrite Hfile. cbn [mbind option_bind h_pos]. rewrite Hb, Hfl, Z.mod_mul by lia.
  destruct (Z.ltb_spec (bs * N) (m * bs)); [nia|]. simpl orb. cbv iota.
  assert (Hto : Z.min (size_t (bs * N - m * bs)) (zlen (lw_buf w)) = k * bs).
  { rewrite wrapU_small by nia. rewrite Hlen. unfold k. nia. }
  rewrite Hto, Htake. unfold File_Write, ask. destruct Hdk as [Ha Hdl]. rewrite Ha.
  rewrite Hcont by done. cbn [h_pos]. rewrite <- Hzc, (takeZ_all (zlen (chain crc32 bs a))), write_at_end, Hnew by lia.
  assert (Hza : zlen (chain crc32 bs a) = k * bs) by (rewrite zlen_chain by done; by rewrite Hka).
  rewrite Hza, Hzc. destruct (Z.ltb_spec (k * bs) 0); [nia|]. rewrite Z.eqb_refl. cbn [negb].
  unfold set_content. cbn [h_temp h_num]. rewrite Ha. unfold file_limit. cbn [lw_block_size lw_blocks_per_file set_file set_buf h_pos].
  rewrite Hb, HNw, limit_eq.
  set (dk1 := mkDisk (<[q:=chain crc32 bs (file_of (F ++ a) q)]> (d_log dk)) (d_temp dk) (d_lock dk) []).
  assert (Hdk1 : disk_has (q + 1) (F ++ a) dk1) by (by apply (disk_has_grow F a dk)).
  assert (HzF : zlen (F ++ a) = q * N + (m + k)) by (rewrite zlen_app; lia).
  assert (Hdrop : (length (dropZ (k * bs) (lw_buf w)) < length (lw_buf w))%nat).
  { unfold dropZ. rewrite length_drop. unfold zlen in *. nia. }
  assert (HfitFa : all_fit bs (F ++ a)) by (by apply Forall_app).
  destruct (Z.eqb_spec (m * bs + k * bs) (bs * N)) as [Hfull|Hnf].
  - assert (Hmk : m + k = N) by nia. destruct (div_mod_eq (zlen (F ++ a)) (q + 1) 0) as [E1 E2]; [lia..|].
    rewrite (OpenNextLog_opens _ dk1 (q + 1) []); try done; try lia.
    + cbn [mbind option_bind]. eexists _, _, a. split; [done|]. split; [|split; [exact Hdrop|done]].
      split; try done; cbn [lw_file_num lw_file lw_recorder lw_buf]; rewrite ?E1, ?E2; try done.
      * by apply written_Clear.
      * apply (disk_has_next _ _ dk1); [lia|done..|]. simpl. by rewrite (file_of_beyond _ (q + 1)) by nia.
    + destruct Hdk1 as [_ Hdk1]. rewrite Hdk1. destruct (Z.ltb_spec (q + 1) (q + 1)); [lia|].
      by rewrite andb_false_r.
    + change (zlen []) with 0. nia.
    + right. cbn [lw_file_num set_file set_buf lw_file]. rewrite Hnum. split; [lia|]. split; [done|]. eauto.
  - assert (Hmk : m + k < N) by nia.
    destruct (div_mod_eq (zlen (F ++ a)) q (m + k)) as [E1 E2]; [lia..|].
    eexists _, _, a. split; [done|]. split; [|split; [exact Hdrop|done]].
    split; try done; cbn [lw_file_num lw_file lw_recorder lw_buf set_file set_buf]; rewrite ?E1, ?E2; try done.
    do 2 f_equal. lia.
Qed.

Lemma WriteBuffer_ok zl F P w dk :
  lw_ok zl F P w dk -> zlen P < 2 ^ 31 - 1 ->
  exists w' dk' F', WriteBuffer w dk = Some (w', dk', true) /\ lw_ok zl F' P w' dk' /\
    F `prefix_of` F' /\ lw_buf w' = [] /\ w_content (lw_recorder w') = w_content (lw_recorder w).
Proof.
  intros HL HP. unfold WriteBuffer.
  assert (Hopen : bool_decide (is_Some (lw_file w)) = true)
    by (apply bool_decide_eq_true_2; rewrite (ok_file _ _ _ _ _ HL); eauto).
  rewrite Hopen. cbn [CHECK mbind option_bind].
  destruct (loop_total_ix WriteBuffer_step
    (fun n '(w', dk') => n = length (lw_buf w') /\ exists F', lw_ok zl F' P w' dk' /\ F `prefix_of` F' /\
       w_content (lw_recorder w') = w_content (lw_recorder w))
    (fun '(w', dk', ok) => ok = true /\ exists F', lw_ok zl F' P w' dk' /\ F `prefix_of` F' /\
       lw_buf w' = [] /\ w_content (lw_recorder w') = w_content (lw_recorder w)))
    with (fuel := (2 + 2 * length (lw_buf w))%nat) (n := length (lw_buf w)) (s := (w, dk))
    as ([[w' dk'] ok] & Hl & -> & F' & ?); [|by eauto|lia|].
  2: { exists w', dk', F'. tauto. }
  intros n [w1 dk1] (-> & F1 & HL1 & Hpre & Hc). destruct (decide (lw_buf w1 = [])) as [Hnil|Hne].
  - unfold WriteBuffer_step. rewrite Hnil. change (zlen [] =? 0) with true. cbv iota.
    eexists; split; [done|]. split; [done|]. by exists F1.
  - destruct (WriteBuffer_round _ _ _ _ _ HL1 Hne HP) as (w2 & dk2 & a & -> & HL2 & Hlt & Hc2).
    eexists; split; [done|]. exists (length (lw_buf w2)). split; [|done]. split; [done|].
    exists (F1 ++ a). split_and!; [done|by apply prefix_app_r|by rewrite Hc2].
Qed.

Lemma lw_ok_recorder zl F P P' w dk rec out :
  lw_ok zl F P w dk -> written crc32 bs dump zl F [] P' rec out ->
  lw_ok zl F P' (set_recorder w rec out) dk.
Proof. intros [] HW. by split. Qed.

Lemma lw_room zl F P w dk w' : lw_ok zl F P w dk -> 
  w_content w' = w_content (lw_recorder w) -> w_block_size w' = bs -> room (lw_recorder w) -> room w'.
Proof. intros HL Hc Hb. unfold room. destruct (ok_written _ _ _ _ _ HL) as (Hbs & _). by rewrite Hc, Hb, Hbs. Qed.

Lemma WriteRecord_ok zl F P w dk (buffer : bool) r s :
  lw_ok zl F P w dk -> room (lw_recorder w) -> stored Deflate zl r = Some s ->
  (buffer && negb zl = false -> s <> []) -> zlen P + zlen s + 1 < 2 ^ 31 - 1 ->
  exists w' dk' F' ps, WriteRecord crc32 Deflate buffer w dk r = Some (w', dk', true) /\
    lw_ok zl F' (P ++ ps) w' dk' /\ F `prefix_of` F' /\ room (lw_recorder w') /\ split true s ps.
Proof.
  intros HL Hroom Hst Hne HP. unfold WriteRecord, ensure_open.
  rewrite (ok_file _ _ _ _ _ HL). cbn [mbind option_bind negb].
  destruct (AppendRecord_spec crc32 Deflate _ _ _ _ _ _ _ _ _ _ buffer Hok Hdump (ok_written _ _ _ _ _ HL) Hroom Hst Hne)
    as (rec & b & out & ps & -> & HW & Hroom' & Hsp). cbn [mbind option_bind].
  pose proof (lw_ok_recorder _ _ _ _ _ _ _ _ HL HW) as HL1.
  destruct b; [|by exists (set_recorder w rec out), dk, F, ps; split_and!].
  pose proof (split_length _ _ _ Hsp). pose proof (zlen_app P ps).
  destruct (WriteBuffer_ok _ _ _ _ _ HL1) as (w' & dk' & F' & -> & HL' & Hpre & _ & Hc); [lia|].
  exists w', dk', F', ps. split_and!; try done.
  eapply (lw_room _ _ _ _ _ _ HL1); [done|by destruct (ok_written _ _ _ _ _ HL') as (? & _)|done].
Qed.

Lemma written_done zl F P w : written crc32 bs dump zl F [] P w [] -> w_content w = [] -> pieces F = P.
Proof.
  intros HW Hc. destruct (written_taken _ _ _ _ _ _ _ _ _ HW) as (bls & cur & Ho & Hf & _ & HP & Hcur & _).
  rewrite (Hcur Hc), app_nil_r in HP. destruct bls as [|b bls]; [by rewrite app_nil_r in HP|].
  apply (f_equal zlen) in Ho. rewrite app_nil_l, (zlen_chain _ bs (b :: bls)), zlen_cons in Ho by done.
  pose proof (zlen_nonneg bls). pose proof bs_pos. change (zlen []) with 0 in Ho. nia.
Qed.

Lemma finalize_ok zl F P w dk : lw_ok zl F P w dk ->
  exists w', finalize_buf crc32 w = Some w' /\ lw_ok zl F P w' dk /\ w_content (lw_recorder w') = [].
Proof.
  intros HL. unfold finalize_buf.
  destruct (written_finalize _ _ _ _ _ _ _ _ _ Hok (ok_written _ _ _ _ _ HL)) as (rec & out & -> & HW & Hnil).
  cbn [mbind option_bind]. eexists; split; [done|]. split; [|done]. by eapply lw_ok_recorder.
Qed.

Lemma Flush_ok zl F P w dk : lw_ok zl F P w dk -> zlen P < 2 ^ 31 - 1 ->
  exists w' dk' F', Flush crc32 w dk = Some (w', dk', true) /\ lw_ok zl F' P w' dk' /\
    F `prefix_of` F' /\ pieces F' = P /\ room (lw_recorder w') /\ w_content (lw_recorder w') = [] /\ lw_buf w' = [].
Proof.
  intros HL HP. destruct (finalize_ok _ _ _ _ _ HL) as (w1 & Hf & HL1 & Hc). unfold Flush. rewrite Hf.
  cbn [mbind option_bind].
  assert (Hroom : forall v F' dk', lw_ok zl F' P v dk' -> w_content (lw_recorder v) = [] -> room (lw_recorder v)).
  { intros v F' dk' HLv Hnil. destruct (ok_written _ _ _ _ _ HLv) as (Hbs & _). unfold room.
    rewrite Hnil, Hbs. destruct Hok. change (zlen []) with 0. lia. }
  destruct (Z.eqb_spec (zlen (lw_buf w1)) 0) as [Hz|Hz].
  - apply zlen_0_nil in Hz. exists w1, dk, F. split_and!; try done; [|by eapply Hroom].
    pose proof (ok_written _ _ _ _ _ HL1) as HW. rewrite Hz in HW. by apply written_done in HW.
  - destruct (WriteBuffer_ok _ _ _ _ _ HL1 HP) as (w' & dk' & F' & -> & HL' & Hpre & Hnil & Hc').
    exists w', dk', F'. rewrite Hc in Hc'. split_and!; try done; [|by eapply Hroom].
    pose proof (ok_written _ _ _ _ _ HL') as HW. rewrite Hnil in HW. by apply written_done in HW.
Qed.

Lemma lw_linked zl F P w dk : lw_ok zl F P w dk -> linked crc32 bs 0 F.
Proof.
  intros HL. destruct (ok_written _ _ _ _ _ HL) as (_ & _ & _ & _ & bls & cur & _ & _ & _ & _ & _ & Hln & _).
  by apply linked_app in Hln as [? _].
Qed.

Lemma Close_ok zl F P w dk : lw_ok zl F P w dk -> zlen P < 2 ^ 31 - 1 ->
  exists w' dk' F', Close crc32 w dk = Some (w', dk') /\ disk_has (zlen F' / N + 1) F' dk' /\
    F `prefix_of` F' /\ pieces F' = P /\ all_fit bs F' /\ linked crc32 bs 0 F' /\ d_lock dk' = None.
Proof.
  intros HL HP. destruct (finalize_ok _ _ _ _ _ HL) as (w1 & Hf & HL1 & Hc). unfold Close.
  rewrite (ok_file _ _ _ _ _ HL), Hf. cbn [mbind option_bind].
  destruct (WriteBuffer_ok _ _ _ _ _ HL1 HP) as (w' & dk' & F' & -> & HL' & Hpre & Hnil & Hc').
  cbn [mbind option_bind]. rewrite Hc in Hc'. unfold CloseLog. rewrite (ok_file _ _ _ _ _ HL').
  cbn [lw_temporary set_file set_recorder]. rewrite (ok_temp _ _ _ _ _ HL'). cbn [andb].
  eexists _, _, F'. split; [done|]. split_and!; try done.
  - by destruct (ok_disk _ _ _ _ _ HL').
  - pose proof (ok_written _ _ _ _ _ HL') as HW. rewrite Hnil in HW. by apply written_done in HW.
  - apply HL'.
  - by eapply lw_linked.
Qed.

Lemma Initialize_ok pid alive zl dk :
  d_log dk = ∅ -> d_answers dk = [] -> (default 0 (d_lock dk) = 0 \/ alive (default 0 (d_lock dk)) = false) ->
  exists w0 w dk', LogWriter_new bs N false zl dump = Some w0 /\
    Initialize pid alive w0 dk = Some (w, dk', true) /\ lw_ok zl [] [] w dk' /\ room (lw_recorder w) /\
    d_lock dk' = Some pid.
Proof.
  intros Hl Ha Hlock. unfold LogWriter_new, RecordWriter_new. destruct Hok as [Hk1 Hk2].
  destruct (Z.ltb_spec bs kMaximumRecordBlockSize); [|lia]. cbn [CHECK mbind option_bind].
  eexists _, _, _. split; [done|]. unfold Initialize, ask. rewrite Ha. cbn [negb].
  assert (Hh : negb (default 0 (d_lock dk) =? 0) && alive (default 0 (d_lock dk)) = false).
  { destruct Hlock as [->| ->]; [done|apply andb_false_r]. }
  rewrite Hh, Ha, Hl. unfold last_file, log_files. cbn [d_log]. rewrite map_to_list_empty. simpl.
  rewrite (OpenNextLog_opens _ _ 0 []); try done; [split; [done|]| |by left].
  2: { change (zlen []) with 0. pose proof bs_pos. nia. }
  split; [split; try done|split; [|done]].
  - constructor.
  - split_and!; [done..|]. exists [], []. split_and!; try done; [constructor| |by left].
    unfold fits. change (zlen (enc_all [])) with 0. lia.
  - apply (disk_has_next 0 [] (mkDisk ∅ (d_temp dk) (Some pid) [])); try done.
    + split; [done|]. intros i. simpl. rewrite lookup_empty.
      by destruct (Z.leb_spec 0 i), (Z.ltb_spec i 0); try lia.
    + unfold file_of. by rewrite dropZ_nil, takeZ_nil.
  - unfold room. simpl. change (zlen []) with 0. lia.
Qed.
End Spec.
