(* ===== verification/LogIOReader.v ===== *)
(** * LogIO: the reader

    The reader's position in the files, the pieces before it, and what [GetNextRecord]
    makes of them. *)

From S2P Require Import Prelude.
From S2P Require Import RecordIO.
From S2P Require Import RecordIOSpec.
From S2P Require Import LogIO.
From S2P Require Import LogIOSpec.

Section Reader.
Variable crc32 : Z -> bytes -> Z.
Variable Inflate : bytes -> bytes * bool.
Variables bs N : Z.
Hypothesis Hok : ok_size bs.
Hypothesis HN : 0 < N.
Hypothesis Hlim : bs * N < 2 ^ 63.

Local Lemma bs_pos' : 0 < bs.
Proof. destruct Hok. lia. Qed.

Lemma dropZ_takeZ {A} j n (l : list A) : 0 <= j <= n -> dropZ j (takeZ n l) = takeZ (n - j) (dropZ j l).
Proof. intros H. unfold dropZ, takeZ. rewrite skipn_firstn_comm. f_equal. lia. Qed.

(** The reader is before block [b] of the log [F]. *)
Record at_block (F : list (Z * list piece)) (b i j : Z) (r : LogReader) : Prop := {
  at_bs : lr_block_size r = bs;
  at_N : lr_blocks_per_file r = N;
  at_num : lr_file_num r = i;
  at_file : lr_file r = Some (mkHandle false i (j * bs));
  at_b : b = i * N + j;
  at_i : 0 <= i;
  at_j : 0 <= j <= N;
  at_end : b <= zlen F;
}.

Definition crc_at (F : list (Z * list piece)) (b : Z) : Z := last_crc crc32 bs 0 (takeZ b F).

(** ... with the pieces [Qm] of the blocks it has read still to be taken. *)
Definition lr_at (F : list (Z * list piece)) (b : Z) (r : LogReader) (Qm : list piece) : Prop :=
  exists i j, at_block F b i j r /\ pending crc32 bs (crc_at F b) [] (lr_reader r) (lr_buf r) Qm.

(** Something of the file was read. *)
Definition moved_on (r : LogReader) : Prop := exists h, lr_file r = Some h /\ 0 < h_pos h.

Definition lr_ok (F : list (Z * list piece)) (b : Z) (r : LogReader) (Q : list piece) : Prop :=
  exists Qm, lr_at F b r Qm /\ Q = Qm ++ pieces (dropZ b F).

(** The file that is read, from the position on. *)
Lemma read_here F dk b i j r :
  disk_has crc32 bs N (zlen F / N + 1) F dk -> all_fit bs F -> at_block F b i j r -> j < N ->
  content_of dk (mkHandle false i (j * bs)) = chain crc32 bs (file_of N F i) /\
  dropZ (j * bs) (chain crc32 bs (file_of N F i)) = chain crc32 bs (takeZ (N - j) (dropZ b F)).
Proof.
  intros [Ha Hd] Hf [_ _ _ _ Hb Hi Hj He] Hlt.
  destruct (div_mod_N N HN F) as (HF & Hm & Hq). assert (i <= zlen F / N) by nia. split.
  - unfold content_of. simpl. rewrite Hd.
    by destruct (Z.leb_spec 0 i), (Z.ltb_spec i (zlen F / N + 1)); try lia.
  - assert (Hj' : j <= zlen (file_of N F i)).
    { unfold file_of. rewrite zlen_takeZ, zlen_dropZ by nia. nia. }
    destruct (chain_split crc32 bs (file_of N F i) j) as [_ ->]; [by apply file_of_fit|lia|].
    unfold file_of. rewrite dropZ_takeZ by lia. rewrite dropZ_dropZ by nia. by rewrite Hb.
Qed.

Lemma dropZ_cons_next {A} b (l : list A) x rest : 0 <= b -> dropZ b l = x :: rest ->
  dropZ (b + 1) l = rest /\ takeZ (b + 1) l = takeZ b l ++ [x] /\ b + 1 <= zlen l.
Proof.
  intros Hb E. split_and!.
  - pose proof (dropZ_dropZ 1 b l) as H. rewrite E in H. rewrite <- H by lia. done.
  - rewrite <- takeZ_takeZ_dropZ by lia. by rewrite E.
  - pose proof (zlen_dropZ b l Hb) as H. rewrite E, zlen_cons in H. pose proof (zlen_nonneg rest). lia.
Qed.

(** [ReadBlock] in the middle of a file. *)
Lemma ReadBlock_read F dk b i j r :
  disk_has crc32 bs N (zlen F / N + 1) F dk -> all_fit bs F -> at_block F b i j r -> j < N ->
  lr_buf r = [] ->
  read_file r dk =
  match dropZ b F with
  | [] => Some (lr_set_reader r (lr_reader r) [], dk, false)
  | (q, ps) :: _ =>
      Some (lr_set_reader (lr_set_file r (Some (mkHandle false i ((j + 1) * bs)))) (lr_reader r)
              (block crc32 bs q ps), dk, true)
  end.
Proof.
  intros Hdk Hf Hat Hj Hbuf. destruct (read_here _ _ _ _ _ _ Hdk Hf Hat Hj) as [Hc Hdr].
  pose proof bs_pos' as Hbs. destruct Hdk as [Ha _]. pose proof (at_bs _ _ _ _ _ Hat) as Hbsr.
  unfold read_file. rewrite Hbuf, (at_file _ _ _ _ _ Hat). change (zlen [] =? 0) with true.
  cbn [CHECK mbind option_bind]. unfold File_Read, ask. rewrite Ha. cbn [h_pos h_temp h_num].
  rewrite Hc, Hdr, Hbsr. destruct (dropZ b F) as [|[q ps] rest] eqn:E.
  - rewrite takeZ_nil. change (chain crc32 bs []) with (@nil byte). rewrite takeZ_nil.
    change (zlen []) with 0. destruct (Z.ltb_spec 0 bs); [|lia].
    unfold Seek_set, ask. rewrite Ha. pose proof (at_j _ _ _ _ _ Hat).
    destruct (Z.ltb_spec (j * bs) 0); [nia|]. cbn [h_temp h_num].
    do 3 f_equal. destruct r; simpl. rewrite <- (at_file _ _ _ _ _ Hat). done.
  - replace (takeZ (N - j) ((q, ps) :: rest)) with ([(q, ps)] ++ takeZ (N - j - 1) rest).
    2: { unfold takeZ. replace (Z.to_nat (N - j)) with (S (Z.to_nat (N - j - 1))) by lia. done. }
    assert (Hfit : fits bs ps).
    { assert (Hd : all_fit bs (dropZ b F)) by (by apply Forall_drop). rewrite E in Hd.
      by inversion Hd as [|? ? [? _] ?]. }
    rewrite chain_app, chain_one, takeZ_app_l, takeZ_all by (rewrite zlen_block by done; lia).
    rewrite zlen_block by done. rewrite Z.ltb_irrefl, Z.eqb_refl. cbn [CHECK mbind option_bind].
    by replace ((j + 1) * bs) with (j * bs + bs) by lia.
Qed.

(** The first part of [ReadBlock]: at the end of a file, the next one. *)
Lemma ReadBlock_opens F dk b i j r :
  disk_has crc32 bs N (zlen F / N + 1) F dk -> at_block F b i j r -> lr_buf r = [] ->
  i < 2 ^ 31 - 1 ->
  exists r' i' j',
    (if j * bs =? lr_limit r then n ← next_file (lr_file_num r); OpenFile n r dk
     else Some (r, dk, true)) = Some (r', dk, true) /\
    at_block F b i' j' r' /\ j' < N /\ lr_buf r' = [] /\ lr_num_errors r' = lr_num_errors r /\
    (lr_reader r' = lr_reader r \/ lr_reader r' = Reader_Clear (lr_reader r)).
Proof.
  intros [Ha Hd] Hat Hbuf Hi. pose proof bs_pos' as Hbs. destruct (div_mod_N N HN F) as (HF & Hm & Hq).
  pose proof Hat as [Hb1 HN1 Hn1 Hf1 Hb Hi0 Hj He].
  unfold lr_limit. rewrite Hb1, HN1, wrapU_small by nia. destruct (Z.eqb_spec (j * bs) (bs * N)) as [Hend|Hnot].
  - rewrite Hn1, (next_file_ok i) by lia. cbn [mbind option_bind]. unfold OpenFile.
    rewrite Hn1. destruct (Z.eqb_spec i (i + 1)); [lia|]. simpl andb. cbv iota.
    destruct (Z.leb_spec 0 (i + 1)); [|lia]. cbn [CHECK mbind option_bind]. unfold Open_existing, ask. rewrite Ha.
    assert (i + 1 <= zlen F / N) by nia.
    assert (Hsome : d_log dk !! (i + 1) = Some (chain crc32 bs (file_of N F (i + 1)))).
    { rewrite Hd. by destruct (Z.leb_spec 0 (i + 1)), (Z.ltb_spec (i + 1) (zlen F / N + 1)); try lia. }
    rewrite Hsome. cbn [h_pos CHECK mbind option_bind]. rewrite Z.eqb_refl. cbn [CHECK mbind option_bind].
    eexists _, (i + 1), 0. split; [done|]. split; [|split; [lia|split; [done|split; [done|by right]]]].
    assert (j = N) by nia. split; try done; simpl; try lia.
  - exists r, i, j. split_and!; try done; [nia|by left].
Qed.

Lemma LogReadBlock_spec F dk b i j r :
  disk_has crc32 bs N (zlen F / N + 1) F dk -> all_fit bs F -> linked crc32 bs 0 F ->
  at_block F b i j r -> pending crc32 bs (crc_at F b) [] (lr_reader r) [] [] ->
  lr_buf r = [] -> i < 2 ^ 31 - 1 ->
  exists r' ok, ReadBlock r dk = Some (r', dk, ok) /\
    r_record (lr_reader r') = r_record (lr_reader r) /\ lr_num_errors r' = lr_num_errors r /\
    (if (ok : bool) then exists q ps rest, dropZ b F = (q, ps) :: rest /\ lr_at F (b + 1) r' ps /\ moved_on r'
     else lr_at F b r' [] /\ dropZ b F = []).
Proof.
  intros Hdk Hf Hln Hat HP Hbuf Hi.
  destruct (ReadBlock_opens _ _ _ _ _ _ Hdk Hat Hbuf Hi) as (r1 & i1 & j1 & Hop & Hat1 & Hj1 & Hbuf1 & Herr & Hrd).
  unfold ReadBlock. rewrite (at_file _ _ _ _ _ Hat). cbn [mbind option_bind h_pos]. rewrite Hop.
  cbn [mbind option_bind negb]. rewrite (ReadBlock_read _ _ _ _ _ _ Hdk Hf Hat1 Hj1 Hbuf1). clear Hop.
  destruct HP as (Hrbs & Hsk & cs & bls & Hc & _ & Hch & Hfb & HQ & _ & He).
  apply app_nil in HQ as [-> Hpb].
  assert (Hbls : bls = []) by (destruct bls as [|[q [|p ps]] bls]; [done| |done];
    inversion Hfb as [|? ? [_ Hne] ?]; by destruct Hne). subst bls. simpl in He.
  assert (Hrd1 : r_block_size (lr_reader r1) = bs /\ r_skip (lr_reader r1) = false /\
    r_content (lr_reader r1) = [] /\ r_record (lr_reader r1) = r_record (lr_reader r) /\
    (r_prev_crc (lr_reader r1) = 0 \/ r_prev_crc (lr_reader r1) = crc_at F b)).
  { destruct Hrd as [->| ->]; simpl; split_and!; try done; by left. }
  clear Hrd. destruct Hrd1 as (R1 & R2 & R3 & R4 & R5). pose proof (at_i _ _ _ _ _ Hat1).
  pose proof (at_j _ _ _ _ _ Hat1). pose proof (at_b _ _ _ _ _ Hat1) as Hb1. assert (0 <= b) by nia.
  destruct (dropZ b F) as [|[q ps] rest] eqn:E.
  - eexists _, false. split; [done|]. split_and!; [done..| |done]. exists i1, j1. split.
    + by destruct Hat1.
    + split_and!; [done..|]. exists [], []. split_and!; try done; by constructor.
  - destruct (dropZ_cons_next b F _ _ ltac:(done) E) as (Er & Et & Hlt).
    eexists _, true. split; [done|]. split_and!; [done..|]. exists q, ps, rest. split; [done|].
    split; [exists i1, (j1 + 1); split|eexists; split; [done|]; cbn [h_pos]; pose proof bs_pos'; nia].
    + destruct Hat1; split; simpl; try done; try lia.
    + assert (Hfx : all_fit bs [(q, ps)]).
      { assert (Hd : all_fit bs (dropZ b F)) by (by apply Forall_drop). rewrite E in Hd.
        inversion Hd; subst. by constructor. }
      assert (Hlk : is_int32 q /\ (q = 0 \/ r_prev_crc (lr_reader r1) = 0 \/ r_prev_crc (lr_reader r1) = q)).
      { rewrite <- (takeZ_dropZ b F), E in Hln. apply linked_app in Hln as [_ Hln]. simpl in Hln.
        destruct Hln as (Hq & Hlk & _). unfold crc_at in R5. split; [done|]. destruct Hlk as [?|[Hz|Hz]]; [by left| |].
        - right. left. rewrite Hz in R5. by destruct R5.
        - rewrite Hz in R5. right. destruct R5; auto. }
      split_and!; [done..|]. exists [], [(q, ps)]. rewrite chain_one, pieces_one, app_nil_r. simpl.
      split_and!; try done; try apply Hlk. right. unfold crc_at. by rewrite Et, last_crc_app.
Qed.

(** ** [GetNextRecord] *)

(** The bytes of the first [n] files. *)
Lemma files_bytes F n : all_fit bs F -> forall m : gmap Z bytes,
  (forall i, m !! i = if (0 <=? i) && (i <? Z.of_nat n) then Some (chain crc32 bs (file_of N F i)) else None) ->
  Z.of_nat (map_fold (fun _ (c : bytes) k => (length c + k)%nat) O m) = bs * Z.min (zlen F) (Z.of_nat n * N).
Proof.
  intros Hf. pose proof (zlen_nonneg F). induction n as [|n IH]; intros m Hm.
  - assert (m = ∅) as ->.
    { apply map_empty. intros i. rewrite Hm. by destruct (Z.leb_spec 0 i), (Z.ltb_spec i (Z.of_nat 0)); try lia. }
    rewrite map_fold_empty, Z.min_r by lia. lia.
  - assert (Hn : m !! Z.of_nat n = Some (chain crc32 bs (file_of N F (Z.of_nat n)))).
    { rewrite Hm. by destruct (Z.leb_spec 0 (Z.of_nat n)), (Z.ltb_spec (Z.of_nat n) (Z.of_nat (S n))); try lia. }
    rewrite (map_fold_delete_L (fun _ (c : bytes) k => (length c + k)%nat) O (Z.of_nat n) (chain crc32 bs (file_of N F (Z.of_nat n))) m); [|intros; lia|exact Hn].
    rewrite Nat2Z.inj_add, IH.
    2: { intros i. destruct (decide (i = Z.of_nat n)) as [->|Hne].
         - rewrite lookup_delete_eq. by destruct (Z.ltb_spec (Z.of_nat n) (Z.of_nat n)); [lia|rewrite andb_false_r].
         - rewrite lookup_delete_ne, Hm by done.
           by destruct (Z.leb_spec 0 i), (Z.ltb_spec i (Z.of_nat n)), (Z.ltb_spec i (Z.of_nat (S n))); try lia. }
    pose proof (zlen_chain crc32 bs _ (file_of_fit bs N F (Z.of_nat n) Hf)) as Hz. unfold zlen at 1 in Hz.
    rewrite Hz. unfold file_of. rewrite zlen_takeZ, zlen_dropZ by lia. pose proof bs_pos'. nia.
Qed.

Lemma blocks_left_enough F dk r :
  disk_has crc32 bs N (zlen F / N + 1) F dk -> all_fit bs F -> (length F < blocks_left r dk)%nat.
Proof.
  intros [_ Hd] Hf. unfold blocks_left. destruct (div_mod_N N HN F) as (HF & Hm & Hq). pose proof bs_pos'.
  pose proof (files_bytes F (Z.to_nat (zlen F / N + 1)) Hf (d_log dk)) as H1.
  rewrite Z2Nat.id in H1 by lia. specialize (H1 Hd). unfold zlen in *. nia.
Qed.

Definition get_state : Type := LogReader * Disk * option bytes.

(** What [GetNextRecord] gives for what the pieces before the reader make. *)
Definition gets (F : list (Z * list piece)) (dk : Disk) (o : bytes) (errors : Z) (G : fed)
    (a : get_state * bool) : Prop :=
  let '(r, dk', out, ok) := a in
  dk' = dk /\ exists b, match forget G with
  | FRecord rec _ Q => out = Some (o ++ rec) /\ ok = true /\ lr_ok F b r Q /\
      r_record (lr_reader r) = [] /\ lr_num_errors r = errors
  | FEnd acc _ => out = Some o /\ ok = false /\ lr_ok F b r [] /\
      r_record (lr_reader r) = acc /\ lr_num_errors r = errors
  | FBroken _ Q => out = Some o /\ ok = true /\ lr_ok F b r Q /\
      r_record (lr_reader r) = [] /\ lr_num_errors r = errors + 1
  | FEnough _ _ => False
  end.

Lemma feed_0_enough keep Q : forall acc n m Q', feed keep 0 acc n Q <> FEnough m Q'.
Proof.
  induction Q as [|p Q IH]; intros acc n m Q'; [done|]. simpl.
  destruct (p_first p && _); [done|]. destruct (keep && _ && _); [apply IH|].
  destruct (p_cont p); [apply IH|done].
Qed.

Lemma at_block_with F b i j r r' : at_block F b i j r -> lr_block_size r' = lr_block_size r ->
  lr_blocks_per_file r' = lr_blocks_per_file r -> lr_file_num r' = lr_file_num r -> lr_file r' = lr_file r ->
  at_block F b i j r'.
Proof. intros [] E1 E2 E3 E4. split; congruence. Qed.

Lemma GetNextRecord_round_at F dk b r Qm o :
  disk_has crc32 bs N (zlen F / N + 1) F dk -> all_fit bs F -> linked crc32 bs 0 F ->
  zlen F < 2 ^ 31 - 1 -> lr_at F b r Qm ->
  exists x r', GetNextRecord_step crc32 Inflate (r, dk, Some o) = Some x /\
    match feed true 0 (r_record (lr_reader r)) 0 Qm with
    | FEnd acc _ => r_record (lr_reader r') = acc /\ lr_num_errors r' = lr_num_errors r /\
        match dropZ b F with
        | (q, ps) :: _ => x = inl (r', dk, Some o) /\ lr_at F (b + 1) r' ps /\ moved_on r'
        | [] => x = inr (r', dk, Some o, false) /\ lr_at F b r' []
        end
    | FRecord rec _ Q => x = inr (r', dk, Some (o ++ rec), true) /\ lr_at F b r' Q /\
        r_record (lr_reader r') = [] /\ lr_num_errors r' = lr_num_errors r /\ lr_file r' = lr_file r
    | FBroken _ Q => x = inr (r', dk, Some o, true) /\ lr_at F b r' Q /\
        r_record (lr_reader r') = [] /\ lr_num_errors r' = lr_num_errors r + 1
    | FEnough _ _ => False
    end.
Proof.
  intros Hdk Hf Hln HF (i & j & Hat & HP). unfold GetNextRecord_step.
  assert (Hbs0 : zlen (@nil byte) < bs) by (change (zlen []) with 0; apply bs_pos').
  destruct (ReadRecord_feed crc32 Inflate bs _ [] _ _ _ (Some o) 0 0 Hok Hbs0 HP)
    as ([[[[rd buf] ns] out] ret] & -> & Ha). cbn [mbind option_bind].
  change (bool_decide (is_Some (Some o))) with true in Ha.
  destruct (feed true 0 (r_record (lr_reader r)) 0 Qm) as [acc n|rec n Q'|n Q'|n Q'] eqn:HG.
  4: by apply feed_0_enough in HG.
  - destruct Ha as (-> & -> & -> & -> & HP' & Hacc). rewrite decide_True by done.
    assert (Hi : i < 2 ^ 31 - 1).
    { pose proof (at_b _ _ _ _ _ Hat). pose proof (at_j _ _ _ _ _ Hat). pose proof (at_end _ _ _ _ _ Hat).
      pose proof (at_i _ _ _ _ _ Hat). nia. }
    destruct (LogReadBlock_spec F dk b i j (lr_set_pos (lr_set_reader r rd []) (lr_file_num (lr_set_reader r rd [])) 0))
      as (r' & ok & -> & Hrec & Herr & Hres); try done; [by apply (at_block_with _ _ _ _ r)|].
    cbn [mbind option_bind]. simpl in Hrec, Herr. destruct ok.
    + destruct Hres as (q & ps & rest & E & Hl & Hmv). eexists _, r'. split; [done|]. rewrite E, Hrec, Hacc. by split_and!.
    + destruct Hres as [Hl Hnil]. eexists _, r'. split; [done|]. rewrite Hnil, Hrec, Hacc. by split_and!.
  - destruct Ha as (-> & -> & -> & HP' & Hrec). rewrite decide_False, decide_True by done.
    eexists _, _. split; [done|]. split_and!; [done| |done|done|done].
    exists i, j. split; [by apply (at_block_with _ _ _ _ r)|done].
  - destruct Ha as (-> & -> & -> & HP' & Hrec). rewrite !decide_False by done.
    eexists _, _. split; [done|]. split_and!; [done| |done|done].
    exists i, j. split; [by apply (at_block_with _ _ _ _ r)|done].
Qed.

Lemma lr_at_range F b r Qm : lr_at F b r Qm -> 0 <= b <= zlen F.
Proof. intros (i & j & [] & _). nia. Qed.

Lemma GetNextRecord_round F dk b r Q o :
  disk_has crc32 bs N (zlen F / N + 1) F dk -> all_fit bs F -> linked crc32 bs 0 F ->
  zlen F < 2 ^ 31 - 1 -> lr_ok F b r Q ->
  exists x, GetNextRecord_step crc32 Inflate (r, dk, Some o) = Some x /\
    match x with
    | inl (r', dk', out) => dk' = dk /\ out = Some o /\ lr_num_errors r' = lr_num_errors r /\
        exists Q', lr_ok F (b + 1) r' Q' /\ b + 1 <= zlen F /\
          forget (feed true 0 (r_record (lr_reader r')) 0 Q') = forget (feed true 0 (r_record (lr_reader r)) 0 Q)
    | inr a => gets F dk o (lr_num_errors r) (feed true 0 (r_record (lr_reader r)) 0 Q) a
    end.
Proof.
  intros Hdk Hf Hln HF (Qm & HL & ->). pose proof (lr_at_range _ _ _ _ HL) as Hb.
  destruct (GetNextRecord_round_at F dk b r Qm o Hdk Hf Hln HF HL) as (x & r' & -> & Hx). exists x. split; [done|]. rewrite feed_app.
  destruct (feed true 0 (r_record (lr_reader r)) 0 Qm) as [acc n|rec n Q'|n Q'|n Q'].
  - destruct Hx as (Hrec & Herr & Hx). destruct (dropZ b F) as [|[q ps] rest] eqn:E; [destruct Hx as [-> HL']|destruct Hx as (-> & HL' & _)].
    + change (pieces []) with (@nil piece). split; [done|]. exists b. simpl. split_and!; try done. exists []. by rewrite E.
    + destruct (dropZ_cons_next b F _ _ ltac:(lia) E) as (Er & _ & Hle). split_and!; [done..|].
      exists (pieces ((q, ps) :: rest)). rewrite Hrec. split_and!; [|done|apply feed_forget]. exists ps. by rewrite Er.
  - destruct Hx as (-> & HL' & Hrec & Herr & _). split; [done|]. exists b. simpl. split_and!; try done. by exists Q'.
  - destruct Hx as (-> & HL' & Hrec & Herr). split; [done|]. exists b. simpl. split_and!; try done. by exists Q'.
  - done.
Qed.

Lemma GetNextRecord_loop F dk b r Q o fuel :
  disk_has crc32 bs N (zlen F / N + 1) F dk -> all_fit bs F -> linked crc32 bs 0 F ->
  zlen F < 2 ^ 31 - 1 -> lr_ok F b r Q -> (length F < fuel)%nat ->
  exists a, loop (GetNextRecord_step crc32 Inflate) fuel (r, dk, Some o) = Some a /\
    gets F dk o (lr_num_errors r) (feed true 0 (r_record (lr_reader r)) 0 Q) a.
Proof.
  intros Hdk Hf Hln HF HL Hfuel. set (G := forget (feed true 0 (r_record (lr_reader r)) 0 Q)).
  apply (loop_total_ix (GetNextRecord_step crc32 Inflate)
    (fun n '(r', dk', out) => dk' = dk /\ out = Some o /\ lr_num_errors r' = lr_num_errors r /\
       exists b' Q', lr_ok F b' r' Q' /\ Z.of_nat n = zlen F - b' /\
         forget (feed true 0 (r_record (lr_reader r')) 0 Q') = G)
    (gets F dk o (lr_num_errors r) (feed true 0 (r_record (lr_reader r)) 0 Q)))
    with (n := Z.to_nat (zlen F - b)).
  - intros n [[r1 dk1] out1] (-> & -> & Herr & b1 & Q1 & HL1 & Hn & HG).
    destruct (GetNextRecord_round F dk b1 r1 Q1 o Hdk Hf Hln HF HL1) as (x & Hx & Hq).
    exists x. split; [done|]. destruct x as [[[r' dk'] out]|[[[r' dk'] out] ok]].
    + destruct Hq as (-> & -> & Herr' & Q' & HL' & Hlt & HG'). exists (Z.to_nat (zlen F - (b1 + 1))).
      split; [|lia]. split_and!; [done|done|by rewrite Herr'|]. exists (b1 + 1), Q'. split_and!; [done|lia|by rewrite HG'].
    + unfold gets in Hq |- *. rewrite HG in Hq. rewrite <- Herr. exact Hq.
  - split_and!; [done..|]. exists b, Q. split_and!; [done| |done].
    destruct HL as (Qm & HL%lr_at_range & _). lia.
  - destruct HL as (Qm & HL%lr_at_range & _). unfold zlen in *. lia.
Qed.

Lemma GetNextRecord_spec F dk b r Q o :
  disk_has crc32 bs N (zlen F / N + 1) F dk -> all_fit bs F -> linked crc32 bs 0 F ->
  zlen F < 2 ^ 31 - 1 -> lr_ok F b r Q ->
  exists a, GetNextRecord crc32 Inflate r dk (Some o) = Some a /\
    gets F dk o (lr_num_errors r) (feed true 0 (r_record (lr_reader r)) 0 Q) a.
Proof.
  intros Hdk Hf Hln HF HL. pose proof HL as (Qm & (i & j & Hat & _) & _).
  pose proof (at_num _ _ _ _ _ Hat) as Hnum. pose proof (at_i _ _ _ _ _ Hat). unfold GetNextRecord.
  rewrite Hnum. destruct (Z.eqb_spec i (-1)); [lia|]. rewrite Hnum. destruct (Z.eqb_spec i (-1)); [lia|].
  rewrite (at_file _ _ _ _ _ Hat). cbn [mbind option_bind negb].
  apply GetNextRecord_loop with (b := b); try done. by apply blocks_left_enough.
Qed.
End Reader.
