(* ===== verification/LogIOProps.v ===== *)
(** * LogIO: logs

    What clients of a log see: a writer and readers of the same files. *)

From stdpp Require Import sorting.
From S2P Require Import Prelude.
From S2P Require Import RecordIO.
From S2P Require Import RecordIOSpec.
From S2P Require Import RecordIOProps.
From S2P Require Import LogIO.
From S2P Require Import LogIOSpec.
From S2P Require Import LogIOReader.

Section Clients.
Variable crc32 : Z -> bytes -> Z.
Variable Deflate : bytes -> option bytes.
Variable Inflate : bytes -> bytes * bool.
Variables bs N dump : Z.

(** A client that writes records, all of them without an error. *)
Fixpoint log_records (w : LogWriter) (dk : Disk) (recs : list (bool * bytes)) : option (LogWriter * Disk) :=
  match recs with
  | [] => Some (w, dk)
  | (buffer, r) :: recs =>
      '(w, dk, ok) ← WriteRecord crc32 Deflate buffer w dk r;
      CHECK ok;;
      log_records w dk recs
  end.

Definition open_writer (pid : Z) (alive : Z -> bool) (dk : Disk) : option (LogWriter * Disk) :=
  w ← LogWriter_new bs N false false dump;
  '(w, dk, ok) ← Initialize pid alive w dk;
  CHECK ok;;
  Some (w, dk).

(** A new log: the records, and [Close]. *)
Definition write_log (pid : Z) (alive : Z -> bool) (recs : list (bool * bytes)) (dk : Disk) : option Disk :=
  '(w, dk) ← open_writer pid alive dk;
  '(w, dk) ← log_records w dk recs;
  '(_, dk) ← Close crc32 w dk;
  Some dk.

(** A client that reads [n] records. *)
Fixpoint get_records (n : nat) (r : LogReader) (dk : Disk) : option (list bytes * LogReader) :=
  match n with
  | O => Some ([], r)
  | S n =>
      '(r, dk, out, ok) ← GetNextRecord crc32 Inflate r dk (Some []);
      CHECK ok;;
      rec ← out;
      '(recs, r) ← get_records n r dk;
      Some (rec :: recs, r)
  end.

(** Reading to the end: no more record, and no error met. *)
Definition get_all (n : nat) (r : LogReader) (dk : Disk) : option (list bytes * LogReader) :=
  '(recs, r) ← get_records n r dk;
  '(r, _, out, ok) ← GetNextRecord crc32 Inflate r dk (Some []);
  CHECK (negb ok && bool_decide (out = Some []) && (lr_num_errors r =? 0));;
  Some (recs, r).

(** A writer and a reader of the same log that take turns: a batch of records is written
    and flushed, then as many records are read, up to the end of what is there. *)
Fixpoint follow (w : LogWriter) (dk : Disk) (r : LogReader) (batches : list (list (bool * bytes)))
    : option (list (list bytes)) :=
  match batches with
  | [] => Some []
  | recs :: batches =>
      '(w, dk) ← log_records w dk recs;
      '(w, dk, ok) ← Flush crc32 w dk;
      CHECK ok;;
      '(read, r) ← get_all (length recs) r dk;
      rest ← follow w dk r batches;
      Some (read :: rest)
  end.

(** What the files and the file numbers can take. *)
Definition total (recs : list (bool * bytes)) : Z := foldr (fun x s => zlen x.2 + 1 + s) 0 recs.
Definition contents (recs : list (bool * bytes)) : list bytes := snd <$> recs.
Definition writable (recs : list (bool * bytes)) : Prop := Forall (fun x => x.1 = false -> x.2 <> []) recs.
(** The threshold from which a block is dumped leaves room for a trailer and a record header;
    that of [LogWriter], 0.9 of the block without its trailer, does from 53 bytes on. *)
Definition sizes_ok : Prop :=
  16 < bs < kMaximumRecordBlockSize /\ 0 < N /\ bs * N < 2 ^ 63 /\ dump + 16 < bs.
Definition new_log (alive : Z -> bool) (dk : Disk) : Prop :=
  d_log dk = ∅ /\ d_answers dk = [] /\
  (default 0 (d_lock dk) = 0 \/ alive (default 0 (d_lock dk)) = false).

Lemma total_nonneg recs : 0 <= total recs.
Proof. induction recs as [|x recs IH]; simpl; [lia|]. pose proof (zlen_nonneg x.2). lia. Qed.

Lemma log_records_ok recs : sizes_ok -> writable recs -> forall F P w dk,
  lw_ok crc32 bs N dump false F P w dk -> room (lw_recorder w) -> zlen P + total recs < 2 ^ 31 - 1 ->
  exists w' dk' F' pss, log_records w dk recs = Some (w', dk') /\
    lw_ok crc32 bs N dump false F' (P ++ concat pss) w' dk' /\ F `prefix_of` F' /\
    room (lw_recorder w') /\ Forall2 (split true) (snd <$> recs) pss /\
    zlen (P ++ concat pss) <= zlen P + total recs.
Proof.
  intros (Hok & HN & Hlim & Hd) Hr. induction Hr as [|[buffer r] recs Hx Hr IH]; intros F P w dk HL Hroom HP.
  { exists w, dk, F, []. rewrite app_nil_r. split_and!; try done. simpl. lia. }
  simpl in HP, Hx. pose proof (total_nonneg recs).
  destruct (WriteRecord_ok crc32 Deflate bs N dump Hok HN Hlim Hd false F P w dk buffer r r HL Hroom eq_refl)
    as (w1 & dk1 & F1 & ps & Hw & HL1 & Hpre1 & Hroom1 & Hsp); [by rewrite andb_true_r|lia|].
  pose proof (split_length _ _ _ Hsp). pose proof (zlen_app P ps).
  destruct (IH F1 (P ++ ps) w1 dk1 HL1 Hroom1) as (w2 & dk2 & F2 & pss & Hws & HL2 & Hpre2 & Hroom2 & Hsp2 & Hz); [lia|].
  exists w2, dk2, F2, (ps :: pss). simpl. rewrite Hw. cbn [mbind option_bind CHECK].
  rewrite app_assoc. split_and!; try done; [by etrans|by constructor|lia].
Qed.

Lemma get_records_ok F dk ss pss :
  sizes_ok -> disk_has crc32 bs N (zlen F / N + 1) F dk -> all_fit bs F -> linked crc32 bs 0 F ->
  zlen F < 2 ^ 31 - 1 -> Forall2 (split true) ss pss -> forall b r,
  lr_ok crc32 bs N F b r (concat pss) -> r_record (lr_reader r) = [] -> lr_num_errors r = 0 ->
  exists r' b', get_all (length ss) r dk = Some (ss, r') /\ lr_ok crc32 bs N F b' r' [] /\
    r_record (lr_reader r') = [] /\ lr_num_errors r' = 0.
Proof.
  intros (Hok & HN & Hlim & _) Hdk Hf Hln HF H. induction H as [|s ps ss pss Hsp H IH]; intros b r HL Hrec Herr.
  - destruct (GetNextRecord_spec crc32 Inflate bs N Hok HN Hlim F dk b r _ [] Hdk Hf Hln HF HL)
      as ([[[r' dk'] out] ok] & HG & -> & b' & Hg). rewrite Hrec in Hg. simpl in Hg.
    destruct Hg as (-> & -> & HL' & Hrec' & Herr'). exists r', b'.
    unfold get_all. simpl. rewrite HG. cbn [mbind option_bind]. rewrite Herr', Herr. by split_and!.
  - destruct (GetNextRecord_spec crc32 Inflate bs N Hok HN Hlim F dk b r _ [] Hdk Hf Hln HF HL)
      as ([[[r1 dk'] out] ok] & HG & -> & b1 & Hg).
    rewrite Hrec in Hg. simpl concat in Hg. rewrite (feed_split ps [] s) in Hg by done. simpl in Hg.
    destruct Hg as (-> & -> & HL1 & Hrec1 & Herr1).
    destruct (IH b1 r1 HL1 Hrec1) as (r' & b' & Hall & HL' & Hrec' & Herr'); [by rewrite Herr1|].
    exists r', b'. split; [|done]. unfold get_all in Hall |- *. simpl. rewrite HG.
    cbn [mbind option_bind CHECK]. destruct (get_records (length ss) r1 dk) as [[l r2]|]; [|done].
    cbn [mbind option_bind] in *. destruct (GetNextRecord _ _ r2 dk _) as [[[[r3 d3] o3] k3]|]; [|done].
    cbn [mbind option_bind] in *. destruct (CHECK _); [|done]. cbn [mbind option_bind] in *.
    by injection Hall as -> ->.
Qed.

(** The first call of a new reader finds the first file. *)
Lemma log_files_first dk c : d_log dk !! 0 = Some c -> (forall i, i < 0 -> d_log dk !! i = None) ->
  exists l, log_files dk = 0 :: l.
Proof.
  intros H0 Hneg. unfold log_files.
  pose proof (StronglySorted_merge_sort Z.le (map_to_list (d_log dk)).*1) as Hs.
  pose proof (merge_sort_Permutation Z.le (map_to_list (d_log dk)).*1) as Hp.
  set (l := merge_sort Z.le (map_to_list (d_log dk)).*1) in *.
  assert (Hin : forall i, In i l -> 0 <= i).
  { intros i Hi. eapply Permutation_in in Hi; [|exact Hp]. apply list_elem_of_In, list_elem_of_fmap in Hi as ([j c'] & -> & Hj).
    apply elem_of_map_to_list in Hj. simpl. destruct (decide (j < 0)) as [Hlt|]; [|lia]. by rewrite Hneg in Hj. }
  assert (H0l : In 0 l).
  { eapply Permutation_in; [symmetry; exact Hp|]. apply list_elem_of_In, list_elem_of_fmap.
    exists (0, c). split; [done|]. by apply elem_of_map_to_list. }
  destruct l as [|x l]; [done|]. exists l. f_equal.
  assert (x <= 0).
  { destruct H0l as [->|H0l]; [lia|].
    inversion Hs as [|? ? _ Hall]; subst. rewrite List.Forall_forall in Hall. by apply Hall. }
  pose proof (Hin x (or_introl eq_refl)). lia.
Qed.

Lemma new_reader_opens F dk : sizes_ok -> disk_has crc32 bs N (zlen F / N + 1) F dk ->
  exists r0, lr_ok crc32 bs N F 0 r0 (pieces F) /\ r_record (lr_reader r0) = [] /\ lr_num_errors r0 = 0 /\
    forall n, get_all n (LogReader_new bs N) dk = get_all n r0 dk.
Proof.
  intros (Hok & HN & Hlim & _) [Ha Hd]. pose proof (zlen_nonneg F). pose proof (Z.div_pos (zlen F) N).
  assert (Hf0 : d_log dk !! 0 = Some (chain crc32 bs (file_of N F 0))).
  { rewrite Hd. by destruct (Z.ltb_spec 0 (zlen F / N + 1)); [|lia]. }
  destruct (log_files_first dk _ Hf0) as [l Hl].
  { intros i Hi. rewrite Hd. by destruct (Z.leb_spec 0 i); [lia|]. }
  set (r0 := mkLogReader bs N (Some (mkHandle false 0 0)) 0 0 (RecordReader_new bs) 0 []).
  exists r0. split; [|split; [done|split; [done|]]].
  { exists []. split; [|done]. exists 0, 0. split; [split; simpl; try done; lia|].
    split_and!; [done..|]. exists [], []. split_and!; try done; [constructor|by left]. }
  assert (HG : GetNextRecord crc32 Inflate (LogReader_new bs N) dk (Some []) = GetNextRecord crc32 Inflate r0 dk (Some [])).
  { unfold GetNextRecord. simpl. unfold Rewind. rewrite Hl. simpl. unfold OpenFile. simpl. rewrite Hf0.
    unfold Open_existing, ask. rewrite Ha, Hf0. done. }
  intros [|n]; unfold get_all; simpl; by rewrite HG.
Qed.

Definition reader_at (F : list (Z * list piece)) (r : LogReader) : Prop :=
  (r = LogReader_new bs N /\ pieces F = []) \/
  (exists b, lr_ok crc32 bs N F b r [] /\ r_record (lr_reader r) = [] /\ lr_num_errors r = 0).

Lemma reader_grows F a b r : lr_ok crc32 bs N F b r [] -> lr_ok crc32 bs N (F ++ a) b r (pieces a).
Proof.
  intros (Qm & (i & j & Hat & HP) & HQ). symmetry in HQ. apply app_nil in HQ as [-> HQ].
  pose proof (at_end _ _ _ _ _ _ _ Hat). exists []. split.
  - exists i, j. split; [|unfold crc_at; by rewrite takeZ_app_l].
    destruct Hat; split; try done. rewrite zlen_app. pose proof (zlen_nonneg a). lia.
  - by rewrite dropZ_app_l, pieces_app, HQ by lia.
Qed.

(** A reader at the end of [F] reads the records that were added. *)
Lemma read_added F a P pss dk r ss :
  sizes_ok -> reader_at F r -> disk_has crc32 bs N (zlen (F ++ a) / N + 1) (F ++ a) dk ->
  all_fit bs (F ++ a) -> linked crc32 bs 0 (F ++ a) -> zlen (F ++ a) < 2 ^ 31 - 1 ->
  pieces F = P -> pieces (F ++ a) = P ++ concat pss -> Forall2 (split true) ss pss ->
  exists r', get_all (length ss) r dk = Some (ss, r') /\ reader_at (F ++ a) r'.
Proof.
  intros Hsz Hr Hdk Hf Hln HF HP HPa Hsp. rewrite pieces_app, HP in HPa. apply app_inv_head in HPa.
  assert (H : exists r0 b, lr_ok crc32 bs N (F ++ a) b r0 (concat pss) /\ r_record (lr_reader r0) = [] /\
    lr_num_errors r0 = 0 /\ get_all (length ss) r dk = get_all (length ss) r0 dk).
  { destruct Hr as [[-> Hnil]|(b & HL & Hrec & Herr)].
    - destruct (new_reader_opens _ _ Hsz Hdk) as (r0 & HL & ? & ? & Hall).
      exists r0, 0. rewrite pieces_app, Hnil, HPa in HL. by split_and!.
    - exists r, b. rewrite <- HPa. split_and!; try done. by apply reader_grows. }
  destruct H as (r0 & b & HL & Hrec & Herr & ->).
  destruct (get_records_ok _ dk ss pss Hsz Hdk Hf Hln HF Hsp b r0 HL Hrec Herr) as (r' & b' & -> & ?).
  exists r'. split; [done|]. right. by exists b'.
Qed.

Lemma open_writer_ok pid alive dk : sizes_ok -> new_log alive dk ->
  exists w dk', open_writer pid alive dk = Some (w, dk') /\
    lw_ok crc32 bs N dump false [] [] w dk' /\ room (lw_recorder w) /\ d_lock dk' = Some pid.
Proof.
  intros (Hok & HN & Hlim & _) (Hl & Ha & Hlock).
  destruct (Initialize_ok crc32 bs N dump Hok HN Hlim pid alive false dk Hl Ha Hlock)
    as (w0 & w & dk' & H1 & H2 & H3 & H4 & H5).
  exists w, dk'. unfold open_writer. rewrite H1. cbn [mbind option_bind]. rewrite H2.
  cbn [mbind option_bind CHECK]. by split_and!.
Qed.

Lemma follow_ok batches : sizes_ok -> Forall writable batches -> forall F P w dk r,
  lw_ok crc32 bs N dump false F P w dk -> room (lw_recorder w) -> pieces F = P -> reader_at F r ->
  zlen P + total (concat batches) < 2 ^ 31 - 1 ->
  follow w dk r batches = Some (map contents batches).
Proof.
  intros Hsz Hw. pose proof Hsz as (Hok & HN & Hlim & Hd).
  induction Hw as [|recs batches Hr Hw IH]; intros F P w dk r HL Hroom HP Hat Htot; [done|].
  assert (Happ : total (recs ++ concat batches) = total recs + total (concat batches)).
  { clear. induction recs as [|x recs IH]; simpl; lia. }
  simpl in Htot. rewrite Happ in Htot. pose proof (total_nonneg (concat batches)).
  destruct (log_records_ok recs Hsz Hr F P w dk HL Hroom) as (w1 & dk1 & F1 & pss & Hlr & HL1 & Hpre1 & Hroom1 & Hsp & Hz); [lia|].
  destruct (Flush_ok crc32 bs N dump Hok HN Hlim _ F1 _ w1 dk1 HL1) as (w2 & dk2 & F2 & Hfl & HL2 & Hpre2 & HP2 & Hroom2 & _); [lia|].
  assert (Hpre : F `prefix_of` F2) by (by etrans). destruct Hpre as [a ->].
  assert (HF2 : zlen (F ++ a) < 2 ^ 31 - 1).
  { pose proof (written_bound _ _ _ _ _ _ _ _ (ok_fit _ _ _ _ _ _ _ _ _ HL2) (ok_written _ _ _ _ _ _ _ _ _ HL2)). lia. }
  destruct (read_added F a P pss dk2 r (snd <$> recs) Hsz Hat (ok_disk _ _ _ _ _ _ _ _ _ HL2)
              (ok_fit _ _ _ _ _ _ _ _ _ HL2) (lw_linked _ _ _ _ _ _ _ _ _ HL2) HF2 HP HP2 Hsp) as (r' & Hget & Hat').
  rewrite length_fmap in Hget. simpl. rewrite Hlr. cbn [mbind option_bind]. rewrite Hfl.
  cbn [mbind option_bind CHECK]. rewrite Hget. cbn [mbind option_bind].
  rewrite (IH (F ++ a) _ w2 dk2 r' HL2 Hroom2 HP2 Hat'); [done|lia].
Qed.
End Clients.

(** C3: for any number of blocks to a file, any block size between 17 and the maximum, and a
    dump threshold of the writer more than 16 below the block size, any records, those from
    streams not empty, of less than 2^31 - 1 bytes together with one for each, and no failing
    system call: a new log written and closed holds full files but for the last one, the lock
    is released, and a new reader gets every record, in order and without an error, and then
    the end. (The threshold of the code, 0.9 of the block less its header, is within the
    condition for blocks of 53 bytes or more; with smaller ones a block that is nearly full
    fails a [CHECK].) *)
Theorem log_write_read crc32 Deflate Inflate bs N dump pid alive recs dk :
  sizes_ok bs N dump -> new_log alive dk -> writable recs -> total recs < 2 ^ 31 - 1 ->
  exists dk', write_log crc32 Deflate bs N dump pid alive recs dk = Some dk' /\ d_lock dk' = None /\
    (forall i c, d_log dk' !! i = Some c ->
       zlen c <= N * bs /\ (is_Some (d_log dk' !! (i + 1)) -> zlen c = N * bs)) /\
    exists r, get_all crc32 Inflate (length recs) (LogReader_new bs N) dk' = Some (snd <$> recs, r).
Proof.
  intros Hsz Hnew Hw Htot. pose proof Hsz as (Hok & HN & Hlim & Hd).
  destruct (open_writer_ok crc32 bs N dump pid alive dk Hsz Hnew) as (w & dk1 & Hopen & HL & Hroom & _).
  destruct (log_records_ok crc32 Deflate bs N dump recs Hsz Hw _ _ _ _ HL Hroom)
    as (w1 & dk2 & F1 & pss & Hlr & HL1 & _ & _ & Hsp & Hz); [change (zlen []) with 0; lia|].
  change (zlen []) with 0 in Hz. rewrite app_nil_l in *.
  destruct (Close_ok crc32 bs N dump Hok HN Hlim _ F1 _ w1 dk2 HL1) as (w2 & dk3 & F & Hcl & Hdk & _ & HP & Hf & Hln & Hlock); [lia|].
  exists dk3. unfold write_log. rewrite Hopen. cbn [mbind option_bind]. rewrite Hlr. cbn [mbind option_bind].
  rewrite Hcl. cbn [mbind option_bind]. split_and!; [done..| |].
  - intros i c Hi. pose proof Hdk as [_ Hd']. rewrite Hd' in Hi |- *.
    destruct (Z.leb_spec 0 i), (Z.ltb_spec i (zlen F / N + 1)); try discriminate. injection Hi as <-.
    rewrite zlen_chain by (by apply file_of_fit). destruct (div_mod_N N HN F) as (HF & Hm & Hq).
    unfold file_of. rewrite zlen_takeZ, zlen_dropZ by nia. split; [nia|].
    destruct (Z.leb_spec 0 (i + 1)); [|lia]. destruct (Z.ltb_spec (i + 1) (zlen F / N + 1)); [|by intros [? ?]].
    intros _. nia.
  - assert (HzF : zlen F < 2 ^ 31 - 1) by (pose proof (all_fit_bound bs F Hf); rewrite HP in *; lia).
    destruct (read_added crc32 Inflate bs N dump [] F [] pss dk3 (LogReader_new bs N) (snd <$> recs))
      as (r & Hget & _); try done; [by left|]. rewrite length_fmap in Hget. by exists r.
Qed.

(** C4: a reader of a log that a writer keeps adding to gets, after every flush, exactly the
    records of that batch, in order and without an error, and then the end; records that span
    blocks and files, and files that fill up in between, make no difference. As in
    [log_write_read] the dump threshold is more than 16 below the block size, records from
    streams are not empty, all of them have less than 2^31 - 1 bytes with one for each, and no
    system call fails. *)
Theorem follow_reads_batches crc32 Deflate Inflate bs N dump pid alive batches dk :
  sizes_ok bs N dump -> new_log alive dk -> Forall writable batches -> total (concat batches) < 2 ^ 31 - 1 ->
  exists w dk', open_writer bs N dump pid alive dk = Some (w, dk') /\
    follow crc32 Deflate Inflate w dk' (LogReader_new bs N) batches = Some (map contents batches).
Proof.
  intros Hsz Hnew Hw Htot.
  destruct (open_writer_ok crc32 bs N dump pid alive dk Hsz Hnew) as (w & dk1 & Hopen & HL & Hroom & _).
  exists w, dk1. split; [done|]. eapply (follow_ok crc32 Deflate Inflate bs N dump batches); try done. by left.
Qed.

Definition log_witness_disk : Disk := mkDisk ∅ ∅ (Some 7) [].
Definition log_witness_recs : list (bool * bytes) :=
  [(false, bstr "a record of more than one block, and of more than a file"); (true, []); (true, bstr "x")].

Lemma log_write_read_witness :
  sizes_ok 30 2 10 /\ new_log (fun _ => false) log_witness_disk /\ total log_witness_recs = 60 /\
  exists dk', write_log sample_crc (fun _ => None) 30 2 10 1 (fun _ => false) log_witness_recs log_witness_disk = Some dk' /\
    d_lock dk' = None /\
    (forall i c, d_log dk' !! i = Some c ->
       zlen c <= 2 * 30 /\ (is_Some (d_log dk' !! (i + 1)) -> zlen c = 2 * 30)) /\
    exists r, get_all sample_crc (fun _ => ([], false)) (length log_witness_recs) (LogReader_new 30 2) dk' =
              Some (snd <$> log_witness_recs, r).
Proof.
  assert (H1 : sizes_ok 30 2 10) by (split_and!; unfold kMaximumRecordBlockSize; lia).
  assert (H2 : new_log (fun _ => false) log_witness_disk) by (split; [reflexivity|split; [reflexivity|right; reflexivity]]).
  assert (H3 : total log_witness_recs = 60) by (vm_compute; reflexivity).
  split; [exact H1|]. split; [exact H2|]. split; [exact H3|].
  apply (log_write_read sample_crc (fun _ => None) (fun _ => ([], false)) 30 2 10 1 (fun _ => false));
    [exact H1|exact H2| |rewrite H3; lia].
  repeat constructor; simpl; intros; discriminate.
Defined.

Lemma follow_reads_batches_witness :
  exists w dk', open_writer 30 2 10 1 (fun _ => false) log_witness_disk = Some (w, dk') /\
    follow sample_crc (fun _ => None) (fun _ => ([], false)) w dk' (LogReader_new 30 2)
      [log_witness_recs; []; [(true, bstr "more")]] = Some (map contents [log_witness_recs; []; [(true, bstr "more")]]).
Proof.
  apply (follow_reads_batches sample_crc (fun _ => None) (fun _ => ([], false)) 30 2 10 1 (fun _ => false)).
  - split_and!; unfold kMaximumRecordBlockSize; lia.
  - split; [reflexivity|split; [reflexivity|right; reflexivity]].
  - repeat constructor; simpl; intros; discriminate.
  - assert (H : total (concat [log_witness_recs; []; [(true, bstr "more")]]) = 65) by (vm_compute; reflexivity).
    rewrite H. lia.
Defined.

(** ** Two sessions of a writer with temporary files *)

Definition temp_session (r : bytes) (dk : Disk) : option Disk :=
  w ← LogWriter_new 30 2 true false 10;
  '(w, dk, ok) ← Initialize 1 (fun _ => false) w dk;
  CHECK ok;;
  '(w, dk, ok) ← WriteRecord sample_crc (fun _ => None) true w dk r;
  CHECK ok;;
  '(_, dk) ← Close sample_crc w dk;
  Some dk.

(** A record that a second writer with temporary files adds to a log is never moved to
    where readers look, although every call of the writer succeeds: the file it reopens
    has the number of one that is in place, and the two cannot be renamed onto each other. *)
Theorem reopened_temporary_log_loses :
  exists dk1 dk2 r,
    temp_session (bstr "first") log_witness_disk = Some dk1 /\
    temp_session (bstr "second") dk1 = Some dk2 /\ d_log dk2 = d_log dk1 /\
    get_all sample_crc (fun _ => ([], false)) 1 (LogReader_new 30 2) dk2 = Some ([bstr "first"], r).
Proof.
  eexists _, _, _. split; [vm_compute; reflexivity|]. split; [vm_compute; reflexivity|].
  split; vm_compute; reflexivity.
Qed.

(** A [Seek] to the start of the block that is being read leaves the record number, so
    [Tell] does not say where the reader is. *)
Theorem seek_then_tell_is_stale :
  exists dk r r1 r2 dk1 dk2,
    write_log sample_crc (fun _ => None) 64 2 10 1 (fun _ => false) [(true, bstr "a"); (true, bstr "b")] log_witness_disk = Some dk /\
    GetNextRecord sample_crc (fun _ => ([], false)) (LogReader_new 64 2) dk (Some []) = Some (r, dk1, Some (bstr "a"), true) /\
    Seek sample_crc (fun _ => ([], false)) (mkLogPos 0 0 0) r dk1 = Some (r1, dk2, true) /\
    Reader_Tell r1 = mkLogPos 0 0 1 /\
    GetNextRecord sample_crc (fun _ => ([], false)) r1 dk2 (Some []) = Some (r2, dk2, Some (bstr "a"), true).
Proof.
  eexists _, _, _, _, _, _. split; [vm_compute; reflexivity|]. split; [vm_compute; reflexivity|].
  split; [vm_compute; reflexivity|]. split; vm_compute; reflexivity.
Qed.
