(* ===== verification/LogFlushed.v ===== *)
(** * LogFlushed: a log that is flushed after every record

    Each record then has blocks of its own, and its position is that of the first of them.
    A reader can go to any of these positions and read from there, and the writer can cut
    the log there; only at the end of a file do the two disagree on what the position is. *)

From stdpp Require Import sorting.
From S2P Require Import Prelude.
From S2P Require Import RecordIO.
From S2P Require Import RecordIOSpec.
From S2P Require Import LogIO.
From S2P Require Import LogIOSpec.
From S2P Require Import LogIOReader.

Module LogFlushed.

Section Flushed.
Variable crc32 : Z -> bytes -> Z.
Variable Deflate : bytes -> option bytes.
Variable Inflate : bytes -> bytes * bool.
Variables bs N dump : Z.
Hypothesis Hok : ok_size bs.
Hypothesis HN : 0 < N.
Hypothesis Hlim : bs * N < 2 ^ 63.
Hypothesis Hdump : dump + 16 < bs.

Abbreviation blocks := (list (Z * list piece)).

(** ** Reading one record *)

Lemma pieces_nil (g : blocks) : all_fit bs g -> pieces g = [] -> g = [].
Proof.
  intros Hf Hp. destruct g as [|[q ps] g]; [done|]. inversion Hf as [|? ? [_ Hne] _]. exfalso. apply Hne.
  change (pieces ((q, ps) :: g)) with (ps ++ pieces g) in Hp. by apply app_nil in Hp as [-> _].
Qed.

(** The record [rec] ends with the last of the blocks [g]. *)
Lemma read_blocks F dk rest rec o fuel : disk_has crc32 bs N (zlen F / N + 1) F dk -> all_fit bs F -> linked crc32 bs 0 F ->
  zlen F < 2 ^ 31 - 1 -> forall g b r ps, lr_at crc32 bs N F b r ps -> dropZ b F = g ++ rest ->
  forget (feed true 0 (r_record (lr_reader r)) 0 (ps ++ pieces g)) = FRecord rec 0 [] -> (length g < fuel)%nat ->
  exists r', loop (GetNextRecord_step crc32 Inflate) fuel (r, dk, Some o) = Some (r', dk, Some (o ++ rec), true) /\
    lr_at crc32 bs N F (b + zlen g) r' [] /\ r_record (lr_reader r') = [] /\ (moved_on r \/ g <> [] -> moved_on r').
Proof.
  intros Hdk Hf Hln HF. induction fuel as [|fuel IH]; intros g b r ps HL Hd HG Hfuel; [lia|].
  pose proof (lr_at_range crc32 bs N HN _ _ _ _ HL) as Hb.
  assert (Hfg : all_fit bs g).
  { assert (H : all_fit bs (dropZ b F)) by by apply Forall_drop. rewrite Hd in H. by apply Forall_app in H as [? _]. }
  destruct (GetNextRecord_round_at crc32 Inflate bs N Hok HN Hlim F dk b r ps o Hdk Hf Hln HF HL) as (x & r1 & Hx & Hr).
  rewrite loop_S, Hx. rewrite feed_app in HG.
  destruct (feed true 0 (r_record (lr_reader r)) 0 ps) as [acc n|rec' n Q|n Q|n Q]; [| |done..].
  - destruct Hr as (Hrec & _ & Hr). destruct g as [|[q qs] g]; [done|]. rewrite Hd in Hr. cbn [app] in Hr. destruct Hr as (-> & HL1 & Hmv).
    destruct (IH g (b + 1) r1 qs HL1) as (r' & Hl & HL' & Hrec' & Hmv').
    + cbn [app] in Hd. by destruct (dropZ_cons_next b F _ _ ltac:(lia) Hd).
    + rewrite Hrec. rewrite <- HG. change (pieces ((q, qs) :: g)) with (qs ++ pieces g). apply feed_forget.
    + cbn [length] in Hfuel. lia.
    + exists r'. cbn [mbind option_bind]. rewrite Hl, zlen_cons. split; [done|]. split; [by replace (b + (1 + zlen g)) with (b + 1 + zlen g) by lia|]. split; [done|]. intros _. apply Hmv'. by left.
  - injection HG as -> HQ. apply app_nil in HQ as [-> HQ]. apply pieces_nil in HQ; [|done]. subst g.
    destruct Hr as (-> & HL1 & Hrec & _ & Hfile). exists r1. rewrite zlen_nil, Z.add_0_r. split_and!; try done. intros [(h & Hh & Hp)|?]; [|done]. exists h. by rewrite Hfile.
Qed.

Lemma read_record F dk g rest s b r : disk_has crc32 bs N (zlen F / N + 1) F dk -> all_fit bs F -> linked crc32 bs 0 F ->
  zlen F < 2 ^ 31 - 1 -> lr_at crc32 bs N F b r [] -> r_record (lr_reader r) = [] -> dropZ b F = g ++ rest -> split true s (pieces g) ->
  exists r', GetNextRecord crc32 Inflate r dk (Some []) = Some (r', dk, Some s, true) /\
    lr_at crc32 bs N F (b + zlen g) r' [] /\ r_record (lr_reader r') = [] /\ moved_on r'.
Proof.
  intros Hdk Hf Hln HF HL Hrec Hd Hs. pose proof HL as (i & j & Hat & _). pose proof (lr_at_range crc32 bs N HN _ _ _ _ HL) as Hb.
  pose proof (at_num _ _ _ _ _ _ _ Hat) as Hnum. pose proof (at_i _ _ _ _ _ _ _ Hat). unfold GetNextRecord.
  rewrite Hnum. destruct (Z.eqb_spec i (-1)); [lia|]. rewrite Hnum. destruct (Z.eqb_spec i (-1)); [lia|].
  rewrite (at_file _ _ _ _ _ _ _ Hat). cbn [mbind option_bind negb].
  destruct (read_blocks F dk rest s [] (blocks_left r dk) Hdk Hf Hln HF g b r [] HL Hd) as (r' & Hl & HL' & Hrec' & Hmv).
  - rewrite Hrec. cbn [app]. rewrite <- (app_nil_r (pieces g)). by rewrite (feed_split (pieces g) [] s 0 []).
  - pose proof (blocks_left_enough crc32 bs N Hok HN Hlim F dk r Hdk Hf) as Hbl.
    pose proof (zlen_dropZ b F ltac:(lia)) as Hz. rewrite Hd, zlen_app in Hz. pose proof (zlen_nonneg rest). unfold zlen in *. lia.
  - exists r'. split_and!; try done. apply Hmv. right. by intros ->.
Qed.

(** ** Going to a block *)

(** A reader between two calls: nothing of a record is left, wherever it is. *)
Record calm (r : LogReader) : Prop := {
  calm_bs : lr_block_size r = bs;
  calm_N : lr_blocks_per_file r = N;
  calm_file h : lr_file r = Some h -> h = mkHandle false (lr_file_num r) (h_pos h);
  calm_reader : r_block_size (lr_reader r) = bs;
  calm_skip : r_skip (lr_reader r) = false;
  calm_record : r_record (lr_reader r) = [];
}.

Lemma calm_new : calm (LogReader_new bs N).
Proof. by split. Qed.

Lemma at_calm F b r : lr_at crc32 bs N F b r [] -> r_record (lr_reader r) = [] -> calm r.
Proof.
  intros (i & j & [Hb1 HN1 Hn1 Hf1 _ _ _ _] & HP & Hs & _) Hr. split; try done. intros h. rewrite Hf1, Hn1. by intros [= <-].
Qed.

(** What a reader before a block says, in the file [i] with [j] blocks before it. *)
Lemma at_block_tell F b i j r : at_block bs N F b i j r -> zlen F < 2 ^ 31 - 1 -> TellAtBlock r = mkLogPos i j 0.
Proof.
  intros [Hb1 HN1 Hn1 Hf1 Hb Hi Hj He] HF. unfold TellAtBlock. rewrite Hf1, Hb1, HN1, Hn1. cbn [h_pos].
  assert (Hbs : 0 < bs) by (destruct Hok; lia). assert (j <= b) by nia. destruct (Z.ltb_spec 0 (j * bs)) as [Hp|Hp].
  - rewrite Z.div_mul by lia. rewrite (wrapS_small 32) by lia. by destruct (Z.ltb_spec j 0); [lia|].
  - assert (j = 0) as -> by nia. done.
Qed.

(** The reader is where the numbers of blocks say, but at the end of a file. *)
Lemma at_tell F b r : lr_at crc32 bs N F b r [] -> zlen F < 2 ^ 31 - 1 -> b mod N <> 0 \/ b = 0 ->
  TellAtBlock r = mkLogPos (b / N) (b mod N) 0.
Proof.
  intros (i & j & Hat & _) HF Hm. rewrite (at_block_tell F b i j r Hat HF). destruct Hat as [_ _ _ _ Hb Hi Hj _].
  destruct (Z.eqb_spec j N) as [->|Hne].
  - exfalso. destruct Hm as [Hm| ->]; [|nia]. apply Hm. rewrite Hb. replace (i * N + N) with ((i + 1) * N) by lia. apply Z.mod_mul. lia.
  - destruct (div_mod_eq N HN b i j) as [-> ->]; [lia..|done].
Qed.

(** ... where it is at the end of the file it has read, and not at the start of the next. *)
Lemma at_tell_end F b r : lr_at crc32 bs N F b r [] -> zlen F < 2 ^ 31 - 1 -> b mod N = 0 -> moved_on r ->
  TellAtBlock r = mkLogPos (b / N - 1) N 0.
Proof.
  intros (i & j & Hat & _) HF Hm (h & Hh & Hp). rewrite (at_block_tell F b i j r Hat HF). destruct Hat as [_ _ _ Hf Hb Hi Hj _].
  rewrite Hf in Hh. injection Hh as <-. cbn [h_pos] in Hp. assert (0 < bs) by (destruct Hok; lia). assert (0 < j) by nia.
  destruct (Z.eqb_spec j N) as [->|Hne].
  - rewrite Hb. replace (i * N + N) with ((i + 1) * N) by lia. rewrite Z.div_mul by lia. f_equal. lia.
  - destruct (div_mod_eq N HN b i j) as [_ E]; lia.
Qed.

Lemma OpenFile_here F dk r i : disk_has crc32 bs N (zlen F / N + 1) F dk -> 0 <= i <= zlen F / N -> calm r ->
  exists r' p, OpenFile i r dk = Some (r', dk, true) /\ calm r' /\ lr_file_num r' = i /\ lr_file r' = Some (mkHandle false i p).
Proof.
  intros [Ha Hd] Hi Hc. unfold OpenFile. destruct (_ && _) eqn:E.
  - apply andb_true_iff in E as [E%Z.eqb_eq [h Hh]%bool_decide_eq_true]. exists r, (h_pos h). split_and!; try done.
    rewrite Hh, <- E. f_equal. by apply (calm_file r Hc).
  - destruct (Z.leb_spec 0 i); [|lia]. cbn [CHECK mbind option_bind]. unfold Open_existing, ask. rewrite Ha, !Hd.
    destruct (Z.leb_spec 0 i), (Z.ltb_spec i (zlen F / N + 1)); try lia. cbn [andb h_pos CHECK mbind option_bind]. change (0 =? 0) with true.
    eexists _, 0. split; [done|]. split_and!; try done. destruct Hc. split; try done. by intros h [= <-].
Qed.

(** Going to block [i * N + j], by its numbers. *)
Lemma Seek_block F dk r i j : disk_has crc32 bs N (zlen F / N + 1) F dk -> linked crc32 bs 0 F ->
  0 <= i <= zlen F / N -> 0 <= j <= N -> i * N + j <= zlen F -> calm r ->
  exists r', Seek crc32 Inflate (mkLogPos i j 0) r dk = Some (r', dk, true) /\
    lr_at crc32 bs N F (i * N + j) r' [] /\ r_record (lr_reader r') = [] /\ at_block bs N F (i * N + j) i j r'.
Proof.
  intros Hdk Hln Hi Hj He Hc. destruct (OpenFile_here F dk r i Hdk Hi Hc) as (r1 & p & Ho & Hc1 & Hn1 & Hf1). pose proof Hdk as [Ha Hd].
  unfold Seek, LogPos_IsNull. cbn [file_num_ block_num_ record_num_]. destruct (Z.eqb_spec i (-1)); [lia|].
  assert (Hex : bool_decide (is_Some (d_log dk !! i)) = true).
  { apply bool_decide_eq_true. rewrite Hd. destruct (Z.leb_spec 0 i), (Z.ltb_spec i (zlen F / N + 1)); try lia. eauto. }
  rewrite Hex, andb_false_r, Ho. cbn [mbind option_bind negb]. unfold AdvanceToPosInFile. cbn [file_num_ block_num_ record_num_].
  rewrite bool_decide_true by (rewrite Hf1; eauto). rewrite Hn1, (Z.eqb_refl i). cbn [CHECK mbind option_bind]. cbn [lr_set_reader lr_file lr_block_size].
  rewrite Hf1. cbn [mbind option_bind]. destruct Hc1 as [Hb1 HN1 _ Hr1 Hs1 Hrec1]. rewrite Hb1.
  assert (0 < bs) by (destruct Hok; lia). assert (Hjb : 0 <= j * bs < 2 ^ 63) by nia.
  rewrite (wrapU_small 64), (wrapS_small 64) by lia. unfold Seek_set, ask. rewrite Ha. destruct (Z.ltb_spec (j * bs) 0); [lia|].
  change (0 =? 0) with true. cbv iota.
  assert (Hat : at_block bs N F (i * N + j) i j (lr_set_file (lr_set_reader r1 (Reader_Clear (lr_reader r1)) []) (Some (mkHandle false i (j * bs))))) by (split; try done; lia).
  eexists. split; [done|]. split_and!; [|exact Hrec1|exact Hat].
  exists i, j. split; [done|]. split; [exact Hr1|]. split; [exact Hs1|]. exists [], []. split_and!; try done; [constructor|by left].
Qed.

(** ** The writer with nothing pending *)

Definition flushed (F : blocks) (w : LogWriter) (dk : Disk) : Prop :=
  lw_ok crc32 bs N dump false F (pieces F) w dk /\ w_content (lw_recorder w) = [] /\ lw_buf w = [].

Lemma flushed_room F w dk : flushed F w dk -> room (lw_recorder w).
Proof.
  intros (HL & Hc & _). destruct (ok_written _ _ _ _ _ _ _ _ _ HL) as (Hb & _). unfold room. rewrite Hc, Hb. destruct Hok. change (zlen []) with 0. lia.
Qed.

Lemma flushed_bound F w dk : flushed F w dk -> zlen F <= zlen (pieces F).
Proof. intros (HL & _). apply (all_fit_bound bs). apply (ok_fit _ _ _ _ _ _ _ _ _ HL). Qed.

Lemma pieces_bytes (F : blocks) : all_fit bs F -> zlen (pieces F) <= bs * zlen F.
Proof.
  induction 1 as [|[q ps] F [Hf _] _ IH]; [change (0 <= bs * 0); lia|]. change (pieces ((q, ps) :: F)) with (ps ++ pieces F). rewrite zlen_app, zlen_cons.
  assert (Hp : forall ps, zlen ps <= zlen (enc_all ps)).
  { clear. intros ps. induction ps as [|p ps IH]; [done|]. rewrite enc_all_cons, zlen_app, zlen_enc, zlen_cons. pose proof (zlen_nonneg (p_data p)). lia. }
  specialize (Hp ps). unfold fits in Hf. cbn [snd] in Hf. lia.
Qed.

(** A new log. *)
Lemma flushed_start w dk : lw_ok crc32 bs N dump false [] [] w dk -> flushed [] w dk.
Proof.
  intros HL. split; [exact HL|]. destruct (ok_written _ _ _ _ _ _ _ _ _ HL) as (_ & _ & _ & _ & bls & cur & HP & Hf & _ & Hc & Hbuf & _).
  rewrite app_nil_l in HP. apply app_nil in HP as [HP ->]. apply pieces_nil in HP; [|done]. subst bls. by rewrite Hc, Hbuf.
Qed.

Lemma div_bound (F : blocks) : zlen F / N <= zlen F.
Proof. pose proof (zlen_nonneg F). destruct (div_mod_N N HN F) as (? & ? & ?). nia. Qed.

(** The position is the number of the blocks. *)
Lemma flushed_tell F w dk : flushed F w dk -> zlen F < 2 ^ 31 - 1 -> Writer_Tell w = Some (mkLogPos (zlen F / N) (zlen F mod N) 0).
Proof.
  intros (HL & Hc & _) HF. destruct (div_mod_N N HN F) as (? & ? & ?). assert (Hbs : 0 < bs) by (destruct Hok; lia). pose proof (div_bound F).
  pose proof HL as [Hb1 HN1 _ Hn1 Hf1 _ HW _]. unfold Writer_Tell. rewrite Hf1. cbn [mbind option_bind h_pos].
  unfold file_limit. rewrite Hb1, HN1, (limit_eq bs N Hok HN Hlim). destruct (Z.eqb_spec (zlen F mod N * bs) (bs * N)); [nia|].
  rewrite Z.div_mul by lia. destruct HW as (_ & _ & _ & Hcount & _). rewrite (Hcount Hc), Hn1, (wrapS_small 32) by nia. done.
Qed.

(** One record more. *)
Lemma append_record F w dk s : flushed F w dk -> zlen (pieces F) + zlen s + 1 < 2 ^ 31 - 1 ->
  exists w1 dk1 w2 dk2 g, WriteRecord crc32 Deflate true w dk s = Some (w1, dk1, true) /\ Flush crc32 w1 dk1 = Some (w2, dk2, true) /\
    flushed (F ++ g) w2 dk2 /\ split true s (pieces g) /\ zlen (pieces (F ++ g)) <= zlen (pieces F) + zlen s + 1.
Proof.
  intros HF Hz. pose proof HF as (HL & Hc & Hbuf).
  destruct (WriteRecord_ok crc32 Deflate bs N dump Hok HN Hlim Hdump false F _ w dk true s s HL (flushed_room F w dk HF) eq_refl)
    as (w1 & dk1 & F1 & ps & Hw & HL1 & Hp1 & _ & Hsp); [done|done|].
  pose proof (split_length _ _ _ Hsp). pose proof (zlen_app (pieces F) ps).
  destruct (Flush_ok crc32 bs N dump Hok HN Hlim false F1 _ w1 dk1 HL1) as (w2 & dk2 & F2 & Hfl & HL2 & Hp2 & HP & _ & Hc2 & Hb2); [lia|].
  assert (Hp : F `prefix_of` F2) by by etrans. destruct Hp as [g ->]. exists w1, dk1, w2, dk2, g. split_and!; try done.
  - split; [|done]. by rewrite HP.
  - rewrite pieces_app in HP. by apply app_inv_head in HP as ->.
  - rewrite HP. lia.
Qed.

(** ** Cutting *)

Lemma remove_from_spec start files dk : d_answers dk = [] ->
  let dk' := remove_from start files dk in
  d_answers dk' = [] /\ d_temp dk' = d_temp dk /\ d_lock dk' = d_lock dk /\
  forall i, d_log dk' !! i = if bool_decide (start <= i /\ i ∈ files) then None else d_log dk !! i.
Proof.
  revert dk. induction files as [|n files IH]; intros dk Ha; cbn [remove_from].
  - split_and!; try done. intros i. rewrite bool_decide_false; [done|]. intros [_ H]. by apply elem_of_nil in H.
  - unfold Rm, ask. rewrite Ha. destruct (Z.leb_spec start n) as [Hle|Hgt]; cbn [fst].
    + destruct (IH (mkDisk (delete n (d_log dk)) (d_temp dk) (d_lock dk) (d_answers dk)) Ha) as (H1 & H2 & H3 & H4). split_and!; try done.
      intros i. rewrite H4. cbn [d_log]. destruct (decide (i = n)) as [->|Hne].
      * rewrite lookup_delete_eq. rewrite (bool_decide_true (start <= n /\ n ∈ n :: files)) by (split; [done|left]). by destruct (bool_decide _).
      * rewrite lookup_delete_ne by done. erewrite bool_decide_ext; [done|]. rewrite elem_of_cons. tauto.
    + destruct (IH dk Ha) as (H1 & H2 & H3 & H4). split_and!; try done. intros i. rewrite H4. erewrite bool_decide_ext; [done|].
      rewrite elem_of_cons. split; [tauto|]. intros [? [->|?]]; [lia|done].
Qed.

Lemma elem_of_log_files dk i : i ∈ log_files dk <-> is_Some (d_log dk !! i).
Proof.
  unfold log_files. rewrite (merge_sort_Permutation Z.le). rewrite list_elem_of_fmap. split.
  - intros ([j c] & -> & Hj). apply elem_of_map_to_list in Hj. by exists c.
  - intros [c Hc]. exists (i, c). split; [done|]. by apply elem_of_map_to_list.
Qed.

Lemma file_of_takeZ (F : blocks) B i : 0 <= i -> 0 <= B ->
  file_of N (takeZ B F) i = if bool_decide (i < B / N) then file_of N F i else if bool_decide (i = B / N) then takeZ (B mod N) (dropZ (i * N) F) else [].
Proof.
  intros Hi HB. pose proof (Z.div_mod B N ltac:(lia)). pose proof (Z.mod_pos_bound B N HN). unfold file_of.
  case_bool_decide; [|case_bool_decide].
  - rewrite dropZ_takeZ by nia. unfold takeZ. rewrite firstn_firstn. f_equal. nia.
  - subst i. rewrite dropZ_takeZ by nia. unfold takeZ. rewrite firstn_firstn. f_equal. nia.
  - rewrite dropZ_all; [by rewrite takeZ_nil|]. rewrite zlen_takeZ by lia. nia.
Qed.

Lemma resize_prefix n c : 0 <= n <= zlen c -> resize_to n c = takeZ n c.
Proof. intros H. unfold resize_to. replace (Z.to_nat (n - zlen c)) with O by lia. by rewrite app_nil_r. Qed.

(** The files that [TruncateAt] leaves, before the last of them is opened. *)
Lemma cut_files F dk i j : disk_has crc32 bs N (zlen F / N + 1) F dk -> all_fit bs F -> 0 <= i <= zlen F / N -> 0 <= j < N -> i * N + j <= zlen F ->
  let dk1 := remove_from (if j =? 0 then i else i + 1) (log_files dk) dk in
  let dk2 := if 0 <? j then match Open_always dk1 false i with (d, Some h) => (File_Truncate d h (j * bs)).1 | (d, None) => d end else dk1 in
  d_answers dk2 = [] /\ default [] (d_log dk2 !! i) = chain crc32 bs (takeZ j (dropZ (i * N) F)) /\
  forall k, k <> i -> d_log dk2 !! k = if (0 <=? k) && (k <? i) then Some (chain crc32 bs (file_of N F k)) else None.
Proof.
  intros [Ha Hd] Hf Hi Hj He dk1 dk2. destruct (remove_from_spec (if j =? 0 then i else i + 1) (log_files dk) dk Ha) as (Ha1 & Ht1 & Hl1 & Hd1).
  fold dk1 in Ha1, Ht1, Hl1, Hd1. clearbody dk1.
  assert (Hold : forall k, d_log dk1 !! k = if (0 <=? k) && (k <? (if j =? 0 then i else i + 1)) then Some (chain crc32 bs (file_of N F k)) else None).
  { intros k. rewrite Hd1, Hd. case_bool_decide as H.
    - destruct H as [H _]. destruct (Z.ltb_spec k (if j =? 0 then i else i + 1)); [lia|]. by rewrite andb_false_r.
    - destruct (Z.leb_spec 0 k), (Z.ltb_spec k (zlen F / N + 1)), (Z.ltb_spec k (if j =? 0 then i else i + 1)); cbn [andb]; try done; [|destruct (j =? 0); lia].
      exfalso. apply H. split; [done|]. apply elem_of_log_files. rewrite Hd.
      destruct (Z.leb_spec 0 k), (Z.ltb_spec k (zlen F / N + 1)); try lia. eauto. }
  unfold dk2. destruct (Z.ltb_spec 0 j) as [Hp|Hz].
  - rewrite (proj2 (Z.eqb_neq j 0)) in Hold by lia. assert (Hfi : d_log dk1 !! i = Some (chain crc32 bs (file_of N F i))).
    { rewrite Hold. by destruct (Z.leb_spec 0 i), (Z.ltb_spec i (i + 1)); try lia. }
    unfold Open_always, ask. rewrite Ha1. cbn [h_temp h_num]. unfold set_content, content_of. cbn [h_temp h_num]. rewrite Hfi. cbn [default from_option id].
    unfold File_Truncate, ask. cbn [d_answers]. rewrite Ha1. unfold set_content, content_of. cbn [h_temp h_num d_log d_temp d_lock d_answers fst].
    rewrite lookup_insert_eq. cbn [default from_option id]. split_and!; [done| |].
    + rewrite lookup_insert_eq. cbn [default from_option id]. assert (Hzc : j <= zlen (file_of N F i)).
      { unfold file_of. rewrite zlen_takeZ, zlen_dropZ by lia. lia. }
      assert (0 < bs) by (destruct Hok; lia). pose proof (zlen_chain crc32 bs _ (file_of_fit bs N F i Hf)) as Hzl.
      rewrite resize_prefix by nia. destruct (chain_split crc32 bs (file_of N F i) j) as [-> _]; [by apply file_of_fit|lia|].
      unfold file_of. unfold takeZ. rewrite firstn_firstn. do 3 f_equal. lia.
    + intros k Hk. rewrite !lookup_insert_ne, Hold by done.
      by destruct (Z.leb_spec 0 k), (Z.ltb_spec k (i + 1)), (Z.ltb_spec k i); try lia.
  - assert (j = 0) as -> by lia. change (0 =? 0) with true in Hold. cbv iota in Hold. split_and!; [done| |].
    + rewrite Hold, takeZ_0. destruct (Z.ltb_spec i i); [lia|]. by rewrite andb_false_r.
    + intros k _. apply Hold.
Qed.

(** The log that [TruncateAt] leaves. *)
Lemma TruncateAt_ok F w dk B : flushed F w dk -> zlen F < 2 ^ 31 - 1 -> 0 <= B <= zlen F ->
  exists w' dk', TruncateAt crc32 (mkLogPos (B / N) (B mod N) 0) w dk = Some (w', dk', true) /\ flushed (takeZ B F) w' dk'.
Proof.
  intros HF Hz HB. pose proof HF as (HL & Hc & Hbuf). pose proof HL as [Hb1 HN1 Ht1 Hn1 Hf1 Hfit HW Hdk].
  assert (Hbs : 0 < bs) by (destruct Hok; lia). pose proof (Z.div_mod B N ltac:(lia)) as HBN. pose proof (Z.mod_pos_bound B N HN) as Hm. pose proof (Z.div_pos B N ltac:(lia) HN) as Hq0.
  assert (HBF : B / N <= zlen F / N) by (apply Z.div_le_mono; lia). assert (HBle : B / N <= B) by nia.
  assert (HzB : zlen (takeZ B F) = B) by (rewrite zlen_takeZ by lia; lia).
  set (i := B / N) in *. set (j := B mod N) in *.
  destruct (cut_files F dk i j Hdk Hfit) as (Ha2 & Hd2 & Hold); [lia..|].
  unfold TruncateAt. rewrite Ht1. unfold finalize_buf. rewrite (FinalizeContent_nil crc32 _ _ Hc). cbn [mbind option_bind].
  unfold WriteBuffer. cbn [set_recorder lw_file lw_buf]. rewrite bool_decide_true by (rewrite Hf1; eauto). rewrite Hbuf. cbn [CHECK mbind option_bind length Nat.mul Nat.add].
  rewrite loop_S. unfold WriteBuffer_step. cbn [set_recorder lw_buf]. change (zlen [] =? 0) with true. cbn [mbind option_bind].
  unfold CloseLog. cbn [set_recorder lw_file]. rewrite Hf1. cbn [set_recorder set_file lw_temporary lw_file_num]. rewrite Ht1. cbn [andb file_num_ block_num_].
  assert (Hst : (if j =? 0 then Some i else next_file i) = Some (if j =? 0 then i else i + 1)) by (destruct (j =? 0); [done|apply next_file_ok; lia]).
  rewrite Hst. cbn [mbind option_bind set_file set_recorder lw_block_size]. rewrite Hb1.
  assert (Hjb : 0 <= j * bs < 2 ^ 63) by nia. rewrite (wrapU_small 64), (wrapS_small 64) by lia. destruct (Z.ltb_spec i 0); [lia|].
  match goal with |- context [OpenNextLog ?w0 ?d0] => set (w1 := w0); set (dk2 := d0) in * end.
  assert (Hlj : zlen (takeZ j (dropZ (i * N) F)) = j) by (rewrite zlen_takeZ, zlen_dropZ by nia; nia).
  set (c := chain crc32 bs (takeZ j (dropZ (i * N) F))) in *.
  assert (Hzc : zlen c = j * bs).
  { unfold c. rewrite zlen_chain, Hlj; [done|]. by apply Forall_take, Forall_drop. }
  rewrite (OpenNextLog_opens bs N Hok HN Hlim w1 dk2 i c); try done.
  - eexists _, _. split; [done|]. split; [|done]. split; cbn [lw_block_size lw_blocks_per_file lw_temporary lw_file_num lw_file lw_recorder lw_buf]; try done.
    + rewrite HzB. done.
    + by rewrite HzB, Hzc.
    + by apply Forall_take.
    + destruct HW as (E1 & E2 & E3 & E4 & bls & cur & E5 & _ & _ & _ & Eo & Eln & _). unfold w1. split_and!; try done.
      exists [], []. rewrite !app_nil_r. split_and!; try done; [constructor| | |by left].
      * unfold fits. change (zlen (enc_all [])) with 0. destruct Hok; lia.
      * apply linked_app in Eln as [Eln _]. rewrite <- (takeZ_dropZ B F) in Eln. by apply linked_app in Eln as [? _].
    + rewrite HzB. fold i. split; [done|]. intros k. cbn [d_log]. destruct (decide (k = i)) as [->|Hne].
      * rewrite lookup_insert_eq. destruct (Z.leb_spec 0 i), (Z.ltb_spec i (i + 1)); try lia. cbn [andb]. f_equal.
        rewrite file_of_takeZ by lia. fold i j. rewrite bool_decide_false, bool_decide_true by lia. done.
      * rewrite lookup_insert_ne, Hold by done. destruct (Z.leb_spec 0 k), (Z.ltb_spec k i), (Z.ltb_spec k (i + 1)); try lia; try done. cbn [andb].
        rewrite file_of_takeZ by lia. fold i. by rewrite bool_decide_true by lia.
  - rewrite Hzc. apply Z.mod_mul. lia.
  - rewrite Hzc. nia.
  - by left.
Qed.

End Flushed.
End LogFlushed.
