(* ===== verification/StrUtil.v ===== *)
(** * StrUtil: [base/strutil.h], [base/strutil.cc], the part on plain byte strings

    Prefixes and suffixes, trimming, splitting and joining, replacement, the normalisation
    of paths, the escaping of characters and the successor of a prefix in the lexicographic
    order.  A [const char*] argument is the list of its characters, without NUL; positions
    are those of [CString.v].  A search whose result the code uses as it is (a [while] over
    [find]) is a [loop]; the fuel is the length of the string and the theorems show that it
    is never used up. *)

From S2P Require Import Prelude CString.

Module StrUtil.

(** ** Comparing *)

Definition StrEql (str1 str2 : bytes) : bool := bool_decide (cstr str1 = cstr str2).

Definition StrIEql (str1 str2 : bytes) : bool := strcaseeq str1 str2.

Fixpoint StrPrefix (str prefix : bytes) : bool :=
  match str, prefix with
  | c :: str', d :: prefix' => if bool_decide (c = d) then StrPrefix str' prefix' else false
  | _, [] => true
  | [], _ :: _ => false
  end.

Fixpoint StrCasePrefix (str prefix : bytes) : bool :=
  match str, prefix with
  | c :: str', d :: prefix' =>
      if bool_decide (c = d) || bool_decide (toupper c = toupper d)
      then StrCasePrefix str' prefix' else false
  | _, [] => true
  | [], _ :: _ => false
  end.

Definition StrSuffix (str suffix : bytes) : bool :=
  if (length str <? length suffix)%nat then false
  else bool_decide (drop (length str - length suffix) str = suffix).

(** ** Trimming *)

Definition StrFrontTrim (str : bytes) : bytes := drop_while isspace str.

(** [i] and [j] are the positions of [StrTrim] and [StrTrimChars] after their loops, over
    the characters to trim. *)
Section Trim.
Variable trim : byte -> bool.

Definition trim_front_step (str : bytes) (j i : nat) : option (nat + nat) :=
  if (i <=? j)%nat && trim (default NUL (str !! i)) then Some (inl (S i)) else Some (inr i).

(** [j] is a [size_t]: it is not decremented below zero, as [j >= i] fails before. *)
Definition trim_back_step (str : bytes) (i j : nat) : option (nat + nat) :=
  if (i <=? j)%nat && trim (default NUL (str !! j)) then
    match j with O => None | S j => Some (inl j) end
  else Some (inr j).

Definition trim_both (str : bytes) : option bytes :=
  match str with
  | [] => Some []
  | _ =>
      i ← loop (trim_front_step str (length str - 1)) (S (length str)) O;
      j ← loop (trim_back_step str i) (S (length str)) (length str - 1)%nat;
      if (j <? i)%nat then Some [] else Some (substr str i (j - i + 1))
  end.
End Trim.

Definition StrTrim (str : bytes) : option bytes := trim_both isspace str.

(** [strchr] finds the NUL that ends [chars_to_trim] too. *)
Definition StrTrimChars (str chars_to_trim : bytes) : option bytes :=
  trim_both (fun c => bool_decide (c = NUL) || bool_decide (c ∈ chars_to_trim)) str.

Definition StrTrimCompress (str : bytes) : bytes := filter (fun c => isspace c = false) str.

Definition StrTrimCRLF (s : bytes) : bytes :=
  rev (drop_while (fun c => (uchar c =? 0x0a) || (uchar c =? 0x0d)) (rev s)).

Definition StrTrimComment (str : bytes) (comment_char : byte) : bytes :=
  match string_find str [comment_char] 0 with
  | None => str
  | Some index => substr str 0 index
  end.

(** ** Replacing *)

(** [StrReplaceAllInPlace]: [None] is a search that does not end. *)
Definition StrReplaceAll_step (find_what replace_with : bytes) (x : bytes * nat)
    : option (bytes * nat + bytes) :=
  let '(str, pos) := x in
  match string_find str find_what pos with
  | Some pos => Some (inl (take pos str ++ replace_with ++ drop (pos + length find_what) str,
                           (pos + length replace_with)%nat))
  | None => Some (inr str)
  end.

Definition StrReplaceAll (str find_what replace_with : bytes) : option bytes :=
  loop (StrReplaceAll_step find_what replace_with) (S (S (length str))) (str, O).

(** ** Splitting and joining *)

Definition SplitString_step (s separator : bytes) (x : nat * list bytes)
    : option (nat * list bytes + list bytes) :=
  let '(pos, output) := x in
  match string_find s separator pos with
  | None => Some (inr (output ++ [drop pos s]))
  | Some last_pos => Some (inl ((last_pos + length separator)%nat,
                                output ++ [substr s pos (last_pos - pos)]))
  end.

Definition SplitString (s separator : bytes) : option (list bytes) :=
  match s, separator with
  | [], _ => Some []
  | _, [] => Some ((fun c => [c]) <$> s)
  | _, _ => loop (SplitString_step s separator) (S (S (length s))) (O, [])
  end.

Fixpoint JoinStrings (pieces : list bytes) (glue : bytes) : bytes :=
  match pieces with
  | [] => []
  | [p] => p
  | p :: pieces => p ++ glue ++ JoinStrings pieces glue
  end.

(** The overload for a [const char*] and a separating character. *)
Definition SplitFirst_char (s : bytes) (separator : byte) : bytes * bytes :=
  match find_sub [separator] s with
  | None => (s, [])
  | Some slash_pos => (take slash_pos s, drop (slash_pos + 1) s)
  end.

(** The rest starts one character after the position, whatever the separator's size. *)
Definition SplitFirst (s separator : bytes) : bytes * bytes :=
  match string_find s separator 0 with
  | Some pos_sep => (take pos_sep s, drop (pos_sep + 1) s)
  | None => (s, [])
  end.

Definition SplitLast (s separator : bytes) : bytes * bytes :=
  match string_rfind s separator with
  | Some pos_sep => (take pos_sep s, drop (pos_sep + 1) s)
  | None => (s, [])
  end.

(** The overload for two paths and a separator. *)
Definition JoinPaths (path1 path2 : bytes) (sep : byte) : bytes :=
  match path1, path2 with
  | [], _ => path2
  | _, [] => path1
  | _, c :: _ =>
      if (length path1 =? 1)%nat && bool_decide (head path1 = Some sep) then path1 ++ path2
      else if bool_decide (list.last path1 = Some sep) || bool_decide (c = sep) then path1 ++ path2
      else path1 ++ [sep] ++ path2
  end.

Definition SplitPairs (s elements_separator pair_separator : bytes) : option (list (bytes * bytes)) :=
  tmp ← SplitString s elements_separator;
  Some (map (fun x => SplitFirst x pair_separator) tmp).

(** [SplitBracketedString]: the loop over the characters, with the current piece, the depth
    of the brackets ([in_paranthesis], an [int]) and the output; what it answers comes with
    what it has put in the output. *)
Fixpoint SplitBracketed_loop (separator open_bracket close_bracket : byte)
    (p b : bytes) (in_paranthesis : Z) (output : list bytes) : bool * list bytes :=
  match p with
  | [] =>
      if (in_paranthesis =? 0) && bool_decide (b <> []) then (true, output ++ [b])
      else (in_paranthesis =? 0, output)
  | c :: p =>
      let '(b, depth, output) :=
        if bool_decide (c = open_bracket) then (b ++ [c], in_paranthesis + 1, output)
        else if bool_decide (c = close_bracket) then (b ++ [c], in_paranthesis - 1, output)
        else if bool_decide (c = separator) && (in_paranthesis =? 0) then ([], in_paranthesis, output ++ [b])
        else (b ++ [c], in_paranthesis, output) in
      if depth <? 0 then (false, output)
      else SplitBracketed_loop separator open_bracket close_bracket p b depth output
  end.

Definition SplitBracketedString (s : bytes) (separator open_bracket close_bracket : byte)
    : bool * list bytes :=
  SplitBracketed_loop separator open_bracket close_bracket s [] 0 [].

Definition RemoveOutermostBrackets (s : bytes) (open_bracket close_bracket : byte) : bytes :=
  if (2 <? length s)%nat && bool_decide (s !! O = Some open_bracket) &&
     bool_decide (s !! (length s - 1)%nat = Some close_bracket)
  then substr s 1 (length s - 2) else s.

(** [SplitStringOnAny]: the loop with the position of the current word in [word]; what is
    left is [text + i]. *)
Fixpoint SplitOnAny_loop (separators : bytes) (skip_empty : bool) (word text : bytes)
    (output : list bytes) : list bytes :=
  match text with
  | [] => if bool_decide (word <> []) then output ++ [word] else output
  | c :: text =>
      if bool_decide (c ∈ separators) then
        SplitOnAny_loop separators skip_empty [] text
          (if bool_decide (word <> []) || negb skip_empty then output ++ [word] else output)
      else SplitOnAny_loop separators skip_empty (word ++ [c]) text output
  end.

Definition SplitStringOnAny (text separators : bytes) (skip_empty : bool) : list bytes :=
  SplitOnAny_loop separators skip_empty [] text [].

(** ** Paths *)

(** One turn of the loops that take [skip] characters out at what [find] finds. *)
Definition collapse_step (find : bytes -> option nat) (skip : nat) (s : bytes)
    : option (bytes + bytes) :=
  match find s with
  | None => Some (inr s)
  | Some index => Some (inl (take index s ++ drop (index + skip) s))
  end.

Definition collapse (find : bytes -> option nat) (skip : nat) (s : bytes) : option bytes :=
  loop (collapse_step find skip) (S (length s)) s.

(** [s.find_last_of(c, n - 1)], for a positive [n]. *)
Fixpoint find_last_before (s : bytes) (c : byte) (n : nat) : option nat :=
  match n with
  | O => None
  | S n => if bool_decide (s !! n = Some c) then Some n else find_last_before s c n
  end.

Definition DOT : byte := Byte.x2e.
Definition BACKSLASH : byte := Byte.x5c.
Definition PATH_SEPARATOR : byte := Byte.x2f.

(** The loop over the parent directories: [inr None] is the early return, for a path that
    goes above the root. *)
Definition parent_step (sep : byte) (s : bytes) : option (bytes + option bytes) :=
  match string_find s [sep; DOT; DOT; sep] 0 with
  | None => Some (inr (Some s))
  | Some index =>
      if (index =? 0)%nat then Some (inr None)
      else match find_last_before s sep index with
           | None => Some (inr None)
           | Some index2 => Some (inl (take index2 s ++ drop (index + 3) s))
           end
  end.

(** The two blocks after the loops; [None] is the early return again. *)
Definition cut_last_dot (sep : byte) (s : bytes) : bytes :=
  match string_rfind s [sep; DOT] with
  | Some index => if (index =? length s - 2)%nat then take index s else s
  | None => s
  end.

Definition cut_last_dotdot (sep : byte) (s : bytes) : option bytes :=
  match string_rfind s [sep; DOT; DOT] with
  | Some index =>
      if (index =? length s - 3)%nat then
        if (index =? 0)%nat then None
        else match find_last_before s sep index with
             | None => None
             | Some index2 => Some (take index2 s)
             end
      else Some s
  | None => Some s
  end.

Definition NormalizePath (path : bytes) (sep : byte) : option bytes :=
  let s := (fun c => if bool_decide (c = BACKSLASH) then sep else c) <$> path in
  let slash_added := negb (bool_decide (default NUL (s !! O) = sep)) in
  let s := if slash_added then [sep] ++ s else s in
  let root := if slash_added then [] else [sep] in
  s ← collapse (fun s => string_find s [sep; sep; sep] 0) 2 s;
  s ← collapse (fun s => string_find s [sep; sep] 1) 1 s;
  s ← collapse (fun s => string_find s [sep; DOT; sep] 0) 2 s;
  r ← loop (parent_step sep) (S (length s)) s;
  match r with
  | None => Some root
  | Some s =>
      match cut_last_dotdot sep (cut_last_dot sep s) with
      | None => Some root
      | Some s =>
          let s := if negb slash_added && bool_decide (s = []) then [sep] else s in
          if negb slash_added || bool_decide (s = []) then Some s else Some (drop 1 s)
      end
  end.

Definition NormalizeUrlPath (path : bytes) : option bytes :=
  if bool_decide (path = []) then Some [PATH_SEPARATOR]
  else
    ret ← NormalizePath path PATH_SEPARATOR;
    let i := (length ret - length (drop_while (fun c => bool_decide (c = PATH_SEPARATOR)) ret))%nat in
    if (length ret <=? i)%nat then Some [PATH_SEPARATOR]
    else if (i =? 0)%nat then Some ret
    else Some (drop (i - 1) ret).

(** ** Escaping *)

Definition hex_digit (n : Z) : byte := if n <? 10 then to_byte (48 + n) else to_byte (87 + n).

(** [printf("%02x")] of a byte. *)
Definition hex2 (c : byte) : bytes := [hex_digit (uchar c / 16); hex_digit (uchar c mod 16)].

Definition ToHex (str : bytes) : bytes := concat (hex2 <$> str).

Definition StrNEscape (text : bytes) (escape : byte) (chars_to_escape : bytes) : bytes :=
  concat ((fun c =>
    if bool_decide (c ∈ chars_to_escape) || bool_decide (c = escape) || (schar c <? 32) || (126 <? schar c)
    then escape :: hex2 c else [c]) <$> text).

Definition StrEscape (text : bytes) (escape : byte) (chars_to_escape : bytes) : bytes :=
  StrNEscape text escape chars_to_escape.

Definition hexval (c : byte) : Z :=
  if between 48 57 c then uchar c - 48
  else if between 97 102 c then 10 + uchar c - 97
  else if between 65 70 c then 10 + uchar c - 65
  else 0.

(** The loop of [StrUnescape]: [prev] is [*(p - 1)]. *)
Fixpoint StrUnescape_loop (escape : byte) (esc_count : Z) (prev : byte) (p : bytes) : bytes :=
  match p with
  | [] => []
  | c :: p =>
      if bool_decide (c = escape) then StrUnescape_loop escape 1 c p
      else if negb (esc_count =? 0) then
        if esc_count =? 2 then
          to_byte (hexval c + 16 * hexval prev) :: StrUnescape_loop escape 0 c p
        else StrUnescape_loop escape (esc_count + 1) c p
      else c :: StrUnescape_loop escape esc_count c p
  end.

Definition StrUnescape (text : bytes) (escape : byte) : bytes :=
  StrUnescape_loop escape 0 NUL (cstr text).

(** ** Order *)

(** The recursion of [GetNextInLexicographicOrder] drops the last character. *)
Fixpoint next_lexicographic (rev_prefix : bytes) : bytes :=
  match rev_prefix with
  | [] => []
  | c :: rest =>
      if bool_decide (c = Byte.xff) then next_lexicographic rest
      else rev (to_byte (schar c + 1) :: rest)
  end.

Definition GetNextInLexicographicOrder (prefix : bytes) : bytes := next_lexicographic (rev prefix).

Definition StrToLower (s : bytes) : bytes := tolower <$> s.
Definition StrToUpper (s : bytes) : bytes := toupper <$> s.

Definition StrToBool (str : bytes) : bool :=
  let s := StrToLower str in
  negb (bool_decide (s = bstr "false") || bool_decide (s = bstr "no") || bool_decide (s = bstr "0")).

Definition IsValidIdentifier (s : bytes) : bool :=
  let c := default NUL (s !! O) in
  if (schar c <? 48) || ((57 <? schar c) && (schar c <? 65)) || ((90 <? schar c) && (schar c <? 97))
     || (122 <? schar c)
  then false
  else forallb (fun c =>
    negb ((schar c <? 48) || ((57 <? schar c) && (schar c <? 65)) || ((90 <? schar c) && (schar c <? 95))
          || ((95 <? schar c) && (schar c <? 97)) || (122 <? schar c))) (drop 1 s).

(** ** Splitting: what it computes *)

(** Cutting at the first occurrence, then at the first of the rest, and so on. *)
Inductive splits (separator : bytes) : bytes -> list bytes -> Prop :=
  | splits_last s : find_sub separator s = None -> splits separator s [s]
  | splits_more s i l : find_sub separator s = Some i ->
      splits separator (drop (i + length separator) s) l ->
      splits separator s (take i s :: l).

Lemma splits_not_nil separator s l : splits separator s l -> l <> [].
Proof. by destruct 1. Qed.

Lemma find_sub_cut p s i : find_sub p s = Some i ->
  s = take i s ++ p ++ drop (i + length p) s /\ (i + length p <= length s)%nat.
Proof.
  intros H. apply find_sub_Some in H as (a & b & -> & <- & _).
  rewrite take_app_length, <- drop_drop, !drop_app_length. split; [done|]. rewrite !length_app. lia.
Qed.

Lemma SplitString_splits s separator : s <> [] -> separator <> [] ->
  exists l, SplitString s separator = Some l /\ splits separator s l.
Proof.
  intros Hs Hsep. unfold SplitString. destruct s as [|c0 s0]; [done|].
  destruct separator as [|d0 sep0]; [done|]. set (s := c0 :: s0) in *. set (sep := d0 :: sep0) in *.
  apply (loop_total _
    (fun x => (x.1 <= length s)%nat /\ forall l, splits sep (drop x.1 s) l -> splits sep s (x.2 ++ l))
    (fun l => splits sep s l) (fun x => length s - x.1)%nat); [|simpl; split; [lia|done]|simpl; lia].
  intros [pos out] [Hpos Hout]. cbn [fst snd] in *. unfold SplitString_step, string_find.
  rewrite (proj2 (Nat.leb_le _ _)) by lia.
  destruct (find_sub sep (drop pos s)) as [i|] eqn:Hf; cbn [fmap option_fmap option_map].
  - eexists; split; [done|]. cbn [fst snd]. destruct (find_sub_cut _ _ _ Hf) as [_ Hle].
    rewrite length_drop in Hle. assert (0 < length sep)%nat by (simpl; lia).
    split_and!; [lia| |lia]. intros l Hl. rewrite <- app_assoc. apply Hout.
    unfold substr. replace (pos + i - pos)%nat with i by lia. apply splits_more; [done|].
    rewrite drop_drop, Nat.add_assoc. exact Hl.
  - eexists; split; [done|]. apply Hout. by apply splits_last.
Qed.

Lemma JoinStrings_cons p l glue : l <> [] -> JoinStrings (p :: l) glue = p ++ glue ++ JoinStrings l glue.
Proof. by destruct l. Qed.

Lemma splits_join separator s l : splits separator s l -> JoinStrings l separator = s.
Proof.
  induction 1 as [|s i l Hf Hl IH]; [done|].
  rewrite JoinStrings_cons by (by eapply splits_not_nil). rewrite IH.
  symmetry. by apply find_sub_cut.
Qed.

(** Not containing [p]. *)
Definition free_of (p s : bytes) : Prop := forall a b, s <> a ++ p ++ b.

Lemma splits_free separator s l : separator <> [] -> splits separator s l -> Forall (free_of separator) l.
Proof.
  intros Hsep. induction 1 as [s Hf|s i l Hf Hl IH]; constructor; [|done| |done].
  - intros a b. by apply find_sub_None.
  - apply find_sub_Some in Hf as (x & y & -> & <- & Hmin). rewrite take_app_length.
    intros a b ->. specialize (Hmin a (b ++ separator ++ y)).
    rewrite <- !app_assoc in Hmin. specialize (Hmin eq_refl). rewrite !length_app in Hmin.
    destruct separator; [done|]. simpl in Hmin. lia.
Qed.

Lemma free_of_char c s : free_of [c] s <-> c ∉ s.
Proof.
  split.
  - intros H Hc. apply list_elem_of_split in Hc as (a & b & ->). by apply (H a b).
  - intros H a b ->. set_solver.
Qed.

Lemma splits_of_join c l : l <> [] -> Forall (fun p => c ∉ p) l -> splits [c] (JoinStrings l [c]) l.
Proof.
  intros Hl HF. induction HF as [|p l Hp HF IH]; [done|]. destruct (decide (l = [])) as [->|Hne].
  - apply splits_last. by apply find_char_None.
  - rewrite JoinStrings_cons by done. rewrite <- (take_app_length p ([c] ++ JoinStrings l [c])) at 2.
    apply splits_more; [by apply find_char|].
    rewrite <- drop_drop, drop_app_length. change (length [c]) with (length [c] + 0)%nat.
    rewrite <- drop_drop. cbn [app length drop]. auto.
Qed.

Lemma splits_det separator s l1 l2 : splits separator s l1 -> splits separator s l2 -> l1 = l2.
Proof.
  intros H1. revert l2. induction H1 as [s Hf|s i l Hf Hl IH]; intros l2 H2; inversion H2; subst.
  - done.
  - congruence.
  - congruence.
  - replace i with i0 in * by congruence. f_equal. by apply IH.
Qed.

(** [SplitString] ends, its pieces do not contain the separator and joining them with it
    gives the string back; and splitting pieces that were joined with a character none of
    them contains gives the pieces back. *)
Theorem Split_Join (s separator : bytes) (c : byte) (pieces : list bytes) :
  s <> [] -> separator <> [] -> Forall (fun p => c ∉ p) pieces -> JoinStrings pieces [c] <> [] ->
  (exists l, SplitString s separator = Some l /\ JoinStrings l separator = s /\
     Forall (free_of separator) l) /\
  SplitString (JoinStrings pieces [c]) [c] = Some pieces.
Proof.
  intros Hs Hsep Hp Hj. split.
  - destruct (SplitString_splits s separator Hs Hsep) as (l & -> & Hl). exists l.
    split_and!; [done|by apply splits_join|by apply (splits_free _ s)].
  - destruct (SplitString_splits _ [c] Hj) as (l & -> & Hl); [done|]. f_equal.
    apply (splits_det _ _ _ _ Hl). apply splits_of_join; [|done]. by intros ->.
Qed.

Lemma Split_Join_witness :
  (exists l, SplitString (bstr "a::b::") (bstr "::") = Some l /\ JoinStrings l (bstr "::") = bstr "a::b::" /\
     Forall (free_of (bstr "::")) l) /\
  SplitString (JoinStrings [bstr "x"; []; bstr "y"] (bstr ",")) (bstr ",") = Some [bstr "x"; []; bstr "y"].
Proof.
  apply (Split_Join (bstr "a::b::") (bstr "::") Byte.x2c [bstr "x"; []; bstr "y"]);
    [done..| |done]. repeat constructor; apply (bool_decide_unpack _); by vm_compute.
Defined.

(** ** Trimming: what it computes *)

(** The positions the two loops of [trim_both] stop at. *)
Lemma trim_front_loop trim s : exists a b, s = a ++ b /\ forallb trim a = true /\ starts_not trim b /\
  (s <> [] -> loop (trim_front_step trim s (length s - 1)) (S (length s)) O = Some (length a)).
Proof.
  destruct (drop_while_suffix trim s) as (a & Hs & Ha). exists a, (drop_while trim s).
  pose proof (drop_while_starts trim s) as Hb. generalize dependent (drop_while trim s). intros b -> Hb.
  split_and!; [done..|]. intros Hne.
  edestruct (loop_total (trim_front_step trim (a ++ b) (length (a ++ b) - 1))
    (fun i => i <= length a)%nat (fun r => r = length a) (fun i => length a - i)%nat)
    as (r & Hr & ->); [|apply Nat.le_0_l| |exact Hr]; [|rewrite length_app; lia].
  intros i Hi. unfold trim_front_step. destruct (Nat.leb_spec i (length (a ++ b) - 1)).
  - destruct (decide (i < length a)%nat) as [Hlt|Hge].
    + rewrite lookup_app_l by done. destruct (lookup_lt_is_Some_2 _ _ Hlt) as [x Hx]. rewrite Hx.
      cbn. replace (trim x) with true; [eexists; split; [done|cbn; lia]|].
      symmetry. rewrite forallb_forall in Ha. apply Ha, list_elem_of_In. by eapply list_elem_of_lookup_2.
    + assert (i = length a) as -> by lia. rewrite lookup_app_r, Nat.sub_diag by lia.
      destruct b as [|x b]; cbn; [|cbn in Hb; rewrite Hb; by eexists].
      rewrite app_nil_r in *. destruct a; simpl in *; [done|lia].
  - cbn. eexists; split; [done|]. rewrite length_app in *. destruct a, b; simpl in *; try done; lia.
Qed.

Lemma trim_back_loop trim a b c : b <> [] -> starts_not trim (rev b) -> starts_not trim b ->
  forallb trim c = true ->
  loop (trim_back_step trim (a ++ b ++ c) (length a)) (S (length (a ++ b ++ c)))
    (length (a ++ b ++ c) - 1)%nat = Some (length a + length b - 1)%nat.
Proof.
  intros Hne Hrb Hb Hc.
  assert (Hl : length (a ++ b ++ c) = (length a + (length b + length c))%nat) by (by rewrite !length_app).
  assert (0 < length b)%nat by (destruct b; [done|simpl; lia]).
  edestruct (loop_total (trim_back_step trim (a ++ b ++ c) (length a))
    (fun j => length a + length b - 1 <= j < length (a ++ b ++ c))%nat
    (fun r => r = length a + length b - 1)%nat (fun j => j)) as (r & Hr & ->);
    [|split|..|exact Hr]; [|lia..].
  intros j Hj. unfold trim_back_step. rewrite (proj2 (Nat.leb_le _ _)) by lia.
  rewrite lookup_app_r by lia. destruct (decide (j = length a + length b - 1)%nat) as [->|Hne'].
  - rewrite lookup_app_l by lia. assert (Hx : exists x, b !! (length a + length b - 1 - length a)%nat = Some x
      /\ trim x = false).
    { destruct (rev b) as [|x b'] eqn:E; [by rewrite <- (rev_involutive b), E in Hne|].
      exists x. split; [|done]. rewrite <- (rev_involutive b), E. cbn [rev]. rewrite length_app. cbn.
      rewrite lookup_app_r by lia. by replace (_ - length (rev b'))%nat with O by lia. }
    destruct Hx as (x & -> & Hx). cbn. rewrite Hx. by eexists.
  - rewrite lookup_app_r by lia. destruct (lookup_lt_is_Some_2 c (j - length a - length b)) as [x Hx]; [lia|].
    rewrite Hx. cbn. replace (trim x) with true.
    + destruct j; [lia|]. eexists; split; [done|]. rewrite Hl in *. cbn beta iota. rewrite ?Hl. lia.
    + symmetry. rewrite forallb_forall in Hc. apply Hc, list_elem_of_In. by eapply list_elem_of_lookup_2.
Qed.

Lemma match_nonnil {A B} (x : B) (l : list A) (y : B) :
  l <> [] -> match l with [] => x | _ => y end = y.
Proof. by destruct l. Qed.

(** [StrTrim] ends, never takes a position below zero, and gives what is left of the
    string when the white space at its start and at its end is dropped. *)
Theorem StrTrim_trims (str : bytes) :
  StrTrim str = Some (rev (drop_while isspace (rev (drop_while isspace str)))).
Proof.
  unfold StrTrim, trim_both. destruct (trim_front_loop isspace str) as (a & b & -> & Ha & Hb & Hf).
  rewrite drop_while_app, (drop_while_id _ b) by done.
  destruct (decide (a ++ b = [])) as [Es|Es]; [by apply app_nil in Es as [-> ->]|].
  rewrite (match_nonnil _ (a ++ b)) by done. rewrite Hf by done. cbn [mbind option_bind].
  destruct (drop_while_suffix isspace (rev b)) as (c & Hc & Hcs).
  pose proof (drop_while_starts isspace (rev b)) as Hd.
  generalize dependent (drop_while isspace (rev b)). intros d Hc Hd.
  assert (Hbd : b = rev d ++ rev c) by (by rewrite <- (rev_involutive b), Hc, rev_app_distr).
  destruct (decide (d = [])) as [->|Hne].
  - rewrite app_nil_r in Hc. destruct b as [|x b].
    + rewrite app_nil_r in *. edestruct (loop_total (trim_back_step isspace a (length a))
        (fun j => j = length a - 1)%nat (fun j => j = length a - 1)%nat (fun _ => O))
        with (fuel := S (length a)) (s := (length a - 1)%nat) as (r & Hr & ->);
        [|done|lia|rewrite Hr].
      * intros j ->. unfold trim_back_step.
        rewrite (proj2 (Nat.leb_gt _ _)) by (destruct a; simpl in *; [done|lia]). by eexists.
      * cbn [mbind option_bind]. rewrite (proj2 (Nat.ltb_lt _ _)) by (destruct a; simpl in *; [done|lia]). done.
    + exfalso. simpl in Hb. cbn [rev] in Hc. rewrite <- Hc, forallb_app in Hcs. cbn in Hcs.
      rewrite Hb in Hcs. by rewrite andb_false_r in Hcs.
  - assert (rev d <> []) by (intros E; by rewrite <- (rev_involutive d), E in Hne).
    assert (starts_not isspace (rev d)).
    { rewrite Hbd in Hb. by destruct (rev d). }
    assert (forallb isspace (rev c) = true).
    { rewrite forallb_forall in *. intros y Hy. apply Hcs. by apply in_rev. }
    subst b. rewrite (trim_back_loop isspace a (rev d) (rev c)) by (try done; by rewrite rev_involutive).
    cbn [mbind option_bind]. assert (0 < length (rev d))%nat by (destruct (rev d); [done|simpl; lia]).
    rewrite (proj2 (Nat.ltb_ge _ _)) by lia. unfold substr. rewrite drop_app_length.
    replace (length a + length (rev d) - 1 - length a + 1)%nat with (length (rev d)) by lia.
    by rewrite take_app_length.
Qed.

(** ** Escaping: what it computes *)

Definition hex_digits : bytes := bstr "0123456789abcdef".

Lemma hex2_spec c :
  hexval (hex_digit (uchar c / 16)) = uchar c / 16 /\ hexval (hex_digit (uchar c mod 16)) = uchar c mod 16 /\
  hex_digit (uchar c / 16) ∈ hex_digits /\ hex_digit (uchar c mod 16) ∈ hex_digits.
Proof.
  assert (H : (hexval (hex_digit (uchar c / 16)) =? uchar c / 16) &&
    (hexval (hex_digit (uchar c mod 16)) =? uchar c mod 16) &&
    bool_decide (hex_digit (uchar c / 16) ∈ hex_digits) &&
    bool_decide (hex_digit (uchar c mod 16) ∈ hex_digits) = true) by check_all_bytes c.
  by bool_prop.
Qed.

Section Escape.
Variables (escape : byte) (chars_to_escape : bytes).
Hypothesis Hescape : escape <> NUL /\ escape ∉ hex_digits.

Lemma StrUnescape_prev c c' p :
  StrUnescape_loop escape 0 c p = StrUnescape_loop escape 0 c' p.
Proof. by destruct p. Qed.

Lemma StrUnescape_hex2 c prev p :
  StrUnescape_loop escape 0 prev (escape :: hex2 c ++ p) = c :: StrUnescape_loop escape 0 prev p.
Proof.
  destruct (hex2_spec c) as (H1 & H2 & H3 & H4). destruct Hescape as [_ He].
  cbn [hex2 app StrUnescape_loop]. rewrite bool_decide_true by done.
  rewrite !bool_decide_false by congruence. cbn. rewrite H1, H2.
  rewrite (StrUnescape_prev _ prev). f_equal. apply to_byte_eq. dlia.
Qed.

Lemma StrNEscape_cons c text :
  StrNEscape (c :: text) escape chars_to_escape =
  StrNEscape [c] escape chars_to_escape ++ StrNEscape text escape chars_to_escape.
Proof. unfold StrNEscape. rewrite fmap_cons. cbn. by rewrite app_nil_r. Qed.

Lemma StrUnescape_loop_escaped prev text :
  StrUnescape_loop escape 0 prev (StrNEscape text escape chars_to_escape) = text.
Proof.
  revert prev. induction text as [|c text IH]; intros prev; [done|]. rewrite StrNEscape_cons.
  unfold StrNEscape at 1. cbn [fmap list_fmap concat]. destruct (_ || _) eqn:E.
  - rewrite app_nil_r. cbn [app]. by rewrite StrUnescape_hex2, IH.
  - bool_prop. cbn [app StrUnescape_loop]. rewrite bool_decide_false by done. cbn. by rewrite IH.
Qed.

Lemma StrNEscape_no_nul text : NUL ∉ StrNEscape text escape chars_to_escape.
Proof.
  induction text as [|c text IH]; [by apply not_elem_of_nil|]. rewrite StrNEscape_cons, not_elem_of_app.
  split; [|done]. unfold StrNEscape. cbn [fmap list_fmap concat]. rewrite app_nil_r.
  destruct (_ || _) eqn:E.
  - destruct (hex2_spec c) as (_ & _ & H3 & H4). unfold hex2.
    assert (Hn : bool_decide (NUL ∈ hex_digits) = false) by done. bool_prop.
    rewrite !not_elem_of_cons. destruct Hescape as [He _].
    split_and!; [congruence..|by apply not_elem_of_nil].
  - bool_prop. intros Hc. apply list_elem_of_singleton in Hc as <-. done.
Qed.

(** [StrUnescape] gives back what [StrEscape] escaped, whatever the bytes of the text and
    the characters to escape, NUL and the escape character included, when the escape
    character is neither NUL nor a hexadecimal digit. *)
Theorem StrUnescape_StrEscape (text : bytes) :
  StrUnescape (StrEscape text escape chars_to_escape) escape = text.
Proof.
  unfold StrUnescape, StrEscape. rewrite cstr_id by apply StrNEscape_no_nul.
  apply StrUnescape_loop_escaped.
Qed.
End Escape.

Lemma StrUnescape_StrEscape_witness :
  StrUnescape (StrEscape (bstr "a,.# b" ++ [NUL; Byte.xff]) Byte.x23 (bstr ",.")) Byte.x23 =
  bstr "a,.# b" ++ [NUL; Byte.xff].
Proof.
  apply (StrUnescape_StrEscape Byte.x23 (bstr ",.")).
  split; [done|]. apply (bool_decide_unpack _). by vm_compute.
Defined.

(** ** The end of a prefix's range *)

(** The recursion from the front. *)
Fixpoint next_prefix (p : bytes) : bytes :=
  match p with
  | [] => []
  | c :: p =>
      match next_prefix p with
      | [] => if bool_decide (c = Byte.xff) then [] else [to_byte (uchar c + 1)]
      | n => c :: n
      end
  end.

Lemma next_lexicographic_snoc p c :
  next_lexicographic (p ++ [c]) =
  match next_lexicographic p with
  | [] => if bool_decide (c = Byte.xff) then [] else [to_byte (uchar c + 1)]
  | n => c :: n
  end.
Proof.
  induction p as [|x p IH]; cbn [app next_lexicographic].
  - case_bool_decide; [done|]. cbn. f_equal. by destruct c.
  - destruct (bool_decide (x = Byte.xff)); [done|]. cbn [rev]. rewrite rev_app_distr. cbn.
    destruct (rev p ++ [_]) as [|y l] eqn:E; [|done]. by apply app_nil in E as [_ ?].
Qed.

Lemma next_prefix_eq p : GetNextInLexicographicOrder p = next_prefix p.
Proof.
  unfold GetNextInLexicographicOrder. induction p as [|c p IH]; [done|].
  cbn [rev next_prefix]. by rewrite next_lexicographic_snoc, IH.
Qed.

(** The strings that start with [prefix] are exactly those from [prefix] on and before
    [GetNextInLexicographicOrder(prefix)], in the order of [std::string]; when the latter is
    empty there is no upper bound. *)
Theorem GetNextInLexicographicOrder_range (prefix s : bytes) :
  starts_with prefix s =
  bytes_leb prefix s && (bool_decide (GetNextInLexicographicOrder prefix = []) ||
                         bytes_ltb s (GetNextInLexicographicOrder prefix)).
Proof.
  rewrite next_prefix_eq. revert s. induction prefix as [|c p IH]; intros s; [by destruct s|].
  destruct s as [|d s]; [done|]. specialize (IH s). cbn [starts_with bytes_leb next_prefix]. rewrite IH.
  replace (bool_decide (c = d)) with (uchar c =? uchar d).
  2: { apply eq_true_iff_eq. rewrite Z.eqb_eq, bool_decide_eq_true. split; [apply uchar_inj|congruence]. }
  pose proof (uchar_range d). pose proof (uchar_range c). unfold bytes_ltb.
  destruct (next_prefix p) as [|n np] eqn:En; [destruct (decide (c = Byte.xff)) as [->|Hc]|].
  - rewrite (bool_decide_true (Byte.xff = _)) by done. cbn iota.
    rewrite (bool_decide_true (_ = [])) by done. rewrite (proj2 (Z.ltb_ge _ _)) by (change (uchar Byte.xff) with 255; lia). cbn.
    by rewrite !andb_true_r.
  - rewrite (bool_decide_false (c = _)) by done. cbn iota. rewrite (bool_decide_true ([] = [])), (bool_decide_false ([_] = [])) by done.
    assert (uchar c <> 255) by (intros E; apply Hc; by apply uchar_inj).
    cbn [bytes_leb]. rewrite uchar_to_byte_small by lia. cbn. rewrite !andb_true_r.
    destruct (Z.ltb_spec (uchar c) (uchar d)), (Z.eqb_spec (uchar c) (uchar d)),
      (Z.ltb_spec (uchar c + 1) (uchar d)), (Z.eqb_spec (uchar c + 1) (uchar d)); try lia; cbn;
      by rewrite ?andb_true_r, ?andb_false_r.
  - change (bytes_leb (c :: n :: np) (d :: s))
      with ((uchar c <? uchar d) || ((uchar c =? uchar d) && bytes_leb (n :: np) s)).
    rewrite !(bool_decide_false (_ :: _ = [])) by done.
    destruct (Z.ltb_spec (uchar c) (uchar d)), (Z.eqb_spec (uchar c) (uchar d)); try lia; cbn [orb andb negb];
      by rewrite ?andb_true_r, ?andb_false_r.
Qed.

(** ** Normal paths *)

Lemma string_find_Some s p pos i : string_find s p pos = Some i ->
  exists a b, s = a ++ p ++ b /\ length a = i.
Proof.
  unfold string_find. destruct (pos <=? length s)%nat eqn:E; [|done]. apply Nat.leb_le in E.
  destruct (find_sub p (drop pos s)) as [j|] eqn:Hf; [|done]. intros [= <-].
  apply find_sub_Some in Hf as (a & b & Hs & <- & _). exists (take pos s ++ a), b.
  rewrite <- app_assoc, <- Hs, take_drop, length_app, length_take. split; [done|lia].
Qed.

Lemma string_find_None s p : string_find s p 0 = None -> free_of p s.
Proof.
  unfold string_find. cbn [Nat.leb]. rewrite drop_0. destruct (find_sub p s) eqn:E; [done|].
  intros _ a b. by apply find_sub_None.
Qed.

Lemma string_rfind_Some s p i : string_rfind s p = Some i -> exists a b, s = a ++ p ++ b /\ length a = i.
Proof.
  revert i. induction s as [|c s IH]; intros i; cbn [string_rfind].
  - destruct (starts_with p []) eqn:E; [|done]. intros [= <-].
    apply starts_with_spec in E as (b & E). by exists [], b.
  - destruct (string_rfind s p) as [j|] eqn:Hj.
    + intros [= <-]. destruct (IH j eq_refl) as (a & b & -> & <-). by exists (c :: a), b.
    + destruct (starts_with p (c :: s)) eqn:E; [|done]. intros [= <-].
      apply starts_with_spec in E as (b & E). by exists [], b.
Qed.

Lemma string_rfind_suffix a p : p <> [] -> string_rfind (a ++ p) p = Some (length a).
Proof.
  intros Hp. induction a as [|c a IH].
  - destruct p as [|x p]; [done|]. cbn [app string_rfind length].
    destruct (string_rfind p (x :: p)) as [i|] eqn:E.
    + apply string_rfind_Some in E as (a & b & E & _). apply (f_equal length) in E.
      rewrite length_app in E. simpl in E. rewrite length_app in E. lia.
    + by rewrite <- (app_nil_r (x :: p)) at 2; rewrite starts_with_app.
  - cbn [app string_rfind length]. by rewrite IH.
Qed.

Lemma find_last_before_Some s c n k : find_last_before s c n = Some k -> (k < n)%nat /\ s !! k = Some c.
Proof.
  induction n as [|n IH]; [done|]. cbn. case_bool_decide; [intros [= <-]; auto|].
  intros E. destruct (IH E). auto.
Qed.

Lemma find_last_before_None s c n k : find_last_before s c n = None -> (k < n)%nat -> s !! k <> Some c.
Proof.
  induction n as [|n IH]; [lia|]. cbn. case_bool_decide; [done|]. intros E Hk.
  destruct (decide (k = n)) as [->|]; [done|]. apply IH; [done|lia].
Qed.

Lemma free_prefix p a b : free_of p (a ++ b) -> free_of p a.
Proof. intros H x y ->. apply (H x (y ++ b)). by rewrite <- !app_assoc. Qed.

Lemma free_suffix p a b : free_of p (a ++ b) -> free_of p b.
Proof. intros H x y ->. apply (H (a ++ x) y). by rewrite <- !app_assoc. Qed.

Section Normal.
Variable sep : byte.

(** A component [m] of a path with its separators. *)
Definition component (m : bytes) : bytes := sep :: m ++ [sep].

Lemma component_snoc m s : free_of (component m) s -> (forall a, s <> a ++ sep :: m) ->
  free_of (component m) (s ++ [sep]).
Proof.
  intros Hs Hm a b H. destruct b as [|y b _] using rev_ind.
  - unfold component in H. rewrite app_nil_r, app_comm_cons, app_assoc in H.
    apply app_inj_tail in H as [-> _]. by apply (Hm a).
  - rewrite !app_assoc in H. apply app_inj_tail in H as [-> _]. apply (Hs a b). by rewrite app_assoc.
Qed.

(** An occurrence lies on one side of any separator. *)
Lemma component_split m pre b : sep ∉ m ->
  free_of (component m) (pre ++ [sep]) -> free_of (component m) (sep :: b) ->
  free_of (component m) (pre ++ sep :: b).
Proof.
  intros Hm H1 H2 x y H. apply app_eq_inv in H as [(k & -> & H)|(k & -> & H)]; [|by apply (H2 k y)].
  apply app_eq_inv in H as [(k' & Hk & H)|(k' & -> & H)].
  - destruct k' as [|z k'].
    + rewrite app_nil_r in Hk. subst k. apply (H1 x [sep]). by rewrite app_assoc.
    + injection H as <- ->. destruct k as [|z k].
      * cbn in Hk. rewrite app_nil_r in *. apply (H2 [] y). rewrite Hk. by cbn.
      * unfold component in Hk. injection Hk as <- Hk. destruct k' as [|z k' _] using rev_ind.
        -- apply (H1 x []). rewrite <- app_assoc, app_nil_r. unfold component. by rewrite Hk.
        -- change (sep :: k' ++ [z]) with ((sep :: k') ++ [z]) in Hk. rewrite app_assoc in Hk.
           apply app_inj_tail in Hk as [-> _]. set_solver.
  - apply (H1 x (k' ++ [sep])). by rewrite <- !app_assoc.
Qed.

Lemma splits_component s l x : splits [sep] s l -> x ∈ l ->
  exists a b, sep :: s ++ [sep] = a ++ component x ++ b.
Proof.
  induction 1 as [s Hf|s i l Hf Hl IH]; intros Hx.
  - apply list_elem_of_singleton in Hx as ->. exists [], []. by rewrite app_nil_r.
  - destruct (find_sub_cut _ _ _ Hf) as [Hs _]. clear Hf Hl. revert Hx IH Hs.
    generalize (take i s), (drop (i + length [sep]) s). intros t rest Hx IH ->.
    apply elem_of_cons in Hx as [->|Hx].
    + exists [], (rest ++ [sep]). unfold component. cbn. by rewrite <- !app_assoc.
    + destruct (IH Hx) as (a & b & E). exists (sep :: t ++ a), b.
      rewrite <- !app_assoc. cbn [app]. rewrite E, <- !app_assoc. done.
Qed.

Definition rooted (s : bytes) : Prop := s !! O = Some sep.

Lemma rooted_cut s a p k q b : rooted s -> s = a ++ p ++ b -> drop k p = sep :: q -> (k <= length p)%nat ->
  take (length a) s ++ drop (length a + k) s = a ++ (sep :: q) ++ b /\ rooted (a ++ (sep :: q) ++ b).
Proof.
  intros Hr -> Hp Hk. rewrite take_app_length, <- drop_drop, drop_app_length, drop_app_le, Hp by done.
  split; [done|]. unfold rooted in *. by destruct a.
Qed.

(** The three loops that only take out separators and single dots. *)
Lemma collapse_ok find p k q s :
  (forall s i, find s = Some i -> exists a b, s = a ++ p ++ b /\ length a = i) ->
  drop k p = sep :: q -> (0 < k)%nat -> rooted s ->
  exists s', collapse find k s = Some s' /\ rooted s' /\ find s' = None.
Proof.
  intros Hfind Hp Hk Hs. assert (k < length p)%nat.
  { destruct (decide (k < length p)%nat); [done|]. by rewrite drop_ge in Hp by lia. }
  apply (loop_total _ rooted (fun s' => rooted s' /\ find s' = None) length); [|done|lia].
  clear s Hs. intros s Hs. unfold collapse_step. destruct (find s) as [i|] eqn:E; [|by eexists].
  destruct (Hfind _ _ E) as (a & b & Hab & <-).
  destruct (rooted_cut s a p k q b Hs Hab Hp) as [-> Hr]; [lia|].
  eexists; split; [done|]. split; [done|]. rewrite Hab, <- Hp, !length_app, length_drop. lia.
Qed.

Lemma SplitString_root : SplitString [sep] [sep] = Some [[]; []].
Proof.
  destruct (SplitString_splits [sep] [sep]) as (l & -> & Hl); [done..|]. f_equal.
  apply (splits_det _ _ _ _ Hl), (splits_of_join sep [[]; []]); [done|]. repeat constructor; set_solver.
Qed.

Definition dot_free (s : bytes) : Prop :=
  free_of (component [DOT]) s /\ free_of (component [DOT; DOT]) s.

Hypothesis Hsep : sep <> DOT.

Lemma parent_ok s : rooted s -> free_of (component [DOT]) s ->
  exists r, loop (parent_step sep) (S (length s)) s = Some r /\
    match r with Some s' => rooted s' /\ dot_free s' | None => True end.
Proof.
  intros Hs Hd.
  apply (loop_total _ (fun s => rooted s /\ free_of (component [DOT]) s)
    (fun r => match r with Some s' => rooted s' /\ dot_free s' | None => True end) length); [|done|lia].
  clear s Hs Hd. intros s [Hs Hd]. unfold parent_step.
  destruct (string_find s [sep; DOT; DOT; sep] 0) as [i|] eqn:E.
  2: { eexists; split; [done|]. split; [done|]. split; [done|]. by apply string_find_None. }
  destruct (i =? 0)%nat; [by eexists|].
  destruct (string_find_Some _ _ _ _ E) as (a & b & Hab & <-).
  destruct (find_last_before s sep (length a)) as [k|] eqn:Ek; [|by eexists].
  destruct (find_last_before_Some _ _ _ _ Ek) as [Hk Hlk].
  eexists; split; [done|].
  assert (Hdrop : drop (length a + 3) s = sep :: b) by (by rewrite Hab, <- drop_drop, drop_app_length).
  rewrite Hdrop. assert (Hpre : s = take k s ++ sep :: drop (S k) s) by (by rewrite take_drop_middle).
  split; [split|].
  - unfold rooted in *. destruct (take k s) as [|z t] eqn:Et; [done|]. by rewrite Hpre in Hs.
  - apply component_split; [by intros ?%list_elem_of_singleton| |].
    + rewrite Hpre in Hd. change (sep :: drop (S k) s) with ([sep] ++ drop (S k) s) in Hd.
      rewrite app_assoc in Hd. by apply free_prefix in Hd.
    + rewrite Hab in Hd. apply (free_suffix _ (a ++ [sep; DOT; DOT])). by rewrite <- app_assoc.
  - rewrite length_app, length_take. simpl. rewrite Hab, !length_app. simpl. lia.
Qed.

(** Empty or starting with the separator. *)
Definition rooted0 (s : bytes) : Prop := s = [] \/ rooted s.

Lemma rooted0_take k s : rooted0 s -> rooted0 (take k s).
Proof.
  intros [->|Hs]; [left; apply take_nil|]. destruct k; [by left|right]. unfold rooted in *.
  destruct s; [done|]. done.
Qed.

(** Cutting a last component [m]. *)
Lemma not_suffix s m : string_rfind s (sep :: m) <> Some (length s - S (length m))%nat -> forall a, s <> a ++ sep :: m.
Proof.
  intros H a ->. apply H. rewrite string_rfind_suffix by done. f_equal.
  rewrite length_app. simpl. lia.
Qed.

Lemma cut_last_dot_ok s : rooted s -> dot_free s ->
  rooted0 (cut_last_dot sep s) /\ free_of (component [DOT]) (cut_last_dot sep s ++ [sep]) /\
  free_of (component [DOT; DOT]) (cut_last_dot sep s).
Proof.
  intros Hs [Hd Hdd]. unfold cut_last_dot.
  assert (Hno : string_rfind s [sep; DOT] <> Some (length s - 2)%nat ->
    rooted0 s /\ free_of (component [DOT]) (s ++ [sep]) /\ free_of (component [DOT; DOT]) s).
  { intros H. split_and!; [by right| |done]. apply component_snoc; [done|].
    by apply (not_suffix s [DOT]). }
  destruct (string_rfind s [sep; DOT]) as [i|] eqn:E; [|apply Hno; congruence].
  destruct (Nat.eqb_spec i (length s - 2)) as [Hi|Hi]; [|apply Hno; congruence].
  destruct (string_rfind_Some _ _ _ E) as (a & b & -> & <-).
  assert (b = []) as ->. { rewrite !length_app in Hi. simpl in Hi. destruct b; [done|simpl in Hi; lia]. }
  rewrite take_app_length. rewrite app_nil_r in *. split_and!.
  - destruct a; [by left|by right].
  - apply (free_prefix _ _ [DOT]). by rewrite <- app_assoc.
  - by apply free_prefix in Hdd.
Qed.

Lemma cut_last_dotdot_ok s : rooted0 s -> free_of (component [DOT]) (s ++ [sep]) ->
  free_of (component [DOT; DOT]) s ->
  match cut_last_dotdot sep s with Some s' => rooted0 s' /\ dot_free (s' ++ [sep]) | None => True end.
Proof.
  intros Hs Hd Hdd. unfold cut_last_dotdot.
  assert (Hno : string_rfind s [sep; DOT; DOT] <> Some (length s - 3)%nat -> rooted0 s /\ dot_free (s ++ [sep])).
  { intros H. split; [done|]. split; [done|]. apply component_snoc; [done|].
    by apply (not_suffix s [DOT; DOT]). }
  destruct (string_rfind s [sep; DOT; DOT]) as [i|] eqn:E; [|apply Hno; congruence].
  destruct (Nat.eqb_spec i (length s - 3)) as [Hi|Hi]; [|apply Hno; congruence].
  destruct (i =? 0)%nat; [done|]. destruct (find_last_before s sep i) as [k|] eqn:Ek; [|done].
  destruct (find_last_before_Some _ _ _ _ Ek) as [Hk Hlk]. split; [by apply rooted0_take|].
  assert (Hpre : s = (take k s ++ [sep]) ++ drop (S k) s).
  { rewrite <- app_assoc. cbn. by rewrite take_drop_middle. }
  split.
  - apply (free_prefix _ _ (drop (S k) s ++ [sep])). by rewrite app_assoc, <- Hpre.
  - apply (free_prefix _ _ (drop (S k) s)). by rewrite <- Hpre.
Qed.

(** What is left after the cuts has no component of dots, with or without its first
    separator. *)
Lemma dot_free_components r s m : dot_free (s ++ [sep]) -> m = [DOT] \/ m = [DOT; DOT] ->
  (r = s /\ rooted0 s) \/ sep :: r = s -> r <> [] -> forall l, SplitString r [sep] = Some l -> m ∉ l.
Proof.
  intros [Hd Hdd] Hm Hr Hne l Hl Hin. destruct (SplitString_splits r [sep] Hne) as (l' & E & Hsp); [done|].
  rewrite Hl in E. injection E as <-. destruct (splits_component _ _ _ Hsp Hin) as (a & b & Hc).
  assert (Hf : free_of (component m) (s ++ [sep])) by (by destruct Hm as [-> | ->]).
  destruct Hr as [[-> [->|Hs]]|<-]; [done| |by apply (Hf a b)].
  destruct a as [|x a]; [|injection Hc as _ Hc; by apply (Hf a b)].
  unfold rooted in Hs. destruct s as [|y s]; [done|]. injection Hs as ->.
  unfold component in Hc. destruct Hm as [-> | ->]; by injection Hc as ? _.
Qed.
End Normal.

(** [NormalizePath] ends on every path, and no component of the path it gives, between
    separators or at either end, is a dot or two dots: the result never leads above the
    directory it is taken from. *)
Theorem NormalizePath_safe (path : bytes) (sep : byte) :
  sep <> DOT -> sep <> NUL ->
  exists r, NormalizePath path sep = Some r /\
    forall l, SplitString r [sep] = Some l -> ([DOT] ∉ l) /\ ([DOT; DOT] ∉ l).
Proof.
  intros Hsep Hnul. unfold NormalizePath. set (s0 := fmap _ path).
  set (added := negb (bool_decide (default NUL (s0 !! O) = sep))).
  assert (Hroot : rooted sep (if added then [sep] ++ s0 else s0)).
  { unfold added, rooted. case_bool_decide as H; [|done]. cbn. destruct s0; cbn in *; congruence. }
  generalize dependent (if added then [sep] ++ s0 else s0). intros s1 H1.
  destruct (collapse_ok sep (fun s => string_find s [sep; sep; sep] 0) [sep; sep; sep] 2 [] s1)
    as (s2 & -> & H2 & _); [by intros; eapply string_find_Some|done|lia|done|].
  cbn [mbind option_bind].
  destruct (collapse_ok sep (fun s => string_find s [sep; sep] 1) [sep; sep] 1 [] s2)
    as (s3 & -> & H3 & _); [by intros; eapply string_find_Some|done|lia|done|].
  cbn [mbind option_bind].
  destruct (collapse_ok sep (fun s => string_find s [sep; DOT; sep] 0) [sep; DOT; sep] 2 [] s3)
    as (s4 & -> & H4 & E4); [by intros; eapply string_find_Some|done|lia|done|].
  cbn [mbind option_bind]. apply string_find_None in E4.
  destruct (parent_ok sep Hsep s4 H4 E4) as (r & -> & Hr). cbn [mbind option_bind].
  assert (Hroots : forall l, SplitString (if added then [] else [sep]) [sep] = Some l ->
    ([DOT] ∉ l) /\ ([DOT; DOT] ∉ l)).
  { intros l. destruct added; [by intros [= <-]; split; apply not_elem_of_nil|].
    rewrite SplitString_root. intros [= <-]. by split; intros [[=]|[[=]|[]%elem_of_nil]%elem_of_cons]%elem_of_cons. }
  destruct r as [s5|]; [|by eexists]. destruct Hr as [H5 D5].
  destruct (cut_last_dot_ok sep s5 H5 D5) as (H6 & D6 & D6').
  pose proof (cut_last_dotdot_ok sep _ H6 D6 D6') as H7.
  destruct (cut_last_dotdot sep (cut_last_dot sep s5)) as [s7|]; [|by eexists]. destruct H7 as [H7 D7].
  assert (Hres : forall r, r <> [] -> (r = s7 /\ rooted0 sep s7) \/ sep :: r = s7 ->
    forall l, SplitString r [sep] = Some l -> ([DOT] ∉ l) /\ ([DOT; DOT] ∉ l)).
  { intros r Hne Hr l Hl.
    split; (eapply (dot_free_components sep Hsep r s7); [done| |done..]); [by left|by right]. }
  assert (Hnil : forall l, SplitString [] [sep] = Some l -> ([DOT] ∉ l) /\ ([DOT; DOT] ∉ l))
    by (intros l [= <-]; split; apply not_elem_of_nil).
  destruct added; cbn [negb andb orb] in *.
  - case_bool_decide as Hn; [subst s7; by eexists|]. eexists; split; [done|].
    destruct H7 as [?|H7]; [done|]. unfold rooted in H7. destruct s7 as [|x s7]; [done|].
    injection H7 as ->. cbn [drop]. rewrite drop_0. destruct s7 as [|y s7]; [done|].
    apply Hres; [done|by right].
  - case_bool_decide as Hn; (eexists; split; [done|]); [by apply Hroots|]. apply Hres; [done|by left].
Qed.

Lemma NormalizePath_safe_witness : exists r, NormalizePath (bstr "/a/../b/./../c/..") PATH_SEPARATOR = Some r /\
    forall l, SplitString r [PATH_SEPARATOR] = Some l -> ([DOT] ∉ l) /\ ([DOT; DOT] ∉ l).
Proof. by apply (NormalizePath_safe (bstr "/a/../b/./../c/..") PATH_SEPARATOR). Defined.

End StrUtil.
