(* ===== verification/Url.v ===== *)
(** * Url: [url/simple_url.h], [url/simple_url.cc]

    An URL is a string and the components found in it when it was parsed.  [ParseSpec] only
    assigns the components it finds: the object keeps the others. *)

From S2P Require Import Prelude.
From S2P Require Import CString.
From S2P Require Import StrUtil.

Module Url.
Import StrUtil.

(** ** Escaping *)

Inductive CharacterFlags := PASS | ESCAPE.

#[export] Instance CharacterFlags_eq_dec : EqDecision CharacterFlags.
Proof. solve_decision. Defined.

Definition kCharLookup : list CharacterFlags :=
  replicate 45 ESCAPE ++ [PASS; PASS; ESCAPE] ++                                (* up to / *)
  replicate 10 PASS ++ replicate 6 ESCAPE ++                                     (* digits, up to ? *)
  [ESCAPE] ++ replicate 26 PASS ++ replicate 4 ESCAPE ++ [PASS] ++               (* @, letters, up to _ *)
  [ESCAPE] ++ replicate 26 PASS ++ replicate 3 ESCAPE ++ [PASS; ESCAPE] ++       (* `, letters, up to 0x7f *)
  replicate 128 ESCAPE.

Definition PERCENT : byte := Byte.x25.

Definition UrlEscape_char (c : byte) : bytes :=
  if bool_decide (kCharLookup !! Z.to_nat (uchar c) = Some ESCAPE) then StrToUpper (PERCENT :: hex2 c) else [c].

Definition UrlEscape (spec : bytes) : bytes := concat (UrlEscape_char <$> spec).

Definition url_hexval (c : byte) : Z :=
  if between 48 57 c then uchar c - 48
  else if between 97 102 c then 10 + uchar c - 97
  else if between 65 70 c then 10 + uchar c - 65
  else 16.

(** The loop: [esc] is the text from the last escape character on, while an escape is open. *)
Fixpoint UrlUnescape_loop (esc : option bytes) (esc_val : Z) (p : bytes) : bytes :=
  match p with
  | [] => []
  | c :: p =>
      if bool_decide (c = NUL) then []
      else if bool_decide (c = PERCENT) then UrlUnescape_loop (Some [c]) 0 p
      else match esc with
      | Some text =>
          let val := url_hexval c in
          if 15 <? val then text ++ c :: UrlUnescape_loop None esc_val p
          else
            let esc_val := wrapU 8 (esc_val * 16 + val) in
            if (length text =? 2)%nat then to_byte esc_val :: UrlUnescape_loop None esc_val p
            else UrlUnescape_loop (Some (text ++ [c])) esc_val p
      | None =>
          if bool_decide (c = Byte.x2b) then SP :: UrlUnescape_loop None esc_val p
          else c :: UrlUnescape_loop None esc_val p
      end
  end.

Definition UrlUnescape (spec : bytes) : bytes := UrlUnescape_loop None 0 spec.

Definition space2plus (s : bytes) : bytes :=
  concat ((fun c => if bool_decide (c = SP) then bstr "%20" else [c]) <$> s).

(** ** URLs *)

Record URL := mkURL {
  spec_ : bytes;
  is_valid_ : bool;
  scheme_ : bytes;
  user_ : bytes;
  host_ : bytes;
  port_ : bytes;
  path_ : bytes;
  query_ : bytes;
  ref_ : bytes;
}.

Definition URL_empty : URL := mkURL [] false [] [] [] [] [] [] [].

Definition set_valid (v : bool) (u : URL) : URL :=
  mkURL (spec_ u) v (scheme_ u) (user_ u) (host_ u) (port_ u) (path_ u) (query_ u) (ref_ u).
Definition set_spec (s : bytes) (u : URL) : URL :=
  mkURL s (is_valid_ u) (scheme_ u) (user_ u) (host_ u) (port_ u) (path_ u) (query_ u) (ref_ u).
Definition set_scheme (s : bytes) (u : URL) : URL :=
  mkURL (spec_ u) (is_valid_ u) s (user_ u) (host_ u) (port_ u) (path_ u) (query_ u) (ref_ u).
Definition set_user (s : bytes) (u : URL) : URL :=
  mkURL (spec_ u) (is_valid_ u) (scheme_ u) s (host_ u) (port_ u) (path_ u) (query_ u) (ref_ u).
Definition set_host (s : bytes) (u : URL) : URL :=
  mkURL (spec_ u) (is_valid_ u) (scheme_ u) (user_ u) s (port_ u) (path_ u) (query_ u) (ref_ u).
Definition set_port (s : bytes) (u : URL) : URL :=
  mkURL (spec_ u) (is_valid_ u) (scheme_ u) (user_ u) (host_ u) s (path_ u) (query_ u) (ref_ u).
Definition set_path (s : bytes) (u : URL) : URL :=
  mkURL (spec_ u) (is_valid_ u) (scheme_ u) (user_ u) (host_ u) (port_ u) s (query_ u) (ref_ u).
Definition set_query (s : bytes) (u : URL) : URL :=
  mkURL (spec_ u) (is_valid_ u) (scheme_ u) (user_ u) (host_ u) (port_ u) (path_ u) s (ref_ u).
Definition set_ref (s : bytes) (u : URL) : URL :=
  mkURL (spec_ u) (is_valid_ u) (scheme_ u) (user_ u) (host_ u) (port_ u) (path_ u) (query_ u) s.

Definition Invalidate (u : URL) : URL := URL_empty.

(** [substr] with a count that may be [npos]. *)
Definition substr_to (s : bytes) (pos : nat) (n : option nat) : bytes :=
  match n with Some n => substr s pos n | None => drop pos s end.

Definition ParseHostPort (host_port : bytes) (u : URL) : URL :=
  let user_pos := string_find host_port (bstr "@") 0 in
  let port_pos := string_rfind host_port (bstr ":") in
  let u := match user_pos with
           | Some p => set_host (substr_to host_port (p + 1) port_pos) (set_user (substr host_port 0 p) u)
           | None => set_host (substr_to host_port 0 port_pos) u
           end in
  match port_pos with Some p => set_port (drop (p + 1) host_port) u | None => u end.

(** The path, the query and the reference, from [host_port_pos] on. *)
Definition ParsePath (host_port_pos : nat) (u : URL) : URL :=
  let s := spec_ u in
  match string_find s (bstr "?") host_port_pos with
  | None =>
      match string_find s (bstr "#") host_port_pos with
      | None => set_path (drop host_port_pos s) u
      | Some ref_pos => set_ref (drop (ref_pos + 1) s) (set_path (substr s host_port_pos (ref_pos - host_port_pos)) u)
      end
  | Some query_pos =>
      let u := set_path (substr s host_port_pos (query_pos - host_port_pos)) u in
      match string_find s (bstr "#") query_pos with
      | None => set_query (space2plus (drop (query_pos + 1) s)) u
      | Some ref_pos =>
          set_ref (drop (ref_pos + 1) s)
            (set_query (space2plus (substr s (query_pos + 1) (ref_pos - query_pos - 1))) u)
      end
  end.

Definition ParseSpec (u : URL) : URL :=
  let u := set_valid true u in
  let s := spec_ u in
  match string_find s (bstr "://") 0 with
  | None => Invalidate u
  | Some scheme_pos =>
      let next_pos := (scheme_pos + 3)%nat in
      let u := set_scheme (substr s 0 scheme_pos) u in
      if bool_decide (scheme_ u = []) then Invalidate u
      else match string_find s (bstr "/") next_pos with
      | None => Invalidate u
      | Some host_port_pos =>
          ParsePath host_port_pos (ParseHostPort (substr s next_pos (host_port_pos - next_pos)) u)
      end
  end.

(** The constructors, and [operator=]. *)
Definition URL_of (url_string : bytes) : URL := ParseSpec (set_spec url_string URL_empty).
Definition URL_copy (other : URL) : URL := URL_of (spec_ other).
Definition URL_assign (u other : URL) : URL := ParseSpec (set_spec (spec_ other) u).

Definition URL_eqb (a b : URL) : bool := bool_decide (spec_ a = spec_ b).
Definition URL_ltb (a b : URL) : bool := bytes_ltb (spec_ a) (spec_ b).

Definition has (s : bytes) : bool := negb (bool_decide (s = [])).

(** What [Reassemble] writes; it is the new [spec_]. *)
Definition Reassemble_spec (u : URL) : bytes :=
  scheme_ u ++ bstr "://" ++
  (if has (user_ u) then user_ u ++ bstr "@" else []) ++ host_ u ++
  (if has (port_ u) then bstr ":" ++ port_ u else []) ++ path_ u ++
  (if has (query_ u) then bstr "?" ++ query_ u else []) ++
  (if has (ref_ u) then bstr "#" ++ ref_ u else []).

Definition Reassemble (u : URL) : URL := set_spec (Reassemble_spec u) u.

Definition Resolve (u : URL) (relative_path : bytes) : option URL :=
  let url := URL_copy u in
  path ← NormalizeUrlPath (JoinPaths (path_ u) relative_path PATH_SEPARATOR);
  Some (URL_of (spec_ (Reassemble (Reassemble (set_path path url))))).

(** [operator==] of a string and a C string. *)
Definition SchemeIs (u : URL) (lower_ascii_scheme : bytes) : bool := bool_decide (scheme_ u = cstr lower_ascii_scheme).
Definition SchemeIsFile (u : URL) : bool := SchemeIs u (bstr "file").
Definition SchemeIsSecure (u : URL) : bool := SchemeIs u (bstr "https").

Definition IntPort (u : URL) : Z :=
  if negb (has (port_ u)) then -1
  else
    let port := int32 (strtol (port_ u)).1 in
    if port <=? 0 then -1 else port.

Definition PathForRequest (u : URL) : bytes :=
  if negb (is_valid_ u) then []
  else if negb (has (query_ u)) && negb (has (ref_ u)) then path_ u
  else (if has (path_ u) then path_ u else bstr "/") ++
       (if has (query_ u) then bstr "?" ++ query_ u else []) ++
       (if has (ref_ u) then bstr "#" ++ ref_ u else []).

(** The number of parameters, and what is added to [out]. *)
Definition GetQueryParameters (u : URL) (unescape : bool) : option (Z * list (bytes * bytes)) :=
  q_params ← SplitString (query_ u) (bstr "&");
  Some (zlen q_params, (fun p => SplitFirst (if unescape then UrlUnescape p else p) (bstr "=")) <$> q_params).

End Url.
