(* ===== verification/UrlProps.v ===== *)
(** * UrlProps: URLs that are put together and taken apart again *)

From S2P Require Import Prelude.
From S2P Require Import CString.
From S2P Require Import StrUtil.
From S2P Require Import Url.

Module UrlProps.
Import StrUtil Url.

(** ** Finding *)

Lemma find_first c p a b : c ∉ a -> find_sub (c :: p) (a ++ c :: p ++ b) = Some (length a).
Proof.
  intros Ha. induction a as [|x a IH].
  - cbn [app find_sub]. change (c :: p ++ b) with ((c :: p) ++ b). by rewrite starts_with_app.
  - apply not_elem_of_cons in Ha as [Hx Ha]. cbn [app find_sub starts_with]. rewrite bool_decide_false by done. cbn [andb]. by rewrite IH.
Qed.

Lemma string_find_at a c b d : c ∉ b -> string_find (a ++ b ++ c :: d) [c] (length a) = Some (length a + length b)%nat.
Proof.
  intros Hc. unfold string_find. rewrite (proj2 (Nat.leb_le _ _)) by (rewrite length_app; lia).
  by rewrite drop_app_length, find_char.
Qed.

Lemma string_find_not a c b : c ∉ b -> string_find (a ++ b) [c] (length a) = None.
Proof.
  intros Hc. unfold string_find. rewrite (proj2 (Nat.leb_le _ _)) by (rewrite length_app; lia).
  by rewrite drop_app_length, find_char_None.
Qed.

Lemma string_rfind_not c s : c ∉ s -> string_rfind s [c] = None.
Proof.
  intros Hc. destruct (string_rfind s [c]) as [i|] eqn:E; [|done]. apply string_rfind_Some in E as (a & b & -> & _). set_solver.
Qed.

Lemma string_rfind_at a c b : c ∉ b -> string_rfind (a ++ c :: b) [c] = Some (length a).
Proof.
  intros Hc. induction a as [|x a IH]; cbn [app string_rfind]; [|by rewrite IH].
  rewrite string_rfind_not by done. cbn. by rewrite bool_decide_true.
Qed.

Lemma if_has (s : bytes) : (if has s then s else []) = s.
Proof. by destruct s. Qed.

(** The same by what comes before. *)
Lemma drop_split (s a b : bytes) n : s = a ++ b -> n = length a -> drop n s = b.
Proof. intros -> ->. apply drop_app_length. Qed.

Lemma substr_split s a b c p n : s = a ++ b ++ c -> p = length a -> n = length b -> substr s p n = b.
Proof. intros -> -> ->. unfold substr. by rewrite drop_app_length, take_app_length. Qed.

Lemma find_split s a b c d p n : s = a ++ b ++ c :: d -> c ∉ b -> p = length a -> n = (length a + length b)%nat -> string_find s [c] p = Some n.
Proof. intros -> Hc -> ->. by apply string_find_at. Qed.

Lemma not_split s a b c p : s = a ++ b -> c ∉ b -> p = length a -> string_find s [c] p = None.
Proof. intros -> Hc ->. by apply string_find_not. Qed.

Ltac lens := repeat match goal with H : ?x = _ |- _ => is_var x; subst x end;
  repeat (progress (rewrite <- ?app_assoc; cbn [app])); rewrite ?length_app; cbn [length]; rewrite ?length_app; cbn [length]; rewrite ?length_app; cbn [length];
  (reflexivity || lia).

Lemma has_false s : has s = false -> s = [].
Proof. by destruct s. Qed.

(** ** Escaping *)

(** The characters that RFC 3986 leaves as they are. *)
Definition unreserved (c : byte) : bool := isalpha c || isdigit c || bool_decide (c ∈ bstr "-._~").

(** A hexadecimal digit as [UrlEscape] writes it. *)
Lemma UrlEscape_char_spec c :
  if unreserved c then UrlEscape_char c = [c] /\ c <> NUL /\ c <> PERCENT /\ c <> Byte.x2b
  else UrlEscape_char c = PERCENT :: StrToUpper (hex2 c).
Proof.
  assert (H : (if unreserved c then bool_decide (UrlEscape_char c = [c]) && negb (bool_decide (c = NUL)) && negb (bool_decide (c = PERCENT)) && negb (bool_decide (c = Byte.x2b))
    else bool_decide (UrlEscape_char c = PERCENT :: StrToUpper (hex2 c))) = true) by check_all_bytes c.
  destruct (unreserved c); bool_prop; by rewrite ?bool_decide_eq_true in H.
Qed.

Lemma hex_upper c : exists h l, StrToUpper (hex2 c) = [h; l] /\ unreserved h = true /\ unreserved l = true /\
  url_hexval h = uchar c / 16 /\ url_hexval l = uchar c mod 16.
Proof.
  exists (toupper (hex_digit (uchar c / 16))), (toupper (hex_digit (uchar c mod 16))). split; [done|].
  assert (H : unreserved (toupper (hex_digit (uchar c / 16))) && unreserved (toupper (hex_digit (uchar c mod 16))) &&
    (url_hexval (toupper (hex_digit (uchar c / 16))) =? uchar c / 16) && (url_hexval (toupper (hex_digit (uchar c mod 16))) =? uchar c mod 16) = true)
    by check_all_bytes c.
  bool_prop. done.
Qed.

(** Outside an escape the value of the last one does not matter. *)
Lemma UrlUnescape_loop_val v w p : UrlUnescape_loop None v p = UrlUnescape_loop None w p.
Proof.
  induction p as [|c p IH]; [done|]. cbn [UrlUnescape_loop]. case_bool_decide; [done|]. case_bool_decide; [done|]. case_bool_decide; by rewrite IH.
Qed.

Lemma UrlUnescape_loop_char c v p : UrlUnescape_loop None v (UrlEscape_char c ++ p) = c :: UrlUnescape_loop None v p.
Proof.
  pose proof (UrlEscape_char_spec c) as Hc. destruct (unreserved c).
  - destruct Hc as (-> & H1 & H2 & H3). cbn [app UrlUnescape_loop]. by rewrite !bool_decide_false by done.
  - rewrite Hc. destruct (hex_upper c) as (h & l & -> & Hh & Hl & Vh & Vl).
    pose proof (UrlEscape_char_spec h) as Sh. rewrite Hh in Sh. destruct Sh as (_ & Nh & Ph & _).
    pose proof (UrlEscape_char_spec l) as Sl. rewrite Hl in Sl. destruct Sl as (_ & Nl & Pl & _). pose proof (uchar_range c).
    cbn [app UrlUnescape_loop]. rewrite (bool_decide_false (PERCENT = NUL)), (bool_decide_true (PERCENT = PERCENT)) by done.
    rewrite (bool_decide_false (h = NUL)), (bool_decide_false (h = PERCENT)) by done. rewrite Vh.
    destruct (Z.ltb_spec 15 (uchar c / 16)); [dlia|]. cbn [length Nat.eqb app].
    rewrite (bool_decide_false (l = NUL)), (bool_decide_false (l = PERCENT)) by done. rewrite Vl.
    destruct (Z.ltb_spec 15 (uchar c mod 16)); [dlia|]. rewrite (UrlUnescape_loop_val _ v). f_equal. apply to_byte_eq.
    rewrite !(wrapU_small 8) by (rewrite ?wrapU_small; dlia). dlia.
Qed.

Lemma UrlUnescape_loop_app s v p : UrlUnescape_loop None v (UrlEscape s ++ p) = s ++ UrlUnescape_loop None v p.
Proof.
  induction s as [|c s IH]; [done|]. unfold UrlEscape. rewrite fmap_cons. cbn [concat]. rewrite <- app_assoc.
  rewrite UrlUnescape_loop_char. cbn [app]. f_equal. exact IH.
Qed.

Lemma UrlEscape_chars s : Forall (fun c => unreserved c = true \/ c = PERCENT) (UrlEscape s).
Proof.
  induction s as [|c s IH]; [constructor|]. unfold UrlEscape. rewrite fmap_cons. cbn [concat]. apply Forall_app. split; [|exact IH].
  pose proof (UrlEscape_char_spec c) as Hc. destruct (unreserved c) eqn:E.
  - destruct Hc as (-> & _). constructor; [by left|constructor].
  - rewrite Hc. destruct (hex_upper c) as (h & l & -> & Hh & Hl & _). repeat (constructor; auto).
Qed.

Lemma UrlUnescape_UrlEscape_nil s : UrlUnescape_loop None 0 (UrlEscape s) = s.
Proof. rewrite <- (app_nil_r (UrlEscape s)), UrlUnescape_loop_app. by rewrite app_nil_r. Qed.

(** Escaping gives a string of unreserved characters and percent signs, and unescaping it
    gives every string back, NUL characters and percent signs included. *)
Theorem UrlUnescape_UrlEscape s :
  UrlUnescape (UrlEscape s) = s /\ Forall (fun c => unreserved c = true \/ c = PERCENT) (UrlEscape s).
Proof.
  split; [apply UrlUnescape_UrlEscape_nil|apply UrlEscape_chars].
Qed.

(** ** Parsing *)

Lemma not_in_all (s : bytes) c : forallb (fun x => negb (bool_decide (x ∈ bstr "/:@"))) s = true -> c ∈ s -> c ∉ bstr "/:@".
Proof. rewrite forallb_forall. intros Ha Hc%list_elem_of_In. specialize (Ha c Hc). by apply negb_true_iff, bool_decide_eq_false in Ha. Qed.

Ltac delim_not := apply not_in; vm_compute; reflexivity.
Ltac delim := apply (proj1 (bool_decide_eq_true _)); vm_compute; reflexivity.

(** Components that can be told apart in the text. *)
Record clean (u : URL) : Prop := {
  clean_scheme : scheme_ u <> [] /\ (Byte.x3a ∉ scheme_ u);
  clean_user c : c ∈ bstr "/:@" -> c ∉ user_ u;
  clean_host c : c ∈ bstr "/:@" -> c ∉ host_ u;
  clean_port c : c ∈ bstr "/:@" -> c ∉ port_ u;
  clean_path : (exists p, path_ u = Byte.x2f :: p) /\ (Byte.x3f ∉ path_ u) /\ (Byte.x23 ∉ path_ u);
  clean_query : (SP ∉ query_ u) /\ (Byte.x23 ∉ query_ u);
  clean_ref : query_ u <> [] \/ (Byte.x3f ∉ ref_ u);
}.

Definition host_port (u : URL) : bytes :=
  (if has (user_ u) then user_ u ++ bstr "@" else []) ++ host_ u ++ (if has (port_ u) then bstr ":" ++ port_ u else []).

Definition tail (u : URL) : bytes :=
  (if has (query_ u) then bstr "?" ++ query_ u else []) ++ (if has (ref_ u) then bstr "#" ++ ref_ u else []).

Lemma Reassemble_parts u : Reassemble_spec u = (scheme_ u ++ bstr "://") ++ host_port u ++ path_ u ++ tail u.
Proof. unfold Reassemble_spec, host_port, tail. by rewrite <- !app_assoc. Qed.

(** What [ParseHostPort] takes for the host: with a user before it, the port as well. *)
Definition host_found (u : URL) : bytes :=
  if has (user_ u) then take (length (user_ u) + 1 + length (host_ u)) (host_ u ++ (if has (port_ u) then bstr ":" ++ port_ u else []))
  else host_ u.

(** A component that is there, or the one the object had. *)
Definition or_old (s old : bytes) : bytes := if has s then s else old.

Lemma ParseHostPort_spec u v : clean u -> ParseHostPort (host_port u) v =
  mkURL (spec_ v) (is_valid_ v) (scheme_ v) (or_old (user_ u) (user_ v)) (host_found u) (or_old (port_ u) (port_ v)) (path_ v) (query_ v) (ref_ v).
Proof.
  intros [_ Hu Hh Hp _ _ _]. unfold ParseHostPort, host_port, host_found. change (bstr "@") with [Byte.x40]. change (bstr ":") with [Byte.x3a].
  set (tl := if has (port_ u) then [Byte.x3a] ++ port_ u else []).
  set (port_pos := fun a : bytes => if has (port_ u) then Some (length a + length (host_ u))%nat else None).
  assert (Hr : forall a, Byte.x3a ∉ a -> string_rfind (a ++ host_ u ++ tl) [Byte.x3a] = port_pos a).
  { intros a Ha. unfold tl, port_pos. destruct (has (port_ u)).
    - rewrite app_assoc. change ([Byte.x3a] ++ port_ u) with (Byte.x3a :: port_ u). rewrite string_rfind_at, length_app; [done|]. apply Hp. delim.
    - apply string_rfind_not. rewrite app_nil_r, not_elem_of_app. split; [done|]. apply Hh. delim. }
  assert (Hnone : Byte.x40 ∉ host_ u ++ tl).
  { rewrite not_elem_of_app. split; [apply Hh; delim|]. unfold tl. destruct (has (port_ u)); [|apply not_elem_of_nil].
    apply not_elem_of_cons. split; [done|]. apply Hp. delim. }
  assert (Hport : forall a w, match port_pos a with Some p => set_port (drop (p + 1) (a ++ host_ u ++ tl)) w | None => w end =
      set_port (or_old (port_ u) (port_ w)) w).
  { intros a w. unfold or_old, tl, port_pos. destruct (has (port_ u)); [|by destruct w]. f_equal.
    rewrite app_assoc, <- length_app, <- drop_drop, drop_app_length. done. }
  unfold or_old at 1. destruct (has (user_ u)) eqn:Eu.
  - rewrite <- !app_assoc. change ([Byte.x40] ++ host_ u ++ tl) with (Byte.x40 :: host_ u ++ tl).
    pose proof (string_find_at [] Byte.x40 (user_ u) (host_ u ++ tl)) as Hf. cbn [app length Nat.add] in Hf. rewrite Hf by (apply Hu; delim).
    change (user_ u ++ Byte.x40 :: host_ u ++ tl) with (user_ u ++ [Byte.x40] ++ host_ u ++ tl). rewrite app_assoc, Hr.
    2:{ rewrite not_elem_of_app. split; [apply Hu; delim|]. apply not_elem_of_cons. split; [done|apply not_elem_of_nil]. }
    rewrite Hport. unfold set_port, set_host, set_user. cbn [spec_ is_valid_ scheme_ user_ host_ port_ path_ query_ ref_].
    assert (Hd : drop (length (user_ u) + 1) ((user_ u ++ [Byte.x40]) ++ host_ u ++ tl) = host_ u ++ tl).
    { replace (length (user_ u) + 1)%nat with (length (user_ u ++ [Byte.x40])) by (rewrite length_app; done). apply drop_app_length. }
    f_equal.
    + unfold substr. rewrite drop_0, <- app_assoc. apply take_app_length.
    + unfold substr_to, port_pos. destruct (has (port_ u)) eqn:Ep; unfold substr; rewrite Hd; [by rewrite length_app|].
      unfold tl. rewrite app_nil_r, take_ge by lia. done.
  - cbn [app]. pose proof (string_find_not [] Byte.x40 (host_ u ++ tl) Hnone) as Hf. cbn [app length] in Hf. rewrite Hf.
    pose proof (Hr [] (not_elem_of_nil _)) as Hr0. cbn [app] in Hr0. rewrite Hr0.
    pose proof (Hport [] (set_host (substr_to (host_ u ++ tl) 0 (port_pos [])) v)) as Hp0. cbn [app] in Hp0.
    rewrite Hp0. unfold set_port, set_host. cbn [spec_ is_valid_ scheme_ user_ host_ port_ path_ query_ ref_]. f_equal.
    unfold substr_to, tl, port_pos. cbn [length Nat.add]. destruct (has (port_ u)); unfold substr; rewrite drop_0; [by rewrite take_app_length|by rewrite app_nil_r].
Qed.

Lemma space2plus_id s : SP ∉ s -> space2plus s = s.
Proof.
  induction s as [|c s IH]; [done|]. intros [Hc Hs]%not_elem_of_cons. unfold space2plus. rewrite fmap_cons. cbn [concat].
  rewrite bool_decide_false by done. cbn [app]. f_equal. by apply IH.
Qed.

Lemma ParsePath_spec u v pre : clean u -> spec_ v = pre ++ path_ u ++ tail u -> ParsePath (length pre) v =
  mkURL (spec_ v) (is_valid_ v) (scheme_ v) (user_ v) (host_ v) (port_ v) (path_ u) (or_old (query_ u) (query_ v)) (or_old (ref_ u) (ref_ v)).
Proof.
  intros [_ _ _ _ (_ & Hq & Hr) [Hsp Hqr] Href] Hs. unfold ParsePath, tail, or_old in *. rewrite Hs.
  change (bstr "?") with [Byte.x3f] in *. change (bstr "#") with [Byte.x23] in *.
  assert (Hn : Byte.x23 ∉ Byte.x3f :: query_ u) by (apply not_elem_of_cons; by split).
  destruct (has (query_ u)) eqn:Eq, (has (ref_ u)) eqn:Er; rewrite ?app_nil_r in Hs |- *; cbn [app] in *.
  - remember (pre ++ path_ u ++ Byte.x3f :: query_ u ++ Byte.x23 :: ref_ u) as s eqn:Es.
    rewrite (find_split s pre (path_ u) Byte.x3f (query_ u ++ Byte.x23 :: ref_ u) _ (length (pre ++ path_ u))) by (done || by lens).
    rewrite (find_split s (pre ++ path_ u) (Byte.x3f :: query_ u) Byte.x23 (ref_ u) _ (length (pre ++ path_ u ++ Byte.x3f :: query_ u))) by (done || by lens).
    rewrite (drop_split s (pre ++ path_ u ++ [Byte.x3f] ++ query_ u ++ [Byte.x23]) (ref_ u)) by by lens.
    rewrite (substr_split s (pre ++ path_ u ++ [Byte.x3f]) (query_ u) ([Byte.x23] ++ ref_ u)) by by lens.
    rewrite (substr_split s pre (path_ u) ([Byte.x3f] ++ query_ u ++ [Byte.x23] ++ ref_ u)) by by lens.
    unfold set_ref, set_query, set_path. cbn [spec_ is_valid_ scheme_ user_ host_ port_ path_ query_ ref_]. by rewrite (space2plus_id _ Hsp), Hs.
  - remember (pre ++ path_ u ++ Byte.x3f :: query_ u) as s eqn:Es.
    rewrite (find_split s pre (path_ u) Byte.x3f (query_ u) _ (length (pre ++ path_ u))) by (done || by lens).
    rewrite (not_split s (pre ++ path_ u) (Byte.x3f :: query_ u) Byte.x23) by (done || by lens).
    rewrite (drop_split s (pre ++ path_ u ++ [Byte.x3f]) (query_ u)) by by lens.
    rewrite (substr_split s pre (path_ u) ([Byte.x3f] ++ query_ u)) by by lens.
    unfold set_query, set_path. cbn [spec_ is_valid_ scheme_ user_ host_ port_ path_ query_ ref_]. by rewrite (space2plus_id _ Hsp), Hs.
  - apply has_false in Eq. assert (Hq' : Byte.x3f ∉ path_ u ++ Byte.x23 :: ref_ u).
    { rewrite not_elem_of_app, not_elem_of_cons. by destruct Href. }
    remember (pre ++ path_ u ++ Byte.x23 :: ref_ u) as s eqn:Es.
    rewrite (not_split s pre (path_ u ++ Byte.x23 :: ref_ u)) by done.
    rewrite (find_split s pre (path_ u) Byte.x23 (ref_ u) _ (length (pre ++ path_ u))) by (done || by lens).
    rewrite (drop_split s (pre ++ path_ u ++ [Byte.x23]) (ref_ u)) by by lens.
    rewrite (substr_split s pre (path_ u) ([Byte.x23] ++ ref_ u)) by by lens.
    unfold set_ref, set_path. cbn [spec_ is_valid_ scheme_ user_ host_ port_ path_ query_ ref_]. by rewrite Hs.
  - rewrite !(not_split _ pre (path_ u)) by done. rewrite (drop_split _ pre (path_ u)) by done.
    unfold set_path. cbn [spec_ is_valid_ scheme_ user_ host_ port_ path_ query_ ref_]. by rewrite Hs.
Qed.

(** Parsing into an object that has been used. *)
Lemma ParseSpec_clean u v : clean u -> ParseSpec (set_spec (Reassemble_spec u) v) =
  mkURL (Reassemble_spec u) true (scheme_ u) (or_old (user_ u) (user_ v)) (host_found u) (or_old (port_ u) (port_ v)) (path_ u)
    (or_old (query_ u) (query_ v)) (or_old (ref_ u) (ref_ v)).
Proof.
  intros Hc. pose proof Hc as [[Hs1 Hs2] Hu Hh Hp [[q Hpath] _] _ _]. remember (Reassemble_spec u) as s eqn:Es. pose proof (Reassemble_parts u) as E. rewrite <- Es in E. clear Es.
  assert (Hslash : Byte.x2f ∉ host_port u).
  { unfold host_port. rewrite !not_elem_of_app. split_and!; [|apply Hh; delim|]; destruct (has _); try apply not_elem_of_nil; rewrite not_elem_of_app;
      (split; [|(apply Hp; delim) || delim_not]); (apply Hu; delim) || delim_not. }
  unfold ParseSpec. cbn [set_valid set_spec spec_ is_valid_ scheme_ user_ host_ port_ path_ query_ ref_].
  change (bstr "://") with (Byte.x3a :: [Byte.x2f; Byte.x2f]) in *. change (bstr "/") with [Byte.x2f].
  assert (Hf : string_find s (Byte.x3a :: [Byte.x2f; Byte.x2f]) 0 = Some (length (scheme_ u))).
  { unfold string_find. cbn [Nat.leb]. rewrite drop_0, E, <- app_assoc. cbn [app].
    change (Byte.x3a :: Byte.x2f :: Byte.x2f :: host_port u ++ path_ u ++ tail u) with (Byte.x3a :: [Byte.x2f; Byte.x2f] ++ host_port u ++ path_ u ++ tail u).
    by rewrite find_first. }
  rewrite Hf. unfold set_scheme. cbn [spec_ is_valid_ scheme_ user_ host_ port_ path_ query_ ref_].
  rewrite (substr_split s [] (scheme_ u) ([Byte.x3a; Byte.x2f; Byte.x2f] ++ host_port u ++ path_ u ++ tail u)) by by lens.
  rewrite bool_decide_false by done.
  rewrite (find_split s (scheme_ u ++ [Byte.x3a; Byte.x2f; Byte.x2f]) (host_port u) Byte.x2f (q ++ tail u) _ (length ((scheme_ u ++ [Byte.x3a; Byte.x2f; Byte.x2f]) ++ host_port u)))
    by (done || by (rewrite ?E, ?Hpath; lens)).
  rewrite (substr_split s (scheme_ u ++ [Byte.x3a; Byte.x2f; Byte.x2f]) (host_port u) (path_ u ++ tail u)) by (done || by lens).
  rewrite (ParseHostPort_spec u _ Hc), (ParsePath_spec u _ _ Hc); [done|]. cbn [spec_]. rewrite E. by rewrite <- !app_assoc.
Qed.

(** C34: an URL put together from components that can be told apart is valid and parses into
    these components, but for the host when there are a user and a port as well: the count
    that [ParseHostPort] gives [substr] is the position of the colon, so that the colon and
    a part of the port, or all of it, end up in the host. *)
Theorem reassembled_parses u : clean u ->
  URL_of (Reassemble_spec u) = set_valid true (set_host (host_found u) (Reassemble u)) /\
  (has (user_ u) && has (port_ u) = false -> host_found u = host_ u) /\
  (has (user_ u) = true -> has (port_ u) = true ->
     host_found u = host_ u ++ bstr ":" ++ take (length (user_ u)) (port_ u)).
Proof.
  intros Hc. unfold URL_of. rewrite (ParseSpec_clean u _ Hc). split_and!.
  - unfold Reassemble, set_valid, set_host, or_old. cbn [spec_ is_valid_ scheme_ user_ host_ port_ path_ query_ ref_ set_spec URL_empty].
    by rewrite !if_has.
  - unfold host_found. destruct (has (user_ u)), (has (port_ u)); cbn [andb]; try done. intros _. rewrite app_nil_r. apply take_ge. lia.
  - intros Hu Hp. unfold host_found. rewrite Hu, Hp. change (bstr ":") with [Byte.x3a].
    rewrite take_app_ge by lia. replace (length (user_ u) + 1 + length (host_ u) - length (host_ u))%nat with (S (length (user_ u))) by lia. done.
Qed.

(** [operator=] does not clear the object: after the assignment of an URL without user,
    port, query and reference, which then is equal to the object for [operator==], the object
    has those of the URL it was before. *)
Theorem assigned_url_keeps_parts u s h p : s <> [] -> Byte.x3a ∉ s -> (forall c, c ∈ bstr "/:@" -> c ∉ h) ->
  Byte.x3f ∉ p -> Byte.x23 ∉ p ->
  let other := URL_of (s ++ bstr "://" ++ h ++ bstr "/" ++ p) in
  URL_eqb (URL_assign u other) other = true /\
  URL_assign u other =
    mkURL (spec_ other) true (scheme_ other) (user_ u) (host_ other) (port_ u) (path_ other) (query_ u) (ref_ u) /\
  user_ other = [] /\ port_ other = [] /\ query_ other = [] /\ ref_ other = [].
Proof.
  intros Hs Hs' Hh Hp Hp'. set (o := mkURL [] true s [] h [] (bstr "/" ++ p) [] []).
  assert (Hc : clean o).
  { split; cbn [o spec_ is_valid_ scheme_ user_ host_ port_ path_ query_ ref_]; try done; try (intros; apply not_elem_of_nil).
    - split; [by eexists|]. split; apply not_elem_of_cons; by split.
    - split; apply not_elem_of_nil.
    - right. apply not_elem_of_nil. }
  assert (E : s ++ bstr "://" ++ h ++ bstr "/" ++ p = Reassemble_spec o).
  { unfold Reassemble_spec. cbn [o spec_ is_valid_ scheme_ user_ host_ port_ path_ query_ ref_ has]. cbn [bool_decide negb app]. by rewrite ?app_nil_r. }
  rewrite E. unfold URL_of, URL_assign. rewrite (ParseSpec_clean o _ Hc). cbn [spec_ is_valid_ scheme_ user_ host_ port_ path_ query_ ref_ URL_empty].
  rewrite (ParseSpec_clean o _ Hc). split_and!; try done. unfold URL_eqb. by apply bool_decide_eq_true.
Qed.

(** ** Queries *)

Definition escaped (p : bytes * bytes) : bytes := UrlEscape p.1 ++ bstr "=" ++ UrlEscape p.2.

Lemma escape_free c s : unreserved c = false -> c <> PERCENT -> c ∉ UrlEscape s.
Proof. intros Hc Hp Hin. pose proof (UrlEscape_chars s) as H. rewrite List.Forall_forall in H. apply list_elem_of_In, H in Hin as [?|?]; congruence. Qed.

Lemma UrlUnescape_escaped p : UrlUnescape (escaped p) = p.1 ++ bstr "=" ++ p.2.
Proof.
  unfold UrlUnescape, escaped. rewrite UrlUnescape_loop_app. change (bstr "=") with [Byte.x3d]. cbn [app]. f_equal.
  change (UrlUnescape_loop None 0 (Byte.x3d :: UrlEscape p.2)) with (Byte.x3d :: UrlUnescape_loop None 0 (UrlEscape p.2)). f_equal.
  apply UrlUnescape_UrlEscape_nil.
Qed.

Lemma SplitFirst_at k v c : c ∉ k -> SplitFirst (k ++ [c] ++ v) [c] = (k, v).
Proof.
  intros Hk. unfold SplitFirst. pose proof (string_find_at [] c k v Hk) as Hf. cbn [app length Nat.add] in *. rewrite Hf.
  rewrite take_app_length. f_equal. replace (length k + 1)%nat with (length (k ++ [c])) by (rewrite length_app; done).
  change (k ++ c :: v) with (k ++ [c] ++ v). rewrite app_assoc. apply drop_app_length.
Qed.

(** A query of escaped keys and values comes apart into as many parameters, each of them
    unescaped and then cut at its first equals sign: the keys and values come back whatever
    characters are in them, but for an equals sign in a key, which was escaped and cuts it. *)
Theorem query_parameters_back u (params : list (bytes * bytes)) : params <> [] ->
  query_ u = JoinStrings (escaped <$> params) (bstr "&") ->
  GetQueryParameters u true = Some (zlen params, (fun p => SplitFirst (p.1 ++ bstr "=" ++ p.2) (bstr "=")) <$> params) /\
  (Forall (fun p => Byte.x3d ∉ p.1) params -> GetQueryParameters u true = Some (zlen params, params)).
Proof.
  intros Hne Hq. assert (Hg : GetQueryParameters u true = Some (zlen params, (fun p => SplitFirst (p.1 ++ bstr "=" ++ p.2) (bstr "=")) <$> params)).
  { unfold GetQueryParameters. rewrite Hq. change (bstr "&") with [Byte.x26].
    assert (Hj : JoinStrings (escaped <$> params) [Byte.x26] <> []).
    { destruct params as [|p params]; [done|]. rewrite fmap_cons. destruct (escaped <$> params) as [|x l]; cbn [JoinStrings]; unfold escaped; by destruct (UrlEscape p.1). }
    destruct (SplitString_splits _ [Byte.x26] Hj ltac:(done)) as (l & -> & Hl). cbn [mbind option_bind].
    assert (l = escaped <$> params) as ->.
    { eapply splits_det; [exact Hl|]. apply splits_of_join; [by destruct params|]. apply Forall_fmap, List.Forall_forall. intros p _. unfold compose, escaped.
      rewrite !not_elem_of_app. split_and!; try (apply escape_free; (reflexivity || discriminate)). by apply not_in. }
    f_equal. f_equal; [unfold zlen; by rewrite length_fmap|]. rewrite <- list_fmap_compose. apply list_fmap_ext. intros _ p _. unfold compose.
    by rewrite UrlUnescape_escaped. }
  split; [exact Hg|]. intros Hk. rewrite Hg. do 2 f_equal. rewrite <- (list_fmap_id params) at 2. apply list_fmap_ext. intros i [k v] Hi. cbn [fst snd id].
  change (bstr "=") with [Byte.x3d]. apply SplitFirst_at. exact (Forall_lookup_1 _ _ _ _ Hk Hi).
Qed.

(** *** Instances *)

Definition some_url : URL :=
  mkURL [] true (bstr "http") (bstr "joe") (bstr "host") (bstr "8080") (bstr "/a/b") (bstr "x=1&y=2") (bstr "top").

Lemma some_url_clean : clean some_url.
Proof.
  split; cbn [some_url scheme_ user_ host_ port_ path_ query_ ref_].
  - split; [discriminate|delim_not].
  - intros c Hc Hin. revert Hc. apply (not_in_all (bstr "joe")); [vm_compute; reflexivity|exact Hin].
  - intros c Hc Hin. revert Hc. apply (not_in_all (bstr "host")); [vm_compute; reflexivity|exact Hin].
  - intros c Hc Hin. revert Hc. apply (not_in_all (bstr "8080")); [vm_compute; reflexivity|exact Hin].
  - split; [by eexists|]. split; delim_not.
  - split; delim_not.
  - left. discriminate.
Qed.

Lemma reassembled_parses_witness :
  let u := URL_of (bstr "http://joe@host:8080/a/b?x=1&y=2#top") in
  is_valid_ u = true /\ host_ u = bstr "host:808" /\ port_ u = bstr "8080" /\ Reassemble_spec some_url = bstr "http://joe@host:8080/a/b?x=1&y=2#top".
Proof.
  assert (Hs : Reassemble_spec some_url = bstr "http://joe@host:8080/a/b?x=1&y=2#top") by (vm_compute; reflexivity).
  pose proof (reassembled_parses some_url some_url_clean) as (Hp & _ & Hh). rewrite Hs in Hp. cbv zeta. rewrite Hp.
  split; [reflexivity|]. split; [|split; [reflexivity|exact Hs]].
  change (host_found some_url = bstr "host:808"). rewrite Hh by reflexivity. vm_compute. reflexivity.
Defined.

Lemma assigned_url_keeps_parts_witness :
  let u := URL_assign (URL_of (bstr "http://a:80/p?q#r")) (URL_of (bstr "http://b/")) in
  host_ u = bstr "b" /\ port_ u = bstr "80" /\ query_ u = bstr "q" /\ ref_ u = bstr "r".
Proof.
  destruct (assigned_url_keeps_parts (URL_of (bstr "http://a:80/p?q#r")) (bstr "http") (bstr "b") []) as (_ & H & _).
  - discriminate.
  - delim_not.
  - intros c Hc Hin. revert Hc. apply (not_in_all (bstr "b")); [vm_compute; reflexivity|exact Hin].
  - apply not_elem_of_nil.
  - apply not_elem_of_nil.
  - change (bstr "http" ++ bstr "://" ++ bstr "b" ++ bstr "/" ++ []) with (bstr "http://b/") in H. cbv zeta. rewrite H.
    split; [|split; [|split]]; vm_compute; reflexivity.
Defined.

Definition some_params : list (bytes * bytes) := [(bstr "a b", bstr "1+1=2&"); (bstr "", bstr "%")].

Lemma query_parameters_back_witness :
  GetQueryParameters (URL_of (bstr "http://h/?" ++ JoinStrings (escaped <$> some_params) (bstr "&"))) true = Some (2, some_params).
Proof.
  apply (query_parameters_back _ some_params).
  - discriminate.
  - vm_compute. reflexivity.
  - repeat constructor; delim_not.
Defined.

End UrlProps.
