(* ===== verification/HttpConsts.v ===== *)
(** * HttpConsts: [http/http_consts.h], [http/http_consts.cc]

    Return codes, methods, versions and character classes of the [http] component.  A
    variable of type [HttpReturnCode] also receives integers that no enumerator has (what
    the peer sent), so it is a [Z]; [return_codes] lists the enumerators. *)

From S2P Require Import Prelude CString.

Module HttpConsts.

(** ** Return codes *)

Definition return_codes : list (bytes * Z) :=
  [(bstr "UNKNOWN", 0);
   (bstr "CONTINUE", 100);
   (bstr "SWITCHING_PROTOCOLS", 101);
   (bstr "OK", 200);
   (bstr "CREATED", 201);
   (bstr "ACCEPTED", 202);
   (bstr "NON_AUTHORITATIVE_INFORMATION", 203);
   (bstr "NO_CONTENT", 204);
   (bstr "RESET_CONTENT", 205);
   (bstr "PARTIAL_CONTENT", 206);
   (bstr "MULTIPLE_CHOICES", 300);
   (bstr "MOVED_PERMANENTLY", 301);
   (bstr "FOUND", 302);
   (bstr "SEE_OTHER", 303);
   (bstr "NOT_MODIFIED", 304);
   (bstr "USE_PROXY", 305);
   (bstr "TEMPORARY_REDIRECT", 307);
   (bstr "BAD_REQUEST", 400);
   (bstr "UNAUTHORIZED", 401);
   (bstr "PAYMENT_REQUIRED", 402);
   (bstr "FORBIDDEN", 403);
   (bstr "NOT_FOUND", 404);
   (bstr "METHOD_NOT_ALLOWED", 405);
   (bstr "NOT_ACCEPTABLE", 406);
   (bstr "PROXY_AUTHENTICATION_REQUIRED", 407);
   (bstr "REQUEST_TIME_OUT", 408);
   (bstr "CONFLICT", 409);
   (bstr "GONE", 410);
   (bstr "LENGTH_REQUIRED", 411);
   (bstr "PRECONDITION_FAILED", 412);
   (bstr "REQUEST_ENTITY_TOO_LARGE", 413);
   (bstr "REQUEST_URI_TOO_LARGE", 414);
   (bstr "UNSUPPORTED_MEDIA_TYPE", 415);
   (bstr "REQUESTED_RANGE_NOT_SATISFIABLE", 416);
   (bstr "EXPECTATION_FAILED", 417);
   (bstr "INTERNAL_SERVER_ERROR", 500);
   (bstr "NOT_IMPLEMENTED", 501);
   (bstr "BAD_GATEWAY", 502);
   (bstr "SERVICE_UNAVAILABLE", 503);
   (bstr "GATEWAY_TIME_OUT", 504);
   (bstr "HTTP_VERSION_NOT_SUPPORTED", 505)].

Definition UNKNOWN : Z := 0.

Fixpoint lookup_code {A} (l : list (A * Z)) (code : Z) : option A :=
  match l with
  | (a, c) :: l => if code =? c then Some a else lookup_code l code
  | [] => None
  end.

Definition GetHttpReturnCodeName (code : Z) : bytes :=
  default (bstr "UNKNOWN") (lookup_code return_codes code).

Definition GetHttpCodeDescription (code : Z) : bytes :=
  default (bstr "Unknown") (lookup_code
    [(bstr "Continue", 100);
     (bstr "Switching Protocols", 101);
     (bstr "OK", 200);
     (bstr "Created", 201);
     (bstr "Accepted", 202);
     (bstr "Non-Authoritative Information", 203);
     (bstr "No Content", 204);
     (bstr "Reset Content", 205);
     (bstr "Partial Content", 206);
     (bstr "Multiple Choices", 300);
     (bstr "Moved Permanently", 301);
     (bstr "Found", 302);
     (bstr "See Other", 303);
     (bstr "Not Modified", 304);
     (bstr "Use Proxy", 305);
     (bstr "Temporary Redirect", 307);
     (bstr "Bad Request", 400);
     (bstr "Unauthorized", 401);
     (bstr "Payment Required", 402);
     (bstr "Forbidden", 403);
     (bstr "Not Found", 404);
     (bstr "Method Not Allowed", 405);
     (bstr "Not Acceptable", 406);
     (bstr "Proxy Authentication Required", 407);
     (bstr "Request Time-out", 408);
     (bstr "Conflict", 409);
     (bstr "Gone", 410);
     (bstr "Length Required", 411);
     (bstr "Precondition Failed", 412);
     (bstr "Request Entity Too Large", 413);
     (bstr "Request-URI Too Large", 414);
     (bstr "Unsupported Media Type", 415);
     (bstr "Requested range not satisfiable", 416);
     (bstr "Expectation Failed", 417);
     (bstr "Internal Server Error", 500);
     (bstr "Not Implemented", 501);
     (bstr "Bad Gateway", 502);
     (bstr "Service Unavailable", 503);
     (bstr "Gateway Time-out", 504);
     (bstr "HTTP Version not supported", 505)] code).

Definition GetHttpReturnCodeDescription (code : Z) : bytes := GetHttpCodeDescription (int32 code).

(** ** Header names that the code uses *)

Definition kHeaderTransferEncoding : bytes := bstr "Transfer-Encoding".
Definition kHeaderContentEncoding : bytes := bstr "Content-Encoding".
Definition kHeaderConnection : bytes := bstr "Connection".
Definition kHeaderContentType : bytes := bstr "Content-Type".
Definition kHeaderAuthorization : bytes := bstr "Authorization".
Definition kHeaderContentLength : bytes := bstr "Content-Length".

(** ** Methods and versions *)

Inductive HttpMethod :=
  METHOD_UNKNOWN | METHOD_OPTIONS | METHOD_GET | METHOD_HEAD | METHOD_POST
| METHOD_PUT | METHOD_DELETE | METHOD_TRACE | METHOD_CONNECT.

#[export] Instance HttpMethod_eq_dec : EqDecision HttpMethod.
Proof. solve_decision. Defined.

(** The argument is the C string; its first character may be the terminating NUL. *)
Definition GetHttpMethod (method_ : bytes) : HttpMethod :=
  match method_ with
  | [] => METHOD_UNKNOWN
  | c :: s =>
      let c := toupper c in
      if bool_decide (c = Byte.x4f) then
        if strcaseeq s (bstr "PTIONS") then METHOD_OPTIONS else METHOD_UNKNOWN
      else if bool_decide (c = Byte.x47) then
        if strcaseeq s (bstr "ET") then METHOD_GET else METHOD_UNKNOWN
      else if bool_decide (c = Byte.x48) then
        if strcaseeq s (bstr "EAD") then METHOD_HEAD else METHOD_UNKNOWN
      else if bool_decide (c = Byte.x50) then
        if strcaseeq s (bstr "OST") then METHOD_POST
        else if strcaseeq s (bstr "UT") then METHOD_PUT else METHOD_UNKNOWN
      else if bool_decide (c = Byte.x44) then
        if strcaseeq s (bstr "ELETE") then METHOD_DELETE else METHOD_UNKNOWN
      else if bool_decide (c = Byte.x54) then
        if strcaseeq s (bstr "RACE") then METHOD_TRACE else METHOD_UNKNOWN
      else if bool_decide (c = Byte.x43) then
        if strcaseeq s (bstr "ONNECT") then METHOD_CONNECT else METHOD_UNKNOWN
      else METHOD_UNKNOWN
  end.

Definition GetHttpMethodName (m : HttpMethod) : bytes :=
  match m with
  | METHOD_UNKNOWN => bstr "UNKNOWN"
  | METHOD_OPTIONS => bstr "OPTIONS"
  | METHOD_GET => bstr "GET"
  | METHOD_HEAD => bstr "HEAD"
  | METHOD_POST => bstr "POST"
  | METHOD_PUT => bstr "PUT"
  | METHOD_DELETE => bstr "DELETE"
  | METHOD_TRACE => bstr "TRACE"
  | METHOD_CONNECT => bstr "CONNECT"
  end.

Inductive HttpVersion := VERSION_UNKNOWN | VERSION_0_9 | VERSION_1_0 | VERSION_1_1.

#[export] Instance HttpVersion_eq_dec : EqDecision HttpVersion.
Proof. solve_decision. Defined.

(** The value of the enumerator, for the order. *)
Definition version_value (v : HttpVersion) : Z :=
  match v with VERSION_UNKNOWN => 0 | VERSION_0_9 => 1 | VERSION_1_0 => 2 | VERSION_1_1 => 3 end.

Definition kHttpVersion0_9 : bytes := bstr "HTTP/0.9".
Definition kHttpVersion1_0 : bytes := bstr "HTTP/1.0".
Definition kHttpVersion1_1 : bytes := bstr "HTTP/1.1".

Definition GetHttpVersion (ver : bytes) : HttpVersion :=
  if strcaseeq ver kHttpVersion1_1 then VERSION_1_1
  else if strcaseeq ver kHttpVersion1_0 then VERSION_1_0
  else if strcaseeq ver kHttpVersion0_9 then VERSION_0_9
  else VERSION_UNKNOWN.

Definition GetHttpVersionName (ver : HttpVersion) : bytes :=
  match ver with
  | VERSION_0_9 => kHttpVersion0_9
  | VERSION_1_0 => kHttpVersion1_0
  | VERSION_1_1 => kHttpVersion1_1
  | VERSION_UNKNOWN => bstr "HTTP/unknown"
  end.

(** ** Character classes *)

Definition CHAR_SEPARATOR : Z := 1.
Definition CHAR_LWF : Z := 2.
Definition CHAR_HEX : Z := 4.
Definition CHAR_DEC : Z := 8.
Definition CHAR_OCT : Z := 16.

Definition kSharedCharTypeTable : list Z :=
  let se := CHAR_SEPARATOR in
  let lw := CHAR_LWF in
  let ls := Z.lor CHAR_LWF CHAR_SEPARATOR in
  let he := CHAR_HEX in
  let de := Z.lor CHAR_HEX CHAR_DEC in
  let oc := Z.lor (Z.lor CHAR_HEX CHAR_DEC) CHAR_OCT in
  [
   0; 0; 0; 0; 0; 0; 0; 0; 0; ls; lw; 0; 0; lw; 0; 0;  (* 0x00 - 0x0f *)
   0; 0; 0; 0; 0; 0; 0; 0; 0; 0; 0; 0; 0; 0; 0; 0;  (* 0x10 - 0x1f *)
   ls; 0; se; 0; 0; 0; 0; 0; se; se; 0; 0; se; 0; 0; se;  (* 0x20 - 0x2f *)
   oc; oc; oc; oc; oc; oc; oc; oc; de; de; se; se; se; se; se; se;  (* 0x30 - 0x3f *)
   se; he; he; he; he; he; he; 0; 0; 0; 0; 0; 0; 0; 0; 0;  (* 0x40 - 0x4f *)
   0; 0; 0; 0; 0; 0; 0; 0; 0; 0; 0; se; se; se; 0; 0;  (* 0x50 - 0x5f *)
   0; he; he; he; he; he; he; 0; 0; 0; 0; 0; 0; 0; 0; 0;  (* 0x60 - 0x6f *)
   0; 0; 0; 0; 0; 0; 0; 0; 0; 0; 0; se; se; 0; 0; 0;  (* 0x70 - 0x7f *)
   0; 0; 0; 0; 0; 0; 0; 0; 0; 0; 0; 0; 0; 0; 0; 0;  (* 0x80 - 0x8f *)
   0; 0; 0; 0; 0; 0; 0; 0; 0; 0; 0; 0; 0; 0; 0; 0;  (* 0x90 - 0x9f *)
   0; 0; 0; 0; 0; 0; 0; 0; 0; 0; 0; 0; 0; 0; 0; 0;  (* 0xa0 - 0xaf *)
   0; 0; 0; 0; 0; 0; 0; 0; 0; 0; 0; 0; 0; 0; 0; 0;  (* 0xb0 - 0xbf *)
   0; 0; 0; 0; 0; 0; 0; 0; 0; 0; 0; 0; 0; 0; 0; 0;  (* 0xc0 - 0xcf *)
   0; 0; 0; 0; 0; 0; 0; 0; 0; 0; 0; 0; 0; 0; 0; 0;  (* 0xd0 - 0xdf *)
   0; 0; 0; 0; 0; 0; 0; 0; 0; 0; 0; 0; 0; 0; 0; 0;  (* 0xe0 - 0xef *)
   0; 0; 0; 0; 0; 0; 0; 0; 0; 0; 0; 0; 0; 0; 0; 0  (* 0xf0 - 0xff *)].

Definition IsCharOfType (c : byte) (type : Z) : bool :=
  negb (Z.land (default 0 (kSharedCharTypeTable !! Z.to_nat (uchar c))) type =? 0).

Definition IsCtlChar (c : byte) : bool := (uchar c <=? 31) || (uchar c =? 127).
Definition IsAsciiChar (c : byte) : bool := uchar c <=? 127.
Definition IsWhiteSpace (c : byte) : bool := (uchar c =? 32) || (uchar c =? 9).
Definition IsHexChar (c : byte) : bool := IsCharOfType c CHAR_HEX.
Definition IsSeparatorChar (c : byte) : bool := IsCharOfType c CHAR_SEPARATOR.
Definition IsLwfChar (c : byte) : bool := IsCharOfType c CHAR_LWF.
Definition IsTokenChar (c : byte) : bool :=
  IsAsciiChar c && negb (IsCtlChar c) && negb (IsSeparatorChar c).

(** ** Properties *)

(** The [separators] of the grammar in the header's comment (RFC 2616). *)
Definition rfc2616_separators : bytes :=
  bstr "()<>@,;:\/[]?={}" ++ [Byte.x22; Byte.x20; Byte.x09].

Definition rfc2616_token_char (c : byte) : bool :=
  (uchar c <=? 127) && negb ((uchar c <=? 31) || (uchar c =? 127)) &&
  negb (bool_decide (c ∈ rfc2616_separators)).

(** The character table makes a token character of exactly those of the grammar of RFC
    2616 that the header quotes, but for two: the entry of the closing brace is in the
    place of the bar, so that a bar is refused in field names and a closing brace taken. *)
Theorem token_chars (c : byte) :
  IsTokenChar c = if bool_decide (c = Byte.x7c) then false
                  else if bool_decide (c = Byte.x7d) then true
                  else rfc2616_token_char c.
Proof.
  apply eqb_prop. check_all_bytes c.
Qed.

Lemma IsLwfChar_eq c : IsLwfChar c = (uchar c =? 9) || (uchar c =? 10) || (uchar c =? 13) || (uchar c =? 32).
Proof. apply eqb_prop. check_all_bytes c. Qed.

(** The characters of a token are printable, none is a colon. *)
Lemma token_char_plain c : IsTokenChar c = true ->
  IsLwfChar c = false /\ c <> Byte.x3a /\ c <> NUL /\ c <> Byte.x0d /\ c <> SP.
Proof.
  intros H. assert (Hc : implb (IsTokenChar c) (negb (IsLwfChar c) && negb (bool_decide (c = Byte.x3a))
    && negb (bool_decide (c = NUL)) && negb (bool_decide (c = Byte.x0d)) && negb (bool_decide (c = SP))) = true)
    by check_all_bytes c.
  rewrite H in Hc. cbn in Hc. bool_prop. done.
Qed.

(** Comparing with a constant in capitals. *)
Lemma strcaseeq_capitals s t :
  bool_decide (NUL ∈ t) = false -> toupper <$> t = t ->
  strcaseeq s t = bool_decide (toupper <$> cstr s = t).
Proof.
  intros Hn Ht. bool_prop. unfold strcaseeq. rewrite (cstr_id t) by done.
  apply bool_decide_ext. split; intros H.
  - rewrite <- Ht at 1. rewrite <- (list_fmap_ext (toupper ∘ tolower) toupper (cstr s)),
      <- (list_fmap_ext (toupper ∘ tolower) toupper t) by (intros; apply toupper_tolower).
    by rewrite !list_fmap_compose, H.
  - rewrite <- H. rewrite <- list_fmap_compose. apply list_fmap_ext. intros. symmetry. apply tolower_toupper.
Qed.

(** A reader that finds exactly the names finds none otherwise. *)
Lemma read_unless {A} `{EqDecision A} (u g m : A) (P : A -> Prop) :
  (forall m, m <> u -> (g = m <-> P m)) ->
  (g = m <-> if decide (m = u) then forall m', m' <> u -> ~ P m' else P m).
Proof.
  intros HP. destruct (decide (m = u)) as [->|Hm]; [|by apply HP]. split.
  - intros -> m' Hm' H. by apply (HP m' Hm') in H as <-.
  - intros H. destruct (decide (g = u)) as [|Hg]; [done|]. exfalso. by apply (H g), HP.
Qed.

(** A string is read as a method exactly when it is, in any case of its letters, the
    name of that method, and as a version when it is the name of that version; whatever is
    not a name is read as unknown. *)
Theorem names_read_back (s : bytes) (m : HttpMethod) (v : HttpVersion) :
  (GetHttpMethod s = m <-> if decide (m = METHOD_UNKNOWN)
     then forall m', m' <> METHOD_UNKNOWN -> toupper <$> cstr s <> GetHttpMethodName m'
     else toupper <$> cstr s = GetHttpMethodName m) /\
  (GetHttpVersion s = v <-> if decide (v = VERSION_UNKNOWN)
     then forall v', v' <> VERSION_UNKNOWN -> toupper <$> cstr s <> GetHttpVersionName v'
     else toupper <$> cstr s = GetHttpVersionName v).
Proof.
  split; apply (read_unless _ _ _ (fun m => toupper <$> cstr s = _ m)); clear.
  - destruct s as [|c s]; [by intros []|]. unfold cstr. cbn [take_while]. unfold not_nul at 1.
    destruct (decide (c = NUL)) as [->|Hc]; [by intros []|].
    rewrite bool_decide_false by done. cbn [negb]. fold (cstr s). rewrite fmap_cons.
    intros m' Hm'. cbn [GetHttpMethod]. rewrite !strcaseeq_capitals by done.
    generalize (toupper <$> cstr s) as x, (toupper c) as y. intros x y.
    repeat case_bool_decide; subst; destruct m'; try done; cbn; naive_solver.
  - intros v Hv. unfold GetHttpVersion. rewrite !strcaseeq_capitals by done.
    generalize (toupper <$> cstr s) as x. intros x.
    repeat case_bool_decide; subst; destruct v; try done; cbn; naive_solver.
Qed.

(** In particular every name of a method or of a version is read back. *)
Lemma GetHttpMethod_name m : GetHttpMethod (GetHttpMethodName m) = m.
Proof. by destruct m. Qed.

Lemma GetHttpVersion_name v : GetHttpVersion (GetHttpVersionName v) = v.
Proof. by destruct v. Qed.

End HttpConsts.
