(* ===== verification/HttpHeader.v ===== *)
(** * HttpHeader: [http/http_header.h], [http/http_header.cc]

    The header of an HTTP message: its fields and first line, the incremental parser and
    the printer.  The parser and the printer work on any [ByteStream], so on the memory
    streams of [MemoryStream.v] as well as on a queue.  [None] is a [CHECK] that fails, an
    exception of [std::string] or an access through a null pointer.  The dates (which are
    [strptime] and [strftime]) and the acceptance levels (which are [float]) are left out. *)

From stdpp Require Import sorting.
From S2P Require Import Prelude CString Base64 MemoryStreamSpec ByteStream StrUtil HttpConsts.

Import HttpConsts StrUtil.

Module HttpHeader.

Inductive ParseError :=
  READ_INIT | READ_OK | READ_NO_DATA | READ_BAD_FIELD_SPEC | READ_NO_FIELD
| READ_NO_STATUS_REASON | READ_NO_REQUEST_VERSION | READ_INVALID_STATUS_CODE
| READ_NO_STATUS_CODE | READ_NO_REQUEST_URI.

#[export] Instance ParseError_eq_dec : EqDecision ParseError.
Proof. solve_decision. Defined.

(** The value of the enumerator: the severity. *)
Definition severity (e : ParseError) : Z :=
  match e with
  | READ_INIT => 0 | READ_OK => 1 | READ_NO_DATA => 2 | READ_BAD_FIELD_SPEC => 3
  | READ_NO_FIELD => 4 | READ_NO_STATUS_REASON => 5 | READ_NO_REQUEST_VERSION => 6
  | READ_INVALID_STATUS_CODE => 7 | READ_NO_STATUS_CODE => 8 | READ_NO_REQUEST_URI => 9
  end.

(** [std::max(a, b)] *)
Definition worst (a b : ParseError) : ParseError := if severity a <? severity b then b else a.

Definition ParseErrorName (err : ParseError) : bytes :=
  match err with
  | READ_INIT => bstr "READ_INIT"
  | READ_OK => bstr "READ_OK"
  | READ_NO_DATA => bstr "READ_NO_DATA"
  | READ_BAD_FIELD_SPEC => bstr "READ_BAD_FIELD_SPEC"
  | READ_NO_FIELD => bstr "READ_NO_FIELD"
  | READ_NO_STATUS_REASON => bstr "READ_NO_STATUS_REASON"
  | READ_NO_REQUEST_VERSION => bstr "READ_NO_REQUEST_VERSION"
  | READ_INVALID_STATUS_CODE => bstr "READ_INVALID_STATUS_CODE"
  | READ_NO_STATUS_CODE => bstr "READ_NO_STATUS_CODE"
  | READ_NO_REQUEST_URI => bstr "READ_NO_REQUEST_URI"
  end.

Inductive FirstLineType := UNKNOWN_LINE | REQUEST_LINE | STATUS_LINE | ERROR_LINE.

#[export] Instance FirstLineType_eq_dec : EqDecision FirstLineType.
Proof. solve_decision. Defined.

Definition line_type_value (t : FirstLineType) : Z :=
  match t with UNKNOWN_LINE => 0 | REQUEST_LINE => 1 | STATUS_LINE => 2 | ERROR_LINE => 3 end.

Record Header := mkHeader {
  is_strict_ : bool;
  bytes_parsed_ : Z;
  parse_error_ : ParseError;
  last_parse_error_ : ParseError;
  crt_parsing_field_name_ : bytes;
  crt_parsing_field_content_ : bytes;
  http_version_ : HttpVersion;
  method_ : HttpMethod;
  status_code_ : Z;
  uri_ : bytes;
  reason_ : bytes;
  first_line_type_ : FirstLineType;
  fields_ : gmap bytes bytes;
  verbatim_ : bytes;
}.

Definition with_bytes_parsed (x : Z) (h : Header) : Header :=
  mkHeader (is_strict_ h) x (parse_error_ h) (last_parse_error_ h) (crt_parsing_field_name_ h) (crt_parsing_field_content_ h) (http_version_ h) (method_ h) (status_code_ h) (uri_ h) (reason_ h) (first_line_type_ h) (fields_ h) (verbatim_ h).
Definition with_parse_error (x : ParseError) (h : Header) : Header :=
  mkHeader (is_strict_ h) (bytes_parsed_ h) x (last_parse_error_ h) (crt_parsing_field_name_ h) (crt_parsing_field_content_ h) (http_version_ h) (method_ h) (status_code_ h) (uri_ h) (reason_ h) (first_line_type_ h) (fields_ h) (verbatim_ h).
Definition with_last_parse_error (x : ParseError) (h : Header) : Header :=
  mkHeader (is_strict_ h) (bytes_parsed_ h) (parse_error_ h) x (crt_parsing_field_name_ h) (crt_parsing_field_content_ h) (http_version_ h) (method_ h) (status_code_ h) (uri_ h) (reason_ h) (first_line_type_ h) (fields_ h) (verbatim_ h).
Definition with_crt_parsing_field_name (x : bytes) (h : Header) : Header :=
  mkHeader (is_strict_ h) (bytes_parsed_ h) (parse_error_ h) (last_parse_error_ h) x (crt_parsing_field_content_ h) (http_version_ h) (method_ h) (status_code_ h) (uri_ h) (reason_ h) (first_line_type_ h) (fields_ h) (verbatim_ h).
Definition with_crt_parsing_field_content (x : bytes) (h : Header) : Header :=
  mkHeader (is_strict_ h) (bytes_parsed_ h) (parse_error_ h) (last_parse_error_ h) (crt_parsing_field_name_ h) x (http_version_ h) (method_ h) (status_code_ h) (uri_ h) (reason_ h) (first_line_type_ h) (fields_ h) (verbatim_ h).
Definition with_http_version (x : HttpVersion) (h : Header) : Header :=
  mkHeader (is_strict_ h) (bytes_parsed_ h) (parse_error_ h) (last_parse_error_ h) (crt_parsing_field_name_ h) (crt_parsing_field_content_ h) x (method_ h) (status_code_ h) (uri_ h) (reason_ h) (first_line_type_ h) (fields_ h) (verbatim_ h).
Definition with_method (x : HttpMethod) (h : Header) : Header :=
  mkHeader (is_strict_ h) (bytes_parsed_ h) (parse_error_ h) (last_parse_error_ h) (crt_parsing_field_name_ h) (crt_parsing_field_content_ h) (http_version_ h) x (status_code_ h) (uri_ h) (reason_ h) (first_line_type_ h) (fields_ h) (verbatim_ h).
Definition with_status_code (x : Z) (h : Header) : Header :=
  mkHeader (is_strict_ h) (bytes_parsed_ h) (parse_error_ h) (last_parse_error_ h) (crt_parsing_field_name_ h) (crt_parsing_field_content_ h) (http_version_ h) (method_ h) x (uri_ h) (reason_ h) (first_line_type_ h) (fields_ h) (verbatim_ h).
Definition with_uri (x : bytes) (h : Header) : Header :=
  mkHeader (is_strict_ h) (bytes_parsed_ h) (parse_error_ h) (last_parse_error_ h) (crt_parsing_field_name_ h) (crt_parsing_field_content_ h) (http_version_ h) (method_ h) (status_code_ h) x (reason_ h) (first_line_type_ h) (fields_ h) (verbatim_ h).
Definition with_reason (x : bytes) (h : Header) : Header :=
  mkHeader (is_strict_ h) (bytes_parsed_ h) (parse_error_ h) (last_parse_error_ h) (crt_parsing_field_name_ h) (crt_parsing_field_content_ h) (http_version_ h) (method_ h) (status_code_ h) (uri_ h) x (first_line_type_ h) (fields_ h) (verbatim_ h).
Definition with_first_line_type (x : FirstLineType) (h : Header) : Header :=
  mkHeader (is_strict_ h) (bytes_parsed_ h) (parse_error_ h) (last_parse_error_ h) (crt_parsing_field_name_ h) (crt_parsing_field_content_ h) (http_version_ h) (method_ h) (status_code_ h) (uri_ h) (reason_ h) x (fields_ h) (verbatim_ h).
Definition with_fields (x : gmap bytes bytes) (h : Header) : Header :=
  mkHeader (is_strict_ h) (bytes_parsed_ h) (parse_error_ h) (last_parse_error_ h) (crt_parsing_field_name_ h) (crt_parsing_field_content_ h) (http_version_ h) (method_ h) (status_code_ h) (uri_ h) (reason_ h) (first_line_type_ h) x (verbatim_ h).
Definition with_verbatim (x : bytes) (h : Header) : Header :=
  mkHeader (is_strict_ h) (bytes_parsed_ h) (parse_error_ h) (last_parse_error_ h) (crt_parsing_field_name_ h) (crt_parsing_field_content_ h) (http_version_ h) (method_ h) (status_code_ h) (uri_ h) (reason_ h) (first_line_type_ h) (fields_ h) x.

Definition Header_new (is_strict : bool) : Header :=
  mkHeader is_strict 0 READ_INIT READ_INIT [] [] VERSION_UNKNOWN METHOD_UNKNOWN UNKNOWN [] []
    UNKNOWN_LINE ∅ [].

Definition Clear (h : Header) : Header := Header_new (is_strict_ h).

Definition set_parse_error (error : ParseError) (h : Header) : Header :=
  with_parse_error (worst error (parse_error_ h)) (with_last_parse_error error h).

(** ** Field names and contents *)

Definition normalize_step (should_upcase : bool) (c : byte) : byte * bool :=
  if isalpha c then
    if should_upcase then (if islower c then toupper c else c, false)
    else (if isupper c then tolower c else c, false)
  else (if IsWhiteSpace c then Byte.x2d else c, true).

(** The loop over the characters, up to the first NUL. *)
Fixpoint normalize (should_upcase : bool) (s : bytes) : bytes :=
  match s with
  | [] => []
  | c :: s' =>
      if bool_decide (c = NUL) then s
      else let '(d, up) := normalize_step should_upcase c in d :: normalize up s'
  end.

(** When nothing but LWS characters is in the name, the second loop counts its characters
    off again and the length given to the constructor of [string] is below zero. *)
Definition NormalizeFieldName (field_name : bytes) : option bytes :=
  match field_name with
  | [] => Some []
  | _ =>
      let s := rev (drop_while IsLwfChar (rev field_name)) in
      match s with
      | [] => None
      | _ => Some (normalize true (drop_while IsLwfChar s))
      end
  end.

Definition IsValidFieldName (field_name : bytes) : bool :=
  match field_name with
  | [] => false
  | c :: p => IsTokenChar c && forallb (fun c => IsTokenChar c || IsWhiteSpace c) p
  end.

Definition IsValidFieldContent (field_content : bytes) : bool :=
  forallb (fun c => negb (IsCtlChar c && negb (IsLwfChar c))) field_content.

(** The key a name is stored under: [as_is] asks for the normalisation. *)
Definition field_key (field_name : bytes) (as_is : bool) : option bytes :=
  if as_is then NormalizeFieldName field_name else Some field_name.

(** [field_content] is the memory the pointer leads to, up to its NUL: [field_content_len]
    bounds what is validated, and all of it is stored. *)
Definition AddField_buffer (h : Header) (field_name field_content : bytes) (field_content_len : nat)
    (replace as_is : bool) : option (Header * bool) :=
  if negb (IsValidFieldName field_name) || negb (IsValidFieldContent (take field_content_len (field_content ++ [NUL])))
  then Some (h, false)
  else
    normalized_name ← field_key field_name as_is;
    let fields :=
      match fields_ h !! normalized_name with
      | None => <[normalized_name := cstr field_content]> (fields_ h)
      | Some old =>
          if replace || bool_decide (old = []) then <[normalized_name := cstr field_content]> (fields_ h)
          else <[normalized_name := old ++ bstr ", " ++ cstr field_content]> (fields_ h)
      end in
    Some (with_fields fields h, true).

(** The overloads for a [std::string]. *)
Definition AddField (h : Header) (field_name field_content : bytes) (replace as_is : bool)
    : option (Header * bool) :=
  AddField_buffer h field_name field_content (length field_content) replace as_is.

Definition ClearField (h : Header) (field_name : bytes) (as_is : bool) : option (Header * bool) :=
  normalized_name ← field_key field_name as_is;
  Some (with_fields (delete normalized_name (fields_ h)) h,
        bool_decide (is_Some (fields_ h !! normalized_name))).

Definition FindField (h : Header) (field_name : bytes) : bytes := default [] (fields_ h !! field_name).

Definition HasField (h : Header) (field_name : bytes) : bool :=
  bool_decide (is_Some (fields_ h !! field_name)).

(** The fields in the order of the map. *)
Definition key_le (a b : bytes * bytes) : Prop := bytes_leb a.1 b.1 = true.

#[export] Instance key_le_dec a b : Decision (key_le a b).
Proof. unfold key_le. apply _. Defined.

Definition sorted_fields (m : gmap bytes bytes) : list (bytes * bytes) :=
  merge_sort key_le (map_to_list m).

Fixpoint copy_fields (h : Header) (fields : list (bytes * bytes)) (replace : bool) (num : Z)
    : option (Header * Z) :=
  match fields with
  | [] => Some (h, num)
  | (name, content) :: fields =>
      '(h, r) ← AddField h name content replace false;
      copy_fields h fields replace (if r : bool then num + 1 else num)
  end.

Definition CopyHeaderFields (h src : Header) (replace : bool) : option (Header * Z) :=
  copy_fields h (sorted_fields (fields_ src)) replace 0.

Definition CopyHeaders (h src : Header) (replace : bool) : option (Header * Z) :=
  '(h, num) ← CopyHeaderFields h src replace;
  Some (with_first_line_type (first_line_type_ src) (with_reason (reason_ src) (with_uri (uri_ src)
         (with_status_code (status_code_ src) (with_method (method_ src)
           (with_http_version (http_version_ src) h))))), num).

(** ** The first line *)

Definition PrepareStatusLine (code : Z) (version : HttpVersion) (h : Header) : Header :=
  with_http_version version (with_reason (GetHttpReturnCodeDescription code)
    (with_status_code code (with_first_line_type STATUS_LINE h))).

Definition PrepareRequestLine (uri : bytes) (m : HttpMethod) (version : HttpVersion) (h : Header) : Header :=
  with_http_version version (with_method m (with_uri uri (with_first_line_type REQUEST_LINE h))).

Definition CRLF : bytes := [CR; LF].

Definition ComposeFirstLine (h : Header) : bytes :=
  match first_line_type_ h with
  | REQUEST_LINE =>
      GetHttpMethodName (method_ h) ++ bstr " " ++ uri_ h ++ bstr " " ++
      GetHttpVersionName (http_version_ h) ++ CRLF
  | STATUS_LINE =>
      GetHttpVersionName (http_version_ h) ++ (bstr " " ++ print_int (int32 (status_code_ h)) ++ bstr " ") ++
      reason_ h ++ CRLF
  | t => bstr "--- " ++ print_int (line_type_value t) ++ bstr " UNKNOWN" ++ CRLF
  end.

(** ** Printing and parsing, over any stream *)

Section Stream.
Context {M : Type} `{BS : ByteStream M}.

Fixpoint write_all (io : M) (l : list bytes) : option M :=
  match l with
  | [] => Some io
  | x :: l => io ← bs_Write io x; write_all io l
  end.

Definition field_writes (f : bytes * bytes) : list bytes := [f.1; bstr ": "; f.2; CRLF].

Definition AppendToStream (h : Header) (io : M) : option M :=
  write_all io
    ([ComposeFirstLine h] ++ concat (field_writes <$> sorted_fields (fields_ h)) ++
     (if bool_decide (verbatim_ h = []) then [] else [verbatim_ h]) ++ [CRLF]).

Definition ParseStatusCode (status_code_str : bytes) (h : Header) : Header :=
  let '(v, errno) := strtol status_code_str in
  if errno : bool then with_status_code UNKNOWN (set_parse_error READ_INVALID_STATUS_CODE h)
  else with_status_code (int32 v) h.

Definition is_space (c : byte) : bool := bool_decide (c = SP).

(** What [ReadFirstLine] does with the line, its CR LF cut; [string_find] is [None] for
    [npos], and passing spaces leads at most to the NUL after the end of the line. *)
Definition ParseFirstLine (expected_first_line : FirstLineType) (line : bytes) (h : Header) : Header :=
  let request := bool_decide (expected_first_line = REQUEST_LINE) in
  match find_sub [SP] line with
  | None =>
      let h := with_first_line_type ERROR_LINE h in
      if request then with_method (GetHttpMethod (cstr line)) (set_parse_error READ_NO_REQUEST_URI h)
      else with_http_version (GetHttpVersion (cstr line)) (set_parse_error READ_NO_STATUS_CODE h)
  | Some method_pos =>
      let first := take method_pos line in
      let h := if request then with_method (GetHttpMethod (cstr first)) h
               else with_http_version (GetHttpVersion (cstr first)) h in
      let line := drop_while is_space (drop method_pos line) in
      match find_sub [SP] line with
      | None =>
          let h := with_first_line_type ERROR_LINE h in
          if request then with_uri line (set_parse_error READ_NO_REQUEST_VERSION h)
          else
            let h := if version_value (http_version_ h) <=? version_value VERSION_1_0
                     then with_first_line_type expected_first_line h
                     else set_parse_error READ_NO_STATUS_REASON h in
            ParseStatusCode line h
      | Some uri_pos =>
          let second := take uri_pos line in
          let h := if request then with_uri second h else ParseStatusCode second h in
          let line := drop_while is_space (drop uri_pos line) in
          let h := if request then with_http_version (GetHttpVersion (cstr line)) h
                   else with_reason line h in
          with_first_line_type expected_first_line h
      end
  end.

(** The line without its last two characters. *)
Definition cut_crlf (line : bytes) : bytes := take (length line - 2) line.

Definition ReadFirstLine (h : Header) (io : M) (expected_first_line : FirstLineType)
    : option (Header * M * bool) :=
  '(io, r) ← bs_ReadCRLFLine io;
  match r with
  | None => Some (set_parse_error READ_NO_DATA h, io, false)
  | Some line =>
      let h := with_bytes_parsed (bytes_parsed_ h + zlen line) h in
      Some (ParseFirstLine expected_first_line (cut_crlf line) h, io, true)
  end.

Definition AddCrtParsingData (h : Header) : option (Header * bool) :=
  let name := crt_parsing_field_name_ h in
  let content := crt_parsing_field_content_ h in
  '(h, ret) ←
    (if bool_decide (name = []) then Some (h, true)
     else
       let ret := IsValidFieldName name && IsValidFieldContent content in
       let h := if ret then h else set_parse_error READ_BAD_FIELD_SPEC h in
       if negb (is_strict_ h) || ret then
         normalized_name ← NormalizeFieldName name;
         let fields :=
           match fields_ h !! normalized_name with
           | None => <[normalized_name := content]> (fields_ h)
           | Some old => <[normalized_name := old ++ bstr ", " ++ content]> (fields_ h)
           end in
         Some (with_fields fields h, ret)
       else Some (h, ret));
  Some (with_crt_parsing_field_content [] (with_crt_parsing_field_name [] h), ret).

(** What the loop of [ReadHeaderFields] does with a line that is not empty. *)
Definition ParseFieldLine (line : bytes) (h : Header) : option Header :=
  let after_lwf := drop_while IsLwfChar line in
  if (length after_lwf <? length line)%nat then
    if bool_decide (crt_parsing_field_name_ h = []) then Some (set_parse_error READ_NO_FIELD h)
    else Some (with_crt_parsing_field_content
                 (crt_parsing_field_content_ h ++ bstr " " ++ after_lwf) h)
  else
    '(h, _) ← AddCrtParsingData h;
    match find_sub [Byte.x3a] line with
    | None => Some (set_parse_error READ_NO_FIELD h)
    | Some field_pos =>
        Some (with_crt_parsing_field_content (drop_while IsLwfChar (drop (field_pos + 1) line))
               (with_crt_parsing_field_name (take field_pos line) h))
    end.

Definition ReadHeaderFields_step (x : Header * M) : option (Header * M + Header * M * bool) :=
  let '(h, io) := x in
  '(io, r) ← bs_ReadCRLFLine io;
  match r with
  | None => Some (inr (set_parse_error READ_NO_DATA h, io, false))
  | Some line =>
      let h := with_bytes_parsed (bytes_parsed_ h + zlen line) h in
      let line := cut_crlf line in
      if bool_decide (line = []) then
        '(h, ok) ← AddCrtParsingData h;
        Some (inr (if ok : bool then set_parse_error READ_OK h else h, io, true))
      else
        h ← ParseFieldLine line h;
        Some (inl (h, io))
  end.

Definition ReadHeaderFields (h : Header) (io : M) : option (Header * M * bool) :=
  loop ReadHeaderFields_step (S (Z.to_nat (bs_Size io))) (h, io).

Definition ParseHeader (h : Header) (io : M) (expected_first_line : FirstLineType)
    : option (Header * M * bool) :=
  _ ← CHECK (negb (bool_decide (last_parse_error_ h = READ_OK)));
  if bytes_parsed_ h =? 0 then
    _ ← CHECK (bool_decide (parse_error_ h = READ_INIT) || bool_decide (parse_error_ h = READ_NO_DATA));
    '(h, io, r) ← ReadFirstLine h io expected_first_line;
    if negb r then Some (h, io, false) else ReadHeaderFields h io
  else
    _ ← CHECK (negb (bool_decide (parse_error_ h = READ_INIT)));
    ReadHeaderFields h io.

Definition ParseHttpRequest (h : Header) (io : M) := ParseHeader h io REQUEST_LINE.
Definition ParseHttpReply (h : Header) (io : M) := ParseHeader h io STATUS_LINE.
End Stream.

(** [ToString]: the stream is a fresh one. *)
Definition ToString (h : Header) : option bytes := AppendToStream h ([] : bytes).

(** ** Utilities *)

Definition kMaxInt64 : Z := 2 ^ 63 - 1.

Definition DefaultBodyLen (h : Header) : Z :=
  match first_line_type_ h with
  | REQUEST_LINE =>
      if bool_decide (method_ h = METHOD_PUT) || bool_decide (method_ h = METHOD_POST)
      then kMaxInt64 else 0
  | STATUS_LINE => kMaxInt64
  | _ => 0
  end.

Definition kChunked : bytes := bstr "chunked".
Definition kGzip : bytes := bstr "gzip".
Definition kDeflate : bytes := bstr "deflate".

(** [StrCasePrefix(StrTrim(FindField(name)).c_str(), prefix)] *)
Definition field_has_prefix (h : Header) (name prefix : bytes) : option bool :=
  s ← StrTrim (FindField h name);
  Some (StrCasePrefix (cstr s) prefix).

Definition IsChunkedTransfer (h : Header) : option bool := field_has_prefix h kHeaderTransferEncoding kChunked.
Definition IsGzipContentEncoding (h : Header) : option bool := field_has_prefix h kHeaderContentEncoding kGzip.
Definition IsDeflateContentEncoding (h : Header) : option bool := field_has_prefix h kHeaderContentEncoding kDeflate.
Definition IsKeepAliveConnection (h : Header) : option bool := field_has_prefix h kHeaderConnection (bstr "keep-alive").

Definition SetChunkedTransfer (is_chunked : bool) (h : Header) : option Header :=
  if is_chunked then '(h, _) ← AddField h kHeaderTransferEncoding kChunked true false; Some h
  else '(h, _) ← ClearField h kHeaderTransferEncoding false; Some h.

(** [None] is the null pointer. *)
Definition SetContentEncoding (encoding : option bytes) (h : Header) : option Header :=
  match encoding with
  | Some encoding => '(h, _) ← AddField h kHeaderContentEncoding encoding true false; Some h
  | None => '(h, _) ← ClearField h kHeaderContentEncoding false; Some h
  end.

Definition IsZippableContentType (h : Header) : bool :=
  match fields_ h !! kHeaderContentType with
  | None => false
  | Some s => StrCasePrefix (cstr s) (bstr "text/") || StrCasePrefix (cstr s) (bstr "application/")
  end.

Definition SetAuthorizationField (user passwd : bytes) (h : Header) : option (Header * bool) :=
  match find_sub [Byte.x3a] user with
  | Some _ => Some (h, false)
  | None =>
      let to_encode := user ++ bstr ":" ++ passwd in
      let buflen := 2 * zlen to_encode + 4 in
      AddField h kHeaderAuthorization (bstr "Basic " ++ Base64.EncodeAll (int32 buflen) to_encode) true false
  end.

(** The user and the password, [Some None] when the answer is [false].  [strchr] of a blank
    gives a null pointer when the field has none after its leading white space, and the
    length computed from it is that of an address. *)
Definition GetAuthorizationField (stale : byte) (h : Header) : option (option (bytes * bytes)) :=
  match fields_ h !! kHeaderAuthorization with
  | None => Some None
  | Some s =>
      if bool_decide (s = []) then Some None
      else
        let blanks := (length s - length (drop_while isspace s))%nat in
        pos ← find_sub [SP] (cstr (drop blanks s));
        let p := drop (blanks + pos) s in
        let decoded := Base64.Decode stale p in
        if bool_decide (decoded = []) then Some None
        else
          match find_sub [Byte.x3a] (cstr decoded) with
          | None => Some None
          | Some colon => Some (Some (take colon decoded, drop (colon + 1) decoded))
          end
  end.

End HttpHeader.
