(* ===== verification/HttpHeaderSpec.v ===== *)
(** * The parser of HTTP headers, line by line

    The parser over any stream does what it does over the queue of the bytes the stream
    holds ([ParseHeader_stream]); over a queue it is total and is given by an equation that
    takes one line at a time ([ReadHeaderFields_eq]).  The last part relates runs that
    differ only in the errors noted ([sim]), with which the parsing of a message in pieces
    is shown to be that of the whole. *)

From S2P Require Import Prelude CString MemoryStreamSpec ByteStream HttpConsts HttpHeader.

Import HttpConsts HttpHeader.

(** ** Lines *)

Lemma crlf_line_unique l rest : no_crlf (l ++ [CR]) -> crlf_line (l ++ CRLF ++ rest) = Some (l ++ CRLF).
Proof.
  intros Hl. pose proof (crlf_line_spec (l ++ CRLF ++ rest)) as H.
  destruct (crlf_line (l ++ CRLF ++ rest)) as [s|]; [|by destruct (H l rest)].
  destruct H as (l' & rest' & E & -> & Hl'). do 2 f_equal.
  apply app_eq_inv in E as [(k & -> & E)|(k & -> & E)].
  - destruct k as [|x [|y k]]; [by rewrite app_nil_r|done|].
    injection E as <- <- _. destruct (Hl l' (k ++ [CR])). by rewrite <- !app_assoc.
  - destruct k as [|x [|y k]]; [by rewrite app_nil_r|done|].
    injection E as <- <- _. destruct (Hl' l (k ++ [CR])). by rewrite <- !app_assoc.
Qed.

Lemma crlf_line_Some c line : crlf_line c = Some line ->
  exists l rest, c = l ++ CRLF ++ rest /\ line = l ++ CRLF /\ no_crlf (l ++ [CR]).
Proof. intros E. pose proof (crlf_line_spec c) as H. by rewrite E in H. Qed.

(** A line stays the first one when more comes after it. *)
Lemma crlf_line_app c line c' : crlf_line c = Some line -> crlf_line (c ++ c') = Some line.
Proof.
  intros E. apply crlf_line_Some in E as (l & rest & -> & -> & Hl).
  rewrite <- !app_assoc. by apply crlf_line_unique.
Qed.

Lemma crlf_line_drop c line : crlf_line c = Some line ->
  c = line ++ dropZ (zlen line) c /\ cut_crlf line ++ CRLF = line /\ 2 <= zlen line.
Proof.
  intros E. apply crlf_line_Some in E as (l & rest & -> & -> & Hl). rewrite app_assoc.
  rewrite dropZ_app_r, Z.sub_diag, dropZ_0 by lia. split; [done|]. unfold cut_crlf.
  rewrite length_app. simpl. replace (length l + 2 - 2)%nat with (length l) by lia.
  rewrite take_app_length, zlen_app. pose proof (zlen_nonneg l). split; [done|].
  change (zlen CRLF) with 2. lia.
Qed.

Lemma cut_crlf_app l : cut_crlf (l ++ CRLF) = l.
Proof.
  unfold cut_crlf. rewrite length_app. simpl. replace (length l + 2 - 2)%nat with (length l) by lia.
  apply take_app_length.
Qed.

(** ** Any stream *)

Section Stream.
Context {M : Type} `{BS : ByteStream M}.

(** The same outcome, the stream holding what is left of the queue. *)
Definition same_outcome (r : option (Header * M * bool)) (q : option (Header * bytes * bool)) : Prop :=
  match q with
  | Some (h, c, b) => exists m, r = Some (h, m, b) /\ holds m c
  | None => r = None
  end.

Lemma ReadHeaderFields_step_stream h (m : M) c : holds m c ->
  match ReadHeaderFields_step (h, c) with
  | Some (inl (h', c')) => exists m', ReadHeaderFields_step (h, m) = Some (inl (h', m')) /\ holds m' c'
  | Some (inr (h', c', b)) =>
      exists m', ReadHeaderFields_step (h, m) = Some (inr (h', m', b)) /\ holds m' c'
  | None => ReadHeaderFields_step (h, m) = None
  end.
Proof.
  intros Hm. unfold ReadHeaderFields_step. destruct (bs_ReadCRLFLine_law m c Hm) as (m' & -> & Hm').
  cbn [bs_ReadCRLFLine queue_stream mbind option_bind].
  destruct (crlf_line c) as [line|] eqn:E; cbn [default] in *; [|by eexists].
  case_bool_decide.
  - destruct (AddCrtParsingData _) as [[h' ok]|]; [|done]. cbn [mbind option_bind]. by eexists.
  - destruct (ParseFieldLine _ _) as [h'|]; [|done]. cbn [mbind option_bind]. by eexists.
Qed.

Lemma ReadHeaderFields_loop_stream fuel h (m : M) c : holds m c ->
  same_outcome (loop ReadHeaderFields_step fuel (h, m)) (loop ReadHeaderFields_step fuel (h, c)).
Proof.
  revert h m c. induction fuel as [|fuel IH]; intros h m c Hm; [done|]. rewrite !loop_S.
  pose proof (ReadHeaderFields_step_stream h m c Hm) as Hs.
  destruct (ReadHeaderFields_step (h, c)) as [[[h' c']|[[h' c'] b]]|];
    [destruct Hs as (m' & -> & Hm')..|by rewrite Hs]; cbn [mbind option_bind]; [by apply IH|by eexists].
Qed.

Lemma ReadHeaderFields_stream h (m : M) c : holds m c ->
  same_outcome (ReadHeaderFields h m) (ReadHeaderFields h c).
Proof.
  intros Hm. unfold ReadHeaderFields. rewrite (bs_Size_law m c Hm). by apply ReadHeaderFields_loop_stream.
Qed.

Lemma ParseHeader_stream h (m : M) c t : holds m c ->
  same_outcome (ParseHeader h m t) (ParseHeader h c t).
Proof.
  intros Hm. unfold ParseHeader.
  destruct (bool_decide (last_parse_error_ h = READ_OK)); [done|]. cbn [negb CHECK mbind option_bind].
  destruct (bytes_parsed_ h =? 0).
  - destruct (CHECK (_ || _)); [|done]. cbn [mbind option_bind]. unfold ReadFirstLine.
    destruct (bs_ReadCRLFLine_law m c Hm) as (m' & -> & Hm').
    cbn [bs_ReadCRLFLine queue_stream mbind option_bind].
    destruct (crlf_line c) as [line|] eqn:E; cbn [default negb mbind option_bind] in *; [|by eexists].
    by apply ReadHeaderFields_stream.
  - destruct (bool_decide (parse_error_ h = READ_INIT)); [done|]. by apply ReadHeaderFields_stream.
Qed.

Lemma write_all_stream (m : M) c l : holds m c -> bs_room (c ++ concat l) ->
  exists m', write_all m l = Some m' /\ holds m' (c ++ concat l).
Proof.
  revert m c. induction l as [|x l IH]; intros m c Hm Hr; cbn [write_all concat] in *.
  - rewrite app_nil_r. eauto.
  - rewrite app_assoc in Hr |- *.
    destruct (bs_Write_law m c x Hm (bs_room_prefix _ _ Hr)) as (m1 & -> & H1). by apply IH.
Qed.
End Stream.

(** ** The parser over a queue is total *)

(** The name being read does not start with white space. *)
Definition name_ok (h : Header) : Prop := starts_not IsLwfChar (crt_parsing_field_name_ h).

Lemma NormalizeFieldName_total name : starts_not IsLwfChar name -> exists n, NormalizeFieldName name = Some n.
Proof.
  intros Hn. destruct name as [|c s]; [by eexists|]. unfold NormalizeFieldName.
  destruct (drop_while_suffix IsLwfChar (rev (c :: s))) as (a & Ha & Hl).
  destruct (rev (drop_while _ (rev (c :: s)))) as [|x s'] eqn:E; [|by eexists]. exfalso.
  assert (E' : drop_while IsLwfChar (rev (c :: s)) = []) by (by apply (f_equal (@rev byte)) in E; rewrite rev_involutive in E).
  rewrite E', app_nil_r in Ha. rewrite <- Ha in Hl. rewrite forallb_forall in Hl.
  cbn in Hn. rewrite Hl in Hn; [done|]. apply in_rev. rewrite rev_involutive. by left.
Qed.

Lemma AddCrtParsingData_total h : name_ok h -> exists h' b, AddCrtParsingData h = Some (h', b) /\
  crt_parsing_field_name_ h' = [].
Proof.
  intros Hn. unfold AddCrtParsingData. case_bool_decide; cbn [mbind option_bind]; [by do 2 eexists|].
  destruct (NormalizeFieldName_total _ Hn) as (n & HN). rewrite HN.
  destruct (_ && _), (is_strict_ h) eqn:Es; cbn; rewrite ?Es; cbn; by do 2 eexists.
Qed.

Lemma ParseFieldLine_total h line : name_ok h -> line <> [] ->
  exists h', ParseFieldLine line h = Some h' /\ name_ok h'.
Proof.
  intros Hn Hl. unfold ParseFieldLine. destruct (Nat.ltb_spec (length (drop_while IsLwfChar line)) (length line)).
  - case_bool_decide; by eexists.
  - destruct (AddCrtParsingData_total h Hn) as (h' & b & -> & Hh'). cbn [mbind option_bind].
    destruct (find_sub _ _) as [i|]; (eexists; split; [done|]); unfold name_ok; cbn.
    + destruct line as [|c line]; [done|]. destruct i; [done|]. cbn in *.
      destruct (IsLwfChar c); [|done]. exfalso.
      destruct (drop_while_suffix IsLwfChar line) as (a & Ha & _). apply (f_equal length) in Ha.
      rewrite length_app in Ha. lia.
    + by rewrite Hh'.
Qed.

Lemma ReadHeaderFields_total h (c : bytes) : name_ok h ->
  exists r, ReadHeaderFields h c = Some r.
Proof.
  intros Hn. unfold ReadHeaderFields. cbn [bs_Size queue_stream].
  edestruct (loop_total ReadHeaderFields_step (fun x => name_ok x.1) (fun _ => True) (fun x => length x.2))
    with (fuel := S (Z.to_nat (zlen c))) (s := (h, c)) as (r & Hr & _);
    [|done|cbn; unfold zlen; lia|by eexists].
  clear h c Hn. intros [h c] Hn. cbn [fst snd] in *. unfold ReadHeaderFields_step.
  cbn [bs_ReadCRLFLine queue_stream mbind option_bind].
  destruct (crlf_line c) as [line|] eqn:E; [|by eexists]. case_bool_decide as Hl.
  - destruct (AddCrtParsingData_total (with_bytes_parsed (bytes_parsed_ h + zlen line) h)) as (h' & b & -> & _); [done|].
    by eexists.
  - destruct (ParseFieldLine_total (with_bytes_parsed (bytes_parsed_ h + zlen line) h) (cut_crlf line))
      as (h' & -> & Hh'); [done..|]. eexists; split; [done|]. split; [done|].
    destruct (crlf_line_drop _ _ E) as (Hc & _ & Hlen). cbn [snd default id]. apply (f_equal zlen) in Hc.
    rewrite zlen_app in Hc. unfold zlen in *. lia.
Qed.

(** One line at a time. *)
Lemma ReadHeaderFields_eq h (c : bytes) : name_ok h ->
  ReadHeaderFields h c =
  match crlf_line c with
  | None => Some (set_parse_error READ_NO_DATA h, c, false)
  | Some line =>
      let c := dropZ (zlen line) c in
      let h := with_bytes_parsed (bytes_parsed_ h + zlen line) h in
      let line := cut_crlf line in
      if bool_decide (line = []) then
        '(h, ok) ← AddCrtParsingData h;
        Some (if ok : bool then set_parse_error READ_OK h else h, c, true)
      else
        h ← ParseFieldLine line h;
        ReadHeaderFields h c
  end.
Proof.
  intros Hn. unfold ReadHeaderFields at 1. rewrite loop_S. cbn [ReadHeaderFields_step].
  cbn [bs_ReadCRLFLine bs_Size queue_stream mbind option_bind].
  destruct (crlf_line c) as [line|] eqn:E; cbn [default].
  2: { change (zlen []) with 0. by rewrite dropZ_0. }
  case_bool_decide as Hl; cbn zeta.
  - by destruct (AddCrtParsingData _) as [[h' b]|].
  - destruct (ParseFieldLine_total (with_bytes_parsed (bytes_parsed_ h + zlen line) h) (cut_crlf line))
      as (h' & -> & Hh'); [done..|]. cbn [mbind option_bind].
    destruct (ReadHeaderFields_total h' (dropZ (zlen line) c) Hh') as (r & Hr). rewrite Hr.
    unfold ReadHeaderFields in Hr. eapply loop_mono; [exact Hr|]. cbn [bs_Size queue_stream].
    destruct (crlf_line_drop _ _ E) as (Hc & _ & Hlen). apply (f_equal zlen) in Hc.
    rewrite zlen_app in Hc. unfold zlen in *. lia.
Qed.

(** ** Runs that differ in the errors noted *)

(** [h] with a missing end noted in its worst error, and any last error. *)
Definition noted (e : ParseError) (h : Header) : Header :=
  with_last_parse_error e (with_parse_error (worst READ_NO_DATA (parse_error_ h)) h).

Definition note (h : Header) : Header := with_parse_error (worst READ_NO_DATA (parse_error_ h)) h.

Lemma noted_last h : noted (last_parse_error_ h) h = note h.
Proof. by destruct h. Qed.

Lemma note_note h : note (note h) = note h.
Proof. destruct h as [? ? p]. by destruct p. Qed.

Lemma set_noted x e h : set_parse_error x (noted e h) = noted x (set_parse_error x h).
Proof. destruct h as [? ? p]. by destruct x, p. Qed.

Lemma set_no_data h : set_parse_error READ_NO_DATA h = noted READ_NO_DATA h.
Proof. done. Qed.

Lemma ParseStatusCode_noted s e h : exists e', ParseStatusCode s (noted e h) = noted e' (ParseStatusCode s h).
Proof.
  unfold ParseStatusCode. destruct (strtol s) as [v []]; [|by exists e].
  rewrite set_noted. by eexists.
Qed.

Lemma ParseFirstLine_noted t line e h :
  exists e', ParseFirstLine t line (noted e h) = noted e' (ParseFirstLine t line h).
Proof.
  unfold ParseFirstLine. destruct (find_sub [SP] line) as [i|].
  2: { destruct h as [? ? p]. case_bool_decide; eexists; by destruct p. }
  destruct (find_sub [SP] (drop_while _ _)) as [j|].
  - case_bool_decide; [by exists e|].
    match goal with |- context [ParseStatusCode ?s (with_http_version ?v (noted e h))] =>
      destruct (ParseStatusCode_noted s e (with_http_version v h)) as [e' He];
      exists e'; change (with_http_version v (noted e h)) with (noted e (with_http_version v h)); by rewrite He end.
  - case_bool_decide.
    + destruct h as [? ? p]. eexists. by destruct p.
    + match goal with |- context [ParseStatusCode ?s _] => set (str := s) end. cbn [http_version_ with_first_line_type with_http_version noted with_last_parse_error with_parse_error].
      destruct (_ <=? _).
      * match goal with |- exists e', ParseStatusCode _ _ = noted e' (ParseStatusCode _ ?x) =>
          exact (ParseStatusCode_noted str e x) end.
      * match goal with |- exists e', ParseStatusCode _ _ = noted e' (ParseStatusCode _ (set_parse_error ?x ?y)) =>
          destruct (ParseStatusCode_noted str x (set_parse_error x y)) as [e' He]; rewrite <- (set_noted x e y) in He;
          exists e'; exact He end.
Qed.

Lemma AddCrtParsingData_noted e h h' ok : AddCrtParsingData h = Some (h', ok) ->
  exists e', AddCrtParsingData (noted e h) = Some (noted e' h', ok) /\
    (ok = false -> e' = last_parse_error_ h').
Proof.
  unfold AddCrtParsingData. cbn [crt_parsing_field_name_ crt_parsing_field_content_ noted with_last_parse_error with_parse_error].
  case_bool_decide; [intros [= <- <-]; by exists e|].
  destruct (_ && _) eqn:Ev.
  - cbn [is_strict_ noted with_last_parse_error with_parse_error]. rewrite !orb_true_r.
    destruct (NormalizeFieldName _) as [n|]; [|done]. intros [= <- <-]. by exists e.
  - change (with_last_parse_error e (with_parse_error (worst READ_NO_DATA (parse_error_ h)) h)) with (noted e h).
    rewrite set_noted.
    cbn [is_strict_ noted with_last_parse_error with_parse_error set_parse_error]. rewrite !orb_false_r.
    destruct (negb (is_strict_ h)).
    + destruct (NormalizeFieldName _) as [n|]; [|done]. intros [= <- <-]. by eexists.
    + intros [= <- <-]. by eexists.
Qed.

Lemma ParseFieldLine_noted line e h h' : ParseFieldLine line h = Some h' ->
  exists e', ParseFieldLine line (noted e h) = Some (noted e' h').
Proof.
  unfold ParseFieldLine. destruct (_ <? _)%nat.
  - cbn [crt_parsing_field_name_ noted with_last_parse_error with_parse_error].
    case_bool_decide; intros [= <-]; [|by exists e].
    change (with_last_parse_error e (with_parse_error (worst READ_NO_DATA (parse_error_ h)) h)) with (noted e h).
    rewrite set_noted. by eexists.
  - destruct (AddCrtParsingData h) as [[h1 b]|] eqn:E; [|done]. cbn [mbind option_bind].
    destruct (AddCrtParsingData_noted e h h1 b E) as (e' & -> & _). cbn [mbind option_bind].
    destruct (find_sub _ _) as [i|]; intros [= <-]; [by exists e'|]. rewrite set_noted. by eexists.
Qed.

Lemma name_ok_noted e h : name_ok (noted e h) <-> name_ok h.
Proof. done. Qed.

Lemma ReadHeaderFields_noted e h (c : bytes) h' c' b : name_ok h ->
  ReadHeaderFields h c = Some (h', c', b) -> ReadHeaderFields (noted e h) c = Some (note h', c', b).
Proof.
  remember (length c) as n eqn:Hn. revert c Hn e h.
  induction n as [n IH] using lt_wf_ind. intros c Hn e h Hok. rewrite !ReadHeaderFields_eq by done.
  destruct (crlf_line c) as [line|] eqn:E.
  2: { intros [= <- <- <-]. rewrite set_noted, <- noted_last. done. }
  cbn zeta. change (with_bytes_parsed (bytes_parsed_ (noted e h) + zlen line) (noted e h))
    with (noted e (with_bytes_parsed (bytes_parsed_ h + zlen line) h)).
  assert (Hok' : name_ok (with_bytes_parsed (bytes_parsed_ h + zlen line) h)) by done.
  generalize dependent (with_bytes_parsed (bytes_parsed_ h + zlen line) h). clear Hok h. intros h Hok.
  case_bool_decide as Hl.
  - destruct (AddCrtParsingData h) as [[h1 ok]|] eqn:Ea; [|done]. cbn [mbind option_bind].
    destruct (AddCrtParsingData_noted e h h1 ok Ea) as (e' & -> & He'). cbn [mbind option_bind].
    destruct ok; intros [= <- <- <-]; do 3 f_equal.
    + by rewrite set_noted, <- noted_last.
    + by rewrite He', noted_last.
  - destruct (ParseFieldLine_total h (cut_crlf line) Hok Hl) as (h1 & E1 & Hok1).
    destruct (ParseFieldLine_noted _ e _ _ E1) as (e' & ->). rewrite E1. cbn [mbind option_bind].
    eapply IH; [|done|done]. subst n. destruct (crlf_line_drop _ _ E) as (Hc & _ & Hlen).
    apply (f_equal zlen) in Hc. rewrite zlen_app in Hc. unfold zlen in *. lia.
Qed.

(** ** A message in two pieces *)

(** What [ParseHeader] checks, and what it relies on. *)
Definition ready (h : Header) : Prop :=
  name_ok h /\ last_parse_error_ h <> READ_OK /\ 0 <= bytes_parsed_ h /\
  (if bytes_parsed_ h =? 0 then parse_error_ h = READ_INIT \/ parse_error_ h = READ_NO_DATA
   else parse_error_ h <> READ_INIT).

Lemma Header_new_ready strict : ready (Header_new strict).
Proof. repeat split; try done. by left. Qed.

(** [ParseHeader] without the checks. *)
Lemma ParseHeader_ready h (c : bytes) t : ready h ->
  ParseHeader h c t =
  if bytes_parsed_ h =? 0 then
    match crlf_line c with
    | None => Some (set_parse_error READ_NO_DATA h, c, false)
    | Some line =>
        ReadHeaderFields (ParseFirstLine t (cut_crlf line) (with_bytes_parsed (bytes_parsed_ h + zlen line) h))
          (dropZ (zlen line) c)
    end
  else ReadHeaderFields h c.
Proof.
  intros (_ & Hl & _ & Hp). unfold ParseHeader.
  rewrite (bool_decide_false (last_parse_error_ h = READ_OK)) by done.
  cbn [negb CHECK mbind option_bind]. destruct (bytes_parsed_ h =? 0).
  - assert (bool_decide (parse_error_ h = READ_INIT) || bool_decide (parse_error_ h = READ_NO_DATA) = true) as ->.
    { apply orb_true_iff. rewrite !bool_decide_eq_true. done. }
    cbn [CHECK mbind option_bind]. unfold ReadFirstLine. cbn [bs_ReadCRLFLine queue_stream mbind option_bind].
    destruct (crlf_line c) as [line|]; cbn [mbind option_bind negb default]; [done|].
    change (zlen []) with 0. by rewrite dropZ_0.
  - by rewrite (bool_decide_false (parse_error_ h = READ_INIT)) by done.
Qed.

Lemma name_ok_ParseFirstLine t line h : name_ok h -> name_ok (ParseFirstLine t line h).
Proof.
  intros Hn. unfold ParseFirstLine, ParseStatusCode.
  repeat (case_match || case_bool_decide); done.
Qed.

Lemma ParseHeader_total h (c : bytes) t : ready h -> exists r, ParseHeader h c t = Some r.
Proof.
  intros Hr. rewrite ParseHeader_ready by done. destruct Hr as (Hn & _).
  destruct (_ =? 0); [|by apply ReadHeaderFields_total].
  destruct (crlf_line c); [|by eexists]. apply ReadHeaderFields_total. by apply name_ok_ParseFirstLine.
Qed.

(** The header after a run that ended for lack of data. *)
Definition interrupted (h h1 : Header) : Prop :=
  name_ok h1 /\ last_parse_error_ h1 = READ_NO_DATA /\ parse_error_ h1 <> READ_INIT /\
  bytes_parsed_ h <= bytes_parsed_ h1.

Lemma set_no_data_not_init h : parse_error_ (set_parse_error READ_NO_DATA h) <> READ_INIT.
Proof. destruct h as [? ? p]. by destruct p. Qed.

Lemma bytes_parsed_AddCrtParsingData h h' b : AddCrtParsingData h = Some (h', b) -> bytes_parsed_ h' = bytes_parsed_ h.
Proof.
  unfold AddCrtParsingData. case_bool_decide; [by intros [= <- _]|].
  destruct (NormalizeFieldName _), (_ && _), (is_strict_ h) eqn:Es; cbn; rewrite ?Es; cbn; by intros [= <- _].
Qed.

Lemma bytes_parsed_ParseFieldLine line h h' : ParseFieldLine line h = Some h' -> bytes_parsed_ h' = bytes_parsed_ h.
Proof.
  unfold ParseFieldLine. destruct (_ <? _)%nat; [case_bool_decide; by intros [= <-]|].
  destruct (AddCrtParsingData h) as [[h1 b]|] eqn:E; [|done]. apply bytes_parsed_AddCrtParsingData in E.
  cbn [mbind option_bind]. destruct (find_sub _ _); by intros [= <-].
Qed.

Lemma ReadHeaderFields_app h (c1 c2 : bytes) h1 r1 b1 : name_ok h ->
  ReadHeaderFields h c1 = Some (h1, r1, b1) ->
  if b1 then ReadHeaderFields h (c1 ++ c2) = Some (h1, r1 ++ c2, true)
  else interrupted h h1 /\
    forall h2 r2 b2, ReadHeaderFields h (c1 ++ c2) = Some (h2, r2, b2) ->
      ReadHeaderFields h1 (r1 ++ c2) = Some (note h2, r2, b2).
Proof.
  remember (length c1) as n eqn:Hn. revert c1 Hn h.
  induction n as [n IH] using lt_wf_ind. intros c1 Hn h Hok H. rewrite ReadHeaderFields_eq in H by done.
  destruct (crlf_line c1) as [line|] eqn:E.
  2: { injection H as <- <- <-. split.
       - split_and!; [done..|apply set_no_data_not_init|done].
       - intros h2 r2 b2 H2. rewrite set_no_data. by apply ReadHeaderFields_noted. }
  destruct (crlf_line_drop _ _ E) as (Hc & _ & Hlen).
  assert (Hdrop : dropZ (zlen line) (c1 ++ c2) = dropZ (zlen line) c1 ++ c2).
  { apply dropZ_app_l. rewrite Hc, zlen_app. pose proof (zlen_nonneg (dropZ (zlen line) c1)). lia. }
  rewrite (ReadHeaderFields_eq h (c1 ++ c2)), (crlf_line_app _ _ c2 E), Hdrop by done. cbn zeta in *.
  set (h0 := with_bytes_parsed _ h) in *. assert (Hok0 : name_ok h0) by done.
  case_bool_decide as Hl.
  - destruct (AddCrtParsingData h0) as [[h' ok]|]; [|done]. cbn [mbind option_bind] in *.
    by injection H as <- <- <-.
  - destruct (ParseFieldLine_total h0 (cut_crlf line) Hok0 Hl) as (h' & E' & Hok').
    rewrite E' in *. cbn [mbind option_bind] in *. apply bytes_parsed_ParseFieldLine in E'.
    specialize (IH (length (dropZ (zlen line) c1))) with (c1 := dropZ (zlen line) c1) (h := h').
    assert (Hlt : (length (dropZ (zlen line) c1) < n)%nat).
    { subst n. apply (f_equal zlen) in Hc. rewrite zlen_app in Hc. unfold zlen in *. lia. }
    specialize (IH Hlt eq_refl Hok' H). destruct b1; [done|]. destruct IH as [Hi IH]. split; [|done].
    destruct Hi as (? & ? & ? & Hb). split_and!; [done..|]. rewrite E' in Hb. cbn in Hb. lia.
Qed.

Lemma interrupted_ready h h1 : interrupted h h1 -> 0 < bytes_parsed_ h -> ready h1.
Proof.
  intros (Hn & Hl & Hp & Hb) H. split_and!; [done|by rewrite Hl|lia|].
  by destruct (Z.eqb_spec (bytes_parsed_ h1) 0); [lia|].
Qed.

Lemma bytes_parsed_ParseFirstLine t line h : bytes_parsed_ (ParseFirstLine t line h) = bytes_parsed_ h.
Proof.
  unfold ParseFirstLine, ParseStatusCode. repeat (case_match || case_bool_decide); done.
Qed.

(** Parsing [c1], then what was left of it followed by [c2], against parsing both at once. *)
Lemma ParseHeader_app h (c1 c2 : bytes) t h1 r1 b1 : ready h ->
  ParseHeader h c1 t = Some (h1, r1, b1) ->
  if b1 then ParseHeader h (c1 ++ c2) t = Some (h1, r1 ++ c2, true)
  else ready h1 /\
    forall h2 r2 b2, ParseHeader h (c1 ++ c2) t = Some (h2, r2, b2) ->
      ParseHeader h1 (r1 ++ c2) t = Some (note h2, r2, b2).
Proof.
  intros Hr. rewrite !ParseHeader_ready by done. pose proof Hr as (Hn & Hl & Hb & Hp).
  destruct (Z.eqb_spec (bytes_parsed_ h) 0) as [Hz|Hz].
  - destruct (crlf_line c1) as [line|] eqn:E.
    + destruct (crlf_line_drop _ _ E) as (Hc & _ & Hlen).
      rewrite (crlf_line_app _ _ c2 E). rewrite dropZ_app_l
        by (rewrite Hc, zlen_app; pose proof (zlen_nonneg (dropZ (zlen line) c1)); lia).
      intros H. eapply (ReadHeaderFields_app _ _ c2) in H; [|by apply name_ok_ParseFirstLine].
      destruct b1; [done|]. destruct H as [Hi H].
      assert (Hpos : 0 < bytes_parsed_ h1).
      { destruct Hi as (_ & _ & _ & Hi). rewrite bytes_parsed_ParseFirstLine in Hi. cbn in Hi. lia. }
      assert (Hr1 : ready h1).
      { apply (interrupted_ready _ _ Hi). rewrite bytes_parsed_ParseFirstLine. cbn. lia. }
      split; [done|]. intros h2 r2 b2 H2. rewrite ParseHeader_ready by done.
      rewrite (proj2 (Z.eqb_neq _ _)) by lia. by apply H.
    + intros [= <- <- <-]. assert (Hr1 : ready (set_parse_error READ_NO_DATA h)).
      { split_and!; [done..|]. cbn [bytes_parsed_ set_parse_error with_parse_error with_last_parse_error].
        rewrite Hz. cbn. right. by destruct Hp as [-> | ->]. }
      split; [done|]. intros h2 r2 b2. rewrite ParseHeader_ready by done. rewrite (set_no_data h).
      change (bytes_parsed_ (noted READ_NO_DATA h)) with (bytes_parsed_ h). rewrite Hz. cbn [Z.eqb].
      destruct (crlf_line (c1 ++ c2)) as [line|].
      * match goal with |- context [ParseFirstLine t ?l (with_bytes_parsed ?n (noted ?e h))] =>
          change (with_bytes_parsed n (noted e h)) with (noted e (with_bytes_parsed n h));
          destruct (ParseFirstLine_noted t l e (with_bytes_parsed n h)) as (e' & ->) end.
        intros H. apply ReadHeaderFields_noted; [by apply name_ok_ParseFirstLine|].
        exact H.
      * intros [= <- <- <-]. by rewrite set_noted, <- noted_last.
  - intros H. eapply (ReadHeaderFields_app _ _ c2) in H; [|done]. destruct b1; [done|].
    destruct H as [Hi H]. assert (Hr1 : ready h1) by (apply (interrupted_ready _ _ Hi); lia).
    split; [done|]. intros h2 r2 b2 H2. rewrite ParseHeader_ready by done.
    destruct Hi as (_ & _ & _ & Hi). rewrite (proj2 (Z.eqb_neq _ _)) by lia. by apply H.
Qed.
