(* ===== verification/HttpHeaderProps.v ===== *)
(** * Properties of HTTP headers

    Parsing in pieces, over any stream and after printing; names, the [Authorization]
    field, and what the checks of [AddField] let through. *)

From stdpp Require Import sorting.
From S2P Require Import Prelude.
From S2P Require Import CString.
From S2P Require Import Base64.
From S2P Require Import DataBlock.
From S2P Require Import DataBlockFacts.
From S2P Require Import MemoryStream.
From S2P Require Import MemoryStreamFacts.
From S2P Require Import MemoryStreamOps.
From S2P Require Import MemoryStreamSpec.
From S2P Require Import ByteStream.
From S2P Require Import HttpConsts.
From S2P Require Import HttpHeader.
From S2P Require Import HttpHeaderSpec.

Import HttpConsts HttpHeader.

(** ** Parsing as the data arrives *)

(** A server's loop: what arrives is appended to the stream and the header parsed until it
    is complete. *)
Fixpoint parse_chunks (t : FirstLineType) (h : Header) (io c : bytes) (cs : list bytes)
    : option (Header * bytes * bool) :=
  '(h, io, done) ← ParseHeader h (io ++ c) t;
  if done : bool then Some (h, io ++ concat cs, true)
  else match cs with
       | [] => Some (h, io, false)
       | c :: cs => parse_chunks t h io c cs
       end.

Lemma parse_chunks_ready t h io c cs : ready h ->
  exists h' r b h2, ParseHeader h (io ++ c ++ concat cs) t = Some (h', r, b) /\
    parse_chunks t h io c cs = Some (h2, r, b) /\ (h2 = h' \/ h2 = note h').
Proof.
  revert h io c. induction cs as [|c' cs IH]; intros h io c Hr; cbn [parse_chunks concat].
  - rewrite app_nil_r. destruct (ParseHeader_total h (io ++ c) t Hr) as ([[h1 r1] b1] & ->).
    cbn [mbind option_bind]. rewrite app_nil_r. exists h1, r1, b1, h1. destruct b1; auto.
  - destruct (ParseHeader_total h (io ++ c) t Hr) as ([[h1 r1] b1] & H1). rewrite H1.
    cbn [mbind option_bind]. pose proof (ParseHeader_app _ _ (c' ++ concat cs) _ _ _ _ Hr H1) as H.
    rewrite <- app_assoc in H. destruct b1.
    + exists h1, (r1 ++ c' ++ concat cs), true, h1. auto.
    + destruct H as [Hr1 H]. destruct (IH h1 r1 c' Hr1) as (h' & r & b & h2 & Hp & Hc & Hh).
      destruct (ParseHeader_total h (io ++ c ++ c' ++ concat cs) t Hr) as ([[h3 r3] b3] & H3).
      rewrite (H _ _ _ H3) in Hp. injection Hp as <- <- <-.
      exists h3, r3, b3, h2. split_and!; [done..|]. right. by destruct Hh as [-> | ->]; rewrite ?note_note.
Qed.

(** C33: However the bytes of a message are cut into the pieces that arrive, parsing them as
    they do gives the header that parsing them at once gives, and leaves the same bytes;
    only the worst error may differ, by the note that data was missing for a while. *)
Theorem parse_any_chunks (strict : bool) (t : FirstLineType) (c : bytes) (cs : list bytes) :
  exists h r b h2, ParseHeader (Header_new strict) (c ++ concat cs) t = Some (h, r, b) /\
    parse_chunks t (Header_new strict) [] c cs = Some (h2, r, b) /\
    (h2 = h \/ h2 = with_parse_error (worst READ_NO_DATA (parse_error_ h)) h).
Proof. apply (parse_chunks_ready t (Header_new strict) []), Header_new_ready. Qed.

(** On a memory stream, however its content is cut into blocks and whoever else holds
    blocks of the heap, the parser answers what it answers on the queue of the stream's
    bytes, never fails a check from a fresh header, and leaves in the stream what it leaves
    in the queue. *)
Theorem parse_memory_stream (strict : bool) (t : FirstLineType) O hp s c ms :
  Inv O hp s c ms -> zlen c < 2 ^ 31 ->
  exists h r b hp' s' ms', ParseHeader (Header_new strict) c t = Some (h, r, b) /\
    ParseHeader (BS := memory_stream O) (Header_new strict) (hp, s) t = Some (h, (hp', s'), b) /\
    Inv O hp' s' r ms'.
Proof.
  intros HI Hc. destruct (ParseHeader_total _ c t (Header_new_ready strict)) as ([[h r] b] & Hp).
  pose proof (ParseHeader_stream (BS := memory_stream O) (Header_new strict) (hp, s) c t) as H.
  rewrite Hp in H. destruct H as ([hp' s'] & H & [_ [ms' HI']]); [by split; [|exists ms]|].
  by exists h, r, b, hp', s', ms'.
Qed.

Lemma parse_memory_stream_witness : exists hp s, Inv (fun _ => 0) hp s (bstr "GET /") [] /\
  exists h r b hp' s' ms', ParseHeader (Header_new true) (bstr "GET /") REQUEST_LINE = Some (h, r, b) /\
    ParseHeader (BS := memory_stream (fun _ => 0)) (Header_new true) (hp, s) REQUEST_LINE = Some (h, (hp', s'), b) /\
    Inv (fun _ => 0) hp' s' r ms'.
Proof.
  destruct (stream_with (bstr "GET /") eq_refl) as (hp & s & HI). exists hp, s. split; [done|].
  exact (parse_memory_stream true REQUEST_LINE _ hp s _ _ HI eq_refl).
Defined.

(** ** Printing and parsing back *)

(** The fields that the parser gives back as they are: names valid and in normal form,
    contents valid, on one line and without white space in front. *)
Definition plain_field (f : bytes * bytes) : Prop :=
  IsValidFieldName f.1 = true /\ NormalizeFieldName f.1 = Some f.1 /\
  IsValidFieldContent f.2 = true /\ no_crlf f.2 /\ starts_not IsLwfChar f.2.

Definition field_text (f : bytes * bytes) : bytes := f.1 ++ bstr ": " ++ f.2 ++ CRLF.

Definition fields_text (l : list (bytes * bytes)) : bytes := concat (field_text <$> l).

Lemma no_crlf_snoc_CR l : no_crlf l -> no_crlf (l ++ [CR]).
Proof.
  intros H a b E. destruct b as [|x b _] using rev_ind.
  - change (a ++ [CR; LF]) with (a ++ [CR] ++ [LF]) in E. rewrite app_assoc in E.
    by apply app_inj_tail in E as [_ ?].
  - rewrite app_comm_cons, (app_comm_cons _ _ CR), app_assoc in E. apply app_inj_tail in E as [-> _].
    by apply (H a b).
Qed.

Lemma no_crlf_app a b : no_crlf a -> no_crlf b -> list.last a <> Some CR -> no_crlf (a ++ b).
Proof.
  intros Ha Hb Hl x y E. apply app_eq_inv in E as [(k & -> & E)|(k & -> & E)]; [|by apply (Hb k y)].
  destruct k as [|z [|w k]].
  - rewrite app_nil_r in *. by apply (Hb [] y).
  - injection E as <- E. by rewrite last_snoc in Hl.
  - injection E as <- <- _. by apply (Ha x k).
Qed.

Lemma valid_name_chars name c : IsValidFieldName name = true -> c ∈ name ->
  IsTokenChar c = true \/ IsWhiteSpace c = true.
Proof.
  destruct name as [|x name]; [done|]. cbn. intros H Hc. bool_prop.
  apply elem_of_cons in Hc as [->|Hc]; [by left|].
  match goal with H : forallb _ _ = true |- _ => rewrite forallb_forall in H; specialize (H c) end.
  rewrite <- list_elem_of_In, orb_true_iff in *. auto.
Qed.

Lemma whitespace_plain c : IsWhiteSpace c = true -> c <> Byte.x3a /\ c <> NUL /\ c <> CR /\ c <> LF.
Proof. by destruct c. Qed.

Lemma valid_name_plain name c : IsValidFieldName name = true -> c ∈ name ->
  c <> Byte.x3a /\ c <> NUL /\ c <> CR.
Proof.
  intros Hv Hc. destruct (valid_name_chars _ _ Hv Hc) as [H|H].
  - by destruct (token_char_plain c H) as (_ & ? & ? & ? & _).
  - by destruct (whitespace_plain c H) as (? & ? & ? & _).
Qed.

Lemma no_CR_no_crlf l : CR ∉ l -> no_crlf l.
Proof. intros H a b ->. set_solver. Qed.

Lemma last_elem_of {A} (l : list A) x : list.last l = Some x -> x ∈ l.
Proof. intros H. apply last_Some in H as (l' & ->). set_solver. Qed.

(** Computes with the members of an explicit header, and nothing else. *)
Ltac header_cbn :=
  unfold set_parse_error, with_bytes_parsed, with_parse_error, with_last_parse_error, with_crt_parsing_field_name, with_crt_parsing_field_content, with_http_version, with_method, with_status_code, with_uri, with_reason, with_first_line_type, with_fields, with_verbatim;
  cbn [mbind option_bind is_strict_ bytes_parsed_ parse_error_ last_parse_error_ crt_parsing_field_name_ crt_parsing_field_content_ http_version_ method_ status_code_ uri_ reason_ first_line_type_ fields_ verbatim_].

(** Reading the line of a field. *)
Section Field.
Variables (name content : bytes).
Hypothesis Hf : plain_field (name, content).

Lemma field_line_crlf rest : crlf_line (field_text (name, content) ++ rest) =
  Some ((name ++ bstr ": " ++ content) ++ CRLF).
Proof.
  destruct Hf as (Hv & _ & _ & Hc & _). cbn [fst snd] in *. unfold field_text. cbn [fst snd].
  rewrite <- (crlf_line_unique (name ++ bstr ": " ++ content) rest); [by rewrite <- !app_assoc|].
  apply no_crlf_snoc_CR. apply no_crlf_app.
  - apply no_CR_no_crlf. intros H. by destruct (valid_name_plain _ _ Hv H) as (_ & _ & ?).
  - apply no_crlf_app; [|done|done]. apply no_CR_no_crlf.
    assert (Hn : bool_decide (CR ∈ bstr ": ") = false) by done. by bool_prop.
  - intros H%last_elem_of. by destruct (valid_name_plain _ _ Hv H) as (_ & _ & ?).
Qed.

Lemma name_start : exists c s, name = c :: s /\ IsLwfChar c = false.
Proof.
  destruct Hf as (Hv & _). cbn in Hv. destruct name as [|c s]; [done|]. cbn in Hv. bool_prop.
  exists c, s. split; [done|]. by destruct (token_char_plain c) as (? & _).
Qed.

Lemma field_line_parse h h' b : AddCrtParsingData h = Some (h', b) ->
  ParseFieldLine (name ++ bstr ": " ++ content) h =
  Some (with_crt_parsing_field_content content (with_crt_parsing_field_name name h')).
Proof.
  intros Ha. unfold ParseFieldLine. destruct name_start as (c & s & Hn & Hc).
  rewrite drop_while_id by (by rewrite Hn). rewrite Nat.ltb_irrefl, Ha. cbn [mbind option_bind].
  destruct Hf as (Hv & _ & _ & _ & Hs). cbn [fst snd] in *.
  change (bstr ": ") with ([Byte.x3a] ++ [SP]). rewrite <- app_assoc. cbn [app].
  rewrite find_char by (intros H; by destruct (valid_name_plain _ _ Hv H)).
  rewrite take_app_length, <- drop_drop, drop_app_length. cbn [drop drop_while].
  change (IsLwfChar SP) with true. cbn iota. by rewrite drop_while_id.
Qed.

(** Taking the field that was read into the map. *)
Lemma AddCrt_field (s : bool) (bp : Z) (pe le : ParseError) (v : HttpVersion) (m : HttpMethod) (code : Z) (uri reason : bytes) (flt : FirstLineType) (fs : gmap bytes bytes) (vb : bytes) : fs !! name = None ->
  AddCrtParsingData (mkHeader s bp pe le name content v m code uri reason flt fs vb) =
  Some (mkHeader s bp pe le [] [] v m code uri reason flt (<[name := content]> fs) vb, true).
Proof.
  intros Hfs. destruct Hf as (Hv & Hn & Hc & _). cbn [fst snd] in *.
  unfold AddCrtParsingData. cbn [crt_parsing_field_name_ crt_parsing_field_content_].
  rewrite bool_decide_false by (intros ->; done). rewrite Hv, Hc. cbn [andb is_strict_].
  rewrite orb_true_r, Hn. cbn [mbind option_bind fields_]. by rewrite Hfs.
Qed.
End Field.

Lemma AddCrt_nothing (s : bool) (bp : Z) (pe le : ParseError) (v : HttpVersion) (m : HttpMethod) (code : Z) (uri reason : bytes) (flt : FirstLineType) (fs : gmap bytes bytes) (vb : bytes) :
  AddCrtParsingData (mkHeader s bp pe le [] [] v m code uri reason flt fs vb) =
  Some (mkHeader s bp pe le [] [] v m code uri reason flt fs vb, true).
Proof. done. Qed.

(** The field being read, if there is one. *)
Definition pending (n c : bytes) : gmap bytes bytes := if bool_decide (n = []) then ∅ else {[n := c]}.

Lemma AddCrt_pending (s : bool) (bp : Z) (pe le : ParseError) (n c : bytes) (v : HttpVersion) (m : HttpMethod) (code : Z) (uri reason : bytes) (flt : FirstLineType) (fs : gmap bytes bytes) (vb : bytes) :
  (n = [] /\ c = []) \/ plain_field (n, c) -> fs !! n = None ->
  AddCrtParsingData (mkHeader s bp pe le n c v m code uri reason flt fs vb) =
  Some (mkHeader s bp pe le [] [] v m code uri reason flt (pending n c ∪ fs) vb, true).
Proof.
  intros [[-> ->]|Hf] Hfs.
  - rewrite AddCrt_nothing. unfold pending. rewrite bool_decide_true by done. by rewrite map_empty_union.
  - rewrite AddCrt_field by done. unfold pending. rewrite bool_decide_false.
    + by rewrite insert_union_singleton_l.
    + intros ->. by destruct Hf.
Qed.

Lemma name_ok_pending (s : bool) (bp : Z) (pe le : ParseError) (n c : bytes) (v : HttpVersion) (m : HttpMethod) (code : Z) (uri reason : bytes) (flt : FirstLineType) (fs : gmap bytes bytes) (vb : bytes) :
  (n = [] /\ c = []) \/ plain_field (n, c) ->
  name_ok (mkHeader s bp pe le n c v m code uri reason flt fs vb).
Proof.
  intros [[-> ->]|Hf]; [done|]. destruct (name_start n c Hf) as (x & y & -> & H). done.
Qed.

Lemma fields_parse L : forall (s : bool) (bp : Z) (pe le : ParseError) (n c : bytes) (v : HttpVersion) (m : HttpMethod) (code : Z) (uri reason : bytes) (flt : FirstLineType) (fs : gmap bytes bytes) (vb rest : bytes),
  Forall plain_field L -> NoDup (n :: L.*1) ->
  (n = [] /\ c = []) \/ plain_field (n, c) -> (forall k, k ∈ n :: L.*1 -> fs !! k = None) ->
  ReadHeaderFields (mkHeader s bp pe le n c v m code uri reason flt fs vb) (fields_text L ++ CRLF ++ rest) =
  Some (mkHeader s (bp + zlen (fields_text L) + 2) (worst READ_OK pe) READ_OK [] [] v m code uri reason flt
          (list_to_map L ∪ (pending n c ∪ fs)) vb, rest, true).
Proof.
  induction L as [|[n1 c1] L IH]; intros s bp pe le n c v m code uri reason flt fs vb rest HL Hnd Hp Hfs;
    rewrite ReadHeaderFields_eq by (by apply name_ok_pending).
  - change (fields_text [] ++ CRLF ++ rest) with ([] ++ CRLF ++ rest).
    rewrite (crlf_line_unique [] rest) by (apply no_crlf_snoc_CR; by intros [] ?). cbn zeta.
    change (cut_crlf ([] ++ CRLF)) with (@nil byte). rewrite bool_decide_true by done.
    header_cbn. rewrite AddCrt_pending by (done || apply Hfs; by left). header_cbn.
    change (list_to_map []) with (∅ : gmap bytes bytes). rewrite map_empty_union.
    change (zlen (fields_text [])) with 0. by rewrite Z.add_0_r.
  - inversion HL as [|? ? Hf HL']; subst.
    change (fields_text ((n1, c1) :: L)) with (field_text (n1, c1) ++ fields_text L).
    rewrite <- app_assoc, (field_line_crlf _ _ Hf). cbn zeta. rewrite cut_crlf_app.
    destruct (name_start _ _ Hf) as (x & y & Hn1 & _).
    rewrite bool_decide_false by (by rewrite Hn1). header_cbn.
    rewrite (field_line_parse _ _ Hf _ _ _ (AddCrt_pending _ _ _ _ _ _ _ _ _ _ _ _ _ _ Hp (Hfs n ltac:(by left)))).
    header_cbn.
    set (line := (_ ++ CRLF)).
    assert (Hline : line = field_text (n1, c1)) by (unfold line, field_text; by rewrite <- !app_assoc).
    rewrite Hline, dropZ_app_r, Z.sub_diag, dropZ_0 by lia. cbn [fmap list_fmap fst] in Hnd, Hfs.
    apply list.NoDup_cons in Hnd as [Hn Hnd].
    rewrite IH; [|done|done|by right|].
    + assert (Hm : list_to_map L ∪ (pending n1 c1 ∪ (pending n c ∪ fs)) =
        list_to_map ((n1, c1) :: L) ∪ (pending n c ∪ fs)).
      { unfold pending at 1. rewrite bool_decide_false by (by rewrite Hn1).
        rewrite <- insert_union_singleton_l. cbn [list_to_map foldr fst snd].
        rewrite <- insert_union_r, insert_union_l; [done|].
        apply not_elem_of_list_to_map_1. by apply list.NoDup_cons in Hnd as [? _]. }
      rewrite Hm, zlen_app. do 4 f_equal. lia.
    + intros k Hk. apply lookup_union_None_2; [|apply Hfs; by right].
      unfold pending. case_bool_decide; [done|]. apply lookup_singleton_None. intros ->. done.
Qed.

(** Reading the first line. *)
Lemma no_crlf_app_r a b : no_crlf a -> no_crlf b -> starts_not (fun c => bool_decide (c = LF)) b -> no_crlf (a ++ b).
Proof.
  intros Ha Hb Hl x y E. apply app_eq_inv in E as [(k & -> & E)|(k & -> & E)]; [|by apply (Hb k y)].
  destruct k as [|z [|w k]].
  - rewrite app_nil_r in *. by apply (Hb [] y).
  - injection E as <- <-. done.
  - injection E as <- <- _. by apply (Ha x k).
Qed.

(** No character of [l] is a blank or a carriage return. *)
Definition word (l : bytes) : bool := negb (bool_decide (SP ∈ l)) && negb (bool_decide (CR ∈ l)).

Lemma word_spec l : word l = true -> (SP ∉ l) /\ no_crlf l.
Proof. unfold word. intros H. bool_prop. split; [done|]. by apply no_CR_no_crlf. Qed.

Lemma method_word m : word (GetHttpMethodName m) = true.
Proof. by destruct m. Qed.

Lemma version_word v : word (GetHttpVersionName v) = true.
Proof. by destruct v. Qed.

Lemma print_int_word z : - 2 ^ 63 <= z < 2 ^ 63 -> word (print_int z) = true.
Proof.
  intros Hz. unfold word. apply andb_true_iff. rewrite !negb_true_iff, !bool_decide_eq_false.
  split; intros [|Hd]%print_int_chars; done.
Qed.

Lemma print_int_start z : - 2 ^ 63 <= z < 2 ^ 63 -> starts_not is_space (print_int z).
Proof.
  intros Hz. destruct (print_int z) as [|c l] eqn:E; [done|]. cbn.
  apply bool_decide_false. intros ->. pose proof (print_int_word z Hz) as H%word_spec.
  rewrite E in H. apply H. by left.
Qed.

Lemma no_crlf_nil : no_crlf [].
Proof. by intros [] ?. Qed.

(** The three words of a line. *)
Lemma words_no_crlf a b c : word a = true -> no_crlf b -> no_crlf c ->
  no_crlf (a ++ [SP] ++ b ++ [SP] ++ c).
Proof.
  intros [_ Ha]%word_spec Hb Hc.
  assert (Hs : forall l, no_crlf l -> no_crlf ([SP] ++ l)).
  { intros l Hl. apply no_crlf_app; [|done|done]. by intros [|? []] ?. }
  apply no_crlf_app_r; [done| |done]. apply Hs. apply no_crlf_app_r; [done| |done]. by apply Hs.
Qed.

Lemma find_word a b : SP ∉ a -> find_sub [SP] (a ++ [SP] ++ b) = Some (length a).
Proof. apply find_char. Qed.

Lemma skip_space b : starts_not is_space b -> drop_while is_space ([SP] ++ b) = b.
Proof. intros H. cbn. by apply drop_while_id. Qed.

Lemma starts_not_app P a b : a <> [] -> starts_not P a -> starts_not P (a ++ b).
Proof. by destruct a. Qed.

Lemma request_line_parse m uri v h : uri <> [] -> SP ∉ uri ->
  ParseFirstLine REQUEST_LINE (GetHttpMethodName m ++ [SP] ++ uri ++ [SP] ++ GetHttpVersionName v) h =
  with_first_line_type REQUEST_LINE (with_http_version v (with_uri uri (with_method m h))).
Proof.
  intros Hne Hsp. unfold ParseFirstLine. destruct (word_spec _ (method_word m)) as [Hm _].
  rewrite find_word by done. rewrite take_app_length, drop_app_length.
  rewrite skip_space by (apply starts_not_app; [done|]; destruct uri; [done|]; cbn;
    apply bool_decide_false; intros ->; apply Hsp; by left).
  rewrite find_word by done. rewrite take_app_length, drop_app_length, skip_space by (by destruct v).
  rewrite bool_decide_true by done. cbn zeta.
  assert (Hcm : cstr (GetHttpMethodName m) = GetHttpMethodName m) by (by destruct m).
  assert (Hcv : cstr (GetHttpVersionName v) = GetHttpVersionName v) by (by destruct v).
  by rewrite Hcm, Hcv, GetHttpMethod_name, GetHttpVersion_name.
Qed.

Lemma status_line_parse v code reason h : - 2 ^ 31 <= code < 2 ^ 31 -> starts_not is_space reason ->
  ParseFirstLine STATUS_LINE (GetHttpVersionName v ++ [SP] ++ print_int code ++ [SP] ++ reason) h =
  with_first_line_type STATUS_LINE (with_reason reason (with_status_code code (with_http_version v h))).
Proof.
  intros Hc Hr. assert (Hc' : - 2 ^ 63 <= code < 2 ^ 63) by lia. unfold ParseFirstLine.
  destruct (word_spec _ (version_word v)) as [Hv _]. destruct (word_spec _ (print_int_word code Hc')) as [Hn _].
  rewrite find_word by done. rewrite take_app_length, drop_app_length.
  rewrite skip_space.
  2: { apply starts_not_app; [|by apply print_int_start]. intros E.
       pose proof (strtol_print_int code Hc') as Hs. rewrite E in Hs. cbn in Hs. injection Hs as <-. done. }
  rewrite find_word by done. rewrite take_app_length, drop_app_length, skip_space by done.
  rewrite bool_decide_false by done. cbn zeta. unfold ParseStatusCode. rewrite strtol_print_int by done.
  assert (Hcv : cstr (GetHttpVersionName v) = GetHttpVersionName v) by (by destruct v).
  rewrite Hcv, GetHttpVersion_name, wrapS_small by lia. done.
Qed.

(** What a header must be to be read back from what it prints. *)
Definition printable (h : Header) : Prop :=
  match first_line_type_ h with
  | REQUEST_LINE => uri_ h <> [] /\ (SP ∉ uri_ h) /\ no_crlf (uri_ h)
  | STATUS_LINE =>
      - 2 ^ 31 <= status_code_ h < 2 ^ 31 /\ starts_not is_space (reason_ h) /\ no_crlf (reason_ h)
  | _ => False
  end /\ verbatim_ h = [] /\
  forall name content, fields_ h !! name = Some content -> plain_field (name, content).

(** And what is read back: the first line and the fields. *)
Definition reread (strict : bool) (n : Z) (h : Header) : Header :=
  let request := bool_decide (first_line_type_ h = REQUEST_LINE) in
  mkHeader strict n READ_OK READ_OK [] [] (http_version_ h)
    (if request then method_ h else METHOD_UNKNOWN)
    (if request then UNKNOWN else status_code_ h)
    (if request then uri_ h else [])
    (if request then [] else reason_ h)
    (first_line_type_ h) (fields_ h) [].

Lemma sorted_fields_map (m : gmap bytes bytes) :
  list_to_map (sorted_fields m) = m /\ NoDup (sorted_fields m).*1 /\
  forall f, f ∈ sorted_fields m <-> m !! f.1 = Some f.2.
Proof.
  unfold sorted_fields. pose proof (merge_sort_Permutation key_le (map_to_list m)) as Hp.
  assert (Hnd : NoDup (merge_sort key_le (map_to_list m)).*1) by (rewrite Hp; apply NoDup_fst_map_to_list).
  split_and!; [|done|].
  - rewrite (list_to_map_proper _ _ Hnd Hp). apply list_to_map_to_list.
  - intros [n c]. by rewrite Hp, elem_of_map_to_list.
Qed.

Lemma concat_field_writes L : concat (concat (field_writes <$> L)) = fields_text L.
Proof.
  induction L as [|[n c] L IH]; [done|]. rewrite fmap_cons. cbn [concat]. rewrite concat_app, IH.
  unfold fields_text. rewrite fmap_cons. cbn [concat]. by f_equal.
Qed.

Lemma ToString_text h : verbatim_ h = [] ->
  ToString h = Some (ComposeFirstLine h ++ fields_text (sorted_fields (fields_ h)) ++ CRLF).
Proof.
  intros Hv. unfold ToString, AppendToStream.
  match goal with |- write_all _ ?l = _ =>
    destruct (write_all_stream (M := bytes) [] [] l) as (m & -> & Hm); [done..|] end.
  cbn [holds queue_stream] in Hm. subst m. rewrite app_nil_l, Hv, bool_decide_true by done.
  rewrite !concat_app, concat_field_writes. cbn [concat]. by rewrite !app_nil_r.
Qed.

(** The first line of a printable header, cut from what follows. *)
Lemma first_line_read h strict : printable h -> exists l, ComposeFirstLine h = l ++ CRLF /\ no_crlf l /\
  forall n, ParseFirstLine (first_line_type_ h) l (with_bytes_parsed n (Header_new strict)) =
    with_fields ∅ (with_last_parse_error READ_INIT (with_parse_error READ_INIT (reread strict n h))).
Proof.
  intros (Hl & _ & _). unfold ComposeFirstLine, reread. destruct (first_line_type_ h); try done.
  - destruct Hl as (Hne & Hsp & Hcr).
    exists (GetHttpMethodName (method_ h) ++ [SP] ++ uri_ h ++ [SP] ++ GetHttpVersionName (http_version_ h)).
    split_and!; [by rewrite <- !app_assoc| |].
    + apply words_no_crlf; [apply method_word|done|]. apply (word_spec _ (version_word _)).
    + intros n. by rewrite request_line_parse.
  - destruct Hl as (Hc & Hsp & Hcr).
    exists (GetHttpVersionName (http_version_ h) ++ [SP] ++ print_int (status_code_ h) ++ [SP] ++ reason_ h).
    split_and!.
    + rewrite wrapS_small by lia. by rewrite <- !app_assoc.
    + apply words_no_crlf; [apply version_word| |done]. apply (word_spec _ (print_int_word (status_code_ h) ltac:(lia))).
    + intros n. by rewrite status_line_parse.
Qed.

Lemma ToString_parse (strict : bool) (h : Header) (rest : bytes) :
  printable h ->
  exists text, ToString h = Some text /\
    ParseHeader (Header_new strict) (text ++ rest) (first_line_type_ h) =
      Some (reread strict (zlen text) h, rest, true).
Proof.
  intros Hp. pose proof Hp as (_ & Hv & Hf). eexists; split; [by apply ToString_text|].
  destruct (first_line_read h strict Hp) as (l & -> & Hl & Hread).
  rewrite ParseHeader_ready by apply Header_new_ready. cbn [bytes_parsed_ Header_new Z.eqb].
  rewrite <- !app_assoc, crlf_line_unique by (by apply no_crlf_snoc_CR).
  rewrite cut_crlf_app, app_assoc, Hread, dropZ_app_r, Z.sub_diag, dropZ_0 by lia.
  unfold reread, with_parse_error, with_last_parse_error, with_fields.
  destruct (sorted_fields_map (fields_ h)) as (Hm & Hnd & Hin).
  cbn [is_strict_ bytes_parsed_ parse_error_ last_parse_error_ crt_parsing_field_name_
    crt_parsing_field_content_ http_version_ method_ status_code_ uri_ reason_ first_line_type_ verbatim_].
  rewrite fields_parse; [| | |by left|done].
  - rewrite Hm. change (pending [] []) with (∅ : gmap bytes bytes). rewrite !map_union_empty.
    do 4 f_equal. rewrite !zlen_app. change (zlen CRLF) with 2. lia.
  - apply Forall_forall. intros [n c] Hx. apply list_elem_of_In, Hin in Hx. by apply Hf.
  - apply list.NoDup_cons. split; [|done]. intros Hx. apply list_elem_of_fmap in Hx as ([n c] & E & Hx).
    apply Hin, Hf in Hx. cbn in E. subst n. by destruct Hx.
Qed.

(** C32: A request or a reply whose line and fields are well formed is read back from the
    text that it prints, by a parser in either mode: the same method, version, URI, status,
    reason and fields, no error, and not a byte of what follows the header is taken. *)
Theorem print_parse (strict : bool) (h : Header) (rest : bytes) :
  printable h ->
  exists text, ToString h = Some text /\
    ParseHeader (Header_new strict) (text ++ rest) (first_line_type_ h) =
      Some (reread strict (zlen text) h, rest, true).
Proof. apply ToString_parse. Qed.

Definition example_request : Header :=
  with_fields {[bstr "Host" := bstr "example.org"]}
    (PrepareRequestLine (bstr "/index.html") METHOD_GET VERSION_1_1 (Header_new true)).

Lemma example_request_printable : printable example_request.
Proof.
  split; [|split; [done|]].
  - cbn. split_and!; [done|by apply not_in|by apply no_CR_no_crlf, not_in].
  - intros n c H. cbn in H. apply lookup_singleton_Some in H as [<- <-].
    split_and!; [done..| |done]. by apply no_CR_no_crlf, not_in.
Qed.

Lemma print_parse_witness :
  printable example_request /\ exists text, ToString example_request = Some text /\
    ParseHeader (Header_new true) (text ++ bstr "body") (first_line_type_ example_request) =
      Some (reread true (zlen text) example_request, bstr "body", true).
Proof.
  split; [exact example_request_printable|].
  exact (print_parse true example_request (bstr "body") example_request_printable).
Defined.

(** ** Field names *)

Lemma drop_while_fmap P f l : (forall c, P (f c) = P c) -> drop_while P (f <$> l) = f <$> drop_while P l.
Proof.
  intros HP. induction l as [|c l IH]; [done|]. rewrite fmap_cons. cbn [drop_while]. rewrite HP.
  destruct (P c); [done|]. by rewrite fmap_cons.
Qed.

Lemma normalize_step_tolower up c : normalize_step up (tolower c) = normalize_step up c.
Proof. destruct up; by destruct c. Qed.

Lemma IsLwfChar_tolower c : IsLwfChar (tolower c) = IsLwfChar c.
Proof. by destruct c. Qed.

Lemma normalize_tolower up s : NUL ∉ s -> normalize up (tolower <$> s) = normalize up s.
Proof.
  revert up. induction s as [|c s IH]; intros up Hs; [done|]. rewrite fmap_cons. cbn [normalize].
  apply not_elem_of_cons in Hs as [Hc Hs].
  rewrite (bool_decide_false (tolower c = NUL)) by (intros E; apply Hc; by destruct c).
  rewrite (bool_decide_false (c = NUL)) by done. rewrite normalize_step_tolower.
  destruct (normalize_step up c) as [d up']. by rewrite IH.
Qed.

(** A name that does not start with white space only loses what is at its end. *)
Definition trim_lwf (s : bytes) : bytes := rev (drop_while IsLwfChar (rev s)).

Lemma trim_lwf_prefix s : exists ws, s = trim_lwf s ++ ws.
Proof.
  destruct (drop_while_suffix IsLwfChar (rev s)) as (a & Ha & _). exists (rev a).
  unfold trim_lwf. by rewrite <- rev_app_distr, <- Ha, rev_involutive.
Qed.

Lemma trim_lwf_cons c s : IsLwfChar c = false -> exists t, trim_lwf (c :: s) = c :: t.
Proof.
  intros Hc. destruct (trim_lwf_prefix (c :: s)) as (ws & H).
  destruct (trim_lwf (c :: s)) as [|x t] eqn:E; [|injection H as -> _; by exists t]. exfalso.
  assert (E' : drop_while IsLwfChar (rev (c :: s)) = []).
  { unfold trim_lwf in E. apply (f_equal (@rev byte)) in E. by rewrite rev_involutive in E. }
  destruct (drop_while_suffix IsLwfChar (rev (c :: s))) as (a & Ha & Hl).
  rewrite E', app_nil_r in Ha. rewrite <- Ha, forallb_forall in Hl.
  rewrite (Hl c) in Hc; [done|]. apply in_rev. rewrite rev_involutive. by left.
Qed.

Lemma NormalizeFieldName_start c s : IsLwfChar c = false ->
  NormalizeFieldName (c :: s) = Some (normalize true (trim_lwf (c :: s))).
Proof.
  intros Hc. destruct (trim_lwf_cons c s Hc) as (t & Ht). unfold NormalizeFieldName.
  fold (trim_lwf (c :: s)). rewrite Ht. cbn [drop_while]. by rewrite Hc.
Qed.

Lemma trim_lwf_tolower s : trim_lwf (tolower <$> s) = tolower <$> trim_lwf s.
Proof.
  unfold trim_lwf. change (tolower <$> s) with (map tolower s). rewrite <- map_rev.
  change (map tolower (rev s)) with (tolower <$> rev s).
  rewrite drop_while_fmap by apply IsLwfChar_tolower. symmetry. apply map_rev.
Qed.

Lemma NormalizeFieldName_tolower s : NUL ∉ s -> starts_not IsLwfChar s ->
  NormalizeFieldName (tolower <$> s) = NormalizeFieldName s.
Proof.
  intros Hs Hl. destruct s as [|c s]; [done|]. rewrite fmap_cons. cbn in Hl.
  rewrite !NormalizeFieldName_start by (by rewrite ?IsLwfChar_tolower).
  rewrite <- fmap_cons, trim_lwf_tolower, normalize_tolower; [done|].
  destruct (trim_lwf_prefix (c :: s)) as (ws & H). intros Hn. apply Hs. rewrite H. apply elem_of_app. by left.
Qed.

Lemma normalize_step_token up c : IsTokenChar c || IsWhiteSpace c = true ->
  IsTokenChar (normalize_step up c).1 = true /\
  normalize_step up (normalize_step up c).1 = normalize_step up c.
Proof. destruct up; by destruct c. Qed.

(** Normalised names are made of token characters and are normal. *)
Lemma normalize_tokens up s : forallb (fun c => IsTokenChar c || IsWhiteSpace c) s = true ->
  forallb IsTokenChar (normalize up s) = true /\ normalize up (normalize up s) = normalize up s.
Proof.
  revert up. induction s as [|c s IH]; intros up Hs; [done|]. cbn [forallb] in Hs. bool_prop.
  destruct (normalize_step_token up c) as [Ht Hi]; [done|]. cbn [normalize].
  assert (Hn : forall x, IsTokenChar x = true -> x <> NUL) by (intros x Hx; by destruct (token_char_plain x Hx) as (_ & _ & ? & _)).
  rewrite bool_decide_false.
  2: { intros ->. done. }
  destruct (normalize_step up c) as [d up'] eqn:E. cbn [fst] in *.
  destruct (IH up') as [H1 H2]; [done|]. cbn [forallb normalize].
  rewrite bool_decide_false by (by apply Hn). rewrite Hi, H2, Ht. done.
Qed.

Lemma trim_lwf_tokens s : forallb IsTokenChar s = true -> trim_lwf s = s.
Proof.
  intros H. unfold trim_lwf. rewrite drop_while_id; [apply rev_involutive|].
  destruct (rev s) as [|c l] eqn:E; [done|]. cbn. rewrite forallb_forall in H.
  destruct (token_char_plain c) as (? & _); [|done]. apply H. apply in_rev. rewrite E. by left.
Qed.

(** The normal form of a valid field name exists, is itself a valid name and its own
    normal form, and is the same for all names that differ from it only in the case of
    letters. *)
Theorem NormalizeFieldName_canonical (name : bytes) :
  IsValidFieldName name = true ->
  exists n, NormalizeFieldName name = Some n /\ IsValidFieldName n = true /\
    NormalizeFieldName n = Some n /\
    forall name', tolower <$> name' = tolower <$> name -> NormalizeFieldName name' = Some n.
Proof.
  intros Hv. assert (Hnul : NUL ∉ name) by (intros H; by destruct (valid_name_plain _ _ Hv H) as (_ & ? & _)).
  destruct name as [|c s]; [done|]. cbn [IsValidFieldName] in Hv. bool_prop.
  destruct (token_char_plain c) as (Hc & _); [done|].
  destruct (trim_lwf_prefix (c :: s)) as (ws & Hws). destruct (trim_lwf_cons c s Hc) as (t & Ht).
  assert (Htok : forallb (fun c => IsTokenChar c || IsWhiteSpace c) (c :: t) = true).
  { rewrite Ht in Hws. injection Hws as Hws. cbn. apply andb_true_iff. split; [by apply orb_true_iff; left|].
    assert (Hf : forallb (fun c => IsTokenChar c || IsWhiteSpace c) s = true) by done.
    rewrite Hws, forallb_app in Hf. by apply andb_true_iff in Hf as [? _]. }
  destruct (normalize_tokens true _ Htok) as [H1 H2].
  exists (normalize true (c :: t)). rewrite NormalizeFieldName_start, Ht by done.
  destruct (normalize true (c :: t)) as [|d n] eqn:En.
  { cbn [normalize] in En. case_bool_decide; [done|]. by destruct (normalize_step true c). }
  assert (Hn : NormalizeFieldName (d :: n) = Some (d :: n)).
  { pose proof H1 as H1'. cbn [forallb] in H1'. bool_prop.
    rewrite NormalizeFieldName_start, trim_lwf_tokens, H2; [done|done|].
    by destruct (token_char_plain d) as (? & _). }
  split_and!; [done| |done|].
  - cbn [forallb IsValidFieldName] in *. bool_prop. apply andb_true_iff. split; [done|].
    rewrite forallb_forall in *. intros x Hx. apply orb_true_iff. left. auto.
  - intros name' E. destruct name' as [|c' s']; [done|].
    assert (Hnul' : NUL ∉ c' :: s').
    { intros H'. apply Hnul. apply (list_elem_of_fmap_2 tolower) in H'. rewrite E in H'.
      apply list_elem_of_fmap in H' as (y & Hy & H'). by replace NUL with y by (by destruct y). }
    assert (Hl' : IsLwfChar c' = false).
    { rewrite <- IsLwfChar_tolower, <- Hc, <- (IsLwfChar_tolower c).
      rewrite !fmap_cons in E. by injection E as ->. }
    rewrite <- NormalizeFieldName_tolower by done. rewrite E, NormalizeFieldName_tolower by done.
    by rewrite NormalizeFieldName_start, Ht, En.
Qed.

Lemma NormalizeFieldName_canonical_witness :
  exists n, NormalizeFieldName (bstr "content-lengTH") = Some n /\ IsValidFieldName n = true /\
    NormalizeFieldName n = Some n /\
    forall name', tolower <$> name' = tolower <$> bstr "content-lengTH" -> NormalizeFieldName name' = Some n.
Proof. by apply (NormalizeFieldName_canonical (bstr "content-lengTH")). Defined.

(** ** The [Authorization] field *)

(** What base64 text is made of: valid in a field, and no NUL. *)
Definition plain_char (c : byte) : bool :=
  negb (IsCtlChar c && negb (IsLwfChar c)) && negb (bool_decide (c = NUL)).

Lemma plain_digit v : 0 <= v < 64 -> plain_char (Base64.digit v) = true.
Proof. intros Hv. by apply (below_spec 64 (fun v => plain_char (Base64.digit v))). Qed.

Lemma plain_quad a b c : Forall (fun x => plain_char x = true) (Base64.quad a b c).
Proof.
  pose proof (uchar_range a). pose proof (uchar_range b). pose proof (uchar_range c).
  unfold Base64.quad. repeat constructor; apply plain_digit; dlia.
Qed.

Lemma plain_rfc4648 n k s : Forall (fun x => plain_char x = true) (Base64.rfc4648 n k s).
Proof.
  revert k. induction s as [|a|a b|a b c s IH] using Base64.bytes_ind3; intros k; cbn [Base64.rfc4648].
  - constructor.
  - apply Forall_app_2; [apply Forall_take, plain_quad|by repeat constructor].
  - apply Forall_app_2; [apply Forall_take, plain_quad|by repeat constructor].
  - apply Forall_app_2; [apply plain_quad|]. destruct (_ && _); [|apply IH]. constructor; [done|apply IH].
Qed.

Lemma cstr_app a b : NUL ∉ a -> cstr (a ++ b) = a ++ cstr b.
Proof.
  induction a as [|c a IH]; [done|]. intros [Hc Ha]%not_elem_of_cons. unfold cstr in *.
  cbn [app take_while]. unfold not_nul at 1. rewrite bool_decide_false by done. cbn [negb]. by rewrite IH.
Qed.

Lemma plain_content l : Forall (fun x => plain_char x = true) l -> IsValidFieldContent l = true /\ NUL ∉ l.
Proof.
  intros H. split.
  - apply forallb_forall. intros x Hx. rewrite List.Forall_forall in H. apply H in Hx.
    unfold plain_char in Hx. by apply andb_true_iff in Hx as [? _].
  - intros Hx. rewrite List.Forall_forall in H. apply list_elem_of_In, H in Hx. done.
Qed.

Lemma AddField_replace h name content as_is key :
  IsValidFieldName name = true -> IsValidFieldContent content = true -> NUL ∉ content ->
  field_key name as_is = Some key ->
  AddField h name content true as_is = Some (with_fields (<[key := content]> (fields_ h)) h, true).
Proof.
  intros Hn Hc Hnul Hk. unfold AddField, AddField_buffer. rewrite take_app_length, Hn, Hc, Hk.
  cbn [negb orb mbind option_bind]. rewrite cstr_id by done. by destruct (fields_ h !! key).
Qed.

(** The user and the password that [SetAuthorizationField] stores are those that
    [GetAuthorizationField] answers, whatever bytes the password has and whatever was left
    in the decoder's buffer, when the user has no colon and no NUL. *)
Theorem authorization_reads_back (user passwd : bytes) (h : Header) (stale : byte) :
  Byte.x3a ∉ user -> NUL ∉ user ->
  exists h', SetAuthorizationField user passwd h = Some (h', true) /\
    GetAuthorizationField stale h' = Some (Some (user, passwd)).
Proof.
  intros Hcolon Hnul. unfold SetAuthorizationField. rewrite find_char_None by done.
  set (text := user ++ bstr ":" ++ passwd). set (n := int32 (2 * zlen text + 4)).
  set (code := Base64.EncodeAll n text).
  assert (Hcode : Forall (fun x => plain_char x = true) (bstr "Basic " ++ code)).
  { apply Forall_app_2; [by repeat constructor|]. unfold code. rewrite Base64.EncodeAll_rfc4648. apply plain_rfc4648. }
  destruct (plain_content _ Hcode) as [Hv Hn0].
  rewrite (AddField_replace _ _ _ _ kHeaderAuthorization) by done.
  eexists; split; [done|]. unfold GetAuthorizationField. cbn [fields_ with_fields].
  rewrite lookup_insert_eq, bool_decide_false by done.
  change (drop_while isspace (bstr "Basic " ++ code)) with (bstr "Basic " ++ code). rewrite Nat.sub_diag, drop_0.
  cbn zeta. rewrite cstr_id by done. change (bstr "Basic " ++ code) with (bstr "Basic" ++ [SP] ++ code).
  rewrite (find_word (bstr "Basic") code) by by apply not_in. cbn [mbind option_bind]. change (0 + length (bstr "Basic"))%nat with (length (bstr "Basic")).
  rewrite drop_app_length.
  assert (Hdec : Base64.Decode stale ([SP] ++ code) = text).
  { rewrite <- (Base64.Decode_EncodeAll stale n text). fold code. unfold Base64.Decode. cbn [app Base64.DecodeBlock].
    change (Base64.DecodeChar stale Base64.InitDecodeState SP) with (Base64.InitDecodeState, @nil byte).
    cbv beta iota. by destruct (Base64.DecodeBlock stale Base64.InitDecodeState code). }
  assert (Htext : text <> []) by (unfold text; by destruct user).
  rewrite Hdec, (bool_decide_false (text = [])) by done.
  unfold text. rewrite cstr_app by done. cbn [app]. change (bstr ":" ++ passwd) with (Byte.x3a :: passwd).
  change (cstr (Byte.x3a :: passwd)) with (Byte.x3a :: cstr passwd). rewrite find_char by done.
  by rewrite take_app_length, <- drop_drop, drop_app_length.
Qed.

Lemma authorization_reads_back_witness :
  exists h', SetAuthorizationField (bstr "me") [Byte.x3a; NUL; Byte.xff] (Header_new true) = Some (h', true) /\
    GetAuthorizationField Byte.x55 h' = Some (Some (bstr "me", [Byte.x3a; NUL; Byte.xff])).
Proof.
  apply (authorization_reads_back (bstr "me") [Byte.x3a; NUL; Byte.xff] (Header_new true) Byte.x55);
    by apply not_in.
Defined.

(** ** What the checks of [AddField] let through *)

(** A field is added to a request, and the request is sent and parsed. *)
Definition relay (name content : bytes) : option (Header * Header) :=
  '(h, _) ← AddField example_request name content true false;
  text ← ToString h;
  '(h', _, _) ← ParseHttpRequest (Header_new true) text;
  Some (h, h').

(** [IsValidFieldContent] takes a carriage return and a line feed, as white space: a
    content with a line in it is added, printed as it is, and the receiver finds in the
    header a field that the sender's header does not have. *)
Theorem AddField_takes_lines :
  exists h h', relay (bstr "X-Name") (bstr "a" ++ CRLF ++ bstr "Cookie: b") = Some (h, h') /\
    HasField h (bstr "Cookie") = false /\ HasField h' (bstr "Cookie") = true /\ parse_error_ h' = READ_OK.
Proof. do 2 eexists. split; [vm_compute; reflexivity|]. by vm_compute. Qed.

(** The flag [as_is] of [AddField] has the opposite effect: the name is stored in normal
    form when it is set, and as it was given when it is not. *)
Theorem AddField_as_is_inverted (h : Header) :
  exists h1 h2,
    AddField h (bstr "content-type") (bstr "text/css") true true = Some (h1, true) /\
    fields_ h1 = <[bstr "Content-Type" := bstr "text/css"]> (fields_ h) /\
    AddField h (bstr "content-type") (bstr "text/css") true false = Some (h2, true) /\
    fields_ h2 = <[bstr "content-type" := bstr "text/css"]> (fields_ h).
Proof.
  do 2 eexists. rewrite (AddField_replace _ _ _ true (bstr "Content-Type")) by (done || by apply not_in).
  rewrite (AddField_replace _ _ _ false (bstr "content-type")) by (done || by apply not_in). done.
Qed.
