(* ===== verification/Raft.v ===== *)
(** * Raft: [raft/raft_server.h], [raft/raft_server.cc], [raft/RaftProto.proto]

    The server of the replicated log: one state record, one function per RPC handler and per
    callback, and the messages they send.  The log is used through the interface [RaftLog]:
    a reader is always used by a [Seek] followed by at most one read, so that of its state
    only the position after the read is kept ([n_reader_pos]).  The clock is seen through the
    two comparisons of [PeriodicCheck].  [None] is a [CHECK] that fails, or an access to a
    node that does not exist; the [DCHECK] of [AppendRequestEntriesLocked] is off, as in a
    release build. *)

From stdpp Require Import sorting.
From S2P Require Import Prelude.
From S2P Require Import LogIO.

Module Raft.

(** ** Messages *)

(** A position in a message: [optional] fields, as [PosToProto] sets them. *)
Record pb_LogPos := mk_pb_LogPos {
  pb_file_num : option Z;
  pb_block_num : option Z;
  pb_record_num : option Z;
  pb_is_null : option bool;
}.

Definition set_nonzero (z : Z) : option Z := if negb (z =? 0) then Some z else None.

Definition PosToProto (l : LogPos) : pb_LogPos :=
  if LogPos_IsNull l then mk_pb_LogPos None None None (Some true)
  else mk_pb_LogPos (set_nonzero (file_num_ l)) (set_nonzero (block_num_ l)) (set_nonzero (record_num_ l)) None.

Definition PosFromProto (p : pb_LogPos) : LogPos :=
  if default false (pb_is_null p) then LogPos_null
  else mkLogPos (default 0 (pb_file_num p)) (default 0 (pb_block_num p)) (default 0 (pb_record_num p)).

Record DataEntry := mkDataEntry {
  e_pos : pb_LogPos;
  e_last_log_pos : pb_LogPos;
  e_term : Z;
  e_last_log_term : Z;
  e_data : bytes;
}.

Definition DataEntry_empty : DataEntry :=
  mkDataEntry (mk_pb_LogPos None None None None) (mk_pb_LogPos None None None None) 0 0 [].

Record RequestVote := mkRequestVote {
  rv_term : Z;
  rv_candidate_id : Z;
  rv_last_log_pos : pb_LogPos;
  rv_last_log_term : Z;
}.

Record RequestVoteResponse := mkRequestVoteResponse { rvr_term : Z; rvr_vote_granted : bool }.

Record AppendEntries := mkAppendEntries {
  ae_term : Z;
  ae_leader_id : Z;
  ae_last_log_pos : pb_LogPos;
  ae_last_log_term : Z;
  ae_leader_commit_pos : pb_LogPos;
  ae_entry : list DataEntry;
}.

Record AppendEntriesResponse := mkAppendEntriesResponse {
  aer_term : Z;
  aer_success : bool;
  aer_current_pos : option pb_LogPos;
  aer_commit_pos : option pb_LogPos;
}.

Record DataResponse := mkDataResponse {
  dr_pos : option pb_LogPos;
  dr_term : option Z;
  dr_was_committed : option bool;
  dr_leader_name : option bytes;
}.

(** What [SaveStateLocked] writes. *)
Record RaftState := mkRaftState {
  rs_current_term : Z;
  rs_voted_for : option Z;
  rs_last_log_pos : pb_LogPos;
  rs_last_log_term : Z;
  rs_commit_pos : pb_LogPos;
}.

(** ** The log *)

(** [log_Seek l p] is where a reader is ([TellAtBlock]) after a [Seek] to [p] that succeeds;
    [log_ReadCurrent l p] is the entry then read and where the reader is after it;
    [log_left l p] bounds the entries from [p] on. *)
Class RaftLog (L : Type) := {
  log_Tell : L -> LogPos;
  log_WriteRecord : L -> DataEntry -> L * bool;
  log_Flush : L -> L;
  log_TruncateAt : L -> LogPos -> L;
  log_Seek : L -> LogPos -> option LogPos;
  log_ReadCurrent : L -> LogPos -> option (DataEntry * LogPos);
  log_left : L -> LogPos -> nat;
}.

(** ** The state *)

Inductive State := RAFT_STATE_NONE | RAFT_STATE_FOLLOWER | RAFT_STATE_CANDIDATE | RAFT_STATE_LEADER.

#[export] Instance State_eq_dec : EqDecision State.
Proof. solve_decision. Defined.

Record Node := mkNode {
  n_name : bytes;
  n_votes_for_me : bool;
  n_next_log_pos : LogPos;
  n_last_log_pos : LogPos;
  n_last_log_term : Z;
  n_match_log_pos : LogPos;
  n_entry : DataEntry;
  n_reader_pos : LogPos;     (* log_reader_->TellAtBlock() *)
  n_in_transfer : bool;
}.

Definition Node_new (name : bytes) : Node :=
  mkNode name false LogPos_null LogPos_null 0 LogPos_null DataEntry_empty LogPos_null false.

Definition node_set_vote (v : bool) (n : Node) : Node :=
  mkNode (n_name n) v (n_next_log_pos n) (n_last_log_pos n) (n_last_log_term n)
    (n_match_log_pos n) (n_entry n) (n_reader_pos n) (n_in_transfer n).
Definition node_set_next (p : LogPos) (n : Node) : Node :=
  mkNode (n_name n) (n_votes_for_me n) p (n_last_log_pos n) (n_last_log_term n)
    (n_match_log_pos n) (n_entry n) (n_reader_pos n) (n_in_transfer n).
Definition node_set_last (p : LogPos) (term : Z) (n : Node) : Node :=
  mkNode (n_name n) (n_votes_for_me n) (n_next_log_pos n) p term
    (n_match_log_pos n) (n_entry n) (n_reader_pos n) (n_in_transfer n).
Definition node_set_match (p : LogPos) (n : Node) : Node :=
  mkNode (n_name n) (n_votes_for_me n) (n_next_log_pos n) (n_last_log_pos n) (n_last_log_term n)
    p (n_entry n) (n_reader_pos n) (n_in_transfer n).
Definition node_set_read (e : DataEntry) (p : LogPos) (n : Node) : Node :=
  mkNode (n_name n) (n_votes_for_me n) (n_next_log_pos n) (n_last_log_pos n) (n_last_log_term n)
    (n_match_log_pos n) e p (n_in_transfer n).
Definition node_set_transfer (b : bool) (n : Node) : Node :=
  mkNode (n_name n) (n_votes_for_me n) (n_next_log_pos n) (n_last_log_pos n) (n_last_log_term n)
    (n_match_log_pos n) (n_entry n) (n_reader_pos n) b.

(** What a handler causes outside: requests to other nodes, the completion of client calls
    (by the number of the call), and the commit closure, where there is one. *)
Inductive Out :=
  | SendVote (to : nat) (req : RequestVote)
  | SendAppend (to : nat) (req : AppendEntries)
  | ClientDone (call : nat) (response : DataResponse)
  | RunCommitClosure.

(** The order [std::sort] uses on positions. *)
Definition pos_le (a b : LogPos) : Prop := LogPos_le a b = true.

#[export] Instance pos_le_dec : RelDecision pos_le.
Proof. intros a b. unfold pos_le. apply _. Defined.

Section Server.
Context {L : Type} `{RaftLog L}.

(** The size of an entry in its wire format. *)
Variable ByteSize : DataEntry -> Z.

Record Server := mkServer {
  node_id_ : nat;
  nodes_ : list Node;
  current_term_ : Z;
  voted_for_ : Z;
  last_log_pos_ : LogPos;
  last_log_term_ : Z;
  leader_id_ : Z;
  state_ : State;
  commit_pos_ : LogPos;
  commit_waiters_ : list (LogPos * (DataResponse * nat));  (* the map, in the order of its keys *)
  candidate_votes_out_ : Z;
  max_entries_size_ : Z;
  log_ : L;
  saved_ : option RaftState;                (* the state file *)
}.

Definition set_nodes (x : list Node) (s : Server) : Server :=
  mkServer (node_id_ s) x (current_term_ s) (voted_for_ s) (last_log_pos_ s) (last_log_term_ s)
    (leader_id_ s) (state_ s) (commit_pos_ s) (commit_waiters_ s) (candidate_votes_out_ s)
    (max_entries_size_ s) (log_ s) (saved_ s).
Definition set_current_term (x : Z) (s : Server) : Server :=
  mkServer (node_id_ s) (nodes_ s) x (voted_for_ s) (last_log_pos_ s) (last_log_term_ s)
    (leader_id_ s) (state_ s) (commit_pos_ s) (commit_waiters_ s) (candidate_votes_out_ s)
    (max_entries_size_ s) (log_ s) (saved_ s).
Definition set_voted_for (x : Z) (s : Server) : Server :=
  mkServer (node_id_ s) (nodes_ s) (current_term_ s) x (last_log_pos_ s) (last_log_term_ s)
    (leader_id_ s) (state_ s) (commit_pos_ s) (commit_waiters_ s) (candidate_votes_out_ s)
    (max_entries_size_ s) (log_ s) (saved_ s).
Definition set_last_log_pos (x : LogPos) (s : Server) : Server :=
  mkServer (node_id_ s) (nodes_ s) (current_term_ s) (voted_for_ s) x (last_log_term_ s)
    (leader_id_ s) (state_ s) (commit_pos_ s) (commit_waiters_ s) (candidate_votes_out_ s)
    (max_entries_size_ s) (log_ s) (saved_ s).
Definition set_last_log_term (x : Z) (s : Server) : Server :=
  mkServer (node_id_ s) (nodes_ s) (current_term_ s) (voted_for_ s) (last_log_pos_ s) x
    (leader_id_ s) (state_ s) (commit_pos_ s) (commit_waiters_ s) (candidate_votes_out_ s)
    (max_entries_size_ s) (log_ s) (saved_ s).
Definition set_leader_id (x : Z) (s : Server) : Server :=
  mkServer (node_id_ s) (nodes_ s) (current_term_ s) (voted_for_ s) (last_log_pos_ s)
    (last_log_term_ s) x (state_ s) (commit_pos_ s) (commit_waiters_ s) (candidate_votes_out_ s)
    (max_entries_size_ s) (log_ s) (saved_ s).
Definition set_state (x : State) (s : Server) : Server :=
  mkServer (node_id_ s) (nodes_ s) (current_term_ s) (voted_for_ s) (last_log_pos_ s)
    (last_log_term_ s) (leader_id_ s) x (commit_pos_ s) (commit_waiters_ s)
    (candidate_votes_out_ s) (max_entries_size_ s) (log_ s) (saved_ s).
Definition set_commit_pos (x : LogPos) (s : Server) : Server :=
  mkServer (node_id_ s) (nodes_ s) (current_term_ s) (voted_for_ s) (last_log_pos_ s)
    (last_log_term_ s) (leader_id_ s) (state_ s) x (commit_waiters_ s) (candidate_votes_out_ s)
    (max_entries_size_ s) (log_ s) (saved_ s).
Definition set_commit_waiters (x : list (LogPos * (DataResponse * nat))) (s : Server) : Server :=
  mkServer (node_id_ s) (nodes_ s) (current_term_ s) (voted_for_ s) (last_log_pos_ s)
    (last_log_term_ s) (leader_id_ s) (state_ s) (commit_pos_ s) x (candidate_votes_out_ s)
    (max_entries_size_ s) (log_ s) (saved_ s).
Definition set_candidate_votes_out (x : Z) (s : Server) : Server :=
  mkServer (node_id_ s) (nodes_ s) (current_term_ s) (voted_for_ s) (last_log_pos_ s)
    (last_log_term_ s) (leader_id_ s) (state_ s) (commit_pos_ s) (commit_waiters_ s) x
    (max_entries_size_ s) (log_ s) (saved_ s).
Definition set_log (x : L) (s : Server) : Server :=
  mkServer (node_id_ s) (nodes_ s) (current_term_ s) (voted_for_ s) (last_log_pos_ s)
    (last_log_term_ s) (leader_id_ s) (state_ s) (commit_pos_ s) (commit_waiters_ s)
    (candidate_votes_out_ s) (max_entries_size_ s) x (saved_ s).
Definition set_saved (x : option RaftState) (s : Server) : Server :=
  mkServer (node_id_ s) (nodes_ s) (current_term_ s) (voted_for_ s) (last_log_pos_ s)
    (last_log_term_ s) (leader_id_ s) (state_ s) (commit_pos_ s) (commit_waiters_ s)
    (candidate_votes_out_ s) (max_entries_size_ s) (log_ s) x.

Definition me (s : Server) : Node := default (Node_new []) (nodes_ s !! node_id_ s).
Definition node (s : Server) (i : nat) : Node := default (Node_new []) (nodes_ s !! i).
Definition update_node (i : nat) (f : Node -> Node) (s : Server) : Server := set_nodes (alter f i (nodes_ s)) s.

Definition is_follower (s : Server) : bool := bool_decide (state_ s = RAFT_STATE_FOLLOWER).
Definition is_leader (s : Server) : bool := bool_decide (state_ s = RAFT_STATE_LEADER).
Definition is_candidate (s : Server) : bool := bool_decide (state_ s = RAFT_STATE_CANDIDATE).

(** [candidate_votes_out_] is not in the initialiser list of the constructor: it starts at
    whatever was in memory. *)
Definition Server_new (garbage : Z) (log : L) : Server :=
  mkServer 0 [] 0 (-1) LogPos_null 0 (-1) RAFT_STATE_FOLLOWER LogPos_null [] garbage (2 ^ 20) log None.

(** ** The state file *)

Definition SaveStateLocked (s : Server) : Server :=
  set_saved (Some (mkRaftState (current_term_ s) (if 0 <=? voted_for_ s then Some (voted_for_ s) else None)
    (PosToProto (last_log_pos_ s)) (last_log_term_ s) (PosToProto (commit_pos_ s)))) s.

(** [saved_] is what is found in the file. *)
Definition LoadStateLocked (s : Server) : Server * bool :=
  match saved_ s with
  | None => (s, negb (0 <? block_num_ (log_Tell (log_ s))))
  | Some st =>
      (set_commit_pos (PosFromProto (rs_commit_pos st)) (set_last_log_term (rs_last_log_term st)
        (set_last_log_pos (PosFromProto (rs_last_log_pos st)) (set_voted_for (default (-1) (rs_voted_for st))
          (set_current_term (rs_current_term st) s)))), true)
  end.

Definition set_node_id (n : nat) (nodes : list Node) (s : Server) : Server :=
  mkServer n nodes (current_term_ s) (voted_for_ s) (last_log_pos_ s) (last_log_term_ s) (leader_id_ s)
    (state_ s) (commit_pos_ s) (commit_waiters_ s) (candidate_votes_out_ s) (max_entries_size_ s)
    (log_ s) (saved_ s).

Definition Initialize (node_id : nat) (names : list bytes) (s : Server) : option (Server * bool) :=
  CHECK (bool_decide (length (nodes_ s) = O));; CHECK (node_id <? length names)%nat;;
  let '(s, ok) := LoadStateLocked s in
  if negb ok then Some (s, false) else Some (set_node_id node_id (Node_new <$> names) s, true).

(** ** Handlers

    An [Act] is a handler or a part of one: the new state and what it sends, in order. *)
Definition Act := Server -> option (Server * list Out).

Definition skip : Act := fun s => Some (s, []).
Definition andthen (f g : Act) : Act := fun s =>
  '(s, o1) ← f s; '(s, o2) ← g s; Some (s, o1 ++ o2).

(** [for (i = 0; i < nodes_.size(); ++i)]. *)
Definition each_node (f : nat -> Act) : Act := fun s =>
  foldr (fun i k => andthen (f i) k) skip (seq 0 (length (nodes_ s))) s.

(** *** Sending *)

Definition FillAppendEntriesLocked (s : Server) (n : Node) : option AppendEntries :=
  CHECK (is_leader s);;
  Some (mkAppendEntries (current_term_ s) (Z.of_nat (node_id_ s)) (PosToProto (n_last_log_pos n))
          (n_last_log_term n) (PosToProto (commit_pos_ s)) []).

(** [req->add_entry()], for several entries. *)
Definition add_entries (entries : list DataEntry) (r : AppendEntries) : AppendEntries :=
  mkAppendEntries (ae_term r) (ae_leader_id r) (ae_last_log_pos r) (ae_last_log_term r)
    (ae_leader_commit_pos r) (ae_entry r ++ entries).

Definition PullNext (l : L) (n : Node) : option Node :=
  _ ← log_Seek l (n_next_log_pos n);
  '(e, q) ← log_ReadCurrent l (n_next_log_pos n);
  Some (node_set_read e q n).

Definition SetPositionsFromEntry (n : Node) : Node :=
  node_set_last (PosFromProto (e_pos (n_entry n))) (e_term (n_entry n)) (node_set_next (n_reader_pos n) n).

Definition pull_step (l : L) (max_size : Z) (st : Node * list DataEntry * Z)
    : option (Node * list DataEntry * Z + Node * list DataEntry) :=
  let '(n, entries, size) := st in
  if LogPos_lt (n_next_log_pos n) (log_Tell l) && (size <? max_size) then
    n ← PullNext l n;
    Some (inl (SetPositionsFromEntry n, entries ++ [n_entry n], size + ByteSize (n_entry n)))
  else Some (inr (n, entries)).

Definition pull_entries (l : L) (max_size : Z) (n : Node) : option (Node * list DataEntry) :=
  loop (pull_step l max_size) (S (log_left l (n_next_log_pos n))) (n, [], 0).

Definition SendAppendLocked (i : nat) (req : AppendEntries) : Act := fun s =>
  CHECK (negb (n_in_transfer (node s i)));;
  Some (update_node i (node_set_transfer true) s, [SendAppend i req]).

Definition SendAppendEntriesToNodeLocked (i : nat) (is_filled : bool) (max_size : Z) : Act := fun s =>
  let n := node s i in
  if n_in_transfer n then skip s
  else
    req ← FillAppendEntriesLocked s n;
    '(n', entries) ← (if negb is_filled then pull_entries (log_ s) max_size n
                      else Some (SetPositionsFromEntry n, [n_entry n]));
    SendAppendLocked i (add_entries entries req) (update_node i (fun _ => n') s).

Definition SendHeartbeatToFollowersLocked : Act := fun s =>
  CHECK (is_leader s);;
  each_node (fun i s =>
    if (node_id_ s =? i)%nat || n_in_transfer (node s i) then skip s
    else SendAppendEntriesToNodeLocked i false (max_entries_size_ s) s) s.

Definition SendRequestVoteLocked : Act :=
  each_node (fun i s =>
    if (node_id_ s =? i)%nat then skip s
    else Some (set_candidate_votes_out (candidate_votes_out_ s + 1) s,
               [SendVote i (mkRequestVote (current_term_ s) (Z.of_nat (node_id_ s))
                              (PosToProto (last_log_pos_ s)) (last_log_term_ s))])).

(** *** Changing state *)

Definition BecomeCandidateLocked : Act := fun s =>
  CHECK (negb (is_leader s));;
  let s := set_state RAFT_STATE_CANDIDATE s in
  let s := set_voted_for (Z.of_nat (node_id_ s)) s in
  let s := set_leader_id (-1) s in
  let s := set_nodes (node_set_vote false <$> nodes_ s) s in
  let s := update_node (node_id_ s) (node_set_vote true) s in
  let s := set_current_term (int64 (current_term_ s + 1)) s in
  '(s, out) ← SendRequestVoteLocked s;
  Some (SaveStateLocked s, out).

(** The positions a new leader starts from: its own, and every follower at the same place
    with nothing known to match. *)
Definition leader_own (p : LogPos) (term : Z) (n : Node) : Node :=
  node_set_match p (node_set_last p term n).
Definition leader_follower (me n : Node) : Node :=
  node_set_match LogPos_null
    (node_set_last (n_last_log_pos me) (n_last_log_term me) (node_set_next (n_next_log_pos me) n)).

Definition BecomeLeaderLocked : Act := fun s =>
  CHECK (is_candidate s);;
  let id := node_id_ s in
  let s := set_leader_id (Z.of_nat id) (set_voted_for (Z.of_nat id) (set_state RAFT_STATE_LEADER s)) in
  _ ← log_Seek (log_ s) (last_log_pos_ s);
  s ← (if negb (LogPos_IsNull (last_log_pos_ s)) then
         '(e, q) ← log_ReadCurrent (log_ s) (last_log_pos_ s);
         Some (update_node id (fun n => node_set_next q (node_set_read e q n)) s)
       else Some (update_node id (node_set_next (mkLogPos 0 0 0)) s));
  let s := update_node id (leader_own (last_log_pos_ s) (last_log_term_ s)) s in
  let m := me s in
  let s := set_nodes (imap (fun i n => if (i =? id)%nat then n else leader_follower m n) (nodes_ s)) s in
  SendHeartbeatToFollowersLocked (SaveStateLocked s).

Definition BecomeFollowerLocked (leader_id : Z) (s : Server) : Server :=
  SaveStateLocked (set_leader_id leader_id (set_voted_for leader_id (set_state RAFT_STATE_FOLLOWER s))).

Definition UpdateCurrentTermLocked (term leader_id : Z) (s : Server) : Server :=
  let s := set_current_term term s in
  if negb (is_follower s) then BecomeFollowerLocked leader_id s else SaveStateLocked s.

(** *** Voting *)

Definition vote_granted (s : Server) (request : RequestVote) : bool :=
  let pos := PosFromProto (rv_last_log_pos request) in
  if zlen (nodes_ s) <=? size_t (rv_candidate_id request) then false
  else if (current_term_ s <? rv_term request) && LogPos_ge pos (commit_pos_ s) then true
  else if (rv_term request <? current_term_ s) || negb (voted_for_ s =? -1) ||
          LogPos_lt pos (last_log_pos_ s) then false
  else true.

Definition Vote (request : RequestVote) (s : Server) : Server * RequestVoteResponse :=
  let granted := vote_granted s request in
  let s := if granted then
             SaveStateLocked (set_current_term (rv_term request) (set_voted_for (rv_candidate_id request) s))
           else s in
  (s, mkRequestVoteResponse (current_term_ s) granted).

(** The condition of the loop assigns: [(nodes_[i]->votes_for_me_ = true) ? 1 : 0]. *)
Definition count_votes (nodes : list Node) : list Node * Z :=
  foldr (fun n '(ns, count) =>
    let n := node_set_vote true n in (n :: ns, count + (if n_votes_for_me n then 1 else 0))) ([], 0) nodes.

(** The answer of node [i] to a request of ours; [None] is a call that failed. *)
Definition ProcessRequestVoteResponse (i : nat) (resp : option RequestVoteResponse) : Act := fun s =>
  '(s, out) ←
    match resp with
    | Some r =>
        if is_candidate s then
          if rvr_vote_granted r then
            let s := update_node i (node_set_vote true) s in
            let '(ns, num_votes_for_me) := count_votes (nodes_ s) in
            let s := set_nodes ns s in
            if zlen (nodes_ s) / 2 + 1 <=? num_votes_for_me then BecomeLeaderLocked s else skip s
          else skip s
        else skip s
    | None => skip s
    end;
  let s := set_candidate_votes_out (candidate_votes_out_ s - 1) s in
  Some (if (candidate_votes_out_ s =? 0) && is_candidate s then BecomeFollowerLocked (-1) s else s, out).

(** *** Commits *)

(** The waiters up to the commit position, which are answered. *)
Fixpoint AdvanceWaiters (commit : LogPos) (ws : list (LogPos * (DataResponse * nat)))
    : list (LogPos * (DataResponse * nat)) * list Out :=
  match ws with
  | (p, (r, call)) :: ws' =>
      if LogPos_le p commit then
        let '(rest, out) := AdvanceWaiters commit ws' in
        (rest, ClientDone call (mkDataResponse (dr_pos r) (dr_term r) (Some true) (dr_leader_name r)) :: out)
      else (ws, [])
  | [] => ([], [])
  end.

Definition AdvanceWaitersLocked : Act := fun s =>
  let '(ws, out) := AdvanceWaiters (commit_pos_ s) (commit_waiters_ s) in
  Some (set_commit_waiters ws s, out).

Definition ClearWaitersLocked : Act := fun s =>
  Some (set_commit_waiters [] s, (fun '(_, (r, call)) => ClientDone call r) <$> commit_waiters_ s).

(** [std::map::insert]: in the order of the keys, and nothing for a key that is there. *)
Fixpoint insert_waiter (p : LogPos) (w : DataResponse * nat) (ws : list (LogPos * (DataResponse * nat)))
    : list (LogPos * (DataResponse * nat)) :=
  match ws with
  | (q, v) :: ws' =>
      if LogPos_lt p q then (p, w) :: ws
      else if LogPos_lt q p then (q, v) :: insert_waiter p w ws'
      else ws
  | [] => [(p, w)]
  end.

Definition sort_positions (l : list LogPos) : list LogPos := merge_sort pos_le l.

(** How far each server is known to have the log; the server itself has all of its own. *)
Definition positions (s : Server) : list LogPos :=
  alter (fun _ => last_log_pos_ s) (node_id_ s) (n_match_log_pos <$> nodes_ s).

Definition can_commit (s : Server) : LogPos :=
  nth (Z.to_nat ((zlen (positions s) - 1) / 2)) (sort_positions (positions s)) LogPos_null.

Definition MaybeAdvanceCommitLocked (s : Server) : option (Server * list Out * bool) :=
  CHECK (is_leader s);;
  if LogPos_le (can_commit s) (commit_pos_ s) then Some (s, [], false)
  else '(s, out) ← AdvanceWaitersLocked (SaveStateLocked (set_commit_pos (can_commit s) s));
       Some (s, out, true).

(** *** Appending *)

Definition MaybeTrucateLogAfterLocked (prev_term : Z) (prev_pos : LogPos) (s : Server) : Server * bool :=
  let writer_pos := log_Tell (log_ s) in
  let zero := mkLogPos 0 0 0 in
  let is_first_pos := LogPos_eqb writer_pos prev_pos && LogPos_eqb writer_pos zero in
  if LogPos_le writer_pos prev_pos && negb is_first_pos then (s, false)
  else match log_Seek (log_ s) prev_pos with
  | None => (s, false)
  | Some sought =>
      let truncate tell :=
        if LogPos_gt writer_pos tell then
          if LogPos_lt tell (commit_pos_ s) then (s, false)
          else let s := SaveStateLocked (set_last_log_pos prev_pos s) in
               (set_log (log_TruncateAt (log_ s) tell) s, true)
        else (set_last_log_pos prev_pos s, true) in
      if negb (LogPos_IsNull prev_pos) && negb is_first_pos then
        match log_ReadCurrent (log_ s) prev_pos with
        | None => (s, false)
        | Some (e, tell) => if negb (e_term e =? prev_term) then (s, false) else truncate tell
        end
      else if LogPos_IsNull writer_pos || LogPos_eqb writer_pos zero then
        (set_last_log_pos prev_pos s, true)
      else truncate sought
  end.

(** The loop of [AppendRequestEntriesLocked]: the log, and the position and the term of the
    last entry, or [None] after a write that failed. *)
Fixpoint append_entries (l : L) (entries : list DataEntry) : L * option (LogPos * Z) :=
  match entries with
  | [] => (l, None)
  | e :: es =>
      let prev := log_Tell l in
      let '(l', ok) := log_WriteRecord l e in
      if negb ok then (l', None)
      else let l' := log_Flush l' in
           match es with [] => (l', Some (prev, e_term e)) | _ => append_entries l' es end
  end.

Definition AppendRequestEntriesLocked (request : AppendEntries) (s : Server) : Server * bool :=
  let start_pos := log_Tell (log_ s) in
  if bool_decide (length (ae_entry request) = O) then (s, true)
  else match append_entries (log_ s) (ae_entry request) with
  | (l, Some (prev_pos, prev_term)) =>
      (set_last_log_term prev_term (set_last_log_pos prev_pos (set_log l s)), true)
  | (l, None) => (set_log (log_TruncateAt l start_pos) s, false)
  end.

(** Taking over the term and the leader of a request that is not older than our term. *)
Definition Append_term (request : AppendEntries) (s : Server) : Server :=
  if ae_term request =? current_term_ s then
    if is_candidate s then BecomeFollowerLocked (ae_leader_id request) s
    else if negb (leader_id_ s =? ae_leader_id request) then
      SaveStateLocked (set_leader_id (ae_leader_id request) s)
    else s
  else UpdateCurrentTermLocked (ae_term request) (ae_leader_id request) s.

(** The entries: the state, whether the request succeeds, and [need_save]. *)
Definition Append_entries (request : AppendEntries) (s : Server) : Server * bool * bool :=
  let last_log_pos := PosFromProto (ae_last_log_pos request) in
  if bool_decide (length (ae_entry request) = O) then
    (s, LogPos_eqb (last_log_pos_ s) last_log_pos && (last_log_term_ s =? ae_last_log_term request), false)
  else
    let '(s, ok) := MaybeTrucateLogAfterLocked (ae_last_log_term request) last_log_pos s in
    if ok then let '(s, ok) := AppendRequestEntriesLocked request s in (s, ok, ok)
    else (s, false, false).

(** The commit position of the leader, once the request has succeeded. *)
Definition Append_commit (request : AppendEntries) (success need_save : bool) (s : Server) : Server * bool :=
  let new_commit_pos := PosFromProto (ae_leader_commit_pos request) in
  if negb success then (s, false)
  else
    let updated := LogPos_gt new_commit_pos (commit_pos_ s) && LogPos_le new_commit_pos (last_log_pos_ s) in
    let s := if updated then set_commit_pos new_commit_pos s else s in
    (if need_save || updated then SaveStateLocked s else s, updated).

Definition Append (request : AppendEntries) (s : Server) : Server * list Out * AppendEntriesResponse :=
  if current_term_ s <=? ae_term request then
    let s := Append_term request s in
    let '(s, success, need_save) := Append_entries request s in
    let '(s, commit_pos_updated) := Append_commit request success need_save s in
    (s, if commit_pos_updated then [RunCommitClosure] else [],
     mkAppendEntriesResponse (current_term_ s) success (Some (PosToProto (log_Tell (log_ s))))
       (Some (PosToProto (commit_pos_ s))))
  else (s, [], mkAppendEntriesResponse (current_term_ s) false None None).

Definition DegradeNodeLocked (i : nat) (req : AppendEntries) (resp : AppendEntriesResponse) : Act := fun s =>
  let s := update_node i (node_set_next (PosFromProto (ae_last_log_pos req))) s in
  let next := n_next_log_pos (node s i) in
  if LogPos_IsNull next then
    SendAppendEntriesToNodeLocked i false (max_entries_size_ s)
      (update_node i (fun n => node_set_last LogPos_null 0 (node_set_next (mkLogPos 0 0 0) n)) s)
  else
    let behind := match aer_commit_pos resp with
                  | Some p => if LogPos_lt (PosFromProto p) next then Some (PosFromProto p) else None
                  | None => None
                  end in
    match behind with
    | Some commit_pos =>
        n ← PullNext (log_ s) (node_set_next commit_pos (node s i));
        SendAppendEntriesToNodeLocked i false (max_entries_size_ s)
          (update_node i (fun _ => SetPositionsFromEntry n) s)
    | None =>
        n ← PullNext (log_ s) (node s i);
        SendAppendEntriesToNodeLocked i true 1
          (update_node i (fun _ =>
             node_set_next (PosFromProto (e_pos (n_entry n)))
               (node_set_last (PosFromProto (e_last_log_pos (n_entry n))) (e_last_log_term (n_entry n)) n)) s)
    end.

(** The answer of node [i] to the request [req] of ours. *)
Definition ProcessAppendEntriesResponse (i : nat) (req : AppendEntries) (resp : option AppendEntriesResponse)
    : Act := fun s =>
  let s := update_node i (node_set_transfer false) s in
  match resp with
  | None => skip s
  | Some r =>
      if negb (is_leader s) then skip s
      else if current_term_ s <? aer_term r then skip (UpdateCurrentTermLocked (aer_term r) (-1) s)
      else if negb (aer_success r) then DegradeNodeLocked i req r s
      else match list.last (ae_entry req) with
      | None => skip s
      | Some e =>
          CHECK (LogPos_le (n_match_log_pos (node s i)) (n_next_log_pos (node s i)));;
          let p := PosFromProto (e_pos e) in
          let s := update_node i (fun n => node_set_last p (e_term e) (node_set_match p n)) s in
          '(s, out1, commit_pos_updated) ← MaybeAdvanceCommitLocked s;
          '(s, out2) ← (if LogPos_gt (log_Tell (log_ s)) (n_next_log_pos (node s i))
                        then SendAppendEntriesToNodeLocked i false (max_entries_size_ s) s else skip s);
          Some (s, out1 ++ out2 ++ (if commit_pos_updated : bool then [RunCommitClosure] else []))
      end
  end.

(** *** Clients and the timer *)

(** The new entry goes to the followers that have all the others and no request under way. *)
Definition send_new (i : nat) : Act := fun s =>
  if (i =? node_id_ s)%nat || n_in_transfer (node s i) then skip s
  else if LogPos_eqb (n_next_log_pos (node s i)) (last_log_pos_ s) then
    SendAppendEntriesToNodeLocked i false (max_entries_size_ s) s
  else skip s.

Definition Save (data : bytes) (wait_to_commit : bool) (call : nat) : Act := fun s =>
  if is_leader s then
    let new_last_pos := log_Tell (log_ s) in
    let entry := mkDataEntry (PosToProto new_last_pos) (PosToProto (last_log_pos_ s)) (current_term_ s)
                   (last_log_term_ s) data in
    let response := mkDataResponse (Some (PosToProto new_last_pos)) (Some (current_term_ s)) None None in
    let '(l, ok) := log_WriteRecord (log_ s) entry in
    if ok then
      let s := set_log (log_Flush l) s in
      let s := set_last_log_term (current_term_ s) (set_last_log_pos new_last_pos s) in
      '(s, out) ← each_node send_new (SaveStateLocked s);
      if wait_to_commit then
        Some (set_commit_waiters (insert_waiter new_last_pos (response, call) (commit_waiters_ s)) s, out)
      else Some (s, out ++ [ClientDone call response])
    else Some (set_log l s, [ClientDone call (mkDataResponse (dr_pos response) (dr_term response) (Some false) None)])
  else
    name ← (if 0 <=? leader_id_ s then n ← nodes_ s !! Z.to_nat (leader_id_ s); Some (Some (n_name n))
            else Some None);
    Some (s, [ClientDone call (mkDataResponse None None (Some false) name)]).

Definition PeriodicCheck (heartbeat_due election_due : bool) : Act := fun s =>
  if is_leader s then if heartbeat_due then SendHeartbeatToFollowersLocked s else skip s
  else if election_due then BecomeCandidateLocked s else skip s.

(** What makes a server act: requests, answers, clients and the timer. *)
Inductive Event :=
  | EvVote (request : RequestVote)
  | EvVoteAnswer (from : nat) (response : option RequestVoteResponse)
  | EvAppend (request : AppendEntries)
  | EvAppendAnswer (from : nat) (request : AppendEntries) (response : option AppendEntriesResponse)
  | EvSave (data : bytes) (wait_to_commit : bool) (call : nat)
  | EvTimer (heartbeat_due election_due : bool).

Definition handle (ev : Event) : Act := fun s =>
  match ev with
  | EvVote req => Some (fst (Vote req s), [])
  | EvVoteAnswer i resp => ProcessRequestVoteResponse i resp s
  | EvAppend req => Some (fst (Append req s))
  | EvAppendAnswer i req resp => ProcessAppendEntriesResponse i req resp s
  | EvSave data wait call => Save data wait call s
  | EvTimer h e => PeriodicCheck h e s
  end.

End Server.
End Raft.
