(* ===== verification/RaftSpec.v ===== *)
(** * RaftSpec: what every handler of the raft server keeps *)

From stdpp Require Import sorting.
From S2P Require Import Prelude.
From S2P Require Import LogIO.
From S2P Require Import Raft.

Module RaftSpec.
Import Raft.

Lemma LogPos_le_iff a b : LogPos_le a b = true <-> LogPos_before a b \/ a = b.
Proof.
  unfold LogPos_le. rewrite Z.leb_le. destruct (LogPos_Compare_iff a b) as (Hl & _ & H0 & _).
  rewrite <- Hl, <- H0. lia.
Qed.

Lemma LogPos_lt_iff a b : LogPos_lt a b = true <-> LogPos_before a b.
Proof. unfold LogPos_lt. rewrite Z.ltb_lt. apply LogPos_Compare_iff. Qed.

Lemma LogPos_lt_false a b : LogPos_lt a b = false <-> LogPos_le b a = true.
Proof.
  unfold LogPos_lt, LogPos_le. destruct (LogPos_Compare_iff a b) as (_ & _ & _ & ->).
  rewrite Z.ltb_ge, Z.leb_le. lia.
Qed.

Lemma LogPos_le_false a b : LogPos_le a b = false <-> LogPos_lt b a = true.
Proof. rewrite <- not_true_iff_false, <- LogPos_lt_false, not_false_iff_true. done. Qed.

Lemma LogPos_gt_lt a b : LogPos_gt a b = LogPos_lt b a.
Proof.
  unfold LogPos_gt, LogPos_lt. destruct (LogPos_Compare_iff a b) as (_ & _ & _ & ->).
  destruct (Z.ltb_spec 0 (LogPos_Compare a b)), (Z.ltb_spec (- LogPos_Compare a b) 0); lia || done.
Qed.

#[export] Instance pos_le_preorder : PreOrder pos_le.
Proof.
  split.
  - intros a. apply LogPos_le_iff. by right.
  - intros a b c. unfold pos_le. rewrite !LogPos_le_iff. intros [H1| ->] [H2| ->]; auto.
    left. by transitivity b.
Qed.

#[export] Instance pos_le_total : Total pos_le.
Proof.
  intros a b. unfold pos_le. rewrite !LogPos_le_iff.
  destruct (LogPos_Compare_cases a b) as [[? _]|[[? _]|[? _]]]; auto.
Qed.

Section Keeps.
Context {L : Type} `{RaftLog L}.

(** [R] holds between the states before and after an action that succeeds. *)
Definition Keeps (R : relation (Server (L := L))) (f : Act (L := L)) : Prop :=
  forall s s' o, f s = Some (s', o) -> R s s'.

Context (R : relation (Server (L := L))) `{!PreOrder R}.

Lemma Keeps_skip : Keeps R skip.
Proof. intros s s' o [= <- <-]. done. Qed.

Lemma Keeps_andthen f g : Keeps R f -> Keeps R g -> Keeps R (andthen f g).
Proof.
  intros Hf Hg s s' o Hs. unfold andthen in Hs. inv_opt. simplify_eq.
  etransitivity; [by eapply Hf|by eapply Hg].
Qed.

Lemma Keeps_each_node f : (forall i, Keeps R (f i)) -> Keeps R (each_node f).
Proof.
  intros Hf s. unfold each_node. generalize (seq 0 (length (nodes_ s))). intros l. revert s.
  enough (Keeps R (foldr (fun i k => andthen (f i) k) skip l)) by done.
  induction l as [|i l IH]; [apply Keeps_skip|by apply Keeps_andthen].
Qed.
End Keeps.

(** The waiters are a map: one per position, in the order of the positions. *)
Definition waiters_sorted (ws : list (LogPos * (DataResponse * nat))) : Prop :=
  StronglySorted (fun v w => LogPos_before v.1 w.1) ws.

Lemma insert_waiter_elem p w ws x : x ∈ insert_waiter p w ws -> x = (p, w) \/ x ∈ ws.
Proof.
  induction ws as [|[q v] ws IH]; simpl; intros Hx; [apply elem_of_cons in Hx as [->|Hx]; auto|].
  destruct (LogPos_lt p q); [by apply elem_of_cons in Hx|].
  destruct (LogPos_lt q p); [|by right]. apply elem_of_cons in Hx as [->|Hx]; [by right; left|].
  destruct (IH Hx); [by left|by right; right].
Qed.

Lemma insert_waiter_sorted p w ws : waiters_sorted ws -> waiters_sorted (insert_waiter p w ws).
Proof.
  induction 1 as [|[q v] ws Hs IH Hall]; simpl; [repeat constructor|].
  destruct (LogPos_lt p q) eqn:Hpq.
  - apply LogPos_lt_iff in Hpq. constructor; [by constructor|]. constructor; [done|].
    eapply Forall_impl; [|exact Hall]. intros x Hx. simpl in *. by transitivity q.
  - destruct (LogPos_lt q p) eqn:Hqp; [|by constructor]. apply LogPos_lt_iff in Hqp.
    constructor; [done|]. rewrite List.Forall_forall in *. intros x Hx%list_elem_of_In.
    apply insert_waiter_elem in Hx as [->|Hx]; [done|]. by apply Hall, list_elem_of_In.
Qed.

(** How a client that waited is answered. *)
Definition answered (w : LogPos * (DataResponse * nat)) : Out :=
  let '(_, (r, call)) := w in ClientDone call (mkDataResponse (dr_pos r) (dr_term r) (Some true) (dr_leader_name r)).

Lemma AdvanceWaiters_spec commit ws :
  let '(rest, out) := AdvanceWaiters commit ws in
  exists told, ws = told ++ rest /\ out = answered <$> told /\ Forall (fun w => pos_le w.1 commit) told /\
    (waiters_sorted ws -> waiters_sorted rest /\ Forall (fun w => LogPos_before commit w.1) rest).
Proof.
  induction ws as [|[p [r call]] ws IH]; simpl; [by exists []|].
  destruct (LogPos_le p commit) eqn:Hle.
  - destruct (AdvanceWaiters commit ws) as [rest out]. destruct IH as (d & -> & -> & Hd & Hr).
    exists ((p, (r, call)) :: d). split_and!; [done..|by constructor|]. intros Hs. inversion Hs; subst. auto.
  - exists []. split_and!; [done..|]. intros Hs. apply LogPos_le_false, LogPos_lt_iff in Hle. split; [done|].
    inversion Hs as [|? ? ? Hall]; subst. constructor; [done|].
    eapply Forall_impl; [|exact Hall]. intros w Hw. simpl in *. by transitivity p.
Qed.

Section Grows.
Context {L : Type} `{RaftLog L}.
Variable ByteSize : DataEntry -> Z.
(** The terms stay below it: [current_term_] is an [int64]. *)
Variable top : Z.
Hypothesis top_int64 : top < 2 ^ 63.

(** The parts of the state that only grow, and those that never change. *)
Record grows (s s' : Server (L := L)) : Prop := {
  grows_term : current_term_ s <= current_term_ s' <= Z.max (current_term_ s) top;
  grows_commit : pos_le (commit_pos_ s) (commit_pos_ s');
  grows_id : node_id_ s' = node_id_ s;
  grows_nodes : length (nodes_ s') = length (nodes_ s);
  grows_max : max_entries_size_ s' = max_entries_size_ s;
  grows_waiters : waiters_sorted (commit_waiters_ s) -> waiters_sorted (commit_waiters_ s');
}.

#[export] Instance grows_preorder : PreOrder grows.
Proof.
  split.
  - intros s. split; done || lia.
  - intros s1 s2 s3 [] []. split; try congruence; [lia|by etransitivity|auto].
Qed.

(** Sending changes the nodes and the number of votes asked for, and nothing else. *)
Definition sends (s s' : Server (L := L)) : Prop :=
  exists ns k, length ns = length (nodes_ s) /\ s' = set_candidate_votes_out k (set_nodes ns s).

#[export] Instance sends_preorder : PreOrder sends.
Proof.
  split.
  - intros s. exists (nodes_ s), (candidate_votes_out_ s). by destruct s.
  - intros s1 s2 s3 (ns & k & Hn & ->) (ns' & k' & Hn' & ->). exists ns', k'. by rewrite Hn'.
Qed.

Lemma sends_grows s s' : sends s s' -> grows s s'.
Proof. intros (ns & k & Hn & ->). split; done || (simpl; lia). Qed.

Lemma sends_update i f s : sends s (update_node i f s).
Proof. exists (alter f i (nodes_ s)), (candidate_votes_out_ s). rewrite length_alter. by destruct s. Qed.

Lemma sends_send i filled m : Keeps sends (SendAppendEntriesToNodeLocked ByteSize i filled m).
Proof.
  intros s s' o Hs. unfold SendAppendEntriesToNodeLocked in Hs.
  destruct (n_in_transfer _); [revert Hs; apply Keeps_skip; apply _|]. inv_opt. unfold SendAppendLocked in *. inv_opt.
  simplify_eq. by rewrite <- !sends_update.
Qed.

Lemma sends_heartbeat : Keeps sends (SendHeartbeatToFollowersLocked ByteSize).
Proof.
  intros s s' o Hs. unfold SendHeartbeatToFollowersLocked in Hs. inv_opt.
  revert Hs. apply Keeps_each_node; [apply _|]. intros i t t' o' Ht.
  destruct (_ || _); [revert Ht; apply Keeps_skip; apply _|by eapply sends_send].
Qed.

Lemma sends_request_vote : Keeps sends SendRequestVoteLocked.
Proof.
  apply Keeps_each_node; [apply _|]. intros i s s' o Hs.
  destruct (_ =? _)%nat; [revert Hs; apply Keeps_skip; apply _|]. simplify_eq.
  exists (nodes_ s), (candidate_votes_out_ s + 1). by destruct s.
Qed.

Abbreviation Grows := (Keeps grows).

Lemma Grows_skip : Grows skip.
Proof. apply Keeps_skip, _. Qed.

(** A change of the state that none of the growing parts depends on. *)
Ltac grows_refl := split; simpl; rewrite ?length_alter, ?length_fmap; first [done | lia].

Lemma grows_update i f s : grows s (update_node i f s).
Proof. grows_refl. Qed.

Lemma grows_save s : grows s (SaveStateLocked s).
Proof. grows_refl. Qed.

Lemma Grows_send i filled m : Grows (SendAppendEntriesToNodeLocked ByteSize i filled m).
Proof. intros s s' o Hs. eapply sends_grows, sends_send, Hs. Qed.

Lemma Grows_heartbeat : Grows (SendHeartbeatToFollowersLocked ByteSize).
Proof. intros s s' o Hs. eapply sends_grows, sends_heartbeat, Hs. Qed.

Lemma Grows_request_vote : Grows SendRequestVoteLocked.
Proof. intros s s' o Hs. eapply sends_grows, sends_request_vote, Hs. Qed.

Lemma Grows_candidate s s' o : BecomeCandidateLocked s = Some (s', o) ->
  - 2 ^ 63 <= current_term_ s < top -> grows s s'.
Proof.
  intros Hs Ht. unfold BecomeCandidateLocked in Hs. cbv zeta in Hs.
  match type of Hs with context [wrapS 64 (?t + 1)] => change t with (current_term_ s) in Hs end.
  rewrite (wrapS_small 64) in Hs by (change (2 ^ (64 - 1)) with (2 ^ 63); lia). inv_opt. simplify_eq.
  match goal with H : SendRequestVoteLocked _ = _ |- _ => apply Grows_request_vote in H end.
  etransitivity; [|etransitivity; [done|apply grows_save]]. grows_refl.
Qed.

Lemma Grows_leader : Grows (BecomeLeaderLocked ByteSize).
Proof.
  intros s s' o Hs. unfold BecomeLeaderLocked in Hs. inv_opt.
  apply Grows_heartbeat in Hs. etransitivity; [|exact Hs].
  match goal with H : (if _ then _ else _) = Some _ |- _ => rename H into Hm end.
  destruct (LogPos_IsNull _); simpl in Hm; inv_opt; simplify_eq;
    split; simpl; rewrite ?length_imap, ?length_alter; done || lia.
Qed.

Lemma grows_follower id s : grows s (BecomeFollowerLocked id s).
Proof. grows_refl. Qed.

Lemma grows_update_term term id s : current_term_ s <= term <= top -> grows s (UpdateCurrentTermLocked term id s).
Proof. intros. unfold UpdateCurrentTermLocked. destruct (negb _); grows_refl. Qed.

Lemma grows_set_commit p s : pos_le (commit_pos_ s) p -> grows s (set_commit_pos p s).
Proof. intros. grows_refl. Qed.

Lemma grows_vote req s : rv_term req <= top -> grows s (fst (Vote req s)).
Proof.
  intros Ht. unfold Vote, vote_granted. simpl. destruct (_ <=? size_t _); [done|].
  destruct (_ && _) eqn:H1; [bool_prop; grows_refl|].
  destruct (_ || _) eqn:H2; [done|]. bool_prop. grows_refl.
Qed.

Lemma count_votes_length ns : length (count_votes ns).1 = length ns.
Proof.
  induction ns as [|n ns IH]; [done|]. simpl. unfold count_votes in *. simpl.
  destruct (foldr _ _ ns). simpl in *. by f_equal.
Qed.

Lemma Grows_vote_answer i resp : Grows (ProcessRequestVoteResponse ByteSize i resp).
Proof.
  intros s s' o Hs. unfold ProcessRequestVoteResponse in Hs. inv_opt. simplify_eq.
  match goal with H : match resp with _ => _ end = _ |- _ => rename H into Hr end.
  assert (Hg : grows s s0).
  { destruct resp as [r|]; [|by eapply Grows_skip].
    destruct (is_candidate s); [|by eapply Grows_skip].
    destruct (rvr_vote_granted r); [|by eapply Grows_skip].
    destruct (count_votes _) as [ns k] eqn:Hc. pose proof (count_votes_length (nodes_ (update_node i (node_set_vote true) s))) as Hlen.
    rewrite Hc in Hlen. cbn [fst] in Hlen. transitivity (set_nodes ns (update_node i (node_set_vote true) s)).
    - split; simpl; try done; [lia|]. rewrite Hlen. simpl. by rewrite length_alter.
    - simplify_eq. destruct (_ / 2 + 1 <=? _); [by eapply Grows_leader|by eapply Grows_skip]. }
  etransitivity; [exact Hg|]. destruct (_ && _); grows_refl.
Qed.

Lemma Grows_advance : forall s s' o b, MaybeAdvanceCommitLocked s = Some (s', o, b) -> grows s s'.
Proof.
  intros s s' o b Hs. unfold MaybeAdvanceCommitLocked in Hs. inv_opt.
  destruct (LogPos_le (can_commit s) (commit_pos_ s)) eqn:Hle; simplify_eq; [done|]. inv_opt.
  unfold AdvanceWaitersLocked in *. simpl in *. pose proof (AdvanceWaiters_spec (can_commit s) (commit_waiters_ s)) as Ha.
  destruct (AdvanceWaiters _ _). simplify_eq. destruct Ha as (d & _ & _ & _ & Ha).
  transitivity (set_commit_pos (can_commit s) s); [|split; simpl; done || lia || (intros; by apply Ha)]. apply grows_set_commit.
  rewrite LogPos_le_false, LogPos_lt_iff in Hle. apply LogPos_le_iff. by left.
Qed.


(** *** Appending *)

Lemma grows_truncate term p s : grows s (fst (MaybeTrucateLogAfterLocked term p s)).
Proof.
  unfold MaybeTrucateLogAfterLocked.
  repeat (case_match; simplify_eq; simpl); grows_refl.
Qed.

Lemma grows_append_entries req s : grows s (fst (AppendRequestEntriesLocked req s)).
Proof.
  unfold AppendRequestEntriesLocked. case_bool_decide; [done|].
  destruct (append_entries _ _) as [l [[p t]|]]; grows_refl.
Qed.

Lemma grows_append_term req s : current_term_ s <= ae_term req <= top -> grows s (Append_term req s).
Proof.
  intros Ht. unfold Append_term. destruct (_ =? _); [|by apply grows_update_term].
  destruct (is_candidate s); [grows_refl|]. destruct (negb _); grows_refl.
Qed.

Lemma grows_append_body req s : grows s (fst (fst (Append_entries req s))).
Proof.
  unfold Append_entries. case_bool_decide; [done|].
  pose proof (grows_truncate (ae_last_log_term req) (PosFromProto (ae_last_log_pos req)) s) as H1.
  destruct (MaybeTrucateLogAfterLocked _ _ _) as [t ok]. destruct ok; [|done].
  pose proof (grows_append_entries req t) as H2.
  destruct (AppendRequestEntriesLocked _ _). simpl in *. by etransitivity.
Qed.

Lemma grows_append_commit req ok save s : grows s (fst (Append_commit req ok save s)).
Proof.
  unfold Append_commit. destruct ok; [|done]. simpl.
  destruct (LogPos_gt _ _) eqn:Hgt; simpl; [|destruct (_ || _); grows_refl].
  assert (Hle : pos_le (commit_pos_ s) (PosFromProto (ae_leader_commit_pos req))).
  { rewrite LogPos_gt_lt in Hgt. apply LogPos_lt_iff in Hgt. apply LogPos_le_iff. by left. }
  destruct (LogPos_le _ _), save; simpl; grows_refl.
Qed.

Lemma grows_append req s : ae_term req <= top -> grows s (fst (fst (Append req s))).
Proof.
  intros Htop. unfold Append. destruct (Z.leb_spec (current_term_ s) (ae_term req)) as [Ht|]; [|done].
  pose proof (grows_append_term req s (conj Ht Htop)) as H1. pose proof (grows_append_body req (Append_term req s)) as H2.
  destruct (Append_entries req (Append_term req s)) as [[t ok] save]. simpl in H2.
  pose proof (grows_append_commit req ok save t) as H3. destruct (Append_commit _ _ _ _). simpl in *.
  by repeat (etransitivity; [eassumption|]).
Qed.

Lemma Grows_degrade i req resp : Grows (DegradeNodeLocked ByteSize i req resp).
Proof.
  intros s s' o Hs. unfold DegradeNodeLocked in Hs.
  destruct (LogPos_IsNull _); [apply Grows_send in Hs; etransitivity; [|exact Hs]; grows_refl|].
  destruct (aer_commit_pos resp) as [p|]; [destruct (LogPos_lt _ _)|]; apply bind_Some in Hs as (n & _ & Hs);
    apply Grows_send in Hs; (etransitivity; [|exact Hs]); grows_refl.
Qed.

Lemma Grows_append_answer i req resp : (forall r, resp = Some r -> aer_term r <= top) -> Grows (ProcessAppendEntriesResponse ByteSize i req resp).
Proof.
  intros Htop s s' o Hs. unfold ProcessAppendEntriesResponse in Hs.
  set (s1 := update_node i (node_set_transfer false) s) in *.
  assert (H1 : grows s s1) by apply grows_update. transitivity s1; [done|]. clearbody s1. clear H1.
  destruct resp as [r|]; [|by eapply Grows_skip].
  destruct (negb (is_leader _)); [by eapply Grows_skip|].
  destruct (Z.ltb_spec (current_term_ s1) (aer_term r)).
  { apply Grows_skip in Hs. etransitivity; [|exact Hs]. apply grows_update_term. specialize (Htop r eq_refl). lia. }
  destruct (negb _); [by eapply Grows_degrade|].
  destruct (list.last _) as [e|]; [|by eapply Grows_skip]. inv_opt. simplify_eq.
  match goal with H : MaybeAdvanceCommitLocked _ = _ |- _ => apply Grows_advance in H as Ha end.
  etransitivity; [apply grows_update|]. etransitivity; [exact Ha|].
  match goal with H : (if LogPos_gt _ _ then _ else _) = Some _ |- _ => rename H into Hf end.
  destruct (LogPos_gt _ _); [by eapply Grows_send|by eapply Grows_skip].
Qed.

Lemma sends_new i : Keeps sends (send_new ByteSize i).
Proof.
  intros s s' o Hs. unfold send_new in Hs. destruct (_ || _); [revert Hs; apply Keeps_skip; apply _|].
  destruct (LogPos_eqb _ _); [by eapply sends_send|revert Hs; apply Keeps_skip; apply _].
Qed.

Lemma Grows_Save data wait call : Grows (Save ByteSize data wait call).
Proof.
  intros s s' o Hs. unfold Save in Hs. destruct (is_leader s); [|inv_opt; simplify_eq; done].
  destruct (log_WriteRecord _ _) as [l ok]. destruct ok; [|simplify_eq; grows_refl]. inv_opt.
  match goal with H : each_node _ ?t = Some (?u, _) |- _ => assert (Hg : grows t u) end.
  { eapply sends_grows. match goal with H : each_node _ _ = Some _ |- _ => revert H end.
    apply Keeps_each_node; [apply _|]. apply sends_new. }
  destruct wait; simplify_eq; (etransitivity; [|etransitivity; [exact Hg|]]); [grows_refl| |grows_refl..].
  split; simpl; done || lia || apply insert_waiter_sorted.
Qed.

(** The term that comes with an event. *)
Definition event_term (ev : Event) : option Z :=
  match ev with
  | EvVote req => Some (rv_term req)
  | EvAppend req => Some (ae_term req)
  | EvAppendAnswer _ _ (Some r) => Some (aer_term r)
  | _ => None
  end.

Lemma Grows_handle ev s s' o : handle ByteSize ev s = Some (s', o) ->
  (forall t, event_term ev = Some t -> t <= top) -> - 2 ^ 63 <= current_term_ s < top -> grows s s'.
Proof.
  intros Hs Htop Ht. destruct ev; simpl in Hs, Htop.
  - simplify_eq. apply grows_vote. by apply Htop.
  - by eapply Grows_vote_answer.
  - injection Hs as Hs. pose proof (grows_append request s (Htop _ eq_refl)) as Hg. by rewrite Hs in Hg.
  - eapply Grows_append_answer; [|exact Hs]. intros r ->. by apply Htop.
  - by eapply Grows_Save.
  - unfold PeriodicCheck in Hs. destruct (is_leader s).
    + destruct heartbeat_due; [by eapply Grows_heartbeat|by eapply Grows_skip].
    + destruct election_due; [by eapply Grows_candidate|by eapply Grows_skip].
Qed.

End Grows.

Section Runs.
Context {L : Type} `{RaftLog L}.
Variable ByteSize : DataEntry -> Z.

Lemma grows_mono top top' (s s' : Server (L := L)) : top <= top' -> grows top s s' -> grows top' s s'.
Proof. intros Ht []. split; done || lia. Qed.

(** A run of a server: the events it handles, and all it sends. *)
Fixpoint handle_all (evs : list Event) : Act :=
  match evs with
  | [] => skip
  | ev :: evs => andthen (handle ByteSize ev) (handle_all evs)
  end.

(** The terms that come up, with one for each time the server may start an election, are
    [int64]s. *)
Definition terms_fit (evs : list Event) (s : Server (L := L)) : Prop :=
  forall t, t = current_term_ s \/ Some t ∈ map event_term evs -> - 2 ^ 63 <= t < 2 ^ 63 - zlen evs.

Lemma Grows_handle_all_gen evs : forall top (s s' : Server (L := L)) o,
  handle_all evs s = Some (s', o) -> - 2 ^ 63 <= current_term_ s <= top ->
  (forall t, Some t ∈ map event_term evs -> t <= top) -> top + zlen evs < 2 ^ 63 ->
  grows (top + zlen evs) s s'.
Proof.
  induction evs as [|ev evs IH]; intros top s s' o Hs Ht Hevs Htop; [injection Hs as <- _; reflexivity|].
  rewrite zlen_cons in *. pose proof (zlen_nonneg evs). simpl in Hs. unfold andthen in Hs. inv_opt. simplify_eq.
  match goal with H1 : handle _ _ _ = Some _, H2 : handle_all _ _ = Some _ |- _ =>
    rename H1 into Hh; rename H2 into Hr end.
  apply (Grows_handle _ (top + 1)) in Hh; [|lia| |lia].
  2: { intros t E. assert (t <= top); [|lia]. apply Hevs. rewrite <- E. by left. }
  pose proof (grows_term _ _ _ Hh) as Hc.
  apply (IH (top + 1)) in Hr; [|lia| |lia].
  2: { intros t E. assert (t <= top); [|lia]. apply Hevs. by right. }
  replace (top + (1 + zlen evs)) with (top + 1 + zlen evs) by lia.
  etransitivity; [|exact Hr]. eapply grows_mono; [|exact Hh]. lia.
Qed.

Lemma Grows_handle_all evs (s s' : Server (L := L)) o :
  handle_all evs s = Some (s', o) -> terms_fit evs s -> exists top, grows top s s'.
Proof.
  intros Hs Hf. exists (2 ^ 63 - 1 - zlen evs + zlen evs). pose proof (Hf _ (or_introl eq_refl)).
  eapply Grows_handle_all_gen; [exact Hs|lia| |lia].
  intros t Ht. specialize (Hf t (or_intror Ht)). lia.
Qed.

End Runs.
End RaftSpec.
