(* ===== verification/RaftNet.v ===== *)
(** * RaftNet: logs for the raft server, and servers that talk to each other

    [RaftLogLaws] is what the replication theorems ask of a log; [list_log] keeps the entries
    in memory and satisfies it.  A [World] is the servers and the calls in flight between
    them: any call may be delivered, answered late, or fail. *)

From S2P Require Import Prelude.
From S2P Require Import LogIO.
From S2P Require Import Raft.

Module RaftNet.
Import Raft.

(** ** Logs *)

(** [log_pos l i] is where entry [i] starts, and the end of the log for [i] the number of
    entries.  [log_ok]: nothing waits to be flushed, and the writer and the readers of the log
    agree on every position; [log_fits l e]: they still do when [e] has been added. *)
Class RaftLogLaws (L : Type) `{RaftLog L} := {
  log_entries : L -> list DataEntry;
  log_pos : L -> nat -> LogPos;
  log_ok : L -> Prop;
  log_fits : L -> DataEntry -> Prop;
  law_first l : log_ok l -> log_pos l 0 = mkLogPos 0 0 0;
  law_before l i j : log_ok l -> (i < j <= length (log_entries l))%nat -> LogPos_before (log_pos l i) (log_pos l j);
  law_tell l : log_ok l -> log_Tell l = log_pos l (length (log_entries l));
  law_seek l i : log_ok l -> (i < length (log_entries l))%nat -> log_Seek l (log_pos l i) = Some (log_pos l i);
  law_seek_null l : log_ok l -> log_Seek l LogPos_null = Some (log_pos l 0);
  law_read l i e : log_ok l -> log_entries l !! i = Some e -> log_ReadCurrent l (log_pos l i) = Some (e, log_pos l (S i));
  law_left l i : log_ok l -> (i <= length (log_entries l))%nat -> (length (log_entries l) - i <= log_left l (log_pos l i))%nat;
  law_write l e : log_ok l -> log_fits l e -> exists l', log_WriteRecord l e = (l', true) /\
    log_ok (log_Flush l') /\ log_entries (log_Flush l') = log_entries l ++ [e] /\
    forall i, (i <= length (log_entries l))%nat -> log_pos (log_Flush l') i = log_pos l i;
  law_truncate l i : log_ok l -> (i <= length (log_entries l))%nat ->
    log_ok (log_TruncateAt l (log_pos l i)) /\
    log_entries (log_TruncateAt l (log_pos l i)) = take i (log_entries l) /\
    forall j, (j <= i)%nat -> log_pos (log_TruncateAt l (log_pos l i)) j = log_pos l j;
}.

Section Laws.
Context {L : Type} `{RaftLogLaws L}.

(** The log with its first [n] entries, and entries that can be added one by one. *)
Definition log_cut (l : L) (n : nat) : L :=
  if (n =? length (log_entries l))%nat then l else log_TruncateAt l (log_pos l n).

Fixpoint log_fits_all (l : L) (es : list DataEntry) : Prop :=
  match es with
  | [] => True
  | e :: es => log_fits l e /\ log_fits_all (log_Flush (log_WriteRecord l e).1) es
  end.

End Laws.

(** The entries in memory, entry [i] at record [i] of the first block. *)
Definition list_index (p : LogPos) : nat := Z.to_nat (record_num_ p).
Definition list_pos (i : nat) : LogPos := mkLogPos 0 0 (Z.of_nat i).

#[export] Instance list_log : RaftLog (list DataEntry) := {
  log_Tell l := list_pos (length l);
  log_WriteRecord l e := (l ++ [e], true);
  log_Flush l := l;
  log_TruncateAt l p := take (list_index p) l;
  log_Seek l p := if LogPos_IsNull p then Some (list_pos 0)
                  else if (list_index p <=? length l)%nat then Some p else None;
  log_ReadCurrent l p := e ← l !! list_index p; Some (e, list_pos (S (list_index p)));
  log_left l p := (length l - list_index p)%nat;
}.

Lemma list_index_pos i : list_index (list_pos i) = i.
Proof. apply Nat2Z.id. Qed.

#[export, refine] Instance list_log_laws : RaftLogLaws (list DataEntry) := {
  log_entries l := l;
  log_pos _ i := list_pos i;
  log_ok _ := True;
  log_fits _ _ := True;
}.
Proof.
  - done.
  - intros l i j _ Hij. right. simpl. split; [done|]. right. split; [done|lia].
  - done.
  - intros l i _ Hi. unfold log_Seek, list_log. rewrite list_index_pos. change (LogPos_IsNull (list_pos i)) with false.
    destruct (Nat.leb_spec i (length l)); [done|lia].
  - done.
  - intros l i e _ He. unfold log_ReadCurrent, list_log. by rewrite list_index_pos, He.
  - intros l i _ Hi. unfold log_left, list_log. by rewrite list_index_pos.
  - intros l e _ _. by exists (l ++ [e]).
  - intros l i _ Hi. unfold log_TruncateAt, list_log. by rewrite list_index_pos.
Defined.

(** ** Servers and calls *)

Inductive Call := CallVote (req : RequestVote) | CallAppend (req : AppendEntries).
Inductive Answer := AnsVote (resp : RequestVoteResponse) | AnsAppend (resp : AppendEntriesResponse).

(** A call of [p_from] to [p_to]; [p_answer] once the callee has handled it. *)
Record Packet := mkPacket { p_from : nat; p_to : nat; p_call : Call; p_answer : option Answer }.

Section World.
Context {L : Type} `{RaftLog L}.
Variable ByteSize : DataEntry -> Z.

Record World := mkWorld { w_servers : list (Server (L := L)); w_flight : list Packet }.

Definition calls_of (i : nat) (out : list Out) : list Packet :=
  omap (fun o => match o with
                 | SendVote j req => Some (mkPacket i j (CallVote req) None)
                 | SendAppend j req => Some (mkPacket i j (CallAppend req) None)
                 | _ => None
                 end) out.

(** Server [i] handles an event. *)
Definition act (i : nat) (f : Act) (w : World) : option World :=
  s ← w_servers w !! i;
  '(s, out) ← f s;
  Some (mkWorld (<[i := s]> (w_servers w)) (w_flight w ++ calls_of i out)).

Inductive Choice := Timer (i : nat) | Deliver (k : nat) | Lose (k : nat) | Client (i : nat) (data : bytes).

Definition on_answer (p : Packet) (ans : option Answer) : Act :=
  match p_call p, ans with
  | CallVote _, Some (AnsVote r) => handle ByteSize (EvVoteAnswer (p_to p) (Some r))
  | CallVote _, _ => handle ByteSize (EvVoteAnswer (p_to p) None)
  | CallAppend req, Some (AnsAppend r) => handle ByteSize (EvAppendAnswer (p_to p) req (Some r))
  | CallAppend req, _ => handle ByteSize (EvAppendAnswer (p_to p) req None)
  end.

Definition serve (c : Call) (s : Server (L := L)) : Server (L := L) * Answer :=
  match c with
  | CallVote req => let '(s, r) := Vote req s in (s, AnsVote r)
  | CallAppend req => let '(s, _, r) := Append req s in (s, AnsAppend r)
  end.

(** The callee handles call [p], taken out of the world, or its answer reaches the caller. *)
Definition deliver (p : Packet) (w : World) : option World :=
  match p_answer p with
  | Some a => act (p_from p) (on_answer p (Some a)) w
  | None =>
      match w_servers w !! p_to p with
      | Some s =>
          let '(s, a) := serve (p_call p) s in
          Some (mkWorld (<[p_to p := s]> (w_servers w))
                  (w_flight w ++ [mkPacket (p_from p) (p_to p) (p_call p) (Some a)]))
      | None => None
      end
  end.

Definition choose (c : Choice) (w : World) : option World :=
  match c with
  | Timer i => act i (handle ByteSize (EvTimer true true)) w
  | Client i data => act i (handle ByteSize (EvSave data false 0)) w
  | Deliver k => p ← w_flight w !! k; deliver p (mkWorld (w_servers w) (delete k (w_flight w)))
  | Lose k =>
      p ← w_flight w !! k;
      act (p_from p) (on_answer p None) (mkWorld (w_servers w) (delete k (w_flight w)))
  end.

Fixpoint choose_all (cs : list Choice) (w : World) : option World :=
  match cs with
  | [] => Some w
  | c :: cs => w ← choose c w; choose_all cs w
  end.

(** [n] new servers over an empty log, with nothing on disk. *)
Definition new_server (names : list bytes) (i : nat) (l : L) : option Server :=
  match Initialize i names (Server_new 0 l) with Some (s, true) => Some s | _ => None end.

Definition new_world (names : list bytes) (l : L) : option World :=
  ss ← mapM (fun i => new_server names i l) (seq 0 (length names)); Some (mkWorld ss []).

Definition leads (term : Z) (w : World) (i : nat) : bool :=
  match w_servers w !! i with
  | Some s => is_leader s && (current_term_ s =? term)
  | None => false
  end.
End World.
End RaftNet.
