(* ===== verification/RaftRepl.v ===== *)
(** * RaftRepl: from the log of the leader to the logs of the followers

    Over any log that satisfies [RaftLogLaws] and has room for the entries: what [Save] sends,
    and what [Append] makes of the log of a follower. *)

From S2P Require Import Prelude.
From S2P Require Import LogIO.
From S2P Require Import Raft.
From S2P Require Import RaftSpec.
From S2P Require Import RaftNet.

Module RaftRepl.
Import Raft RaftSpec RaftNet.

Lemma PosFromProto_PosToProto p : p = LogPos_null \/ file_num_ p <> -1 -> PosFromProto (PosToProto p) = p.
Proof.
  intros [->|Hp]; [done|]. destruct p as [f b r]. unfold PosToProto, LogPos_IsNull. simpl in *.
  destruct (Z.eqb_spec f (-1)) as [|_]; [done|]. unfold PosFromProto, set_nonzero. simpl.
  destruct (Z.eqb_spec f 0), (Z.eqb_spec b 0), (Z.eqb_spec r 0); simpl; congruence.
Qed.

Section Repl.
Context {L : Type} `{HL : RaftLog L} `{!RaftLogLaws L}.
Variable ByteSize : DataEntry -> Z.

Abbreviation size l := (length (log_entries l)).

(** ** Positions *)

Lemma log_pos_file l i : log_ok l -> (i <= size l)%nat -> 0 <= file_num_ (log_pos l i).
Proof.
  intros Ho Hi. destruct i as [|i]; [by rewrite law_first|].
  pose proof (law_before l 0 (S i) Ho) as Hb. rewrite law_first in Hb by done. unfold LogPos_before in Hb. simpl in Hb. lia.
Qed.

Lemma log_pos_not_null l i : log_ok l -> (i <= size l)%nat -> LogPos_IsNull (log_pos l i) = false.
Proof. intros Ho Hi%log_pos_file; [|done]. apply Z.eqb_neq. lia. Qed.

Lemma log_pos_roundtrip l i : log_ok l -> (i <= size l)%nat -> PosFromProto (PosToProto (log_pos l i)) = log_pos l i.
Proof. intros Ho Hi%log_pos_file; [|done]. apply PosFromProto_PosToProto. right. lia. Qed.

Lemma log_pos_lt l i j : log_ok l -> (i <= size l)%nat -> (j <= size l)%nat -> LogPos_lt (log_pos l i) (log_pos l j) = (i <? j)%nat.
Proof.
  intros Ho Hi Hj. destruct (Nat.ltb_spec i j) as [Hlt|Hge].
  - apply LogPos_lt_iff, law_before; [done|lia].
  - apply LogPos_lt_false, LogPos_le_iff. destruct (decide (i = j)) as [->|]; [by right|].
    left. apply law_before; [done|lia].
Qed.

Lemma log_pos_le l i j : log_ok l -> (i <= size l)%nat -> (j <= size l)%nat -> LogPos_le (log_pos l i) (log_pos l j) = (i <=? j)%nat.
Proof.
  intros Ho Hi Hj. pose proof (log_pos_lt l j i Ho Hj Hi) as Hlt.
  destruct (Nat.leb_spec i j), (Nat.ltb_spec j i); try lia.
  - by apply LogPos_lt_false.
  - by apply LogPos_le_false.
Qed.

Lemma LogPos_eqb_lt p q : LogPos_before p q -> LogPos_eqb q p = false.
Proof. intros Hb. unfold LogPos_eqb, LogPos_before in *. destruct Hb as [?|[? [?|[??]]]]; lia. Qed.

Lemma log_pos_eqb l i j : log_ok l -> (i < j <= size l)%nat -> LogPos_eqb (log_pos l j) (log_pos l i) = false.
Proof. intros Ho Hij. by apply LogPos_eqb_lt, law_before. Qed.

(** ** Appending *)

(** [pos] and [term] are those of the last of the first [n] entries. *)
Definition prefix_end (l : L) (n : nat) (pos : LogPos) (term : Z) : Prop :=
  match n with
  | O => pos = LogPos_null
  | S m => exists e, log_entries l !! m = Some e /\ pos = log_pos l m /\ term = e_term e
  end.

Lemma append_entries_all es e l : log_ok l -> log_fits_all l (es ++ [e]) -> exists l',
  append_entries l (es ++ [e]) = (l', Some (log_pos l' (size l + length es), e_term e)) /\ log_ok l' /\
  log_entries l' = log_entries l ++ es ++ [e] /\ forall i, (i <= size l)%nat -> log_pos l' i = log_pos l i.
Proof.
  revert l. induction es as [|x es IH]; intros l Ho [Hfit Hfits].
  - destruct (law_write l e Ho Hfit) as (l1 & Hw & Ho1 & Hl & Hp). simpl. rewrite Hw. simpl. exists (log_Flush l1).
    rewrite Hl, Nat.add_0_r, Hp, <- law_tell by done. by split_and!.
  - destruct (law_write l x Ho Hfit) as (l1 & Hw & Ho1 & Hl & Hp). simpl in Hfits |- *. rewrite Hw in Hfits |- *. simpl in Hfits |- *.
    destruct (IH (log_Flush l1) Ho1 Hfits) as (l' & He & Ho' & Hl' & Hp').
    assert (Hsz : size (log_Flush l1) = S (size l)) by (rewrite Hl, length_app; simpl; lia).
    assert (Hne : es ++ [e] <> []) by (destruct es; done).
    destruct (es ++ [e]) as [|y ys] eqn:Hy; [done|]. rewrite He, Hsz. exists l'. split_and!.
    + do 3 f_equal. f_equal. lia.
    + done.
    + rewrite Hl', Hl, <- app_assoc. done.
    + intros i Hi. rewrite Hp', Hp by lia. done.
Qed.

(** What an action on the log of a follower leaves alone. *)
Definition same_term_commit (t t' : Server (L := L)) : Prop :=
  current_term_ t' = current_term_ t /\ commit_pos_ t' = commit_pos_ t.

Lemma truncate_at_prefix t n pos term : log_ok (log_ t) ->
  (n <= size (log_ t))%nat -> prefix_end (log_ t) n pos term ->
  n = size (log_ t) \/ LogPos_lt (log_pos (log_ t) n) (commit_pos_ t) = false ->
  exists t', MaybeTrucateLogAfterLocked term pos t = (t', true) /\ same_term_commit t t' /\ log_ t' = log_cut (log_ t) n.
Proof.
  intros Ho Hn Hp Hc. set (l := log_ t) in *. unfold MaybeTrucateLogAfterLocked. fold l. rewrite law_tell by done.
  assert (Htrunc : exists t',
    (if LogPos_gt (log_pos l (size l)) (log_pos l n) then
       if LogPos_lt (log_pos l n) (commit_pos_ t) then (t, false)
       else (set_log (log_TruncateAt (log_ (SaveStateLocked (set_last_log_pos pos t))) (log_pos l n))
               (SaveStateLocked (set_last_log_pos pos t)), true)
     else (set_last_log_pos pos t, true)) = (t', true) /\ same_term_commit t t' /\ log_ t' = log_cut l n).
  { rewrite LogPos_gt_lt, log_pos_lt by (done || lia). unfold log_cut. destruct (Nat.ltb_spec n (size l)) as [Hlt|Hge].
    - destruct Hc as [|Hc]; [lia|]. rewrite Hc. rewrite (proj2 (Nat.eqb_neq _ _)) by lia. by eexists.
    - rewrite (proj2 (Nat.eqb_eq _ _)) by lia. by eexists. }
  destruct n as [|m]; simpl in Hp.
  - subst pos. rewrite law_seek_null by done.
    assert (Hz : LogPos_lt LogPos_null (log_pos l (size l)) = true).
    { apply LogPos_lt_iff. left. pose proof (log_pos_file l (size l) Ho). simpl. lia. }
    rewrite (proj2 (LogPos_le_false _ _) Hz), law_first in * by done. simpl.
    rewrite log_pos_not_null by done. simpl.
    destruct (LogPos_eqb (log_pos l (size l)) _) eqn:He; [|exact Htrunc].
    eexists. split; [done|]. split; [done|]. simpl. fold l.
    assert (Hs : size l = O).
    { destruct (size l) as [|k] eqn:Hk; [done|]. rewrite <- (law_first l), log_pos_eqb in He by (done || lia). done. }
    unfold log_cut. by rewrite Hs.
  - destruct Hp as (e & He & -> & ->). pose proof (lookup_lt_Some _ _ _ He) as Hm.
    rewrite log_pos_le by (done || lia). destruct (Nat.leb_spec (size l) m); [lia|].
    rewrite law_seek by done. rewrite (log_pos_eqb l m (size l)) by (done || lia). simpl.
    rewrite log_pos_not_null, (law_read l m e Ho He) by (done || lia). simpl. rewrite Z.eqb_refl. simpl. exact Htrunc.
Qed.

Lemma log_cut_spec l n : log_ok l -> (n <= size l)%nat ->
  log_ok (log_cut l n) /\ log_entries (log_cut l n) = take n (log_entries l) /\ forall i, (i <= n)%nat -> log_pos (log_cut l n) i = log_pos l i.
Proof.
  intros Ho Hn. unfold log_cut. destruct (Nat.eqb_spec n (size l)) as [->|]; [by rewrite take_ge|by apply law_truncate].
Qed.

(** The leader and the term of a request that is not older are taken over, and nothing else
    that the log depends on. *)
Lemma Append_term_spec req (t : Server (L := L)) :
  current_term_ t <= ae_term req ->
  current_term_ (Append_term req t) = ae_term req /\ log_ (Append_term req t) = log_ t /\
  commit_pos_ (Append_term req t) = commit_pos_ t.
Proof.
  intros Ht. unfold Append_term. destruct (Z.eqb_spec (ae_term req) (current_term_ t)) as [Heq|].
  - rewrite Heq. destruct (is_candidate t); [done|]. by destruct (negb _).
  - unfold UpdateCurrentTermLocked. by destruct (negb _).
Qed.

Lemma Append_commit_spec req ok save (t : Server (L := L)) :
  log_ (fst (Append_commit req ok save t)) = log_ t /\
  current_term_ (fst (Append_commit req ok save t)) = current_term_ t /\
  last_log_pos_ (fst (Append_commit req ok save t)) = last_log_pos_ t /\
  last_log_term_ (fst (Append_commit req ok save t)) = last_log_term_ t.
Proof. unfold Append_commit. destruct ok; [|done]. simpl. destruct (_ && _), save; done. Qed.

Lemma Append_replaces_suffix req t n es e : log_ok (log_ t) -> log_fits_all (log_cut (log_ t) n) (ae_entry req) ->
  current_term_ t <= ae_term req -> ae_entry req = es ++ [e] ->
  (n <= size (log_ t))%nat -> prefix_end (log_ t) n (PosFromProto (ae_last_log_pos req)) (ae_last_log_term req) ->
  n = size (log_ t) \/ LogPos_lt (log_pos (log_ t) n) (commit_pos_ t) = false ->
  let '(t', _, resp) := Append req t in
  aer_success resp = true /\ current_term_ t' = ae_term req /\ log_ok (log_ t') /\
  log_entries (log_ t') = take n (log_entries (log_ t)) ++ ae_entry req /\
  (forall i, (i <= n)%nat -> log_pos (log_ t') i = log_pos (log_ t) i) /\
  last_log_pos_ t' = log_pos (log_ t') (n + length es) /\ last_log_term_ t' = e_term e.
Proof.
  intros Ho Hfits Ht He Hn Hp Hc. unfold Append. rewrite (proj2 (Z.leb_le _ _) Ht).
  destruct (Append_term_spec req t Ht) as (H1 & H2 & H3). set (t0 := Append_term req t) in *. clearbody t0.
  unfold Append_entries. rewrite bool_decide_false by (rewrite He, length_app; simpl; lia).
  rewrite <- H2, <- H3 in *. destruct (truncate_at_prefix t0 n _ _ Ho Hn Hp Hc) as (t1 & -> & [Ht1 Hc1] & Hcut).
  destruct (log_cut_spec (log_ t0) n Ho Hn) as (Ho1 & Hl1 & Hp1). rewrite He in Hfits. rewrite <- Hcut in *.
  unfold AppendRequestEntriesLocked. rewrite bool_decide_false by (rewrite He, length_app; simpl; lia).
  destruct (append_entries_all es e (log_ t1) Ho1 Hfits) as (l2 & Ha & Ho2 & Hl2 & Hp2).
  assert (Hs1 : size (log_ t1) = n) by (rewrite Hl1, length_take; lia).
  rewrite He, Ha. rewrite Hs1 in *.
  match goal with |- context [Append_commit req true true ?t] =>
    pose proof (Append_commit_spec req true true t) as (Hl & Hct & Hlp & Hlt); set (t2 := t) in * end.
  destruct (Append_commit req true true t2) as [t3 b]. cbn [fst] in Hl, Hct, Hlp, Hlt. cbv beta iota.
  rewrite Hl, Hct, Hlp, Hlt. unfold t2. simpl. split_and!; try done.
  - by rewrite Ht1.
  - by rewrite Hl2, Hl1.
  - intros i Hi. by rewrite Hp2, Hp1.
Qed.

(** ** Sending *)

Lemma pull_step_next l max nd es sz n : log_ok l ->
  (n < size l)%nat -> n_next_log_pos nd = log_pos l n -> sz < max -> exists nd' e,
  pull_step ByteSize l max (nd, es, sz) = Some (inl (nd', es ++ [e], sz + ByteSize e)) /\
  log_entries l !! n = Some e /\ n_next_log_pos nd' = log_pos l (S n) /\ n_in_transfer nd' = n_in_transfer nd.
Proof.
  intros Ho Hn Hnd Hsz. destruct (lookup_lt_is_Some_2 _ _ Hn) as [e He].
  unfold pull_step, PullNext. rewrite Hnd, law_tell, log_pos_lt, law_seek, (law_read l n e Ho He) by (done || lia).
  destruct (Nat.ltb_spec n (size l)), (Z.ltb_spec sz max); try lia. simpl.
  by exists (SetPositionsFromEntry (node_set_read e (log_pos l (S n)) nd)), e.
Qed.

(** The loop of [SendAppendEntriesToNodeLocked] ends, and takes entries in order from the
    next position of the node on; none only when there is none or no room at all. *)
Lemma pull_entries_spec l max nd n : log_ok l ->
  (n <= size l)%nat -> n_next_log_pos nd = log_pos l n -> exists k nd',
  pull_entries ByteSize l max nd = Some (nd', take k (drop n (log_entries l))) /\
  (n + k <= size l)%nat /\ n_next_log_pos nd' = log_pos l (n + k) /\ n_in_transfer nd' = n_in_transfer nd /\
  (k = O -> n = size l \/ max <= 0).
Proof.
  intros Ho Hn Hnd.
  set (good := fun k nd' => (n + k <= size l)%nat /\ n_next_log_pos nd' = log_pos l (n + k) /\
                            n_in_transfer nd' = n_in_transfer nd).
  destruct (loop_total_ix (pull_step ByteSize l max)
    (fun m '(nd', es, sz) => exists k, m = (size l - (n + k))%nat /\ good k nd' /\
       es = take k (drop n (log_entries l)) /\ (k = O -> sz = 0))
    (fun '(nd', es) => exists k, good k nd' /\ es = take k (drop n (log_entries l)) /\
       (k = O -> n = size l \/ max <= 0))) with (fuel := S (log_left l (n_next_log_pos nd)))
    (n := (size l - n)%nat) (s := (nd, @nil DataEntry, 0)) as ([nd' es] & Hl & k & Hg & -> & Hk).
  - intros m [[nd1 es] sz] (k & -> & Hgood & -> & Hsz). pose proof Hgood as (Hk & Hn1 & Ht1).
    destruct (decide (n + k < size l)%nat) as [Hlt|Hge]; [destruct (Z.ltb_spec sz max) as [Hmax|Hmax]|].
    + destruct (pull_step_next l max nd1 (take k (drop n (log_entries l))) sz (n + k)) as (nd2 & e & -> & He & Hn2 & Ht2);
        [done..|]. eexists. split; [done|]. simpl. exists (size l - (n + S k))%nat. split; [|lia]. exists (S k).
      split; [done|]. split; [|split; [|lia]].
      * split; [lia|]. rewrite Ht2, Hn2. split; [by rewrite <- Nat.add_succ_r|done].
      * symmetry. apply take_S_r. by rewrite lookup_drop.
    + unfold pull_step. destruct (Z.ltb_spec sz max); [lia|]. rewrite andb_false_r. eexists. split; [done|].
      exists k. split_and!; [done..|]. intros H0. specialize (Hsz H0). right. lia.
    + unfold pull_step. rewrite Hn1, law_tell, log_pos_lt by (done || lia). destruct (Nat.ltb_spec (n + k) (size l)); [lia|].
      eexists. split; [done|]. exists k. split_and!; [done..|]. intros ->. left. lia.
  - exists O. rewrite Nat.add_0_r. split; [done|]. split; [|done]. by split_and!; rewrite ?Nat.add_0_r.
  - pose proof (law_left l n Ho Hn). rewrite Hnd. lia.
  - exists k, nd'. destruct Hg as (? & ? & ?). by split_and!.
Qed.

Lemma node_update i f (s : Server (L := L)) : (i < length (nodes_ s))%nat -> node (update_node i f s) i = f (node s i).
Proof.
  intros Hi. unfold node, update_node. simpl. rewrite list_lookup_alter_eq.
  destruct (lookup_lt_is_Some_2 _ _ Hi) as [nd ->]. done.
Qed.

Lemma node_update_ne i j f (s : Server (L := L)) : i <> j -> node (update_node i f s) j = node s j.
Proof. intros Hij. unfold node, update_node. simpl. by rewrite list_lookup_alter_ne. Qed.

(** The request for node [nd] with [es]. *)
Definition request_for (s : Server (L := L)) (nd : Node) (es : list DataEntry) : AppendEntries :=
  mkAppendEntries (current_term_ s) (Z.of_nat (node_id_ s)) (PosToProto (n_last_log_pos nd)) (n_last_log_term nd)
    (PosToProto (commit_pos_ s)) es.

Lemma send_spec i max (s : Server (L := L)) n : log_ok (log_ s) ->
  is_leader s = true -> (i < length (nodes_ s))%nat -> n_in_transfer (node s i) = false ->
  (n <= size (log_ s))%nat -> n_next_log_pos (node s i) = log_pos (log_ s) n -> exists k nd',
  SendAppendEntriesToNodeLocked ByteSize i false max s =
    Some (update_node i (node_set_transfer true) (update_node i (fun _ => nd') s),
          [SendAppend i (request_for s (node s i) (take k (drop n (log_entries (log_ s)))))]) /\
  (n + k <= size (log_ s))%nat /\ n_next_log_pos nd' = log_pos (log_ s) (n + k) /\
  (k = O -> n = size (log_ s) \/ max <= 0).
Proof.
  intros Ho Hlead Hi Ht Hn Hnext.
  destruct (pull_entries_spec (log_ s) max (node s i) n Ho Hn Hnext) as (k & nd' & Hp & Hk & Hnd & Ht' & H0).
  exists k, nd'. split; [|done]. unfold SendAppendEntriesToNodeLocked, FillAppendEntriesLocked, SendAppendLocked.
  rewrite Ht, Hlead. simpl. rewrite Hp. simpl. rewrite node_update, Ht', Ht by done. done.
Qed.

(** ** Saving *)

(** Node [i] of [b] is idle and has everything but the last entry. *)
Definition waiting (b : Server (L := L)) (i : nat) : Prop :=
  (i < length (nodes_ b))%nat /\ i <> node_id_ b /\ n_in_transfer (node b i) = false /\
  n_next_log_pos (node b i) = last_log_pos_ b.

Lemma LogPos_eqb_eq p q : LogPos_eqb p q = true <-> p = q.
Proof. rewrite LogPos_ext. unfold LogPos_eqb. rewrite !andb_true_iff, !Z.eqb_eq. tauto. Qed.

(** [b] has just written entry [n], the last one, [e]. *)
Definition just_wrote (b : Server (L := L)) (n : nat) (e : DataEntry) : Prop :=
  log_ok (log_ b) /\ is_leader b = true /\ 0 < max_entries_size_ b /\ log_entries (log_ b) !! n = Some e /\
  size (log_ b) = S n /\ last_log_pos_ b = log_pos (log_ b) n.

Lemma send_new_spec b s i n e :
  just_wrote b n e -> sends b s -> (i < length (nodes_ b))%nat -> node s i = node b i -> exists s' out,
  send_new ByteSize i s = Some (s', out) /\ sends b s' /\ (forall j, i <> j -> node s' j = node s j) /\
  (waiting b i -> SendAppend i (request_for b (node b i) [e]) ∈ out).
Proof.
  intros (Hok & Hlead & Hmax & He & Hsz & Hlast) (ns & c & Hlen & ->) Hi Hnode.
  set (s := set_candidate_votes_out c (set_nodes ns b)) in *.
  assert (Hb : sends b s) by by exists ns, c.
  assert (Hskip : (~ waiting b i) -> exists s' out, skip s = Some (s', out) /\ sends b s' /\
            (forall j, i <> j -> node s' j = node s j) /\ (waiting b i -> SendAppend i (request_for b (node b i) [e]) ∈ out))
    by (intros; exists s, []; naive_solver).
  unfold send_new. rewrite Hnode. change (node_id_ s) with (node_id_ b). change (last_log_pos_ s) with (last_log_pos_ b).
  change (max_entries_size_ s) with (max_entries_size_ b).
  destruct (Nat.eqb_spec i (node_id_ b)) as [Hid|Hid]; [apply Hskip; by intros (_ & ? & _)|].
  destruct (n_in_transfer (node b i)) eqn:Ht; simpl; [apply Hskip; intros (_ & _ & ? & _); congruence|].
  destruct (LogPos_eqb _ _) eqn:Hnext.
  2:{ apply Hskip. intros (_ & _ & _ & Hn). apply LogPos_eqb_eq in Hn. congruence. }
  apply LogPos_eqb_eq in Hnext.
  destruct (send_spec i (max_entries_size_ b) s n) as (k & nd & Hsend & Hk & _ & H0).
  { done. } { done. } { simpl. by rewrite Hlen. } { by rewrite Hnode. } { simpl. lia. } { by rewrite Hnode, Hnext, Hlast. }
  rewrite Hsend. eexists _, _. split; [done|]. simpl in Hk, H0.
  assert (k = 1%nat) as -> by lia. split_and!.
  - by rewrite <- !sends_update.
  - intros j Hij. by rewrite !node_update_ne.
  - intros _. rewrite Hnode. apply list_elem_of_singleton. simpl. do 2 f_equal.
    rewrite (drop_S _ _ _ He). done.
Qed.

Lemma send_new_all l b s n e :
  just_wrote b n e -> NoDup l -> sends b s ->
  (forall i, i ∈ l -> (i < length (nodes_ b))%nat /\ node s i = node b i) -> exists s' out,
  foldr (fun i k => andthen (send_new ByteSize i) k) skip l s = Some (s', out) /\ sends b s' /\
  forall i, i ∈ l -> waiting b i -> SendAppend i (request_for b (node b i) [e]) ∈ out.
Proof.
  intros Hb Hl. revert s. induction Hl as [|i l Hi Hl IH]; intros s Hs Hall; simpl.
  - exists s, []. split_and!; [done..|]. intros i Hi. by apply elem_of_nil in Hi.
  - destruct (Hall i) as [Hlt Hn]; [left|]. destruct (send_new_spec b s i n e) as (s1 & o1 & H1 & Hs1 & Hne & Ho1); [done..|].
    destruct (IH s1 Hs1) as (s2 & o2 & H2 & Hs2 & Ho2).
    { intros j Hj. destruct (Hall j) as [? Hnj]; [by right|]. split; [done|]. rewrite Hne; [done|]. by intros ->. }
    exists s2, (o1 ++ o2). unfold andthen at 1. rewrite H1. simpl. rewrite H2. split_and!; [done..|].
    intros j Hj Hw. apply elem_of_app. apply elem_of_cons in Hj as [->|Hj]; auto.
Qed.

(** The entry that [Save] writes. *)
Definition saved_entry (s : Server (L := L)) (data : bytes) : DataEntry :=
  mkDataEntry (PosToProto (log_Tell (log_ s))) (PosToProto (last_log_pos_ s)) (current_term_ s) (last_log_term_ s) data.

Lemma Save_spec (s : Server (L := L)) data wait call : log_ok (log_ s) -> log_fits (log_ s) (saved_entry s data) ->
  is_leader s = true -> 0 < max_entries_size_ s -> exists s' out,
  Save ByteSize data wait call s = Some (s', out) /\ log_ok (log_ s') /\
  log_entries (log_ s') = log_entries (log_ s) ++ [saved_entry s data] /\
  (forall i, (i <= size (log_ s))%nat -> log_pos (log_ s') i = log_pos (log_ s) i) /\
  current_term_ s' = current_term_ s /\
  last_log_pos_ s' = log_Tell (log_ s) /\ last_log_term_ s' = current_term_ s /\
  forall i, (i < length (nodes_ s))%nat -> i <> node_id_ s -> n_in_transfer (node s i) = false ->
    n_next_log_pos (node s i) = log_Tell (log_ s) ->
    SendAppend i (request_for s (node s i) [saved_entry s data]) ∈ out.
Proof.
  intros Ho Hfit Hlead Hmax. unfold Save. rewrite Hlead. fold (saved_entry s data).
  destruct (law_write (log_ s) (saved_entry s data) Ho Hfit) as (l & -> & Ho' & Hl & Hp).
  set (b := SaveStateLocked (set_last_log_term (current_term_ (set_log (log_Flush l) s))
              (set_last_log_pos (log_Tell (log_ s)) (set_log (log_Flush l) s)))).
  assert (Hb : just_wrote b (size (log_ s)) (saved_entry s data)).
  { unfold just_wrote. simpl. rewrite Hl, Hp, <- law_tell by done. split_and!; try done.
    - by rewrite lookup_app_r, Nat.sub_diag by done.
    - rewrite length_app. simpl. lia. }
  destruct (send_new_all (seq 0 (length (nodes_ b))) b b _ _ Hb) as (s' & out & Hs & (ns & c & Hlen & ->) & Hout).
  { apply NoDup_seq. } { done. } { intros i Hi%elem_of_seq. split; [lia|done]. }
  assert (Heach : each_node (send_new ByteSize) b = Some (set_candidate_votes_out c (set_nodes ns b), out)) by exact Hs.
  rewrite Heach. simpl.
  assert (Hsent : forall i, (i < length (nodes_ s))%nat -> i <> node_id_ s -> n_in_transfer (node s i) = false ->
    n_next_log_pos (node s i) = log_Tell (log_ s) -> SendAppend i (request_for s (node s i) [saved_entry s data]) ∈ out).
  { intros i Hi Hid Ht Hn. apply (Hout i); [apply elem_of_seq; simpl; lia|]. by split_and!. }
  destruct wait; (eexists _, _; split; [done|]); simpl; rewrite Hl; split_and!; try done;
    try (intros; by rewrite Hp). intros i Hi Hid Ht Hn. apply elem_of_app. left. by apply Hsent.
Qed.

End Repl.
End RaftRepl.
