(* ===== verification/RaftProps.v ===== *)
(** * RaftProps: elections, commits and replication of the raft server *)

From stdpp Require Import sorting.
From S2P Require Import Prelude.
From S2P Require Import LogIO.
From S2P Require Import Raft.
From S2P Require Import RaftSpec.
From S2P Require Import RaftNet.
From S2P Require Import RaftRepl.

Module RaftProps.
Import Raft RaftSpec RaftNet RaftRepl.

(** ** What no event undoes *)

(** C20: whatever a server is asked, answered or told by its timer, in any order, its term and
    its commit position never go back, it keeps its number and its nodes, and the clients that
    wait stay ordered by position, at most one for each; as long as its term and the terms it
    is told, with one more for each event, are below 2^63 (the next election would overflow
    the [int64]). *)
Theorem terms_and_commits_grow {L} `{RaftLog L} ByteSize evs (s s' : Server (L := L)) out :
  handle_all ByteSize evs s = Some (s', out) -> terms_fit evs s ->
  current_term_ s <= current_term_ s' /\ LogPos_le (commit_pos_ s) (commit_pos_ s') = true /\
  node_id_ s' = node_id_ s /\ length (nodes_ s') = length (nodes_ s) /\
  (waiters_sorted (commit_waiters_ s) -> waiters_sorted (commit_waiters_ s')).
Proof.
  intros Hs Hf. destruct (Grows_handle_all _ _ _ _ _ Hs Hf) as [top []]. split_and!; done || lia.
Qed.

Definition three : list bytes := [bstr "a:1"; bstr "b:1"; bstr "c:1"].
Definition one_server : Server (L := list DataEntry) :=
  default (Server_new 0 []) (new_server three 0 []).
Definition vote_for (term candidate : Z) : RequestVote :=
  mkRequestVote term candidate (PosToProto LogPos_null) 0.

Lemma terms_and_commits_grow_witness : exists s' out,
  handle_all (fun _ => 1) [EvVote (vote_for 3 1); EvTimer true true] one_server = Some (s', out) /\
  current_term_ s' = 4 /\ LogPos_le (commit_pos_ one_server) (commit_pos_ s') = true.
Proof.
  eexists _, _. assert (Hr : handle_all (fun _ => 1) [EvVote (vote_for 3 1); EvTimer true true] one_server = Some (_, _))
    by (vm_compute; reflexivity).
  split; [exact Hr|]. split; [reflexivity|].
  apply terms_and_commits_grow in Hr as (_ & Hr & _); [exact Hr|].
  intros t [->|Ht]; [split; by vm_compute|]. cbn in Ht.
  apply elem_of_cons in Ht as [[= ->]|Ht]; [split; by vm_compute|].
  apply elem_of_cons in Ht as [Ht|Ht]; [done|by apply elem_of_nil in Ht].
Defined.

(** ** Elections *)

(** A server that crashes starts again from its log and its state file. *)
Inductive VoteEvent := VoteAsked (request : RequestVote) | Restarted (garbage : Z).

Section Votes.
Context {L : Type} `{RaftLog L}.

(** The term of the vote given in an event, if one is. *)
Definition vote_event (ev : VoteEvent) (s : Server (L := L)) : Server (L := L) * option Z :=
  match ev with
  | VoteAsked req => let '(s', r) := Vote req s in (s', if rvr_vote_granted r then Some (rv_term req) else None)
  | Restarted g =>
      match Initialize (node_id_ s) (n_name <$> nodes_ s) (set_saved (saved_ s) (Server_new g (log_ s))) with
      | Some (s', _) => (s', None)
      | None => (s, None)
      end
  end.

Fixpoint votes_given (evs : list VoteEvent) (s : Server (L := L)) : list Z :=
  match evs with
  | [] => []
  | ev :: evs => let '(s', v) := vote_event ev s in option_list v ++ votes_given evs s'
  end.

(** The state file has the term and the vote. *)
Definition durable (s : Server (L := L)) : Prop :=
  match saved_ s with
  | Some st => rs_current_term st = current_term_ s /\ default (-1) (rs_voted_for st) = voted_for_ s
  | None => current_term_ s = 0 /\ voted_for_ s = -1
  end.

(** [candidate_id] is an [int32]. *)
Definition well_typed (ev : VoteEvent) : Prop :=
  match ev with VoteAsked req => - 2 ^ 31 <= rv_candidate_id req < 2 ^ 31 | Restarted _ => True end.

Lemma vote_granted_true (s : Server (L := L)) req :
  zlen (nodes_ s) < 2 ^ 31 -> - 2 ^ 31 <= rv_candidate_id req < 2 ^ 31 -> vote_granted s req = true ->
  0 <= rv_candidate_id req /\ (current_term_ s < rv_term req \/ (current_term_ s = rv_term req /\ voted_for_ s = -1)).
Proof.
  intros Hn Hc. unfold vote_granted. destruct (Z.leb_spec (zlen (nodes_ s)) (size_t (rv_candidate_id req))) as [|Hsz]; [done|].
  intros Hg. split.
  { destruct (Z.leb_spec 0 (rv_candidate_id req)) as [|Hneg]; [done|].
    unfold size_t, wrapU in Hsz. rewrite <- (Z_mod_plus_full _ 1), Z.mod_small in Hsz; lia. }
  destruct (_ && _) eqn:H1; [bool_prop; by left|].
  destruct (_ || _) eqn:H2; [done|]. bool_prop. lia.
Qed.

(** The first term in which a server may still vote. *)
Definition free_term (s : Server (L := L)) : Z := if voted_for_ s =? -1 then current_term_ s else current_term_ s + 1.

Lemma vote_event_step ev (s : Server (L := L)) :
  durable s -> zlen (nodes_ s) < 2 ^ 31 -> well_typed ev ->
  let '(s', v) := vote_event ev s in
  durable s' /\ zlen (nodes_ s') < 2 ^ 31 /\ free_term s <= free_term s' /\
  (forall term, v = Some term -> free_term s <= term < free_term s').
Proof.
  intros Hd Hn Hw. destruct ev as [req|g]; simpl.
  - destruct (vote_granted s req) eqn:Hg; [|split_and!; try done; lia].
    apply vote_granted_true in Hg as [Hc Ht]; [|done..].
    assert (Hb : free_term s <= rv_term req).
    { unfold free_term. destruct (Z.eqb_spec (voted_for_ s) (-1)); lia. }
    unfold durable, free_term at 2 4. simpl. destruct (Z.leb_spec 0 (rv_candidate_id req)); [|lia]. simpl.
    destruct (Z.eqb_spec (rv_candidate_id req) (-1)); [lia|]. split_and!; try done; [lia|].
    intros ? [= <-]. lia.
  - unfold Initialize. change (nodes_ (set_saved _ _)) with (@nil Node). simpl.
    destruct (_ <? _)%nat; simpl; [|split_and!; try done; lia].
    unfold LoadStateLocked, durable in *. simpl. destruct (saved_ s) as [st|]; simpl.
    + destruct Hd as [Ht Hv]. unfold free_term. simpl. rewrite Ht, Hv.
      split_and!; try done. unfold zlen in *. by rewrite !length_fmap.
    + destruct Hd as [Ht Hv]. unfold free_term. destruct (0 <? _); simpl; rewrite Ht, Hv; split_and!; try done.
      unfold zlen in *. by rewrite !length_fmap.
Qed.

Lemma votes_given_sorted evs (s : Server (L := L)) :
  durable s -> zlen (nodes_ s) < 2 ^ 31 -> Forall well_typed evs ->
  StronglySorted Z.lt (votes_given evs s) /\ Forall (Z.le (free_term s)) (votes_given evs s).
Proof.
  revert s. induction evs as [|ev evs IH]; intros s Hd Hn Hw; [by split; constructor|].
  inversion Hw as [|? ? Hw1 Hws]; subst. pose proof (vote_event_step ev s Hd Hn Hw1) as Hs.
  simpl. destruct (vote_event ev s) as [s' v]. destruct Hs as (Hd' & Hn' & Hle & Hv).
  destruct (IH s' Hd' Hn' Hws) as [Hs1 Hs2].
  destruct v as [term|]; simpl.
  - destruct (Hv term eq_refl) as [H1 H2]. split.
    + constructor; [done|]. eapply Forall_impl; [|exact Hs2]. simpl. intros. lia.
    + constructor; [lia|]. eapply Forall_impl; [|exact Hs2]. simpl. intros. lia.
  - split; [done|]. eapply Forall_impl; [|exact Hs2]. simpl. intros. lia.
Qed.
End Votes.

(** C19: a server that is only asked for votes, and crashes and starts again from its state
    file, gives at most one vote per term, in whatever order the requests come and however
    often it restarts: the terms of the votes it gives increase. (It is not so with elections
    of its own in between: [BecomeFollowerLocked(-1)] after one that is not won forgets the
    vote of the term.) *)
Theorem one_vote_per_term {L} `{RaftLog L} evs (s : Server (L := L)) :
  durable s -> zlen (nodes_ s) < 2 ^ 31 -> Forall well_typed evs ->
  StronglySorted Z.lt (votes_given evs s).
Proof. apply votes_given_sorted. Qed.

Lemma one_vote_per_term_witness :
  votes_given [VoteAsked (vote_for 1 1); VoteAsked (vote_for 1 2); Restarted 7; VoteAsked (vote_for 1 2);
               VoteAsked (vote_for 2 2)] one_server = [1; 2] /\
  StronglySorted Z.lt [1; 2].
Proof.
  assert (Hv : votes_given [VoteAsked (vote_for 1 1); VoteAsked (vote_for 1 2); Restarted 7; VoteAsked (vote_for 1 2);
    VoteAsked (vote_for 2 2)] one_server = [1; 2]) by (vm_compute; reflexivity).
  split; [exact Hv|]. rewrite <- Hv.
  apply one_vote_per_term; [by vm_compute|by vm_compute|].
  repeat constructor; simpl; lia.
Defined.

(** *** Two leaders *)

Definition five : list bytes := [bstr "a:1"; bstr "b:1"; bstr "c:1"; bstr "d:1"; bstr "e:1"].

(** Two candidates, a vote for each, two writes. *)
Definition split_brain : list Choice :=
  [Timer 0; Timer 1; Deliver 1; Deliver 6; Deliver 6; Deliver 6; Deliver 7; Deliver 13; Deliver 7; Deliver 12;
   Client 0 (bstr "x"); Deliver 12; Deliver 13; Deliver 12; Deliver 12; Deliver 10; Deliver 11; Deliver 10;
   Deliver 11; Client 1 (bstr "y"); Deliver 10; Deliver 11; Deliver 10; Deliver 11; Deliver 10; Deliver 10].

(** The commit position of a server and what its log holds. *)
Definition committed (w : World (L := list DataEntry)) (i : nat) : option (LogPos * list bytes) :=
  match w_servers w !! i with
  | Some s => Some (commit_pos_ s, map e_data (log_ s))
  | None => None
  end.

Lemma count_votes_all nodes : snd (count_votes nodes) = zlen nodes.
Proof.
  induction nodes as [|n ns IH]; [done|]. rewrite zlen_cons. unfold count_votes in *. simpl.
  destruct (foldr _ _ ns). simpl in *. lia.
Qed.

Lemma BecomeLeaderLocked_leads {L} `{RaftLog L} ByteSize (s s' : Server (L := L)) out :
  BecomeLeaderLocked ByteSize s = Some (s', out) -> state_ s' = RAFT_STATE_LEADER /\ current_term_ s' = current_term_ s.
Proof.
  intros Hs. unfold BecomeLeaderLocked in Hs. inv_opt. apply sends_heartbeat in Hs as (ns & k & _ & ->). simpl.
  match goal with H : (if _ then _ else _) = Some _ |- _ => rename H into Hm end.
  destruct (LogPos_IsNull _); simpl in Hm; inv_opt; simplify_eq; done.
Qed.

(** C27: one vote from another server is enough to become the leader, of any number of servers
    from two on: the loop that counts the votes sets them.  So in a cluster of five, from the
    start and without a fault, two servers lead the same term, and each commits another entry
    at the same position of the log. *)
Theorem two_leaders_commit :
  (forall L (HL : RaftLog L) ByteSize i r (s s' : Server (L := L)) out,
     state_ s = RAFT_STATE_CANDIDATE -> (2 <= length (nodes_ s))%nat -> rvr_vote_granted r = true ->
     ProcessRequestVoteResponse ByteSize i (Some r) s = Some (s', out) ->
     state_ s' = RAFT_STATE_LEADER /\ current_term_ s' = current_term_ s) /\
  exists w w', new_world five [] = Some w /\ choose_all (fun _ => 1) split_brain w = Some w' /\
    leads 1 w' 0 = true /\ leads 1 w' 1 = true /\
    committed w' 0 = Some (mkLogPos 0 0 0, [bstr "x"]) /\ committed w' 1 = Some (mkLogPos 0 0 0, [bstr "y"]).
Proof.
  split.
  - intros L HL ByteSize i r s s' out Hc Hn Hr Hs. unfold ProcessRequestVoteResponse, is_candidate in Hs.
    rewrite Hc, Hr, bool_decide_true in Hs by done.
    pose proof (count_votes_all (nodes_ (update_node i (node_set_vote true) s))) as Hk.
    pose proof (count_votes_length (nodes_ (update_node i (node_set_vote true) s))) as Hl.
    destruct (count_votes _) as [ns k]. simpl in Hk, Hl. rewrite length_alter in Hl.
    assert (Hv : (zlen (nodes_ (set_nodes ns (update_node i (node_set_vote true) s))) / 2 + 1 <=? k) = true).
    { simpl. rewrite Hk. unfold zlen. rewrite length_alter, Hl. apply Z.leb_le.
      pose proof (Z.mul_div_le (Z.of_nat (length (nodes_ s))) 2). lia. }
    rewrite Hv in Hs. apply bind_Some in Hs as ([s1 o1] & H1 & Hs). simplify_eq.
    apply BecomeLeaderLocked_leads in H1 as [H1 H2]. simpl. rewrite H1, andb_false_r. simpl. done.
  - eexists _, _. split; [vm_compute; reflexivity|]. split; [vm_compute; reflexivity|].
    split_and!; vm_compute; reflexivity.
Qed.

(** ** Commits *)

Lemma filter_everything {A} (P : A -> Prop) `{forall x, Decision (P x)} (l : list A) : Forall P l -> filter P l = l.
Proof. induction 1 as [|x l Hx _ IH]; [done|]. by rewrite filter_cons_True, IH. Qed.

Lemma sorted_split (l : list LogPos) k c :
  StronglySorted pos_le l -> l !! k = Some c ->
  (length l <= k + length (filter (pos_le c) l))%nat /\
  (forall p, ~ pos_le p c -> (S k + length (filter (pos_le p) l) <= length l)%nat).
Proof.
  intros Hs. revert k. induction Hs as [|a l Hs IH Hall]; intros k Hk; [done|].
  destruct k as [|k]; simpl in Hk.
  - injection Hk as <-. split.
    + rewrite filter_cons_True by reflexivity. rewrite filter_everything by done. simpl. lia.
    + intros p Hp. rewrite filter_cons_False by done. pose proof (length_filter (pos_le p) l). simpl. lia.
  - destruct (IH k Hk) as [H1 H2].
    assert (Hac : pos_le a c).
    { rewrite List.Forall_forall in Hall. eapply Hall, list_elem_of_In, list_elem_of_lookup_2, Hk. }
    split.
    + rewrite filter_cons. case_decide; simpl; lia.
    + intros p Hp. rewrite filter_cons_False by (intros Hpa; apply Hp; by transitivity a).
      specialize (H2 p Hp). simpl. lia.
Qed.

(** The servers known to have the log up to [p]. *)
Definition have {L} `{RaftLog L} (p : LogPos) (s : Server (L := L)) : list LogPos := filter (pos_le p) (positions s).

Lemma can_commit_majority {L} `{RaftLog L} (s : Server (L := L)) :
  nodes_ s <> [] ->
  (length (nodes_ s) < 2 * length (have (can_commit s) s))%nat /\
  (forall p, (length (nodes_ s) < 2 * length (have p s))%nat -> pos_le p (can_commit s)).
Proof.
  intros Hn. set (ps := positions s).
  assert (Hps : length ps = length (nodes_ s)) by (unfold ps, positions; by rewrite length_alter, length_fmap).
  assert (Hpos : (0 < length (nodes_ s))%nat) by (destruct (nodes_ s); [done|simpl; lia]).
  set (k := Z.to_nat ((zlen ps - 1) / 2)).
  assert (Hk : (2 * k <= length ps - 1 < 2 * k + 2)%nat).
  { unfold k, zlen. pose proof (Z.mul_div_le (Z.of_nat (length ps) - 1) 2).
    pose proof (Z.mul_succ_div_gt (Z.of_nat (length ps) - 1) 2).
    assert (0 <= (Z.of_nat (length ps) - 1) / 2) by (apply Z.div_pos; lia). lia. }
  assert (Hperm : sort_positions ps ≡ₚ ps) by apply merge_sort_Permutation.
  assert (Hlk : sort_positions ps !! k = Some (can_commit s)).
  { unfold can_commit. fold ps k. destruct (lookup_lt_is_Some_2 (sort_positions ps) k) as [c Hc].
    { rewrite (Permutation_length Hperm). lia. }
    rewrite Hc. f_equal. symmetry. by apply nth_lookup_Some. }
  assert (Hsort : StronglySorted pos_le (sort_positions ps)) by (apply StronglySorted_merge_sort; apply _).
  destruct (sorted_split _ _ _ Hsort Hlk) as [H1 H2].
  assert (Hf : forall p, length (filter (pos_le p) (sort_positions ps)) = length (have p s)).
  { intros p. unfold have. by rewrite Hperm. }
  pose proof (Permutation_length Hperm) as Hlen. rewrite Hf in H1. split; [lia|].
  intros p Hp. destruct (decide (pos_le p (can_commit s))) as [|Hno]; [done|].
  specialize (H2 p Hno). rewrite Hf in H2. lia.
Qed.

(** C12: the commit position of a leader moves exactly to the furthest position that a majority
    of the servers is known to have, when that is further; then exactly the clients that wait
    for a position up to it are answered, in order and as committed, and the others stay. *)
Theorem commit_by_majority {L} `{RaftLog L} (s s' : Server (L := L)) out b :
  nodes_ s <> [] -> waiters_sorted (commit_waiters_ s) ->
  MaybeAdvanceCommitLocked s = Some (s', out, b) ->
  (forall p, (length (nodes_ s) < 2 * length (have p s))%nat -> LogPos_le p (commit_pos_ s') = true) /\
  (if b : bool then
     LogPos_lt (commit_pos_ s) (commit_pos_ s') = true /\ (length (nodes_ s) < 2 * length (have (commit_pos_ s') s))%nat /\
     exists told, commit_waiters_ s = told ++ commit_waiters_ s' /\ out = answered <$> told /\
       Forall (fun w => LogPos_le w.1 (commit_pos_ s') = true) told /\
       Forall (fun w => LogPos_before (commit_pos_ s') w.1) (commit_waiters_ s')
   else s' = s /\ out = []).
Proof.
  intros Hn Hw Hs. destruct (can_commit_majority s Hn) as [H1 H2]. unfold MaybeAdvanceCommitLocked in Hs.
  apply bind_Some in Hs as ([] & _ & Hs).
  destruct (LogPos_le (can_commit s) (commit_pos_ s)) eqn:Hle.
  - simplify_eq. split; [|done]. intros p Hp. change (pos_le p (commit_pos_ s')). etransitivity; [by apply H2|done].
  - pose proof (AdvanceWaiters_spec (can_commit s) (commit_waiters_ s)) as Ha. unfold AdvanceWaitersLocked in Hs. simpl in Hs.
    destruct (AdvanceWaiters _ _) as [rest o]. simpl in Hs. simplify_eq. simpl.
    apply LogPos_le_false in Hle. split; [by intros p Hp; apply H2|]. split_and!; [done..|].
    destruct Ha as (d & ? & ? & ? & Hr). exists d. split_and!; try done. by apply Hr.
Qed.

(** A leader of term 1 with two entries, one of which another server has. *)
Definition leading : Server (L := list DataEntry) :=
  let e i p := mkDataEntry (PosToProto (list_pos i)) (PosToProto p) 1 1 (bstr "x") in
  let s := update_node 1 (node_set_match (list_pos 0)) (set_state RAFT_STATE_LEADER (set_current_term 1 one_server)) in
  let s := set_last_log_term 1 (set_last_log_pos (list_pos 1) (set_log [e 0%nat LogPos_null; e 1%nat (list_pos 0)] s)) in
  set_commit_waiters [(list_pos 0, (mkDataResponse None (Some 1) None None, 5%nat));
                      (list_pos 1, (mkDataResponse None (Some 1) None None, 6%nat))] s.

Lemma commit_by_majority_witness : exists s',
  MaybeAdvanceCommitLocked leading = Some (s', [ClientDone 5 (mkDataResponse None (Some 1) (Some true) None)], true) /\
  commit_pos_ s' = list_pos 0 /\ LogPos_lt (commit_pos_ leading) (commit_pos_ s') = true.
Proof.
  eexists. assert (Hr : MaybeAdvanceCommitLocked leading =
    Some (_, [ClientDone 5 (mkDataResponse None (Some 1) (Some true) None)], true)) by (vm_compute; reflexivity).
  split; [exact Hr|]. split; [reflexivity|].
  apply commit_by_majority in Hr as (_ & Hr & _); [exact Hr|discriminate|].
  repeat constructor; simpl; lia.
Defined.

(** ** Replication *)

Section Replication.
Context {L : Type} `{HL : RaftLog L} `{!RaftLogLaws L}.
Variable ByteSize : DataEntry -> Z.

(** C10: a request with at least one entry, of a term that is not before that of the follower,
    whose previous entry is the last of the first [n] entries of the follower, and whose
    entries the log has room for after the cut, succeeds if nothing is cut or the cut is not
    before the commit position: the follower then has its first [n] entries, where they were,
    followed by those of the request, and its last position and term are those of the last of
    them. *)
Theorem append_takes_entries req (t : Server (L := L)) n es e :
  log_ok (log_ t) -> log_fits_all (log_cut (log_ t) n) (ae_entry req) ->
  current_term_ t <= ae_term req -> ae_entry req = es ++ [e] -> (n <= length (log_entries (log_ t)))%nat ->
  prefix_end (log_ t) n (PosFromProto (ae_last_log_pos req)) (ae_last_log_term req) ->
  n = length (log_entries (log_ t)) \/ LogPos_lt (log_pos (log_ t) n) (commit_pos_ t) = false ->
  let '(t', _, resp) := Append req t in
  aer_success resp = true /\ current_term_ t' = ae_term req /\ log_ok (log_ t') /\
  log_entries (log_ t') = take n (log_entries (log_ t)) ++ ae_entry req /\
  (forall i, (i <= n)%nat -> log_pos (log_ t') i = log_pos (log_ t) i) /\
  last_log_pos_ t' = log_pos (log_ t') (n + length es) /\ last_log_term_ t' = e_term e.
Proof. by apply Append_replaces_suffix. Qed.

(** C30: the check against the commit position lets a request through whose previous entry is
    the one right before the committed one: the committed entry is cut off the log of the
    follower and the first entry of the request takes its place, at the same position. *)
Theorem append_drops_committed req (t : Server (L := L)) n es e c :
  log_ok (log_ t) -> log_fits_all (log_cut (log_ t) n) (ae_entry req) ->
  current_term_ t <= ae_term req -> ae_entry req = es ++ [e] ->
  prefix_end (log_ t) n (PosFromProto (ae_last_log_pos req)) (ae_last_log_term req) ->
  log_entries (log_ t) !! n = Some c -> commit_pos_ t = log_pos (log_ t) n ->
  let '(t', _, resp) := Append req t in
  aer_success resp = true /\ log_entries (log_ t') !! n = head (ae_entry req) /\
  log_pos (log_ t') n = commit_pos_ t.
Proof.
  intros Ho Hfits Ht He Hp Hc Hcommit. pose proof (lookup_lt_Some _ _ _ Hc) as Hn.
  pose proof (Append_replaces_suffix req t n es e Ho Hfits Ht He) as Ha.
  destruct (Append req t) as [[t' o] resp]. destruct Ha as (Hok & _ & _ & Hl & Hpos & _).
  { lia. } { done. } { right. rewrite Hcommit, log_pos_lt by (done || lia). apply Nat.ltb_irrefl. }
  split; [done|]. rewrite Hl, lookup_app_r by (rewrite length_take; lia). rewrite length_take, Hpos by lia.
  rewrite Nat.min_l, Nat.sub_diag by lia. split; [|done]. by rewrite He, head_lookup.
Qed.

(** The log of a server ends with the entry it remembers as the last. *)
Definition well_placed (s : Server (L := L)) : Prop :=
  prefix_end (log_ s) (length (log_entries (log_ s))) (last_log_pos_ s) (last_log_term_ s).

Definition same_log (s t : Server (L := L)) : Prop :=
  log_entries (log_ t) = log_entries (log_ s) /\
  forall i, (i <= length (log_entries (log_ s)))%nat -> log_pos (log_ t) i = log_pos (log_ s) i.

(** The leader takes node [i] to be idle and to have all its entries. *)
Definition caught_up (s : Server (L := L)) (i : nat) : Prop :=
  (i < length (nodes_ s))%nat /\ i <> node_id_ s /\ n_in_transfer (node s i) = false /\
  n_next_log_pos (node s i) = log_Tell (log_ s) /\
  n_last_log_pos (node s i) = last_log_pos_ s /\ n_last_log_term (node s i) = last_log_term_ s.

(** C9: [Save] at a leader with a well formed log that has room for the entry, whose last
    position is that of its last entry and whose [max_entries_size_] is positive, does not
    fail; it adds one entry with the data to the log and sends it to every idle node that has
    the rest; a follower with the same log and room, that is not in a later term, takes it, and
    then has the entries of the leader, and remembers the last of them. Over the log files
    there is room as long as no entry ends with a file: where one does [Save] fails
    ([leader_fails_at_file_end]). *)
Theorem save_replicates (s : Server (L := L)) data wait call :
  log_ok (log_ s) -> log_fits (log_ s) (saved_entry s data) ->
  is_leader s = true -> 0 < max_entries_size_ s -> well_placed s -> exists s' out,
  Save ByteSize data wait call s = Some (s', out) /\ log_ok (log_ s') /\ well_placed s' /\
  log_entries (log_ s') = log_entries (log_ s) ++ [saved_entry s data] /\
  forall i, caught_up s i -> exists req, SendAppend i req ∈ out /\
    forall t : Server (L := L), log_ok (log_ t) -> log_fits (log_ t) (saved_entry s data) ->
      current_term_ t <= current_term_ s -> same_log s t ->
      let '(t', _, resp) := Append req t in
      aer_success resp = true /\ log_ok (log_ t') /\ log_entries (log_ t') = log_entries (log_ s') /\ well_placed t' /\
      current_term_ t' = current_term_ s.
Proof.
  intros Ho Hfit Hlead Hmax Hw. destruct (Save_spec ByteSize s data wait call Ho Hfit Hlead Hmax)
    as (s' & out & Hs & Ho' & Hl & Hp & Ht & Hlp & Hlt & Hout).
  exists s', out. split; [done|]. split; [done|]. split.
  { unfold well_placed. rewrite Hl, length_app, Nat.add_comm, Hlp, Hlt. simpl. exists (saved_entry s data).
    rewrite Hl, lookup_app_r, Nat.sub_diag, Hp, <- law_tell by done. done. }
  split; [done|]. intros i (Hi & Hid & Hidle & Hnext & Hlast & Hterm).
  exists (request_for s (node s i) [saved_entry s data]). split; [by apply Hout|].
  intros t Hot Hfits Hterms [Hsame Hpos]. set (req := request_for s (node s i) [saved_entry s data]).
  assert (Hprev : PosFromProto (ae_last_log_pos req) = last_log_pos_ s).
  { simpl. rewrite Hlast. unfold well_placed, prefix_end in Hw.
    destruct (length (log_entries (log_ s))) as [|m] eqn:Hm; [by rewrite Hw|]. destruct Hw as (x & _ & -> & _).
    apply log_pos_roundtrip; [done|lia]. }
  pose proof (Append_replaces_suffix req t (length (log_entries (log_ s))) [] (saved_entry s data) Hot) as Ha.
  destruct (Append req t) as [[t' o] resp]. destruct Ha as (Hok & Ht' & Hot' & Hl' & Hpos' & Hlp' & Hlt').
  { unfold log_cut. rewrite Hsame, Nat.eqb_refl. by split. } { done. } { done. } { by rewrite Hsame. }
  { rewrite Hprev. simpl. rewrite Hterm. unfold well_placed, prefix_end in *.
    destruct (length (log_entries (log_ s))) as [|m] eqn:Hm; [done|]. destruct Hw as (x & Hx & -> & ->).
    exists x. rewrite Hsame, Hpos by lia. done. }
  { left. by rewrite Hsame. }
  assert (He : log_entries (log_ t') = log_entries (log_ s) ++ [saved_entry s data]) by by rewrite Hl', Hsame, firstn_all.
  split; [done|]. split; [done|]. split; [by rewrite He, Hl|]. split; [|done].
  unfold well_placed. rewrite He, length_app, Nat.add_comm, Hlp', Hlt'. simpl. exists (saved_entry s data).
  rewrite He, lookup_app_r, Nat.sub_diag, Nat.add_0_r by done. done.
Qed.
End Replication.

(** *** Instances *)

Definition entry (i : nat) (term : Z) (data : bytes) : DataEntry :=
  mkDataEntry (PosToProto (list_pos i)) (PosToProto (list_pos (i - 1))) term term data.

(** A follower with two entries, the first [commit] of them committed. *)
Definition follower (commit : LogPos) : Server (L := list DataEntry) :=
  set_commit_pos commit (set_current_term 1 (set_last_log_term 1 (set_last_log_pos (list_pos 1)
    (set_log [entry 0 1 (bstr "x"); entry 1 1 (bstr "y")] one_server)))).

Definition second_entry : AppendEntries :=
  mkAppendEntries 2 1 (PosToProto (list_pos 0)) 1 (PosToProto (list_pos 0)) [entry 1 2 (bstr "z")].

Lemma append_takes_entries_witness :
  let '(t', _, resp) := Append second_entry (follower (list_pos 0)) in
  aer_success resp = true /\ log_ t' = [entry 0 1 (bstr "x"); entry 1 2 (bstr "z")] /\ last_log_pos_ t' = list_pos 1.
Proof.
  pose proof (append_takes_entries (L := list DataEntry) second_entry (follower (list_pos 0)) 1 []
    (entry 1 2 (bstr "z"))) as Ha.
  destruct (Append second_entry (follower (list_pos 0))) as [[t' o] resp].
  destruct Ha as (Hok & _ & _ & Hl & _ & Hp & _).
  - exact I.
  - repeat split.
  - simpl. lia.
  - reflexivity.
  - simpl. lia.
  - exists (entry 0 1 (bstr "x")). split; [reflexivity|]. split; reflexivity.
  - right. reflexivity.
  - split; [exact Hok|]. split; [exact Hl|exact Hp].
Defined.

Lemma append_drops_committed_witness :
  let '(t', _, resp) := Append second_entry (follower (list_pos 1)) in
  aer_success resp = true /\ log_ t' !! 1%nat = Some (entry 1 2 (bstr "z")) /\ list_pos 1 = commit_pos_ (follower (list_pos 1)).
Proof.
  pose proof (append_drops_committed (L := list DataEntry) second_entry (follower (list_pos 1)) 1 []
    (entry 1 2 (bstr "z")) (entry 1 1 (bstr "y"))) as Ha.
  destruct (Append second_entry (follower (list_pos 1))) as [[t' o] resp].
  destruct Ha as (Hok & Hl & Hp).
  - exact I.
  - repeat split.
  - simpl. lia.
  - reflexivity.
  - exists (entry 0 1 (bstr "x")). split; [reflexivity|]. split; reflexivity.
  - reflexivity.
  - reflexivity.
  - split; [exact Hok|]. split; [exact Hl|exact Hp].
Defined.

(** The leader of a new cluster, all of whose nodes are idle. *)
Definition new_leader : Server (L := list DataEntry) :=
  set_state RAFT_STATE_LEADER (set_current_term 1
    (set_nodes (node_set_next (list_pos 0) <$> nodes_ one_server) one_server)).

Lemma save_replicates_witness : exists s' out,
  Save (fun _ => 1) (bstr "x") true 7 new_leader = Some (s', out) /\
  log_ s' = [saved_entry new_leader (bstr "x")] /\
  exists req, SendAppend 2 req ∈ out /\
    let '(t', _, resp) := Append req one_server in aer_success resp = true /\ log_ t' = log_ s'.
Proof.
  destruct (save_replicates (L := list DataEntry) (fun _ => 1) new_leader (bstr "x") true 7)
    as (s' & out & Hs & _ & _ & Hl & Hall); [exact I|exact I|reflexivity|reflexivity|reflexivity|].
  exists s', out. split; [exact Hs|]. split; [exact Hl|].
  destruct (Hall 2%nat) as (req & Hin & Ht).
  { repeat split; vm_compute; (discriminate || lia || reflexivity). }
  exists req. split; [exact Hin|]. specialize (Ht one_server). destruct (Append req one_server) as [[t' o] resp].
  destruct Ht as (Hok & _ & Ht & _); [exact I|exact I|discriminate|split; reflexivity|]. split; [exact Hok|exact Ht].
Defined.

End RaftProps.
