(* ===== verification/RaftFiles.v ===== *)
(** * RaftFiles: the raft server over the log files

    The log of [raft/raft_server.cc] made of the writer and the readers of [io/logio/logio.cc],
    as an instance of the interface [Raft.RaftLog]; every entry is flushed, as the server does
    it.  It has the laws of [RaftNet.RaftLogLaws] as long as no entry ends with a file: there
    the writer and the readers disagree on the position, and a leader fails.  The interface
    has positions and not readers, so that [file_sought] starts from a new reader each time;
    [seek_entry] shows that any reader between two records ([LogFlushed.calm]) comes to the same
    place, and [RaftReader] has the reader that the node keeps. *)

From S2P Require Import Prelude.
From S2P Require Import RecordIO.
From S2P Require Import RecordIOSpec.
From S2P Require Import LogIO.
From S2P Require Import LogIOSpec.
From S2P Require Import LogIOReader.
From S2P Require Import LogIOProps.
From S2P Require Import LogFlushed.
From S2P Require Import Raft.
From S2P Require Import RaftSpec.
From S2P Require Import RaftNet.

Module RaftFiles.
Import LogFlushed Raft RaftSpec RaftNet.

(** The wire format of the protocol buffers. *)
Class EntryCodec := {
  SerializeToString : DataEntry -> bytes;
  ParseProto : bytes -> option DataEntry;
}.

Class EntryCodecLaws `{EntryCodec} := { parse_serialize e : ParseProto (SerializeToString e) = Some e }.

(** ** The log *)

Definition FileLog : Type := LogWriter * Disk.

Section Log.
Context `{EC : EntryCodec}.
Variable crc32 : Z -> bytes -> Z.
Variable Deflate : bytes -> option bytes.
Variable Inflate : bytes -> bytes * bool.
Variables bs N : Z.

Definition file_Tell (l : FileLog) : LogPos := default LogPos_null (Writer_Tell l.1).

Definition file_WriteRecord (l : FileLog) (e : DataEntry) : FileLog * bool :=
  match WriteRecord crc32 Deflate true l.1 l.2 (SerializeToString e) with
  | Some (w, d, ok) => ((w, d), ok)
  | None => (l, false)
  end.

Definition file_Flush (l : FileLog) : FileLog :=
  match Flush crc32 l.1 l.2 with Some (w, d, _) => (w, d) | None => l end.

Definition file_TruncateAt (l : FileLog) (pos : LogPos) : FileLog :=
  match TruncateAt crc32 pos l.1 l.2 with Some (w, d, _) => (w, d) | None => l end.

(** A reader, new, that goes to [pos]. *)
Definition file_sought (l : FileLog) (pos : LogPos) : option LogReader :=
  '(r, _, ok) ← Seek crc32 Inflate pos (LogReader_new bs N) l.2; CHECK ok;; Some r.

(** [ReadCurrent]: the entry before the reader. *)
Definition read_current (r : LogReader) (d : Disk) : option (DataEntry * LogReader) :=
  '(r, _, out, ok) ← GetNextRecord crc32 Inflate r d (Some []);
  CHECK ok;;
  buffer ← out;
  e ← ParseProto buffer;
  Some (e, r).

Definition file_Seek (l : FileLog) (pos : LogPos) : option LogPos := TellAtBlock <$> file_sought l pos.

Definition file_ReadCurrent (l : FileLog) (pos : LogPos) : option (DataEntry * LogPos) :=
  r ← file_sought l pos; '(e, r) ← read_current r l.2; Some (e, TellAtBlock r).

(** The bytes of the files. *)
Definition file_left (l : FileLog) : nat := map_fold (fun _ (c : bytes) n => (length c + n)%nat) O (d_log l.2).

#[export] Instance file_log : RaftLog FileLog := {
  log_Tell := file_Tell;
  log_WriteRecord := file_WriteRecord;
  log_Flush := file_Flush;
  log_TruncateAt := file_TruncateAt;
  log_Seek := file_Seek;
  log_ReadCurrent := file_ReadCurrent;
  log_left l _ := file_left l;
}.

(** What reading the whole log from its start gives: the entries, and the reader after [n]. *)
Fixpoint entries_from (fuel : nat) (r : LogReader) (d : Disk) : list DataEntry :=
  match fuel with
  | O => []
  | S fuel => match read_current r d with Some (e, r) => e :: entries_from fuel r d | None => [] end
  end.

Fixpoint reader_after (n : nat) (r : LogReader) (d : Disk) : LogReader :=
  match n with
  | O => r
  | S n => match read_current r d with Some (_, r) => reader_after n r d | None => r end
  end.

Definition first_reader (l : FileLog) : LogReader := Rewind (LogReader_new bs N) l.2.
Definition file_entries (l : FileLog) : list DataEntry := entries_from (file_left l) (first_reader l) l.2.
Definition file_pos (l : FileLog) (n : nat) : LogPos := TellAtBlock (reader_after n (first_reader l) l.2).

End Log.

(** ** The laws *)

Section Laws.
Context `{EL : EntryCodecLaws}.
Variable crc32 : Z -> bytes -> Z.
Variable Deflate : bytes -> option bytes.
Variable Inflate : bytes -> bytes * bool.
Variables bs N dump : Z.
Hypothesis Hsz : sizes_ok bs N dump.

Abbreviation blocks := (list (Z * list piece)).

Lemma Hok : ok_size bs. Proof. apply Hsz. Qed.
Lemma HN : 0 < N. Proof. apply Hsz. Qed.
Lemma Hlim : bs * N < 2 ^ 63. Proof. apply Hsz. Qed.
Lemma Hdump : dump + 16 < bs. Proof. apply Hsz. Qed.

(** Every entry has blocks of its own. *)
Definition at_entry (gs : list blocks) (k : nat) : Z := zlen (concat (take k gs)).

Definition at_pos (B : Z) : LogPos := mkLogPos (B / N) (B mod N) 0.

Record laid (es : list DataEntry) (gs : list blocks) (l : FileLog) : Prop := {
  laid_flushed : flushed crc32 bs N dump (concat gs) l.1 l.2;
  laid_entries : Forall2 (fun e g => split true (SerializeToString e) (pieces g)) es gs;
  laid_small : zlen (pieces (concat gs)) < 2 ^ 31 - 1;
}.

(** ... and none of them ends with a file. *)
Record holds (es : list DataEntry) (gs : list blocks) (l : FileLog) : Prop := {
  holds_laid : laid es gs l;
  holds_inside k : (0 < k <= length gs)%nat -> at_entry gs k mod N <> 0;
}.

Definition file_ok (l : FileLog) : Prop := exists es gs, holds es gs l.

(** [e] can be added, and does not end with a file. *)
Definition file_fits (l : FileLog) (e : DataEntry) : Prop :=
  (forall F, flushed crc32 bs N dump F l.1 l.2 -> zlen (pieces F) + zlen (SerializeToString e) + 1 < 2 ^ 31 - 1) /\
  block_num_ (file_Tell (file_Flush crc32 (file_WriteRecord crc32 Deflate l e).1)) <> 0.

Lemma flushed_left F (l : FileLog) : flushed crc32 bs N dump F l.1 l.2 -> Z.of_nat (file_left l) = bs * zlen F.
Proof.
  intros (HL & _). destruct (div_mod_N N HN F) as (HF & Hm & Hq). unfold file_left.
  rewrite (files_bytes crc32 bs N Hok HN Hlim F (Z.to_nat (zlen F / N + 1)) (ok_fit _ _ _ _ _ _ _ _ _ HL)).
  - rewrite Z.min_l; [done|]. rewrite Z2Nat.id by lia. nia.
  - rewrite Z2Nat.id by lia. apply (ok_disk _ _ _ _ _ _ _ _ _ HL).
Qed.

(** Enough for the first part of [file_fits], from the sizes of the files. *)
Lemma file_left_pieces F l : flushed crc32 bs N dump F l.1 l.2 -> zlen (pieces F) <= Z.of_nat (file_left l).
Proof. intros HF. rewrite (flushed_left F l HF). apply pieces_bytes. apply (ok_fit _ _ _ _ _ _ _ _ _ (proj1 HF)). Qed.

(** A reader before entry [k]. *)
Definition before (gs : list blocks) (k : nat) (r : LogReader) : Prop :=
  lr_at crc32 bs N (concat gs) (at_entry gs k) r [] /\ r_record (lr_reader r) = [].

Section Laid.
Context {es : list DataEntry} {gs : list blocks} {l : FileLog} (Hl : laid es gs l).

Lemma laid_lw : lw_ok crc32 bs N dump false (concat gs) (pieces (concat gs)) l.1 l.2.
Proof. apply (laid_flushed _ _ _ Hl). Qed.

Lemma laid_disk : disk_has crc32 bs N (zlen (concat gs) / N + 1) (concat gs) l.2.
Proof. apply (ok_disk _ _ _ _ _ _ _ _ _ laid_lw). Qed.

Lemma laid_fit : all_fit bs (concat gs).
Proof. apply (ok_fit _ _ _ _ _ _ _ _ _ laid_lw). Qed.

Lemma laid_linked : linked crc32 bs 0 (concat gs).
Proof. apply (lw_linked _ _ _ _ _ _ _ _ _ laid_lw). Qed.

Lemma laid_bound : zlen (concat gs) < 2 ^ 31 - 1.
Proof. pose proof (flushed_bound _ _ _ _ _ _ _ (laid_flushed _ _ _ Hl)). pose proof (laid_small _ _ _ Hl). lia. Qed.

Lemma laid_length : length es = length gs.
Proof. apply (Forall2_length (laid_entries _ _ _ Hl)). Qed.

Lemma at_entry_0 : at_entry gs 0 = 0.
Proof. done. Qed.

Lemma at_entry_all : at_entry gs (length gs) = zlen (concat gs).
Proof. unfold at_entry. by rewrite firstn_all. Qed.

Lemma at_entry_S k g : gs !! k = Some g -> at_entry gs (S k) = at_entry gs k + zlen g.
Proof. intros Hg. unfold at_entry. by rewrite (take_S_r _ _ _ Hg), concat_app, zlen_app, concat_cons, app_nil_r. Qed.

Lemma entry_blocks k g : gs !! k = Some g -> 0 < zlen g.
Proof.
  intros Hg. destruct (Forall2_lookup_r _ _ _ _ _ (laid_entries _ _ _ Hl) Hg) as (e & _ & Hs). destruct g; [done|].
  rewrite zlen_cons. pose proof (zlen_nonneg g). lia.
Qed.

Lemma at_entry_lt i j : (i < j <= length gs)%nat -> at_entry gs i < at_entry gs j.
Proof.
  intros Hij. induction j as [|j IH]; [lia|]. destruct (lookup_lt_is_Some_2 gs j) as [g Hg]; [lia|].
  rewrite (at_entry_S j g Hg). pose proof (entry_blocks j g Hg). destruct (decide (i = j)) as [->|]; [lia|]. specialize (IH ltac:(lia)). lia.
Qed.

Lemma at_entry_range k : (k <= length gs)%nat -> 0 <= at_entry gs k <= zlen (concat gs).
Proof.
  intros Hk. rewrite <- at_entry_all. split; [apply zlen_nonneg|].
  destruct (decide (k = length gs)) as [->|]; [done|]. pose proof (at_entry_lt k (length gs)). lia.
Qed.

Lemma entry_here k g : gs !! k = Some g -> dropZ (at_entry gs k) (concat gs) = g ++ concat (drop (S k) gs).
Proof.
  intros Hg. rewrite <- (take_drop k gs) at 2. rewrite concat_app. unfold at_entry.
  rewrite dropZ_app_r, Z.sub_diag, dropZ_0 by lia. by rewrite (drop_S _ _ _ Hg).
Qed.

Lemma before_read k r e : es !! k = Some e -> before gs k r -> exists r', read_current crc32 Inflate r l.2 = Some (e, r') /\ before gs (S k) r' /\ moved_on r'.
Proof.
  intros He [HL Hr]. destruct (Forall2_lookup_l _ _ _ _ _ (laid_entries _ _ _ Hl) He) as (g & Hg & Hs).
  destruct (read_record crc32 Inflate bs N Hok HN Hlim (concat gs) l.2 g _ _ _ r laid_disk laid_fit laid_linked laid_bound HL Hr (entry_here k g Hg) Hs)
    as (r' & HG & HL' & Hr' & Hm). exists r'. unfold read_current. rewrite HG. cbn [mbind option_bind CHECK]. rewrite parse_serialize. split; [done|].
  split; [|done]. split; [by rewrite (at_entry_S k g Hg)|done].
Qed.

(** The first call opens the first file. *)
Lemma first_reads : exists r0, before gs 0 r0 /\ TellAtBlock (first_reader bs N l) = mkLogPos 0 0 0 /\ TellAtBlock r0 = mkLogPos 0 0 0 /\
  read_current crc32 Inflate (first_reader bs N l) l.2 = read_current crc32 Inflate r0 l.2.
Proof.
  pose proof laid_disk as [Ha Hd]. pose proof (zlen_nonneg (concat gs)). pose proof (Z.div_pos (zlen (concat gs)) N ltac:(lia) HN).
  assert (Hf0 : d_log l.2 !! 0 = Some (chain crc32 bs (file_of N (concat gs) 0))).
  { rewrite Hd. by destruct (Z.ltb_spec 0 (zlen (concat gs) / N + 1)); [|lia]. }
  destruct (log_files_first l.2 _ Hf0) as [fs Hfs].
  { intros i Hi. rewrite Hd. by destruct (Z.leb_spec 0 i); [lia|]. }
  exists (mkLogReader bs N (Some (mkHandle false 0 0)) 0 0 (RecordReader_new bs) 0 []). split_and!.
  - split; [|done]. pose proof HN. exists 0, 0. split; [split; simpl; try done; lia|].
    split_and!; [done..|]. exists [], []. split_and!; try done; [constructor|by left].
  - unfold first_reader, Rewind. by rewrite Hfs.
  - done.
  - unfold read_current, first_reader, Rewind. rewrite Hfs. unfold GetNextRecord. simpl. unfold OpenFile. simpl. rewrite Hf0.
    unfold Open_existing, ask. by rewrite Ha, Hf0.
Qed.

Lemma reader_after_before n k r : before gs k r -> (k + n <= length gs)%nat -> before gs (k + n) (reader_after crc32 Inflate n r l.2).
Proof.
  revert k r. induction n as [|n IH]; intros k r Hr Hk; cbn [reader_after]; [by rewrite Nat.add_0_r|].
  destruct (lookup_lt_is_Some_2 es k) as [e He]; [rewrite laid_length; lia|].
  destruct (before_read k r e He Hr) as (r' & -> & Hr' & _). rewrite <- Nat.add_succ_comm. apply IH; [done|lia].
Qed.

Lemma before_end r : before gs (length gs) r -> read_current crc32 Inflate r l.2 = None.
Proof.
  intros [HL Hr]. rewrite at_entry_all in HL.
  destruct (GetNextRecord_spec crc32 Inflate bs N Hok HN Hlim (concat gs) l.2 (zlen (concat gs)) r (pieces (dropZ (zlen (concat gs)) (concat gs))) [] laid_disk laid_fit laid_linked laid_bound)
    as ([[[r' dk'] out] ok] & HG & _ & b' & Hg); [by exists []|].
  rewrite dropZ_all, Hr in Hg by lia. simpl in Hg. destruct Hg as (_ & -> & _). unfold read_current. by rewrite HG.
Qed.

Lemma entries_from_before fuel k r : before gs k r -> (k <= length gs)%nat -> (length gs - k <= fuel)%nat ->
  entries_from crc32 Inflate fuel r l.2 = drop k es.
Proof.
  revert k r. induction fuel as [|fuel IH]; intros k r Hr Hk Hf; cbn [entries_from].
  - by rewrite drop_ge by (rewrite laid_length; lia).
  - destruct (decide (k = length gs)) as [->|Hne].
    + by rewrite before_end, drop_ge by (rewrite ?laid_length; done).
    + destruct (lookup_lt_is_Some_2 es k) as [e He]; [rewrite laid_length; lia|].
      destruct (before_read k r e He Hr) as (r' & -> & Hr' & _). rewrite (drop_S _ _ _ He). f_equal. apply IH; [done|lia..].
Qed.

Lemma length_blocks : Z.of_nat (length gs) <= zlen (concat gs).
Proof.
  assert (Hle : forall k, (k <= length gs)%nat -> Z.of_nat k <= at_entry gs k).
  { induction k as [|k IH]; intros Hk; [done|]. pose proof (at_entry_lt k (S k)). specialize (IH ltac:(lia)). lia. }
  rewrite <- at_entry_all. by apply Hle.
Qed.

Lemma file_left_bytes : Z.of_nat (file_left l) = bs * zlen (concat gs).
Proof. apply flushed_left, (laid_flushed _ _ _ Hl). Qed.

Lemma file_left_enough : (length gs <= file_left l)%nat.
Proof. pose proof file_left_bytes. pose proof length_blocks. destruct Hok. nia. Qed.

Lemma file_entries_laid : file_entries crc32 Inflate bs N l = es.
Proof.
  unfold file_entries. destruct first_reads as (r0 & Hr0 & _ & _ & Hread). pose proof file_left_enough as Hf.
  assert (H0 : entries_from crc32 Inflate (file_left l) (first_reader bs N l) l.2 = entries_from crc32 Inflate (file_left l) r0 l.2).
  { destruct (file_left l) as [|n]; [done|]. cbn [entries_from]. by rewrite Hread. }
  rewrite H0. by rewrite (entries_from_before _ 0 r0 Hr0) by lia.
Qed.

(** Going to an entry, from wherever the reader was. *)
Lemma seek_entry k r : (k <= length gs)%nat -> calm bs N r -> exists r',
  Seek crc32 Inflate (at_pos (at_entry gs k)) r l.2 = Some (r', l.2, true) /\ before gs k r' /\ TellAtBlock r' = at_pos (at_entry gs k).
Proof.
  intros Hk Hc. pose proof (at_entry_range k Hk) as HB. set (B := at_entry gs k) in *.
  pose proof HN. pose proof (Z.div_mod B N ltac:(lia)) as HBN. pose proof (Z.mod_pos_bound B N HN). pose proof (Z.div_pos B N ltac:(lia) HN).
  assert (B / N <= zlen (concat gs) / N) by (apply Z.div_le_mono; lia).
  destruct (Seek_block crc32 Inflate bs N Hok Hlim (concat gs) l.2 r (B / N) (B mod N) laid_disk laid_linked) as (r' & Hs & HL & Hr & Hat); [lia..|done|].
  exists r'. split; [exact Hs|]. split.
  - split; [|done]. fold B. by replace (B / N * N + B mod N) with B in HL by lia.
  - eapply at_block_tell; eauto using Hok, HN, Hlim, laid_bound.
Qed.

Lemma sought_entry k : (k <= length gs)%nat -> exists r, file_sought crc32 Inflate bs N l (at_pos (at_entry gs k)) = Some r /\ before gs k r /\ TellAtBlock r = at_pos (at_entry gs k).
Proof.
  intros Hk. destruct (seek_entry k (LogReader_new bs N) Hk (calm_new bs N)) as (r & Hs & Hr & Ht). exists r. unfold file_sought. by rewrite Hs.
Qed.

Lemma tell_end : file_Tell l = at_pos (at_entry gs (length gs)).
Proof.
  unfold file_Tell. rewrite (flushed_tell crc32 bs N dump Hok HN Hlim _ _ _ (laid_flushed _ _ _ Hl) laid_bound). cbn [default from_option id].
  by rewrite at_entry_all.
Qed.

Lemma at_pos_before B B' : 0 <= B < B' -> LogPos_before (at_pos B) (at_pos B').
Proof.
  intros HB. pose proof HN. pose proof (Z.div_mod B N ltac:(lia)). pose proof (Z.div_mod B' N ltac:(lia)). assert (B / N <= B' / N) by (apply Z.div_le_mono; lia).
  unfold LogPos_before. cbn [file_num_ block_num_ record_num_ at_pos]. destruct (decide (B / N = B' / N)) as [E|]; [right; split; [done|]; left; nia|left; lia].
Qed.

(** One entry more. *)
Lemma write_laid e : zlen (pieces (concat gs)) + zlen (SerializeToString e) + 1 < 2 ^ 31 - 1 ->
  exists l' g, file_WriteRecord crc32 Deflate l e = (l', true) /\ laid (es ++ [e]) (gs ++ [g]) (file_Flush crc32 l').
Proof.
  intros Hroom. destruct (append_record crc32 Deflate bs N dump Hok HN Hlim Hdump _ _ _ (SerializeToString e) (laid_flushed _ _ _ Hl) Hroom)
    as (w1 & dk1 & w2 & dk2 & g & Hw & Hf & Hfl & Hs & Hz). unfold file_WriteRecord. rewrite Hw. exists (w1, dk1), g. split; [done|].
  unfold file_Flush. cbn [fst snd]. rewrite Hf. assert (Hc : concat (gs ++ [g]) = concat gs ++ g) by by rewrite concat_app, concat_cons, app_nil_r.
  split; rewrite ?Hc; cbn [fst snd]; [done| |lia]. apply Forall2_app; [apply (laid_entries _ _ _ Hl)|]. by constructor.
Qed.

(** The first entries only. *)
Lemma cut_laid k : (k <= length gs)%nat -> laid (take k es) (take k gs) (file_TruncateAt crc32 l (at_pos (at_entry gs k))).
Proof.
  intros Hk. unfold file_TruncateAt.
  destruct (TruncateAt_ok crc32 bs N dump Hok HN Hlim _ _ _ (at_entry gs k) (laid_flushed _ _ _ Hl) laid_bound (at_entry_range k Hk)) as (w' & dk' & Ht & Hf).
  unfold at_pos. rewrite Ht. assert (Hc : takeZ (at_entry gs k) (concat gs) = concat (take k gs)).
  { rewrite <- (take_drop k gs) at 2. rewrite concat_app. unfold at_entry. rewrite takeZ_app_l, takeZ_all by lia. done. }
  rewrite Hc in Hf. split; cbn [fst snd]; [done| |].
  - apply Forall2_take, (laid_entries _ _ _ Hl).
  - pose proof (laid_small _ _ _ Hl) as Hz. rewrite <- (take_drop k gs), concat_app, pieces_app, zlen_app in Hz. pose proof (zlen_nonneg (pieces (concat (drop k gs)))). lia.
Qed.

(** Where an entry ends with a file: the reader is at the end of the file it has read. *)
Definition file_end (B : Z) : LogPos := mkLogPos (B / N - 1) N 0.

Lemma full_block k : (0 < k <= length gs)%nat -> at_entry gs k mod N = 0 ->
  0 <= at_entry gs k / N - 1 /\ (at_entry gs k / N - 1) * N + N = at_entry gs k /\ at_entry gs k / N - 1 <= zlen (concat gs) / N.
Proof.
  intros Hk Hm. pose proof (at_entry_lt 0 k ltac:(lia)) as H0. rewrite at_entry_0 in H0. pose proof (at_entry_range k ltac:(lia)). pose proof HN.
  pose proof (Z.div_mod (at_entry gs k) N ltac:(lia)). assert (at_entry gs k / N <= zlen (concat gs) / N) by (apply Z.div_le_mono; lia). nia.
Qed.

Lemma read_to_file_end k e : es !! k = Some e -> at_entry gs (S k) mod N = 0 ->
  file_ReadCurrent crc32 Inflate bs N l (at_pos (at_entry gs k)) = Some (e, file_end (at_entry gs (S k))).
Proof.
  intros He Hm. pose proof (lookup_lt_Some _ _ _ He) as Hk. rewrite laid_length in Hk. unfold file_ReadCurrent.
  destruct (sought_entry k ltac:(lia)) as (r & -> & Hr & _). cbn [mbind option_bind].
  destruct (before_read k r e He Hr) as (r' & -> & [HL _] & Hmv). cbn [mbind option_bind].
  rewrite (at_tell_end crc32 bs N Hok HN _ _ _ HL laid_bound Hm Hmv). done.
Qed.

Lemma file_end_sought k : (0 < k <= length gs)%nat -> at_entry gs k mod N = 0 -> exists r,
  file_sought crc32 Inflate bs N l (file_end (at_entry gs k)) = Some r /\ before gs k r /\ TellAtBlock r = file_end (at_entry gs k).
Proof.
  intros Hk Hm. destruct (full_block k Hk Hm) as (H0 & Heq & Hle). pose proof (at_entry_range k ltac:(lia)). pose proof HN.
  destruct (Seek_block crc32 Inflate bs N Hok Hlim (concat gs) l.2 (LogReader_new bs N) (at_entry gs k / N - 1) N laid_disk laid_linked)
    as (r & Hs & HL & Hr & Hat); [lia..|apply calm_new|].
  rewrite Heq in HL, Hat. exists r. unfold file_sought, file_end. rewrite Hs. cbn [mbind option_bind CHECK]. split; [done|]. split; [done|].
  eapply at_block_tell; eauto using Hok, HN, Hlim, laid_bound.
Qed.

(** The position of the writer is further, and there is nothing to read before it. *)
Lemma file_end_stuck : (0 < length gs)%nat -> at_entry gs (length gs) mod N = 0 ->
  LogPos_lt (file_end (at_entry gs (length gs))) (file_Tell l) = true /\
  file_Seek crc32 Inflate bs N l (file_end (at_entry gs (length gs))) = Some (file_end (at_entry gs (length gs))) /\
  file_ReadCurrent crc32 Inflate bs N l (file_end (at_entry gs (length gs))) = None.
Proof.
  intros Hk Hm. destruct (file_end_sought (length gs) ltac:(lia) Hm) as (r & Hr & Hb & Ht). rewrite tell_end. split_and!.
  - apply LogPos_lt_iff. left. unfold file_end, at_pos. cbn [file_num_]. lia.
  - unfold file_Seek. rewrite Hr. cbn [fmap option_fmap option_map]. by rewrite Ht.
  - unfold file_ReadCurrent. rewrite Hr. cbn [mbind option_bind]. by rewrite before_end.
Qed.

End Laid.

Section Holds.
Context {es : list DataEntry} {gs : list blocks} {l : FileLog} (Hh : holds es gs l).
Let Hl : laid es gs l := holds_laid _ _ _ Hh.

Lemma at_entry_inside k : (k <= length gs)%nat -> at_entry gs k mod N <> 0 \/ at_entry gs k = 0.
Proof. intros Hk. destruct k as [|k]; [by right|]. left. apply (holds_inside _ _ _ Hh). lia. Qed.

Lemma before_tell k r : (k <= length gs)%nat -> before gs k r -> TellAtBlock r = at_pos (at_entry gs k).
Proof. intros Hk [HL _]. apply (at_tell crc32 bs N Hok HN _ _ _ HL (laid_bound Hl)). by apply at_entry_inside. Qed.

Lemma file_pos_at n : (n <= length gs)%nat -> file_pos crc32 Inflate bs N l n = at_pos (at_entry gs n).
Proof.
  intros Hn. destruct (first_reads Hl) as (r0 & Hr0 & Ht & _ & Hread). unfold file_pos. destruct n as [|n].
  - cbn [reader_after]. by rewrite Ht.
  - cbn [reader_after]. rewrite Hread. destruct (lookup_lt_is_Some_2 es 0) as [e He]; [rewrite (laid_length Hl); lia|].
    destruct (before_read Hl 0 r0 e He Hr0) as (r' & -> & Hr' & _). apply before_tell; [lia|]. by apply (reader_after_before Hl n 1).
Qed.

Lemma read_entry k e : es !! k = Some e -> file_ReadCurrent crc32 Inflate bs N l (at_pos (at_entry gs k)) = Some (e, at_pos (at_entry gs (S k))).
Proof.
  intros He. pose proof (lookup_lt_Some _ _ _ He) as Hk. rewrite (laid_length Hl) in Hk. unfold file_ReadCurrent.
  destruct (sought_entry Hl k ltac:(lia)) as (r & -> & Hr & _). cbn [mbind option_bind].
  destruct (before_read Hl k r e He Hr) as (r' & -> & Hr' & _). cbn [mbind option_bind]. by rewrite (before_tell (S k) r') by (done || lia).
Qed.

Lemma write_entry e : file_fits l e -> exists l' g, file_WriteRecord crc32 Deflate l e = (l', true) /\ holds (es ++ [e]) (gs ++ [g]) (file_Flush crc32 l').
Proof.
  intros [Hroom Hend]. destruct (write_laid Hl e (Hroom _ (laid_flushed _ _ _ Hl))) as (l' & g & Hw & Hl'). exists l', g. split; [done|]. split; [done|].
  rewrite Hw in Hend. cbn [fst] in Hend. rewrite (tell_end Hl') in Hend. cbn [block_num_ at_pos] in Hend.
  intros k Hk. destruct (decide (k = length (gs ++ [g]))) as [->|]; [done|]. rewrite length_app in *. cbn [length] in *.
  unfold at_entry. rewrite take_app_le by lia. apply (holds_inside _ _ _ Hh). lia.
Qed.

Lemma cut_entries k : (k <= length gs)%nat -> holds (take k es) (take k gs) (file_TruncateAt crc32 l (at_pos (at_entry gs k))).
Proof.
  intros Hk. split; [by apply (cut_laid Hl)|]. intros j Hj. rewrite length_take in Hj. unfold at_entry. rewrite take_take, Nat.min_l by lia. apply (holds_inside _ _ _ Hh). lia.
Qed.

End Holds.
#[export, refine] Instance file_log_laws : RaftLogLaws FileLog (H := file_log crc32 Deflate Inflate bs N) := {
  log_entries := file_entries crc32 Inflate bs N;
  log_pos := file_pos crc32 Inflate bs N;
  log_ok := file_ok;
  log_fits := file_fits;
}.
Proof.
  - intros l (es & gs & Hh). by rewrite (file_pos_at Hh) by lia.
  - intros l i j (es & gs & Hh) Hij. rewrite (file_entries_laid (holds_laid _ _ _ Hh)), (laid_length (holds_laid _ _ _ Hh)) in Hij.
    rewrite !(file_pos_at Hh) by lia. apply at_pos_before. pose proof (at_entry_range (holds_laid _ _ _ Hh) i). pose proof (at_entry_lt (holds_laid _ _ _ Hh) i j). lia.
  - intros l (es & gs & Hh). rewrite (file_entries_laid (holds_laid _ _ _ Hh)), (laid_length (holds_laid _ _ _ Hh)), (file_pos_at Hh) by lia. apply (tell_end (holds_laid _ _ _ Hh)).
  - intros l i (es & gs & Hh) Hi. rewrite (file_entries_laid (holds_laid _ _ _ Hh)), (laid_length (holds_laid _ _ _ Hh)) in Hi. rewrite (file_pos_at Hh) by lia.
    destruct (sought_entry (holds_laid _ _ _ Hh) i) as (r & Hr & _ & Ht); [lia|]. unfold log_Seek, file_log, file_Seek. rewrite Hr. cbn [fmap option_fmap option_map]. by rewrite Ht.
  - intros l (es & gs & Hh). rewrite (file_pos_at Hh) by lia. destruct (first_reads (holds_laid _ _ _ Hh)) as (r0 & _ & Ht & _). unfold log_Seek, file_log, file_Seek, file_sought, Seek.
    change (LogPos_IsNull LogPos_null) with true. cbn [mbind option_bind CHECK fmap option_fmap option_map]. unfold first_reader in Ht. by rewrite Ht.
  - intros l i e (es & gs & Hh) He. rewrite (file_entries_laid (holds_laid _ _ _ Hh)) in He. pose proof (lookup_lt_Some _ _ _ He) as Hi. rewrite (laid_length (holds_laid _ _ _ Hh)) in Hi.
    rewrite !(file_pos_at Hh) by lia. by apply (read_entry Hh).
  - intros l i (es & gs & Hh) _. rewrite (file_entries_laid (holds_laid _ _ _ Hh)), (laid_length (holds_laid _ _ _ Hh)). pose proof (file_left_enough (holds_laid _ _ _ Hh)). unfold log_left, file_log. lia.
  - intros l e (es & gs & Hh) Hfit. destruct (write_entry Hh e Hfit) as (l' & g & Hw & Hh'). exists l'. split; [exact Hw|]. split; [by exists (es ++ [e]), (gs ++ [g])|].
    unfold log_Flush, file_log. rewrite (file_entries_laid (holds_laid _ _ _ Hh)), (file_entries_laid (holds_laid _ _ _ Hh')). split; [done|]. intros i Hi. rewrite (laid_length (holds_laid _ _ _ Hh)) in Hi.
    rewrite (file_pos_at Hh), (file_pos_at Hh') by (rewrite ?length_app; lia). unfold at_entry. by rewrite take_app_le by lia.
  - intros l i (es & gs & Hh) Hi. rewrite (file_entries_laid (holds_laid _ _ _ Hh)), (laid_length (holds_laid _ _ _ Hh)) in Hi. rewrite (file_pos_at Hh) by lia.
    pose proof (cut_entries Hh i Hi) as Hh'. unfold log_TruncateAt, file_log. split; [by exists (take i es), (take i gs)|].
    rewrite (file_entries_laid (holds_laid _ _ _ Hh)), (file_entries_laid (holds_laid _ _ _ Hh')). split; [done|]. intros j Hj.
    rewrite (file_pos_at Hh), (file_pos_at Hh') by (rewrite ?length_take; lia). unfold at_entry. by rewrite take_take, Nat.min_l by lia.
Defined.

End Laws.
End RaftFiles.
