(* ===== verification/RaftFilesProps.v ===== *)
(** * RaftFilesProps: what the log files make of the entries, and where they fail the server *)

From S2P Require Import Prelude.
From S2P Require Import RecordIO.
From S2P Require Import RecordIOSpec.
From S2P Require Import RecordIOProps.
From S2P Require Import LogIO.
From S2P Require Import LogIOSpec.
From S2P Require Import LogIOReader.
From S2P Require Import LogIOProps.
From S2P Require Import LogFlushed.
From S2P Require Import Raft.
From S2P Require Import RaftSpec.
From S2P Require Import RaftNet.
From S2P Require Import RaftRepl.
From S2P Require Import RaftFiles.

Module RaftFilesProps.
Import LogFlushed Raft RaftSpec RaftNet RaftRepl RaftFiles.

(** A new log stands for no entry. *)
Lemma new_log_holds `{EntryCodecLaws} crc32 bs N dump pid alive dk : sizes_ok bs N dump -> new_log alive dk ->
  exists w dk', open_writer bs N dump pid alive dk = Some (w, dk') /\ holds crc32 bs N dump [] [] (w, dk').
Proof.
  intros Hsz Hnew. destruct (open_writer_ok crc32 bs N dump pid alive dk Hsz Hnew) as (w & dk' & Ho & HL & _ & _).
  exists w, dk'. split; [exact Ho|]. split; [|intros k Hk; cbn [length] in Hk; lia].
  split; [by apply flushed_start|constructor|by vm_compute].
Qed.

Lemma each_fails {L} `{RaftLog L} (f : nat -> Act) (s : Server (L := L)) l :
  (forall i, i ∈ l -> f i s = Some (s, []) \/ f i s = None) -> (exists i, i ∈ l /\ f i s = None) ->
  foldr (fun i k => andthen (f i) k) skip l s = None.
Proof.
  induction l as [|i l IH]; intros Hall (j & Hj & Hf); [by apply elem_of_nil in Hj|]. cbn [foldr]. unfold andthen at 1.
  destruct (Hall i) as [Hi|Hi]; [left| |by rewrite Hi]. rewrite Hi. cbn [mbind option_bind]. rewrite IH; [done| |].
  - intros k Hk. apply Hall. by right.
  - exists j. split; [|done]. apply elem_of_cons in Hj as [->|Hj]; [congruence|done].
Qed.

Section Stuck.
Context `{EC : EntryCodec} `{!EntryCodecLaws}.
Variable crc32 : Z -> bytes -> Z.
Variable Deflate : bytes -> option bytes.
Variable Inflate : bytes -> bytes * bool.
Variables bs N : Z.
Variable ByteSize : DataEntry -> Z.
Let files := file_log crc32 Deflate Inflate bs N.

(** From [p], where [e] is, a reader gets to [q], which is before the end of the log, and
    cannot read there. *)
Record stuck (l : FileLog) (p : LogPos) (e : DataEntry) (q : LogPos) : Prop := {
  stuck_before : LogPos_lt p (file_Tell l) = true;
  stuck_from : file_Seek crc32 Inflate bs N l p = Some p;
  stuck_read : file_ReadCurrent crc32 Inflate bs N l p = Some (e, q);
  stuck_lt : LogPos_lt q (file_Tell l) = true;
  stuck_seek : file_Seek crc32 Inflate bs N l q = Some q;
  stuck_none : file_ReadCurrent crc32 Inflate bs N l q = None;
}.

Lemma pull_fails l p e q max nd : stuck l p e q -> n_next_log_pos nd = p -> 0 < max -> ByteSize e < max -> (0 < file_left l)%nat ->
  pull_entries (H := files) ByteSize l max nd = None.
Proof.
  intros [Hb Hs Hr Hlt Hs' Hr'] Hp Hm He Hf. unfold pull_entries.
  set (nd' := SetPositionsFromEntry (node_set_read e q nd)).
  assert (H1 : pull_step (H := files) ByteSize l max (nd, [], 0) = Some (inl (nd', [e], 0 + ByteSize e))).
  { unfold pull_step, PullNext, log_Tell, log_Seek, log_ReadCurrent, files, file_log. rewrite Hp, Hb, Hs. destruct (Z.ltb_spec 0 max); [|lia].
    cbn [andb mbind option_bind]. by rewrite Hr. }
  assert (H2 : pull_step (H := files) ByteSize l max (nd', [e], 0 + ByteSize e) = None).
  { unfold pull_step, PullNext, log_Tell, log_Seek, log_ReadCurrent, files, file_log. change (n_next_log_pos nd') with q.
    rewrite Hlt, Hs'. destruct (Z.ltb_spec (0 + ByteSize e) max); [|lia]. cbn [andb mbind option_bind]. by rewrite Hr'. }
  change (log_left l (n_next_log_pos nd)) with (file_left l). destruct (file_left l) as [|n]; [lia|].
  rewrite loop_S, H1. cbn [mbind option_bind]. by rewrite loop_S, H2.
Qed.

Lemma send_new_fails b e q : stuck (log_ b) (last_log_pos_ b) e q -> is_leader b = true ->
  0 < max_entries_size_ b -> ByteSize e < max_entries_size_ b -> (0 < file_left (log_ b))%nat -> forall i,
  (send_new (H := files) ByteSize i b = Some (b, []) \/ send_new (H := files) ByteSize i b = None) /\
  (waiting b i -> send_new (H := files) ByteSize i b = None).
Proof.
  intros Hst Hl Hm He Hf i. unfold send_new. destruct (_ || _) eqn:Hskip.
  { split; [by left|]. intros (_ & Hi & Ht & _). rewrite Ht, orb_false_r in Hskip. by apply Nat.eqb_eq in Hskip. }
  destruct (LogPos_eqb _ _) eqn:Hn.
  - assert (E : SendAppendEntriesToNodeLocked (H := files) ByteSize i false (max_entries_size_ b) b = None); [|by rewrite E; auto].
    apply LogPos_eqb_eq in Hn. apply orb_false_iff in Hskip as [_ Ht]. unfold SendAppendEntriesToNodeLocked, FillAppendEntriesLocked. rewrite Ht, Hl.
    cbn [CHECK mbind option_bind negb]. by rewrite (pull_fails _ _ e q _ _ Hst Hn Hm He Hf).
  - split; [by left|]. intros (_ & _ & _ & Hp). rewrite Hp in Hn. by rewrite (proj2 (LogPos_eqb_eq _ _) eq_refl) in Hn.
Qed.
End Stuck.

(** C28: the position of a reader at the end of a file is not that of the writer:
    [TellAtBlock] tests that the number of the block is negative, so that it never goes to the
    next file.  At a leader that writes an entry which ends with a file, the loop that collects
    the entries for a follower with all the others then finds a position before the end of the
    log with nothing to read: [CHECK(ReadCurrent())] fails in [Save], whatever the block size
    and the number of blocks to a file, and the leader is gone. *)
Theorem leader_fails_at_file_end `{EC : EntryCodec} `{!EntryCodecLaws} crc32 Deflate Inflate bs N dump
    ByteSize (s : Server (L := FileLog)) data wait call i :
  let files := file_log crc32 Deflate Inflate bs N in
  let e := saved_entry (HL := files) s data in
  let l := file_Flush crc32 (file_WriteRecord crc32 Deflate (log_ s) e).1 in
  sizes_ok bs N dump -> file_ok crc32 bs N dump (log_ s) ->
  Z.of_nat (file_left (log_ s)) + zlen (SerializeToString e) + 1 < 2 ^ 31 - 1 -> block_num_ (file_Tell l) = 0 ->
  is_leader s = true -> 0 < max_entries_size_ s -> ByteSize e < max_entries_size_ s ->
  (i < length (nodes_ s))%nat -> i <> node_id_ s -> n_in_transfer (node s i) = false ->
  n_next_log_pos (node s i) = file_Tell (log_ s) ->
  (exists q, stuck crc32 Inflate bs N l (file_Tell (log_ s)) e q) /\ Save (H := files) ByteSize data wait call s = None.
Proof.
  intros files e l Hsz (es & gs & Hh) Hroom Hend Hlead Hm He Hi Hid Ht Hn. pose proof (holds_laid _ _ _ _ _ _ _ Hh) as Hl.
  destruct (write_laid crc32 Deflate bs N dump Hsz Hl e) as (l' & g & Hw & Hl').
  { pose proof (file_left_pieces crc32 bs N dump Hsz _ _ (laid_flushed _ _ _ _ _ _ _ Hl)). lia. }
  assert (El : l = file_Flush crc32 l') by (unfold l; by rewrite Hw). clearbody l. subst l. set (l := file_Flush crc32 l') in *.
  pose proof (laid_length crc32 bs N dump Hl) as Hlen. pose proof (laid_length crc32 bs N dump Hl') as Hlen'. pose proof (HN bs N dump Hsz) as HN'.
  assert (Hst : stuck crc32 Inflate bs N l (file_Tell (log_ s)) e (file_end N (at_entry (gs ++ [g]) (length (gs ++ [g]))))).
  { assert (Hat : file_Tell (log_ s) = at_pos N (at_entry (gs ++ [g]) (length gs))).
    { rewrite (tell_end crc32 bs N dump Hsz Hl). unfold at_entry. by rewrite take_app_le by lia. }
    rewrite (tell_end crc32 bs N dump Hsz Hl') in Hend. cbn [block_num_ at_pos] in Hend.
    assert (Hlast : (es ++ [e]) !! length gs = Some e) by by rewrite lookup_app_r, Hlen, Nat.sub_diag by lia.
    assert (HS : length (gs ++ [g]) = S (length gs)) by (rewrite length_app; cbn [length]; lia).
    destruct (file_end_stuck crc32 Inflate bs N dump Hsz Hl') as (H1 & H2 & H3); [lia|done|].
    rewrite Hat. split; try done.
    - rewrite (tell_end crc32 bs N dump Hsz Hl'). apply LogPos_lt_iff, (at_pos_before bs N dump Hsz).
      pose proof (at_entry_range crc32 bs N dump Hl' (length gs) ltac:(lia)). pose proof (at_entry_lt crc32 bs N dump Hl' (length gs) (length (gs ++ [g])) ltac:(lia)). lia.
    - destruct (sought_entry crc32 Inflate bs N dump Hsz Hl' (length gs) ltac:(lia)) as (r & Hr & _ & Hr'). unfold file_Seek. rewrite Hr. cbn [fmap option_fmap option_map]. by rewrite Hr'.
    - rewrite HS in *. by apply (read_to_file_end crc32 Inflate bs N dump Hsz Hl'). }
  split; [by eexists|]. unfold Save. rewrite Hlead. fold (saved_entry (HL := files) s data). fold e.
  change (log_WriteRecord (log_ s) e) with (file_WriteRecord crc32 Deflate (log_ s) e). rewrite Hw. change (log_Flush l') with l.
  change (log_Tell (log_ s)) with (file_Tell (log_ s)).
  match goal with |- context [SaveStateLocked ?s1] => set (b := SaveStateLocked s1) end.
  assert (Hnone : each_node (send_new (H := files) ByteSize) b = None); [|by rewrite Hnone].
  assert (Hf : (0 < file_left l)%nat).
  { pose proof (file_left_enough crc32 bs N dump Hsz Hl') as Hle. fold l in Hle. rewrite length_app in Hle. cbn [length] in Hle. lia. }
  pose proof (send_new_fails crc32 Deflate Inflate bs N ByteSize b e _ Hst Hlead Hm He Hf) as Hsend. apply each_fails.
  - intros j _. apply Hsend.
  - exists i. split; [apply elem_of_seq; simpl; lia|]. apply Hsend. by split_and!.
Qed.

(** *** A wire format *)

Definition pos_fields (p : pb_LogPos) := (pb_file_num p, pb_block_num p, pb_record_num p, pb_is_null p).
Definition entry_fields (e : DataEntry) :=
  (pos_fields (e_pos e), pos_fields (e_last_log_pos e), e_term e, e_last_log_term e, Byte.to_N <$> e_data e).

Definition fields_pos '(f, b, r, n) : pb_LogPos := mk_pb_LogPos f b r n.
Definition fields_entry '(p, q, t, u, d) : DataEntry :=
  mkDataEntry (fields_pos p) (fields_pos q) t u ((fun c => default Byte.x00 (Byte.of_N c)) <$> d).

Lemma fields_entry_fields e : fields_entry (entry_fields e) = e.
Proof.
  destruct e as [[] [] t u d]. unfold fields_entry, entry_fields. simpl. f_equal. rewrite <- list_fmap_compose.
  rewrite <- (list_fmap_id d) at 2. apply list_fmap_ext. intros _ c _. simpl. by rewrite Byte.of_to_N.
Qed.

(** The bits of the number of an entry, a byte for each. *)
Fixpoint bits_of (p : positive) : bytes :=
  match p with xH => [] | xO p => Byte.x00 :: bits_of p | xI p => Byte.x01 :: bits_of p end.
Fixpoint of_bits (s : bytes) : positive :=
  match s with [] => xH | Byte.x00 :: s => xO (of_bits s) | _ :: s => xI (of_bits s) end.

Lemma of_bits_of p : of_bits (bits_of p) = p.
Proof. induction p as [p IH|p IH|]; simpl; by rewrite ?IH. Qed.

Definition bit_codec : EntryCodec := {|
  SerializeToString e := bits_of (encode (entry_fields e));
  ParseProto s := fields_entry <$> decode (of_bits s);
|}.

Lemma bit_codec_laws : @EntryCodecLaws bit_codec.
Proof. constructor. intros e. unfold ParseProto, SerializeToString, bit_codec. rewrite of_bits_of, decode_encode. cbn [fmap option_fmap option_map]. by rewrite fields_entry_fields. Qed.


(** *** An instance *)

Section Fit.
Context `{EC : EntryCodec} `{!EntryCodecLaws}.
Variable crc32 : Z -> bytes -> Z.
Variable Deflate : bytes -> option bytes.
Variable Inflate : bytes -> bytes * bool.
Variables bs N dump : Z.
Hypothesis Hsz : sizes_ok bs N dump.

(** What is enough for [file_fits], from the sizes of the files. *)
Definition file_fits_b (l : FileLog) (e : DataEntry) : bool :=
  (Z.of_nat (file_left l) + zlen (SerializeToString e) + 1 <? 2 ^ 31 - 1) &&
  negb (block_num_ (file_Tell (file_Flush crc32 (file_WriteRecord crc32 Deflate l e).1)) =? 0).

Lemma file_fits_b_ok l e : file_fits_b l e = true -> file_fits crc32 Deflate bs N dump l e.
Proof.
  intros [Hr%Z.ltb_lt He%negb_true_iff%Z.eqb_neq]%andb_true_iff. split; [|exact He].
  intros F HF. pose proof (file_left_pieces crc32 bs N dump Hsz F l HF). lia.
Qed.
End Fit.

(** The leader of a new cluster over files of two blocks. *)
Definition file_leader (l : FileLog) : Server (L := FileLog) :=
  set_state RAFT_STATE_LEADER (set_current_term 1
    (set_node_id 0 (node_set_next (mkLogPos 0 0 0) <$> (Node_new <$> [bstr "a:1"; bstr "b:1"; bstr "c:1"])) (Server_new 0 l))).

Lemma leader_fails_at_file_end_witness : exists l0,
  open_writer 100 2 10 1 (fun _ => false) log_witness_disk = Some l0 /\
  @Save _ (@file_log bit_codec sample_crc (fun _ => None) (fun _ => ([], false)) 100 2) (fun _ => 40) (bstr "abcde") true 7 (file_leader l0) = None.
Proof.
  assert (H1 : sizes_ok 100 2 10) by (unfold sizes_ok, kMaximumRecordBlockSize; lia).
  assert (H2 : new_log (fun _ => false) log_witness_disk) by (split; [reflexivity|split; [reflexivity|right; reflexivity]]).
  destruct (@new_log_holds bit_codec bit_codec_laws sample_crc 100 2 10 1 (fun _ => false) log_witness_disk H1 H2) as (w & dk & Ho & Hh).
  exists (w, dk). split; [exact Ho|].
  assert (Hl : Some (w, dk) = open_writer 100 2 10 1 (fun _ => false) log_witness_disk) by (by rewrite Ho).
  assert (Hl' : open_writer 100 2 10 1 (fun _ => false) log_witness_disk = Some _) by (vm_compute; reflexivity).
  rewrite Hl' in Hl. injection Hl as Hw Hdk.
  refine (proj2 (@leader_fails_at_file_end bit_codec bit_codec_laws sample_crc (fun _ => None) (fun _ => ([], false)) 100 2 10
    (fun _ => 40) (file_leader (w, dk)) (bstr "abcde") true 7%nat 1%nat H1 _ _ _ _ _ _ _ _ _ _)).
  - by exists [], [].
  - rewrite Hw, Hdk. vm_compute. reflexivity.
  - rewrite Hw, Hdk. vm_compute. reflexivity.
  - reflexivity.
  - reflexivity.
  - reflexivity.
  - simpl. lia.
  - discriminate.
  - reflexivity.
  - rewrite Hw, Hdk. vm_compute. reflexivity.
Defined.

End RaftFilesProps.
