(* ===== verification/RaftReader.v ===== *)
(** * RaftReader: the log of the raft server with the reader it keeps

    [RaftFiles] gives the server a reader that is new at every [Seek].  The node has one reader
    that it keeps, with the file it has open ([Node::log_reader_] of [raft/raft_server.cc]);
    here is what the server does with its log through it, function for function:
    [node_Append] is the loop body of [AppendRequestEntriesLocked], [node_ReadCurrent] and
    [node_PullNext] are those of [Node], and [node_MaybeTrucateLogAfter] is what
    [MaybeTrucateLogAfterLocked] does to the log.  A file that is removed stays what it was for
    a reader that has it open, which [LogIO] does not model: [node_TruncateAt] is therefore
    [None] when it would remove the open file, and the theorem shows that it never does. *)

From S2P Require Import Prelude.
From S2P Require Import RecordIO.
From S2P Require Import RecordIOSpec.
From S2P Require Import RecordIOProps.
From S2P Require Import LogIO.
From S2P Require Import LogIOSpec.
From S2P Require Import LogIOReader.
From S2P Require Import LogIOProps.
From S2P Require Import LogFlushed.
From S2P Require Import Raft.
From S2P Require Import RaftSpec.
From S2P Require Import RaftNet.
From S2P Require Import RaftRepl.
From S2P Require Import RaftFiles.
From S2P Require Import RaftFilesProps.

Module RaftReader.
Import LogFlushed Raft RaftSpec RaftNet RaftRepl RaftFiles RaftFilesProps.

(** ** The log of a node *)

(** [log_writer_] of the server, [log_reader_] of its own node, and the files. *)
Record NodeLog := mkNodeLog { nl_writer : LogWriter; nl_reader : LogReader; nl_disk : Disk }.

Definition nl_files (n : NodeLog) : FileLog := (nl_writer n, nl_disk n).

(** Is the file the reader has open one of those that [TruncateAt] removes? *)
Definition removes_open (pos : LogPos) (r : LogReader) : bool :=
  match lr_file r with
  | Some h => (if block_num_ pos =? 0 then file_num_ pos else file_num_ pos + 1) <=? h_num h
  | None => false
  end.

Section Node.
Context `{EC : EntryCodec}.
Variable crc32 : Z -> bytes -> Z.
Variable Deflate : bytes -> option bytes.
Variable Inflate : bytes -> bytes * bool.

Definition node_Append (e : DataEntry) (n : NodeLog) : option NodeLog :=
  '(w, d, ok) ← WriteRecord crc32 Deflate true (nl_writer n) (nl_disk n) (SerializeToString e);
  CHECK ok;;
  '(w, d, _) ← Flush crc32 w d;
  Some (mkNodeLog w (nl_reader n) d).

Definition node_Seek (pos : LogPos) (n : NodeLog) : option (NodeLog * bool) :=
  '(r, d, ok) ← Seek crc32 Inflate pos (nl_reader n) (nl_disk n);
  Some (mkNodeLog (nl_writer n) r d, ok).

Definition node_ReadCurrent (n : NodeLog) : option (NodeLog * option DataEntry) :=
  '(r, d, out, ok) ← GetNextRecord crc32 Inflate (nl_reader n) (nl_disk n) (Some []);
  Some (mkNodeLog (nl_writer n) r d, if (ok : bool) then buffer ← out; ParseProto buffer else None).

Definition node_PullNext (next_log_pos : LogPos) (n : NodeLog) : option (NodeLog * DataEntry) :=
  '(n, ok) ← node_Seek next_log_pos n;
  CHECK ok;;
  '(n, entry) ← node_ReadCurrent n;
  e ← entry;
  Some (n, e).

Definition node_TruncateAt (pos : LogPos) (n : NodeLog) : option NodeLog :=
  CHECK (negb (removes_open pos (nl_reader n)));;
  '(w, d, _) ← TruncateAt crc32 pos (nl_writer n) (nl_disk n);
  Some (mkNodeLog w (nl_reader n) d).

(** With a commit position that is not after the reader. *)
Definition node_MaybeTrucateLogAfter (prev_term : Z) (prev_pos : LogPos) (n : NodeLog) : option (NodeLog * bool) :=
  writer_pos ← Writer_Tell (nl_writer n);
  let zero := mkLogPos 0 0 0 in
  let is_first_pos := LogPos_eqb writer_pos prev_pos && LogPos_eqb writer_pos zero in
  if LogPos_le writer_pos prev_pos && negb is_first_pos then Some (n, false)
  else
    '(n, ok) ← node_Seek prev_pos n;
    if negb ok then Some (n, false)
    else
      let truncate n :=
        if LogPos_gt writer_pos (TellAtBlock (nl_reader n))
        then n ← node_TruncateAt (TellAtBlock (nl_reader n)) n; Some (n, true)
        else Some (n, true) in
      if negb (LogPos_IsNull prev_pos) && negb is_first_pos then
        '(n, entry) ← node_ReadCurrent n;
        match entry with
        | None => Some (n, false)
        | Some e => if negb (e_term e =? prev_term) then Some (n, false) else truncate n
        end
      else if LogPos_IsNull writer_pos || LogPos_eqb writer_pos zero then Some (n, true)
      else truncate n.

End Node.

(** ** What a server does with its log, and a list of entries *)

(** It adds an entry, cuts the log after its first [n] entries, naming the last of them by its
    position and its term, and reads an entry at its position. *)
Inductive LogOp := Add (e : DataEntry) | CutAfter (n : nat) (term : Z) | ReadAt (i : nat).

Inductive LogOut := Done (ok : bool) | Read (e : DataEntry).

(** One operation after the other; the answers, in order. *)
Fixpoint run {A} (step : LogOp -> A -> option (A * LogOut)) (ops : list LogOp) (a : A) : option (A * list LogOut) :=
  match ops with
  | [] => Some (a, [])
  | op :: ops => '(a, out) ← step op a; '(a, outs) ← run step ops a; Some (a, out :: outs)
  end.

(** On the list: a cut is refused when the entry before it has another term. *)
Definition list_op (op : LogOp) (es : list DataEntry) : option (list DataEntry * LogOut) :=
  match op with
  | Add e => Some (es ++ [e], Done true)
  | CutAfter 0 _ => Some ([], Done true)
  | CutAfter (S n) term => e ← es !! n; Some (if e_term e =? term then (take (S n) es, Done true) else (es, Done false))
  | ReadAt i => e ← es !! i; Some (es, Read e)
  end.

Section Ops.
Context `{EC : EntryCodec}.
Variable crc32 : Z -> bytes -> Z.
Variable Deflate : bytes -> option bytes.
Variable Inflate : bytes -> bytes * bool.
Variables bs N dump : Z.

(** On a log, with the positions where the entries were added: the reader must be at the next
    of them when it has read an entry. *)
Definition node_op (op : LogOp) (st : NodeLog * list LogPos) : option (NodeLog * list LogPos * LogOut) :=
  let '(n, ps) := st in
  end_pos ← Writer_Tell (nl_writer n);
  match op with
  | Add e => n ← node_Append crc32 Deflate e n; Some (n, ps ++ [end_pos], Done true)
  | CutAfter k term =>
      p ← (match k with O => Some LogPos_null | S k => ps !! k end);
      '(n, ok) ← node_MaybeTrucateLogAfter crc32 Inflate term p n;
      Some (n, if (ok : bool) then take k ps else ps, Done ok)
  | ReadAt i =>
      p ← ps !! i; next ← (ps ++ [end_pos]) !! S i;
      '(n, e) ← node_PullNext crc32 Inflate p n;
      CHECK (LogPos_eqb (TellAtBlock (nl_reader n)) next);;
      Some (n, ps, Read e)
  end.

(** Every entry that is added fits where it is added, and does not end with a file. *)
Fixpoint ops_fit (ops : list LogOp) (st : NodeLog * list LogPos) : Prop :=
  match ops with
  | [] => True
  | op :: ops =>
      match op with Add e => file_fits crc32 Deflate bs N dump (nl_files st.1) e | _ => True end /\
      match node_op op st with Some (st, _) => ops_fit ops st | None => True end
  end.

End Ops.

(** ** The files hold the list *)

Section Refine.
Context `{EL : EntryCodecLaws}.
Variable crc32 : Z -> bytes -> Z.
Variable Deflate : bytes -> option bytes.
Variable Inflate : bytes -> bytes * bool.
Variables bs N dump : Z.
Hypothesis Hsz : sizes_ok bs N dump.

Let Hok := Hok bs N dump Hsz.
Let HN := HN bs N dump Hsz.
Let Hlim := Hlim bs N dump Hsz.
Let Hdump := Hdump bs N dump Hsz.
Abbreviation blocks := (list (Z * list piece)).
Abbreviation pos_at gs k := (at_pos N (at_entry gs k)).

(** The files hold the entries, the reader may be anywhere, and the positions are known. *)
Record stands (es : list DataEntry) (gs : list blocks) (st : NodeLog * list LogPos) : Prop := {
  stands_holds : holds crc32 bs N dump es gs (nl_files st.1);
  stands_calm : calm bs N (nl_reader st.1);
  stands_positions : st.2 = (fun k => pos_at gs k) <$> seq 0 (length gs);
}.

Section Holds.
Context {es : list DataEntry} {gs : list blocks} {n : NodeLog}.
Hypothesis Hh : holds crc32 bs N dump es gs (nl_files n).
Hypothesis Hc : calm bs N (nl_reader n).
Let Hl := holds_laid _ _ _ _ _ _ _ Hh.

Lemma node_tell : Writer_Tell (nl_writer n) = Some (pos_at gs (length gs)).
Proof.
  change (nl_writer n) with (nl_files n).1. rewrite (flushed_tell crc32 bs N dump Hok HN Hlim _ _ _ (laid_flushed _ _ _ _ _ _ _ Hl) (laid_bound crc32 bs N dump Hl)).
  by rewrite at_entry_all.
Qed.

Lemma node_append e : file_fits crc32 Deflate bs N dump (nl_files n) e -> exists n' g,
  node_Append crc32 Deflate e n = Some n' /\ holds crc32 bs N dump (es ++ [e]) (gs ++ [g]) (nl_files n') /\ nl_reader n' = nl_reader n.
Proof.
  intros Hfit. destruct (write_entry crc32 Deflate bs N dump Hsz Hh e Hfit) as (l' & g & Hw & Hh').
  destruct Hfit as [Hroom _]. specialize (Hroom _ (laid_flushed _ _ _ _ _ _ _ Hl)).
  destruct (append_record crc32 Deflate bs N dump Hok HN Hlim Hdump _ _ _ (SerializeToString e) (laid_flushed _ _ _ _ _ _ _ Hl) Hroom)
    as (w1 & dk1 & w2 & dk2 & g' & H1 & H2 & _).
  unfold file_WriteRecord in Hw. rewrite H1 in Hw. injection Hw as <-.
  unfold file_Flush in Hh'. cbn [fst snd] in Hh'. rewrite H2 in Hh'.
  exists (mkNodeLog w2 (nl_reader n) dk2), g. unfold node_Append. cbn [fst snd nl_files] in H1. rewrite H1. cbn [mbind option_bind CHECK]. by rewrite H2.
Qed.

(** Going to the entry [k] and reading it. *)
Lemma node_seek k : (k <= length gs)%nat -> exists r,
  node_Seek crc32 Inflate (pos_at gs k) n = Some (mkNodeLog (nl_writer n) r (nl_disk n), true) /\ before crc32 bs N gs k r.
Proof.
  intros Hk. destruct (seek_entry crc32 Inflate bs N dump Hsz Hl k (nl_reader n) Hk Hc) as (r & Hs & Hr & _).
  exists r. unfold node_Seek. cbn [nl_files snd] in Hs. by rewrite Hs.
Qed.

Lemma node_read k r e : es !! k = Some e -> before crc32 bs N gs k r -> exists r',
  node_ReadCurrent crc32 Inflate (mkNodeLog (nl_writer n) r (nl_disk n)) = Some (mkNodeLog (nl_writer n) r' (nl_disk n), Some e) /\
  before crc32 bs N gs (S k) r'.
Proof.
  intros He [HL Hr]. destruct (Forall2_lookup_l _ _ _ _ _ (laid_entries _ _ _ _ _ _ _ Hl) He) as (g & Hg & Hs).
  destruct (read_record crc32 Inflate bs N Hok HN Hlim (concat gs) _ g _ _ _ r (laid_disk crc32 bs N dump Hl)
    (laid_fit crc32 bs N dump Hl) (laid_linked crc32 bs N dump Hl) (laid_bound crc32 bs N dump Hl) HL Hr (entry_here k g Hg) Hs)
    as (r' & HG & HL' & Hr' & _). exists r'. cbn [nl_files snd] in HG. unfold node_ReadCurrent. cbn [nl_reader nl_disk nl_writer]. rewrite HG. cbn [mbind option_bind].
  rewrite parse_serialize. split; [done|]. split; [by rewrite (at_entry_S k g Hg)|done].
Qed.

(** Back to the start: the reader has no file open. *)
Lemma node_rewind : exists r, node_Seek crc32 Inflate LogPos_null n = Some (mkNodeLog (nl_writer n) r (nl_disk n), true) /\
  lr_file r = None /\ TellAtBlock r = mkLogPos 0 0 0 /\ calm bs N r.
Proof.
  pose proof (laid_disk crc32 bs N dump Hl) as [Ha Hd]. pose proof (zlen_nonneg (concat gs)).
  pose proof (Z.div_pos (zlen (concat gs)) N ltac:(lia) HN).
  destruct (log_files_first (nl_disk n) (chain crc32 bs (file_of N (concat gs) 0))) as [fs Hfs].
  { cbn [nl_files snd] in Hd. rewrite Hd. by destruct (Z.ltb_spec 0 (zlen (concat gs) / N + 1)); [|lia]. }
  { intros i Hi. cbn [nl_files snd] in Hd. rewrite Hd. by destruct (Z.leb_spec 0 i); [lia|]. }
  exists (Rewind (nl_reader n) (nl_disk n)). split; [done|]. destruct Hc. unfold Rewind. rewrite Hfs. split_and!; [done..|]. by split.
Qed.

Lemma node_cut k r : (k <= length gs)%nat -> removes_open (pos_at gs k) r = false -> exists n',
  node_TruncateAt crc32 (pos_at gs k) (mkNodeLog (nl_writer n) r (nl_disk n)) = Some n' /\
  holds crc32 bs N dump (take k es) (take k gs) (nl_files n') /\ nl_reader n' = r.
Proof.
  intros Hk Hr. pose proof (cut_entries crc32 bs N dump Hsz Hh k Hk) as Hh'.
  destruct (TruncateAt_ok crc32 bs N dump Hok HN Hlim _ _ _ (at_entry gs k)
    (laid_flushed _ _ _ _ _ _ _ Hl) (laid_bound crc32 bs N dump Hl) (at_entry_range crc32 bs N dump Hl k Hk)) as (w' & dk' & Ht & _).
  unfold file_TruncateAt, nl_files, at_pos in Hh'. cbn [fst snd] in Hh'. cbn [nl_files fst snd] in Ht. rewrite Ht in Hh'.
  exists (mkNodeLog w' r dk'). unfold node_TruncateAt. cbn [nl_reader nl_writer nl_disk]. rewrite Hr. cbn [negb CHECK mbind option_bind].
  unfold at_pos. by rewrite Ht.
Qed.

(** A reader before an entry has its file open, which a cut there leaves. *)
Lemma before_open k r : (k <= length gs)%nat -> (0 < k)%nat -> before crc32 bs N gs k r ->
  TellAtBlock r = pos_at gs k /\ removes_open (pos_at gs k) r = false.
Proof.
  intros Hk H0 Hb. pose proof (before_tell crc32 bs N dump Hsz Hh k r Hk Hb) as Ht. split; [done|].
  destruct Hb as [(i & j & Hat & _) _].
  pose proof (at_block_tell bs N Hok HN _ _ i j r Hat (laid_bound crc32 bs N dump Hl)) as Ht'.
  rewrite Ht in Ht'. rewrite Ht'. unfold removes_open. rewrite (at_file _ _ _ _ _ _ _ Hat). cbn [block_num_ file_num_ h_num].
  pose proof (holds_inside _ _ _ _ _ _ _ Hh k ltac:(lia)). injection Ht' as _ Hj. destruct (Z.eqb_spec j 0); [lia|]. apply Z.leb_gt. lia.
Qed.

End Holds.

(** What is at the position of the writer, against the position of an entry. *)
Lemma node_before_end gs (n : NodeLog) es k : holds crc32 bs N dump es gs (nl_files n) -> (k <= length gs)%nat ->
  LogPos_gt (pos_at gs (length gs)) (pos_at gs k) = (k <? length gs)%nat.
Proof.
  intros Hh Hk. pose proof (holds_laid _ _ _ _ _ _ _ Hh) as Hl. destruct (Nat.ltb_spec k (length gs)) as [Hlt|Hge].
  - apply (proj1 (proj2 (LogPos_order _ _))), (at_pos_before bs N dump Hsz).
    pose proof (at_entry_range crc32 bs N dump Hl k Hk). pose proof (at_entry_lt crc32 bs N dump Hl k (length gs)). lia.
  - replace k with (length gs) by lia. destruct (LogPos_gt _ _) eqn:E; [|done]. apply LogPos_order in E. by apply LogPos_before_irrefl in E.
Qed.

(** Cutting after an entry: the reader reads it, and the log is cut where the reader is. *)
Lemma node_cut_after es gs n k e term : holds crc32 bs N dump es gs (nl_files n) -> calm bs N (nl_reader n) -> es !! k = Some e -> exists n',
  node_MaybeTrucateLogAfter crc32 Inflate term (pos_at gs k) n = Some (n', e_term e =? term) /\ calm bs N (nl_reader n') /\
  (if e_term e =? term then holds crc32 bs N dump (take (S k) es) (take (S k) gs) (nl_files n') else holds crc32 bs N dump es gs (nl_files n')).
Proof.
  intros Hh Hc He. pose proof (holds_laid _ _ _ _ _ _ _ Hh) as Hl. pose proof (lookup_lt_Some _ _ _ He) as Hk. rewrite (laid_length crc32 bs N dump Hl) in Hk.
  unfold node_MaybeTrucateLogAfter. rewrite (node_tell Hh). cbn [mbind option_bind].
  pose proof (node_before_end gs n es k Hh ltac:(lia)) as Hgt. destruct (Nat.ltb_spec k (length gs)); [|lia].
  apply LogPos_order in Hgt. set (w := pos_at gs (length gs)) in *. set (p := pos_at gs k) in *.
  assert (Hne : LogPos_eqb w p = false) by (apply not_true_iff_false; intros E%LogPos_eqb_eq; by apply (LogPos_before_irrefl _ _ Hgt)).
  assert (Hle : LogPos_le w p = false).
  { apply not_true_iff_false. intros [E|E]%LogPos_order; [|by rewrite E in Hgt; apply LogPos_before_irrefl in Hgt].
    by apply (irreflexivity LogPos_before p), (transitivity Hgt). }
  rewrite Hne, Hle. cbn [andb negb]. destruct (node_seek Hh Hc k) as (r & Hs & Hr); [lia|]. fold p in Hs. rewrite Hs. cbn [mbind option_bind negb].
  assert (Hnull : LogPos_IsNull p = false).
  { unfold p, at_pos, LogPos_IsNull. cbn [file_num_]. apply Z.eqb_neq. pose proof (at_entry_range crc32 bs N dump Hl k ltac:(lia)). pose proof (Z.div_pos (at_entry gs k) N). lia. }
  rewrite Hnull. cbn [negb andb]. destruct (node_read Hh k r e He Hr) as (r' & Hrd & Hr'). rewrite Hrd. cbn [mbind option_bind].
  assert (Hc' : calm bs N r') by (destruct Hr'; eauto using at_calm).
  destruct (e_term e =? term); cbn [negb].
  - cbn [nl_reader]. destruct (before_open Hh (S k) r') as [Ht Ho]; [lia..|done|]. rewrite Ht. unfold w.
    rewrite (node_before_end gs n es (S k) Hh) by lia. destruct (Nat.ltb_spec (S k) (length gs)).
    + destruct (node_cut Hh (S k) r') as (n' & -> & Hh' & En); [lia|done|]. cbn [mbind option_bind]. exists n'. rewrite En. done.
    + eexists. split; [done|]. split; [done|]. rewrite !take_ge by (rewrite ?(laid_length crc32 bs N dump Hl); lia). done.
  - eexists. split; [done|]. done.
Qed.

(** Cutting everything. *)
Lemma node_cut_all es gs n term : holds crc32 bs N dump es gs (nl_files n) -> calm bs N (nl_reader n) -> exists n',
  node_MaybeTrucateLogAfter crc32 Inflate term LogPos_null n = Some (n', true) /\ calm bs N (nl_reader n') /\ holds crc32 bs N dump [] [] (nl_files n').
Proof.
  intros Hh Hc. pose proof (holds_laid _ _ _ _ _ _ _ Hh) as Hl.
  unfold node_MaybeTrucateLogAfter. rewrite (node_tell Hh). cbn [mbind option_bind]. set (w := pos_at gs (length gs)) in *.
  assert (Hw : 0 <= file_num_ w).
  { unfold w, at_pos. cbn [file_num_]. pose proof (at_entry_range crc32 bs N dump Hl (length gs) ltac:(lia)). apply Z.div_pos; lia. }
  assert (Hne : LogPos_eqb w LogPos_null = false) by (apply not_true_iff_false; intros E%LogPos_eqb_eq; rewrite E in Hw; by vm_compute in Hw).
  assert (Hle : LogPos_le w LogPos_null = false).
  { apply not_true_iff_false. intros [E|E]%LogPos_order; [|rewrite E in Hw; by vm_compute in Hw].
    unfold LogPos_before in E. change (file_num_ LogPos_null) with (-1) in E. lia. }
  rewrite Hne, Hle. cbn [andb]. destruct (node_rewind Hh Hc) as (r & -> & Hf & Ht & Hr). cbn [mbind option_bind negb].
  change (LogPos_IsNull LogPos_null) with true. cbn [negb andb].
  assert (Hz : pos_at gs 0 = mkLogPos 0 0 0) by (unfold at_pos; change (at_entry gs 0) with 0; by rewrite Z.div_0_l, Z.mod_0_l by lia).
  destruct (LogPos_IsNull w) eqn:Hn; [unfold LogPos_IsNull in Hn; apply Z.eqb_eq in Hn; lia|]. cbn [orb].
  cbn [nl_reader]. rewrite Ht, <- Hz. unfold w. rewrite (node_before_end gs n es 0 Hh) by lia.
  destruct gs as [|g gs'] eqn:Hgs.
  - rewrite (proj2 (LogPos_eqb_eq _ _) eq_refl). eexists. split; [done|]. split; [done|]. by destruct es; [|pose proof (laid_length crc32 bs N dump Hl)].
  - rewrite <- Hgs in *. assert (Hlen : (0 < length gs)%nat) by (rewrite Hgs; cbn [length]; lia).
    assert (E : LogPos_eqb (pos_at gs (length gs)) (pos_at gs 0) = false).
    { apply not_true_iff_false. intros E%LogPos_eqb_eq. pose proof (node_before_end gs n es 0 Hh ltac:(lia)) as Hgt.
      destruct (Nat.ltb_spec 0 (length gs)); [|lia]. apply LogPos_order in Hgt. rewrite E in Hgt. by apply LogPos_before_irrefl in Hgt. }
    rewrite E. destruct (Nat.ltb_spec 0 (length gs)); [|lia].
    destruct (node_cut Hh 0 r) as (n' & -> & Hh' & En); [lia|by unfold removes_open; rewrite Hf|]. cbn [mbind option_bind]. exists n'. rewrite En. done.
Qed.

Lemma stands_lookup es gs st k : stands es gs st -> (k < length gs)%nat -> st.2 !! k = Some (pos_at gs k).
Proof. intros [_ _ ->] Hk. by rewrite list_lookup_fmap, lookup_seq_lt. Qed.

Lemma positions_take gs k : (k <= length gs)%nat ->
  take k ((fun i => pos_at gs i) <$> seq 0 (length gs)) = (fun i => pos_at (take k gs) i) <$> seq 0 (length (take k gs)).
Proof.
  intros Hk. rewrite <- fmap_take, take_seq, length_take. apply list_fmap_ext. intros i j Hj. apply lookup_seq in Hj as [-> Hj].
  unfold at_entry. by rewrite take_take, Nat.min_l by lia.
Qed.

Lemma cut_stands es gs n n' ps k : stands es gs (n, ps) -> (k <= length gs)%nat -> calm bs N (nl_reader n') ->
  holds crc32 bs N dump (take k es) (take k gs) (nl_files n') -> stands (take k es) (take k gs) (n', take k ps).
Proof. intros [_ _ Hp] Hk Hc Hh. split; [done..|]. cbn [snd] in *. by rewrite Hp, positions_take. Qed.

Lemma op_refines op es gs st es' out : stands es gs st -> list_op op es = Some (es', out) ->
  match op with Add e => file_fits crc32 Deflate bs N dump (nl_files st.1) e | _ => True end ->
  exists st' gs', node_op crc32 Deflate Inflate op st = Some (st', out) /\ stands es' gs' st'.
Proof.
  intros Hst Hop Hfit. destruct st as [n ps]. pose proof Hst as [Hh Hc Hp]. cbn [fst snd] in *.
  pose proof (laid_length crc32 bs N dump (holds_laid _ _ _ _ _ _ _ Hh)) as Hlen. unfold node_op. rewrite (node_tell Hh). cbn [mbind option_bind].
  destruct op as [e|[|k] term|k]; simpl in Hop.
  - injection Hop as <- <-. destruct (node_append Hh e Hfit) as (n' & g & -> & Hh' & Hr). cbn [mbind option_bind].
    eexists _, (gs ++ [g]). split; [done|]. split; [done|cbn [fst]; by rewrite Hr|]. cbn [snd]. rewrite Hp, length_app. cbn [length].
    rewrite seq_app, fmap_app. cbn [seq fmap list_fmap Nat.add]. f_equal; [apply list_fmap_ext; intros i j Hj; apply lookup_seq in Hj as [-> Hj]|].
    all: unfold at_entry; by rewrite take_app_le by lia.
  - injection Hop as <- <-. cbn [mbind option_bind]. destruct (node_cut_all es gs n term Hh Hc) as (n' & -> & Hc' & Hh'). cbn [mbind option_bind].
    eexists _, []. split; [done|]. apply (cut_stands es gs n n' ps 0 Hst); [lia|done|done].
  - destruct (es !! k) as [e|] eqn:He; [|done]. pose proof (lookup_lt_Some _ _ _ He) as Hk.
    assert (Hk' : ps !! k = Some (pos_at gs k)) by (apply (stands_lookup _ _ _ k Hst); lia). rewrite Hk'. cbn [mbind option_bind].
    destruct (node_cut_after es gs n k e term Hh Hc He) as (n' & -> & Hc' & Hh'). cbn [mbind option_bind] in Hop |- *.
    destruct (e_term e =? term); injection Hop as <- <-.
    + eexists _, (take (S k) gs). split; [done|]. apply (cut_stands es gs n n' ps (S k) Hst); [lia|done|done].
    + eexists _, gs. split; [done|]. by split.
  - destruct (es !! k) as [e|] eqn:He; [|done]. injection Hop as <- <-. pose proof (lookup_lt_Some _ _ _ He) as Hk.
    assert (Hk' : ps !! k = Some (pos_at gs k)) by (apply (stands_lookup _ _ _ k Hst); lia). rewrite Hk'. cbn [mbind option_bind].
    assert (Hnext : (ps ++ [pos_at gs (length gs)]) !! S k = Some (pos_at gs (S k))).
    { destruct (decide (S k = length gs)) as [E|].
      - rewrite lookup_app_r; rewrite Hp, length_fmap, length_seq, ?E; [|done]. by rewrite Nat.sub_diag.
      - rewrite lookup_app_l by (rewrite Hp, length_fmap, length_seq; lia). apply (stands_lookup _ _ _ (S k) Hst). lia. }
    rewrite Hnext. cbn [mbind option_bind]. unfold node_PullNext.
    destruct (node_seek Hh Hc k) as (r & -> & Hr); [lia|]. cbn [mbind option_bind CHECK].
    destruct (node_read Hh k r e He Hr) as (r' & -> & Hr'). cbn [mbind option_bind nl_reader].
    destruct (before_open Hh (S k) r') as [-> _]; [lia..|done|]. rewrite (proj2 (LogPos_eqb_eq _ _) eq_refl). cbn [CHECK mbind option_bind].
    eexists _, gs. split; [done|]. destruct Hr' as [HL Hrec]. split; [done|eauto using at_calm|done].
Qed.

Lemma ops_refine ops es gs st es' outs : stands es gs st -> run list_op ops es = Some (es', outs) ->
  ops_fit crc32 Deflate Inflate bs N dump ops st ->
  exists st' gs', run (node_op crc32 Deflate Inflate) ops st = Some (st', outs) /\ stands es' gs' st'.
Proof.
  revert es gs st outs. induction ops as [|op ops IH]; intros es gs st outs Hst Hrun Hfit; cbn [run] in Hrun |- *.
  - injection Hrun as <- <-. by exists st, gs.
  - apply bind_Some in Hrun as ([es1 o1] & H1 & Hrun). apply bind_Some in Hrun as ([es2 o2] & H2 & Hrun). injection Hrun as <- <-.
    destruct Hfit as [Hf1 Hf2]. destruct (op_refines op es gs st es1 o1 Hst H1 Hf1) as (st1 & gs1 & Ho1 & Hst1). rewrite Ho1 in Hf2 |- *. cbn [mbind option_bind].
    destruct (IH es1 gs1 st1 o2 Hst1 H2 Hf2) as (st2 & gs2 & -> & Hst2). cbn [mbind option_bind]. by exists st2, gs2.
Qed.

End Refine.

(** C11: Through the one reader a node keeps, the log files of the raft server are a list of
    entries: from a new log on, whatever the block size and the number of blocks to a file, in
    any sequence of adding an entry, cutting the log after an entry that is named by its
    position and its term (as [MaybeTrucateLogAfterLocked] does) and going back to read an
    entry, as long as the log has room and no entry ends with a file, every operation returns
    what it does on the list, the reader is at the next position after every entry it reads, no
    file is removed while the reader has it open, and in the end the files hold the list. *)
Theorem log_files_refine_entries `{EC : EntryCodec} `{!EntryCodecLaws} crc32 Deflate Inflate bs N dump pid alive dk :
  sizes_ok bs N dump -> new_log alive dk ->
  exists w dk', open_writer bs N dump pid alive dk = Some (w, dk') /\
    let start := (mkNodeLog w (LogReader_new bs N) dk', []) in
    forall ops es outs, run list_op ops [] = Some (es, outs) -> ops_fit crc32 Deflate Inflate bs N dump ops start ->
      exists n ps, run (node_op crc32 Deflate Inflate) ops start = Some ((n, ps), outs) /\
        file_entries crc32 Inflate bs N (nl_files n) = es.
Proof.
  intros Hsz Hnew. destruct (new_log_holds crc32 bs N dump pid alive dk Hsz Hnew) as (w & dk' & Ho & Hh).
  exists w, dk'. split; [exact Ho|]. cbv zeta. intros ops es outs Hrun Hfit.
  destruct (ops_refine crc32 Deflate Inflate bs N dump Hsz ops [] [] (mkNodeLog w (LogReader_new bs N) dk', []) es outs) as ([n ps] & gs & Hr & Hst); [|done..|].
  - split; [exact Hh|apply calm_new|done].
  - exists n, ps. split; [exact Hr|]. apply (file_entries_laid crc32 Inflate bs N dump Hsz (holds_laid _ _ _ _ _ _ _ (stands_holds _ _ _ _ _ _ _ Hst))).
Qed.

(** *** An instance *)

Section Fit.
Context `{EL : EntryCodecLaws}.
Variable crc32 : Z -> bytes -> Z.
Variable Deflate : bytes -> option bytes.
Variable Inflate : bytes -> bytes * bool.
Variables bs N dump : Z.
Hypothesis Hsz : sizes_ok bs N dump.

Fixpoint ops_fit_b (ops : list LogOp) (st : NodeLog * list LogPos) : bool :=
  match ops with
  | [] => true
  | op :: ops =>
      match op with Add e => file_fits_b crc32 Deflate (nl_files st.1) e | _ => true end &&
      match node_op crc32 Deflate Inflate op st with Some (st, _) => ops_fit_b ops st | None => true end
  end.

Lemma ops_fit_b_ok ops st : ops_fit_b ops st = true -> ops_fit crc32 Deflate Inflate bs N dump ops st.
Proof.
  revert st. induction ops as [|op ops IH]; intros st; cbn [ops_fit ops_fit_b]; [done|]. intros [H1 H2]%andb_true_iff. split.
  - destruct op as [e|k term|i]; [by apply file_fits_b_ok|done..].
  - destruct (node_op _ _ _ _ _) as [[st' out]|]; [by apply IH|done].
Qed.
End Fit.

Definition some_entry (term : Z) (d : bytes) : DataEntry := mkDataEntry (PosToProto (mkLogPos 0 0 0)) (PosToProto LogPos_null) term 0 d.

(** Entries of one block and of two, in files of three blocks; the log is cut at its start
    after the reader has had its first file open, and in the middle. *)
Definition some_ops : list LogOp :=
  [Add (some_entry 1 (bstr "x")); ReadAt 0; CutAfter 0 0;
   Add (some_entry 1 (bstr "a")); ReadAt 0; Add (some_entry 2 (bstr "b")); CutAfter 1 7;
   Add (some_entry 3 (bstr "abcde")); ReadAt 2; CutAfter 1 1; Add (some_entry 4 (bstr "c")); ReadAt 1].

Definition some_outs : list LogOut :=
  [Done true; Read (some_entry 1 (bstr "x")); Done true;
   Done true; Read (some_entry 1 (bstr "a")); Done true; Done false;
   Done true; Read (some_entry 3 (bstr "abcde")); Done true; Done true; Read (some_entry 4 (bstr "c"))].

Lemma log_files_refine_entries_witness : exists w dk n ps,
  open_writer 100 3 10 1 (fun _ => false) log_witness_disk = Some (w, dk) /\
  run (@node_op bit_codec sample_crc (fun _ => None) (fun _ => ([], false))) some_ops (mkNodeLog w (LogReader_new 100 3) dk, []) = Some ((n, ps), some_outs) /\
  @file_entries bit_codec sample_crc (fun _ => ([], false)) 100 3 (nl_files n) = [some_entry 1 (bstr "a"); some_entry 4 (bstr "c")].
Proof.
  assert (H1 : sizes_ok 100 3 10) by (unfold sizes_ok, kMaximumRecordBlockSize; lia).
  assert (H2 : new_log (fun _ => false) log_witness_disk) by (split; [reflexivity|split; [reflexivity|right; reflexivity]]).
  destruct (@log_files_refine_entries bit_codec bit_codec_laws sample_crc (fun _ => None) (fun _ => ([], false)) 100 3 10 1
              (fun _ => false) log_witness_disk H1 H2) as (w & dk & Ho & Hall). exists w, dk.
  assert (Hl : Some (w, dk) = open_writer 100 3 10 1 (fun _ => false) log_witness_disk) by (by rewrite Ho).
  assert (Hl' : open_writer 100 3 10 1 (fun _ => false) log_witness_disk = Some _) by (vm_compute; reflexivity).
  rewrite Hl' in Hl. injection Hl as Hw Hd.
  destruct (Hall some_ops [some_entry 1 (bstr "a"); some_entry 4 (bstr "c")] some_outs) as (n & ps & Hr & He).
  - vm_compute. reflexivity.
  - apply (ops_fit_b_ok _ _ _ _ _ _ H1). rewrite Hw, Hd. vm_compute. reflexivity.
  - exists n, ps. split; [exact Ho|]. split; [exact Hr|exact He].
Defined.

End RaftReader.
