(* ===== verification/RaftClient.v ===== *)
(** * RaftClient: [raft/raft_client.h], [raft/raft_client.cc]

    The client of the replicated log.  What it does is a sequence of events: data to send,
    the next closure of the select loop, the answer to a call, its own end.  The requests are
    records on a heap: an access to one that was deleted is [None], as is a [CHECK] that
    fails.  The RPC is outside: a call that was made may be answered at any time, once, and
    closing the connection may answer any of those under way. *)

From S2P Require Import Prelude.
From S2P Require Import Raft.

Module RaftClient.
Import Raft.

Record RequestData := mkRequestData {
  rd_data : bytes;
  rd_callback : bool;              (* commit_callback_ is not NULL *)
  rd_failed : bool;                (* controller_.Failed() *)
  rd_resp : DataResponse;
  rd_close_count : Z;
  rd_retries : Z;
}.

Definition no_response : DataResponse := mkDataResponse None None None None.

Definition RequestData_new (data : bytes) (commit_callback : bool) : RequestData :=
  mkRequestData data commit_callback false no_response 0 0.

Definition PrepareForRetry (d : RequestData) : RequestData :=
  mkRequestData (rd_data d) (rd_callback d) false no_response (rd_close_count d) (rd_retries d + 1).

Definition set_close_count (n : Z) (d : RequestData) : RequestData :=
  mkRequestData (rd_data d) (rd_callback d) (rd_failed d) (rd_resp d) n (rd_retries d).

(** The closures given to [RunInSelectLoop], but for the deletions. *)
Inductive Task := StartRequest_task (d : nat) | IncrementCloseCount_task | CloseAndRestart_task | RestartActive_task.

(** A call of [Save] that is not answered. *)
Record SaveCall := mkSaveCall { c_request : nat; c_server : bytes; c_data : bytes; c_wait : bool }.

Inductive Outcome := Called (c : SaveCall) | CallbackRun (d : nat) (success : bool).

Record Client := mkClient {
  replicas_ : list bytes;
  leader_name_ : bytes;
  next_index_ : nat;
  crt_server_ : bytes;
  connected : bool;                (* stub_, client_ and client_net_ are not NULL *)
  close_count_ : Z;
  deleting_ : bool;
  restarting_ : bool;
  active_requests_ : gset nat;
  (* around the object *)
  heap : gmap nat RequestData;
  next_request : nat;
  to_run : list Task;
  calls : list SaveCall;
}.

Definition Client_new (replicas : list bytes) : Client :=
  mkClient replicas [] 0 [] false 0 false false ∅ ∅ 0 [] [].

Definition set_leader (l : bytes) (c : Client) : Client :=
  mkClient (replicas_ c) l (next_index_ c) (crt_server_ c) (connected c) (close_count_ c) (deleting_ c) (restarting_ c)
    (active_requests_ c) (heap c) (next_request c) (to_run c) (calls c).
Definition set_server (i : nat) (s : bytes) (b : bool) (c : Client) : Client :=
  mkClient (replicas_ c) (leader_name_ c) i s b (close_count_ c) (deleting_ c) (restarting_ c)
    (active_requests_ c) (heap c) (next_request c) (to_run c) (calls c).
Definition set_closes (n : Z) (c : Client) : Client :=
  mkClient (replicas_ c) (leader_name_ c) (next_index_ c) (crt_server_ c) (connected c) n (deleting_ c) (restarting_ c)
    (active_requests_ c) (heap c) (next_request c) (to_run c) (calls c).
Definition set_deleting (c : Client) : Client :=
  mkClient (replicas_ c) (leader_name_ c) (next_index_ c) (crt_server_ c) (connected c) (close_count_ c) true (restarting_ c)
    (active_requests_ c) (heap c) (next_request c) (to_run c) (calls c).
Definition set_restarting (b : bool) (c : Client) : Client :=
  mkClient (replicas_ c) (leader_name_ c) (next_index_ c) (crt_server_ c) (connected c) (close_count_ c) (deleting_ c) b
    (active_requests_ c) (heap c) (next_request c) (to_run c) (calls c).
Definition set_active (a : gset nat) (h : gmap nat RequestData) (c : Client) : Client :=
  mkClient (replicas_ c) (leader_name_ c) (next_index_ c) (crt_server_ c) (connected c) (close_count_ c) (deleting_ c) (restarting_ c)
    a h (next_request c) (to_run c) (calls c).
Definition set_tasks (t : list Task) (c : Client) : Client :=
  mkClient (replicas_ c) (leader_name_ c) (next_index_ c) (crt_server_ c) (connected c) (close_count_ c) (deleting_ c) (restarting_ c)
    (active_requests_ c) (heap c) (next_request c) t (calls c).
Definition set_calls (l : list SaveCall) (c : Client) : Client :=
  mkClient (replicas_ c) (leader_name_ c) (next_index_ c) (crt_server_ c) (connected c) (close_count_ c) (deleting_ c) (restarting_ c)
    (active_requests_ c) (heap c) (next_request c) (to_run c) l.
Definition set_next_request (n : nat) (c : Client) : Client :=
  mkClient (replicas_ c) (leader_name_ c) (next_index_ c) (crt_server_ c) (connected c) (close_count_ c) (deleting_ c) (restarting_ c)
    (active_requests_ c) (heap c) n (to_run c) (calls c).

(** A handler: the new state and what it causes, in order. *)
Definition Step := Client -> option (Client * list Outcome).
Definition stay : Step := fun c => Some (c, []).
Definition and_then (f g : Step) : Step := fun c => '(c, o1) ← f c; '(c, o2) ← g c; Some (c, o1 ++ o2).

Definition RunInSelectLoop (t : Task) (c : Client) : Client := set_tasks (to_run c ++ [t]) c.

Definition IncrementCloseCount (c : Client) : Client := set_closes (close_count_ c + 1) c.

Definition InitializeNetwork (c : Client) : option Client :=
  CHECK (negb (connected c));;
  if bool_decide (leader_name_ c = []) then
    server ← replicas_ c !! next_index_ c;
    Some (set_server ((next_index_ c + 1) mod length (replicas_ c)) server true c)
  else Some (set_server (next_index_ c) (leader_name_ c) true c).

Definition StartRequest (data : nat) : Step := fun c =>
  d ← heap c !! data;
  let c := set_active ({[data]} ∪ active_requests_ c) (<[data := set_close_count (close_count_ c) d]> (heap c)) c in
  c ← (if negb (connected c) then InitializeNetwork c else Some c);
  let call := mkSaveCall data (crt_server_ c) (rd_data d) (rd_callback d) in
  Some (set_calls (calls c ++ [call]) c, [Called call]).

Definition SendData (data : bytes) (commit_callback : bool) (c : Client) : Client :=
  let d := next_request c in
  RunInSelectLoop (StartRequest_task d)
    (set_next_request (S d) (set_active (active_requests_ c) (<[d := RequestData_new data commit_callback]> (heap c)) c)).

Definition CompleteData (data : nat) (success : bool) : Step := fun c =>
  d ← heap c !! data;
  CHECK (bool_decide (data ∈ active_requests_ c));;
  Some (set_active (active_requests_ c ∖ {[data]}) (delete data (heap c)) c,
        if rd_callback d then [CallbackRun data success] else []).

Definition ProcessResponse (data : nat) : Step := fun c =>
  d ← heap c !! data;
  if negb (rd_failed d) && bool_decide (is_Some (dr_pos (rd_resp d))) then CompleteData data true c
  else
    let c := set_leader (if negb (rd_failed d) then default [] (dr_leader_name (rd_resp d)) else []) c in
    if deleting_ c then CompleteData data false c
    else if (close_count_ c =? rd_close_count d) && negb (restarting_ c) then
      stay (RunInSelectLoop CloseAndRestart_task (set_restarting true c))
    else stay c.

(** How a call ends: a response, an error, or it is cancelled, which leaves the controller
    and the response as they were. *)
Inductive Ending := Answered (r : DataResponse) | Broken | Cancelled.

Definition finish (e : Ending) (d : RequestData) : RequestData :=
  match e with
  | Answered r => mkRequestData (rd_data d) (rd_callback d) (rd_failed d) r (rd_close_count d) (rd_retries d)
  | Broken => mkRequestData (rd_data d) (rd_callback d) true (rd_resp d) (rd_close_count d) (rd_retries d)
  | Cancelled => d
  end.

(** The RPC ends call [k] and runs its closure. *)
Definition end_call (k : nat) (e : Ending) : Step := fun c =>
  call ← calls c !! k;
  d ← heap c !! c_request call;
  ProcessResponse (c_request call)
    (set_active (active_requests_ c) (<[c_request call := finish e d]> (heap c)) (set_calls (delete k (calls c)) c)).

(** [StartClose], which cancels some of the calls at once. *)
Fixpoint StartClose (cancelled : list nat) : Step :=
  match cancelled with
  | [] => stay
  | k :: ks => and_then (end_call k Cancelled) (StartClose ks)
  end.

Definition Close (cancelled : list nat) : Step := fun c =>
  '(c, out) ← (if connected c then StartClose cancelled (set_server (next_index_ c) (crt_server_ c) false c) else stay c);
  if deleting_ c then CHECK (bool_decide (active_requests_ c = ∅));; Some (c, out)
  else Some (RunInSelectLoop IncrementCloseCount_task c, out).

Definition CloseAndRestart (cancelled : list nat) : Step := fun c =>
  '(c, out) ← Close cancelled c; Some (RunInSelectLoop RestartActive_task c, out).

Fixpoint restart_all (ds : list nat) : Step := fun c =>
  match ds with
  | [] => stay c
  | data :: ds =>
      d ← heap c !! data;
      if rd_close_count d <? close_count_ c then
        and_then (StartRequest data) (restart_all ds) (set_active (active_requests_ c) (<[data := PrepareForRetry d]> (heap c)) c)
      else restart_all ds c
  end.

Definition RestartActive : Step := fun c =>
  restart_all (elements (active_requests_ c)) (set_leader [] (set_restarting false c)).

(** The destructor. *)
Definition Client_end (cancelled : list nat) : Step := fun c => Close cancelled (set_deleting c).

(** ** Events *)

Inductive Event :=
  | Send (data : bytes) (commit_callback : bool)
  | Loop (cancelled : list nat)
  | End (k : nat) (e : Ending)
  | Destroy (cancelled : list nat).

(** The next closure. *)
Definition run_task (cancelled : list nat) : Step := fun c =>
  match to_run c with
  | [] => stay c
  | t :: ts =>
      let c := set_tasks ts c in
      match t with
      | StartRequest_task d => StartRequest d c
      | IncrementCloseCount_task => stay (IncrementCloseCount c)
      | CloseAndRestart_task => CloseAndRestart cancelled c
      | RestartActive_task => RestartActive c
      end
  end.

Definition handle_event (ev : Event) : Step :=
  match ev with
  | Send data cb => fun c => stay (SendData data cb c)
  | Loop cancelled => run_task cancelled
  | End k e => end_call k e
  | Destroy cancelled => Client_end cancelled
  end.

Fixpoint handle_events (evs : list Event) : Step :=
  match evs with
  | [] => stay
  | ev :: evs => and_then (handle_event ev) (handle_events evs)
  end.

End RaftClient.
