(* ===== verification/RaftClientProps.v ===== *)
(** * RaftClientProps: what a client of the replicated log is told *)

From S2P Require Import Prelude.
From S2P Require Import LogIO.
From S2P Require Import Raft.
From S2P Require Import RaftNet.
From S2P Require Import RaftRepl.
From S2P Require Import RaftClient.

Module RaftClientProps.
Import Raft RaftNet RaftRepl RaftClient.

(** The requests whose callbacks are run, and with what. *)
Definition told (out : list Outcome) : list (nat * bool) :=
  omap (fun o => match o with CallbackRun d b => Some (d, b) | _ => None end) out.

Lemma told_app a b : told (a ++ b) = told a ++ told b.
Proof. apply omap_app. Qed.

(** [done]: the requests that were answered. *)
Record good (c : Client) (done : list nat) : Prop := {
  good_heap d : is_Some (heap c !! d) -> (d < next_request c)%nat;
  good_active d : d ∈ active_requests_ c -> is_Some (heap c !! d);
  good_done : NoDup done;
  good_gone d : d ∈ done -> (d < next_request c)%nat /\ heap c !! d = None;
}.

(** No record but [x] has a position in its response, unless its call failed. *)
Definition posless (x : option nat) (c : Client) : Prop :=
  forall d rec, heap c !! d = Some rec -> Some d <> x -> rd_failed rec = false -> dr_pos (rd_resp rec) = None.

(** [src]: the request whose call has just been answered with a position. *)
Definition honest (src : option nat) (c' : Client) (out : list Outcome) : Prop :=
  forall d b, (d, b) ∈ told out -> if b : bool then src = Some d else deleting_ c' = true.

Definition keeps (src : option nat) (f : Step) : Prop := forall c c' out done,
  good c done -> posless None c -> f c = Some (c', out) ->
  good c' (done ++ (told out).*1) /\ posless None c' /\ (deleting_ c = true -> deleting_ c' = true) /\ honest src c' out.

Lemma keeps_stay src : keeps src stay.
Proof.
  intros c c' out done Hg Hp [= <- <-]. rewrite app_nil_r. split_and!; try done. intros d b H. by apply elem_of_nil in H.
Qed.

Lemma keeps_and_then src f g : keeps src f -> keeps src g -> keeps src (and_then f g).
Proof.
  intros Hf Hg c c' out done HG HP Hr. apply bind_Some in Hr as ([c1 o1] & H1 & Hr). apply bind_Some in Hr as ([c2 o2] & H2 & Hr). injection Hr as <- <-.
  destruct (Hf c c1 o1 done HG HP H1) as (HG1 & HP1 & Hd1 & Ho1). destruct (Hg c1 c2 o2 _ HG1 HP1 H2) as (HG2 & HP2 & Hd2 & Ho2).
  rewrite told_app, fmap_app, app_assoc. split_and!; try done; [auto|]. intros d b. rewrite told_app, elem_of_app. intros [H|H].
  - specialize (Ho1 d b H). destruct b; auto.
  - by apply Ho2.
Qed.

(** Changes that leave the requests alone. *)
Lemma good_same c c' done : heap c' = heap c -> active_requests_ c' = active_requests_ c -> next_request c' = next_request c -> good c done -> good c' done.
Proof. intros Hh Ha Hn [H1 H2 H3 H4]. split; rewrite ?Hh, ?Ha, ?Hn; auto. Qed.

Lemma posless_same x c c' : heap c' = heap c -> posless x c -> posless x c'.
Proof. unfold posless. by intros ->. Qed.

(** A record of the heap that is changed. *)
Lemma good_update c done d rec rec' (a : gset nat) : good c done -> heap c !! d = Some rec -> (forall e, e ∈ a -> e = d \/ e ∈ active_requests_ c) ->
  good (set_active a (<[d := rec']> (heap c)) c) done.
Proof.
  intros [H1 H2 H3 H4] Hd Ha. split; simpl; try done.
  - intros e [r He]. apply H1. apply lookup_insert_Some in He as [[<- _]|[_ He]]; eauto.
  - intros e He. destruct (decide (e = d)) as [->|Hne]; [rewrite lookup_insert_eq; eauto|]. rewrite lookup_insert_ne by done. apply H2. by destruct (Ha e He).
  - intros e He. destruct (H4 e He) as [Hlt Hn]. split; [done|]. rewrite lookup_insert_ne; [done|]. intros ->. congruence.
Qed.

Lemma posless_update x c d rec' a : posless x c -> (Some d <> x -> rd_failed rec' = false -> dr_pos (rd_resp rec') = None) ->
  posless x (set_active a (<[d := rec']> (heap c)) c).
Proof.
  intros Hp Hr e rec He Hx Hf. simpl in He. apply lookup_insert_Some in He as [[<- <-]|[_ He]]; [by apply Hr|by apply (Hp e)].
Qed.

Lemma InitializeNetwork_same c c' : InitializeNetwork c = Some c' ->
  heap c' = heap c /\ active_requests_ c' = active_requests_ c /\ next_request c' = next_request c /\ deleting_ c' = deleting_ c.
Proof.
  unfold InitializeNetwork. intros H. apply bind_Some in H as ([] & _ & H). destruct (bool_decide _).
  - apply bind_Some in H as (s & _ & H). by injection H as <-.
  - by injection H as <-.
Qed.

Lemma keeps_StartRequest src d : keeps src (StartRequest d).
Proof.
  intros c c' out done HG HP Hr. unfold StartRequest in Hr. apply bind_Some in Hr as (rec & Hd & Hr). apply bind_Some in Hr as (c1 & H1 & Hr). injection Hr as <- <-.
  set (c0 := set_active ({[d]} ∪ active_requests_ c) (<[d := set_close_count (close_count_ c) rec]> (heap c)) c) in *.
  assert (HG0 : good c0 done) by (apply (good_update c done d rec); [done..|]; intros e; set_solver).
  assert (HP0 : posless None c0) by (apply posless_update; [done|]; intros _ Hf; by apply (HP d rec Hd)).
  assert (Hsame : heap c1 = heap c0 /\ active_requests_ c1 = active_requests_ c0 /\ next_request c1 = next_request c0 /\ deleting_ c1 = deleting_ c0).
  { destruct (connected c0); simpl in H1; [by injection H1 as <-|by apply InitializeNetwork_same]. }
  destruct Hsame as (Hh & Ha & Hn & Hdel). rewrite app_nil_r. split_and!.
  - by apply (good_same c0).
  - by apply (posless_same _ c0).
  - simpl. by rewrite Hdel.
  - intros e b H. by apply elem_of_nil in H.
Qed.

Lemma keeps_restart_all src ds : keeps src (restart_all ds).
Proof.
  induction ds as [|d ds IH]; [apply keeps_stay|]. intros c c' out done HG HP Hr. cbn [restart_all] in Hr. apply bind_Some in Hr as (rec & Hd & Hr).
  destruct (_ <? _); [|by apply IH].
  refine (keeps_and_then src _ _ (keeps_StartRequest src d) IH _ _ _ done _ _ Hr).
  - apply (good_update c done d rec); [done..|]. auto.
  - by apply posless_update.
Qed.

Lemma CompleteData_ok d b c c' out done rec : good c done -> posless (Some d) c -> heap c !! d = Some rec -> CompleteData d b c = Some (c', out) ->
  good c' (done ++ (told out).*1) /\ posless None c' /\ deleting_ c' = deleting_ c /\ forall e b', (e, b') ∈ told out -> e = d /\ b' = b.
Proof.
  intros [H1 H2 H3 H4] HP Hd Hr. unfold CompleteData in Hr. apply bind_Some in Hr as (rec' & Hd' & Hr). apply bind_Some in Hr as ([] & _ & Hr). injection Hr as <- <-.
  assert (Ht : forall e b', (e, b') ∈ told (if rd_callback rec' then [CallbackRun d b] else []) -> e = d /\ b' = b).
  { intros e b'. destruct (rd_callback rec'); cbn; [|by intros ?%elem_of_nil]. intros ?%list_elem_of_singleton. by simplify_eq. }
  assert (Hfst : forall e, e ∈ (told (if rd_callback rec' then [CallbackRun d b] else [])).*1 -> e = d).
  { intros e ([e' b'] & -> & Hin)%list_elem_of_fmap. by apply Ht in Hin as [-> _]. }
  split_and!; [split; simpl| |done|exact Ht].
  - intros e [r He]. apply lookup_delete_Some in He as [_ He]. eauto.
  - intros e [He Hne]%elem_of_difference. rewrite lookup_delete_ne by set_solver. by apply H2.
  - apply list.NoDup_app. split_and!; [done| |].
    + intros e He Hin. apply Hfst in Hin as ->. destruct (H4 d He). congruence.
    + destruct (rd_callback rec'); cbn; [apply NoDup_singleton|constructor].
  - intros e [He|He]%elem_of_app.
    + destruct (H4 e He). split; [done|]. rewrite lookup_delete_None. by right.
    + apply Hfst in He as ->. split; [apply H1; eauto|]. apply lookup_delete_eq.
  - intros e r He _. simpl in He. apply lookup_delete_Some in He as [Hne He]. apply (HP e r He). congruence.
Qed.

(** A record that was just answered. *)
Lemma ProcessResponse_ok d c c' out done rec : good c done -> posless (Some d) c -> heap c !! d = Some rec -> ProcessResponse d c = Some (c', out) ->
  good c' (done ++ (told out).*1) /\ posless None c' /\ (deleting_ c = true -> deleting_ c' = true) /\
  honest (if negb (rd_failed rec) && bool_decide (is_Some (dr_pos (rd_resp rec))) then Some d else None) c' out.
Proof.
  intros HG HP Hd Hr. unfold ProcessResponse in Hr. rewrite Hd in Hr. cbn [mbind option_bind] in Hr.
  destruct (negb (rd_failed rec) && bool_decide (is_Some (dr_pos (rd_resp rec)))) eqn:Hpos.
  - destruct (CompleteData_ok d true c c' out done rec HG HP Hd Hr) as (H1 & H2 & H3 & H4). split_and!; try done; [by rewrite H3|].
    intros e b He. by apply H4 in He as [-> ->].
  - match type of Hr with context [set_leader ?l c] => set (c1 := set_leader l c) in * end. cbv zeta in Hr.
    assert (HG1 : good c1 done) by by apply (good_same c).
    assert (HP1 : posless None c1).
    { intros e r He _ Hf. destruct (decide (e = d)) as [->|Hne]; [|by apply (HP e r He); [congruence|]]. simpl in He. rewrite Hd in He. injection He as <-.
      rewrite Hf in Hpos. cbn [negb andb] in Hpos. apply bool_decide_eq_false in Hpos. by apply eq_None_not_Some. }
    destruct (deleting_ c1) eqn:Hdel; rewrite ?Hdel in Hr.
    + destruct (CompleteData_ok d false c1 c' out done rec HG1) as (H1 & H2 & H3 & H4); [by intros e r He _; apply (HP1 e r He)|done|done|].
      split_and!; try done; [by rewrite H3|]. intros e b He. apply H4 in He as [-> ->]. by rewrite H3.
    + assert (Hs : exists c2, c' = c2 /\ out = [] /\ heap c2 = heap c1 /\ active_requests_ c2 = active_requests_ c1 /\ next_request c2 = next_request c1 /\ deleting_ c2 = deleting_ c1).
      { unfold stay in Hr. case_match; injection Hr as <- <-; eexists; by split_and!. }
      destruct Hs as (c2 & -> & -> & Hh & Ha & Hn & Hdel2). rewrite app_nil_r. split_and!.
      * by apply (good_same c1).
      * by apply (posless_same _ c1).
      * rewrite Hdel2. done.
      * intros e b He. by apply elem_of_nil in He.
Qed.

(** The request that call [k] is for, when its response has a position. *)
Definition answered (k : nat) (e : Ending) (c : Client) : option nat :=
  match e with
  | Answered r => match dr_pos r with Some _ => c_request <$> calls c !! k | None => None end
  | _ => None
  end.

Lemma end_call_ok k e c c' out done : good c done -> posless None c -> end_call k e c = Some (c', out) ->
  good c' (done ++ (told out).*1) /\ posless None c' /\ (deleting_ c = true -> deleting_ c' = true) /\ honest (answered k e c) c' out.
Proof.
  intros HG HP Hr. unfold end_call in Hr. apply bind_Some in Hr as (call & Hk & Hr). apply bind_Some in Hr as (rec & Hd & Hr).
  match type of Hr with ProcessResponse _ ?c0 = _ => set (c1 := c0) in * end.
  assert (HG1 : good c1 done).
  { apply (good_same (set_active (active_requests_ c) (<[c_request call := finish e rec]> (heap c)) c)); try done. apply (good_update c done _ rec); [done..|]. auto. }
  assert (HP1 : posless (Some (c_request call)) c1).
  { intros d r Hr' Hne. simpl in Hr'. rewrite lookup_insert_ne in Hr' by congruence. by apply (HP d r Hr'). }
  destruct (ProcessResponse_ok _ c1 c' out done (finish e rec) HG1 HP1) as (H1 & H2 & H3 & H4); [simpl; apply lookup_insert_eq|done|].
  split_and!; try done. intros d b Hdb. specialize (H4 d b Hdb). destruct b; [|done]. revert H4.
  destruct (_ && _) eqn:Hpos; [|done]. intros [= <-]. apply andb_true_iff in Hpos as [Hf%negb_true_iff Hp%bool_decide_eq_true].
  destruct e as [r| |]; simpl in Hf, Hp |- *; [| |].
  - rewrite Hk. destruct Hp as [p ->]. done.
  - done.
  - rewrite (HP _ rec Hd) in Hp by done. by destruct Hp.
Qed.

Lemma keeps_end k e : (forall r, e = Answered r -> dr_pos r = None) -> keeps None (end_call k e).
Proof.
  intros He c c' out done HG HP Hr. destruct (end_call_ok k e c c' out done HG HP Hr) as (H1 & H2 & H3 & H4). split_and!; try done.
  destruct e as [r| |]; [|done..]. unfold answered in H4. by rewrite (He r eq_refl) in H4.
Qed.

Lemma keeps_StartClose ks : keeps None (StartClose ks).
Proof. induction ks as [|k ks IH]; [apply keeps_stay|]. apply keeps_and_then; [by apply keeps_end|done]. Qed.

(** [stay], with the requests left alone. *)
Lemma keeps_change src (h : Client -> Client) (f : Step) : (forall c, heap (h c) = heap c /\ active_requests_ (h c) = active_requests_ c /\
    next_request (h c) = next_request c /\ (deleting_ c = true -> deleting_ (h c) = true)) -> keeps src f -> keeps src (fun c => f (h c)).
Proof.
  intros Hh Hf c c' out done HG HP Hr. destruct (Hh c) as (H1 & H2 & H3 & H4).
  destruct (Hf (h c) c' out done) as (HG' & HP' & Hd & Ho); [by apply (good_same c)|by apply (posless_same _ c)|done|]. split_and!; auto.
Qed.

Lemma keeps_Close ks : keeps None (Close ks).
Proof.
  intros c c' out done HG HP Hr. unfold Close in Hr. apply bind_Some in Hr as ([c1 o1] & H1 & Hr).
  assert (Hk : good c1 (done ++ (told o1).*1) /\ posless None c1 /\ (deleting_ c = true -> deleting_ c1 = true) /\ honest None c1 o1).
  { destruct (connected c); [|by apply (keeps_stay None)].
    refine (keeps_change None (fun c => set_server (next_index_ c) (crt_server_ c) false c) _ _ (keeps_StartClose ks) _ _ _ done HG HP H1). done. }
  destruct Hk as (H2 & H3 & H4 & H5). destruct (deleting_ c1) eqn:Hd.
  - apply bind_Some in Hr as ([] & _ & Hr). injection Hr as <- <-. by split_and!; auto.
  - injection Hr as <- <-. split; [by apply (good_same c1)|]. split; [by apply (posless_same None c1)|]. split; [by intros ?%H4|exact H5].
Qed.

Lemma keeps_run_task ks : keeps None (run_task ks).
Proof.
  intros c c' out done HG HP Hr. unfold run_task in Hr. destruct (to_run c) as [|t ts]; [by apply (keeps_stay None)|].
  assert (Hk : keeps None (match t with StartRequest_task d => StartRequest d | IncrementCloseCount_task => fun c => stay (IncrementCloseCount c)
    | CloseAndRestart_task => CloseAndRestart ks | RestartActive_task => RestartActive end)).
  { destruct t as [d| | |].
    - apply keeps_StartRequest.
    - apply (keeps_change None IncrementCloseCount); [done|apply keeps_stay].
    - intros c0 c1 o1 done0 HG0 HP0 Hr0. unfold CloseAndRestart in Hr0. apply bind_Some in Hr0 as ([c2 o2] & H2 & Hr0). injection Hr0 as <- <-.
      destruct (keeps_Close ks c0 c2 o2 done0 HG0 HP0 H2) as (K1 & K2 & K3 & K4). split; [by apply (good_same c2)|]. split; [by apply (posless_same None c2)|]. by split.
    - intros c0 c1 o1 done0 HG0 HP0 Hr0. unfold RestartActive in Hr0.
      destruct (keeps_restart_all None (elements (active_requests_ c0)) (set_leader [] (set_restarting false c0)) c1 o1 done0) as (K1 & K2 & K3 & K4);
        [by apply (good_same c0)|by apply (posless_same _ c0)|done|]. by split_and!. }
  refine (keeps_change None (set_tasks ts) _ _ Hk c c' out done HG HP _); [done|]. by destruct t.
Qed.

Definition answered_by (ev : Event) (c : Client) : option nat :=
  match ev with End k e => answered k e c | _ => None end.

Lemma handle_event_ok ev c c' out done : good c done -> posless None c -> handle_event ev c = Some (c', out) ->
  good c' (done ++ (told out).*1) /\ posless None c' /\ (deleting_ c = true -> deleting_ c' = true) /\ honest (answered_by ev c) c' out.
Proof.
  intros HG HP Hr. destruct ev as [data cb|ks|k e|ks]; cbn [handle_event answered_by] in *.
  - injection Hr as <- <-. rewrite app_nil_r. split_and!; try done; [| |intros e b He; by apply elem_of_nil in He].
    + destruct HG as [H1 H2 H3 H4]. assert (Hfresh : heap c !! next_request c = None).
      { apply eq_None_not_Some. intros Hs%H1. lia. }
      split; simpl; try done.
      * intros d [r Hd]. apply lookup_insert_Some in Hd as [[<- _]|[_ Hd]]; [lia|]. pose proof (H1 d ltac:(eauto)). lia.
      * intros d Hd. destruct (decide (d = next_request c)) as [->|Hne]; [rewrite lookup_insert_eq; eauto|]. rewrite lookup_insert_ne by done. by apply H2.
      * intros d Hd. destruct (H4 d Hd). split; [lia|]. by rewrite lookup_insert_ne by lia.
    + intros d r Hd Hx Hf. simpl in Hd. apply lookup_insert_Some in Hd as [[_ <-]|[_ Hd]]; [done|]. by apply (HP d r Hd).
  - by apply (keeps_run_task ks).
  - by apply end_call_ok.
  - refine (keeps_change None set_deleting (Close ks) _ (keeps_Close ks) _ _ _ done HG HP Hr). done.
Qed.

(** Only the destructor sets [deleting_]. *)
Lemma honest_run evs c c' out done : good c done -> posless None c -> handle_events evs c = Some (c', out) ->
  good c' (done ++ (told out).*1) /\
  (forall d, (d, true) ∈ told out -> exists evs1 k r evs2 c1 o1 call, evs = evs1 ++ End k (Answered r) :: evs2 /\
     handle_events evs1 c = Some (c1, o1) /\ calls c1 !! k = Some call /\ c_request call = d /\ is_Some (dr_pos r)) /\
  (forall d, (d, false) ∈ told out -> deleting_ c' = true) /\ (deleting_ c = true -> deleting_ c' = true).
Proof.
  revert c out done. induction evs as [|ev evs IH]; intros c out done HG HP Hr; cbn [handle_events] in Hr.
  - injection Hr as <- <-. rewrite app_nil_r. split_and!; try done; intros d H; by apply elem_of_nil in H.
  - apply bind_Some in Hr as ([c1 o1] & H1 & Hr). apply bind_Some in Hr as ([c2 o2] & H2 & Hr). injection Hr as <- <-.
    destruct (handle_event_ok ev c c1 o1 done HG HP H1) as (HG1 & HP1 & Hd1 & Ho1).
    destruct (IH c1 o2 _ HG1 HP1 H2) as (HG2 & Ht & Hf & Hd2). rewrite told_app, fmap_app, app_assoc. split_and!; [done| | |auto].
    + intros d [Hd|Hd]%elem_of_app.
      * specialize (Ho1 d true Hd). simpl in Ho1. destruct ev as [| |k e|]; try done. cbn [answered_by] in Ho1. unfold answered in Ho1. destruct e as [r| |]; try done.
        destruct (dr_pos r) as [p|] eqn:Hp; [|done]. destruct (calls c !! k) as [call|] eqn:Hk; [|done]. injection Ho1 as Hc.
        exists [], k, r, evs, c, [], call. by split_and!.
      * destruct (Ht d Hd) as (evs1 & k & r & evs2 & c3 & o3 & call & -> & H3 & Hk & Hc & Hp).
        exists (ev :: evs1), k, r, evs2, c3, (o1 ++ o3), call. split_and!; try done. cbn [handle_events]. unfold and_then. rewrite H1. cbn [mbind option_bind]. by rewrite H3.
    + intros d [Hd|Hd]%elem_of_app; [|by apply (Hf d)]. apply Hd2. exact (Ho1 d false Hd).
Qed.

Lemma good_new replicas : good (Client_new replicas) [] /\ posless None (Client_new replicas).
Proof.
  split; [split; simpl|].
  - intros d [r H]. by rewrite lookup_empty in H.
  - intros d H. by apply not_elem_of_empty in H.
  - constructor.
  - intros d H. by apply elem_of_nil in H.
  - intros d r H. simpl in H. by rewrite lookup_empty in H.
Qed.

(** C21: whatever is sent, answered, late, lost or cancelled, in any order that leads to no
    failed check and no use of a deleted request (one that leads there is
    [request_sent_twice]): the callback of a request is run at most once; it is told of a
    success only when a call of that request was answered with a position, and of a failure
    only when the client is being deleted. *)
Theorem client_answers_honestly replicas evs c out : handle_events evs (Client_new replicas) = Some (c, out) ->
  NoDup (told out).*1 /\
  (forall d, (d, true) ∈ told out -> exists evs1 k r evs2 c1 o1 call, evs = evs1 ++ End k (Answered r) :: evs2 /\
     handle_events evs1 (Client_new replicas) = Some (c1, o1) /\ calls c1 !! k = Some call /\ c_request call = d /\ is_Some (dr_pos r)) /\
  (forall d, (d, false) ∈ told out -> deleting_ c = true).
Proof.
  intros Hr. destruct (good_new replicas) as [HG HP]. destruct (honest_run evs _ c out [] HG HP Hr) as (H1 & H2 & H3 & _).
  split; [apply H1|by split].
Qed.


(** From the server to the client: when a leader fails to write an entry to its log, the
    response of [Save] says that it was not committed but has a position, and the client takes
    the position for a success: the callback of the request is told that the data was saved. *)
Theorem failed_write_reported_saved {L} `{HL : RaftLog L} ByteSize (s : Server (L := L)) data wait call l (c : Client) k sc d :
  is_leader s = true -> log_WriteRecord (log_ s) (saved_entry s data) = (l, false) ->
  calls c !! k = Some sc -> heap c !! c_request sc = Some d -> rd_failed d = false -> rd_callback d = true -> c_request sc ∈ active_requests_ c ->
  exists r s' c', Save ByteSize data wait call s = Some (s', [ClientDone call r]) /\ log_ s' = l /\
    dr_was_committed r = Some false /\ end_call k (Answered r) c = Some (c', [CallbackRun (c_request sc) true]).
Proof.
  intros Hlead Hw Hk Hd Hf Hcb Ha. eexists _, _, _. split; [|split; [|split]].
  - unfold Save. rewrite Hlead. fold (saved_entry s data). rewrite Hw. reflexivity.
  - reflexivity.
  - reflexivity.
  - unfold end_call. rewrite Hk. cbn [mbind option_bind]. rewrite Hd. cbn [mbind option_bind]. unfold ProcessResponse.
    cbn [heap set_active]. rewrite lookup_insert_eq. cbn [mbind option_bind finish rd_failed rd_resp dr_pos]. rewrite Hf. cbn [negb andb].
    rewrite bool_decide_true by eauto. unfold CompleteData. cbn [heap set_active]. rewrite lookup_insert_eq. cbn [mbind option_bind active_requests_ set_active set_calls].
    rewrite bool_decide_true by done. cbn [CHECK mbind option_bind rd_callback]. rewrite Hcb. reflexivity.
Qed.

(** *** Instances *)

Definition with_pos : DataResponse := mkDataResponse (Some (PosToProto (mkLogPos 0 1 0))) (Some 1) None None.

(** A follower answers, then the leader. *)
Definition some_events : list Event :=
  [Send (bstr "x") true; Loop []; End 0 (Answered (mkDataResponse None None (Some false) (Some (bstr "b:1")))); Loop [];
   Loop []; Loop []; End 0 (Answered with_pos)].

Lemma client_answers_honestly_witness : exists c out,
  handle_events some_events (Client_new [bstr "a:1"; bstr "b:1"]) = Some (c, out) /\ told out = [(0%nat, true)] /\ NoDup (told out).*1.
Proof.
  eexists _, _. assert (Hr : handle_events some_events (Client_new [bstr "a:1"; bstr "b:1"]) = Some (_, _)) by (vm_compute; reflexivity).
  split; [exact Hr|]. split; [reflexivity|]. apply client_answers_honestly in Hr as [Hr _]. exact Hr.
Defined.

(** A log in memory that cannot be written to. *)
Definition full_log : RaftLog (list DataEntry) := {|
  log_Tell l := list_pos (length l);
  log_WriteRecord l e := (l, false);
  log_Flush l := l;
  log_TruncateAt l p := l;
  log_Seek l p := None;
  log_ReadCurrent l p := None;
  log_left l p := O;
|}.

Definition asking : Client :=
  match handle_events [Send (bstr "x") true; Loop []] (Client_new [bstr "a:1"]) with Some (c, _) => c | None => Client_new [] end.

Lemma failed_write_reported_saved_witness : exists r s' c',
  @Save _ full_log (fun _ => 1) (bstr "x") true 7 (set_state RAFT_STATE_LEADER (Server_new 0 [])) = Some (s', [ClientDone 7 r]) /\
  dr_was_committed r = Some false /\ end_call 0 (Answered r) asking = Some (c', [CallbackRun 0 true]).
Proof.
  destruct (@failed_write_reported_saved _ full_log (fun _ => 1) (set_state RAFT_STATE_LEADER (Server_new 0 [])) (bstr "x") true 7%nat []
    asking 0 (mkSaveCall 0 (bstr "a:1") (bstr "x") true) (RequestData_new (bstr "x") true)) as (r & s' & c' & Hs & _ & Hc & He).
  - reflexivity.
  - reflexivity.
  - vm_compute. reflexivity.
  - vm_compute. reflexivity.
  - reflexivity.
  - reflexivity.
  - vm_compute. reflexivity.
  - exists r, s', c'. split; [exact Hs|]. split; [exact Hc|exact He].
Defined.

End RaftClientProps.
