(* ===== verification/Words.v ===== *)
(** * Words: integers of several bytes, and their bits

    The value of a sequence of bytes in either order, what a machine stores for a value, and
    how both show in the bits: the digests load, rotate and reverse words. *)

From S2P Require Import Prelude.

Module Words.

(** The low byte first, and the high byte first. *)
Fixpoint le_num (bs : bytes) : Z :=
  match bs with
  | [] => 0
  | b :: bs => uchar b + 256 * le_num bs
  end.

Definition be_num (bs : bytes) : Z := le_num (rev bs).

Fixpoint le_bytes (n : nat) (z : Z) : bytes :=
  match n with
  | O => []
  | S n => to_byte z :: le_bytes n (Z.shiftr z 8)
  end.

Definition be_bytes (n : nat) (z : Z) : bytes := rev (le_bytes n z).

(** The words of four bytes of a buffer, a last incomplete one left out. *)
Fixpoint words_of (bs : bytes) : list bytes :=
  match bs with
  | a :: b :: c :: d :: bs => [a; b; c; d] :: words_of bs
  | _ => []
  end.

Lemma le_num_range bs : 0 <= le_num bs < 256 ^ zlen bs.
Proof.
  induction bs as [|b bs IH]; simpl; [done|]. pose proof (uchar_range b). rewrite zlen_cons, Z.pow_add_r by (pose proof (zlen_nonneg bs); lia). lia.
Qed.

Lemma length_le_bytes n z : length (le_bytes n z) = n.
Proof. revert z. induction n as [|n IH]; intros z; simpl; [done|]. by rewrite IH. Qed.

Lemma length_be_bytes n z : length (be_bytes n z) = n.
Proof. unfold be_bytes. by rewrite length_rev, length_le_bytes. Qed.

Lemma le_num_bytes n z : 0 <= z < 256 ^ Z.of_nat n -> le_num (le_bytes n z) = z.
Proof.
  revert z. induction n as [|n IH]; intros z Hz; simpl; [simpl in Hz; lia|].
  rewrite Nat2Z.inj_succ, Z.pow_succ_r in Hz by lia. rewrite Z.shiftr_div_pow2 by lia. change (2 ^ 8) with 256.
  rewrite IH by (split; [apply Z.div_pos; lia|apply Z.div_lt_upper_bound; lia]).
  unfold uchar, to_byte. rewrite byte.unsigned_of_Z. unfold byte.wrap. change (2 ^ 8) with 256.
  pose proof (Z.div_mod z 256). lia.
Qed.

Lemma le_bytes_num bs : le_bytes (length bs) (le_num bs) = bs.
Proof.
  induction bs as [|b bs IH]; simpl; [done|]. pose proof (uchar_range b) as Hb.
  rewrite Z.shiftr_div_pow2 by lia. change (2 ^ 8) with 256. rewrite (Z.mul_comm 256), Z.div_add, Z.div_small, Z.add_0_l, IH by lia.
  f_equal. unfold to_byte. apply byte.unsigned_inj. rewrite byte.unsigned_of_Z. unfold byte.wrap. change (2 ^ 8) with 256.
  rewrite Z_mod_plus_full. by apply Z.mod_small.
Qed.

(** ** Bits *)

Lemma testbit_wrapU w z i : 0 <= w -> Z.testbit (wrapU w z) i = (i <? w) && Z.testbit z i.
Proof.
  intros Hw. unfold wrapU. destruct (Z.ltb_spec i w); simpl.
  - destruct (Z.leb_spec 0 i); [by rewrite Z.mod_pow2_bits_low by lia|by rewrite !Z.testbit_neg_r by lia].
  - by rewrite Z.mod_pow2_bits_high by lia.
Qed.

Lemma testbit_uchar b i : 8 <= i -> Z.testbit (uchar b) i = false.
Proof.
  intros Hi. pose proof (uchar_range b). rewrite <- (Z.mod_small (uchar b) (2 ^ 8)) by lia.
  apply Z.mod_pow2_bits_high. lia.
Qed.

Lemma add_lor b z : 0 <= b < 256 -> b + 256 * z = Z.lor b (Z.shiftl z 8).
Proof.
  intros Hb. assert (Hz : Z.land b (Z.shiftl z 8) = 0).
  { apply Z.bits_inj'. intros i Hi. rewrite Z.land_spec, Z.bits_0, Z.shiftl_spec by lia.
    destruct (Z.ltb_spec i 8); [rewrite (Z.testbit_neg_r z) by lia; apply andb_false_r|].
    rewrite <- (Z.mod_small b (2 ^ 8)), Z.mod_pow2_bits_high by lia. done. }
  rewrite <- Z.lxor_lor, <- Z.add_nocarry_lxor, Z.shiftl_mul_pow2 by done. lia.
Qed.

Lemma testbit_le_num_cons b bs i :
  Z.testbit (le_num (b :: bs)) i = if i <? 8 then Z.testbit (uchar b) i else Z.testbit (le_num bs) (i - 8).
Proof.
  simpl. rewrite add_lor by apply uchar_range. rewrite Z.lor_spec.
  destruct (Z.leb_spec 0 i); [|by rewrite !Z.testbit_neg_r by lia; destruct (_ <? _)].
  rewrite Z.shiftl_spec by lia. destruct (Z.ltb_spec i 8).
  - rewrite (Z.testbit_neg_r _ (i - 8)) by lia. apply orb_false_r.
  - by rewrite testbit_uchar by lia.
Qed.

(** ** Reversing a word

    [REVERSE32] and [REVERSE64] of [sha256.cc]; [htonl] on a machine that stores the low
    byte first. *)
Definition REVERSE32 (w : Z) : Z :=
  let tmp := Z.lor (Z.shiftr w 16) (uint32 (Z.shiftl w 16)) in
  Z.lor (Z.shiftr (Z.land tmp 0xff00ff00) 8) (uint32 (Z.shiftl (Z.land tmp 0x00ff00ff) 8)).

Definition REVERSE64 (w : Z) : Z :=
  let tmp := Z.lor (Z.shiftr w 32) (size_t (Z.shiftl w 32)) in
  let tmp := Z.lor (Z.shiftr (Z.land tmp 0xff00ff00ff00ff00) 8) (size_t (Z.shiftl (Z.land tmp 0x00ff00ff00ff00ff) 8)) in
  Z.lor (Z.shiftr (Z.land tmp 0xffff0000ffff0000) 16) (size_t (Z.shiftl (Z.land tmp 0x0000ffff0000ffff) 16)).

Definition htonl (w : Z) : Z := be_num (le_bytes 4 w).

Lemma testbit_le_num_high bs i : 8 * zlen bs <= i -> Z.testbit (le_num bs) i = false.
Proof.
  intros Hi. pose proof (le_num_range bs) as Hr. replace (256 ^ zlen bs) with (2 ^ (8 * zlen bs)) in Hr
    by (rewrite Z.pow_mul_r by (pose proof (zlen_nonneg bs); lia); done).
  rewrite <- (Z.mod_small _ _ Hr). apply Z.mod_pow2_bits_high. pose proof (zlen_nonneg bs). lia.
Qed.

Lemma testbit_mask_high m k i : 0 <= m < 2 ^ k -> 0 <= k <= i -> Z.testbit m i = false.
Proof. intros Hm Hi. rewrite <- (Z.mod_small _ _ Hm). apply Z.mod_pow2_bits_high. lia. Qed.

(** Bit [i] of the value of [n] bytes in the other order. *)
Definition rev_bit (n i : Z) : Z := 8 * (n - 1 - i / 8) + i mod 8.

Lemma testbit_le_num bs i : 0 <= i < 8 * zlen bs ->
  exists b, bs !! Z.to_nat (i / 8) = Some b /\ Z.testbit (le_num bs) i = Z.testbit (uchar b) (i mod 8).
Proof.
  revert i. induction bs as [|b bs IH]; intros i Hi; [unfold zlen in Hi; simpl in Hi; lia|].
  rewrite zlen_cons in Hi. rewrite testbit_le_num_cons. destruct (Z.ltb_spec i 8).
  - exists b. rewrite Z.div_small, Z.mod_small by lia. done.
  - destruct (IH (i - 8)) as (c & Hc & Hb); [lia|]. exists c. rewrite Hb.
    replace (i / 8) with (Z.succ ((i - 8) / 8)) by (Z.div_mod_to_equations; lia).
    rewrite Z2Nat.inj_succ by (apply Z.div_pos; lia). split; [done|]. f_equal. Z.div_mod_to_equations. lia.
Qed.

Lemma reversed_bits n bs z : zlen bs = n ->
  (forall i, 8 * n <= i -> Z.testbit z i = false) ->
  (forall i, 0 <= i < 8 * n -> Z.testbit z i = Z.testbit (le_num bs) (rev_bit n i)) -> z = be_num bs.
Proof.
  intros Hn Hhigh Hlow. unfold be_num. assert (Hr : zlen (rev bs) = n) by (rewrite <- Hn; unfold zlen; by rewrite length_rev).
  apply Z.bits_inj'. intros i Hi. destruct (Z.ltb_spec i (8 * n)).
  - rewrite Hlow by lia. destruct (testbit_le_num (rev bs) i) as (b & Hb & ->); [lia|].
    assert (Hq : 0 <= i / 8 < n) by (Z.div_mod_to_equations; lia).
    assert (Hm : 0 <= i mod 8 < 8) by (Z.div_mod_to_equations; lia).
    destruct (testbit_le_num bs (rev_bit n i)) as (c & Hc & ->); [unfold rev_bit; lia|]. unfold rev_bit in *.
    replace ((8 * (n - 1 - i / 8) + i mod 8) / 8) with (n - 1 - i / 8) in Hc by (Z.div_mod_to_equations; lia).
    replace ((8 * (n - 1 - i / 8) + i mod 8) mod 8) with (i mod 8) by (Z.div_mod_to_equations; lia).
    assert (Hlt : (Z.to_nat (i / 8) < length bs)%nat) by (unfold zlen in Hn; lia).
    rewrite rev_alt in Hb. fold (reverse bs) in Hb. rewrite reverse_lookup in Hb by done.
    replace (Z.to_nat (n - 1 - i / 8)) with (length bs - S (Z.to_nat (i / 8)))%nat in Hc by (unfold zlen in Hn; lia). congruence.
  - rewrite Hhigh by lia. symmetry. apply testbit_le_num_high. lia.
Qed.

(** The bits of a word reversed, as functions of the bits of the word. *)
Definition at_ (f : Z -> bool) (i : Z) : bool := if i <? 0 then false else f i.
Definition swapped (w h : Z) (f : Z -> bool) (i : Z) : bool := at_ f (i + h) || ((i <? w) && at_ f (i - h)).
Definition exchanged (w h hi lo : Z) (f : Z -> bool) (i : Z) : bool :=
  (at_ f (i + h) && Z.testbit hi (i + h)) || ((i <? w) && at_ (fun i => f i && Z.testbit lo i) (i - h)).

Lemma testbit_at z i : Z.testbit z i = at_ (Z.testbit z) i.
Proof. unfold at_. destruct (Z.ltb_spec i 0); [by apply Z.testbit_neg_r|done]. Qed.

Lemma at_ext f g i : (forall i, 0 <= i -> f i = g i) -> at_ f i = at_ g i.
Proof. intros Hfg. unfold at_. destruct (Z.ltb_spec i 0); auto. Qed.

Lemma testbit_swapped w h z i : 0 <= w -> 0 <= i ->
  Z.testbit (Z.lor (Z.shiftr z h) (wrapU w (Z.shiftl z h))) i = swapped w h (Z.testbit z) i.
Proof.
  intros. unfold swapped. rewrite <- !testbit_at. rewrite Z.lor_spec, Z.shiftr_spec, testbit_wrapU, Z.shiftl_spec by lia. done.
Qed.

Lemma testbit_exchanged w h hi lo z i : 0 <= w -> 0 <= i ->
  Z.testbit (Z.lor (Z.shiftr (Z.land z hi) h) (wrapU w (Z.shiftl (Z.land z lo) h))) i =
  exchanged w h hi lo (Z.testbit z) i.
Proof.
  intros. unfold exchanged. rewrite <- testbit_at.
  assert (Hlo : Z.testbit (Z.land z lo) (i - h) = at_ (fun i => Z.testbit z i && Z.testbit lo i) (i - h)).
  { rewrite testbit_at. apply at_ext. intros. apply Z.land_spec. }
  by rewrite Z.lor_spec, Z.shiftr_spec, testbit_wrapU, Z.shiftl_spec, Z.land_spec, Hlo by lia.
Qed.

Lemma swapped_ext w h f g i : (forall i, 0 <= i -> f i = g i) -> swapped w h f i = swapped w h g i.
Proof. intros. unfold swapped. by rewrite !(at_ext f g). Qed.

Lemma exchanged_ext w h hi lo f g i : (forall i, 0 <= i -> f i = g i) -> exchanged w h hi lo f i = exchanged w h hi lo g i.
Proof.
  intros Hfg. unfold exchanged. rewrite (at_ext f g) by done. do 2 f_equal. apply at_ext. intros. by rewrite Hfg.
Qed.

Definition bit32 (f : Z -> bool) : Z -> bool := exchanged 32 8 0xff00ff00 0x00ff00ff (swapped 32 16 f).
Definition bit64 (f : Z -> bool) : Z -> bool :=
  exchanged 64 16 0xffff0000ffff0000 0x0000ffff0000ffff (exchanged 64 8 0xff00ff00ff00ff00 0x00ff00ff00ff00ff (swapped 64 32 f)).

Lemma testbit_REVERSE32 z i : 0 <= i -> Z.testbit (REVERSE32 z) i = bit32 (Z.testbit z) i.
Proof.
  intros Hi. unfold REVERSE32, bit32. rewrite testbit_exchanged by lia. apply exchanged_ext.
  intros. apply testbit_swapped; lia.
Qed.

Lemma testbit_REVERSE64 z i : 0 <= i -> Z.testbit (REVERSE64 z) i = bit64 (Z.testbit z) i.
Proof.
  intros Hi. unfold REVERSE64, bit64. rewrite testbit_exchanged by lia. apply exchanged_ext. intros.
  rewrite testbit_exchanged by lia. apply exchanged_ext. intros. apply testbit_swapped; lia.
Qed.

Lemma below_nat (P : Z -> Prop) n : Forall P (Z.of_nat <$> seq 0 n) -> forall i, 0 <= i < Z.of_nat n -> P i.
Proof.
  intros HP i Hi. rewrite List.Forall_forall in HP. apply HP, list_elem_of_In, list_elem_of_fmap.
  exists (Z.to_nat i). rewrite Z2Nat.id, elem_of_seq by lia. split; [done|lia].
Qed.

Definition cut (w : Z) (f : Z -> bool) (i : Z) : bool := (i <? w) && f i.

Lemma bit32_rev f i : 0 <= i < 32 -> bit32 (cut 32 f) i = f (rev_bit 4 i).
Proof.
  revert i. apply (below_nat _ 32). repeat (apply List.Forall_cons; [vm_compute; by repeat destruct (f _)|]). apply List.Forall_nil.
Qed.

Lemma bit64_rev f i : 0 <= i < 64 -> bit64 (cut 64 f) i = f (rev_bit 8 i).
Proof.
  revert i. apply (below_nat _ 64). repeat (apply List.Forall_cons; [vm_compute; by repeat destruct (f _)|]). apply List.Forall_nil.
Qed.

Lemma testbit_cut n bs i : zlen bs = n -> Z.testbit (le_num bs) i = cut (8 * n) (Z.testbit (le_num bs)) i.
Proof.
  intros Hn. unfold cut. destruct (Z.ltb_spec i (8 * n)); [done|]. apply testbit_le_num_high. lia.
Qed.

Lemma bit32_ext f g i : (forall i, 0 <= i -> f i = g i) -> bit32 f i = bit32 g i.
Proof. intros Hfg. apply exchanged_ext. intros. by apply swapped_ext. Qed.

Lemma bit64_ext f g i : (forall i, 0 <= i -> f i = g i) -> bit64 f i = bit64 g i.
Proof. intros Hfg. apply exchanged_ext. intros. apply exchanged_ext. intros. by apply swapped_ext. Qed.

Lemma REVERSE32_num bs : zlen bs = 4 -> REVERSE32 (le_num bs) = be_num bs.
Proof.
  intros Hn. apply (reversed_bits 4); [done| |].
  - intros i Hi. rewrite testbit_REVERSE32 by lia. unfold bit32, exchanged.
    rewrite (testbit_mask_high 0xff00ff00 32), andb_false_r by lia. destruct (Z.ltb_spec i 32); [lia|done].
  - intros i Hi. rewrite testbit_REVERSE32 by lia. rewrite <- bit32_rev by lia. apply bit32_ext. intros. by apply (testbit_cut 4).
Qed.

Lemma REVERSE64_num bs : zlen bs = 8 -> REVERSE64 (le_num bs) = be_num bs.
Proof.
  intros Hn. apply (reversed_bits 8); [done| |].
  - intros i Hi. rewrite testbit_REVERSE64 by lia. unfold bit64. unfold exchanged at 1.
    rewrite (testbit_mask_high 0xffff0000ffff0000 64), andb_false_r by lia. destruct (Z.ltb_spec i 64); [lia|done].
  - intros i Hi. rewrite testbit_REVERSE64 by lia. rewrite <- bit64_rev by lia. apply bit64_ext. intros. by apply (testbit_cut 8).
Qed.

(** ** Words of a buffer *)

Lemma words_of_length n bs : length bs = (4 * n)%nat -> length (words_of bs) = n.
Proof.
  revert bs. induction n as [|n IH]; intros bs Hn; [by destruct bs|].
  destruct bs as [|a [|b [|c [|d bs]]]]; simpl in *; try lia. by rewrite IH by lia.
Qed.

Lemma words_of_four bs : Forall (fun w => zlen w = 4) (words_of bs).
Proof.
  remember (length bs) as n eqn:Hn. revert bs Hn. induction n as [n IH] using lt_wf_ind. intros bs ->.
  destruct bs as [|a [|b [|c [|d bs]]]]; try (apply List.Forall_nil). simpl. apply List.Forall_cons; [done|].
  eapply IH; [|done]. simpl. lia.
Qed.

Lemma reversed_words bs : REVERSE32 <$> (le_num <$> words_of bs) = be_num <$> words_of bs.
Proof.
  pose proof (words_of_four bs) as Hf. induction Hf as [|w ws Hw _ IH]; [done|].
  rewrite !fmap_cons. by rewrite REVERSE32_num, IH.
Qed.

Lemma be_num_range bs : 0 <= be_num bs < 256 ^ zlen bs.
Proof. unfold be_num. pose proof (le_num_range (rev bs)) as Hr. unfold zlen in *. by rewrite length_rev in Hr. Qed.

(** What a machine stores for a reversed word is the word, high byte first. *)
Lemma le_bytes_REVERSE32 z : 0 <= z < 2 ^ 32 -> le_bytes 4 (REVERSE32 z) = be_bytes 4 z.
Proof.
  intros Hz. rewrite <- (le_num_bytes 4 z) at 1 by done. rewrite REVERSE32_num by done. unfold be_num, be_bytes.
  rewrite <- (le_bytes_num (rev (le_bytes 4 z))) at 2. done.
Qed.

Lemma le_bytes_REVERSE64 z : 0 <= z < 2 ^ 64 -> le_bytes 8 (REVERSE64 z) = be_bytes 8 z.
Proof.
  intros Hz. rewrite <- (le_num_bytes 8 z) at 1 by done. rewrite REVERSE64_num by done. unfold be_num, be_bytes.
  rewrite <- (le_bytes_num (rev (le_bytes 8 z))) at 2. done.
Qed.

(** ** Arrays *)

(** [memcpy] and [memset] at a place of an array. *)
Definition put (pos : Z) (bs buf : bytes) : bytes := takeZ pos buf ++ bs ++ dropZ (pos + zlen bs) buf.

Definition zeros (n : Z) : bytes := replicate (Z.to_nat n) Byte.x00.

Definition at16 (j : Z) (W : list Z) : Z := nth (Z.to_nat (Z.land j 0x0f)) W 0.

Lemma put_length pos bs buf : 0 <= pos -> pos + zlen bs <= zlen buf -> length (put pos bs buf) = length buf.
Proof.
  intros Hp Hl. unfold put. apply Nat2Z.inj. change (zlen (takeZ pos buf ++ bs ++ dropZ (pos + zlen bs) buf) = zlen buf).
  pose proof (zlen_nonneg bs). rewrite !zlen_app, zlen_takeZ, zlen_dropZ by lia. lia.
Qed.

Lemma put_after pos bs buf p : takeZ pos buf = p -> pos + zlen bs = zlen buf -> put pos bs buf = p ++ bs.
Proof. intros <- Hl. unfold put. by rewrite dropZ_all, app_nil_r by lia. Qed.

Lemma takeZ_app_eq {A} n (l1 l2 : list A) : zlen l1 = n -> takeZ n (l1 ++ l2) = l1.
Proof. intros Hl. rewrite takeZ_app_l by lia. apply takeZ_all. lia. Qed.

Lemma put_ok pos bs buf : length buf = 64%nat -> 0 <= pos -> pos + zlen bs <= 64 -> length (put pos bs buf) = 64%nat.
Proof. intros Hb Hp Hl. rewrite put_length; [done..|]. unfold zlen in *. lia. Qed.

Lemma put_take pos bs buf p : takeZ pos buf = p -> 0 <= pos <= zlen buf ->
  takeZ (pos + zlen bs) (put pos bs buf) = p ++ bs.
Proof.
  intros <- Hp. unfold put. rewrite app_assoc. apply takeZ_app_eq.
  rewrite zlen_app, zlen_takeZ by lia. lia.
Qed.

Lemma zlen_zeros n : 0 <= n -> zlen (zeros n) = n.
Proof. intros. unfold zlen, zeros. rewrite length_replicate. lia. Qed.

Lemma replicate_zeros n : replicate (Z.to_nat n) Byte.x00 = zeros n.
Proof. done. Qed.

Lemma index16 z : 0 <= z -> Z.to_nat (Z.land z 0x0f) = (Z.to_nat z mod 16)%nat.
Proof. intros Hz. change 0x0f with (Z.ones 4). rewrite Z.land_ones by lia. by rewrite Z2Nat.inj_mod by lia. Qed.

Lemma at16_mod z W : 0 <= z -> at16 z W = nth (Z.to_nat z mod 16) W 0.
Proof. intros Hz. unfold at16. by rewrite index16. Qed.

Lemma nth_insert_ne i j x (l : list Z) : i <> j -> nth i (<[j:=x]> l) 0 = nth i l 0.
Proof. intros. by rewrite !nth_lookup, list_lookup_insert_ne by done. Qed.

Lemma nth_insert_eq i x (l : list Z) : (i < length l)%nat -> nth i (<[i:=x]> l) 0 = x.
Proof. intros. by rewrite nth_lookup, list_lookup_insert_eq by done. Qed.

Lemma mod16_inj s t : (s mod 16 = t mod 16)%nat -> (s <= t < s + 16)%nat -> s = t.
Proof.
  intros Hm Hb. pose proof (Nat.div_mod_eq s 16). pose proof (Nat.div_mod_eq t 16). lia.
Qed.

Lemma nth_take {A} (d : A) t n (l : list A) : (t < n)%nat -> nth t (take n l) d = nth t l d.
Proof. intros. by rewrite !nth_lookup, lookup_take_lt by done. Qed.

End Words.
