(* ===== verification/Fips180.v ===== *)
(** * Fips180: the digests SHA-1 and SHA-256, and HMAC, as their standards define them

    FIPS 180-4 and RFC 2104, on messages of whole bytes: what [Sha256] and [Sha1] are
    compared with.  Words are integers below [2 ^ 32]; a message is padded and cut into
    blocks of 64 bytes, and each block is compressed into the chaining words.  The constants
    are computed from the primes, as the standards describe them. *)

From S2P Require Import Prelude.
From S2P Require Import Words.

Module Fips.
Import Words.

Definition add32 (x y : Z) : Z := (x + y) mod 2 ^ 32.

(** Rotations by arithmetic: the part that leaves at one end enters at the other. *)
Definition rotr (n x : Z) : Z := x / 2 ^ n + (x mod 2 ^ n) * 2 ^ (32 - n).
Definition rotl (n x : Z) : Z := rotr (32 - n) x.
Definition shr (n x : Z) : Z := x / 2 ^ n.

(** Bit by bit: [y] where [x] is set and [z] elsewhere; what most have; how many, modulo 2. *)
Definition choose (x y z : Z) : Z := Z.lor (Z.land x y) (Z.ldiff z x).
Definition most (x y z : Z) : Z := Z.lor (Z.land x y) (Z.land z (Z.lor x y)).
Definition parity (x y z : Z) : Z := Z.lxor x (Z.lxor y z).

(** ** Padding and blocks *)

Definition padding (len : Z) : bytes :=
  Byte.x80 :: replicate (Z.to_nat ((55 - len) mod 64)) Byte.x00 ++ be_bytes 8 (8 * len).

Fixpoint blocks (n : nat) (bs : bytes) : list bytes :=
  match n with
  | O => []
  | S n => take 64 bs :: blocks n (drop 64 bs)
  end.

(** The whole blocks at the front of [bs]. *)
Definition full_blocks (bs : bytes) : list bytes := blocks (length bs / 64) bs.

Definition digest (compress : list Z -> bytes -> list Z) (h0 : list Z) (msg : bytes) : bytes :=
  concat (be_bytes 4 <$> foldl compress h0 (full_blocks (msg ++ padding (zlen msg)))).

(** The message schedule, extended one word at a time. *)
Fixpoint schedule (next : list Z -> Z) (n : nat) (ws : list Z) : list Z :=
  match n with
  | O => ws
  | S n => schedule next n (ws ++ [next ws])
  end.

(** The word [k] places from the end. *)
Definition back (k : nat) (ws : list Z) : Z := nth (length ws - k) ws 0.

(** ** Constants *)

(** The integer root: the largest [r] below [2 ^ n] with [r ^ k <= x]. *)
Fixpoint root (k : Z) (n : nat) (x r : Z) : Z :=
  match n with
  | O => r
  | S n => let r' := r + 2 ^ Z.of_nat n in root k n x (if r' ^ k <=? x then r' else r)
  end.

Definition is_prime (p : Z) : bool :=
  forallb (fun d => negb (p mod Z.of_nat d =? 0)) (seq 2 (Z.to_nat p - 2)).
Definition primes (bound : nat) : list Z := filter (fun p => is_prime p = true) (Z.of_nat <$> seq 2 (bound - 2)).

(** The first 32 bits of the fractional part of a square root or a cube root. *)
Definition sqrt_bits (p : Z) : Z := root 2 40 (p * 2 ^ 64) 0 mod 2 ^ 32.
Definition cbrt_bits (p : Z) : Z := root 3 36 (p * 2 ^ 96) 0 mod 2 ^ 32.

(** ** SHA-256 *)

Definition K_256 : list Z := cbrt_bits <$> primes 312.
Definition H_256 : list Z := sqrt_bits <$> primes 20.

Definition Sum0 (x : Z) : Z := parity (rotr 2 x) (rotr 13 x) (rotr 22 x).
Definition Sum1 (x : Z) : Z := parity (rotr 6 x) (rotr 11 x) (rotr 25 x).
Definition sum0 (x : Z) : Z := parity (rotr 7 x) (rotr 18 x) (shr 3 x).
Definition sum1 (x : Z) : Z := parity (rotr 17 x) (rotr 19 x) (shr 10 x).

Definition next_256 (ws : list Z) : Z :=
  (sum1 (back 2 ws) + back 7 ws + sum0 (back 15 ws) + back 16 ws) mod 2 ^ 32.

Definition round_256 (v : list Z) (kw : Z * Z) : list Z :=
  match v with
  | [a; b; c; d; e; f; g; h] =>
      let t1 := (h + Sum1 e + choose e f g + kw.1 + kw.2) mod 2 ^ 32 in
      let t2 := (Sum0 a + most a b c) mod 2 ^ 32 in
      [add32 t1 t2; a; b; c; add32 d t1; e; f; g]
  | _ => v
  end.

Definition compress_256 (h : list Z) (block : bytes) : list Z :=
  zip_with add32 h (foldl round_256 h (zip K_256 (schedule next_256 48 (be_num <$> words_of block)))).

Definition sha256 : bytes -> bytes := digest compress_256 H_256.

(** ** SHA-1 *)

(** [2 ^ 30] times the square root of 2, 3, 5 and 10, for 20 rounds each. *)
Definition K_1 : list Z := concat ((fun p => replicate 20 (root 2 40 (p * 2 ^ 60) 0)) <$> [2; 3; 5; 10]).
Definition H_1 : list Z := be_num <$> words_of
  (to_byte <$> [0x67; 0x45; 0x23; 0x01; 0xef; 0xcd; 0xab; 0x89; 0x98; 0xba; 0xdc; 0xfe; 0x10; 0x32; 0x54; 0x76;
                0xc3; 0xd2; 0xe1; 0xf0]).

Definition next_1 (ws : list Z) : Z :=
  rotl 1 (Z.lxor (Z.lxor (back 3 ws) (back 8 ws)) (Z.lxor (back 14 ws) (back 16 ws))).

Definition f_1 (t : nat) (x y z : Z) : Z :=
  if (t <? 20)%nat then choose x y z
  else if (40 <=? t)%nat && (t <? 60)%nat then most x y z
  else parity x y z.

Definition round_1 (v : list Z) (tkw : nat * (Z * Z)) : list Z :=
  match v with
  | [a; b; c; d; e] =>
      [(rotl 5 a + f_1 tkw.1 b c d + e + tkw.2.1 + tkw.2.2) mod 2 ^ 32; a; rotl 30 b; c; d]
  | _ => v
  end.

Definition compress_1 (h : list Z) (block : bytes) : list Z :=
  zip_with add32 h (foldl round_1 h
    (zip (seq 0 80) (zip K_1 (schedule next_1 64 (be_num <$> words_of block))))).

Definition sha1 : bytes -> bytes := digest compress_1 H_1.

(** ** HMAC *)

(** [K0]: the key, digested when it is longer than a block, filled up with zeros. *)
Definition hmac_key (hash : bytes -> bytes) (key : bytes) : bytes :=
  let k := if 64 <? zlen key then hash key else key in
  k ++ replicate (64 - length k) Byte.x00.

Definition xor_byte (c : Z) (b : byte) : byte := to_byte (Z.lxor (uchar b) c).

Definition hmac (hash : bytes -> bytes) (key text : bytes) : bytes :=
  let k := hmac_key hash key in
  hash ((xor_byte 0x5c <$> k) ++ hash ((xor_byte 0x36 <$> k) ++ text)).

(** The examples of the standards. *)
Lemma sha256_abc : sha256 (bstr "abc") = be_bytes 32 0xba7816bf8f01cfea414140de5dae2223b00361a396177a9cb410ff61f20015ad.
Proof. vm_compute. reflexivity. Qed.

Lemma sha1_abc : sha1 (bstr "abc") = be_bytes 20 0xa9993e364706816aba3e25717850c26c9cd0d89d.
Proof. vm_compute. reflexivity. Qed.

Lemma hmac_sha256_Jefe : hmac sha256 (bstr "Jefe") (bstr "what do ya want for nothing?") =
  be_bytes 32 0x5bdcc146bf60754e6a042426089575c75a003f089d2739839dec58b964ec3843.
Proof. vm_compute. reflexivity. Qed.

(** ** Blocks *)

Lemma blocks_app q r (a b : bytes) : length a = (64 * q)%nat -> blocks (q + r) (a ++ b) = blocks q a ++ blocks r b.
Proof.
  revert a. induction q as [|q IH]; intros a Ha; [destruct a; [done|simpl in Ha; lia]|].
  cbn [Nat.add blocks]. rewrite take_app_le, drop_app_le by lia. simpl. f_equal. apply IH. rewrite length_drop. lia.
Qed.

Lemma full_blocks_app (a b : bytes) : (length a mod 64 = 0)%nat -> full_blocks (a ++ b) = full_blocks a ++ full_blocks b.
Proof.
  intros Ha. unfold full_blocks. pose proof (Nat.div_mod_eq (length a) 64) as Hd. rewrite Ha in Hd.
  rewrite length_app. replace (length a + length b)%nat with (length b + (length a / 64) * 64)%nat by lia.
  rewrite Nat.div_add, (Nat.add_comm (length b / 64)) by lia. apply blocks_app. lia.
Qed.

Lemma full_blocks_small (b : bytes) : (length b < 64)%nat -> full_blocks b = [].
Proof. intros Hb. unfold full_blocks. by rewrite Nat.div_small. Qed.

Lemma full_blocks_one (b : bytes) : length b = 64%nat -> full_blocks b = [b].
Proof. intros Hb. unfold full_blocks. rewrite Hb. change (64 / 64)%nat with 1%nat. simpl. by rewrite take_ge by lia. Qed.

(** The padding of a message that leaves [u] bytes after its whole blocks. *)
Lemma padding_eq (len u : Z) : u = len mod 64 ->
  padding len = Byte.x80 :: replicate (Z.to_nat (if u <=? 55 then 55 - u else 119 - u)) Byte.x00 ++ be_bytes 8 (8 * len).
Proof.
  intros ->. unfold padding. do 4 f_equal. pose proof (Z.mod_pos_bound len 64).
  rewrite Zminus_mod. destruct (Z.leb_spec (len mod 64) 55).
  - rewrite Z.mod_small; change (55 mod 64) with 55; lia.
  - change (55 mod 64) with 55. rewrite <- (Z_mod_plus_full _ 1), Z.mod_small; lia.
Qed.

(** ** Words *)

Definition word (x : Z) : Prop := 0 <= x < 2 ^ 32.

Lemma word_mod x : word (x mod 2 ^ 32).
Proof. apply Z.mod_pos_bound. lia. Qed.

Lemma word_uint32 x : word (uint32 x).
Proof. apply word_mod. Qed.

Lemma word_bits x : word x <-> 0 <= x /\ forall i, 32 <= i -> Z.testbit x i = false.
Proof.
  split.
  - intros Hx. split; [apply Hx|]. intros i Hi. by apply (testbit_mask_high x 32).
  - intros [Hx Hb]. unfold word. split; [done|]. destruct (Z.ltb_spec x (2 ^ 32)) as [|Hge]; [done|].
    pose proof (Z.log2_le_mono _ _ Hge) as Hl. rewrite Z.log2_pow2 in Hl by lia.
    pose proof (Z.bit_log2 x) as Ht. rewrite Hb in Ht by lia. lia.
Qed.

Lemma word_lxor x y : word x -> word y -> word (Z.lxor x y).
Proof.
  rewrite !word_bits. intros [Hx Hbx] [Hy Hby]. split; [by apply Z.lxor_nonneg|].
  intros i Hi. by rewrite Z.lxor_spec, Hbx, Hby.
Qed.

Lemma lor_shifted k x y : 0 <= k -> 0 <= x < 2 ^ k -> Z.lor x (y * 2 ^ k) = x + y * 2 ^ k.
Proof.
  intros Hk Hx. rewrite <- Z.lxor_lor, <- Z.add_nocarry_lxor; [done| |];
  (apply Z.bits_inj'; intros i Hi; rewrite Z.land_spec, Z.bits_0, <- Z.shiftl_mul_pow2, Z.shiftl_spec by lia;
   destruct (Z.ltb_spec i k); [rewrite (Z.testbit_neg_r y) by lia; apply andb_false_r|];
   by rewrite (testbit_mask_high x k) by lia).
Qed.

Lemma lor_rotr n x : 0 < n < 32 -> word x -> Z.lor (Z.shiftr x n) (uint32 (Z.shiftl x (32 - n))) = rotr n x.
Proof.
  intros Hn Hx. unfold rotr, wrapU. rewrite Z.shiftr_div_pow2, Z.shiftl_mul_pow2 by lia.
  replace (2 ^ 32) with (2 ^ n * 2 ^ (32 - n)) by (rewrite <- Z.pow_add_r by lia; f_equal; lia).
  rewrite Z.mul_mod_distr_r by lia. apply lor_shifted; [lia|]. unfold word in Hx.
  split; [apply Z.div_pos; lia|]. apply Z.div_lt_upper_bound; [lia|].
  rewrite <- Z.pow_add_r by lia. replace (n + (32 - n)) with 32 by lia. lia.
Qed.

Lemma word_rotr n x : 0 < n < 32 -> word x -> word (rotr n x).
Proof.
  intros Hn Hx. unfold rotr, word in *. pose proof (Z.mod_pos_bound x (2 ^ n)).
  assert (Hd : 0 <= x / 2 ^ n < 2 ^ (32 - n)).
  { split; [apply Z.div_pos; lia|]. apply Z.div_lt_upper_bound; [lia|].
    rewrite <- Z.pow_add_r by lia. replace (n + (32 - n)) with 32 by lia. lia. }
  assert (H2 : 2 ^ n * 2 ^ (32 - n) = 2 ^ 32) by (rewrite <- Z.pow_add_r by lia; f_equal; lia). nia.
Qed.

Lemma word_shr n x : 0 <= n -> word x -> word (shr n x).
Proof.
  intros Hn [H1 H2]. unfold shr. split; [apply Z.div_pos; lia|].
  apply Z.le_lt_trans with x; [|done]. apply Z.div_le_upper_bound; [lia|]. nia.
Qed.

Lemma word_parity x y z : word x -> word y -> word z -> word (parity x y z).
Proof. intros. unfold parity. by repeat apply word_lxor. Qed.

Lemma words_of_be bs : Forall word (be_num <$> words_of bs).
Proof.
  pose proof (words_of_four bs) as Hf. induction Hf as [|w ws Hw _ IH]; [apply List.Forall_nil|].
  rewrite fmap_cons. apply List.Forall_cons; [|done]. pose proof (be_num_range w) as Hr. rewrite Hw in Hr. exact Hr.
Qed.

Lemma words_zip l k : Forall word (zip_with add32 l k).
Proof.
  revert k. induction l as [|x l IH]; intros [|y k]; try apply List.Forall_nil. simpl.
  apply List.Forall_cons; [apply word_mod|apply IH].
Qed.

Lemma word_nth t ws : Forall word ws -> word (nth t ws 0).
Proof.
  intros Hw. rewrite nth_lookup. destruct (ws !! t) as [x|] eqn:Hx; simpl; [|done].
  by eapply Forall_lookup_1 in Hx.
Qed.

(** ** The schedule, and the window of its last 16 words *)

Lemma schedule_app next n ws : exists l, schedule next n ws = ws ++ l /\ length l = n.
Proof.
  revert ws. induction n as [|n IH]; intros ws; simpl; [exists []; by rewrite app_nil_r|].
  destruct (IH (ws ++ [next ws])) as (l & -> & Hl). exists (next ws :: l). rewrite <- app_assoc. split; [done|]. simpl. by rewrite Hl.
Qed.

Lemma schedule_nth next n ws t : (length ws <= t < length ws + n)%nat ->
  nth t (schedule next n ws) 0 = next (take t (schedule next n ws)).
Proof.
  revert ws. induction n as [|n IH]; intros ws Ht; [lia|]. simpl.
  destruct (decide (t = length ws)) as [->|Hne].
  - destruct (schedule_app next n (ws ++ [next ws])) as (l & -> & _). rewrite <- app_assoc. simpl.
    rewrite take_app_length, app_nth2, Nat.sub_diag by lia. done.
  - apply IH. rewrite length_app. simpl. lia.
Qed.

Lemma back_take k t ws : (0 < k <= t)%nat -> (t <= length ws)%nat -> back k (take t ws) = nth (t - k) ws 0.
Proof. intros. unfold back. rewrite length_take, Nat.min_l by done. apply nth_take. lia. Qed.

(** [W] holds the last 16 words before word [j]. *)
Definition window (ws W : list Z) (j : nat) : Prop :=
  length W = 16%nat /\ forall t, (t < j)%nat -> (j <= t + 16)%nat -> nth (t mod 16) W 0 = nth t ws 0.

Lemma window_insert ws W j : window ws W j -> window ws (<[(j mod 16)%nat := nth j ws 0]> W) (S j).
Proof.
  intros [Hl Hw]. split; [by rewrite length_insert|]. intros t Ht1 Ht2.
  pose proof (Nat.mod_upper_bound j 16). destruct (decide (t = j)) as [->|Hne].
  - rewrite nth_insert_eq by lia. done.
  - rewrite nth_insert_ne; [apply Hw; lia|]. intros Heq. apply Hne, mod16_inj; [done|lia].
Qed.

Lemma zlen_mod_parts (a p : bytes) : (length a mod 64 = 0)%nat -> (length p < 64)%nat -> zlen p = zlen (a ++ p) mod 64.
Proof.
  intros Ha Hp. rewrite zlen_app. pose proof (Nat.div_mod_eq (length a) 64) as Hd. unfold zlen.
  replace (Z.of_nat (length a) + Z.of_nat (length p)) with (Z.of_nat (length p) + Z.of_nat (length a / 64) * 64) by lia.
  rewrite Z_mod_plus_full, Z.mod_small; lia.
Qed.

End Fips.
