(* ===== verification/Sha256.v ===== *)
(** * Sha256: [io/util/sha256.h], [io/util/sha256.cc]

    The digest as it is computed: a context that takes data in pieces, the transformation of
    a block over a window of 16 words, which is the buffer of the context itself, and HMAC.
    The machine is little-endian, as the library requires one to be told. *)

From S2P Require Import Prelude.
From S2P Require Import Words.

Module Sha256.
Import Words.

(** ** The logical functions *)

Definition R (b x : Z) : Z := Z.shiftr x b.
Definition S32 (b x : Z) : Z := Z.lor (Z.shiftr x b) (uint32 (Z.shiftl x (32 - b))).

Definition Ch (x y z : Z) : Z := Z.lxor (Z.land x y) (Z.land (uint32 (Z.lnot x)) z).
Definition Maj (x y z : Z) : Z := Z.lxor (Z.lxor (Z.land x y) (Z.land x z)) (Z.land y z).

Definition Sigma0_256 (x : Z) : Z := Z.lxor (Z.lxor (S32 2 x) (S32 13 x)) (S32 22 x).
Definition Sigma1_256 (x : Z) : Z := Z.lxor (Z.lxor (S32 6 x) (S32 11 x)) (S32 25 x).
Definition sigma0_256 (x : Z) : Z := Z.lxor (Z.lxor (S32 7 x) (S32 18 x)) (R 3 x).
Definition sigma1_256 (x : Z) : Z := Z.lxor (Z.lxor (S32 17 x) (S32 19 x)) (R 10 x).

(** ** The constants *)

(** Hexadecimal words, separated by blanks. *)
Fixpoint hex_from (acc : Z) (bs : bytes) : list Z :=
  match bs with
  | [] => [acc]
  | b :: bs =>
      if uchar b =? 32 then acc :: hex_from 0 bs
      else hex_from (16 * acc + (if uchar b <? 58 then uchar b - 48 else uchar b - 87)) bs
  end.
Definition hex_words (s : string) : list Z := hex_from 0 (bytes_of s).

Definition K256 : list Z :=
  hex_words "428a2f98 71374491 b5c0fbcf e9b5dba5 3956c25b 59f111f1 923f82a4 ab1c5ed5" ++
  hex_words "d807aa98 12835b01 243185be 550c7dc3 72be5d74 80deb1fe 9bdc06a7 c19bf174" ++
  hex_words "e49b69c1 efbe4786 0fc19dc6 240ca1cc 2de92c6f 4a7484aa 5cb0a9dc 76f988da" ++
  hex_words "983e5152 a831c66d b00327c8 bf597fc7 c6e00bf3 d5a79147 06ca6351 14292967" ++
  hex_words "27b70a85 2e1b2138 4d2c6dfc 53380d13 650a7354 766a0abb 81c2c92e 92722c85" ++
  hex_words "a2bfe8a1 a81a664b c24b8b70 c76c51a3 d192e819 d6990624 f40e3585 106aa070" ++
  hex_words "19a4c116 1e376c08 2748774c 34b0bcb5 391c0cb3 4ed8aa4a 5b9cca4f 682e6ff3" ++
  hex_words "748f82ee 78a5636f 84c87814 8cc70208 90befffa a4506ceb bef9a3f7 c67178f2".

Definition initial_hash_value : list Z :=
  hex_words "6a09e667 bb67ae85 3c6ef372 a54ff53a 510e527f 9b05688c 1f83d9ab 5be0cd19".

Definition hex_digits : bytes := bytes_of "0123456789abcdef".

Definition WL_SHA256_BLOCK_LENGTH : Z := 64.
Definition WL_SHA256_DIGEST_LENGTH : Z := 32.
Definition WL_SHA256_SHORT_BLOCK_LENGTH : Z := WL_SHA256_BLOCK_LENGTH - 8.

(** ** The context *)

Record WL_SHA256_CTX := mkCTX { state : list Z; bitcount : Z; buffer : bytes }.

Definition set_buffer (b : bytes) (c : WL_SHA256_CTX) : WL_SHA256_CTX := mkCTX (state c) (bitcount c) b.
Definition add_bits (n : Z) (c : WL_SHA256_CTX) : WL_SHA256_CTX := mkCTX (state c) (size_t (bitcount c + n)) (buffer c).

Definition WL_SHA256_Init : WL_SHA256_CTX := mkCTX initial_hash_value 0 (zeros WL_SHA256_BLOCK_LENGTH).

(** ** The transformation of a block *)

Record Regs := mkRegs { va : Z; vb : Z; vc : Z; vd : Z; ve : Z; vf : Z; vg : Z; vh : Z }.

Definition load_regs (s : list Z) : Regs :=
  mkRegs (nth 0 s 0) (nth 1 s 0) (nth 2 s 0) (nth 3 s 0) (nth 4 s 0) (nth 5 s 0) (nth 6 s 0) (nth 7 s 0).
Definition regs_list (r : Regs) : list Z := [va r; vb r; vc r; vd r; ve r; vf r; vg r; vh r].

(** One round, with [K256[j]] and the word of the round. *)
Definition apply_round (k w : Z) (r : Regs) : Regs :=
  let T1 := uint32 (vh r + Sigma1_256 (ve r) + Ch (ve r) (vf r) (vg r) + k + w) in
  let T2 := uint32 (Sigma0_256 (va r) + Maj (va r) (vb r) (vc r)) in
  mkRegs (uint32 (T1 + T2)) (va r) (vb r) (vc r) (uint32 (vd r + T1)) (ve r) (vf r) (vg r).

(** The body of the loop over the first 16 rounds, and of the one over the others. *)
Definition first_round (data : list Z) (st : Regs * list Z) (j : nat) : Regs * list Z :=
  let '(r, W256) := st in
  let W256 := <[j := REVERSE32 (nth j data 0)]> W256 in
  (apply_round (nth j K256 0) (nth j W256 0) r, W256).

Definition later_round (st : Regs * list Z) (j : nat) : Regs * list Z :=
  let '(r, W256) := st in
  let z := Z.of_nat j in
  let s0 := sigma0_256 (at16 (z + 1) W256) in
  let s1 := sigma1_256 (at16 (z + 14) W256) in
  let w := uint32 (at16 z W256 + (s1 + at16 (z + 9) W256 + s0)) in
  let W256 := <[Z.to_nat (Z.land z 0x0f) := w]> W256 in
  (apply_round (nth j K256 0) w r, W256).

(** The window of 16 words lies over the buffer; when [data] is the buffer too, each word is
    read before it is overwritten. *)
Definition WL_SHA256_Transform (c : WL_SHA256_CTX) (data : bytes) : WL_SHA256_CTX :=
  let W256 := le_num <$> words_of (buffer c) in
  let '(r, W256) := foldl (first_round (le_num <$> words_of data)) (load_regs (state c), W256) (seq 0 16) in
  let '(r, W256) := foldl later_round (r, W256) (seq 16 48) in
  mkCTX (zip_with (fun s v => uint32 (s + v)) (state c) (regs_list r)) (bitcount c) (concat (le_bytes 4 <$> W256)).

(** ** Data in pieces *)

Definition usedspace (c : WL_SHA256_CTX) : Z := uint32 (Z.shiftr (bitcount c) 3 mod WL_SHA256_BLOCK_LENGTH).

(** The loop over the whole blocks of the data. *)
Definition Update_step (st : WL_SHA256_CTX * bytes) : option (WL_SHA256_CTX * bytes + WL_SHA256_CTX * bytes) :=
  let '(c, data) := st in
  if WL_SHA256_BLOCK_LENGTH <=? zlen data then
    let c := WL_SHA256_Transform c (takeZ WL_SHA256_BLOCK_LENGTH data) in
    Some (inl (add_bits (Z.shiftl WL_SHA256_BLOCK_LENGTH 3) c, dropZ WL_SHA256_BLOCK_LENGTH data))
  else Some (inr (c, data)).

Definition Update_rest (c : WL_SHA256_CTX) (data : bytes) : option WL_SHA256_CTX :=
  '(c, data) ← loop Update_step (S (length data)) (c, data);
  Some (if 0 <? zlen data then add_bits (size_t (Z.shiftl (zlen data) 3)) (set_buffer (put 0 data (buffer c)) c) else c).

Definition WL_SHA256_Update (c : WL_SHA256_CTX) (data : bytes) : option WL_SHA256_CTX :=
  if zlen data =? 0 then Some c
  else
    let used := usedspace c in
    if 0 <? used then
      let freespace := WL_SHA256_BLOCK_LENGTH - used in
      if freespace <=? zlen data then
        let c := set_buffer (put used (takeZ freespace data) (buffer c)) c in
        let c := add_bits (Z.shiftl freespace 3) c in
        Update_rest (WL_SHA256_Transform c (buffer c)) (dropZ freespace data)
      else Some (add_bits (size_t (Z.shiftl (zlen data) 3)) (set_buffer (put used data (buffer c)) c))
    else Update_rest c data.

(** The buffer before the last transformation, without the count of the bits. *)
Definition Final_pad (c : WL_SHA256_CTX) : WL_SHA256_CTX :=
  let used := usedspace c in
  if 0 <? used then
    let b := put used [Byte.x80] (buffer c) in
    let used := used + 1 in
    if used <=? WL_SHA256_SHORT_BLOCK_LENGTH then
      set_buffer (put used (zeros (WL_SHA256_SHORT_BLOCK_LENGTH - used)) b) c
    else
      let b := if used <? WL_SHA256_BLOCK_LENGTH then put used (zeros (WL_SHA256_BLOCK_LENGTH - used)) b else b in
      let c := WL_SHA256_Transform (set_buffer b c) b in
      set_buffer (put 0 (zeros WL_SHA256_SHORT_BLOCK_LENGTH) (buffer c)) c
  else
    set_buffer (put 0 [Byte.x80] (put 0 (zeros WL_SHA256_SHORT_BLOCK_LENGTH) (buffer c))) c.

(** The digest; the context is wiped. *)
Definition WL_SHA256_Final (c : WL_SHA256_CTX) : bytes :=
  let reversed := REVERSE64 (bitcount c) in
  let c := Final_pad c in
  let c := set_buffer (put WL_SHA256_SHORT_BLOCK_LENGTH (le_bytes 8 reversed) (buffer c)) c in
  let c := WL_SHA256_Transform c (buffer c) in
  concat (le_bytes 4 <$> (REVERSE32 <$> state c)).

Definition WL_SHA256_Data (data : bytes) : option bytes :=
  c ← WL_SHA256_Update WL_SHA256_Init data; Some (WL_SHA256_Final c).

Definition hex_of (d : byte) : bytes :=
  [nth (Z.to_nat (Z.shiftr (Z.land (uchar d) 0xf0) 4)) hex_digits Byte.x00;
   nth (Z.to_nat (Z.land (uchar d) 0x0f)) hex_digits Byte.x00].

(** The characters before the terminating NUL. *)
Definition WL_SHA256_End (c : WL_SHA256_CTX) : bytes := concat (hex_of <$> WL_SHA256_Final c).

Definition WL_SHA256_DataHex (data : bytes) : option bytes :=
  c ← WL_SHA256_Update WL_SHA256_Init data; Some (WL_SHA256_End c).

(** ** HMAC *)

Definition HmacSha256PrepareKey (key : bytes) : option bytes :=
  if WL_SHA256_DIGEST_LENGTH <? zlen key then WL_SHA256_Data key else Some key.

Definition xor_bytes (x y : byte) : byte := to_byte (Z.lxor (uchar x) (uchar y)).

(** The pad of one byte, with the key over its front. *)
Definition pad_with (c : Z) (key : bytes) : bytes :=
  zip_with xor_bytes (replicate (length key) (to_byte c)) key ++
  replicate (Z.to_nat WL_SHA256_BLOCK_LENGTH - length key) (to_byte c).

(** A key of more than a block would be written past the end of the pads. *)
Definition HmacSha256WithPreparedKey (key_to_use data : bytes) : option bytes :=
  CHECK (zlen key_to_use <=? WL_SHA256_BLOCK_LENGTH);;
  c ← WL_SHA256_Update WL_SHA256_Init (pad_with 0x36 key_to_use);
  c ← WL_SHA256_Update c data;
  let ipad_digest := WL_SHA256_Final c in
  c ← WL_SHA256_Update WL_SHA256_Init (pad_with 0x5c key_to_use);
  c ← WL_SHA256_Update c ipad_digest;
  Some (WL_SHA256_Final c).

Definition HmacSha256 (key data : bytes) : option bytes :=
  key_to_use ← HmacSha256PrepareKey key; HmacSha256WithPreparedKey key_to_use data.

End Sha256.
