(* ===== verification/Sha256Props.v ===== *)
(** * Sha256Props: the digest of [sha256.cc] is SHA-256 *)

From Stdlib Require Import Btauto.
From S2P Require Import Prelude.
From S2P Require Import Words.
From S2P Require Import Fips180.
From S2P Require Import Sha256.

Module Sha256Props.
Import Words Fips Sha256.

(** ** Words *)

Lemma S32_rotr n x : 0 < n < 32 -> word x -> S32 n x = rotr n x.
Proof. apply lor_rotr. Qed.

Lemma Ch_choose x y z : word z -> Ch x y z = choose x y z.
Proof.
  intros Hz. apply Z.bits_inj'. intros i Hi. unfold Ch, choose.
  rewrite Z.lxor_spec, Z.lor_spec, !Z.land_spec, Z.ldiff_spec, testbit_wrapU, Z.lnot_spec by lia.
  destruct (Z.ltb_spec i 32); [simpl; btauto|]. rewrite (testbit_mask_high z 32) by (unfold word in Hz; lia). btauto.
Qed.

Lemma Maj_most x y z : Maj x y z = most x y z.
Proof.
  apply Z.bits_inj'. intros i Hi. unfold Maj, most. rewrite !Z.lxor_spec, !Z.lor_spec, !Z.land_spec, Z.lor_spec. btauto.
Qed.

Lemma Sigma0_Sum0 x : word x -> Sigma0_256 x = Sum0 x.
Proof. intros. unfold Sigma0_256, Sum0, parity. by rewrite !S32_rotr, Z.lxor_assoc by (done || lia). Qed.
Lemma Sigma1_Sum1 x : word x -> Sigma1_256 x = Sum1 x.
Proof. intros. unfold Sigma1_256, Sum1, parity. by rewrite !S32_rotr, Z.lxor_assoc by (done || lia). Qed.
Lemma sigma0_sum0 x : word x -> sigma0_256 x = sum0 x.
Proof.
  intros. unfold sigma0_256, sum0, parity, R, shr. by rewrite !S32_rotr, Z.lxor_assoc, Z.shiftr_div_pow2 by (done || lia).
Qed.
Lemma sigma1_sum1 x : word x -> sigma1_256 x = sum1 x.
Proof.
  intros. unfold sigma1_256, sum1, parity, R, shr. by rewrite !S32_rotr, Z.lxor_assoc, Z.shiftr_div_pow2 by (done || lia).
Qed.

(** The constants are those of the standard. *)
Lemma K256_primes : K256 = K_256.
Proof. vm_compute. reflexivity. Qed.

Lemma initial_primes : initial_hash_value = H_256.
Proof. vm_compute. reflexivity. Qed.

Lemma K256_length : length K256 = 64%nat.
Proof. vm_compute. reflexivity. Qed.

Definition is_word (x : Z) : bool := (0 <=? x) && (x <? 2 ^ 32).

Lemma initial_length : length H_256 = 8%nat.
Proof. vm_compute. reflexivity. Qed.

Lemma initial_words : Forall word H_256.
Proof.
  assert (Hb : forallb is_word H_256 = true) by (vm_compute; reflexivity).
  rewrite forallb_forall in Hb. apply List.Forall_forall. intros x Hx. specialize (Hb x Hx).
  unfold is_word in Hb. bool_prop. done.
Qed.

#[local] Opaque K256 initial_hash_value K_256 H_256.

(** ** Rounds *)

Definition words_regs (r : Regs) : Prop := Forall word (regs_list r).

Lemma apply_round_spec k w r : words_regs r ->
  regs_list (apply_round k w r) = round_256 (regs_list r) (k, w) /\ words_regs (apply_round k w r).
Proof.
  destruct r as [a b c d e f g h]. unfold words_regs, regs_list. simpl. intros Hr.
  repeat match goal with H : Forall word (_ :: _) |- _ => inversion H; clear H; subst end.
  split.
  - unfold apply_round, round_256, add32, wrapU. simpl. by rewrite Sigma1_Sum1, Sigma0_Sum0, Ch_choose, Maj_most by done.
  - repeat (apply List.Forall_cons; [first [done | apply word_uint32]|]). apply List.Forall_nil.
Qed.

(** ** The schedule *)

Lemma schedule_256 ws0 t : length ws0 = 16%nat -> (16 <= t < 64)%nat ->
  let ws := schedule next_256 48 ws0 in
  nth t ws 0 = uint32 (sum1 (nth (t - 2) ws 0) + nth (t - 7) ws 0 + sum0 (nth (t - 15) ws 0) + nth (t - 16) ws 0).
Proof.
  intros H0 Ht ws. destruct (schedule_app next_256 48 ws0) as (l & Hl & Hn). fold ws in Hl.
  assert (Hlen : length ws = 64%nat) by (rewrite Hl, length_app; lia).
  assert (Hnext : nth t ws 0 = next_256 (take t ws)) by (apply schedule_nth; lia).
  clearbody ws. rewrite Hnext. unfold next_256, wrapU. rewrite !back_take by lia. reflexivity.
Qed.

Lemma schedule_words ws0 : length ws0 = 16%nat -> Forall word ws0 -> Forall word (schedule next_256 48 ws0).
Proof.
  intros H0 Hw. assert (Hg : forall n ws, Forall word ws -> Forall word (schedule next_256 n ws)).
  { induction n as [|n IH]; intros ws Hws; simpl; [done|]. apply IH, Forall_app. split; [done|].
    apply List.Forall_cons; [apply word_mod|]. apply List.Forall_nil. }
  by apply Hg.
Qed.

(** ** The window *)

(** The rounds before round [n], with the words of the schedule. *)
Definition rounds (ws : list Z) (r : Regs) (n : nat) : Regs :=
  foldl (fun r j => apply_round (nth j K256 0) (nth j ws 0) r) r (seq 0 n).

Lemma rounds_S ws r n : rounds ws r (S n) = apply_round (nth n K256 0) (nth n ws 0) (rounds ws r n).
Proof. unfold rounds. by rewrite seq_S, foldl_app. Qed.

Lemma first_rounds ws data r W n : (n <= 16)%nat -> length W = 16%nat -> length data = 16%nat ->
  (forall j, (j < 16)%nat -> REVERSE32 (nth j data 0) = nth j ws 0) -> exists W',
  foldl (first_round data) (r, W) (seq 0 n) = (rounds ws r n, W') /\ length W' = 16%nat /\
  forall j, (j < n)%nat -> nth j W' 0 = nth j ws 0.
Proof.
  intros Hn HW Hd Hws. induction n as [|n IH]; [by exists W; split_and!; [done..|lia]|].
  destruct IH as (W' & Hf & HW' & Hj); [lia|]. rewrite seq_S, foldl_app, Hf, rounds_S. simpl.
  exists (<[n := REVERSE32 (nth n data 0)]> W'). rewrite Hws by lia. rewrite nth_insert_eq by lia.
  split; [done|]. split; [by rewrite length_insert|].
  intros j Hjn. destruct (decide (j = n)) as [->|]; [by rewrite nth_insert_eq by lia|].
  rewrite nth_insert_ne by done. apply Hj. lia.
Qed.

Lemma later_round_spec ws0 r W j : length ws0 = 16%nat -> Forall word ws0 -> (16 <= j < 64)%nat ->
  let ws := schedule next_256 48 ws0 in window ws W j ->
  later_round (rounds ws r j, W) j = (rounds ws r (S j), <[(j mod 16)%nat := nth j ws 0]> W).
Proof.
  intros H0 Hw Hj ws [Hl HW]. unfold later_round.
  assert (Hat : forall k, (j <= k < j + 16)%nat -> at16 (Z.of_nat k) W = nth (k - 16) ws 0).
  { intros k Hk. rewrite at16_mod, Nat2Z.id by lia. rewrite <- HW by lia. f_equal.
    replace k with (k - 16 + 1 * 16)%nat at 1 by lia. by rewrite Nat.Div0.mod_add. }
  replace (Z.of_nat j + 1) with (Z.of_nat (j + 1)) by lia. replace (Z.of_nat j + 14) with (Z.of_nat (j + 14)) by lia.
  replace (Z.of_nat j + 9) with (Z.of_nat (j + 9)) by lia. rewrite !Hat by lia.
  rewrite index16, Nat2Z.id by lia.
  pose proof (schedule_words ws0 H0 Hw) as Hws. fold ws in Hws.
  rewrite sigma0_sum0, sigma1_sum1 by by apply word_nth.
  assert (Hn : uint32 (nth (j - 16) ws 0 + (sum1 (nth (j + 14 - 16) ws 0) + nth (j + 9 - 16) ws 0 + sum0 (nth (j + 1 - 16) ws 0))) = nth j ws 0).
  { unfold ws at 5. rewrite (schedule_256 ws0 j) by lia. fold ws.
    replace (j + 14 - 16)%nat with (j - 2)%nat by lia. replace (j + 9 - 16)%nat with (j - 7)%nat by lia.
    replace (j + 1 - 16)%nat with (j - 15)%nat by lia. f_equal. lia. }
  by rewrite Hn, rounds_S.
Qed.

Lemma later_rounds ws0 r W n : length ws0 = 16%nat -> Forall word ws0 -> (n <= 48)%nat ->
  let ws := schedule next_256 48 ws0 in window ws W 16 -> exists W',
  foldl later_round (rounds ws r 16, W) (seq 16 n) = (rounds ws r (16 + n), W') /\ window ws W' (16 + n).
Proof.
  intros H0 Hw Hn ws HW. induction n as [|n IH]; [by exists W|].
  destruct IH as (W' & Hf & HW'); [lia|]. rewrite seq_S, foldl_app, Hf.
  change (foldl later_round ?a [?x]) with (later_round a x).
  pose proof (later_round_spec ws0 r W' (16 + n) H0 Hw) as Hl. cbv zeta in Hl. fold ws in Hl. rewrite Hl by (done || lia).
  eexists. rewrite Nat.add_succ_r. split; [done|]. by apply window_insert.
Qed.

(** ** The transformation *)

Lemma words_regs_rounds ws r n : words_regs r -> words_regs (rounds ws r n).
Proof. intros Hr. induction n as [|n IH]; [done|]. rewrite rounds_S. by apply apply_round_spec. Qed.

Lemma rounds_compress ws r n : words_regs r -> length ws = 64%nat -> (n <= 64)%nat ->
  regs_list (rounds ws r n) = foldl round_256 (regs_list r) (take n (zip K256 ws)).
Proof.
  intros Hr Hws Hn. induction n as [|n IH]; [done|].
  assert (Hz : zip K256 ws !! n = Some (nth n K256 0, nth n ws 0)).
  { apply lookup_zip_with_Some. exists (nth n K256 0), (nth n ws 0). split; [done|].
    pose proof K256_length as HK.
    split; [destruct (nth_lookup_or_length K256 n 0)|destruct (nth_lookup_or_length ws n 0)]; done || lia. }
  rewrite rounds_S, (take_S_r _ _ _ Hz), foldl_app, <- IH by lia.
  by apply apply_round_spec, words_regs_rounds.
Qed.

Lemma regs_load s : length s = 8%nat -> regs_list (load_regs s) = s.
Proof. intros Hs. do 8 (destruct s as [|? s]; [done|]). by destruct s. Qed.

Lemma length_store W : length (concat (le_bytes 4 <$> W)) = (4 * length W)%nat.
Proof.
  induction W as [|w W IH]; [done|]. rewrite fmap_cons. cbn [concat]. rewrite length_app, length_le_bytes, IH. simpl. lia.
Qed.

(** The chaining words of a context and the sizes of its arrays. *)
Definition well_formed (c : WL_SHA256_CTX) : Prop :=
  length (state c) = 8%nat /\ Forall word (state c) /\ length (buffer c) = 64%nat.

Lemma WL_SHA256_Transform_spec c data : well_formed c -> length data = 64%nat ->
  let c' := WL_SHA256_Transform c data in
  state c' = compress_256 (state c) data /\ bitcount c' = bitcount c /\ well_formed c'.
Proof.
  intros (Hs & Hw & Hb) Hd. unfold WL_SHA256_Transform.
  set (ws0 := be_num <$> words_of data). set (ws := schedule next_256 48 ws0).
  assert (H0 : length ws0 = 16%nat) by (unfold ws0; rewrite length_fmap; by apply words_of_length).
  assert (Hw0 : Forall word ws0) by apply words_of_be.
  destruct (schedule_app next_256 48 ws0) as (l & Hl & Hn). fold ws in Hl.
  destruct (first_rounds ws (le_num <$> words_of data) (load_regs (state c)) (le_num <$> words_of (buffer c)) 16)
    as (W1 & -> & HW1 & Hfirst); [done|rewrite length_fmap; by apply words_of_length..| |].
  { intros j Hj. rewrite Hl, app_nth1 by lia. unfold ws0. rewrite <- reversed_words, !nth_lookup, !list_lookup_fmap.
    destruct (lookup_lt_is_Some_2 (words_of data) j) as [w ->]; [|done]. rewrite (words_of_length 16); done || lia. }
  destruct (later_rounds ws0 (load_regs (state c)) W1 48 H0 Hw0) as (W2 & Hf & HW2 & _); [done| |].
  { split; [done|]. intros t Ht1 Ht2. rewrite Nat.mod_small by lia. by apply Hfirst. }
  cbv zeta in Hf. fold ws in Hf. rewrite Hf.
  assert (Hr : words_regs (load_regs (state c))) by (unfold words_regs; by rewrite regs_load).
  assert (Hlen : length ws = 64%nat) by (rewrite Hl, length_app; lia).
  assert (Hstate : zip_with (fun s v => uint32 (s + v)) (state c) (regs_list (rounds ws (load_regs (state c)) 64)) =
                   compress_256 (state c) data).
  { rewrite rounds_compress by done. rewrite regs_load by done. rewrite take_ge by (rewrite length_zip_with, K256_length; lia).
    unfold compress_256. fold ws0. fold ws. by rewrite <- K256_primes. }
  change (16 + 48)%nat with 64%nat. unfold well_formed. cbn [state bitcount buffer]. rewrite Hstate. split_and!; [done..| | |].
  - rewrite <- Hstate, length_zip_with, Hs. done.
  - apply words_zip.
  - rewrite length_store, HW2. done.
Qed.

#[local] Opaque WL_SHA256_Transform compress_256.

(** ** Data in pieces *)

(** The context after the bytes of [m], of which the last [p] are in the buffer. *)
Definition holds_parts (c : WL_SHA256_CTX) (a p : bytes) : Prop :=
  well_formed c /\ (length a mod 64 = 0)%nat /\ (length p < 64)%nat /\
  state c = foldl compress_256 H_256 (full_blocks a) /\ bitcount c = 8 * zlen (a ++ p) /\
  take (length p) (buffer c) = p.

Definition holds (c : WL_SHA256_CTX) (m : bytes) : Prop := exists a p, m = a ++ p /\ holds_parts c a p.

(** Messages of less than 2 ^ 61 bytes: the count of the bits does not wrap. *)
Definition fits (m : bytes) : Prop := 8 * zlen m < 2 ^ 64.

Lemma fits_app m n : fits (m ++ n) -> fits m /\ fits n.
Proof. unfold fits. rewrite zlen_app. pose proof (zlen_nonneg m). pose proof (zlen_nonneg n). lia. Qed.

Lemma holds_init : holds WL_SHA256_Init [].
Proof.
  exists [], []. split; [done|]. unfold holds_parts, well_formed, WL_SHA256_Init. cbn [state bitcount buffer].
  rewrite initial_primes. split_and!; first [done | apply initial_length | apply initial_words | simpl; lia].
Qed.

Lemma usedspace_parts c a p : holds_parts c a p -> usedspace c = zlen p.
Proof.
  intros (_ & Ha & Hp & _ & Hbits & _). unfold usedspace. rewrite Hbits, Z.shiftr_div_pow2 by lia.
  change (2 ^ 3) with 8. rewrite (Z.mul_comm 8), Z.div_mul, zlen_app by lia. change WL_SHA256_BLOCK_LENGTH with 64.
  pose proof (Nat.div_mod_eq (length a) 64) as Hd. unfold zlen.
  replace (Z.of_nat (length a) + Z.of_nat (length p)) with (Z.of_nat (length p) + Z.of_nat (length a / 64) * 64) by lia.
  rewrite Z_mod_plus_full, Z.mod_small by lia. apply wrapU_small. lia.
Qed.

Lemma well_formed_add_bits n c : well_formed c -> well_formed (add_bits n c).
Proof. done. Qed.

(** One more block. *)
Lemma Transform_block c a blk : well_formed c -> (length a mod 64 = 0)%nat -> length blk = 64%nat ->
  state c = foldl compress_256 H_256 (full_blocks a) -> fits (a ++ blk) -> bitcount c + 512 = 8 * zlen (a ++ blk) ->
  holds_parts (add_bits 512 (WL_SHA256_Transform c blk)) (a ++ blk) [].
Proof.
  intros Hc Ha Hb Hs Hf Hbits. pose proof (WL_SHA256_Transform_spec c blk Hc Hb) as Ht. cbv zeta in Ht. revert Ht.
  generalize (WL_SHA256_Transform c blk). intros c' (Hst & Hbc & Hwf).
  unfold holds_parts. rewrite app_nil_r. split_and!.
  - by apply well_formed_add_bits.
  - by rewrite length_app, Hb, <- Nat.Div0.add_mod_idemp_l, Ha.
  - simpl. lia.
  - unfold add_bits. cbn [state]. by rewrite Hst, Hs, full_blocks_app, (full_blocks_one blk), foldl_app by done.
  - unfold add_bits. cbn [bitcount]. rewrite Hbc, Hbits. apply wrapU_small. unfold fits in Hf. pose proof (zlen_nonneg (a ++ blk)). lia.
  - done.
Qed.

Lemma Update_rest_spec c a data : holds_parts c a [] -> fits (a ++ data) ->
  exists c', Update_rest c data = Some c' /\ holds c' (a ++ data).
Proof.
  intros Hc Hf. unfold Update_rest.
  destruct (loop_total Update_step
    (fun '(c, d) => exists a', holds_parts c a' [] /\ a ++ data = a' ++ d)
    (fun '(c, d) => exists a', holds_parts c a' [] /\ a ++ data = a' ++ d /\ zlen d < 64)
    (fun '(_, d) => length d)) with (fuel := S (length data)) (s := (c, data)) as ([c1 d] & -> & a' & Hc1 & Hd & Hlt).
  - intros [c1 d] (a' & Hc1 & Hd). unfold Update_step. change WL_SHA256_BLOCK_LENGTH with 64.
    destruct (Z.leb_spec 64 (zlen d)) as [Hge|Hlt]; (eexists; split; [done|]); [|by exists a'].
    split; [|unfold dropZ; rewrite length_drop; unfold zlen in *; lia].
    exists (a' ++ takeZ 64 d). rewrite <- app_assoc, takeZ_dropZ. split; [|done].
    destruct Hc1 as (Hwf & Ha & _ & Hs & Hbits & _). change (Z.shiftl 64 3) with 512.
    assert (Hl : zlen (takeZ 64 d) = 64) by (rewrite zlen_takeZ by lia; lia).
    apply Transform_block; try done.
    + unfold zlen in Hl. lia.
    + rewrite Hd, <- (takeZ_dropZ 64 d), app_assoc in Hf. by apply fits_app in Hf as [? _].
    + rewrite Hbits, app_nil_r, zlen_app. lia.
  - by exists a.
  - lia.
  - simpl. eexists. split; [done|]. rewrite Hd. exists a', d. split; [done|].
    destruct Hc1 as (Hwf & Ha & _ & Hs & Hbits & _). rewrite app_nil_r in Hbits.
    destruct (Z.ltb_spec 0 (zlen d)) as [Hpos|Hz].
    + destruct Hwf as (H8 & Hw & Hb). rewrite Hd in Hf. unfold fits in Hf. rewrite zlen_app in Hf.
      pose proof (zlen_nonneg a'). unfold holds_parts, well_formed. cbn [add_bits set_buffer state bitcount buffer].
      rewrite Z.shiftl_mul_pow2, (wrapU_small 64 (zlen d * _)), wrapU_small, put_length, zlen_app
        by (unfold zlen in *; change (2 ^ 3) with 8; lia).
      split_and!; try done; [unfold zlen in *; lia|rewrite Hbits; change (2 ^ 3) with 8; lia|].
      unfold put. rewrite takeZ_0. simpl. by rewrite take_app_length.
    + assert (d = []) as -> by (destruct d; [done|unfold zlen in *; simpl in *; lia]).
      unfold holds_parts. rewrite app_nil_r. split_and!; first [done | simpl; lia].
Qed.

Lemma WL_SHA256_Update_spec c m data : holds c m -> fits (m ++ data) ->
  exists c', WL_SHA256_Update c data = Some c' /\ holds c' (m ++ data).
Proof.
  intros (a & p & -> & Hc) Hf. unfold WL_SHA256_Update.
  destruct (Z.eqb_spec (zlen data) 0) as [Hz|Hnz].
  { assert (data = []) as -> by (destruct data; [done|unfold zlen in *; simpl in *; lia]).
    exists c. split; [done|]. exists a, p. by rewrite app_nil_r. }
  rewrite (usedspace_parts c a p Hc). change WL_SHA256_BLOCK_LENGTH with 64.
  destruct (Z.ltb_spec 0 (zlen p)) as [Hp|Hp].
  2:{ assert (p = []) as -> by (destruct p; [done|unfold zlen in *; simpl in *; lia]).
      rewrite app_nil_r in *. by apply Update_rest_spec. }
  pose proof Hc as (Hwf & Ha & Hlt & Hs & Hbits & Hbuf). destruct Hwf as (H8 & Hw & Hb).
  assert (Htake : takeZ (zlen p) (buffer c) = p) by (unfold takeZ, zlen; by rewrite Nat2Z.id).
  destruct (Z.leb_spec (64 - zlen p) (zlen data)) as [Hge|Hsmall].
  - set (d1 := takeZ (64 - zlen p) data).
    assert (Hd1 : zlen d1 = 64 - zlen p) by (unfold d1; rewrite zlen_takeZ by (unfold zlen in *; lia); lia).
    rewrite (put_after _ _ _ p) by (done || (unfold zlen in *; lia)).
    assert (Hf1 : fits ((a ++ p) ++ d1)).
    { rewrite <- (takeZ_dropZ (64 - zlen p) data), (app_assoc _ (takeZ _ _)) in Hf. by apply fits_app in Hf as [? _]. }
    assert (Hblk : length (p ++ d1) = 64%nat) by (rewrite length_app; unfold zlen in *; lia).
    destruct (Update_rest_spec (WL_SHA256_Transform (add_bits (Z.shiftl (64 - zlen p) 3) (set_buffer (p ++ d1) c))
        (buffer (add_bits (Z.shiftl (64 - zlen p) 3) (set_buffer (p ++ d1) c)))) (a ++ p ++ d1) (dropZ (64 - zlen p) data))
      as (c' & Hu & Hh).
    + cbn [add_bits set_buffer buffer].
      destruct (WL_SHA256_Transform_spec (add_bits (Z.shiftl (64 - zlen p) 3) (set_buffer (p ++ d1) c)) (p ++ d1))
        as (Hst & Hbc & Hwf'); [done|done|]. cbn [add_bits set_buffer state bitcount] in Hst, Hbc.
      unfold holds_parts. rewrite app_nil_r. split_and!; [done| |simpl; lia| | |done].
      * by rewrite length_app, Hblk, <- Nat.Div0.add_mod_idemp_l, Ha.
      * by rewrite Hst, Hs, full_blocks_app, (full_blocks_one (p ++ d1)), foldl_app by done.
      * rewrite Hbc, Hbits, Z.shiftl_mul_pow2, !zlen_app by lia. unfold fits in Hf1. rewrite !zlen_app in Hf1.
        pose proof (zlen_nonneg a). change (2 ^ 3) with 8. rewrite wrapU_small by (unfold zlen in *; lia). lia.
    + replace ((a ++ p ++ d1) ++ dropZ (64 - zlen p) data) with ((a ++ p) ++ data); [done|].
      unfold d1. rewrite <- !app_assoc. by rewrite takeZ_dropZ.
    + exists c'. split; [exact Hu|]. replace ((a ++ p) ++ data) with ((a ++ p ++ d1) ++ dropZ (64 - zlen p) data); [done|].
      unfold d1. rewrite <- !app_assoc. by rewrite takeZ_dropZ.
  - eexists. split; [done|]. rewrite <- app_assoc. exists a, (p ++ data). split; [done|].
    unfold fits in Hf. rewrite <- app_assoc, zlen_app in Hf. pose proof (zlen_nonneg a). pose proof (zlen_nonneg data).
    unfold holds_parts, well_formed. cbn [add_bits set_buffer state bitcount buffer]. rewrite zlen_app in Hf.
    rewrite Z.shiftl_mul_pow2, (wrapU_small 64 (zlen data * _)), wrapU_small, put_length
      by (rewrite ?Hbits, ?zlen_app; unfold zlen in *; change (2 ^ 3) with 8; lia).
    split_and!; try done.
    + rewrite length_app. unfold zlen in *. lia.
    + rewrite Hbits, !zlen_app. change (2 ^ 3) with 8. lia.
    + unfold put. rewrite Htake, app_assoc. by rewrite take_app_length.
Qed.

(** ** The padding and the digest *)

(** The block, or the two blocks, that the padding makes of the bytes in the buffer. *)
Definition padded (c1 : WL_SHA256_CTX) (c : WL_SHA256_CTX) (a p : bytes) : Prop :=
  exists extra last56, well_formed c1 /\ bitcount c1 = bitcount c /\
    state c1 = foldl compress_256 H_256 (full_blocks a ++ extra) /\ takeZ 56 (buffer c1) = last56 /\ zlen last56 = 56 /\
    full_blocks (p ++ padding (zlen (a ++ p))) = extra ++ [last56 ++ be_bytes 8 (8 * zlen (a ++ p))].

Lemma Final_pad_short c a p : holds_parts c a p -> zlen p <= 55 -> padded (Final_pad c) c a p.
Proof.
  intros Hc Hu. pose proof Hc as ((H8 & Hw & Hb) & Ha & Hlt & Hs & Hbits & Hbuf).
  exists [], (p ++ Byte.x80 :: zeros (55 - zlen p)). rewrite app_nil_r.
  assert (Hpad : full_blocks (p ++ padding (zlen (a ++ p))) = [(p ++ Byte.x80 :: zeros (55 - zlen p)) ++ be_bytes 8 (8 * zlen (a ++ p))]).
  { rewrite (padding_eq _ (zlen p)) by by apply zlen_mod_parts. destruct (Z.leb_spec (zlen p) 55); [|lia].
    rewrite replicate_zeros, <- app_assoc. apply full_blocks_one.
    rewrite length_app. cbn [length app]. rewrite length_app, length_be_bytes.
    pose proof (zlen_zeros (55 - zlen p)). unfold zlen in *. lia. }
  assert (Htake : takeZ (zlen p) (buffer c) = p) by (unfold takeZ, zlen; by rewrite Nat2Z.id).
  assert (Hl : zlen (p ++ Byte.x80 :: zeros (55 - zlen p)) = 56) by (rewrite zlen_app, zlen_cons, zlen_zeros by lia; lia).
  assert (Hzb : zlen (buffer c) = 64) by (unfold zlen; by rewrite Hb).
  unfold Final_pad. rewrite (usedspace_parts c a p Hc).
  change WL_SHA256_SHORT_BLOCK_LENGTH with 56. pose proof (zlen_nonneg p).
  destruct (Z.ltb_spec 0 (zlen p)) as [Hpos|Hz].
  - destruct (Z.leb_spec (zlen p + 1) 56); [|lia].
    assert (Hz1 : length (put (zlen p) [Byte.x80] (buffer c)) = 64%nat) by (apply put_ok; [done|lia|rewrite zlen_cons, zlen_nil; lia]).
    unfold well_formed. cbn [set_buffer state bitcount buffer]. split_and!; try done.
    + apply put_ok; [done|lia|rewrite zlen_zeros; lia].
    + pose proof (put_take (zlen p) [Byte.x80] (buffer c) p Htake) as Hb1.
      pose proof (put_take (zlen p + 1) (zeros (56 - (zlen p + 1))) (put (zlen p) [Byte.x80] (buffer c)) (p ++ [Byte.x80])) as Hb2.
      rewrite zlen_zeros in Hb2 by lia. replace (zlen p + 1 + (56 - (zlen p + 1))) with 56 in Hb2 by lia.
      rewrite Hb2; [rewrite <- app_assoc; simpl; do 3 f_equal; lia|apply Hb1; lia|unfold zlen in *; lia].
  - assert (p = []) as -> by (destruct p; [done|unfold zlen in *; simpl in *; lia]).
    unfold well_formed. cbn [set_buffer state bitcount buffer]. split_and!; try done.
    apply put_ok; [apply put_ok; [done|lia|by vm_compute]|lia|by vm_compute].
Qed.

Lemma Final_pad_long c a p : holds_parts c a p -> 55 < zlen p -> padded (Final_pad c) c a p.
Proof.
  intros Hc Hu. pose proof Hc as ((H8 & Hw & Hb) & Ha & Hlt & Hs & Hbits & Hbuf).
  set (blk := p ++ Byte.x80 :: zeros (63 - zlen p)). exists [blk], (zeros 56).
  assert (Hp : zlen p < 64) by (unfold zlen; lia). pose proof (zlen_nonneg p).
  assert (Hblk : length blk = 64%nat).
  { apply Nat2Z.inj. change (zlen blk = 64). unfold blk. rewrite zlen_app, zlen_cons, zlen_zeros by lia. lia. }
  assert (Hpad : full_blocks (p ++ padding (zlen (a ++ p))) = [blk; zeros 56 ++ be_bytes 8 (8 * zlen (a ++ p))]).
  { rewrite (padding_eq _ (zlen p)) by by apply zlen_mod_parts. destruct (Z.leb_spec (zlen p) 55); [lia|].
    rewrite replicate_zeros. replace (zeros (119 - zlen p)) with (zeros (63 - zlen p) ++ zeros 56)
      by (unfold zeros; rewrite <- replicate_add; f_equal; lia).
    replace (p ++ Byte.x80 :: (zeros (63 - zlen p) ++ zeros 56) ++ be_bytes 8 (8 * zlen (a ++ p)))
      with (blk ++ zeros 56 ++ be_bytes 8 (8 * zlen (a ++ p))) by (unfold blk; rewrite <- !app_assoc; simpl; by rewrite <- ?app_assoc).
    rewrite full_blocks_app by (by rewrite Hblk). rewrite (full_blocks_one blk) by done. done. }
  assert (Htake : takeZ (zlen p) (buffer c) = p) by (unfold takeZ, zlen; by rewrite Nat2Z.id).
  assert (Hzb : zlen (buffer c) = 64) by (unfold zlen; by rewrite Hb).
  unfold Final_pad. rewrite (usedspace_parts c a p Hc).
  change WL_SHA256_SHORT_BLOCK_LENGTH with 56. change WL_SHA256_BLOCK_LENGTH with 64.
  destruct (Z.ltb_spec 0 (zlen p)) as [Hpos|]; [|lia]. destruct (Z.leb_spec (zlen p + 1) 56); [lia|].
  assert (Hb1 : (if zlen p + 1 <? 64 then put (zlen p + 1) (zeros (64 - (zlen p + 1))) (put (zlen p) [Byte.x80] (buffer c))
                 else put (zlen p) [Byte.x80] (buffer c)) = blk).
  { destruct (Z.ltb_spec (zlen p + 1) 64).
    - rewrite (put_after _ _ _ (p ++ [Byte.x80])).
      + unfold blk. rewrite <- app_assoc. simpl. do 3 f_equal. lia.
      + apply (put_take (zlen p) [Byte.x80]); [done|lia].
      + rewrite zlen_zeros by lia. unfold zlen in *. rewrite put_length; unfold zlen in *; simpl; lia.
    - rewrite (put_after _ _ _ p) by (done || (rewrite zlen_cons, zlen_nil; lia)). unfold blk.
      by replace (63 - zlen p) with 0 by lia. }
  rewrite Hb1. pose proof (WL_SHA256_Transform_spec (set_buffer blk c) blk) as Ht. cbv zeta in Ht.
  cbn [set_buffer state bitcount] in Ht. revert Ht. generalize (WL_SHA256_Transform (set_buffer blk c) blk).
  intros c1 Ht. destruct Ht as (Hst & Hbc & H8' & Hw' & Hb'); [done|done|].
  unfold well_formed. cbn [set_buffer state bitcount buffer]. split_and!; try done.
  - apply put_ok; [done|lia|by vm_compute].
  - by rewrite Hst, Hs, foldl_app.
Qed.

Lemma reversed_state s : Forall word s -> concat (le_bytes 4 <$> (REVERSE32 <$> s)) = concat (be_bytes 4 <$> s).
Proof.
  induction 1 as [|x s Hx _ IH]; [done|]. rewrite !fmap_cons. cbn [concat]. by rewrite IH, le_bytes_REVERSE32.
Qed.

Lemma WL_SHA256_Final_spec c m : holds c m -> fits m -> WL_SHA256_Final c = sha256 m.
Proof.
  intros (a & p & -> & Hc) Hf.
  assert (Hpad : padded (Final_pad c) c a p).
  { destruct (Z.leb_spec (zlen p) 55); [by apply Final_pad_short|by apply Final_pad_long]. }
  destruct Hpad as (extra & last56 & (H8 & Hw & Hb) & _ & Hst & Hlast & H56 & Hblocks).
  pose proof Hc as (_ & Ha & _ & _ & Hbits & _). unfold WL_SHA256_Final. revert H8 Hw Hb Hst Hlast.
  generalize (Final_pad c). intros c1 H8 Hw Hb Hst Hlast. change WL_SHA256_SHORT_BLOCK_LENGTH with 56.
  assert (Hput : put 56 (le_bytes 8 (REVERSE64 (bitcount c))) (buffer c1) = last56 ++ be_bytes 8 (8 * zlen (a ++ p))).
  { rewrite (put_after _ _ _ last56) by (done || (unfold zlen; rewrite length_le_bytes, Hb; done)).
    rewrite le_bytes_REVERSE64, Hbits; [done|]. rewrite Hbits. unfold fits in Hf. pose proof (zlen_nonneg (a ++ p)). lia. }
  cbn [set_buffer buffer]. rewrite Hput. set (blk := last56 ++ be_bytes 8 (8 * zlen (a ++ p))) in *.
  assert (Hblk : length blk = 64%nat) by (unfold blk; rewrite length_app, length_be_bytes; unfold zlen in H56; lia).
  pose proof (WL_SHA256_Transform_spec (set_buffer blk c1) blk) as Ht. cbv zeta in Ht.
  cbn [set_buffer state bitcount] in Ht. cbn [set_buffer buffer]. revert Ht.
  generalize (WL_SHA256_Transform (set_buffer blk c1) blk). intros c2 Ht.
  destruct Ht as (Hst2 & _ & _ & Hw2 & _); [done|done|].
  rewrite reversed_state, Hst2, Hst by done. unfold sha256, digest.
  by rewrite <- app_assoc, full_blocks_app, Hblocks, !foldl_app by done.
Qed.

(** ** Theorems *)

(** Data given in pieces. *)
Fixpoint update_all (c : WL_SHA256_CTX) (pieces : list bytes) : option WL_SHA256_CTX :=
  match pieces with
  | [] => Some c
  | p :: ps => c ← WL_SHA256_Update c p; update_all c ps
  end.

Lemma update_all_spec pieces c m : holds c m -> fits (m ++ concat pieces) ->
  exists c', update_all c pieces = Some c' /\ holds c' (m ++ concat pieces).
Proof.
  revert c m. induction pieces as [|p ps IH]; intros c m Hc Hf; cbn [update_all concat] in *.
  - exists c. by rewrite app_nil_r.
  - rewrite app_assoc in *. destruct (WL_SHA256_Update_spec c m p Hc) as (c1 & -> & Hc1); [by apply fits_app in Hf as [? _]|].
    simpl. by apply IH.
Qed.

Lemma digest_pieces pieces : fits (concat pieces) ->
  exists c, update_all WL_SHA256_Init pieces = Some c /\ WL_SHA256_Final c = sha256 (concat pieces).
Proof.
  intros Hf. destruct (update_all_spec pieces WL_SHA256_Init [] holds_init Hf) as (c & Hc & Hh).
  exists c. split; [done|]. by apply WL_SHA256_Final_spec.
Qed.

Lemma Data_digest data : fits data -> WL_SHA256_Data data = Some (sha256 data).
Proof.
  intros Hf. destruct (WL_SHA256_Update_spec _ _ data holds_init Hf) as (c & Hc & Hh).
  unfold WL_SHA256_Data. rewrite Hc. simpl. f_equal. by apply WL_SHA256_Final_spec.
Qed.

(** C35: the digest of data given in any pieces of less than 2 ^ 61 bytes together is that of
    FIPS 180-4, and no piece makes an update fail; so is the digest of [WL_SHA256_Data]. *)
Theorem sha256_pieces pieces : fits (concat pieces) ->
  (exists c, update_all WL_SHA256_Init pieces = Some c /\ WL_SHA256_Final c = sha256 (concat pieces)) /\
  WL_SHA256_Data (concat pieces) = Some (sha256 (concat pieces)).
Proof. intros Hf. split; [by apply digest_pieces|by apply Data_digest]. Qed.

Lemma length_sha256 m : length (sha256 m) = 32%nat.
Proof.
  unfold sha256, digest.
  assert (Hg : forall bs h, length h = 8%nat -> length (foldl compress_256 h bs) = 8%nat).
  { intros bs. induction bs as [|b bs IH]; intros h Hh; [done|]. simpl. apply IH.
    Transparent compress_256. unfold compress_256. rewrite length_zip_with, Hh, Nat.min_l; [done|].
    enough (Hl : forall kws v, length v = 8%nat -> length (foldl round_256 v kws) = 8%nat) by (rewrite Hl by done; done).
    intros kws. induction kws as [|kw kws IHk]; intros v Hv; [done|]. simpl. apply IHk.
    do 8 (destruct v as [|? v]; [done|]). by destruct v. }
  specialize (Hg (full_blocks (m ++ padding (zlen m))) H_256 initial_length).
  revert Hg. generalize (foldl compress_256 H_256 (full_blocks (m ++ padding (zlen m)))). intros l Hl.
  do 8 (destruct l as [|? l]; [done|]). by destruct l.
Qed.

Lemma xor_bytes_const c b : 0 <= c < 256 -> xor_bytes (to_byte c) b = xor_byte c b.
Proof.
  intros Hc. unfold xor_bytes, xor_byte. rewrite (Z.lxor_comm (uchar b)). do 2 f_equal. unfold uchar, to_byte.
  rewrite byte.unsigned_of_Z. by apply Z.mod_small.
Qed.

(** The pads of the code are those of the standard, for a key that fits a block. *)
Lemma pad_with_eq c key : 0 <= c < 256 -> zlen key <= 64 ->
  pad_with c key = xor_byte c <$> (key ++ replicate (64 - length key) Byte.x00).
Proof.
  intros Hc Hk. unfold pad_with. rewrite fmap_app. f_equal.
  - induction key as [|k key IH]; [done|]. rewrite zlen_cons in Hk. cbn [length replicate zip_with].
    by rewrite fmap_cons, IH, xor_bytes_const by lia.
  - by rewrite fmap_replicate.
Qed.

Lemma length_pad_with c key : zlen key <= 64 -> zlen (pad_with c key) = 64.
Proof.
  intros Hk. unfold pad_with, zlen in *. rewrite length_app, length_zip_with, !length_replicate.
  change (Z.to_nat WL_SHA256_BLOCK_LENGTH) with 64%nat. lia.
Qed.

#[local] Opaque sha256.

Lemma hmac_prepared key data : zlen key <= 64 -> fits (replicate 64 Byte.x00 ++ data) ->
  HmacSha256WithPreparedKey key data = Some (hmac sha256 key data).
Proof.
  intros Hk Hf. unfold fits in Hf. rewrite zlen_app in Hf. change (zlen (replicate 64 Byte.x00)) with 64 in Hf.
  unfold HmacSha256WithPreparedKey. rewrite CHECK_true by (apply Z.leb_le; done). cbn [mbind option_bind].
  assert (Hi : forall c d, 8 * (64 + zlen d) < 2 ^ 64 -> exists c1 c2, WL_SHA256_Update WL_SHA256_Init (pad_with c key) = Some c1 /\
    WL_SHA256_Update c1 d = Some c2 /\ WL_SHA256_Final c2 = sha256 (pad_with c key ++ d)).
  { intros c d Hd. pose proof (length_pad_with c key Hk). pose proof (zlen_nonneg data). 
    destruct (WL_SHA256_Update_spec _ _ (pad_with c key) holds_init) as (c1 & H1 & Hh1); [unfold fits; cbn [app]; lia|].
    assert (Hfd : fits (([] ++ pad_with c key) ++ d)) by (unfold fits; rewrite !zlen_app, zlen_nil; lia).
    destruct (WL_SHA256_Update_spec c1 _ d Hh1 Hfd) as (c2 & H2 & Hh2).
    exists c1, c2. split_and!; [done..|]. by apply (WL_SHA256_Final_spec c2). }
  destruct (Hi 0x36 data) as (c1 & c2 & -> & H2 & H3); [lia|]. cbn [mbind option_bind]. rewrite H2. cbn [mbind option_bind].
  rewrite H3. destruct (Hi 0x5c (sha256 (pad_with 0x36 key ++ data))) as (c3 & c4 & -> & H5 & H6).
  { unfold zlen. by rewrite length_sha256. }
  cbn [mbind option_bind]. rewrite H5. cbn [mbind option_bind]. rewrite H6. unfold hmac, hmac_key.
  destruct (Z.ltb_spec 64 (zlen key)); [lia|]. cbv zeta. rewrite !pad_with_eq by lia. reflexivity.
Qed.

Lemma hmac_digest_key key data : 64 < zlen key -> hmac sha256 (sha256 key) data = hmac sha256 key data.
Proof.
  intros Hk. unfold hmac, hmac_key.
  assert (Hl : zlen (sha256 key) = 32) by (unfold zlen; by rewrite length_sha256). rewrite Hl.
  destruct (Z.ltb_spec 64 (zlen key)); [done|lia].
Qed.

(** [HmacSha256] is the HMAC of RFC 2104 for keys of up to 32 bytes and of more than 64;
    a key in between, which the standard uses as it is, is replaced by its digest, and the
    result differs. *)
Theorem HmacSha256_keys :
  (forall key data, fits key -> fits (replicate 64 Byte.x00 ++ data) ->
     HmacSha256 key data = Some (hmac sha256 (if 32 <? zlen key then sha256 key else key) data) /\
     (zlen key <= 32 \/ 64 < zlen key -> HmacSha256 key data = Some (hmac sha256 key data))) /\
  HmacSha256 (replicate 33 Byte.x4b) [] <> Some (hmac sha256 (replicate 33 Byte.x4b) []).
Proof.
  split.
  - intros key data Hk Hd.
    assert (Hh : HmacSha256 key data = Some (hmac sha256 (if 32 <? zlen key then sha256 key else key) data)).
    { unfold HmacSha256, HmacSha256PrepareKey. change WL_SHA256_DIGEST_LENGTH with 32.
      destruct (Z.ltb_spec 32 (zlen key)) as [Hgt|Hle].
      - rewrite Data_digest by done. apply hmac_prepared; [|done]. unfold zlen. by rewrite length_sha256.
      - apply hmac_prepared; [lia|done]. }
    split; [done|]. intros Hkey. rewrite Hh. destruct (Z.ltb_spec 32 (zlen key)); [|done].
    rewrite hmac_digest_key; [done|lia].
  - apply (bool_decide_eq_false _). vm_compute. reflexivity.
Qed.

Lemma sha256_pieces_witness : fits (concat [bstr "a"; bstr "bc"]) /\
  (exists c, update_all WL_SHA256_Init [bstr "a"; bstr "bc"] = Some c /\ WL_SHA256_Final c = sha256 (bstr "abc")) /\
  WL_SHA256_Data (bstr "abc") = Some (sha256 (bstr "abc")).
Proof.
  assert (Hf : fits (concat [bstr "a"; bstr "bc"])) by (vm_compute; reflexivity).
  split; [exact Hf|]. exact (sha256_pieces [bstr "a"; bstr "bc"] Hf).
Defined.

End Sha256Props.
