(* ===== verification/Sha1.v ===== *)
(** * Sha1: [io/util/sha1.h], [io/util/sha1.cc]

    SHA-1 as it is computed: the state, the count of the bits in two words and the block
    under way; the transformation over a window of 16 words; HMAC.  The machine is
    little-endian.  An access past the end of the context's buffer or of the data given is
    [None]. *)

From S2P Require Import Prelude.
From S2P Require Import Words.

Module Sha1.
Import Words.

Definition rol (value bits : Z) : Z := Z.lor (uint32 (Z.shiftl value bits)) (Z.shiftr value (32 - bits)).

(** [count] is split in [count[0]] and [count[1]]. *)
Record SHA1_CTX := mkCTX { state : list Z; count0 : Z; count1 : Z; buffer : bytes }.

Definition set_count (c0 c1 : Z) (c : SHA1_CTX) : SHA1_CTX := mkCTX (state c) c0 c1 (buffer c).
Definition set_state (s : list Z) (c : SHA1_CTX) : SHA1_CTX := mkCTX s (count0 c) (count1 c) (buffer c).
Definition set_buffer (b : bytes) (c : SHA1_CTX) : SHA1_CTX := mkCTX (state c) (count0 c) (count1 c) b.

(** ** The transformation *)

(** The five variables in the roles [v], [w], [x], [y] and [z] of the macros; each round
    names them one place on. *)
Record Regs := mkRegs { rv : Z; rw : Z; rx : Z; ry : Z; rz : Z }.

Definition load_regs (s : list Z) : Regs := mkRegs (nth 0 s 0) (nth 1 s 0) (nth 2 s 0) (nth 3 s 0) (nth 4 s 0).
Definition regs_list (r : Regs) : list Z := [rv r; rw r; rx r; ry r; rz r].

Definition R_step (f word K : Z) (r : Regs) : Regs :=
  mkRegs (uint32 (rz r + (f + word + K + rol (rv r) 5))) (rv r) (rol (rw r) 30) (rx r) (ry r).

Definition blk0 (i : nat) (block : list Z) : Z * list Z :=
  let w := htonl (nth i block 0) in (w, <[i := w]> block).

Definition blk (i : nat) (block : list Z) : Z * list Z :=
  let z := Z.of_nat i in
  let w := rol (Z.lxor (Z.lxor (Z.lxor (at16 (z + 13) block) (at16 (z + 8) block)) (at16 (z + 2) block)) (at16 z block)) 1 in
  (w, <[Z.to_nat (Z.land z 15) := w]> block).

Definition f01 (w x y : Z) : Z := Z.lxor (Z.land w (Z.lxor x y)) y.
Definition f24 (w x y : Z) : Z := Z.lxor (Z.lxor w x) y.
Definition f3 (w x y : Z) : Z := Z.lor (Z.land (Z.lor w x) y) (Z.land w x).

(** [R0], [R1], [R2], [R3] and [R4]. *)
Definition Round (f : Z -> Z -> Z -> Z) (word : nat -> list Z -> Z * list Z) (K : Z) (st : Regs * list Z) (i : nat)
    : Regs * list Z :=
  let '(r, block) := st in
  let '(w, block) := word i block in
  (R_step (f (rw r) (rx r) (ry r)) w K r, block).

Definition SHA1Transform (s : list Z) (data : bytes) : list Z :=
  let st := (load_regs s, le_num <$> words_of data) in
  let st := foldl (Round f01 blk0 0x5A827999) st (seq 0 16) in
  let st := foldl (Round f01 blk 0x5A827999) st (seq 16 4) in
  let st := foldl (Round f24 blk 0x6ED9EBA1) st (seq 20 20) in
  let st := foldl (Round f3 blk 0x8F1BBCDC) st (seq 40 20) in
  let '(r, _) := foldl (Round f24 blk 0xCA62C1D6) st (seq 60 20) in
  zip_with (fun s v => uint32 (s + v)) s (regs_list r).

(** ** Data in pieces *)

(** Whatever is in the buffer of a new context is never read. *)
Definition SHA1Init (garbage : bytes) : SHA1_CTX :=
  mkCTX [0x67452301; 0xEFCDAB89; 0x98BADCFE; 0x10325476; 0xC3D2E1F0] 0 0 garbage.

(** [memcpy(&buffer[j], &data[i], n)]. *)
Definition copy_in (j i n : Z) (data : bytes) (c : SHA1_CTX) : option SHA1_CTX :=
  CHECK ((j + n <=? 64) && (i + n <=? zlen data));;
  Some (set_buffer (put j (takeZ n (dropZ i data)) (buffer c)) c).

(** The loop over the whole blocks of [data]. *)
Definition Update_step (data : bytes) (len : Z) (st : SHA1_CTX * Z) : option (SHA1_CTX * Z + SHA1_CTX * Z) :=
  let '(c, i) := st in
  if uint32 (i + 63) <? len then
    CHECK (i + 64 <=? zlen data);;
    Some (inl (set_state (SHA1Transform (state c) (takeZ 64 (dropZ i data))) c, uint32 (i + 64)))
  else Some (inr (c, i)).

Definition SHA1Update (c : SHA1_CTX) (data : bytes) (len : Z) : option SHA1_CTX :=
  let j := Z.land (Z.shiftr (count0 c) 3) 63 in
  let bits := uint32 (Z.shiftl len 3) in
  let c0 := uint32 (count0 c + bits) in
  let c1 := if c0 <? bits then uint32 (count1 c + 1) else count1 c in
  let c := set_count c0 (uint32 (c1 + Z.shiftr len 29)) c in
  if 63 <? uint32 (j + len) then
    c ← copy_in j 0 (64 - j) data c;
    let c := set_state (SHA1Transform (state c) (buffer c)) c in
    '(c, i) ← loop (Update_step data len) (S (length data)) (c, 64 - j);
    copy_in 0 i (uint32 (len - i)) data c
  else copy_in j 0 len data c.

(** ** The digest *)

(** [(w >> ((3 - (i & 3)) * 8)) & 255] for the four bytes of a word. *)
Definition word_bytes (w : Z) : bytes :=
  (fun i => to_byte (Z.land (Z.shiftr w ((3 - i) * 8)) 255)) <$> [0; 1; 2; 3].

Definition Final_step (c : SHA1_CTX) : option (SHA1_CTX + SHA1_CTX) :=
  if negb (Z.land (count0 c) 504 =? 448) then c ← SHA1Update c [Byte.x00] 1; Some (inl c)
  else Some (inr c).

(** The context is wiped after the digest is taken. *)
Definition SHA1Final (c : SHA1_CTX) : option bytes :=
  let finalcount := word_bytes (count1 c) ++ word_bytes (count0 c) in
  c ← SHA1Update c [Byte.x80] 1;
  c ← loop Final_step 65 c;
  c ← SHA1Update c finalcount 8;
  Some (concat (word_bytes <$> state c)).

Definition SHA1FinalNoLen (c : SHA1_CTX) : bytes := concat (word_bytes <$> state c).

(** ** HMAC *)

Definition SHA1_Data (garbage key : bytes) (len : Z) : option bytes :=
  c ← SHA1Update (SHA1Init garbage) key len; SHA1Final c.

(** A key in a pad of 65 bytes of zeros, of which 64 are then changed and used. *)
Definition key_pad (c : Z) (key : bytes) : bytes :=
  (fun b => to_byte (Z.lxor (uchar b) c)) <$> takeZ 64 (put 0 key (zeros 65)).

(** The lengths are [size_t]; [SHA1Update] takes an [unsigned int]. *)
Definition HmacSha1 (garbage key text : bytes) : option bytes :=
  key ← (if 64 <? zlen key then SHA1_Data garbage key (uint32 (zlen key)) else Some key);
  c ← SHA1Update (SHA1Init garbage) (key_pad 0x36 key) 64;
  c ← SHA1Update c text (uint32 (zlen text));
  digest ← SHA1Final c;
  c ← SHA1Update (SHA1Init garbage) (key_pad 0x5c key) 64;
  c ← SHA1Update c digest 20;
  SHA1Final c.

End Sha1.
