(* ===== verification/Sha1Props.v ===== *)
(** * Sha1Props: the digest of [sha1.cc] is SHA-1 *)

From Stdlib Require Import Btauto.
From S2P Require Import Prelude.
From S2P Require Import Words.
From S2P Require Import Fips180.
From S2P Require Import Sha1.

Module Sha1Props.
Import Words Fips Sha1.

(** ** Rounds *)

Lemma rol_rotl n x : 0 < n < 32 -> word x -> rol x n = rotl n x.
Proof.
  intros Hn Hx. unfold rol, rotl. rewrite Z.lor_comm, <- lor_rotr by (done || lia). by replace (32 - (32 - n)) with n by lia.
Qed.

Lemma word_rotl n x : 0 < n < 32 -> word x -> word (rotl n x).
Proof. intros. apply word_rotr; [lia|done]. Qed.

Lemma f01_choose x y z : f01 x y z = choose x y z.
Proof.
  apply Z.bits_inj'. intros i Hi. unfold f01, choose.
  rewrite Z.lxor_spec, Z.lor_spec, !Z.land_spec, Z.ldiff_spec, Z.lxor_spec by lia. btauto.
Qed.

Lemma f3_most x y z : f3 x y z = most x y z.
Proof.
  apply Z.bits_inj'. intros i Hi. unfold f3, most. rewrite !Z.lor_spec, !Z.land_spec, !Z.lor_spec. btauto.
Qed.

Lemma f24_parity x y z : f24 x y z = parity x y z.
Proof. apply Z.lxor_assoc. Qed.

(** The function of round [j], with the names of the code. *)
Definition f_of (j : nat) : Z -> Z -> Z -> Z :=
  if (j <? 20)%nat then f01 else if (40 <=? j)%nat && (j <? 60)%nat then f3 else f24.

Lemma f_of_spec j x y z : f_of j x y z = f_1 j x y z.
Proof.
  unfold f_of, f_1. destruct (j <? 20)%nat; [apply f01_choose|].
  destruct ((40 <=? j)%nat && (j <? 60)%nat); [apply f3_most|apply f24_parity].
Qed.

Lemma K_1_length : length K_1 = 80%nat.
Proof. vm_compute. reflexivity. Qed.

Lemma H_1_initial : H_1 = state (SHA1Init []).
Proof. vm_compute. reflexivity. Qed.

#[local] Opaque K_1 H_1.

Definition words_regs (r : Regs) : Prop := Forall word (regs_list r).

Definition one_round (j : nat) (w : Z) (r : Regs) : Regs := R_step (f_of j (rw r) (rx r) (ry r)) w (nth j K_1 0) r.

Lemma one_round_spec j w r : words_regs r ->
  regs_list (one_round j w r) = round_1 (regs_list r) (j, (nth j K_1 0, w)) /\ words_regs (one_round j w r).
Proof.
  destruct r as [a b c d e]. unfold words_regs, regs_list. cbn [rv rw rx ry rz]. intros Hr.
  repeat match goal with H : Forall word (_ :: _) |- _ => inversion H; clear H; subst end.
  split.
  - unfold one_round, R_step, round_1, regs_list. cbn [rv rw rx ry rz fst snd].
    rewrite f_of_spec, !rol_rotl by (done || lia).
    generalize (f_1 j b c d), (nth j K_1 0), (rotl 5 a). intros x y z. unfold wrapU.
    replace (e + (x + w + y + z)) with (z + x + e + y + w) by lia. reflexivity.
  - unfold one_round, R_step, regs_list. cbn [rv rw rx ry rz].
    repeat (apply List.Forall_cons; [first [assumption | apply word_uint32 | rewrite rol_rotl by (done || lia); by apply word_rotl]|]).
    apply List.Forall_nil.
Qed.

(** The constants and functions of the five kinds of rounds. *)
Lemma K_1_of s n f K : forallb (fun j => (nth j K_1 0 =? K)) (seq s n) = true ->
  (forall j, (s <= j < s + n)%nat -> f_of j = f) ->
  forall j, (s <= j < s + n)%nat -> nth j K_1 0 = K /\ f_of j = f.
Proof.
  intros Hk Hf j Hj. split; [|by apply Hf]. rewrite forallb_forall in Hk. apply Z.eqb_eq, Hk, in_seq. lia.
Qed.

Ltac kind_of_round :=
  apply K_1_of; [vm_compute; reflexivity|];
  intros ? ?; unfold f_of;
  repeat match goal with
  | |- context [(?a <? ?b)%nat] => destruct (Nat.ltb_spec a b)
  | |- context [(?a <=? ?b)%nat] => destruct (Nat.leb_spec a b)
  end; try lia; done.

Lemma rounds_0 j : (0 <= j < 0 + 16)%nat -> nth j K_1 0 = 0x5A827999 /\ f_of j = f01.
Proof. revert j. kind_of_round. Qed.
Lemma rounds_1 j : (16 <= j < 16 + 4)%nat -> nth j K_1 0 = 0x5A827999 /\ f_of j = f01.
Proof. revert j. kind_of_round. Qed.
Lemma rounds_2 j : (20 <= j < 20 + 20)%nat -> nth j K_1 0 = 0x6ED9EBA1 /\ f_of j = f24.
Proof. revert j. kind_of_round. Qed.
Lemma rounds_3 j : (40 <= j < 40 + 20)%nat -> nth j K_1 0 = 0x8F1BBCDC /\ f_of j = f3.
Proof. revert j. kind_of_round. Qed.
Lemma rounds_4 j : (60 <= j < 60 + 20)%nat -> nth j K_1 0 = 0xCA62C1D6 /\ f_of j = f24.
Proof. revert j. kind_of_round. Qed.

(** ** The window *)

Definition rounds (ws : list Z) (r : Regs) (n : nat) : Regs :=
  foldl (fun r j => one_round j (nth j ws 0) r) r (seq 0 n).

Lemma rounds_S_1 ws r n : rounds ws r (S n) = one_round n (nth n ws 0) (rounds ws r n).
Proof. unfold rounds. by rewrite seq_S, foldl_app. Qed.

Lemma words_regs_rounds_1 ws r n : words_regs r -> words_regs (rounds ws r n).
Proof. intros Hr. induction n as [|n IH]; [done|]. rewrite rounds_S_1. by apply one_round_spec. Qed.

(** The words that [blk0] makes of the data, and those [blk] makes of the window. *)
Lemma htonl_num w : zlen w = 4 -> htonl (le_num w) = be_num w.
Proof. intros Hw. unfold htonl. rewrite <- (le_bytes_num w) at 2. do 2 f_equal. unfold zlen in Hw. lia. Qed.

Lemma first_rounds_1 ws data r n : (n <= 16)%nat -> length data = 16%nat ->
  (forall j, (j < 16)%nat -> htonl (nth j data 0) = nth j ws 0) -> exists W',
  foldl (Round f01 blk0 0x5A827999) (r, data) (seq 0 n) = (rounds ws r n, W') /\ length W' = 16%nat /\
  forall j, (j < 16)%nat -> nth j W' 0 = if (j <? n)%nat then nth j ws 0 else nth j data 0.
Proof.
  intros Hn Hd Hws. induction n as [|n IH]; [by exists data|].
  destruct IH as (W' & Hf & HW' & Hj); [lia|]. rewrite seq_S, foldl_app, Hf, rounds_S_1. cbn [foldl Nat.add].
  unfold Round, blk0. rewrite Hj by lia. destruct (Nat.ltb_spec n n); [lia|]. rewrite Hws by lia.
  destruct (rounds_0 n) as [HK Hfn]; [lia|]. unfold one_round. rewrite HK, Hfn. eexists. split; [done|].
  split; [by rewrite length_insert|]. intros j Hj16. destruct (decide (j = n)) as [->|].
  - rewrite nth_insert_eq by lia. destruct (Nat.ltb_spec n (S n)); [done|lia].
  - rewrite nth_insert_ne by done. rewrite Hj by done. destruct (Nat.ltb_spec j n), (Nat.ltb_spec j (S n)); lia || done.
Qed.

Lemma schedule_1 ws0 t : length ws0 = 16%nat -> (16 <= t < 80)%nat ->
  let ws := schedule next_1 64 ws0 in
  nth t ws 0 = rotl 1 (Z.lxor (Z.lxor (nth (t - 3) ws 0) (nth (t - 8) ws 0)) (Z.lxor (nth (t - 14) ws 0) (nth (t - 16) ws 0))).
Proof.
  intros H0 Ht ws. destruct (schedule_app next_1 64 ws0) as (l & Hl & Hn). fold ws in Hl.
  assert (Hlen : length ws = 80%nat) by (rewrite Hl, length_app; lia).
  assert (Hnext : nth t ws 0 = next_1 (take t ws)) by (apply schedule_nth; lia).
  clearbody ws. rewrite Hnext. unfold next_1. rewrite !back_take by lia. reflexivity.
Qed.

Lemma schedule_words_1 ws0 : Forall word ws0 -> Forall word (schedule next_1 64 ws0).
Proof.
  intros Hw. assert (Hg : forall n ws, Forall word ws -> Forall word (schedule next_1 n ws)).
  { induction n as [|n IH]; intros ws Hws; simpl; [done|]. apply IH, Forall_app. split; [done|].
    apply List.Forall_cons; [|apply List.Forall_nil]. unfold next_1, back. apply word_rotl; [lia|].
    by repeat apply word_lxor; apply word_nth. }
  by apply Hg.
Qed.

Lemma Round_spec ws0 f K r W j : length ws0 = 16%nat -> Forall word ws0 -> (16 <= j < 80)%nat ->
  nth j K_1 0 = K /\ f_of j = f ->
  let ws := schedule next_1 64 ws0 in window ws W j ->
  Round f blk K (rounds ws r j, W) j = (rounds ws r (S j), <[(j mod 16)%nat := nth j ws 0]> W).
Proof.
  intros H0 Hw Hj [HK Hf] ws [Hl HW]. unfold Round, blk.
  assert (Hat : forall k, (j <= k < j + 16)%nat -> at16 (Z.of_nat k) W = nth (k - 16) ws 0).
  { intros k Hk. rewrite at16_mod, Nat2Z.id by lia. rewrite <- HW by lia. f_equal.
    replace k with (k - 16 + 1 * 16)%nat at 1 by lia. by rewrite Nat.Div0.mod_add. }
  replace (Z.of_nat j + 13) with (Z.of_nat (j + 13)) by lia. replace (Z.of_nat j + 8) with (Z.of_nat (j + 8)) by lia.
  replace (Z.of_nat j + 2) with (Z.of_nat (j + 2)) by lia. rewrite !Hat by lia.
  change 15 with 0x0f. rewrite index16, Nat2Z.id by lia.
  pose proof (schedule_words_1 ws0 Hw) as Hws. fold ws in Hws.
  rewrite rol_rotl by (try lia; repeat apply word_lxor; by apply word_nth).
  assert (Hn : rotl 1 (Z.lxor (Z.lxor (Z.lxor (nth (j + 13 - 16) ws 0) (nth (j + 8 - 16) ws 0)) (nth (j + 2 - 16) ws 0)) (nth (j - 16) ws 0)) = nth j ws 0).
  { unfold ws at 5. rewrite (schedule_1 ws0 j) by lia. fold ws. rewrite Z.lxor_assoc.
    replace (j + 13 - 16)%nat with (j - 3)%nat by lia. replace (j + 8 - 16)%nat with (j - 8)%nat by lia.
    by replace (j + 2 - 16)%nat with (j - 14)%nat by lia. }
  by rewrite Hn, rounds_S_1, <- HK, <- Hf.
Qed.

Lemma Rounds_spec ws0 f K r W s n : length ws0 = 16%nat -> Forall word ws0 -> (16 <= s)%nat -> (s + n <= 80)%nat ->
  (forall j, (s <= j < s + n)%nat -> nth j K_1 0 = K /\ f_of j = f) ->
  let ws := schedule next_1 64 ws0 in window ws W s -> exists W',
  foldl (Round f blk K) (rounds ws r s, W) (seq s n) = (rounds ws r (s + n), W') /\ window ws W' (s + n).
Proof.
  intros H0 Hw Hs Hn Hk ws HW. induction n as [|n IH].
  - exists W. by rewrite Nat.add_0_r.
  - destruct IH as (W' & Hf & HW'); [lia|intros; apply Hk; lia|]. rewrite seq_S, foldl_app, Hf.
    change (foldl (Round f blk K) ?a [?x]) with (Round f blk K a x).
    pose proof (Round_spec ws0 f K r W' (s + n) H0 Hw) as Hl. cbv zeta in Hl. fold ws in Hl.
    rewrite Hl by (done || lia || (apply Hk; lia)). eexists. rewrite Nat.add_succ_r. split; [done|]. by apply window_insert.
Qed.

(** ** The transformation *)

Lemma rounds_compress_1 ws r n : words_regs r -> length ws = 80%nat -> (n <= 80)%nat ->
  regs_list (rounds ws r n) = foldl round_1 (regs_list r) (take n (zip (seq 0 80) (zip K_1 ws))).
Proof.
  intros Hr Hws Hn. induction n as [|n IH]; [done|].
  assert (Hz : zip (seq 0 80) (zip K_1 ws) !! n = Some (n, (nth n K_1 0, nth n ws 0))).
  { pose proof K_1_length as HK. apply lookup_zip_with_Some. exists n, (nth n K_1 0, nth n ws 0). split; [done|].
    split; [by rewrite lookup_seq_lt by lia|]. apply lookup_zip_with_Some. exists (nth n K_1 0), (nth n ws 0). split; [done|].
    split; [destruct (nth_lookup_or_length K_1 n 0)|destruct (nth_lookup_or_length ws n 0)]; done || lia. }
  rewrite rounds_S_1, (take_S_r _ _ _ Hz), foldl_app, <- IH by lia.
  by apply one_round_spec, words_regs_rounds_1.
Qed.

Lemma regs_load_1 s : length s = 5%nat -> regs_list (load_regs s) = s.
Proof. intros Hs. do 5 (destruct s as [|? s]; [done|]). by destruct s. Qed.

Lemma SHA1Transform_rounds s data : length data = 64%nat ->
  let ws := schedule next_1 64 (be_num <$> words_of data) in
  SHA1Transform s data = zip_with (fun s v => uint32 (s + v)) s (regs_list (rounds ws (load_regs s) 80)).
Proof.
  intros Hd ws. unfold SHA1Transform. set (ws0 := be_num <$> words_of data) in ws.
  assert (H0 : length ws0 = 16%nat) by (unfold ws0; rewrite length_fmap; by apply words_of_length).
  assert (Hw0 : Forall word ws0) by apply words_of_be.
  destruct (schedule_app next_1 64 ws0) as (l & Hl & Hn). fold ws in Hl.
  destruct (first_rounds_1 ws (le_num <$> words_of data) (load_regs s) 16)
    as (W1 & -> & HW1 & Hfirst); [done|rewrite length_fmap; by apply words_of_length| |].
  { intros j Hj. rewrite Hl, app_nth1 by lia. unfold ws0. rewrite !nth_lookup, !list_lookup_fmap.
    destruct (lookup_lt_is_Some_2 (words_of data) j) as [w Hw]; [rewrite (words_of_length 16); done || lia|].
    rewrite Hw. simpl. apply htonl_num. pose proof (words_of_four data) as Hf. by eapply Forall_lookup_1 in Hf. }
  pose proof (Rounds_spec ws0) as HR. cbv zeta in HR. fold ws in HR.
  destruct (HR f01 0x5A827999 (load_regs s) W1 16%nat 4%nat H0 Hw0) as (W2 & -> & HW2); [lia..|apply rounds_1| |].
  { split; [done|]. intros t Ht1 Ht2. rewrite Nat.mod_small by lia. rewrite Hfirst by lia. by destruct (Nat.ltb_spec t 16); [|lia]. }
  change (16 + 4)%nat with 20%nat in *.
  destruct (HR f24 0x6ED9EBA1 (load_regs s) W2 20%nat 20%nat H0 Hw0) as (W3 & -> & HW3); [lia..|apply rounds_2|done|].
  change (20 + 20)%nat with 40%nat in *.
  destruct (HR f3 0x8F1BBCDC (load_regs s) W3 40%nat 20%nat H0 Hw0) as (W4 & -> & HW4); [lia..|apply rounds_3|done|].
  change (40 + 20)%nat with 60%nat in *.
  destruct (HR f24 0xCA62C1D6 (load_regs s) W4 60%nat 20%nat H0 Hw0) as (W5 & -> & _); [lia..|apply rounds_4|done|done].
Qed.

Lemma SHA1Transform_spec s data : length s = 5%nat -> Forall word s -> length data = 64%nat ->
  SHA1Transform s data = compress_1 s data /\ length (SHA1Transform s data) = 5%nat /\ Forall word (SHA1Transform s data).
Proof.
  intros Hs Hw Hd. pose proof (SHA1Transform_rounds s data Hd) as Ht. cbv zeta in Ht. rewrite Ht. clear Ht.
  destruct (schedule_app next_1 64 (be_num <$> words_of data)) as (l & Hl & Hn).
  assert (Hlen : length (schedule next_1 64 (be_num <$> words_of data)) = 80%nat).
  { rewrite Hl, length_app, length_fmap, (words_of_length 16), Hn; done. }
  unfold compress_1. revert Hlen. generalize (schedule next_1 64 (be_num <$> words_of data)). intros ws Hlen.
  assert (Hr : words_regs (load_regs s)) by (unfold words_regs; by rewrite regs_load_1).
  rewrite rounds_compress_1 by done. rewrite regs_load_1 by done.
  rewrite take_ge by (rewrite !length_zip_with, length_seq, K_1_length; lia).
  assert (H5 : length (foldl round_1 s (zip (seq 0 80) (zip K_1 ws))) = 5%nat).
  { generalize (zip (seq 0 80) (zip K_1 ws)). intros kws. clear - Hs. revert s Hs.
    induction kws as [|kw kws IHk]; intros v Hv; [done|]. simpl. apply IHk.
    do 5 (destruct v as [|? v]; [done|]). by destruct v. }
  revert H5. generalize (foldl round_1 s (zip (seq 0 80) (zip K_1 ws))). intros v Hv.
  split; [done|]. split; [by rewrite length_zip_with, Hs, Hv|]. apply words_zip.
Qed.

#[local] Opaque SHA1Transform compress_1.

(** ** The count of the bits *)

Definition counted (n : Z) (c : SHA1_CTX) : Prop := count0 c = uint32 (8 * n) /\ count1 c = uint32 (8 * n / 2 ^ 32).

Lemma count_add n len : 0 <= n -> 0 <= len < 2 ^ 32 ->
  let bits := uint32 (Z.shiftl len 3) in
  let c0 := uint32 (uint32 (8 * n) + bits) in
  let c1 := if c0 <? bits then uint32 (uint32 (8 * n / 2 ^ 32) + 1) else uint32 (8 * n / 2 ^ 32) in
  c0 = uint32 (8 * (n + len)) /\ uint32 (c1 + Z.shiftr len 29) = uint32 (8 * (n + len) / 2 ^ 32).
Proof.
  intros Hn Hl. rewrite Z.shiftl_mul_pow2, Z.shiftr_div_pow2 by lia. unfold wrapU.
  change (2 ^ 32) with 4294967296 in *. change (2 ^ 29) with 536870912. change (2 ^ 3) with 8. cbv zeta.
  split; [Z.div_mod_to_equations; lia|].
  destruct (Z.ltb_spec (((8 * n) mod 4294967296 + (len * 8) mod 4294967296) mod 4294967296) ((len * 8) mod 4294967296)).
  - rewrite !Zplus_mod_idemp_l, <- Z.add_assoc, Zplus_mod_idemp_l. f_equal. Z.div_mod_to_equations. lia.
  - rewrite !Zplus_mod_idemp_l. f_equal. Z.div_mod_to_equations. lia.
Qed.

Lemma count_used n : 0 <= n -> Z.land (Z.shiftr (uint32 (8 * n)) 3) 63 = n mod 64.
Proof.
  intros Hn. rewrite Z.shiftr_div_pow2 by lia. change 63 with (Z.ones 6). rewrite Z.land_ones by lia. unfold wrapU.
  change (2 ^ 32) with 4294967296. change (2 ^ 3) with 8. change (2 ^ 6) with 64. Z.div_mod_to_equations. lia.
Qed.

Lemma count_last_block n : 0 <= n -> (Z.land (uint32 (8 * n)) 504 =? 448) = (n mod 64 =? 56).
Proof.
  intros Hn. change 504 with (Z.shiftl (Z.ones 6) 3).
  assert (Ha : Z.land (uint32 (8 * n)) (Z.shiftl (Z.ones 6) 3) = Z.shiftl (Z.land (Z.shiftr (uint32 (8 * n)) 3) (Z.ones 6)) 3).
  { apply Z.bits_inj'. intros i Hi. rewrite Z.land_spec, !Z.shiftl_spec, Z.land_spec by lia.
    destruct (Z.ltb_spec i 3); [by rewrite !(Z.testbit_neg_r _ (i - 3)), andb_false_r by lia|].
    rewrite Z.shiftr_spec by lia. by replace (i - 3 + 3) with i by lia. }
  rewrite Ha. change (Z.ones 6) with 63. rewrite count_used, Z.shiftl_mul_pow2 by lia. change (2 ^ 3) with 8.
  destruct (Z.eqb_spec (n mod 64) 56), (Z.eqb_spec (n mod 64 * 8) 448); lia.
Qed.

(** ** Data in pieces *)

(** The chaining words are those after the blocks [a]. *)
Definition chained (c : SHA1_CTX) (a : bytes) : Prop :=
  length (state c) = 5%nat /\ Forall word (state c) /\ length (buffer c) = 64%nat /\
  (length a mod 64 = 0)%nat /\ state c = foldl compress_1 H_1 (full_blocks a).

(** The context after the bytes of [a ++ p], the last [p] in the buffer. *)
Definition holds (c : SHA1_CTX) (m : bytes) : Prop :=
  exists a p, m = a ++ p /\ (length p < 64)%nat /\ chained c a /\ counted (zlen m) c /\ take (length p) (buffer c) = p.

Lemma holds_init_1 garbage : length garbage = 64%nat -> holds (SHA1Init garbage) [].
Proof.
  intros Hg. exists [], []. unfold chained. rewrite H_1_initial. split_and!; try done; [simpl; lia|].
  repeat (apply List.Forall_cons; [done|]). apply List.Forall_nil.
Qed.

(** A block more. *)
Lemma chained_block c a blk : chained c a -> length blk = 64%nat ->
  chained (set_state (SHA1Transform (state c) blk) c) (a ++ blk).
Proof.
  intros (H5 & Hw & Hb & Ha & Hs) Hblk. pose proof (SHA1Transform_spec (state c) blk H5 Hw Hblk) as Ht.
  revert Ht. unfold chained. cbn [set_state state buffer]. generalize (SHA1Transform (state c) blk).
  intros s (-> & Hs5 & Hsw). split_and!; [done..| |].
  - by rewrite length_app, Hblk, <- Nat.Div0.add_mod_idemp_l, Ha.
  - by rewrite full_blocks_app, (full_blocks_one blk), foldl_app, Hs by done.
Qed.

(** What is left of a message after whole blocks, and how far the blocks are. *)
Lemma rest_below (m data a' : bytes) i : m ++ data = a' ++ dropZ i data -> 0 <= i <= zlen data ->
  (length a' mod 64 = 0)%nat -> zlen m mod 64 + zlen data < 2 ^ 32 -> i + 63 < 2 ^ 32.
Proof.
  intros Hm Hi Ha Hlen. apply (f_equal zlen) in Hm. rewrite !zlen_app, zlen_dropZ in Hm by lia.
  pose proof (Nat.div_mod_eq (length a') 64) as Hd. rewrite Ha in Hd.
  assert (Hq : zlen a' = 64 * Z.of_nat (length a' / 64)) by (unfold zlen; lia).
  pose proof (zlen_nonneg m). Z.div_mod_to_equations. lia.
Qed.

Lemma Update_blocks m data c a i : m ++ data = a ++ dropZ i data -> 0 <= i <= zlen data -> chained c a ->
  zlen m mod 64 + zlen data < 2 ^ 32 ->
  exists c' a' i', loop (Update_step data (zlen data)) (S (length data)) (c, i) = Some (c', i') /\
    chained c' a' /\ m ++ data = a' ++ dropZ i' data /\ i' <= zlen data < i' + 64 /\ 0 <= i' /\
    count0 c' = count0 c /\ count1 c' = count1 c.
Proof.
  intros Hm Hi Hc Hlen.
  destruct (loop_total (Update_step data (zlen data))
    (fun '(c', i') => exists a', chained c' a' /\ m ++ data = a' ++ dropZ i' data /\ 0 <= i' <= zlen data /\
       count0 c' = count0 c /\ count1 c' = count1 c)
    (fun '(c', i') => exists a', chained c' a' /\ m ++ data = a' ++ dropZ i' data /\ i' <= zlen data < i' + 64 /\ 0 <= i' /\
       count0 c' = count0 c /\ count1 c' = count1 c)
    (fun '(_, i') => Z.to_nat (zlen data - i'))) with (fuel := S (length data)) (s := (c, i))
    as ([c' i'] & Hl & a' & Hr).
  - intros [c1 i1] (a1 & Hc1 & Hm1 & Hi1 & H0 & H1).
    pose proof (Z.mod_pos_bound (zlen m) 64). pose proof (rest_below m data a1 i1 Hm1 Hi1) as Hb. pose proof Hc1 as (_ & _ & _ & Ha1 & _).
    unfold Update_step. rewrite !wrapU_small by (specialize (Hb Ha1 Hlen); lia).
    destruct (Z.ltb_spec (i1 + 63) (zlen data)) as [Hlt|Hge].
    + rewrite CHECK_true by (apply Z.leb_le; lia). cbn [mbind option_bind].
      rewrite wrapU_small by lia. eexists. split; [done|]. split; [|unfold zlen in *; lia].
      exists (a1 ++ takeZ 64 (dropZ i1 data)). split.
      * apply chained_block; [done|]. apply Nat2Z.inj. change (zlen (takeZ 64 (dropZ i1 data)) = 64).
        rewrite zlen_takeZ, zlen_dropZ by lia. lia.
      * split; [|split_and!; done || lia]. rewrite <- app_assoc, Hm1. f_equal. rewrite <- (takeZ_dropZ 64 (dropZ i1 data)) at 1.
        f_equal. rewrite dropZ_dropZ; [done|lia..].
    + eexists. split; [done|]. exists a1. split_and!; done || lia.
  - exists a. done.
  - unfold zlen. lia.
  - exists c', a', i'. done.
Qed.

Lemma SHA1Update_spec c m data : holds c m -> zlen m mod 64 + zlen data < 2 ^ 32 ->
  exists c', SHA1Update c data (zlen data) = Some c' /\ holds c' (m ++ data).
Proof.
  intros (a & p & -> & Hp & Hc & Hn & Hbuf) Hlen. unfold SHA1Update. pose proof Hc as (H5 & Hw & Hb & Ha & Hs).
  assert (Hzp : zlen p = zlen (a ++ p) mod 64) by (by apply zlen_mod_parts).
  pose proof (zlen_nonneg data) as Hd0. pose proof (zlen_nonneg (a ++ p)) as Hn0. pose proof (zlen_nonneg p) as Hp0.
  pose proof (count_add (zlen (a ++ p)) (zlen data) Hn0) as Hadd. cbv zeta in Hadd. destruct Hn as [-> ->].
  destruct Hadd as [Hc0 Hc1]; [lia|]. rewrite count_used by done. cbv zeta. rewrite <- Hzp in *. rewrite Hc1, Hc0.
  rewrite (wrapU_small 32 (zlen p + zlen data)) by lia.
  set (c1 := set_count _ _ c).
  assert (Htake : takeZ (zlen p) (buffer c) = p) by (unfold takeZ, zlen; by rewrite Nat2Z.id).
  destruct (Z.ltb_spec 63 (zlen p + zlen data)) as [Hge|Hlt].
  - unfold copy_in. rewrite CHECK_true by (bool_prop; unfold zlen in *; lia). cbn [mbind option_bind].
    set (d1 := takeZ (64 - zlen p) (dropZ 0 data)).
    assert (Hd1 : zlen d1 = 64 - zlen p) by (unfold d1; rewrite dropZ_0, zlen_takeZ by (unfold zlen in *; lia); lia).
    assert (Hput : put (zlen p) d1 (buffer c1) = p ++ d1) by (apply put_after; [done|unfold zlen in *; cbn [c1 set_count buffer]; lia]).
    rewrite Hput. cbn [set_buffer buffer].
    assert (Hblk : length (p ++ d1) = 64%nat) by (rewrite length_app; unfold zlen in *; lia).
    set (c2 := set_state _ (set_buffer (p ++ d1) c1)).
    assert (Hch : chained c2 (a ++ p ++ d1)) by (apply (chained_block (set_buffer (p ++ d1) c1)); done).
    assert (Hm : (a ++ p) ++ data = (a ++ p ++ d1) ++ dropZ (64 - zlen p) data).
    { unfold d1. rewrite dropZ_0, <- !app_assoc. by rewrite takeZ_dropZ. }
    assert (Hpl : zlen p < 64) by (unfold zlen; lia).
    assert (Hcount : count0 c2 = uint32 (8 * zlen ((a ++ p) ++ data)) /\ count1 c2 = uint32 (8 * zlen ((a ++ p) ++ data) / 2 ^ 32))
      by (rewrite (zlen_app (a ++ p)); done).
    clearbody c2. destruct (Update_blocks (a ++ p) data c2 _ (64 - zlen p) Hm) as (c3 & a2 & i2 & Hl & Hc2 & Hm2 & Hi2 & Hi2' & H0 & H1);
      [lia|exact Hch|lia|].
    rewrite <- H0, <- H1 in Hcount. destruct Hcount as [Hn1 Hn2]. rewrite Hl. cbn [mbind option_bind]. clear Hl Hch.
    rewrite wrapU_small by lia. rewrite CHECK_true by (bool_prop; lia). cbn [mbind option_bind]. eexists. split; [done|].
    destruct Hc2 as (H5' & Hw' & Hb' & Ha' & Hs'). rewrite takeZ_all by (rewrite zlen_dropZ; lia).
    assert (Hr : zlen (dropZ i2 data) = zlen data - i2) by (rewrite zlen_dropZ; lia).
    exists a2, (dropZ i2 data). unfold chained, counted. cbn [set_buffer state buffer count0 count1].
    split_and!; try done; [unfold zlen in *; lia|apply put_ok; [done|lia|lia]|].
    unfold put. rewrite takeZ_0. cbn [app]. by rewrite take_app_length.
  - unfold copy_in. rewrite CHECK_true by (bool_prop; lia). cbn [mbind option_bind]. eexists. split; [done|].
    rewrite dropZ_0, takeZ_all by lia. exists a, (p ++ data). unfold chained, counted. cbn [set_buffer c1 set_count state buffer count0 count1].
    rewrite (zlen_app (a ++ p)). split_and!; try done; [by rewrite app_assoc|rewrite length_app; unfold zlen in *; lia|apply put_ok; [done|lia|lia]|].
    unfold put. rewrite Htake, app_assoc. by rewrite take_app_length.
Qed.

(** The sum of the bytes waiting and of those given does not fit in 32 bits: what is left
    of it is below the size of a block, and the copy of all the data overruns the buffer. *)
Lemma SHA1Update_overrun c m data : holds c m -> zlen data < 2 ^ 32 -> 2 ^ 32 <= zlen m mod 64 + zlen data ->
  SHA1Update c data (zlen data) = None.
Proof.
  intros (a & p & -> & Hp & Hc & [H0 H1] & Hbuf) Hd Hlen. unfold SHA1Update.
  pose proof (Z.mod_pos_bound (zlen (a ++ p)) 64). pose proof (zlen_nonneg (a ++ p)).
  rewrite H0, count_used by done. cbv zeta.
  assert (Hwrap : uint32 (zlen (a ++ p) mod 64 + zlen data) = zlen (a ++ p) mod 64 + zlen data - 2 ^ 32).
  { unfold wrapU. symmetry. apply Z.mod_unique_pos with (q := 1); lia. }
  rewrite Hwrap. destruct (Z.ltb_spec 63 (zlen (a ++ p) mod 64 + zlen data - 2 ^ 32)); [lia|].
  unfold copy_in. destruct (Z.leb_spec (zlen (a ++ p) mod 64 + zlen data) 64); [lia|done].
Qed.

(** ** The bytes of words *)

Lemma to_byte_bits x y : (forall i, 0 <= i < 8 -> Z.testbit x i = Z.testbit y i) -> to_byte x = to_byte y.
Proof.
  intros Hb. apply byte.unsigned_inj. unfold to_byte. rewrite !byte.unsigned_of_Z. unfold byte.wrap.
  apply Z.bits_inj'. intros i Hi. destruct (Z.ltb_spec i 8).
  - rewrite !Z.mod_pow2_bits_low by lia. apply Hb. lia.
  - by rewrite !Z.mod_pow2_bits_high by lia.
Qed.

Lemma word_bytes_shift w z s : (forall i, 0 <= i < 32 -> Z.testbit w i = Z.testbit z (i + s)) -> 0 <= s ->
  word_bytes w = rev (to_byte <$> [Z.shiftr z s; Z.shiftr z (s + 8); Z.shiftr z (s + 16); Z.shiftr z (s + 24)]).
Proof.
  intros Hb Hs. unfold word_bytes. cbn [fmap list_fmap rev app].
  assert (Hk : forall k, 0 <= k <= 24 -> to_byte (Z.land (Z.shiftr w k) 255) = to_byte (Z.shiftr z (s + k))).
  { intros k Hk. apply to_byte_bits. intros i Hi. change 255 with (Z.ones 8).
    rewrite Z.land_spec, !Z.shiftr_spec, Z.ones_spec_low, andb_true_r, Hb by lia. f_equal. lia. }
  change ((3 - 0) * 8) with 24. change ((3 - 1) * 8) with 16. change ((3 - 2) * 8) with 8. change ((3 - 3) * 8) with 0.
  by rewrite !Hk, Z.add_0_r by lia.
Qed.

Lemma word_bytes_be w : word_bytes w = be_bytes 4 w.
Proof.
  rewrite (word_bytes_shift w w 0) by (lia || (intros; f_equal; lia)). unfold be_bytes. cbn [le_bytes].
  rewrite !Z.shiftr_shiftr by lia. reflexivity.
Qed.

Lemma count_bytes n : 0 <= n -> word_bytes (uint32 (n / 2 ^ 32)) ++ word_bytes (uint32 n) = be_bytes 8 n.
Proof.
  intros Hn. rewrite (word_bytes_shift (uint32 (n / 2 ^ 32)) n 32), (word_bytes_shift (uint32 n) n 0); [|..|lia]; [| |lia|].
  - unfold be_bytes. cbn [le_bytes]. rewrite !Z.shiftr_shiftr by lia. reflexivity.
  - intros i Hi. unfold wrapU. rewrite Z.mod_pow2_bits_low by lia. f_equal. lia.
  - intros i Hi. unfold wrapU. rewrite Z.mod_pow2_bits_low, <- Z.shiftr_div_pow2, Z.shiftr_spec by lia. done.
Qed.

Lemma digest_bytes s : concat (word_bytes <$> s) = concat (be_bytes 4 <$> s).
Proof. induction s as [|w s IH]; [done|]. rewrite !fmap_cons. cbn [concat]. by rewrite word_bytes_be, IH. Qed.

(** ** The padding and the digest *)

Lemma small_piece (m : bytes) n : 0 <= n <= 64 -> zlen m mod 64 + n < 2 ^ 32.
Proof. pose proof (Z.mod_pos_bound (zlen m) 64). lia. Qed.

Lemma zeros_S n : 0 <= n -> zeros n ++ [Byte.x00] = zeros (n + 1).
Proof.
  intros Hn. unfold zeros. change [Byte.x00] with (replicate 1 Byte.x00). rewrite <- replicate_add. f_equal. lia.
Qed.

Lemma Final_loop m c : holds c (m ++ [Byte.x80]) -> exists c',
  loop Final_step 65 c = Some c' /\ holds c' (m ++ [Byte.x80] ++ zeros ((55 - zlen m) mod 64)).
Proof.
  intros Hc. pose proof (Z.mod_pos_bound (55 - zlen m) 64) as Hn. pose proof (zlen_nonneg m) as Hm.
  apply (loop_total_ix Final_step
    (fun left c' => exists k, holds c' (m ++ [Byte.x80] ++ zeros k) /\ 0 <= k /\ k + Z.of_nat left = (55 - zlen m) mod 64)
    (fun c' => holds c' (m ++ [Byte.x80] ++ zeros ((55 - zlen m) mod 64)))) with (n := Z.to_nat ((55 - zlen m) mod 64)).
  - intros left c1 (k & Hc1 & Hk & Hleft). unfold Final_step.
    pose proof Hc1 as (_ & _ & _ & _ & _ & [-> _] & _).
    assert (Hl : zlen (m ++ [Byte.x80] ++ zeros k) = zlen m + 1 + k) by (rewrite !zlen_app, zlen_zeros, zlen_cons, zlen_nil by lia; lia).
    rewrite count_last_block by apply zlen_nonneg. rewrite Hl.
    destruct (Z.eqb_spec ((zlen m + 1 + k) mod 64) 56) as [He|Hne]; simpl negb.
    + eexists. split; [done|]. replace ((55 - zlen m) mod 64) with k; [done|]. Z.div_mod_to_equations. lia.
    + destruct (SHA1Update_spec c1 _ [Byte.x00] Hc1) as (c2 & Hu & Hc2); [apply small_piece; by vm_compute|].
      change (zlen [Byte.x00]) with 1 in Hu. rewrite Hu. cbn [mbind option_bind]. eexists. split; [done|].
      rewrite <- !app_assoc, zeros_S in Hc2 by lia.
      destruct left as [|left]; [exfalso; apply Hne; Z.div_mod_to_equations; lia|].
      exists left. split; [|lia]. exists (k + 1). split; [exact Hc2|lia].
  - exists 0. unfold zeros at 1. simpl. rewrite ?app_nil_r. split; [done|lia].
  - lia.
Qed.

Lemma SHA1Final_spec c m : holds c m -> SHA1Final c = Some (sha1 m).
Proof.
  intros Hc. pose proof Hc as (_ & _ & _ & _ & _ & [H0 H1] & _). unfold SHA1Final. rewrite H0, H1.
  pose proof (zlen_nonneg m) as Hm. rewrite count_bytes by lia. cbv zeta.
  destruct (SHA1Update_spec c m [Byte.x80] Hc) as (c1 & Hu1 & Hc1); [apply small_piece; by vm_compute|].
  change (zlen [Byte.x80]) with 1 in Hu1. rewrite Hu1. cbn [mbind option_bind].
  destruct (Final_loop m c1 Hc1) as (c2 & -> & Hc2). cbn [mbind option_bind].
  destruct (SHA1Update_spec c2 _ (be_bytes 8 (8 * zlen m)) Hc2) as (c3 & Hu3 & Hc3);
    [apply small_piece; change (zlen (be_bytes 8 ?x)) with (Z.of_nat (length (be_bytes 8 x))); rewrite length_be_bytes; lia|].
  assert (H8 : zlen (be_bytes 8 (8 * zlen m)) = 8) by (unfold zlen at 1; by rewrite length_be_bytes).
  rewrite H8 in Hu3. rewrite Hu3. cbn [mbind option_bind]. f_equal. rewrite digest_bytes. unfold sha1, digest.
  assert (Hpad : (m ++ [Byte.x80] ++ zeros ((55 - zlen m) mod 64)) ++ be_bytes 8 (8 * zlen m) = m ++ padding (zlen m)).
  { unfold padding. rewrite <- !app_assoc. reflexivity. }
  rewrite Hpad in Hc3. destruct Hc3 as (a & p & Hap & Hp & (_ & _ & _ & Ha & Hs) & _).
  assert (p = []) as ->.
  { assert (Hl : zlen p = zlen (m ++ padding (zlen m)) mod 64) by (rewrite Hap; by apply zlen_mod_parts).
    rewrite <- Hpad, !zlen_app, H8, zlen_zeros, zlen_cons, zlen_nil in Hl by (apply Z.mod_pos_bound; lia).
    destruct p; [done|]. rewrite zlen_cons in Hl. pose proof (zlen_nonneg p). exfalso. Z.div_mod_to_equations. lia. }
  rewrite app_nil_r in Hap. by rewrite Hap, Hs.
Qed.

(** ** Theorems *)

(** Data given in pieces, each with its size. *)
Fixpoint update_all (c : SHA1_CTX) (pieces : list bytes) : option SHA1_CTX :=
  match pieces with
  | [] => Some c
  | p :: ps => c ← SHA1Update c p (zlen p); update_all c ps
  end.

(** The sizes an [unsigned int] holds together with the bytes that may be waiting. *)
Definition piece_fits (p : bytes) : bool := zlen p + 63 <? 2 ^ 32.

Lemma SHA1Update_fits c m data : holds c m -> piece_fits data = true ->
  exists c', SHA1Update c data (zlen data) = Some c' /\ holds c' (m ++ data).
Proof.
  intros Hc Hf. unfold piece_fits in Hf. bool_prop. apply SHA1Update_spec; [done|].
  pose proof (Z.mod_pos_bound (zlen m) 64). lia.
Qed.

Lemma update_all_spec_1 pieces c m : holds c m -> forallb piece_fits pieces = true ->
  exists c', update_all c pieces = Some c' /\ holds c' (m ++ concat pieces).
Proof.
  revert c m. induction pieces as [|p ps IH]; intros c m Hc Hf; cbn [update_all concat forallb] in *.
  - exists c. by rewrite app_nil_r.
  - apply andb_true_iff in Hf as [Hp Hps]. destruct (SHA1Update_fits c m p Hc Hp) as (c1 & -> & Hc1).
    rewrite app_assoc. cbn [mbind option_bind]. by apply IH.
Qed.

(** The digest of data given in any pieces, each of less than 2 ^ 32 - 63 bytes, is that
    of FIPS 180-4, whatever the buffer of the new context held, and neither an update nor the
    final padding goes past an array; a piece whose size passes 2 ^ 32 together with the bytes
    that wait in the buffer makes the update copy all of it past the buffer's end. *)
Theorem sha1_pieces garbage pieces : length garbage = 64%nat -> forallb piece_fits pieces = true ->
  exists c, update_all (SHA1Init garbage) pieces = Some c /\ SHA1Final c = Some (sha1 (concat pieces)) /\
  forall data, zlen data < 2 ^ 32 -> 2 ^ 32 <= zlen (concat pieces) mod 64 + zlen data ->
    SHA1Update c data (zlen data) = None.
Proof.
  intros Hg Hf. destruct (update_all_spec_1 pieces _ [] (holds_init_1 garbage Hg) Hf) as (c & Hc & Hh).
  exists c. split; [done|]. split; [by apply SHA1Final_spec|]. intros data. by apply SHA1Update_overrun.
Qed.

Lemma length_sha1 m : zlen (sha1 m) = 20.
Proof.
  unfold sha1, digest.
  assert (Hg : forall bs h, length h = 5%nat -> length (foldl compress_1 h bs) = 5%nat).
  { intros bs. induction bs as [|b bs IH]; intros h Hh; [done|]. simpl. apply IH.
    Transparent compress_1. unfold compress_1. rewrite length_zip_with, Hh, Nat.min_l; [done|].
    enough (Hl : forall kws v, length v = 5%nat -> length (foldl round_1 v kws) = 5%nat) by (rewrite Hl by done; done).
    intros kws. induction kws as [|kw kws IHk]; intros v Hv; [done|]. simpl. apply IHk.
    do 5 (destruct v as [|? v]; [done|]). by destruct v. }
  specialize (Hg (full_blocks (m ++ padding (zlen m))) H_1 ltac:(by rewrite H_1_initial)).
  revert Hg. generalize (foldl compress_1 H_1 (full_blocks (m ++ padding (zlen m)))). intros l Hl.
  do 5 (destruct l as [|? l]; [done|]). by destruct l.
Qed.

#[local] Opaque sha1.

Lemma key_pad_eq c key : zlen key <= 64 ->
  key_pad c key = xor_byte c <$> (key ++ replicate (64 - length key) Byte.x00).
Proof.
  intros Hk. unfold key_pad, put. rewrite takeZ_0. cbn [app]. f_equal. pose proof (zlen_nonneg key).
  unfold takeZ, dropZ, zeros, zlen in *. rewrite drop_replicate, take_app_ge, take_replicate by lia.
  change (Z.to_nat 64) with 64%nat. change (Z.to_nat 65) with 65%nat. do 2 f_equal. lia.
Qed.

Lemma zlen_key_pad c key : zlen key <= 64 -> zlen (key_pad c key) = 64.
Proof.
  intros Hk. rewrite key_pad_eq by done. unfold zlen in *. rewrite length_fmap, length_app, length_replicate. lia.
Qed.

(** A pass: a pad, then data. *)
Lemma hmac_pass garbage c key data : length garbage = 64%nat -> zlen key <= 64 -> piece_fits data = true ->
  exists c1 c2, SHA1Update (SHA1Init garbage) (key_pad c key) 64 = Some c1 /\
    SHA1Update c1 data (zlen data) = Some c2 /\ SHA1Final c2 = Some (sha1 (key_pad c key ++ data)).
Proof.
  intros Hg Hk Hd. pose proof (zlen_key_pad c key Hk) as H64.
  destruct (SHA1Update_fits _ _ (key_pad c key) (holds_init_1 garbage Hg)) as (c1 & H1 & Hc1).
  { unfold piece_fits. by rewrite H64. }
  rewrite H64 in H1. destruct (SHA1Update_fits c1 _ data Hc1 Hd) as (c2 & H2 & Hc2).
  exists c1, c2. split_and!; [done..|]. by apply (SHA1Final_spec c2).
Qed.

Lemma SHA1_Data_spec garbage key : length garbage = 64%nat -> piece_fits key = true ->
  SHA1_Data garbage key (uint32 (zlen key)) = Some (sha1 key).
Proof.
  intros Hg Hk. rewrite wrapU_small by (unfold piece_fits in Hk; bool_prop; pose proof (zlen_nonneg key); lia).
  unfold SHA1_Data. destruct (SHA1Update_fits _ _ key (holds_init_1 garbage Hg) Hk) as (c & -> & Hc).
  cbn [mbind option_bind]. by apply (SHA1Final_spec c).
Qed.

(** [HmacSha1] of a key and a text of less than 2 ^ 32 - 63 bytes is the HMAC of
    RFC 2104 over SHA-1, for a key of any size, and no copy goes past an array. *)
Theorem HmacSha1_hmac garbage key text : length garbage = 64%nat -> piece_fits key = true -> piece_fits text = true ->
  HmacSha1 garbage key text = Some (hmac sha1 key text).
Proof.
  intros Hg Hk Ht. unfold HmacSha1, hmac, hmac_key.
  assert (Hkey : (if 64 <? zlen key then SHA1_Data garbage key (uint32 (zlen key)) else Some key) =
                 Some (if 64 <? zlen key then sha1 key else key)).
  { destruct (64 <? zlen key); [by apply SHA1_Data_spec|done]. }
  rewrite Hkey. cbn [mbind option_bind].
  assert (Hs : zlen (if 64 <? zlen key then sha1 key else key) <= 64).
  { destruct (Z.ltb_spec 64 (zlen key)); [rewrite length_sha1; lia|done]. }
  revert Hs. generalize (if 64 <? zlen key then sha1 key else key). intros k Hs.
  rewrite wrapU_small by (unfold piece_fits in Ht; bool_prop; pose proof (zlen_nonneg text); lia).
  destruct (hmac_pass garbage 0x36 k text Hg Hs Ht) as (c1 & c2 & -> & H2 & H3).
  cbn [mbind option_bind]. rewrite H2. cbn [mbind option_bind]. rewrite H3. cbn [mbind option_bind].
  destruct (hmac_pass garbage 0x5c k (sha1 (key_pad 0x36 k ++ text)) Hg Hs) as (c3 & c4 & -> & H5 & H6).
  { unfold piece_fits. by rewrite length_sha1. }
  cbn [mbind option_bind]. rewrite length_sha1 in H5. rewrite H5. cbn [mbind option_bind]. rewrite H6.
  by rewrite !key_pad_eq by done.
Qed.

Lemma sha1_pieces_witness : forallb piece_fits [bstr "a"; bstr "bc"] = true /\
  exists c, update_all (SHA1Init (zeros 64)) [bstr "a"; bstr "bc"] = Some c /\ SHA1Final c = Some (sha1 (bstr "abc")) /\
  forall data, zlen data < 2 ^ 32 -> 2 ^ 32 <= 3 + zlen data -> SHA1Update c data (zlen data) = None.
Proof.
  assert (Hf : forallb piece_fits [bstr "a"; bstr "bc"] = true) by (vm_compute; reflexivity).
  split; [exact Hf|]. exact (sha1_pieces (zeros 64) [bstr "a"; bstr "bc"] eq_refl Hf).
Defined.

Lemma HmacSha1_hmac_witness : piece_fits (bstr "Jefe") = true /\ piece_fits (bstr "what do ya want") = true /\
  HmacSha1 (zeros 64) (bstr "Jefe") (bstr "what do ya want") = Some (hmac sha1 (bstr "Jefe") (bstr "what do ya want")).
Proof.
  assert (H1 : piece_fits (bstr "Jefe") = true) by (vm_compute; reflexivity).
  assert (H2 : piece_fits (bstr "what do ya want") = true) by (vm_compute; reflexivity).
  split_and!; [exact H1|exact H2|]. exact (HmacSha1_hmac (zeros 64) (bstr "Jefe") (bstr "what do ya want") eq_refl H1 H2).
Defined.

End Sha1Props.
