(* ===== verification/LruCache.v ===== *)
(** * LruCache: [base/lru_cache.h]

    A cache of reference counted values under a spin lock, evicting the least recently used.
    A call of a method is a thread that goes through the stages of [Stage], one for every
    section of the code under the lock and one for every call made outside it; sections of
    different threads interleave in any order.  [None] is a failed [CHECK], an iterator or a
    reference used after it is gone. *)

From S2P Require Import Prelude.

Module LruCache.

(** ** Reference counted values

    [ref_counted<C>] of [base/ref_counted.h], on the heap: the references are numbered in the
    order of their allocation.  No release callback is set, so the value goes with the last
    reference; [deleted] lists the values that are gone. *)
Record ref_counted {V : Type} := mkRef { ref_count_ : Z; data_ : V }.
#[global] Arguments ref_counted : clear implicits.

Record Memory {V : Type} := mkMemory { refs : gmap nat (ref_counted V); next_ref : nat; deleted : list V }.
#[global] Arguments Memory : clear implicits.

(** The virtual methods of [LruCachePolicy] that have no definition; the others are the
    default ones. *)
Record Policy {K V : Type} := mkPolicy { Create : K -> option V; SizeOf : K -> V -> Z }.
#[global] Arguments Policy : clear implicits.

Definition SimpleLruCachePolicy (K V : Type) : Policy K V := mkPolicy K V (fun _ => None) (fun _ _ => 1).

Record Counts := mkCounts { put_count_ : Z; create_count_ : Z; eviction_count_ : Z; hit_count_ : Z; miss_count_ : Z }.

Section Cache.
Context {K : Type} {K_eq_dec : EqDecision K} {K_countable : Countable K} {V : Type}.

Definition IncRef (r : nat) (m : Memory V) : option (Memory V) :=
  o ← refs m !! r;
  Some (mkMemory V (<[r := mkRef V (ref_count_ o + 1) (data_ o)]> (refs m)) (next_ref m) (deleted m)).

Definition DecRef (r : nat) (m : Memory V) : option (Memory V) :=
  o ← refs m !! r;
  if ref_count_ o =? 1 then Some (mkMemory V (delete r (refs m)) (next_ref m) (deleted m ++ [data_ o]))
  else Some (mkMemory V (<[r := mkRef V (ref_count_ o - 1) (data_ o)]> (refs m)) (next_ref m) (deleted m)).

(** [LruCachePolicy::CreateRef]: a new reference, counted once. *)
Definition CreateRef (v : V) (m : Memory V) : nat * Memory V :=
  (next_ref m, mkMemory V (<[next_ref m := mkRef V 1 v]> (refs m)) (S (next_ref m)) (deleted m)).

(** [LruCachePolicy::Destroy]. *)
Definition Destroy (v : V) (m : Memory V) : Memory V := mkMemory V (refs m) (next_ref m) (deleted m ++ [v]).

(** ** The cache

    The nodes of [list_] carry a number, their address: an iterator of the list is the
    number of its node. *)
Record Cache := mkCache {
  memory : Memory V;
  list_ : list (nat * K); next_node : nat;
  map_ : gmap K (nat * nat);
  size_ : Z; max_size_ : Z; allow_overshoot_ : bool;
  counts : Counts;
  mutex_ : bool }.

Definition set_memory (m : Memory V) (c : Cache) : Cache :=
  mkCache m (list_ c) (next_node c) (map_ c) (size_ c) (max_size_ c) (allow_overshoot_ c) (counts c) (mutex_ c).
Definition set_list (l : list (nat * K)) (c : Cache) : Cache :=
  mkCache (memory c) l (next_node c) (map_ c) (size_ c) (max_size_ c) (allow_overshoot_ c) (counts c) (mutex_ c).
Definition set_map (m : gmap K (nat * nat)) (c : Cache) : Cache :=
  mkCache (memory c) (list_ c) (next_node c) m (size_ c) (max_size_ c) (allow_overshoot_ c) (counts c) (mutex_ c).
Definition set_size (s : Z) (c : Cache) : Cache :=
  mkCache (memory c) (list_ c) (next_node c) (map_ c) s (max_size_ c) (allow_overshoot_ c) (counts c) (mutex_ c).
Definition set_counts (n : Counts) (c : Cache) : Cache :=
  mkCache (memory c) (list_ c) (next_node c) (map_ c) (size_ c) (max_size_ c) (allow_overshoot_ c) n (mutex_ c).
Definition set_mutex (b : bool) (c : Cache) : Cache :=
  mkCache (memory c) (list_ c) (next_node c) (map_ c) (size_ c) (max_size_ c) (allow_overshoot_ c) (counts c) b.

Definition LruCache_new (max_size : Z) (allow_overshoot : bool) : option Cache :=
  CHECK (0 <? max_size);;
  Some (mkCache (mkMemory V ∅ 0 []) [] 0 ∅ 0 max_size allow_overshoot (mkCounts 0 0 0 0 0) false).

Definition hit (n : Counts) : Counts :=
  mkCounts (put_count_ n) (create_count_ n) (eviction_count_ n) (hit_count_ n + 1) (miss_count_ n).
Definition miss (n : Counts) : Counts :=
  mkCounts (put_count_ n) (create_count_ n) (eviction_count_ n) (hit_count_ n) (miss_count_ n + 1).
Definition created (n : Counts) : Counts :=
  mkCounts (put_count_ n) (create_count_ n + 1) (eviction_count_ n) (hit_count_ n) (miss_count_ n).
Definition was_put (n : Counts) : Counts :=
  mkCounts (put_count_ n + 1) (create_count_ n) (eviction_count_ n) (hit_count_ n) (miss_count_ n).
Definition evicted (n : Counts) : Counts :=
  mkCounts (put_count_ n) (create_count_ n) (eviction_count_ n + 1) (hit_count_ n) (miss_count_ n).
Definition count_ (f : Counts -> Counts) (c : Cache) : Cache := set_counts (f (counts c)) c.

(** [list_.erase(it)] and [list_.insert(list_.begin(), key)]. *)
Definition list_erase (node : nat) (c : Cache) : option Cache :=
  CHECK (existsb (fun x => Nat.eqb x.1 node) (list_ c));;
  Some (set_list (List.filter (fun x => negb (Nat.eqb x.1 node)) (list_ c)) c).

Definition list_insert (key : K) (c : Cache) : nat * Cache :=
  (next_node c,
   mkCache (memory c) ((next_node c, key) :: list_ c) (S (next_node c)) (map_ c) (size_ c) (max_size_ c)
     (allow_overshoot_ c) (counts c) (mutex_ c)).

Definition cache_IncRef (r : nat) (c : Cache) : option Cache := m ← IncRef r (memory c); Some (set_memory m c).
Definition cache_DecRef (r : nat) (c : Cache) : option Cache := m ← DecRef r (memory c); Some (set_memory m c).
Definition cache_CreateRef (v : V) (c : Cache) : nat * Cache :=
  let '(r, m) := CreateRef v (memory c) in (r, set_memory m c).
(** [ref->get()]. *)
Definition get_data (r : nat) (c : Cache) : option V := o ← refs (memory c) !! r; Some (data_ o).

(** The calls that look under the lock and leave. *)
Definition HasKey (key : K) (c : Cache) : bool := match map_ c !! key with Some _ => true | None => false end.
Definition AdjustSize (key : K) (delta : Z) (c : Cache) : bool * Cache :=
  match map_ c !! key with
  | None => (false, c)
  | Some _ => (true, set_size (size_ c + delta) c)
  end.
Definition count (c : Cache) : nat := base.size (map_ c).
Definition is_full (c : Cache) : bool := max_size_ c <=? size_ c.

Section Methods.
Variable policy_ : Policy K V.

Definition SafeSizeOf (key : K) (v : V) : option Z :=
  let result := SizeOf policy_ key v in CHECK (0 <=? result);; Some result.

(** ** The sections under the lock *)

(** The key of an entry in place becomes the first of the list; the entry may get another
    reference. *)
Definition move_to_front (key : K) (node r : nat) (c : Cache) : option Cache :=
  c ← list_erase node c;
  let '(node, c) := list_insert key c in
  Some (set_map (<[key := (r, node)]> (map_ c)) c).

Definition Get_find (key : K) (c : Cache) : option (option nat * Cache) :=
  match map_ c !! key with
  | Some (r, node) =>
      c ← move_to_front key node r c;
      c ← cache_IncRef r (count_ hit c);
      Some (Some r, c)
  | None => Some (None, count_ miss c)
  end.

(** The reference to give and whether the value created is dumped. *)
Definition Get_add (key : K) (createdValue : V) (c : Cache) : option (nat * bool * Cache) :=
  let c := count_ created c in
  match map_ c !! key with
  | Some (r, node) =>
      c ← move_to_front key node r c;
      c ← cache_IncRef r c;
      Some (r, true, c)
  | None =>
      let '(node, c) := list_insert key c in
      let '(r, c) := cache_CreateRef createdValue c in
      let c := set_map (<[key := (r, node)]> (map_ c)) c in
      s ← SafeSizeOf key createdValue;
      c ← cache_IncRef r (set_size (size_ c + s) c);
      Some (r, false, c)
  end.

(** [if (added) { ref->IncRef(); *added = ref; }]. *)
Definition give_added (want : bool) (r : nat) (c : Cache) : option (option nat * Cache) :=
  if want then c ← cache_IncRef r c; Some (Some r, c) else Some (None, c).

(** The previous reference and the one added, if it is asked for. *)
Definition Put_add (key : K) (value : V) (want : bool) (c : Cache) : option (option nat * option nat * Cache) :=
  let c := count_ was_put c in
  '(previous, added, c) ←
    match map_ c !! key with
    | Some (previous, node) =>
        v ← get_data previous c;
        s ← SafeSizeOf key v;
        c ← list_erase node (set_size (size_ c - s) c);
        let '(node, c) := list_insert key c in
        let '(r, c) := cache_CreateRef value c in
        '(added, c) ← give_added want r c;
        Some (Some previous, added, set_map (<[key := (r, node)]> (map_ c)) c)
    | None =>
        let '(node, c) := list_insert key c in
        let '(r, c) := cache_CreateRef value c in
        '(added, c) ← give_added want r (set_map (<[key := (r, node)]> (map_ c)) c);
        Some (None, added, c)
    end;
  s ← SafeSizeOf key value;
  Some (previous, added, set_size (size_ c + s) c).

Definition Remove_find (key : K) (c : Cache) : option (option nat * Cache) :=
  match map_ c !! key with
  | Some (previous, node) =>
      v ← get_data previous c;
      s ← SafeSizeOf key v;
      c ← list_erase node (set_size (size_ c - s) c);
      Some (Some previous, set_map (delete key (map_ c)) c)
  | None => Some (None, c)
  end.

(** Whether [TrimToSize] is over. *)
Definition Trim_check (max_size : Z) (c : Cache) : option bool :=
  let empty := bool_decide (map_ c = ∅) in
  CHECK ((0 <=? size_ c) && negb (empty && negb (size_ c =? 0)));;
  Some ((size_ c <=? max_size) || empty).

(** The entry taken out; without one the loop is left with the lock held. *)
Definition Trim_evict (c : Cache) : option (option (K * nat) * Cache) :=
  match list.last (list_ c) with
  | None => Some (None, set_mutex true c)
  | Some (_, key) =>
      let c := set_list (removelast (list_ c)) c in
      match map_ c !! key with
      | None => None
      | Some (value, _) =>
          let c := set_map (delete key (map_ c)) c in
          v ← get_data value c;
          s ← SafeSizeOf key v;
          Some (Some (key, value), count_ evicted (set_size (size_ c - s) c))
      end
  end.

(** ** Threads *)

Inductive Result :=
  | Got (ret_val : option nat)
  | PutDone (replaced : bool) (previous added : option nat)
  | Removed (removed : bool) (previous : option nat)
  | Trimmed.

(** What a call does after [TrimToSize]. *)
Inductive After :=
  | ThenCreate (key : K)
  | ThenPut (key : K) (value : V) (two want : bool)
  | ThenDrop (previous : nat) (added : option nat)
  | ThenReturn (res : Result).

(** Where a call is.  [two] is the overload of two arguments of [Put], or of one of
    [Remove], that drops the previous value. *)
Inductive Stage :=
  | GetStart (key : K)
  | GetCreate (key : K)
  | GetAdd (key : K) (createdValue : V)
  | GetDestroy (createdValue : V) (r : nat)
  | PutAdd (key : K) (value : V) (two want : bool)
  | PutPrevious (previous : nat) (added : option nat) (two : bool)
  | PutRemoved (previous : nat) (added : option nat) (two : bool)
  | PutDrop (previous : nat) (added : option nat)
  | RemoveStart (key : K) (two : bool)
  | RemovePrevious (previous : nat) (two : bool)
  | RemoveRemoved (previous : nat) (two : bool)
  | RemoveDrop (previous : nat)
  | TrimCheck (max_size : Z) (k : After)
  | TrimEvict (max_size : Z) (k : After)
  | TrimRemoved (max_size : Z) (value : nat) (k : After)
  | Done (res : Result).

Definition after (k : After) : Stage :=
  match k with
  | ThenCreate key => GetCreate key
  | ThenPut key value two want => PutAdd key value two want
  | ThenDrop previous added => PutDrop previous added
  | ThenReturn res => Done res
  end.

(** The stage after the value is in place and the previous one given up. *)
Definition put_result (previous : option nat) (added : option nat) (two : bool) : After :=
  match previous with
  | Some r => if two then ThenDrop r added else ThenReturn (PutDone true (Some r) added)
  | None => ThenReturn (PutDone false None added)
  end.

Definition then_trim (trim : bool) (k : After) (c : Cache) : Stage :=
  if trim then TrimCheck (max_size_ c) k else after k.

(** [OpPutGet] is the overload of [Put] that returns the references. *)
Inductive Op :=
  | OpGet (key : K)
  | OpPut (key : K) (value : V)
  | OpPutGet (key : K) (value : V) (want : bool)
  | OpRemove (key : K) (two : bool)
  | OpEvictAll.

Definition start (op : Op) (c : Cache) : Stage :=
  match op with
  | OpGet key => GetStart key
  | OpPut key value => then_trim (allow_overshoot_ c) (ThenPut key value true false) c
  | OpPutGet key value want => then_trim (allow_overshoot_ c) (ThenPut key value false want) c
  | OpRemove key two => RemoveStart key two
  | OpEvictAll => TrimCheck (-1) (ThenReturn Trimmed)
  end.

(** The stages that begin with taking the lock. *)
Definition takes_lock (t : Stage) : bool :=
  match t with
  | GetStart _ | GetAdd _ _ | PutAdd _ _ _ _ | RemoveStart _ _ | TrimCheck _ _ | TrimEvict _ _ => true
  | _ => false
  end.

Definition Get_step (t : Stage) (c : Cache) : option (Stage * Cache) :=
  match t with
  | GetStart key =>
      '(found, c) ← Get_find key c;
      match found with
      | Some r => Some (Done (Got (Some r)), c)
      | None => Some (then_trim (allow_overshoot_ c) (ThenCreate key) c, c)
      end
  | GetCreate key =>
      match Create policy_ key with
      | None => Some (Done (Got None), c)
      | Some createdValue => Some (GetAdd key createdValue, c)
      end
  | GetAdd key createdValue =>
      '(r, createdDumped, c) ← Get_add key createdValue c;
      if createdDumped : bool then Some (GetDestroy createdValue r, c)
      else Some (then_trim (negb (allow_overshoot_ c)) (ThenReturn (Got (Some r))) c, c)
  | GetDestroy createdValue r => Some (Done (Got (Some r)), set_memory (Destroy createdValue (memory c)) c)
  | _ => None
  end.

Definition Put_step (t : Stage) (c : Cache) : option (Stage * Cache) :=
  match t with
  | PutAdd key value two want =>
      '(previous, added, c) ← Put_add key value want c;
      match previous with
      | Some r => Some (PutPrevious r added two, c)
      | None => Some (then_trim (negb (allow_overshoot_ c)) (put_result None added two) c, c)
      end
  | PutPrevious previous added two => c ← cache_IncRef previous c; Some (PutRemoved previous added two, c)
  | PutRemoved previous added two =>
      c ← cache_DecRef previous c;
      Some (then_trim (negb (allow_overshoot_ c)) (put_result (Some previous) added two) c, c)
  | PutDrop previous added => c ← cache_DecRef previous c; Some (Done (PutDone true None added), c)
  | _ => None
  end.

Definition Remove_step (t : Stage) (c : Cache) : option (Stage * Cache) :=
  match t with
  | RemoveStart key two =>
      '(previous, c) ← Remove_find key c;
      match previous with
      | Some r => Some (RemovePrevious r two, c)
      | None => Some (Done (Removed false None), c)
      end
  | RemovePrevious previous two => c ← cache_IncRef previous c; Some (RemoveRemoved previous two, c)
  | RemoveRemoved previous two =>
      c ← cache_DecRef previous c;
      Some (if two then RemoveDrop previous else Done (Removed true (Some previous)), c)
  | RemoveDrop previous => c ← cache_DecRef previous c; Some (Done (Removed true None), c)
  | _ => None
  end.

(** [TrimToSize]: the lock is given up between the test and the eviction. *)
Definition TrimToSize_step (t : Stage) (c : Cache) : option (Stage * Cache) :=
  match t with
  | TrimCheck max_size k =>
      over ← Trim_check max_size c;
      Some (if over : bool then after k else TrimEvict max_size k, c)
  | TrimEvict max_size k =>
      '(entry, c) ← Trim_evict c;
      match entry with
      | None => Some (after k, c)
      | Some (_, value) => Some (TrimRemoved max_size value k, c)
      end
  | TrimRemoved max_size value k => c ← cache_DecRef value c; Some (TrimCheck max_size k, c)
  | _ => None
  end.

(** A stage of a thread; one that needs the lock spins while it is held. *)
Definition step (t : Stage) (c : Cache) : option (Stage * Cache) :=
  if takes_lock t && mutex_ c then Some (t, c) else
  match t with
  | GetStart _ | GetCreate _ | GetAdd _ _ | GetDestroy _ _ => Get_step t c
  | PutAdd _ _ _ _ | PutPrevious _ _ _ | PutRemoved _ _ _ | PutDrop _ _ => Put_step t c
  | RemoveStart _ _ | RemovePrevious _ _ | RemoveRemoved _ _ | RemoveDrop _ => Remove_step t c
  | TrimCheck _ _ | TrimEvict _ _ | TrimRemoved _ _ _ => TrimToSize_step t c
  | Done res => Some (t, c)
  end.

(** A call while no other thread is in the cache. *)
Definition call_step (st : Stage * Cache) : option (Stage * Cache + Result * Cache) :=
  let '(t, c) := st in
  match t with
  | Done res => Some (inr (res, c))
  | _ => x ← step t c; Some (inl x)
  end.

Definition call (op : Op) (c : Cache) : option (Result * Cache) :=
  loop call_step (3 * length (list_ c) + 20) (start op c, c).

End Methods.
End Cache.

#[global] Arguments Cache K {_ _} V.
#[global] Arguments Stage : clear implicits.
#[global] Arguments After : clear implicits.
#[global] Arguments Op : clear implicits.

End LruCache.
