(* ===== verification/LruCacheSpec.v ===== *)
(** * LruCacheSpec: what a cache holds, and what every section of its code does to it

    [Counted]: the references are counted as often as they are held.  [Rep]: the entries that
    the list, the map and the size of a cache describe; [Holds] is its contents as a list of
    keys and values, the most recently used first.  The sections of the code are specified
    on it, and [step_well] says what every step of a thread keeps. *)

From Stdlib Require Import Permutation.
From S2P Require Import Prelude.
From S2P Require Import LruCache.

Module LruCacheSpec.
Import LruCache.

(** ** References

    [own] lists the references that somebody holds, one entry for each; the memory is exact
    when every reference is counted as often as it is held. *)
Section Memory.
Context {V : Type}.

Definition data_of (r : nat) (m : Memory V) : option V := data_ <$> refs m !! r.
Definition ref_count_of (r : nat) (m : Memory V) : Z := default 0 (ref_count_ <$> refs m !! r).
Definition held (r : nat) (own : list nat) : Z := Z.of_nat (count_occ Nat.eq_dec own r).

Record Counted (m : Memory V) (own : list nat) : Prop := {
  counted_held : forall r, ref_count_of r m = held r own;
  counted_pos : forall r o, refs m !! r = Some o -> 0 < ref_count_ o;
  counted_old : forall r o, refs m !! r = Some o -> (r < next_ref m)%nat }.

Lemma held_cons r x own : held r (x :: own) = held r own + (if decide (x = r) then 1 else 0).
Proof. unfold held. simpl. destruct (Nat.eq_dec x r), (decide (x = r)); congruence || lia. Qed.

Lemma held_pos r own : 0 < held r own <-> r ∈ own.
Proof. unfold held. rewrite list_elem_of_In, (count_occ_In Nat.eq_dec). lia. Qed.

Lemma held_app r l1 l2 : held r (l1 ++ l2) = held r l1 + held r l2.
Proof. unfold held. rewrite count_occ_app. lia. Qed.

#[global] Instance Counted_Permutation m : Proper ((≡ₚ) ==> iff) (Counted m).
Proof.
  assert (Hp : forall l1 l2, l1 ≡ₚ l2 -> Counted m l1 -> Counted m l2).
  { intros l1 l2 Hl [Hh Hpos Hold]. split; [|done..]. intros r. rewrite Hh. unfold held. f_equal.
    by apply Permutation_count_occ. }
  intros l1 l2 Hl. split; [by apply Hp|]. apply Hp. by symmetry.
Qed.

Lemma Counted_lookup m own r : Counted m own -> r ∈ own -> exists o, refs m !! r = Some o.
Proof.
  intros [Hh _ _] Hr. specialize (Hh r). apply held_pos in Hr. unfold ref_count_of in Hh.
  destruct (refs m !! r) as [o|]; [by exists o|simpl in Hh; lia].
Qed.

Lemma Counted_empty : Counted (mkMemory V ∅ 0 []) [].
Proof. split; intros r; unfold ref_count_of; simpl; rewrite lookup_empty; done. Qed.

(** Nobody holds anything: there is no reference left. *)
Lemma Counted_nil m : Counted m [] -> refs m = ∅.
Proof.
  intros [Hh Hpos _]. apply map_empty. intros r. specialize (Hh r). unfold ref_count_of in Hh.
  destruct (refs m !! r) as [o|] eqn:Ho; [|done]. specialize (Hpos r o Ho). simpl in Hh. unfold held in Hh. simpl in Hh. lia.
Qed.

Lemma ref_taken m own r : Counted m own -> r ∈ own -> exists m', IncRef r m = Some m' /\ Counted m' (r :: own) /\
  forall x, data_of x m' = data_of x m.
Proof.
  intros Hc Hr. destruct (Counted_lookup m own r Hc Hr) as [o Ho]. unfold IncRef. rewrite Ho. cbn [mbind option_bind].
  eexists. split; [done|]. destruct Hc as [Hh Hpos Hold]. split.
  - split.
    + intros x. rewrite held_cons, <- Hh. unfold ref_count_of. cbn [refs].
      destruct (decide (r = x)) as [->|]; [rewrite lookup_insert_eq, Ho; done|rewrite lookup_insert_ne by done; lia].
    + intros x o' Hx. cbn [refs] in Hx. apply lookup_insert_Some in Hx as [[<- <-]|[_ Hx]]; [simpl; specialize (Hpos r o Ho); lia|eauto].
    + intros x o' Hx. cbn [refs next_ref] in *. apply lookup_insert_Some in Hx as [[<- <-]|[_ Hx]]; eauto.
  - intros x. unfold data_of. cbn [refs]. destruct (decide (r = x)) as [->|]; [by rewrite lookup_insert_eq, Ho|by rewrite lookup_insert_ne].
Qed.

Lemma ref_dropped m own r : Counted m (r :: own) -> exists m', DecRef r m = Some m' /\ Counted m' own /\
  forall x, x ∈ own -> data_of x m' = data_of x m.
Proof.
  intros Hc. destruct (Counted_lookup m _ r Hc) as [o Ho]; [left|]. unfold DecRef. rewrite Ho. cbn [mbind option_bind].
  destruct Hc as [Hh Hpos Hold]. pose proof (Hh r) as Hr. rewrite held_cons, decide_True in Hr by done.
  unfold ref_count_of in Hr. rewrite Ho in Hr. simpl in Hr. pose proof (Hpos r o Ho).
  destruct (Z.eqb_spec (ref_count_ o) 1) as [H1|H1]; (eexists; split; [done|]).
  - assert (Hz : r ∉ own) by (rewrite <- held_pos; lia). split.
    + split.
      * intros x. specialize (Hh x). rewrite held_cons in Hh. unfold ref_count_of in *. cbn [refs].
        destruct (decide (r = x)) as [<-|]; [rewrite lookup_delete_eq; simpl; lia|rewrite lookup_delete_ne by done; lia].
      * intros x o' Hx. cbn [refs] in Hx. apply lookup_delete_Some in Hx as [_ Hx]. eauto.
      * intros x o' Hx. cbn [refs next_ref] in *. apply lookup_delete_Some in Hx as [_ Hx]. eauto.
    + intros x Hx. unfold data_of. cbn [refs]. rewrite lookup_delete_ne; [done|]. by intros ->.
  - split.
    + split.
      * intros x. specialize (Hh x). rewrite held_cons in Hh. unfold ref_count_of in *. cbn [refs].
        destruct (decide (r = x)) as [<-|]; [rewrite lookup_insert_eq; simpl; lia|rewrite lookup_insert_ne by done; lia].
      * intros x o' Hx. cbn [refs] in Hx. apply lookup_insert_Some in Hx as [[<- <-]|[_ Hx]]; [simpl; lia|eauto].
      * intros x o' Hx. cbn [refs next_ref] in *. apply lookup_insert_Some in Hx as [[<- <-]|[_ Hx]]; eauto.
    + intros x Hx. unfold data_of. cbn [refs]. destruct (decide (r = x)) as [->|]; [by rewrite lookup_insert_eq, Ho|by rewrite lookup_insert_ne].
Qed.

Lemma CreateRef_spec m own v : Counted m own -> exists m', CreateRef v m = (next_ref m, m') /\
  Counted m' (next_ref m :: own) /\ data_of (next_ref m) m' = Some v /\ forall x, x ∈ own -> data_of x m' = data_of x m.
Proof.
  intros Hc. eexists. split; [done|]. destruct Hc as [Hh Hpos Hold].
  assert (Hnew : refs m !! next_ref m = None).
  { destruct (refs m !! next_ref m) as [o|] eqn:Ho; [|done]. specialize (Hold _ _ Ho). lia. }
  split; [|split].
  - split.
    + intros x. rewrite held_cons, <- Hh. unfold ref_count_of. cbn [refs].
      destruct (decide (next_ref m = x)) as [<-|]; [by rewrite lookup_insert_eq, Hnew|rewrite lookup_insert_ne by done; lia].
    + intros x o' Hx. cbn [refs] in Hx. apply lookup_insert_Some in Hx as [[<- <-]|[_ Hx]]; [simpl; lia|eauto].
    + intros x o' Hx. cbn [refs next_ref] in *. apply lookup_insert_Some in Hx as [[<- <-]|[_ Hx]]; [lia|]. specialize (Hold _ _ Hx). lia.
  - unfold data_of. cbn [refs]. by rewrite lookup_insert_eq.
  - intros x Hx. unfold data_of. cbn [refs]. rewrite lookup_insert_ne; [done|]. intros <-.
    destruct (Counted_lookup m own (next_ref m)) as [o Ho]; [done|done|congruence].
Qed.

End Memory.

(** ** The entries

    What the list, the map, the size and the references of a cache say together: the
    entries, the most recently used first. *)
Section Entries.
Context {K : Type} {K_eq_dec : EqDecision K} {K_countable : Countable K} {V : Type}.
Variable policy_ : Policy K V.

Record Entry := mkEntry { e_key : K; e_val : V; e_ref : nat; e_node : nat }.

Definition entry_map (es : list Entry) : gmap K (nat * nat) :=
  list_to_map ((fun e => (e_key e, (e_ref e, e_node e))) <$> es).
Definition total (l : list (K * V)) : Z := foldr (fun x => Z.add (SizeOf policy_ x.1 x.2)) 0 l.
Definition contents (es : list Entry) : list (K * V) := (fun e => (e_key e, e_val e)) <$> es.

Record Rep (c : Cache K V) (es : list Entry) (own : list nat) : Prop := {
  rep_list : list_ c = (fun e => (e_node e, e_key e)) <$> es;
  rep_nodes : NoDup (e_node <$> es);
  rep_new : forall e, e ∈ es -> (e_node e < next_node c)%nat;
  rep_keys : NoDup (e_key <$> es);
  rep_map : map_ c = entry_map es;
  rep_memory : Counted (memory c) ((e_ref <$> es) ++ own);
  rep_values : forall e, e ∈ es -> data_of (e_ref e) (memory c) = Some (e_val e);
  rep_size : size_ c = total (contents es) }.

(** What the sections of the code leave alone: the limits, the lock and the values of the
    references that are held. *)
Record Frame (own : list nat) (c c' : Cache K V) : Prop := {
  frame_max : max_size_ c' = max_size_ c;
  frame_overshoot : allow_overshoot_ c' = allow_overshoot_ c;
  frame_mutex : mutex_ c' = mutex_ c;
  frame_data : forall r, r ∈ own -> data_of r (memory c') = data_of r (memory c) }.

Lemma Frame_refl own c : Frame own c c.
Proof. done. Qed.

Lemma Frame_trans own c1 c2 c3 : Frame own c1 c2 -> Frame own c2 c3 -> Frame own c1 c3.
Proof.
  intros [H1 H2 H3 H4] [H5 H6 H7 H8]. split; [congruence..|]. intros r Hr. by rewrite H8, H4.
Qed.

Lemma total_app l1 l2 : total (l1 ++ l2) = total l1 + total l2.
Proof. unfold total. induction l1 as [|x l1 IH]; simpl; [done|]. rewrite IH. lia. Qed.

Lemma total_middle l1 x l2 : total (l1 ++ x :: l2) = SizeOf policy_ x.1 x.2 + total (l1 ++ l2).
Proof. rewrite !total_app. simpl. lia. Qed.

Lemma contents_app es1 es2 : contents (es1 ++ es2) = contents es1 ++ contents es2.
Proof. apply fmap_app. Qed.

Lemma elem_of_middle {A} (x : A) l1 y l2 : x ∈ l1 ++ l2 -> x ∈ l1 ++ y :: l2.
Proof. rewrite !elem_of_app, elem_of_cons. tauto. Qed.

Lemma middle_elem {A} (y : A) l1 l2 : y ∈ l1 ++ y :: l2.
Proof. rewrite elem_of_app, elem_of_cons. tauto. Qed.

(** ** The map and the list *)

Lemma entry_map_perm es1 es2 : NoDup (e_key <$> es1) -> es1 ≡ₚ es2 -> entry_map es1 = entry_map es2.
Proof.
  intros Hn Hp. apply list_to_map_proper; [|by apply fmap_Permutation].
  by rewrite <- list_fmap_compose.
Qed.

Lemma NoDup_middle {A B} (f : A -> B) es1 e es2 : NoDup (f <$> es1 ++ e :: es2) -> (f e ∉ (f <$> es1 ++ es2)) /\ NoDup (f <$> es1 ++ es2).
Proof.
  intros Hn. assert (Hp : f <$> es1 ++ e :: es2 ≡ₚ f <$> e :: es1 ++ es2) by (apply fmap_Permutation; by rewrite Permutation_middle).
  rewrite Hp in Hn. rewrite fmap_cons in Hn. by apply list.NoDup_cons in Hn.
Qed.

Lemma entry_map_lookup es key r node : NoDup (e_key <$> es) -> entry_map es !! key = Some (r, node) ->
  exists es1 e es2, es = es1 ++ e :: es2 /\ e_key e = key /\ e_ref e = r /\ e_node e = node.
Proof.
  intros Hn Hl. apply elem_of_list_to_map in Hl; [|by rewrite <- list_fmap_compose].
  apply list_elem_of_fmap in Hl as (e & He & Hin). apply list_elem_of_split in Hin as (es1 & es2 & ->).
  exists es1, e, es2. by simplify_eq.
Qed.

Lemma entry_map_None es key : entry_map es !! key = None <-> key ∉ (e_key <$> es).
Proof. unfold entry_map. rewrite <- not_elem_of_list_to_map, <- list_fmap_compose. done. Qed.

Lemma entry_map_insert es1 e es2 x : NoDup (e_key <$> es1 ++ e :: es2) ->
  <[e_key e := x]> (entry_map (es1 ++ e :: es2)) = <[e_key e := x]> (entry_map (es1 ++ es2)).
Proof.
  intros Hn. rewrite (entry_map_perm _ (e :: es1 ++ es2)); [|done|by rewrite Permutation_middle].
  unfold entry_map. rewrite fmap_cons. cbn [list_to_map foldr uncurry]. apply insert_insert_eq.
Qed.

Lemma entry_map_delete es1 e es2 : NoDup (e_key <$> es1 ++ e :: es2) ->
  delete (e_key e) (entry_map (es1 ++ e :: es2)) = entry_map (es1 ++ es2).
Proof.
  intros Hn. pose proof (NoDup_middle _ _ _ _ Hn) as [Hk _].
  rewrite (entry_map_perm _ (e :: es1 ++ es2)); [|done|by rewrite Permutation_middle].
  apply entry_map_None in Hk. unfold entry_map in *. rewrite fmap_cons. cbn [list_to_map foldr uncurry].
  by apply delete_insert_id.
Qed.

Lemma filter_nodes node es : node ∉ (e_node <$> es) ->
  List.filter (fun x => negb (Nat.eqb x.1 node)) ((fun e => (e_node e, e_key e)) <$> es) = (fun e => (e_node e, e_key e)) <$> es.
Proof.
  induction es as [|e es IH]; intros Hn; [done|]. rewrite !fmap_cons in *. apply not_elem_of_cons in Hn as [Hne Hn].
  cbn [List.filter fst]. destruct (Nat.eqb_spec (e_node e) node); [congruence|]. simpl. by rewrite IH.
Qed.

Lemma list_erase_spec (c : Cache K V) es1 e es2 : list_ c = (fun e => (e_node e, e_key e)) <$> es1 ++ e :: es2 ->
  NoDup (e_node <$> es1 ++ e :: es2) ->
  list_erase (e_node e) c = Some (set_list ((fun e => (e_node e, e_key e)) <$> es1 ++ es2) c).
Proof.
  intros Hl Hn. unfold list_erase. rewrite CHECK_true.
  - cbn [mbind option_bind]. rewrite Hl. f_equal. f_equal. apply NoDup_middle in Hn as [Hn _].
    rewrite fmap_app in Hn. apply not_elem_of_app in Hn as [Hn1 Hn2].
    rewrite fmap_app, fmap_cons, List.filter_app, filter_nodes by done. cbn [List.filter fst]. rewrite Nat.eqb_refl. simpl.
    by rewrite filter_nodes, fmap_app by done.
  - rewrite Hl, fmap_app, fmap_cons, existsb_app. simpl. by rewrite Nat.eqb_refl, orb_true_r.
Qed.

(** An entry that goes to the front, with another reference or value perhaps. *)
Definition renewed (c : Cache K V) (e : Entry) : Entry := mkEntry (e_key e) (e_val e) (e_ref e) (next_node c).

Lemma front_nodes (c : Cache K V) es1 e es2 : (forall x, x ∈ es1 ++ e :: es2 -> (e_node x < next_node c)%nat) ->
  NoDup (e_node <$> es1 ++ e :: es2) -> NoDup (next_node c :: (e_node <$> es1 ++ es2)).
Proof.
  intros Hnew Hn. apply list.NoDup_cons. apply NoDup_middle in Hn as [_ Hn]. split; [|done].
  intros Hin. apply list_elem_of_fmap in Hin as (x & Hx & Hin).
  assert (Hlt : (e_node x < next_node c)%nat); [|lia]. by apply Hnew, elem_of_middle.
Qed.

(** ** The sections *)

Hypothesis SizeOf_nonneg : forall k v, 0 <= SizeOf policy_ k v.

Lemma SafeSizeOf_some k v : SafeSizeOf policy_ k v = Some (SizeOf policy_ k v).
Proof. unfold SafeSizeOf. by rewrite CHECK_true by (apply Z.leb_le; apply SizeOf_nonneg). Qed.

Lemma sizes_nonneg l : 0 <= total l.
Proof. induction l as [|x l IH]; simpl; [done|]. pose proof (SizeOf_nonneg x.1 x.2). lia. Qed.

(** The lock, the limits and the counters do not matter. *)
Lemma Rep_same c c' es own : Rep c es own -> memory c' = memory c -> list_ c' = list_ c -> next_node c' = next_node c ->
  map_ c' = map_ c -> size_ c' = size_ c -> Rep c' es own.
Proof.
  intros [H1 H2 H3 H4 H5 H6 H7 H8] Hm Hl Hn Hmap Hs. split; rewrite ?Hm, ?Hl, ?Hn, ?Hmap, ?Hs; done.
Qed.

Lemma Rep_own c es own own' : own ≡ₚ own' -> Rep c es own -> Rep c es own'.
Proof. intros Hp [H1 H2 H3 H4 H5 H6 H7 H8]. split; try done. by rewrite <- Hp. Qed.

Lemma find_Some c es own key r node : Rep c es own -> map_ c !! key = Some (r, node) ->
  exists es1 e es2, es = es1 ++ e :: es2 /\ e_key e = key /\ e_ref e = r /\ e_node e = node.
Proof. intros Hr Hm. rewrite (rep_map _ _ _ Hr) in Hm. apply entry_map_lookup; [apply Hr|done]. Qed.

Lemma find_None c es own key : Rep c es own -> map_ c !! key = None -> key ∉ (e_key <$> es).
Proof. intros Hr Hm. rewrite (rep_map _ _ _ Hr) in Hm. by apply entry_map_None. Qed.

Lemma refs_middle es1 e es2 own : (e_ref <$> es1 ++ e :: es2) ++ own ≡ₚ e_ref e :: (e_ref <$> es1 ++ es2) ++ own.
Proof. rewrite !fmap_app, fmap_cons, <- !app_assoc. simpl. by rewrite <- Permutation_middle. Qed.

Lemma move_to_front_spec c es1 e es2 own : Rep c (es1 ++ e :: es2) own -> exists c',
  move_to_front (e_key e) (e_node e) (e_ref e) c = Some c' /\ Rep c' (renewed c e :: es1 ++ es2) own /\
  Frame own c c' /\ memory c' = memory c.
Proof.
  intros [H1 H2 H3 H4 H5 H6 H7 H8]. unfold move_to_front. rewrite (list_erase_spec c es1 e es2) by done.
  cbn [mbind option_bind list_insert set_list next_node list_ memory map_ size_ max_size_ allow_overshoot_ counts mutex_].
  eexists. split; [done|]. pose proof (front_nodes c es1 e es2 H3 H2) as Hnd.
  split; [|done]. split; cbn [set_map next_node list_ memory map_ size_].
  - done.
  - done.
  - intros x Hx. apply elem_of_cons in Hx as [->|Hx]; [simpl; lia|].
    assert (Hlt : (e_node x < next_node c)%nat); [|lia]. by apply H3, elem_of_middle.
  - rewrite fmap_cons. simpl. apply list.NoDup_cons. by apply NoDup_middle.
  - rewrite H5, entry_map_insert by done. unfold entry_map. by rewrite fmap_cons.
  - rewrite fmap_cons. rewrite refs_middle in H6. done.
  - intros x Hx. apply elem_of_cons in Hx as [->|Hx]; [apply (H7 e), middle_elem|by apply H7, elem_of_middle].
  - rewrite H8. unfold contents. rewrite !fmap_app, fmap_cons, total_middle. simpl. by rewrite fmap_app.
Qed.

Lemma contents_renewed c e es : contents (renewed c e :: es) = (e_key e, e_val e) :: contents es.
Proof. done. Qed.

(** The value of a key, and the rest. *)
Definition assoc (key : K) (l : list (K * V)) : option V := snd <$> List.find (fun x => bool_decide (x.1 = key)) l.
Definition remove_key (key : K) (l : list (K * V)) : list (K * V) := List.filter (fun x => negb (bool_decide (x.1 = key))) l.

Lemma remove_key_absent key es : key ∉ (e_key <$> es) -> remove_key key (contents es) = contents es.
Proof.
  induction es as [|e es IH]; intros Hk; [done|]. rewrite fmap_cons in Hk. apply not_elem_of_cons in Hk as [Hne Hk].
  unfold contents in *. rewrite fmap_cons. cbn [remove_key List.filter fst]. rewrite bool_decide_eq_false_2 by done. simpl.
  f_equal. by apply IH.
Qed.

Lemma assoc_absent key es : key ∉ (e_key <$> es) -> assoc key (contents es) = None.
Proof.
  induction es as [|e es IH]; intros Hk; [done|]. rewrite fmap_cons in Hk. apply not_elem_of_cons in Hk as [Hne Hk].
  unfold contents, assoc in *. rewrite fmap_cons. cbn [List.find fst]. rewrite bool_decide_eq_false_2 by done. by apply IH.
Qed.

Lemma assoc_middle es1 e es2 : NoDup (e_key <$> es1 ++ e :: es2) ->
  assoc (e_key e) (contents (es1 ++ e :: es2)) = Some (e_val e) /\
  remove_key (e_key e) (contents (es1 ++ e :: es2)) = contents (es1 ++ es2).
Proof.
  intros Hn. apply NoDup_middle in Hn as [Hk _]. rewrite fmap_app in Hk. apply not_elem_of_app in Hk as [Hk1 Hk2].
  rewrite contents_app. cbn [contents fmap list_fmap]. fold (contents es2). split.
  - unfold assoc. pose proof (assoc_absent _ _ Hk1) as Ha. unfold assoc in Ha.
    assert (Hf : List.find (fun x => bool_decide (x.1 = e_key e)) (contents es1) = None)
      by (destruct (List.find _ (contents es1)); done).
    clear Ha Hk1. induction (contents es1) as [|x l IH]; simpl in *; [by rewrite bool_decide_eq_true_2|].
    destruct (bool_decide (x.1 = e_key e)); [done|]. by apply IH.
  - unfold remove_key. rewrite List.filter_app. fold (remove_key (e_key e) (contents es1)).
    rewrite remove_key_absent by done. cbn [List.filter fst]. rewrite bool_decide_eq_true_2 by done. simpl.
    fold (remove_key (e_key e) (contents es2)). by rewrite remove_key_absent, contents_app by done.
Qed.

(** The cache holds the entries of [l], and [own] is held outside it. *)
Definition Holds (c : Cache K V) (l : list (K * V)) (own : list nat) : Prop := exists es, Rep c es own /\ contents es = l.

Lemma Holds_own c l own own' : own ≡ₚ own' -> Holds c l own -> Holds c l own'.
Proof. intros Hp (es & Hr & Hl). exists es. split; [by eapply Rep_own|done]. Qed.

Lemma Rep_IncRef c es own r : Rep c es own -> r ∈ (e_ref <$> es) ++ own -> exists c',
  cache_IncRef r c = Some c' /\ Rep c' es (r :: own) /\ (forall own', Frame own' c c') /\ data_of r (memory c') = data_of r (memory c).
Proof.
  intros [H1 H2 H3 H4 H5 H6 H7 H8] Hr. destruct (ref_taken _ _ r H6 Hr) as (m & Hi & Hc & Hd).
  unfold cache_IncRef. rewrite Hi. cbn [mbind option_bind]. eexists. split; [done|]. split; [|split; [done|apply Hd]].
  split; try done; cbn [set_memory memory].
  - by rewrite <- Permutation_middle.
  - intros x Hx. rewrite Hd. by apply H7.
Qed.

Lemma Rep_DecRef c es own r : Rep c es (r :: own) -> exists c',
  cache_DecRef r c = Some c' /\ Rep c' es own /\ Frame own c c'.
Proof.
  intros [H1 H2 H3 H4 H5 H6 H7 H8]. rewrite <- Permutation_middle in H6. destruct (ref_dropped _ _ r H6) as (m & Hi & Hc & Hd).
  unfold cache_DecRef. rewrite Hi. cbn [mbind option_bind]. eexists. split; [done|]. split.
  - split; try done. cbn [set_memory memory]. intros x Hx. rewrite Hd; [by apply H7|]. apply elem_of_app. left. by apply list_elem_of_fmap_2.
  - split; try done. intros x Hx. apply Hd, elem_of_app. by right.
Qed.

Lemma Rep_front c es key v r node own :
  list_ c = (node, key) :: ((fun e => (e_node e, e_key e)) <$> es) -> NoDup (node :: (e_node <$> es)) ->
  next_node c = S node -> (forall e, e ∈ es -> (e_node e < node)%nat) ->
  NoDup (key :: (e_key <$> es)) -> map_ c = <[key := (r, node)]> (entry_map es) ->
  Counted (memory c) (r :: (e_ref <$> es) ++ own) -> data_of r (memory c) = Some v ->
  (forall e, e ∈ es -> data_of (e_ref e) (memory c) = Some (e_val e)) ->
  size_ c = SizeOf policy_ key v + total (contents es) -> Rep c (mkEntry key v r node :: es) own.
Proof.
  intros H1 H2 H3 H4 H5 H6 H7 H8 H9 H10. split; try done.
  - intros e He. rewrite H3. apply elem_of_cons in He as [->|He]; [simpl; lia|]. specialize (H4 e He). lia.
  - intros e He. apply elem_of_cons in He as [->|He]; [done|auto].
Qed.

Lemma set_memory_same (c : Cache K V) : set_memory (memory c) c = c.
Proof. by destruct c. Qed.

Lemma give_added_spec want r (c : Cache K V) own : Counted (memory c) own -> r ∈ own -> exists m,
  give_added want r c = Some (if want then Some r else None, set_memory m c) /\
  Counted m ((if want then [r] else []) ++ own) /\ forall x, data_of x m = data_of x (memory c).
Proof.
  intros Hc Hr. unfold give_added, cache_IncRef. destruct want.
  - destruct (ref_taken _ _ r Hc Hr) as (m & -> & Hm & Hd). cbn [mbind option_bind]. by exists m.
  - exists (memory c). by rewrite set_memory_same.
Qed.

(** The cache without an entry that was found. *)
Lemma Rep_without c es1 e es2 own : Rep c (es1 ++ e :: es2) own -> let es := es1 ++ es2 in
  list_erase (e_node e) c = Some (set_list ((fun e => (e_node e, e_key e)) <$> es) c) /\
  NoDup (next_node c :: (e_node <$> es)) /\ NoDup (e_node <$> es) /\ (forall x, x ∈ es -> (e_node x < next_node c)%nat) /\
  NoDup (e_key e :: (e_key <$> es)) /\ (forall x, <[e_key e := x]> (map_ c) = <[e_key e := x]> (entry_map es)) /\
  delete (e_key e) (map_ c) = entry_map es /\ Counted (memory c) (e_ref e :: (e_ref <$> es) ++ own) /\
  data_of (e_ref e) (memory c) = Some (e_val e) /\
  (forall x, x ∈ es -> data_of (e_ref x) (memory c) = Some (e_val x)) /\
  size_ c = SizeOf policy_ (e_key e) (e_val e) + total (contents es) /\
  assoc (e_key e) (contents (es1 ++ e :: es2)) = Some (e_val e) /\
  remove_key (e_key e) (contents (es1 ++ e :: es2)) = contents es.
Proof.
  intros [H1 H2 H3 H4 H5 H6 H7 H8] es. split_and!.
  - by apply list_erase_spec.
  - by apply (front_nodes c es1 e es2).
  - by apply NoDup_middle in H2 as [_ ?].
  - intros x Hx. by apply H3, elem_of_middle.
  - apply list.NoDup_cons. by apply NoDup_middle.
  - intros x. rewrite H5. by apply entry_map_insert.
  - rewrite H5. by apply entry_map_delete.
  - by rewrite refs_middle in H6.
  - apply H7, middle_elem.
  - intros x Hx. by apply H7, elem_of_middle.
  - rewrite H8. rewrite !contents_app. cbn [contents fmap list_fmap]. fold (contents es2). rewrite total_middle. simpl.
    unfold es. by rewrite contents_app.
  - by apply assoc_middle.
  - by apply assoc_middle.
Qed.

Lemma get_data_spec (r : nat) (c : Cache K V) v : data_of r (memory c) = Some v -> get_data r c = Some v.
Proof. unfold get_data, data_of. intros Hd. destruct (refs (memory c) !! r); simpl in *; congruence. Qed.

Lemma Get_find_spec key c l own : Holds c l own -> exists c', Frame own c c' /\
  match assoc key l with
  | Some v => exists r, Get_find key c = Some (Some r, c') /\ Holds c' ((key, v) :: remove_key key l) (r :: own) /\
                        data_of r (memory c') = Some v
  | None => Get_find key c = Some (None, c') /\ Holds c' l own
  end.
Proof.
  intros (es & Hr & <-). unfold Get_find. destruct (map_ c !! key) as [[r node]|] eqn:Hm.
  - destruct (find_Some _ _ _ _ _ _ Hr Hm) as (es1 & e & es2 & -> & <- & <- & <-).
    destruct (Rep_without c es1 e es2 own Hr) as (_ & _ & _ & _ & _ & _ & _ & _ & Hdata & _ & _ & -> & ->).
    destruct (move_to_front_spec c es1 e es2 own Hr) as (c1 & -> & Hr1 & Hf1 & Hm1). cbn [mbind option_bind].
    destruct (Rep_IncRef (count_ hit c1) (renewed c e :: es1 ++ es2) own (e_ref e)) as (c2 & -> & Hr2 & Hf2 & Hd2).
    { by eapply Rep_same. }
    { rewrite fmap_cons. left. }
    cbn [mbind option_bind]. exists c2. split; [eapply Frame_trans; [exact Hf1|]; apply (Frame_trans _ _ (count_ hit c1)); [done|apply Hf2]|].
    exists (e_ref e). split; [done|]. split; [by eexists; split; [exact Hr2|]|].
    rewrite Hd2. unfold count_. cbn [set_counts memory]. by rewrite Hm1.
  - apply (find_None _ _ _ _ Hr) in Hm. rewrite assoc_absent by done. exists (count_ miss c). split; [done|].
    split; [done|]. exists es. split; [|done]. by eapply Rep_same.
Qed.

Lemma Remove_find_spec key c l own : Holds c l own -> exists previous c',
  Remove_find policy_ key c = Some (previous, c') /\ Frame own c c' /\ Holds c' (remove_key key l) (option_list previous ++ own) /\
  (r ← previous; data_of r (memory c')) = assoc key l /\ (is_Some previous <-> is_Some (assoc key l)).
Proof.
  intros (es & Hr & <-). unfold Remove_find. destruct (map_ c !! key) as [[r node]|] eqn:Hm.
  - destruct (find_Some _ _ _ _ _ _ Hr Hm) as (es1 & e & es2 & -> & <- & <- & <-).
    destruct (Rep_without c es1 e es2 own Hr) as (_ & _ & Hnd & Hnew & Hk & _ & Hdel & Hc & Hdata & Hv & Hs & Ha & Hrm).
    rewrite (get_data_spec _ _ _ Hdata). cbn [mbind option_bind]. rewrite SafeSizeOf_some. cbn [mbind option_bind].
    rewrite (list_erase_spec _ es1 e es2) by apply Hr. cbn [mbind option_bind].
    eexists (Some (e_ref e)), _. split; [done|]. split; [done|]. rewrite Ha, Hrm. split; [|by split; [exact Hdata|]].
    exists (es1 ++ es2). split; [|done]. split; cbn; try done.
    + by apply list.NoDup_cons in Hk as [_ ?].
    + by rewrite Permutation_middle in Hc.
    + lia.
  - apply (find_None _ _ _ _ Hr) in Hm. exists None, c. rewrite assoc_absent, remove_key_absent by done.
    split_and!; try done. by exists es.
Qed.

(** A key that is not there gets a node and a reference. *)
Lemma Rep_add c es own key v m : Rep c es own -> key ∉ (e_key <$> es) ->
  CreateRef v (memory c) = (next_ref (memory c), m) ->
  Counted m (next_ref (memory c) :: (e_ref <$> es) ++ own) -> data_of (next_ref (memory c)) m = Some v ->
  (forall x, x ∈ (e_ref <$> es) ++ own -> data_of x m = data_of x (memory c)) ->
  NoDup (next_node c :: (e_node <$> es)) /\ NoDup (key :: (e_key <$> es)) /\
  (forall e, e ∈ es -> data_of (e_ref e) m = Some (e_val e)).
Proof.
  intros [H1 H2 H3 H4 H5 H6 H7 H8] Hk _ Hc Hd Hs. split_and!.
  - apply list.NoDup_cons. split; [|done]. intros Hin. apply list_elem_of_fmap in Hin as (e & He & Hin).
    specialize (H3 e Hin). lia.
  - by apply list.NoDup_cons.
  - intros e He. rewrite Hs; [by apply H7|]. apply elem_of_app. left. by apply list_elem_of_fmap_2.
Qed.

Lemma Get_add_spec key v c l own : Holds c l own -> exists r dumped c',
  Get_add policy_ key v c = Some (r, dumped, c') /\ Frame own c c' /\
  Holds c' ((key, default v (assoc key l)) :: remove_key key l) (r :: own) /\
  data_of r (memory c') = Some (default v (assoc key l)) /\ dumped = bool_decide (is_Some (assoc key l)).
Proof.
  intros (es & Hr & <-). unfold Get_add.
  assert (Hr0 : Rep (count_ created c) es own) by by eapply Rep_same.
  change (map_ (count_ created c)) with (map_ c). destruct (map_ c !! key) as [[r node]|] eqn:Hm.
  - destruct (find_Some _ _ _ _ _ _ Hr Hm) as (es1 & e & es2 & -> & <- & <- & <-).
    destruct (Rep_without c es1 e es2 own Hr) as (_ & _ & _ & _ & _ & _ & _ & _ & Hdata & _ & _ & -> & ->).
    destruct (move_to_front_spec _ es1 e es2 own Hr0) as (c1 & -> & Hr1 & Hf1 & Hm1). cbn [mbind option_bind].
    destruct (Rep_IncRef c1 (renewed (count_ created c) e :: es1 ++ es2) own (e_ref e)) as (c2 & -> & Hr2 & Hf2 & Hd2);
      [done|rewrite fmap_cons; left|].
    cbn [mbind option_bind]. exists (e_ref e), true, c2. split; [done|].
    split; [eapply Frame_trans; [|apply Hf2]; by apply (Frame_trans _ _ (count_ created c))|].
    split; [by eexists; split; [exact Hr2|]|]. split; [|done]. by rewrite Hd2, Hm1.
  - apply (find_None _ _ _ _ Hr) in Hm. rewrite assoc_absent, remove_key_absent by done. simpl default.
    destruct (CreateRef_spec (memory c) _ v (rep_memory _ _ _ Hr)) as (m & Hcr & Hc & Hd & Hs).
    destruct (Rep_add c es own key v m Hr Hm Hcr Hc Hd Hs) as (Hnn & Hnk & Hvs).
    cbn [list_insert]. unfold cache_CreateRef. cbn [memory count_ set_counts]. rewrite Hcr, SafeSizeOf_some.
    cbn [mbind option_bind].
    destruct (ref_taken m _ (next_ref (memory c)) Hc ltac:(left)) as (m2 & Hi & Hc2 & Hd2).
    unfold cache_IncRef. cbn [set_size set_map set_memory memory]. rewrite Hi. cbn [mbind option_bind].
    eexists _, false, _. split; [done|]. split; [|split; [|split; [by cbn [set_memory memory]; rewrite Hd2|done]]].
    + split; try done. intros x Hx. cbn [set_memory memory]. rewrite Hd2. apply Hs, elem_of_app. by right.
    + exists (mkEntry key v (next_ref (memory c)) (next_node c) :: es). split; [|done]. apply Rep_front; cbn; try done.
      * by rewrite (rep_list _ _ _ Hr).
      * apply Hr.
      * by rewrite (rep_map _ _ _ Hr).
      * by rewrite <- Permutation_middle.
      * by rewrite Hd2.
      * intros e He. rewrite Hd2. auto.
      * rewrite (rep_size _ _ _ Hr). lia.
Qed.

Definition added_ref (want : bool) (r : nat) : option nat := if want then Some r else None.

Lemma Put_add_spec key v want c l own : Holds c l own -> exists r previous c',
  Put_add policy_ key v want c = Some (previous, added_ref want r, c') /\ Frame own c c' /\
  Holds c' ((key, v) :: remove_key key l) (option_list previous ++ option_list (added_ref want r) ++ own) /\
  data_of r (memory c') = Some v /\
  (r ← previous; data_of r (memory c')) = assoc key l /\ (is_Some previous <-> is_Some (assoc key l)).
Proof.
  intros (es & Hr & <-). unfold Put_add. change (map_ (count_ was_put c)) with (map_ c).
  change (get_data ?p (count_ was_put c)) with (get_data p c).
  destruct (map_ c !! key) as [[r node]|] eqn:Hm.
  - destruct (find_Some _ _ _ _ _ _ Hr Hm) as (es1 & e & es2 & -> & <- & <- & <-).
    destruct (Rep_without c es1 e es2 own Hr) as (_ & Hnn & Hnd & Hnew & Hk & Hins & _ & Hc & Hdata & Hv & Hs & Ha & Hrm).
    rewrite (get_data_spec _ _ _ Hdata). cbn [mbind option_bind].
    rewrite (SafeSizeOf_some (e_key e) (e_val e)). cbn [mbind option_bind].
    rewrite (list_erase_spec _ es1 e es2) by apply Hr.
    cbn [mbind option_bind list_insert set_list set_size count_ set_counts next_node list_ memory map_ size_ max_size_ allow_overshoot_ counts mutex_].
    destruct (CreateRef_spec (memory c) _ v Hc) as (m & Hcr & Hc1 & Hd & Hsame).
    unfold cache_CreateRef at 1. cbn [memory]. rewrite Hcr.
    match goal with |- context [give_added want ?x ?y] =>
      destruct (give_added_spec want x y _ Hc1 ltac:(left)) as (m2 & -> & Hc2 & Hd2) end.
    cbn [mbind option_bind]. rewrite SafeSizeOf_some. cbn [mbind option_bind set_memory memory] in Hd2 |- *.
    eexists (next_ref (memory c)), (Some (e_ref e)), _. split; [done|].
    cbn [set_size set_map set_memory memory map_]. rewrite Ha, Hrm. split; [|split; [|split; [by rewrite Hd2|split; [|done]]]].
    + split; try done. intros x Hx. cbn [set_size set_map set_memory memory]. rewrite Hd2. apply Hsame. right. apply elem_of_app. by right.
    + exists (mkEntry (e_key e) v (next_ref (memory c)) (next_node c) :: es1 ++ es2). split; [|done]. apply Rep_front; cbn; try done.
      * eapply Counted_Permutation; [|exact Hc2]. destruct want; simpl; solve_Permutation.
      * by rewrite Hd2.
      * intros x Hx. rewrite Hd2, Hsame; [by apply Hv|]. right. apply elem_of_app. left. by apply list_elem_of_fmap_2.
      * lia.
    + simpl. rewrite Hd2, Hsame; [done|left].
  - apply (find_None _ _ _ _ Hr) in Hm. rewrite assoc_absent, remove_key_absent by done.
    destruct (CreateRef_spec (memory c) _ v (rep_memory _ _ _ Hr)) as (m & Hcr & Hc & Hd & Hs).
    destruct (Rep_add c es own key v m Hr Hm Hcr Hc Hd Hs) as (Hnn & Hnk & Hvs).
    cbn [list_insert]. unfold cache_CreateRef. cbn [memory count_ set_counts]. rewrite Hcr.
    match goal with |- context [give_added want ?x ?y] =>
      destruct (give_added_spec want x y _ Hc ltac:(left)) as (m2 & -> & Hc2 & Hd2) end.
    cbn [mbind option_bind]. rewrite SafeSizeOf_some. cbn [mbind option_bind set_map set_memory memory] in Hd2 |- *.
    eexists (next_ref (memory c)), None, _. split; [done|]. split; [|split; [|split; [by cbn; rewrite Hd2|split; done]]].
    + split; try done. intros x Hx. cbn. rewrite Hd2. apply Hs, elem_of_app. by right.
    + exists (mkEntry key v (next_ref (memory c)) (next_node c) :: es). split; [|done]. apply Rep_front; cbn; try done.
      * by rewrite (rep_list _ _ _ Hr).
      * apply Hr.
      * by rewrite (rep_map _ _ _ Hr).
      * eapply Counted_Permutation; [|exact Hc2]. destruct want; simpl; solve_Permutation.
      * by rewrite Hd2.
      * intros e He. rewrite Hd2. auto.
      * rewrite (rep_size _ _ _ Hr). lia.
Qed.

(** ** Trimming *)

Lemma Holds_empty c l own : Holds c l own -> (map_ c = ∅ <-> l = []).
Proof.
  intros (es & Hr & <-). rewrite (rep_map _ _ _ Hr). destruct es as [|e es]; [done|]. split; [|done].
  unfold entry_map. rewrite fmap_cons. cbn. intros Hm. exfalso. by apply insert_non_empty in Hm.
Qed.

Lemma Trim_check_spec max c l own : Holds c l own -> Trim_check max c = Some ((total l <=? max) || bool_decide (l = [])).
Proof.
  intros Hh. pose proof (Holds_empty c l own Hh) as He. destruct Hh as (es & Hr & Hl).
  unfold Trim_check. rewrite (rep_size _ _ _ Hr), Hl, (bool_decide_ext _ _ He). rewrite CHECK_true; [done|].
  pose proof (sizes_nonneg l). apply andb_true_iff. split; [by apply Z.leb_le|].
  destruct l as [|x l]; [done|]. by rewrite bool_decide_eq_false_2.
Qed.

Lemma Trim_evict_none c own : Holds c [] own -> Trim_evict policy_ c = Some (None, set_mutex true c) /\ Holds (set_mutex true c) [] own.
Proof.
  intros (es & Hr & Hl). destruct es; [|done]. unfold Trim_evict. rewrite (rep_list _ _ _ Hr). split; [done|].
  exists []. split; [|done]. by eapply Rep_same.
Qed.

Lemma Trim_evict_some c l key v own : Holds c (l ++ [(key, v)]) own -> exists r c',
  Trim_evict policy_ c = Some (Some (key, r), c') /\ Frame own c c' /\ Holds c' l (r :: own) /\
  data_of r (memory c') = Some v.
Proof.
  intros (es & Hr & Hl). destruct es as [|e es _] using rev_ind; [by destruct l|].
  rewrite contents_app in Hl. apply app_inj_tail in Hl as [<- [= <- <-]].
  destruct (Rep_without c es e [] own Hr) as (_ & _ & Hnd & Hnew & Hk & _ & Hdel & Hc & Hdata & Hv & Hs & Ha & Hrm).
  rewrite !app_nil_r in *. unfold Trim_evict. rewrite (rep_list _ _ _ Hr), fmap_app. cbn [fmap list_fmap].
  rewrite last_snoc, removelast_last. cbn [set_list map_].
  assert (Hm : map_ c !! e_key e = Some (e_ref e, e_node e)).
  { rewrite (rep_map _ _ _ Hr). apply elem_of_list_to_map; [rewrite <- list_fmap_compose; apply Hr|].
    apply list_elem_of_fmap. exists e. split; [done|]. apply middle_elem. }
  rewrite Hm. rewrite (get_data_spec (e_ref e) _ (e_val e)) by done. cbn [mbind option_bind]. rewrite SafeSizeOf_some. cbn [mbind option_bind].
  eexists _, _. split; [done|]. split; [done|]. split; [|exact Hdata].
  exists es. split; [|done]. split; cbn; try done.
  - by apply list.NoDup_cons in Hk as [_ ?].
  - by rewrite Permutation_middle in Hc.
  - lia.
Qed.

(** ** Stages

    The references that a call under way holds, and those it has given to its caller. *)
Definition result_refs (res : Result) : list nat :=
  match res with
  | Got r => option_list r
  | PutDone _ previous added => option_list previous ++ option_list added
  | Removed _ previous => option_list previous
  | Trimmed => []
  end.

Definition after_refs (k : After K V) : list nat :=
  match k with
  | ThenCreate _ | ThenPut _ _ _ _ => []
  | ThenDrop previous added => previous :: option_list added
  | ThenReturn res => result_refs res
  end.

Definition stage_refs (t : Stage K V) : list nat :=
  match t with
  | GetStart _ | GetCreate _ | GetAdd _ _ | PutAdd _ _ _ _ | RemoveStart _ _ => []
  | GetDestroy _ r => [r]
  | PutPrevious previous added _ => previous :: option_list added
  | PutRemoved previous added _ => previous :: previous :: option_list added
  | PutDrop previous added => previous :: option_list added
  | RemovePrevious previous _ => [previous]
  | RemoveRemoved previous _ => [previous; previous]
  | RemoveDrop previous => [previous]
  | TrimCheck _ k | TrimEvict _ k => after_refs k
  | TrimRemoved _ value k => value :: after_refs k
  | Done res => result_refs res
  end.

Lemma after_stage k : stage_refs (after k) = after_refs k.
Proof. by destruct k. Qed.

Lemma then_trim_refs b k c : stage_refs (then_trim b k c) = after_refs k.
Proof. destruct b; [done|apply after_stage]. Qed.

Lemma put_result_refs r added two : after_refs (put_result (Some r) added two) = r :: option_list added.
Proof. by destruct two. Qed.

(** The calls that will trim the cache to its size before they return. *)
Definition trims (max : Z) (t : Stage K V) : Prop :=
  match t with
  | PutPrevious _ _ _ | PutRemoved _ _ _ => True
  | TrimCheck m _ | TrimEvict m _ | TrimRemoved m _ _ => m <= max
  | _ => False
  end.

Definition within (c : Cache K V) (l : list (K * V)) (t : Stage K V) : Prop :=
  total l <= max_size_ c \/ trims (max_size_ c) t.

(** What a step promises: the references it holds are counted, the limits stay, a lock left
    behind is that of an empty cache, and a cache that is too large is being trimmed. *)
Definition stepped (c c' : Cache K V) (l : list (K * V)) (t t' : Stage K V) (own : list nat) : Prop :=
  exists l', Holds c' l' (stage_refs t' ++ own) /\ (mutex_ c' = true -> l' = []) /\
  max_size_ c' = max_size_ c /\ allow_overshoot_ c' = allow_overshoot_ c /\
  (allow_overshoot_ c = false -> within c l t -> within c' l' t').

Lemma total_remove_le key (l : list (K * V)) : total (remove_key key l) <= total l.
Proof.
  induction l as [|x l IH]; [done|]. cbn [remove_key List.filter]. fold (remove_key key l).
  pose proof (SizeOf_nonneg x.1 x.2). destruct (bool_decide _); simpl; lia.
Qed.

Lemma Holds_assoc c l own key v : Holds c l own -> assoc key l = Some v ->
  total l = SizeOf policy_ key v + total (remove_key key l).
Proof.
  intros (es & Hr & <-) Ha. destruct (entry_map es !! key) as [[r node]|] eqn:Hm.
  - destruct (entry_map_lookup es key r node (rep_keys _ _ _ Hr) Hm) as (es1 & e & es2 & -> & <- & _).
    destruct (assoc_middle es1 e es2 (rep_keys _ _ _ Hr)) as [Ha' Hrm]. rewrite Ha' in Ha. simplify_eq. rewrite Hrm.
    rewrite !contents_app. cbn [contents fmap list_fmap]. by rewrite total_middle.
  - apply entry_map_None in Hm. by rewrite assoc_absent in Ha.
Qed.

Lemma Holds_absent c l own key : Holds c l own -> assoc key l = None -> remove_key key l = l.
Proof.
  intros (es & Hr & <-) Ha. destruct (entry_map es !! key) as [[r node]|] eqn:Hm.
  - destruct (entry_map_lookup es key r node (rep_keys _ _ _ Hr) Hm) as (es1 & e & es2 & -> & <- & _).
    destruct (assoc_middle es1 e es2 (rep_keys _ _ _ Hr)) as [Ha' _]. congruence.
  - apply entry_map_None in Hm. by apply remove_key_absent.
Qed.

Lemma Holds_DecRef c l own r : Holds c l (r :: own) -> exists c', cache_DecRef r c = Some c' /\ Holds c' l own /\ Frame own c c'.
Proof.
  intros (es & Hr & Hl). destruct (Rep_DecRef c es own r Hr) as (c' & Hd & Hr' & Hf). exists c'. split; [done|].
  split; [by exists es|done].
Qed.

Lemma Holds_IncRef c l own r : Holds c l own -> r ∈ own -> exists c',
  cache_IncRef r c = Some c' /\ Holds c' l (r :: own) /\ forall own', Frame own' c c'.
Proof.
  intros (es & Hr & Hl) Hin. destruct (Rep_IncRef c es own r Hr) as (c' & Hd & Hr' & Hf & _); [apply elem_of_app; by right|].
  exists c'. split; [done|]. split; [by exists es|done].
Qed.

Lemma Holds_same c c' l own : Holds c l own -> refs (memory c') = refs (memory c) -> next_ref (memory c') = next_ref (memory c) ->
  list_ c' = list_ c -> next_node c' = next_node c -> map_ c' = map_ c -> size_ c' = size_ c -> Holds c' l own.
Proof.
  intros (es & [H1 H2 H3 H4 H5 [Ha Hb Hc] H7 H8] & Hl) Hm Hn Hli Hnn Hmap Hs. exists es. split; [|done].
  split; rewrite ?Hli, ?Hnn, ?Hmap, ?Hs; try done.
  - split; unfold ref_count_of in *; rewrite ?Hm, ?Hn; done.
  - unfold data_of in *. by rewrite Hm.
Qed.

(** What one step does, the lock free where it is needed. *)
Definition steps_well (f : Stage K V -> Cache K V -> option (Stage K V * Cache K V)) (t : Stage K V) : Prop :=
  forall c l own, Holds c l (stage_refs t ++ own) -> (mutex_ c = true -> l = []) -> (takes_lock t = true -> mutex_ c = false) ->
  0 < max_size_ c -> exists t' c', f t c = Some (t', c') /\ stepped c c' l t t' own.

Lemma stepped_intro c c' l l' t t' own own' : Frame own' c c' -> Holds c' l' (stage_refs t' ++ own) ->
  (mutex_ c = true -> l' = []) -> (allow_overshoot_ c = false -> within c l t -> total l' <= max_size_ c \/ trims (max_size_ c) t') ->
  stepped c c' l t t' own.
Proof.
  intros [H1 H2 H3 H4] Hh Hm Hw. exists l'. split; [done|]. split; [by rewrite H3|]. split; [done|]. split; [done|].
  intros Ho Hin. unfold within. rewrite H1. by apply Hw.
Qed.

(** The contents stay, and so does the duty to trim. *)
Lemma stepped_same c c' l t t' own own' : Frame own' c c' -> Holds c' l (stage_refs t' ++ own) -> (mutex_ c = true -> l = []) ->
  (allow_overshoot_ c = false -> trims (max_size_ c) t -> total l <= max_size_ c \/ trims (max_size_ c) t') -> stepped c c' l t t' own.
Proof. intros Hf Hh Hm Ht. eapply stepped_intro; [done..|]. intros Ho [?|?]; [by left|by apply Ht]. Qed.

Lemma Get_steps_well t : match t with GetStart _ | GetCreate _ | GetAdd _ _ | GetDestroy _ _ => True | _ => False end ->
  steps_well (Get_step policy_) t.
Proof.
  intros Ht c l own Hh Hm Hlock Hmax. destruct t as [key|key|key v|v r| | | | | | | | | | | |]; try done; cbn [Get_step stage_refs] in *.
  - destruct (Get_find_spec key c l own Hh) as (c' & Hf & Hg). destruct (assoc key l) as [v|] eqn:Ha.
    + destruct Hg as (r & -> & Hh' & _). cbn [mbind option_bind]. eexists _, _. split; [done|].
      eapply stepped_intro; [exact Hf|exact Hh'|intros; specialize (Hlock eq_refl); congruence|].
      intros _ [Hle|[]]. left. rewrite (Holds_assoc _ _ _ _ _ Hh Ha) in Hle. done.
    + destruct Hg as [-> Hh']. cbn [mbind option_bind]. eexists _, _. split; [done|].
      eapply stepped_same; [exact Hf|by rewrite then_trim_refs|done|]. done.
  - destruct (Create policy_ key) as [v|]; (eexists _, _; split; [done|]); by apply (stepped_same _ _ _ _ _ _ own).
  - destruct (Get_add_spec key v c l own Hh) as (r & dumped & c' & -> & Hf & Hh' & _ & ->). cbn [mbind option_bind].
    assert (Hl : mutex_ c = true -> (key, default v (assoc key l)) :: remove_key key l = []) by (intros; specialize (Hlock eq_refl); congruence).
    destruct (assoc key l) as [v'|] eqn:Ha; (eexists _, _; split; [done|]); eapply stepped_intro; try done.
    + intros _ [Hle|[]]. left. rewrite (Holds_assoc _ _ _ _ _ Hh Ha) in Hle. done.
    + by rewrite then_trim_refs.
    + intros Ho _. right. rewrite (frame_overshoot _ _ _ Hf), Ho. simpl. rewrite (frame_max _ _ _ Hf). lia.
  - eexists _, _. split; [done|]. apply (stepped_same _ _ _ _ _ _ own); try done. by eapply Holds_same.
Qed.

Lemma Put_steps_well t : match t with PutAdd _ _ _ _ | PutPrevious _ _ _ | PutRemoved _ _ _ | PutDrop _ _ => True | _ => False end ->
  steps_well (Put_step policy_) t.
Proof.
  intros Ht c l own Hh Hm Hlock Hmax. destruct t as [| | | |key v two want|previous added two|previous added two|previous added| | | | | | | |];
    try done; cbn [Put_step stage_refs] in *.
  - destruct (Put_add_spec key v want c l own Hh) as (r & previous & c' & -> & Hf & Hh' & _ & _ & Hp). cbn [mbind option_bind].
    assert (Hl : mutex_ c = true -> (key, v) :: remove_key key l = []) by (intros; specialize (Hlock eq_refl); congruence).
    destruct previous as [p|]; (eexists _, _; split; [done|]); apply (stepped_intro _ _ _ ((key, v) :: remove_key key l) _ _ _ _ Hf).
    + exact Hh'.
    + exact Hl.
    + by right.
    + rewrite then_trim_refs. exact Hh'.
    + exact Hl.
    + intros Ho _. right. rewrite (frame_overshoot _ _ _ Hf), Ho. simpl. rewrite (frame_max _ _ _ Hf). lia.
  - destruct (Holds_IncRef c l _ previous Hh) as (c' & -> & Hh' & Hf); [left|]. cbn [mbind option_bind].
    eexists _, _. split; [done|]. apply (stepped_same _ _ _ _ _ _ own); try done. by right.
  - destruct (Holds_DecRef c l _ previous Hh) as (c' & -> & Hh' & Hf). cbn [mbind option_bind].
    eexists _, _. split; [done|]. eapply stepped_same; [exact Hf|by rewrite then_trim_refs, put_result_refs|done|].
    intros Ho _. right. rewrite (frame_overshoot _ _ _ Hf), Ho. simpl. rewrite (frame_max _ _ _ Hf). lia.
  - destruct (Holds_DecRef c l _ previous Hh) as (c' & -> & Hh' & Hf). cbn [mbind option_bind].
    eexists _, _. split; [done|]. by eapply stepped_same.
Qed.

Lemma Remove_steps_well t : match t with RemoveStart _ _ | RemovePrevious _ _ | RemoveRemoved _ _ | RemoveDrop _ => True | _ => False end ->
  steps_well (Remove_step policy_) t.
Proof.
  intros Ht c l own Hh Hm Hlock Hmax. destruct t as [| | | | | | | |key two|previous two|previous two|previous| | | |];
    try done; cbn [Remove_step stage_refs] in *.
  - destruct (Remove_find_spec key c l own Hh) as (previous & c' & -> & Hf & Hh' & _ & Hp). cbn [mbind option_bind].
    pose proof (total_remove_le key l).
    assert (Hl : mutex_ c = true -> remove_key key l = []) by (intros; specialize (Hlock eq_refl); congruence).
    destruct previous as [p|]; (eexists _, _; split; [done|]); apply (stepped_intro _ _ _ (remove_key key l) _ _ _ _ Hf); try done;
      (intros _ [Hle|[]]; left; lia).
  - destruct (Holds_IncRef c l _ previous Hh) as (c' & -> & Hh' & Hf); [left|]. cbn [mbind option_bind].
    eexists _, _. split; [done|]. by apply (stepped_same _ _ _ _ _ _ own).
  - destruct (Holds_DecRef c l _ previous Hh) as (c' & -> & Hh' & Hf). cbn [mbind option_bind].
    destruct two; (eexists _, _; split; [done|]); by eapply stepped_same.
  - destruct (Holds_DecRef c l _ previous Hh) as (c' & -> & Hh' & Hf). cbn [mbind option_bind].
    eexists _, _. split; [done|]. by eapply stepped_same.
Qed.

Lemma TrimToSize_steps_well t : match t with TrimCheck _ _ | TrimEvict _ _ | TrimRemoved _ _ _ => True | _ => False end ->
  steps_well (TrimToSize_step policy_) t.
Proof.
  intros Ht c l own Hh Hm Hlock Hmax. destruct t as [| | | | | | | | | | | |m k|m k|m r k|]; try done; cbn [TrimToSize_step stage_refs] in *.
  - rewrite (Trim_check_spec m c l _ Hh). cbn [mbind option_bind].
    destruct (Z.leb_spec (total l) m) as [Hle|Hgt]; [|destruct (bool_decide_reflect (l = [])) as [->|Hne]]; simpl orb;
      (eexists _, _; split; [done|]); apply (stepped_same _ _ _ _ _ _ own); rewrite ?after_stage; try done.
    + intros _ Hin. left. simpl in Hin. lia.
    + intros _ Hin. left. simpl. lia.
    + intros _ Hin. by right.
  - destruct l as [|[key v] l _] using rev_ind.
    + destruct (Trim_evict_none c _ Hh) as [-> Hh']. cbn [mbind option_bind]. eexists _, _. split; [done|].
      exists []. rewrite after_stage. split_and!; try done. intros _ _. left. simpl. lia.
    + destruct (Trim_evict_some c l key v _ Hh) as (r & c' & -> & Hf & Hh' & _). cbn [mbind option_bind].
      eexists _, _. split; [done|]. eapply stepped_intro; [exact Hf|exact Hh'|intros; specialize (Hlock eq_refl); congruence|].
      intros _ [Hle|Hin]; [|by right]. left. rewrite total_app in Hle. simpl in Hle. pose proof (SizeOf_nonneg key v). lia.
  - destruct (Holds_DecRef c l _ r Hh) as (c' & -> & Hh' & Hf). cbn [mbind option_bind].
    eexists _, _. split; [done|]. eapply stepped_same; [exact Hf|done..|]. by right.
Qed.

Lemma step_well t c l own : Holds c l (stage_refs t ++ own) -> (mutex_ c = true -> l = []) -> 0 < max_size_ c ->
  exists t' c', step policy_ t c = Some (t', c') /\ stepped c c' l t t' own.
Proof.
  intros Hh Hm Hmax. unfold step. destruct (takes_lock t && mutex_ c) eqn:Hl.
  - eexists _, _. split; [done|]. apply (stepped_same _ _ _ _ _ _ own); try done. by right.
  - assert (Hlock : takes_lock t = true -> mutex_ c = false) by (intros He; by rewrite He in Hl).
    pose proof (Get_steps_well t) as HG. pose proof (Put_steps_well t) as HP. pose proof (Remove_steps_well t) as HR.
    pose proof (TrimToSize_steps_well t) as HT.
    destruct t; first [by apply HG|by apply HP|by apply HR|by apply HT|idtac].
    eexists _, _. split; [done|]. by apply (stepped_same _ _ _ _ _ _ own).
Qed.

End Entries.

End LruCacheSpec.
