(* ===== verification/LruCacheProps.v ===== *)
(** * LruCacheProps: calls of a cache, one at a time and interleaved *)

From Stdlib Require Import Permutation.
From S2P Require Import Prelude.
From S2P Require Import LruCache.
From S2P Require Import LruCacheSpec.

Module LruCacheProps.
Import LruCache LruCacheSpec.

Section Calls.
Context {K : Type} {K_eq_dec : EqDecision K} {K_countable : Countable K} {V : Type}.
Variable policy_ : Policy K V.

(** ** The cache as a list

    What fits: the entries from the front as long as the sum of their sizes does not pass
    the room. *)
Fixpoint fit (room : Z) (l : list (K * V)) : list (K * V) :=
  match l with
  | [] => []
  | x :: l => let s := SizeOf policy_ x.1 x.2 in if s <=? room then x :: fit (room - s) l else []
  end.

Definition fit_if (b : bool) (room : Z) (l : list (K * V)) : list (K * V) := if b then fit room l else l.

(** A call on a list of the entries, the most recently used first: the entries after it and
    the value that is found, created, replaced or removed. *)
Definition lru (max : Z) (overshoot : bool) (op : Op K V) (l : list (K * V)) : list (K * V) * option V :=
  match op with
  | OpGet key =>
      match assoc key l with
      | Some v => ((key, v) :: remove_key key l, Some v)
      | None =>
          let l := fit_if overshoot max l in
          match Create policy_ key with
          | None => (l, None)
          | Some v => (fit_if (negb overshoot) max ((key, v) :: l), Some v)
          end
      end
  | OpPut key v | OpPutGet key v _ =>
      let l := fit_if overshoot max l in
      (fit_if (negb overshoot) max ((key, v) :: remove_key key l), assoc key l)
  | OpRemove key _ => (remove_key key l, assoc key l)
  | OpEvictAll => ([], None)
  end.

(** The answer of a call: the value behind the reference it gives, and whether there is one. *)
Definition answers (op : Op K V) (res : Result) (c : Cache K V) (v : option V) : Prop :=
  let value (r : option nat) := r ← r; data_of r (memory c) in
  match op, res with
  | OpGet _, Got r => value r = v /\ (is_Some r <-> is_Some v)
  | OpPut _ _, PutDone replaced _ _ => replaced = bool_decide (is_Some v)
  | OpPutGet _ new want, PutDone replaced previous added =>
      replaced = bool_decide (is_Some v) /\ value previous = v /\ value added = if want then Some new else None
  | OpRemove _ two, Removed removed previous =>
      removed = bool_decide (is_Some v) /\ (two = false -> value previous = v)
  | OpEvictAll, Trimmed => True
  | _, _ => False
  end.

Hypothesis SizeOf_nonneg : forall k v, 0 <= SizeOf policy_ k v.

Lemma fit_all room l : total policy_ l <= room -> fit room l = l.
Proof.
  revert room. induction l as [|x l IH]; intros room Hl; [done|]. simpl in *.
  pose proof (sizes_nonneg policy_ SizeOf_nonneg l). destruct (Z.leb_spec (SizeOf policy_ x.1 x.2) room); [|lia].
  rewrite IH; [done|lia].
Qed.

Lemma fit_snoc room l x : room < total policy_ (l ++ [x]) -> fit room (l ++ [x]) = fit room l.
Proof.
  revert room. induction l as [|y l IH]; intros room Hl; simpl in *.
  - destruct (Z.leb_spec (SizeOf policy_ x.1 x.2) room); [lia|done].
  - destruct (Z.leb_spec (SizeOf policy_ y.1 y.2) room); [|done]. rewrite IH; [done|lia].
Qed.

Lemma fit_none l : fit (-1) l = [].
Proof. destruct l as [|x l]; [done|]. simpl. pose proof (SizeOf_nonneg x.1 x.2). destruct (Z.leb_spec (SizeOf policy_ x.1 x.2) (-1)); [lia|done]. Qed.

Lemma fit_sub room l : exists l', l = fit room l ++ l'.
Proof.
  revert room. induction l as [|x l IH]; intros room; [by exists []|]. simpl.
  destruct (SizeOf policy_ x.1 x.2 <=? room); [|by eexists]. destruct (IH (room - SizeOf policy_ x.1 x.2)) as [l' Hl]. exists l'. simpl. by rewrite <- Hl.
Qed.

(** ** Calls of one thread *)

(** The call goes on from [t] and [c] and has [n] more steps than it needs. *)
Definition finishes (n : nat) (t : Stage K V) (c : Cache K V) (res : Result) (c' : Cache K V) : Prop :=
  loop (call_step policy_) n (t, c) = Some (res, c').

Lemma finishes_done n res c : finishes (S n) (Done res) c res c.
Proof. done. Qed.

Lemma finishes_step n t c t1 c1 res c' : step policy_ t c = Some (t1, c1) -> (forall res, t <> Done res) ->
  finishes n t1 c1 res c' -> finishes (S n) t c res c'.
Proof.
  intros Hs Hd Hf. unfold finishes. rewrite loop_S.
  assert (Hc : call_step policy_ (t, c) = Some (inl (t1, c1))).
  { unfold call_step. rewrite Hs. destruct t; try done. exfalso. exact (Hd _ eq_refl). }
  rewrite Hc. exact Hf.
Qed.

Lemma finishes_more n m t c res c' : finishes n t c res c' -> (n <= m)%nat -> finishes m t c res c'.
Proof. apply loop_mono. Qed.

Lemma length_removelast {A} (l : list A) x : length (l ++ [x]) = S (length l).
Proof. rewrite length_app. simpl. lia. Qed.

(** Trimming, and what the call does after it. *)
Lemma trim_finishes max k own : forall l c, Holds policy_ c l (after_refs k ++ own) -> mutex_ c = false ->
  exists c1, Holds policy_ c1 (fit max l) (after_refs k ++ own) /\ Frame (after_refs k ++ own) c c1 /\
  forall n res c', finishes n (after k) c1 res c' -> finishes (3 * length l + 1 + n) (TrimCheck max k) c res c'.
Proof.
  induction l as [|[key v] l IH] using rev_ind; intros c Hh Hm.
  - exists c. split; [done|]. split; [done|]. intros n res c' Hf. simpl. eapply finishes_step; [|done|exact Hf].
    unfold step. rewrite Hm, andb_false_r. cbn [TrimToSize_step].
    rewrite (Trim_check_spec policy_ SizeOf_nonneg max c [] _ Hh). cbn [mbind option_bind]. by rewrite orb_true_r.
  - destruct (Z.leb_spec (total policy_ (l ++ [(key, v)])) max) as [Hle|Hgt].
    + exists c. rewrite fit_all by done. split; [done|]. split; [done|]. intros n res c' Hf.
      apply (finishes_more (S n)); [|lia]. eapply finishes_step; [|done|exact Hf].
      unfold step. rewrite Hm, andb_false_r. cbn [TrimToSize_step].
      rewrite (Trim_check_spec policy_ SizeOf_nonneg max c _ _ Hh). cbn [mbind option_bind]. by rewrite (proj2 (Z.leb_le _ _) Hle).
    + destruct (Trim_evict_some policy_ SizeOf_nonneg c l key v _ Hh) as (r & c1 & He & Hf1 & Hh1 & _).
      destruct (Holds_DecRef policy_ c1 l _ r Hh1) as (c2 & Hd & Hh2 & Hf2).
      destruct (IH c2 Hh2) as (c3 & Hh3 & Hf3 & Hn); [by rewrite (frame_mutex _ _ _ Hf2), (frame_mutex _ _ _ Hf1)|].
      exists c3. rewrite fit_snoc by done. split; [done|].
      split; [eapply Frame_trans; [exact Hf1|]; eapply Frame_trans; [exact Hf2|exact Hf3]|].
      intros n res c' Hf. rewrite length_removelast. replace (3 * S (length l) + 1 + n)%nat with (S (S (S (3 * length l + 1 + n)))) by lia.
      apply (finishes_step _ _ _ (TrimEvict max k) c); [|done|].
      { unfold step. rewrite Hm, andb_false_r. cbn [TrimToSize_step].
        rewrite (Trim_check_spec policy_ SizeOf_nonneg max c _ _ Hh). cbn [mbind option_bind].
        rewrite bool_decide_eq_false_2 by (by destruct l). by rewrite (proj2 (Z.leb_gt _ _) Hgt). }
      apply (finishes_step _ _ _ (TrimRemoved max r k) c1); [|done|].
      { unfold step. rewrite Hm, andb_false_r. cbn [TrimToSize_step]. by rewrite He. }
      apply (finishes_step _ _ _ (TrimCheck max k) c2); [|done|by apply Hn].
      unfold step. cbn [takes_lock andb TrimToSize_step]. by rewrite Hd.
Qed.

(** What a call comes to: its result, the references that its caller then holds, and the
    entries of the cache. *)
Definition call_ends (n : nat) (t : Stage K V) (c : Cache K V) (own : list nat) (op : Op K V) (l : list (K * V)) (v : option V) : Prop :=
  exists res c', finishes n t c res c' /\ Holds policy_ c' l (result_refs res ++ own) /\ Frame own c c' /\ answers op res c' v.

Lemma call_ends_step n t c t1 c1 own op l v : step policy_ t c = Some (t1, c1) -> (forall res, t <> Done res) -> Frame own c c1 ->
  call_ends n t1 c1 own op l v -> call_ends (S n) t c own op l v.
Proof.
  intros Hs Hd Hf (res & c' & Hfin & Hh & Hf' & Ha). exists res, c'. split; [by eapply finishes_step|].
  split; [done|]. split; [by eapply Frame_trans|done].
Qed.

Lemma call_ends_done n res c own op l v : Holds policy_ c l (result_refs res ++ own) -> answers op res c v ->
  call_ends (S n) (Done res) c own op l v.
Proof. intros Hh Ha. exists res, c. split; [apply finishes_done|done]. Qed.

Lemma call_ends_more n m t c own op l v : call_ends n t c own op l v -> (n <= m)%nat -> call_ends m t c own op l v.
Proof. intros (res & c' & Hf & Hr) Hle. exists res, c'. split; [by eapply finishes_more|done]. Qed.

(** The steps that trimming a list of [m] entries may take. *)
Definition trim_fuel (b : bool) (m : nat) : nat := if b then 3 * m + 1 else 0.

(** A call that trims the cache, or does not, and goes on. *)
Lemma call_ends_trim b m n k c own own' op l l' v : Holds policy_ c l (after_refs k ++ own) -> mutex_ c = false ->
  (length l <= m)%nat -> (forall r, r ∈ own' -> r ∈ after_refs k ++ own) ->
  (forall c1, Holds policy_ c1 (fit_if b (max_size_ c) l) (after_refs k ++ own) -> Frame (after_refs k ++ own) c c1 ->
     call_ends n (after k) c1 own' op l' v) ->
  call_ends (trim_fuel b m + n) (then_trim b k c) c own' op l' v.
Proof.
  intros Hh Hm Hlen Hsub Hk. destruct b; cbn [then_trim fit_if trim_fuel] in *; [|by apply Hk].
  destruct (trim_finishes (max_size_ c) k own l c Hh Hm) as (c1 & Hh1 & Hf1 & Hn).
  destruct (Hk c1 Hh1 Hf1) as (res & c' & Hf & Hr & Hf' & Ha). exists res, c'.
  split; [eapply finishes_more; [by apply Hn|lia]|]. split; [done|].
  split; [|done]. apply (Frame_trans _ _ c1); [|done]. destruct Hf1 as [H1 H2 H3 H4]. split; [done..|]. auto.
Qed.

Lemma remove_fit key b room l : remove_key key l = l -> remove_key key (fit_if b room l) = fit_if b room l.
Proof.
  intros Hr. destruct b; [|done]. simpl. destruct (fit_sub room l) as [l' Hl]. revert Hr. rewrite Hl at 1 2. unfold remove_key.
  rewrite List.filter_app. intros He.
  assert (Hlen : forall x : list (K * V), (length (List.filter (fun x => negb (bool_decide (x.1 = key))) x) <= length x)%nat).
  { intros x. induction x as [|y x IH]; simpl; [done|]. destruct (negb _); simpl; lia. }
  apply app_inj_1 in He as [He _]; [done|]. pose proof (f_equal length He) as Hle. rewrite !length_app in Hle.
  pose proof (Hlen (fit room l)). pose proof (Hlen l'). lia.
Qed.

Lemma assoc_remove key (l : list (K * V)) : remove_key key l = l -> assoc key l = None.
Proof.
  intros Hr. unfold assoc. destruct (List.find _ l) as [x|] eqn:Hf; [|done]. exfalso.
  apply List.find_some in Hf as [Hin Hx]. rewrite <- Hr in Hin. apply List.filter_In in Hin as [_ Hn]. by rewrite Hx in Hn.
Qed.

Lemma run_stage t c t1 c1 : (takes_lock t = true -> mutex_ c = false) ->
  match t with
  | GetStart _ | GetCreate _ | GetAdd _ _ | GetDestroy _ _ => Get_step policy_ t c
  | PutAdd _ _ _ _ | PutPrevious _ _ _ | PutRemoved _ _ _ | PutDrop _ _ => Put_step policy_ t c
  | RemoveStart _ _ | RemovePrevious _ _ | RemoveRemoved _ _ | RemoveDrop _ => Remove_step policy_ t c
  | TrimCheck _ _ | TrimEvict _ _ | TrimRemoved _ _ _ => TrimToSize_step policy_ t c
  | Done res => Some (t, c)
  end = Some (t1, c1) -> step policy_ t c = Some (t1, c1).
Proof.
  intros Hl He. unfold step. destruct (takes_lock t && mutex_ c) eqn:Hb; [|done].
  apply andb_true_iff in Hb as [Ht Hm]. specialize (Hl Ht). congruence.
Qed.

Lemma fit_length b room l : (length (fit_if b room l) <= length l)%nat.
Proof.
  destruct b; [|done]. simpl. destruct (fit_sub room l) as [l' Hl]. apply (f_equal length) in Hl. rewrite length_app in Hl. lia.
Qed.

(** A miss, after the cache is trimmed: the value is created and added. *)
Lemma create_ends key c l own : Holds policy_ c l own -> mutex_ c = false -> remove_key key l = l ->
  let o := allow_overshoot_ c in
  let r := match Create policy_ key with None => (l, None) | Some v => (fit_if (negb o) (max_size_ c) ((key, v) :: l), Some v) end in
  call_ends (S (S (trim_fuel (negb o) (S (length l)) + 1))) (GetCreate key) c own (OpGet key) r.1 r.2.
Proof.
  intros Hh Hm Hrm o. destruct (Create policy_ key) as [v|] eqn:Hcr.
  - eapply call_ends_step; [apply run_stage; [done|cbn [Get_step]; by rewrite Hcr]|done|done|].
    destruct (Get_add_spec policy_ SizeOf_nonneg key v c l own Hh) as (r & dumped & c1 & Hg & Hf & Hh1 & Hd & Hdump).
    rewrite (assoc_remove _ _ Hrm) in Hh1, Hd, Hdump. rewrite Hrm in Hh1. simpl default in Hh1, Hd.
    eapply call_ends_step; [apply run_stage; [done|cbn [Get_step]; rewrite Hg; cbn [mbind option_bind]; by rewrite Hdump]|done|exact Hf|].
    rewrite (frame_overshoot _ _ _ Hf). fold o. rewrite <- (frame_max _ _ _ Hf).
    apply call_ends_trim with (own := own) (l := (key, v) :: l); [exact Hh1|by rewrite (frame_mutex _ _ _ Hf)|done|intros x Hx; by right|].
    intros c2 Hh2 Hf2. apply call_ends_done; [exact Hh2|]. simpl. rewrite (frame_data _ _ _ Hf2), Hd by left. done.
  - eapply call_ends_step; [apply run_stage; [done|cbn [Get_step]; by rewrite Hcr]|done|done|].
    apply (call_ends_more 1); [|lia]. apply call_ends_done; [exact Hh|]. simpl. split; [done|]. by split.
Qed.

Lemma get_ends key c l own : Holds policy_ c l own -> mutex_ c = false ->
  let r := lru (max_size_ c) (allow_overshoot_ c) (OpGet key) l in
  call_ends (3 * length l + 12) (start (OpGet key) c) c own (OpGet key) r.1 r.2.
Proof.
  intros Hh Hm. cbn [lru start]. destruct (Get_find_spec policy_ key c l own Hh) as (c1 & Hf1 & Hg).
  pose proof (frame_mutex _ _ _ Hf1) as Hm1. rewrite Hm in Hm1.
  destruct (assoc key l) as [v|] eqn:Ha.
  { destruct Hg as (r & Hg & Hh1 & Hd). cbn [fst snd]. apply (call_ends_more 2); [|lia].
    eapply (call_ends_step 1); [apply run_stage; [done|cbn [Get_step]; by rewrite Hg]|done|exact Hf1|].
    apply call_ends_done; [exact Hh1|]. split; [exact Hd|by split]. }
  destruct Hg as [Hg Hh1]. pose proof (Holds_absent policy_ _ _ _ _ Hh Ha) as Hrm.
  rewrite <- (frame_overshoot _ _ _ Hf1), <- (frame_max _ _ _ Hf1). set (o := allow_overshoot_ c1).
  apply (call_ends_more (S (trim_fuel o (length l) + S (S (trim_fuel (negb o) (S (length l)) + 1)))));
    [|unfold trim_fuel; destruct o; simpl; lia].
  eapply call_ends_step; [apply run_stage; [done|cbn [Get_step]; by rewrite Hg]|done|exact Hf1|]. fold o.
  apply call_ends_trim with (own := own) (l := l); [exact Hh1|done..|].
  intros c2 Hh2 Hf2. pose proof (fit_length o (max_size_ c1) l) as Hlen.
  rewrite <- (frame_max _ _ _ Hf2) in *. unfold o in *. rewrite <- (frame_overshoot _ _ _ Hf2) in *.
  eapply call_ends_more; [apply (create_ends key c2 _ own Hh2); [by rewrite (frame_mutex _ _ _ Hf2)|by apply remove_fit]|].
  unfold trim_fuel. destruct (negb _); lia.
Qed.

Definition put_op (key : K) (v : V) (two want : bool) : Op K V := if two then OpPut key v else OpPutGet key v want.

Lemma put_ends key v two want c l own : Holds policy_ c l own -> mutex_ c = false -> (two = true -> want = false) ->
  let r := lru (max_size_ c) (allow_overshoot_ c) (OpPutGet key v want) l in
  call_ends (3 * length l + 20) (then_trim (allow_overshoot_ c) (ThenPut key v two want) c) c own (put_op key v two want) r.1 r.2.
Proof.
  intros Hh Hm Htwo. cbn [lru fst snd]. set (o := allow_overshoot_ c). set (max := max_size_ c).
  apply (call_ends_more (trim_fuel o (length l) + S (S (S (trim_fuel (negb o) (S (length l)) + 2)))));
    [|unfold trim_fuel; destruct o; simpl; lia].
  apply call_ends_trim with (own := own) (l := l); [exact Hh|done..|]. fold max.
  intros c1 Hh1 Hf1. cbn [after after_refs app] in *. pose proof (fit_length o max l) as Hlen.
  revert Hh1 Hlen. generalize (fit_if o max l). clear Hh. intros l1 Hh1 Hlen.
  assert (Hm1 : mutex_ c1 = false) by by rewrite (frame_mutex _ _ _ Hf1).
  destruct (Put_add_spec policy_ SizeOf_nonneg key v want c1 l1 own Hh1) as (r & previous & c2 & Hp & Hf2 & Hh2 & Hd & Hprev & Hsome).
  assert (Hm2 : mutex_ c2 = false) by by rewrite (frame_mutex _ _ _ Hf2).
  assert (Ho2 : allow_overshoot_ c2 = o) by by rewrite (frame_overshoot _ _ _ Hf2), (frame_overshoot _ _ _ Hf1).
  assert (Hmax2 : max_size_ c2 = max) by by rewrite (frame_max _ _ _ Hf2), (frame_max _ _ _ Hf1).
  assert (Hrl : (length ((key, v) :: remove_key key l1) <= S (length l))%nat).
  { simpl. unfold remove_key. pose proof (filter_length_le (fun x : K * V => negb (bool_decide (x.1 = key))) l1). lia. }
  destruct previous as [p|].
  - assert (Ha : exists w, assoc key l1 = Some w) by (destruct Hsome as [Hs _]; specialize (Hs ltac:(by eexists)); exact Hs).
    destruct Ha as [w Ha]. rewrite Ha in *. cbn [mbind option_bind] in Hprev.
    eapply call_ends_step; [apply run_stage; [by rewrite Hm1|cbn [Put_step]; by rewrite Hp]|done|exact Hf2|].
    destruct (Holds_IncRef policy_ c2 _ _ p Hh2) as (c3 & Hi & Hh3 & Hf3); [left|].
    eapply call_ends_step; [apply run_stage; [done|cbn [Put_step]; by rewrite Hi]|done|apply Hf3|].
    destruct (Holds_DecRef policy_ c3 _ _ p Hh3) as (c4 & Hdec & Hh4 & Hf4).
    assert (Hf24 : Frame (option_list (Some p) ++ option_list (added_ref want r) ++ own) c2 c4)
      by (eapply Frame_trans; [apply Hf3|exact Hf4]).
    assert (Hfo : Frame own c3 c4).
    { destruct Hf4 as [H1 H2 H3 H4]. split; [done..|]. intros x Hx. apply H4. rewrite !elem_of_app. tauto. }
    eapply call_ends_step; [apply run_stage; [done|cbn [Put_step]; by rewrite Hdec]|done|exact Hfo|].
    rewrite (frame_overshoot _ _ _ Hf24), Ho2. rewrite <- Hmax2, <- (frame_max _ _ _ Hf24).
    apply call_ends_trim with (own := own) (l := (key, v) :: remove_key key l1);
      [rewrite put_result_refs; exact Hh4|by rewrite (frame_mutex _ _ _ Hf24)|exact Hrl|intros x Hx; apply elem_of_app; by right|].
    intros c5 Hh5 Hf5. rewrite put_result_refs in Hh5, Hf5. cbn [put_result].
    assert (Hf25 : Frame (p :: option_list (added_ref want r) ++ own) c2 c5)
      by (eapply Frame_trans; [exact Hf24|exact Hf5]).
    destruct two.
    + rewrite (Htwo eq_refl) in *. cbn [added_ref option_list app after] in *.
      destruct (Holds_DecRef policy_ c5 _ _ p Hh5) as (c6 & Hdec6 & Hh6 & Hf6).
      eapply call_ends_step; [apply run_stage; [done|cbn [Put_step]; by rewrite Hdec6]|done|exact Hf6|].
      apply call_ends_done; [exact Hh6|]. done.
    + apply (call_ends_more 1); [|lia]. apply call_ends_done; [exact Hh5|]. cbn [answers put_op].
      split; [done|]. cbn [mbind option_bind]. rewrite (frame_data _ _ _ Hf25) by left. split; [done|].
      destruct want; [|done]. cbn [added_ref mbind option_bind]. rewrite (frame_data _ _ _ Hf25); [done|]. right. left.
  - assert (Ha : assoc key l1 = None) by (destruct (assoc key l1); [by destruct (proj2 Hsome ltac:(by eexists))|done]).
    rewrite Ha in *. apply (call_ends_more (S (trim_fuel (negb o) (S (length l)) + 1))); [|lia].
    eapply call_ends_step; [apply run_stage; [by rewrite Hm1|cbn [Put_step]; by rewrite Hp]|done|exact Hf2|].
    rewrite Ho2, <- Hmax2. apply call_ends_trim with (own := own) (l := (key, v) :: remove_key key l1);
      [exact Hh2|done|exact Hrl|intros x Hx; apply elem_of_app; by right|].
    intros c5 Hh5 Hf5. cbn [put_result after after_refs result_refs option_list app] in *.
    apply call_ends_done; [exact Hh5|]. unfold put_op. destruct two; [done|]. cbn [answers].
    split; [done|]. split; [done|]. destruct want; [|done]. cbn [added_ref mbind option_bind].
    rewrite (frame_data _ _ _ Hf5); [done|]. left.
Qed.

Lemma remove_ends key two c l own : Holds policy_ c l own -> mutex_ c = false ->
  call_ends 5 (RemoveStart key two) c own (OpRemove key two) (remove_key key l) (assoc key l).
Proof.
  intros Hh Hm. destruct (Remove_find_spec policy_ SizeOf_nonneg key c l own Hh) as (previous & c1 & Hr & Hf1 & Hh1 & Hd & Hsome).
  destruct previous as [p|].
  - destruct (assoc key l) as [w|] eqn:Ha; [|by destruct (proj1 Hsome ltac:(by eexists))]. cbn [mbind option_bind] in Hd.
    eapply call_ends_step; [apply run_stage; [done|cbn [Remove_step]; by rewrite Hr]|done|exact Hf1|].
    destruct (Holds_IncRef policy_ c1 _ _ p Hh1) as (c2 & Hi & Hh2 & Hf2); [left|].
    eapply call_ends_step; [apply run_stage; [done|cbn [Remove_step]; by rewrite Hi]|done|apply Hf2|].
    destruct (Holds_DecRef policy_ c2 _ _ p Hh2) as (c3 & Hdec & Hh3 & Hf3). cbn [option_list app] in *.
    assert (Hfo : Frame own c2 c3).
    { destruct Hf3 as [H1 H2 H3 H4]. split; [done..|]. intros x Hx. apply H4. by right. }
    eapply call_ends_step; [apply run_stage; [done|cbn [Remove_step]; by rewrite Hdec]|by destruct two|exact Hfo|].
    destruct two.
    + destruct (Holds_DecRef policy_ c3 _ _ p Hh3) as (c4 & Hdec4 & Hh4 & Hf4).
      eapply call_ends_step; [apply run_stage; [done|cbn [Remove_step]; by rewrite Hdec4]|done|exact Hf4|].
      apply call_ends_done; [exact Hh4|]. done.
    + apply (call_ends_more 1); [|lia]. apply call_ends_done; [exact Hh3|]. cbn [answers mbind option_bind].
      rewrite (frame_data _ _ _ Hf3), (frame_data (p :: own) c1 c2) by (apply Hf2 || left). done.
  - assert (Ha : assoc key l = None) by (destruct (assoc key l); [by destruct (proj2 Hsome ltac:(by eexists))|done]).
    rewrite Ha. apply (call_ends_more 2); [|lia].
    eapply call_ends_step; [apply run_stage; [done|cbn [Remove_step]; by rewrite Hr]|done|exact Hf1|].
    by apply call_ends_done.
Qed.

Lemma evict_ends c l own : Holds policy_ c l own -> mutex_ c = false ->
  call_ends (3 * length l + 2) (TrimCheck (-1) (ThenReturn Trimmed)) c own OpEvictAll [] None.
Proof.
  intros Hh Hm. destruct (trim_finishes (-1) (ThenReturn Trimmed) own l c Hh Hm) as (c1 & Hh1 & Hf1 & Hn).
  rewrite fit_none in Hh1. exists Trimmed, c1. split; [|done].
  replace (3 * length l + 2)%nat with (3 * length l + 1 + 1)%nat by lia. apply Hn, finishes_done.
Qed.

Lemma Holds_length c l own : Holds policy_ c l own -> length (list_ c) = length l.
Proof. intros (es & Hr & <-). rewrite (rep_list _ _ _ _ Hr). unfold contents. by rewrite !length_fmap. Qed.

Lemma call_spec op c l own : Holds policy_ c l own -> mutex_ c = false ->
  let r := lru (max_size_ c) (allow_overshoot_ c) op l in
  call_ends (3 * length (list_ c) + 20) (start op c) c own op r.1 r.2.
Proof.
  intros Hh Hm. rewrite (Holds_length c l own Hh). destruct op as [key|key v|key v want|key two|]; cbn [start].
  - eapply call_ends_more; [by apply get_ends|lia].
  - by apply (put_ends key v true false).
  - by apply (put_ends key v false want).
  - eapply call_ends_more; [by apply remove_ends|lia].
  - eapply call_ends_more; [by apply evict_ends|lia].
Qed.

(** A sequence of calls. *)
Fixpoint calls (ops : list (Op K V)) (c : Cache K V) : option (list Result * Cache K V) :=
  match ops with
  | [] => Some ([], c)
  | op :: ops => '(res, c) ← call policy_ op c; '(ress, c) ← calls ops c; Some (res :: ress, c)
  end.

Definition lru_all (max : Z) (overshoot : bool) (ops : list (Op K V)) : list (K * V) :=
  foldl (fun l op => (lru max overshoot op l).1) [] ops.

Lemma calls_spec max overshoot ops c l own : Holds policy_ c l own -> mutex_ c = false ->
  max_size_ c = max -> allow_overshoot_ c = overshoot ->
  exists ress c', calls ops c = Some (ress, c') /\ length ress = length ops /\
  Holds policy_ c' (foldl (fun l op => (lru max overshoot op l).1) l ops) (concat (result_refs <$> reverse ress) ++ own) /\
  mutex_ c' = false /\ max_size_ c' = max /\ allow_overshoot_ c' = overshoot.
Proof.
  intros Hh Hm <- <-. revert c l own Hh Hm. induction ops as [|op ops IH]; intros c l own Hh Hm; [by exists [], c|].
  destruct (call_spec op c l own Hh Hm) as (res & c1 & Hc & Hh1 & Hf1 & _). fold (call policy_ op c) in Hc.
  destruct (IH c1 _ _ Hh1) as (ress & c2 & Hcs & Hlen & Hh2 & Hm2 & Hmax2 & Ho2); [by rewrite (frame_mutex _ _ _ Hf1)|].
  rewrite (frame_max _ _ _ Hf1) in *. rewrite (frame_overshoot _ _ _ Hf1) in *.
  cbn [calls]. unfold finishes in Hc. unfold call. rewrite Hc. cbn [mbind option_bind]. rewrite Hcs. cbn [mbind option_bind].
  exists (res :: ress), c2. split; [done|]. split; [simpl; by rewrite Hlen|].
  split; [|done]. rewrite reverse_cons, fmap_app, concat_app. cbn [fmap list_fmap concat]. rewrite app_nil_r, <- app_assoc. exact Hh2.
Qed.

Lemma Holds_new max overshoot c : LruCache_new max overshoot = Some c -> Holds policy_ c [] [] /\ mutex_ c = false /\
  max_size_ c = max /\ allow_overshoot_ c = overshoot /\ 0 < max.
Proof.
  unfold LruCache_new, CHECK. destruct (Z.ltb_spec 0 max); [|done]. cbn [mbind option_bind]. intros [= <-].
  split; [|done]. exists []. split; [|done]. split; cbn; try done; try apply NoDup_nil_2; try (intros e He; by apply not_elem_of_nil in He).
Qed.

(** C36: calls made one at a time never fail a check and always return: after any of them the
    list of the cache has the keys of the entries that the list of the most recently used
    has, in its order, each key leads to its value, the size is the sum of their sizes, and
    the next call answers what it answers on that list. *)
Theorem lru_calls max overshoot c ops : LruCache_new max overshoot = Some c ->
  exists ress c', calls ops c = Some (ress, c') /\ length ress = length ops /\
  let l := lru_all max overshoot ops in
  (list_ c').*2 = l.*1 /\ size_ c' = total policy_ l /\
  (forall key v, (key, v) ∈ l -> exists r node, map_ c' !! key = Some (r, node) /\ data_of r (memory c') = Some v) /\
  (forall op, exists res c'', call policy_ op c' = Some (res, c'') /\ answers op res c'' (lru max overshoot op l).2).
Proof.
  intros Hnew. destruct (Holds_new max overshoot c Hnew) as (Hh & Hm & Hmax & Ho & _).
  destruct (calls_spec max overshoot ops c [] [] Hh Hm Hmax Ho) as (ress & c' & Hc & Hlen & Hh' & Hm' & Hmax' & Ho').
  exists ress, c'. split; [done|]. split; [done|]. fold (lru_all max overshoot ops) in Hh'. cbv zeta.
  pose proof Hh' as (es & Hr & Hl). split_and!.
  - rewrite (rep_list _ _ _ _ Hr), <- Hl. unfold contents. by rewrite <- !list_fmap_compose.
  - by rewrite (rep_size _ _ _ _ Hr), Hl.
  - intros key v Hin. rewrite <- Hl in Hin. unfold contents in Hin. apply list_elem_of_fmap in Hin as (e & [= -> ->] & Hin).
    exists (e_ref e), (e_node e). split; [|by apply (rep_values _ _ _ _ Hr)]. rewrite (rep_map _ _ _ _ Hr).
    apply elem_of_list_to_map; [rewrite <- list_fmap_compose; apply Hr|]. apply list_elem_of_fmap. by exists e.
  - intros op. destruct (call_spec op c' _ _ Hh' Hm') as (res & c'' & Hcall & _ & _ & Ha).
    rewrite Hmax', Ho' in Ha. exists res, c''. by split.
Qed.

End Calls.

(** ** Calls that interleave

    Threads in the cache, each at its stage; one that is done keeps the references of its
    result until it releases them. *)
Section Threads.
Context {K : Type} {K_eq_dec : EqDecision K} {K_countable : Countable K} {V : Type}.
Variable policy_ : Policy K V.

Record World := mkWorld { cache : Cache K V; threads : list (Stage K V) }.

Inductive Event :=
  | Call (op : Op K V)
  | Run (i : nat)
  | Release (i : nat).

Fixpoint release (rs : list nat) (c : Cache K V) : option (Cache K V) :=
  match rs with
  | [] => Some c
  | r :: rs => c ← cache_DecRef r c; release rs c
  end.

Definition event (e : Event) (w : World) : option World :=
  match e with
  | Call op => Some (mkWorld (cache w) (threads w ++ [start op (cache w)]))
  | Run i =>
      match threads w !! i with
      | Some t => '(t, c) ← step policy_ t (cache w); Some (mkWorld c (<[i := t]> (threads w)))
      | None => Some w
      end
  | Release i =>
      match threads w !! i with
      | Some (Done res) => c ← release (result_refs res) (cache w); Some (mkWorld c (<[i := Done Trimmed]> (threads w)))
      | _ => Some w
      end
  end.

Fixpoint events (es : list Event) (w : World) : option World :=
  match es with
  | [] => Some w
  | e :: es => w ← event e w; events es w
  end.

(** The references held outside the cache. *)
Definition world_refs (w : World) : list nat := concat (stage_refs <$> threads w).

Hypothesis SizeOf_nonneg : forall k v, 0 <= SizeOf policy_ k v.

Record Sound (max : Z) (overshoot : bool) (w : World) (l : list (K * V)) : Prop := {
  sound_holds : Holds policy_ (cache w) l (world_refs w);
  sound_lock : mutex_ (cache w) = true -> l = [];
  sound_max : max_size_ (cache w) = max;
  sound_overshoot : allow_overshoot_ (cache w) = overshoot;
  sound_size : overshoot = false -> total policy_ l <= max \/ exists t, t ∈ threads w /\ trims max t }.

Lemma start_refs op (c : Cache K V) : stage_refs (start op c) = [].
Proof. destruct op; simpl; rewrite ?then_trim_refs; done. Qed.

Lemma release_spec rs c l own : Holds policy_ c l (rs ++ own) -> exists c', release rs c = Some c' /\ Holds policy_ c' l own /\ Frame own c c'.
Proof.
  revert c. induction rs as [|r rs IH]; intros c Hh; [by exists c|].
  destruct (Holds_DecRef policy_ c l _ r Hh) as (c1 & Hd & Hh1 & [H1 H2 H3 H4]). destruct (IH c1 Hh1) as (c2 & Hr & Hh2 & Hf2).
  exists c2. cbn [release]. rewrite Hd. cbn [mbind option_bind]. split; [done|]. split; [done|].
  apply (Frame_trans _ _ c1); [|done]. split; [done..|]. intros x Hx. apply H4, elem_of_app. by right.
Qed.

Lemma threads_split (ts : list (Stage K V)) i t : ts !! i = Some t -> exists own,
  concat (stage_refs <$> ts) ≡ₚ stage_refs t ++ own /\
  forall t', concat (stage_refs <$> <[i := t']> ts) ≡ₚ stage_refs t' ++ own.
Proof.
  intros Ht. apply list_elem_of_split_length in Ht as (l1 & l2 & -> & ->).
  exists (concat (stage_refs <$> l1) ++ concat (stage_refs <$> l2)).
  assert (Hp : forall x, concat (stage_refs <$> l1 ++ x :: l2) ≡ₚ stage_refs x ++ concat (stage_refs <$> l1) ++ concat (stage_refs <$> l2)).
  { intros x. rewrite fmap_app, fmap_cons, concat_app. cbn [concat]. solve_Permutation. }
  split; [apply Hp|]. intros t'. rewrite <- (Nat.add_0_r (length l1)), insert_app_r. apply Hp.
Qed.

Lemma trims_elsewhere max (ts : list (Stage K V)) i t t' : ts !! i = Some t -> (exists u, u ∈ ts /\ trims max u) ->
  trims max t \/ (exists u, u ∈ <[i := t']> ts /\ trims max u).
Proof.
  intros Ht (u & Hu & Hm). apply list_elem_of_lookup in Hu as [j Hj]. destruct (decide (i = j)) as [->|Hne].
  - left. congruence.
  - right. exists u. split; [|done]. apply list_elem_of_lookup. exists j. by rewrite list_lookup_insert_ne.
Qed.

Lemma elem_of_insert (ts : list (Stage K V)) i t t' : ts !! i = Some t -> t' ∈ <[i := t']> ts.
Proof.
  intros Ht. apply list_elem_of_lookup. exists i. apply list_lookup_insert_eq. by eapply lookup_lt_Some.
Qed.

Lemma event_sound max overshoot e w l : 0 < max -> Sound max overshoot w l ->
  exists w' l', event e w = Some w' /\ Sound max overshoot w' l'.
Proof.
  intros Hpos [Hh Hlock Hmax Ho Hsize]. destruct e as [op|i|i]; cbn [event].
  - eexists _, l. split; [done|]. split; cbn [cache threads]; try done.
    + unfold world_refs. cbn [threads]. rewrite fmap_app, concat_app. cbn [fmap list_fmap concat]. by rewrite start_refs, !app_nil_r.
    + intros Hov. destruct (Hsize Hov) as [?|(t & Hin & Ht)]; [by left|right]. exists t. split; [|done]. apply elem_of_app. by left.
  - destruct (threads w !! i) as [t|] eqn:Ht; [|by exists w, l]. destruct (threads_split _ _ _ Ht) as (own & Hown & Hown').
    destruct (step_well policy_ SizeOf_nonneg t (cache w) l own) as (t' & c' & -> & l' & Hh' & Hlock' & Hmax' & Ho' & Hwithin);
      [by eapply Holds_own|done|by rewrite Hmax|].
    cbn [mbind option_bind]. eexists _, l'. split; [done|]. split; cbn [cache threads]; try done; try congruence.
    + eapply Holds_own; [|exact Hh']. symmetry. apply Hown'.
    + intros Hov. assert (Hw : within policy_ (cache w) l t -> total policy_ l' <= max \/ exists u, u ∈ <[i:=t']> (threads w) /\ trims max u).
      { intros Hin. rewrite Ho in Hwithin. destruct (Hwithin Hov Hin) as [Hle|Htr]; [left; lia|]. right. exists t'.
        split; [by eapply elem_of_insert|]. by rewrite Hmax', Hmax in Htr. }
      destruct (Hsize Hov) as [Hle|Hex]; [apply Hw; left; lia|].
      destruct (trims_elsewhere max _ i t t' Ht Hex) as [Htr|Hex']; [apply Hw; right; by rewrite Hmax|by right].
  - destruct (threads w !! i) as [t|] eqn:Ht; [|by exists w, l].
    destruct t as [| | | | | | | | | | | | | | |res]; try by exists w, l.
    destruct (threads_split _ _ _ Ht) as (own & Hown & Hown').
    destruct (release_spec (result_refs res) (cache w) l own) as (c' & -> & Hh' & [H1 H2 H3 H4]); [by eapply Holds_own|].
    cbn [mbind option_bind]. eexists _, l. split; [done|]. split; cbn [cache threads]; try congruence.
    + eapply Holds_own; [|exact Hh']. symmetry. apply (Hown' (Done Trimmed)).
    + by rewrite H3.
    + intros Hov. destruct (Hsize Hov) as [?|Hex]; [by left|].
      destruct (trims_elsewhere max _ i _ (Done Trimmed) Ht Hex) as [[]|Hex']; by right.
Qed.

Lemma events_sound max overshoot es : 0 < max -> forall w l, Sound max overshoot w l ->
  exists w' l', events es w = Some w' /\ Sound max overshoot w' l'.
Proof.
  intros Hpos. induction es as [|e es IH]; intros w l Hs; [by exists w, l|].
  destruct (event_sound max overshoot e w l Hpos Hs) as (w1 & l1 & He & Hs1). cbn [events]. rewrite He. by eapply IH.
Qed.

Lemma new_sound max overshoot c : LruCache_new max overshoot = Some c -> Sound max overshoot (mkWorld c []) [] /\ 0 < max.
Proof.
  intros Hnew. destruct (Holds_new policy_ max overshoot c Hnew) as (Hh & Hm & Hmax & Ho & Hpos).
  split; [|done]. split; cbn [cache threads]; try done. intros _. left. simpl. lia.
Qed.

Definition is_done (t : Stage K V) : bool := match t with Done _ => true | _ => false end.

(** C37: however calls of any number of threads interleave in a cache, none fails a check,
    touches a reference that is gone or uses a node that is not in the list: every reference
    is counted once for the entry it is in and once for every thread that holds it, and is
    gone when nobody does; the list and the map have the same keys, once each; the size is
    the sum of the sizes of the entries; and when no call is under way a cache that may not
    overshoot is within its size. *)
Theorem threads_keep_cache max overshoot c es : LruCache_new max overshoot = Some c ->
  exists w entries, events es (mkWorld c []) = Some w /\
  let c := cache w in
  (forall r, ref_count_of r (memory c) = held r ((e_ref <$> entries) ++ world_refs w)) /\
  (forall r o, refs (memory c) !! r = Some o -> 0 < ref_count_ o) /\
  list_ c = (fun e => (e_node e, e_key e)) <$> entries /\ map_ c = entry_map entries /\ NoDup (e_key <$> entries) /\
  (forall e, e ∈ entries -> data_of (e_ref e) (memory c) = Some (e_val e)) /\
  size_ c = total policy_ (contents entries) /\
  (overshoot = false -> forallb is_done (threads w) = true -> size_ c <= max).
Proof.
  intros Hnew. destruct (new_sound max overshoot c Hnew) as [Hs0 Hpos].
  destruct (events_sound max overshoot es Hpos _ _ Hs0) as (w & l & He & [Hh Hlock Hmax Ho Hsize]).
  destruct Hh as (entries & Hr & Hl). exists w, entries. split; [done|]. cbv zeta. split_and!.
  - apply (rep_memory _ _ _ _ Hr).
  - apply (counted_pos _ _ (rep_memory _ _ _ _ Hr)).
  - apply Hr.
  - apply Hr.
  - apply Hr.
  - apply Hr.
  - apply Hr.
  - intros Hov Hall. rewrite (rep_size _ _ _ _ Hr), Hl. destruct (Hsize Hov) as [Hle|(t & Hin & Ht)]; [done|].
    rewrite forallb_forall in Hall. apply list_elem_of_In in Hin. specialize (Hall t Hin). by destruct t.
Qed.

(** ** A lock left behind *)

Lemma locked_step t c t' c' : mutex_ c = true -> step policy_ t c = Some (t', c') -> mutex_ c' = true /\
  (takes_lock t = true -> t' = t).
Proof.
  intros Hm. unfold step. rewrite Hm, andb_true_r.
  assert (Hi : forall r c1, cache_IncRef r c = Some c1 -> mutex_ c1 = mutex_ c).
  { intros r c1. unfold cache_IncRef. destruct (IncRef _ _); [|done]. by intros [= <-]. }
  assert (Hd : forall r c1, cache_DecRef r c = Some c1 -> mutex_ c1 = mutex_ c).
  { intros r c1. unfold cache_DecRef. destruct (DecRef _ _); [|done]. by intros [= <-]. }
  destruct t; cbn [takes_lock Get_step Put_step Remove_step TrimToSize_step];
    try (intros [= <- <-]; split; done);
    try (destruct (cache_IncRef _ c) as [c1|] eqn:Hc; [|done]; cbn [mbind option_bind]; intros [= <- <-]; rewrite (Hi _ _ Hc); done);
    try (destruct (cache_DecRef _ c) as [c1|] eqn:Hc; [|done]; cbn [mbind option_bind]; intros [= <- <-]; rewrite (Hd _ _ Hc); done).
  destruct (Create policy_ key); intros [= <- <-]; done.
Qed.

Lemma release_lock rs : forall c c', release rs c = Some c' -> mutex_ c' = mutex_ c.
Proof.
  induction rs as [|r rs IH]; intros c c'; [by intros [= <-]|]. cbn [release]. unfold cache_DecRef.
  destruct (DecRef r (memory c)); [|done]. cbn [mbind option_bind]. intros Hr. by rewrite (IH _ _ Hr).
Qed.

(** All the calls made from some thread on wait for the lock. *)
Definition stuck (n : nat) (w : World) : Prop :=
  mutex_ (cache w) = true /\ (n <= length (threads w))%nat /\
  forall i t, (n <= i)%nat -> threads w !! i = Some t -> takes_lock t = true.

Lemma stuck_event n e w w' : stuck n w -> event e w = Some w' -> stuck n w'.
Proof.
  intros (Hm & Hn & Ht). destruct e as [op|i|i]; cbn [event].
  - intros [= <-]. split; [done|]. cbn [threads]. rewrite length_app. split; [simpl; lia|].
    intros i t Hi Hl. apply lookup_app_Some in Hl as [Hl|[_ Hl]]; [by eapply Ht|].
    apply list_lookup_singleton_Some in Hl as [_ <-]. destruct op; cbn [start takes_lock]; try done;
      unfold then_trim; by destruct (allow_overshoot_ _).
  - destruct (threads w !! i) as [t|] eqn:Hi; [|by intros [= <-]].
    destruct (step policy_ t (cache w)) as [[t' c']|] eqn:Hs; [|done]. cbn [mbind option_bind]. intros [= <-].
    destruct (locked_step _ _ _ _ Hm Hs) as [Hm' Hsame]. split; [done|]. cbn [threads]. rewrite length_insert. split; [done|].
    intros j u Hj Hl. destruct (decide (i = j)) as [->|]; [|rewrite list_lookup_insert_ne in Hl by done; by eapply Ht].
    rewrite list_lookup_insert_eq in Hl by (by eapply lookup_lt_Some). simplify_eq.
    specialize (Ht j t Hj Hi). by rewrite Hsame.
  - destruct (threads w !! i) as [t|] eqn:Hi; [|by intros [= <-]].
    destruct t as [| | | | | | | | | | | | | | |res]; try by intros [= <-].
    destruct (release (result_refs res) (cache w)) as [c'|] eqn:Hr; [|done]. cbn [mbind option_bind]. intros [= <-].
    split; [cbn [cache]; by rewrite (release_lock _ _ _ Hr)|]. cbn [threads]. rewrite length_insert. split; [done|].
    intros j u Hj Hl. destruct (decide (i = j)) as [->|]; [|rewrite list_lookup_insert_ne in Hl by done; by eapply Ht].
    specialize (Ht j _ Hj Hi). done.
Qed.

Lemma stuck_events n es : forall w w', stuck n w -> events es w = Some w' -> stuck n w'.
Proof.
  induction es as [|e es IH]; intros w w' Hs; cbn [events]; [by intros [= <-]|].
  destruct (event e w) as [w1|] eqn:He; [|done]. cbn [mbind option_bind]. apply IH. by eapply stuck_event.
Qed.

End Threads.

(** Calls and steps of threads: a value is put, one thread evicts all and, between its test
    and its eviction, another removes the value. *)
Definition evict_and_remove : list (Event (K := Z) (V := Z)) :=
  [Call (OpPut 1 10); Run 0; Run 0; Call OpEvictAll; Run 1; Call (OpRemove 1 true); Run 2; Run 2; Run 2; Run 2; Run 1].

(** [TrimToSize] leaves its loop with the lock held when another thread has emptied the
    list after its test: its call returns, and every call made from then on waits for ever,
    whatever the threads do. *)
Theorem trim_keeps_lock : exists c w, LruCache_new 1 false = Some c /\
  events (SimpleLruCachePolicy Z Z) evict_and_remove (mkWorld c []) = Some w /\
  forallb is_done (threads w) = true /\ mutex_ (cache w) = true /\
  forall es w', events (SimpleLruCachePolicy Z Z) es w = Some w' ->
    mutex_ (cache w') = true /\ forall i t, (3 <= i)%nat -> threads w' !! i = Some t -> takes_lock t = true.
Proof.
  assert (Hrun : (c ← LruCache_new (K := Z) (V := Z) 1 false;
    w ← events (SimpleLruCachePolicy Z Z) evict_and_remove (mkWorld c []);
    Some (forallb is_done (threads w), mutex_ (cache w), length (threads w))) = Some (true, true, 3%nat)).
  { vm_compute. reflexivity. }
  destruct (LruCache_new 1 false) as [c|] eqn:Hnew; [|discriminate Hrun]. cbn [mbind option_bind] in Hrun.
  destruct (events (SimpleLruCachePolicy Z Z) evict_and_remove (mkWorld c [])) as [w|] eqn:He; [|discriminate Hrun].
  cbn [mbind option_bind] in Hrun. injection Hrun as Hall Hm Hlen.
  exists c, w. split; [done|]. split; [done|]. split; [done|]. split; [done|]. intros es w' Hes.
  assert (Hs : stuck 3 w').
  { eapply stuck_events; [|exact Hes]. split; [done|]. split; [by rewrite Hlen|]. intros i t Hi Ht.
    apply lookup_lt_Some in Ht. lia. }
  destruct Hs as (Hm' & _ & Ht). by split.
Qed.

Lemma SimpleLruCachePolicy_sizes (k v : Z) : 0 <= SizeOf (SimpleLruCachePolicy Z Z) k v.
Proof. done. Qed.

Lemma lru_calls_witness : exists c, LruCache_new (K := Z) (V := Z) 2 false = Some c /\
  exists ress c', calls (SimpleLruCachePolicy Z Z) [OpPut 1 10; OpPut 2 20; OpGet 1; OpPut 3 30] c = Some (ress, c') /\
  (list_ c').*2 = [3; 1] /\ size_ c' = 2.
Proof.
  destruct (LruCache_new (K := Z) (V := Z) 2 false) as [c|] eqn:Hc; [|discriminate Hc]. exists c. split; [reflexivity|].
  destruct (lru_calls (SimpleLruCachePolicy Z Z) SimpleLruCachePolicy_sizes 2 false c [OpPut 1 10; OpPut 2 20; OpGet 1; OpPut 3 30] Hc)
    as (ress & c' & H1 & _ & H2 & H3 & _).
  exists ress, c'. split; [exact H1|]. split; [rewrite H2; vm_compute; reflexivity|rewrite H3; vm_compute; reflexivity].
Defined.

Lemma threads_keep_cache_witness : exists c, LruCache_new (K := Z) (V := Z) 1 false = Some c /\
  exists w, events (SimpleLruCachePolicy Z Z) evict_and_remove (mkWorld c []) = Some w /\ size_ (cache w) <= 1.
Proof.
  destruct (LruCache_new (K := Z) (V := Z) 1 false) as [c|] eqn:Hc; [|discriminate Hc]. exists c. split; [reflexivity|].
  assert (Hrun : (c ← LruCache_new (K := Z) (V := Z) 1 false;
    w ← events (SimpleLruCachePolicy Z Z) evict_and_remove (mkWorld c []); Some (forallb is_done (threads w))) = Some true)
    by (vm_compute; reflexivity).
  destruct (threads_keep_cache (SimpleLruCachePolicy Z Z) SimpleLruCachePolicy_sizes 1 false c evict_and_remove Hc)
    as (w & entries & H1 & _ & _ & _ & _ & _ & _ & _ & H2). exists w. split; [exact H1|].
  apply H2; [reflexivity|]. rewrite Hc in Hrun. cbn [mbind option_bind] in Hrun. rewrite H1 in Hrun. by injection Hrun.
Defined.

End LruCacheProps.
