(* ===== verification/LockFree.v ===== *)
(** * LockFree: [sync/lock_free_producer_consumer_queue.h]

    The queue of pointers in a ring that any number of producers and consumers share without
    a lock.  [Put] and [Get] are the same text with the two ends exchanged, and so are they
    here: a [Side] selects [head_] or [tail_], [last_head_] or [last_tail_] and the field of
    [clients_] that belongs to it.  Every access to shared memory is a step of its own and
    the steps of the threads interleave in any order, in sequentially consistent memory:
    what an x86-64 gives this code, whose stores before an access by [__sync_fetch_and_add]
    are visible before it.  An access past the end of an array is [None]. *)

From S2P Require Import Prelude.

Module LockFree.

Inductive Side := Producer | Consumer.

Definition other (s : Side) : Side := match s with Producer => Consumer | Consumer => Producer end.

Definition ULONG_MAX : Z := 2 ^ 64 - 1.

Record ClientPos := mkPos { pos_head_ : Z; pos_tail_ : Z }.

(** [while (ret < sz) ret <<= 1]. *)
Definition NextPow2_step (sz ret : Z) : option (Z + Z) :=
  Some (if ret <? sz then inl (size_t (Z.shiftl ret 1)) else inr ret).

Definition NextPow2 (sz : Z) : option Z := loop (NextPow2_step sz) 65 1.

Section Queue.
Context {C : Type}.

Record Queue := mkQueue {
  num_producers_ : nat; num_consumers_ : nat; q_size_ : Z; q_mask_ : Z;
  head_ : Z; tail_ : Z; last_head_ : Z; last_tail_ : Z;
  clients_ : list ClientPos; data_ : list C }.

(** The memory of [data_] is what [memalign] gives. *)
Definition LockFree_new (q_size : Z) (num_producers num_consumers : nat) (garbage : Z -> list C) : option Queue :=
  n ← NextPow2 q_size;
  Some (mkQueue num_producers num_consumers n (n - 1) 0 0 0 0
    (replicate (Nat.max num_consumers num_producers) (mkPos ULONG_MAX ULONG_MAX)) (garbage n)).

(** ** The ends *)

Definition next (s : Side) (q : Queue) : Z := match s with Producer => head_ q | Consumer => tail_ q end.
Definition last (s : Side) (q : Queue) : Z := match s with Producer => last_head_ q | Consumer => last_tail_ q end.
Definition num (s : Side) (q : Queue) : nat := match s with Producer => num_producers_ q | Consumer => num_consumers_ q end.
Definition pos (s : Side) (id : nat) (q : Queue) : option Z :=
  c ← clients_ q !! id; Some (match s with Producer => pos_head_ c | Consumer => pos_tail_ c end).

Definition set_next (s : Side) (x : Z) (q : Queue) : Queue :=
  match s with
  | Producer => mkQueue (num_producers_ q) (num_consumers_ q) (q_size_ q) (q_mask_ q) x (tail_ q) (last_head_ q) (last_tail_ q) (clients_ q) (data_ q)
  | Consumer => mkQueue (num_producers_ q) (num_consumers_ q) (q_size_ q) (q_mask_ q) (head_ q) x (last_head_ q) (last_tail_ q) (clients_ q) (data_ q)
  end.
Definition set_last (s : Side) (x : Z) (q : Queue) : Queue :=
  match s with
  | Producer => mkQueue (num_producers_ q) (num_consumers_ q) (q_size_ q) (q_mask_ q) (head_ q) (tail_ q) x (last_tail_ q) (clients_ q) (data_ q)
  | Consumer => mkQueue (num_producers_ q) (num_consumers_ q) (q_size_ q) (q_mask_ q) (head_ q) (tail_ q) (last_head_ q) x (clients_ q) (data_ q)
  end.
Definition set_clients (cs : list ClientPos) (q : Queue) : Queue :=
  mkQueue (num_producers_ q) (num_consumers_ q) (q_size_ q) (q_mask_ q) (head_ q) (tail_ q) (last_head_ q) (last_tail_ q) cs (data_ q).
Definition set_data (d : list C) (q : Queue) : Queue :=
  mkQueue (num_producers_ q) (num_consumers_ q) (q_size_ q) (q_mask_ q) (head_ q) (tail_ q) (last_head_ q) (last_tail_ q) (clients_ q) d.
Definition set_pos (s : Side) (id : nat) (x : Z) (q : Queue) : option Queue :=
  c ← clients_ q !! id;
  Some (set_clients (<[id := match s with Producer => mkPos x (pos_tail_ c) | Consumer => mkPos (pos_head_ c) x end]> (clients_ q)) q).

(** ** Threads

    Where a call of [Put] or [Get] is: each stage is the access to shared memory that comes
    next. *)
Inductive Stage :=
  | Idle
  | ReadNext                   (* clients_[id].x = x: the read *)
  | Announce (p : Z)           (* the write *)
  | FetchAdd
  | Claim (t : Z)              (* clients_[id].x = what was fetched *)
  | Test                       (* the condition of the loop *)
  | ReadOther                  (* pos_min = the next position of the other end *)
  | Scan (i : nat) (pos_min : Z)
  | SetLast (pos_min : Z)
  | TestAgain
  | Access                     (* data_[..] *)
  | Finish.                    (* clients_[id].x = ULONG_MAX *)

(** A thread of one client; [value] is the pointer to put, or the one that was got. *)
Record Thread := mkThread { stage : Stage; value : option C }.

(** The position from which a client must wait: a producer for its slot to be read, a
    consumer for it to be written. *)
Definition limit (s : Side) (q : Queue) : Z :=
  match s with Producer => size_t (last_tail_ q + q_size_ q) | Consumer => last_head_ q end.

(** The slot of a position. *)
Definition slot (p : Z) (q : Queue) : nat := Z.to_nat (Z.land p (q_mask_ q)).

Definition access (s : Side) (p : Z) (v : option C) (q : Queue) : option (option C * Queue) :=
  match s with
  | Producer =>
      v ← v; _ ← data_ q !! slot p q;
      Some (Some v, set_data (<[slot p q := v]> (data_ q)) q)
  | Consumer => v ← data_ q !! slot p q; Some (Some v, q)
  end.

Definition step (s : Side) (id : nat) (t : Thread) (q : Queue) : option (Thread * Queue) :=
  let goto st q := Some (mkThread st (value t), q) in
  match stage t with
  | Idle => Some (t, q)
  | ReadNext => goto (Announce (next s q)) q
  | Announce p => q ← set_pos s id p q; goto FetchAdd q
  | FetchAdd => goto (Claim (next s q)) (set_next s (size_t (next s q + 1)) q)
  | Claim p => q ← set_pos s id p q; goto Test q
  | Test => p ← pos s id q; goto (if limit s q <=? p then ReadOther else Access) q
  | ReadOther => goto (Scan 0 (next (other s) q)) q
  | Scan i pos_min =>
      if (i <? num (other s) q)%nat then
        tmp ← pos (other s) i q;
        goto (Scan (S i) (if tmp <? pos_min then tmp else pos_min)) q
      else goto (SetLast pos_min) q
  | SetLast pos_min => goto TestAgain (set_last (other s) pos_min q)
  | TestAgain => p ← pos s id q; goto (if p <? limit s q then Access else Test) q
  | Access =>
      p ← pos s id q;
      '(v, q) ← access s p (value t) q;
      Some (mkThread Finish v, q)
  | Finish => q ← set_pos s id ULONG_MAX q; goto Idle q
  end.

End Queue.

#[global] Arguments Queue : clear implicits.
#[global] Arguments Thread : clear implicits.

End LockFree.
