(* ===== verification/LockFreeSpec.v ===== *)
(** * LockFreeSpec: what the threads of the lock free queue keep

    A world is a queue, the threads of its producers and consumers, and what has happened:
    the pointers put in the order of their positions, the positions written, and the
    positions read with what was found there.  [Core] says who owns which position and what
    the scans of the loops establish; [Store] what is in the ring. *)

From S2P Require Import Prelude.
From S2P Require Import LockFree.

Module LockFreeSpec.
Import LockFree.

#[export] Instance Side_eq_dec : EqDecision Side.
Proof. solve_decision. Defined.

Section World.
Context {C : Type}.

Record World := mkWorld {
  queue : Queue C; threads : Side -> list (Thread C);
  puts : list C; written : list Z; got : list (Z * C) }.

Definition set_thread (s : Side) (i : nat) (th : Thread C) (ts : Side -> list (Thread C)) : Side -> list (Thread C) :=
  fun s' => if decide (s' = s) then <[i := th]> (ts s) else ts s'.

Inductive Event :=
  | Put (id : nat) (v : C)
  | Get (id : nat)
  | Step (s : Side) (id : nat).

(** A client calls [Put] or [Get] when it is idle. *)
Definition begin (s : Side) (id : nat) (v : option C) (w : World) : World :=
  match threads w s !! id with
  | Some (mkThread Idle _) =>
      mkWorld (queue w) (set_thread s id (mkThread ReadNext v) (threads w)) (puts w) (written w) (got w)
  | _ => w
  end.

(** What a step adds to the history: a position taken, written or read. *)
Definition record (s : Side) (id : nat) (t t' : Thread C) (w : World) : list C * list Z * list (Z * C) :=
  match stage t, s, pos s id (queue w) with
  | FetchAdd, Producer, _ => (puts w ++ option_list (value t), written w, got w)
  | Access, Producer, Some p => (puts w, written w ++ [p], got w)
  | Access, Consumer, Some p => (puts w, written w, got w ++ ((fun v => (p, v)) <$> option_list (value t')))
  | _, _, _ => (puts w, written w, got w)
  end.

Definition event (e : Event) (w : World) : option World :=
  match e with
  | Put id v => Some (begin Producer id (Some v) w)
  | Get id => Some (begin Consumer id None w)
  | Step s id =>
      match threads w s !! id with
      | None => Some w
      | Some t =>
          '(t', q) ← step s id t (queue w);
          let '(ps, ws, gs) := record s id t t' w in
          Some (mkWorld q (set_thread s id t' (threads w)) ps ws gs)
      end
  end.

Fixpoint events (es : list Event) (w : World) : option World :=
  match es with
  | [] => Some w
  | e :: es => w ← event e w; events es w
  end.

Definition world_new (q : Queue C) : World :=
  mkWorld q (fun s => replicate (num s q) (mkThread Idle None)) [] [] [].

(** ** Positions *)

Definition done (s : Side) (w : World) (t : Z) : Prop :=
  match s with Producer => t ∈ written w | Consumer => t ∈ (got w).*1 end.

(** The position a thread has taken and not yet written or read. *)
Definition owned (th : Thread C) (p : option Z) : option Z :=
  match stage th with
  | Claim t => Some t
  | Test | ReadOther | Scan _ _ | SetLast _ | TestAgain | Access => p
  | _ => None
  end.

Definition own (w : World) (s : Side) (i : nat) : option Z :=
  th ← threads w s !! i; owned th (pos s i (queue w)).

(** A position may be written when the one before it in its slot has been read, and read
    when it is written. *)
Definition allowed (s : Side) (w : World) (t : Z) : Prop :=
  match s with
  | Producer => forall t', 0 <= t' -> t' + q_size_ (queue w) <= t -> done Consumer w t'
  | Consumer => done Producer w t
  end.

Definition thread_ok (w : World) (s : Side) (th : Thread C) (p : Z) : Prop :=
  match stage th with
  | Idle | ReadNext => p = ULONG_MAX
  | Announce x => p = ULONG_MAX /\ 0 <= x <= next s (queue w)
  | FetchAdd => 0 <= p <= next s (queue w)
  | Scan j pos_min =>
      0 <= pos_min <= next (other s) (queue w) /\
      forall t, 0 <= t < pos_min -> done (other s) w t \/ exists k, (j <= k)%nat /\ own w (other s) k = Some t
  | SetLast pos_min => 0 <= pos_min <= next (other s) (queue w) /\ forall t, 0 <= t < pos_min -> done (other s) w t
  | Access => allowed s w p
  | _ => True
  end.

(** [n] bounds the positions. *)
Record Core (n : Z) (w : World) : Prop := {
  core_threads : forall s, length (threads w s) = num s (queue w);
  core_clients : length (clients_ (queue w)) = Nat.max (num Consumer (queue w)) (num Producer (queue w));
  core_thread : forall s i th, threads w s !! i = Some th -> exists p, pos s i (queue w) = Some p /\ thread_ok w s th p;
  core_own : forall s i t, own w s i = Some t -> 0 <= t < next s (queue w) /\ ~ done s w t /\
    exists p, pos s i (queue w) = Some p /\ p <= t;
  core_unique : forall s i j t, own w s i = Some t -> own w s j = Some t -> i = j;
  core_cover : forall s t, 0 <= t < next s (queue w) -> done s w t \/ exists i, own w s i = Some t;
  core_done : forall s t, done s w t -> 0 <= t < next s (queue w);
  core_last : forall s, 0 <= last s (queue w) <= next s (queue w) /\ forall t, 0 <= t < last s (queue w) -> done s w t;
  core_bound : forall s, 0 <= next s (queue w) <= n;
  core_pos : forall s i p, pos s i (queue w) = Some p -> 0 <= p }.

(** ** A step of one thread *)

(** Only the thread [i] of the side [s] has changed, with its position. *)
Record Changed (s : Side) (i : nat) (th' : Thread C) (p' : Z) (w w' : World) : Prop := {
  ch_thread : threads w' s !! i = Some th';
  ch_pos : pos s i (queue w') = Some p';
  ch_threads : forall s' j, s' <> s \/ j <> i -> threads w' s' !! j = threads w s' !! j;
  ch_poss : forall s' j, s' <> s \/ j <> i -> pos s' j (queue w') = pos s' j (queue w);
  ch_length : forall s', length (threads w' s') = length (threads w s');
  ch_clients : length (clients_ (queue w')) = length (clients_ (queue w));
  ch_num : forall s', num s' (queue w') = num s' (queue w);
  ch_size : q_size_ (queue w') = q_size_ (queue w) }.

(** What becomes of the positions: nothing, one is taken, or one is written or read. *)
Inductive Moved (s : Side) (i : nat) (w w' : World) : Prop :=
  | moved_quiet : (forall s', next s' (queue w') = next s' (queue w)) -> (forall s' t, done s' w' t <-> done s' w t) ->
      own w' s i = own w s i -> Moved s i w w'
  | moved_take : next s (queue w') = next s (queue w) + 1 -> (forall s', s' <> s -> next s' (queue w') = next s' (queue w)) ->
      (forall s' t, done s' w' t <-> done s' w t) -> own w s i = None -> own w' s i = Some (next s (queue w)) -> Moved s i w w'
  | moved_done t : (forall s', next s' (queue w') = next s' (queue w)) ->
      (forall s' x, done s' w' x <-> done s' w x \/ s' = s /\ x = t) -> own w s i = Some t -> own w' s i = None -> Moved s i w w'.

Lemma own_other s i th' p' w w' s' j : Changed s i th' p' w w' -> s' <> s \/ j <> i -> own w' s' j = own w s' j.
Proof. intros Hc Hne. unfold own. by rewrite (ch_threads _ _ _ _ _ _ Hc), (ch_poss _ _ _ _ _ _ Hc). Qed.

Lemma same_or_other (s s' : Side) (i j : nat) : (s' = s /\ j = i) \/ (s' <> s \/ j <> i).
Proof. destruct (decide (s' = s)), (decide (j = i)); tauto. Qed.

(** What the other threads rely on only grows. *)
Record Grow (w w' : World) : Prop := {
  grow_next : forall s, next s (queue w) <= next s (queue w');
  grow_done : forall s t, done s w t -> done s w' t;
  grow_own : forall s k t, own w s k = Some t -> own w' s k = Some t \/ done s w' t;
  grow_size : q_size_ (queue w') = q_size_ (queue w) }.

Lemma Moved_Grow s i th' p' w w' : Changed s i th' p' w w' -> Moved s i w w' -> Grow w w'.
Proof.
  intros Hc Hm. split; [| | |apply Hc].
  - intros s'. destruct Hm as [Hn|Hn Hn'|t Hn]; [by rewrite Hn| |by rewrite Hn].
    destruct (decide (s' = s)) as [->|Hne]; [lia|by rewrite (Hn' s' Hne)].
  - intros s' t Hd. destruct Hm as [_ Hd'|_ _ Hd'|x _ Hd']; rewrite Hd'; tauto.
  - intros s' k t Ho. destruct (same_or_other s s' i k) as [[-> ->]|Hne]; [|left; by rewrite (own_other _ _ _ _ _ _ _ _ Hc Hne)].
    destruct Hm as [_ _ Ho'|_ _ _ Ho'|x _ Hd' Ho' _]; [left; congruence|congruence|right]. rewrite Hd'. right. split; [done|congruence].
Qed.

Lemma allowed_mono s w w' t : Grow w w' -> allowed s w t -> allowed s w' t.
Proof.
  intros [_ Hd _ Hs]. unfold allowed. destruct s; [|apply (Hd Producer)]. intros Ha t' H1 H2. rewrite Hs in H2.
  apply (Hd Consumer). by apply Ha.
Qed.

Lemma thread_ok_mono w w' s th p : Grow w w' -> thread_ok w s th p -> thread_ok w' s th p.
Proof.
  intros Hg. pose proof Hg as [Hn Hd Ho Hs]. unfold thread_ok. pose proof (Hn s). pose proof (Hn (other s)).
  destruct (stage th); try done; try lia.
  - intros [Hp Hall]. split; [lia|]. intros t Ht. destruct (Hall t Ht) as [?|(k & Hk & Hk')]; [left; by apply Hd|].
    destruct (Ho _ _ _ Hk') as [?|?]; [right; by exists k|by left].
  - intros [Hp Hall]. split; [lia|]. intros t Ht. by apply Hd, Hall.
  - by apply allowed_mono.
Qed.

Lemma Core_step n n' s i th th' p' w w' : Core n w -> threads w s !! i = Some th -> Changed s i th' p' w w' -> Moved s i w w' ->
  thread_ok w' s th' p' -> (forall t, own w' s i = Some t -> p' <= t) ->
  (forall s', 0 <= last s' (queue w') <= next s' (queue w') /\ forall t, 0 <= t < last s' (queue w') -> done s' w' t) ->
  (forall s', next s' (queue w') <= n') -> 0 <= p' -> Core n' w'.
Proof.
  intros [H1 H2 H3 H4 H5 H6 H7 H8 H9 H10] Hth Hc Hm Hok Hp Hlast Hn Hp0. pose proof (Moved_Grow _ _ _ _ _ _ Hc Hm) as Hg.
  assert (Hrange : forall s' j t, own w' s' j = Some t -> 0 <= t < next s' (queue w') /\ ~ done s' w' t).
  { intros s' j t Ho. pose proof (grow_next _ _ Hg s') as Hgn.
    destruct (same_or_other s s' i j) as [[-> ->]|Hne].
    - destruct Hm as [Hnx Hd Ho'|Hnx _ Hd _ Ho'|x _ _ _ Ho']; [rewrite Ho' in Ho| |congruence].
      + destruct (H4 _ _ _ Ho) as (Hr & Hnd & _). split; [lia|]. by rewrite Hd.
      + rewrite Ho' in Ho. injection Ho as <-. specialize (H9 s). split; [lia|]. rewrite Hd. intros Hdone.
        specialize (H7 _ _ Hdone). lia.
    - rewrite (own_other _ _ _ _ _ _ _ _ Hc Hne) in Ho. destruct (H4 _ _ _ Ho) as (Hr & Hnd & _). split; [lia|].
      destruct Hm as [_ Hd _|_ _ Hd _ _|x _ Hd Hox _]; rewrite Hd; [done..|]. intros [?|[-> ->]]; [done|].
      specialize (H5 _ _ _ _ Ho Hox). destruct Hne; done. }
  split.
  - intros s'. by rewrite (ch_length _ _ _ _ _ _ Hc), (ch_num _ _ _ _ _ _ Hc).
  - by rewrite (ch_clients _ _ _ _ _ _ Hc), !(ch_num _ _ _ _ _ _ Hc).
  - intros s' j u Hu. destruct (same_or_other s s' i j) as [[-> ->]|Hne].
    + exists p'. split; [apply Hc|]. rewrite (ch_thread _ _ _ _ _ _ Hc) in Hu. by simplify_eq.
    + rewrite (ch_threads _ _ _ _ _ _ Hc) in Hu by done. rewrite (ch_poss _ _ _ _ _ _ Hc) by done.
      destruct (H3 _ _ _ Hu) as (q & Hq & Hqok). exists q. split; [done|]. by eapply thread_ok_mono.
  - intros s' j t Ho. destruct (Hrange _ _ _ Ho) as [Hr Hnd]. split; [done|]. split; [done|].
    destruct (same_or_other s s' i j) as [[-> ->]|Hne].
    + exists p'. split; [apply Hc|by apply Hp].
    + rewrite (own_other _ _ _ _ _ _ _ _ Hc Hne) in Ho. rewrite (ch_poss _ _ _ _ _ _ Hc) by done. by apply (H4 _ _ _ Ho).
  - assert (Hu : forall j t, j <> i -> own w s j = Some t -> own w' s i = Some t -> False).
    { intros j t Hne Hj Hi. destruct Hm as [_ _ Ho'|_ _ _ _ Ho'|x _ _ _ Ho']; [rewrite Ho' in Hi; by specialize (H5 _ _ _ _ Hj Hi)| |congruence].
      rewrite Ho' in Hi. simplify_eq. destruct (H4 _ _ _ Hj) as [Hr _]. lia. }
    intros s' j k t Hj Hk. destruct (same_or_other s s' i j) as [Hs1|Hne1], (same_or_other s s' i k) as [Hs2|Hne2].
    + destruct Hs1, Hs2. congruence.
    + destruct Hs1 as [-> ->]. rewrite (own_other _ _ _ _ _ _ _ _ Hc Hne2) in Hk. destruct (decide (k = i)); [done|]. exfalso. by apply (Hu k t).
    + destruct Hs2 as [-> ->]. rewrite (own_other _ _ _ _ _ _ _ _ Hc Hne1) in Hj. destruct (decide (j = i)); [done|]. exfalso. by apply (Hu j t).
    + rewrite (own_other _ _ _ _ _ _ _ _ Hc Hne1) in Hj. rewrite (own_other _ _ _ _ _ _ _ _ Hc Hne2) in Hk. by eapply H5.
  - intros s' t Ht.
    assert (Hcase : 0 <= t < next s' (queue w) \/ (s' = s /\ own w' s i = Some t)).
    { destruct Hm as [Hnx _ _|Hnx Hnx' _ _ Ho'|x Hnx _ _ _]; [left; by rewrite <- Hnx| |left; by rewrite <- Hnx].
      destruct (decide (s' = s)) as [->|Hne]; [|left; by rewrite <- (Hnx' s' Hne)].
      destruct (decide (t = next s (queue w))) as [->|]; [by right|left; lia]. }
    destruct Hcase as [Ht'|[-> Ho]]; [|right; by exists i].
    destruct (H6 s' t Ht') as [Hd|[j Hj]]; [left; by apply (grow_done _ _ Hg)|].
    destruct (grow_own _ _ Hg _ _ _ Hj) as [?|?]; [right; by exists j|by left].
  - intros s' t Hd. pose proof (grow_next _ _ Hg s') as Hgn.
    destruct Hm as [_ Hd' _|_ _ Hd' _ _|x _ Hd' Hox _]; apply Hd' in Hd; [specialize (H7 _ _ Hd); lia..|].
    destruct Hd as [Hd|[-> ->]]; [specialize (H7 _ _ Hd); lia|]. destruct (H4 _ _ _ Hox) as [Hr _]. lia.
  - done.
  - intros s'. split; [|apply Hn]. specialize (H9 s'). pose proof (grow_next _ _ Hg s'). lia.
  - intros s' j q Hq. destruct (same_or_other s s' i j) as [[-> ->]|Hne].
    + rewrite (ch_pos _ _ _ _ _ _ Hc) in Hq. by simplify_eq.
    + rewrite (ch_poss _ _ _ _ _ _ Hc) in Hq by done. by eapply H10.
Qed.

(** ** The ring *)

Record Store (w : World) : Prop := {
  store_ring : exists k, 0 <= k /\ q_size_ (queue w) = 2 ^ k /\ q_mask_ (queue w) = 2 ^ k - 1;
  store_data : length (data_ (queue w)) = Z.to_nat (q_size_ (queue w));
  store_read : forall t, done Consumer w t -> done Producer w t;
  store_allowed : forall t, done Producer w t -> allowed Producer w t;
  store_puts : Z.of_nat (length (puts w)) = next Producer (queue w);
  store_value : forall i th, threads w Producer !! i = Some th ->
    (stage th <> Idle -> is_Some (value th)) /\ forall t, own w Producer i = Some t -> value th = puts w !! Z.to_nat t;
  store_slots : forall t, done Producer w t -> ~ done Consumer w t ->
    data_ (queue w) !! slot t (queue w) = puts w !! Z.to_nat t;
  store_got : forall t v, (t, v) ∈ got w -> puts w !! Z.to_nat t = Some v;
  store_once : NoDup (written w) /\ NoDup (got w).*1 }.

Lemma slot_mod w t : Store w -> 0 <= t -> slot t (queue w) = Z.to_nat (t mod q_size_ (queue w)).
Proof.
  intros Hs Ht. destruct (store_ring _ Hs) as (k & Hk & -> & Hm). unfold slot. rewrite Hm. f_equal. by apply land_mod.
Qed.

Lemma ring_pos w : Store w -> 0 < q_size_ (queue w).
Proof. intros Hs. destruct (store_ring _ Hs) as (k & Hk & -> & _). by apply Z.pow_pos_nonneg. Qed.

Lemma slot_inside w t : Store w -> 0 <= t -> exists v, data_ (queue w) !! slot t (queue w) = Some v.
Proof.
  intros Hs Ht. apply lookup_lt_is_Some_2. rewrite (slot_mod w t Hs Ht), (store_data _ Hs). pose proof (ring_pos w Hs).
  pose proof (Z.mod_pos_bound t (q_size_ (queue w))). lia.
Qed.

(** Different positions in one slot are a turn of the ring apart. *)
Lemma same_slot w t t' : Store w -> 0 <= t -> 0 <= t' -> slot t (queue w) = slot t' (queue w) ->
  t = t' \/ t + q_size_ (queue w) <= t' \/ t' + q_size_ (queue w) <= t.
Proof.
  intros Hs Ht Ht' He. rewrite !(slot_mod w) in He by done. pose proof (ring_pos w Hs) as Hq.
  pose proof (Z.mod_pos_bound t (q_size_ (queue w))). pose proof (Z.mod_pos_bound t' (q_size_ (queue w))).
  assert (Hm : t mod q_size_ (queue w) = t' mod q_size_ (queue w)) by lia.
  pose proof (Z.div_mod t (q_size_ (queue w))). pose proof (Z.div_mod t' (q_size_ (queue w))).
  destruct (Z.lt_trichotomy (t / q_size_ (queue w)) (t' / q_size_ (queue w))) as [Hl|[Hl|Hl]]; [|left|]; nia.
Qed.

Definition same_ring (w w' : World) : Prop :=
  q_size_ (queue w') = q_size_ (queue w) /\ q_mask_ (queue w') = q_mask_ (queue w) /\ data_ (queue w') = data_ (queue w) /\
  written w' = written w /\ got w' = got w.

(** Nothing is written or read; a position may be taken. *)
Lemma Store_same w w' s i th' p' l : Store w -> Changed s i th' p' w w' -> same_ring w w' -> puts w' = puts w ++ l ->
  Z.of_nat (length (puts w')) = next Producer (queue w') ->
  (forall s j t, own w s j = Some t -> 0 <= t < next s (queue w)) -> (forall s t, done s w t -> 0 <= t < next s (queue w)) ->
  (s = Producer -> (stage th' <> Idle -> is_Some (value th')) /\
     forall t, own w' Producer i = Some t -> value th' = puts w' !! Z.to_nat t) -> Store w'.
Proof.
  intros [H1 H2 H3 H4 H5 H6 H7 H8 H9] Hc (Hs & Hm & Hd & Hw & Hg) Hp Hlen Hown Hdone Hval.
  assert (Hdn : forall s t, done s w' t <-> done s w t) by (intros [] t; unfold done; by rewrite ?Hw, ?Hg).
  assert (Hlook : forall t, 0 <= t < next Producer (queue w) -> puts w' !! Z.to_nat t = puts w !! Z.to_nat t).
  { intros t Ht. rewrite Hp. apply lookup_app_l. lia. }
  split.
  - by rewrite Hs, Hm.
  - by rewrite Hd, Hs.
  - intros t. rewrite !Hdn. apply H3.
  - intros t Ht. rewrite Hdn in Ht. specialize (H4 t Ht). unfold allowed in *. intros t'. rewrite Hs, Hdn. apply H4.
  - done.
  - intros j th Hj. destruct (same_or_other s Producer i j) as [[<- ->]|Hne].
    + rewrite (ch_thread _ _ _ _ _ _ Hc) in Hj. simplify_eq. by apply Hval.
    + rewrite (ch_threads _ _ _ _ _ _ Hc) in Hj by done. destruct (H6 _ _ Hj) as [Ha Hb]. split; [done|].
      intros t Ho. rewrite (own_other _ _ _ _ _ _ _ _ Hc Hne) in Ho. rewrite Hlook by (by eapply Hown). by apply Hb.
  - intros t. rewrite !Hdn, Hd. intros Ht Hn. unfold slot. rewrite Hm. fold (slot t (queue w)). rewrite Hlook by (by apply Hdone). by apply H7.
  - intros t v. rewrite Hg. intros Hin. rewrite Hlook; [by eapply H8|]. apply (Hdone Producer), H3, list_elem_of_fmap. by exists (t, v).
  - by rewrite Hw, Hg.
Qed.

(** A producer writes its position. *)
Lemma Store_write w w' i th' p' t v : Store w -> Changed Producer i th' p' w w' ->
  q_size_ (queue w') = q_size_ (queue w) -> q_mask_ (queue w') = q_mask_ (queue w) ->
  data_ (queue w') = <[slot t (queue w) := v]> (data_ (queue w)) ->
  written w' = written w ++ [t] -> got w' = got w -> puts w' = puts w -> next Producer (queue w') = next Producer (queue w) ->
  puts w !! Z.to_nat t = Some v -> 0 <= t -> allowed Producer w t -> ~ done Producer w t ->
  (forall x, done Producer w x -> 0 <= x) -> is_Some (value th') -> own w' Producer i = None -> Store w'.
Proof.
  intros Hst Hc Hs Hm Hd Hw Hg Hp Hn Hv Ht Ha Hnd Hpos Hval Hown. pose proof Hst as [H1 H2 H3 H4 H5 H6 H7 H8 H9].
  assert (HdC : forall x, done Consumer w' x <-> done Consumer w x) by (intros x; unfold done; by rewrite Hg).
  assert (HdP : forall x, done Producer w' x <-> done Producer w x \/ x = t).
  { intros x. unfold done. rewrite Hw, elem_of_app, list_elem_of_singleton. done. }
  split.
  - by rewrite Hs, Hm.
  - by rewrite Hd, Hs, length_insert.
  - intros x Hx. rewrite HdC in Hx. rewrite HdP. left. by apply H3.
  - intros x Hx t'. rewrite Hs, HdC. apply HdP in Hx as [Hx| ->]; [by apply H4|apply Ha].
  - by rewrite Hp, Hn.
  - intros j th Hj. destruct (same_or_other Producer Producer i j) as [[_ ->]|Hne].
    + rewrite (ch_thread _ _ _ _ _ _ Hc) in Hj. simplify_eq. split; [done|]. by rewrite Hown.
    + rewrite (ch_threads _ _ _ _ _ _ Hc) in Hj by done. rewrite (own_other _ _ _ _ _ _ _ _ Hc Hne), Hp. by apply H6.
  - intros x Hx HnC. rewrite HdC in HnC. rewrite Hd, Hp. unfold slot at 1. rewrite Hm. fold (slot x (queue w)).
    destruct (decide (x = t)) as [->|Hne].
    + rewrite list_lookup_insert_eq; [done|]. destruct (slot_inside w t Hst Ht) as [u Hu]. by eapply lookup_lt_Some.
    + apply HdP in Hx as [Hx|]; [|done]. destruct (decide (slot x (queue w) = slot t (queue w))) as [He|He].
      * exfalso. destruct (same_slot w x t Hst) as [?|[?|?]]; [by apply Hpos|done..| |].
        -- apply HnC, (Ha x); [by apply Hpos|done].
        -- apply Hnd, H3. by apply (H4 x Hx t).
      * rewrite list_lookup_insert_ne by done. by apply H7.
  - intros x u. rewrite Hg, Hp. apply H8.
  - rewrite Hw, Hg. split; [|apply H9]. apply list.NoDup_app. split; [apply H9|]. split; [|apply NoDup_singleton].
    intros x Hx Hin. apply list_elem_of_singleton in Hin as ->. done.
Qed.

(** A consumer reads its position. *)
Lemma Store_read_step w w' i th' p' t v : Store w -> Changed Consumer i th' p' w w' ->
  q_size_ (queue w') = q_size_ (queue w) -> q_mask_ (queue w') = q_mask_ (queue w) -> data_ (queue w') = data_ (queue w) ->
  written w' = written w -> got w' = got w ++ [(t, v)] -> puts w' = puts w -> next Producer (queue w') = next Producer (queue w) ->
  puts w !! Z.to_nat t = Some v -> done Producer w t -> ~ done Consumer w t -> Store w'.
Proof.
  intros Hst Hc Hs Hm Hd Hw Hg Hp Hn Hv HP HnC. pose proof Hst as [H1 H2 H3 H4 H5 H6 H7 H8 H9].
  assert (HdC : forall x, done Consumer w' x <-> done Consumer w x \/ x = t).
  { intros x. unfold done. rewrite Hg, fmap_app, elem_of_app. cbn [fmap list_fmap fst]. by rewrite list_elem_of_singleton. }
  assert (HdP : forall x, done Producer w' x <-> done Producer w x) by (intros x; unfold done; by rewrite Hw).
  split.
  - by rewrite Hs, Hm.
  - by rewrite Hd, Hs.
  - intros x Hx. rewrite HdP. apply HdC in Hx as [Hx| ->]; [by apply H3|done].
  - intros x Hx t' Ht1 Ht2. rewrite Hs in Ht2. rewrite HdC. left. apply HdP in Hx. by apply (H4 x Hx).
  - by rewrite Hp, Hn.
  - intros j th Hj. assert (Hne : Producer <> Consumer \/ j <> i) by by left.
    rewrite (ch_threads _ _ _ _ _ _ Hc) in Hj by done. rewrite (own_other _ _ _ _ _ _ _ _ Hc Hne), Hp. by apply H6.
  - intros x Hx Hn'. rewrite HdC in Hn'. rewrite HdP in Hx. rewrite Hd, Hp. unfold slot. rewrite Hm. fold (slot x (queue w)). apply H7; tauto.
  - intros x u. rewrite Hg, Hp. intros Hin. apply elem_of_app in Hin as [Hin|Hin]; [by eapply H8|].
    apply list_elem_of_singleton in Hin as [= -> ->]. done.
  - rewrite Hw, Hg. split; [apply H9|]. rewrite fmap_app. cbn [fmap list_fmap fst]. apply list.NoDup_app. split; [apply H9|].
    split; [|apply NoDup_singleton]. intros x Hx Hin. apply list_elem_of_singleton in Hin as ->. done.
Qed.

(** ** Steps *)

(** The queue with another position of one client. *)
Record Repos (s : Side) (i : nat) (p' : Z) (q q' : Queue C) : Prop := {
  re_pos : pos s i q' = Some p';
  re_others : forall s' j, s' <> s \/ j <> i -> pos s' j q' = pos s' j q;
  re_clients : length (clients_ q') = length (clients_ q);
  re_num : forall s, num s q' = num s q;
  re_size : q_size_ q' = q_size_ q;
  re_mask : q_mask_ q' = q_mask_ q;
  re_data : data_ q' = data_ q;
  re_next : forall s, next s q' = next s q;
  re_last : forall s, last s q' = last s q }.

Lemma Repos_same s i p q : pos s i q = Some p -> Repos s i p q q.
Proof. by split. Qed.

Lemma set_pos_spec s i x p q : pos s i q = Some p -> exists q', set_pos s i x q = Some q' /\ Repos s i x q q'.
Proof.
  unfold pos, set_pos. destruct (clients_ q !! i) as [c|] eqn:Hc; [|done]. intros _. cbn [mbind option_bind].
  eexists. split; [done|]. pose proof (lookup_lt_Some _ _ _ Hc) as Hlt. split; try by destruct s.
  - unfold pos. cbn [set_clients clients_]. rewrite list_lookup_insert_eq by done. by destruct s.
  - intros s' j Hne. unfold pos. cbn [set_clients clients_]. destruct (decide (j = i)) as [->|Hji].
    + rewrite list_lookup_insert_eq, Hc by done. cbn [mbind option_bind]. destruct s, s'; try done; by destruct Hne.
    + by rewrite list_lookup_insert_ne by done.
  - cbn [set_clients clients_]. by rewrite length_insert.
Qed.

Lemma set_thread_same s i th ts : (i < length (ts s))%nat -> set_thread s i th ts s !! i = Some th.
Proof. intros Hi. unfold set_thread. rewrite decide_True by done. by apply list_lookup_insert_eq. Qed.

Lemma set_thread_other s i th ts s' j : s' <> s \/ j <> i -> set_thread s i th ts s' !! j = ts s' !! j.
Proof.
  intros Hne. unfold set_thread. destruct (decide (s' = s)) as [->|]; [|done]. apply list_lookup_insert_ne.
  destruct Hne; congruence.
Qed.

Lemma set_thread_length s i th ts s' : length (set_thread s i th ts s') = length (ts s').
Proof. unfold set_thread. destruct (decide (s' = s)) as [->|]; [by rewrite length_insert|done]. Qed.

Lemma Repos_Changed s i th th' p' w q' ps ws gs : threads w s !! i = Some th -> Repos s i p' (queue w) q' ->
  Changed s i th' p' w (mkWorld q' (set_thread s i th' (threads w)) ps ws gs).
Proof.
  intros Hth [H1 H2 H3 H4 H5 H6 H7 H8 H9]. apply lookup_lt_Some in Hth. split; cbn [queue threads]; try done.
  - by apply set_thread_same.
  - intros s' j. apply set_thread_other.
  - intros s'. apply set_thread_length.
Qed.

Lemma own_at w s i th : threads w s !! i = Some th -> own w s i = owned th (pos s i (queue w)).
Proof. intros Hth. unfold own. by rewrite Hth. Qed.

Lemma own_new w s i th th' q' ps ws gs : threads w s !! i = Some th ->
  own (mkWorld q' (set_thread s i th' (threads w)) ps ws gs) s i = owned th' (pos s i q').
Proof. intros Hth. unfold own. cbn [threads queue]. by rewrite set_thread_same by (by eapply lookup_lt_Some). Qed.

(** A step that only moves the thread on. *)
Lemma quiet_step n w s i th th' p p' q' : Core n w -> Store w -> threads w s !! i = Some th -> pos s i (queue w) = Some p ->
  Repos s i p' (queue w) q' -> owned th' (Some p') = owned th (Some p) -> thread_ok w s th' p' ->
  (forall t, owned th' (Some p') = Some t -> p' <= t) ->
  (s = Producer -> stage th' <> Idle -> is_Some (value th') /\ (stage th <> Idle -> value th' = value th)) ->
  0 <= p' -> let w' := mkWorld q' (set_thread s i th' (threads w)) (puts w) (written w) (got w) in Core n w' /\ Store w'.
Proof.
  intros Hco Hst Hth Hp Hre Hown Hok Hle Hval Hp0 w'.
  assert (Hc : Changed s i th' p' w w') by by eapply Repos_Changed.
  assert (Ho : own w' s i = own w s i).
  { unfold w'. rewrite (own_new _ _ _ th), (own_at w s i th), Hp, (re_pos _ _ _ _ _ Hre) by done. done. }
  assert (Hm : Moved s i w w').
  { apply moved_quiet; [apply Hre|by intros [] t|done]. }
  assert (Hg : Grow w w') by by eapply Moved_Grow. split.
  - apply (Core_step n n s i th th' p' w); try done.
    + by apply (thread_ok_mono w).
    + intros t Ht. apply Hle. rewrite Ho, (own_at w s i th), Hp in Ht by done. by rewrite Hown.
    + intros s'. unfold w'. cbn [queue]. rewrite (re_last _ _ _ _ _ Hre), (re_next _ _ _ _ _ Hre).
      destruct (core_last _ _ Hco s') as [H1 H2]. split; [done|]. intros t Ht. apply (grow_done _ _ Hg). by apply H2.
    + intros s'. unfold w'. cbn [queue]. rewrite (re_next _ _ _ _ _ Hre). apply (core_bound _ _ Hco).
  - apply (Store_same w w' s i th' p' []); try done.
    + split_and!; try done; apply Hre.
    + by rewrite app_nil_r.
    + unfold w'. cbn [puts queue]. rewrite (re_next _ _ _ _ _ Hre). apply (store_puts _ Hst).
    + intros s0 j t Ht. by apply (core_own _ _ Hco s0 j t).
    + intros s0 t. apply (core_done _ _ Hco).
    + intros ->. split; [intros Hne; by apply Hval|]. intros t Ht. rewrite Ho in Ht.
      destruct (store_value _ Hst _ _ Hth) as [_ Hv]. specialize (Hv t Ht). cbn [w' puts]. rewrite <- Hv.
      assert (Hst1 : stage th <> Idle).
      { intros Hi. rewrite (own_at w _ i th) in Ht by done. unfold owned in Ht. by rewrite Hi in Ht. }
      assert (Hst2 : stage th' <> Idle).
      { intros Hi. rewrite (own_at w _ i th), Hp, <- Hown in Ht by done. unfold owned in Ht. by rewrite Hi in Ht. }
      by apply Hval.
Qed.

(** ** Every stage *)

Definition Inv (n : Z) (w : World) : Prop := Core n w /\ Store w /\ n + q_size_ (queue w) < 2 ^ 64 - 1.

Lemma limit_small s w n : Inv n w -> limit s (queue w) = match s with Producer => last_tail_ (queue w) + q_size_ (queue w) | Consumer => last_head_ (queue w) end.
Proof.
  intros (Hco & Hst & Hn). destruct s; [|done]. apply wrapU_small. pose proof (core_last _ _ Hco Consumer) as [Hl _].
  pose proof (core_bound _ _ Hco Consumer). pose proof (ring_pos w Hst). simpl in *. lia.
Qed.

(** Below its limit a position may be written or read. *)
Lemma limit_allowed s w n p : Inv n w -> 0 <= p < limit s (queue w) -> allowed s w p.
Proof.
  intros Hi Hp. rewrite (limit_small s w n Hi) in Hp. destruct Hi as (Hco & Hst & Hn). destruct s; simpl.
  - intros t' H1 H2. apply (core_last _ _ Hco Consumer). simpl. lia.
  - apply (core_last _ _ Hco Producer). simpl. lia.
Qed.

Lemma pos_of_client n w s i : Core n w -> (i < num s (queue w))%nat -> exists p, pos s i (queue w) = Some p.
Proof.
  intros Hco Hi. unfold pos. destruct (lookup_lt_is_Some_2 (clients_ (queue w)) i) as [c Hc].
  - rewrite (core_clients _ _ Hco). destruct s; lia.
  - rewrite Hc. by eexists.
Qed.

Lemma own_lt n w s i t : Core n w -> own w s i = Some t -> (i < num s (queue w))%nat.
Proof.
  intros Hco Ho. unfold own in Ho. destruct (threads w s !! i) as [th|] eqn:Hth; [|done].
  rewrite <- (core_threads _ _ Hco s). by eapply lookup_lt_Some.
Qed.

Lemma scan_next n w s j pos_min tmp : Core n w -> pos (other s) j (queue w) = Some tmp -> 0 <= tmp ->
  0 <= pos_min <= next (other s) (queue w) ->
  (forall t, 0 <= t < pos_min -> done (other s) w t \/ exists k, (j <= k)%nat /\ own w (other s) k = Some t) ->
  let m := if tmp <? pos_min then tmp else pos_min in
  0 <= m <= next (other s) (queue w) /\
  forall t, 0 <= t < m -> done (other s) w t \/ exists k, (S j <= k)%nat /\ own w (other s) k = Some t.
Proof.
  intros Hco Hpos Htmp Hpm Hall m. assert (Hm : 0 <= m /\ m <= tmp /\ m <= pos_min) by (unfold m; destruct (Z.ltb_spec tmp pos_min); lia).
  split; [lia|]. intros t Ht. destruct (Hall t) as [?|(k & Hk & Ho)]; [lia|by left|]. right. exists k. split; [|done].
  destruct (decide (k = j)) as [->|]; [|lia]. destruct (core_own _ _ Hco _ _ _ Ho) as (_ & _ & p & Hp & Hle).
  rewrite Hpos in Hp. injection Hp as <-. lia.
Qed.

Lemma scan_end n w s j pos_min : Core n w -> (num (other s) (queue w) <= j)%nat ->
  (forall t, 0 <= t < pos_min -> done (other s) w t \/ exists k, (j <= k)%nat /\ own w (other s) k = Some t) ->
  forall t, 0 <= t < pos_min -> done (other s) w t.
Proof.
  intros Hco Hj Hall t Ht. destruct (Hall t Ht) as [?|(k & Hk & Ho)]; [done|]. pose proof (own_lt _ _ _ _ _ Hco Ho). lia.
Qed.

(** The steps that only move the thread, and those that also change its position. *)
Lemma quiet_stage n w s i th p : Inv n w -> threads w s !! i = Some th -> pos s i (queue w) = Some p -> thread_ok w s th p ->
  match stage th with FetchAdd | SetLast _ | Access => False | _ => True end ->
  exists th' q', step s i th (queue w) = Some (th', q') /\
  let w' := mkWorld q' (set_thread s i th' (threads w)) (puts w) (written w) (got w) in Core n w' /\ Store w'.
Proof.
  intros Hi Hth Hp Hok Hstage. pose proof Hi as (Hco & Hst & Hn). pose proof (core_pos _ _ Hco _ _ _ Hp) as Hp0.
  assert (Hval : forall st, s = Producer -> stage th <> Idle -> is_Some (value (mkThread st (value th))) /\ (stage th <> Idle -> value (mkThread st (value th)) = value th)).
  { intros st -> Hne. split; [|done]. by apply (store_value _ Hst _ _ Hth). }
  assert (Hown : forall t, own w s i = Some t -> p <= t).
  { intros t Ht. destruct (core_own _ _ Hco _ _ _ Ht) as (_ & _ & p0 & Hp' & Hle). by simplify_eq. }
  rewrite (own_at w s i th Hth), Hp in Hown.
  assert (Hmove : forall st, stage th <> Idle -> owned (mkThread st (value th)) (Some p) = owned th (Some p) ->
    thread_ok w s (mkThread st (value th)) p ->
    let w' := mkWorld (queue w) (set_thread s i (mkThread st (value th)) (threads w)) (puts w) (written w) (got w) in Core n w' /\ Store w').
  { intros st Hne Ho Hok'. apply (quiet_step n w s i th _ p p); try done; [by rewrite Ho|].
    intros Hs _. by apply Hval. }
  assert (Hgoto : forall st x, stage th <> Idle -> owned (mkThread st (value th)) (Some x) = owned th (Some p) ->
    thread_ok w s (mkThread st (value th)) x -> 0 <= x -> (forall t, owned th (Some p) = Some t -> x <= t) ->
    exists q', set_pos s i x (queue w) = Some q' /\
    let w' := mkWorld q' (set_thread s i (mkThread st (value th)) (threads w)) (puts w) (written w) (got w) in Core n w' /\ Store w').
  { intros st x Hne Ho Hok' Hx Hle. destruct (set_pos_spec s i x p (queue w) Hp) as (q' & Hq & Hre). exists q'. split; [done|].
    apply (quiet_step n w s i th _ p x); try done; [by rewrite Ho|]. intros Hs _. by apply Hval. }
  assert (Hpos : forall t, owned th (Some p) = Some t -> 0 <= t).
  { intros t Ht. rewrite <- Hp, <- (own_at w s i th Hth) in Ht. apply (core_own _ _ Hco _ _ _ Ht). }
  unfold step. destruct th as [st v]. cbn [stage value] in *. unfold thread_ok in Hok. cbn [stage] in Hok.
  destruct st; try done.
  - eexists _, _. split; [done|]. apply (quiet_step n w s i (mkThread Idle v) _ p p); try done.
  - eexists _, _. split; [done|]. apply Hmove; try done. split; [done|]. split; [apply (core_bound _ _ Hco)|lia].
  - destruct (Hgoto FetchAdd p0) as (q' & -> & Hw); try done; [apply Hok|apply Hok|]. by eexists _, _.
  - destruct (Hgoto Test t) as (q' & -> & Hw); try done; [by apply Hpos|intros ? [= <-]; lia|]. by eexists _, _.
  - rewrite Hp. cbn [mbind option_bind]. eexists _, _. split; [done|].
    destruct (Z.leb_spec (limit s (queue w)) p); apply Hmove; try done. apply (limit_allowed s w n); [done|lia].
  - eexists _, _. split; [done|]. apply Hmove; try done. split; [split; [apply (core_bound _ _ Hco)|lia]|].
    intros t Ht. destruct (core_cover _ _ Hco (other s) t Ht) as [?|[k Hk]]; [by left|right]. exists k. split; [lia|done].
  - destruct Hok as [Hpm Hall]. destruct (Nat.ltb_spec i0 (num (other s) (queue w))) as [Hlt|Hge].
    + destruct (pos_of_client n w (other s) i0 Hco Hlt) as [tmp Htmp]. rewrite Htmp. cbn [mbind option_bind].
      eexists _, _. split; [done|]. apply Hmove; try done. apply (scan_next n w s i0); try done. by apply (core_pos _ _ Hco _ _ _ Htmp).
    + eexists _, _. split; [done|]. apply Hmove; try done. split; [done|]. by apply (scan_end n w s i0).
  - rewrite Hp. cbn [mbind option_bind]. eexists _, _. split; [done|].
    destruct (Z.ltb_spec p (limit s (queue w))); apply Hmove; try done. apply (limit_allowed s w n); [done|lia].
  - destruct (Hgoto Idle ULONG_MAX) as (q' & -> & Hw); try done. by eexists _, _.
Qed.

(** The world after a step of a thread. *)
Definition stepped (s : Side) (i : nat) (th th' : Thread C) (q' : Queue C) (w : World) : World :=
  let '(ps, ws, gs) := record s i th th' w in mkWorld q' (set_thread s i th' (threads w)) ps ws gs.

Lemma take_stage n w s i v p : Inv n w -> threads w s !! i = Some (mkThread FetchAdd v) -> pos s i (queue w) = Some p ->
  0 <= p <= next s (queue w) ->
  let q' := set_next s (size_t (next s (queue w) + 1)) (queue w) in
  let w' := stepped s i (mkThread FetchAdd v) (mkThread (Claim (next s (queue w))) v) q' w in Core (n + 1) w' /\ Store w'.
Proof.
  intros (Hco & Hst & Hn) Hth Hp Hrange q' w'. pose proof (ring_pos w Hst) as Hq.
  assert (Hns : forall s', next s' q' = if decide (s' = s) then next s (queue w) + 1 else next s' (queue w)).
  { pose proof (core_bound _ _ Hco s) as Hb. unfold q'. rewrite wrapU_small by lia. by intros []; destruct s. }
  assert (Hc : Changed s i (mkThread (Claim (next s (queue w))) v) p w w').
  { apply (lookup_lt_Some) in Hth as Hlt. unfold w', stepped, record. cbn [stage].
    split; destruct s; cbn [queue threads q' set_next]; try done;
      try (by apply set_thread_same); try (intros s' j; by apply set_thread_other); (intros s'; by apply set_thread_length). }
  assert (Hqueue : queue w' = q') by (unfold w', stepped, record; cbn [stage]; by destruct s).
  assert (Hwg : written w' = written w /\ got w' = got w) by (unfold w', stepped, record; cbn [stage]; by destruct s).
  destruct Hwg as [Hww Hgg].
  assert (Hdn : forall s t, done s w' t <-> done s w t) by (intros [] t; unfold done; by rewrite ?Hww, ?Hgg).
  assert (Hown : own w' s i = Some (next s (queue w))).
  { unfold own. by rewrite (ch_thread _ _ _ _ _ _ Hc). }
  assert (Hm : Moved s i w w').
  { apply moved_take; [rewrite Hqueue, Hns; by rewrite decide_True| |done| |done].
    - intros s' Hne. rewrite Hqueue, Hns. by rewrite decide_False.
    - by rewrite (own_at w s i _ Hth). }
  split.
  - apply (Core_step n _ s i (mkThread FetchAdd v) (mkThread (Claim (next s (queue w))) v) p w); try done; rewrite ?Hqueue.
    + intros t Ht. rewrite Hown in Ht. injection Ht as <-. lia.
    + intros s'. assert (Hl : last s' q' = last s' (queue w)) by (unfold q'; by destruct s, s'). rewrite Hl, Hns.
      destruct (core_last _ _ Hco s') as [H1 H2]. split; [destruct (decide (s' = s)) as [->|]; lia|]. intros t Ht. by apply Hdn, H2.
    + intros s'. rewrite Hns. pose proof (core_bound _ _ Hco s'). pose proof (core_bound _ _ Hco s).
      destruct (decide (s' = s)); lia.
    + lia.
  - apply (Store_same w w' s i (mkThread (Claim (next s (queue w))) v) p (match s with Producer => option_list v | Consumer => [] end)); try done.
    + unfold same_ring; rewrite Hqueue. unfold q'. by destruct s.
    + unfold w', stepped, record. cbn [stage value]. destruct s; [done|]. by rewrite app_nil_r.
    + rewrite Hqueue, Hns. pose proof (store_puts _ Hst) as Hl. unfold w', stepped, record. cbn [stage value puts].
      destruct s; cbn [puts]; [|by rewrite decide_False].
      destruct (store_value _ Hst _ _ Hth) as [Hsome _]. cbn [stage value] in Hsome. destruct (Hsome ltac:(done)) as [x ->].
      rewrite decide_True, length_app by done. simpl in *. lia.
    + intros s0 j t Ht. by apply (core_own _ _ Hco s0 j t).
    + intros s0 t. apply (core_done _ _ Hco).
    + intros ->. destruct (store_value _ Hst _ _ Hth) as [Hsome _]. cbn [stage value] in *. destruct (Hsome ltac:(done)) as [x ->].
      split; [by eexists|]. intros t Ht. assert (t = next Producer (queue w)) as -> by congruence. unfold w', stepped, record. cbn [stage value puts].
      rewrite <- (store_puts _ Hst), Nat2Z.id. symmetry. apply list_lookup_middle. done.
Qed.

Lemma set_last_stage n w s i v p pos_min : Inv n w -> threads w s !! i = Some (mkThread (SetLast pos_min) v) ->
  pos s i (queue w) = Some p -> thread_ok w s (mkThread (SetLast pos_min) v) p ->
  let q' := set_last (other s) pos_min (queue w) in
  let w' := stepped s i (mkThread (SetLast pos_min) v) (mkThread TestAgain v) q' w in Core n w' /\ Store w'.
Proof.
  intros (Hco & Hst & Hn) Hth Hp [Hpm Hall] q' w'.
  assert (Hw : w' = mkWorld q' (set_thread s i (mkThread TestAgain v) (threads w)) (puts w) (written w) (got w)).
  { unfold w', stepped, record. by destruct s. }
  assert (Hnx : forall s', next s' q' = next s' (queue w)) by (intros s'; unfold q'; by destruct s, s').
  assert (Hc : Changed s i (mkThread TestAgain v) p w w').
  { apply (lookup_lt_Some) in Hth as Hlt. rewrite Hw. split; destruct s; cbn [queue threads q' set_last other]; try done;
      try (by apply set_thread_same); try (intros s' j; by apply set_thread_other); (intros s'; by apply set_thread_length). }
  assert (Hown : own w' s i = own w s i).
  { unfold own at 1. rewrite (ch_thread _ _ _ _ _ _ Hc), (ch_pos _ _ _ _ _ _ Hc). cbn [mbind option_bind].
    by rewrite (own_at w s i _ Hth), Hp. }
  assert (Hdn : forall s t, done s w' t <-> done s w t) by (rewrite Hw; by intros []).
  assert (Hm : Moved s i w w').
  { apply moved_quiet; [by rewrite Hw|done|done]. }
  pose proof (core_pos _ _ Hco _ _ _ Hp) as Hp0. split.
  - apply (Core_step n n s i (mkThread (SetLast pos_min) v) (mkThread TestAgain v) p w); try done.
    + intros t Ht. rewrite Hown in Ht. destruct (core_own _ _ Hco _ _ _ Ht) as (_ & _ & p0 & Hp' & Hle). by simplify_eq.
    + intros s'. rewrite Hw. cbn [queue]. rewrite Hnx. destruct (core_last _ _ Hco s') as [H1 H2].
      assert (Hl : last s' q' = if decide (s' = other s) then pos_min else last s' (queue w)) by (unfold q'; by destruct s, s').
      rewrite Hl. rewrite <- Hw. destruct (decide (s' = other s)) as [->|].
      * split; [done|]. intros t Ht. apply Hdn. by apply Hall.
      * split; [done|]. intros t Ht. apply Hdn. by apply H2.
    + intros s'. rewrite Hw. cbn [queue]. rewrite Hnx. apply (core_bound _ _ Hco).
  - apply (Store_same w w' s i (mkThread TestAgain v) p []); try done.
    + rewrite Hw. unfold same_ring, q'. by destruct s.
    + rewrite Hw. by rewrite app_nil_r.
    + rewrite Hw. cbn [puts queue]. rewrite Hnx. apply (store_puts _ Hst).
    + intros s0 j t Ht. by apply (core_own _ _ Hco s0 j t).
    + intros s0 t. apply (core_done _ _ Hco).
    + intros ->. destruct (store_value _ Hst _ _ Hth) as [Hsome Hv]. split; [intros _; by apply Hsome|].
      intros t Ht. rewrite Hown in Ht. rewrite Hw. by apply Hv.
Qed.

Lemma access_stage n w s i v p : Inv n w -> threads w s !! i = Some (mkThread Access v) -> pos s i (queue w) = Some p ->
  allowed s w p -> exists v' q', access s p v (queue w) = Some (v', q') /\
  (s = Consumer -> v' = puts w !! Z.to_nat p) /\
  let w' := stepped s i (mkThread Access v) (mkThread Finish v') q' w in Core n w' /\ Store w'.
Proof.
  intros (Hco & Hst & Hn) Hth Hp Hal.
  assert (Ho : own w s i = Some p) by (by rewrite (own_at w s i _ Hth), Hp).
  destruct (core_own _ _ Hco _ _ _ Ho) as (Hr & Hnd & _).
  destruct (slot_inside w p Hst) as [u Hu]; [lia|].
  assert (Hval : match s with Producer => v = puts w !! Z.to_nat p /\ is_Some v | Consumer => Some u = puts w !! Z.to_nat p end).
  { destruct s.
    - destruct (store_value _ Hst _ _ Hth) as [Hsome Hv]. split; [by apply Hv|by apply Hsome].
    - rewrite <- Hu. by apply (store_slots _ Hst). }
  set (v' := match s with Producer => v | Consumer => Some u end).
  set (q' := match s, v with Producer, Some x => set_data (<[slot p (queue w) := x]> (data_ (queue w))) (queue w) | _, _ => queue w end).
  exists v', q'. split; [|split].
  { unfold access, v', q'. destruct s; rewrite Hu; [|done]. destruct Hval as [_ [x ->]]. done. }
  { intros ->. apply Hval. }
  intros w'.
  assert (Hthr : threads w' = set_thread s i (mkThread Finish v') (threads w) /\ queue w' = q' /\ puts w' = puts w /\
    written w' = written w ++ (if decide (s = Producer) then [p] else []) /\
    got w' = got w ++ (if decide (s = Consumer) then [(p, u)] else [])).
  { unfold w', stepped, record. cbn [stage value]. destruct s; rewrite Hp; cbn; by rewrite ?app_nil_r. }
  destruct Hthr as (Ht1 & Hq & Hpu & Hwr & Hgo).
  assert (Hsame : (forall s', next s' q' = next s' (queue w)) /\ (forall s', last s' q' = last s' (queue w)) /\
    (forall s' j, pos s' j q' = pos s' j (queue w)) /\ q_size_ q' = q_size_ (queue w) /\ q_mask_ q' = q_mask_ (queue w) /\
    clients_ q' = clients_ (queue w) /\ forall s', num s' q' = num s' (queue w)).
  { unfold q'. destruct s; [|done]. destruct v; [|done]. split_and!; done || by intros []. }
  destruct Hsame as (Hnx & Hla & Hpo & Hsz & Hma & Hcl & Hnu).
  assert (Hc : Changed s i (mkThread Finish v') p w w').
  { apply (lookup_lt_Some) in Hth as Hlt. split; rewrite ?Ht1, ?Hq; try done.
    - by apply set_thread_same.
    - by rewrite Hpo.
    - intros s' j. apply set_thread_other.
    - intros s'. apply set_thread_length.
    - by rewrite Hcl. }
  assert (Hown : own w' s i = None).
  { unfold own. by rewrite (ch_thread _ _ _ _ _ _ Hc). }
  assert (Hm : Moved s i w w').
  { apply (moved_done s i w w' p); [by rewrite Hq| |done|done]. intros s' x. unfold done. rewrite Hwr, Hgo, fmap_app.
    clear. destruct s, s'; cbn; rewrite ?app_nil_r, ?elem_of_app, ?list_elem_of_singleton.
    - rewrite decide_True by done. rewrite list_elem_of_singleton. tauto.
    - split; [tauto|]. by intros [?|[? _]].
    - split; [tauto|]. by intros [?|[? _]].
    - rewrite decide_True by done. cbn. rewrite list_elem_of_singleton. tauto. }
  pose proof (Moved_Grow _ _ _ _ _ _ Hc Hm) as Hg. split.
  - apply (Core_step n n s i (mkThread Access v) (mkThread Finish v') p w); try done.
    + intros t Ht. congruence.
    + intros s'. rewrite Hq, Hla, Hnx. destruct (core_last _ _ Hco s') as [H1 H2]. split; [done|]. intros t Ht.
      by apply (grow_done _ _ Hg), H2.
    + intros s'. rewrite Hq, Hnx. apply (core_bound _ _ Hco).
    + lia.
  - destruct s.
    + destruct Hval as [Hv [x ->]]. rewrite decide_True in Hwr by done. rewrite decide_False, app_nil_r in Hgo by done.
      apply (Store_write w w' i (mkThread Finish v') p p x); rewrite ?Hq; try done; try (by symmetry); try lia.
      intros y Hy. by apply (core_done _ _ Hco Producer y).
    + rewrite decide_False, app_nil_r in Hwr by done. rewrite decide_True in Hgo by done.
      apply (Store_read_step w w' i (mkThread Finish v') p p u); rewrite ?Hq; try done; by rewrite ?Hnx.
Qed.

(** ** Events *)

Lemma Core_mono n n' w : Core n w -> n <= n' -> Core n' w.
Proof. intros [H1 H2 H3 H4 H5 H6 H7 H8 H9 H10] Hn. split; try done. intros s. specialize (H9 s). lia. Qed.

Lemma event_step s i th w : threads w s !! i = Some th ->
  event (Step s i) w = '(th', q) ← step s i th (queue w); Some (stepped s i th th' q w).
Proof.
  intros Hth. simpl. rewrite Hth. destruct (step s i th (queue w)) as [[th' q]|]; [|done]. simpl. unfold stepped.
  by destruct (record s i th th' w) as [[ps ws] gs].
Qed.

Lemma begin_inv s i v n w : Core n w -> Store w -> (s = Producer -> is_Some v) -> Core n (begin s i v w) /\ Store (begin s i v w).
Proof.
  intros Hco Hst Hv. unfold begin. destruct (threads w s !! i) as [[[] v0]|] eqn:Hth; try done.
  destruct (core_thread _ _ Hco _ _ _ Hth) as (p & Hp & Hok).
  apply (quiet_step n w s i (mkThread Idle v0) (mkThread ReadNext v) p p (queue w)); try done.
  - intros Hs _. split; [by apply Hv|done].
  - by apply (core_pos _ _ Hco _ _ _ Hp).
Qed.

(** A step of a thread is defined: no access is out of range. *)
Lemma step_inv s i th n w : Inv n w -> threads w s !! i = Some th ->
  exists th' q', step s i th (queue w) = Some (th', q') /\ Core (n + 1) (stepped s i th th' q' w) /\ Store (stepped s i th th' q' w).
Proof.
  intros Hi Hth. pose proof Hi as (Hco & Hst & Hn). destruct (core_thread _ _ Hco _ _ _ Hth) as (p & Hp & Hok).
  destruct th as [st v]. destruct st as [| |x| |t| | |j pm|pm| | |] eqn:Est.
  4: { eexists _, _. split; [done|]. by apply (take_stage n w s i v p). }
  8: { destruct (set_last_stage n w s i v p pm) as [H1 H2]; try done. eexists _, _. split; [done|]. split; [|done].
    apply (Core_mono n); [done|lia]. }
  9: { destruct (access_stage n w s i v p) as (v' & q' & Ha & _ & H1 & H2); try done. exists (mkThread Finish v'), q'.
    split; [|split; [apply (Core_mono n); [done|lia]|done]]. unfold step. cbn [stage value]. rewrite Hp. simpl. by rewrite Ha. }
  all: destruct (quiet_stage n w s i _ p Hi Hth Hp Hok I) as (th' & q' & Hs & H1 & H2); exists th', q'; (split; [done|]);
    unfold stepped, record; cbn [stage]; (split; [|by destruct s]); (destruct s; apply (Core_mono n); [done|lia|done|lia]).
Qed.

Lemma event_inv e n w : Inv n w -> n + 1 + q_size_ (queue w) < 2 ^ 64 - 1 ->
  exists w', event e w = Some w' /\ Core (n + 1) w' /\ Store w'.
Proof.
  intros Hi Hn. pose proof Hi as (Hco & Hst & _). destruct e as [i v|i|s i].
  - destruct (begin_inv Producer i (Some v) n w) as [H1 H2]; [done..|]. eexists. split; [done|]. split; [apply (Core_mono n); [done|lia]|done].
  - destruct (begin_inv Consumer i None n w) as [H1 H2]; [done..|]. eexists. split; [done|]. split; [apply (Core_mono n); [done|lia]|done].
  - destruct (threads w s !! i) as [th|] eqn:Hth.
    + rewrite (event_step _ _ th) by done. destruct (step_inv s i th n w Hi Hth) as (th' & q' & -> & Hw). by eexists.
    + simpl. rewrite Hth. exists w. split; [done|]. split; [apply (Core_mono n); [done|lia]|done].
Qed.

(** ** What a step leaves alone *)

Lemma step_frame s i (th th' : Thread C) (q q' : Queue C) : step s i th q = Some (th', q') ->
  next (other s) q' = next (other s) q /\ (forall j, pos (other s) j q' = pos (other s) j q) /\
  (forall s', num s' q' = num s' q) /\ q_size_ q' = q_size_ q.
Proof.
  assert (Hset : forall x q1, set_pos s i x q = Some q1 -> next (other s) q1 = next (other s) q /\
    (forall j, pos (other s) j q1 = pos (other s) j q) /\ (forall s', num s' q1 = num s' q) /\ q_size_ q1 = q_size_ q).
  { intros x q1 Hq. destruct (pos s i q) as [p|] eqn:Hp.
    - destruct (set_pos_spec s i x p q Hp) as (q2 & Hq2 & Hre). assert (q2 = q1) as -> by congruence.
      split; [apply Hre|]. split; [|split; apply Hre]. intros j. apply (re_others _ _ _ _ _ Hre). left. by destruct s.
    - unfold pos in Hp. unfold set_pos in Hq. by destruct (clients_ q !! i). }
  unfold step. destruct th as [st v]. cbn [stage value].
  destruct st; intros H; try (by injection H as <- <-; split_and!; try done; intros; by destruct s).
  - apply bind_Some in H as (q1 & Hq1 & [= <- <-]). by apply (Hset p).
  - apply bind_Some in H as (q1 & Hq1 & [= <- <-]). by apply (Hset t).
  - apply bind_Some in H as (p & _ & [= <- <-]). done.
  - destruct (_ <? _)%nat; [|by injection H as <- <-]. apply bind_Some in H as (p & _ & [= <- <-]). done.
  - apply bind_Some in H as (p & _ & [= <- <-]). done.
  - apply bind_Some in H as (p & _ & H). apply bind_Some in H as ([v1 q1] & Ha & [= <- <-]).
    unfold access in Ha. destruct s.
    + apply bind_Some in Ha as (x & _ & Ha). apply bind_Some in Ha as (y & _ & [= <- <-]). split_and!; try done; by intros [].
    + apply bind_Some in Ha as (x & _ & [= <- <-]). done.
  - apply bind_Some in H as (q1 & Hq1 & [= <- <-]). by apply (Hset ULONG_MAX).
Qed.

Lemma stepped_queue s i th th' q w : queue (stepped s i th th' q w) = q.
Proof. unfold stepped. by destruct (record s i th th' w) as [[ps ws] gs]. Qed.

Lemma stepped_threads s i th th' q w : threads (stepped s i th th' q w) = set_thread s i th' (threads w).
Proof. unfold stepped. by destruct (record s i th th' w) as [[ps ws] gs]. Qed.

Lemma stepped_history s i th th' q w : (puts (stepped s i th th' q w), written (stepped s i th th' q w), got (stepped s i th th' q w)) = record s i th th' w.
Proof. unfold stepped. by destruct (record s i th th' w) as [[ps ws] gs]. Qed.

Lemma event_size e w w' : event e w = Some w' -> q_size_ (queue w') = q_size_ (queue w).
Proof.
  destruct e as [i v|i|s i].
  - intros H. injection H as <-. unfold begin. destruct (threads w Producer !! i) as [[[] ?]|]; reflexivity.
  - intros H. injection H as <-. unfold begin. destruct (threads w Consumer !! i) as [[[] ?]|]; reflexivity.
  - destruct (threads w s !! i) as [th|] eqn:Hth; [|simpl; rewrite Hth; by intros [= <-]].
    rewrite (event_step _ _ th) by done. intros H. apply bind_Some in H as ([th' q] & Hs & [= <-]).
    rewrite stepped_queue. by apply (step_frame _ _ _ _ _ _ Hs).
Qed.

Lemma events_inv es n w : Inv n w -> n + Z.of_nat (length es) + q_size_ (queue w) < 2 ^ 64 - 1 ->
  exists w', events es w = Some w' /\ Inv (n + Z.of_nat (length es)) w' /\ q_size_ (queue w') = q_size_ (queue w).
Proof.
  revert n w. induction es as [|e es IH]; intros n w Hi Hn; cbn [events length] in *.
  - exists w. split; [done|]. split; [|done]. by rewrite Z.add_0_r.
  - destruct (event_inv e n w Hi) as (w1 & He & Hc & Hs); [lia|]. pose proof (event_size _ _ _ He) as Hsz. rewrite He. cbn [mbind option_bind].
    destruct (IH (n + 1) w1) as (w' & Hw & Hi' & Hs'); [split; [done|]; split; [done|lia]|lia|].
    exists w'. split; [done|]. split; [|congruence]. by replace (n + Z.of_nat (S (length es))) with (n + 1 + Z.of_nat (length es)) by lia.
Qed.

(** ** The start *)

Lemma world_new_inv q_size np nc garbage q : LockFree_new q_size np nc garbage = Some q ->
  (exists k, 0 <= k < 64 /\ q_size_ q = 2 ^ k) -> length (garbage (q_size_ q)) = Z.to_nat (q_size_ q) -> Inv 0 (world_new q).
Proof.
  intros Hq (k & Hk & Hsz) Hg. unfold LockFree_new in Hq. apply bind_Some in Hq as (n & Hn & [= <-]). cbn [q_size_] in *.
  assert (Hpos : forall s i p, pos s i (queue (world_new (mkQueue np nc n (n - 1) 0 0 0 0
    (replicate (Nat.max nc np) (mkPos ULONG_MAX ULONG_MAX)) (garbage n)))) = Some p -> p = ULONG_MAX).
  { intros s i p Hp. unfold pos in Hp. apply bind_Some in Hp as (c & Hc & [= <-]). apply lookup_replicate in Hc as [-> _]. by destruct s. }
  assert (Hown : forall s i, own (world_new (mkQueue np nc n (n - 1) 0 0 0 0
    (replicate (Nat.max nc np) (mkPos ULONG_MAX ULONG_MAX)) (garbage n))) s i = None).
  { intros s i. unfold own. destruct (_ !! i) as [th|] eqn:Hth; [|done]. apply lookup_replicate in Hth as [-> _]. done. }
  split; [|split].
  - split; try done.
    + intros s. apply length_replicate.
    + apply length_replicate.
    + intros s i th Hth. apply lookup_replicate in Hth as [-> Hi]. exists ULONG_MAX. split; [|done]. unfold pos.
      cbn [world_new queue clients_]. rewrite lookup_replicate_2; [by destruct s|]. destruct s; simpl in *; lia.
    + intros s i t. by rewrite Hown.
    + intros s i j t. by rewrite Hown.
    + intros [] t Ht; simpl in Ht; lia.
    + intros [] t Ht; simpl in Ht; by apply elem_of_nil in Ht.
    + intros []; simpl; (split; [lia|]); intros t Ht; lia.
    + intros []; simpl; lia.
    + intros s i p Hp. by rewrite (Hpos s i p Hp).
  - split; try done.
    + exists k. rewrite <- Hsz. by split; [lia|].
    + intros t Ht. by apply elem_of_nil in Ht.
    + intros i th Hth. apply lookup_replicate in Hth as [-> _]. split; [done|]. intros t. by rewrite Hown.
    + intros t v Ht. by apply elem_of_nil in Ht.
    + split; constructor.
  - cbn [world_new queue q_size_]. rewrite Hsz. assert (2 ^ k <= 2 ^ 63) by (apply Z.pow_le_mono_r; lia). lia.
Qed.

(** ** A thread alone

    A call that finds the clients of the other end idle, and a position it need not wait
    for, returns by its own steps, whatever the calls of its own end are doing. *)

Definition room (s : Side) (w : World) : Z := match s with Producer => q_size_ (queue w) | Consumer => 0 end.

Lemma limit_room s n w : Inv n w -> limit s (queue w) = last (other s) (queue w) + room s w.
Proof. intros Hi. rewrite (limit_small s w n Hi). destruct s; simpl; lia. Qed.

Record Solo (s : Side) (i : nat) (m : Z) (h : list C * list Z * list (Z * C)) (n : Z) (st : Stage) (v : option C) (p : Z) (w : World) : Prop := {
  solo_inv : Inv n w;
  solo_thread : threads w s !! i = Some (mkThread st v);
  solo_pos : pos s i (queue w) = Some p;
  solo_others : forall j, (j < num (other s) (queue w))%nat -> pos (other s) j (queue w) = Some ULONG_MAX;
  solo_next : next (other s) (queue w) = m;
  solo_history : (puts w, written w, got w) = h }.

Lemma solo_step s i m h n st v p st' v' p' q' w : Solo s i m h n st v p w -> n + 1 + q_size_ (queue w) < 2 ^ 64 - 1 ->
  step s i (mkThread st v) (queue w) = Some (mkThread st' v', q') -> pos s i q' = Some p' ->
  let w' := stepped s i (mkThread st v) (mkThread st' v') q' w in
  event (Step s i) w = Some w' /\
  Solo s i m (record s i (mkThread st v) (mkThread st' v') w) (n + 1) st' v' p' w' /\
  q_size_ (queue w') = q_size_ (queue w) /\ queue w' = q'.
Proof.
  intros [Hi Hth Hp Hot Hnx Hh] Hn Hst Hp' w'.
  assert (Hev : event (Step s i) w = Some w') by (by rewrite (event_step _ _ _ _ Hth), Hst).
  destruct (step_frame _ _ _ _ _ _ Hst) as (H1 & H2 & H3 & H4).
  split; [done|]. unfold w'. rewrite stepped_queue. split; [|done]. split; rewrite ?stepped_queue, ?stepped_threads, ?stepped_history; try done.
  - destruct (step_inv s i _ n w Hi Hth) as (th1 & q1 & Hs1 & Hc & Hs). rewrite Hst in Hs1. injection Hs1 as <- <-.
    split; [done|]. split; [done|]. rewrite stepped_queue. lia.
  - by apply set_thread_same, (lookup_lt_Some _ _ _ Hth).
  - intros j Hj. rewrite H3 in Hj. rewrite H2. by apply Hot.
  - by rewrite H1.
Qed.

(** After [k] more steps of its own the call has returned [v'], with the history [h']. *)
Definition returns (s : Side) (i : nat) (v' : option C) (h' : list C * list Z * list (Z * C)) (k : nat) (w : World) : Prop :=
  exists w', events (replicate k (Step s i)) w = Some w' /\ threads w' s !! i = Some (mkThread Idle v') /\
    (puts w', written w', got w') = h'.

Lemma returns_step s i v' h' k w w1 : event (Step s i) w = Some w1 -> returns s i v' h' k w1 -> returns s i v' h' (S k) w.
Proof. intros He (w' & H1 & H2). exists w'. cbn [replicate events]. by rewrite He. Qed.

Lemma returns_idle s i v' h' k w : threads w s !! i = Some (mkThread Idle v') -> (puts w, written w, got w) = h' -> returns s i v' h' k w.
Proof.
  revert w. induction k as [|k IH]; intros w Hth Hh; [by exists w|].
  eapply returns_step; [by rewrite (event_step _ _ _ _ Hth)|]. apply IH; rewrite ?stepped_threads, ?stepped_history.
  - by apply set_thread_same, (lookup_lt_Some _ _ _ Hth).
  - unfold record. simpl. by destruct s.
Qed.

(** What a call that has taken position [p] returns, and the history then. *)
Definition outcome (s : Side) (v : option C) (p : Z) (h : list C * list Z * list (Z * C)) : option C :=
  match s with Producer => v | Consumer => h.1.1 !! Z.to_nat p end.

Definition after (s : Side) (v : option C) (p : Z) (h : list C * list Z * list (Z * C)) : list C * list Z * list (Z * C) :=
  match s with
  | Producer => (h.1.1, h.1.2 ++ [p], h.2)
  | Consumer => (h.1.1, h.1.2, h.2 ++ (pair p <$> option_list (outcome s v p h)))
  end.

Lemma solo_quiet s i m h n st v p st' p' q' k w v' h' : Solo s i m h n st v p w -> n + 1 + q_size_ (queue w) < 2 ^ 64 - 1 ->
  step s i (mkThread st v) (queue w) = Some (mkThread st' v, q') -> pos s i q' = Some p' ->
  match st with FetchAdd | Access => False | _ => True end ->
  (forall w', Solo s i m h (n + 1) st' v p' w' -> queue w' = q' -> q_size_ q' = q_size_ (queue w) -> returns s i v' h' k w') ->
  returns s i v' h' (S k) w.
Proof.
  intros Hso Hn Hst Hp Hq Hk. destruct (solo_step _ _ _ _ _ _ _ _ _ _ _ _ _ Hso Hn Hst Hp) as (He & Hso' & Hsz & Hqu).
  apply (returns_step _ _ _ _ _ _ _ He). apply Hk; [|done|congruence].
  assert (Hr : record s i (mkThread st v) (mkThread st' v) w = h) by (rewrite <- (solo_history _ _ _ _ _ _ _ _ _ Hso); destruct st; try done; by destruct s).
  by rewrite <- Hr at 1.
Qed.

Lemma solo_set_pos s i m h n st v p w x : Solo s i m h n st v p w ->
  exists q', set_pos s i x (queue w) = Some q' /\ Repos s i x (queue w) q'.
Proof. intros Hso. eapply set_pos_spec, solo_pos, Hso. Qed.

Lemma finish_returns s i m h n v p k w : Solo s i m h n Finish v p w -> n + 1 + q_size_ (queue w) < 2 ^ 64 - 1 -> returns s i v h (S k) w.
Proof.
  intros Hso Hn. destruct (solo_set_pos _ _ _ _ _ _ _ _ _ ULONG_MAX Hso) as (q' & Hq & Hre).
  apply (solo_quiet _ _ _ _ _ _ _ _ Idle ULONG_MAX q' _ _ _ _ Hso Hn); [by unfold step; cbn [stage value]; rewrite Hq|apply Hre|done|].
  intros w' Hso' _ _. apply returns_idle; eapply Hso'.
Qed.

Lemma access_returns s i m h n v p k w : Solo s i m h n Access v p w -> n + 2 + q_size_ (queue w) < 2 ^ 64 - 1 ->
  returns s i (outcome s v p h) (after s v p h) (S (S k)) w.
Proof.
  intros Hso Hn. pose proof (solo_inv _ _ _ _ _ _ _ _ _ Hso) as Hi. pose proof Hi as (Hco & Hst & _).
  pose proof (solo_thread _ _ _ _ _ _ _ _ _ Hso) as Hth. pose proof (solo_pos _ _ _ _ _ _ _ _ _ Hso) as Hp.
  destruct (core_thread _ _ Hco _ _ _ Hth) as (p0 & Hp0 & Hok). assert (p0 = p) as -> by congruence. clear Hp0.
  destruct (access_stage n w s i v p Hi Hth Hp Hok) as (v' & q' & Ha & Hv & _).
  assert (Hv' : v' = outcome s v p h).
  { rewrite <- (solo_history _ _ _ _ _ _ _ _ _ Hso). destruct s; [|by apply Hv]. unfold access in Ha.
    apply bind_Some in Ha as (x & -> & Ha). by apply bind_Some in Ha as (y & _ & [= <- _]). }
  assert (Hs : step s i (mkThread Access v) (queue w) = Some (mkThread Finish v', q')).
  { unfold step. cbn [stage value]. rewrite Hp. cbn [mbind option_bind]. by rewrite Ha. }
  assert (Hpq : pos s i q' = Some p).
  { rewrite <- Hp. unfold access in Ha. destruct s.
    - apply bind_Some in Ha as (x & _ & Ha). by apply bind_Some in Ha as (y & _ & [= _ <-]).
    - by apply bind_Some in Ha as (x & _ & [= _ <-]). }
  destruct (solo_step _ _ _ _ _ _ _ _ _ _ _ _ _ Hso ltac:(lia) Hs Hpq) as (He & Hso' & Hsz & _).
  apply (returns_step _ _ _ _ _ _ _ He). rewrite <- Hv'.
  assert (Hr : record s i (mkThread Access v) (mkThread Finish v') w = after s v p h).
  { unfold after. rewrite <- Hv', <- (solo_history _ _ _ _ _ _ _ _ _ Hso). unfold record. cbn [stage value]. destruct s; by rewrite Hp. }
  rewrite Hr in Hso'. eapply finish_returns; [exact Hso'|lia].
Qed.

Lemma test_again_returns s i m h n v p k w : Solo s i m h n TestAgain v p w -> n + 3 + q_size_ (queue w) < 2 ^ 64 - 1 ->
  last (other s) (queue w) = m -> p < m + room s w ->
  returns s i (outcome s v p h) (after s v p h) (S (S (S k))) w.
Proof.
  intros Hso Hn Hl Hp. pose proof (solo_pos _ _ _ _ _ _ _ _ _ Hso) as Hpos.
  apply (solo_quiet _ _ _ _ _ _ _ _ Access p (queue w) _ _ _ _ Hso ltac:(lia)); [|done|done|].
  - unfold step. cbn [stage value]. rewrite Hpos, (limit_room _ _ _ (solo_inv _ _ _ _ _ _ _ _ _ Hso)), Hl.
    cbn [mbind option_bind]. destruct (Z.ltb_spec p (m + room s w)); [done|lia].
  - intros w' Hso' Hq Hsz. apply (access_returns _ _ m _ (n + 1)); [done|]. rewrite Hq. lia.
Qed.

Lemma room_size s w w' : q_size_ (queue w') = q_size_ (queue w) -> room s w' = room s w.
Proof. by destruct s. Qed.

Lemma set_last_returns s i m h n v p k w : Solo s i m h n (SetLast m) v p w -> n + 4 + q_size_ (queue w) < 2 ^ 64 - 1 ->
  p < m + room s w -> returns s i (outcome s v p h) (after s v p h) (S (S (S (S k)))) w.
Proof.
  intros Hso Hn Hp. pose proof (solo_pos _ _ _ _ _ _ _ _ _ Hso) as Hpos.
  apply (solo_quiet _ _ _ _ _ _ _ _ TestAgain p (set_last (other s) m (queue w)) _ _ _ _ Hso ltac:(lia)); [done|by destruct s|done|].
  intros w' Hso' Hq Hsz. apply (test_again_returns _ _ m _ (n + 1)); [done| | |].
  - rewrite Hq, Hsz. lia.
  - rewrite Hq. by destruct s.
  - by rewrite (room_size s w w') by (by rewrite Hq).
Qed.

Lemma scan_returns s i m h v p k d : forall j n w, Solo s i m h n (Scan j m) v p w -> (num (other s) (queue w) <= j + d)%nat ->
  n + 5 + Z.of_nat d + q_size_ (queue w) < 2 ^ 64 - 1 -> m <= ULONG_MAX -> p < m + room s w ->
  returns s i (outcome s v p h) (after s v p h) (d + S (S (S (S (S k))))) w.
Proof.
  induction d as [|d IH]; intros j n w Hso Hd Hn Hm Hp; pose proof (solo_pos _ _ _ _ _ _ _ _ _ Hso) as Hpos.
  all: destruct (Nat.ltb_spec j (num (other s) (queue w))) as [Hlt|Hge]; [try lia|].
  2: { replace (S d + _)%nat with (S (d + S (S (S (S (S k))))))%nat by lia.
    pose proof (solo_others _ _ _ _ _ _ _ _ _ Hso j Hlt) as Hoj.
    apply (solo_quiet _ _ _ _ _ _ _ _ (Scan (S j) m) p (queue w) _ _ _ _ Hso ltac:(lia)); [|done|done|].
    - unfold step. cbn [stage value]. rewrite (proj2 (Nat.ltb_lt _ _) Hlt), Hoj. cbn [mbind option_bind].
      destruct (Z.ltb_spec ULONG_MAX m); [lia|done].
    - intros w' Hso' Hq Hsz. apply (IH (S j) (n + 1)); rewrite ?Hq; try done; try lia. by rewrite (room_size s w w') by (by rewrite Hq). }
  2: replace (S d + S (S (S (S (S k)))))%nat with (S (S (S (S (S (S (d + k)))))))%nat by lia.
  all: apply (solo_quiet _ _ _ _ _ _ _ _ (SetLast m) p (queue w) _ _ _ _ Hso ltac:(lia)); [|done|done|].
  1, 3: unfold step; cbn [stage value]; by rewrite (proj2 (Nat.ltb_ge _ _) Hge).
  - intros w' Hso' Hq Hsz. apply (set_last_returns _ _ m _ (n + 1)); rewrite ?Hq; try done; try lia. by rewrite (room_size s w w') by (by rewrite Hq).
  - intros w' Hso' Hq Hsz. apply (set_last_returns _ _ m _ (n + 1)); rewrite ?Hq; try done; try lia. by rewrite (room_size s w w') by (by rewrite Hq).
Qed.

Lemma test_returns s i m h n v p k c w : Solo s i m h n Test v p w -> num (other s) (queue w) = c ->
  n + 7 + Z.of_nat c + q_size_ (queue w) < 2 ^ 64 - 1 -> p < m + room s w ->
  returns s i (outcome s v p h) (after s v p h) (c + (7 + k)) w.
Proof.
  intros Hso Hc Hn Hp. pose proof (solo_pos _ _ _ _ _ _ _ _ _ Hso) as Hpos. pose proof (solo_inv _ _ _ _ _ _ _ _ _ Hso) as (Hco & _ & _).
  pose proof (core_bound _ _ Hco (other s)) as Hb. rewrite (solo_next _ _ _ _ _ _ _ _ _ Hso) in Hb.
  assert (Hm : m <= ULONG_MAX) by (pose proof (ring_pos w (proj1 (proj2 (solo_inv _ _ _ _ _ _ _ _ _ Hso)))); unfold ULONG_MAX; lia).
  replace (c + (7 + k))%nat with (S (S (c + (5 + k)))) by lia. destruct (Z.leb_spec (limit s (queue w)) p) as [Hle|Hlt].
  - apply (solo_quiet _ _ _ _ _ _ _ _ ReadOther p (queue w) _ _ _ _ Hso ltac:(lia)); [|done|done|].
    { unfold step. cbn [stage value]. rewrite Hpos. cbn [mbind option_bind]. by rewrite (proj2 (Z.leb_le _ _) Hle). }
    intros w1 Hs1 Hq1 _.
    apply (solo_quiet _ _ _ _ _ _ _ _ (Scan 0 m) p (queue w1) _ _ _ _ Hs1); [rewrite Hq1; lia| |by rewrite Hq1|done|].
    { unfold step. cbn [stage value]. by rewrite (solo_next _ _ _ _ _ _ _ _ _ Hs1). }
    intros w2 Hs2 Hq2 _. rewrite Hq1 in Hq2.
    apply (scan_returns _ _ _ _ _ _ _ c 0 _ _ Hs2); rewrite ?Hq2; try done; try lia.
    by rewrite (room_size s w w2) by (by rewrite Hq2).
  - apply (solo_quiet _ _ _ _ _ _ _ _ Access p (queue w) _ _ _ _ Hso ltac:(lia)); [|done|done|].
    { unfold step. cbn [stage value]. rewrite Hpos. cbn [mbind option_bind]. by rewrite (proj2 (Z.leb_gt _ _) Hlt). }
    intros w1 Hs1 Hq1 _. replace (c + (5 + k))%nat with (S (S (S (c + (2 + k))))) by lia.
    apply (access_returns _ _ _ _ _ _ _ _ _ Hs1). rewrite Hq1. lia.
Qed.

Lemma call_returns s i m h n v p k c w : Solo s i m h n ReadNext v p w -> num (other s) (queue w) = c ->
  n + 11 + Z.of_nat c + q_size_ (queue w) < 2 ^ 64 - 1 -> next s (queue w) < m + room s w ->
  returns s i (outcome s v (next s (queue w)) (match s with Producer => (h.1.1 ++ option_list v, h.1.2, h.2) | Consumer => h end))
    (after s v (next s (queue w)) (match s with Producer => (h.1.1 ++ option_list v, h.1.2, h.2) | Consumer => h end)) (c + (11 + k)) w.
Proof.
  intros Hso Hc Hn Hp. set (t := next s (queue w)) in *. replace (c + (11 + k))%nat with (S (S (S (S (c + (7 + k)))))) by lia.
  pose proof (ring_pos w (proj1 (proj2 (solo_inv _ _ _ _ _ _ _ _ _ Hso)))) as Hring.
  pose proof (solo_inv _ _ _ _ _ _ _ _ _ Hso) as (Hco & _ & Hnn). pose proof (core_bound _ _ Hco s) as Hb.
  apply (solo_quiet _ _ _ _ _ _ _ _ (Announce t) p (queue w) _ _ _ _ Hso ltac:(lia)); [done|apply Hso|done|].
  intros w1 Hs1 Hq1 _. destruct (solo_set_pos _ _ _ _ _ _ _ _ _ t Hs1) as (q2 & Hq2 & Hre2).
  apply (solo_quiet _ _ _ _ _ _ _ _ FetchAdd t q2 _ _ _ _ Hs1); [rewrite Hq1; lia|by unfold step; cbn [stage value]; rewrite Hq2|apply Hre2|done|].
  rewrite Hq1 in Hre2. intros w2 Hs2 Hqw2 _. pose proof (re_next _ _ _ _ _ Hre2 s) as Hn2. fold t in Hn2.
  assert (Hstep : step s i (mkThread FetchAdd v) (queue w2) = Some (mkThread (Claim t) v, set_next s (size_t (t + 1)) q2)).
  { unfold step. cbn [stage value]. by rewrite Hqw2, Hn2. }
  assert (Hsz2 : q_size_ (queue w2) = q_size_ (queue w)) by (rewrite Hqw2; apply Hre2).
  destruct (solo_step _ _ _ _ _ _ _ _ _ _ t _ _ Hs2 ltac:(lia) Hstep) as (He3 & Hs3 & Hsz3 & Hq3).
  { assert (Hsame : pos s i (set_next s (size_t (t + 1)) q2) = pos s i q2) by by destruct s. rewrite Hsame. apply Hre2. }
  apply (returns_step _ _ _ _ _ _ _ He3). set (w3 := stepped _ _ _ _ _ _) in *.
  assert (Hrec : record s i (mkThread FetchAdd v) (mkThread (Claim t) v) w2 = match s with Producer => (h.1.1 ++ option_list v, h.1.2, h.2) | Consumer => h end).
  { pose proof (solo_history _ _ _ _ _ _ _ _ _ Hs2) as <-. unfold record. by destruct s. }
  rewrite Hrec in Hs3. destruct (solo_set_pos _ _ _ _ _ _ _ _ _ t Hs3) as (q4 & Hq4 & Hre4).
  apply (solo_quiet _ _ _ _ _ _ _ _ Test t q4 _ _ _ _ Hs3); [lia|by unfold step; cbn [stage value]; rewrite Hq4|apply Hre4|done|].
  intros w4 Hs4 Hqw4 Hsz4. apply (test_returns _ _ m _ _ _ _ _ _ _ Hs4); rewrite ?Hqw4, ?Hsz4; try lia.
  - rewrite (re_num _ _ _ _ _ Hre4), Hq3.
    assert (Hnum : num (other s) (set_next s (size_t (t + 1)) q2) = num (other s) q2) by by destruct s.
    by rewrite Hnum, (re_num _ _ _ _ _ Hre2).
  - by rewrite (room_size s w w4) by (rewrite Hqw4, Hsz4; congruence).
Qed.

End World.

#[global] Arguments World : clear implicits.
#[global] Arguments Event : clear implicits.


(** ** The size *)

Lemma NextPow2_loop sz fuel ret : loop (NextPow2_step sz) (S fuel) ret =
  if ret <? sz then loop (NextPow2_step sz) fuel (size_t (Z.shiftl ret 1)) else Some ret.
Proof.
  assert (H : NextPow2_step sz ret = Some (if ret <? sz then inl (size_t (Z.shiftl ret 1)) else inr ret)) by done.
  rewrite loop_S, H. by destruct (ret <? sz).
Qed.

Lemma NextPow2_run sz fuel k : 0 <= sz <= 2 ^ 63 -> 0 <= k <= 63 -> (k = 0 \/ 2 ^ (k - 1) < sz) -> (Z.to_nat (63 - k) < fuel)%nat ->
  exists k', loop (NextPow2_step sz) fuel (2 ^ k) = Some (2 ^ k') /\ 0 <= k' <= 63 /\ sz <= 2 ^ k' /\ (k' = 0 \/ 2 ^ (k' - 1) < sz).
Proof.
  revert k. induction fuel as [|fuel IH]; intros k Hsz Hk Hlo Hf; [lia|]. rewrite NextPow2_loop.
  destruct (Z.ltb_spec (2 ^ k) sz) as [Hlt|Hge]; [|by exists k].
  assert (k < 63) by (destruct (decide (k = 63)) as [->|]; lia).
  rewrite Z.shiftl_mul_pow2, Z.pow_1_r by lia.
  assert (He : 2 ^ k * 2 = 2 ^ (k + 1)) by (rewrite Z.pow_add_r by lia; lia). rewrite He.
  assert (2 ^ (k + 1) <= 2 ^ 63) by (apply Z.pow_le_mono_r; lia). assert (0 < 2 ^ (k + 1)) by (apply Z.pow_pos_nonneg; lia).
  rewrite wrapU_small by lia. apply IH; try lia. right. by replace (k + 1 - 1) with k by lia.
Qed.

Lemma NextPow2_spec sz : 0 <= sz <= 2 ^ 63 ->
  exists k, NextPow2 sz = Some (2 ^ k) /\ 0 <= k < 64 /\ sz <= 2 ^ k /\ (k = 0 \/ 2 ^ (k - 1) < sz).
Proof.
  intros Hsz. destruct (NextPow2_run sz 65 0) as (k & Hk & Hr & Hle & Hlo); [done|lia|by left|simpl; lia|].
  exists k. split; [done|]. split; [lia|done].
Qed.

(** Beyond 2^63 the shift leaves zero, and zero stays. *)
Lemma NextPow2_zero sz fuel : 0 < sz -> loop (NextPow2_step sz) fuel 0 = None.
Proof.
  intros Hsz. induction fuel as [|fuel IH]; [done|]. rewrite NextPow2_loop.
  destruct (Z.ltb_spec 0 sz); [|lia]. exact IH.
Qed.

Lemma NextPow2_runs_on sz fuel k : 2 ^ 63 < sz -> 0 <= k <= 63 -> loop (NextPow2_step sz) fuel (2 ^ k) = None.
Proof.
  intros Hsz. revert k. induction fuel as [|fuel IH]; intros k Hk; [done|]. rewrite NextPow2_loop.
  assert (2 ^ k <= 2 ^ 63) by (apply Z.pow_le_mono_r; lia). destruct (Z.ltb_spec (2 ^ k) sz); [|lia].
  rewrite Z.shiftl_mul_pow2, Z.pow_1_r by lia.
  assert (He : 2 ^ k * 2 = 2 ^ (k + 1)) by (rewrite Z.pow_add_r by lia; lia). rewrite He.
  destruct (decide (k = 63)) as [->|]; [apply NextPow2_zero; lia|].
  assert (2 ^ (k + 1) <= 2 ^ 63) by (apply Z.pow_le_mono_r; lia). assert (0 < 2 ^ (k + 1)) by (apply Z.pow_pos_nonneg; lia).
  rewrite wrapU_small by lia. apply IH; lia.
Qed.

Section World.
Context {C : Type}.

Lemma new_inv q_size np nc (garbage : Z -> list C) q : 0 <= q_size <= 2 ^ 63 -> LockFree_new q_size np nc garbage = Some q ->
  (forall n, length (garbage n) = Z.to_nat n) -> Inv 0 (world_new q) /\ q_size <= q_size_ q.
Proof.
  intros Hsz Hq Hg. destruct (NextPow2_spec q_size Hsz) as (k & Hk & Hr & Hle & _). pose proof Hq as Hq'.
  unfold LockFree_new in Hq'. rewrite Hk in Hq'. injection Hq' as <-. split; [|done].
  apply (world_new_inv q_size np nc garbage); [done|by exists k|apply Hg].
Qed.

(** ** What has been got *)

Lemma got_values (w : World C) : Store w -> Some <$> (got w).*2 = (fun t => puts w !! Z.to_nat t) <$> (got w).*1.
Proof.
  intros Hs. rewrite <- !list_fmap_compose. apply list_fmap_ext. intros i [t v] Hi. simpl. symmetry.
  apply (store_got _ Hs). by eapply list_elem_of_lookup_2.
Qed.

Lemma lookups_take (l : list C) n : Z.of_nat n <= Z.of_nat (length l) ->
  (fun t => l !! Z.to_nat t) <$> seqZ 0 (Z.of_nat n) = Some <$> take n l.
Proof.
  intros Hn. apply list_eq. intros i. rewrite !list_lookup_fmap. destruct (decide (i < n)%nat) as [Hi|Hi].
  - rewrite (proj2 (lookup_seqZ 0 (Z.of_nat n) i (Z.of_nat i))) by lia. simpl. rewrite Nat2Z.id, lookup_take_lt by done.
    destruct (lookup_lt_is_Some_2 l i) as [x Hx]; [lia|]. by rewrite Hx.
  - rewrite lookup_seqZ_ge by lia. rewrite lookup_take_ge by lia. done.
Qed.

Lemma quiet_got n (w : World C) : Inv n w -> (forall j th, threads w Consumer !! j = Some th -> stage th = Idle) ->
  (got w).*2 ≡ₚ take (Z.to_nat (tail_ (queue w))) (puts w).
Proof.
  intros (Hco & Hst & _) Hidle. set (tl := tail_ (queue w)). pose proof (core_bound _ _ Hco Consumer) as [Htl _]. simpl in Htl. fold tl in Htl.
  assert (Hall : forall t, done Consumer w t <-> 0 <= t < tl).
  { intros t. split; [apply (core_done _ _ Hco)|]. intros Ht. destruct (core_cover _ _ Hco Consumer t Ht) as [|[j Hj]]; [done|].
    unfold own in Hj. apply bind_Some in Hj as (th & Hth & Hj). unfold owned in Hj. by rewrite (Hidle _ _ Hth) in Hj. }
  assert (Hperm : (got w).*1 ≡ₚ seqZ 0 tl).
  { apply NoDup_Permutation; [apply (store_once _ Hst)|apply NoDup_seqZ|]. intros t. rewrite elem_of_seqZ.
    etrans; [apply (Hall t)|]. lia. }
  assert (Hlen : Z.of_nat (Z.to_nat tl) <= Z.of_nat (length (puts w))).
  { rewrite (store_puts _ Hst), Z2Nat.id by done. destruct (decide (tl <= 0)); [pose proof (core_bound _ _ Hco Producer); lia|].
    pose proof (core_done _ _ Hco Producer (tl - 1)) as Hd. pose proof (store_read _ Hst (tl - 1)) as Hr.
    rewrite Hall in Hr. pose proof (Hd (Hr ltac:(lia))). lia. }
  assert (Hs : Some <$> (got w).*2 ≡ₚ Some <$> take (Z.to_nat tl) (puts w)).
  { rewrite got_values, <- lookups_take, Z2Nat.id by done. by rewrite Hperm. }
  assert (Hid : forall l : list C, omap id (Some <$> l) = l) by (intros l; induction l as [|x l IH]; [done|]; cbn; by f_equal).
  rewrite <- (Hid (got w).*2), <- (Hid (take _ _)). by rewrite Hs.
Qed.

(** The start of a call as the first of its steps. *)
Lemma call_solo n (w : World C) s i v v0 : Inv n w -> threads w s !! i = Some (mkThread Idle v0) ->
  (forall j th, threads w (other s) !! j = Some th -> stage th = Idle) -> (s = Producer -> is_Some v) ->
  exists p, Solo s i (next (other s) (queue w)) (puts w, written w, got w) n ReadNext v p (begin s i v w) /\ queue (begin s i v w) = queue w.
Proof.
  intros Hi Hth Hidle Hv. pose proof Hi as (Hco & Hst & Hn). destruct (core_thread _ _ Hco _ _ _ Hth) as (p & Hp & _).
  destruct (begin_inv s i v n w Hco Hst Hv) as [H1 H2]. exists p. unfold begin in *. rewrite Hth in *. split; [|done]. split; try done.
  - by apply set_thread_same, (lookup_lt_Some _ _ _ Hth).
  - intros j Hj. cbn [queue] in *. rewrite <- (core_threads _ _ Hco) in Hj. destruct (lookup_lt_is_Some_2 _ _ Hj) as [th Hth'].
    destruct (core_thread _ _ Hco _ _ _ Hth') as (x & Hx & Hok). unfold thread_ok in Hok. rewrite (Hidle _ _ Hth') in Hok. by rewrite Hx, Hok.
Qed.

End World.







End LockFreeSpec.
