(* ===== verification/LockFreeProps.v ===== *)
(** * LockFreeProps: the properties of the lock free queue

    What every interleaving of the threads gives, when a call returns by itself, and when
    the computation of the size ends. *)

From S2P Require Import Prelude.
From S2P Require Import LockFree.
From S2P Require Import LockFreeSpec.

Module LockFreeProps.
Import LockFree LockFreeSpec.

(** ** Any interleaving *)

(** C22: whatever calls the clients of a new queue make and however their steps interleave
    (fewer than 2^64 of them), no access is out of range; a pointer is got from a position
    only once, and it is the one that was put there; a slot is written again only when what
    it held has been read; and while no [Get] is under way the pointers got are, in some
    order, the first [tail_] ones put. *)
Theorem queue_delivers (C : Type) (q_size : Z) (num_producers num_consumers : nat) (garbage : Z -> list C)
    (es : list (Event C)) (q : Queue C) :
  0 <= q_size <= 2 ^ 63 -> (forall n, length (garbage n) = Z.to_nat n) ->
  LockFree_new q_size num_producers num_consumers garbage = Some q ->
  Z.of_nat (length es) + q_size_ q < 2 ^ 64 - 1 ->
  exists w, events es (world_new q) = Some w /\
    NoDup (got w).*1 /\
    (forall t v, (t, v) ∈ got w -> puts w !! Z.to_nat t = Some v) /\
    (forall t t', t ∈ written w -> 0 <= t' -> t' + q_size_ q <= t -> t' ∈ (got w).*1) /\
    ((forall j th, threads w Consumer !! j = Some th -> stage th = Idle) ->
     (got w).*2 ≡ₚ take (Z.to_nat (tail_ (queue w))) (puts w)).
Proof.
  intros Hsz Hg Hq Hn. destruct (new_inv _ _ _ _ _ Hsz Hq Hg) as [Hi _].
  destruct (events_inv es 0 (world_new q) Hi Hn) as (w & He & Hi' & Hs). exists w. split; [done|].
  pose proof Hi' as (_ & Hst & _). split; [apply (store_once _ Hst)|]. split; [apply (store_got _ Hst)|]. split.
  - intros t t' Ht H1 H2. apply (store_allowed _ Hst t Ht t' H1). rewrite Hs. exact H2.
  - by apply (quiet_got _ _ Hi').
Qed.

(** Two producers and two consumers on two slots: client 1 of each end overtakes client 0. *)
Definition overtaking : list (Event nat) :=
  [Put 0 10%nat; Put 1 11%nat] ++ replicate 7 (Step Producer 0) ++ replicate 9 (Step Producer 1) ++
  [Get 0; Get 1] ++ replicate 4 (Step Consumer 0) ++ replicate 16 (Step Consumer 1) ++ replicate 16 (Step Consumer 0) ++
  replicate 16 (Step Consumer 1).

Lemma overtaking_ends :
  (q ← LockFree_new 2 2 2 (fun n => replicate (Z.to_nat n) 0%nat); w ← events overtaking (world_new q);
   Some (stage <$> threads w Consumer, tail_ (queue w), puts w, got w)) = Some ([Idle; Idle], 2, [10%nat; 11%nat], [(1, 11%nat); (0, 10%nat)]).
Proof. vm_compute. reflexivity. Qed.

Lemma queue_delivers_witness :
  exists q w, LockFree_new 2 2 2 (fun n => replicate (Z.to_nat n) 0%nat) = Some q /\
    events overtaking (world_new q) = Some w /\ got w = [(1, 11%nat); (0, 10%nat)] /\ (got w).*2 ≡ₚ [10%nat; 11%nat].
Proof.
  pose proof overtaking_ends as E. destruct (LockFree_new 2 2 2 (fun n => replicate (Z.to_nat n) 0%nat)) as [q|] eqn:Hq; [|done].
  assert (Hs : q_size_ q = 2) by (vm_compute in Hq; by injection Hq as <-).
  destruct (queue_delivers nat 2 2 2 (fun n => replicate (Z.to_nat n) 0%nat) overtaking q ltac:(lia)
    ltac:(intros; apply length_replicate) Hq ltac:(rewrite Hs; vm_compute; reflexivity)) as (w & He & _ & _ & _ & Hp).
  cbn [mbind option_bind] in E. rewrite He in E. cbn [mbind option_bind] in E. injection E as Hth Htl Hps Hgot.
  exists q, w. split; [done|]. split; [done|]. split; [done|]. rewrite Htl, Hps in Hp. apply Hp.
  intros j th Hj. apply (f_equal (fmap stage)) in Hj. rewrite <- list_lookup_fmap, Hth in Hj.
  apply list_elem_of_lookup_2 in Hj. rewrite !elem_of_cons, elem_of_nil in Hj. by destruct Hj as [|[|]].
Defined.

(** ** A call by itself *)

Definition call {C} (s : Side) (i : nat) (x : C) : Event C := match s with Producer => Put i x | Consumer => Get i end.

(** C23: in every state the threads can reach, a client that calls when no client of the
    other end is inside a call, and when there is a free slot (or, for [Get], a pointer),
    returns within a number of its own steps that only the number of clients bounds,
    wherever the other clients of its own end stand; the pointer is put at [head_], or the
    one at [tail_] is got. *)
Theorem call_returns_alone (C : Type) (q_size : Z) (num_producers num_consumers : nat) (garbage : Z -> list C)
    (es : list (Event C)) (q : Queue C) (w : World C) (s : Side) (i : nat) (v0 : option C) (x : C) :
  0 <= q_size <= 2 ^ 63 -> (forall n, length (garbage n) = Z.to_nat n) ->
  LockFree_new q_size num_producers num_consumers garbage = Some q ->
  Z.of_nat (length es) + Z.of_nat (num (other s) (queue w)) + 11 + q_size_ q < 2 ^ 64 - 1 ->
  events es (world_new q) = Some w ->
  threads w s !! i = Some (mkThread Idle v0) ->
  (forall j th, threads w (other s) !! j = Some th -> stage th = Idle) ->
  next s (queue w) < next (other s) (queue w) + match s with Producer => q_size_ q | Consumer => 0 end ->
  exists w' v, events (call s i x :: replicate (num (other s) (queue w) + 11) (Step s i)) w = Some w' /\
    threads w' s !! i = Some (mkThread Idle (Some v)) /\
    match s with
    | Producer => v = x /\ puts w' = puts w ++ [x] /\ written w' = written w ++ [head_ (queue w)] /\ got w' = got w
    | Consumer => puts w !! Z.to_nat (tail_ (queue w)) = Some v /\ got w' = got w ++ [(tail_ (queue w), v)] /\
        puts w' = puts w /\ written w' = written w
    end.
Proof.
  intros Hsz Hg Hq Hn He Hth Hidle Hroom. destruct (new_inv _ _ _ _ _ Hsz Hq Hg) as [Hi0 _].
  destruct (events_inv es 0 (world_new q) Hi0) as (w1 & He1 & Hi & Hs); [cbn [world_new queue]; lia|].
  assert (w1 = w) as -> by congruence. cbn [world_new queue] in Hs. set (n := 0 + Z.of_nat (length es)) in *.
  set (v := match s with Producer => Some x | Consumer => None end).
  destruct (call_solo n w s i v v0 Hi Hth Hidle) as (p & Hso & Hqb); [intros Hp; unfold v; rewrite Hp; by eexists|].
  assert (Hcall : event (call s i x) w = Some (begin s i v w)) by (by destruct s).
  destruct (call_returns s i _ _ n v p 0 (num (other s) (queue w)) _ Hso) as (w' & Hev & Hth' & Hh); [by rewrite Hqb|rewrite Hqb; lia|rewrite Hqb; unfold room; rewrite Hqb, Hs; done|].
  rewrite Hqb, Nat.add_0_r in *. exists w'. unfold outcome, after in Hth', Hh. cbn [events]. rewrite Hcall. cbn [mbind option_bind].
  destruct s; cbn [fst snd outcome option_list next] in *.
  - exists x. unfold v in *. injection Hh as -> -> ->. by split_and!.
  - assert (Hsome : exists y, puts w !! Z.to_nat (tail_ (queue w)) = Some y).
    { apply lookup_lt_is_Some_2. destruct Hi as (Hco & Hst & _). pose proof (store_puts _ Hst).
      pose proof (core_bound _ _ Hco Consumer). simpl in *. lia. }
    destruct Hsome as [y Hy]. rewrite Hy in Hth', Hh. exists y. injection Hh as -> -> ->. by split_and!.
Qed.

(** Client 0 of the producers has stopped inside a call; client 1 still puts. *)
Definition stopped : list (Event nat) := Put 0%nat 10%nat :: replicate 4 (Step Producer 0).

Lemma stopped_state :
  (q ← LockFree_new 2 2 1 (fun n => replicate (Z.to_nat n) 0%nat); w ← events stopped (world_new q);
   Some (q_size_ q, threads w Producer !! 1%nat, threads w Consumer, head_ (queue w), tail_ (queue w), num Consumer (queue w), puts w)) =
  Some (2, Some (mkThread Idle None), [mkThread Idle None], 1, 0, 1%nat, [10%nat]).
Proof. vm_compute. reflexivity. Qed.

Lemma call_returns_alone_witness :
  exists q w w', LockFree_new 2 2 1 (fun n => replicate (Z.to_nat n) 0%nat) = Some q /\
    events stopped (world_new q) = Some w /\
    events (call Producer 1 11%nat :: replicate 12 (Step Producer 1)) w = Some w' /\
    threads w' Producer !! 1%nat = Some (mkThread Idle (Some 11%nat)) /\ puts w' = [10%nat; 11%nat].
Proof.
  pose proof stopped_state as E. destruct (LockFree_new 2 2 1 (fun n => replicate (Z.to_nat n) 0%nat)) as [q|] eqn:Hq; [|done].
  cbn [mbind option_bind] in E. destruct (events stopped (world_new q)) as [w|] eqn:Hw; [|done].
  cbn [mbind option_bind] in E. injection E as Hs Hth Hot Hhd Htl Hnum Hps.
  destruct (call_returns_alone nat 2 2 1 (fun n => replicate (Z.to_nat n) 0%nat) stopped q w Producer 1 None 11%nat ltac:(lia)
    ltac:(intros; apply length_replicate) Hq) as (w' & v & H1 & H2 & -> & H3 & _).
  - cbn [other num]. rewrite Hnum, Hs. unfold stopped. cbn [length replicate]. lia.
  - done.
  - done.
  - cbn [other num]. rewrite Hot. intros j th Hj. apply list_elem_of_lookup_2, list_elem_of_singleton in Hj. by rewrite Hj.
  - cbn [other next num]. rewrite Hhd, Htl, Hs. lia.
  - cbn [other num] in H1. rewrite Hnum in H1. exists q, w, w'. rewrite Hps in H3. by split_and!.
Defined.

(** ** The size *)

(** The loop that rounds the size up to a power of two ends for the sizes up to 2^63,
    with the least power of two that is not smaller; for every larger [size_t] it runs for
    ever. *)
Theorem NextPow2_ends (sz : Z) :
  0 <= sz < 2 ^ 64 ->
  ((exists fuel ret, loop (NextPow2_step sz) fuel 1 = Some ret) <-> sz <= 2 ^ 63) /\
  (sz <= 2 ^ 63 -> exists k, NextPow2 sz = Some (2 ^ k) /\ 0 <= k < 64 /\ sz <= 2 ^ k /\ (k = 0 \/ 2 ^ (k - 1) < sz)).
Proof.
  intros Hsz. split; [|intros Hle; apply NextPow2_spec; lia]. split.
  - intros (fuel & ret & Hl). destruct (Z.le_gt_cases sz (2 ^ 63)) as [|Hgt]; [done|].
    pose proof (NextPow2_runs_on sz fuel 0 Hgt ltac:(lia)) as Hno. change (2 ^ 0) with 1 in Hno. congruence.
  - intros Hle. destruct (NextPow2_spec sz) as (k & Hk & _); [lia|]. by exists 65%nat, (2 ^ k).
Qed.

Lemma NextPow2_ends_witness :
  NextPow2 5 = Some 8 /\ ((exists fuel ret, loop (NextPow2_step (2 ^ 63 + 1)) fuel 1 = Some ret) -> False).
Proof.
  split; [reflexivity|]. destruct (NextPow2_ends (2 ^ 63 + 1) ltac:(lia)) as [[Hf _] _]. intros H. apply Hf in H. lia.
Defined.

End LockFreeProps.
