(* ===== verification/HttpRequest.v ===== *)
(** * HttpRequest: [http/http_request.h] and [http/http_request.cc]

    A request with its header and body going out, and the state machine that takes one
    apart as its bytes arrive.  A [MemoryStream] is here the queue of its bytes, what
    [MemoryStreamSpec.streams_refine_queues] shows it to be; a mark set on it is a copy kept
    aside.  The compressors of [io/zlib] are an interface, [Codec]: a state, and for every
    call what it leaves of its input and what it adds to its output.  Logging and the
    [DCHECK]s, which are off in a release, are left out. *)

From S2P Require Import Prelude.
From S2P Require Import CString.
From S2P Require Import StrUtil.
From S2P Require Import DataBlock.
From S2P Require Import MemoryStream.
From S2P Require Import MemoryStreamSpec.
From S2P Require Import ByteStream.
From S2P Require Import HttpConsts.
From S2P Require Import HttpHeader.

Module HttpRequest.
Import HttpConsts HttpHeader StrUtil.

(** ** Numbers *)

Definition isxdigit (c : byte) : bool := between 48 57 c || between 97 102 c || between 65 70 c.

Definition hex_val (s : bytes) : Z := foldl (fun v c => v * 16 + hexval c) 0 s.

(** [strtol(s, NULL, 16)], and whether it sets [errno]. *)
Definition strtol16 (s : bytes) : Z * bool :=
  let s := drop_while isspace (cstr s) in
  let '(neg, s) :=
    match s with
    | c :: s' => if bool_decide (c = Byte.x2d) then (true, s')
                 else if bool_decide (c = Byte.x2b) then (false, s') else (false, s)
    | [] => (false, s)
    end in
  let s :=
    match s with
    | a :: b :: c :: s' =>
        if bool_decide (a = Byte.x30) && (bool_decide (b = Byte.x78) || bool_decide (b = Byte.x58)) && isxdigit c
        then c :: s' else s
    | _ => s
    end in
  let v := hex_val (take_while isxdigit s) in
  let v := if neg : bool then - v else v in
  if v <? LONG_MIN then (LONG_MIN, true)
  else if LONG_MAX <? v then (LONG_MAX, true)
  else (v, false).

(** [printf("%x", z)] of 32 bits. *)
Fixpoint hex_digits_of (fuel : nat) (z : Z) : bytes :=
  match fuel with
  | O => [hex_digit (z mod 16)]
  | S fuel => if z <? 16 then [hex_digit z] else hex_digits_of fuel (z / 16) ++ [hex_digit (z mod 16)]
  end.

Definition print_hex (z : Z) : bytes := hex_digits_of 7 (uint32 z).

(** ** The compressors *)

Definition Z_OK : Z := 0.
Definition Z_STREAM_END : Z := 1.
Definition kMinGzipDataSize : Z := 18.

(** A call takes the state and the stream to read; it gives what the stream is left with
    and what was appended to the other stream.  [None] is a failed [CHECK]. *)
Class Codec := {
  GzipDecoder : Type;
  GzipDecoder_new : GzipDecoder;
  GzipDecode : GzipDecoder -> bytes -> option (Z * GzipDecoder * bytes * bytes);
  Inflater : Type;
  Inflater_new : Inflater;
  InflateSize : Inflater -> bytes -> option (Z * Inflater * bytes * bytes);
  GzipEncoder : Type;
  GzipEncoder_new : GzipEncoder;
  BeginEncoding : GzipEncoder -> option (GzipEncoder * bytes);
  ContinueEncoding : GzipEncoder -> bytes -> option (GzipEncoder * bytes * bytes);
  EndEncoding : GzipEncoder -> option (GzipEncoder * bytes);
  Deflater : Type;
  Deflater_new : Deflater;
  Deflater_Clear : Deflater -> Deflater;
  DeflateSize : Deflater -> bytes -> Z -> option (bool * Deflater * bytes * bytes * Z);
}.

(** ** The parser *)

Inductive ParseState :=
  | STATE_INITIALIZED | STATE_HEADER_READING | STATE_END_OF_HEADER | STATE_END_OF_HEADER_FINAL
  | STATE_BODY_READING | STATE_BODY_END
  | STATE_CHUNK_HEAD_READING | STATE_CHUNK_READING | STATE_END_OF_CHUNK | STATE_LAST_CHUNK_READ | STATE_END_OF_TRAIL_HEADER
  | ERROR_HEADER_BAD | ERROR_HEADER_BAD_CONTENT_LEN | ERROR_HEADER_TOO_LONG | ERROR_HEADER_LINE
  | ERROR_CONTENT_TOO_LONG | ERROR_TRANSFER_ENCODING_UNKNOWN | ERROR_CONTENT_ENCODING_UNKNOWN
  | ERROR_CONTENT_GZIP_TOO_LONG | ERROR_CONTENT_GZIP_ERROR | ERROR_CONTENT_GZIP_UNFINISHED
  | ERROR_CHUNK_HEADER_TOO_LONG | ERROR_CHUNK_TOO_LONG | ERROR_CHUNK_TOO_MANY | ERROR_CHUNK_TRAIL_HEADER
  | ERROR_CHUNK_BAD_CHUNK_LENGTH | ERROR_CHUNK_BAD_CHUNK_TERMINATION | ERROR_CHUNK_BIGGER_THEN_DECLARED
  | ERROR_CHUNK_UNFINISHED_GZIP_CONTENT | ERROR_CHUNK_CONTINUED_FINISHED_GZIP_CONTENT
  | ERROR_CHUNK_CONTENT_GZIP_TOO_LONG | ERROR_CHUNK_CONTENT_GZIP_ERROR | ERROR_CHUNK_TRAILER_TOO_LONG.

#[export] Instance ParseState_eq_dec : EqDecision ParseState.
Proof. solve_decision. Defined.

Definition state_value (s : ParseState) : Z :=
  match s with
  | STATE_INITIALIZED => 0 | STATE_HEADER_READING => 1 | STATE_END_OF_HEADER => 2 | STATE_END_OF_HEADER_FINAL => 100
  | STATE_BODY_READING => 10 | STATE_BODY_END => 110
  | STATE_CHUNK_HEAD_READING => 21 | STATE_CHUNK_READING => 22 | STATE_END_OF_CHUNK => 23 | STATE_LAST_CHUNK_READ => 24
  | STATE_END_OF_TRAIL_HEADER => 120
  | ERROR_HEADER_BAD => 200 | ERROR_HEADER_BAD_CONTENT_LEN => 201 | ERROR_HEADER_TOO_LONG => 202 | ERROR_HEADER_LINE => 203
  | ERROR_CONTENT_TOO_LONG => 210 | ERROR_TRANSFER_ENCODING_UNKNOWN => 211 | ERROR_CONTENT_ENCODING_UNKNOWN => 212
  | ERROR_CONTENT_GZIP_TOO_LONG => 213 | ERROR_CONTENT_GZIP_ERROR => 214 | ERROR_CONTENT_GZIP_UNFINISHED => 215
  | ERROR_CHUNK_HEADER_TOO_LONG => 220 | ERROR_CHUNK_TOO_LONG => 221 | ERROR_CHUNK_TOO_MANY => 222
  | ERROR_CHUNK_TRAIL_HEADER => 223 | ERROR_CHUNK_BAD_CHUNK_LENGTH => 224 | ERROR_CHUNK_BAD_CHUNK_TERMINATION => 225
  | ERROR_CHUNK_BIGGER_THEN_DECLARED => 226 | ERROR_CHUNK_UNFINISHED_GZIP_CONTENT => 227
  | ERROR_CHUNK_CONTINUED_FINISHED_GZIP_CONTENT => 228 | ERROR_CHUNK_CONTENT_GZIP_TOO_LONG => 229
  | ERROR_CHUNK_CONTENT_GZIP_ERROR => 230 | ERROR_CHUNK_TRAILER_TOO_LONG => 231
  end.

Definition FIRST_FINAL_STATE : Z := 100.
Definition FIRST_ERROR_STATE : Z := 200.

(** The bits of an answer. *)
Definition HEADER_READ : Z := 1.
Definition BODY_READING : Z := 2.
Definition CHUNKED_BODY_READING : Z := 4.
Definition CHUNKED_TRAILER_READING : Z := 8.
Definition BODY_FINISHED : Z := 16.
Definition CHUNKS_FINISHED : Z := 32.
Definition REQUEST_FINISHED : Z := 64.
Definition CONTINUE : Z := 128.

Notation "a '.|' b" := (Z.lor a b) (at level 52, left associativity).

Inductive NextChunkExpectation := EXPECT_CHUNK_NONE | EXPECT_CHUNK_EMPTY | EXPECT_CHUNK_NON_EMPTY.

#[export] Instance NextChunkExpectation_eq_dec : EqDecision NextChunkExpectation.
Proof. solve_decision. Defined.

(** What the constructor and the two setters of the parser fix. *)
Record Limits := mkLimits {
  max_header_size_ : Z; max_body_size_ : Z; max_chunk_size_ : Z; max_num_chunks_ : Z;
  accept_wrong_method_ : bool; accept_wrong_version_ : bool; accept_no_content_length_ : bool;
  worst_accepted_header_error_ : ParseError }.

Definition set_max_num_chunks (x : Z) (l : Limits) : Limits :=
  mkLimits (max_header_size_ l) (max_body_size_ l) (max_chunk_size_ l) x (accept_wrong_method_ l)
    (accept_wrong_version_ l) (accept_no_content_length_ l) (worst_accepted_header_error_ l).
Definition set_max_body_size (x : Z) (l : Limits) : Limits :=
  mkLimits (max_header_size_ l) x (max_chunk_size_ l) (max_num_chunks_ l) (accept_wrong_method_ l)
    (accept_wrong_version_ l) (accept_no_content_length_ l) (worst_accepted_header_error_ l).

Section Codec.
Context `{Codec}.

Record RequestParser := mkParser {
  limits : Limits;
  parse_state_ : ParseState;
  body_size_to_read_ : Z;
  chunk_size_to_read_ : Z;
  num_chunks_read_ : Z;
  next_chunk_expectation_ : NextChunkExpectation;
  partial_data_ : bytes;
  trail_header_ : Header;
  inflate_zwrapper_ : option Inflater;
  gzip_zwrapper_ : option GzipDecoder }.

(** The payload parser works on the parser, the incoming stream, the header of the message
    and the stream for its body. *)
Record Parsing := mkParsing { parser : RequestParser; inp : bytes; header : Header; out : bytes }.

Definition on_parser (f : RequestParser -> RequestParser) (x : Parsing) : Parsing :=
  mkParsing (f (parser x)) (inp x) (header x) (out x).
Definition set_inp (i : bytes) (x : Parsing) : Parsing := mkParsing (parser x) i (header x) (out x).
Definition set_header (h : Header) (x : Parsing) : Parsing := mkParsing (parser x) (inp x) h (out x).
Definition append_out (o : bytes) (x : Parsing) : Parsing := mkParsing (parser x) (inp x) (header x) (out x ++ o).

Definition with_parse_state (s : ParseState) (p : RequestParser) : RequestParser :=
  mkParser (limits p) s (body_size_to_read_ p) (chunk_size_to_read_ p) (num_chunks_read_ p) (next_chunk_expectation_ p)
    (partial_data_ p) (trail_header_ p) (inflate_zwrapper_ p) (gzip_zwrapper_ p).
Definition with_body_size_to_read (n : Z) (p : RequestParser) : RequestParser :=
  mkParser (limits p) (parse_state_ p) n (chunk_size_to_read_ p) (num_chunks_read_ p) (next_chunk_expectation_ p)
    (partial_data_ p) (trail_header_ p) (inflate_zwrapper_ p) (gzip_zwrapper_ p).
Definition with_chunk_size_to_read (n : Z) (p : RequestParser) : RequestParser :=
  mkParser (limits p) (parse_state_ p) (body_size_to_read_ p) n (num_chunks_read_ p) (next_chunk_expectation_ p)
    (partial_data_ p) (trail_header_ p) (inflate_zwrapper_ p) (gzip_zwrapper_ p).
Definition with_num_chunks_read (n : Z) (p : RequestParser) : RequestParser :=
  mkParser (limits p) (parse_state_ p) (body_size_to_read_ p) (chunk_size_to_read_ p) n (next_chunk_expectation_ p)
    (partial_data_ p) (trail_header_ p) (inflate_zwrapper_ p) (gzip_zwrapper_ p).
Definition with_next_chunk_expectation (e : NextChunkExpectation) (p : RequestParser) : RequestParser :=
  mkParser (limits p) (parse_state_ p) (body_size_to_read_ p) (chunk_size_to_read_ p) (num_chunks_read_ p) e
    (partial_data_ p) (trail_header_ p) (inflate_zwrapper_ p) (gzip_zwrapper_ p).
Definition with_partial_data (b : bytes) (p : RequestParser) : RequestParser :=
  mkParser (limits p) (parse_state_ p) (body_size_to_read_ p) (chunk_size_to_read_ p) (num_chunks_read_ p)
    (next_chunk_expectation_ p) b (trail_header_ p) (inflate_zwrapper_ p) (gzip_zwrapper_ p).
Definition with_trail_header (h : Header) (p : RequestParser) : RequestParser :=
  mkParser (limits p) (parse_state_ p) (body_size_to_read_ p) (chunk_size_to_read_ p) (num_chunks_read_ p)
    (next_chunk_expectation_ p) (partial_data_ p) h (inflate_zwrapper_ p) (gzip_zwrapper_ p).
Definition with_inflater (i : option Inflater) (p : RequestParser) : RequestParser :=
  mkParser (limits p) (parse_state_ p) (body_size_to_read_ p) (chunk_size_to_read_ p) (num_chunks_read_ p)
    (next_chunk_expectation_ p) (partial_data_ p) (trail_header_ p) i (gzip_zwrapper_ p).
Definition with_gzip (g : option GzipDecoder) (p : RequestParser) : RequestParser :=
  mkParser (limits p) (parse_state_ p) (body_size_to_read_ p) (chunk_size_to_read_ p) (num_chunks_read_ p)
    (next_chunk_expectation_ p) (partial_data_ p) (trail_header_ p) (inflate_zwrapper_ p) g.

Definition set_parse_state (s : ParseState) : Parsing -> Parsing := on_parser (with_parse_state s).

Definition InFinalState (p : RequestParser) : bool := FIRST_FINAL_STATE <=? state_value (parse_state_ p).
Definition InErrorState (p : RequestParser) : bool := FIRST_ERROR_STATE <=? state_value (parse_state_ p).

Definition Parser_new (l : Limits) : RequestParser :=
  mkParser l STATE_INITIALIZED 0 0 0 EXPECT_CHUNK_NONE [] (Header_new true) None None.

Definition Clear (p : RequestParser) : RequestParser :=
  mkParser (limits p) STATE_INITIALIZED 0 0 0 EXPECT_CHUNK_NONE [] (HttpHeader.Clear (trail_header_ p)) None None.

(** ** Encodings *)

Definition kIdentity : bytes := bstr "identity".

Definition IsKnownEncoding (field : bytes) (known : list bytes) (h : Header) : option bool :=
  match fields_ h !! field with
  | None => Some true
  | Some s =>
      s_trim ← StrTrim s;
      Some (bool_decide (s_trim = []) || existsb (StrCasePrefix (cstr s_trim)) known)
  end.

Definition IsKnownContentEncoding : Header -> option bool := IsKnownEncoding kHeaderContentEncoding [kGzip; kDeflate; kIdentity].
Definition IsKnownTransferEncoding : Header -> option bool := IsKnownEncoding kHeaderTransferEncoding [kChunked; kIdentity].

(** ** Reading a body

    [AppendStreamNonDestructive] and [Skip]: [n] bytes go to [partial_data_]. *)
Definition take_partial (n : Z) (x : Parsing) : Parsing :=
  on_parser (fun p => with_partial_data (partial_data_ p ++ takeZ n (inp x)) p) (set_inp (dropZ n (inp x)) x).

(** The decoders that the header asks for, gzip and deflate; a body that turned out to be
    deflated goes on so. *)
Definition content_decoders (x : Parsing) : option (bool * bool) :=
  is_gzipped ← IsGzipContentEncoding (header x);
  is_deflated ← IsDeflateContentEncoding (header x);
  Some (if bool_decide (inflate_zwrapper_ (parser x) <> None) && is_gzipped then (false, true) else (is_gzipped, is_deflated)).

(** A call of the gzip decoder on [partial_data_]: its error, what it consumed and gave,
    and the state with the rest. *)
Definition decode_partial (x : Parsing) : option (Z * Z * bytes * Parsing) :=
  d ← gzip_zwrapper_ (parser x);
  let initial := partial_data_ (parser x) in
  '(zerr, d, rest, tmp) ← GzipDecode d initial;
  Some (zerr, zlen initial - zlen rest, tmp, on_parser (fun p => with_gzip (Some d) (with_partial_data rest p)) x).

Definition new_gzip (x : Parsing) : Parsing :=
  match gzip_zwrapper_ (parser x) with
  | None => on_parser (with_gzip (Some GzipDecoder_new)) x
  | Some _ => x
  end.

(** The condition of the loop around the decoder. *)
Definition more_to_decode (consumed_size : Z) (x : Parsing) : bool :=
  (0 <? consumed_size) && negb (bool_decide (partial_data_ (parser x) = [])).

(** Leaving a loop: with an answer, or on to the code below with [is_deflated]. *)
Definition Exit : Type := (Z + bool) * Parsing.

Definition again (consumed_size : Z) (x : Parsing) : Parsing + Exit :=
  if more_to_decode consumed_size x then inl x else inr (inr false, x).

Definition body_gzip_step (maybe_try_deflate : bool) (x : Parsing) : option (Parsing + Exit) :=
  '(zerr, consumed_size, tmp, y) ← decode_partial x;
  if zerr =? Z_STREAM_END then
    let y := append_out tmp y in
    if (body_size_to_read_ (parser y) =? 0) && bool_decide (partial_data_ (parser y) = []) then
      Some (inr (inl (HEADER_READ .| BODY_FINISHED .| REQUEST_FINISHED), set_parse_state STATE_BODY_END y))
    else Some (again consumed_size y)
  else if negb (zerr =? Z_OK) then
    if negb maybe_try_deflate then Some (inr (inl (HEADER_READ .| BODY_READING .| REQUEST_FINISHED), y))
    else Some (inr (inr true, on_parser (with_partial_data (partial_data_ (parser x))) y))
  else
    let y := append_out tmp y in
    if body_size_to_read_ (parser y) =? 0 then
      Some (inr (inl (HEADER_READ .| BODY_FINISHED .| REQUEST_FINISHED), set_parse_state ERROR_CONTENT_GZIP_UNFINISHED y))
    else Some (again consumed_size y).

(** The loop of the gzip decoder: each time around it has consumed something. *)
Definition decode_fuel (x : Parsing) : nat := S (length (partial_data_ (parser x))).

Definition gzip_content (step : bool -> Parsing -> option (Parsing + Exit)) (x : Parsing) : option Exit :=
  let maybe_try_deflate := bool_decide (gzip_zwrapper_ (parser x) = None) in
  let x := new_gzip x in
  loop (step maybe_try_deflate) (decode_fuel x) x.

(** A call of the inflater on [partial_data_], with its output appended. *)
Definition inflate_content (x : Parsing) : option (Z * Parsing) :=
  let d := default Inflater_new (inflate_zwrapper_ (parser x)) in
  '(zerr, d, rest, tmp) ← InflateSize d (partial_data_ (parser x));
  Some (zerr, append_out tmp (on_parser (fun p => with_inflater (Some d) (with_partial_data rest p)) x)).

Definition deflated_body (x : Parsing) : option (Z * Parsing) :=
  '(zerr, x) ← inflate_content x;
  if zerr =? Z_STREAM_END then
    if 0 <? body_size_to_read_ (parser x) then
      Some (HEADER_READ .| BODY_READING .| REQUEST_FINISHED, set_parse_state ERROR_CONTENT_GZIP_TOO_LONG x)
    else Some (HEADER_READ .| BODY_FINISHED .| REQUEST_FINISHED, set_parse_state STATE_BODY_END x)
  else if negb (zerr =? Z_OK) then
    Some (HEADER_READ .| BODY_READING .| REQUEST_FINISHED, set_parse_state ERROR_CONTENT_GZIP_ERROR x)
  else Some (HEADER_READ .| BODY_READING, x).

(** [out->AppendStream(&partial_data_)] *)
Definition flush_partial (x : Parsing) : Parsing :=
  on_parser (with_partial_data []) (append_out (partial_data_ (parser x)) x).

Definition identity_body (x : Parsing) : Z * Parsing :=
  let x := flush_partial x in
  if body_size_to_read_ (parser x) =? 0 then
    (HEADER_READ .| BODY_FINISHED .| REQUEST_FINISHED, set_parse_state STATE_BODY_END x)
  else (HEADER_READ .| BODY_READING, x).

Definition ParseBodyInternal (x : Parsing) : option (Z * Parsing) :=
  _ ← CHECK (bool_decide (parse_state_ (parser x) = STATE_BODY_READING));
  let max := max_body_size_ (limits (parser x)) in
  if (0 <=? max) && (max <? body_size_to_read_ (parser x)) then
    Some (HEADER_READ .| REQUEST_FINISHED, set_parse_state ERROR_CONTENT_TOO_LONG x)
  else
    let to_read := Z.min (body_size_to_read_ (parser x)) (zlen (inp x)) in
    let x := take_partial to_read x in
    let x := on_parser (fun p => with_body_size_to_read (body_size_to_read_ p - to_read) p) x in
    '(is_gzipped, is_deflated) ← content_decoders x;
    '(r, x) ←
      (if is_gzipped : bool then
         _ ← CHECK (negb is_deflated);
         gzip_content body_gzip_step x
       else Some (inr is_deflated, x));
    match r with
    | inl code => Some (code, x)
    | inr true => deflated_body x
    | inr false => Some (if is_gzipped : bool then (HEADER_READ .| BODY_READING, x) else identity_body x)
    end.

(** ** Reading chunks *)

Definition refuse (bits : Z) (error : ParseState) (x : Parsing) : Z * Parsing :=
  (HEADER_READ .| bits .| REQUEST_FINISHED, set_parse_state error x).

Definition ReadLine (x : Parsing) : Parsing * option bytes :=
  let r := crlf_line (inp x) in
  (set_inp (dropZ (zlen (default [] r)) (inp x)) x, cut_crlf <$> r).

Definition expect_chunk (e : NextChunkExpectation) : Parsing -> Parsing := on_parser (with_next_chunk_expectation e).

(** [STATE_CHUNK_HEAD_READING] *)
Definition read_chunk_head (x : Parsing) : Parsing + Z * Parsing :=
  let '(x, r) := ReadLine x in
  let l := limits (parser x) in
  match r with
  | None =>
      if max_header_size_ l <? zlen (inp x) then inr (refuse CHUNKED_BODY_READING ERROR_CHUNK_HEADER_TOO_LONG x)
      else inr (HEADER_READ .| CHUNKED_BODY_READING, x)
  | Some line =>
      let '(chunk_length, errno) := strtol16 line in
      if errno || (chunk_length <? 0) then inr (refuse CHUNKED_BODY_READING ERROR_CHUNK_BAD_CHUNK_LENGTH x)
      else if chunk_length =? 0 then
        if bool_decide (next_chunk_expectation_ (parser x) = EXPECT_CHUNK_NON_EMPTY) then
          inr (refuse CHUNKED_BODY_READING ERROR_CHUNK_UNFINISHED_GZIP_CONTENT x)
        else inl (set_parse_state STATE_LAST_CHUNK_READ (expect_chunk EXPECT_CHUNK_NONE x))
      else if bool_decide (next_chunk_expectation_ (parser x) = EXPECT_CHUNK_EMPTY) then
        inr (refuse CHUNKED_BODY_READING ERROR_CHUNK_CONTINUED_FINISHED_GZIP_CONTENT x)
      else if max_chunk_size_ l <? chunk_length then inr (refuse CHUNKED_BODY_READING ERROR_CHUNK_TOO_LONG x)
      else
        let x := on_parser (fun p => with_num_chunks_read (num_chunks_read_ p + 1) p) (expect_chunk EXPECT_CHUNK_NONE x) in
        if (0 <=? max_num_chunks_ l) && (max_num_chunks_ l <? num_chunks_read_ (parser x)) then
          inr (refuse CHUNKED_BODY_READING ERROR_CHUNK_TOO_MANY x)
        else inl (set_parse_state STATE_CHUNK_READING (on_parser (with_chunk_size_to_read chunk_length) x))
  end.

(** [STATE_END_OF_CHUNK] *)
Definition read_chunk_end (x : Parsing) : Parsing + Z * Parsing :=
  let '(x, r) := ReadLine x in
  match r with
  | None =>
      if 2 <? zlen (inp x) then inr (refuse CHUNKED_BODY_READING ERROR_CHUNK_BAD_CHUNK_TERMINATION x)
      else inr (HEADER_READ .| CHUNKED_BODY_READING, x)
  | Some line =>
      if bool_decide (line = []) then inl (set_parse_state STATE_CHUNK_HEAD_READING x)
      else inr (refuse CHUNKED_BODY_READING ERROR_CHUNK_BIGGER_THEN_DECLARED x)
  end.

(** A piece of a chunk in gzip. *)
Definition chunk_gzip_step (maybe_try_deflate : bool) (x : Parsing) : option (Parsing + Exit) :=
  '(zerr, consumed_size, tmp, y) ← decode_partial x;
  if zerr =? Z_STREAM_END then Some (again consumed_size (append_out tmp y))
  else if negb (zerr =? Z_OK) then
    if negb maybe_try_deflate then
      Some (inr (inl (HEADER_READ .| CHUNKED_BODY_READING .| REQUEST_FINISHED), set_parse_state ERROR_CHUNK_CONTENT_GZIP_ERROR y))
    else Some (inr (inr true, on_parser (with_partial_data (partial_data_ (parser x))) y))
  else
    let y := append_out tmp y in
    Some (again consumed_size (if chunk_size_to_read_ (parser y) =? 0 then expect_chunk EXPECT_CHUNK_NON_EMPTY y else y)).

Definition deflated_chunk (x : Parsing) : option (Parsing + Z * Parsing) :=
  '(zerr, x) ← inflate_content x;
  if zerr =? Z_STREAM_END then
    if 0 <? chunk_size_to_read_ (parser x) then
      Some (inr (refuse CHUNKED_BODY_READING ERROR_CHUNK_CONTENT_GZIP_TOO_LONG x))
    else Some (inl (expect_chunk EXPECT_CHUNK_EMPTY x))
  else if negb (zerr =? Z_OK) then Some (inr (refuse CHUNKED_BODY_READING ERROR_CHUNK_CONTENT_GZIP_ERROR x))
  else Some (inl (if chunk_size_to_read_ (parser x) =? 0 then expect_chunk EXPECT_CHUNK_NON_EMPTY x else x)).

(** [STATE_CHUNK_READING] *)
Definition read_chunk_data (x : Parsing) : option (Parsing + Z * Parsing) :=
  if bool_decide (inp x = []) then Some (inr (HEADER_READ .| CHUNKED_BODY_READING, x))
  else
    let to_read := Z.min (chunk_size_to_read_ (parser x)) (zlen (inp x)) in
    let x := take_partial to_read x in
    '(is_gzipped, is_deflated) ← content_decoders x;
    let x := on_parser (fun p => with_chunk_size_to_read (chunk_size_to_read_ p - to_read) p) x in
    let x := if chunk_size_to_read_ (parser x) =? 0 then set_parse_state STATE_END_OF_CHUNK x else x in
    if is_gzipped : bool then
      _ ← CHECK (negb is_deflated);
      if zlen (partial_data_ (parser x)) <? kMinGzipDataSize then
        if kMinGzipDataSize <? zlen (inp x) then Some (inl x)
        else Some (inr (HEADER_READ .| BODY_READING, x))
      else
        '(r, x) ← gzip_content chunk_gzip_step x;
        match r with
        | inl code => Some (inr (code, x))
        | inr true => deflated_chunk x
        | inr false => Some (inl x)
        end
    else if is_deflated : bool then deflated_chunk x
    else Some (inl (flush_partial x)).

Definition ParseTrailHeader (x : Parsing) : option (Z * Parsing) :=
  _ ← CHECK (bool_decide (parse_state_ (parser x) = STATE_LAST_CHUNK_READ));
  '(trail_header, io, done) ← ReadHeaderFields (trail_header_ (parser x)) (inp x);
  let x := on_parser (with_trail_header trail_header) (set_inp io x) in
  let l := limits (parser x) in
  if negb done then
    if max_header_size_ l <? bytes_parsed_ trail_header + zlen (inp x) then
      Some (refuse CHUNKED_TRAILER_READING ERROR_CHUNK_TRAILER_TOO_LONG x)
    else Some (HEADER_READ .| CHUNKED_TRAILER_READING, x)
  else if severity (worst_accepted_header_error_ l) <? severity (parse_error_ trail_header) then
    Some (refuse CHUNKED_TRAILER_READING ERROR_CHUNK_TRAIL_HEADER x)
  else
    '(h, _) ← CopyHeaderFields (header x) trail_header false;
    Some (HEADER_READ .| CHUNKS_FINISHED .| REQUEST_FINISHED, set_parse_state STATE_END_OF_TRAIL_HEADER (set_header h x)).

Definition ParseChunksInternal_step (x : Parsing) : option (Parsing + Z * Parsing) :=
  match parse_state_ (parser x) with
  | STATE_CHUNK_HEAD_READING => Some (read_chunk_head x)
  | STATE_END_OF_CHUNK => Some (read_chunk_end x)
  | STATE_CHUNK_READING => read_chunk_data x
  | STATE_LAST_CHUNK_READ => r ← ParseTrailHeader x; Some (inr r)
  | _ => None
  end.

(** Every time around takes something from the stream. *)
Definition ParseChunksInternal (x : Parsing) : option (Z * Parsing) :=
  loop ParseChunksInternal_step (S (S (length (inp x)))) x.

(** ** The message *)

Definition ParsePayloadInternal (x : Parsing) : option (Z * Parsing) :=
  _ ← CHECK (state_value STATE_END_OF_HEADER <=? state_value (parse_state_ (parser x)));
  r ←
    (if negb (bool_decide (parse_state_ (parser x) = STATE_END_OF_HEADER)) then Some (inl x)
     else
       known ← IsKnownContentEncoding (header x);
       if negb known then Some (inr (HEADER_READ .| REQUEST_FINISHED, set_parse_state ERROR_CONTENT_ENCODING_UNKNOWN x))
       else
         known ← IsKnownTransferEncoding (header x);
         if negb known then Some (inr (HEADER_READ .| REQUEST_FINISHED, set_parse_state ERROR_TRANSFER_ENCODING_UNKNOWN x))
         else
           chunked ← IsChunkedTransfer (header x);
           if chunked : bool then Some (inl (set_parse_state STATE_CHUNK_HEAD_READING x))
           else
             let l := limits (parser x) in
             match fields_ (header x) !! kHeaderContentLength with
             | None =>
                 let n := DefaultBodyLen (header x) in
                 let x := on_parser (with_body_size_to_read n) x in
                 if negb (accept_no_content_length_ l) && (0 <? n) then
                   Some (inr (HEADER_READ .| REQUEST_FINISHED, set_parse_state STATE_END_OF_HEADER_FINAL x))
                 else
                   let x := if (0 <=? max_body_size_ l) && (max_body_size_ l <? n)
                            then on_parser (with_body_size_to_read (max_body_size_ l)) x else x in
                   Some (inl (set_parse_state STATE_BODY_READING x))
             | Some content_length_str =>
                 let '(content_length, errno) := strtol content_length_str in
                 if errno || (content_length <? 0) then
                   Some (inr (HEADER_READ .| REQUEST_FINISHED, set_parse_state ERROR_HEADER_BAD_CONTENT_LEN x))
                 else
                   Some (inl (set_parse_state STATE_BODY_READING (on_parser (with_body_size_to_read content_length) x)))
             end);
  match r with
  | inr r => Some r
  | inl x =>
      if bool_decide (parse_state_ (parser x) = STATE_BODY_READING) then ParseBodyInternal x
      else
        _ ← CHECK (state_value STATE_CHUNK_HEAD_READING <=? state_value (parse_state_ (parser x)));
        ParseChunksInternal x
  end.

(** ** A request *)

Inductive CompressOption := COMPRESS_NONE | COMPRESS_GZIP | COMPRESS_DEFLATE.

#[export] Instance CompressOption_eq_dec : EqDecision CompressOption.
Proof. solve_decision. Defined.

Record RequestStats := mkStats { client_size_ : Z; server_size_ : Z; client_raw_size_ : Z; server_raw_size_ : Z }.

Record Request := mkRequest {
  client_data_ : bytes; client_header_ : Header; server_data_ : bytes; server_header_ : Header;
  in_chunk_encoding_ : bool; deflate_encoder_ : option Deflater; gzip_state_begin_ : bool; gzip_encoder_ : option GzipEncoder;
  server_use_gzip_encoding_ : bool; server_gzip_drain_buffer_ : bool; compress_option_ : CompressOption; stats_ : RequestStats }.

Definition Request_new (strict_headers : bool) : Request :=
  mkRequest [] (Header_new strict_headers) [] (Header_new strict_headers) false None true None true true COMPRESS_NONE (mkStats 0 0 0 0).

Definition with_client_data (b : bytes) (r : Request) : Request :=
  mkRequest b (client_header_ r) (server_data_ r) (server_header_ r) (in_chunk_encoding_ r) (deflate_encoder_ r)
    (gzip_state_begin_ r) (gzip_encoder_ r) (server_use_gzip_encoding_ r) (server_gzip_drain_buffer_ r) (compress_option_ r) (stats_ r).
Definition with_client_header (h : Header) (r : Request) : Request :=
  mkRequest (client_data_ r) h (server_data_ r) (server_header_ r) (in_chunk_encoding_ r) (deflate_encoder_ r)
    (gzip_state_begin_ r) (gzip_encoder_ r) (server_use_gzip_encoding_ r) (server_gzip_drain_buffer_ r) (compress_option_ r) (stats_ r).
Definition with_server_data (b : bytes) (r : Request) : Request :=
  mkRequest (client_data_ r) (client_header_ r) b (server_header_ r) (in_chunk_encoding_ r) (deflate_encoder_ r)
    (gzip_state_begin_ r) (gzip_encoder_ r) (server_use_gzip_encoding_ r) (server_gzip_drain_buffer_ r) (compress_option_ r) (stats_ r).
Definition with_server_header (h : Header) (r : Request) : Request :=
  mkRequest (client_data_ r) (client_header_ r) (server_data_ r) h (in_chunk_encoding_ r) (deflate_encoder_ r)
    (gzip_state_begin_ r) (gzip_encoder_ r) (server_use_gzip_encoding_ r) (server_gzip_drain_buffer_ r) (compress_option_ r) (stats_ r).
Definition with_in_chunk_encoding (b : bool) (r : Request) : Request :=
  mkRequest (client_data_ r) (client_header_ r) (server_data_ r) (server_header_ r) b (deflate_encoder_ r)
    (gzip_state_begin_ r) (gzip_encoder_ r) (server_use_gzip_encoding_ r) (server_gzip_drain_buffer_ r) (compress_option_ r) (stats_ r).
Definition with_deflate_encoder (d : option Deflater) (r : Request) : Request :=
  mkRequest (client_data_ r) (client_header_ r) (server_data_ r) (server_header_ r) (in_chunk_encoding_ r) d
    (gzip_state_begin_ r) (gzip_encoder_ r) (server_use_gzip_encoding_ r) (server_gzip_drain_buffer_ r) (compress_option_ r) (stats_ r).
Definition with_gzip_encoder (b : bool) (g : option GzipEncoder) (r : Request) : Request :=
  mkRequest (client_data_ r) (client_header_ r) (server_data_ r) (server_header_ r) (in_chunk_encoding_ r) (deflate_encoder_ r)
    b g (server_use_gzip_encoding_ r) (server_gzip_drain_buffer_ r) (compress_option_ r) (stats_ r).
Definition set_server_use_gzip_encoding (use_gzip_encoding gzip_drain_buffer : bool) (r : Request) : Request :=
  mkRequest (client_data_ r) (client_header_ r) (server_data_ r) (server_header_ r) (in_chunk_encoding_ r) (deflate_encoder_ r)
    (gzip_state_begin_ r) (gzip_encoder_ r) use_gzip_encoding gzip_drain_buffer (compress_option_ r) (stats_ r).
Definition with_compress_option (c : CompressOption) (r : Request) : Request :=
  mkRequest (client_data_ r) (client_header_ r) (server_data_ r) (server_header_ r) (in_chunk_encoding_ r) (deflate_encoder_ r)
    (gzip_state_begin_ r) (gzip_encoder_ r) (server_use_gzip_encoding_ r) (server_gzip_drain_buffer_ r) c (stats_ r).
Definition with_stats (s : RequestStats) (r : Request) : Request :=
  mkRequest (client_data_ r) (client_header_ r) (server_data_ r) (server_header_ r) (in_chunk_encoding_ r) (deflate_encoder_ r)
    (gzip_state_begin_ r) (gzip_encoder_ r) (server_use_gzip_encoding_ r) (server_gzip_drain_buffer_ r) (compress_option_ r) s.

Definition NoServerBodyTransmitted (r : Request) : bool :=
  let code := status_code_ (server_header_ r) in
  bool_decide (method_ (client_header_ r) = METHOD_HEAD) || ((100 <=? code) && (code <? 200)) || (code =? 204) || (code =? 304).

(** ** Parsing a message *)


Definition ParseClientRequest (p : RequestParser) (io : bytes) (req : Request) : option (Z * RequestParser * bytes * Request) :=
  _ ← CHECK (negb (InFinalState p));
  let '(p, req) :=
    if bool_decide (parse_state_ p = STATE_INITIALIZED) then
      (with_parse_state STATE_HEADER_READING p,
       with_client_header (HttpHeader.Clear (client_header_ req)) (with_client_data [] req))
    else (p, req) in
  if bool_decide (parse_state_ p = STATE_HEADER_READING) then
    '(h, io, done) ← ParseHttpRequest (client_header_ req) io;
    let req := with_client_header h req in
    let l := limits p in
    if negb done then
      if max_header_size_ l <? zlen io + bytes_parsed_ h then
        Some (REQUEST_FINISHED, with_parse_state ERROR_HEADER_TOO_LONG p, io, req)
      else Some (0, p, io, with_server_header (with_first_line_type REQUEST_LINE (server_header_ req)) req)
    else if max_header_size_ l <? bytes_parsed_ h then
      Some (REQUEST_FINISHED, with_parse_state ERROR_HEADER_TOO_LONG p, io, req)
    else if (bool_decide (http_version_ h = VERSION_UNKNOWN) && negb (accept_wrong_version_ l)) ||
            (bool_decide (method_ h = METHOD_UNKNOWN) && negb (accept_wrong_method_ l)) then
      Some (HEADER_READ .| REQUEST_FINISHED, with_parse_state ERROR_HEADER_LINE p, io, req)
    else if severity (worst_accepted_header_error_ l) <? severity (parse_error_ h) then
      Some (HEADER_READ .| REQUEST_FINISHED, with_parse_state ERROR_HEADER_BAD p, io, req)
    else Some (HEADER_READ .| CONTINUE, with_parse_state STATE_END_OF_HEADER p, io, req)
  else
    '(code, x) ← ParsePayloadInternal (mkParsing p io (client_header_ req) (client_data_ req));
    Some (code, parser x, inp x, with_client_data (out x) (with_client_header (header x) req)).

Definition ParseServerReply (p : RequestParser) (io : bytes) (req : Request) : option (Z * RequestParser * bytes * Request) :=
  _ ← CHECK (negb (InFinalState p));
  let '(p, req) :=
    if bool_decide (parse_state_ p = STATE_INITIALIZED) then
      (with_parse_state STATE_HEADER_READING p,
       with_server_header (HttpHeader.Clear (server_header_ req)) (with_server_data [] req))
    else (p, req) in
  if bool_decide (parse_state_ p = STATE_HEADER_READING) then
    '(h, io, done) ← ParseHttpReply (server_header_ req) io;
    let req := with_server_header h req in
    let l := limits p in
    if negb done then
      if max_header_size_ l <? zlen io + bytes_parsed_ h then
        Some (REQUEST_FINISHED, with_parse_state ERROR_HEADER_TOO_LONG p, io, req)
      else Some (0, p, io, with_server_header (with_first_line_type STATUS_LINE h) req)
    else if max_header_size_ l <? bytes_parsed_ h then
      Some (REQUEST_FINISHED, with_parse_state ERROR_HEADER_TOO_LONG p, io, req)
    else if severity (worst_accepted_header_error_ l) <? severity (parse_error_ h) then
      Some (HEADER_READ .| REQUEST_FINISHED, with_parse_state ERROR_HEADER_BAD p, io, req)
    else if NoServerBodyTransmitted req then
      Some (HEADER_READ .| REQUEST_FINISHED, with_parse_state STATE_END_OF_HEADER_FINAL p, io, req)
    else Some (HEADER_READ .| CONTINUE, with_parse_state STATE_END_OF_HEADER p, io, req)
  else
    '(code, x) ← ParsePayloadInternal (mkParsing p io (server_header_ req) (server_data_ req));
    Some (code, parser x, inp x, with_server_data (out x) (with_server_header (header x) req)).

(** ** Chunks going out *)

Definition kMaxInt32 : Z := 2 ^ 31 - 1.
Definition kHeaderAcceptEncoding : bytes := bstr "Accept-Encoding".

(** One chunk of at most [max_size] bytes: the stream it is taken from and what is written. *)
Definition BufferAppendChunk (data : bytes) (add_decorations : bool) (max_size : Z) : bytes * bytes :=
  let size := Z.min max_size (zlen data) in
  (dropZ size data,
   (if add_decorations then [Byte.x30] ++ print_hex size ++ CRLF else []) ++ takeZ size data ++
   (if add_decorations then CRLF else [])).

Definition BufferAppendChunks_step (add_decorations : bool) (max_size : Z) (x : bytes * bytes) : option (bytes * bytes + bytes) :=
  let '(data, out) := x in
  if bool_decide (data = []) then Some (inr out)
  else let '(data, w) := BufferAppendChunk data add_decorations max_size in Some (inl (data, out ++ w)).

(** [while (!data->IsEmpty()) BufferAppendChunk(..)] *)
Definition BufferAppendChunks (data : bytes) (add_decorations : bool) (max_chunk_size : Z) : option bytes :=
  let max_chunk_size := if max_chunk_size <=? 0 then kMaxInt32 else max_chunk_size in
  loop (BufferAppendChunks_step add_decorations (size_t max_chunk_size)) (S (length data)) (data, []).

(** [out->Write("0\r\n\r\n")] *)
Definition last_chunk (add_decorations : bool) : bytes := if add_decorations then [Byte.x30] ++ CRLF ++ CRLF else [].

(** What is compressed of the data, with the encoder that the request has: the request, the
    data left and the output. *)
Definition compress_chunk (src_data : bytes) (is_empty : bool) (r : Request) : option (Request * bytes * bytes) :=
  match compress_option_ r with
  | COMPRESS_GZIP =>
      e ← gzip_encoder_ r;
      '(e, start) ← (if gzip_state_begin_ r then BeginEncoding e else Some (e, []));
      '(e, rest, body) ← ContinueEncoding e src_data;
      if is_empty || server_gzip_drain_buffer_ r then
        '(e, trailer) ← EndEncoding e;
        Some (with_gzip_encoder true (Some e) r, rest, start ++ body ++ trailer)
      else Some (with_gzip_encoder false (Some e) r, rest, start ++ body)
  | _ =>
      d ← deflate_encoder_ r;
      let size := if is_empty then zlen src_data else zlen src_data + 1 in
      '(_, d, rest, body, size) ← DeflateSize d src_data size;
      _ ← CHECK ((size =? 1) || ((size =? 0) && is_empty));
      Some (with_deflate_encoder (Some d) r, rest, body)
  end.

(** The request, the data left, what is written and the answer. *)
Definition AppendChunkHelper (src_data : bytes) (add_decorations : bool) (max_chunk_size : Z) (r : Request)
    : option (Request * bytes * bytes * bool) :=
  let is_empty := bool_decide (src_data = []) in
  if negb (bool_decide (compress_option_ r = COMPRESS_NONE)) then
    '(r, src_data, tmp) ← compress_chunk src_data is_empty r;
    if bool_decide (tmp = []) then
      if is_empty then Some (with_in_chunk_encoding false r, src_data, last_chunk add_decorations, true)
      else Some (r, src_data, [], false)
    else
      chunks ← BufferAppendChunks tmp add_decorations max_chunk_size;
      if is_empty then Some (with_in_chunk_encoding false r, src_data, chunks ++ last_chunk add_decorations, true)
      else Some (r, src_data, chunks, false)
  else if is_empty then Some (with_in_chunk_encoding false r, src_data, last_chunk add_decorations, true)
  else
    chunks ← BufferAppendChunks src_data add_decorations max_chunk_size;
    Some (r, [], chunks, false).

Definition at_least (v w : HttpVersion) : bool := version_value w <=? version_value v.

Definition AppendClientChunk (max_chunk_size : Z) (r : Request) : option (Request * bytes * bool) :=
  '(r, data, w, b) ← AppendChunkHelper (client_data_ r) (at_least (http_version_ (client_header_ r)) VERSION_1_1) max_chunk_size r;
  Some (with_client_data data r, w, b).

Definition AppendServerChunk (do_chunks : bool) (max_chunk_size : Z) (r : Request) : option (Request * bytes * bool) :=
  _ ← CHECK (negb (NoServerBodyTransmitted r));
  '(r, data, w, b) ← AppendChunkHelper (server_data_ r) (do_chunks && at_least (http_version_ (client_header_ r)) VERSION_1_1) max_chunk_size r;
  Some (with_server_data data r, w, b).

(** [while (!data_.IsEmpty()) Append..Chunk(..)], over the request and what was written: a
    call takes data or never ends. *)
Definition AppendChunks_step (data : Request -> bytes) (append : Request -> option (Request * bytes * bool)) (x : Request * bytes)
    : option (Request * bytes + Request * bytes) :=
  let '(r, out) := x in
  if bool_decide (data r = []) then Some (inr (r, out))
  else '(r, w, _) ← append r; Some (inl (r, out ++ w)).

Definition AppendChunks (data : Request -> bytes) (append : Request -> option (Request * bytes * bool)) (r : Request) : option (Request * bytes) :=
  loop (AppendChunks_step data append) (S (length (data r))) (r, []).

(** ** A message going out *)

(** The encoder and the field for a compression. *)
Definition use_gzip (begin : bool) (h : Header) (r : Request) : option (Header * Request) :=
  h ← SetContentEncoding (Some kGzip) h;
  Some (h, with_compress_option COMPRESS_GZIP (with_gzip_encoder begin (Some GzipEncoder_new) r)).

Definition use_deflate (h : Header) (r : Request) : option (Header * Request) :=
  h ← SetContentEncoding (Some kDeflate) h;
  Some (h, with_compress_option COMPRESS_DEFLATE (with_deflate_encoder (Some Deflater_new) r)).

(** The whole body through the encoder: the request, the data left and what to send. *)
Definition encode_body (data : bytes) (r : Request) : option (Request * bytes * bytes) :=
  match compress_option_ r with
  | COMPRESS_GZIP =>
      e ← gzip_encoder_ r;
      '(e, start) ← BeginEncoding e;
      '(e, rest, body) ← ContinueEncoding e data;
      '(e, trailer) ← EndEncoding e;
      Some (with_gzip_encoder (gzip_state_begin_ r) (Some e) r, rest, start ++ body ++ trailer)
  | COMPRESS_DEFLATE =>
      d ← deflate_encoder_ r;
      '(_, d, rest, body, _) ← DeflateSize (Deflater_Clear d) data (zlen data);
      Some (with_deflate_encoder (Some d) r, rest, body)
  | COMPRESS_NONE => Some (r, [], data)
  end.

(** [AddField(kHeaderContentLength, IntToString(size), true)]: [IntToString] takes an [int]. *)
Definition AddContentLength (size : Z) (h : Header) : option Header :=
  '(h, _) ← AddField h kHeaderContentLength (print_int (int32 size)) true false; Some h.

Definition count_client (raw data : Z) (r : Request) : Request :=
  let s := stats_ r in
  with_stats (mkStats (client_size_ s + data) (server_size_ s) (client_raw_size_ s + raw) (server_raw_size_ s)) r.

Definition count_server (raw data : Z) (r : Request) : Request :=
  let s := stats_ r in
  with_stats (mkStats (client_size_ s) (server_size_ s + data) (client_raw_size_ s) (server_raw_size_ s + raw)) r.

(** The request and what is appended to the stream. *)
Definition AppendClientRequest (max_chunk_size : Z) (r : Request) : option (Request * bytes) :=
  _ ← CHECK (negb (in_chunk_encoding_ r));
  let h := client_header_ r in
  _ ← CHECK (bool_decide (first_line_type_ h = REQUEST_LINE));
  let zippable_content := IsZippableContentType h in
  gzip ← IsGzipContentEncoding h;
  deflate ← IsDeflateContentEncoding h;
  '(h, r) ←
    (if gzip && zippable_content then
       _ ← CHECK (at_least (http_version_ h) VERSION_1_0); use_gzip true h r
     else if deflate && zippable_content then
       _ ← CHECK (at_least (http_version_ h) VERSION_1_0); use_deflate h r
     else h ← SetContentEncoding None h; Some (h, with_compress_option COMPRESS_NONE r));
  h ←
    (if server_use_gzip_encoding_ r then '(h, _) ← AddField h kHeaderAcceptEncoding (bstr "gzip, deflate") true false; Some h
     else '(h, _) ← ClearField h kHeaderAcceptEncoding false; Some h);
  let client_data_size := zlen (client_data_ r) in
  chunked ← IsChunkedTransfer h;
  '(r, out) ←
    (if chunked : bool then
       let r := with_client_header h (with_in_chunk_encoding true r) in
       _ ← CHECK (at_least (http_version_ h) VERSION_1_1);
       text ← HttpHeader.AppendToStream h ([] : bytes);
       '(r, chunks) ← AppendChunks client_data_ (AppendClientChunk max_chunk_size) r;
       Some (r, text ++ chunks)
     else
       h ← SetChunkedTransfer false h;
       '(r, rest, source) ← encode_body (client_data_ r) r;
       let data := if bool_decide (compress_option_ r = COMPRESS_NONE) then client_data_ r else rest in
       h ← (if negb (bool_decide (data = [])) || bool_decide (method_ h = METHOD_POST) || bool_decide (method_ h = METHOD_PUT)
            then AddContentLength (zlen source) h else Some h);
       text ← HttpHeader.AppendToStream h ([] : bytes);
       Some (with_client_header h (with_client_data rest r), text ++ source));
  Some (count_client (zlen out) (client_data_size - zlen (client_data_ r)) r, out).

(** Whether the client takes gzip and deflate: [GetHeaderAcceptance] computes with
    [float]s, and its answer is an argument. *)
Definition AppendServerReply (IsGzipAcceptableEncoding IsDeflateAcceptableEncoding : Header -> bool)
    (streaming do_chunks : bool) (max_chunk_size : Z) (r : Request) : option (Request * bytes) :=
  _ ← CHECK (negb (in_chunk_encoding_ r));
  let h := server_header_ r in
  _ ← CHECK (bool_decide (first_line_type_ h = STATUS_LINE));
  let h := if bool_decide (http_version_ h = VERSION_UNKNOWN) then with_http_version VERSION_1_1 h else h in
  let client := client_header_ r in
  let h := if version_value (http_version_ client) <? version_value (http_version_ h) then with_http_version VERSION_1_0 h else h in
  '(h, r) ←
    (if server_use_gzip_encoding_ r && IsZippableContentType h then
       if IsGzipAcceptableEncoding client then use_gzip (gzip_state_begin_ r) h r
       else if IsDeflateAcceptableEncoding client then use_deflate h r
       else h ← SetContentEncoding None h; Some (h, r)
     else h ← SetContentEncoding None h; Some (h, with_compress_option COMPRESS_NONE r));
  let server_data_size := zlen (server_data_ r) in
  '(r, out) ←
    (if streaming then
       let chunks := do_chunks && at_least (http_version_ client) VERSION_1_1 in
       h ← SetChunkedTransfer chunks h;
       text ← HttpHeader.AppendToStream h ([] : bytes);
       let r := with_server_header h r in
       if NoServerBodyTransmitted r then Some (r, text)
       else
         '(r, chunks) ← AppendChunks server_data_ (AppendServerChunk do_chunks max_chunk_size) (with_in_chunk_encoding true r);
         Some (r, text ++ chunks)
     else
       h ← SetChunkedTransfer false h;
       let code := status_code_ h in
       '(r, rest, source) ← encode_body (server_data_ r) r;
       h ← (if ((code <? 100) || (200 <=? code)) && negb (code =? 204) && negb (code =? 304) &&
               negb (bool_decide (method_ client = METHOD_HEAD))
            then AddContentLength (zlen source) h else Some h);
       text ← HttpHeader.AppendToStream h ([] : bytes);
       Some (with_server_header h (with_server_data rest r), text ++ source));
  Some (count_server (zlen out) (server_data_size - zlen (server_data_ r)) r, out).

End Codec.

#[global] Arguments RequestParser : clear implicits.
#[global] Arguments RequestParser {_}.
#[global] Arguments Request : clear implicits.
#[global] Arguments Request {_}.

End HttpRequest.
