(* ===== verification/HttpRequestSpec.v ===== *)
(** * HttpRequestSpec: what the message parser is shown to do

    The text of a chunk, what is left to come of a body in every state of the parser, and
    that each call takes from it what is there. *)

From S2P Require Import Prelude.
From S2P Require Import CString.
From S2P Require Import StrUtil.
From S2P Require Import DataBlock.
From S2P Require Import MemoryStream.
From S2P Require Import MemoryStreamSpec.
From S2P Require Import ByteStream.
From S2P Require Import HttpConsts.
From S2P Require Import HttpHeader.
From S2P Require Import HttpHeaderSpec.
From S2P Require Import HttpHeaderProps.
From S2P Require Import HttpRequest.

Module HttpRequestSpec.
Import HttpConsts HttpHeader StrUtil HttpRequest.

(** ** Hexadecimal numbers *)

Lemma hex_digit_spec d : 0 <= d < 16 -> isxdigit (hex_digit d) = true /\ hexval (hex_digit d) = d.
Proof.
  intros Hd. assert (H : d ∈ seqZ 0 16) by (apply elem_of_seqZ; lia).
  assert (Hall : Forall (fun d => isxdigit (hex_digit d) = true /\ hexval (hex_digit d) = d) (seqZ 0 16)).
  { repeat (apply List.Forall_cons; [by vm_compute|]). apply List.Forall_nil. }
  rewrite List.Forall_forall in Hall. apply Hall. by apply list_elem_of_In.
Qed.

Lemma hex_digits_of_spec fuel z : 0 <= z < 16 ^ (Z.of_nat fuel + 1) ->
  forallb isxdigit (hex_digits_of fuel z) = true /\ hex_val (hex_digits_of fuel z) = z /\
  (length (hex_digits_of fuel z) <= S fuel)%nat.
Proof.
  revert z. induction fuel as [|fuel IH]; intros z Hz.
  - change (16 ^ (Z.of_nat 0 + 1)) with 16 in Hz. cbn [hex_digits_of]. rewrite Z.mod_small by lia.
    destruct (hex_digit_spec z) as [H1 H2]; [lia|]. cbn. rewrite H1. unfold hex_val. cbn. split_and!; [done|lia|lia].
  - cbn [hex_digits_of]. destruct (Z.ltb_spec z 16).
    + destruct (hex_digit_spec z) as [H1 H2]; [lia|]. cbn. rewrite H1. unfold hex_val. cbn. split_and!; [done|lia|lia].
    + assert (Hz' : 0 <= z / 16 < 16 ^ (Z.of_nat fuel + 1)).
      { replace (Z.of_nat (S fuel) + 1) with (Z.succ (Z.of_nat fuel + 1)) in Hz by lia.
        rewrite Z.pow_succ_r in Hz by lia. dlia. }
      destruct (IH _ Hz') as (H1 & H2 & H3).
      destruct (hex_digit_spec (z mod 16)) as [H4 H5]; [dlia|].
      rewrite forallb_app, H1. cbn. rewrite H4. unfold hex_val in *. rewrite foldl_app, H2. cbn. rewrite H5.
      rewrite length_app. cbn. split_and!; [done|dlia|lia].
Qed.

Lemma isxdigit_spec c : isxdigit c = true ->
  isspace c = false /\ c <> Byte.x2d /\ c <> Byte.x2b /\ c <> NUL /\ c <> Byte.x78 /\ c <> Byte.x58 /\ c <> CR.
Proof. by destruct c. Qed.

(** The line in front of a chunk, and the number read from it. *)
Definition head_line (n : Z) : bytes := Byte.x30 :: print_hex n.

Lemma head_line_digits n : 0 <= n < 2 ^ 32 -> forallb isxdigit (head_line n) = true /\ hex_val (head_line n) = n /\ zlen (head_line n) <= 9.
Proof.
  intros Hn. unfold head_line, print_hex. rewrite wrapU_small by lia.
  destruct (hex_digits_of_spec 7 n) as (H1 & H2 & H3); [lia|]. split_and!; [done|exact H2|].
  unfold zlen. cbn [length]. lia.
Qed.

Lemma strtol16_digits s : forallb isxdigit s = true -> s <> [] -> hex_val s < 2 ^ 63 -> 0 <= hex_val s ->
  strtol16 s = (hex_val s, false).
Proof.
  intros Hs Hne Hlt Hpos. unfold strtol16.
  assert (Hall : forall c, c ∈ s -> isxdigit c = true) by (intros c Hc; rewrite forallb_forall in Hs; apply Hs; by apply list_elem_of_In).
  rewrite cstr_id by (intros H; by destruct (isxdigit_spec _ (Hall _ H)) as (_ & _ & _ & ? & _)).
  destruct s as [|c s]; [done|]. destruct (isxdigit_spec c) as (Hsp & Hm & Hp & _); [by apply Hall; left|].
  cbn [drop_while]. rewrite Hsp, !bool_decide_false by done.
  assert (Hx : match c :: s with
    | a :: b :: c0 :: s' =>
        if bool_decide (a = Byte.x30) && (bool_decide (b = Byte.x78) || bool_decide (b = Byte.x58)) && isxdigit c0
        then c0 :: s' else c :: s
    | _ => c :: s end = c :: s).
  { destruct s as [|b [|d s]]; [done..|]. destruct (isxdigit_spec b) as (_ & _ & _ & _ & H1 & H2 & _); [by apply Hall; right; left|].
    rewrite !(bool_decide_false (b = _)) by done. by rewrite andb_false_r. }
  rewrite Hx. assert (Ht : take_while isxdigit (c :: s) = c :: s) by (by rewrite <- (app_nil_r (c :: s)) at 1; apply take_while_app).
  rewrite Ht.
  unfold LONG_MIN, LONG_MAX. by rewrite !(proj2 (Z.ltb_ge _ _)) by lia.
Qed.

Lemma strtol16_head n : 0 <= n < 2 ^ 32 -> strtol16 (head_line n) = (n, false).
Proof.
  intros Hn. destruct (head_line_digits n Hn) as (H1 & H2 & _). rewrite <- H2 at 2. apply strtol16_digits; [done|done|lia|lia].
Qed.

Lemma head_line_no_crlf n : 0 <= n < 2 ^ 32 -> no_crlf (head_line n ++ [CR]).
Proof.
  intros Hn. destruct (head_line_digits n Hn) as (H1 & _ & _). apply no_crlf_snoc_CR, no_CR_no_crlf. intros Hc.
  rewrite forallb_forall in H1. apply list_elem_of_In, H1 in Hc. by destruct (isxdigit_spec _ Hc) as (_ & _ & _ & _ & _ & _ & ?).
Qed.

(** ** A line that arrives in part *)

Lemma line_arrives io fut l rest : no_crlf (l ++ [CR]) -> io ++ fut = l ++ CRLF ++ rest ->
  match crlf_line io with
  | Some line => line = l ++ CRLF /\ dropZ (zlen line) io ++ fut = rest /\ (length (dropZ (zlen line) io) < length io)%nat
  | None => zlen io <= zlen l + 1
  end.
Proof.
  intros Hl E. pose proof (crlf_line_unique l rest Hl) as Hu. rewrite <- E in Hu.
  destruct (crlf_line io) as [line|] eqn:Eio.
  - rewrite (crlf_line_app _ _ fut Eio) in Hu. injection Hu as ->. split; [done|].
    destruct (crlf_line_drop _ _ Eio) as (Hd & _ & Hz). split.
    + apply (app_inv_head (l ++ CRLF)). rewrite app_assoc, <- Hd, E. by rewrite <- app_assoc.
    + apply (f_equal length) in Hd. rewrite length_app in Hd. unfold zlen in *. lia.
  - destruct (Z.le_gt_cases (zlen io) (zlen l + 1)) as [|Hgt]; [done|]. exfalso.
    assert (Hio : exists k, io = l ++ CRLF ++ k).
    { apply (f_equal (take (length (l ++ CRLF)))) in E. rewrite take_app_le in E by (rewrite length_app; unfold zlen in *; simpl; lia).
      rewrite app_assoc, take_app_length in E. exists (drop (length (l ++ CRLF)) io).
      rewrite <- (take_drop (length (l ++ CRLF)) io) at 1. by rewrite E, <- app_assoc. }
    destruct Hio as [k ->]. by rewrite crlf_line_unique in Eio.
Qed.

(** ** The text of the chunks *)

Definition chunk_text (c : bytes) : bytes := head_line (zlen c) ++ CRLF ++ c ++ CRLF.
Definition chunks_text (cs : list bytes) : bytes := concat (chunk_text <$> cs).

Definition effective (max_chunk_size : Z) : Z := if max_chunk_size <=? 0 then kMaxInt32 else max_chunk_size.

Lemma BufferAppendChunks_run max data fuel out : 0 < max -> (length data < fuel)%nat ->
  exists cs, loop (BufferAppendChunks_step true max) fuel (data, out) = Some (out ++ chunks_text cs) /\ concat cs = data /\
    Forall (fun c => 0 < zlen c <= Z.min max (zlen data)) cs /\ zlen cs * max < zlen data + max.
Proof.
  intros Hmax. revert data out. induction fuel as [|fuel IH]; intros data out Hf; [lia|].
  rewrite loop_S. cbn [BufferAppendChunks_step]. case_bool_decide as Hd; cbn [mbind option_bind].
  - exists []. rewrite app_nil_r. subst data. split_and!; [done|done|by apply List.Forall_nil|]. change (zlen []) with 0. lia.
  - unfold BufferAppendChunk. set (n := Z.min max (zlen data)). cbn zeta.
    assert (Hpos : 0 < zlen data) by (destruct data; [done|]; rewrite zlen_cons; pose proof (zlen_nonneg data); lia).
    assert (Hn : 0 < n <= zlen data) by lia.
    destruct (IH (dropZ n data) (out ++ ([Byte.x30] ++ print_hex n ++ CRLF) ++ takeZ n data ++ CRLF)) as (cs & H1 & H2 & H3 & H4).
    { pose proof (zlen_dropZ n data). unfold zlen in *. lia. }
    assert (Hz : zlen (takeZ n data) = n) by (rewrite zlen_takeZ; lia).
    assert (Hz' : zlen (dropZ n data) = zlen data - n) by (rewrite zlen_dropZ; lia).
    exists (takeZ n data :: cs). split_and!.
    + etrans; [exact H1|]. unfold chunks_text. rewrite fmap_cons. cbn [concat]. unfold chunk_text at 2, head_line. rewrite Hz.
      f_equal. rewrite <- !app_assoc. done.
    + cbn [concat]. rewrite H2. apply takeZ_dropZ.
    + apply List.Forall_cons; [lia|]. eapply List.Forall_impl; [|exact H3]. cbn. intros c. lia.
    + rewrite zlen_cons. rewrite Hz' in H4. pose proof (zlen_nonneg cs). assert (Hc : n = max \/ n = zlen data /\ zlen data < max) by lia.
      clearbody n. destruct Hc as [-> | [-> ?]]; [lia|]. assert (zlen cs = 0) as -> by nia. lia.
Qed.

Lemma BufferAppendChunks_text data max_chunk_size : effective max_chunk_size < 2 ^ 64 ->
  exists cs, BufferAppendChunks data true max_chunk_size = Some (chunks_text cs) /\ concat cs = data /\
    Forall (fun c => 0 < zlen c <= Z.min (effective max_chunk_size) (zlen data)) cs /\
    zlen cs * effective max_chunk_size < zlen data + effective max_chunk_size.
Proof.
  intros Hmax. assert (Hpos : 0 < effective max_chunk_size) by (unfold effective, kMaxInt32; destruct (Z.leb_spec max_chunk_size 0); lia).
  unfold BufferAppendChunks. fold (effective max_chunk_size). rewrite wrapU_small by lia.
  apply (BufferAppendChunks_run (effective max_chunk_size) data (S (length data)) [] Hpos). lia.
Qed.

(** The record of a parser, part by part. *)
Ltac parser_cbn :=
  unfold refuse, expect_chunk, set_parse_state, append_out, set_inp, set_header, on_parser, with_parse_state, with_chunk_size_to_read,
    with_num_chunks_read, with_next_chunk_expectation, with_partial_data, with_trail_header, with_body_size_to_read;
  cbn [parser inp header out limits parse_state_ body_size_to_read_ chunk_size_to_read_ num_chunks_read_ next_chunk_expectation_
    partial_data_ trail_header_ inflate_zwrapper_ gzip_zwrapper_].

(** ** What is left to come *)

Section Codec.
Context `{Codec}.

(** Nothing compressed, and nothing read of the trailer. *)
Record plain (x : Parsing) : Prop := {
  pl_partial : partial_data_ (parser x) = [];
  pl_inflater : inflate_zwrapper_ (parser x) = None;
  pl_gzip : IsGzipContentEncoding (header x) = Some false;
  pl_deflate : IsDeflateContentEncoding (header x) = Some false;
  pl_expect : next_chunk_expectation_ (parser x) = EXPECT_CHUNK_NONE;
  pl_trail_name : crt_parsing_field_name_ (trail_header_ (parser x)) = [];
  pl_trail_fields : fields_ (trail_header_ (parser x)) = ∅;
  pl_trail_bytes : bytes_parsed_ (trail_header_ (parser x)) = 0;
  pl_trail_error : parse_error_ (trail_header_ (parser x)) = READ_INIT \/ parse_error_ (trail_header_ (parser x)) = READ_NO_DATA;
  pl_header_size : 10 <= max_header_size_ (limits (parser x));
  pl_worst : severity READ_NO_DATA <= severity (worst_accepted_header_error_ (limits (parser x))) }.

(** The chunks are of a size the parser takes, and not too many. *)
Definition acceptable (p : RequestParser) (cs : list bytes) : Prop :=
  Forall (fun c => 0 < zlen c < 2 ^ 32 /\ zlen c <= max_chunk_size_ (limits p)) cs /\
  (max_num_chunks_ (limits p) < 0 \/ num_chunks_read_ p + zlen cs <= max_num_chunks_ (limits p)).

(** [fut] will arrive after what is in the stream; [todo] is what the body still lacks, and
    [rest] follows the message. *)
Definition coming (x : Parsing) (fut rest todo : bytes) : Prop :=
  let p := parser x in
  match parse_state_ p with
  | STATE_CHUNK_HEAD_READING =>
      exists cs, acceptable p cs /\ todo = concat cs /\ inp x ++ fut = chunks_text cs ++ last_chunk true ++ rest
  | STATE_CHUNK_READING =>
      exists d cs, d <> [] /\ chunk_size_to_read_ p = zlen d /\ acceptable p cs /\ todo = d ++ concat cs /\
        inp x ++ fut = d ++ CRLF ++ chunks_text cs ++ last_chunk true ++ rest
  | STATE_END_OF_CHUNK =>
      exists cs, acceptable p cs /\ todo = concat cs /\ inp x ++ fut = CRLF ++ chunks_text cs ++ last_chunk true ++ rest
  | STATE_LAST_CHUNK_READ => todo = [] /\ inp x ++ fut = CRLF ++ rest
  | _ => False
  end.

(** How a part of the parsing ends: with the message complete, or waiting for more. *)
Definition complete (final : ParseState) (x x' : Parsing) (fut rest todo : bytes) : Prop :=
  parse_state_ (parser x') = final /\ out x' = out x ++ todo /\ header x' = header x /\ limits (parser x') = limits (parser x) /\
  inp x' ++ fut = rest.

Definition waiting (x x' : Parsing) (fut rest todo : bytes) : Prop :=
  exists d todo', out x' = out x ++ d /\ todo = d ++ todo' /\ plain x' /\ coming x' fut rest todo' /\
  header x' = header x /\ limits (parser x') = limits (parser x).

Definition finished (code : Z) : bool := Z.testbit code 6.

(** ** One step *)

Definition good_step (x : Parsing) (fut rest todo : bytes) (r : Parsing + Z * Parsing) : Prop :=
  match r with
  | inl x' => waiting x x' fut rest todo /\ (length (inp x') < length (inp x))%nat
  | inr (code, x') =>
      Z.testbit code 7 = false /\
      if finished code then complete STATE_END_OF_TRAIL_HEADER x x' fut rest todo
      else waiting x x' fut rest todo /\ zlen rest < zlen fut
  end.

Lemma set_inp_same x : set_inp (inp x) x = x.
Proof. by destruct x. Qed.

(** Nothing new: the message stays where it was. *)
Lemma waiting_same x fut rest todo : plain x -> coming x fut rest todo -> waiting x x fut rest todo.
Proof. intros Hp Hc. exists [], todo. by rewrite app_nil_r. Qed.

Lemma zlen_fut (io fut a rest : bytes) : io ++ fut = a ++ rest -> zlen io < zlen a -> zlen rest < zlen fut.
Proof. intros E%(f_equal zlen) Hlt. rewrite !zlen_app in E. lia. Qed.

Lemma head_step x fut rest todo : plain x -> parse_state_ (parser x) = STATE_CHUNK_HEAD_READING -> coming x fut rest todo ->
  good_step x fut rest todo (read_chunk_head x).
Proof.
  intros Hp Hst Hc. pose proof Hp as [P1 P2 P3 P4 P5 P6 P7 P8 P9 P10 P11]. pose proof Hc as Hc'. unfold coming in Hc'. rewrite Hst in Hc'.
  destruct Hc' as (cs & [Hcs Hnum] & Htodo & E). unfold read_chunk_head, ReadLine.
  set (n := match cs with [] => 0 | c :: _ => zlen c end).
  assert (Hn : 0 <= n < 2 ^ 32) by (destruct cs as [|c cs]; [done|]; apply List.Forall_cons_iff in Hcs as [[? _] _]; unfold n; lia).
  set (l := match cs with [] => [Byte.x30] | c :: _ => head_line n end).
  assert (Hl : no_crlf (l ++ [CR]) /\ zlen l <= 9 /\ strtol16 l = (n, false)).
  { destruct cs as [|c cs].
    - split; [apply no_crlf_snoc_CR, no_CR_no_crlf; by apply not_in|]. split; [done|by vm_compute].
    - split; [by apply head_line_no_crlf|]. split; [by apply head_line_digits|by apply strtol16_head]. }
  destruct Hl as (Hl & Hll & Hnum').
  assert (E' : exists tail, inp x ++ fut = l ++ CRLF ++ tail ++ rest /\
    tail = match cs with [] => CRLF | c :: cs => c ++ CRLF ++ chunks_text cs ++ last_chunk true end).
  { eexists. split; [|done]. rewrite E. unfold l, n. destruct cs as [|c cs]; [done|].
    unfold chunks_text at 1. rewrite fmap_cons. cbn [concat]. unfold chunk_text at 1. by rewrite <- !app_assoc. }
  destruct E' as (tail & E' & Htail). pose proof (line_arrives _ _ _ _ Hl E') as Hline.
  destruct (crlf_line (inp x)) as [line|]; cbn [fmap option_fmap option_map default].
  2: { change (zlen []) with 0. rewrite dropZ_0, set_inp_same, (proj2 (Z.ltb_ge _ _)) by lia.
    unfold good_step. split; [done|]. change (finished _) with false. cbn iota. split; [by apply waiting_same|].
    apply (zlen_fut (inp x) fut (l ++ CRLF ++ tail)); [by rewrite E', <- !app_assoc|]. rewrite !zlen_app. change (zlen CRLF) with 2.
    pose proof (zlen_nonneg tail). lia. }
  destruct Hline as (-> & Hrest & Hlen). rewrite cut_crlf_app, Hnum'. rewrite orb_false_l, (proj2 (Z.ltb_ge _ _)) by lia.
  set (io := dropZ _ _) in *. destruct cs as [|c cs]; unfold n in *.
  - rewrite Z.eqb_refl. parser_cbn. rewrite P5, bool_decide_false by done. split; [|done].
    exists [], todo. rewrite app_nil_r. split_and!; try done. unfold coming. parser_cbn. subst todo tail. done.
  - apply List.Forall_cons_iff in Hcs as [[Hc1 Hc2] Hcs]. rewrite (proj2 (Z.eqb_neq _ _)) by lia. parser_cbn.
    rewrite P5, bool_decide_false by done. rewrite (proj2 (Z.ltb_ge _ (zlen c))) by lia.
    rewrite zlen_cons in Hnum.
    assert (Hmany : (0 <=? max_num_chunks_ (limits (parser x))) && (max_num_chunks_ (limits (parser x)) <? num_chunks_read_ (parser x) + 1) = false).
    { pose proof (zlen_nonneg cs). destruct Hnum; [by rewrite (proj2 (Z.leb_gt _ _)) by lia|]. rewrite (proj2 (Z.ltb_ge _ _)) by lia. by rewrite andb_false_r. }
    rewrite Hmany. split; [|done]. exists [], todo. rewrite app_nil_r. split_and!; try done.
    unfold coming. parser_cbn. exists c, cs. split_and!; [intros ->; change (zlen []) with 0 in *; lia|done| |done|].
    + split; [done|]. parser_cbn. destruct Hnum; [by left|right; lia].
    + rewrite Hrest, Htail. by rewrite <- !app_assoc.
Qed.

Lemma end_step x fut rest todo : plain x -> parse_state_ (parser x) = STATE_END_OF_CHUNK -> coming x fut rest todo ->
  good_step x fut rest todo (read_chunk_end x).
Proof.
  intros Hp Hst Hc. pose proof Hp as [P1 P2 P3 P4 P5 P6 P7 P8 P9 P10 P11]. pose proof Hc as Hc'. unfold coming in Hc'. rewrite Hst in Hc'.
  destruct Hc' as (cs & Hcs & Htodo & E). unfold read_chunk_end, ReadLine.
  pose proof (line_arrives (inp x) fut [] (chunks_text cs ++ last_chunk true ++ rest) ltac:(by intros [|? [|]] ?) E) as Hline.
  destruct (crlf_line (inp x)) as [line|]; cbn [fmap option_fmap option_map default].
  - destruct Hline as (-> & Hrest & Hlen). change (cut_crlf ([] ++ CRLF)) with (@nil byte). rewrite bool_decide_true by done. parser_cbn.
    split; [|done]. exists [], todo. rewrite app_nil_r. split_and!; try done. unfold coming. parser_cbn. by exists cs.
  - change (zlen []) with 0 in *. rewrite dropZ_0, set_inp_same, (proj2 (Z.ltb_ge _ _)) by lia.
    unfold good_step. split; [done|]. change (finished _) with false. cbn iota. split; [by apply waiting_same|].
    apply (zlen_fut (inp x) fut (CRLF ++ chunks_text cs ++ last_chunk true)); [by rewrite E, <- !app_assoc|]. rewrite !zlen_app.
    change (zlen CRLF) with 2. change (zlen (last_chunk true)) with 5. pose proof (zlen_nonneg (chunks_text cs)). lia.
Qed.

(** The bytes that are there of [n] that are needed. *)
Lemma bytes_arrive (io fut d rest : bytes) : io ++ fut = d ++ rest ->
  let n := Z.min (zlen d) (zlen io) in
  exists d', d = takeZ n io ++ d' /\ zlen d' = zlen d - n /\ dropZ n io ++ fut = d' ++ rest /\ (d' = [] \/ dropZ n io = []).
Proof.
  intros E n. exists (dropZ n d). pose proof (zlen_nonneg d). pose proof (zlen_nonneg io).
  assert (Ht : takeZ n io = takeZ n d).
  { rewrite <- (takeZ_app_l n io fut), E by lia. by rewrite takeZ_app_l by lia. }
  rewrite Ht, takeZ_dropZ, zlen_dropZ by lia. split; [done|]. split; [lia|]. split.
  - apply (app_inv_head (takeZ n io)). rewrite app_assoc, takeZ_dropZ, E, Ht. by rewrite app_assoc, takeZ_dropZ.
  - destruct (Z.le_gt_cases (zlen d) (zlen io)); [left; apply dropZ_all; lia|right; apply dropZ_all; lia].
Qed.

Lemma content_decoders_none x : inflate_zwrapper_ (parser x) = None -> IsGzipContentEncoding (header x) = Some false ->
  IsDeflateContentEncoding (header x) = Some false -> content_decoders x = Some (false, false).
Proof.
  intros P2 P3 P4. unfold content_decoders. rewrite P3, P4. cbn [mbind option_bind].
  by rewrite P2, bool_decide_false by (by intros []).
Qed.

Lemma data_step x fut rest todo : plain x -> parse_state_ (parser x) = STATE_CHUNK_READING -> coming x fut rest todo ->
  exists r, read_chunk_data x = Some r /\ good_step x fut rest todo r.
Proof.
  intros Hp Hst Hc. pose proof Hp as [P1 P2 P3 P4 P5 P6 P7 P8 P9 P10 P11]. pose proof Hc as Hc'. unfold coming in Hc'. rewrite Hst in Hc'.
  destruct Hc' as (d & cs & Hd & Hsize & Hcs & Htodo & E). unfold read_chunk_data.
  assert (Hdpos : 0 < zlen d) by (destruct d; [done|]; rewrite zlen_cons; pose proof (zlen_nonneg d); lia).
  case_bool_decide as Hin.
  - eexists. split; [done|]. unfold good_step. split; [done|]. change (finished _) with false. cbn iota. split; [by apply waiting_same|].
    rewrite Hin in E. apply (zlen_fut [] fut (d ++ CRLF ++ chunks_text cs ++ last_chunk true)); [by rewrite E, <- !app_assoc|].
    rewrite zlen_app. change (zlen []) with 0. pose proof (zlen_nonneg (CRLF ++ chunks_text cs ++ last_chunk true)). lia.
  - assert (Hinpos : 0 < zlen (inp x)) by (destruct (inp x) as [|b io]; [done|]; rewrite zlen_cons; pose proof (zlen_nonneg io); lia).
    rewrite Hsize. destruct (bytes_arrive _ _ _ _ E) as (d' & Hd1 & Hd2 & Hd3 & Hd4). set (n := Z.min (zlen d) (zlen (inp x))) in *. cbn zeta.
    assert (Hdec : content_decoders (take_partial n x) = Some (false, false)).
    { by apply content_decoders_none. }
    rewrite Hdec. cbn [mbind option_bind]. unfold take_partial, flush_partial.
    assert (Hlen : (length (dropZ n (inp x)) < length (inp x))%nat) by (unfold dropZ; rewrite length_drop; unfold zlen in *; lia).
    eexists. split; [done|]. parser_cbn. rewrite Hsize, P1, app_nil_l.
    destruct (Z.eqb_spec (zlen d - n) 0) as [Hz|Hz]; parser_cbn.
    + assert (d' = []) as -> by (destruct d'; [done|]; rewrite zlen_cons in Hd2; pose proof (zlen_nonneg d'); lia).
      rewrite app_nil_r in Hd1. rewrite <- Hd1. split; [|done]. exists d, (concat cs). split_and!; try done.
      unfold coming. parser_cbn. by exists cs.
    + split; [|done]. exists (takeZ n (inp x)), (d' ++ concat cs). split_and!; try done.
      * rewrite Htodo. rewrite Hd1 at 1. by rewrite <- app_assoc.
      * unfold coming. parser_cbn. rewrite Hst. exists d', cs. split_and!; try done.
        intros ->. change (zlen []) with 0 in *. lia.
Qed.

Lemma sorted_fields_empty : sorted_fields ∅ = [].
Proof. done. Qed.

Lemma trailer_step x fut rest todo : plain x -> parse_state_ (parser x) = STATE_LAST_CHUNK_READ -> coming x fut rest todo ->
  exists r, ParseTrailHeader x = Some r /\ good_step x fut rest todo (inr r).
Proof.
  intros Hp Hst Hc. pose proof Hp as [P1 P2 P3 P4 P5 P6 P7 P8 P9 P10 P11]. pose proof Hc as Hc'. unfold coming in Hc'. rewrite Hst in Hc'.
  destruct Hc' as (-> & E). unfold ParseTrailHeader. rewrite Hst, bool_decide_true by done. cbn [CHECK mbind option_bind].
  rewrite ReadHeaderFields_eq by (unfold name_ok; by rewrite P6).
  pose proof (line_arrives (inp x) fut [] rest ltac:(by intros [|? [|]] ?) E) as Hline.
  destruct (crlf_line (inp x)) as [line|].
  - destruct Hline as (-> & Hrest & _). cbn zeta. change (cut_crlf ([] ++ CRLF)) with (@nil byte). rewrite bool_decide_true by done.
    unfold AddCrtParsingData. cbn [crt_parsing_field_name_ with_bytes_parsed]. rewrite P6, bool_decide_true by done.
    cbn [mbind option_bind negb]. set (t := set_parse_error READ_OK _).
    assert (Ht : fields_ t = ∅ /\ severity (parse_error_ t) <= 2).
    { unfold t, set_parse_error, with_parse_error, with_last_parse_error, with_crt_parsing_field_content, with_crt_parsing_field_name, with_bytes_parsed.
      cbn [fields_ parse_error_]. split; [done|]. by destruct P9 as [-> | ->]. }
    destruct Ht as [Ht1 Ht2]. parser_cbn. change (severity READ_NO_DATA) with 2 in P11. rewrite (proj2 (Z.ltb_ge _ _)) by lia.
    unfold CopyHeaderFields. rewrite Ht1, sorted_fields_empty. cbn [copy_fields mbind option_bind].
    eexists. split; [done|]. unfold good_step. split; [done|]. change (finished _) with true. cbn iota. unfold complete. parser_cbn.
    by rewrite app_nil_r.
  - cbn [mbind option_bind negb]. parser_cbn. set (t := set_parse_error READ_NO_DATA _).
    assert (Ht : bytes_parsed_ t = 0) by done. change (zlen []) with 0 in Hline. rewrite Ht, (proj2 (Z.ltb_ge _ _)) by lia.
    eexists. split; [done|]. unfold good_step. split; [done|]. change (finished _) with false. cbn iota. split.
    + exists [], []. rewrite app_nil_r. split_and!; try done.
      split; try done. parser_cbn. unfold t, set_parse_error, with_parse_error, with_last_parse_error. cbn [parse_error_].
      right. by destruct P9 as [-> | ->].
    + apply (zlen_fut (inp x) fut CRLF); [done|]. change (zlen CRLF) with 2. lia.
Qed.

(** ** All the chunks *)

Lemma waiting_trans x x1 x2 fut rest todo d todo1 : out x1 = out x ++ d -> todo = d ++ todo1 ->
  header x1 = header x -> limits (parser x1) = limits (parser x) ->
  waiting x1 x2 fut rest todo1 -> waiting x x2 fut rest todo.
Proof.
  intros Ho Ht Hh Hl (d2 & todo2 & H1 & H2 & H3 & H4 & H5 & H6). exists (d ++ d2), todo2.
  split_and!; try congruence.
  - by rewrite H1, Ho, app_assoc.
  - by rewrite Ht, H2, app_assoc.
Qed.

Lemma chunks_run fuel x fut rest todo : plain x -> coming x fut rest todo -> (length (inp x) < fuel)%nat ->
  exists r, loop ParseChunksInternal_step fuel x = Some r /\ good_step x fut rest todo (inr r).
Proof.
  revert x todo. induction fuel as [|fuel IH]; intros x todo Hp Hc Hf; [lia|]. rewrite loop_S.
  assert (Hstep : exists r, ParseChunksInternal_step x = Some r /\ good_step x fut rest todo r).
  { unfold ParseChunksInternal_step. destruct (parse_state_ (parser x)) eqn:Hst;
      try (unfold coming in Hc; by rewrite Hst in Hc).
    - eexists. split; [done|]. by apply head_step.
    - by apply data_step.
    - eexists. split; [done|]. by apply end_step.
    - destruct (trailer_step x fut rest todo Hp Hst Hc) as (r & -> & Hr). by exists (inr r). }
  destruct Hstep as ([x1|r] & -> & Hr); cbn [mbind option_bind]; [|by exists r].
  destruct Hr as ((d & todo1 & Ho & Ht & Hp1 & Hc1 & Hh & Hl) & Hlen).
  destruct (IH x1 todo1 Hp1 Hc1 ltac:(lia)) as ([code x2] & -> & Hr). exists (code, x2). split; [done|].
  unfold good_step in *. destruct Hr as [H7 Hr]. split; [done|]. destruct (finished code).
  - destruct Hr as (Hs & Ho2 & Hh2 & Hl2 & Hi). unfold complete. split_and!; try congruence. by rewrite Ho2, Ho, Ht, app_assoc.
  - destruct Hr as (Hw & Hz). split; [|done]. by apply (waiting_trans x x1 x2 fut rest todo d todo1).
Qed.

Lemma chunks_parse x fut rest todo : plain x -> coming x fut rest todo ->
  exists r, ParseChunksInternal x = Some r /\ good_step x fut rest todo (inr r).
Proof. intros Hp Hc. apply chunks_run; [done|done|lia]. Qed.

(** ** The payload *)

Definition body_coming (x : Parsing) (fut rest todo : bytes) : Prop :=
  let p := parser x in
  body_size_to_read_ p = zlen todo /\ inp x ++ fut = todo ++ rest /\
  (max_body_size_ (limits p) < 0 \/ zlen todo <= max_body_size_ (limits p)).

Definition payload_coming (x : Parsing) (fut rest todo : bytes) : Prop :=
  match parse_state_ (parser x) with
  | STATE_BODY_READING => body_coming x fut rest todo
  | _ => coming x fut rest todo
  end.

Definition payload_answer (x : Parsing) (fut rest todo : bytes) (r : Z * Parsing) : Prop :=
  let '(code, x') := r in
  Z.testbit code 7 = false /\
  if finished code then
    (parse_state_ (parser x') = STATE_BODY_END \/ parse_state_ (parser x') = STATE_END_OF_TRAIL_HEADER) /\
    complete (parse_state_ (parser x')) x x' fut rest todo
  else
    zlen rest < zlen fut /\
    exists d todo', out x' = out x ++ d /\ todo = d ++ todo' /\ plain x' /\ payload_coming x' fut rest todo' /\
      header x' = header x /\ limits (parser x') = limits (parser x).

Lemma body_parse x fut rest todo : plain x -> parse_state_ (parser x) = STATE_BODY_READING -> body_coming x fut rest todo ->
  exists r, ParseBodyInternal x = Some r /\ payload_answer x fut rest todo r.
Proof.
  intros Hp Hst (Hsize & E & Hmax). pose proof Hp as [P1 P2 P3 P4 P5 P6 P7 P8 P9 P10 P11]. unfold ParseBodyInternal.
  rewrite Hst, bool_decide_true by done. cbn [CHECK mbind option_bind].
  assert (Hm : (0 <=? max_body_size_ (limits (parser x))) && (max_body_size_ (limits (parser x)) <? body_size_to_read_ (parser x)) = false).
  { rewrite Hsize. destruct Hmax; [by rewrite (proj2 (Z.leb_gt _ _)) by lia|]. rewrite (proj2 (Z.ltb_ge _ _)) by lia. by rewrite andb_false_r. }
  rewrite Hm, Hsize. destruct (bytes_arrive _ _ _ _ E) as (d' & Hd1 & Hd2 & Hd3 & Hd4). set (n := Z.min (zlen todo) (zlen (inp x))) in *. cbn zeta.
  rewrite content_decoders_none by done. cbn [mbind option_bind]. eexists. split; [done|].
  unfold identity_body, flush_partial, take_partial. parser_cbn. rewrite Hsize, P1, app_nil_l.
  destruct (Z.eqb_spec (zlen todo - n) 0) as [Hz|Hz]; parser_cbn; unfold payload_answer.
  - split; [done|]. change (finished _) with true. cbn iota. parser_cbn. split; [by left|].
    assert (d' = []) as -> by (destruct d'; [done|]; rewrite zlen_cons in Hd2; pose proof (zlen_nonneg d'); lia).
    rewrite app_nil_r in Hd1. rewrite <- Hd1. done.
  - split; [done|]. change (finished _) with false. cbn iota. pose proof (zlen_nonneg d'). split.
    + assert (d' <> []) by (intros ->; change (zlen []) with 0 in *; lia). destruct Hd4 as [|Hd4]; [done|].
      rewrite Hd4 in Hd3. cbn [app] in Hd3. rewrite Hd3, zlen_app. lia.
    + exists (takeZ n (inp x)), d'. split_and!; try done. unfold payload_coming. parser_cbn. rewrite Hst. unfold body_coming. parser_cbn.
      split_and!; [lia|done|]. assert (0 <= n) by (pose proof (zlen_nonneg todo); pose proof (zlen_nonneg (inp x)); lia). destruct Hmax; [by left|right]. lia.
Qed.

Lemma chunks_answer x fut rest todo : plain x -> coming x fut rest todo ->
  exists r, ParseChunksInternal x = Some r /\ payload_answer x fut rest todo r.
Proof.
  intros Hp Hc. destruct (chunks_parse x fut rest todo Hp Hc) as ([code x'] & -> & Hr). exists (code, x'). split; [done|].
  unfold good_step in Hr. unfold payload_answer. destruct Hr as [H7 Hr]. split; [done|]. destruct (finished code).
  - assert (Hs : parse_state_ (parser x') = STATE_END_OF_TRAIL_HEADER) by apply Hr. rewrite Hs. split; [by right|done].
  - destruct Hr as ((d & todo' & H1 & H2 & H3 & H4 & H5 & H6) & Hz). split; [done|]. exists d, todo'. split_and!; try done.
    unfold payload_coming. destruct (parse_state_ (parser x')) eqn:Es; try done. unfold coming in H4. by rewrite Es in H4.
Qed.

(** What a header says of the body that follows it. *)
Definition announces (h : Header) (todo : bytes) : Prop :=
  IsKnownContentEncoding h = Some true /\ IsKnownTransferEncoding h = Some true /\
  IsGzipContentEncoding h = Some false /\ IsDeflateContentEncoding h = Some false /\
  (IsChunkedTransfer h = Some true \/
   (IsChunkedTransfer h = Some false /\ zlen todo < 2 ^ 63 /\
   (fields_ h !! kHeaderContentLength = Some (print_int (zlen todo)) \/
    (fields_ h !! kHeaderContentLength = None /\ DefaultBodyLen h = 0 /\ todo = [])))).

(** The text of the body as the header announces it. *)
Definition body_text (l : Limits) (h : Header) (todo text : bytes) : Prop :=
  if bool_decide (IsChunkedTransfer h = Some true) then
    exists cs, todo = concat cs /\ text = chunks_text cs ++ last_chunk true /\
      Forall (fun c => 0 < zlen c < 2 ^ 32 /\ zlen c <= max_chunk_size_ l) cs /\
      (max_num_chunks_ l < 0 \/ zlen cs <= max_num_chunks_ l)
  else text = todo /\ (max_body_size_ l < 0 \/ zlen todo <= max_body_size_ l).

Lemma payload_answer_parse x fut rest todo : plain x -> payload_coming x fut rest todo ->
  exists r, ParsePayloadInternal x = Some r /\ payload_answer x fut rest todo r.
Proof.
  intros Hp Hc. unfold ParsePayloadInternal.
  assert (Hst : (state_value STATE_END_OF_HEADER <=? state_value (parse_state_ (parser x))) = true /\
    parse_state_ (parser x) <> STATE_END_OF_HEADER /\
    (parse_state_ (parser x) <> STATE_BODY_READING -> (state_value STATE_CHUNK_HEAD_READING <=? state_value (parse_state_ (parser x))) = true)).
  { unfold payload_coming, coming in Hc. destruct (parse_state_ (parser x)); try done. }
  destruct Hst as (H1 & H2 & H3). rewrite H1, (bool_decide_false (parse_state_ (parser x) = _)) by done. cbn [CHECK negb mbind option_bind].
  case_bool_decide as Hb.
  - apply body_parse; [done|done|]. unfold payload_coming in Hc. by rewrite Hb in Hc.
  - rewrite H3 by done. cbn [CHECK mbind option_bind]. apply chunks_answer; [done|]. unfold payload_coming in Hc.
    by destruct (parse_state_ (parser x)).
Qed.

(** The first call for the payload. *)
Lemma payload_start x fut rest todo text : plain x -> parse_state_ (parser x) = STATE_END_OF_HEADER -> num_chunks_read_ (parser x) = 0 ->
  announces (header x) todo -> body_text (limits (parser x)) (header x) todo text -> inp x ++ fut = text ++ rest ->
  exists r, ParsePayloadInternal x = Some r /\ payload_answer x fut rest todo r.
Proof.
  intros Hp Hst Hnum (K1 & K2 & K3 & K4 & K) Ht E. unfold ParsePayloadInternal. rewrite Hst, Z.leb_refl.
  rewrite (bool_decide_true (STATE_END_OF_HEADER = _)) by done. cbn [CHECK negb mbind option_bind].
  rewrite K1, K2. cbn [negb mbind option_bind]. unfold body_text in Ht. destruct K as [K|(K & Hlen & K')]; rewrite K; rewrite K in Ht.
  - rewrite bool_decide_true in Ht by done. destruct Ht as (cs & -> & -> & Hcs & Hn). cbn [mbind option_bind]. parser_cbn.
    rewrite bool_decide_false, Z.leb_refl by done. cbn [CHECK mbind option_bind].
    set (y := mkParsing _ _ _ _). destruct (chunks_answer y fut rest (concat cs)) as (r & -> & Hr); [by split; try done; apply Hp| |by exists r].
    unfold coming, y. parser_cbn. exists cs. split_and!; [|done|by rewrite E, <- !app_assoc]. split; [done|]. parser_cbn.
    rewrite Hnum. destruct Hn; [by left|right; lia].
  - rewrite bool_decide_false in Ht by done. destruct Ht as [-> Hm].
    assert (Hbody : forall n, n = zlen todo -> exists r,
      ParseBodyInternal (set_parse_state STATE_BODY_READING (on_parser (with_body_size_to_read n) x)) = Some r /\ payload_answer x fut rest todo r).
    { intros n ->. set (y := set_parse_state _ _). destruct (body_parse y fut rest todo) as (r & -> & Hr); [by split; try done; apply Hp|done| |by exists r].
      by unfold body_coming, y. }
    destruct K' as [K'|(K' & Hdef & ->)]; rewrite K'; cbn [mbind option_bind].
    + rewrite strtol_print_int by (pose proof (zlen_nonneg todo); lia). rewrite orb_false_l, (proj2 (Z.ltb_ge _ _)) by (pose proof (zlen_nonneg todo); lia).
      cbn [mbind option_bind]. rewrite bool_decide_true by done. by apply Hbody.
    + rewrite Hdef. change (0 <? 0) with false. rewrite andb_false_r.
      assert (Hmax : (0 <=? max_body_size_ (limits (parser x))) && (max_body_size_ (limits (parser x)) <? 0) = false).
      { apply andb_false_iff. destruct (Z.leb_spec 0 (max_body_size_ (limits (parser x)))); [right|by left]. apply Z.ltb_ge. lia. }
      rewrite Hmax. cbn [mbind option_bind]. rewrite bool_decide_true by done. by apply Hbody.
Qed.

End Codec.

End HttpRequestSpec.
