(* ===== verification/HttpReceive.v ===== *)
(** * HttpReceive: a request as it arrives

    The header and then the payload of a request, from the pieces in which they come:
    [receive] is the loop of a server around [RequestParser]. *)

From S2P Require Import Prelude.
From S2P Require Import CString.
From S2P Require Import StrUtil.
From S2P Require Import DataBlock.
From S2P Require Import MemoryStream.
From S2P Require Import MemoryStreamSpec.
From S2P Require Import ByteStream.
From S2P Require Import HttpConsts.
From S2P Require Import HttpHeader.
From S2P Require Import HttpHeaderSpec.
From S2P Require Import HttpHeaderProps.
From S2P Require Import HttpRequest.
From S2P Require Import HttpRequestSpec.

Module HttpReceive.
Import HttpConsts HttpHeader StrUtil HttpRequest HttpRequestSpec.

Section Codec.
Context `{Codec}.

(** ** The header *)

Lemma ReadHeaderFields_bytes c : forall h h1 r1 b, name_ok h -> ReadHeaderFields h c = Some (h1, r1, b) ->
  bytes_parsed_ h1 + zlen r1 = bytes_parsed_ h + zlen c.
Proof.
  remember (length c) as n eqn:Hn. revert c Hn. induction n as [n IH] using lt_wf_ind. intros c Hn h h1 r1 b Hok E.
  rewrite ReadHeaderFields_eq in E by done. destruct (crlf_line c) as [line|] eqn:Ec; [|by injection E as <- <- <-].
  destruct (crlf_line_drop _ _ Ec) as (Hc & _ & Hlen). apply (f_equal zlen) in Hc. rewrite zlen_app in Hc. cbn zeta in E.
  set (h0 := with_bytes_parsed _ h) in *. assert (Hb0 : bytes_parsed_ h0 = bytes_parsed_ h + zlen line) by done.
  case_bool_decide as Hl.
  - destruct (AddCrtParsingData h0) as [[h' ok]|] eqn:Ea; [|done]. apply bytes_parsed_AddCrtParsingData in Ea.
    cbn [mbind option_bind] in E. injection E as <- <- <-. destruct ok; cbn; lia.
  - destruct (ParseFieldLine_total h0 (cut_crlf line)) as (h' & E' & Hok'); [done..|]. rewrite E' in E. cbn [mbind option_bind] in E.
    apply bytes_parsed_ParseFieldLine in E'. apply (IH (length (dropZ (zlen line) c))) in E; [lia| |done|done].
    unfold zlen in *. lia.
Qed.

Lemma ParseHeader_bytes c t h h1 r1 b : ready h -> ParseHeader h c t = Some (h1, r1, b) ->
  bytes_parsed_ h1 + zlen r1 = bytes_parsed_ h + zlen c.
Proof.
  intros Hr E. rewrite ParseHeader_ready in E by done. pose proof Hr as (Hn & _). destruct (_ =? 0).
  - destruct (crlf_line c) as [line|] eqn:Ec; [|by injection E as <- <- <-].
    destruct (crlf_line_drop _ _ Ec) as (Hc & _ & _). apply (f_equal zlen) in Hc. rewrite zlen_app in Hc.
    apply ReadHeaderFields_bytes in E; [|by apply name_ok_ParseFirstLine]. rewrite bytes_parsed_ParseFirstLine in E. cbn in E. lia.
  - by apply ReadHeaderFields_bytes in E.
Qed.

(** The header [final] is complete when [text] has come after what was read. *)
Definition header_coming (final : Header) (h : Header) (io fut rest : bytes) : Prop :=
  ready h /\ exists text, io ++ fut = text ++ rest /\ bytes_parsed_ h + zlen text = bytes_parsed_ final /\
    (ParseHttpRequest h text = Some (final, [], true) \/ ParseHttpRequest h text = Some (note final, [], true)).

Lemma prefix_or (io fut text rest : bytes) : io ++ fut = text ++ rest ->
  (exists k, io = text ++ k /\ k ++ fut = rest) \/ (exists t2, text = io ++ t2 /\ fut = t2 ++ rest /\ t2 <> []).
Proof.
  intros E. apply app_eq_inv in E as [(k & -> & E)|(k & -> & E)]; [left; by exists k|].
  destruct k as [|b k]; [left; exists []; by rewrite !app_nil_r|right; by exists (b :: k)].
Qed.

Lemma header_parse final h io fut rest : header_coming final h io fut rest ->
  exists h1 r1 b, ParseHttpRequest h io = Some (h1, r1, b) /\
    (if b then (h1 = final \/ h1 = note final) /\ r1 ++ fut = rest
     else header_coming final h1 r1 fut rest /\ zlen r1 + bytes_parsed_ h1 <= bytes_parsed_ final /\ zlen rest < zlen fut).
Proof.
  intros (Hr & text & E & Hb & Hp). unfold ParseHttpRequest in *.
  destruct (prefix_or _ _ _ _ E) as [(k & -> & Hk)|(t2 & -> & -> & Ht2)].
  - destruct Hp as [Hp|Hp]; apply (ParseHeader_app _ _ k _ _ _ _ Hr) in Hp; cbn iota in Hp; rewrite app_nil_l in Hp;
      eexists _, k, true; (split; [exact Hp|]); auto.
  - destruct (ParseHeader_total h io REQUEST_LINE Hr) as ([[h1 r1] b] & H1). exists h1, r1, b. split; [done|].
    pose proof (ParseHeader_app _ _ t2 _ _ _ _ Hr H1) as Ha. destruct b.
    + exfalso. assert (r1 ++ t2 = []) as Hnil%app_eq_nil by (destruct Hp as [Hp|Hp]; congruence). by destruct Hnil.
    + destruct Ha as [Hr1 Ha]. pose proof (ParseHeader_bytes _ _ _ _ _ _ Hr H1) as Hby. rewrite zlen_app in Hb.
      assert (0 < zlen t2) by (destruct t2; [done|]; rewrite zlen_cons; pose proof (zlen_nonneg t2); lia).
      split; [|split; [lia|rewrite zlen_app; lia]]. split; [done|]. exists (r1 ++ t2). split; [by rewrite <- app_assoc|].
      split; [rewrite zlen_app; lia|]. right. destruct Hp as [Hp|Hp]; apply Ha in Hp; [done|]. by rewrite note_note in Hp.
Qed.

(** ** A server that reads a request *)

(** What a connection does with the bytes it has: while the answer says so it calls again,
    which it says once, after the header. *)
Definition parse_available (p : RequestParser) (io : bytes) (req : Request) : option (Z * RequestParser * bytes * Request) :=
  '(code, p, io, req) ← ParseClientRequest p io req;
  if Z.testbit code 7 then ParseClientRequest p io req else Some (code, p, io, req).

(** The pieces are added to the stream as they arrive, until the request is finished. *)
Fixpoint receive (p : RequestParser) (io : bytes) (req : Request) (pieces : list bytes) : option (bool * RequestParser * bytes * Request) :=
  match pieces with
  | [] => Some (false, p, io, req)
  | c :: pieces =>
      '(code, p, io, req) ← parse_available p (io ++ c) req;
      if finished code then Some (true, p, io ++ concat pieces, req) else receive p io req pieces
  end.

Section Receive.
Variables (l : Limits) (final : Header) (body data rest : bytes).
Hypothesis Hsize : bytes_parsed_ final <= max_header_size_ l.
Hypothesis Hsmall : 10 <= max_header_size_ l.
Hypothesis Hworst : severity READ_NO_DATA <= severity (worst_accepted_header_error_ l).
Hypothesis Hversion : http_version_ final <> VERSION_UNKNOWN.
Hypothesis Hmethod : method_ final <> METHOD_UNKNOWN.
Hypothesis Hok : parse_error_ final = READ_OK.
Hypothesis Hann : announces final data.
Hypothesis Hbody : body_text l final data body.

Definition payload_of (p : RequestParser) (io : bytes) (req : Request) : Parsing := mkParsing p io (client_header_ req) (client_data_ req).

Inductive receiving (p : RequestParser) (io : bytes) (req : Request) (fut : bytes) : Prop :=
  | receiving_start : p = Parser_new l -> header_coming final (HttpHeader.Clear (client_header_ req)) io fut (body ++ rest) ->
      receiving p io req fut
  | receiving_header : p = with_parse_state STATE_HEADER_READING (Parser_new l) -> client_data_ req = [] ->
      header_coming final (client_header_ req) io fut (body ++ rest) -> receiving p io req fut
  | receiving_payload todo : plain (payload_of p io req) -> payload_coming (payload_of p io req) fut rest todo ->
      client_data_ req ++ todo = data -> (client_header_ req = final \/ client_header_ req = note final) -> receiving p io req fut.

Definition received (p : RequestParser) (io : bytes) (req : Request) (fut : bytes) : Prop :=
  (parse_state_ p = STATE_BODY_END \/ parse_state_ p = STATE_END_OF_TRAIL_HEADER) /\ io ++ fut = rest /\ client_data_ req = data /\
  (client_header_ req = final \/ client_header_ req = note final).

Definition received_or_receiving (fut : bytes) (r : Z * RequestParser * bytes * Request) : Prop :=
  let '(code, p, io, req) := r in
  Z.testbit code 7 = false /\
  if finished code then received p io req fut else zlen rest < zlen fut /\ receiving p io req fut.

Lemma same_announced h : h = final \/ h = note final -> announces h data /\ body_text l h data body /\
  IsGzipContentEncoding h = Some false /\ IsDeflateContentEncoding h = Some false.
Proof. destruct Hann as (_ & _ & H1 & H2 & _). by intros [-> | ->]. Qed.

(** The answer of the payload parser, seen from the request. *)
Lemma payload_received p io req fut todo r : payload_answer (payload_of p io req) fut rest todo r ->
  client_data_ req ++ todo = data -> (client_header_ req = final \/ client_header_ req = note final) ->
  received_or_receiving fut (r.1, parser r.2, inp r.2, with_client_data (out r.2) (with_client_header (header r.2) req)).
Proof.
  destruct r as [code x]. unfold payload_answer, received_or_receiving. cbn [fst snd]. intros [H7 Hr] Hd Hh. split; [done|]. destruct (finished code).
  - destruct Hr as (Hs & _ & Ho & Hhd & _ & Hi). unfold received. cbn [client_data_ client_header_ with_client_data with_client_header].
    rewrite Ho, Hhd. by split_and!.
  - destruct Hr as (Hz & d & todo' & Ho & Ht & Hp & Hc & Hhd & _). split; [done|].
    assert (Hx : payload_of (parser x) (inp x) (with_client_data (out x) (with_client_header (header x) req)) = x) by by destruct x.
    apply (receiving_payload _ _ _ _ todo'); rewrite ?Hx; try done; cbn [client_data_ client_header_ with_client_data with_client_header].
    + rewrite Ho. cbn [out payload_of]. by rewrite <- app_assoc, <- Ht.
    + by rewrite Hhd.
Qed.

Lemma ParseClientRequest_payload p io req : InFinalState p = false -> parse_state_ p <> STATE_INITIALIZED -> parse_state_ p <> STATE_HEADER_READING ->
  ParseClientRequest p io req =
  '(code, x) ← ParsePayloadInternal (payload_of p io req);
  Some (code, parser x, inp x, with_client_data (out x) (with_client_header (header x) req)).
Proof.
  intros Hf H1 H2. unfold ParseClientRequest. rewrite Hf. cbn [negb CHECK mbind option_bind].
  rewrite bool_decide_false by done. cbn iota beta zeta. by rewrite bool_decide_false by done.
Qed.

Lemma payload_coming_state x fut todo : payload_coming x fut rest todo ->
  InFinalState (parser x) = false /\ parse_state_ (parser x) <> STATE_INITIALIZED /\ parse_state_ (parser x) <> STATE_HEADER_READING.
Proof. unfold payload_coming, coming, InFinalState. by destruct (parse_state_ (parser x)). Qed.

Lemma receive_payload p io req fut todo : plain (payload_of p io req) -> payload_coming (payload_of p io req) fut rest todo ->
  client_data_ req ++ todo = data -> (client_header_ req = final \/ client_header_ req = note final) ->
  exists r, ParseClientRequest p io req = Some r /\ received_or_receiving fut r.
Proof.
  intros Hp Hc Hd Hh. destruct (payload_coming_state _ _ _ Hc) as (H1 & H2 & H3). rewrite ParseClientRequest_payload by done.
  destruct (payload_answer_parse _ _ _ _ Hp Hc) as ([code x] & -> & Hr). cbn [mbind option_bind]. eexists. split; [done|].
  by apply (payload_received p io req fut todo (code, x)).
Qed.

Lemma severity_final h : h = final \/ h = note final -> bytes_parsed_ h = bytes_parsed_ final /\ http_version_ h = http_version_ final /\
  method_ h = method_ final /\ severity (parse_error_ h) <= 2.
Proof. intros [-> | ->]; split_and!; try done; cbn; rewrite Hok; done. Qed.

Lemma receive_header p io req fut : p = with_parse_state STATE_HEADER_READING (Parser_new l) -> client_data_ req = [] ->
  header_coming final (client_header_ req) io fut (body ++ rest) ->
  exists r, parse_available p io req = Some r /\ received_or_receiving fut r.
Proof.
  intros -> Hd Hc. destruct (header_parse _ _ _ _ _ Hc) as (h1 & r1 & b & Hp & Hb). unfold parse_available.
  set (p := with_parse_state STATE_HEADER_READING (Parser_new l)). destruct b.
  - destruct Hb as [Hh Hr1]. destruct (severity_final h1 Hh) as (Hb1 & Hv1 & Hm1 & Hs1).
    assert (Hone : ParseClientRequest p io req = Some (HEADER_READ .| CONTINUE, with_parse_state STATE_END_OF_HEADER p, r1, with_client_header h1 req)).
    { unfold ParseClientRequest. change (InFinalState p) with false. cbn [negb CHECK mbind option_bind].
      change (parse_state_ p) with STATE_HEADER_READING. rewrite bool_decide_false by done. cbn iota beta zeta.
      change (parse_state_ p) with STATE_HEADER_READING. rewrite bool_decide_true, Hp by done. cbn [mbind option_bind negb]. change (limits p) with l.
      rewrite (proj2 (Z.ltb_ge _ _)) by lia. rewrite (bool_decide_false (http_version_ h1 = _)), (bool_decide_false (method_ h1 = _)) by congruence.
      cbn [andb orb]. change (severity READ_NO_DATA) with 2 in Hworst. by rewrite (proj2 (Z.ltb_ge _ _)) by lia. }
    rewrite Hone. cbn [mbind option_bind]. change (Z.testbit (HEADER_READ .| CONTINUE) 7) with true. cbn iota.
    rewrite ParseClientRequest_payload by done. set (p2 := with_parse_state STATE_END_OF_HEADER _). set (req2 := with_client_header h1 req).
    destruct (same_announced h1 Hh) as (Ha & Ht & Hg & Hde).
    destruct (payload_start (payload_of p2 r1 req2) fut rest data body) as ([code x] & -> & Hr); try done.
    { by split; try done; left. }
    cbn [mbind option_bind]. eexists. split; [done|]. apply (payload_received p2 r1 req2 fut data (code, x)); try done.
    unfold req2. cbn [client_data_ with_client_header]. by rewrite Hd.
  - destruct Hb as (Hc1 & Hle & Hz).
    assert (Hone : exists s, ParseClientRequest p io req = Some (0, p, r1, with_server_header s (with_client_header h1 req))).
    { eexists. unfold ParseClientRequest. change (InFinalState p) with false. cbn [negb CHECK mbind option_bind].
      change (parse_state_ p) with STATE_HEADER_READING. rewrite bool_decide_false by done. cbn iota beta zeta.
      change (parse_state_ p) with STATE_HEADER_READING. rewrite bool_decide_true, Hp by done. cbn [mbind option_bind negb]. change (limits p) with l.
      by rewrite (proj2 (Z.ltb_ge _ _)) by lia. }
    destruct Hone as [s ->]. cbn [mbind option_bind]. change (Z.testbit 0 7) with false.
    eexists. split; [done|]. unfold received_or_receiving. split; [done|]. change (finished 0) with false. cbn iota.
    rewrite zlen_app in Hz. split; [pose proof (zlen_nonneg body); lia|]. by apply receiving_header.
Qed.

Lemma receive_one p io req fut : receiving p io req fut -> exists r, parse_available p io req = Some r /\ received_or_receiving fut r.
Proof.
  intros [-> Hc | -> Hd Hc | todo Hp Hc Hd Hh].
  - apply (receive_header (with_parse_state STATE_HEADER_READING (Parser_new l)) io (with_client_header (HttpHeader.Clear (client_header_ req)) (with_client_data [] req)) fut) in Hc; done.
  - by apply receive_header.
  - destruct (receive_payload p io req fut todo Hp Hc Hd Hh) as ([[[code p'] io'] req'] & H1 & H2). exists (code, p', io', req').
    split; [|done]. unfold parse_available. rewrite H1. cbn [mbind option_bind]. destruct H2 as (H7 & _). by rewrite H7.
Qed.

(** What has arrived counts like what will. *)
Lemma receiving_more p io req c fut : receiving p io req (c ++ fut) -> receiving p (io ++ c) req fut.
Proof.
  assert (Hh : forall h rest', header_coming final h io (c ++ fut) rest' -> header_coming final h (io ++ c) fut rest').
  { intros h rest' (Hr & text & E & Ht). split; [done|]. exists text. by rewrite <- app_assoc. }
  intros [-> Hc | -> Hd Hc | todo Hp Hc Hd Hf].
  - apply receiving_start; auto.
  - apply receiving_header; auto.
  - apply (receiving_payload _ _ _ _ todo); try done.
    + by split; try done; apply Hp.
    + unfold payload_coming, coming, body_coming in *. cbn [parser inp payload_of] in *. rewrite <- app_assoc. exact Hc.
Qed.

Lemma receive_all pieces : forall p io req, receiving p io req (concat pieces) -> zlen rest < zlen (concat pieces) ->
  exists p' io' req', receive p io req pieces = Some (true, p', io', req') /\ received p' io' req' [].
Proof.
  induction pieces as [|c pieces IH]; intros p io req Hr Hz; [pose proof (zlen_nonneg rest); cbn in Hz; change (zlen []) with 0 in Hz; lia|].
  cbn [receive concat] in *. apply receiving_more in Hr. destruct (receive_one _ _ _ _ Hr) as ([[[code p1] io1] req1] & -> & _ & H1).
  cbn [mbind option_bind]. destruct (finished code).
  - exists p1, (io1 ++ concat pieces), req1. split; [done|]. unfold received in *. by rewrite app_nil_r.
  - destruct H1 as [Hz1 Hr1]. by apply IH.
Qed.

End Receive.

End Codec.

End HttpReceive.
