(* ===== verification/HttpSafety.v ===== *)
(** * HttpSafety: the parser of messages never fails

    Whatever bytes come, in whatever pieces, no call of [RequestParser] meets a failed
    [CHECK], a wrong state or a loop without end: what every part keeps of the state, and
    what the parser asks of the decompressors for it, [CodecLaws]. *)

From S2P Require Import Prelude.
From S2P Require Import CString.
From S2P Require Import StrUtil.
From S2P Require Import DataBlock.
From S2P Require Import MemoryStream.
From S2P Require Import MemoryStreamSpec.
From S2P Require Import ByteStream.
From S2P Require Import HttpConsts.
From S2P Require Import HttpHeader.
From S2P Require Import HttpHeaderSpec.
From S2P Require Import HttpRequest.
From S2P Require Import HttpRequestSpec.

Module HttpSafety.
Import HttpConsts HttpHeader StrUtil HttpRequest HttpRequestSpec.

(** A decoder always answers, and leaves no more than it was given. *)
Class CodecLaws `{Codec} : Prop := {
  GzipDecode_total d b : exists zerr d' rest tmp, GzipDecode d b = Some (zerr, d', rest, tmp) /\ zlen rest <= zlen b;
  InflateSize_total d b : exists zerr d' rest tmp, InflateSize d b = Some (zerr, d', rest, tmp) /\ zlen rest <= zlen b;
}.

Section Codec.
Context `{CodecLaws}.

(** ** The fields it looks at *)

Lemma field_has_prefix_total h name prefix : exists b, field_has_prefix h name prefix = Some b.
Proof. unfold field_has_prefix. rewrite StrTrim_trims. by eexists. Qed.

Lemma IsKnownEncoding_total field known h : exists b, IsKnownEncoding field known h = Some b.
Proof. unfold IsKnownEncoding. destruct (fields_ h !! field); [|by eexists]. rewrite StrTrim_trims. by eexists. Qed.

(** A content encoding starts with one of the two names only. *)
Lemma content_decoders_total x : exists g d, content_decoders x = Some (g, d) /\ g && d = false.
Proof.
  unfold content_decoders, IsGzipContentEncoding, IsDeflateContentEncoding, field_has_prefix. rewrite StrTrim_trims. cbn [mbind option_bind].
  set (s := cstr _). assert (Hs : StrCasePrefix s kGzip && StrCasePrefix s kDeflate = false).
  { destruct s as [|c s]; [done|]. destruct (StrCasePrefix (c :: s) kGzip) eqn:E1; [|done]. destruct (StrCasePrefix (c :: s) kDeflate) eqn:E2; [|done].
    exfalso. revert E1 E2. unfold StrCasePrefix. by destruct c. }
  destruct (bool_decide _ && _); do 2 eexists; by split.
Qed.

Lemma copy_fields_total l : forall h replace n, exists r, copy_fields h l replace n = Some r.
Proof.
  induction l as [|[k c] l IH]; intros h replace n; [by eexists|]. cbn [copy_fields]. unfold AddField, AddField_buffer, field_key.
  destruct (negb _ || _); cbn [mbind option_bind]; apply IH.
Qed.

(** ** What an answer leaves *)

(** The parser is at work on a payload. *)
Record sound (x : Parsing) : Prop := {
  so_final : InFinalState (parser x) = false;
  so_payload : parse_state_ (parser x) <> STATE_INITIALIZED /\ parse_state_ (parser x) <> STATE_HEADER_READING;
  so_trail : name_ok (trail_header_ (parser x));
  so_chunk : parse_state_ (parser x) = STATE_CHUNK_READING -> 0 < chunk_size_to_read_ (parser x) }.

(** A final state, or the body in gzip with an error ([broken_gzip_body_not_an_error]). *)
Definition ended (p : RequestParser) : Prop := InFinalState p = true \/ parse_state_ p = STATE_BODY_READING.

Definition answer_ok (r : Z * Parsing) : Prop :=
  Z.testbit r.1 7 = false /\ if finished r.1 then ended (parser r.2) else sound r.2.

Lemma answer_final code s x : Z.testbit code 7 = false -> finished code = true -> FIRST_FINAL_STATE <= state_value s ->
  answer_ok (code, set_parse_state s x).
Proof. intros H7 Hf Hs. split; [done|]. cbn [fst snd]. rewrite Hf. left. unfold InFinalState. by apply Z.leb_le. Qed.

Lemma answer_refuse bits s x : Z.testbit (HEADER_READ .| bits .| REQUEST_FINISHED) 7 = false -> FIRST_FINAL_STATE <= state_value s ->
  answer_ok (refuse bits s x).
Proof. intros. apply answer_final; [done| |done]. unfold finished. by rewrite Z.lor_spec, orb_true_r. Qed.

(** What the decoders leave alone. *)
Record kept (x x' : Parsing) : Prop := {
  kp_state : parse_state_ (parser x') = parse_state_ (parser x);
  kp_chunk : chunk_size_to_read_ (parser x') = chunk_size_to_read_ (parser x);
  kp_trail : trail_header_ (parser x') = trail_header_ (parser x);
  kp_inp : inp x' = inp x }.

Lemma kept_refl x : kept x x.
Proof. done. Qed.

Lemma kept_trans x y z : kept x y -> kept y z -> kept x z.
Proof. intros [? ? ? ?] [? ? ? ?]. split; congruence. Qed.

Lemma kept_sound x x' : kept x x' -> sound x -> sound x'.
Proof.
  intros [Hs Hc Ht _] [H1 H2 H3 H4]. unfold InFinalState in *. split.
  - unfold InFinalState. by rewrite Hs.
  - by rewrite Hs.
  - by rewrite Ht.
  - rewrite Hs, Hc. exact H4.
Qed.

(** ** The decoders *)

Definition good_exit (x : Parsing) (r : Exit) : Prop :=
  match r with
  | (inl code, x') => answer_ok (code, x')
  | (inr _, x') => kept x x'
  end.

(** A round of a gzip loop goes on with less to decode, or leaves. *)
Definition good_round (step : Parsing -> option (Parsing + Exit)) (x : Parsing) : Prop :=
  exists r, step x = Some r /\
    match r with
    | inl x' => kept x x' /\ gzip_zwrapper_ (parser x') <> None /\ (length (partial_data_ (parser x')) < length (partial_data_ (parser x)))%nat
    | inr e => good_exit x e
    end.

Lemma decode_partial_total x : gzip_zwrapper_ (parser x) <> None ->
  exists zerr consumed tmp x', decode_partial x = Some (zerr, consumed, tmp, x') /\ kept x x' /\ gzip_zwrapper_ (parser x') <> None /\
    body_size_to_read_ (parser x') = body_size_to_read_ (parser x) /\
    zlen (partial_data_ (parser x)) = consumed + zlen (partial_data_ (parser x')).
Proof.
  intros Hg. unfold decode_partial. destruct (gzip_zwrapper_ (parser x)) as [d|]; [|done]. cbn [mbind option_bind].
  destruct (GzipDecode_total d (partial_data_ (parser x))) as (zerr & d' & rest & tmp & -> & Hr). cbn [mbind option_bind].
  do 4 eexists. split; [done|]. split; [by split|]. split; [done|]. split; [done|]. parser_cbn. cbn [with_gzip partial_data_]. lia.
Qed.

(** The end of a round. *)
Lemma again_good consumed x y : kept x y -> gzip_zwrapper_ (parser y) <> None -> zlen (partial_data_ (parser x)) = consumed + zlen (partial_data_ (parser y)) ->
  match again consumed y with
  | inl x' => kept x x' /\ gzip_zwrapper_ (parser x') <> None /\ (length (partial_data_ (parser x')) < length (partial_data_ (parser x)))%nat
  | inr e => good_exit x e
  end.
Proof.
  intros Hk Hg Hz. unfold again, more_to_decode. destruct (Z.ltb_spec 0 consumed) as [Hc|Hc]; cbn [andb]; [|done].
  destruct (negb _); [|done]. split; [done|]. split; [done|]. unfold zlen in Hz. lia.
Qed.

Lemma body_gzip_round m x : sound x -> parse_state_ (parser x) = STATE_BODY_READING -> gzip_zwrapper_ (parser x) <> None ->
  good_round (body_gzip_step m) x.
Proof.
  intros Hs Hst Hg. unfold good_round, body_gzip_step. destruct (decode_partial_total x Hg) as (zerr & consumed & tmp & y & -> & Hk & Hgy & _ & Hz).
  cbn [mbind option_bind]. assert (Hk' : kept x (append_out tmp y)) by (destruct Hk; by split).
  destruct (zerr =? Z_STREAM_END); [|destruct (negb (zerr =? Z_OK))].
  - destruct (_ && _); eexists; (split; [done|]); [by apply answer_final|]. by apply again_good.
  - destruct (negb m); eexists; (split; [done|]).
    + split; [done|]. change (finished _) with true. cbn [snd]. right. by rewrite (kp_state _ _ Hk).
    + destruct Hk. by split.
  - destruct (_ =? 0); eexists; (split; [done|]); [by apply answer_final|]. by apply again_good.
Qed.

Lemma chunk_gzip_round m x : gzip_zwrapper_ (parser x) <> None -> good_round (chunk_gzip_step m) x.
Proof.
  intros Hg. unfold good_round, chunk_gzip_step. destruct (decode_partial_total x Hg) as (zerr & consumed & tmp & y & -> & Hk & Hgy & _ & Hz).
  cbn [mbind option_bind]. assert (Hk' : kept x (append_out tmp y)) by (destruct Hk; by split).
  destruct (zerr =? Z_STREAM_END); [|destruct (negb (zerr =? Z_OK))].
  - eexists; split; [done|]. by apply again_good.
  - destruct (negb m); eexists; (split; [done|]); [by apply answer_final|]. destruct Hk. by split.
  - eexists; split; [done|]. destruct (_ =? 0); apply again_good; try done. destruct Hk'. by split.
Qed.

Lemma gzip_content_total step x (P : Parsing -> Prop) : (forall y, kept x y -> P y) ->
  (forall m y, P y -> gzip_zwrapper_ (parser y) <> None -> good_round (step m) y) ->
  exists e, gzip_content step x = Some e /\ good_exit x e.
Proof.
  intros HP Hround. unfold gzip_content. set (m := bool_decide _). set (x1 := new_gzip x).
  assert (H1 : kept x x1 /\ gzip_zwrapper_ (parser x1) <> None).
  { unfold x1, new_gzip. destruct (gzip_zwrapper_ (parser x)) eqn:E; [by rewrite E|]. by split; [split|]. }
  destruct (loop_total (step m) (fun y => kept x y /\ gzip_zwrapper_ (parser y) <> None) (good_exit x) (fun y => length (partial_data_ (parser y))))
    with (fuel := decode_fuel x1) (s := x1) as (e & He & Hq); [|done|unfold decode_fuel; lia|by exists e].
  intros y [Hk Hg]. destruct (Hround m y (HP y Hk) Hg) as ([y'|e] & Hy & Hr); (eexists; split; [exact Hy|]).
  - destruct Hr as (Hk' & Hg' & Hl). split; [|done]. split; [|done]. by apply (kept_trans x y).
  - destruct e as [[code|b] x']; [done|]. by apply (kept_trans x y).
Qed.

Lemma inflate_content_total x : exists zerr x', inflate_content x = Some (zerr, x') /\ kept x x'.
Proof.
  unfold inflate_content. set (d := default _ _). destruct (InflateSize_total d (partial_data_ (parser x))) as (zerr & d' & rest & tmp & -> & _).
  cbn [mbind option_bind]. do 2 eexists. split; [done|]. by split.
Qed.

(** ** A body *)

Lemma deflated_body_total x : sound x -> parse_state_ (parser x) = STATE_BODY_READING -> exists r, deflated_body x = Some r /\ answer_ok r.
Proof.
  intros Hs Hst. unfold deflated_body. destruct (inflate_content_total x) as (zerr & y & -> & Hk). cbn [mbind option_bind].
  destruct (zerr =? Z_STREAM_END); [destruct (0 <? _)|destruct (negb _)]; eexists; (split; [done|]); try by apply answer_final.
  split; [done|]. change (finished _) with false. by apply (kept_sound x).
Qed.

Lemma ParseBodyInternal_total x : sound x -> parse_state_ (parser x) = STATE_BODY_READING -> exists r, ParseBodyInternal x = Some r /\ answer_ok r.
Proof.
  intros Hs Hst. unfold ParseBodyInternal. rewrite Hst, bool_decide_true by done. cbn [CHECK mbind option_bind]. cbv zeta.
  destruct (_ && _); [eexists; split; [done|]; by apply answer_final|].
  set (n := Z.min _ _). set (x1 := on_parser _ (take_partial n x)).
  assert (Hs1 : sound x1) by (destruct Hs; by split). assert (Hst1 : parse_state_ (parser x1) = STATE_BODY_READING) by done.
  destruct (content_decoders_total x1) as (g & d & -> & Hgd). cbn [mbind option_bind]. destruct g; cbn [andb] in Hgd.
  - rewrite Hgd. cbn [negb CHECK mbind option_bind].
    destruct (gzip_content_total body_gzip_step x1 (fun y => sound y /\ parse_state_ (parser y) = STATE_BODY_READING)) as ([[code|b] y] & -> & Hy).
    { intros y Hk. split; [by apply (kept_sound x1)|]. by rewrite (kp_state _ _ Hk). }
    { intros m y [? ?] ?. by apply body_gzip_round. }
    + cbn [mbind option_bind]. by eexists.
    + cbn [mbind option_bind good_exit] in *. assert (Hsy : sound y) by by apply (kept_sound x1).
      destruct b; [apply deflated_body_total; [done|by rewrite (kp_state _ _ Hy)]|]. eexists. split; [done|]. by split.
  - destruct d; [by apply deflated_body_total|]. eexists. split; [done|]. unfold identity_body. destruct (_ =? 0); [by apply answer_final|].
    split; [done|]. change (finished _) with false. destruct Hs1. by split.
Qed.

(** ** Chunks *)

Definition in_chunks (x : Parsing) : Prop := state_value STATE_CHUNK_HEAD_READING <= state_value (parse_state_ (parser x)).

(** A round of the loop over the chunks. *)
Definition good_chunk (x : Parsing) (r : Parsing + Z * Parsing) : Prop :=
  match r with
  | inl x' => (sound x' /\ in_chunks x') /\ (length (inp x') < length (inp x))%nat
  | inr r => answer_ok r
  end.

Lemma ReadLine_cases x : (ReadLine x = (x, None)) \/ exists x' line, ReadLine x = (x', Some line) /\ parser x' = parser x /\ (length (inp x') < length (inp x))%nat.
Proof.
  unfold ReadLine. destruct (crlf_line (inp x)) as [line|] eqn:E; cbn [fmap option_fmap option_map default].
  - right. do 2 eexists. split; [done|]. split; [done|]. destruct (crlf_line_drop _ _ E) as (Hc & _ & Hlen). apply (f_equal zlen) in Hc.
    rewrite zlen_app in Hc. cbn [inp set_inp id]. unfold zlen in *. lia.
  - left. change (zlen []) with 0. by rewrite dropZ_0, set_inp_same.
Qed.

Lemma sound_at s x x' : sound x -> state_value s < FIRST_FINAL_STATE -> s <> STATE_INITIALIZED -> s <> STATE_HEADER_READING -> s <> STATE_CHUNK_READING ->
  parse_state_ (parser x') = s -> trail_header_ (parser x') = trail_header_ (parser x) -> sound x'.
Proof.
  intros [_ _ Ht _] Hs H1 H2 H3 E E'. split; [unfold InFinalState; rewrite E; by apply Z.leb_gt|by rewrite E|by rewrite E'|]. by rewrite E.
Qed.

Lemma answer_waiting code x : Z.testbit code 7 = false -> finished code = false -> sound x -> answer_ok (code, x).
Proof. intros H7 Hf Hs. split; [done|]. cbn [fst snd]. by rewrite Hf. Qed.

Lemma head_total x : sound x -> good_chunk x (read_chunk_head x).
Proof.
  intros Hs. unfold read_chunk_head. destruct (ReadLine_cases x) as [-> | (x' & line & -> & Hp & Hl)].
  - destruct (_ <? _); [by apply answer_refuse|]. by apply answer_waiting.
  - assert (Ht : trail_header_ (parser x') = trail_header_ (parser x)) by by rewrite Hp.
    destruct (strtol16 line) as [n errno]. destruct (errno || (n <? 0)) eqn:E1; [by apply answer_refuse|].
    apply orb_false_iff in E1 as [_ E1]. apply Z.ltb_ge in E1. destruct (Z.eqb_spec n 0) as [Hn|Hn].
    + destruct (bool_decide _); [by apply answer_refuse|]. split; [|done]. split; [|done]. by apply (sound_at STATE_LAST_CHUNK_READ x).
    + destruct (bool_decide _); [by apply answer_refuse|]. destruct (_ <? n); [by apply answer_refuse|]. cbv zeta.
      destruct (_ && _); [by apply answer_refuse|]. split; [|done]. split; [|done]. split; try done.
      * change (name_ok (trail_header_ (parser x'))). rewrite Ht. apply Hs.
      * intros _. change (0 < n). lia.
Qed.

Lemma end_total x : sound x -> good_chunk x (read_chunk_end x).
Proof.
  intros Hs. unfold read_chunk_end. destruct (ReadLine_cases x) as [-> | (x' & line & -> & Hp & Hl)].
  - destruct (_ <? _); [by apply answer_refuse|]. by apply answer_waiting.
  - case_bool_decide; [|by apply answer_refuse]. split; [|done]. split; [|done]. apply (sound_at STATE_CHUNK_HEAD_READING x); try done. change (trail_header_ (parser x') = trail_header_ (parser x)). by rewrite Hp.
Qed.

Lemma deflated_chunk_total x : sound x -> exists r, deflated_chunk x = Some r /\
  match r with inl x' => kept x x' | inr r => answer_ok r end.
Proof.
  intros Hs. unfold deflated_chunk. destruct (inflate_content_total x) as (zerr & y & -> & Hk). cbn [mbind option_bind].
  destruct (zerr =? Z_STREAM_END); [destruct (0 <? _)|destruct (negb _)]; (eexists; split; [done|]); try by apply answer_refuse.
  - destruct Hk; by split.
  - destruct (_ =? 0); [destruct Hk; by split|done].
Qed.

(** Of a chunk at least one byte is taken, and the rest is still to come. *)
Lemma data_total x : sound x -> parse_state_ (parser x) = STATE_CHUNK_READING -> exists r, read_chunk_data x = Some r /\ good_chunk x r.
Proof.
  intros Hs Hst. unfold read_chunk_data. case_bool_decide as Hin.
  { eexists. split; [done|]. by apply answer_waiting. }
  assert (Hpos : 0 < zlen (inp x)) by (destruct (inp x) as [|b io]; [done|]; rewrite zlen_cons; pose proof (zlen_nonneg io); lia).
  pose proof (so_chunk _ Hs Hst) as Hsize. set (n := Z.min _ _). cbv zeta.
  destruct (content_decoders_total (take_partial n x)) as (g & d & -> & Hgd). cbn [mbind option_bind].
  set (x1 := on_parser _ (take_partial n x)). set (x2 := if _ =? 0 then _ else _).
  assert (H2 : sound x2 /\ in_chunks x2 /\ inp x2 = dropZ n (inp x)).
  { unfold x2. destruct (Z.eqb_spec (chunk_size_to_read_ (parser x1)) 0) as [Hz|Hz]; (split; [|split; [|done]]).
    - by apply (sound_at STATE_END_OF_CHUNK x).
    - done.
    - destruct Hs. split; try done. intros _. change (chunk_size_to_read_ (parser x1)) with (chunk_size_to_read_ (parser x) - n) in *. lia.
    - unfold in_chunks. change (parse_state_ (parser x1)) with (parse_state_ (parser x)). by rewrite Hst. }
  clearbody x2. destruct H2 as (Hs2 & Hc2 & Hi2).
  assert (Hl : forall y, kept x2 y -> good_chunk x (inl y)).
  { intros y Hk. split; [split; [by apply (kept_sound x2)|unfold in_chunks; by rewrite (kp_state _ _ Hk)]|]. rewrite (kp_inp _ _ Hk), Hi2. unfold dropZ. rewrite length_drop. unfold zlen in *. lia. }
  assert (Hdef : forall y, kept x2 y -> exists r, deflated_chunk y = Some r /\ good_chunk x r).
  { intros y Hk. destruct (deflated_chunk_total y) as (r & -> & Hr); [by apply (kept_sound x2)|]. eexists. split; [done|].
    destruct r; [|done]. apply Hl. by apply (kept_trans _ y). }
  destruct g; cbn [andb] in Hgd; [rewrite Hgd; cbn [negb CHECK mbind option_bind]|destruct d].
  - destruct (_ <? kMinGzipDataSize).
    { destruct (_ <? _); (eexists; split; [done|]); [by apply Hl|by apply answer_waiting]. }
    destruct (gzip_content_total chunk_gzip_step x2 (fun _ => True)) as ([[code|b] y] & -> & Hy); [done|intros; by apply chunk_gzip_round|..]; cbn [mbind option_bind].
    + by eexists.
    + destruct b; [by apply Hdef|]. eexists. split; [done|]. by apply Hl.
  - by apply Hdef.
  - eexists. split; [done|]. apply Hl. by split.
Qed.

Lemma ParseTrailHeader_total x : sound x -> parse_state_ (parser x) = STATE_LAST_CHUNK_READ -> exists r, ParseTrailHeader x = Some r /\ answer_ok r.
Proof.
  intros Hs Hst. unfold ParseTrailHeader. rewrite Hst, bool_decide_true by done. cbn [CHECK mbind option_bind].
  destruct (ReadHeaderFields_total (trail_header_ (parser x)) (inp x) (so_trail _ Hs)) as ([[h io] done] & E). rewrite E. cbn [mbind option_bind].
  pose proof (ReadHeaderFields_app _ _ [] _ _ _ (so_trail _ Hs) E) as Hi. set (x1 := on_parser _ _). destruct done; cbn [negb].
  - destruct (_ <? _); [eexists; split; [done|]; by apply answer_refuse|]. unfold CopyHeaderFields.
    destruct (copy_fields_total (sorted_fields (fields_ h)) (header x1) false 0) as ([h' k] & ->). cbn [mbind option_bind].
    eexists. split; [done|]. by apply answer_final.
  - destruct (_ <? _); (eexists; split; [done|]); [by apply answer_refuse|]. apply answer_waiting; [done..|]. destruct Hs as [H1 H2 H3 H4]. split; try done. by destruct Hi as [[? _] _].
Qed.

Lemma ParseChunksInternal_total x : sound x -> in_chunks x -> exists r, ParseChunksInternal x = Some r /\ answer_ok r.
Proof.
  intros Hs Hst. unfold ParseChunksInternal.
  apply (loop_total ParseChunksInternal_step (fun y => sound y /\ in_chunks y) answer_ok (fun y => length (inp y))); [|done|lia].
  clear x Hs Hst. intros x [Hs Hst]. change (exists r, ParseChunksInternal_step x = Some r /\ good_chunk x r).
  pose proof (so_final _ Hs) as Hf. unfold InFinalState in Hf. apply Z.leb_gt in Hf. unfold in_chunks in Hst. unfold ParseChunksInternal_step.
  destruct (parse_state_ (parser x)) eqn:E; try (by destruct (Hst eq_refl)); try discriminate Hf.
  - eexists. split; [done|]. by apply head_total.
  - by apply data_total.
  - eexists. split; [done|]. by apply end_total.
  - destruct (ParseTrailHeader_total x Hs E) as (r & -> & Hr). by eexists.
Qed.

Lemma ParsePayloadInternal_total x : sound x -> exists r, ParsePayloadInternal x = Some r /\ answer_ok r.
Proof.
  intros Hs. pose proof (so_final _ Hs) as Hf. pose proof (so_payload _ Hs) as [Hp1 Hp2]. unfold InFinalState in Hf. apply Z.leb_gt in Hf.
  unfold ParsePayloadInternal.
  assert (Hge : state_value STATE_END_OF_HEADER <= state_value (parse_state_ (parser x))) by (destruct (parse_state_ (parser x)); cbv; done).
  rewrite (proj2 (Z.leb_le _ _) Hge). cbn [CHECK mbind option_bind].
  assert (Hgo : forall y, sound y -> parse_state_ (parser y) <> STATE_END_OF_HEADER -> exists r,
    (if bool_decide (parse_state_ (parser y) = STATE_BODY_READING) then ParseBodyInternal y
     else _ ← CHECK (state_value STATE_CHUNK_HEAD_READING <=? state_value (parse_state_ (parser y))); ParseChunksInternal y) = Some r /\ answer_ok r).
  { intros y Hy Hst. pose proof (so_final _ Hy) as Hf'. pose proof (so_payload _ Hy) as [? ?]. unfold InFinalState in Hf'. apply Z.leb_gt in Hf'.
    case_bool_decide; [by apply ParseBodyInternal_total|].
    assert (Hc : in_chunks y) by (unfold in_chunks; destruct (parse_state_ (parser y)); cbv in *; done).
    rewrite (proj2 (Z.leb_le _ _) Hc). cbn [CHECK mbind option_bind]. by apply ParseChunksInternal_total. }
  case_bool_decide as Hst; cbn [negb]; [|cbn [mbind option_bind]; by apply Hgo].
  unfold IsKnownContentEncoding, IsKnownTransferEncoding, IsChunkedTransfer.
  destruct (IsKnownEncoding_total kHeaderContentEncoding [kGzip; kDeflate; kIdentity] (header x)) as ([|] & ->); cbn [mbind option_bind negb];
    [|eexists; split; [done|]; by apply answer_final].
  destruct (IsKnownEncoding_total kHeaderTransferEncoding [kChunked; kIdentity] (header x)) as ([|] & ->); cbn [mbind option_bind negb];
    [|eexists; split; [done|]; by apply answer_final].
  destruct (field_has_prefix_total (header x) kHeaderTransferEncoding kChunked) as ([|] & ->); cbn [mbind option_bind].
  { apply Hgo; [|done]. by apply (sound_at STATE_CHUNK_HEAD_READING x). }
  destruct (fields_ (header x) !! kHeaderContentLength) as [s|].
  - destruct (strtol s) as [n errno]. destruct (errno || _); cbn [mbind option_bind]; [eexists; split; [done|]; by apply answer_final|].
    apply Hgo; [|done]. by apply (sound_at STATE_BODY_READING x).
  - cbv zeta. destruct (negb _ && _); cbn [mbind option_bind]; [eexists; split; [done|]; by apply answer_final|].
    apply Hgo; [|done]. apply (sound_at STATE_BODY_READING x); try done. by destruct (_ && _).
Qed.

(** ** The calls *)

Definition parse (reply : bool) : RequestParser -> bytes -> Request -> option (Z * RequestParser * bytes * Request) :=
  if reply then ParseServerReply else ParseClientRequest.

Definition message_header (reply : bool) (req : Request) : Header := if reply then server_header_ req else client_header_ req.

(** A parser between two calls, and the header that it is reading. *)
Record healthy (reply : bool) (p : RequestParser) (req : Request) : Prop := {
  he_final : InFinalState p = false;
  he_header : parse_state_ p = STATE_HEADER_READING -> ready (message_header reply req);
  he_trail : name_ok (trail_header_ p);
  he_chunk : parse_state_ p = STATE_CHUNK_READING -> 0 < chunk_size_to_read_ p }.

Definition call_ok (reply : bool) (r : Z * RequestParser * bytes * Request) : Prop :=
  let '(code, p, _, req) := r in if finished code then ended p else healthy reply p req.

Lemma sound_healthy reply x req : sound x -> healthy reply (parser x) req.
Proof. intros [? [? ?] ? ?]. by split. Qed.

Lemma call_final reply code s p io req : finished code = true -> FIRST_FINAL_STATE <= state_value s ->
  call_ok reply (code, with_parse_state s p, io, req).
Proof. intros Hf Hs. unfold call_ok. rewrite Hf. left. by apply Z.leb_le. Qed.

(** The header is read over. *)
Lemma call_end_of_header reply io req p : name_ok (trail_header_ p) ->
  call_ok reply (HEADER_READ .| CONTINUE, with_parse_state STATE_END_OF_HEADER p, io, req).
Proof. intros. unfold call_ok. change (finished _) with false. by split. Qed.

Lemma ready_more h c t h1 r1 : ready h -> ParseHeader h c t = Some (h1, r1, false) -> ready h1.
Proof. intros Hr E. by destruct (ParseHeader_app _ _ [] _ _ _ _ Hr E). Qed.

Lemma payload_call reply p (req : Request) (x : Parsing) : healthy reply p req -> parse_state_ p <> STATE_INITIALIZED -> parse_state_ p <> STATE_HEADER_READING ->
  parser x = p -> exists code x', ParsePayloadInternal x = Some (code, x') /\ forall io' req', call_ok reply (code, parser x', io', req').
Proof.
  intros [H1 _ H3 H4] Hn1 Hn2 <-. destruct (ParsePayloadInternal_total x) as ([code x'] & -> & _ & Hr); [by split|].
  exists code, x'. split; [done|]. intros io' req'. unfold call_ok. cbn [fst snd] in Hr. destruct (finished code); [done|]. by apply sound_healthy.
Qed.

Lemma ParseClientRequest_total p io req : healthy false p req -> exists r, ParseClientRequest p io req = Some r /\ call_ok false r.
Proof.
  intros Hh. unfold ParseClientRequest. rewrite (he_final _ _ _ Hh). cbn [negb CHECK mbind option_bind].
  destruct (if bool_decide (parse_state_ p = STATE_INITIALIZED) then _ else _) as [p1 req1] eqn:E.
  assert (H1 : healthy false p1 req1 /\ parse_state_ p1 <> STATE_INITIALIZED).
  { case_bool_decide; injection E as <- <-; [|done]. split; [|done]. destruct Hh. split; try done. intros _. apply Header_new_ready. }
  clear E Hh p req. destruct H1 as [Hh Hp]. case_bool_decide as Hst.
  - pose proof (he_header _ _ _ Hh Hst) as Hr. cbn [message_header] in Hr. unfold ParseHttpRequest.
    destruct (ParseHeader_total _ io REQUEST_LINE Hr) as ([[h io'] done] & E). rewrite E. cbn [mbind option_bind]. cbv zeta. destruct done; cbn [negb].
    + destruct (_ <? bytes_parsed_ h); [eexists; split; [done|]; by apply call_final|].
      destruct (_ || _); [eexists; split; [done|]; by apply call_final|].
      destruct (_ <? _); eexists; (split; [done|]); [by apply call_final|]. apply call_end_of_header. apply Hh.
    + destruct (_ <? _); eexists; (split; [done|]); [by apply call_final|]. unfold call_ok. change (finished 0) with false.
      destruct Hh. split; try done. intros _. apply (ready_more _ _ _ _ _ Hr E).
  - destruct (payload_call false p1 req1 (mkParsing p1 io (client_header_ req1) (client_data_ req1))) as (code & x' & -> & Hr); try done.
    cbn [mbind option_bind]. by eexists.
Qed.

Lemma ParseServerReply_total p io req : healthy true p req -> exists r, ParseServerReply p io req = Some r /\ call_ok true r.
Proof.
  intros Hh. unfold ParseServerReply. rewrite (he_final _ _ _ Hh). cbn [negb CHECK mbind option_bind].
  destruct (if bool_decide (parse_state_ p = STATE_INITIALIZED) then _ else _) as [p1 req1] eqn:E.
  assert (H1 : healthy true p1 req1 /\ parse_state_ p1 <> STATE_INITIALIZED).
  { case_bool_decide; injection E as <- <-; [|done]. split; [|done]. destruct Hh. split; try done. intros _. apply Header_new_ready. }
  clear E Hh p req. destruct H1 as [Hh Hp]. case_bool_decide as Hst.
  - pose proof (he_header _ _ _ Hh Hst) as Hr. cbn [message_header] in Hr. unfold ParseHttpReply.
    destruct (ParseHeader_total _ io STATUS_LINE Hr) as ([[h io'] done] & E). rewrite E. cbn [mbind option_bind]. cbv zeta. destruct done; cbn [negb].
    + destruct (_ <? bytes_parsed_ h); [eexists; split; [done|]; by apply call_final|].
      destruct (_ <? _); [eexists; split; [done|]; by apply call_final|].
      destruct (NoServerBodyTransmitted _); eexists; (split; [done|]); [by apply call_final|]. apply call_end_of_header. apply Hh.
    + destruct (_ <? _); eexists; (split; [done|]); [by apply call_final|]. unfold call_ok. change (finished 0) with false.
      destruct Hh. split; try done. intros _. pose proof (ready_more _ _ _ _ _ Hr E) as Hm. cbn [message_header server_header_ with_server_header]. done.
  - destruct (payload_call true p1 req1 (mkParsing p1 io (server_header_ req1) (server_data_ req1))) as (code & x' & -> & Hr); try done.
    cbn [mbind option_bind]. by eexists.
Qed.

Lemma parse_total reply p io req : healthy reply p req -> exists r, parse reply p io req = Some r /\ call_ok reply r.
Proof. destruct reply; [apply ParseServerReply_total|apply ParseClientRequest_total]. Qed.

(** ** Using a parser *)

(** What can become of a parser, its stream and its request: bytes arrive, a call is made
    and goes on, or the parser is cleared after one, for a new request object. *)
Inductive parser_run (reply : bool) (l : Limits) : RequestParser -> bytes -> Request -> Prop :=
  | run_new req : parser_run reply l (Parser_new l) [] req
  | run_bytes p io req c : parser_run reply l p io req -> parser_run reply l p (io ++ c) req
  | run_call p io req code p' io' req' : parser_run reply l p io req ->
      parse reply p io req = Some (code, p', io', req') -> finished code = false -> parser_run reply l p' io' req'
  | run_clear p io req code p' io' req' req1 : parser_run reply l p io req ->
      parse reply p io req = Some (code, p', io', req') -> parser_run reply l (Clear p') io' req1.

Lemma parser_run_healthy reply l p io req : parser_run reply l p io req -> healthy reply p req.
Proof.
  induction 1 as [req | | p io req code p' io' req' _ IH E Hf | p io req code p' io' req' req1 _ IH E]; try done.
  destruct (parse_total reply p io req IH) as ([[[code1 p1] io1] req2] & E1 & Hr). rewrite E in E1. injection E1 as <- <- <- <-.
  unfold call_ok in Hr. by rewrite Hf in Hr.
Qed.

End Codec.
End HttpSafety.
