(* ===== verification/HttpRequestProps.v ===== *)
(** * HttpRequestProps: the properties of HTTP messages

    What a client sends is what a server receives, the parser never fails on what the
    network brings, and what it does with some bodies that are not what they should be. *)

From S2P Require Import Prelude.
From S2P Require Import CString.
From S2P Require Import StrUtil.
From S2P Require Import DataBlock.
From S2P Require Import MemoryStream.
From S2P Require Import MemoryStreamSpec.
From S2P Require Import ByteStream.
From S2P Require Import HttpConsts.
From S2P Require Import HttpHeader.
From S2P Require Import HttpHeaderSpec.
From S2P Require Import HttpHeaderProps.
From S2P Require Import HttpRequest.
From S2P Require Import HttpRequestSpec.
From S2P Require Import HttpReceive.
From S2P Require Import HttpSafety.

Module HttpRequestProps.
Import HttpConsts HttpHeader StrUtil HttpRequest HttpRequestSpec HttpReceive HttpSafety.

Section Codec.
Context `{Codec}.

(** ** A request that goes out *)

(** The request and, when it is sent in chunks, the chunk that ends it. *)
Definition send_request (max_chunk_size : Z) (r : Request) : option (Request * bytes) :=
  '(r, out) ← AppendClientRequest max_chunk_size r;
  if in_chunk_encoding_ r then
    '(r, chunk, _) ← AppendClientChunk max_chunk_size r; Some (r, out ++ chunk)
  else Some (r, out).

(** A request whose content is not to be compressed, with a well formed line and fields. *)
Record sendable (r : Request) : Prop := {
  sd_fresh : in_chunk_encoding_ r = false;
  sd_line : first_line_type_ (client_header_ r) = REQUEST_LINE;
  sd_printable : printable (client_header_ r);
  sd_method : method_ (client_header_ r) <> METHOD_UNKNOWN;
  sd_version : http_version_ (client_header_ r) <> VERSION_UNKNOWN;
  sd_plain : IsGzipContentEncoding (client_header_ r) = Some false /\ IsDeflateContentEncoding (client_header_ r) = Some false;
  sd_length : fields_ (client_header_ r) !! kHeaderContentLength = None;
  sd_chunked : (IsChunkedTransfer (client_header_ r) = Some true /\ http_version_ (client_header_ r) = VERSION_1_1) \/
    (IsChunkedTransfer (client_header_ r) = Some false /\ zlen (client_data_ r) < 2 ^ 31) }.

(** The header with other fields. *)
Lemma with_fields_fields a b h : with_fields a (with_fields b h) = with_fields a h.
Proof. done. Qed.

Lemma fields_with_fields a h : fields_ (with_fields a h) = a.
Proof. done. Qed.

Lemma field_has_prefix_fields h h' name prefix : fields_ h !! name = fields_ h' !! name ->
  field_has_prefix h name prefix = field_has_prefix h' name prefix.
Proof. unfold field_has_prefix, FindField. by intros ->. Qed.

Lemma no_field_no_prefix h name prefix : fields_ h !! name = None -> prefix <> [] -> field_has_prefix h name prefix = Some false.
Proof. unfold field_has_prefix, FindField. intros -> Hp. by destruct prefix. Qed.

Lemma printable_fields h fs : first_line_type_ h = REQUEST_LINE -> printable h ->
  (forall k v, fs !! k = Some v -> plain_field (k, v)) -> printable (with_fields fs h).
Proof. intros Hl (H1 & H2 & H3) Hf. split; [exact H1|]. by split. Qed.

Lemma plain_insert (fs : gmap bytes bytes) name content : plain_field (name, content) -> (forall k v, fs !! k = Some v -> plain_field (k, v)) ->
  forall k v, <[name := content]> fs !! k = Some v -> plain_field (k, v).
Proof. intros Hn Hf k v. rewrite lookup_insert_Some. intros [[<- <-]|[_ Hk]]; auto. Qed.

Lemma plain_delete (fs : gmap bytes bytes) name : (forall k v, fs !! k = Some v -> plain_field (k, v)) ->
  forall k v, delete name fs !! k = Some v -> plain_field (k, v).
Proof. intros Hf k v. rewrite lookup_delete_Some. intros [_ Hk]. auto. Qed.

Lemma accept_plain : plain_field (kHeaderAcceptEncoding, bstr "gzip, deflate").
Proof. split_and!; try done. apply no_CR_no_crlf. by apply not_in. Qed.

Lemma digits_valid n : 0 <= n < 2 ^ 63 -> forall c, c ∈ print_int n -> isdigit c = true.
Proof.
  intros Hn c Hc. unfold print_int in Hc. rewrite (proj2 (Z.ltb_ge _ _)) in Hc by lia.
  destruct (digits_of_spec 19 n) as (H1 & _); [lia|]. rewrite forallb_forall in H1. apply H1. by apply list_elem_of_In.
Qed.

Lemma length_plain n : 0 <= n < 2 ^ 63 -> plain_field (kHeaderContentLength, print_int n) /\ NUL ∉ print_int n.
Proof.
  intros Hn. pose proof (digits_valid n Hn) as Hd. split.
  - split_and!; try done; cbn [fst snd].
    + unfold IsValidFieldContent. apply forallb_forall. intros c Hc%list_elem_of_In%Hd. by destruct c.
    + apply no_CR_no_crlf. intros Hc%Hd. done.
    + destruct (print_int n) as [|c s]; [done|]. cbn. assert (Hc : isdigit c = true) by (apply Hd; left). by destruct c.
  - intros Hc%Hd. done.
Qed.

(** The fields that go out. *)
Definition sent_fields (chunked : bool) (r : Request) : gmap bytes bytes :=
  let f := delete kHeaderContentEncoding (fields_ (client_header_ r)) in
  let f := if server_use_gzip_encoding_ r then <[kHeaderAcceptEncoding := bstr "gzip, deflate"]> f else delete kHeaderAcceptEncoding f in
  if chunked then f
  else
    let f := delete kHeaderTransferEncoding f in
    if negb (bool_decide (client_data_ r = [])) || bool_decide (method_ (client_header_ r) = METHOD_POST) ||
       bool_decide (method_ (client_header_ r) = METHOD_PUT)
    then <[kHeaderContentLength := print_int (zlen (client_data_ r))]> f else f.

Definition sent_header (chunked : bool) (r : Request) : Header := with_fields (sent_fields chunked r) (client_header_ r).

(** The fields that sending does not set itself. *)
Lemma sent_fields_other chunked r k : k <> kHeaderContentEncoding -> k <> kHeaderAcceptEncoding -> k <> kHeaderTransferEncoding ->
  k <> kHeaderContentLength -> sent_fields chunked r !! k = fields_ (client_header_ r) !! k.
Proof.
  intros H1 H2 H3 H4. unfold sent_fields. repeat case_match;
    by rewrite ?lookup_insert_ne, ?lookup_delete_ne, ?lookup_insert_ne, ?lookup_delete_ne by done.
Qed.

Lemma sent_printable chunked r : sendable r -> (chunked = false -> zlen (client_data_ r) < 2 ^ 31) -> printable (sent_header chunked r).
Proof.
  intros [_ Hl Hp _ _ _ _ _] Hsize. apply printable_fields; [done|done|]. pose proof Hp as (_ & _ & Hf). unfold sent_fields.
  assert (Hf2 : forall k v, (if server_use_gzip_encoding_ r
    then <[kHeaderAcceptEncoding := bstr "gzip, deflate"]> (delete kHeaderContentEncoding (fields_ (client_header_ r)))
    else delete kHeaderAcceptEncoding (delete kHeaderContentEncoding (fields_ (client_header_ r)))) !! k = Some v -> plain_field (k, v)).
  { destruct (server_use_gzip_encoding_ r).
    - apply plain_insert; [apply accept_plain|]. by apply plain_delete.
    - by apply plain_delete, plain_delete. }
  cbn zeta. destruct chunked; [exact Hf2|]. destruct (negb _ || _ || _); [|by apply plain_delete].
  apply plain_insert; [|by apply plain_delete]. apply length_plain. pose proof (zlen_nonneg (client_data_ r)). specialize (Hsize eq_refl). lia.
Qed.

Lemma SetContentEncoding_None h : SetContentEncoding None h = Some (with_fields (delete kHeaderContentEncoding (fields_ h)) h).
Proof. done. Qed.

Lemma AppendToStream_text h : printable h -> exists text, HttpHeader.AppendToStream h ([] : bytes) = Some text /\ ToString h = Some text.
Proof. intros (_ & Hv & _). eexists. split; [|by apply ToString_text]. exact (ToString_text h Hv). Qed.

(** Sending gives the text of the header and that of the body. *)
Lemma AppendChunks_all max_chunk_size r : compress_option_ r = COMPRESS_NONE -> http_version_ (client_header_ r) = VERSION_1_1 ->
  effective max_chunk_size < 2 ^ 64 ->
  exists cs, AppendChunks client_data_ (AppendClientChunk max_chunk_size) r = Some (with_client_data [] r, chunks_text cs) /\
    concat cs = client_data_ r /\ Forall (fun c => 0 < zlen c <= Z.min (effective max_chunk_size) (zlen (client_data_ r))) cs /\
    zlen cs * effective max_chunk_size < zlen (client_data_ r) + effective max_chunk_size.
Proof.
  intros Hc Hv He. destruct (BufferAppendChunks_text (client_data_ r) max_chunk_size He) as (cs & H1 & H2 & H3 & H4).
  exists cs. split; [|done]. unfold AppendChunks. rewrite loop_S. cbn [AppendChunks_step]. case_bool_decide as Hd.
  - cbn [mbind option_bind]. rewrite Hd in *. injection H1 as <-. by destruct r; cbn in *; subst.
  - assert (Ha : AppendClientChunk max_chunk_size r = Some (with_client_data [] r, chunks_text cs, false)).
    { unfold AppendClientChunk, AppendChunkHelper. rewrite Hc, bool_decide_true, bool_decide_false by done. cbn [negb].
      rewrite Hv. change (at_least VERSION_1_1 VERSION_1_1) with true. by rewrite H1. }
    rewrite Ha. cbn [mbind option_bind]. destruct (client_data_ r) as [|b d] eqn:Ed; [done|]. cbn [length]. rewrite loop_S. cbn [AppendChunks_step].
    cbn [client_data_ with_client_data]. rewrite bool_decide_true by done. by rewrite app_nil_l.
Qed.

Lemma sent_encoding chunked r name prefix : prefix <> [] -> name = kHeaderContentEncoding ->
  field_has_prefix (sent_header chunked r) name prefix = Some false.
Proof.
  intros Hp ->. apply no_field_no_prefix; [|done]. unfold sent_header. rewrite fields_with_fields. unfold sent_fields.
  repeat case_match; by rewrite ?lookup_insert_ne, ?lookup_delete_ne, ?lookup_insert_ne, ?lookup_delete_ne, ?lookup_delete_eq by done.
Qed.

Lemma send_chunked max_chunk_size r : sendable r -> IsChunkedTransfer (client_header_ r) = Some true ->
  http_version_ (client_header_ r) = VERSION_1_1 -> effective max_chunk_size < 2 ^ 64 ->
  exists text cs r1, ToString (sent_header true r) = Some text /\
    send_request max_chunk_size r = Some (r1, text ++ chunks_text cs ++ last_chunk true) /\
    concat cs = client_data_ r /\ Forall (fun c => 0 < zlen c <= Z.min (effective max_chunk_size) (zlen (client_data_ r))) cs /\
    zlen cs * effective max_chunk_size < zlen (client_data_ r) + effective max_chunk_size.
Proof.
  intros Hs Hc Hv He. pose proof Hs as [Hf Hl Hp Hm _ [Hg Hd] Hcl _].
  destruct (AppendToStream_text _ (sent_printable true r Hs ltac:(done))) as (text & Ha & Ht). exists text.
  set (r0 := with_client_header (sent_header true r) (with_in_chunk_encoding true (with_compress_option COMPRESS_NONE r))).
  destruct (AppendChunks_all max_chunk_size r0) as (cs & H1 & H2 & H3 & H4); [done|done|done|].
  assert (Hout : AppendClientRequest max_chunk_size r = Some (count_client (zlen (text ++ chunks_text cs)) (zlen (client_data_ r) - 0) (with_client_data [] r0), text ++ chunks_text cs)).
  { unfold AppendClientRequest. rewrite Hf, Hl, bool_decide_true, Hg, Hd by done. cbn [negb CHECK mbind option_bind andb].
    rewrite SetContentEncoding_None. cbn [mbind option_bind].
    assert (Hh : (if server_use_gzip_encoding_ (with_compress_option COMPRESS_NONE r)
      then '(h, _) ← AddField (with_fields (delete kHeaderContentEncoding (fields_ (client_header_ r))) (client_header_ r)) kHeaderAcceptEncoding (bstr "gzip, deflate") true false; Some h
      else '(h, _) ← ClearField (with_fields (delete kHeaderContentEncoding (fields_ (client_header_ r))) (client_header_ r)) kHeaderAcceptEncoding false; Some h) = Some (sent_header true r)).
    { unfold sent_header, sent_fields. cbn [server_use_gzip_encoding_ with_compress_option]. destruct (server_use_gzip_encoding_ r); [|done].
      by rewrite (AddField_replace _ _ _ _ kHeaderAcceptEncoding) by (done || by apply not_in). }
    rewrite Hh. cbn [mbind option_bind].
    assert (Hch : IsChunkedTransfer (sent_header true r) = Some true).
    { rewrite <- Hc. apply field_has_prefix_fields. unfold sent_header. rewrite fields_with_fields. unfold sent_fields.
      destruct (server_use_gzip_encoding_ r); by rewrite ?lookup_insert_ne, ?lookup_delete_ne, ?lookup_delete_ne by done. }
    rewrite Hch. cbn [mbind option_bind]. change (http_version_ (sent_header true r)) with (http_version_ (client_header_ r)).
    rewrite Hv. change (at_least VERSION_1_1 VERSION_1_0) with true. change (at_least VERSION_1_1 VERSION_1_1) with true. cbn [CHECK mbind option_bind].
    rewrite Ha. cbn [mbind option_bind]. fold r0. rewrite H1. done. }
  exists cs. eexists. split; [done|]. split; [|done]. unfold send_request. rewrite Hout. cbn [mbind option_bind].
  change (in_chunk_encoding_ _) with true. cbn iota. unfold AppendClientChunk, AppendChunkHelper.
  cbn [client_data_ with_client_data count_client with_stats compress_option_ r0 with_client_header with_in_chunk_encoding with_compress_option client_header_].
  rewrite (bool_decide_true (COMPRESS_NONE = _)), (bool_decide_true ([] = [])) by done. cbn [negb mbind option_bind].
  change (http_version_ (sent_header true r)) with (http_version_ (client_header_ r)). rewrite Hv. change (at_least VERSION_1_1 VERSION_1_1) with true.
  by rewrite <- app_assoc.
Qed.

Lemma send_identity max_chunk_size r : sendable r -> IsChunkedTransfer (client_header_ r) = Some false -> zlen (client_data_ r) < 2 ^ 31 ->
  exists text r1, ToString (sent_header false r) = Some text /\ send_request max_chunk_size r = Some (r1, text ++ client_data_ r).
Proof.
  intros Hs Hc Hsize. pose proof Hs as [Hf Hl Hp Hm _ [Hg Hd] Hcl _]. pose proof (zlen_nonneg (client_data_ r)) as Hpos.
  destruct (AppendToStream_text _ (sent_printable false r Hs ltac:(done))) as (text & Ha & Ht). exists text.
  unfold send_request, AppendClientRequest. rewrite Hf, Hl, bool_decide_true, Hg, Hd by done. cbn [negb CHECK mbind option_bind andb].
  rewrite SetContentEncoding_None. cbn [mbind option_bind].
  set (h1 := with_fields (delete kHeaderContentEncoding (fields_ (client_header_ r))) (client_header_ r)).
  set (h2 := sent_header true r).
  assert (Hh : (if server_use_gzip_encoding_ (with_compress_option COMPRESS_NONE r)
    then '(h, _) ← AddField h1 kHeaderAcceptEncoding (bstr "gzip, deflate") true false; Some h
    else '(h, _) ← ClearField h1 kHeaderAcceptEncoding false; Some h) = Some h2).
  { unfold h2, sent_header, sent_fields. cbn [server_use_gzip_encoding_ with_compress_option]. destruct (server_use_gzip_encoding_ r); [|done].
    by rewrite (AddField_replace _ _ _ _ kHeaderAcceptEncoding) by (done || by apply not_in). }
  rewrite Hh. cbn [mbind option_bind].
  assert (Hch : IsChunkedTransfer h2 = Some false).
  { rewrite <- Hc. apply field_has_prefix_fields. unfold h2, sent_header. rewrite fields_with_fields. unfold sent_fields.
    destruct (server_use_gzip_encoding_ r); by rewrite ?lookup_insert_ne, ?lookup_delete_ne, ?lookup_delete_ne by done. }
  rewrite Hch. cbn [mbind option_bind].
  set (h3 := with_fields (delete kHeaderTransferEncoding (fields_ h2)) h2).
  assert (Hset : SetChunkedTransfer false h2 = Some h3) by done. rewrite Hset. cbn [mbind option_bind encode_body compress_option_ with_compress_option].
  rewrite (bool_decide_true (COMPRESS_NONE = COMPRESS_NONE)) by done. cbn [client_data_ with_compress_option].
  assert (Hlen : (if negb (bool_decide (client_data_ r = [])) || bool_decide (method_ h3 = METHOD_POST) || bool_decide (method_ h3 = METHOD_PUT)
    then AddContentLength (zlen (client_data_ r)) h3 else Some h3) = Some (sent_header false r)).
  { unfold sent_header, sent_fields. change (method_ h3) with (method_ (client_header_ r)). destruct (negb _ || _ || _); [|done].
    unfold AddContentLength. rewrite wrapS_small by lia. destruct (length_plain (zlen (client_data_ r))) as [(Hv1 & _ & Hv2 & _) Hnul]; [lia|].
    by rewrite (AddField_replace _ _ _ _ kHeaderContentLength) by done. }
  rewrite Hlen. cbn [mbind option_bind]. rewrite Ha. cbn [mbind option_bind]. eexists. split; [done|].
  cbn [count_client with_stats in_chunk_encoding_ with_client_header with_client_data with_compress_option]. by rewrite Hf.
Qed.

(** ** What the receiver reads in the header *)

Lemma sent_announces (chunked strict : bool) n r : sendable r -> IsChunkedTransfer (client_header_ r) = Some chunked ->
  (chunked = false -> zlen (client_data_ r) < 2 ^ 31) ->
  announces (reread strict n (sent_header chunked r)) (client_data_ r) /\
  IsChunkedTransfer (reread strict n (sent_header chunked r)) = Some chunked.
Proof.
  intros Hs Hc Hsize. pose proof Hs as [_ Hl _ _ _ _ Hcl _]. set (f := reread strict n (sent_header chunked r)).
  assert (Hfs : fields_ f = sent_fields chunked r) by done.
  assert (Hce : fields_ f !! kHeaderContentEncoding = None).
  { rewrite Hfs. unfold sent_fields. repeat case_match; by rewrite ?lookup_insert_ne, ?lookup_delete_ne, ?lookup_insert_ne, ?lookup_delete_ne, ?lookup_delete_eq by done. }
  assert (Hte : fields_ f !! kHeaderTransferEncoding = if chunked then fields_ (client_header_ r) !! kHeaderTransferEncoding else None).
  { rewrite Hfs. unfold sent_fields. destruct chunked, (server_use_gzip_encoding_ r); repeat case_match;
      by rewrite ?lookup_insert_ne, ?lookup_delete_ne, ?lookup_delete_eq, ?lookup_delete_ne by done. }
  assert (Hch : IsChunkedTransfer f = Some chunked).
  { destruct chunked; [by rewrite <- Hc; apply field_has_prefix_fields|by apply no_field_no_prefix]. }
  split; [|done]. split_and!.
  - unfold IsKnownContentEncoding, IsKnownEncoding. by rewrite Hce.
  - unfold IsKnownTransferEncoding, IsKnownEncoding. rewrite Hte. destruct chunked; [|done].
    unfold IsChunkedTransfer, field_has_prefix, FindField in Hc. destruct (fields_ (client_header_ r) !! kHeaderTransferEncoding) as [s|]; [|done].
    change (default [] (Some s)) with s in Hc. destruct (StrTrim s) as [t|]; [|discriminate Hc]. cbn [mbind option_bind] in *. injection Hc as Hc.
    cbn [existsb]. rewrite Hc. by rewrite orb_true_r.
  - by apply no_field_no_prefix.
  - by apply no_field_no_prefix.
  - destruct chunked; [by left|right]. split; [done|]. specialize (Hsize eq_refl). split; [lia|]. rewrite Hfs. unfold sent_fields.
    destruct (bool_decide (client_data_ r = [])) eqn:Hd; cbn [negb orb]; [|left; by rewrite lookup_insert_eq].
    destruct (bool_decide (method_ (client_header_ r) = METHOD_POST) || bool_decide (method_ (client_header_ r) = METHOD_PUT)) eqn:Hm;
      [left; by rewrite lookup_insert_eq|right].
    apply orb_false_iff in Hm as [Hm1 Hm2]. split_and!.
    + destruct (server_use_gzip_encoding_ r); by rewrite ?lookup_delete_ne, ?lookup_insert_ne, ?lookup_delete_ne, ?lookup_delete_ne by done.
    + unfold DefaultBodyLen, f, reread. cbn [first_line_type_ method_ sent_header with_fields]. rewrite Hl, (bool_decide_true (REQUEST_LINE = REQUEST_LINE)) by done.
      by rewrite Hm1, Hm2.
    + by apply bool_decide_eq_true in Hd.
Qed.

(** The limits of the parser leave room for the body. *)
Definition fits (l : Limits) (max_chunk_size : Z) (chunked : bool) (data : bytes) : Prop :=
  if chunked then
    Z.min (effective max_chunk_size) (zlen data) <= max_chunk_size_ l /\
    (max_num_chunks_ l < 0 \/ zlen data <= max_num_chunks_ l * effective max_chunk_size)
  else max_body_size_ l < 0 \/ zlen data <= max_body_size_ l.

Lemma sent_body_text l strict n max_chunk_size r cs : sendable r -> IsChunkedTransfer (client_header_ r) = Some true ->
  0 < effective max_chunk_size < 2 ^ 32 -> fits l max_chunk_size true (client_data_ r) -> concat cs = client_data_ r ->
  Forall (fun c => 0 < zlen c <= Z.min (effective max_chunk_size) (zlen (client_data_ r))) cs ->
  zlen cs * effective max_chunk_size < zlen (client_data_ r) + effective max_chunk_size ->
  body_text l (reread strict n (sent_header true r)) (client_data_ r) (chunks_text cs ++ last_chunk true).
Proof.
  intros Hs Hc He [Hf1 Hf2] Hcs Hall Hnum. unfold body_text.
  destruct (sent_announces true strict n r Hs Hc ltac:(done)) as [_ ->]. rewrite bool_decide_true by done.
  exists cs. split; [done|]. split; [done|]. split.
  - eapply List.Forall_impl; [|exact Hall]. intros c Hc'. cbv beta in *. lia.
  - destruct Hf2 as [|Hf2]; [by left|right]. nia.
Qed.

(** What a request is, besides the fields that sending sets. *)
Definition same_request (r req : Request) : Prop :=
  client_data_ req = client_data_ r /\ method_ (client_header_ req) = method_ (client_header_ r) /\
  uri_ (client_header_ req) = uri_ (client_header_ r) /\ http_version_ (client_header_ req) = http_version_ (client_header_ r) /\
  forall k, k <> kHeaderContentEncoding -> k <> kHeaderAcceptEncoding -> k <> kHeaderTransferEncoding -> k <> kHeaderContentLength ->
    fields_ (client_header_ req) !! k = fields_ (client_header_ r) !! k.

(** A parser reads what was sent. *)
Lemma receive_sent (chunked : bool) r text body l req0 rest pieces : sendable r -> IsChunkedTransfer (client_header_ r) = Some chunked ->
  (chunked = false -> zlen (client_data_ r) < 2 ^ 31) -> ToString (sent_header chunked r) = Some text ->
  body_text l (reread (is_strict_ (client_header_ req0)) (zlen text) (sent_header chunked r)) (client_data_ r) body ->
  zlen text <= max_header_size_ l -> 10 <= max_header_size_ l -> severity READ_NO_DATA <= severity (worst_accepted_header_error_ l) ->
  concat pieces = text ++ body ++ rest ->
  exists p req, receive (Parser_new l) [] req0 pieces = Some (true, p, rest, req) /\ InFinalState p = true /\ InErrorState p = false /\
    same_request r req.
Proof.
  intros Hs Hc Hsize Ht Hb H1 H2 H3 Hpieces. pose proof Hs as [_ Hl _ Hm Hv _ _ _]. set (strict := is_strict_ (client_header_ req0)) in *.
  destruct (sent_announces chunked strict (zlen text) r Hs Hc Hsize) as [Ha _]. set (final := reread _ _ _) in *.
  pose proof (sent_printable chunked r Hs Hsize) as Hp.
  assert (Hparse : ParseHttpRequest (HttpHeader.Clear (client_header_ req0)) text = Some (final, [], true)).
  { destruct (ToString_parse strict (sent_header chunked r) [] Hp) as (text' & Ht' & Hx). assert (text' = text) as -> by congruence.
    rewrite app_nil_r in Hx. change (first_line_type_ (sent_header chunked r)) with (first_line_type_ (client_header_ r)) in Hx. by rewrite Hl in Hx. }
  assert (Htext : 0 < zlen text).
  { pose proof Hp as (_ & Hvb & _). rewrite (ToString_text _ Hvb) in Ht. injection Ht as <-. rewrite !zlen_app. change (zlen CRLF) with 2.
    pose proof (zlen_nonneg (ComposeFirstLine (sent_header chunked r))). pose proof (zlen_nonneg (fields_text (sorted_fields (sent_fields chunked r)))). lia. }
  assert (Hmeth : method_ final = method_ (client_header_ r) /\ uri_ final = uri_ (client_header_ r)).
  { unfold final, reread. cbn [method_ uri_ first_line_type_ sent_header with_fields]. by rewrite Hl, bool_decide_true by done. }
  destruct Hmeth as [Hmeth Huri].
  destruct (receive_all l final body (client_data_ r) rest H1 H2 H3 Hv ltac:(by rewrite Hmeth) eq_refl Ha Hb pieces (Parser_new l) [] req0)
    as (p' & io' & req' & Hr & Hst & Hio & Hdata & Hh).
  - apply receiving_start; [done|]. split; [apply Header_new_ready|]. exists text. rewrite app_nil_l. split_and!; [done|done|by left].
  - rewrite Hpieces, !zlen_app. pose proof (zlen_nonneg body). lia.
  - rewrite app_nil_r in Hio. subst io'. exists p', req'. split; [done|]. unfold InFinalState, InErrorState.
    split; [by destruct Hst as [-> | ->]|]. split; [by destruct Hst as [-> | ->]|].
    assert (Hsame : method_ (client_header_ req') = method_ final /\ uri_ (client_header_ req') = uri_ final /\
      http_version_ (client_header_ req') = http_version_ final /\ fields_ (client_header_ req') = fields_ final) by (by destruct Hh as [-> | ->]).
    destruct Hsame as (Hq1 & Hq2 & Hq3 & Hq4). unfold same_request. rewrite Hq1, Hq2, Hq3, Hq4. split_and!; try done.
    intros k. apply sent_fields_other.
Qed.

(** C6: what a client sends with [AppendClientRequest] and, in chunks, [AppendClientChunk], a
    server receives: in whatever pieces the bytes come, whatever follows them, and whatever
    the request object held, the parser ends without an error exactly after the last byte of
    the message, with the same method, URI, version and body, and every field that sending
    does not set itself; for every size of the chunks, within the limits of the parser. *)
Theorem request_received (max_chunk_size : Z) (r : Request) (chunked : bool) :
  sendable r -> IsChunkedTransfer (client_header_ r) = Some chunked -> effective max_chunk_size < 2 ^ 32 ->
  exists r1 text body, send_request max_chunk_size r = Some (r1, text ++ body) /\ ToString (sent_header chunked r) = Some text /\
    forall (l : Limits) (req0 : Request) (rest : bytes) (pieces : list bytes),
      zlen text <= max_header_size_ l -> 10 <= max_header_size_ l ->
      severity READ_NO_DATA <= severity (worst_accepted_header_error_ l) -> fits l max_chunk_size chunked (client_data_ r) ->
      concat pieces = (text ++ body) ++ rest ->
      exists p req, receive (Parser_new l) [] req0 pieces = Some (true, p, rest, req) /\
        InFinalState p = true /\ InErrorState p = false /\ same_request r req.
Proof.
  intros Hs Hc He. assert (Hpos : 0 < effective max_chunk_size) by (unfold effective, kMaxInt32; destruct (Z.leb_spec max_chunk_size 0); lia).
  destruct chunked.
  - assert (Hv : http_version_ (client_header_ r) = VERSION_1_1) by (destruct (sd_chunked r Hs) as [[_ ?]|[? _]]; [done|congruence]).
    destruct (send_chunked max_chunk_size r Hs Hc Hv ltac:(lia)) as (text & cs & r1 & Ht & Hsend & Hcs & Hall & Hnum).
    exists r1, text, (chunks_text cs ++ last_chunk true). split; [done|]. split; [done|]. intros l req0 rest pieces H1 H2 H3 Hf Hp.
    apply (receive_sent true r text (chunks_text cs ++ last_chunk true)); try done; [|by rewrite Hp, <- !app_assoc].
    by apply (sent_body_text l _ _ max_chunk_size).
  - assert (Hz : zlen (client_data_ r) < 2 ^ 31) by (destruct (sd_chunked r Hs) as [[? _]|[_ ?]]; [congruence|done]).
    destruct (send_identity max_chunk_size r Hs Hc Hz) as (text & r1 & Ht & Hsend).
    exists r1, text, (client_data_ r). split; [done|]. split; [done|]. intros l req0 rest pieces H1 H2 H3 Hf Hp.
    apply (receive_sent false r text (client_data_ r)); try done; [|by rewrite Hp, <- !app_assoc].
    unfold body_text. destruct (sent_announces false (is_strict_ (client_header_ req0)) (zlen text) r Hs Hc ltac:(done)) as [_ ->]. by rewrite bool_decide_false by done.
Qed.

End Codec.

(** Any codec does for what is not compressed; this one copies. *)
Definition copy_codec : Codec := {|
  GzipDecoder := unit; GzipDecoder_new := (); GzipDecode _ b := Some (Z_STREAM_END, (), [], b);
  Inflater := unit; Inflater_new := (); InflateSize _ b := Some (Z_STREAM_END, (), [], b);
  GzipEncoder := unit; GzipEncoder_new := (); BeginEncoding _ := Some ((), []); ContinueEncoding _ b := Some ((), [], b); EndEncoding _ := Some ((), []);
  Deflater := unit; Deflater_new := (); Deflater_Clear d := d; DeflateSize _ b n := Some (true, (), [], b, n - zlen b) |}.

#[export] Instance copy_laws : CodecLaws (H := copy_codec).
Proof. split; intros d b; do 4 eexists; (split; [reflexivity|apply zlen_nonneg]). Qed.

Definition default_limits : Limits := mkLimits 16384 (2 ^ 22) (2 ^ 20) (-1) false false false READ_NO_STATUS_REASON.

Definition example_post : Header :=
  with_fields {[bstr "Transfer-Encoding" := bstr "chunked"]} (PrepareRequestLine (bstr "/form") METHOD_POST VERSION_1_1 (Header_new true)).

Definition example_upload : Request (H := copy_codec) :=
  with_client_data (bstr "name=value") (with_client_header example_post (Request_new true)).

Lemma example_upload_sendable : sendable example_upload.
Proof.
  split; try done.
  - split; [|split; [done|]].
    + cbn. split_and!; [done|by apply not_in|by apply no_CR_no_crlf, not_in].
    + intros n c Hf. change (fields_ (client_header_ example_upload)) with ({[bstr "Transfer-Encoding" := bstr "chunked"]} : gmap bytes bytes) in Hf. apply lookup_singleton_Some in Hf as [<- <-]. split_and!; [done..| |done]. by apply no_CR_no_crlf, not_in.
  - by left.
Qed.

Lemma request_received_witness :
  sendable example_upload /\ exists r1 text body, send_request 4 example_upload = Some (r1, text ++ body) /\
    exists p req, receive (Parser_new default_limits) [] (Request_new true) [takeZ 30 (text ++ body); dropZ 30 (text ++ body) ++ bstr "GET"] =
      Some (true, p, bstr "GET", req) /\ InFinalState p = true /\ InErrorState p = false /\ same_request example_upload req.
Proof.
  split; [exact example_upload_sendable|].
  destruct (request_received 4 example_upload true example_upload_sendable eq_refl ltac:(vm_compute; reflexivity)) as (r1 & text & body & H1 & Ht & H2).
  exists r1, text, body. split; [exact H1|]. apply H2.
  - assert (E : option_map zlen (ToString (sent_header true example_upload)) = Some 83) by (vm_compute; reflexivity).
    rewrite Ht in E. cbn [option_map] in E. injection E as ->. vm_compute. discriminate.
  - vm_compute. discriminate.
  - vm_compute. discriminate.
  - split; [vm_compute; discriminate|left; vm_compute; reflexivity].
  - cbn [concat]. rewrite app_nil_r, app_assoc. f_equal. apply takeZ_dropZ.
Defined.

(** ** Bodies that are not what they should be *)

Section Faults.
Context `{Codec}.

(** A line without a hexadecimal digit. *)
Lemma strtol16_no_digits s : (forall c, c ∈ s -> isxdigit c = false) -> strtol16 s = (0, false).
Proof.
  intros Hs. unfold strtol16. set (s1 := drop_while isspace (cstr s)).
  assert (H1 : forall c, c ∈ s1 -> isxdigit c = false).
  { intros c Hc. apply Hs. destruct (drop_while_suffix isspace (cstr s)) as (a & E & _).
    assert (Hin : c ∈ cstr s) by (rewrite E; apply elem_of_app; by right). unfold cstr in Hin.
    rewrite <- (take_drop_while not_nul s). apply elem_of_app. by left. }
  assert (H2 : forall s2, (forall c, c ∈ s2 -> isxdigit c = false) -> take_while isxdigit s2 = []).
  { intros [|c s2] Hc; [done|]. cbn. by rewrite (Hc c) by left. }
  assert (H3 : forall s2, (forall c, c ∈ s2 -> isxdigit c = false) ->
    match s2 with
    | a :: b :: c :: s' =>
        if bool_decide (a = Byte.x30) && (bool_decide (b = Byte.x78) || bool_decide (b = Byte.x58)) && isxdigit c then c :: s' else s2
    | _ => s2 end = s2).
  { intros [|a [|b [|c s2]]] Hc; [done..|]. by rewrite (Hc c), andb_false_r by (do 2 right; left). }
  destruct s1 as [|c s1]; [done|].
  assert (H4 : forall c', c' ∈ s1 -> isxdigit c' = false) by (intros c' Hc; apply H1; by right).
  case_bool_decide; [by rewrite (H3 s1), H2 by done|]. case_bool_decide; [by rewrite (H3 s1), H2 by done|].
  by rewrite (H3 (c :: s1)), H2 by done.
Qed.

(** A size line without a single hexadecimal digit, such as a line of text, is taken for
    the last chunk: the body ends there, as it should not (RFC 2616 asks for a number), the
    parser reports no error, and what follows is read as the next message. *)
Theorem size_without_digits_ends_body (x : Parsing) (line rest : bytes) :
  plain x -> parse_state_ (parser x) = STATE_CHUNK_HEAD_READING -> inp x = line ++ CRLF ++ CRLF ++ rest ->
  no_crlf (line ++ [CR]) -> (forall c, c ∈ line -> isxdigit c = false) ->
  exists code x', ParseChunksInternal x = Some (code, x') /\ finished code = true /\
    parse_state_ (parser x') = STATE_END_OF_TRAIL_HEADER /\ out x' = out x /\ inp x' = rest.
Proof.
  intros Hp Hst E Hl Hd. pose proof Hp as [P1 P2 P3 P4 P5 P6 P7 P8 P9 P10 P11].
  set (x1 := set_parse_state STATE_LAST_CHUNK_READ (expect_chunk EXPECT_CHUNK_NONE (set_inp (CRLF ++ rest) x))).
  assert (Hstep : ParseChunksInternal_step x = Some (inl x1)).
  { unfold ParseChunksInternal_step. rewrite Hst. f_equal. unfold read_chunk_head, ReadLine. rewrite E, crlf_line_unique by done.
    cbn [fmap option_fmap option_map]. change (default [] (Some (line ++ CRLF))) with (line ++ CRLF).
    rewrite cut_crlf_app, strtol16_no_digits by done. rewrite app_assoc, dropZ_app_r, Z.sub_diag, dropZ_0 by lia.
    cbn [orb]. change (0 <? 0) with false. rewrite Z.eqb_refl. parser_cbn. rewrite P5, bool_decide_false by done. done. }
  unfold ParseChunksInternal. rewrite loop_S, Hstep. cbn [mbind option_bind].
  assert (Hc1 : coming x1 [] rest []) by (by rewrite app_nil_r || split; [done|]; cbn; rewrite ?app_nil_r).
  destruct (chunks_run (S (length (inp x))) x1 [] rest []) as ([code x'] & Hr & _ & Hg); [by split|done| |].
  { rewrite E. change (inp x1) with (CRLF ++ rest). rewrite !length_app. cbn. lia. }
  rewrite Hr. exists code, x'. split; [done|]. destruct (finished code).
  - destruct Hg as (H1 & H2 & _ & _ & H3). rewrite app_nil_r in H2, H3. by split_and!.
  - destruct Hg as [_ Hz]. change (zlen []) with 0 in Hz. pose proof (zlen_nonneg rest). lia.
Qed.

(** A piece of a gzip body that comes in a chunk of its own and leaves, with what the
    decoder kept waiting, fewer than 18 bytes is never given to the decoder: the whole
    message has arrived, yet the first call waits for more, the next one ends the message
    without an error, and the body lacks what that piece would have given, whatever the
    decoder is and whatever it holds. *)
Theorem short_gzip_chunk_lost (x : Parsing) (d : bytes) :
  parse_state_ (parser x) = STATE_CHUNK_HEAD_READING -> inp x = chunk_text d ++ last_chunk true ->
  d <> [] -> zlen (partial_data_ (parser x) ++ d) < kMinGzipDataSize ->
  IsGzipContentEncoding (header x) = Some true -> IsDeflateContentEncoding (header x) = Some false ->
  inflate_zwrapper_ (parser x) = None -> next_chunk_expectation_ (parser x) <> EXPECT_CHUNK_EMPTY ->
  acceptable (parser x) [d] -> trail_header_ (parser x) = Header_new true -> 10 <= max_header_size_ (limits (parser x)) ->
  severity READ_OK <= severity (worst_accepted_header_error_ (limits (parser x))) ->
  exists code1 x1 code2 x2, ParseChunksInternal x = Some (code1, x1) /\ finished code1 = false /\ inp x1 = CRLF ++ last_chunk true /\
    ParseChunksInternal x1 = Some (code2, x2) /\ finished code2 = true /\ InErrorState (parser x2) = false /\ inp x2 = [] /\
    out x2 = out x /\ gzip_zwrapper_ (parser x2) = gzip_zwrapper_ (parser x) /\ partial_data_ (parser x2) = partial_data_ (parser x) ++ d.
Proof.
  intros Hst E Hd Hlen Hg Hdf Hinf Hne [Hacc Hnum] Htr Hmax Hsev. apply List.Forall_cons_iff in Hacc as [[Hd1 Hd2] _].
  change (zlen [d]) with 1 in Hnum.
  set (x0 := set_parse_state STATE_CHUNK_READING (on_parser (with_chunk_size_to_read (zlen d)) (on_parser (fun p => with_num_chunks_read (num_chunks_read_ p + 1) p)
    (expect_chunk EXPECT_CHUNK_NONE (set_inp (d ++ CRLF ++ last_chunk true) x))))).
  assert (H0 : ParseChunksInternal_step x = Some (inl x0)).
  { unfold ParseChunksInternal_step. rewrite Hst. f_equal. unfold read_chunk_head, ReadLine. rewrite E. unfold chunk_text. rewrite <- !app_assoc.
    rewrite crlf_line_unique by (apply head_line_no_crlf; lia). cbn [fmap option_fmap option_map].
    change (default [] (Some (head_line (zlen d) ++ CRLF))) with (head_line (zlen d) ++ CRLF).
    rewrite cut_crlf_app, strtol16_head by lia. rewrite app_assoc, dropZ_app_r, Z.sub_diag, dropZ_0 by lia. cbn [orb].
    rewrite (proj2 (Z.ltb_ge _ _)) by lia. rewrite (proj2 (Z.eqb_neq _ _)) by lia. parser_cbn. rewrite bool_decide_false by done.
    rewrite (proj2 (Z.ltb_ge _ (zlen d))) by lia.
    assert (Hmany : (0 <=? max_num_chunks_ (limits (parser x))) && (max_num_chunks_ (limits (parser x)) <? num_chunks_read_ (parser x) + 1) = false).
    { destruct Hnum; [by rewrite (proj2 (Z.leb_gt _ _)) by lia|]. rewrite (proj2 (Z.ltb_ge _ _)) by lia. by rewrite andb_false_r. }
    rewrite Hmany. done. }
  set (x1 := set_parse_state STATE_END_OF_CHUNK (on_parser (with_chunk_size_to_read 0)
    (on_parser (with_partial_data (partial_data_ (parser x) ++ d)) (set_inp (CRLF ++ last_chunk true) x0)))).
  assert (H1 : ParseChunksInternal_step x0 = Some (inr (HEADER_READ .| BODY_READING, x1))).
  { unfold ParseChunksInternal_step. change (parse_state_ (parser x0)) with STATE_CHUNK_READING. unfold read_chunk_data.
    change (inp x0) with (d ++ CRLF ++ last_chunk true). rewrite bool_decide_false by (destruct d; [done|discriminate]).
    change (chunk_size_to_read_ (parser x0)) with (zlen d).
    assert (Hmin : Z.min (zlen d) (zlen (d ++ CRLF ++ last_chunk true)) = zlen d).
    { rewrite zlen_app. pose proof (zlen_nonneg (CRLF ++ last_chunk true)). lia. }
    rewrite Hmin. cbn zeta.
    assert (Hdec : content_decoders (take_partial (zlen d) x0) = Some (true, false)).
    { unfold content_decoders. change (header (take_partial (zlen d) x0)) with (header x). rewrite Hg, Hdf. cbn [mbind option_bind].
      change (inflate_zwrapper_ (parser (take_partial (zlen d) x0))) with (inflate_zwrapper_ (parser x)).
      rewrite Hinf. by rewrite bool_decide_false by (by intros []). }
    rewrite Hdec. cbn [mbind option_bind negb CHECK]. unfold take_partial. parser_cbn.
    change (inp x0) with (d ++ CRLF ++ last_chunk true). change (partial_data_ (parser x0)) with (partial_data_ (parser x)).
    change (chunk_size_to_read_ (parser x0)) with (zlen d).
    rewrite takeZ_app_l, takeZ_all, dropZ_app_r, Z.sub_diag, dropZ_0 by lia. rewrite Z.eqb_refl. parser_cbn.
    rewrite (proj2 (Z.ltb_lt _ _)) by done. change (kMinGzipDataSize <? zlen (CRLF ++ last_chunk true)) with false. done. }
  exists (HEADER_READ .| BODY_READING), x1.
  set (x2 := set_parse_state STATE_CHUNK_HEAD_READING (set_inp (last_chunk true) x1)).
  set (x3 := set_parse_state STATE_LAST_CHUNK_READ (expect_chunk EXPECT_CHUNK_NONE (set_inp CRLF x2))).
  set (t := set_parse_error READ_OK (with_crt_parsing_field_content [] (with_crt_parsing_field_name [] (with_bytes_parsed (0 + 2) (Header_new true))))).
  set (x4 := set_parse_state STATE_END_OF_TRAIL_HEADER (set_header (header x) (on_parser (with_trail_header t) (set_inp [] x3)))).
  exists (HEADER_READ .| CHUNKS_FINISHED .| REQUEST_FINISHED), x4.
  split. { unfold ParseChunksInternal. by rewrite !loop_S, H0; cbn [mbind option_bind]; rewrite loop_S, H1. }
  split; [done|]. split; [done|]. split; [|by split_and!].
  assert (H2 : ParseChunksInternal_step x1 = Some (inl x2)) by done.
  assert (H3 : ParseChunksInternal_step x2 = Some (inl x3)).
  { unfold ParseChunksInternal_step. change (parse_state_ (parser x2)) with STATE_CHUNK_HEAD_READING. apply (f_equal Some). unfold read_chunk_head, ReadLine.
    change (inp x2) with ([Byte.x30] ++ CRLF ++ CRLF). rewrite crlf_line_unique by (apply no_crlf_snoc_CR, no_CR_no_crlf; by apply not_in).
    cbn [fmap option_fmap option_map]. change (default [] (Some ([Byte.x30] ++ CRLF))) with ([Byte.x30] ++ CRLF).
    assert (Hz : strtol16 [Byte.x30] = (0, false)) by (vm_compute; reflexivity). rewrite cut_crlf_app, Hz. done. }
  assert (H4 : ParseChunksInternal_step x3 = Some (inr (HEADER_READ .| CHUNKS_FINISHED .| REQUEST_FINISHED, x4))).
  { unfold ParseChunksInternal_step. change (parse_state_ (parser x3)) with STATE_LAST_CHUNK_READ. unfold ParseTrailHeader.
    change (parse_state_ (parser x3)) with STATE_LAST_CHUNK_READ. rewrite bool_decide_true by done. cbn [CHECK mbind option_bind].
    change (trail_header_ (parser x3)) with (trail_header_ (parser x)). rewrite Htr. change (inp x3) with CRLF.
    assert (Hr : ReadHeaderFields (Header_new true) CRLF = Some (t, [], true)) by done. rewrite Hr. cbn [mbind option_bind negb].
    change (worst_accepted_header_error_ (limits (parser (on_parser (with_trail_header t) (set_inp [] x3))))) with (worst_accepted_header_error_ (limits (parser x))).
    change (severity READ_OK) with 1 in Hsev. change (parse_error_ t) with READ_OK. change (severity READ_OK) with 1. rewrite (proj2 (Z.ltb_ge _ _)) by done. done. }
  unfold ParseChunksInternal. rewrite loop_S, H2. cbn [mbind option_bind]. change (length (inp x1)) with 7%nat.
  rewrite loop_S, H3. cbn [mbind option_bind]. by rewrite loop_S, H4.
Qed.

(** When the gzip decoder, which has begun a body in an earlier call, finds an error in
    what follows, the answer is that the request is finished, but the state of the parser is
    neither an error nor final: a caller that asks [InErrorState] takes the part of the body
    decoded so far for the whole. *)
Theorem broken_gzip_body_not_an_error (x : Parsing) (d d' : GzipDecoder) (zerr : Z) (rest tmp : bytes) :
  parse_state_ (parser x) = STATE_BODY_READING -> body_size_to_read_ (parser x) <= max_body_size_ (limits (parser x)) ->
  IsGzipContentEncoding (header x) = Some true -> IsDeflateContentEncoding (header x) = Some false ->
  inflate_zwrapper_ (parser x) = None -> gzip_zwrapper_ (parser x) = Some d ->
  GzipDecode d (partial_data_ (parser x) ++ takeZ (Z.min (body_size_to_read_ (parser x)) (zlen (inp x))) (inp x)) = Some (zerr, d', rest, tmp) ->
  zerr <> Z_OK -> zerr <> Z_STREAM_END ->
  exists x', ParseBodyInternal x = Some (HEADER_READ .| BODY_READING .| REQUEST_FINISHED, x') /\
    InFinalState (parser x') = false /\ InErrorState (parser x') = false /\ out x' = out x.
Proof.
  intros Hst Hmax Hg Hdf Hinf Hgz Hdec Hz0 Hz1. unfold ParseBodyInternal. rewrite Hst, bool_decide_true by done. cbn [CHECK mbind option_bind].
  rewrite (proj2 (Z.ltb_ge _ _)) by done. rewrite andb_false_r. set (n := Z.min _ _) in *. cbn zeta.
  set (x1 := on_parser _ (take_partial n x)).
  assert (Hc : content_decoders x1 = Some (true, false)).
  { unfold content_decoders. change (header x1) with (header x). rewrite Hg, Hdf. cbn [mbind option_bind].
    change (inflate_zwrapper_ (parser x1)) with (inflate_zwrapper_ (parser x)). rewrite Hinf. by rewrite bool_decide_false by (by intros []). }
  rewrite Hc. cbn [mbind option_bind negb CHECK]. unfold gzip_content, new_gzip. change (gzip_zwrapper_ (parser x1)) with (gzip_zwrapper_ (parser x)).
  rewrite Hgz, bool_decide_false by done. unfold decode_fuel. rewrite loop_S.
  set (x2 := on_parser (fun p => with_gzip (Some d') (with_partial_data rest p)) x1).
  assert (Hs : body_gzip_step false x1 = Some (inr (inl (HEADER_READ .| BODY_READING .| REQUEST_FINISHED), x2))).
  { unfold body_gzip_step, decode_partial. change (gzip_zwrapper_ (parser x1)) with (gzip_zwrapper_ (parser x)). rewrite Hgz. cbn [mbind option_bind].
    change (partial_data_ (parser x1)) with (partial_data_ (parser x) ++ takeZ n (inp x)). rewrite Hdec. cbn [mbind option_bind].
    rewrite (proj2 (Z.eqb_neq _ _)) by done. rewrite (proj2 (Z.eqb_neq _ Z_OK)) by done. done. }
  rewrite Hs. cbn [mbind option_bind]. exists x2. split; [done|]. unfold InFinalState, InErrorState.
  change (parse_state_ (parser x2)) with (parse_state_ (parser x)). by rewrite Hst.
Qed.

End Faults.

(** What the witnesses start from: a parser that has read a header. *)
Definition reading (s : ParseState) (io : bytes) (h : Header) : Parsing (H := copy_codec) :=
  mkParsing (with_parse_state s (Parser_new default_limits)) io h [].

Lemma size_without_digits_ends_body_witness :
  exists code x', ParseChunksInternal (reading STATE_CHUNK_HEAD_READING (bstr "oops" ++ CRLF ++ CRLF ++ bstr "GET") example_post) = Some (code, x') /\
    finished code = true /\ parse_state_ (parser x') = STATE_END_OF_TRAIL_HEADER /\ out x' = [] /\ inp x' = bstr "GET".
Proof.
  apply (size_without_digits_ends_body (reading STATE_CHUNK_HEAD_READING (bstr "oops" ++ CRLF ++ CRLF ++ bstr "GET") example_post) (bstr "oops") (bstr "GET")).
  - split; try (vm_compute; reflexivity); [left; reflexivity|vm_compute; discriminate|vm_compute; discriminate].
  - reflexivity.
  - reflexivity.
  - apply no_crlf_snoc_CR, no_CR_no_crlf. apply not_in. vm_compute. reflexivity.
  - assert (Hall : forallb (fun c => negb (isxdigit c)) (bstr "oops") = true) by (vm_compute; reflexivity). intros c Hc.
    rewrite forallb_forall in Hall. apply negb_true_iff, Hall. by apply list_elem_of_In.
Defined.

(** C7: whatever bytes arrive, however they are cut, a call of the parser of requests or of
    replies returns: no [CHECK] fails, no state is the wrong one and every loop ends.  A call
    that finishes leaves a final state, but for the body in gzip with an error of
    [broken_gzip_body_not_an_error], which stays in the state of reading a body; one that
    does not finish leaves a state from which the next call may go on. *)
Theorem parser_never_fails `{CodecLaws} (reply : bool) (l : Limits) (p : RequestParser) (io : bytes) (req : Request) :
  parser_run reply l p io req ->
  exists code p' io' req', parse reply p io req = Some (code, p', io', req') /\
    if finished code then InFinalState p' = true \/ parse_state_ p' = STATE_BODY_READING else InFinalState p' = false.
Proof.
  intros Hr%parser_run_healthy. destruct (parse_total reply p io req Hr) as ([[[code p'] io'] req'] & E & Hc).
  exists code, p', io', req'. split; [done|]. unfold call_ok in Hc. destruct (finished code); [done|]. apply Hc.
Qed.

(** A parser that has got a part of a request line in an earlier call. *)
Lemma example_run : exists p io req, parser_run (H := copy_codec) false default_limits p io req /\ parse_state_ p = STATE_HEADER_READING /\ io = bstr "GET / HT" ++ bstr "x".
Proof.
  set (r := ParseClientRequest (H := copy_codec) (Parser_new default_limits) (bstr "GET / HT") (Request_new true)).
  assert (Hc : (fun '(code, p, io, _) => (code, parse_state_ p, io)) <$> r = Some (0, STATE_HEADER_READING, bstr "GET / HT")) by (vm_compute; reflexivity).
  destruct r as [[[[code p] io] req]|] eqn:E; [|discriminate Hc]. cbn [fmap option_fmap option_map] in Hc.
  injection Hc as -> Hs ->. exists p, (bstr "GET / HT" ++ bstr "x"), req. split; [|done]. apply run_bytes.
  apply (run_call false default_limits (Parser_new default_limits) ([] ++ bstr "GET / HT") (Request_new true) 0); [|exact E|done].
  apply run_bytes, run_new.
Qed.

Lemma parser_never_fails_witness :
  exists p io req, parser_run (H := copy_codec) false default_limits p io req /\ io = bstr "GET / HT" ++ bstr "x" /\
  exists code p' io' req', parse (H := copy_codec) false p io req = Some (code, p', io', req') /\
    if finished code then InFinalState p' = true \/ parse_state_ p' = STATE_BODY_READING else InFinalState p' = false.
Proof.
  destruct example_run as (p & io & req & Hr & _ & Hio). exists p, io, req. split; [exact Hr|]. split; [exact Hio|].
  exact (parser_never_fails false default_limits p io req Hr).
Defined.

Definition gzip_post : Header := with_fields (<[bstr "Content-Encoding" := bstr "gzip"]> (fields_ example_post)) example_post.

Lemma short_gzip_chunk_lost_witness :
  let x := reading STATE_CHUNK_HEAD_READING (chunk_text (bstr "end of gzip") ++ last_chunk true) gzip_post in
  exists code1 x1 code2 x2, ParseChunksInternal x = Some (code1, x1) /\ finished code1 = false /\ inp x1 = CRLF ++ last_chunk true /\
    ParseChunksInternal x1 = Some (code2, x2) /\ finished code2 = true /\ InErrorState (parser x2) = false /\ inp x2 = [] /\ out x2 = out x /\
    gzip_zwrapper_ (parser x2) = gzip_zwrapper_ (parser x) /\ partial_data_ (parser x2) = partial_data_ (parser x) ++ bstr "end of gzip".
Proof.
  cbv zeta. apply short_gzip_chunk_lost.
  - reflexivity.
  - reflexivity.
  - discriminate.
  - reflexivity.
  - vm_compute. reflexivity.
  - vm_compute. reflexivity.
  - reflexivity.
  - discriminate.
  - split; [|left; reflexivity]. apply List.Forall_cons; [|apply List.Forall_nil].
    split; [split; reflexivity|discriminate].
  - reflexivity.
  - vm_compute. discriminate.
  - vm_compute. discriminate.
Defined.

(** A codec whose gzip decoder has found an error. *)
Definition failing_codec : Codec := {|
  GzipDecoder := unit; GzipDecoder_new := (); GzipDecode _ b := Some (-3, (), b, []);
  Inflater := unit; Inflater_new := (); InflateSize _ b := Some (-3, (), b, []);
  GzipEncoder := unit; GzipEncoder_new := (); BeginEncoding _ := None; ContinueEncoding _ b := None; EndEncoding _ := None;
  Deflater := unit; Deflater_new := (); Deflater_Clear d := d; DeflateSize _ b n := None |}.

(** A parser in the middle of a gzip body of which five bytes are to come. *)
Definition in_gzip_body : Parsing (H := failing_codec) :=
  mkParsing (H := failing_codec) (with_gzip (H := failing_codec) (Some ()) (with_body_size_to_read (H := failing_codec) 5
    (with_parse_state (H := failing_codec) STATE_BODY_READING (Parser_new (H := failing_codec) default_limits)))) (bstr "wrong") gzip_post (bstr "so far").

Lemma broken_gzip_body_not_an_error_witness :
  exists x', ParseBodyInternal (H := failing_codec) in_gzip_body = Some (HEADER_READ .| BODY_READING .| REQUEST_FINISHED, x') /\
    InFinalState (parser x') = false /\ InErrorState (parser x') = false /\ out x' = out in_gzip_body.
Proof.
  apply (broken_gzip_body_not_an_error (H := failing_codec) in_gzip_body () () (-3) (bstr "wrong") []).
  - reflexivity.
  - vm_compute. discriminate.
  - vm_compute. reflexivity.
  - vm_compute. reflexivity.
  - reflexivity.
  - reflexivity.
  - vm_compute. reflexivity.
  - discriminate.
  - discriminate.
Defined.

End HttpRequestProps.
