(* ===== verification/Zlib.v ===== *)
(** * Zlib: [io/zlib/zlibwrapper.h] and [io/zlib/zlibwrapper.cc], the wrappers of zlib

    Raw deflate streams and gzip members, read from and written to memory streams.  zlib
    itself is the class [Zlib]: a stream and, for every call, the code it answers, what it
    leaves of the input and what it writes into the room it is given.  A memory stream is
    the queue of its bytes; how these lie in blocks, and so what one [ReadNext] or
    [GetScratchSpace] gives, is the class [Blocks], of which nothing is known but that a
    block or a room is not empty. *)

From S2P Require Import Prelude.
From S2P Require Import NumStreaming.
From S2P Require Import DataBlock.
From S2P Require Import MemoryStream.
From S2P Require Import HttpRequest.

Module Zlib.
Import HttpRequest.

(** ** zlib *)

Inductive Flush := Z_NO_FLUSH | Z_FINISH.

Definition Z_NEED_DICT : Z := 2.
Definition Z_STREAM_ERROR : Z := -2.
Definition Z_DATA_ERROR : Z := -3.
Definition Z_MEM_ERROR : Z := -4.
Definition Z_BUF_ERROR : Z := -5.
Definition Z_VERSION_ERROR : Z := -6.
Definition Z_DEFAULT_COMPRESSION : Z := -1.

(** [deflate] and [inflate] take [next_in] and [avail_out] and give the error, the stream,
    what is left of [next_in] and what was written at [next_out]; the two bounds say how
    many calls can be needed until the input is used up, or until all is flushed. *)
Class Zlib := {
  dstream : Type;
  deflateInit2 : Z -> Z * dstream;
  deflateReset : dstream -> Z * dstream;
  deflate : dstream -> bytes -> Z -> Flush -> Z * dstream * bytes * bytes;
  deflate_bound : dstream -> bytes -> nat;
  istream : Type;
  inflateInit2 : Z * istream;
  inflateReset : istream -> Z * istream;
  inflate : istream -> bytes -> Z -> Z * istream * bytes * bytes;
  inflate_bound : istream -> bytes -> nat;
  crc32 : Z -> bytes -> Z;
}.

(** The size of the first block of a stream with these bytes, and of the room at the end of
    one to which these bytes were added. *)
Class Blocks := {
  block : bytes -> Z;
  room : bytes -> Z;
  block_size io : io <> [] -> 0 < block io <= zlen io;
  block_small io : block io < 2 ^ 32;
  room_size out : 0 < room out < 2 ^ 32;
}.

Section Zlib.
Context `{Zlib, Blocks}.

(** [ReadNext]: the first block and the rest. *)
Definition ReadNext (io : bytes) : option (bytes * bytes) :=
  if bool_decide (io = []) then None else Some (takeZ (block io) io, dropZ (block io) io).

(** ** ZlibDeflateWrapper *)

(** [strm_], when [initialized_]. *)
Record ZlibDeflateWrapper := mkDeflateWrapper { compress_level_ : Z; d_strm_ : option dstream }.

Definition DeflateWrapper_new (compress_level : Z) : ZlibDeflateWrapper := mkDeflateWrapper compress_level None.
Definition Deflate_Clear (w : ZlibDeflateWrapper) : ZlibDeflateWrapper := mkDeflateWrapper (compress_level_ w) None.

Definition Initialize (w : ZlibDeflateWrapper) : option dstream :=
  let '(zerr, s) := deflateInit2 (compress_level_ w) in if zerr =? Z_OK then Some s else None.

(** A round of [deflate] over an input: the stream, the input left, the output so far. *)
Definition deflate_step (checked : bool) (x : dstream * bytes * bytes) : option (dstream * bytes * bytes + dstream * bytes) :=
  let '(s, input, out) := x in
  let '(z_err, s, input, w) := deflate s input (room out) Z_NO_FLUSH in
  _ ← CHECK (negb checked || (z_err =? Z_OK));
  Some (if bool_decide (input = []) then inr (s, out ++ w) else inl (s, input, out ++ w)).

Definition deflate_all (checked : bool) (s : dstream) (input out : bytes) : option (dstream * bytes) :=
  loop (deflate_step checked) (S (deflate_bound s input)) (s, input, out).

(** [do .. while ( out_size > strm_.avail_out )] *)
Definition flush_step (x : dstream * bytes) : option (dstream * bytes + dstream * bytes) :=
  let '(s, out) := x in
  let '(_, s, _, w) := deflate s [] (room out) Z_FINISH in
  Some (if bool_decide (w = []) then inr (s, out ++ w) else inl (s, out ++ w)).

Definition flush (s : dstream) (out : bytes) : option (dstream * bytes) := loop flush_step (S (S (deflate_bound s []))) (s, out).

(** [Deflate] of a buffer, whose size is stored in the 32 bits of [avail_in]. *)
Definition Deflate_buffer (input : bytes) (w : ZlibDeflateWrapper) : option (bool * ZlibDeflateWrapper * bytes) :=
  match (match d_strm_ w with Some s => Some s | None => Initialize w end) with
  | None => Some (false, Deflate_Clear w, [])
  | Some s =>
      '(s, out) ← deflate_all false s (takeZ (uint32 (zlen input)) input) [];
      '(s, out) ← flush s out;
      Some (true, mkDeflateWrapper (compress_level_ w) (Some s), out)
  end.

(** The loop over the blocks of the input: [ReadNext] gives a whole block, whatever [*size]
    says, and [*size -= crt_size] is of a [size_t]. *)
Definition DeflateSize_step (x : dstream * bytes * bytes * Z) : option (dstream * bytes * bytes * Z + dstream * bytes * bytes * Z) :=
  let '(s, io, out, size) := x in
  if size =? 0 then Some (inr x)
  else
    match ReadNext io with
    | None => Some (inr x)
    | Some (buf, io) => '(s, out) ← deflate_all false s buf out; Some (inl (s, io, out, size_t (size - zlen buf)))
    end.

(** The answer, the wrapper, what is left of the input, the output and the size. *)
Definition Wrapper_DeflateSize (w : ZlibDeflateWrapper) (io : bytes) (size : Z) : option (bool * ZlibDeflateWrapper * bytes * bytes * Z) :=
  match (match d_strm_ w with Some s => Some s | None => Initialize w end) with
  | None => Some (false, Deflate_Clear w, io, [], size)
  | Some s =>
      '(s, io, out, size) ← loop DeflateSize_step (S (length io)) (s, io, [], size);
      if size =? 0 then
        '(_, out) ← flush s out; Some (true, Deflate_Clear w, io, out, size)
      else Some (true, mkDeflateWrapper (compress_level_ w) (Some s), io, out, size)
  end.

(** [Deflate] of a stream. *)
Definition Deflate (w : ZlibDeflateWrapper) (io : bytes) : option (bool * ZlibDeflateWrapper * bytes * bytes * Z) :=
  Wrapper_DeflateSize (Deflate_Clear w) io (zlen io).

(** ** ZlibInflateWrapper *)

Definition fatal (zlib_err : Z) : bool := (zlib_err =? Z_NEED_DICT) || (zlib_err =? Z_DATA_ERROR) || (zlib_err =? Z_MEM_ERROR).

(** A round of [inflate] over a block; [count] is done with every output that is kept. *)
Definition inflate_step {A} (count : A -> bytes -> A) (x : istream * bytes * bytes * A)
    : option (istream * bytes * bytes * A + Z * (istream * bytes * bytes * A)) :=
  let '(s, input, out, a) := x in
  let '(zlib_err, s, input, w) := inflate s input (room out) in
  if fatal zlib_err then Some (inr (zlib_err, (s, input, out, a)))
  else
    let x := (s, input, out ++ w, count a w) in
    Some (if (zlib_err =? Z_OK) && negb (bool_decide (input = [])) then inl x else inr (zlib_err, x)).

Definition inflate_block {A} (count : A -> bytes -> A) (s : istream) (input out : bytes) (a : A) :=
  loop (inflate_step count) (S (inflate_bound s input)) (s, input, out, a).

Definition ZlibInflateWrapper : Type := option istream.
Definition InflateWrapper_new : ZlibInflateWrapper := None.
Definition Inflate_Clear (w : ZlibInflateWrapper) : ZlibInflateWrapper := None.

Record Inflating := mkInflating { i_err : Z; i_strm : ZlibInflateWrapper; i_in : bytes; i_out : bytes; i_size : option Z }.

(** A round over the blocks: [size] is what may still be decompressed, [None] for NULL. *)
Definition InflateSize_step (s : istream) (x : Inflating) : option (istream * Inflating + Inflating) :=
  if bool_decide (i_size x = Some 0) then Some (inr x)
  else
    match ReadNext (i_in x) with
    | None => Some (inr x)
    | Some (buf, _) =>
        '(zlib_err, (s, unused, out, _)) ← inflate_block (fun a _ => a) s buf (i_out x) ();
        if fatal zlib_err then Some (inr (mkInflating zlib_err None (i_in x) out (i_size x)))
        else
          let used := zlen buf - zlen unused in
          let size := (fun n => size_t (n - used)) <$> i_size x in
          let io := dropZ used (i_in x) in
          Some (if zlib_err =? Z_STREAM_END then inr (mkInflating zlib_err None io out size)
                else inl (s, mkInflating zlib_err (Some s) io out size))
    end.

Definition Wrapper_InflateSize (w : ZlibInflateWrapper) (io : bytes) (size : option Z) : option Inflating :=
  let '(zlib_err, s) := match w with Some s => (Z_OK, s) | None => inflateInit2 end in
  if negb (zlib_err =? Z_OK) then Some (mkInflating zlib_err None io [] size)
  else loop (fun '(s, x) => InflateSize_step s x) (S (length io)) (s, mkInflating Z_OK (Some s) io [] size).

Definition Inflate (w : ZlibInflateWrapper) (io : bytes) : option Inflating := Wrapper_InflateSize (Inflate_Clear w) io (Some (zlen io)).

(** ** ZlibGzipEncodeWrapper *)

Definition kGzipHeader : bytes := [Byte.x1f; Byte.x8b; Byte.x08; Byte.x00; Byte.x00; Byte.x00; Byte.x00; Byte.x00; Byte.x00; Byte.xff].

Record ZlibGzipEncodeWrapper := mkGzipEncoder { ge_strm_ : dstream; crc_ : Z; input_size_ : Z }.

(** [crc_ = crc32(crc_, buf, size)]: the [int32] is widened to the [uLong] of zlib. *)
Definition crc_update (crc : Z) (buf : bytes) : Z := int32 (crc32 (size_t crc) buf).
Definition crc_init : Z := int32 (crc32 0 []).

Definition Encoder_InitStream (compress_level : Z) : ZlibGzipEncodeWrapper := mkGzipEncoder (deflateInit2 compress_level).2 crc_init 0.

Definition Gzip_BeginEncoding (e : ZlibGzipEncodeWrapper) : option (ZlibGzipEncodeWrapper * bytes) :=
  let '(zerr, s) := deflateReset (ge_strm_ e) in
  _ ← CHECK (zerr =? Z_OK);
  Some (mkGzipEncoder s crc_init 0, kGzipHeader).

Definition ContinueEncoding_step (x : dstream * Z * bytes * bytes * Z) : option (dstream * Z * bytes * bytes * Z + dstream * Z * bytes * bytes * Z) :=
  let '(s, crc, io, out, size) := x in
  if size =? 0 then Some (inr x)
  else
    '(buf, io) ← ReadNext io;
    '(s, out) ← deflate_all true s buf out;
    Some (inl (s, crc_update crc buf, io, out, size_t (size - zlen buf))).

Definition Gzip_ContinueEncoding (e : ZlibGzipEncodeWrapper) (io : bytes) : option (ZlibGzipEncodeWrapper * bytes * bytes) :=
  let input_size := size_t (input_size_ e + zlen io) in
  '(s, crc, io, out, size) ← loop ContinueEncoding_step (S (length io)) (ge_strm_ e, crc_ e, io, [], zlen io);
  _ ← CHECK (size =? 0);
  Some (mkGzipEncoder s crc input_size, io, out).

(** [do .. while ( z_err == Z_OK )] *)
Definition EndEncoding_step (x : dstream * bytes) : option (dstream * bytes + dstream * bytes) :=
  let '(s, out) := x in
  let '(z_err, s, _, w) := deflate s [] (room out) Z_FINISH in
  _ ← CHECK ((z_err =? Z_OK) || (z_err =? Z_STREAM_END));
  Some (if z_err =? Z_OK then inl (s, out ++ w) else inr (s, out ++ w)).

Definition Gzip_EndEncoding (e : ZlibGzipEncodeWrapper) : option (ZlibGzipEncodeWrapper * bytes) :=
  '(s, out) ← loop EndEncoding_step (S (deflate_bound (ge_strm_ e) [])) (ge_strm_ e, []);
  out ← WriteInt32 out (crc_ e) LILENDIAN;
  out ← WriteInt32 out (int32 (input_size_ e)) LILENDIAN;
  Some (mkGzipEncoder s (crc_ e) (input_size_ e), out).

(** The encoder, what is left of the input, and the output. *)
Definition Encode (e : ZlibGzipEncodeWrapper) (io : bytes) : option (ZlibGzipEncodeWrapper * bytes * bytes) :=
  '(e, start) ← Gzip_BeginEncoding e;
  '(e, io, body) ← Gzip_ContinueEncoding e io;
  '(e, trailer) ← Gzip_EndEncoding e;
  Some (e, io, start ++ body ++ trailer).

(** ** ZlibGzipDecodeWrapper *)

Inductive State := INITIALIZED | DECODING | CHECKING | FINALIZED.

#[export] Instance State_eq_dec : EqDecision State.
Proof. solve_decision. Defined.

Record ZlibGzipDecodeWrapper := mkGzipDecoder {
  strict_trailer_checking_ : bool; state_ : State; gd_strm_ : istream; running_crc_ : Z; running_size_ : Z }.

Definition Decoder_InitStream (strict_trailer_checking : bool) : ZlibGzipDecodeWrapper :=
  mkGzipDecoder strict_trailer_checking INITIALIZED (inflateInit2).2 crc_init 0.

Definition with_state (s : State) (d : ZlibGzipDecodeWrapper) : ZlibGzipDecodeWrapper :=
  mkGzipDecoder (strict_trailer_checking_ d) s (gd_strm_ d) (running_crc_ d) (running_size_ d).
Definition with_stream (s : istream) (a : Z * Z) (d : ZlibGzipDecodeWrapper) : ZlibGzipDecodeWrapper :=
  mkGzipDecoder (strict_trailer_checking_ d) (state_ d) s a.1 a.2.

(** After a member: a new one may follow. *)
Definition Decode_reset (d : ZlibGzipDecodeWrapper) : option ZlibGzipDecodeWrapper :=
  if bool_decide (state_ d = FINALIZED) then
    let '(zerr, s) := inflateReset (gd_strm_ d) in
    _ ← CHECK (zerr =? Z_OK);
    Some (mkGzipDecoder (strict_trailer_checking_ d) INITIALIZED s crc_init 0)
  else Some d.

(** The header of a member: an answer, or the state to go on with, and the rest. *)
Definition Decode_header (d : ZlibGzipDecodeWrapper) (io : bytes) : option (Z + ZlibGzipDecodeWrapper) * bytes :=
  if bool_decide (state_ d = INITIALIZED) then
    if zlen io <? zlen kGzipHeader + 2 * 4 then (Some (inl Z_OK), io)
    else
      let header := takeZ (zlen kGzipHeader) io in
      let io := dropZ (zlen kGzipHeader) io in
      (match header with
       | b0 :: b1 :: _ :: flags :: _ =>
           Some (if negb (bool_decide (b0 = Byte.x1f)) || negb (bool_decide (b1 = Byte.x8b)) then inl Z_DATA_ERROR
                 else if negb (Z.land (uchar flags) 254 =? 0) then inl Z_VERSION_ERROR
                 else inr (with_state DECODING d))
       | _ => None
       end, io)
  else (Some (inr d), io).

(** [running_size_ += n; running_crc_ = crc32(running_crc_, out_buf, n)] *)
Definition running (a : Z * Z) (w : bytes) : Z * Z := (crc_update a.1 w, size_t (a.2 + zlen w)).

(** A round over the blocks; leaving the loop there is an answer to return or not. *)
Definition Decode_step (x : Z * ZlibGzipDecodeWrapper * bytes * bytes)
    : option (Z * ZlibGzipDecodeWrapper * bytes * bytes + bool * (Z * ZlibGzipDecodeWrapper * bytes * bytes)) :=
  let '(zlib_err, d, io, out) := x in
  if negb (bool_decide (state_ d = DECODING) && negb (zlib_err =? Z_STREAM_END)) then Some (inr (false, x))
  else
    match ReadNext io with
    | None => Some (inr (true, x))
    | Some (buf, _) =>
        '(zlib_err, (s, unused, out, a)) ← inflate_block running (gd_strm_ d) buf out (running_crc_ d, running_size_ d);
        let d := with_stream s a d in
        if fatal zlib_err then Some (inr (true, (zlib_err, with_state FINALIZED d, io, out)))
        else Some (inl (zlib_err, d, dropZ (zlen buf - zlen unused) io, out))
    end.

(** The checksum and the size at the end. *)
Definition Decode_trailer (zlib_err : Z) (d : ZlibGzipDecodeWrapper) (io : bytes) : option (Z * ZlibGzipDecodeWrapper * bytes) :=
  let d := if (zlib_err =? Z_STREAM_END) && bool_decide (state_ d = DECODING) then with_state CHECKING d else d in
  if bool_decide (state_ d = CHECKING) then
    if zlen io <? 2 * 4 then Some (Z_OK, d, io)
    else
      '(expected_crc, io) ← ReadInt32 io LILENDIAN;
      '(expected_size, io) ← ReadInt32 io LILENDIAN;
      let wrong := negb (expected_crc =? running_crc_ d) || negb (size_t expected_size =? running_size_ d) in
      Some (if wrong && strict_trailer_checking_ d then Z_DATA_ERROR else Z_STREAM_END, with_state FINALIZED d, io)
  else Some (zlib_err, d, io).

(** The error, the decoder, what is left of the input, and the output. *)
Definition Decode (d : ZlibGzipDecodeWrapper) (io : bytes) : option (Z * ZlibGzipDecodeWrapper * bytes * bytes) :=
  d ← Decode_reset d;
  let '(r, io) := Decode_header d io in
  r ← r;
  match r with
  | inl zlib_err => Some (zlib_err, d, io, [])
  | inr d =>
      '(leave, (zlib_err, d, io, out)) ← loop Decode_step (S (S (length io))) (Z_OK, d, io, []);
      if leave : bool then Some (zlib_err, d, io, out)
      else '(zlib_err, d, io) ← Decode_trailer zlib_err d io; Some (zlib_err, d, io, out)
  end.

(** ** The interface of the HTTP messages *)

Definition zlib_codec : Codec := {|
  GzipDecoder := ZlibGzipDecodeWrapper; GzipDecoder_new := Decoder_InitStream true; GzipDecode := Decode;
  Inflater := ZlibInflateWrapper; Inflater_new := InflateWrapper_new;
  InflateSize w io := x ← Wrapper_InflateSize w io None; Some (i_err x, i_strm x, i_in x, i_out x);
  GzipEncoder := ZlibGzipEncodeWrapper; GzipEncoder_new := Encoder_InitStream Z_DEFAULT_COMPRESSION;
  BeginEncoding := Gzip_BeginEncoding; ContinueEncoding := Gzip_ContinueEncoding; EndEncoding := Gzip_EndEncoding;
  Deflater := ZlibDeflateWrapper; Deflater_new := DeflateWrapper_new Z_DEFAULT_COMPRESSION; Deflater_Clear := Deflate_Clear;
  DeflateSize := Wrapper_DeflateSize |}.

End Zlib.

End Zlib.
