(* ===== verification/ZlibSpec.v ===== *)
(** * ZlibSpec: what zlib documents, and what the wrappers make of it

    [ZlibLaws]: of a deflate stream that was initialised, that it takes its input and that
    what it has given when it is finished stands for what it took; of such an inflate stream,
    that fed with such bytes it gives what they stand for, as far as the input and the room
    go.  [ZlibMemory]: no call answers that there is no memory, and the levels are those
    documented, -1 to 9.  [DeflateAgain] is not documented: what [ZlibDeflateWrapper] needs
    of a stream that is finished. *)

From S2P Require Import Prelude.
From S2P Require Import NumStreaming.
From S2P Require Import HttpRequest.
From S2P Require Import Zlib.

Module ZlibSpec.
Import HttpRequest Zlib.

(** Of a deflate stream: not initialised, taking input, being finished, at its end. *)
Inductive Stage := Unset | Open | Finishing | Done.

(** The memory that zlib asks for is there. *)
Class ZlibMemory `{Zlib} : Prop := {
  deflate_memory level : -1 <= level <= 9 -> (deflateInit2 level).1 = Z_OK;
  inflateInit2_memory : inflateInit2.1 = Z_OK;
  inflate_memory s input n e s' rest w : inflate s input n = (e, s', rest, w) -> e <> Z_MEM_ERROR;
}.

(** [raw C D]: the bytes [C] are a deflate stream for [D].  A stream has taken and given
    bytes since it was initialised or reset; [i_ready]: an inflate stream was initialised. *)
Class ZlibLaws `{Zlib} := {
  raw : bytes -> bytes -> Prop;
  d_stage : dstream -> Stage;
  d_taken : dstream -> bytes;
  d_given : dstream -> bytes;
  deflateInit2_law level s : deflateInit2 level = (Z_OK, s) -> d_stage s = Open /\ d_taken s = [] /\ d_given s = [];
  deflateReset_law s0 : d_stage s0 <> Unset ->
    exists s, deflateReset s0 = (Z_OK, s) /\ d_stage s = Open /\ d_taken s = [] /\ d_given s = [];
  deflate_takes s input n : d_stage s = Open -> input <> [] -> 0 < n ->
    exists s' taken rest w, deflate s input n Z_NO_FLUSH = (Z_OK, s', rest, w) /\ input = taken ++ rest /\ d_stage s' = Open /\
      d_taken s' = d_taken s ++ taken /\ d_given s' = d_given s ++ w /\ (rest <> [] -> (deflate_bound s' rest < deflate_bound s input)%nat);
  deflate_finishes s n : d_stage s = Open \/ d_stage s = Finishing -> 0 < n ->
    exists e s' w, deflate s [] n Z_FINISH = (e, s', [], w) /\ d_taken s' = d_taken s /\ d_given s' = d_given s ++ w /\
      (e = Z_OK /\ d_stage s' = Finishing /\ w <> [] /\ (deflate_bound s' [] < deflate_bound s [])%nat \/
       e = Z_STREAM_END /\ d_stage s' = Done /\ raw (d_given s') (d_taken s'));
  i_taken : istream -> bytes;
  i_given : istream -> bytes;
  i_ready : istream -> Prop;
  inflateInit2_law s : inflateInit2 = (Z_OK, s) -> i_ready s /\ i_taken s = [] /\ i_given s = [];
  inflateReset_law s0 : i_ready s0 ->
    exists s, inflateReset s0 = (Z_OK, s) /\ i_ready s /\ i_taken s = [] /\ i_given s = [];
  inflate_any s input n : i_ready s -> input <> [] -> 0 < n ->
    exists e s' taken rest w, inflate s input n = (e, s', rest, w) /\ i_ready s' /\ input = taken ++ rest /\ zlen w <= n /\
      i_taken s' = i_taken s ++ taken /\ i_given s' = i_given s ++ w /\
      (e = Z_OK \/ e = Z_STREAM_END \/ fatal e = true) /\
      (e = Z_OK -> rest <> [] -> (inflate_bound s' rest < inflate_bound s input)%nat);
  inflate_raw s input n e s' rest w C D fut : i_ready s -> e <> Z_MEM_ERROR -> input <> [] -> 0 < n -> inflate s input n = (e, s', rest, w) ->
    raw C D -> i_taken s `prefix_of` C -> i_given s `prefix_of` D -> C `prefix_of` i_taken s ++ input ++ fut ->
    i_taken s' `prefix_of` C /\ i_given s' `prefix_of` D /\
    (e = Z_OK /\ (zlen w < n -> i_taken s' <> C) \/ e = Z_STREAM_END /\ i_taken s' = C /\ i_given s' = D);
  crc32_continues c a b : int32 (crc32 (size_t (int32 (crc32 c a))) b) = int32 (crc32 c (a ++ b));
}.

(** Documented is that only [deflateReset] or [deflateEnd] may follow [Z_STREAM_END].  The
    loops of [ZlibDeflateWrapper] that flush call [deflate] once more, and rely on it to
    write nothing then. *)
Class DeflateAgain `{ZlibLaws} : Prop := {
  deflate_done s n : d_stage s = Done -> 0 < n ->
    exists s', deflate s [] n Z_FINISH = (Z_STREAM_END, s', [], []) /\ d_given s' = d_given s;
}.

Section Zlib.
Context `{ZI : Zlib} `{ZL : !ZlibLaws} `{ZM : !ZlibMemory} `{BI : Blocks}.

(** ** Blocks and checksums *)

Lemma ReadNext_block io : io <> [] -> exists buf rest, ReadNext io = Some (buf, rest) /\ buf <> [] /\ io = buf ++ rest.
Proof.
  intros Hio. unfold ReadNext. rewrite bool_decide_false by done. pose proof (block_size io Hio). do 2 eexists. split; [done|].
  rewrite takeZ_dropZ. split; [|done]. intros E. apply (f_equal zlen) in E. rewrite zlen_takeZ in E by lia. change (zlen []) with 0 in E. lia.
Qed.

Lemma ReadNext_empty : ReadNext [] = None.
Proof. done. Qed.

Definition crc_of (D : bytes) : Z := int32 (crc32 0 D).

Lemma crc_update_of D b : crc_update (crc_of D) b = crc_of (D ++ b).
Proof. apply crc32_continues. Qed.

Lemma zlen_pos (b : bytes) : b <> [] -> 0 < zlen b.
Proof. destruct b as [|x b]; [done|]. intros _. rewrite zlen_cons. pose proof (zlen_nonneg b). lia. Qed.

(** ** Deflating *)

Lemma deflate_all_spec checked s input out : d_stage s = Open -> input <> [] ->
  exists s' w, deflate_all checked s input out = Some (s', out ++ w) /\ d_stage s' = Open /\
    d_taken s' = d_taken s ++ input /\ d_given s' = d_given s ++ w.
Proof.
  intros Ho Hi. unfold deflate_all.
  destruct (loop_total_ix (deflate_step checked)
    (fun n x => let '(s1, input1, out1) := x in d_stage s1 = Open /\ input1 <> [] /\ d_taken s1 ++ input1 = d_taken s ++ input /\ n = deflate_bound s1 input1 /\
       exists w, out1 = out ++ w /\ d_given s1 = d_given s ++ w)
    (fun r => d_stage r.1 = Open /\ d_taken r.1 = d_taken s ++ input /\ exists w, r.2 = out ++ w /\ d_given r.1 = d_given s ++ w))
    with (fuel := S (deflate_bound s input)) (n := deflate_bound s input) (s := (s, input, out)) as ([s' o] & -> & H1 & H2 & w & E & H3).
  - intros n [[s1 input1] out1] (Ho1 & Hi1 & Ht & -> & w & -> & Hg). unfold deflate_step. pose proof (room_size (out ++ w)) as [Hr _].
    destruct (deflate_takes s1 input1 _ Ho1 Hi1 Hr) as (s2 & taken & rest & w' & -> & Hin & Ho2 & Ht2 & Hg2 & Hb).
    rewrite orb_true_r. cbn [CHECK mbind option_bind]. eexists. split; [done|]. case_bool_decide as Hr'.
    + split_and!; [done| |].
      * cbn [fst]. rewrite Ht2, <- Ht, Hin, Hr'. by rewrite app_nil_r.
      * exists (w ++ w'). cbn [fst snd]. by rewrite Hg2, Hg, !app_assoc.
    + exists (deflate_bound s2 rest). split; [|by apply Hb]. split_and!; try done.
      * by rewrite Ht2, <- Ht, Hin, app_assoc.
      * exists (w ++ w'). by rewrite Hg2, Hg, !app_assoc.
  - split_and!; try done. exists []. by rewrite !app_nil_r.
  - lia.
  - cbn [fst snd] in *. subst o. exists s', w. by split_and!.
Qed.

(** What is flushed ends a deflate stream for all that was taken. *)
Lemma flush_spec `{!DeflateAgain} s out : d_stage s = Open -> exists s' w, flush s out = Some (s', out ++ w) /\ raw (d_given s ++ w) (d_taken s).
Proof.
  intros Ho. unfold flush.
  destruct (loop_total_ix flush_step
    (fun n x => exists w, x.2 = out ++ w /\ d_given x.1 = d_given s ++ w /\
       ((d_stage x.1 = Open \/ d_stage x.1 = Finishing) /\ d_taken x.1 = d_taken s /\ n = S (deflate_bound x.1 []) \/ d_stage x.1 = Done /\ raw (d_given x.1) (d_taken s) /\ n = O))
    (fun r => exists w, r.2 = out ++ w /\ raw (d_given s ++ w) (d_taken s)))
    with (fuel := S (S (deflate_bound s []))) (n := S (deflate_bound s [])) (s := (s, out)) as ([s' o] & -> & w & E & Hw).
  - intros n [s1 out1] (w & E & Hg & Hx). cbn [fst snd] in *. subst out1. unfold flush_step. pose proof (room_size (out ++ w)) as [Hr _].
    destruct Hx as [(Hs & Ht & ->) | (Hs & Hraw & ->)].
    + destruct (deflate_finishes s1 _ Hs Hr) as (e & s2 & w' & -> & Ht2 & Hg2 & Hx). eexists. split; [done|].
      destruct Hx as [(-> & Hs2 & Hw & Hb) | (-> & Hs2 & Hraw)].
      * rewrite bool_decide_false by done. exists (S (deflate_bound s2 [])). split; [|lia]. exists (w ++ w'). cbn [fst snd].
        rewrite Hg2, Hg, !app_assoc. split_and!; try done. left. rewrite Hs2, Ht2. split_and!; [by right|done..].
      * case_bool_decide as Hw.
        -- exists (w ++ w'). cbn [snd]. rewrite app_assoc. split; [done|]. by rewrite Hg2, Hg, Ht2, Ht, <- app_assoc in Hraw.
        -- exists O. split; [|lia]. exists (w ++ w'). cbn [fst snd]. rewrite Hg2, Hg, !app_assoc. split_and!; try done. right.
           rewrite Hg2, Hg, Ht2, Ht in Hraw. by split_and!.
    + destruct (deflate_done s1 _ Hs Hr) as (s2 & -> & Hg2). eexists. split; [done|]. rewrite bool_decide_true by done. exists w.
      cbn [snd]. rewrite app_nil_r. split; [done|]. by rewrite <- Hg.
  - exists []. cbn [fst snd]. rewrite !app_nil_r. split_and!; try done. left. split; [by left|done].
  - lia.
  - cbn [fst snd] in *. subst o. by exists s', w.
Qed.

(** The rest after a block. *)
Lemma size_rest (buf io : bytes) : zlen (buf ++ io) < 2 ^ 64 -> size_t (zlen (buf ++ io) - zlen buf) = zlen io.
Proof.
  intros Hz. rewrite zlen_app in *. replace (zlen buf + zlen io - zlen buf) with (zlen io) by lia. apply wrapU_small.
  pose proof (zlen_nonneg buf). pose proof (zlen_nonneg io). lia.
Qed.

Lemma size_zero (io : bytes) : (zlen io =? 0) = bool_decide (io = []).
Proof. destruct io as [|b io]; [done|]. rewrite zlen_cons. pose proof (zlen_nonneg io). by rewrite (proj2 (Z.eqb_neq _ _)) by lia. Qed.

(** ** The gzip encoder *)

Definition trailer (D : bytes) : bytes := le_bytes 4 (crc_of D) ++ le_bytes 4 (zlen D).

Definition gzip_text (C D : bytes) : bytes := kGzipHeader ++ C ++ trailer D.

Lemma ContinueEncoding_spec e io : d_stage (ge_strm_ e) = Open -> crc_ e = crc_of (d_taken (ge_strm_ e)) -> zlen io < 2 ^ 64 ->
  exists e' body, Gzip_ContinueEncoding e io = Some (e', [], body) /\ d_stage (ge_strm_ e') = Open /\
    d_taken (ge_strm_ e') = d_taken (ge_strm_ e) ++ io /\ d_given (ge_strm_ e') = d_given (ge_strm_ e) ++ body /\
    crc_ e' = crc_of (d_taken (ge_strm_ e')) /\ input_size_ e' = size_t (input_size_ e + zlen io).
Proof.
  intros Ho Hc Hz. unfold Gzip_ContinueEncoding. set (s0 := ge_strm_ e) in *.
  destruct (loop_total ContinueEncoding_step
    (fun x => let '(s, crc, io1, out, size) := x in d_stage s = Open /\ d_taken s ++ io1 = d_taken s0 ++ io /\ crc = crc_of (d_taken s) /\
       d_given s = d_given s0 ++ out /\ size = zlen io1 /\ zlen io1 < 2 ^ 64)
    (fun x => let '(s, crc, io1, out, size) := x in d_stage s = Open /\ d_taken s = d_taken s0 ++ io /\ crc = crc_of (d_taken s) /\
       d_given s = d_given s0 ++ out /\ size = 0 /\ io1 = [])
    (fun x => let '(s, crc, io1, out, size) := x in length io1))
    with (fuel := S (length io)) (s := (s0, crc_ e, io, [] : bytes, zlen io)) as ([[[[s crc] io1] out] size] & -> & H1 & H2 & H3 & H4 & -> & ->).
  - intros [[[[s crc] io1] out] size] (H1 & H2 & -> & H4 & -> & H6). unfold ContinueEncoding_step. rewrite size_zero. case_bool_decide as Hio.
    + subst io1. eexists. split; [done|]. rewrite app_nil_r in H2. by split_and!.
    + destruct (ReadNext_block io1 Hio) as (buf & io2 & -> & Hb & ->). cbn [mbind option_bind].
      destruct (deflate_all_spec true s buf out H1 Hb) as (s' & w & -> & Ho' & Ht' & Hg'). cbn [mbind option_bind].
      eexists. split; [done|]. rewrite crc_update_of, size_rest by done. rewrite Ht', Hg', H4, <- !app_assoc. rewrite zlen_app in H6. pose proof (zlen_nonneg buf).
      split_and!; try done; [lia|]. rewrite length_app. destruct buf; [done|]. cbn [length]. lia.
  - rewrite app_nil_r. by split_and!.
  - lia.
  - cbn [mbind option_bind CHECK]. rewrite Z.eqb_refl. cbn [mbind option_bind CHECK]. do 2 eexists. split; [done|]. by split_and!.
Qed.

Lemma WriteInt32_bytes (out : bytes) z : WriteInt32 out z LILENDIAN = Some (out ++ le_bytes 4 z).
Proof.
  destruct (WriteNumber_wire Int32 out z LILENDIAN) as (os & E & Hc). unfold WriteInt32. rewrite E. cbn in Hc. by rewrite Hc.
Qed.

Lemma EndEncoding_spec e D : d_stage (ge_strm_ e) = Open -> d_taken (ge_strm_ e) = D -> crc_ e = crc_of D -> input_size_ e = size_t (zlen D) ->
  exists e' w, Gzip_EndEncoding e = Some (e', w ++ trailer D) /\ d_stage (ge_strm_ e') = Done /\ raw (d_given (ge_strm_ e) ++ w) D.
Proof.
  intros Ho Ht Hc Hi. unfold Gzip_EndEncoding. set (s0 := ge_strm_ e) in *.
  destruct (loop_total_ix EndEncoding_step
    (fun n x => d_given x.1 = d_given s0 ++ x.2 /\ (d_stage x.1 = Open \/ d_stage x.1 = Finishing) /\ d_taken x.1 = D /\ n = deflate_bound x.1 [])
    (fun r => d_stage r.1 = Done /\ raw (d_given s0 ++ r.2) D))
    with (fuel := S (deflate_bound s0 [])) (n := deflate_bound s0 []) (s := (s0, [] : bytes)) as ([s' w] & -> & Hdn & Hw).
  - intros n [s1 out1] (Hg & Hs & Ht1 & ->). cbn [fst snd] in *. unfold EndEncoding_step. pose proof (room_size out1) as [Hr _].
    destruct (deflate_finishes s1 _ Hs Hr) as (z & s2 & w' & -> & Ht2 & Hg2 & Hx). destruct Hx as [(-> & Hs2 & Hw & Hb) | (-> & Hs2 & Hraw)];
      cbn [CHECK mbind option_bind orb Z.eqb]; (eexists; split; [done|]).
    + exists (deflate_bound s2 []). split; [|done]. cbn [fst snd]. rewrite Hg2, Hg, Hs2, Ht2, app_assoc. split_and!; [done|by right|done..].
    + cbn [fst snd]. by rewrite Hg2, Hg, Ht2, Ht1, <- app_assoc in Hraw.
  - cbn [fst snd]. rewrite app_nil_r, Ho. split_and!; [done|by left|done..].
  - lia.
  - cbn [fst snd mbind option_bind] in *. rewrite !WriteInt32_bytes. cbn [mbind option_bind]. rewrite WriteInt32_bytes. cbn [mbind option_bind].
    exists (mkGzipEncoder s' (crc_ e) (input_size_ e)), w. split; [|by split]. do 2 f_equal. unfold trailer. rewrite <- app_assoc, Hc, Hi. do 2 f_equal.
    apply le_bytes_congr. change (256 ^ Z.of_nat 4) with (2 ^ 32). fold (wrapU 32 (int32 (size_t (zlen D)))). rewrite wrapU_wrapS by lia.
    unfold wrapU. change (2 ^ 64) with (2 ^ 32 * 2 ^ 32). rewrite Z.rem_mul_r by lia. rewrite Z.add_mod, Z.mul_comm, Z.mod_mul, Z.add_0_r, !Zmod_mod by lia. done.
Qed.

(** Of an encoder: its stream was initialised. *)
Definition initialised (e : ZlibGzipEncodeWrapper) : Prop := d_stage (ge_strm_ e) <> Unset.

Lemma Encoder_InitStream_ready level : -1 <= level <= 9 -> initialised (Encoder_InitStream level).
Proof.
  intros Hl. unfold initialised, Encoder_InitStream. cbn [ge_strm_]. pose proof (deflate_memory level Hl) as He.
  destruct (deflateInit2 level) as [z s] eqn:E. cbn [fst snd] in *. subst z. by destruct (deflateInit2_law _ _ E) as [-> _].
Qed.

Lemma Encode_spec e D : initialised e -> zlen D < 2 ^ 64 ->
  exists e' C, Encode e D = Some (e', [], gzip_text C D) /\ initialised e' /\ raw C D.
Proof.
  intros Hr Hz. unfold Encode, Gzip_BeginEncoding. destruct (deflateReset_law (ge_strm_ e) Hr) as (s & -> & Hs & Ht & Hg). rewrite Z.eqb_refl. cbn [mbind option_bind CHECK].
  edestruct (ContinueEncoding_spec (mkGzipEncoder s crc_init 0) D) as (e1 & body & -> & Ho1 & Ht1 & Hg1 & Hc1 & Hi1); [done|by cbn [ge_strm_ crc_]; rewrite Ht|done|].
  cbn [mbind option_bind ge_strm_] in *. rewrite Ht in Ht1. destruct (EndEncoding_spec e1 D) as (e2 & w & -> & Hdn & Hraw); [done|done|by rewrite Hc1, Ht1|done|].
  cbn [mbind option_bind]. exists e2, (body ++ w). rewrite Hg1, Hg in Hraw. split; [|unfold initialised; by rewrite Hdn]. unfold gzip_text. by rewrite <- !app_assoc.
Qed.

(** ** Inflating a block *)

(** The stream is within one that stands for [D], and [fut] follows its input. *)
Definition within (C D : bytes) (s : istream) (input fut : bytes) : Prop :=
  i_taken s `prefix_of` C /\ i_given s `prefix_of` D /\ C `prefix_of` i_taken s ++ input ++ fut.

(** The last room that was asked for has been filled. *)
Definition filled (out : bytes) : Prop := exists o w, out = o ++ w /\ zlen w = room o.

(** The block is used up, unless the stream ends in it or fails; a stream for [D] gives a
    prefix of [D] and ends when it has taken and given all.  [P] relates what was given to
    what is counted. *)
Lemma inflate_block_spec {A} (count : A -> bytes -> A) (P : bytes -> A -> Prop) s input out a :
  (forall g a w, P g a -> P (g ++ w) (count a w)) -> P (i_given s) a -> i_ready s -> input <> [] ->
  exists e s' rest taken w a', inflate_block count s input out a = Some (e, (s', rest, out ++ w, a')) /\
    i_ready s' /\ input = taken ++ rest /\ i_taken s' = i_taken s ++ taken /\
    (e = Z_OK /\ rest = [] \/ e = Z_STREAM_END \/ fatal e = true) /\
    (fatal e = false -> i_given s' = i_given s ++ w /\ P (i_given s') a') /\
    forall C D fut, raw C D -> within C D s input fut ->
      within C D s' rest fut /\ (e = Z_OK /\ (i_taken s' = C -> filled (out ++ w)) \/ e = Z_STREAM_END /\ i_taken s' = C /\ i_given s' = D).
Proof.
  intros HP Ha Hrd Hi. unfold inflate_block.
  destruct (loop_total_ix (inflate_step count)
    (fun n x => let '(s1, input1, out1, a1) := x in i_ready s1 /\ input1 <> [] /\ n = inflate_bound s1 input1 /\
       exists taken w, input = taken ++ input1 /\ i_taken s1 = i_taken s ++ taken /\ out1 = out ++ w /\ i_given s1 = i_given s ++ w /\ P (i_given s1) a1 /\
         forall C D fut, raw C D -> within C D s input fut -> within C D s1 input1 fut)
    (fun r => let '(e, (s1, rest, out1, a1)) := r in i_ready s1 /\
       exists taken w, input = taken ++ rest /\ i_taken s1 = i_taken s ++ taken /\ out1 = out ++ w /\
         (e = Z_OK /\ rest = [] \/ e = Z_STREAM_END \/ fatal e = true) /\
         (fatal e = false -> i_given s1 = i_given s ++ w /\ P (i_given s1) a1) /\
         forall C D fut, raw C D -> within C D s input fut ->
           within C D s1 rest fut /\ (e = Z_OK /\ (i_taken s1 = C -> filled out1) \/ e = Z_STREAM_END /\ i_taken s1 = C /\ i_given s1 = D)))
    with (fuel := S (inflate_bound s input)) (n := inflate_bound s input) (s := (s, input, out, a)) as ([e [[[s' rest] out'] a']] & -> & Hrd' & taken & w & H1 & H2 & -> & H3 & H4 & H5).
  - intros n [[[s1 input1] out1] a1] (Hrd1 & Hi1 & -> & taken & w & Hin & Ht & -> & Hg & Hp & Hw). unfold inflate_step. pose proof (room_size (out ++ w)) as [Hr _].
    destruct (inflate_any s1 input1 _ Hrd1 Hi1 Hr) as (e & s2 & taken2 & rest & w2 & E & Hrd2 & Hin2 & Hlen & Ht2 & Hg2 & He & Hb). rewrite E.
    assert (Hraw : forall C D fut, raw C D -> within C D s input fut ->
      within C D s2 rest fut /\ (e = Z_OK /\ (i_taken s2 = C -> filled ((out ++ w) ++ w2)) \/ e = Z_STREAM_END /\ i_taken s2 = C /\ i_given s2 = D)).
    { intros C D fut HCD Hin0. destruct (Hw C D fut HCD Hin0) as (Hw1 & Hw2 & Hw3).
      destruct (inflate_raw _ _ _ _ _ _ _ C D fut Hrd1 (inflate_memory _ _ _ _ _ _ _ E) Hi1 Hr E HCD Hw1 Hw2 Hw3) as (Hx1 & Hx2 & Hx3). split.
      2: { destruct Hx3 as [[? Hroom]|?]; [left|by right]. split; [done|]. intros HC. exists (out ++ w), w2. split; [done|].
           destruct (Z.le_gt_cases (room (out ++ w)) (zlen w2)) as [?|Hlt]; [lia|]. by destruct (Hroom Hlt). }
      split; [done|]. split; [done|]. rewrite Ht2, <- app_assoc. rewrite Hin2 in Hw3. by rewrite <- app_assoc in Hw3. }
    assert (Hcat : input = (taken ++ taken2) ++ rest /\ i_taken s2 = i_taken s ++ taken ++ taken2 /\ (out ++ w) ++ w2 = out ++ w ++ w2 /\ i_given s2 = i_given s ++ w ++ w2).
    { by rewrite Ht2, Hg2, Ht, Hg, !app_assoc, <- (app_assoc taken), <- Hin2, <- Hin. }
    destruct Hcat as (Hc1 & Hc2 & Hc3 & Hc4). assert (Hp2 : P (i_given s2) (count a1 w2)) by (rewrite Hg2; by apply HP).
    destruct (fatal e) eqn:Ef.
    { eexists. split; [done|]. split; [done|]. exists (taken ++ taken2), w. rewrite Ef. split_and!; try done; [by right; right|].
      intros C D fut HCD Hin0. by destruct (Hraw C D fut HCD Hin0) as [_ [[-> _] | [-> _]]]. }
    cbv zeta. destruct (Z.eqb_spec e Z_OK) as [Hok|Hok]; cbn [andb].
    + case_bool_decide as Hrest; cbn [negb]; (eexists; split; [done|]).
      * split; [done|]. exists (taken ++ taken2), (w ++ w2). rewrite Ef. split_and!; try done. by left.
      * exists (inflate_bound s2 rest). split; [|by apply Hb]. split; [done|]. split; [done|]. split; [done|].
        exists (taken ++ taken2), (w ++ w2). split_and!; try done. intros C D fut HCD Hin0. by apply Hraw.
    + eexists; split; [done|]. split; [done|]. exists (taken ++ taken2), (w ++ w2). rewrite Ef. split_and!; try done.
      destruct He as [?|[?|?]]; [done|by right; left|congruence].
  - split; [done|]. split; [done|]. split; [done|]. exists [], []. rewrite !app_nil_r. by split_and!.
  - lia.
  - by exists e, s', rest, taken, w, a'.
Qed.

(** ** The gzip decoder *)

(** The checksum and the size of what was given. *)
Definition counted (g : bytes) (a : Z * Z) : Prop := a = (crc_of g, size_t (zlen g)).

Lemma counted_running g a w : counted g a -> counted (g ++ w) (running a w).
Proof.
  intros ->. unfold counted, running. cbn [fst snd]. rewrite crc_update_of, zlen_app. f_equal. unfold wrapU. by rewrite Zplus_mod_idemp_l.
Qed.

Definition counts (d : ZlibGzipDecodeWrapper) : Z * Z := (running_crc_ d, running_size_ d).

(** Of a decoder: its stream was initialised. *)
Definition ready (d : ZlibGzipDecodeWrapper) : Prop := i_ready (gd_strm_ d).

(** Between two members. *)
Definition fresh (d : ZlibGzipDecodeWrapper) : Prop :=
  ready d /\
  (state_ d = FINALIZED \/
   state_ d = INITIALIZED /\ i_taken (gd_strm_ d) = [] /\ i_given (gd_strm_ d) = [] /\ counted [] (counts d)).

Lemma Decoder_InitStream_fresh strict : fresh (Decoder_InitStream strict).
Proof.
  unfold fresh, ready, Decoder_InitStream, counts. cbn [gd_strm_ state_ running_crc_ running_size_]. pose proof inflateInit2_memory as He.
  destruct inflateInit2 as [z s] eqn:E. cbn [fst snd] in *. subst z. destruct (inflateInit2_law _ E) as (H1 & H2 & H3).
  split; [done|]. right. by split_and!.
Qed.

(** The decoder has given [g] of [D]; [io] is there of what is left of its member and [tl],
    and [fut] is to come. *)
Inductive decoding (C D tl : bytes) (d : ZlibGzipDecodeWrapper) (io fut g : bytes) : Prop :=
  | decoding_start : fresh d -> g = [] -> io ++ fut = gzip_text C D ++ tl -> decoding C D tl d io fut g
  | decoding_stream : state_ d = DECODING -> ready d -> i_given (gd_strm_ d) = g -> counted g (counts d) -> i_taken (gd_strm_ d) `prefix_of` C -> g `prefix_of` D ->
      i_taken (gd_strm_ d) ++ io ++ fut = C ++ trailer D ++ tl -> decoding C D tl d io fut g
  | decoding_trailer : state_ d = CHECKING -> ready d -> g = D -> counted D (counts d) -> io ++ fut = trailer D ++ tl -> decoding C D tl d io fut g.

(** A size of 2^31 or more is not what the trailer of 32 bits, read as a signed number,
    says. *)
Definition final_error (d : ZlibGzipDecodeWrapper) (D : bytes) : Z :=
  if negb (size_t (int32 (zlen D)) =? size_t (zlen D)) && strict_trailer_checking_ d then Z_DATA_ERROR else Z_STREAM_END.

Definition decoded (C D tl : bytes) (d : ZlibGzipDecodeWrapper) (fut g : bytes) (r : Z * ZlibGzipDecodeWrapper * bytes * bytes) : Prop :=
  let '(zerr, d', io', w) := r in
  strict_trailer_checking_ d' = strict_trailer_checking_ d /\
  (zerr = Z_OK /\ decoding C D tl d' io' fut (g ++ w) /\ zlen tl < zlen fut \/
   zerr = final_error d D /\ io' ++ fut = tl /\ g ++ w = D /\ state_ d' = FINALIZED /\ ready d').

Lemma zlen_trailer D : zlen (trailer D) = 8.
Proof. unfold trailer. by rewrite zlen_app, !zlen_le_bytes. Qed.

Lemma int32_idemp z : int32 (int32 z) = int32 z.
Proof. unfold crc_of. pose proof (wrapS_range 32 z). apply wrapS_small; lia. Qed.

Lemma ReadInt32_bytes z rest : ReadInt32 (le_bytes 4 z ++ rest) LILENDIAN = Some (int32 z, rest).
Proof. destruct (ReadNumber_wire Int32 (le_bytes 4 z ++ rest : bytes) LILENDIAN z rest) as (i & E & Hi); [reflexivity|]. unfold ReadInt32. rewrite E. by cbn in Hi; subst i. Qed.

Lemma short_future (io fut a tl : bytes) : io ++ fut = a ++ tl -> zlen io < zlen a -> zlen tl < zlen fut.
Proof. intros E%(f_equal zlen) ?. rewrite !zlen_app in E. lia. Qed.

Lemma Decode_trailer_spec C D tl d io fut err : state_ d = CHECKING -> ready d -> counted D (counts d) -> io ++ fut = trailer D ++ tl ->
  exists zerr d' io', Decode_trailer err d io = Some (zerr, d', io') /\ decoded C D tl d fut D (zerr, d', io', []).
Proof.
  intros Hs Hrd Hc E. unfold Decode_trailer. rewrite Hs. rewrite andb_false_r. rewrite Hs, bool_decide_true by done. change (2 * 4) with 8.
  destruct (Z.ltb_spec (zlen io) 8) as [Hz|Hz].
  - do 3 eexists. split; [done|]. split; [done|]. left. rewrite app_nil_r. split; [done|]. split; [by apply decoding_trailer|].
    apply (short_future io fut (trailer D)); [done|]. by rewrite zlen_trailer.
  - assert (Hio : exists r, io = trailer D ++ r /\ r ++ fut = tl).
    { exists (dropZ 8 io). assert (Ht : takeZ 8 io = trailer D).
      { rewrite <- (takeZ_app_l 8 io fut), E, takeZ_app_l, takeZ_all by (rewrite ?zlen_trailer; lia). done. }
      split; [by rewrite <- Ht, takeZ_dropZ|]. apply (app_inv_head (trailer D)). by rewrite <- Ht, app_assoc, takeZ_dropZ, Ht, E. }
    destruct Hio as (r & -> & Hr). unfold trailer. rewrite <- app_assoc, ReadInt32_bytes. cbn [mbind option_bind]. rewrite ReadInt32_bytes. cbn [mbind option_bind].
    unfold counted, counts in Hc. injection Hc as -> ->. unfold crc_of at 1. rewrite int32_idemp. fold (crc_of D). rewrite Z.eqb_refl. cbn [negb orb].
    do 3 eexists. split; [done|]. split; [done|]. right. rewrite app_nil_r. by split_and!.
Qed.

Lemma Decode_trailer_check d io : state_ d = DECODING -> Decode_trailer Z_STREAM_END d io = Decode_trailer Z_OK (with_state CHECKING d) io.
Proof. intros Hs. unfold Decode_trailer. by rewrite Hs. Qed.

(** The loop over the blocks ends with the stream, or when there is no more input. *)
Lemma Decode_loop_spec C D tl d io fut g : raw C D -> ready d -> state_ d = DECODING -> i_given (gd_strm_ d) = g -> counted g (counts d) ->
  i_taken (gd_strm_ d) `prefix_of` C -> g `prefix_of` D -> i_taken (gd_strm_ d) ++ io ++ fut = C ++ trailer D ++ tl ->
  exists leave e d' io' w, loop Decode_step (S (S (length io))) (Z_OK, d, io, []) = Some (leave, (e, d', io', w)) /\
    strict_trailer_checking_ d' = strict_trailer_checking_ d /\
    (leave = true /\ e = Z_OK /\ decoding C D tl d' io' fut (g ++ w) /\ zlen tl < zlen fut \/
     leave = false /\ e = Z_STREAM_END /\ state_ d' = DECODING /\ ready d' /\ g ++ w = D /\ counted D (counts d') /\ io' ++ fut = trailer D ++ tl).
Proof.
  intros HCD Hrd Hst Hg Hc Hp1 Hp2 E.
  destruct (loop_total_ix Decode_step
    (fun n x => let '(e, d1, io1, out1) := x in state_ d1 = DECODING /\ ready d1 /\ strict_trailer_checking_ d1 = strict_trailer_checking_ d /\
       i_given (gd_strm_ d1) = g ++ out1 /\ counted (g ++ out1) (counts d1) /\
       (e = Z_OK /\ i_taken (gd_strm_ d1) `prefix_of` C /\ g ++ out1 `prefix_of` D /\
          i_taken (gd_strm_ d1) ++ io1 ++ fut = C ++ trailer D ++ tl /\ n = S (length io1) \/
        e = Z_STREAM_END /\ g ++ out1 = D /\ io1 ++ fut = trailer D ++ tl /\ n = O))
    (fun r => let '(leave, (e, d', io', w)) := r in
       strict_trailer_checking_ d' = strict_trailer_checking_ d /\
       (leave = true /\ e = Z_OK /\ decoding C D tl d' io' fut (g ++ w) /\ zlen tl < zlen fut \/
        leave = false /\ e = Z_STREAM_END /\ state_ d' = DECODING /\ ready d' /\ g ++ w = D /\ counted D (counts d') /\ io' ++ fut = trailer D ++ tl)))
    with (fuel := S (S (length io))) (n := S (length io)) (s := (Z_OK, d, io, [] : bytes)) as ([leave [[[e d'] io'] w]] & -> & Hr).
  - intros n [[[e d1] io1] out1] (Hst1 & Hrd1 & Hstr & Hg1 & Hc1 & Hx). unfold Decode_step. rewrite Hst1, bool_decide_true by done. cbn [andb].
    destruct Hx as [(-> & Hp3 & Hp4 & E1 & ->) | (-> & HD & E1 & ->)].
    + change (negb (negb (Z_OK =? Z_STREAM_END))) with false. cbn iota. destruct (decide (io1 = [])) as [->|Hio].
      * rewrite ReadNext_empty. eexists. split; [done|]. split; [done|]. left. split; [done|]. split; [done|]. split; [by apply decoding_stream|].
        destruct Hp3 as [k ->]. rewrite <- app_assoc in E1. apply app_inv_head in E1. rewrite app_nil_l in E1. rewrite E1, !zlen_app, zlen_trailer. pose proof (zlen_nonneg k). lia.
      * destruct (ReadNext_block io1 Hio) as (buf & io2 & -> & Hb & ->). change (running_crc_ d1, running_size_ d1) with (counts d1).
        destruct (inflate_block_spec running counted (gd_strm_ d1) buf out1 (counts d1) counted_running) as (e & s' & rest & taken & w & [crc size] & -> & Hrd2 & Hin & Ht & Hcase & Hgive & Hraw); [by rewrite Hg1|done|done|].
        cbn [mbind option_bind]. destruct (Hraw C D (io2 ++ fut) HCD) as [(Hw1 & Hw2 & _) Hend].
        { split; [done|]. split; [by rewrite Hg1|]. exists (trailer D ++ tl). by rewrite <- E1, <- !app_assoc. }
        assert (Hf : fatal e = false) by (by destruct Hend as [[-> _] | [-> _]]). rewrite Hf. destruct (Hgive Hf) as [Hg2 Hc2].
        rewrite Hg1, <- app_assoc in Hg2. assert (Hdrop : dropZ (zlen buf - zlen rest) (buf ++ io2) = rest ++ io2).
        { rewrite Hin, <- app_assoc, dropZ_app_r by (rewrite zlen_app; pose proof (zlen_nonneg taken); lia). rewrite zlen_app. replace (_ - _) with 0 by lia. by rewrite dropZ_0. }
        rewrite Hdrop. eexists. split; [done|]. destruct Hend as [[-> _] | (-> & HC & HD)].
        -- assert (rest = []) as -> by (destruct Hcase as [[_ ?]|[?|?]]; done). exists (S (length io2)).
           split; [|rewrite length_app; destruct buf; [done|]; cbn [length]; lia]. cbn [app]. split_and!; try done.
           { by rewrite <- Hg2. } left. cbn [gd_strm_ with_stream fst snd]. rewrite app_nil_r in Hin. subst taken. rewrite <- Hg2.
           split_and!; try done. by rewrite Ht, <- E1, <- !app_assoc.
        -- exists O. split; [|lia]. split_and!; try done. { by rewrite <- Hg2. } right. split; [done|]. split; [by rewrite <- Hg2|]. split; [|done].
           apply (app_inv_head C). rewrite <- E1, <- HC, Ht, Hin. by rewrite <- !app_assoc.
    + rewrite Z.eqb_refl. cbn [negb andb]. eexists. split; [done|]. split; [done|]. right. rewrite HD in Hc1. by split_and!.
  - rewrite app_nil_r. split_and!; try done. left. by split_and!.
  - lia.
  - by exists leave, e, d', io', w.
Qed.

Lemma gzip_header_cut io fut C D tl : io ++ fut = gzip_text C D ++ tl -> 18 <= zlen io ->
  takeZ 10 io = kGzipHeader /\ dropZ 10 io ++ fut = C ++ trailer D ++ tl.
Proof.
  intros E Hz. assert (Ht : takeZ 10 io = kGzipHeader).
  { rewrite <- (takeZ_app_l 10 io fut), E by lia. unfold gzip_text. by rewrite <- app_assoc. }
  split; [done|]. apply (app_inv_head kGzipHeader). rewrite <- Ht at 1. rewrite app_assoc, takeZ_dropZ, E. unfold gzip_text. by rewrite <- !app_assoc.
Qed.

Lemma Decode_spec C D tl d io fut g : raw C D -> decoding C D tl d io fut g -> exists r, Decode d io = Some r /\ decoded C D tl d fut g r.
Proof.
  intros HCD Hd.
  (* what follows the header *)
  assert (Hrun : forall d1 io1, strict_trailer_checking_ d1 = strict_trailer_checking_ d -> ready d1 ->
    (state_ d1 = DECODING /\ i_given (gd_strm_ d1) = g /\ counted g (counts d1) /\ i_taken (gd_strm_ d1) `prefix_of` C /\ g `prefix_of` D /\
      i_taken (gd_strm_ d1) ++ io1 ++ fut = C ++ trailer D ++ tl \/ state_ d1 = CHECKING /\ g = D /\ counted D (counts d1) /\ io1 ++ fut = trailer D ++ tl) ->
    exists r, ('(leave, (zlib_err, d2, io2, out)) ← loop Decode_step (S (S (length io1))) (Z_OK, d1, io1, []);
      if leave : bool then Some (zlib_err, d2, io2, out)
      else '(zlib_err, d3, io3) ← Decode_trailer zlib_err d2 io2; Some (zlib_err, d3, io3, out)) = Some r /\ decoded C D tl d fut g r).
  { intros d1 io1 Hstr Hrd1 [(H1 & H2 & H3 & H4 & H5 & H6) | (H1 & H2 & H3 & H4)].
    - destruct (Decode_loop_spec C D tl d1 io1 fut g HCD Hrd1 H1 H2 H3 H4 H5 H6) as (leave & e & d' & io' & w & -> & Hs' & Hx). cbn [mbind option_bind].
      destruct Hx as [(-> & -> & Hdec & Hz) | (-> & -> & Hst & Hrd2 & HD & Hc & E)].
      + eexists. split; [done|]. split; [by rewrite Hs'|]. by left.
      + rewrite Decode_trailer_check by done.
        destruct (Decode_trailer_spec C D tl (with_state CHECKING d') io' fut Z_OK eq_refl Hrd2 Hc E) as (zerr & d3 & io3 & -> & Hdec).
        cbn [mbind option_bind].
        eexists. split; [done|]. destruct Hdec as [Hs3 Hx]. split; [by rewrite Hs3, <- Hstr, <- Hs'|]. rewrite app_nil_r in Hx. rewrite HD.
        unfold final_error in *. cbn [strict_trailer_checking_ with_state] in Hx. rewrite Hs', Hstr in Hx. destruct Hx as [?|(? & ? & ? & ? & ?)]; [by left|by right].
    - rewrite loop_S. unfold Decode_step. rewrite H1. cbn [andb negb mbind option_bind]. rewrite bool_decide_false by done. cbn [andb negb mbind option_bind].
      destruct (Decode_trailer_spec C D tl d1 io1 fut Z_OK H1 Hrd1 H3 H4) as (zerr & d3 & io3 & -> & Hs3 & Hx). cbn [mbind option_bind]. eexists. split; [done|].
      split; [by rewrite Hs3|]. subst g. unfold final_error in *. by rewrite Hstr in Hx. }
  unfold Decode. destruct Hd as [[Hrd Hf] -> E | H1 Hrd H2 H3 H4 H5 H6 | H1 Hrd H2 H3 H4].
  - assert (Hr : exists d1, Decode_reset d = Some d1 /\ ready d1 /\ strict_trailer_checking_ d1 = strict_trailer_checking_ d /\ state_ d1 = INITIALIZED /\ i_taken (gd_strm_ d1) = [] /\ i_given (gd_strm_ d1) = [] /\ counted [] (counts d1)).
    { unfold Decode_reset. destruct Hf as [-> | (Hs & Hf)]; [|rewrite Hs; by exists d]. rewrite bool_decide_true by done.
      destruct (inflateReset_law (gd_strm_ d) Hrd) as (s & -> & ? & ? & ?). rewrite Z.eqb_refl. cbn [CHECK mbind option_bind]. eexists. split; [done|]. by split_and!. }
    destruct Hr as (d1 & -> & Hrd1 & Hstr & Hs & Ht & Hg & Hc). cbn [mbind option_bind]. unfold Decode_header. rewrite Hs, bool_decide_true by done.
    change (zlen kGzipHeader + 2 * 4) with 18. destruct (Z.ltb_spec (zlen io) 18) as [Hz|Hz].
    + eexists. split; [done|]. split; [done|]. left. split; [done|]. split; [apply decoding_start; [split; [done|]; right; by split_and!|done..]|].
      apply (short_future io fut (gzip_text C D)); [done|]. unfold gzip_text. rewrite !zlen_app, zlen_trailer. change (zlen kGzipHeader) with 10. pose proof (zlen_nonneg C). lia.
    + change (zlen kGzipHeader) with 10. destruct (gzip_header_cut _ _ _ _ _ E Hz) as [-> E']. cbn -[loop Decode_step Decode_trailer]. apply Hrun; [done|done|]. left. cbn [gd_strm_ with_state].
      rewrite Ht, Hg. split_and!; try done; apply prefix_nil.
  - unfold Decode_reset. rewrite H1, bool_decide_false by done. cbn [mbind option_bind]. unfold Decode_header. rewrite H1, bool_decide_false by done. apply Hrun; [done|done|]. left. by split_and!.
  - unfold Decode_reset. rewrite H1, bool_decide_false by done. cbn [mbind option_bind]. unfold Decode_header. rewrite H1, bool_decide_false by done. apply Hrun; [done|done|]. right. by split_and!.
Qed.

(** ** Raw streams *)

Lemma Deflate_spec `{!DeflateAgain} w io : -1 <= compress_level_ w <= 9 -> zlen io < 2 ^ 64 ->
  exists C, Deflate w io = Some (true, Deflate_Clear w, [], C, 0) /\ raw C io.
Proof.
  intros Hl Hz. unfold Deflate, Wrapper_DeflateSize. cbn [d_strm_ Deflate_Clear compress_level_]. unfold Initialize.
  cbn [compress_level_ Deflate_Clear]. pose proof (deflate_memory _ Hl) as He.
  destruct (deflateInit2 (compress_level_ w)) as [z s0] eqn:E0. cbn [fst] in He. subst z.
  destruct (deflateInit2_law _ _ E0) as (Hs & Ht & Hg). rewrite Z.eqb_refl.
  destruct (loop_total DeflateSize_step
    (fun x => let '(s, io1, out, size) := x in d_stage s = Open /\ d_taken s ++ io1 = io /\ d_given s = out /\ size = zlen io1 /\ zlen io1 < 2 ^ 64)
    (fun x => let '(s, io1, out, size) := x in d_stage s = Open /\ d_taken s = io /\ d_given s = out /\ size = 0 /\ io1 = [])
    (fun x => let '(s, io1, out, size) := x in length io1))
    with (fuel := S (length io)) (s := (s0, io, [] : bytes, zlen io)) as ([[[s io1] out] size] & -> & H1 & H2 & H3 & -> & ->).
  - intros [[[s io1] out] size] (H1 & H2 & <- & -> & H6). unfold DeflateSize_step. rewrite size_zero. case_bool_decide as Hio.
    + subst io1. eexists. split; [done|]. rewrite app_nil_r in H2. by split_and!.
    + destruct (ReadNext_block io1 Hio) as (buf & io2 & -> & Hb & ->).
      destruct (deflate_all_spec false s buf (d_given s) H1 Hb) as (s' & w' & -> & Ho' & Ht' & Hg'). cbn [mbind option_bind].
      eexists. split; [done|]. rewrite size_rest, Ht', <- app_assoc by done. rewrite zlen_app in H6. pose proof (zlen_nonneg buf).
      split_and!; try done; [lia|]. rewrite length_app. destruct buf; [done|]. cbn [length]. lia.
  - rewrite Ht. by split_and!.
  - lia.
  - cbn [mbind option_bind]. rewrite Z.eqb_refl. destruct (flush_spec s out H1) as (s' & w' & -> & Hraw). cbn [mbind option_bind]. exists (out ++ w').
    by rewrite H2, H3 in Hraw.
Qed.

(** What is inflated of a raw stream: all, and the rest is left; or, with the input used up,
    a part, and the stream goes on.  When all of the stream was there, the part was cut by
    the room. *)
Lemma InflateSize_spec C D tl w s io fut size : raw C D -> (if w is Some s' then s' = s else inflateInit2 = (Z_OK, s)) ->
  i_ready s -> i_taken s `prefix_of` C -> i_given s `prefix_of` D -> i_taken s ++ io ++ fut = C ++ tl ->
  (size = None \/ size = Some (zlen io)) -> zlen io < 2 ^ 64 -> io <> [] ->
  exists x, Wrapper_InflateSize w io size = Some x /\
    (i_err x = Z_STREAM_END /\ i_strm x = None /\ i_given s ++ i_out x = D /\ i_in x ++ fut = tl \/
     i_err x = Z_OK /\ i_in x = [] /\ exists s', i_strm x = Some s' /\ i_given s' = i_given s ++ i_out x /\ i_given s' `prefix_of` D /\
       i_taken s' = i_taken s ++ io /\ i_taken s' `prefix_of` C /\ (i_taken s' = C -> filled (i_out x))).
Proof.
  intros HCD Hw Hrd Hp1 Hp2 E Hsize Hz Hio. unfold Wrapper_InflateSize.
  assert (Hs : match w with Some s => (Z_OK, s) | None => inflateInit2 end = (Z_OK, s)) by (by destruct w as [?|]; [subst|]). rewrite Hs, Z.eqb_refl. cbn [negb].
  apply (loop_total (fun '(s, x) => InflateSize_step s x)
    (fun y => let '(s1, x) := y in i_ready s1 /\ i_err x = Z_OK /\ i_strm x = Some s1 /\ (i_size x = None \/ i_size x = Some (zlen (i_in x))) /\ zlen (i_in x) < 2 ^ 64 /\
       i_given s1 = i_given s ++ i_out x /\ i_given s1 `prefix_of` D /\ i_taken s1 `prefix_of` C /\
       (exists taken, io = taken ++ i_in x /\ i_taken s1 = i_taken s ++ taken) /\ (i_in x = io \/ (i_taken s1 = C -> filled (i_out x))))
    _ (fun y => length (i_in y.2))); [|cbn [i_err i_strm i_size i_in i_out]; rewrite app_nil_r; split_and!; try done; [by exists []; rewrite app_nil_r|by left]|cbn; lia].
  intros [s1 x] (Hrd1 & He & Hst & Hn & Hz1 & Hg1 & Hp3 & Hp4 & (taken & Hin & Ht1) & Hfill). unfold InflateSize_step.
  assert (Hend : i_in x = [] -> exists y : istream * Inflating + Inflating, Some (inr x) = Some y /\ match y with inl _ => False | inr r => r = x end) by (intros; by eexists).
  destruct (decide (i_in x = [])) as [Ei|Hi].
  - exists (inr x). split.
    { case_bool_decide; [done|]. by rewrite Ei, ReadNext_empty. }
    right. split; [done|]. split; [done|]. exists s1. rewrite Ei, app_nil_r in Hin. subst taken. split_and!; try done.
    destruct Hfill as [Hf|Hf]; [by rewrite Ei in Hf; destruct Hio|done].
  - rewrite bool_decide_false. 2: { destruct Hn as [-> | ->]; [done|]. intros [= Hzero]. apply Hi. destruct (i_in x) as [|b l]; [done|]. rewrite zlen_cons in Hzero. pose proof (zlen_nonneg l). lia. }
    destruct (ReadNext_block _ Hi) as (buf & io2 & -> & Hb & Ein).
    destruct (inflate_block_spec (fun a _ => a) (fun _ _ => True) s1 buf (i_out x) ()) as (e & s' & rest & tk & o & a' & -> & Hrd2 & Hbuf & Ht & Hcase & Hgive & Hraw); [done..|].
    cbn [mbind option_bind]. assert (Heq : i_taken s1 ++ buf ++ io2 ++ fut = C ++ tl).
    { rewrite Ht1, <- E, Hin, Ein. by rewrite <- !app_assoc. }
    destruct (Hraw C D (io2 ++ fut) HCD) as [(Hw1 & Hw2 & _) Hx]; [split; [done|]; split; [done|]; by exists tl|].
    assert (Hf : fatal e = false) by (by destruct Hx as [[-> _] | [-> _]]). rewrite Hf. destruct (Hgive Hf) as [Hg2 _]. cbv zeta.
    assert (Hdrop : dropZ (zlen buf - zlen rest) (i_in x) = rest ++ io2).
    { rewrite Ein, Hbuf, <- app_assoc, dropZ_app_r by (rewrite zlen_app; pose proof (zlen_nonneg tk); lia). rewrite zlen_app. replace (_ - _) with 0 by lia. by rewrite dropZ_0. }
    rewrite Hdrop. eexists. split; [done|]. destruct Hx as [[-> Hroom] | (-> & HC & HD)].
    + assert (rest = []) as -> by (destruct Hcase as [[_ ?]|[?|?]]; done). rewrite app_nil_r in Hbuf. subst tk. change (Z_OK =? Z_STREAM_END) with false. cbn iota.
      cbn [i_err i_strm i_size i_in i_out app snd]. rewrite Ein, zlen_app in Hz1. pose proof (zlen_nonneg buf). split.
      * split_and!; try done; [| lia |by rewrite Hg2, Hg1, app_assoc| |by right].
        -- destruct Hn as [-> | ->]; [by left|right]. cbn [fmap option_fmap option_map]. change (zlen []) with 0. rewrite Z.sub_0_r, Ein. by rewrite size_rest by (rewrite zlen_app; lia).
        -- exists (taken ++ buf). rewrite Hin, Ein, Ht, Ht1. by rewrite !app_assoc.
      * rewrite Ein, length_app. destruct buf; [done|]. cbn [length]. lia.
    + rewrite Z.eqb_refl. left. cbn [i_err i_strm i_in i_out]. split_and!; try done.
      * by rewrite app_assoc, <- Hg1, <- Hg2.
      * apply (app_inv_head C). rewrite <- Heq, <- HC, Ht, Hbuf. by rewrite <- !app_assoc.
Qed.

(** ** Whatever the input *)

Lemma zlen_skip (taken rest io : bytes) : zlen (dropZ (zlen (taken ++ rest) - zlen rest) io) <= zlen io.
Proof. rewrite zlen_app. pose proof (zlen_nonneg taken). unfold dropZ, zlen. rewrite length_drop. lia. Qed.

Lemma inflate_block_total {A} (count : A -> bytes -> A) s (buf io out : bytes) a : i_ready s -> buf <> [] ->
  exists e s' unused out' a', inflate_block count s buf out a = Some (e, (s', unused, out', a')) /\ i_ready s' /\
    let io' := dropZ (zlen buf - zlen unused) (buf ++ io) in
    zlen io' <= zlen (buf ++ io) /\ (e = Z_OK /\ (length io' < length (buf ++ io))%nat \/ e = Z_STREAM_END \/ fatal e = true).
Proof.
  intros Hrd Hb. destruct (inflate_block_spec count (fun _ _ => True) s buf out a) as (e & s' & rest & taken & w & a' & -> & Hrd' & Hin & _ & Hcase & _); [done..|].
  do 5 eexists. split; [done|]. split; [done|]. cbv zeta. split; [rewrite Hin at 1; apply zlen_skip|]. destruct Hcase as [[-> ->]|?]; [left|by right].
  split; [done|]. unfold dropZ. rewrite length_drop, length_app. change (zlen []) with 0. destruct buf; [done|]. cbn [length]. unfold zlen. cbn [length]. lia.
Qed.

Lemma Decode_trailer_total err d io : exists r, Decode_trailer err d io = Some r /\ zlen r.2 <= zlen io.
Proof.
  unfold Decode_trailer. set (d1 := if (err =? Z_STREAM_END) && bool_decide (state_ d = DECODING) then with_state CHECKING d else d). case_bool_decide; [|eexists; by split].
  change (2 * 4) with 8. destruct (Z.ltb_spec (zlen io) 8) as [Hz|Hz]; [eexists; by split|].
  assert (Hle : forall n : nat, forall l : bytes, Z.of_nat n <= zlen l -> exists z r, l = le_bytes n z ++ r /\ zlen l = Z.of_nat n + zlen r).
  { intros n l Hn. exists (le_value (take n l)), (drop n l). rewrite <- (take_drop n l) at 1. rewrite <- (le_bytes_value (take n l)) at 1.
    rewrite length_take, Nat.min_l by (unfold zlen in Hn; lia). split; [done|]. unfold zlen in *. rewrite length_drop. lia. }
  destruct (Hle 4%nat io ltac:(lia)) as (z1 & r1 & -> & E1). rewrite ReadInt32_bytes. cbn [mbind option_bind].
  destruct (Hle 4%nat r1 ltac:(lia)) as (z2 & r2 & -> & E2). rewrite ReadInt32_bytes. cbn [mbind option_bind]. eexists. split; [done|]. cbn [snd]. lia.
Qed.

Lemma Decode_loop_total d (io : bytes) : ready d -> exists leave e d' io' w, loop Decode_step (S (S (length io))) (Z_OK, d, io, []) = Some (leave, (e, d', io', w)) /\ zlen io' <= zlen io.
Proof.
  intros Hrd. destruct (loop_total_ix Decode_step (fun n x => let '(e, d1, io1, out1) := x in ready d1 /\ zlen io1 <= zlen io /\ (e = Z_OK /\ n = S (length io1) \/ e = Z_STREAM_END /\ n = O))
    (fun r => zlen r.2.1.2 <= zlen io)) with (fuel := S (S (length io))) (n := S (length io)) (s := (Z_OK, d, io, [] : bytes)) as ([leave [[[e d'] io'] w]] & -> & Hr).
  - intros n [[[e d1] io1] out1] (Hrd1 & Hz & Hx). unfold Decode_step. destruct (negb _) eqn:En; [by eexists|].
    destruct Hx as [[-> ->]|[-> ->]]; [|by rewrite Z.eqb_refl, andb_false_r in En]. destruct (decide (io1 = [])) as [->|Hio]; [rewrite ReadNext_empty; by eexists|].
    destruct (ReadNext_block io1 Hio) as (buf & io2 & -> & Hb & ->).
    destruct (inflate_block_total running (gd_strm_ d1) buf io2 out1 (running_crc_ d1, running_size_ d1) Hrd1 Hb) as (e & s' & unused & out' & a' & -> & Hrd2 & Hz' & Hcase).
    cbn [mbind option_bind]. destruct (fatal e) eqn:Ef; [by eexists|]. eexists. split; [done|].
    destruct Hcase as [[-> Hl]|[->|?]]; [|exists O; split; [split; [done|split; [lia|by right]]|lia]|congruence].
    eexists. split; [split; [done|split; [lia|by left]]|]. lia.
  - split; [done|]. split; [done|]. by left.
  - lia.
  - by exists leave, e, d', io', w.
Qed.

Lemma Decode_total d io : ready d -> exists e d' io' w, Decode d io = Some (e, d', io', w) /\ zlen io' <= zlen io.
Proof.
  intros Hrd. unfold Decode. assert (Hr : exists d1, Decode_reset d = Some d1 /\ ready d1).
  { unfold Decode_reset. case_bool_decide; [|by eexists]. destruct (inflateReset_law (gd_strm_ d) Hrd) as (s & -> & ? & _). rewrite Z.eqb_refl. by eexists. }
  destruct Hr as (d1 & -> & Hrd1). cbn [mbind option_bind].
  assert (Hrun : forall d2 io2, ready d2 -> zlen io2 <= zlen io -> exists e d' io' w, ('(leave, (zlib_err, d3, io3, out)) ← loop Decode_step (S (S (length io2))) (Z_OK, d2, io2, []);
      if leave : bool then Some (zlib_err, d3, io3, out)
      else '(zlib_err, d4, io4) ← Decode_trailer zlib_err d3 io3; Some (zlib_err, d4, io4, out)) = Some (e, d', io', w) /\ zlen io' <= zlen io).
  { intros d2 io2 Hrd2 Hz. destruct (Decode_loop_total d2 io2 Hrd2) as (leave & e & d3 & io3 & w & -> & Hz3). cbn [mbind option_bind]. destruct leave; [do 4 eexists; split; [done|lia]|].
    destruct (Decode_trailer_total e d3 io3) as ([[e4 d4] io4] & -> & Hz4). cbn [mbind option_bind snd] in *. do 4 eexists. split; [done|lia]. }
  unfold Decode_header. case_bool_decide; [|by apply Hrun]. change (zlen kGzipHeader + 2 * 4) with 18. change (zlen kGzipHeader) with 10.
  destruct (Z.ltb_spec (zlen io) 18) as [Hz|Hz]; [do 4 eexists; by split|].
  assert (Hd : zlen (dropZ 10 io) <= zlen io) by (rewrite zlen_dropZ; lia).
  assert (Hh : zlen (takeZ 10 io) = 10) by (rewrite zlen_takeZ; lia).
  destruct (takeZ 10 io) as [|b0 [|b1 [|b2 [|flags l]]]]; [by exfalso; cbv in Hh..|]. cbn [mbind option_bind].
  destruct (negb _ || _); [do 4 eexists; by split|]. destruct (negb _); [do 4 eexists; by split|]. by apply Hrun.
Qed.

Lemma InflateSize_total_null w io : (forall s, w = Some s -> i_ready s) -> exists x, Wrapper_InflateSize w io None = Some x /\ zlen (i_in x) <= zlen io.
Proof.
  intros Hw. unfold Wrapper_InflateSize. assert (Hs : exists s, match w with Some s => (Z_OK, s) | None => inflateInit2 end = (Z_OK, s) /\ i_ready s).
  { destruct w as [s|]; [exists s; split; [done|by apply Hw]|]. pose proof inflateInit2_memory as He.
    destruct inflateInit2 as [z s] eqn:E. cbn [fst] in He. subst z. exists s. split; [done|]. by apply inflateInit2_law. }
  destruct Hs as (s & -> & Hrd). rewrite Z.eqb_refl. cbn [negb].
  apply (loop_total (fun '(s, x) => InflateSize_step s x) (fun x => i_ready x.1 /\ zlen (i_in x.2) <= zlen io /\ i_size x.2 = None) (fun x => zlen (i_in x) <= zlen io) (fun x => length (i_in x.2))); [|by split_and!|cbn; lia].
  clear w s Hw Hrd. intros [s x] (Hrd & Hz & Hn). cbn [fst snd] in *. unfold InflateSize_step. rewrite Hn, bool_decide_false by done.
  destruct (decide (i_in x = [])) as [E|Hio]; [rewrite E, ReadNext_empty; eexists; split; [done|exact Hz]|].
  destruct (ReadNext_block _ Hio) as (buf & io2 & -> & Hb & Ein). destruct (inflate_block_total (fun a _ => a) s buf io2 (i_out x) () Hrd Hb) as (e & s' & unused & out' & a' & -> & Hrd2 & Hz' & Hcase).
  cbn [mbind option_bind]. rewrite <- Ein in *. destruct (fatal e) eqn:Ef; [by eexists|]. cbv zeta. destruct Hcase as [[-> Hl]|[->|?]]; [..|congruence].
  - change (Z_OK =? Z_STREAM_END) with false. eexists. split; [done|]. cbn [i_in i_size fst snd fmap option_fmap option_map]. split; [split_and!; [done|lia|done]|done].
  - rewrite Z.eqb_refl. eexists. split; [done|]. cbn [i_in]. lia.
Qed.
End Zlib.
End ZlibSpec.
