(* ===== verification/ZlibCopy.v ===== *)
(** * ZlibCopy: a zlib that copies

    An instance of [Zlib] with the laws of [ZlibLaws]: a stream is every byte after a mark,
    and an end mark.  The deflater keeps what it takes until it is finished; the inflater
    takes all it can and holds back what there is no room for. *)

From S2P Require Import Prelude.
From S2P Require Import HttpRequest.
From S2P Require Import Zlib.
From S2P Require Import ZlibSpec.

Module ZlibCopy.
Import HttpRequest Zlib ZlibSpec.

Inductive copied : bytes -> bytes -> Prop :=
  | copied_end : copied [Byte.x00] []
  | copied_byte c b C D : c <> Byte.x00 -> copied C D -> copied (c :: b :: C) (b :: D).

Fixpoint stored (D : bytes) : bytes :=
  match D with
  | [] => [Byte.x00]
  | b :: D => Byte.x01 :: b :: stored D
  end.

Lemma copied_stored D : copied (stored D) D.
Proof. induction D as [|b D IH]; [apply copied_end|by apply copied_byte]. Qed.

(** What the bytes say so far: those that belong to the stream, what they stand for, and
    whether the stream ends. *)
Fixpoint scan (l : bytes) : bytes * bytes * bool :=
  match l with
  | [] => ([], [], false)
  | c :: l' =>
      if bool_decide (c = Byte.x00) then ([c], [], true)
      else match l' with
           | [] => ([c], [], false)
           | b :: l'' => let '(p, o, e) := scan l'' in (c :: b :: p, b :: o, e)
           end
  end.

Lemma scan_all C D r : copied C D -> scan (C ++ r) = (C, D, true).
Proof. induction 1 as [|c b C D Hc _ IH]; [done|]. cbn [app scan]. by rewrite bool_decide_false, IH by done. Qed.

Lemma scan_part C D l : copied C D -> l `prefix_of` C -> l <> C -> exists o, scan l = (l, o, false) /\ o `prefix_of` D.
Proof.
  intros HC. revert l. induction HC as [|c b C D Hc _ IH]; intros l [k Hk] Hne.
  - destruct l as [|x l]; [by exists []|]. injection Hk as <- Hk. symmetry in Hk. apply app_eq_nil in Hk as [-> ->]. done.
  - destruct l as [|x [|y l]]; cbn [app] in Hk.
    + exists []. split; [done|]. apply prefix_nil.
    + injection Hk as <- <-. cbn [scan]. rewrite bool_decide_false by done. exists []. split; [done|]. apply prefix_nil.
    + injection Hk as <- <- ->. destruct (IH l) as (o & E & Ho); [by exists k|intros E; apply Hne; by rewrite <- E|]. exists (b :: o). cbn [scan]. rewrite bool_decide_false, E by done.
      split; [done|]. by apply prefix_cons.
Qed.

Lemma scan_prefix l : forall p o e, scan l = (p, o, e) -> p `prefix_of` l /\ (e = false -> p = l).
Proof.
  remember (length l) as n eqn:Hn. revert l Hn. induction n as [n IH] using lt_wf_ind. intros l Hn p o e.
  destruct l as [|c l']; [by intros [= <- <- <-]|]. cbn [scan]. case_bool_decide; [intros [= <- <- <-]; split; [by exists l'|done]|].
  destruct l' as [|b l'']; [by intros [= <- <- <-]|]. destruct (scan l'') as [[p1 o1] e1] eqn:E. intros [= <- <- <-].
  destruct (IH (length l'')) with (l := l'') (p := p1) (o := o1) (e := e1) as [[k Hk] He]; [subst n; cbn; lia|done|done|]. split.
  - exists k. cbn. by rewrite Hk.
  - intros Hf. by rewrite (He Hf).
Qed.

(** ** The streams *)

Inductive CopyDeflate := Collecting (taken : bytes) | Giving (taken : bytes) (k : nat) | Finished (taken : bytes).

Definition copy_taken (s : CopyDeflate) : bytes := match s with Collecting t | Giving t _ | Finished t => t end.
Definition copy_given (s : CopyDeflate) : bytes :=
  match s with Collecting _ => [] | Giving t k => take k (stored t) | Finished t => stored t end.
Definition copy_stage (s : CopyDeflate) : Stage := match s with Collecting _ => Open | Giving _ _ => Finishing | Finished _ => Done end.

Definition copy_give (t : bytes) (k : nat) (n : Z) : Z * CopyDeflate * bytes * bytes :=
  let w := takeZ n (drop k (stored t)) in
  if (length (stored t) <=? k + length w)%nat then (Z_STREAM_END, Finished t, [], w) else (Z_OK, Giving t (k + length w), [], w).

Definition copy_deflate (s : CopyDeflate) (input : bytes) (n : Z) (f : Flush) : Z * CopyDeflate * bytes * bytes :=
  match f, s with
  | Z_NO_FLUSH, Collecting t => (Z_OK, Collecting (t ++ input), [], [])
  | Z_NO_FLUSH, _ => (Z_STREAM_ERROR, s, input, [])
  | Z_FINISH, Collecting t => copy_give (t ++ input) 0 n
  | Z_FINISH, Giving t k => copy_give t k n
  | Z_FINISH, Finished _ => (Z_STREAM_END, s, input, [])
  end.

Definition copy_left (s : CopyDeflate) : nat :=
  match s with Collecting t => length (stored t) | Giving t k => length (stored t) - k | Finished _ => 0 end.

Record CopyInflate := mkCopyInflate { in_taken : bytes; in_given : bytes }.

Definition copy_inflate (s : CopyInflate) (input : bytes) (n : Z) : Z * CopyInflate * bytes * bytes :=
  let '(p, o, e) := scan (in_taken s ++ input) in
  let rest := drop (length p - length (in_taken s)) input in
  let w := takeZ n (drop (length (in_given s)) o) in
  let s' := mkCopyInflate (in_taken s ++ take (length p - length (in_taken s)) input) (in_given s ++ w) in
  (if e && (length o <=? length (in_given s ++ w))%nat then Z_STREAM_END else Z_OK, s', rest, w).

Definition copy_pending (s : CopyInflate) (input : bytes) : nat :=
  let '(_, o, _) := scan (in_taken s ++ input) in length o - length (in_given s).

(** A sum for a checksum. *)
Definition sum_bytes (b : bytes) : Z := foldr (fun c z => uchar c + z) 0 b.

#[export] Instance copy_zlib : Zlib := {|
  dstream := CopyDeflate; deflateInit2 _ := (Z_OK, Collecting []); deflateReset _ := (Z_OK, Collecting []);
  deflate := copy_deflate; deflate_bound s _ := copy_left s;
  istream := CopyInflate; inflateInit2 := (Z_OK, mkCopyInflate [] []); inflateReset _ := (Z_OK, mkCopyInflate [] []);
  inflate := copy_inflate; inflate_bound := copy_pending;
  crc32 c b := uint32 (c + sum_bytes b) |}.

(** ** The laws *)

Lemma length_takeZ {A} n (l : list A) : 0 <= n -> length (takeZ n l) = Nat.min (Z.to_nat n) (length l).
Proof. intros. unfold takeZ. apply length_take. Qed.

Lemma copy_give_law t k n : 0 < n -> exists e s' w, copy_give t k n = (e, s', [], w) /\ copy_taken s' = t /\ copy_given s' = take k (stored t) ++ w /\
  (e = Z_OK /\ copy_stage s' = Finishing /\ w <> [] /\ (copy_left s' < length (stored t) - k)%nat \/ e = Z_STREAM_END /\ copy_stage s' = Done /\ copied (copy_given s') t).
Proof.
  intros Hn. unfold copy_give. set (w := takeZ n _).
  assert (Hw : length w = Nat.min (Z.to_nat n) (length (stored t) - k)) by (unfold w; rewrite length_takeZ, length_drop by lia; done).
  assert (Htake : take (k + length w) (stored t) = take k (stored t) ++ w).
  { unfold w, takeZ. rewrite length_take, length_drop. rewrite <- take_take_drop. f_equal. destruct (Nat.le_gt_cases (Z.to_nat n) (length (stored t) - k)).
    - by rewrite Nat.min_l by lia.
    - rewrite Nat.min_r by lia. by rewrite !take_ge by (rewrite length_drop; lia). }
  destruct (Nat.leb_spec (length (stored t)) (k + length w)) as [Hl|Hl]; do 3 eexists; (split; [done|]); (split; [done|]).
  - split; [by rewrite <- Htake, take_ge by lia|]. right. split_and!; try done. apply copied_stored.
  - split; [done|]. left. split_and!; try done; [|cbn [copy_left]; lia]. intros E. rewrite E in Hw, Hl. cbn in Hw, Hl. lia.
Qed.

Lemma copy_inflate_law s input n : 0 < n -> exists e taken rest w, copy_inflate s input n = (e, mkCopyInflate (in_taken s ++ taken) (in_given s ++ w), rest, w) /\
  input = taken ++ rest /\ zlen w <= n /\ (e = Z_OK \/ e = Z_STREAM_END) /\
  (e = Z_OK -> rest <> [] -> (copy_pending (mkCopyInflate (in_taken s ++ taken) (in_given s ++ w)) rest < copy_pending s input)%nat).
Proof.
  intros Hn. unfold copy_inflate, copy_pending. destruct (scan (in_taken s ++ input)) as [[p o] e] eqn:E.
  destruct (scan_prefix _ _ _ _ E) as [_ He]. set (m := (length p - length (in_taken s))%nat). set (w := takeZ n _). do 4 eexists. split; [done|].
  split; [by rewrite take_drop|]. assert (Hw : length w = Nat.min (Z.to_nat n) (length o - length (in_given s))) by (unfold w; rewrite length_takeZ, length_drop by lia; done).
  split; [unfold zlen; lia|]. split; [destruct (_ && _); auto|]. cbn [in_taken in_given]. rewrite <- app_assoc, take_drop, E, length_app.
  destruct e; cbn [andb].
  - destruct (Nat.leb_spec (length o) (length (in_given s) + length w)); [done|]. intros _ _. lia.
  - intros _ Hr. exfalso. apply Hr. unfold m. rewrite (He eq_refl), length_app. apply drop_ge. lia.
Qed.

Lemma prefix_take {A} (l D : list A) : l `prefix_of` D -> l = take (length l) D.
Proof. intros [k ->]. by rewrite take_app_length. Qed.

(** Giving more of a part of [D]. *)
Lemma give_prefix (g o D : bytes) n : g `prefix_of` D -> o `prefix_of` D -> 0 <= n -> g ++ takeZ n (drop (length g) o) `prefix_of` D.
Proof.
  intros Hg Ho Hn. destruct (Nat.le_gt_cases (length o) (length g)) as [Hl|Hl].
  - rewrite drop_ge by lia. unfold takeZ. by rewrite take_nil, app_nil_r.
  - assert (Eg : g = take (length g) o).
    { destruct Ho as [k ->]. rewrite (prefix_take _ _ Hg) at 1. by rewrite take_app_le by lia. }
    rewrite Eg at 1. unfold takeZ. rewrite take_take_drop. trans o; [|done]. exists (drop (length g + Z.to_nat n) o). by rewrite take_drop.
Qed.

Lemma prefix_length_eq (g D : bytes) : g `prefix_of` D -> (length D <= length g)%nat -> g = D.
Proof. intros [k ->] Hl. rewrite length_app in Hl. destruct k; [by rewrite app_nil_r|cbn in Hl; lia]. Qed.

Lemma copy_inflate_raw s input n e s' rest w C D fut : 0 < n -> copy_inflate s input n = (e, s', rest, w) ->
  copied C D -> in_taken s `prefix_of` C -> in_given s `prefix_of` D -> C `prefix_of` in_taken s ++ input ++ fut ->
  in_taken s' `prefix_of` C /\ in_given s' `prefix_of` D /\
  (e = Z_OK /\ (zlen w < n -> in_taken s' <> C) \/ e = Z_STREAM_END /\ in_taken s' = C /\ in_given s' = D).
Proof.
  intros Hn E HCD Ht Hg [k HC]. unfold copy_inflate in E. rewrite app_assoc in HC.
  assert (Hcase : (in_taken s ++ input `prefix_of` C /\ in_taken s ++ input <> C) \/ C `prefix_of` in_taken s ++ input).
  { destruct (decide (C `prefix_of` in_taken s ++ input)) as [?|Hnp]; [by right|left]. split; [|by intros <-].
    destruct (prefix_weak_total C (in_taken s ++ input) ((in_taken s ++ input) ++ fut)) as [?|?]; [by exists k|by exists fut|done|done]. }
  destruct Hcase as [[Hp Hne]|[r Hr]].
  - destruct (scan_part C D _ HCD Hp Hne) as (o & Es & Ho). rewrite Es in E. cbn [andb] in E. injection E as <- <- <- <-. cbn [in_taken in_given].
    rewrite length_app, Nat.add_comm, Nat.add_sub, take_ge by lia. split; [done|]. split; [by apply give_prefix; [..|lia]|]. by left.
  - rewrite Hr, (scan_all _ _ _ HCD) in E. destruct Ht as [t Ht].
    assert (Htk : in_taken s ++ take (length C - length (in_taken s)) input = C).
    { rewrite Ht, length_app. replace (_ - _)%nat with (length t) by lia. f_equal. rewrite Ht, <- app_assoc in Hr. apply app_inv_head in Hr. by rewrite Hr, take_app_length. }
    injection E as <- <- <- <-. cbn [in_taken in_given]. rewrite Htk. split; [done|]. assert (Hgp : in_given s ++ takeZ n (drop (length (in_given s)) D) `prefix_of` D) by (by apply give_prefix; [..|lia]).
    split; [done|]. cbn [andb]. destruct (Nat.leb_spec (length D) (length (in_given s ++ takeZ n (drop (length (in_given s)) D)))) as [Hl|Hl].
    + right. split; [done|]. split; [done|]. by apply prefix_length_eq.
    + left. split; [done|]. rewrite length_app, length_takeZ, length_drop in Hl by lia. unfold zlen. rewrite length_takeZ, length_drop by lia. lia.
Qed.

Lemma sum_bytes_app a b : sum_bytes (a ++ b) = sum_bytes a + sum_bytes b.
Proof. induction a as [|c a IH]; [done|]. cbn [app sum_bytes foldr]. fold (sum_bytes (a ++ b)) (sum_bytes a). lia. Qed.

Lemma uint32_plus a b : uint32 (uint32 a + b) = uint32 (a + b).
Proof. unfold wrapU. apply Zplus_mod_idemp_l. Qed.

Lemma uint32_size_t z : uint32 (size_t z) = uint32 z.
Proof.
  unfold wrapU. change (2 ^ 64) with (2 ^ 32 * 2 ^ 32). rewrite Z.rem_mul_r by lia.
  rewrite Z.add_mod, Z.mul_comm, Z.mod_mul, Z.add_0_r, !Zmod_mod by lia. done.
Qed.

Lemma copy_crc c a b : int32 (uint32 (size_t (int32 (uint32 (c + sum_bytes a))) + sum_bytes b)) = int32 (uint32 (c + sum_bytes (a ++ b))).
Proof.
  rewrite sum_bytes_app, <- (uint32_plus (size_t _)), uint32_size_t, wrapU_wrapS, wrapU_id, uint32_plus by lia.
  do 2 f_equal. lia.
Qed.

#[export, refine] Instance copy_zlib_laws : ZlibLaws := {|
  raw := copied; d_stage := copy_stage; d_taken := copy_taken; d_given := copy_given; i_taken := in_taken; i_given := in_given; i_ready _ := True |}.
Proof.
  - by intros level s [= <-].
  - intros s0 _. by exists (Collecting []).
  - intros s input n Hs Hi Hn. destruct s as [t|t k|t]; [|done..]. exists (Collecting (t ++ input)), input, [], []. by rewrite !app_nil_r.
  - intros s n Hs Hn. destruct s as [t|t k|t]; [..|by destruct Hs]; cbn [deflate copy_zlib copy_deflate].
    + rewrite app_nil_r. destruct (copy_give_law t 0 n Hn) as (e & s' & w & -> & H1 & H2 & H3). exists e, s', w. split_and!; try done.
      destruct H3 as [(? & ? & ? & Hl)|(? & ? & ?)]; [left|right]; split_and!; try done; [|by cbn [copy_taken]; rewrite H1]. cbn [deflate_bound copy_zlib copy_left]. cbn [copy_left] in Hl. lia.
    + destruct (copy_give_law t k n Hn) as (e & s' & w & -> & H1 & H2 & H3). exists e, s', w. split_and!; try done.
      destruct H3 as [(? & ? & ? & Hl)|(? & ? & ?)]; [left|right]; split_and!; try done; by rewrite H1.
  - by intros s [= <-].
  - intros s0 _. by exists (mkCopyInflate [] []).
  - intros s input n _ Hi Hn. destruct (copy_inflate_law s input n Hn) as (e & taken & rest & w & E & H1 & H2 & H3 & H4).
    exists e, (mkCopyInflate (in_taken s ++ taken) (in_given s ++ w)), taken, rest, w. split_and!; try done. destruct H3; auto.
  - intros s input n e s' rest w C D fut _ _ _ Hn. by apply copy_inflate_raw.
  - apply copy_crc.
Defined.

#[export] Instance copy_zlib_memory : ZlibMemory.
Proof.
  split; [done|done|]. intros s input n e s' rest w E.
  unfold inflate, copy_zlib, copy_inflate in E. destruct (scan _) as [[p o] b]. injection E as <- _ _ _. by destruct (_ && _).
Qed.

#[export] Instance copy_deflate_again : DeflateAgain.
Proof. split. intros s n Hs Hn. destruct s as [t|t k|t]; [done..|]. by exists (Finished t). Qed.

End ZlibCopy.
