(* ===== verification/ZlibProps.v ===== *)
(** * ZlibProps: the properties of the wrappers of zlib

    For any zlib that does what it documents and has the memory it asks for, and however the
    bytes lie in blocks: what the
    gzip encoder writes the decoder reads in any pieces, raw streams come back up to what
    [InflateSize] leaves in zlib, and the wrappers are the decompressors that the parser of
    HTTP messages relies on.  A small zlib that copies its input shows that the laws can
    hold. *)

From S2P Require Import Prelude.
From S2P Require Import NumStreaming.
From S2P Require Import HttpRequest.
From S2P Require Import HttpSafety.
From S2P Require Import Zlib.
From S2P Require Import ZlibSpec.
From S2P Require Import ZlibCopy.

Module ZlibProps.
Import HttpRequest HttpSafety Zlib ZlibSpec ZlibCopy.

Section Zlib.
Context `{ZI : Zlib} `{ZL : !ZlibLaws} `{ZM : !ZlibMemory}.

(** ** Gzip in pieces *)

(** The pieces are added to the stream as they come, each in its own blocks, and the decoder
    is called until it answers something else than [Z_OK]. *)
Fixpoint feed (d : ZlibGzipDecodeWrapper) (io out : bytes) (pieces : list (Blocks * bytes)) : option (Z * ZlibGzipDecodeWrapper * bytes * bytes) :=
  match pieces with
  | [] => Some (Z_OK, d, io, out)
  | (B, c) :: pieces =>
      '(zerr, d, io, w) ← Decode d (io ++ c);
      if zerr =? Z_OK then feed d io (out ++ w) pieces else Some (zerr, d, io ++ concat pieces.*2, out ++ w)
  end.

Lemma decoding_more C D tl d io c fut g : decoding C D tl d io (c ++ fut) g -> decoding C D tl d (io ++ c) fut g.
Proof.
  intros [H1 H2 E | H1 Hrd H2 H3 H4 H5 E | H1 Hrd H2 H3 E]; rewrite ?app_assoc in E.
  - by apply decoding_start.
  - apply decoding_stream; try done. by rewrite !app_assoc in *.
  - by apply decoding_trailer.
Qed.

Lemma feed_spec C D tl pieces : raw C D -> forall d io out, decoding C D tl d io (concat pieces.*2) out -> zlen tl < zlen (concat pieces.*2) ->
  exists d', feed d io out pieces = Some (final_error d D, d', tl, D) /\ state_ d' = FINALIZED /\ ready d'.
Proof.
  intros HCD. induction pieces as [|[B c] pieces IH]; intros d io out Hd Hz; [pose proof (zlen_nonneg tl); cbn in Hz; change (zlen []) with 0 in Hz; lia|].
  cbn [feed fmap list_fmap snd concat] in *. apply decoding_more in Hd.
  destruct (Decode_spec C D tl d (io ++ c) (concat pieces.*2) out HCD Hd) as ([[[zerr d1] io1] w] & -> & Hstr & Hx). cbn [mbind option_bind].
  destruct Hx as [(-> & Hd1 & Hz1) | (-> & Ht & HD & Hs & Hrd)].
  - rewrite Z.eqb_refl. destruct (IH d1 io1 (out ++ w) Hd1 Hz1) as (d2 & -> & Hs2). exists d2. unfold final_error. by rewrite Hstr.
  - assert (Hne : (final_error d D =? Z_OK) = false) by (unfold final_error; by destruct (_ && _)). rewrite Hne. exists d1. by rewrite Ht, HD.
Qed.

Lemma final_error_small d D : strict_trailer_checking_ d = true -> zlen D < 2 ^ 63 ->
  final_error d D = if zlen D <? 2 ^ 31 then Z_STREAM_END else Z_DATA_ERROR.
Proof.
  intros Hs Hz. unfold final_error. rewrite Hs, andb_true_r. pose proof (zlen_nonneg D). rewrite (wrapU_small 64 (zlen D)) by lia.
  destruct (Z.ltb_spec (zlen D) (2 ^ 31)) as [Hl|Hl].
  - rewrite (wrapS_small 32) by lia. by rewrite (wrapU_small 64), Z.eqb_refl by lia.
  - pose proof (wrapS_range 32 (zlen D)). rewrite (proj2 (Z.eqb_neq _ _)); [done|]. unfold wrapU. destruct (Z.neg_nonneg_cases (int32 (zlen D))) as [Hn|Hn].
    + rewrite <- (Z.mod_add _ 1) by lia. rewrite Z.mod_small by lia. lia.
    + rewrite Z.mod_small by lia. lia.
Qed.

(** C8: for any zlib that does what it documents and has its memory: what a gzip encoder whose
    stream was initialised, as those of the levels -1 to 9 are, writes for data of less than
    2^63 bytes is a gzip member that the decoder, new or at the end of another member, reads
    in any pieces and any blocks: it gives the data and leaves exactly the bytes that follow
    the member.  The encoder can be used again.  The answer is
    [Z_STREAM_END] for less than 2^31 bytes; for more it is [Z_DATA_ERROR], because the size
    in the trailer is read as a signed number of 32 bits and compared with one of 64. *)
Theorem gzip_pieces {B : Blocks} (e : ZlibGzipEncodeWrapper) (data : bytes) :
  initialised e -> zlen data < 2 ^ 63 ->
  exists e' text, Encode e data = Some (e', [], text) /\ initialised e' /\
    forall (d : ZlibGzipDecodeWrapper) (rest : bytes) (pieces : list (Blocks * bytes)),
      fresh d -> strict_trailer_checking_ d = true -> concat pieces.*2 = text ++ rest ->
      exists d', feed d [] [] pieces = Some (if zlen data <? 2 ^ 31 then Z_STREAM_END else Z_DATA_ERROR, d', rest, data) /\ fresh d'.
Proof.
  intros He Hz. destruct (Encode_spec e data He) as (e' & C & -> & He' & HCD); [lia|]. do 2 eexists. split; [done|]. split; [done|]. intros d rest pieces Hf Hs Hp.
  destruct (feed_spec C data rest pieces HCD d [] []) as (d' & -> & Hd' & Hrd).
  - apply decoding_start; [done|done|]. by rewrite Hp.
  - rewrite Hp, zlen_app. unfold gzip_text. rewrite zlen_app. change (zlen kGzipHeader) with 10. pose proof (zlen_nonneg (C ++ trailer data)). lia.
  - exists d'. rewrite final_error_small by done. split; [done|]. split; [done|by left].
Qed.

(** ** Raw streams *)

(** [Deflate] of data of less than 2^64 bytes, with a level from -1 to 9 and a zlib that may be
    called after the end, gives a raw stream and leaves nothing, and
    [Inflate] of that stream with anything after it either gives the data, with
    [Z_STREAM_END] and the rest left; or, when nothing follows and the last room was filled
    to its end as the input was used up, it answers [Z_OK] with a prefix of the data, and
    what zlib still holds back is not asked for. *)
Theorem Inflate_Deflate `{!DeflateAgain} {B B' : Blocks} (w : ZlibDeflateWrapper) (data : bytes) :
  -1 <= compress_level_ w <= 9 -> zlen data < 2 ^ 64 ->
  exists w' text, Deflate (H0 := B) w data = Some (true, w', [], text, 0) /\
    forall (i : ZlibInflateWrapper) (rest : bytes), text ++ rest <> [] -> zlen (text ++ rest) < 2 ^ 64 ->
      exists x, Inflate (H0 := B') i (text ++ rest) = Some x /\
        (i_err x = Z_STREAM_END /\ i_out x = data /\ i_in x = rest \/
         i_err x = Z_OK /\ rest = [] /\ i_in x = [] /\ i_out x `prefix_of` data /\ filled (BI := B') (i_out x)).
Proof.
  intros Hl Hz. destruct (Deflate_spec (BI := B) w data Hl Hz) as (C & -> & HCD). do 2 eexists. split; [done|]. intros i rest Hne Hz2.
  pose proof inflateInit2_memory as He. destruct inflateInit2 as [z s] eqn:Hs. cbn [fst] in He. subst z.
  destruct (inflateInit2_law _ Hs) as (Hrd & Ht & Hg). unfold Inflate.
  destruct (InflateSize_spec (BI := B') C data rest (Inflate_Clear i) s (C ++ rest) [] (Some (zlen (C ++ rest))) HCD) as (x & -> & Hx); try done.
  { rewrite Ht. apply prefix_nil. } { rewrite Hg. apply prefix_nil. } { by rewrite Ht, app_nil_r. } { by right. }
  exists x. split; [done|]. rewrite Hg, Ht in Hx. destruct Hx as [(He & _ & Ho & Hi) | (He & Hi & s' & _ & Hg' & Hp & Ht' & Hp' & Hf)]; [left|right].
  - rewrite app_nil_r in Hi. by split_and!.
  - cbn [app] in Ht'. assert (rest = []) as ->.
    { rewrite Ht' in Hp'. destruct Hp' as [k Hk]. rewrite <- app_assoc in Hk. rewrite <- (app_nil_r C) in Hk at 1. apply app_inv_head in Hk. by destruct rest. }
    rewrite app_nil_r in Ht'. rewrite Hg' in Hp. split_and!; try done. by apply Hf.
Qed.

(** ** The interface of the messages *)

(** When [istream] has no other streams than those that were initialised. *)
Lemma zlib_laws {B : Blocks} : (forall s, i_ready s) -> CodecLaws (H := zlib_codec).
Proof.
  intros Hall. split.
  - intros d b. destruct (Decode_total d b (Hall _)) as (e & d' & io & w & E & Hz). by exists e, d', io, w.
  - intros w b. destruct (InflateSize_total_null w b (fun s _ => Hall s)) as (x & E & Hz). exists (i_err x), (i_strm x), (i_in x), (i_out x). cbn [InflateSize zlib_codec]. by rewrite E.
Qed.

End Zlib.

(** ** Witnesses *)

(** Blocks of at most [b] bytes and rooms of [r]. *)
Program Definition small_blocks (b r : positive) (Hb : Z.pos b < 2 ^ 32) (Hr : Z.pos r < 2 ^ 32) : Blocks := {|
  block io := Z.min (Z.pos b) (zlen io); room _ := Z.pos r |}.
Next Obligation. intros b r Hb Hr io Hio. pose proof (zlen_pos io Hio). lia. Qed.
Next Obligation. intros b r Hb Hr io. cbn beta. lia. Qed.
Next Obligation. intros b r Hb Hr out. cbn beta. lia. Qed.

Definition blocks3 : Blocks := small_blocks 3 4 eq_refl eq_refl.
Definition blocks5 : Blocks := small_blocks 5 2 eq_refl eq_refl.

Lemma gzip_pieces_witness :
  zlen (bstr "hello") < 2 ^ 63 /\ exists e' text, Encode (H := copy_zlib) (H0 := blocks3) (Encoder_InitStream Z_DEFAULT_COMPRESSION) (bstr "hello") = Some (e', [], text) /\
    initialised e' /\ exists d', feed (ZI := copy_zlib) (Decoder_InitStream true) [] [] [(blocks3, takeZ 7 text); (blocks5, dropZ 7 text ++ bstr "more")] =
      Some (Z_STREAM_END, d', bstr "more", bstr "hello") /\ fresh d'.
Proof.
  split; [done|]. destruct (gzip_pieces (B := blocks3) (Encoder_InitStream Z_DEFAULT_COMPRESSION) (bstr "hello")) as (e' & text & He & Hr & H);
    [by apply Encoder_InitStream_ready|done|].
  exists e', text. split; [exact He|]. split; [exact Hr|]. apply H.
  - apply Decoder_InitStream_fresh.
  - reflexivity.
  - cbn [fmap list_fmap snd concat]. by rewrite app_nil_r, app_assoc, takeZ_dropZ.
Defined.

Lemma Inflate_Deflate_witness :
  zlen (bstr "hello") < 2 ^ 64 /\ exists w' text, Deflate (H := copy_zlib) (H0 := blocks3) (DeflateWrapper_new Z_DEFAULT_COMPRESSION) (bstr "hello") = Some (true, w', [], text, 0) /\
    forall (i : ZlibInflateWrapper) (rest : bytes), text ++ rest <> [] -> zlen (text ++ rest) < 2 ^ 64 ->
      exists x, Inflate (H0 := blocks5) i (text ++ rest) = Some x /\
        (i_err x = Z_STREAM_END /\ i_out x = bstr "hello" /\ i_in x = rest \/
         i_err x = Z_OK /\ rest = [] /\ i_in x = [] /\ i_out x `prefix_of` bstr "hello" /\ filled (BI := blocks5) (i_out x)).
Proof. split; [done|]. by apply (Inflate_Deflate (B := blocks3) (B' := blocks5)). Defined.

(** With rooms of five bytes the input is used up as the room is filled, and the sixth byte
    stays in zlib. *)
Example inflate_holds_back :
  (fun x => (i_err x, i_in x, i_out x)) <$> Inflate (H := copy_zlib) (H0 := small_blocks 100 5 eq_refl eq_refl) None (stored (bstr "hello!")) =
    Some (Z_OK, [], bstr "hello").
Proof. vm_compute. reflexivity. Qed.

End ZlibProps.
