(* ===== verification/HttpGzip.v ===== *)
(** * HttpGzip: a body in gzip, from the encoder to the request

    The parser of messages over the wrappers of zlib: the bytes that the gzip encoder wrote
    for a body, with their Content-Length, give the body back in whatever pieces they come. *)

From S2P Require Import Prelude.
From S2P Require Import HttpConsts.
From S2P Require Import HttpHeader.
From S2P Require Import HttpRequest.
From S2P Require Import HttpRequestSpec.
From S2P Require Import Zlib.
From S2P Require Import ZlibSpec.
From S2P Require Import ZlibCopy.
From S2P Require Import ZlibProps.

Module HttpGzip.
Import HttpConsts HttpHeader HttpRequest HttpRequestSpec Zlib ZlibSpec ZlibCopy ZlibProps.

Section Gzip.
Context `{ZI : Zlib} `{ZL : !ZlibLaws} `{ZM : !ZlibMemory} `{BI : Blocks}.
#[local] Existing Instance zlib_codec.

(** The pieces of a payload are added to the stream as they arrive, until it is finished. *)
Fixpoint receive_payload (x : Parsing) (pieces : list bytes) : option (bool * Parsing) :=
  match pieces with
  | [] => Some (false, x)
  | c :: pieces =>
      '(code, x) ← ParsePayloadInternal (set_inp (inp x ++ c) x);
      if finished code then Some (true, set_inp (inp x ++ concat pieces) x) else receive_payload x pieces
  end.

(** A body in gzip that is being read. *)
Record gzip_body (x : Parsing) : Prop := {
  gb_state : parse_state_ (parser x) = STATE_BODY_READING;
  gb_fits : body_size_to_read_ (parser x) <= max_body_size_ (limits (parser x));
  gb_gzip : IsGzipContentEncoding (header x) = Some true;
  gb_deflate : IsDeflateContentEncoding (header x) = Some false;
  gb_inflate : inflate_zwrapper_ (parser x) = None }.

Section Body.
Variables (C data rest out0 : bytes).
Hypothesis HCD : raw C data.
Hypothesis Hsize : zlen data < 2 ^ 31.

(** [t] of the body is still to be taken from the stream, and the decoder that will be used
    has given [g] of the data. *)
Definition gzip_coming (x : Parsing) (t g : bytes) : Prop :=
  let d := default (Decoder_InitStream true) (gzip_zwrapper_ (parser x)) in
  decoding C data [] d (partial_data_ (parser x)) t g /\ strict_trailer_checking_ d = true /\ out x = out0 ++ g.

Definition gzip_waiting (x : Parsing) (fut : bytes) : Prop :=
  gzip_body x /\ exists t g, gzip_coming x t g /\ body_size_to_read_ (parser x) = zlen t /\ inp x ++ fut = t ++ rest.

(** What the loop of the decoder makes of the bytes it has. *)
Definition gzip_exit (x : Parsing) (t : bytes) (e : Exit) : Prop :=
  let '(r, x') := e in
  header x' = header x /\ limits (parser x') = limits (parser x) /\ inp x' = inp x /\
  (r = inl (HEADER_READ .| BODY_FINISHED .| REQUEST_FINISHED) /\ t = [] /\ parse_state_ (parser x') = STATE_BODY_END /\ out x' = out0 ++ data \/
   r = inr false /\ t <> [] /\ gzip_body x' /\ body_size_to_read_ (parser x') = body_size_to_read_ (parser x) /\ exists g, gzip_coming x' t g).

Lemma gzip_content_coming x t g : gzip_body x -> gzip_coming x t g -> body_size_to_read_ (parser x) = zlen t ->
  exists e, gzip_content body_gzip_step x = Some e /\ gzip_exit x t e.
Proof.
  intros Hb Hc Hn. unfold gzip_content. set (m := bool_decide _). set (x1 := new_gzip x).
  apply (loop_total (body_gzip_step m)
    (fun y => gzip_body y /\ (exists g, gzip_coming y t g) /\ gzip_zwrapper_ (parser y) <> None /\ body_size_to_read_ (parser y) = zlen t /\
       header y = header x /\ limits (parser y) = limits (parser x) /\ inp y = inp x)
    (gzip_exit x t) (fun y => length (partial_data_ (parser y)))); [| |unfold decode_fuel; lia].
  - intros y (Hby & (g1 & Hd & Hstr & Ho) & Hg & Hny & Hy1 & Hy2 & Hy3). unfold body_gzip_step, decode_partial.
    destruct (gzip_zwrapper_ (parser y)) as [d|] eqn:Ed; [|done]. cbn [default id] in Hd, Hstr. cbn [mbind option_bind].
    destruct (Decode_spec C data [] d (partial_data_ (parser y)) t g1 HCD Hd) as ([[[zerr d'] io'] w] & E & Hstr' & Hx). cbn [GzipDecode zlib_codec] in *. rewrite E.
    cbn [mbind option_bind]. set (y' := on_parser _ y).
    assert (Hby' : gzip_body (append_out w y')) by (destruct Hby; by split).
    destruct Hx as [(-> & Hd' & Hz) | (-> & Hend & HD & _)].
    + change (Z_OK =? Z_STREAM_END) with false. change (Z_OK =? Z_OK) with true. cbn [negb].
      change (body_size_to_read_ (parser (append_out w y'))) with (body_size_to_read_ (parser y)). rewrite Hny.
      change (zlen []) with 0 in Hz. rewrite (proj2 (Z.eqb_neq _ _)) by lia.
      assert (Hcoming : gzip_coming (append_out w y') t (g1 ++ w)).
      { split; [exact Hd'|]. split; [by rewrite <- Hstr; apply Hstr'|]. cbn [out append_out y' on_parser]. by rewrite Ho, app_assoc. }
      eexists. split; [done|]. unfold again, more_to_decode. destruct (Z.ltb_spec 0 (zlen (partial_data_ (parser y)) - zlen io')) as [Hcons|Hcons]; cbn [andb];
        [|by split_and!; try done; right; split_and!; try done; [by intros ->|by rewrite Hn|by eexists]].
      destruct (negb _).
      * split; [split_and!; try done; by eexists|]. cbn [y' append_out on_parser parser with_gzip with_partial_data partial_data_]. unfold zlen in Hcons. lia.
      * split_and!; try done. right. split_and!; try done; [by intros ->|by rewrite Hn|by eexists].
    + assert (Hfe : final_error d data = Z_STREAM_END).
      { rewrite final_error_small by (done || lia). by rewrite (proj2 (Z.ltb_lt _ _)). }
      rewrite Hfe, Z.eqb_refl. apply app_eq_nil in Hend as [-> ->].
      change (body_size_to_read_ (parser (append_out w y'))) with (body_size_to_read_ (parser y)). rewrite Hny. change (zlen [] =? 0) with true.
      change (partial_data_ (parser (append_out w y'))) with (@nil byte). rewrite bool_decide_true by done. cbn [andb].
      eexists. split; [done|]. split_and!; try done. left. split_and!; try done. cbn [out append_out y' on_parser set_parse_state]. by rewrite Ho, <- app_assoc, HD.
  - assert (Hx1 : gzip_zwrapper_ (parser x1) <> None /\ default (Decoder_InitStream true) (gzip_zwrapper_ (parser x1)) = default (Decoder_InitStream true) (gzip_zwrapper_ (parser x))).
    { unfold x1, new_gzip. destruct (gzip_zwrapper_ (parser x)) eqn:E; [by rewrite E|done]. }
    destruct Hx1 as [Hg1 Hg2]. assert (Hsame : exists z, x1 = on_parser (with_gzip z) x).
    { unfold x1, new_gzip. destruct (gzip_zwrapper_ (parser x)) as [d|] eqn:E; [|by eexists]. exists (Some d). rewrite <- E. destruct x as [p ? ? ?]. by destruct p. }
    destruct Hsame as [z Hz]. rewrite Hz in *. split; [destruct Hb; by split|]. split; [|by split_and!]. exists g. destruct Hc as (Hc1 & Hc2 & Hc3).
    unfold gzip_coming. rewrite Hg2. by split_and!.
Qed.

Lemma gzip_decoders x : gzip_body x -> content_decoders x = Some (true, false).
Proof. intros [_ _ Hg Hd Hi]. unfold content_decoders. rewrite Hg, Hd. cbn [mbind option_bind]. by rewrite Hi, bool_decide_false by (by intros []). Qed.

Lemma gzip_call x fut : gzip_waiting x fut -> exists code x', ParsePayloadInternal x = Some (code, x') /\ header x' = header x /\
  if finished code then parse_state_ (parser x') = STATE_BODY_END /\ out x' = out0 ++ data /\ inp x' ++ fut = rest
  else gzip_waiting x' fut /\ zlen rest < zlen fut.
Proof.
  intros (Hb & t & g & (Hd & Hs & Ho) & Hn & E). pose proof Hb as [Hst Hfits _ _ _].
  unfold ParsePayloadInternal. rewrite Hst. cbn [CHECK mbind option_bind]. change (state_value STATE_END_OF_HEADER <=? state_value STATE_BODY_READING) with true.
  cbn [CHECK mbind option_bind]. rewrite (bool_decide_false (STATE_BODY_READING = STATE_END_OF_HEADER)) by done. cbn [negb mbind option_bind].
  rewrite Hst, bool_decide_true by done. unfold ParseBodyInternal. rewrite Hst, bool_decide_true by done. cbn [CHECK mbind option_bind].
  rewrite (proj2 (Z.ltb_ge _ _)) by done. rewrite andb_false_r. cbv zeta. rewrite Hn.
  destruct (bytes_arrive _ _ _ _ E) as (t' & Ht & Hlen & E' & Hor). set (n := Z.min (zlen t) (zlen (inp x))) in *.
  set (x1 := on_parser _ (take_partial n x)). assert (Hb1 : gzip_body x1).
  { destruct Hb. split; try done. change (body_size_to_read_ (parser x) - n <= max_body_size_ (limits (parser x))). pose proof (zlen_nonneg (inp x)). pose proof (zlen_nonneg t). lia. }
  rewrite (gzip_decoders x1 Hb1). cbn [mbind option_bind CHECK negb].
  destruct (gzip_content_coming x1 t' g Hb1) as ([r x'] & -> & Hh & Hl & Hi & Hr).
  { split; [|by split]. change (partial_data_ (parser x1)) with (partial_data_ (parser x) ++ takeZ n (inp x)). apply decoding_more. by rewrite <- Ht. }
  { change (body_size_to_read_ (parser x) - n = zlen t'). lia. }
  cbn [mbind option_bind]. destruct Hr as [(-> & -> & Hend & Hout) | (-> & Hne & Hb' & Hsize' & g' & Hc')]; do 2 eexists; (split; [done|]); (split; [done|]).
  - change (finished _) with true. cbn iota. split_and!; try done. by rewrite Hi.
  - change (finished _) with false. cbn iota. destruct Hor as [?|Hdrop]; [done|]. split.
    + split; [done|]. exists t', g'. split; [done|]. split; [|by rewrite Hi]. rewrite Hsize'. change (body_size_to_read_ (parser x) - n = zlen t'). lia.
    + rewrite Hdrop, app_nil_l in E'. rewrite E', zlen_app. pose proof (zlen_pos t' Hne). lia.
Qed.

Lemma gzip_all pieces : forall x, gzip_waiting x (concat pieces) -> zlen rest < zlen (concat pieces) ->
  exists x', receive_payload x pieces = Some (true, x') /\ parse_state_ (parser x') = STATE_BODY_END /\ out x' = out0 ++ data /\ inp x' = rest /\ header x' = header x.
Proof.
  induction pieces as [|c pieces IH]; intros x Hw Hz; [pose proof (zlen_nonneg rest); cbn in Hz; change (zlen []) with 0 in Hz; lia|].
  cbn [receive_payload concat] in *. set (x1 := set_inp (inp x ++ c) x). assert (Hw1 : gzip_waiting x1 (concat pieces)).
  { destruct Hw as (Hb & t & g & Hc & Hn & E). split; [destruct Hb; by split|]. exists t, g. split; [done|]. split; [done|]. cbn [inp set_inp x1]. by rewrite <- app_assoc. }
  destruct (gzip_call x1 (concat pieces) Hw1) as (code & x2 & -> & Hh & Hr). cbn [mbind option_bind]. destruct (finished code).
  - destruct Hr as (H1 & H2 & H3). eexists. by split_and!.
  - destruct Hr as [Hw2 Hz2]. destruct (IH x2 Hw2 Hz2) as (x' & -> & H1 & H2 & H3 & H4). exists x'. split_and!; try done. by rewrite H4, Hh.
Qed.
End Body.

(** C5: for any zlib that does what it documents and has its memory: a body of less than 2^31
    bytes that [Request] encoded in gzip (with a stream that was initialised), sent with its
    Content-Length, is what the parser gives: in whatever pieces the bytes come and whatever
    follows, it ends without an error right after the body, with the data decoded. *)
Theorem gzip_body_received {B : Blocks} (e e' : ZlibGzipEncodeWrapper) (data text rest : bytes) (x : Parsing (H := zlib_codec (H0 := BI))) (pieces : list bytes) :
  zlen data < 2 ^ 31 -> initialised e -> Encode (H0 := B) e data = Some (e', [], text) ->
  gzip_body x -> gzip_zwrapper_ (parser x) = None -> partial_data_ (parser x) = [] -> body_size_to_read_ (parser x) = zlen text ->
  inp x = [] -> concat pieces = text ++ rest ->
  exists x', receive_payload x pieces = Some (true, x') /\
    parse_state_ (parser x') = STATE_BODY_END /\ InErrorState (parser x') = false /\ out x' = out x ++ data /\ inp x' = rest /\ header x' = header x.
Proof.
  intros Hz Hini He Hb Hg Hp Hn Hi Hc. destruct (Encode_spec (BI := B) e data Hini) as (e1 & C & He1 & _ & HCD); [lia|]. rewrite He in He1. injection He1 as _ ->.
  destruct (gzip_all C data rest (out x) HCD Hz pieces x) as (x' & -> & H1 & H2 & H3 & H4).
  - split; [done|]. exists (gzip_text C data), []. split; [|split; [done|by rewrite Hi, Hc]]. unfold gzip_coming. rewrite Hg, Hp, app_nil_r. cbn [default]. split; [|done].
    apply decoding_start; [apply Decoder_InitStream_fresh|done|by rewrite app_nil_r].
  - rewrite Hc, zlen_app. unfold gzip_text. rewrite zlen_app. change (zlen kGzipHeader) with 10. pose proof (zlen_nonneg (C ++ trailer data)). lia.
  - exists x'. split_and!; try done. unfold InErrorState. by rewrite H1.
Qed.
End Gzip.

(** ** A body of five bytes *)

Definition gzip_header : Header := with_fields {[kHeaderContentEncoding := kGzip]} (Header_new true).

Definition example_text : bytes :=
  match Encode (H := copy_zlib) (H0 := blocks3) (Encoder_InitStream Z_DEFAULT_COMPRESSION) (bstr "hello") with Some (_, _, text) => text | None => [] end.

Definition example_limits : Limits := mkLimits 16384 (2 ^ 22) (2 ^ 20) (-1) false false false READ_NO_STATUS_REASON.

Definition example_body : Parsing (H := zlib_codec (H := copy_zlib) (H0 := blocks5)) :=
  mkParsing (H := zlib_codec) (with_body_size_to_read (H := zlib_codec) (zlen example_text)
    (with_parse_state (H := zlib_codec) STATE_BODY_READING (Parser_new (H := zlib_codec) example_limits))) [] gzip_header [].

Lemma example_encoded : exists e', Encode (H := copy_zlib) (H0 := blocks3) (Encoder_InitStream Z_DEFAULT_COMPRESSION) (bstr "hello") = Some (e', [], example_text).
Proof.
  assert (Hc : (fun '(_, io, text) => (io, text)) <$> Encode (H := copy_zlib) (H0 := blocks3) (Encoder_InitStream Z_DEFAULT_COMPRESSION) (bstr "hello") = Some ([], example_text))
    by (vm_compute; reflexivity).
  revert Hc. generalize example_text as text. intros text. destruct (Encode _ _) as [[[e' io] t]|]; [|done]. cbn [fmap option_fmap option_map].
  intros Hc. injection Hc as -> ->. by exists e'.
Qed.

Lemma example_gzip_body : gzip_body (ZI := copy_zlib) (BI := blocks5) example_body.
Proof. split; vm_compute; (reflexivity || discriminate). Qed.

Lemma example_pieces : concat [takeZ 12 example_text; dropZ 12 example_text ++ bstr "GET"] = example_text ++ bstr "GET".
Proof. cbn [concat]. by rewrite app_nil_r, app_assoc, takeZ_dropZ. Qed.

Lemma gzip_body_received_witness :
  exists e', Encode (H := copy_zlib) (H0 := blocks3) (Encoder_InitStream Z_DEFAULT_COMPRESSION) (bstr "hello") = Some (e', [], example_text) /\
  exists x', receive_payload (ZI := copy_zlib) (BI := blocks5) example_body [takeZ 12 example_text; dropZ 12 example_text ++ bstr "GET"] = Some (true, x') /\
    parse_state_ (parser x') = STATE_BODY_END /\ InErrorState (parser x') = false /\ out x' = out example_body ++ bstr "hello" /\
    inp x' = bstr "GET" /\ header x' = header example_body.
Proof.
  destruct example_encoded as [e' He]. exists e'. split; [exact He|].
  exact (gzip_body_received (ZI := copy_zlib) (BI := blocks5) (B := blocks3) (Encoder_InitStream Z_DEFAULT_COMPRESSION) e' (bstr "hello") example_text (bstr "GET") example_body
    [takeZ 12 example_text; dropZ 12 example_text ++ bstr "GET"] eq_refl (Encoder_InitStream_ready _ ltac:(done)) He example_gzip_body eq_refl eq_refl eq_refl eq_refl example_pieces).
Defined.

End HttpGzip.
