(* ===== verification/ThreadQueue.v ===== *)
(** * ThreadQueue: [sync/producer_consumer_queue.h]

    The queue that threads share under a mutex, with a condition for each end.  What a call
    does while it has the mutex, from the lock or the return of a wait to the next wait or
    the unlock, is one step: nothing else of the queue is touched by anybody in between.  A
    thread that waits sleeps until it is signalled, its time is up, or for no reason at all,
    as POSIX allows; which of the sleepers a signal wakes is open.  [data()], which hands
    the deque out without the mutex, and the times themselves are left out. *)

From S2P Require Import Prelude.

Module ThreadQueue.

Definition kInfiniteWait : Z := 4294967295.

(** [cond_full_]: there is something to get; [cond_empty_]: there is room. *)
Inductive Cond := cond_full_ | cond_empty_.

#[export] Instance Cond_eq_dec : EqDecision Cond.
Proof. solve_decision. Defined.

Section Queue.
Context {C : Type}.

Record Queue := mkQueue { max_size_ : Z; fifo_policy_ : bool; data_ : list C }.

Definition ProducerConsumerQueue (max_size : Z) (fifo_policy : bool) : Queue := mkQueue max_size fifo_policy [].

Definition set_data (d : list C) (q : Queue) : Queue := mkQueue (max_size_ q) (fifo_policy_ q) d.

(** [max_size_ && data_.size() >= max_size_] *)
Definition full (q : Queue) : bool := negb (max_size_ q =? 0) && (max_size_ q <=? zlen (data_ q)).

Definition push (at_back : bool) (p : C) (q : Queue) : Queue :=
  set_data (if at_back then data_ q ++ [p] else p :: data_ q) q.

(** The calls; the overloads with a timeout end in [_for]. *)
Inductive Op :=
  | Put (p : C) | PutAt (p : C) (at_back : bool)
  | Put_for (p : C) (timeout_in_ms : Z) | PutAt_for (p : C) (timeout_in_ms : Z) (at_back : bool)
  | Get | Get_for (timeout_in_ms : Z) | GetAll | Clear | IsFull | Size.

(** [RItem None] is [C ret(NULL)]. *)
Inductive Result := RVoid | RBool (b : bool) | RItem (c : option C) | RItems (l : list C) | RSize (n : Z).

(** A wait on a condition, or the end of the call with the condition it signals. *)
Inductive Outcome := Wait (c : Cond) | Return (q : Queue) (r : Result) (signals : option Cond).

(** The three parts of [PutAt]: without a timeout the test is made again after a wait, with
    one there is a single wait. *)
Definition PutAt_section (p : C) (at_back : bool) (q : Queue) (r : Result) : Outcome :=
  if full q then Wait cond_empty_ else Return (push at_back p q) r (Some cond_full_).

Definition PutAt_for_section (p : C) (timeout_in_ms : Z) (at_back waited : bool) (q : Queue) : Outcome :=
  if timeout_in_ms =? kInfiniteWait then PutAt_section p (fifo_policy_ q) q (RBool true)
  else if negb waited && (negb (timeout_in_ms =? 0) && full q) then Wait cond_empty_
  else if full q then Return q (RBool false) None
  else Return (push at_back p q) (RBool true) (Some cond_full_).

Definition Get_section (q : Queue) : Outcome :=
  match data_ q with
  | [] => Wait cond_full_
  | ret :: d => Return (set_data d q) (RItem (Some ret)) (Some cond_empty_)
  end.

Definition Get_for_section (timeout_in_ms : Z) (waited : bool) (q : Queue) : Outcome :=
  if timeout_in_ms =? kInfiniteWait then Get_section q
  else
    match data_ q with
    | [] =>
        if negb waited && negb (timeout_in_ms =? 0) then Wait cond_full_
        else Return q (RItem None) (Some cond_empty_)
    | ret :: d => Return (set_data d q) (RItem (Some ret)) (Some cond_empty_)
    end.

(** What a call does with the mutex; [waited] says that it comes from a wait. *)
Definition section (op : Op) (waited : bool) (q : Queue) : Outcome :=
  match op with
  | Put p => PutAt_section p (fifo_policy_ q) q RVoid
  | PutAt p at_back => PutAt_section p at_back q RVoid
  | Put_for p timeout => PutAt_for_section p timeout (fifo_policy_ q) waited q
  | PutAt_for p timeout at_back => PutAt_for_section p timeout at_back waited q
  | Get => Get_section q
  | Get_for timeout => Get_for_section timeout waited q
  | GetAll => Return (set_data [] q) (RItems (data_ q)) (Some cond_empty_)
  | Clear => Return (set_data [] q) RVoid (Some cond_empty_)
  | IsFull => Return q (RBool (full q)) None
  | Size => Return q (RSize (int32 (zlen (data_ q)))) None
  end.

(** ** Threads *)

Inductive Stage := Idle | Ready (op : Op) (waited : bool) | Asleep (c : Cond) (op : Op) | Returned (r : Result).

Record World := mkWorld { queue : Queue; threads : list Stage }.

Definition sleeps (c : Cond) (t : Stage) : bool := match t with Asleep c' _ => bool_decide (c = c') | _ => false end.

Definition wake (t : Stage) : Stage := match t with Asleep _ op => Ready op true | _ => t end.

(** [pthread_cond_signal]: one of the threads that sleep there, if there are any. *)
Definition sleepers (c : Cond) (ts : list Stage) : list nat :=
  filter (fun i => from_option (sleeps c) false (ts !! i) = true) (seq 0 (length ts)).

Definition signal (c : Cond) (pick : nat) (ts : list Stage) : list Stage :=
  let l := sleepers c ts in
  match i ← l !! (pick mod length l)%nat; t ← ts !! i; Some (<[i := wake t]> ts) with
  | Some ts' => ts'
  | None => ts
  end.

(** A thread makes a call, gets the mutex, or wakes without a signal. *)
Inductive Event := Call (i : nat) (op : Op) | Run (i : nat) (pick : nat) | Wake (i : nat).

Definition event (e : Event) (w : World) : option World :=
  match e with
  | Call i op =>
      match threads w !! i with
      | Some Idle | Some (Returned _) => Some (mkWorld (queue w) (<[i := Ready op false]> (threads w)))
      | _ => None
      end
  | Wake i =>
      match threads w !! i with
      | Some (Asleep _ op) => Some (mkWorld (queue w) (<[i := Ready op true]> (threads w)))
      | _ => None
      end
  | Run i pick =>
      match threads w !! i with
      | Some (Ready op waited) =>
          match section op waited (queue w) with
          | Wait c => Some (mkWorld (queue w) (<[i := Asleep c op]> (threads w)))
          | Return q r signals =>
              let ts := <[i := Returned r]> (threads w) in
              Some (mkWorld q (from_option (fun c => signal c pick ts) ts signals))
          end
      | _ => None
      end
  end.

Fixpoint events (es : list Event) (w : World) : option World :=
  match es with
  | [] => Some w
  | e :: es => w ← event e w; events es w
  end.

Definition world_new (max_size : Z) (fifo_policy : bool) (n : nat) : World :=
  mkWorld (ProducerConsumerQueue max_size fifo_policy) (replicate n Idle).

End Queue.

#[global] Arguments Queue : clear implicits.
#[global] Arguments Op : clear implicits.
#[global] Arguments Result : clear implicits.
#[global] Arguments Stage : clear implicits.
#[global] Arguments Event : clear implicits.
#[global] Arguments World : clear implicits.

End ThreadQueue.
