(* ===== verification/ThreadQueueProps.v ===== *)
(** * ThreadQueueProps: the queue that threads share under a mutex

    Under every interleaving of calls, wakings and signals: what is got is what was put, in
    order, and the queue keeps its bound; and nobody is left asleep for nothing, unless the
    queue is emptied at once. *)

From S2P Require Import Prelude.
From S2P Require Import ThreadQueue.

Module ThreadQueueProps.
Import ThreadQueue.

Section Queue.
Context {C : Type}.

(** ** What goes through the queue *)

(** What the end of a call has added, and what it has taken away, in order. *)
Definition added (op : Op C) (r : Result C) : list C :=
  match op, r with
  | (Put p | PutAt p _ | Put_for p _ | PutAt_for p _ _), (RVoid | RBool true) => [p]
  | _, _ => []
  end.

Definition removed (op : Op C) (q : Queue C) (r : Result C) : list C :=
  match op, r with
  | _, RItem (Some c) => [c]
  | (GetAll | Clear), _ => data_ q
  | _, _ => []
  end.

(** The elements put and the elements taken, up to now. *)
Definition record (e : Event C) (w : World C) (h : list C * list C) : list C * list C :=
  match e with
  | Run i _ =>
      match threads w !! i with
      | Some (Ready op waited) =>
          match section op waited (queue w) with
          | Return _ r _ => (h.1 ++ added op r, h.2 ++ removed op (queue w) r)
          | Wait _ => h
          end
      | _ => h
      end
  | _ => h
  end.

Fixpoint history (es : list (Event C)) (w : World C) (h : list C * list C) : list C * list C :=
  match es with
  | [] => h
  | e :: es => match event e w with Some w' => history es w' (record e w h) | None => h end
  end.

(** A call that adds in front. *)
Definition in_front (op : Op C) : bool := match op with PutAt _ b | PutAt_for _ _ b => negb b | _ => false end.

Ltac section_cases :=
  unfold section, PutAt_for_section, PutAt_section, Get_for_section, Get_section in *;
  repeat match goal with
  | H : Return _ _ _ = Return _ _ _ |- _ => injection H as <- <- <-
  | H : Wait _ = Wait _ |- _ => injection H as <-
  | H : Wait _ = Return _ _ _ |- _ => discriminate H
  | H : Return _ _ _ = Wait _ |- _ => discriminate H
  | H : (if ?b then _ else _) = _ |- _ => destruct b eqn:?
  | H : match data_ ?q with [] => _ | _ => _ end = _ |- _ => destruct (data_ q) eqn:?
  end.

Lemma full_false (q : Queue C) : full q = false -> 0 < max_size_ q -> zlen (data_ q) < max_size_ q.
Proof. unfold full. intros Hf Hm. rewrite (proj2 (Z.eqb_neq _ _)) in Hf by lia. cbn [negb andb] in Hf. by apply Z.leb_gt in Hf. Qed.

Lemma section_items (op : Op C) waited q q' r s : section op waited q = Return q' r s ->
  max_size_ q' = max_size_ q /\ fifo_policy_ q' = fifo_policy_ q /\
  data_ q ++ added op r ≡ₚ removed op q r ++ data_ q' /\
  (fifo_policy_ q = true -> in_front op = false -> data_ q ++ added op r = removed op q r ++ data_ q') /\
  (0 < max_size_ q -> zlen (data_ q) <= max_size_ q -> zlen (data_ q') <= max_size_ q).
Proof.
  intros E. assert (Hpush : forall b p, data_ q ++ [p] ≡ₚ data_ (push b p q)).
  { intros [|] p; [done|]. cbn [push data_ set_data]. by rewrite Permutation_app_comm. }
  assert (Hback : forall b p, b = true -> data_ q ++ [p] = data_ (push b p q)) by by intros b p ->.
  assert (Hlen : forall b p, full q = false -> 0 < max_size_ q -> zlen (data_ (push b p q)) <= max_size_ q).
  { intros b p Hf Hm. pose proof (full_false q Hf Hm). destruct b; cbn [push data_ set_data]; rewrite ?zlen_snoc, ?zlen_cons; lia. }
  assert (Hpop : forall (c : C) d, zlen (c :: d) <= max_size_ q -> zlen d <= max_size_ q) by (intros c d; rewrite zlen_cons; lia).
  revert Hlen; destruct op; section_cases; intros Hlen; cbn [added removed in_front app data_ set_data].
  all: split_and!; rewrite ?app_nil_r; try done; eauto.
  all: repeat match goal with E : data_ _ = _ |- _ => rewrite E end; try done; try (intros; rewrite zlen_nil; lia).
  all: intros _ Hb; apply Hback; by destruct at_back.
Qed.

(** ** Every run *)

Definition op_of (t : Stage C) : option (Op C) :=
  match t with Ready op _ | Asleep _ op => Some op | _ => None end.

Definition sound (m : Z) (w : World C) (h : list C * list C) : Prop :=
  max_size_ (queue w) = m /\ h.1 ≡ₚ h.2 ++ data_ (queue w) /\ (0 < m -> zlen (data_ (queue w)) <= m).


Lemma sound_run m (es : list (Event C)) w h w' : events es w = Some w' -> sound m w h -> sound m w' (history es w h).
Proof.
  revert w h. induction es as [|e es IH]; intros w h; cbn [events history].
  - by intros [= ->].
  - destruct (event e w) as [w1|] eqn:E; [cbn [mbind option_bind]|done]. intros Hes Hs. apply (IH w1); [done|]. clear IH Hes.
    destruct Hs as (Hm0 & Hp & Hb). destruct e as [i op|i pick|i]; cbn [event record] in *.
    1, 3: destruct (threads w !! i) as [[| | |]|]; try done; by injection E as <-.
    destruct (threads w !! i) as [[|op waited| |]|]; try done. destruct (section op waited (queue w)) as [c|q r s] eqn:Es; injection E as <-; [done|].
    destruct (section_items op waited (queue w) q r s Es) as (Hm & _ & Hd & _ & Hl). rewrite Hm0 in Hm, Hl. split_and!; cbn [queue fst snd].
    + done.
    + rewrite Hp, <- !app_assoc. by apply Permutation_app_head.
    + auto.
Qed.

(** ** The threads *)

Lemma signal_cases c pick (ts : list (Stage C)) :
  (signal c pick ts = ts /\ forall i op, ts !! i <> Some (Asleep c op)) \/
  exists i op, ts !! i = Some (Asleep c op) /\ signal c pick ts = <[i := Ready op true]> ts.
Proof.
  assert (Hs : forall i, i ∈ sleepers c ts <-> exists op, ts !! i = Some (Asleep c op)).
  { intros i. unfold sleepers. rewrite list_elem_of_filter, elem_of_seq. split.
    - intros [H _]. destruct (ts !! i) as [[| |c' op|]|] eqn:E; try done. exists op. apply bool_decide_eq_true in H. by subst.
    - intros [op E]. rewrite E. split; [by apply bool_decide_eq_true|]. apply lookup_lt_Some in E. lia. }
  unfold signal. destruct (sleepers c ts) as [|j l] eqn:El.
  - left. split; [done|]. intros i op E. assert (i ∈ @nil nat) as H%not_elem_of_nil by (apply Hs; by exists op). done.
  - right. destruct (lookup_lt_is_Some_2 (j :: l) (pick mod length (j :: l))) as [i Hi]; [apply Nat.mod_upper_bound; done|].
    rewrite Hi. destruct (proj1 (Hs i)) as [op E]; [by eapply list_elem_of_lookup_2|]. exists i, op. split; [done|].
    cbn [mbind option_bind]. by rewrite E.
Qed.

(** What holds of every thread. *)
Lemma run_threads (P : Stage C -> Prop) (e : Event C) w w' : (forall i op, e = Call i op -> P (Ready op false)) -> (forall r, P (Returned r)) ->
  (forall op waited c, P (Ready op waited) -> P (Asleep c op)) -> (forall c op, P (Asleep c op) -> P (Ready op true)) ->
  event e w = Some w' -> Forall P (threads w) -> Forall P (threads w').
Proof.
  intros Hcall Hret Hsleep Hwake E HP. destruct e as [i op|i pick|i]; cbn [event] in E; destruct (threads w !! i) as [t|] eqn:Et; try done.
  - destruct t; try done; injection E as <-; apply Forall_insert; eauto.
  - destruct t as [|op waited| |]; try done. pose proof (Forall_lookup_1 _ _ _ _ HP Et) as Ht.
    destruct (section op waited (queue w)) as [c|q r s]; injection E as <-; cbn [threads]; [by apply Forall_insert; eauto|].
    assert (H1 : Forall P (<[i := Returned r]> (threads w))) by by apply Forall_insert. destruct s as [c|]; cbn [from_option]; [|done].
    destruct (signal_cases c pick (<[i := Returned r]> (threads w))) as [[-> _]|(j & op' & Ej & ->)]; [done|].
    apply Forall_insert; [done|]. apply (Hwake c). by apply (Forall_lookup_1 _ _ _ _ H1 Ej).
  - destruct t as [| |c op|]; try done. injection E as <-. apply Forall_insert; [done|]. apply (Hwake c). by apply (Forall_lookup_1 _ _ _ _ HP Et).
Qed.

(** No call of a certain kind is under way. *)
Definition no_call (p : Op C -> bool) (t : Stage C) : Prop :=
  match t with Ready op _ | Asleep _ op => p op = false | _ => True end.

Definition calls (p : Op C -> bool) (e : Event C) : bool := match e with Call _ op => p op | _ => false end.

Lemma no_call_run (p : Op C -> bool) (e : Event C) w w' : calls p e = false -> event e w = Some w' ->
  Forall (no_call p) (threads w) -> Forall (no_call p) (threads w').
Proof. intros Hp. apply run_threads; try done. by intros i op ->. Qed.

(** ** First in, first out *)

Lemma fifo_run (es : list (Event C)) w h w' : events es w = Some w' -> Forall (fun e => calls in_front e = false) es ->
  fifo_policy_ (queue w) = true -> Forall (no_call in_front) (threads w) -> h.1 = h.2 ++ data_ (queue w) ->
  (history es w h).1 = (history es w h).2 ++ data_ (queue w').
Proof.
  revert w h. induction es as [|e es IH]; intros w h; cbn [events history].
  - by intros [= ->].
  - destruct (event e w) as [w1|] eqn:E; [cbn [mbind option_bind]|done]. intros Hes [He Hf]%Forall_cons_1 Hq Ht Hh.
    pose proof (no_call_run in_front e w w1 He E Ht) as Ht1.
    destruct e as [i op|i pick|i]; cbn [event record] in *.
    1, 3: destruct (threads w !! i) as [[| | |]|]; try done; injection E as <-; by apply (IH _ h Hes).
    destruct (threads w !! i) as [[|op waited| |]|] eqn:Ei; try done.
    destruct (section op waited (queue w)) as [c|q r s] eqn:Es; injection E as <-; [by apply (IH _ h Hes)|].
    destruct (section_items op waited (queue w) q r s Es) as (_ & Hq1 & _ & Hd & _). apply (IH _ _ Hes); try done.
    + cbn [queue]. by rewrite Hq1.
    + cbn [queue fst snd]. rewrite Hh, <- !app_assoc. f_equal. apply Hd; [done|]. exact (Forall_lookup_1 _ _ _ _ Ht Ei).
Qed.

Lemma no_call_new p max_size fifo n : Forall (no_call p) (threads (world_new (C := C) max_size fifo n)).
Proof. by apply Forall_replicate. Qed.

(** ** Who sleeps *)

(** The condition that a call may wait on. *)
Definition waits_on (op : Op C) : option Cond :=
  match op with
  | Put _ | PutAt _ _ | Put_for _ _ | PutAt_for _ _ _ => Some cond_empty_
  | Get | Get_for _ => Some cond_full_
  | _ => None
  end.

(** Takes everything at once. *)
Definition bulk (op : Op C) : bool := match op with GetAll | Clear => true | _ => false end.

(** How many calls could go on: the elements, the places. *)
Definition amount (c : Cond) (q : Queue C) : Z :=
  match c with cond_full_ => zlen (data_ q) | cond_empty_ => max_size_ q - zlen (data_ q) end.

(** A call that was woken and has not had the mutex yet. *)
Definition woken (c : Cond) (t : Stage C) : bool :=
  match t with Ready op true => bool_decide (waits_on op = Some c) | _ => false end.

Fixpoint count (p : Stage C -> bool) (ts : list (Stage C)) : Z :=
  match ts with [] => 0 | t :: ts => Z.b2z (p t) + count p ts end.

Lemma count_insert p (ts : list (Stage C)) i t t' : ts !! i = Some t ->
  count p (<[i := t']> ts) + Z.b2z (p t) = count p ts + Z.b2z (p t').
Proof.
  revert i. induction ts as [|t0 ts IH]; intros [|i] E; try done.
  - injection E as ->. change (<[0%nat := t']> (t :: ts)) with (t' :: ts). cbn [count]. lia.
  - specialize (IH i E). change (<[S i := t']> (t0 :: ts)) with (t0 :: <[i := t']> ts). cbn [count]. lia.
Qed.

Lemma b2z_nonneg b : 0 <= Z.b2z b.
Proof. by destruct b. Qed.

Lemma count_nonneg p (ts : list (Stage C)) : 0 <= count p ts.
Proof. induction ts as [|t ts IH]; cbn [count]; [done|]. destruct (p t); cbn [Z.b2z]; lia. Qed.

Lemma section_wait (op : Op C) waited q c : section op waited q = Wait c -> waits_on op = Some c /\ amount c q <= 0.
Proof.
  intros E. assert (Hfull : full q = true -> max_size_ q - zlen (data_ q) <= 0).
  { unfold full. intros [_ H%Z.leb_le]%andb_true_iff. lia. }
  destruct op; section_cases; try done; cbn [waits_on amount]; (split; [done|]); try (apply Hfull; first [done | by destruct waited, (timeout_in_ms =? 0), (full q)]).
    all: by match goal with E : data_ _ = [] |- _ => rewrite E end.
Qed.

Lemma zlen_push b p (q : Queue C) : zlen (data_ (push b p q)) = zlen (data_ q) + 1.
Proof. destruct b; cbn [push data_ set_data]; rewrite ?zlen_snoc, ?zlen_cons; lia. Qed.

Lemma section_amount (op : Op C) waited q q' r s c : section op waited q = Return q' r s -> (c = cond_empty_ -> bulk op = false) ->
  amount c q' <= 0 \/
  amount c q' + Z.b2z (bool_decide (waits_on op = Some c)) <= amount c q + Z.b2z (bool_decide (s = Some c)).
Proof.
  intros E Hb. assert (Hfull : full q = true -> max_size_ q - zlen (data_ q) <= 0).
  { unfold full. intros [_ H%Z.leb_le]%andb_true_iff. lia. }
  assert (Hmax : forall b p, max_size_ (push b p q) = max_size_ q) by done.
  destruct op; section_cases; destruct c; cbn [amount waits_on data_ set_data max_size_];
    repeat match goal with |- context [bool_decide ?P] => first [rewrite (bool_decide_true P) by done | rewrite (bool_decide_false P) by done] end;
    repeat match goal with E : data_ _ = _ |- _ => rewrite E end;
    cbn [Z.b2z]; rewrite ?zlen_push, ?Hmax, ?zlen_nil, ?zlen_cons; try (right; lia); try (left; lia).
  all: try (left; by apply Hfull).
  all: try discriminate (Hb eq_refl).
Qed.

(** A thread sleeps on [c] only while the calls that were woken there can take all there is
    to take. *)
Definition asleep (c : Cond) (ts : list (Stage C)) : Prop := exists i op, ts !! i = Some (Asleep c op).

Definition attended (c : Cond) (w : World C) : Prop :=
  (forall i c' op, threads w !! i = Some (Asleep c' op) -> waits_on op = Some c') /\
  (asleep c (threads w) -> amount c (queue w) <= count (woken c) (threads w)).

Lemma asleep_insert c (ts : list (Stage C)) i t : asleep c (<[i := t]> ts) -> (forall op, t <> Asleep c op) -> asleep c ts.
Proof.
  intros (j & op & E) Ht. exists j, op. destruct (decide (i = j)) as [->|Hij].
  - destruct (decide (j < length ts)%nat) as [Hj|Hj].
    + rewrite list_lookup_insert_eq in E by done. injection E as E. by destruct (Ht op).
    + by rewrite list_insert_ge in E by lia.
  - by rewrite list_lookup_insert_ne in E.
Qed.

(** A thread that was asleep goes on. *)
Lemma wake_count c c' (ts : list (Stage C)) i op : ts !! i = Some (Asleep c' op) -> waits_on op = Some c' ->
  count (woken c) (<[i := Ready op true]> ts) = count (woken c) ts + Z.b2z (bool_decide (c' = c)) /\
  (asleep c (<[i := Ready op true]> ts) -> asleep c ts).
Proof.
  intros E Hw. split; [|by intros Ha; apply (asleep_insert c ts i (Ready op true))].
  pose proof (count_insert (woken c) ts i (Asleep c' op) (Ready op true) E) as H. cbn [woken Z.b2z] in H. rewrite Hw in H.
  rewrite Z.add_0_r in H. rewrite H. by rewrite (bool_decide_ext (Some c' = Some c) (c' = c)) by (split; [by intros [= ->]|by intros ->]).
Qed.

Lemma waits_insert (ts : list (Stage C)) i t :
  (forall j c op, ts !! j = Some (Asleep c op) -> waits_on op = Some c) -> (forall c op, t = Asleep c op -> waits_on op = Some c) ->
  forall j c op, <[i := t]> ts !! j = Some (Asleep c op) -> waits_on op = Some c.
Proof.
  intros Hts Ht j c op E. destruct (decide (i = j)) as [->|Hij]; [|by rewrite list_lookup_insert_ne in E by done; eapply Hts].
  destruct (decide (j < length ts)%nat) as [Hj|Hj]; [|by rewrite list_insert_ge in E by lia; eapply Hts].
  rewrite list_lookup_insert_eq in E by done. injection E as ->. by apply Ht.
Qed.

Lemma attended_return c op waited q q' r s i pick (ts : list (Stage C)) : ts !! i = Some (Ready op waited) -> section op waited q = Return q' r s ->
  (c = cond_empty_ -> bulk op = false) -> attended c (mkWorld q ts) ->
  attended c (mkWorld q' (from_option (fun c => signal c pick (<[i := Returned r]> ts)) (<[i := Returned r]> ts) s)).
Proof.
  intros Ei Es Hb [Hw Ha]. cbn [queue threads] in *.
  assert (Hw1 : forall j c op, <[i := Returned r]> ts !! j = Some (Asleep c op) -> waits_on op = Some c) by by apply waits_insert.
  pose proof (count_insert (woken c) ts i _ (Returned r) Ei) as Hc. pose proof (section_amount op waited q q' r s c Es Hb) as Hd.
  assert (Hr : Z.b2z (woken c (Ready op waited)) <= Z.b2z (bool_decide (waits_on op = Some c))) by (destruct waited; cbn [woken]; [done|]; by case_bool_decide).
  assert (H1 : asleep c (<[i := Returned r]> ts) -> asleep c ts) by (intros H; by apply (asleep_insert c ts i (Returned r))).
  pose proof (count_nonneg (woken c) (<[i := Returned r]> ts)) as Hn. cbn [woken Z.b2z] in Hc, Hr.
  destruct s as [c'|]; cbn [from_option]; [destruct (signal_cases c' pick (<[i := Returned r]> ts)) as [[-> Hno]|(j & op' & Ej & ->)]|].
  - split; [done|]. cbn [queue threads]. intros Hs. destruct Hd as [Hd|Hd]; [lia|]. destruct (decide (c' = c)) as [->|Hne].
    + destruct Hs as (k & opk & Ek). by destruct (Hno k opk).
    + rewrite (bool_decide_false (Some c' = Some c)) in Hd by congruence. cbn [Z.b2z] in Hd. specialize (Ha (H1 Hs)). lia.
  - destruct (wake_count c c' _ j op' Ej (Hw1 _ _ _ Ej)) as [Hk Hs']. split; cbn [queue threads]; [by apply waits_insert|].
    intros Hs. specialize (Ha (H1 (Hs' Hs))). rewrite Hk. pose proof (b2z_nonneg (bool_decide (c' = c))). destruct Hd as [Hd|Hd]; [lia|].
    rewrite (bool_decide_ext (Some c' = Some c) (c' = c)) in Hd by (split; [by intros [= ->]|by intros ->]). lia.
  - split; [done|]. cbn [queue threads]. intros Hs. destruct Hd as [Hd|Hd]; [lia|]. rewrite (bool_decide_false (None = Some c)) in Hd by done. cbn [Z.b2z] in Hd. specialize (Ha (H1 Hs)). lia.
Qed.

Lemma attended_event c (e : Event C) w w' : event e w = Some w' -> (c = cond_empty_ -> Forall (no_call bulk) (threads w)) -> attended c w -> attended c w'.
Proof.
  intros E Hb Ha. destruct w as [q ts]. destruct e as [i op|i pick|i]; cbn [event queue threads] in E, Hb; destruct (ts !! i) as [t|] eqn:Ei; try done.
  - assert (Hq : woken c t = false /\ w' = mkWorld q (<[i := Ready op false]> ts)) by (destruct t; try done; by injection E as <-).
    destruct Hq as [Hq ->]. destruct Ha as [Hw Ha]. split; [by apply waits_insert|]. cbn [queue threads]. intros Hs.
    pose proof (count_insert (woken c) ts i t (Ready op false) Ei) as Hc. rewrite Hq in Hc. cbn [woken Z.b2z] in Hc.
    assert (Hs' : asleep c ts) by by apply (asleep_insert c ts i (Ready op false)). specialize (Ha Hs'). cbn [queue threads] in Ha. lia.
  - destruct t as [|op waited| |]; try done. destruct (section op waited q) as [c'|q' r s] eqn:Es; injection E as <-.
    + destruct (section_wait op waited q c' Es) as [Hw' Hle]. destruct Ha as [Hw Ha]. split; cbn [queue threads] in *.
      { apply waits_insert; [done|]. by intros c0 op0 [= <- <-]. }
      intros Hs. pose proof (count_insert (woken c) ts i _ (Asleep c' op) Ei) as Hc. cbn [woken Z.b2z] in Hc.
      destruct (decide (c' = c)) as [->|Hne]; [pose proof (count_nonneg (woken c) (<[i := Asleep c op]> ts)); lia|].
      assert (Z.b2z (woken c (Ready op waited)) = 0) as H0 by (destruct waited; [|done]; cbn [woken]; rewrite Hw', bool_decide_false by congruence; done).
      cbn [woken] in H0. assert (Hs' : asleep c ts) by (apply (asleep_insert c ts i (Asleep c' op)); [done|congruence]). specialize (Ha Hs'). lia.
    + apply (attended_return c op waited q); try done. intros Hc. exact (Forall_lookup_1 _ _ _ _ (Hb Hc) Ei).
  - destruct t as [| |c' op|]; try done. injection E as <-. destruct Ha as [Hw Ha]. cbn [queue threads] in *.
    destruct (wake_count c c' ts i op Ei (Hw _ _ _ Ei)) as [Hk Hs']. split; cbn [queue threads]; [by apply waits_insert|].
    intros Hs. rewrite Hk. pose proof (b2z_nonneg (bool_decide (c' = c))). specialize (Ha (Hs' Hs)). lia.
Qed.

Lemma attended_run c (es : list (Event C)) w w' : events es w = Some w' -> (c = cond_empty_ -> Forall (fun e => calls bulk e = false) es) ->
  (c = cond_empty_ -> Forall (no_call bulk) (threads w)) -> attended c w -> attended c w'.
Proof.
  revert w. induction es as [|e es IH]; intros w; cbn [events].
  - by intros [= ->].
  - destruct (event e w) as [w1|] eqn:E; [cbn [mbind option_bind]|done]. intros Hes He Ht Ha. apply (IH w1); try done.
    + intros Hc. by apply (Forall_cons_1 _ _ _ (He Hc)).
    + intros Hc. apply (no_call_run bulk e w); try done; [|by apply Ht]. apply (Forall_cons_1 _ _ _ (He Hc)).
    + by apply (attended_event c e w).
Qed.

End Queue.

(** ** Properties *)

(** C24: whatever the threads call and however they take turns, are signalled or wake by
    themselves, a queue of [max_size] never holds more than that ([0] is no bound); the
    elements put are those taken and those still in the queue; and in a queue that is first
    in, first out they come in the order in which they were put, if no call adds in front. *)
Theorem queue_keeps_elements {C} (max_size : Z) (fifo : bool) (n : nat) (es : list (Event C)) (w : World C) :
  events es (world_new max_size fifo n) = Some w ->
  let (put, taken) := history es (world_new max_size fifo n) ([], []) in
  (0 < max_size -> zlen (data_ (queue w)) <= max_size) /\ put ≡ₚ taken ++ data_ (queue w) /\
  (fifo = true -> Forall (fun e => calls in_front e = false) es -> put = taken ++ data_ (queue w)).
Proof.
  intros E. destruct (sound_run max_size es _ ([], []) w E) as (_ & Hp & Hb).
  { split_and!; [done|done|]. change (zlen _) with 0. lia. }
  pose proof (fifo_run es _ ([], []) w E) as Hf. destruct (history es _ _) as [put taken]. split_and!; [done|done|].
  intros -> He. by apply Hf; [| |apply no_call_new|].
Qed.

(** C25: nobody is left asleep for nothing, under every interleaving.  While a thread sleeps for
    an element, the calls that were woken for one, and have yet to get the mutex, are as many
    as the elements in the queue: when none is left, the queue is empty.  While a thread sleeps
    for room, the calls woken for room are as many as the free places, unless a call takes
    everything at once. *)
Theorem nobody_sleeps_in_vain {C} (max_size : Z) (fifo : bool) (n : nat) (es : list (Event C)) (w : World C) :
  events es (world_new max_size fifo n) = Some w ->
  (asleep cond_full_ (threads w) -> zlen (data_ (queue w)) <= count (woken cond_full_) (threads w)) /\
  (Forall (fun e => calls bulk e = false) es ->
   asleep cond_empty_ (threads w) -> max_size - zlen (data_ (queue w)) <= count (woken cond_empty_) (threads w)).
Proof.
  intros E. assert (Hnew : forall c, attended c (world_new (C := C) max_size fifo n)).
  { assert (Hno : forall i c op, threads (world_new (C := C) max_size fifo n) !! i <> Some (Asleep c op)).
    { intros i c op [H _]%lookup_replicate. done. }
    intros c. split; [intros i c' op H; by destruct (Hno i c' op)|]. intros (i & op & H). by destruct (Hno i c op). }
  destruct (sound_run max_size es _ ([], []) w E) as (Hm & _).
  { split_and!; [done|done|]. change (zlen _) with 0. lia. }
  split; [|intros He]; [pose proof (attended_run cond_full_ es _ w E) as [_ H]|pose proof (attended_run cond_empty_ es _ w E) as [_ H]]; try done.
  - intros _. apply no_call_new.
  - cbn [amount] in H. by rewrite Hm in H.
Qed.

(** Two threads wait for room; [GetAll] makes room for both and wakes one. *)
Definition emptied_at_once : list (Event nat) :=
  [Call 0 (Put 1); Run 0 0; Call 0 (Put 2); Run 0 0; Call 1 (Put 3); Run 1 0; Call 2 (Put 4); Run 2 0; Call 0 GetAll; Run 0 0; Run 1 0]%nat.

Lemma GetAll_leaves_asleep :
  events emptied_at_once (world_new 2 true 3) =
    Some (mkWorld (mkQueue 2 true [3%nat]) [Returned (RItems [1%nat; 2%nat]); Returned RVoid; Asleep cond_empty_ (Put 4%nat)]).
Proof. by vm_compute. Qed.

(** A thread that puts two elements in a queue of one, and two that get them. *)
Definition handing_over : list (Event nat) :=
  [Call 1 Get; Run 1 0; Call 2 (Get_for 100); Run 2 0; Call 0 (Put 1); Run 0 0; Call 0 (Put_for 2 100); Run 0 0; Run 1 0; Wake 2; Run 0 0]%nat.

Definition handed_over : World nat :=
  mkWorld (mkQueue 1 true [2%nat]) [Returned (RBool true); Returned (RItem (Some 1%nat)); Ready (Get_for 100) true].

Lemma queue_keeps_elements_witness :
  events handing_over (world_new 1 true 3) = Some handed_over /\
  let (put, taken) := history handing_over (world_new 1 true 3) ([], []) in
  (0 < 1 -> zlen (data_ (queue handed_over)) <= 1) /\ put ≡ₚ taken ++ data_ (queue handed_over) /\
  (true = true -> Forall (fun e => calls in_front e = false) handing_over -> put = taken ++ data_ (queue handed_over)).
Proof. split; [by vm_compute|]. exact (queue_keeps_elements 1 true 3 handing_over handed_over ltac:(by vm_compute)). Defined.

(** A getter that slept is woken by the element and has yet to run; another still sleeps. *)
Definition woken_getter : list (Event nat) := [Call 1 Get; Run 1 0; Call 2 Get; Run 2 0; Call 0 (Put 1); Run 0 0]%nat.

Definition one_woken : World nat :=
  mkWorld (mkQueue 1 true [1%nat]) [Returned RVoid; Ready Get true; Asleep cond_full_ Get].

Lemma nobody_sleeps_in_vain_witness :
  events woken_getter (world_new 1 true 3) = Some one_woken /\ asleep cond_full_ (threads one_woken) /\
  (asleep cond_full_ (threads one_woken) -> zlen (data_ (queue one_woken)) <= count (woken cond_full_) (threads one_woken)) /\
  (Forall (fun e => calls bulk e = false) woken_getter ->
   asleep cond_empty_ (threads one_woken) -> 1 - zlen (data_ (queue one_woken)) <= count (woken cond_empty_) (threads one_woken)).
Proof.
  split; [by vm_compute|]. split; [by exists 2%nat, Get|].
  exact (nobody_sleeps_in_vain 1 true 3 woken_getter one_woken ltac:(by vm_compute)).
Defined.

End ThreadQueueProps.
