(* ===== verification/Utf8Tables.v ===== *)
(** * Utf8Tables: the character tables of [base/strutil.cc] and [base/unicode_table.h]

    The pairs of letters of one case and the other, the letters with accents and what they
    are without, the white space characters and, a bit for each character, those that are
    letters or digits, in the order of the code. *)

From S2P Require Import Prelude.

Module Utf8Tables.

(** [_UPPER_ADD(u, l)]: the upper and the lower case of a letter. *)
Definition upper_pairs : list (Z * Z) :=
  [(0x00c0, 0x00e0); (0x00c1, 0x00e1); (0x00c2, 0x00e2); (0x00c3, 0x00e3); (0x00c4, 0x00e4);
   (0x00c5, 0x00e5); (0x0100, 0x0101); (0x0102, 0x0103); (0x0104, 0x0105); (0x01de, 0x01df);
   (0x01fa, 0x01fb); (0x00c6, 0x00e6); (0x01fc, 0x01fd); (0x1e02, 0x1e03); (0x0106, 0x0107);
   (0x00c7, 0x00e7); (0x010c, 0x010d); (0x0108, 0x0109); (0x010a, 0x010b); (0x1e10, 0x1e11);
   (0x010e, 0x010f); (0x1e0a, 0x1e0b); (0x0110, 0x0111); (0x00d0, 0x00f0); (0x01f1, 0x01f3);
   (0x01c4, 0x01c6); (0x00c8, 0x00e8); (0x00c9, 0x00e9); (0x011a, 0x011b); (0x00ca, 0x00ea);
   (0x00cb, 0x00eb); (0x0112, 0x0113); (0x0114, 0x0115); (0x0118, 0x0119); (0x0116, 0x0117);
   (0x01b7, 0x0292); (0x01ee, 0x01ef); (0x1e1e, 0x1e1f); (0x01f4, 0x01f5); (0x0122, 0x0123);
   (0x01e6, 0x01e7); (0x011c, 0x011d); (0x011e, 0x011f); (0x0120, 0x0121); (0x01e4, 0x01e5);
   (0x0124, 0x0125); (0x0126, 0x0127); (0x00cc, 0x00ec); (0x00cd, 0x00ed); (0x00ce, 0x00ee);
   (0x0128, 0x0129); (0x00cf, 0x00ef); (0x012a, 0x012b); (0x012c, 0x012d); (0x012e, 0x012f);
   (0x0130, 0x0131); (0x0132, 0x0133); (0x0134, 0x0135); (0x1e30, 0x1e31); (0x0136, 0x0137);
   (0x01e8, 0x01e9); (0x0139, 0x013a); (0x013b, 0x013c); (0x013d, 0x013e); (0x013f, 0x0140);
   (0x0141, 0x0142); (0x01c7, 0x01c9); (0x1e40, 0x1e41); (0x0143, 0x0144); (0x0145, 0x0146);
   (0x0147, 0x0148); (0x00d1, 0x00f1); (0x014a, 0x014b); (0x01ca, 0x01cc); (0x00d2, 0x00f2);
   (0x00d3, 0x00f3); (0x00d4, 0x00f4); (0x00d5, 0x00f5); (0x00d6, 0x00f6); (0x014c, 0x014d);
   (0x014e, 0x014f); (0x00d8, 0x00f8); (0x0150, 0x0151); (0x01fe, 0x01ff); (0x0152, 0x0153);
   (0x1e56, 0x1e57); (0x0154, 0x0155); (0x0156, 0x0157); (0x0158, 0x0159); (0x015a, 0x015b);
   (0x015e, 0x015f); (0x0160, 0x0161); (0x015c, 0x015d); (0x1e60, 0x1e61); (0x0162, 0x0163);
   (0x0164, 0x0165); (0x1e6a, 0x1e6b); (0x0166, 0x0167); (0x00de, 0x00fe); (0x00d9, 0x00f9);
   (0x00da, 0x00fa); (0x00db, 0x00fb); (0x0168, 0x0169); (0x00dc, 0x00fc); (0x016e, 0x016f);
   (0x016a, 0x016b); (0x016c, 0x016d); (0x0172, 0x0173); (0x0170, 0x0171); (0x1e80, 0x1e81);
   (0x1e82, 0x1e83); (0x0174, 0x0175); (0x1e84, 0x1e85); (0x1ef2, 0x1ef3); (0x00dd, 0x00fd);
   (0x0176, 0x0177); (0x0178, 0x00ff); (0x0179, 0x017a); (0x017b, 0x017c); (0x017d, 0x017e);
   (0x0200, 0x0201); (0x0202, 0x0203); (0x0204, 0x0205); (0x0206, 0x0207); (0x0208, 0x0209);
   (0x020a, 0x020b); (0x020c, 0x020d); (0x020e, 0x020f); (0x0210, 0x0211); (0x0212, 0x0213);
   (0x0214, 0x0215); (0x0216, 0x0217); (0x0218, 0x0219); (0x021a, 0x021b)].

(** [_ADD(a, b, c)]: a letter and what replaces it, the same as wide characters and as
    bytes. *)
Definition umlaut_pairs : list (Z * string) :=
  [(0x00c0, "A"%string); (0x00e0, "a"%string); (0x00c1, "A"%string); (0x00e1, "a"%string);
   (0x00c2, "A"%string); (0x00e2, "a"%string); (0x00c3, "A"%string); (0x00e3, "a"%string);
   (0x00c4, "A"%string); (0x00e4, "a"%string); (0x00c5, "A"%string); (0x00e5, "a"%string);
   (0x0100, "A"%string); (0x0101, "a"%string); (0x0102, "A"%string); (0x0103, "a"%string);
   (0x0104, "A"%string); (0x0105, "a"%string); (0x01de, "A"%string); (0x01df, "a"%string);
   (0x01fa, "A"%string); (0x01fb, "a"%string); (0x00c6, "Ae"%string); (0x00e6, "ae"%string);
   (0x01fc, "Ae"%string); (0x01fd, "ae"%string); (0x1e02, "B"%string); (0x1e03, "b"%string);
   (0x0106, "C"%string); (0x0107, "c"%string); (0x00c7, "C"%string); (0x00e7, "c"%string);
   (0x010c, "C"%string); (0x010d, "c"%string); (0x0108, "C"%string); (0x0109, "c"%string);
   (0x010a, "C"%string); (0x010b, "c"%string); (0x1e10, "D"%string); (0x1e11, "d"%string);
   (0x010e, "D"%string); (0x010f, "d"%string); (0x1e0a, "D"%string); (0x1e0b, "d"%string);
   (0x0110, "D"%string); (0x0111, "d"%string); (0x00d0, "D"%string); (0x00f0, "d"%string);
   (0x01f1, "Dz"%string); (0x01f3, "dz"%string); (0x01c4, "Dz"%string); (0x01c6, "dz"%string);
   (0x00c8, "E"%string); (0x00e8, "e"%string); (0x00c9, "E"%string); (0x00e9, "e"%string);
   (0x011a, "E"%string); (0x011b, "e"%string); (0x00ca, "E"%string); (0x00ea, "e"%string);
   (0x00cb, "E"%string); (0x00eb, "e"%string); (0x0112, "E"%string); (0x0113, "e"%string);
   (0x0114, "E"%string); (0x0115, "e"%string); (0x0118, "E"%string); (0x0119, "e"%string);
   (0x0116, "E"%string); (0x0117, "e"%string); (0x01b7, "E"%string); (0x0292, "e"%string);
   (0x01ee, "E"%string); (0x01ef, "e"%string); (0x1e1e, "F"%string); (0x1e1f, "f"%string);
   (0x0192, "f"%string); (0xfb00, "ff"%string); (0xfb01, "ff"%string); (0xfb02, "ffi"%string);
   (0xfb03, "ffl"%string); (0xfb04, "ffl"%string); (0xfb05, "ft"%string); (0x01f4, "G"%string);
   (0x01f5, "g"%string); (0x0122, "G"%string); (0x0123, "g"%string); (0x01e6, "G"%string);
   (0x01e7, "g"%string); (0x011c, "G"%string); (0x011d, "g"%string); (0x011e, "G"%string);
   (0x011f, "g"%string); (0x0120, "G"%string); (0x0121, "g"%string); (0x01e4, "G"%string);
   (0x01e5, "g"%string); (0x0124, "H"%string); (0x0125, "h"%string); (0x0126, "H"%string);
   (0x0127, "h"%string); (0x00cc, "I"%string); (0x00ec, "i"%string); (0x00cd, "I"%string);
   (0x00ed, "i"%string); (0x00ce, "I"%string); (0x00ee, "i"%string); (0x0128, "I"%string);
   (0x0129, "i"%string); (0x00cf, "I"%string); (0x00ef, "i"%string); (0x012a, "I"%string);
   (0x012b, "i"%string); (0x012c, "I"%string); (0x012d, "i"%string); (0x012e, "I"%string);
   (0x012f, "i"%string); (0x0130, "I"%string); (0x0131, "i"%string); (0x0132, "Ij"%string);
   (0x0133, "ij"%string); (0x0134, "J"%string); (0x0135, "j"%string); (0x1e30, "K"%string);
   (0x1e31, "k"%string); (0x0136, "K"%string); (0x0137, "k"%string); (0x01e8, "K"%string);
   (0x01e9, "k"%string); (0x0138, "K"%string); (0x0139, "L"%string); (0x013a, "l"%string);
   (0x013b, "L"%string); (0x013c, "l"%string); (0x013d, "L"%string); (0x013e, "l"%string);
   (0x013f, "L"%string); (0x0140, "l"%string); (0x0141, "L"%string); (0x0142, "l"%string);
   (0x01c7, "Lj"%string); (0x01c9, "lj"%string); (0x1e40, "M"%string); (0x1e41, "m"%string);
   (0x0143, "N"%string); (0x0144, "n"%string); (0x0145, "N"%string); (0x0146, "n"%string);
   (0x0147, "N"%string); (0x0148, "n"%string); (0x00d1, "N"%string); (0x00f1, "n"%string);
   (0x0149, "n"%string); (0x014a, "Eng"%string); (0x014b, "eng"%string); (0x01ca, "Nj"%string);
   (0x01cc, "nj"%string); (0x00d2, "O"%string); (0x00f2, "o"%string); (0x00d3, "O"%string);
   (0x00f3, "o"%string); (0x00d4, "O"%string); (0x00f4, "o"%string); (0x00d5, "O"%string);
   (0x00f5, "o"%string); (0x00d6, "O"%string); (0x00f6, "o"%string); (0x014c, "O"%string);
   (0x014d, "o"%string); (0x014e, "O"%string); (0x014f, "o"%string); (0x00d8, "O"%string);
   (0x00f8, "o"%string); (0x0150, "O"%string); (0x0151, "o"%string); (0x01fe, "O"%string);
   (0x01ff, "o"%string); (0x0152, "Oe"%string); (0x0153, "oe"%string); (0x1e56, "P"%string);
   (0x1e57, "p"%string); (0x0154, "R"%string); (0x0155, "r"%string); (0x0156, "R"%string);
   (0x0157, "r"%string); (0x0158, "R"%string); (0x0159, "r"%string); (0x027c, "r"%string);
   (0x015a, "S"%string); (0x015b, "s"%string); (0x015e, "S"%string); (0x015f, "s"%string);
   (0x0160, "S"%string); (0x0161, "s"%string); (0x015c, "S"%string); (0x015d, "s"%string);
   (0x1e60, "S"%string); (0x1e61, "s"%string); (0x017f, "s"%string); (0x00df, "ss"%string);
   (0x1e9e, "Ss"%string); (0x0162, "T"%string); (0x0163, "t"%string); (0x0164, "T"%string);
   (0x0165, "t"%string); (0x1e6a, "T"%string); (0x1e6b, "t"%string); (0x0166, "T"%string);
   (0x0167, "t"%string); (0x00de, "T"%string); (0x00fe, "t"%string); (0x00d9, "U"%string);
   (0x00f9, "u"%string); (0x00da, "U"%string); (0x00fa, "u"%string); (0x00db, "U"%string);
   (0x00fb, "u"%string); (0x0168, "U"%string); (0x0169, "u"%string); (0x00dc, "U"%string);
   (0x00fc, "u"%string); (0x016e, "U"%string); (0x016f, "u"%string); (0x016a, "U"%string);
   (0x016b, "u"%string); (0x016c, "U"%string); (0x016d, "u"%string); (0x0172, "U"%string);
   (0x0173, "u"%string); (0x0170, "U"%string); (0x0171, "u"%string); (0x1e80, "W"%string);
   (0x1e81, "w"%string); (0x1e82, "W"%string); (0x1e83, "w"%string); (0x0174, "W"%string);
   (0x0175, "w"%string); (0x1e84, "W"%string); (0x1e85, "w"%string); (0x1ef2, "Y"%string);
   (0x1ef3, "y"%string); (0x00dd, "Y"%string); (0x00fd, "y"%string); (0x0176, "Y"%string);
   (0x0177, "y"%string); (0x0178, "Y"%string); (0x00ff, "y"%string); (0x0179, "Z"%string);
   (0x017a, "z"%string); (0x017b, "Z"%string); (0x017c, "z"%string); (0x017d, "Z"%string);
   (0x017e, "z"%string); (0x0200, "A"%string); (0x0201, "a"%string); (0x0202, "A"%string);
   (0x0203, "a"%string); (0x0204, "E"%string); (0x0205, "e"%string); (0x0206, "E"%string);
   (0x0207, "e"%string); (0x0208, "I"%string); (0x0209, "i"%string); (0x020a, "I"%string);
   (0x020b, "i"%string); (0x020c, "O"%string); (0x020d, "o"%string); (0x020e, "O"%string);
   (0x020f, "o"%string); (0x0210, "R"%string); (0x0211, "r"%string); (0x0212, "R"%string);
   (0x0213, "r"%string); (0x0214, "R"%string); (0x0215, "r"%string); (0x0216, "R"%string);
   (0x0217, "r"%string); (0x0218, "S"%string); (0x0219, "s"%string); (0x021a, "T"%string);
   (0x021b, "t"%string)].

(** [_SPACE_ADD(c)] *)
Definition space_list : list Z :=
  [0x20; 0x9; 0xa; 0xd; 0xa0; 0x1680; 0x180e; 0x2000; 0x2001; 0x2002;
   0x2003; 0x2004; 0x2005; 0x2006; 0x2007; 0x2008; 0x2009; 0x200a; 0x2028; 0x2029;
   0x202f; 0x205f; 0x3000; 0xfeff].

(** [glb_alnum_table] *)
Definition alnum_table : list Z :=
  [0; 0; 0; 0; 0; 0; 255; 3; 254; 255; 255; 7; 254; 255; 255; 7; 0; 0; 0; 0; 0; 4; 44; 118;
   255; 255; 127; 255; 255; 255; 127; 255; 255; 255; 255; 255; 255; 255; 255; 255; 255; 255; 255; 255; 255; 255; 255; 255;
   255; 255; 255; 255; 255; 255; 255; 255; 255; 255; 255; 255; 255; 255; 255; 255; 255; 255; 255; 255; 255; 255; 255; 255;
   255; 255; 255; 255; 255; 255; 255; 255; 255; 255; 255; 255; 255; 255; 255; 255; 195; 255; 3; 0; 31; 80; 0; 0;
   0; 0; 0; 0; 0; 0; 0; 0; 0; 0; 0; 0; 0; 0; 223; 60; 64; 215; 255; 255; 251; 255; 255; 255;
   255; 255; 255; 255; 255; 255; 191; 255; 255; 255; 255; 255; 255; 255; 255; 255; 255; 255; 255; 255; 255; 255; 255; 255;
   3; 252; 255; 255; 255; 255; 255; 255; 255; 255; 255; 255; 255; 255; 255; 255; 255; 255; 255; 255; 63; 0; 254; 255;
   255; 255; 127; 2; 254; 255; 255; 255; 255; 0; 0; 0; 0; 0; 0; 0; 0; 0; 255; 255; 255; 7; 7; 0;
   0; 0; 0; 0; 254; 255; 255; 255; 255; 7; 0; 0; 255; 195; 254; 255; 255; 255; 255; 255; 255; 255; 255; 255;
   255; 255; 47; 0; 96; 192; 255; 159; 0; 0; 253; 255; 255; 255; 0; 0; 0; 224; 255; 255; 255; 255; 255; 255;
   255; 255; 255; 255; 63; 0; 2; 0; 255; 255; 255; 255; 255; 7; 48; 4; 255; 255; 63; 4; 16; 1; 0; 0;
   0; 0; 0; 0; 0; 0; 0; 0; 0; 0; 0; 0; 0; 0; 0; 0; 0; 0; 0; 0; 0; 0; 0; 0;
   240; 255; 255; 255; 255; 255; 255; 35; 0; 0; 1; 255; 195; 255; 6; 254; 224; 159; 249; 255; 255; 253; 197; 35;
   0; 64; 0; 176; 195; 255; 243; 3; 224; 135; 249; 255; 255; 253; 109; 3; 0; 0; 0; 94; 192; 255; 28; 0;
   224; 191; 251; 255; 255; 253; 237; 35; 0; 0; 1; 0; 195; 255; 0; 0; 224; 159; 249; 255; 255; 253; 237; 35;
   0; 0; 0; 176; 195; 255; 2; 0; 232; 199; 61; 214; 24; 199; 255; 3; 0; 0; 1; 0; 192; 255; 7; 0;
   224; 223; 253; 255; 255; 253; 239; 35; 0; 0; 0; 3; 195; 255; 0; 127; 224; 223; 253; 255; 255; 253; 239; 35;
   0; 0; 0; 64; 195; 255; 0; 0; 224; 223; 253; 255; 255; 253; 255; 35; 0; 0; 0; 0; 195; 255; 63; 252;
   224; 255; 127; 252; 255; 255; 251; 47; 127; 0; 0; 0; 0; 0; 0; 0; 254; 255; 255; 255; 255; 255; 13; 0;
   127; 0; 255; 3; 0; 0; 0; 0; 150; 37; 240; 254; 174; 236; 13; 32; 95; 0; 255; 51; 0; 0; 0; 0;
   1; 0; 0; 0; 255; 255; 15; 0; 255; 254; 255; 255; 255; 31; 0; 0; 0; 15; 0; 0; 0; 0; 0; 0;
   0; 0; 0; 0; 0; 0; 0; 0; 255; 255; 255; 255; 255; 7; 0; 128; 255; 3; 63; 60; 98; 192; 225; 255;
   3; 64; 255; 3; 255; 255; 255; 255; 63; 0; 255; 255; 255; 255; 255; 23; 255; 255; 255; 255; 255; 255; 255; 255;
   255; 255; 255; 255; 255; 255; 255; 255; 255; 255; 255; 255; 255; 255; 255; 255; 255; 255; 255; 255; 255; 255; 255; 255;
   255; 255; 255; 255; 255; 255; 255; 255; 255; 61; 127; 61; 255; 255; 255; 255; 255; 61; 255; 255; 255; 255; 61; 127;
   61; 255; 127; 255; 255; 255; 255; 255; 255; 255; 61; 255; 255; 255; 255; 255; 255; 255; 255; 7; 0; 254; 255; 31;
   255; 255; 0; 0; 255; 255; 255; 255; 255; 255; 255; 255; 255; 255; 31; 0; 254; 255; 255; 255; 255; 255; 255; 255;
   255; 255; 255; 255; 255; 255; 255; 255; 255; 255; 255; 255; 255; 255; 255; 255; 255; 255; 255; 255; 255; 255; 255; 255;
   255; 255; 255; 255; 255; 255; 255; 255; 255; 255; 255; 255; 255; 255; 255; 255; 255; 255; 255; 255; 255; 255; 255; 255;
   255; 255; 255; 255; 255; 255; 255; 255; 255; 255; 255; 255; 255; 255; 255; 255; 255; 255; 255; 255; 255; 159; 255; 255;
   254; 255; 255; 7; 255; 255; 255; 255; 255; 255; 255; 255; 255; 199; 1; 0; 255; 223; 3; 0; 255; 255; 3; 0;
   255; 255; 3; 0; 255; 223; 1; 0; 255; 255; 255; 255; 255; 255; 15; 0; 0; 0; 128; 16; 255; 3; 255; 3;
   0; 0; 255; 3; 255; 255; 255; 255; 255; 255; 255; 255; 255; 255; 255; 0; 255; 255; 255; 255; 255; 5; 255; 255;
   255; 255; 255; 255; 255; 255; 63; 0; 255; 255; 255; 31; 0; 0; 0; 0; 192; 255; 255; 255; 255; 63; 31; 0;
   255; 255; 255; 255; 255; 15; 0; 0; 254; 0; 255; 7; 0; 0; 0; 0; 255; 255; 127; 0; 255; 255; 255; 255;
   255; 255; 31; 0; 0; 0; 0; 0; 255; 3; 255; 3; 128; 0; 0; 0; 0; 0; 0; 0; 0; 0; 0; 0;
   224; 255; 255; 255; 255; 255; 15; 0; 224; 15; 255; 3; 0; 0; 0; 0; 248; 255; 255; 255; 1; 192; 255; 3;
   0; 0; 0; 0; 0; 0; 0; 0; 255; 255; 255; 255; 15; 0; 0; 0; 255; 227; 255; 255; 255; 255; 255; 63;
   0; 0; 0; 0; 0; 0; 0; 0; 0; 0; 0; 0; 0; 222; 3; 0; 255; 255; 255; 255; 255; 255; 255; 255;
   255; 255; 255; 255; 255; 255; 255; 255; 255; 255; 255; 255; 255; 255; 255; 255; 0; 0; 0; 0; 0; 0; 0; 0;
   255; 255; 255; 255; 255; 255; 255; 255; 255; 255; 255; 255; 255; 255; 255; 255; 255; 255; 255; 255; 255; 255; 255; 255;
   255; 255; 255; 255; 255; 255; 255; 255; 255; 255; 63; 63; 255; 255; 255; 255; 63; 63; 255; 170; 255; 255; 255; 63;
   255; 255; 255; 255; 255; 255; 223; 95; 220; 31; 207; 15; 255; 31; 220; 31; 0; 0; 0; 0; 0; 0; 0; 0;
   0; 0; 0; 0; 0; 0; 243; 131; 255; 3; 31; 0; 0; 0; 0; 0; 0; 0; 0; 0; 0; 0; 0; 0;
   132; 252; 47; 62; 80; 189; 255; 243; 224; 67; 255; 255; 255; 255; 255; 255; 255; 3; 0; 0; 0; 0; 0; 0;
   0; 0; 0; 0; 0; 0; 0; 0; 0; 0; 0; 0; 0; 0; 0; 0; 0; 0; 0; 0; 0; 0; 0; 0;
   0; 0; 0; 0; 0; 0; 0; 0; 0; 0; 0; 0; 0; 0; 0; 0; 0; 0; 0; 0; 0; 0; 0; 0;
   0; 0; 0; 0; 0; 0; 0; 0; 0; 0; 0; 0; 0; 0; 0; 0; 0; 0; 0; 0; 0; 0; 0; 0;
   0; 0; 0; 0; 0; 0; 0; 0; 0; 0; 0; 0; 255; 255; 255; 255; 255; 255; 255; 15; 0; 0; 0; 0;
   0; 0; 0; 0; 0; 252; 255; 255; 0; 0; 0; 0; 0; 0; 0; 0; 0; 0; 0; 0; 0; 0; 0; 0;
   0; 0; 0; 0; 0; 0; 0; 0; 0; 0; 0; 0; 0; 0; 0; 0; 0; 0; 0; 0; 0; 0; 0; 0;
   0; 0; 0; 0; 0; 0; 0; 0; 0; 0; 0; 0; 0; 0; 0; 0; 0; 0; 0; 0; 0; 0; 0; 0;
   0; 0; 0; 0; 0; 0; 0; 0; 0; 0; 0; 0; 0; 0; 192; 255; 255; 255; 15; 0; 0; 0; 0; 0;
   0; 0; 0; 0; 0; 0; 0; 0; 0; 0; 0; 0; 0; 0; 0; 0; 0; 0; 0; 0; 0; 0; 0; 0;
   0; 0; 0; 0; 0; 0; 0; 0; 0; 0; 0; 0; 0; 0; 0; 0; 0; 0; 0; 0; 0; 0; 0; 0;
   0; 0; 0; 0; 0; 0; 0; 0; 0; 0; 0; 0; 0; 0; 0; 0; 0; 0; 0; 0; 0; 0; 0; 0;
   0; 0; 0; 0; 0; 0; 0; 0; 0; 0; 0; 0; 0; 0; 0; 0; 0; 0; 0; 0; 0; 0; 0; 0;
   0; 0; 0; 0; 0; 0; 0; 0; 0; 0; 0; 0; 0; 0; 0; 0; 0; 0; 0; 0; 0; 0; 0; 0;
   0; 0; 0; 0; 0; 0; 0; 0; 0; 0; 0; 0; 0; 0; 0; 0; 255; 255; 255; 255; 255; 127; 255; 255;
   255; 255; 255; 127; 255; 255; 255; 255; 255; 255; 255; 255; 255; 255; 255; 255; 255; 255; 255; 255; 31; 120; 0; 32;
   255; 255; 255; 255; 63; 0; 255; 255; 255; 255; 255; 255; 63; 128; 0; 0; 255; 255; 127; 0; 127; 127; 127; 127;
   127; 127; 127; 127; 0; 0; 0; 0; 0; 0; 0; 0; 0; 128; 0; 0; 0; 0; 0; 0; 0; 0; 0; 0;
   0; 0; 0; 0; 0; 0; 0; 0; 0; 0; 0; 0; 0; 0; 0; 0; 0; 0; 0; 0; 0; 0; 0; 0;
   0; 0; 0; 0; 0; 0; 0; 0; 0; 0; 0; 0; 0; 0; 0; 0; 0; 0; 0; 0; 0; 0; 0; 0;
   224; 0; 0; 0; 254; 3; 62; 31; 254; 255; 255; 255; 255; 255; 255; 255; 255; 255; 127; 224; 254; 255; 255; 255;
   255; 255; 255; 255; 255; 255; 255; 247; 224; 255; 255; 255; 255; 63; 254; 255; 255; 255; 255; 255; 255; 255; 255; 255;
   255; 127; 60; 0; 255; 255; 255; 0; 0; 0; 0; 0; 0; 0; 255; 255; 0; 0; 0; 0; 255; 3; 0; 0;
   0; 0; 254; 255; 0; 0; 0; 0; 255; 3; 0; 0; 0; 0; 254; 255; 0; 0; 0; 0; 0; 0; 0; 0;
   0; 0; 0; 0; 0; 0; 0; 0; 0; 0; 0; 0; 0; 0; 0; 0; 0; 0; 0; 0; 0; 0; 0; 0;
   0; 0; 0; 0; 0; 0; 0; 0; 255; 255; 255; 255; 255; 255; 255; 255; 255; 255; 255; 255; 255; 255; 255; 255;
   255; 255; 255; 255; 255; 255; 255; 255; 255; 255; 255; 255; 255; 255; 255; 255; 255; 255; 255; 255; 255; 255; 255; 255;
   255; 255; 255; 255; 255; 255; 255; 255; 255; 255; 255; 255; 255; 255; 255; 255; 255; 255; 255; 255; 255; 255; 255; 255;
   255; 255; 255; 255; 255; 255; 255; 255; 255; 255; 255; 255; 255; 255; 255; 255; 255; 255; 255; 255; 255; 255; 255; 255;
   255; 255; 255; 255; 255; 255; 255; 255; 255; 255; 255; 255; 255; 255; 255; 255; 255; 255; 255; 255; 255; 255; 255; 255;
   255; 255; 255; 255; 255; 255; 255; 255; 255; 255; 255; 255; 255; 255; 255; 255; 255; 255; 255; 255; 255; 255; 255; 255;
   255; 255; 255; 255; 255; 255; 255; 255; 255; 255; 255; 255; 255; 255; 255; 255; 255; 255; 255; 255; 255; 255; 255; 255;
   255; 255; 255; 255; 255; 255; 255; 255; 255; 255; 255; 255; 255; 255; 255; 255; 255; 255; 255; 255; 255; 255; 255; 255;
   255; 255; 255; 255; 255; 255; 255; 255; 255; 255; 255; 255; 255; 255; 255; 255; 255; 255; 255; 255; 255; 255; 255; 255;
   255; 255; 255; 255; 255; 255; 255; 255; 255; 255; 255; 255; 255; 255; 255; 255; 255; 255; 255; 255; 255; 255; 255; 255;
   255; 255; 255; 255; 255; 255; 255; 255; 255; 255; 255; 255; 255; 255; 255; 255; 255; 255; 255; 255; 255; 255; 255; 255;
   255; 255; 255; 255; 255; 255; 255; 255; 255; 255; 255; 255; 255; 255; 255; 255; 255; 255; 255; 255; 255; 255; 255; 255;
   255; 255; 255; 255; 255; 255; 255; 255; 255; 255; 255; 255; 255; 255; 255; 255; 255; 255; 255; 255; 255; 255; 255; 255;
   255; 255; 255; 255; 255; 255; 255; 255; 255; 255; 255; 255; 255; 255; 255; 255; 255; 255; 255; 255; 255; 255; 255; 255;
   255; 255; 255; 255; 255; 255; 255; 255; 255; 255; 255; 255; 255; 255; 255; 255; 255; 255; 255; 255; 255; 255; 255; 255;
   255; 255; 255; 255; 255; 255; 255; 255; 255; 255; 255; 255; 255; 255; 255; 255; 255; 255; 255; 255; 255; 255; 255; 255;
   255; 255; 255; 255; 255; 255; 255; 255; 255; 255; 255; 255; 255; 255; 255; 255; 255; 255; 255; 255; 255; 255; 255; 255;
   255; 255; 255; 255; 255; 255; 255; 255; 255; 255; 255; 255; 255; 255; 255; 255; 255; 255; 255; 255; 255; 255; 255; 255;
   255; 255; 255; 255; 255; 255; 255; 255; 255; 255; 255; 255; 255; 255; 255; 255; 255; 255; 255; 255; 255; 255; 255; 255;
   255; 255; 255; 255; 255; 255; 255; 255; 255; 255; 255; 255; 255; 255; 255; 255; 255; 255; 255; 255; 255; 255; 255; 255;
   255; 255; 255; 255; 255; 255; 255; 255; 255; 255; 255; 255; 255; 255; 255; 255; 255; 255; 255; 255; 255; 255; 255; 255;
   255; 255; 255; 255; 255; 255; 255; 255; 255; 255; 255; 255; 255; 255; 255; 255; 255; 255; 255; 255; 255; 255; 255; 255;
   255; 255; 255; 255; 255; 255; 255; 255; 255; 255; 255; 255; 255; 255; 255; 255; 255; 255; 255; 255; 255; 255; 255; 255;
   255; 255; 255; 255; 255; 255; 255; 255; 255; 255; 255; 255; 255; 255; 255; 255; 255; 255; 255; 255; 255; 255; 255; 255;
   255; 255; 255; 255; 255; 255; 255; 255; 255; 255; 255; 255; 255; 255; 255; 255; 255; 255; 255; 255; 255; 255; 255; 255;
   255; 255; 255; 255; 255; 255; 255; 255; 255; 255; 255; 255; 255; 255; 255; 255; 255; 255; 255; 255; 255; 255; 255; 255;
   255; 255; 255; 255; 255; 255; 255; 255; 255; 255; 255; 255; 255; 255; 255; 255; 255; 255; 255; 255; 255; 255; 255; 255;
   255; 255; 255; 255; 255; 255; 255; 255; 255; 255; 255; 255; 255; 255; 255; 255; 255; 255; 255; 255; 255; 255; 255; 255;
   255; 255; 255; 255; 255; 255; 255; 255; 255; 255; 255; 255; 255; 255; 255; 255; 255; 255; 255; 255; 255; 255; 255; 255;
   255; 255; 255; 255; 255; 255; 255; 255; 255; 255; 255; 255; 255; 255; 255; 255; 255; 255; 255; 255; 255; 255; 255; 255;
   255; 255; 255; 255; 255; 255; 255; 255; 255; 255; 255; 255; 255; 255; 255; 255; 255; 255; 255; 255; 255; 255; 255; 255;
   255; 255; 255; 255; 255; 255; 255; 255; 255; 255; 255; 255; 255; 255; 255; 255; 255; 255; 255; 255; 255; 255; 255; 255;
   255; 255; 255; 255; 255; 255; 255; 255; 255; 255; 255; 255; 255; 255; 255; 255; 255; 255; 255; 255; 255; 255; 255; 255;
   255; 255; 255; 255; 255; 255; 255; 255; 255; 255; 255; 255; 255; 255; 255; 255; 255; 255; 255; 255; 255; 255; 255; 255;
   255; 255; 255; 255; 255; 255; 255; 255; 255; 255; 255; 255; 255; 255; 63; 0; 0; 0; 0; 0; 0; 0; 0; 0;
   255; 255; 255; 255; 255; 255; 255; 255; 255; 255; 255; 255; 255; 255; 255; 255; 255; 255; 255; 255; 255; 255; 255; 255;
   255; 255; 255; 255; 255; 255; 255; 255; 255; 255; 255; 255; 255; 255; 255; 255; 255; 255; 255; 255; 255; 255; 255; 255;
   255; 255; 255; 255; 255; 255; 255; 255; 255; 255; 255; 255; 255; 255; 255; 255; 255; 255; 255; 255; 255; 255; 255; 255;
   255; 255; 255; 255; 255; 255; 255; 255; 255; 255; 255; 255; 255; 255; 255; 255; 255; 255; 255; 255; 255; 255; 255; 255;
   255; 255; 255; 255; 255; 255; 255; 255; 255; 255; 255; 255; 255; 255; 255; 255; 255; 255; 255; 255; 255; 255; 255; 255;
   255; 255; 255; 255; 255; 255; 255; 255; 255; 255; 255; 255; 255; 255; 255; 255; 255; 255; 255; 255; 255; 255; 255; 255;
   255; 255; 255; 255; 255; 255; 255; 255; 255; 255; 255; 255; 255; 255; 255; 255; 255; 255; 255; 255; 255; 255; 255; 255;
   255; 255; 255; 255; 255; 255; 255; 255; 255; 255; 255; 255; 255; 255; 255; 255; 255; 255; 255; 255; 255; 255; 255; 255;
   255; 255; 255; 255; 255; 255; 255; 255; 255; 255; 255; 255; 255; 255; 255; 255; 255; 255; 255; 255; 255; 255; 255; 255;
   255; 255; 255; 255; 255; 255; 255; 255; 255; 255; 255; 255; 255; 255; 255; 255; 255; 255; 255; 255; 255; 255; 255; 255;
   255; 255; 255; 255; 255; 255; 255; 255; 255; 255; 255; 255; 255; 255; 255; 255; 255; 255; 255; 255; 255; 255; 255; 255;
   255; 255; 255; 255; 255; 255; 255; 255; 255; 255; 255; 255; 255; 255; 255; 255; 255; 255; 255; 255; 255; 255; 255; 255;
   255; 255; 255; 255; 255; 255; 255; 255; 255; 255; 255; 255; 255; 255; 255; 255; 255; 255; 255; 255; 255; 255; 255; 255;
   255; 255; 255; 255; 255; 255; 255; 255; 255; 255; 255; 255; 255; 255; 255; 255; 255; 255; 255; 255; 255; 255; 255; 255;
   255; 255; 255; 255; 255; 255; 255; 255; 255; 255; 255; 255; 255; 255; 255; 255; 255; 255; 255; 255; 255; 255; 255; 255;
   255; 255; 255; 255; 255; 255; 255; 255; 255; 255; 255; 255; 255; 255; 255; 255; 255; 255; 255; 255; 255; 255; 255; 255;
   255; 255; 255; 255; 255; 255; 255; 255; 255; 255; 255; 255; 255; 255; 255; 255; 255; 255; 255; 255; 255; 255; 255; 255;
   255; 255; 255; 255; 255; 255; 255; 255; 255; 255; 255; 255; 255; 255; 255; 255; 255; 255; 255; 255; 255; 255; 255; 255;
   255; 255; 255; 255; 255; 255; 255; 255; 255; 255; 255; 255; 255; 255; 255; 255; 255; 255; 255; 255; 255; 255; 255; 255;
   255; 255; 255; 255; 255; 255; 255; 255; 255; 255; 255; 255; 255; 255; 255; 255; 255; 255; 255; 255; 255; 255; 255; 255;
   255; 255; 255; 255; 255; 255; 255; 255; 255; 255; 255; 255; 255; 255; 255; 255; 255; 255; 255; 255; 255; 255; 255; 255;
   255; 255; 255; 255; 255; 255; 255; 255; 255; 255; 255; 255; 255; 255; 255; 255; 255; 255; 255; 255; 255; 255; 255; 255;
   255; 255; 255; 255; 255; 255; 255; 255; 255; 255; 255; 255; 255; 255; 255; 255; 255; 255; 255; 255; 255; 255; 255; 255;
   255; 255; 255; 255; 255; 255; 255; 255; 255; 255; 255; 255; 255; 255; 255; 255; 255; 255; 255; 255; 255; 255; 255; 255;
   255; 255; 255; 255; 255; 255; 255; 255; 255; 255; 255; 255; 255; 255; 255; 255; 255; 255; 255; 255; 255; 255; 255; 255;
   255; 255; 255; 255; 255; 255; 255; 255; 255; 255; 255; 255; 255; 255; 255; 255; 255; 255; 255; 255; 255; 255; 255; 255;
   255; 255; 255; 255; 255; 255; 255; 255; 255; 255; 255; 255; 255; 255; 255; 255; 255; 255; 255; 255; 255; 255; 255; 255;
   255; 255; 255; 255; 255; 255; 255; 255; 255; 255; 255; 255; 255; 255; 255; 255; 255; 255; 255; 255; 255; 255; 255; 255;
   255; 255; 255; 255; 255; 255; 255; 255; 255; 255; 255; 255; 255; 255; 255; 255; 255; 255; 255; 255; 255; 255; 255; 255;
   255; 255; 255; 255; 255; 255; 255; 255; 255; 255; 255; 255; 255; 255; 255; 255; 255; 255; 255; 255; 255; 255; 255; 255;
   255; 255; 255; 255; 255; 255; 255; 255; 255; 255; 255; 255; 255; 255; 255; 255; 255; 255; 255; 255; 255; 255; 255; 255;
   255; 255; 255; 255; 255; 255; 255; 255; 255; 255; 255; 255; 255; 255; 255; 255; 255; 255; 255; 255; 255; 255; 255; 255;
   255; 255; 255; 255; 255; 255; 255; 255; 255; 255; 255; 255; 255; 255; 255; 255; 255; 255; 255; 255; 255; 255; 255; 255;
   255; 255; 255; 255; 255; 255; 255; 255; 255; 255; 255; 255; 255; 255; 255; 255; 255; 255; 255; 255; 255; 255; 255; 255;
   255; 255; 255; 255; 255; 255; 255; 255; 255; 255; 255; 255; 255; 255; 255; 255; 255; 255; 255; 255; 255; 255; 255; 255;
   255; 255; 255; 255; 255; 255; 255; 255; 255; 255; 255; 255; 255; 255; 255; 255; 255; 255; 255; 255; 255; 255; 255; 255;
   255; 255; 255; 255; 255; 255; 255; 255; 255; 255; 255; 255; 255; 255; 255; 255; 255; 255; 255; 255; 255; 255; 255; 255;
   255; 255; 255; 255; 255; 255; 255; 255; 255; 255; 255; 255; 255; 255; 255; 255; 255; 255; 255; 255; 255; 255; 255; 255;
   255; 255; 255; 255; 255; 255; 255; 255; 255; 255; 255; 255; 255; 255; 255; 255; 255; 255; 255; 255; 255; 255; 255; 255;
   255; 255; 255; 255; 255; 255; 255; 255; 255; 255; 255; 255; 255; 255; 255; 255; 255; 255; 255; 255; 255; 255; 255; 255;
   255; 255; 255; 255; 255; 255; 255; 255; 255; 255; 255; 255; 255; 255; 255; 255; 255; 255; 255; 255; 255; 255; 255; 255;
   255; 255; 255; 255; 255; 255; 255; 255; 255; 255; 255; 255; 255; 255; 255; 255; 255; 255; 255; 255; 255; 255; 255; 255;
   255; 255; 255; 255; 255; 255; 255; 255; 255; 255; 255; 255; 255; 255; 255; 255; 255; 255; 255; 255; 255; 255; 255; 255;
   255; 255; 255; 255; 255; 255; 255; 255; 255; 255; 255; 255; 255; 255; 255; 255; 255; 255; 255; 255; 255; 255; 255; 255;
   255; 255; 255; 255; 255; 255; 255; 255; 255; 255; 255; 255; 255; 255; 255; 255; 255; 255; 255; 255; 255; 255; 255; 255;
   255; 255; 255; 255; 255; 255; 255; 255; 255; 255; 255; 255; 255; 255; 255; 255; 255; 255; 255; 255; 255; 255; 255; 255;
   255; 255; 255; 255; 255; 255; 255; 255; 255; 255; 255; 255; 255; 255; 255; 255; 255; 255; 255; 255; 255; 255; 255; 255;
   255; 255; 255; 255; 255; 255; 255; 255; 255; 255; 255; 255; 255; 255; 255; 255; 255; 255; 255; 255; 255; 255; 255; 255;
   255; 255; 255; 255; 255; 255; 255; 255; 255; 255; 255; 255; 255; 255; 255; 255; 255; 255; 255; 255; 255; 255; 255; 255;
   255; 255; 255; 255; 255; 255; 255; 255; 255; 255; 255; 255; 255; 255; 255; 255; 255; 255; 255; 255; 255; 255; 255; 255;
   255; 255; 255; 255; 255; 255; 255; 255; 255; 255; 255; 255; 255; 255; 255; 255; 255; 255; 255; 255; 255; 255; 255; 255;
   255; 255; 255; 255; 255; 255; 255; 255; 255; 255; 255; 255; 255; 255; 255; 255; 255; 255; 255; 255; 255; 255; 255; 255;
   255; 255; 255; 255; 255; 255; 255; 255; 255; 255; 255; 255; 255; 255; 255; 255; 255; 255; 255; 255; 255; 255; 255; 255;
   255; 255; 255; 255; 255; 255; 255; 255; 255; 255; 255; 255; 255; 255; 255; 255; 255; 255; 255; 255; 255; 255; 255; 255;
   255; 255; 255; 255; 255; 255; 255; 255; 255; 255; 255; 255; 255; 255; 255; 255; 255; 255; 255; 255; 255; 255; 255; 255;
   255; 255; 255; 255; 255; 255; 255; 255; 255; 255; 255; 255; 255; 255; 255; 255; 255; 255; 255; 255; 255; 255; 255; 255;
   255; 255; 255; 255; 255; 255; 255; 255; 255; 255; 255; 255; 255; 255; 255; 255; 255; 255; 255; 255; 255; 255; 255; 255;
   255; 255; 255; 255; 255; 255; 255; 255; 255; 255; 255; 255; 255; 255; 255; 255; 255; 255; 255; 255; 255; 255; 255; 255;
   255; 255; 255; 255; 255; 255; 255; 255; 255; 255; 255; 255; 255; 255; 255; 255; 255; 255; 255; 255; 255; 255; 255; 255;
   255; 255; 255; 255; 255; 255; 255; 255; 255; 255; 255; 255; 255; 255; 255; 255; 255; 255; 255; 255; 255; 255; 255; 255;
   255; 255; 255; 255; 255; 255; 255; 255; 255; 255; 255; 255; 255; 255; 255; 255; 255; 255; 255; 255; 255; 255; 255; 255;
   255; 255; 255; 255; 255; 255; 255; 255; 255; 255; 255; 255; 255; 255; 255; 255; 255; 255; 255; 255; 255; 255; 255; 255;
   255; 255; 255; 255; 255; 255; 255; 255; 255; 255; 255; 255; 255; 255; 255; 255; 255; 255; 255; 255; 255; 255; 255; 255;
   255; 255; 255; 255; 255; 255; 255; 255; 255; 255; 255; 255; 255; 255; 255; 255; 255; 255; 255; 255; 255; 255; 255; 255;
   255; 255; 255; 255; 255; 255; 255; 255; 255; 255; 255; 255; 255; 255; 255; 255; 255; 255; 255; 255; 255; 255; 255; 255;
   255; 255; 255; 255; 255; 255; 255; 255; 255; 255; 255; 255; 255; 255; 255; 255; 255; 255; 255; 255; 255; 255; 255; 255;
   255; 255; 255; 255; 255; 255; 255; 255; 255; 255; 255; 255; 255; 255; 255; 255; 255; 255; 255; 255; 255; 255; 255; 255;
   255; 255; 255; 255; 255; 255; 255; 255; 255; 255; 255; 255; 255; 255; 255; 255; 255; 255; 255; 255; 255; 255; 255; 255;
   255; 255; 255; 255; 255; 255; 255; 255; 255; 255; 255; 255; 255; 255; 255; 255; 255; 255; 255; 255; 255; 255; 255; 255;
   255; 255; 255; 255; 255; 255; 255; 255; 255; 255; 255; 255; 255; 255; 255; 255; 255; 255; 255; 255; 255; 255; 255; 255;
   255; 255; 255; 255; 255; 255; 255; 255; 255; 255; 255; 255; 255; 255; 255; 255; 255; 255; 255; 255; 255; 255; 255; 255;
   255; 255; 255; 255; 255; 255; 255; 255; 255; 255; 255; 255; 255; 255; 255; 255; 255; 255; 255; 255; 255; 255; 255; 255;
   255; 255; 255; 255; 255; 255; 255; 255; 255; 255; 255; 255; 255; 255; 255; 255; 255; 255; 255; 255; 255; 255; 255; 255;
   255; 255; 255; 255; 255; 255; 255; 255; 255; 255; 255; 255; 255; 255; 255; 255; 255; 255; 255; 255; 255; 255; 255; 255;
   255; 255; 255; 255; 255; 255; 255; 255; 255; 255; 255; 255; 255; 255; 255; 255; 255; 255; 255; 255; 255; 255; 255; 255;
   255; 255; 255; 255; 255; 255; 255; 255; 255; 255; 255; 255; 255; 255; 255; 255; 255; 255; 255; 255; 255; 255; 255; 255;
   255; 255; 255; 255; 255; 255; 255; 255; 255; 255; 255; 255; 255; 255; 255; 255; 255; 255; 255; 255; 255; 255; 255; 255;
   255; 255; 255; 255; 255; 255; 255; 255; 255; 255; 255; 255; 255; 255; 255; 255; 255; 255; 255; 255; 255; 255; 255; 255;
   255; 255; 255; 255; 255; 255; 255; 255; 255; 255; 255; 255; 255; 255; 255; 255; 255; 255; 255; 255; 255; 255; 255; 255;
   255; 255; 255; 255; 255; 255; 255; 255; 255; 255; 255; 255; 255; 255; 255; 255; 255; 255; 255; 255; 255; 255; 255; 255;
   255; 255; 255; 255; 255; 255; 255; 255; 255; 255; 255; 255; 255; 255; 255; 255; 255; 255; 255; 255; 255; 255; 255; 255;
   255; 255; 255; 255; 255; 255; 255; 255; 255; 255; 255; 255; 255; 255; 255; 255; 255; 255; 255; 255; 255; 255; 255; 255;
   255; 255; 255; 255; 255; 255; 255; 255; 255; 255; 255; 255; 255; 255; 255; 255; 255; 255; 255; 255; 255; 255; 255; 255;
   255; 255; 255; 255; 255; 255; 255; 255; 255; 255; 255; 255; 255; 255; 255; 255; 255; 255; 255; 255; 255; 255; 255; 255;
   255; 255; 255; 255; 255; 255; 255; 255; 255; 255; 255; 255; 255; 255; 255; 255; 255; 255; 255; 255; 255; 255; 255; 255;
   255; 255; 255; 255; 255; 255; 255; 255; 255; 255; 255; 255; 255; 255; 255; 255; 255; 255; 255; 255; 255; 255; 255; 255;
   255; 255; 255; 255; 255; 255; 255; 255; 255; 255; 255; 255; 255; 255; 255; 255; 255; 255; 255; 255; 255; 255; 255; 255;
   255; 255; 255; 255; 255; 255; 255; 255; 255; 255; 255; 255; 255; 255; 255; 255; 255; 255; 255; 255; 255; 255; 255; 255;
   255; 255; 255; 255; 255; 255; 255; 255; 255; 255; 255; 255; 255; 255; 255; 255; 255; 255; 255; 255; 255; 255; 255; 255;
   255; 255; 255; 255; 255; 255; 255; 255; 255; 255; 255; 255; 255; 255; 255; 255; 255; 255; 255; 255; 255; 255; 255; 255;
   255; 255; 255; 255; 255; 255; 255; 255; 255; 255; 255; 255; 255; 255; 255; 255; 255; 255; 255; 255; 255; 255; 255; 255;
   255; 255; 255; 255; 255; 255; 255; 255; 255; 255; 255; 255; 255; 255; 255; 255; 255; 255; 255; 255; 255; 255; 255; 255;
   255; 255; 255; 255; 255; 255; 255; 255; 255; 255; 255; 255; 255; 255; 255; 255; 255; 255; 255; 255; 255; 255; 255; 255;
   255; 255; 255; 255; 255; 255; 255; 255; 255; 255; 255; 255; 255; 255; 255; 255; 255; 255; 255; 255; 255; 255; 255; 255;
   255; 255; 255; 255; 255; 255; 255; 255; 255; 255; 255; 255; 255; 255; 255; 255; 255; 255; 255; 255; 255; 255; 255; 255;
   255; 255; 255; 255; 255; 255; 255; 255; 255; 255; 255; 255; 255; 255; 255; 255; 255; 255; 255; 255; 255; 255; 255; 255;
   255; 255; 255; 255; 255; 255; 255; 255; 255; 255; 255; 255; 255; 255; 255; 255; 255; 255; 255; 255; 255; 255; 255; 255;
   255; 255; 255; 255; 255; 255; 255; 255; 255; 255; 255; 255; 255; 255; 255; 255; 255; 255; 255; 255; 255; 255; 255; 255;
   255; 255; 255; 255; 255; 255; 255; 255; 255; 255; 255; 255; 255; 255; 255; 255; 255; 255; 255; 255; 255; 255; 255; 255;
   255; 255; 255; 255; 255; 255; 255; 255; 255; 255; 255; 255; 255; 255; 255; 255; 255; 255; 255; 255; 255; 255; 255; 255;
   255; 255; 255; 255; 255; 255; 255; 255; 255; 255; 255; 255; 255; 255; 255; 255; 255; 255; 255; 255; 255; 255; 255; 255;
   255; 255; 255; 255; 255; 255; 255; 255; 255; 255; 255; 255; 255; 255; 255; 255; 255; 255; 255; 255; 255; 255; 255; 255;
   255; 255; 255; 255; 255; 255; 255; 255; 255; 255; 255; 255; 255; 255; 255; 255; 255; 255; 255; 255; 255; 255; 255; 255;
   255; 255; 255; 255; 255; 255; 255; 255; 255; 255; 255; 255; 255; 255; 255; 255; 255; 255; 255; 255; 255; 255; 255; 255;
   255; 255; 255; 255; 255; 255; 255; 255; 255; 255; 255; 255; 255; 255; 255; 255; 255; 255; 255; 255; 255; 255; 255; 255;
   255; 255; 255; 255; 255; 255; 255; 255; 255; 255; 255; 255; 255; 255; 255; 255; 255; 255; 255; 255; 255; 255; 255; 255;
   255; 255; 255; 255; 255; 255; 255; 255; 255; 255; 255; 255; 255; 255; 255; 255; 255; 255; 255; 255; 255; 255; 255; 255;
   255; 255; 255; 255; 255; 255; 255; 255; 255; 255; 255; 255; 255; 255; 255; 255; 255; 255; 255; 255; 255; 255; 255; 255;
   255; 255; 255; 255; 255; 255; 255; 255; 255; 255; 255; 255; 255; 255; 255; 255; 255; 255; 255; 255; 255; 255; 255; 255;
   255; 15; 0; 0; 0; 0; 0; 0; 255; 255; 255; 255; 255; 255; 255; 255; 255; 255; 255; 255; 255; 255; 255; 255;
   255; 255; 255; 255; 255; 255; 255; 255; 255; 255; 255; 255; 255; 255; 255; 255; 255; 255; 255; 255; 255; 255; 255; 255;
   255; 255; 255; 255; 255; 255; 255; 255; 255; 255; 255; 255; 255; 255; 255; 255; 255; 255; 255; 255; 255; 255; 255; 255;
   255; 255; 255; 255; 255; 255; 255; 255; 255; 255; 255; 255; 255; 255; 255; 255; 255; 255; 255; 255; 255; 255; 255; 255;
   255; 255; 255; 255; 255; 255; 255; 255; 255; 255; 255; 255; 255; 255; 255; 255; 255; 255; 255; 255; 255; 255; 255; 255;
   255; 255; 255; 255; 255; 255; 255; 255; 255; 255; 255; 255; 255; 255; 255; 255; 255; 255; 255; 255; 255; 255; 255; 255;
   255; 255; 255; 255; 255; 255; 255; 255; 255; 31; 0; 0; 0; 0; 0; 0; 0; 0; 255; 255; 255; 255; 255; 63;
   255; 255; 255; 255; 255; 255; 255; 255; 255; 255; 255; 255; 255; 255; 255; 255; 255; 255; 255; 255; 255; 255; 255; 255;
   255; 255; 255; 255; 255; 255; 255; 255; 255; 31; 255; 255; 255; 15; 0; 0; 255; 255; 255; 255; 252; 127; 0; 128;
   255; 255; 255; 0; 255; 255; 255; 255; 255; 255; 255; 255; 255; 255; 0; 0; 0; 0; 128; 255; 252; 255; 255; 255;
   255; 255; 255; 255; 255; 255; 255; 255; 255; 25; 0; 0; 0; 0; 0; 0; 0; 0; 0; 0; 0; 0; 0; 248;
   187; 247; 255; 255; 7; 0; 63; 0; 255; 255; 255; 255; 255; 255; 15; 0; 252; 255; 255; 255; 255; 255; 15; 0;
   0; 0; 255; 3; 0; 0; 252; 8; 255; 255; 255; 255; 63; 0; 255; 255; 127; 0; 0; 0; 255; 255; 255; 31;
   240; 255; 255; 255; 255; 255; 7; 0; 0; 128; 255; 3; 0; 0; 0; 0; 255; 255; 255; 255; 255; 1; 0; 0;
   247; 15; 255; 3; 255; 255; 127; 4; 255; 255; 255; 255; 255; 255; 98; 62; 5; 0; 0; 56; 0; 0; 0; 0;
   0; 0; 0; 0; 0; 0; 0; 0; 0; 0; 0; 0; 0; 0; 0; 0; 0; 0; 0; 0; 0; 0; 0; 0;
   255; 255; 255; 255; 7; 0; 255; 3; 255; 255; 255; 255; 255; 255; 255; 255; 255; 255; 255; 255; 255; 255; 255; 255;
   255; 255; 255; 255; 255; 255; 255; 255; 255; 255; 255; 255; 255; 255; 255; 255; 255; 255; 255; 255; 255; 255; 255; 255;
   255; 255; 255; 255; 255; 255; 255; 255; 255; 255; 255; 255; 255; 255; 255; 255; 255; 255; 255; 255; 255; 255; 255; 255;
   255; 255; 255; 255; 255; 255; 255; 255; 255; 255; 255; 255; 255; 255; 255; 255; 255; 255; 255; 255; 255; 255; 255; 255;
   255; 255; 255; 255; 255; 255; 255; 255; 255; 255; 255; 255; 255; 255; 255; 255; 255; 255; 255; 255; 255; 255; 255; 255;
   255; 255; 255; 255; 255; 255; 255; 255; 255; 255; 255; 255; 255; 255; 255; 255; 255; 255; 255; 255; 255; 255; 255; 255;
   255; 255; 255; 255; 255; 255; 255; 255; 255; 255; 255; 255; 255; 255; 255; 255; 255; 255; 255; 255; 255; 255; 255; 255;
   255; 255; 255; 255; 255; 255; 255; 255; 255; 255; 255; 255; 255; 255; 255; 255; 255; 255; 255; 255; 255; 255; 255; 255;
   255; 255; 255; 255; 255; 255; 255; 255; 255; 255; 255; 255; 255; 255; 255; 255; 255; 255; 255; 255; 255; 255; 255; 255;
   255; 255; 255; 255; 255; 255; 255; 255; 255; 255; 255; 255; 255; 255; 255; 255; 255; 255; 255; 255; 255; 255; 255; 255;
   255; 255; 255; 255; 255; 255; 255; 255; 255; 255; 255; 255; 255; 255; 255; 255; 255; 255; 255; 255; 255; 255; 255; 255;
   255; 255; 255; 255; 255; 255; 255; 255; 255; 255; 255; 255; 255; 255; 255; 255; 255; 255; 255; 255; 255; 255; 255; 255;
   255; 255; 255; 255; 255; 255; 255; 255; 255; 255; 255; 255; 255; 255; 255; 255; 255; 255; 255; 255; 255; 255; 255; 255;
   255; 255; 255; 255; 255; 255; 255; 255; 255; 255; 255; 255; 255; 255; 255; 255; 255; 255; 255; 255; 255; 255; 255; 255;
   255; 255; 255; 255; 255; 255; 255; 255; 255; 255; 255; 255; 255; 255; 255; 255; 255; 255; 255; 255; 255; 255; 255; 255;
   255; 255; 255; 255; 255; 255; 255; 255; 255; 255; 255; 255; 255; 255; 255; 255; 255; 255; 255; 255; 255; 255; 255; 255;
   255; 255; 255; 255; 255; 255; 255; 255; 255; 255; 255; 255; 255; 255; 255; 255; 255; 255; 255; 255; 255; 255; 255; 255;
   255; 255; 255; 255; 255; 255; 255; 255; 255; 255; 255; 255; 255; 255; 255; 255; 255; 255; 255; 255; 255; 255; 255; 255;
   255; 255; 255; 255; 255; 255; 255; 255; 255; 255; 255; 255; 255; 255; 255; 255; 255; 255; 255; 255; 255; 255; 255; 255;
   255; 255; 255; 255; 255; 255; 255; 255; 255; 255; 255; 255; 255; 255; 255; 255; 255; 255; 255; 255; 255; 255; 255; 255;
   255; 255; 255; 255; 255; 255; 255; 255; 255; 255; 255; 255; 255; 255; 255; 255; 255; 255; 255; 255; 255; 255; 255; 255;
   255; 255; 255; 255; 255; 255; 255; 255; 255; 255; 255; 255; 255; 255; 255; 255; 255; 255; 255; 255; 255; 255; 255; 255;
   255; 255; 255; 255; 255; 255; 255; 255; 255; 255; 255; 255; 255; 255; 255; 255; 255; 255; 255; 255; 255; 255; 255; 255;
   255; 255; 255; 255; 255; 255; 255; 255; 255; 255; 255; 255; 255; 255; 255; 255; 255; 255; 255; 255; 255; 255; 255; 255;
   255; 255; 255; 255; 255; 255; 255; 255; 255; 255; 255; 255; 255; 255; 255; 255; 255; 255; 255; 255; 255; 255; 255; 255;
   255; 255; 255; 255; 255; 255; 255; 255; 255; 255; 255; 255; 255; 255; 255; 255; 255; 255; 255; 255; 255; 255; 255; 255;
   255; 255; 255; 255; 255; 255; 255; 255; 255; 255; 255; 255; 255; 255; 255; 255; 255; 255; 255; 255; 255; 255; 255; 255;
   255; 255; 255; 255; 255; 255; 255; 255; 255; 255; 255; 255; 255; 255; 255; 255; 255; 255; 255; 255; 255; 255; 255; 255;
   255; 255; 255; 255; 255; 255; 255; 255; 255; 255; 255; 255; 255; 255; 255; 255; 255; 255; 255; 255; 255; 255; 255; 255;
   255; 255; 255; 255; 255; 255; 255; 255; 255; 255; 255; 255; 255; 255; 255; 255; 255; 255; 255; 255; 255; 255; 255; 255;
   255; 255; 255; 255; 255; 255; 255; 255; 255; 255; 255; 255; 255; 255; 255; 255; 255; 255; 255; 255; 255; 255; 255; 255;
   255; 255; 255; 255; 255; 255; 255; 255; 255; 255; 255; 255; 255; 255; 255; 255; 255; 255; 255; 255; 255; 255; 255; 255;
   255; 255; 255; 255; 255; 255; 255; 255; 255; 255; 255; 255; 255; 255; 255; 255; 255; 255; 255; 255; 255; 255; 255; 255;
   255; 255; 255; 255; 255; 255; 255; 255; 255; 255; 255; 255; 255; 255; 255; 255; 255; 255; 255; 255; 255; 255; 255; 255;
   255; 255; 255; 255; 255; 255; 255; 255; 255; 255; 255; 255; 255; 255; 255; 255; 255; 255; 255; 255; 255; 255; 255; 255;
   255; 255; 255; 255; 255; 255; 255; 255; 255; 255; 255; 255; 255; 255; 255; 255; 255; 255; 255; 255; 255; 255; 255; 255;
   255; 255; 255; 255; 255; 255; 255; 255; 255; 255; 255; 255; 255; 255; 255; 255; 255; 255; 255; 255; 255; 255; 255; 255;
   255; 255; 255; 255; 255; 255; 255; 255; 255; 255; 255; 255; 255; 255; 255; 255; 255; 255; 255; 255; 255; 255; 255; 255;
   255; 255; 255; 255; 255; 255; 255; 255; 255; 255; 255; 255; 255; 255; 255; 255; 255; 255; 255; 255; 255; 255; 255; 255;
   255; 255; 255; 255; 255; 255; 255; 255; 255; 255; 255; 255; 255; 255; 255; 255; 255; 255; 255; 255; 255; 255; 255; 255;
   255; 255; 255; 255; 255; 255; 255; 255; 255; 255; 255; 255; 255; 255; 255; 255; 255; 255; 255; 255; 255; 255; 255; 255;
   255; 255; 255; 255; 255; 255; 255; 255; 255; 255; 255; 255; 255; 255; 255; 255; 255; 255; 255; 255; 255; 255; 255; 255;
   255; 255; 255; 255; 255; 255; 255; 255; 255; 255; 255; 255; 255; 255; 255; 255; 255; 255; 255; 255; 255; 255; 255; 255;
   255; 255; 255; 255; 255; 255; 255; 255; 255; 255; 255; 255; 255; 255; 255; 255; 255; 255; 255; 255; 255; 255; 255; 255;
   255; 255; 255; 255; 255; 255; 255; 255; 255; 255; 255; 255; 255; 255; 255; 255; 255; 255; 255; 255; 255; 255; 255; 255;
   255; 255; 255; 255; 255; 255; 255; 255; 255; 255; 255; 255; 255; 255; 255; 255; 255; 255; 255; 255; 255; 255; 255; 255;
   255; 255; 255; 255; 255; 255; 255; 255; 255; 255; 255; 255; 255; 255; 255; 255; 255; 255; 255; 255; 255; 255; 255; 255;
   255; 255; 255; 255; 255; 255; 255; 255; 255; 255; 255; 255; 255; 255; 255; 255; 255; 255; 255; 255; 255; 255; 255; 255;
   255; 255; 255; 255; 255; 255; 255; 255; 255; 255; 255; 255; 255; 255; 255; 255; 255; 255; 255; 255; 255; 255; 255; 255;
   255; 255; 255; 255; 255; 255; 255; 255; 255; 255; 255; 255; 255; 255; 255; 255; 255; 255; 255; 255; 255; 255; 255; 255;
   255; 255; 255; 255; 255; 255; 255; 255; 255; 255; 255; 255; 255; 255; 255; 255; 255; 255; 255; 255; 255; 255; 255; 255;
   255; 255; 255; 255; 255; 255; 255; 255; 255; 255; 255; 255; 255; 255; 255; 255; 255; 255; 255; 255; 255; 255; 255; 255;
   255; 255; 255; 255; 255; 255; 255; 255; 255; 255; 255; 255; 255; 255; 255; 255; 255; 255; 255; 255; 255; 255; 255; 255;
   255; 255; 255; 255; 255; 255; 255; 255; 255; 255; 255; 255; 255; 255; 255; 255; 255; 255; 255; 255; 255; 255; 255; 255;
   255; 255; 255; 255; 255; 255; 255; 255; 255; 255; 255; 255; 255; 255; 255; 255; 255; 255; 255; 255; 255; 255; 255; 255;
   255; 255; 255; 255; 255; 255; 255; 255; 255; 255; 255; 255; 255; 255; 255; 255; 255; 255; 255; 255; 255; 255; 255; 255;
   255; 255; 255; 255; 255; 255; 255; 255; 255; 255; 255; 255; 255; 255; 255; 255; 255; 255; 255; 255; 255; 255; 255; 255;
   255; 255; 255; 255; 255; 255; 255; 255; 255; 255; 255; 255; 255; 255; 255; 255; 255; 255; 255; 255; 255; 255; 255; 255;
   255; 255; 255; 255; 255; 255; 255; 255; 255; 255; 255; 255; 15; 0; 255; 255; 127; 248; 255; 255; 255; 255; 255; 15;
   0; 0; 0; 0; 0; 0; 0; 0; 0; 0; 0; 0; 0; 0; 0; 0; 0; 0; 0; 0; 0; 0; 0; 0;
   0; 0; 0; 0; 0; 0; 0; 0; 0; 0; 0; 0; 0; 0; 0; 0; 0; 0; 0; 0; 0; 0; 0; 0;
   0; 0; 0; 0; 0; 0; 0; 0; 0; 0; 0; 0; 0; 0; 0; 0; 0; 0; 0; 0; 0; 0; 0; 0;
   0; 0; 0; 0; 0; 0; 0; 0; 0; 0; 0; 0; 0; 0; 0; 0; 0; 0; 0; 0; 0; 0; 0; 0;
   0; 0; 0; 0; 0; 0; 0; 0; 0; 0; 0; 0; 0; 0; 0; 0; 0; 0; 0; 0; 0; 0; 0; 0;
   0; 0; 0; 0; 0; 0; 0; 0; 0; 0; 0; 0; 0; 0; 0; 0; 0; 0; 0; 0; 0; 0; 0; 0;
   0; 0; 0; 0; 0; 0; 0; 0; 0; 0; 0; 0; 0; 0; 0; 0; 0; 0; 0; 0; 0; 0; 0; 0;
   0; 0; 0; 0; 0; 0; 0; 0; 0; 0; 0; 0; 0; 0; 0; 0; 0; 0; 0; 0; 0; 0; 0; 0;
   0; 0; 0; 0; 0; 0; 0; 0; 0; 0; 0; 0; 0; 0; 0; 0; 0; 0; 0; 0; 0; 0; 0; 0;
   0; 0; 0; 0; 0; 0; 0; 0; 0; 0; 0; 0; 0; 0; 0; 0; 0; 0; 0; 0; 0; 0; 0; 0;
   0; 0; 0; 0; 0; 0; 0; 0; 0; 0; 0; 0; 0; 0; 0; 0; 0; 0; 0; 0; 0; 0; 0; 0;
   0; 0; 0; 0; 0; 0; 0; 0; 0; 0; 0; 0; 0; 0; 0; 0; 0; 0; 0; 0; 0; 0; 0; 0;
   0; 0; 0; 0; 0; 0; 0; 0; 0; 0; 0; 0; 0; 0; 0; 0; 0; 0; 0; 0; 0; 0; 0; 0;
   0; 0; 0; 0; 0; 0; 0; 0; 0; 0; 0; 0; 0; 0; 0; 0; 0; 0; 0; 0; 0; 0; 0; 0;
   0; 0; 0; 0; 0; 0; 0; 0; 0; 0; 0; 0; 0; 0; 0; 0; 0; 0; 0; 0; 0; 0; 0; 0;
   0; 0; 0; 0; 0; 0; 0; 0; 0; 0; 0; 0; 0; 0; 0; 0; 0; 0; 0; 0; 0; 0; 0; 0;
   0; 0; 0; 0; 0; 0; 0; 0; 0; 0; 0; 0; 0; 0; 0; 0; 0; 0; 0; 0; 0; 0; 0; 0;
   0; 0; 0; 0; 0; 0; 0; 0; 0; 0; 0; 0; 0; 0; 0; 0; 0; 0; 0; 0; 0; 0; 0; 0;
   0; 0; 0; 0; 0; 0; 0; 0; 0; 0; 0; 0; 0; 0; 0; 0; 0; 0; 0; 0; 0; 0; 0; 0;
   0; 0; 0; 0; 0; 0; 0; 0; 0; 0; 0; 0; 0; 0; 0; 0; 0; 0; 0; 0; 0; 0; 0; 0;
   0; 0; 0; 0; 0; 0; 0; 0; 0; 0; 0; 0; 0; 0; 0; 0; 0; 0; 0; 0; 0; 0; 0; 0;
   0; 0; 0; 0; 0; 0; 0; 0; 0; 0; 0; 0; 0; 0; 0; 0; 0; 0; 0; 0; 0; 0; 0; 0;
   0; 0; 0; 0; 0; 0; 0; 0; 0; 0; 0; 0; 0; 0; 0; 0; 0; 0; 0; 0; 0; 0; 0; 0;
   0; 0; 0; 0; 0; 0; 0; 0; 0; 0; 0; 0; 0; 0; 0; 0; 0; 0; 0; 0; 0; 0; 0; 0;
   0; 0; 0; 0; 0; 0; 0; 0; 0; 0; 0; 0; 0; 0; 0; 0; 0; 0; 0; 0; 0; 0; 0; 0;
   0; 0; 0; 0; 0; 0; 0; 0; 0; 0; 0; 0; 0; 0; 0; 0; 0; 0; 0; 0; 0; 0; 0; 0;
   0; 0; 0; 0; 0; 0; 0; 0; 0; 0; 0; 0; 0; 0; 0; 0; 0; 0; 0; 0; 0; 0; 0; 0;
   0; 0; 0; 0; 0; 0; 0; 0; 0; 0; 0; 0; 0; 0; 0; 0; 0; 0; 0; 0; 0; 0; 0; 0;
   0; 0; 0; 0; 0; 0; 0; 0; 0; 0; 0; 0; 0; 0; 0; 0; 0; 0; 0; 0; 0; 0; 0; 0;
   0; 0; 0; 0; 0; 0; 0; 0; 0; 0; 0; 0; 0; 0; 0; 0; 0; 0; 0; 0; 0; 0; 0; 0;
   0; 0; 0; 0; 0; 0; 0; 0; 0; 0; 0; 0; 0; 0; 0; 0; 0; 0; 0; 0; 0; 0; 0; 0;
   0; 0; 0; 0; 0; 0; 0; 0; 0; 0; 0; 0; 0; 0; 0; 0; 0; 0; 0; 0; 0; 0; 0; 0;
   0; 0; 0; 0; 0; 0; 0; 0; 0; 0; 0; 0; 0; 0; 0; 0; 0; 0; 0; 0; 0; 0; 0; 0;
   0; 0; 0; 0; 0; 0; 0; 0; 0; 0; 0; 0; 0; 0; 0; 0; 0; 0; 0; 0; 0; 0; 0; 0;
   0; 0; 0; 0; 0; 0; 0; 0; 0; 0; 0; 0; 0; 0; 0; 0; 0; 0; 0; 0; 0; 0; 0; 0;
   0; 0; 0; 0; 0; 0; 0; 0; 0; 0; 0; 0; 0; 0; 0; 0; 0; 0; 0; 0; 0; 0; 0; 0;
   0; 0; 0; 0; 0; 0; 0; 0; 0; 0; 0; 0; 0; 0; 0; 0; 0; 0; 0; 0; 0; 0; 0; 0;
   0; 0; 0; 0; 0; 0; 0; 0; 0; 0; 0; 0; 0; 0; 0; 0; 0; 0; 0; 0; 0; 0; 0; 0;
   0; 0; 0; 0; 0; 0; 0; 0; 0; 0; 0; 0; 0; 0; 0; 0; 0; 0; 0; 0; 0; 0; 0; 0;
   0; 0; 0; 0; 0; 0; 0; 0; 0; 0; 0; 0; 0; 0; 0; 0; 0; 0; 0; 0; 0; 0; 0; 0;
   0; 0; 0; 0; 0; 0; 0; 0; 0; 0; 0; 0; 0; 0; 0; 0; 0; 0; 0; 0; 0; 0; 0; 0;
   0; 0; 0; 0; 0; 0; 0; 0; 0; 0; 0; 0; 0; 0; 0; 0; 0; 0; 0; 0; 0; 0; 0; 0;
   0; 0; 0; 0; 0; 0; 0; 0; 0; 0; 0; 0; 0; 0; 0; 0; 0; 0; 0; 0; 0; 0; 0; 0;
   0; 0; 0; 0; 0; 0; 0; 0; 0; 0; 0; 0; 0; 0; 0; 0; 0; 0; 0; 0; 0; 0; 0; 0;
   255; 255; 255; 255; 255; 255; 255; 255; 255; 255; 255; 255; 255; 255; 255; 255; 255; 255; 255; 255; 255; 255; 255; 255;
   255; 255; 255; 255; 255; 255; 255; 255; 255; 255; 255; 255; 255; 63; 255; 255; 255; 255; 255; 255; 255; 63; 255; 255;
   255; 255; 255; 255; 255; 255; 255; 255; 255; 255; 255; 3; 0; 0; 0; 0; 127; 0; 248; 160; 255; 253; 127; 95;
   219; 255; 255; 255; 255; 255; 255; 255; 255; 255; 255; 255; 255; 255; 3; 0; 0; 0; 248; 255; 255; 255; 255; 255;
   255; 255; 255; 255; 255; 255; 255; 255; 255; 255; 255; 255; 255; 255; 255; 255; 255; 255; 255; 255; 255; 255; 255; 255;
   255; 255; 255; 255; 255; 255; 255; 255; 255; 255; 255; 255; 255; 255; 255; 63; 0; 0; 255; 255; 255; 255; 255; 255;
   255; 255; 252; 255; 255; 255; 255; 255; 255; 0; 0; 0; 0; 0; 255; 15; 0; 0; 0; 0; 0; 0; 0; 0;
   0; 0; 0; 0; 0; 0; 223; 255; 255; 255; 255; 255; 255; 255; 255; 255; 255; 255; 255; 255; 255; 255; 255; 31;
   0; 0; 255; 3; 254; 255; 255; 7; 254; 255; 255; 7; 192; 255; 255; 255; 255; 255; 255; 255; 255; 255; 255; 127;
   252; 252; 252; 28; 0; 0; 0; 0].

End Utf8Tables.
