(* ===== verification/Utf8.v ===== *)
(** * Utf8: [strutil::i18n] and the escaping of JSON and XML ([base/strutil.cc])

    UTF-8 text, wide characters, the operations on characters and words, the comparison of
    texts, and the strings of JSON and XML.  A pointer into a text is the list of the bytes
    that may be read from it on: [c_str s] is the text of a [std::string] with its
    terminating NUL, and reading where the list is empty fails.  A [wint_t] or a [wchar_t]
    is its value, a [const wchar_t*] the list of its characters before the first zero. *)

From S2P Require Import Prelude.
From S2P Require Import CString.
From S2P Require Import StrUtil.
From S2P Require Import Utf8Tables.

Module Utf8.
Import StrUtil Utf8Tables.

(** ** Characters *)

Definition WEOF : Z := 4294967295.

Definition c_str (s : bytes) : bytes := s ++ [NUL].

Definition Utf8CharLen (p : Z) : nat * Z :=
  if p <=? 127 then (1%nat, Z.land p 127)
  else if Z.land p 224 =? 192 then (2%nat, Z.land p 31)
  else if Z.land p 240 =? 224 then (3%nat, Z.land p 15)
  else if Z.land p 248 =? 240 then (4%nat, Z.land p 7)
  else if Z.land p 252 =? 248 then (5%nat, Z.land p 3)
  else if Z.land p 254 =? 252 then (6%nat, Z.land p 1)
  else (0%nat, 0).

(** The [while (--crt.first)] of [Utf8ToCodePoint]: [n] more bytes are expected. *)
Fixpoint code_point_rest (n : nat) (codepoint : Z) (p : bytes) : option (Z * bytes) :=
  match n with
  | O => Some (codepoint, p)
  | S n =>
      match p with
      | [] => None
      | c :: p' =>
          let val := uchar c in
          if negb (Z.land val 192 =? 128) then Some (WEOF, p)
          else code_point_rest n (Z.lor (uint32 (Z.shiftl codepoint 6)) (Z.land val 63)) p'
      end
  end.

(** The code point and the pointer after it; [end] is not looked at by the code, but for
    being NULL. *)
Definition Utf8ToCodePoint (start : bytes) : option (Z * bytes) :=
  match start with
  | [] => None
  | c :: p =>
      match Utf8CharLen (uchar c) with
      | (O, _) => Some (WEOF, p)
      | (S n, v) => code_point_rest n v p
      end
  end.

(** The bytes [CodePointToUtf8Char] writes at [p]. *)
Definition CodePointToUtf8Char (codepoint : Z) : bytes :=
  let tail n := to_byte (Z.lor 128 (Z.land (Z.shiftr codepoint n) 63)) in
  if codepoint <=? 127 then [to_byte codepoint]
  else if codepoint <=? 2047 then
    [to_byte (Z.lor 192 (Z.land (Z.shiftr codepoint 6) 31)); tail 0]
  else if codepoint <=? 65535 then
    [to_byte (Z.lor 224 (Z.land (Z.shiftr codepoint 12) 15)); tail 6; tail 0]
  else if codepoint <=? 2097151 then
    [to_byte (Z.lor 240 (Z.land (Z.shiftr codepoint 18) 7)); tail 12; tail 6; tail 0]
  else if codepoint <=? 67108863 then
    [to_byte (Z.lor 248 (Z.land (Z.shiftr codepoint 24) 3)); tail 18; tail 12; tail 6; tail 0]
  else if codepoint <=? 2147483647 then
    [to_byte (Z.lor 252 (Z.land (Z.shiftr codepoint 30) 1)); tail 24; tail 18; tail 12; tail 6;
     tail 0]
  else [].

(** The same for a string, with the number of the bytes appended. *)
Definition CodePointToUtf8 (codepoint : Z) (s : bytes) : Z * bytes :=
  let tail n := to_byte (Z.lor 128 (Z.land (Z.shiftr codepoint n) 63)) in
  if codepoint <=? 127 then (1, s ++ [to_byte codepoint])
  else if codepoint <=? 2047 then
    (2, s ++ [to_byte (Z.lor 192 (Z.land (Z.shiftr codepoint 6) 31)); tail 0])
  else if codepoint <=? 65535 then
    (3, s ++ [to_byte (Z.lor 224 (Z.land (Z.shiftr codepoint 12) 15)); tail 6; tail 0])
  else if codepoint <=? 2097151 then
    (4, s ++ [to_byte (Z.lor 240 (Z.land (Z.shiftr codepoint 18) 7)); tail 12; tail 6; tail 0])
  else if codepoint <=? 67108863 then
    (5, s ++ [to_byte (Z.lor 248 (Z.land (Z.shiftr codepoint 24) 3)); tail 18; tail 12; tail 6;
      tail 0])
  else if codepoint <=? 2147483647 then
    (6, s ++ [to_byte (Z.lor 252 (Z.land (Z.shiftr codepoint 30) 1)); tail 24; tail 18; tail 12;
      tail 6; tail 0])
  else (0, s).

(** ** Lengths and prefixes *)

(** The inner loop of [Utf8Strlen]: [None] inside is its [return 0]. *)
Fixpoint strlen_rest (crt_len : nat) (p : bytes) : option (option bytes) :=
  match crt_len with
  | O => Some (Some p)
  | S crt_len =>
      match p with
      | [] => None
      | c :: p' =>
          if bool_decide (c = NUL) then Some None
          else if negb (Z.land (uchar c) 192 =? 128) then Some None
          else strlen_rest crt_len p'
      end
  end.

Definition Utf8Strlen_step (st : bytes * Z) : option ((bytes * Z) + Z) :=
  let '(p, len) := st in
  c ← head p;
  if bool_decide (c = NUL) then Some (inr len)
  else match (Utf8CharLen (uchar c)).1 with
       | O => Some (inr 0)
       | S crt_len =>
           r ← strlen_rest crt_len (tail p);
           Some (match r with Some p' => inl (p', size_t (len + 1)) | None => inr 0 end)
       end.

(** [s] is a pointer. *)
Definition Utf8Strlen (s : bytes) : option Z := loop Utf8Strlen_step (S (length s)) (s, 0).

(** The positions [p - s.c_str()] may pass the end. *)
Definition Utf8StrPrefix_step (s : bytes) (prefix_size : Z) (st : nat * Z)
    : option ((nat * Z) + bytes) :=
  let '(p, num) := st in
  if (p <? length s)%nat && (num <? prefix_size) then
    c ← c_str s !! p;
    match (Utf8CharLen (uchar c)).1 with
    | O => Some (inr [])
    | crt_len => Some (inl ((p + crt_len)%nat, num + 1))
    end
  else if (length s <? p)%nat then Some (inr []) else Some (inr (take p s)).

Definition Utf8StrPrefix (s : bytes) (prefix_size : Z) : option bytes :=
  loop (Utf8StrPrefix_step s prefix_size) (S (length s)) (O, 0).

(** ** The loop over the code points of a text

    [while (p < end) { next = Utf8ToCodePoint(p, end, &codepoint); ...; p = next; }]: [left]
    is the number of the bytes that may be read from [end] on, [body] what the code does with
    [p], [codepoint] and [next], [finish] what it does after the loop. *)
Section ForCodepoints.
Context {A R : Type}.
Variables (body : A -> bytes -> Z -> bytes -> A + R) (finish : A -> bytes -> R) (left : nat).

Definition codepoint_step (st : A * bytes) : option ((A * bytes) + R) :=
  let '(a, p) := st in
  if (left <? length p)%nat then
    '(codepoint, next) ← Utf8ToCodePoint p;
    Some (match body a p codepoint next with inl a' => inl (a', next) | inr r => inr r end)
  else Some (inr (finish a p)).

Definition for_codepoints (p : bytes) (a : A) : option R :=
  loop codepoint_step (S (length p)) (a, p).

End ForCodepoints.

(** [q - p] characters from [p] on. *)
Definition between_ptrs (p q : bytes) : bytes := take (length p - length q) p.

(** ** Wide characters *)

(** The characters before the first zero. *)
Fixpoint wcs (ws : list Z) : list Z :=
  match ws with
  | c :: ws' => if c =? 0 then [] else c :: wcs ws'
  | [] => []
  end.

(** The array of [size_bytes + 1] wide characters, as far as it is written, and the number
    of them before the terminating zero. *)
Definition Utf8ToWcharWithLen (s : bytes) (size_bytes : nat) : option (list Z * Z) :=
  ws ← for_codepoints
         (fun ws _ codepoint _ => inl (if codepoint =? WEOF then ws else ws ++ [int32 codepoint]))
         (fun ws _ => ws) (length s - size_bytes) s [];
  _ ← CHECK (length ws <=? size_bytes)%nat;
  Some (ws ++ [0], zlen ws).

Definition Utf8ToWchar (s : bytes) (size_bytes : nat) : option (list Z) :=
  fst <$> Utf8ToWcharWithLen s size_bytes.

Definition append_wchars (s : list Z) (result : bytes) : bytes :=
  foldl (fun result c => (CodePointToUtf8 (uint32 c) result).2) result s.

Definition WcharToUtf8StringSet (s : list Z) (result : bytes) : bytes :=
  append_wchars (wcs s) result.

Definition WcharToUtf8StringSetWithLen (s : list Z) (len : nat) (result : bytes) : bytes :=
  append_wchars (take len (wcs s)) result.

Definition WcharToUtf8String (s : list Z) : bytes := WcharToUtf8StringSet s [].

Definition WcharToUtf8StringWithLen (s : list Z) (len : nat) : bytes :=
  WcharToUtf8StringSetWithLen s len [].

(** ** Tables

    [std::map::insert] keeps the value a key already has. *)
Definition glb_umlaut_map (c : Z) : option bytes :=
  (fun x => bstr (x.2)) <$> find (fun x => x.1 =? c) umlaut_pairs.

Definition glb_upper_map (c : Z) : option Z := fst <$> find (fun x => x.2 =? c) upper_pairs.
Definition glb_lower_map (c : Z) : option Z := snd <$> find (fun x => x.1 =? c) upper_pairs.

Definition IsSpace (c : Z) : bool := existsb (fun x => x =? c) space_list.

(** A read outside the table fails. *)
Definition IsAlnum (c : Z) : option bool :=
  if zlen alnum_table <? Z.shiftr c 3 then Some false
  else x ← alnum_table !! Z.to_nat (Z.shiftr c 3);
       Some (negb (Z.land x (Z.shiftl 1 (Z.land c 7)) =? 0)).

(** [towupper] and [towlower] are the C library's, in the locale that is set. *)
Section Case.
Variables towupper towlower : Z -> Z.

Definition ToUpper (c : Z) : Z := default (towupper c) (glb_upper_map c).
Definition ToLower (c : Z) : Z := default (towlower c) (glb_lower_map c).

Definition ToUpperStr (s : bytes) : option bytes :=
  for_codepoints
    (fun result _ codepoint _ =>
       inl (if codepoint =? WEOF then result else (CodePointToUtf8 (ToUpper codepoint) result).2))
    (fun result _ => result) 1 (c_str s) [].

Definition ToLowerStr (s : bytes) : option bytes :=
  for_codepoints
    (fun result _ codepoint _ =>
       inl (if codepoint =? WEOF then result else (CodePointToUtf8 (ToLower codepoint) result).2))
    (fun result _ => result) 1 (c_str s) [].

End Case.

(** ** Texts *)

Definition Iso8859_1ToUtf8 (s : bytes) : bytes :=
  foldl (fun out c =>
    if uchar c <? 128 then out ++ [c]
    else if uchar c <? 192 then out ++ [Byte.xc2] ++ [to_byte (128 + Z.land (uchar c) 63)]
    else out ++ [Byte.xc3] ++ [to_byte (128 + Z.land (uchar c) 63)]) [] s.

Definition IsUtf8Valid (s : bytes) : option bool :=
  for_codepoints (A := unit)
    (fun _ _ codepoint _ => if codepoint =? WEOF then inr false else inl ())
    (fun _ _ => true) 1 (c_str s) ().

(** [begin_non_space] and [last_space_start]; [s.substr(i)] goes up to the NUL. *)
Definition Utf8StrTrim (s : bytes) : option bytes :=
  for_codepoints
    (fun '(begin_non_space, last_space_start) p codepoint _ =>
       inl (if codepoint =? WEOF then (begin_non_space, last_space_start)
            else if negb (IsSpace codepoint) then
              (Some (default p begin_non_space), None)
            else (begin_non_space, Some (default p last_space_start))))
    (fun '(begin_non_space, last_space_start) _ =>
       match begin_non_space, last_space_start with
       | None, _ => []
       | Some b, None => between_ptrs b [NUL]
       | Some b, Some l => between_ptrs b l
       end) 1 (c_str s) (None, None).

Definition Utf8StrTrimBack (s : bytes) : option bytes :=
  for_codepoints
    (fun last_space_start p codepoint _ =>
       inl (if codepoint =? WEOF then last_space_start
            else if negb (IsSpace codepoint) then None
            else Some (default p last_space_start)))
    (fun last_space_start _ =>
       match last_space_start with
       | None => s
       | Some l => between_ptrs (c_str s) l
       end) 1 (c_str s) None.

Definition Utf8StrTrimFront (s : bytes) : option bytes :=
  for_codepoints (A := unit)
    (fun _ p codepoint _ =>
       if codepoint =? WEOF then inl ()
       else if negb (IsSpace codepoint) then inr (between_ptrs p [NUL])
       else inl ())
    (fun _ _ => []) 1 (c_str s) ().

(** [split] is a [wchar_t]. *)
Definition Utf8SplitPairs (s : bytes) (split : Z) : option (bytes * bytes) :=
  for_codepoints (A := unit)
    (fun _ p codepoint next =>
       if codepoint =? uint32 split then inr (between_ptrs (c_str s) p, between_ptrs next [NUL])
       else inl ())
    (fun _ _ => (s, [])) 1 (c_str s) ().

(** The body of [Utf8SplitOnWChars] and [Utf8SplitOnWhitespace]: the terms found and
    [starter]. *)
Definition split_word (is_split : Z -> bool) (st : list bytes * option bytes) (p : bytes)
    (codepoint : Z) : list bytes * option bytes :=
  let '(terms, starter) := st in
  if codepoint =? WEOF then (terms, None)
  else if is_split codepoint then
    match starter with
    | Some b => if (length p <? length b)%nat then (terms ++ [between_ptrs b p], None) else st
    | None => st
    end
  else (terms, Some (default p starter)).

(** After the loop; [p <= end] is seen by the bytes left. *)
Definition last_word (st : list bytes * option bytes) (p : bytes) : list bytes :=
  match st with
  | (terms, Some b) =>
      if (1 <=? length p)%nat && (length p <? length b)%nat then terms ++ [between_ptrs b p]
      else terms
  | (terms, None) => terms
  end.

Definition Utf8SplitOnWChars (s : bytes) (splits : list Z) (terms : list bytes)
    : option (list bytes) :=
  for_codepoints
    (fun st p codepoint _ =>
       inl (split_word (fun c => existsb (fun x => uint32 x =? c) (wcs splits)) st p codepoint))
    last_word 1 (c_str s) (terms, None).

Definition Utf8SplitOnWhitespace (s : bytes) (terms : list bytes) : option (list bytes) :=
  for_codepoints (fun st p codepoint _ => inl (split_word IsSpace st p codepoint))
    last_word 1 (c_str s) (terms, None).

(** The offset of the first [w] in [s]. *)
Fixpoint wcsstr (s w : list Z) : option nat :=
  if bool_decide (take (length w) s = w) then Some O
  else match s with [] => None | _ :: s' => S <$> wcsstr s' w end.

(** [start] points into an array of wide characters. *)
Definition split_string_step (wsstr : list Z) (len : nat) (st : list Z * list bytes)
    : option ((list Z * list bytes) + list bytes) :=
  let '(start, terms) := st in
  match wcsstr (wcs start) (wcs wsstr) with
  | Some n =>
      _ ← CHECK (n + len <? length start)%nat;
      Some (inl (drop (n + len) start, terms ++ [WcharToUtf8StringWithLen start n]))
  | None => Some (inr (terms ++ [WcharToUtf8String start]))
  end.

Definition Utf8SplitString (s split : bytes) (terms : list bytes) : option (list bytes) :=
  '(wstr, slen) ← Utf8ToWcharWithLen (c_str s) (length s);
  '(wsstr, sslen) ← Utf8ToWcharWithLen (c_str split) (length split);
  if slen =? 0 then Some (terms ++ [[]])
  else if sslen =? 0 then
    Some (terms ++ ((fun i => WcharToUtf8StringWithLen (drop i wstr) 1) <$> seq 0 (Z.to_nat slen)))
  else loop (split_string_step wsstr (Z.to_nat sslen)) (S (length wstr)) (wstr, terms).

(** ** Plain letters for accented ones *)

Definition UmlautTransform (s : list Z) : option (list Z) :=
  if existsb (fun c => bool_decide (is_Some (glb_umlaut_map c))) (wcs s) then
    Some (concat ((fun c => match glb_umlaut_map c with
                            | Some a => uchar <$> a
                            | None => [c]
                            end) <$> wcs s))
  else None.

(** Whether something was replaced and the text. *)
Definition UmlautTransformUtf8 (s : bytes) (result : bytes) : option (bool * bytes) :=
  for_codepoints
    (fun '(transformed, result) p codepoint e =>
       inl (if codepoint =? WEOF then (transformed, result)
            else match glb_umlaut_map codepoint with
                 | Some a => (true, result ++ a)
                 | None => (transformed, result ++ between_ptrs p e)
                 end))
    (fun st _ => st) 1 (c_str s) (false, result).

(** ** Comparison *)

(** [p_] and [crt_umlaut_], which points to what is left of a replacement. *)
Record CompareStruct := {
  umlaut_expand_ : bool;
  p_ : bytes;
  crt_umlaut_ : option bytes;
}.

Definition CompareStruct_new (s : bytes) (umlaut_expand : bool) : CompareStruct :=
  {| umlaut_expand_ := umlaut_expand; p_ := c_str s; crt_umlaut_ := None |}.

Definition IsDone (cs : CompareStruct) : bool :=
  negb (1 <? length (p_ cs))%nat && bool_decide (crt_umlaut_ cs = None).

(** [codepoint = *crt_umlaut_++], and NULL in its place when it gets to the end. *)
Definition next_umlaut (cs : CompareStruct) (e : bytes) (umlaut : bytes) : Z * CompareStruct :=
  (uint32 (schar (default NUL (head umlaut))),
   {| umlaut_expand_ := umlaut_expand_ cs; p_ := e;
      crt_umlaut_ := if bool_decide (tail umlaut = []) then None else Some (tail umlaut) |}).

Definition NextCodepoint (cs : CompareStruct) : option (Z * CompareStruct) :=
  match crt_umlaut_ cs with
  | Some umlaut => Some (next_umlaut cs (p_ cs) umlaut)
  | None =>
      '(codepoint, e) ← Utf8ToCodePoint (p_ cs);
      match (if negb (codepoint =? WEOF) && umlaut_expand_ cs then glb_umlaut_map codepoint
             else None) with
      | Some umlaut => Some (next_umlaut cs e umlaut)
      | None => Some (codepoint, {| umlaut_expand_ := umlaut_expand_ cs; p_ := e;
                                    crt_umlaut_ := None |})
      end
  end.

Definition Utf8Compare_step (st : CompareStruct * CompareStruct)
    : option ((CompareStruct * CompareStruct) + Z) :=
  let '(cs1, cs2) := st in
  if negb (IsDone cs1) && negb (IsDone cs2) then
    '(codepoint1, cs1) ← NextCodepoint cs1;
    '(codepoint2, cs2) ← NextCodepoint cs2;
    Some (if codepoint1 <? codepoint2 then inr (-1)
          else if codepoint2 <? codepoint1 then inr 1
          else inl (cs1, cs2))
  else Some (inr (if IsDone cs1 then if IsDone cs2 then 0 else -1 else 1)).

(** A replacement has at most three letters. *)
Definition Utf8Compare (s1 s2 : bytes) (umlaut_expand : bool) : option Z :=
  loop Utf8Compare_step (S (4 * length s1)) (CompareStruct_new s1 umlaut_expand,
                                             CompareStruct_new s2 umlaut_expand).

(** ** Strings of JSON *)

Definition kHexChars : bytes := bstr "0123456789abcdef".

Definition hex4 (c : Z) : bytes :=
  (fun n => default NUL (kHexChars !! Z.to_nat (Z.land (Z.shiftr c n) 15))) <$> [12; 8; 4; 0].

(** [IS_CHAR] *)
Definition IS_CHAR (c : Z) : bool :=
  (32 <=? c) && (c <=? 126) && negb (c =? 92) && negb (c =? 34).

(** What is written for the character [c]. *)
Definition json_char (c : Z) : bytes :=
  if IS_CHAR c then [to_byte c]
  else Byte.x5c ::
    (if c =? 92 then [to_byte c]
     else if c =? 34 then [to_byte c]
     else if c =? 8 then bstr "b"
     else if c =? 12 then bstr "f"
     else if c =? 10 then bstr "n"
     else if c =? 13 then bstr "r"
     else if c =? 9 then bstr "t"
     else if 65536 <=? c then
       let v := c - 65536 in
       (Byte.x75 :: hex4 (Z.lor 55296 (Z.land (Z.shiftr v 10) 1023))) ++
       [Byte.x5c; Byte.x75] ++ hex4 (Z.lor 56320 (Z.land v 1023))
     else Byte.x75 :: hex4 c).

(** The output array has room for [wlen * 12 + 1] characters. *)
Definition JsonStrEscape (text : bytes) (size : nat) : option bytes :=
  wtext ← Utf8ToWchar text size;
  let output := concat (json_char <$> wcs wtext) in
  _ ← CHECK (length output <=? length (wcs wtext) * 12 + 1)%nat;
  Some output.

(** What is written for the number of an escape. *)
Definition unescaped (v : Z) : bytes :=
  if v <? 127 then [to_byte v]
  else if v <? 2047 then [to_byte (192 + Z.shiftr v 6); to_byte (Z.land v 63)]
  else if v <? 65535 then
    [to_byte (224 + Z.shiftr v 12); to_byte (128 + Z.land (Z.shiftr v 6) 63);
     to_byte (128 + Z.land v 63)]
  else [].

Fixpoint JsonStrUnescape_loop (in_escape : bool) (p : bytes) : bytes :=
  match p with
  | [] => []
  | c :: p =>
      if in_escape then
        if bool_decide (c = Byte.x62) then Byte.x08 :: JsonStrUnescape_loop false p
        else if bool_decide (c = Byte.x66) then Byte.x0c :: JsonStrUnescape_loop false p
        else if bool_decide (c = Byte.x6e) then Byte.x0a :: JsonStrUnescape_loop false p
        else if bool_decide (c = Byte.x72) then Byte.x0d :: JsonStrUnescape_loop false p
        else if bool_decide (c = Byte.x74) then Byte.x09 :: JsonStrUnescape_loop false p
        else if bool_decide (c = Byte.x75) then
          match p with
          | p0 :: p1 :: p2 :: p3 :: p =>
              let v := wrapU 16 (Z.shiftl (hexval p0) 24 + Z.shiftl (hexval p1) 16 +
                                 Z.shiftl (hexval p2) 8 + Z.shiftl (hexval p3) 0) in
              unescaped v ++ JsonStrUnescape_loop false p
          | _ => JsonStrUnescape_loop false p
          end
        else c :: JsonStrUnescape_loop false p
      else if bool_decide (c = Byte.x5c) then JsonStrUnescape_loop true p
      else c :: JsonStrUnescape_loop false p
  end.

(** [dest] has room for [size * 3 + 4] characters. *)
Definition JsonStrUnescape (text : bytes) : option bytes :=
  let dest := JsonStrUnescape_loop false text in
  _ ← CHECK (length dest <=? length text * 3 + 4)%nat;
  Some dest.

(** ** Texts of XML *)

Definition xml_char (c : Z) (result : bytes) : bytes :=
  if c =? 38 then result ++ bstr "&amp;"
  else if c =? 34 then result ++ bstr "&quot;"
  else if c =? 39 then result ++ bstr "&apos;"
  else if c =? 60 then result ++ bstr "&lt;"
  else if c =? 62 then result ++ bstr "&gt;"
  else (CodePointToUtf8 c result).2.

(** [Utf8ToWcharIterator] gives every code point, WEOF too. *)
Definition XmlStrEscape (original : bytes) : option bytes :=
  for_codepoints (fun result _ codepoint _ => inl (xml_char codepoint result))
    (fun result _ => result) 1 (c_str original) [].

End Utf8.
