(* ===== verification/Utf8Props.v ===== *)
(** * Utf8Props: texts of UTF-8 are their lists of code points

    [enc] is the text of a list of code points.  Every operation of [Utf8.v] on such a text is
    an operation on the list; the operations end on any bytes of a [std::string]. *)

From S2P Require Import Prelude.
From S2P Require Import CString.
From S2P Require Import StrUtil.
From S2P Require Import Utf8Tables.
From S2P Require Import Utf8.

Module Utf8Props.
Import StrUtil Utf8.

(** What the six forms of UTF-8 can hold. *)
Definition code_point (c : Z) : Prop := 0 <= c < 2 ^ 31.

Definition enc (cps : list Z) : bytes := concat (CodePointToUtf8Char <$> cps).

(** ** One code point *)

Definition cont (y : Z) : byte := to_byte (Z.lor 128 (Z.land y 63)).

Lemma cont_bits x :
  0 <= x < 64 ->
  uchar (to_byte (Z.lor 128 x)) = 128 + x /\ Z.land (128 + x) 192 = 128 /\ Z.land (128 + x) 63 = x.
Proof.
  intros Hx.
  assert (H : (uchar (to_byte (Z.lor 128 x)) =? 128 + x) && (Z.land (128 + x) 192 =? 128)
              && (Z.land (128 + x) 63 =? x) = true).
  { by apply (below_spec 64 (fun x => (uchar (to_byte (Z.lor 128 x)) =? 128 + x)
      && (Z.land (128 + x) 192 =? 128) && (Z.land (128 + x) 63 =? x))). }
  by bool_prop.
Qed.

Lemma land_63 y : Z.land y 63 = y mod 64.
Proof. exact (land_mod y 6 ltac:(lia)). Qed.

Lemma uchar_cont y : uchar (cont y) = 128 + y mod 64.
Proof.
  unfold cont. rewrite land_63. by apply cont_bits, Z.mod_pos_bound.
Qed.

(** The first bytes: [mark] in front of [width] bits. *)
Lemma lead_bits (n : nat) (mark width : Z) x :
  (n, mark, width) ∈ [(2%nat, 192, 5); (3%nat, 224, 4); (4%nat, 240, 3); (5%nat, 248, 2);
                      (6%nat, 252, 1)] ->
  0 <= x < 2 ^ width ->
  uchar (to_byte (Z.lor mark x)) = mark + x /\ Utf8CharLen (mark + x) = (n, x).
Proof.
  rewrite list_elem_of_In. cbn [In]. intros Hin Hx.
  assert (Hall : forall (n : nat) (mark : Z) k, (Z.to_nat k <= 32)%nat ->
    below (Z.to_nat k) (fun x => (uchar (to_byte (Z.lor mark x)) =? mark + x)
      && bool_decide (Utf8CharLen (mark + x) = (n, x))) = true -> 0 <= x < k ->
    uchar (to_byte (Z.lor mark x)) = mark + x /\ Utf8CharLen (mark + x) = (n, x)).
  { intros n' m' k Hk Hb Hxk.
    pose proof (below_spec _ _ x Hb ltac:(lia)) as H. cbv beta in H. by bool_prop. }
  destruct Hin as [Hin|[Hin|[Hin|[Hin|[Hin|[]]]]]]; injection Hin as <- <- <-;
    eapply Hall; try exact Hx; (by vm_compute) || (vm_compute; lia).
Qed.

Lemma ascii_CharLen c : 0 <= c <= 127 -> uchar (to_byte c) = c /\ Utf8CharLen c = (1%nat, c).
Proof.
  intros Hc. split; [apply uchar_to_byte_small; lia|]. unfold Utf8CharLen.
  replace (c <=? 127) with true by lia. f_equal.
  change 127 with (2 ^ 7 - 1). rewrite land_mod by lia. apply Z.mod_small. lia.
Qed.

Lemma code_point_rest_cont n cp y p :
  0 <= cp < 2 ^ 25 -> code_point_rest (S n) cp (cont y :: p) = code_point_rest n (cp * 64 + y mod 64) p.
Proof.
  intros Hcp. cbn [code_point_rest]. rewrite uchar_cont.
  destruct (cont_bits (y mod 64) (Z.mod_pos_bound y 64 ltac:(lia))) as (_ & -> & ->).
  cbn [negb Z.eqb]. rewrite Z.eqb_refl. cbn [negb]. f_equal.
  rewrite shiftl_mul, wrapU_small by lia. change (2 ^ 6) with 64.
  apply (lor_disjoint 6); [lia|by apply Z.mod_mul|by apply Z.mod_pos_bound].
Qed.

(** The lead byte as the code writes it. *)
Lemma lead_byte (n : nat) (mark width : Z) x :
  (n, mark, width) ∈ [(2%nat, 192, 5); (3%nat, 224, 4); (4%nat, 240, 3); (5%nat, 248, 2);
                      (6%nat, 252, 1)] ->
  let b := to_byte (Z.lor mark (Z.land x (2 ^ width - 1))) in
  uchar b = mark + x mod 2 ^ width /\ Utf8CharLen (uchar b) = (n, x mod 2 ^ width).
Proof.
  intros Hin b. assert (Hw : 0 <= width).
  { rewrite list_elem_of_In in Hin. cbn [In] in Hin.
    repeat destruct Hin as [Hin|Hin]; simplify_eq; lia. }
  destruct (lead_bits n mark width (x mod 2 ^ width) Hin) as [H1 H2];
    [apply Z.mod_pos_bound; lia|].
  subst b. rewrite land_mod by lia. by rewrite H1, H2.
Qed.

(** [Utf8ToCodePoint] on a lead byte of [n] and the bytes after it. *)
Lemma Utf8ToCodePoint_lead (n : nat) (mark width x : Z) p :
  (S (S n), mark, width) ∈ [(2%nat, 192, 5); (3%nat, 224, 4); (4%nat, 240, 3); (5%nat, 248, 2);
                      (6%nat, 252, 1)] ->
  Utf8ToCodePoint (to_byte (Z.lor mark (Z.land x (2 ^ width - 1))) :: p) =
  code_point_rest (S n) (x mod 2 ^ width) p.
Proof.
  intros Hin. destruct (lead_byte _ _ _ x Hin) as [_ H]. unfold Utf8ToCodePoint. by rewrite H.
Qed.

(** What a byte adds to the bits of [c] before it. *)
Lemma code_point_rest_digit n c k p :
  0 <= c < 2 ^ 31 -> 0 <= k ->
  code_point_rest (S n) (c / 2 ^ (k + 6)) (cont (Z.shiftr c k) :: p) =
  code_point_rest n (Z.shiftr c k) p.
Proof.
  intros Hc Hk. rewrite shiftr_div by done. rewrite code_point_rest_cont.
  - f_equal. rewrite Z.pow_add_r, <- Z.div_div by lia. change (2 ^ 6) with 64.
    rewrite (Z.div_mod (c / 2 ^ k) 64) at 3 by lia. lia.
  - split; [apply Z.div_pos; lia|]. apply Z.div_lt_upper_bound; [lia|].
    rewrite Z.pow_add_r by lia. assert (0 < 2 ^ k) by lia. nia.
Qed.

Ltac in_list := rewrite list_elem_of_In; cbn [In]; tauto.

Lemma Utf8ToCodePoint_enc c p :
  code_point c -> Utf8ToCodePoint (CodePointToUtf8Char c ++ p) = Some (c, p).
Proof.
  unfold code_point, CodePointToUtf8Char. intros Hc.
  destruct (c <=? 127) eqn:H1; bool_prop.
  { destruct (ascii_CharLen c) as [Hu Hl]; [lia|]. cbn [app Utf8ToCodePoint]. by rewrite Hu, Hl. }
  destruct (c <=? 2047) eqn:H2; bool_prop; [|destruct (c <=? 65535) eqn:H3; bool_prop;
    [|destruct (c <=? 2097151) eqn:H4; bool_prop; [|destruct (c <=? 67108863) eqn:H5; bool_prop;
    [|replace (c <=? 2147483647) with true by lia]]]]; cbv zeta; cbn [app].
  1: rewrite (Utf8ToCodePoint_lead 0 192 5) by in_list.
  2: rewrite (Utf8ToCodePoint_lead 1 224 4) by in_list.
  3: rewrite (Utf8ToCodePoint_lead 2 240 3) by in_list.
  4: rewrite (Utf8ToCodePoint_lead 3 248 2) by in_list.
  5: rewrite (Utf8ToCodePoint_lead 4 252 1) by in_list.
  all: rewrite shiftr_div by lia; rewrite Z.mod_small by dlia.
  all: repeat match goal with
    | |- code_point_rest _ (?c / 2 ^ ?m) (_ :: ?p) = _ =>
        let k := eval vm_compute in (m - 6) in
        change (2 ^ m) with (2 ^ (k + 6)); rewrite (code_point_rest_digit _ c k) by lia;
        try rewrite (shiftr_div c k) by lia
    end; cbn [code_point_rest]; by rewrite Z.div_1_r.
Qed.

(** The bytes of a code point, from its encoding as a string. *)
Lemma CodePointToUtf8_spec c s :
  CodePointToUtf8 c s = (zlen (CodePointToUtf8Char c), s ++ CodePointToUtf8Char c).
Proof.
  unfold CodePointToUtf8, CodePointToUtf8Char.
  repeat (destruct (c <=? _); [done|]). by rewrite app_nil_r.
Qed.

Lemma enc_char_first c :
  code_point c ->
  exists b l, CodePointToUtf8Char c = b :: l /\
    Utf8CharLen (uchar b) = (S (length l), (Utf8CharLen (uchar b)).2) /\
    (uchar b = 0 <-> c = 0) /\ Forall (fun b => uchar b <> 0 /\ Z.land (uchar b) 192 = 128) l.
Proof.
  unfold code_point, CodePointToUtf8Char. intros Hc.
  assert (Hcont : forall y, uchar (cont y) <> 0 /\ Z.land (uchar (cont y)) 192 = 128).
  { intros y. rewrite uchar_cont. pose proof (Z.mod_pos_bound y 64 ltac:(lia)) as Hy.
    split; [lia|]. by apply cont_bits. }
  assert (Hlead : forall n mark width x, (S (S n), mark, width) ∈
      [(2%nat, 192, 5); (3%nat, 224, 4); (4%nat, 240, 3); (5%nat, 248, 2); (6%nat, 252, 1)] ->
      0 < mark ->
      let b := to_byte (Z.lor mark (Z.land x (2 ^ width - 1))) in
      Utf8CharLen (uchar b) = (S (S n), (Utf8CharLen (uchar b)).2) /\ uchar b <> 0).
  { intros n mark width x Hin Hm. destruct (lead_byte _ _ _ x Hin) as [H1 H2]. cbv zeta.
    rewrite H2. split; [done|]. rewrite H1.
    assert (0 <= x mod 2 ^ width); [|lia]. apply Z.mod_pos_bound.
    rewrite list_elem_of_In in Hin. cbn [In] in Hin.
    repeat destruct Hin as [Hin|Hin]; simplify_eq; lia. }
  destruct (c <=? 127) eqn:H1; bool_prop.
  { destruct (ascii_CharLen c) as [Hu Hl]; [lia|]. eexists _, []. rewrite Hu, Hl. by repeat split. }
  destruct (c <=? 2047) eqn:H2; bool_prop; [|destruct (c <=? 65535) eqn:H3; bool_prop;
    [|destruct (c <=? 2097151) eqn:H4; bool_prop; [|destruct (c <=? 67108863) eqn:H5; bool_prop;
    [|replace (c <=? 2147483647) with true by lia]]]]; cbv zeta;
    (eexists _, _; split; [reflexivity|]).
  1: destruct (Hlead 0%nat 192 5 (Z.shiftr c 6)) as [E1 E2]; [in_list|lia|].
  2: destruct (Hlead 1%nat 224 4 (Z.shiftr c 12)) as [E1 E2]; [in_list|lia|].
  3: destruct (Hlead 2%nat 240 3 (Z.shiftr c 18)) as [E1 E2]; [in_list|lia|].
  4: destruct (Hlead 3%nat 248 2 (Z.shiftr c 24)) as [E1 E2]; [in_list|lia|].
  5: destruct (Hlead 4%nat 252 1 (Z.shiftr c 30)) as [E1 E2]; [in_list|lia|].
  all: split_and!; [exact E1|split; [intros E; by destruct E2|lia]|];
    repeat (apply Forall_cons_2; [apply Hcont|]); by apply Forall_nil_2.
Qed.

(** ** Texts *)

Lemma enc_cons c cps : enc (c :: cps) = CodePointToUtf8Char c ++ enc cps.
Proof. done. Qed.

Lemma enc_app cps1 cps2 : enc (cps1 ++ cps2) = enc cps1 ++ enc cps2.
Proof. unfold enc. by rewrite fmap_app, concat_app. Qed.

Lemma length_enc_cons c cps : code_point c -> (length (enc cps) < length (enc (c :: cps)))%nat.
Proof.
  intros Hc. rewrite enc_cons. destruct (enc_char_first c Hc) as (b & l & -> & _).
  rewrite length_app. cbn. lia.
Qed.

Lemma length_enc cps : Forall code_point cps -> (length cps <= length (enc cps))%nat.
Proof.
  induction 1 as [|c cps Hc _ IH]; [done|]. pose proof (length_enc_cons c cps Hc). cbn [length]. lia.
Qed.

Lemma code_point_not_WEOF c : code_point c -> (c =? WEOF) = false.
Proof. unfold code_point, WEOF. intros. lia. Qed.

(** ** Loops over texts *)
Section Run.
Context {A R : Type}.
Variables (body : A -> bytes -> Z -> bytes -> A + R) (finish : A -> bytes -> R) (rest : bytes).

Fixpoint run (cps : list Z) (a : A) : R :=
  match cps with
  | [] => finish a rest
  | c :: cps =>
      match body a (enc (c :: cps) ++ rest) c (enc cps ++ rest) with
      | inl a' => run cps a'
      | inr r => r
      end
  end.

Lemma for_codepoints_enc cps a :
  Forall code_point cps ->
  for_codepoints body finish (length rest) (enc cps ++ rest) a = Some (run cps a).
Proof.
  intros Hcps. unfold for_codepoints.
  assert (Hf : (length cps < S (length (enc cps ++ rest)))%nat).
  { rewrite length_app. pose proof (length_enc cps Hcps). lia. }
  revert Hf. generalize (S (length (enc cps ++ rest))) as fuel. intros fuel. revert a fuel.
  induction Hcps as [|c cps Hc Hcps IH]; intros a fuel Hf.
  - destruct fuel as [|fuel]; [lia|]. rewrite loop_S. cbn [codepoint_step enc].
    change (enc [] ++ rest) with rest. by rewrite Nat.ltb_irrefl.
  - destruct fuel as [|fuel]; [cbn in Hf; lia|]. rewrite loop_S. cbn [codepoint_step run].
    pose proof (length_enc_cons c cps Hc).
    rewrite (proj2 (Nat.ltb_lt (length rest) (length (enc (c :: cps) ++ rest))))
      by (rewrite length_app; lia).
    rewrite enc_cons at 1. rewrite <- app_assoc, (Utf8ToCodePoint_enc c _ Hc). cbn [mbind option_bind].
    destruct (body _ _ _ _); cbn; [|done]. apply IH. cbn in Hf. lia.
Qed.

(** On any bytes of a [std::string] the loop ends and reads nothing after the NUL. *)
Lemma code_point_rest_c_str n cp s :
  exists cp' q s', code_point_rest n cp (s ++ [NUL]) = Some (cp', s' ++ [NUL]) /\ s = q ++ s'.
Proof.
  revert cp s. induction n as [|n IH]; intros cp s; cbn [code_point_rest].
  - exists cp, [], s. done.
  - destruct s as [|b s]; cbn [app].
    + exists WEOF, [], []. done.
    + destruct (negb _).
      * exists WEOF, [], (b :: s). done.
      * destruct (IH (Z.lor (uint32 (Z.shiftl cp 6)) (Z.land (uchar b) 63)) s)
          as (cp' & q & s' & -> & ->).
        by exists cp', (b :: q), s'.
Qed.

Lemma Utf8ToCodePoint_c_str b s :
  exists cp q s', Utf8ToCodePoint (c_str (b :: s)) = Some (cp, c_str s') /\ s = q ++ s'.
Proof.
  unfold c_str. cbn [app Utf8ToCodePoint]. destruct (Utf8CharLen (uchar b)) as [[|n] v].
  - by exists WEOF, [], s.
  - apply code_point_rest_c_str.
Qed.

Lemma for_codepoints_total s a :
  exists r, for_codepoints body finish 1 (c_str s) a = Some r.
Proof.
  destruct (loop_total (codepoint_step body finish 1) (fun st => exists s, st.2 = c_str s)
    (fun _ => True) (fun st => length st.2)) with (fuel := S (length (c_str s)))
    (s := (a, c_str s)) as (r & Hr & _); [| | |by exists r].
  - intros [a' p] [s' Hp]. cbn [snd] in Hp |- *. subst p. unfold codepoint_step.
    destruct s' as [|b s'].
    + exists (inr (finish a' (c_str []))). split; [done|exact I].
    + rewrite (proj2 (Nat.ltb_lt 1 (length (c_str (b :: s')))))
        by (unfold c_str; rewrite length_app; cbn; lia).
      destruct (Utf8ToCodePoint_c_str b s') as (cp & q & s'' & E & ->).
      rewrite E. cbn [mbind option_bind]. eexists. split; [done|].
      destruct (body _ _ _ _) as [a''|r]; [|exact I]. cbn [snd]. split; [by exists s''|].
      unfold c_str. rewrite !length_app. cbn. rewrite length_app. lia.
  - by exists s.
  - cbn. lia.
Qed.

End Run.

(** A loop that only passes a state on. *)
Lemma run_fold {A R} (step : A -> Z -> A) (body : A -> bytes -> Z -> bytes -> A + R) finish rest cps a :
  Forall code_point cps ->
  (forall a p c q, code_point c -> body a p c q = inl (step a c)) ->
  run body finish rest cps a = finish (foldl step a cps) rest.
Proof.
  intros Hcps Hb. revert a. induction Hcps as [|c cps Hc _ IH]; intros a; [done|].
  cbn [run foldl]. by rewrite Hb, IH.
Qed.

Lemma between_ptrs_enc cps1 cps2 rest :
  between_ptrs (enc (cps1 ++ cps2) ++ rest) (enc cps2 ++ rest) = enc cps1.
Proof.
  unfold between_ptrs. rewrite enc_app, <- app_assoc, !length_app.
  replace (_ - _)%nat with (length (enc cps1)) by lia. by rewrite take_app_length.
Qed.

Lemma enc_one c : enc [c] = CodePointToUtf8Char c.
Proof. unfold enc. cbn. apply app_nil_r. Qed.

Lemma enc_nil_inv cps : Forall code_point cps -> enc cps = [] -> cps = [].
Proof.
  intros H E. pose proof (length_enc cps H) as Hl. rewrite E in Hl. by destruct cps; [|cbn in Hl; lia].
Qed.

(** ** The operations on a text *)
Section Text.
Variable cps : list Z.
Hypothesis Hcps : Forall code_point cps.

Lemma for_text {A R} (body : A -> bytes -> Z -> bytes -> A + R) finish a :
  for_codepoints body finish 1 (c_str (enc cps)) a = Some (run body finish [NUL] cps a).
Proof. exact (for_codepoints_enc body finish [NUL] cps a Hcps). Qed.

Lemma foldl_snoc_int32 ws :
  foldl (fun ws c => if c =? WEOF then ws else ws ++ [int32 c]) ws cps = ws ++ cps.
Proof.
  revert ws. pose proof Hcps as Htext; clear Hcps; induction Htext as [|c l Hc _ IH]; intros ws; cbn; [by rewrite app_nil_r|].
  rewrite code_point_not_WEOF, wrapS_small by (unfold code_point in *; lia).
  by rewrite IH, <- app_assoc.
Qed.

Lemma Utf8ToWcharWithLen_at rest :
  Utf8ToWcharWithLen (enc cps ++ rest) (length (enc cps)) = Some (cps ++ [0], zlen cps).
Proof.
  unfold Utf8ToWcharWithLen. replace (_ - _)%nat with (length rest) by (rewrite length_app; lia).
  rewrite for_codepoints_enc by done. cbn [mbind option_bind].
  rewrite (run_fold (fun ws c => if c =? WEOF then ws else ws ++ [int32 c])) by done.
  rewrite foldl_snoc_int32. cbn [app].
  rewrite CHECK_true; [done|]. apply Nat.leb_le. by apply length_enc.
Qed.

Lemma IsUtf8Valid_enc : IsUtf8Valid (enc cps) = Some true.
Proof.
  unfold IsUtf8Valid. rewrite for_text. f_equal.
  rewrite (run_fold (fun _ _ => ())); [done|done|]. intros. by rewrite code_point_not_WEOF.
Qed.

Lemma foldl_enc (f : Z -> Z) result :
  foldl (fun result c => if c =? WEOF then result else (CodePointToUtf8 (f c) result).2) result cps =
  result ++ enc (f <$> cps).
Proof.
  revert result. pose proof Hcps as Htext; clear Hcps; induction Htext as [|c l Hc _ IH]; intros result; cbn; [by rewrite app_nil_r|].
  rewrite code_point_not_WEOF by done. rewrite IH, CodePointToUtf8_spec. cbn [snd].
  by rewrite <- app_assoc.
Qed.

Lemma ToUpperStr_enc towupper :
  ToUpperStr towupper (enc cps) = Some (enc (ToUpper towupper <$> cps)).
Proof.
  unfold ToUpperStr. rewrite for_text. f_equal.
  rewrite (run_fold (fun result c => if c =? WEOF then result
                                     else (CodePointToUtf8 (ToUpper towupper c) result).2)) by done.
  apply foldl_enc.
Qed.

Lemma ToLowerStr_enc towlower :
  ToLowerStr towlower (enc cps) = Some (enc (ToLower towlower <$> cps)).
Proof.
  unfold ToLowerStr. rewrite for_text. f_equal.
  rewrite (run_fold (fun result c => if c =? WEOF then result
                                     else (CodePointToUtf8 (ToLower towlower c) result).2)) by done.
  apply foldl_enc.
Qed.

Lemma append_wchars_enc result : append_wchars cps result = result ++ enc cps.
Proof.
  unfold append_wchars. revert result.
  pose proof Hcps as Htext; clear Hcps; induction Htext as [|c l Hc _ IH]; intros result; cbn; [by rewrite app_nil_r|].
  rewrite IH, CodePointToUtf8_spec, wrapU_small by (unfold code_point in *; lia). cbn [snd].
  by rewrite <- app_assoc.
Qed.

(** The letter or what replaces it. *)
Definition translit (c : Z) : bytes := default (CodePointToUtf8Char c) (glb_umlaut_map c).
Definition accented (c : Z) : bool := bool_decide (is_Some (glb_umlaut_map c)).

Lemma UmlautTransformUtf8_enc result :
  UmlautTransformUtf8 (enc cps) result =
  Some (existsb accented cps, result ++ concat (translit <$> cps)).
Proof.
  unfold UmlautTransformUtf8. rewrite for_text. f_equal.
  enough (H : forall t result, run _ (fun st (_ : bytes) => st) [NUL] cps (t, result) =
    (t || existsb accented cps, result ++ concat (translit <$> cps))) by apply H.
  pose proof Hcps as Htext; clear Hcps; induction Htext as [|c l Hc _ IH]; intros t r.
  - cbn. by rewrite orb_false_r, app_nil_r.
  - cbn [run]. rewrite code_point_not_WEOF by done.
    rewrite <- (app_nil_l (c :: l)) at 1. change (c :: l) with ([c] ++ l).
    cbn [app]. change (enc (c :: l)) with (enc ([c] ++ l)).
    rewrite between_ptrs_enc, enc_one. cbn [existsb fmap list_fmap concat].
    unfold translit at 1 2, accented at 1 2. 
    destruct (glb_umlaut_map c) as [a|] eqn:E; cbn.
    + rewrite IH. by rewrite orb_true_r, <- app_assoc.
    + rewrite IH. by rewrite <- app_assoc.
Qed.

(** *** Lengths *)

Lemma strlen_rest_cont l p :
  Forall (fun b => uchar b <> 0 /\ Z.land (uchar b) 192 = 128) l ->
  strlen_rest (length l) (l ++ p) = Some (Some p).
Proof.
  induction 1 as [|b l [Hb Hl] _ IH]; [by destruct p|]. cbn.
  rewrite bool_decide_false by (intros ->; by apply Hb). by rewrite Hl.
Qed.

Lemma Utf8Strlen_at rest :
  0 ∉ cps -> zlen cps < 2 ^ 64 ->
  Utf8Strlen (enc cps ++ NUL :: rest) = Some (zlen cps).
Proof.
  intros H0 Hlen. unfold Utf8Strlen.
  enough (H : forall l n fuel, Forall code_point l -> 0 ∉ l -> 0 <= n -> n + zlen l < 2 ^ 64 ->
    (length l < fuel)%nat ->
    loop Utf8Strlen_step fuel (enc l ++ NUL :: rest, n) = Some (n + zlen l)).
  { apply (H cps 0); [done..|]. rewrite length_app. pose proof (length_enc cps Hcps). lia. }
  clear. induction l as [|c l IH]; intros n fuel Hl H0 Hn Hlen Hf; (destruct fuel as [|fuel]; [cbn in Hf; lia|]);
    rewrite loop_S.
  - cbn. rewrite bool_decide_true by done. cbn. by rewrite Z.add_0_r.
  - apply Forall_cons_1 in Hl as [Hc Hl]. rewrite enc_cons.
    rewrite zlen_cons in *. apply not_elem_of_cons in H0 as [Hc0 H0].
    destruct (enc_char_first c Hc) as (b & l' & -> & Hb & Hz & Hr).
    cbn [app Utf8Strlen_step head mbind option_bind].
    rewrite bool_decide_false by (intros ->; by destruct Hc0; symmetry; apply Hz).
    rewrite Hb. cbn [fst tail]. rewrite <- app_assoc, strlen_rest_cont by done.
    cbn [mbind option_bind]. pose proof (zlen_nonneg l). rewrite wrapU_small by lia.
    rewrite IH; [f_equal; lia|done|done|lia|lia|cbn in Hf; lia].
Qed.

Lemma Utf8StrPrefix_enc n :
  0 <= n -> Utf8StrPrefix (enc cps) n = Some (enc (take (Z.to_nat n) cps)).
Proof.
  intros Hn. unfold Utf8StrPrefix.
  enough (H : forall fuel pre post m, cps = pre ++ post -> zlen pre = m -> m <= n ->
    (length post < fuel)%nat ->
    loop (Utf8StrPrefix_step (enc cps) n) fuel (length (enc pre), m) =
    Some (enc (take (Z.to_nat n) cps))).
  { apply (H (S (length (enc cps))) [] cps 0); [done..|].
    pose proof (length_enc cps Hcps). lia. }
  induction fuel as [|fuel IH]; intros pre post m Hsplit Hm Hle Hf; [lia|]. rewrite loop_S.
  cbn [Utf8StrPrefix_step].
  assert (Hlen : length (enc cps) = (length (enc pre) + length (enc post))%nat).
  { by rewrite Hsplit, enc_app, length_app. }
  assert (Htake : post = [] \/ m = n -> enc (take (Z.to_nat n) cps) = take (length (enc pre)) (enc cps)).
  { intros Hend. rewrite Hsplit, enc_app, take_app_length. f_equal. destruct Hend as [->|<-].
    - rewrite app_nil_r. apply take_ge. unfold zlen in Hm. lia.
    - rewrite <- Hm. unfold zlen. rewrite Nat2Z.id. apply take_app_length. }
  destruct post as [|c post].
  { change (length (enc [])) with O in Hlen. rewrite Hlen, Nat.add_0_r, Nat.ltb_irrefl. cbn. rewrite Htake; auto. }
  assert (Hc : code_point c).
  { rewrite Hsplit in Hcps. apply Forall_app in Hcps as [_ Hcps']. by apply Forall_cons_1 in Hcps' as [? _]. }
  pose proof (length_enc_cons c post Hc). rewrite (proj2 (Nat.ltb_lt _ _)) by lia. cbn [andb].
  destruct (m <? n) eqn:Hmn; bool_prop.
  - destruct (enc_char_first c Hc) as (b & l & E & Hl & _).
    assert (Hb : c_str (enc cps) !! length (enc pre) = Some b).
    { unfold c_str. rewrite Hsplit, enc_app, enc_cons, E, <- !app_assoc.
      by rewrite lookup_app_r, Nat.sub_diag by lia. }
    rewrite Hb. cbn [mbind option_bind]. rewrite Hl. cbn [fst].
    replace (length (enc pre) + S (length l))%nat with (length (enc (pre ++ [c])))
      by (rewrite enc_app, enc_one, E, length_app; done).
    apply IH with (post := post); [by rewrite <- app_assoc|by rewrite zlen_snoc, Hm|lia|cbn in Hf; lia].
  - rewrite (proj2 (Nat.ltb_ge _ _)) by lia. cbn. rewrite Htake; [done|right; lia].
Qed.

End Text.

(** *** Spaces at the ends *)

Definition spaces (cps : list Z) : Prop := Forall (fun c => IsSpace c = true) cps.

(** There, if there is one, is a character that is not a space. *)
Definition no_space (c : option Z) : Prop := forall x, c = Some x -> IsSpace x = false.

(** [mid] is [cps] without the spaces before and after it. *)
Definition trimmed (cps mid : list Z) : Prop :=
  exists sp tr, cps = sp ++ mid ++ tr /\ spaces sp /\ spaces tr /\
    no_space (head mid) /\ no_space (list.last mid).

(** [last_space_start] after [cps]. *)
Fixpoint last_space (cps : list Z) (l : option bytes) : option bytes :=
  match cps with
  | [] => l
  | c :: cs =>
      last_space cs (if negb (IsSpace c) then None
                     else Some (default (enc (c :: cs) ++ [NUL]) l))
  end.

Definition space_ptr (tr suf : list Z) : option bytes :=
  match tr with [] => None | _ => Some (enc (tr ++ suf) ++ [NUL]) end.

Lemma last_space_spec cps tr :
  spaces tr ->
  exists mid' tr', tr ++ cps = mid' ++ tr' /\ spaces tr' /\ no_space (list.last mid') /\
    last_space cps (space_ptr tr cps) = space_ptr tr' [].
Proof.
  revert tr. induction cps as [|c cs IH]; intros tr Htr; cbn [last_space].
  - exists [], tr. rewrite app_nil_r. split_and!; [done|done| |done]. by intros x.
  - destruct (IsSpace c) eqn:Hc; cbn [negb].
    + replace (Some (default (enc (c :: cs) ++ [NUL]) (space_ptr tr (c :: cs))))
        with (space_ptr (tr ++ [c]) cs).
      * destruct (IH (tr ++ [c])) as (mid' & tr' & E & H).
        { apply Forall_app. split; [done|]. by apply Forall_cons_2. }
        exists mid', tr'. by rewrite <- E, <- app_assoc.
      * destruct tr as [|x tr]; [done|]. cbn [space_ptr app]. by rewrite <- (app_assoc tr [c] cs).
    + destruct (IH [] ltac:(by apply Forall_nil_2)) as (mid' & tr' & E & H1 & H2 & H3).
      exists (tr ++ c :: mid'), tr'. cbn [app] in E.
      split_and!; [by rewrite E, <- app_assoc|done| |exact H3]. intros x. destruct mid' as [|y mid'] using rev_ind.
      * rewrite list.last_snoc. by intros [= <-].
      * rewrite app_comm_cons, app_assoc, list.last_snoc. intros [= <-]. apply H2. by rewrite list.last_snoc.
Qed.

Lemma between_space_ptr mid tr :
  match space_ptr tr [] with
  | None => between_ptrs (enc (mid ++ tr) ++ [NUL]) [NUL]
  | Some l => between_ptrs (enc (mid ++ tr) ++ [NUL]) l
  end = enc mid.
Proof.
  destruct tr as [|x tr]; cbn [space_ptr]; rewrite ?app_nil_r.
  - exact (eq_trans (f_equal (fun l => between_ptrs (enc l ++ [NUL]) [NUL]) (eq_sym (app_nil_r mid)))
      (between_ptrs_enc mid [] [NUL])).
  - apply between_ptrs_enc.
Qed.

Section Trim.
Variable cps : list Z.
Hypothesis Hcps : Forall code_point cps.

Lemma Utf8StrTrimFront_enc :
  exists sp mid, cps = sp ++ mid /\ spaces sp /\ no_space (head mid) /\
    Utf8StrTrimFront (enc cps) = Some (enc mid).
Proof.
  unfold Utf8StrTrimFront. rewrite for_text by done.
  induction Hcps as [|c cs Hc Hcs IH].
  - exists [], []. by split_and!; [|apply Forall_nil_2| |].
  - cbn [run]. rewrite code_point_not_WEOF by done. destruct (IsSpace c) eqn:E; cbn [negb].
    + destruct (IH Hcs) as (sp & mid & -> & H1 & H2 & H3). exists (c :: sp), mid.
      split_and!; [done|by apply Forall_cons_2|done|done].
    + exists [], (c :: cs). split_and!; [done|by apply Forall_nil_2|by intros x [= <-]|].
      f_equal. exact (eq_trans (f_equal (fun l => between_ptrs (enc l ++ [NUL]) [NUL])
        (eq_sym (app_nil_r (c :: cs)))) (between_ptrs_enc (c :: cs) [] [NUL])).
Qed.

Lemma Utf8StrTrimBack_enc :
  exists mid tr, cps = mid ++ tr /\ spaces tr /\ no_space (list.last mid) /\
    Utf8StrTrimBack (enc cps) = Some (enc mid).
Proof.
  unfold Utf8StrTrimBack. rewrite for_text by done.
  destruct (last_space_spec cps [] ltac:(by apply Forall_nil_2)) as (mid & tr & E & H1 & H2 & H3).
  exists mid, tr. split_and!; [done|done|done|]. f_equal.
  match goal with |- run ?b ?f _ _ _ = _ =>
    assert (Hrun : forall l cs, Forall code_point cs -> run b f [NUL] cs l = f (last_space cs l) [NUL]) end.
  { intros l cs Hcs. revert l. induction Hcs as [|c cs Hc _ IH]; intros l; [done|].
    cbn [run last_space]. rewrite code_point_not_WEOF by done. by rewrite IH. }
  rewrite Hrun by done. change (space_ptr [] cps) with (@None bytes) in H3. rewrite H3.
  cbn [app] in E. unfold c_str. destruct tr as [|x tr]; cbn [space_ptr].
  - by rewrite app_nil_r in E; rewrite E.
  - rewrite app_nil_r, E. apply between_ptrs_enc.
Qed.

Lemma Utf8StrTrim_enc :
  exists mid, trimmed cps mid /\ Utf8StrTrim (enc cps) = Some (enc mid).
Proof.
  unfold Utf8StrTrim. rewrite for_text by done.
  match goal with |- context [run ?b ?f _ _ _] =>
    assert (Hrun : forall p l cs, Forall code_point cs ->
      run b f [NUL] cs (Some p, l) = f (Some p, last_space cs l) [NUL]) end.
  { intros p l cs Hcs. revert l. induction Hcs as [|c cs Hc _ IH]; intros l; [done|].
    cbn [run last_space]. rewrite code_point_not_WEOF by done.
    destruct (IsSpace c); cbn [negb default]; by rewrite IH. }
  match goal with |- exists mid, _ /\ Some (run ?b ?f _ _ _) = _ =>
    enough (H : forall l, exists mid, trimmed cps mid /\
      Some (run b f [NUL] cps (None, l)) = Some (enc mid)) by apply H end.
  induction Hcps as [|c cs Hc Hcs IH]; intros l.
  - exists []. split; [|done]. exists [], []. by split_and!; try apply Forall_nil_2.
  - cbn [run]. rewrite code_point_not_WEOF by done. destruct (IsSpace c) eqn:E; cbn [negb].
    + destruct (IH Hcs (Some (default (enc (c :: cs) ++ [NUL]) l))) as (mid & Hmid & Hr).
      exists mid. split; [|exact Hr]. destruct Hmid as (sp & tr & -> & H1 & H2).
      exists (c :: sp), tr. split_and!; [done|by apply Forall_cons_2|by destruct H2 as [? []]..].
    + destruct (last_space_spec cs [] ltac:(by apply Forall_nil_2)) as (mid & tr & E' & H1 & H2 & H3).
      cbn [app] in E'. exists (c :: mid). split.
      * exists [], tr. split_and!; [by rewrite E'|by apply Forall_nil_2|done|by intros x [= <-]|].
        intros x. destruct mid as [|y mid]; [by intros [= <-]|exact (H2 x)].
      * rewrite Hrun by done. change (space_ptr [] cs) with (@None bytes) in H3.
        rewrite H3, E'. pose proof (between_space_ptr (c :: mid) tr) as Hb.
        cbn [app] in Hb. destruct (space_ptr tr []); exact (f_equal Some Hb).
Qed.

End Trim.

(** *** Words *)

(** The words of a text, [word] being the letters of one that has begun. *)
Fixpoint words (is_split : Z -> bool) (word cps : list Z) : list (list Z) :=
  match cps with
  | [] => match word with [] => [] | _ => [word] end
  | c :: cs =>
      if is_split c then
        match word with [] => words is_split [] cs | _ => word :: words is_split [] cs end
      else words is_split (word ++ [c]) cs
  end.

Definition word_ptr (word suf : list Z) : option bytes :=
  match word with [] => None | _ => Some (enc (word ++ suf) ++ [NUL]) end.

Lemma length_enc_nonempty c w suf :
  code_point c -> (length (enc suf ++ [NUL]) < length (enc ((c :: w) ++ suf) ++ [NUL]))%nat.
Proof.
  intros Hc. rewrite enc_app, !length_app. pose proof (length_enc_cons c w Hc). lia.
Qed.

Lemma split_word_enc is_split word c cs terms :
  Forall code_point (word ++ c :: cs) ->
  split_word is_split (terms, word_ptr word (c :: cs)) (enc (c :: cs) ++ [NUL]) c =
  if is_split c then (match word with [] => terms | _ => terms ++ [enc word] end, None)
  else (terms, word_ptr (word ++ [c]) cs).
Proof.
  intros [Hw [Hc _]%Forall_cons_1]%Forall_app. unfold split_word.
  rewrite code_point_not_WEOF by done. destruct word as [|x w]; cbn [word_ptr].
  - by destruct (is_split c).
  - apply Forall_cons_1 in Hw as [Hx _]. destruct (is_split c).
    + rewrite (proj2 (Nat.ltb_lt _ _) (length_enc_nonempty x w (c :: cs) Hx)).
      by rewrite between_ptrs_enc.
    + cbn [app default word_ptr]. by rewrite <- (app_assoc w [c] cs).
Qed.

Lemma run_words is_split cps word terms :
  Forall code_point (word ++ cps) ->
  run (fun st p codepoint _ => inl (split_word is_split st p codepoint)) last_word [NUL] cps
    (terms, word_ptr word cps) = terms ++ (enc <$> words is_split word cps).
Proof.
  revert word terms. induction cps as [|c cs IH]; intros word terms Hall; cbn [run words].
  - destruct word as [|x w]; cbn [word_ptr last_word].
    + by rewrite app_nil_r.
    + apply Forall_app in Hall as [[Hx _]%Forall_cons_1 _].
      pose proof (length_enc_nonempty x w [] Hx) as Hl. change (enc [] ++ [NUL]) with [NUL] in Hl.
      rewrite (proj2 (Nat.ltb_lt _ _) Hl). cbn [andb Nat.leb length].
      f_equal. exact (f_equal (fun y => [y]) (between_ptrs_enc (x :: w) [] [NUL])).
  - rewrite split_word_enc by done. pose proof Hall as [Hw [Hc Hcs]%Forall_cons_1]%Forall_app.
    destruct (is_split c) eqn:E.
    + rewrite (IH [] _ Hcs). destruct word as [|x w]; [done|]. by rewrite <- app_assoc.
    + apply IH. by rewrite <- app_assoc.
Qed.

Section Words.
Variable cps : list Z.
Hypothesis Hcps : Forall code_point cps.

Lemma Utf8SplitOnWhitespace_enc terms :
  Utf8SplitOnWhitespace (enc cps) terms = Some (terms ++ (enc <$> words IsSpace [] cps)).
Proof.
  unfold Utf8SplitOnWhitespace. rewrite for_text by done. f_equal. exact (run_words IsSpace cps [] terms Hcps).
Qed.

Lemma Utf8SplitOnWChars_enc splits terms :
  Utf8SplitOnWChars (enc cps) splits terms =
  Some (terms ++ (enc <$> words (fun c => existsb (fun x => uint32 x =? c) (wcs splits)) [] cps)).
Proof.
  unfold Utf8SplitOnWChars. rewrite for_text by done. f_equal. exact (run_words _ cps [] terms Hcps).
Qed.

(** The text before and after the first [split]. *)
Lemma Utf8SplitPairs_enc split :
  Utf8SplitPairs (enc cps) split =
  Some (match list_find (fun c => c = uint32 split) cps with
        | Some (i, _) => (enc (take i cps), enc (drop (S i) cps))
        | None => (enc cps, [])
        end).
Proof.
  unfold Utf8SplitPairs. rewrite for_text by done. f_equal.
  enough (H : forall pre post, cps = pre ++ post ->
    run (fun (_ : unit) p codepoint next =>
       if codepoint =? uint32 split then inr (between_ptrs (c_str (enc cps)) p, between_ptrs next [NUL])
       else inl ()) (fun _ _ => (enc cps, [])) [NUL] post () =
    match list_find (fun c => c = uint32 split) post with
    | Some (i, _) => (enc (pre ++ take i post), enc (drop (S i) post))
    | None => (enc cps, [])
    end) by (by apply (H [])).
  intros pre post. revert pre. induction post as [|c post IH]; intros pre Hsplit; [done|].
  cbn [run list_find]. destruct (decide (c = uint32 split)) as [->|Hc].
  - rewrite Z.eqb_refl. unfold c_str. rewrite Hsplit at 1. rewrite between_ptrs_enc. cbn [take drop].
    rewrite app_nil_r. f_equal.
    exact (eq_trans (f_equal (fun l => between_ptrs (enc l ++ [NUL]) [NUL]) (eq_sym (app_nil_r post)))
      (between_ptrs_enc post [] [NUL])).
  - rewrite (proj2 (Z.eqb_neq _ _) Hc). rewrite (IH (pre ++ [c])) by (by rewrite <- app_assoc).
    destruct (list_find _ post) as [[i x]|]; [|done]. cbn. by rewrite <- app_assoc.
Qed.

End Words.

(** *** Comparison *)

(** What a code point is compared as. *)
Definition letters (expand : bool) (c : Z) : list Z :=
  if expand then match glb_umlaut_map c with Some a => uchar <$> a | None => [c] end else [c].

Definition spelled (expand : bool) (cps : list Z) : list Z := concat (letters expand <$> cps).

(** The lexicographic order. *)
Fixpoint lex (a b : list Z) : Z :=
  match a, b with
  | [], [] => 0
  | [], _ :: _ => -1
  | _ :: _, [] => 1
  | x :: a, y :: b => if x <? y then -1 else if y <? x then 1 else lex a b
  end.

Definition ascii (b : byte) : bool := uchar b <? 128.

(** The replacements are one to three letters without accents. *)
Lemma umlaut_ascii c a :
  glb_umlaut_map c = Some a -> a <> [] /\ (length a <= 3)%nat /\ forallb ascii a = true.
Proof.
  unfold glb_umlaut_map. intros H. apply fmap_Some in H as ([c' s] & H & ->). cbn [snd].
  assert (Hall : forallb (fun x => match bstr (x.2) with
      | [] => false | a => (length a <=? 3)%nat && forallb ascii a end) Utf8Tables.umlaut_pairs = true)
    by by vm_compute.
  rewrite forallb_forall in Hall. apply find_some in H as [H _]. apply Hall in H. cbn [snd] in H.
  destruct (bstr s) as [|b a]; [done|]. apply andb_true_iff in H as [H1%Nat.leb_le H2]. done.
Qed.

Section Compare.
Variable expand : bool.

(** Letters [pend] of a replacement and the code points [suf] are to be compared. *)
Definition CS (pend : bytes) (suf : list Z) : CompareStruct :=
  {| umlaut_expand_ := expand; p_ := c_str (enc suf);
     crt_umlaut_ := match pend with [] => None | _ => Some pend end |}.

Definition to_compare (pend : bytes) (suf : list Z) : list Z := (uchar <$> pend) ++ spelled expand suf.

Lemma next_umlaut_spec pend suf cs b pend' :
  umlaut_expand_ cs = expand -> pend = b :: pend' -> ascii b = true ->
  next_umlaut cs (c_str (enc suf)) pend = (uchar b, CS pend' suf).
Proof.
  intros He -> Hb. unfold next_umlaut, CS. cbn [head tail default from_option id]. rewrite He. unfold ascii in Hb.
  bool_prop. rewrite schar_pos, wrapU_small by (pose proof (uchar_range b); lia).
  f_equal. f_equal. by destruct pend'.
Qed.

Lemma NextCodepoint_spec pend suf x xs :
  Forall code_point suf -> forallb ascii pend = true -> to_compare pend suf = x :: xs ->
  exists pend' suf', NextCodepoint (CS pend suf) = Some (x, CS pend' suf') /\
    Forall code_point suf' /\ forallb ascii pend' = true /\ to_compare pend' suf' = xs.
Proof.
  unfold to_compare. intros Hs Hp E. destruct pend as [|b pend].
  - destruct suf as [|c suf]; [done|]. apply Forall_cons_1 in Hs as [Hc Hs].
    unfold NextCodepoint. cbn [CS crt_umlaut_ p_ umlaut_expand_]. unfold c_str at 1. rewrite enc_cons, <- app_assoc.
    rewrite Utf8ToCodePoint_enc by done. cbn [mbind option_bind].
    rewrite code_point_not_WEOF by done. cbn [negb andb].
    unfold spelled in E. cbn [fmap list_fmap concat app] in E. unfold letters at 1 in E.
    destruct expand eqn:He; [destruct (glb_umlaut_map c) as [a|] eqn:Ha|].
    + destruct (umlaut_ascii c a Ha) as (Hne & _ & Hasc). destruct a as [|b a]; [done|].
      cbn in Hasc. apply andb_true_iff in Hasc as [Hb Hasc].
      cbn in E. injection E as <- <-. exists a, suf.
      change (enc suf ++ [NUL]) with (c_str (enc suf)).
      by rewrite (next_umlaut_spec (b :: a) suf _ b a).
    + cbn in E. injection E as <- <-. exists [], suf. unfold CS. by rewrite He.
    + cbn in E. injection E as <- <-. exists [], suf. unfold CS. by rewrite He.
  - cbn in Hp. apply andb_true_iff in Hp as [Hb Hp]. cbn in E. injection E as <- <-.
    exists pend, suf. unfold NextCodepoint. cbn [CS crt_umlaut_ p_].
    by rewrite (next_umlaut_spec (b :: pend) suf _ b pend).
Qed.

Lemma letters_nonempty c : letters expand c <> [].
Proof.
  unfold letters. destruct expand; [|done]. destruct (glb_umlaut_map c) as [a|] eqn:E; [|done].
  apply umlaut_ascii in E as [H _]. by destruct a.
Qed.

Lemma IsDone_spec pend suf :
  Forall code_point suf -> IsDone (CS pend suf) = bool_decide (to_compare pend suf = []).
Proof.
  intros Hs. unfold IsDone, to_compare. cbn [CS p_ crt_umlaut_].
  destruct pend as [|b pend]; [|by rewrite andb_comm, !bool_decide_false].
  rewrite (bool_decide_true (None = None)), andb_true_r by done. cbn [fmap list_fmap app].
  destruct suf as [|c suf]; [done|]. apply Forall_cons_1 in Hs as [Hc Hs].
  rewrite (proj2 (Nat.ltb_lt _ _)).
  - rewrite bool_decide_false; [done|]. unfold spelled. cbn. intros H.
    apply app_eq_nil in H as [H _]. by apply letters_nonempty in H.
  - unfold c_str. rewrite length_app. pose proof (length_enc_cons c suf Hc). cbn [length]. lia.
Qed.

Lemma Utf8Compare_loop fuel pend1 suf1 pend2 suf2 :
  Forall code_point suf1 -> Forall code_point suf2 ->
  forallb ascii pend1 = true -> forallb ascii pend2 = true ->
  (length (to_compare pend1 suf1) < fuel)%nat ->
  loop Utf8Compare_step fuel (CS pend1 suf1, CS pend2 suf2) =
  Some (lex (to_compare pend1 suf1) (to_compare pend2 suf2)).
Proof.
  revert pend1 suf1 pend2 suf2.
  induction fuel as [|fuel IH]; intros pend1 suf1 pend2 suf2 H1 H2 Hp1 Hp2 Hf; [lia|].
  rewrite loop_S. cbn [Utf8Compare_step]. rewrite !IsDone_spec by done.
  destruct (to_compare pend1 suf1) as [|x xs] eqn:E1.
  - cbn. by destruct (to_compare pend2 suf2).
  - rewrite bool_decide_false by done. destruct (to_compare pend2 suf2) as [|y ys] eqn:E2; [done|].
    rewrite bool_decide_false by done. cbn [negb andb].
    destruct (NextCodepoint_spec pend1 suf1 x xs) as (p1 & s1 & -> & A1 & A2 & A3); [done..|].
    destruct (NextCodepoint_spec pend2 suf2 y ys) as (p2 & s2 & -> & B1 & B2 & B3); [done..|].
    cbn [mbind option_bind lex]. destruct (x <? y); [done|]. destruct (y <? x); [done|].
    cbn [mbind option_bind]. rewrite IH by (try done; rewrite A3; cbn in Hf; lia). by rewrite A3, B3.
Qed.

Lemma length_spelled cps :
  Forall code_point cps -> (length (spelled expand cps) <= 4 * length (enc cps))%nat.
Proof.
  induction 1 as [|c cps Hc _ IH]; [done|]. pose proof (length_enc_cons c cps Hc).
  unfold spelled in *. cbn [fmap list_fmap concat]. rewrite length_app.
  assert (length (letters expand c) <= 3)%nat; [|lia].
  unfold letters. destruct expand; [|cbn; lia]. destruct (glb_umlaut_map c) as [a|] eqn:E; [|cbn; lia].
  apply umlaut_ascii in E as (_ & Hl & _). by rewrite length_fmap.
Qed.

Lemma Utf8Compare_enc cps1 cps2 :
  Forall code_point cps1 -> Forall code_point cps2 ->
  Utf8Compare (enc cps1) (enc cps2) expand = Some (lex (spelled expand cps1) (spelled expand cps2)).
Proof.
  intros H1 H2. unfold Utf8Compare.
  change (CompareStruct_new (enc cps1) expand) with (CS [] cps1).
  change (CompareStruct_new (enc cps2) expand) with (CS [] cps2).
  rewrite Utf8Compare_loop; [done|done..|].
  pose proof (length_spelled cps1 H1). unfold to_compare. cbn [fmap list_fmap app]. lia.
Qed.

End Compare.

(** *** Pieces *)

Lemma wcs_text l : 0 ∉ l -> wcs (l ++ [0]) = l.
Proof.
  induction l as [|c l IH]; [done|]. rewrite not_elem_of_cons. intros [Hc Hl]. cbn.
  rewrite (proj2 (Z.eqb_neq _ _)) by done. by rewrite IH.
Qed.

Lemma wcsstr_Some s w n :
  wcsstr s w = Some n -> exists a b, s = a ++ w ++ b /\ length a = n.
Proof.
  revert n. induction s as [|c s IH]; intros n; cbn [wcsstr]; case_bool_decide as E.
  - intros [= <-]. exists [], []. rewrite app_nil_r, <- E. by rewrite take_nil.
  - done.
  - intros [= <-]. exists [], (drop (length w) (c :: s)).
    split; [|done]. cbn [app]. rewrite <- E at 1. by rewrite take_drop.
  - intros (m & Hm & ->)%fmap_Some. destruct (IH m Hm) as (a & b & -> & <-). by exists (c :: a), b.
Qed.

Lemma wcsstr_None s w : wcsstr s w = None -> forall a b, s <> a ++ w ++ b.
Proof.
  induction s as [|c s IH]; cbn [wcsstr]; case_bool_decide as E; try done; intros H a b Hs.
  - destruct a; [|done]. apply E. rewrite Hs. cbn [app]. by rewrite take_app_length.
  - apply fmap_None in H. destruct a as [|x a].
    + apply E. rewrite Hs. cbn [app]. by rewrite take_app_length.
    + injection Hs as -> Hs. by eapply IH.
Qed.

(** The pieces put together with [split] between them. *)
Fixpoint glue (split : list Z) (pieces : list (list Z)) : list Z :=
  match pieces with
  | [] => []
  | [p] => p
  | p :: pieces => p ++ split ++ glue split pieces
  end.

Lemma glue_cons split p pieces : pieces <> [] -> glue split (p :: pieces) = p ++ split ++ glue split pieces.
Proof. by destruct pieces. Qed.

Lemma WcharToUtf8String_enc cps :
  Forall code_point cps -> 0 ∉ cps -> WcharToUtf8String (cps ++ [0]) = enc cps.
Proof.
  intros Hc H0. unfold WcharToUtf8String, WcharToUtf8StringSet.
  rewrite wcs_text by done. by rewrite append_wchars_enc.
Qed.

Lemma split_string_loop split fuel cps terms :
  Forall code_point cps -> 0 ∉ cps -> 0 ∉ split -> split <> [] -> (length cps < fuel)%nat ->
  exists pieces,
    loop (split_string_step (split ++ [0]) (length split)) fuel (cps ++ [0], terms) =
      Some (terms ++ (enc <$> pieces)) /\
    glue split pieces = cps /\ pieces <> [].
Proof.
  revert cps terms. induction fuel as [|fuel IH]; intros cps terms Hc H0 Hs0 Hs Hf; [lia|].
  rewrite loop_S. cbn [split_string_step]. rewrite !wcs_text by done.
  destruct (wcsstr cps split) as [n|] eqn:E.
  - apply wcsstr_Some in E as (a & b & -> & <-).
    rewrite !Forall_app in Hc. destruct Hc as (Ha & _ & Hb).
    rewrite !not_elem_of_app in H0. destruct H0 as (Ha0 & _ & Hb0).
    rewrite CHECK_true by (apply Nat.ltb_lt; rewrite !length_app; cbn; lia).
    cbn [mbind option_bind].
    replace (drop (length a + length split) ((a ++ split ++ b) ++ [0])) with (b ++ [0])
      by (rewrite <- length_app, <- !app_assoc, app_assoc; by rewrite drop_app_length).
    destruct (IH b (terms ++ [WcharToUtf8StringWithLen ((a ++ split ++ b) ++ [0]) (length a)]))
      as (pieces & Hr & Hg & Hn); [done..| |].
    { rewrite !length_app in Hf. destruct split; [done|]. cbn in Hf. lia. }
    exists (a :: pieces). rewrite glue_cons, Hg by done. split_and!; [|done|done].
    rewrite Hr, <- app_assoc. f_equal. f_equal. cbn [app fmap list_fmap]. f_equal.
    unfold WcharToUtf8StringWithLen, WcharToUtf8StringSetWithLen.
    rewrite wcs_text by (rewrite !not_elem_of_app; auto). rewrite take_app_length.
    by rewrite append_wchars_enc.
  - exists [cps]. split_and!; [|done|done]. cbn [mbind option_bind].
    by rewrite WcharToUtf8String_enc.
Qed.

Lemma Utf8SplitString_enc cps split terms :
  Forall code_point cps -> Forall code_point split -> 0 ∉ cps -> 0 ∉ split ->
  split <> [] -> cps <> [] ->
  exists pieces, Utf8SplitString (enc cps) (enc split) terms = Some (terms ++ (enc <$> pieces)) /\
    glue split pieces = cps.
Proof.
  intros Hc Hs H0 Hs0 Hs1 Hc1. unfold Utf8SplitString, c_str.
  rewrite !Utf8ToWcharWithLen_at by done. cbn [mbind option_bind].
  rewrite (proj2 (Z.eqb_neq (zlen cps) 0)) by (unfold zlen; by destruct cps).
  rewrite (proj2 (Z.eqb_neq (zlen split) 0)) by (unfold zlen; by destruct split).
  unfold zlen. rewrite Nat2Z.id.
  destruct (split_string_loop split (S (length (cps ++ [0]))) cps terms) as (p & H & Hg & _);
    [done..|rewrite length_app; lia|]. by exists p.
Qed.

(** ISO-8859-1 has the first 256 code points. *)
Lemma Iso8859_1ToUtf8_enc s : Iso8859_1ToUtf8 s = enc (uchar <$> s).
Proof.
  unfold Iso8859_1ToUtf8.
  match goal with |- foldl ?f _ _ = _ =>
    enough (H : forall out, foldl f out s = out ++ enc (uchar <$> s)) by apply H end.
  induction s as [|b s IH]; intros out; [by rewrite app_nil_r|]. cbn [foldl fmap list_fmap].
  rewrite IH, enc_cons.
  trans ((out ++ CodePointToUtf8Char (uchar b)) ++ enc (uchar <$> s)); [|by rewrite <- app_assoc].
  f_equal. clear.
  assert (H : (if uchar b <? 128 then [b] else if uchar b <? 192
     then [Byte.xc2] ++ [to_byte (128 + Z.land (uchar b) 63)]
     else [Byte.xc3] ++ [to_byte (128 + Z.land (uchar b) 63)]) = CodePointToUtf8Char (uchar b))
    by by destruct b.
  rewrite <- H. by destruct (uchar b <? 128); [|destruct (uchar b <? 192)].
Qed.

(** ** Theorems *)

(** C17: On the text of any code points below 2^31 without zero the operations of strutil::i18n are
    those on the list of the code points: decoding gives the list, encoding the text, the length
    is the number of code points, a prefix has as many as asked for, trimming takes the spaces
    off the ends, splitting gives the words, or pieces that put together give the text, case and
    accents are changed letter by letter, and comparing is comparing the lists. *)
Theorem utf8_code_points (cps : list Z) :
  Forall code_point cps -> 0 ∉ cps -> zlen cps < 2 ^ 64 ->
  Utf8ToWcharWithLen (c_str (enc cps)) (length (enc cps)) = Some (cps ++ [0], zlen cps) /\
  WcharToUtf8String (cps ++ [0]) = enc cps /\
  IsUtf8Valid (enc cps) = Some true /\
  Utf8Strlen (c_str (enc cps)) = Some (zlen cps) /\
  (forall n, 0 <= n -> Utf8StrPrefix (enc cps) n = Some (enc (take (Z.to_nat n) cps))) /\
  (exists mid, trimmed cps mid /\ Utf8StrTrim (enc cps) = Some (enc mid)) /\
  (forall terms, Utf8SplitOnWhitespace (enc cps) terms =
     Some (terms ++ (enc <$> words IsSpace [] cps))) /\
  (forall split terms, Forall code_point split -> 0 ∉ split -> split <> [] -> cps <> [] ->
     exists pieces, Utf8SplitString (enc cps) (enc split) terms = Some (terms ++ (enc <$> pieces)) /\
       glue split pieces = cps) /\
  (forall towupper, ToUpperStr towupper (enc cps) = Some (enc (ToUpper towupper <$> cps))) /\
  (forall result, UmlautTransformUtf8 (enc cps) result =
     Some (existsb accented cps, result ++ concat (translit <$> cps))) /\
  (forall cps2 expand, Forall code_point cps2 ->
     Utf8Compare (enc cps) (enc cps2) expand =
     Some (lex (spelled expand cps) (spelled expand cps2))).
Proof.
  intros Hc H0 Hlen. split_and!.
  - by apply Utf8ToWcharWithLen_at.
  - by apply WcharToUtf8String_enc.
  - by apply IsUtf8Valid_enc.
  - by apply (Utf8Strlen_at cps Hc []).
  - by apply Utf8StrPrefix_enc.
  - by apply Utf8StrTrim_enc.
  - by apply Utf8SplitOnWhitespace_enc.
  - intros. by apply Utf8SplitString_enc.
  - intros. by apply ToUpperStr_enc.
  - intros. by apply UmlautTransformUtf8_enc.
  - intros. by apply Utf8Compare_enc.
Qed.

Lemma utf8_code_points_witness :
  Utf8StrPrefix (enc [0x218; 0x6f; 0x1f600]) 2 = Some (enc [0x218; 0x6f]) /\
  Utf8StrPrefix (enc [0x218; 0x6f; 0x1f600]) 2 = Some [Byte.xc8; Byte.x98; Byte.x6f].
Proof.
  split; [|by vm_compute].
  destruct (utf8_code_points [0x218; 0x6f; 0x1f600]) as (_ & _ & _ & _ & H & _).
  - repeat apply Forall_cons_2; [..|apply Forall_nil_2]; unfold code_point; lia.
  - rewrite !not_elem_of_cons. split_and!; [lia..|apply not_elem_of_nil].
  - by vm_compute.
  - by apply (H 2).
Defined.

(** On any bytes of a [std::string] the loops over code points end without reading after its
    NUL. *)
Theorem utf8_total s terms split splits towupper :
  is_Some (IsUtf8Valid s) /\ is_Some (Utf8StrTrim s) /\ is_Some (Utf8StrTrimFront s) /\
  is_Some (Utf8StrTrimBack s) /\ is_Some (Utf8SplitPairs s split) /\
  is_Some (Utf8SplitOnWChars s splits terms) /\ is_Some (Utf8SplitOnWhitespace s terms) /\
  is_Some (ToUpperStr towupper s) /\ is_Some (ToLowerStr towupper s) /\
  is_Some (UmlautTransformUtf8 s []) /\ is_Some (XmlStrEscape s).
Proof.
  split_and!; match goal with
    | |- is_Some (for_codepoints _ _ _ _ _) => idtac
    | |- is_Some (?f ?a ?b ?c) => unfold f
    | |- is_Some (?f ?a ?b) => unfold f
    | |- is_Some (?f ?a) => unfold f
    end;
    edestruct @for_codepoints_total as [r Hr]; rewrite Hr; by eexists.
Qed.

(** A sequence cut by the end of an array without a NUL is read past the end of it, as
    [Utf8ToCodePoint] does not look at [end]. *)
Theorem cut_sequence_read_past_end :
  Utf8ToWcharWithLen [Byte.xc3] 1 = None /\ JsonStrEscape [Byte.xc3] 1 = None.
Proof. by vm_compute. Qed.

(** The table of [IsAlnum] ends with U+FFFF, and what is read for the eight characters after it
    is behind the table: the test should be [>=]. *)
Theorem IsAlnum_reads_past_table c :
  0 <= c -> IsAlnum c = None <-> 65536 <= c < 65544.
Proof.
  intros Hc. unfold IsAlnum. change (zlen Utf8Tables.alnum_table) with 8192.
  rewrite shiftr_div by lia. change (2 ^ 3) with 8.
  destruct (8192 <? c / 8) eqn:E; bool_prop; [split; [done|dlia]|].
  destruct (decide (c / 8 = 8192)) as [E8|E8].
  - rewrite E8. split; [dlia|done].
  - destruct (lookup_lt_is_Some_2 Utf8Tables.alnum_table (Z.to_nat (c / 8))) as [x Hx].
    { change (length Utf8Tables.alnum_table) with (Z.to_nat 8192). dlia. }
    rewrite Hx. split; [done|dlia].
Qed.

End Utf8Props.
