(* ===== verification/JsonText.v ===== *)
(** * JsonText: the strings of JSON and XML read back

    What [JsonStrEscape] writes is read by the rules of RFC 8259, and what [JsonStrUnescape]
    makes of it; what [XmlStrEscape] writes is read with the five entities of XML. *)

From S2P Require Import Prelude.
From S2P Require Import CString.
From S2P Require Import StrUtil.
From S2P Require Import Utf8.
From S2P Require Import Utf8Props.

Module JsonText.
Import StrUtil Utf8 Utf8Props.

(** ** A reader of the strings of JSON

    The characters between the quotes of a string (RFC 8259, section 7), for a text of ASCII:
    the UTF-16 code units that they stand for. *)

Definition hex_value (c : byte) : option Z :=
  if between 48 57 c then Some (uchar c - 48)
  else if between 97 102 c then Some (uchar c - 87)
  else if between 65 70 c then Some (uchar c - 55)
  else None.

Definition hex4_value (p0 p1 p2 p3 : byte) : option Z :=
  v0 ← hex_value p0; v1 ← hex_value p1; v2 ← hex_value p2; v3 ← hex_value p3;
  Some (v0 * 4096 + v1 * 256 + v2 * 16 + v3).

(** The characters with an escape of their own. *)
Definition short_escape (c : byte) : option Z :=
  match c with
  | Byte.x22 => Some 34 | Byte.x5c => Some 92 | Byte.x2f => Some 47 | Byte.x62 => Some 8
  | Byte.x66 => Some 12 | Byte.x6e => Some 10 | Byte.x72 => Some 13 | Byte.x74 => Some 9
  | _ => None
  end.

Fixpoint json_units (s : bytes) : option (list Z) :=
  match s with
  | [] => Some []
  | Byte.x5c :: Byte.x75 :: p0 :: p1 :: p2 :: p3 :: s =>
      v ← hex4_value p0 p1 p2 p3; us ← json_units s; Some (v :: us)
  | Byte.x5c :: c :: s => v ← short_escape c; us ← json_units s; Some (v :: us)
  | Byte.x22 :: _ => None
  | c :: s => if between 32 126 c then us ← json_units s; Some (uchar c :: us) else None
  end.

Definition high (u : Z) : bool := (0xd800 <=? u) && (u <? 0xdc00).
Definition low (u : Z) : bool := (0xdc00 <=? u) && (u <? 0xe000).

(** The code points of UTF-16 (RFC 2781). *)
Fixpoint utf16 (us : list Z) : list Z :=
  match us with
  | [] => []
  | u :: us =>
      match us with
      | v :: us' =>
          if high u && low v then 0x10000 + (u - 0xd800) * 1024 + (v - 0xdc00) :: utf16 us'
          else u :: utf16 us
      | [] => [u]
      end
  end.

(** A Unicode scalar value. *)
Definition scalar (c : Z) : Prop := 0 <= c < 0x110000 /\ high c = false /\ low c = false.

(** ** What is written for one character *)

Definition units (c : Z) : list Z :=
  if c <? 0x10000 then [c] else [0xd800 + (c - 0x10000) / 1024; 0xdc00 + (c - 0x10000) mod 1024].

(** A property of the characters of ASCII. *)
Lemma ascii_cases (P : Z -> Prop) c :
  (forall b : byte, uchar b < 128 -> P (uchar b)) -> 0 <= c < 128 -> P c.
Proof.
  intros H Hc. rewrite <- (uchar_to_byte_small c) by lia. apply H.
  rewrite uchar_to_byte_small; lia.
Qed.

Lemma nibble n c : 0 <= n -> Z.land (Z.shiftr c n) 15 = c / 2 ^ n mod 16.
Proof. intros Hn. rewrite shiftr_div by done. exact (land_mod _ 4 ltac:(lia)). Qed.

Lemma kHexChars_value n :
  0 <= n < 16 ->
  hex_value (default NUL (kHexChars !! Z.to_nat n)) = Some n /\
  hexval (default NUL (kHexChars !! Z.to_nat n)) = n.
Proof.
  intros Hn.
  pose (digit (n : Z) := default NUL (kHexChars !! Z.to_nat n)).
  assert (H : match hex_value (digit n) with Some v => v =? n | None => false end &&
    (hexval (digit n) =? n) = true).
  { by apply (below_spec 16 (fun n =>
      match hex_value (digit n) with Some v => v =? n | None => false end &&
      (hexval (digit n) =? n))). }
  subst digit. cbv beta in H. apply andb_true_iff in H as [H1 H2%Z.eqb_eq].
  destruct (hex_value _) as [v|]; [|done]. bool_prop. by subst v.
Qed.

(** The four digits, most significant first. *)
Lemma hex4_spec c :
  0 <= c < 2 ^ 16 ->
  exists p0 p1 p2 p3, hex4 c = [p0; p1; p2; p3] /\ hex4_value p0 p1 p2 p3 = Some c /\
    hexval p0 = c / 4096 /\ hexval p1 = c / 256 mod 16 /\ hexval p2 = c / 16 mod 16 /\
    hexval p3 = c mod 16.
Proof.
  intros Hc. unfold hex4. cbn [fmap list_fmap].
  rewrite !nibble by lia. change (2 ^ 12) with 4096. change (2 ^ 8) with 256.
  change (2 ^ 4) with 16. change (2 ^ 0) with 1. rewrite Z.div_1_r.
  destruct (kHexChars_value (c / 4096 mod 16)) as [A0 B0]; [by apply Z.mod_pos_bound|].
  destruct (kHexChars_value (c / 256 mod 16)) as [A1 B1]; [by apply Z.mod_pos_bound|].
  destruct (kHexChars_value (c / 16 mod 16)) as [A2 B2]; [by apply Z.mod_pos_bound|].
  destruct (kHexChars_value (c mod 16)) as [A3 B3]; [by apply Z.mod_pos_bound|].
  do 4 eexists. split; [reflexivity|]. split_and!; [|rewrite B0; dlia|done..].
  unfold hex4_value. rewrite A0, A1, A2, A3. cbn [mbind option_bind]. f_equal. dlia.
Qed.

Lemma IS_CHAR_big c : 127 <= c -> IS_CHAR c = false.
Proof. intros H. unfold IS_CHAR. replace (c <=? 126) with false by lia. by rewrite andb_false_r. Qed.

(** What [json_char] writes of a character that is not in ASCII. *)
Lemma json_char_big c :
  128 <= c < 0x110000 ->
  json_char c =
  if c <? 0x10000 then Byte.x5c :: Byte.x75 :: hex4 c
  else (Byte.x5c :: Byte.x75 :: hex4 (0xd800 + (c - 0x10000) / 1024)) ++
       (Byte.x5c :: Byte.x75 :: hex4 (0xdc00 + (c - 0x10000) mod 1024)).
Proof.
  intros Hc. unfold json_char. rewrite IS_CHAR_big by lia.
  rewrite !(proj2 (Z.eqb_neq c _)) by lia.
  destruct (c <? 0x10000) eqn:E; bool_prop.
  - by replace (65536 <=? c) with false by lia.
  - replace (65536 <=? c) with true by lia. cbv zeta. cbn [app].
    change 1023 with (2 ^ 10 - 1). rewrite !land_mod, shiftr_div by lia.
    rewrite !(lor_disjoint 10) by first [done|apply Z.mod_pos_bound; lia].
    rewrite (Z.mod_small (_ / _)) by (change (2 ^ 10) with 1024; dlia). done.
Qed.

Lemma json_units_hex4 c s :
  0 <= c < 2 ^ 16 ->
  json_units (Byte.x5c :: Byte.x75 :: hex4 c ++ s) = us ← json_units s; Some (c :: us).
Proof.
  intros Hc. destruct (hex4_spec c Hc) as (p0 & p1 & p2 & p3 & -> & Hv & _).
  cbn [app json_units]. by rewrite Hv.
Qed.

Lemma json_units_char c s :
  0 <= c < 0x110000 ->
  json_units (json_char c ++ s) = us ← json_units s; Some (units c ++ us).
Proof.
  intros Hc. destruct (decide (c < 128)) as [Hs|Hs].
  - apply (ascii_cases (fun c => json_units (json_char c ++ s) = us ← json_units s; Some (units c ++ us)));
      [|lia]. clear. intros b Hb. destruct b; try (exfalso; revert Hb; by vm_compute); reflexivity.
  - rewrite json_char_big by lia. unfold units. destruct (c <? 0x10000) eqn:E; bool_prop.
    + cbn [app]. rewrite json_units_hex4 by lia. by destruct (json_units s).
    + rewrite <- app_assoc. cbn [app]. rewrite json_units_hex4 by dlia.
      rewrite json_units_hex4 by dlia. by destruct (json_units s).
Qed.

Lemma utf16_units c us : scalar c -> utf16 (units c ++ us) = c :: utf16 us.
Proof.
  intros (Hc & Hh & Hl). unfold units. destruct (c <? 0x10000) eqn:E; bool_prop; cbn [app utf16].
  - by destruct us; [|rewrite Hh].
  - unfold high, low. 
    rewrite (proj2 (Z.leb_le 0xd800 _)), (proj2 (Z.ltb_lt _ 0xdc00)), (proj2 (Z.leb_le 0xdc00 _)),
      (proj2 (Z.ltb_lt _ 0xe000)) by dlia. cbn [andb]. f_equal. dlia.
Qed.

Lemma scalar_code_point c : scalar c -> code_point c.
Proof. intros (Hc & _). unfold code_point. lia. Qed.

Lemma scalars_code_points cps : Forall scalar cps -> Forall code_point cps.
Proof. apply Forall_impl. exact scalar_code_point. Qed.

(** ** Escaping a text *)

Lemma json_units_text cps s us :
  Forall scalar cps -> json_units s = Some us ->
  exists us', json_units (concat (json_char <$> cps) ++ s) = Some us' /\ utf16 us' = cps ++ utf16 us.
Proof.
  intros Hcps Hs. induction Hcps as [|c cps Hc Hcps IH]; [by exists us|].
  destruct IH as (us' & E & Hu). exists (units c ++ us').
  cbn [fmap list_fmap concat]. rewrite <- app_assoc, json_units_char by apply Hc. rewrite E.
  split; [done|]. by rewrite utf16_units, Hu.
Qed.

Definition printable (b : byte) : bool := between 32 126 b.

Lemma json_char_printable c :
  0 <= c < 0x110000 -> forallb printable (json_char c) = true /\ (length (json_char c) <= 12)%nat.
Proof.
  intros Hc. destruct (decide (c < 128)) as [Hs|Hs].
  - apply (ascii_cases (fun c => forallb printable (json_char c) = true /\
      (length (json_char c) <= 12)%nat)); [|lia].
    clear. intros b Hb. destruct b; try (exfalso; revert Hb; by vm_compute); split; try done; by apply Nat.leb_le.
  - assert (H4 : forall c, forallb printable (hex4 c) = true /\ length (hex4 c) = 4%nat).
    { clear. intros c. unfold hex4. cbn [fmap list_fmap]. rewrite !nibble by lia. split; [|done].
      assert (Hd : forall n, printable (default NUL (kHexChars !! Z.to_nat (n mod 16))) = true).
      { intros n. apply (below_spec 16 (fun n => printable (default NUL (kHexChars !! Z.to_nat n))));
          [done|]. by apply Z.mod_pos_bound. }
      cbn [forallb]. by rewrite !Hd. }
    rewrite json_char_big by lia. destruct (c <? 0x10000).
    + destruct (H4 c) as [H Hl]. cbn [forallb length]. rewrite H, Hl. split; [done|lia].
    + destruct (H4 (0xd800 + (c - 0x10000) / 1024)) as [H Hl].
      destruct (H4 (0xdc00 + (c - 0x10000) mod 1024)) as [H' Hl'].
      rewrite forallb_app, length_app. cbn [forallb length]. rewrite H, H', Hl, Hl'. split; [done|lia].
Qed.

Lemma JsonStrEscape_enc cps :
  Forall scalar cps ->
  JsonStrEscape (c_str (enc cps)) (length (enc cps)) = Some (concat (json_char <$> wcs (cps ++ [0]))).
Proof.
  intros Hs. unfold JsonStrEscape, Utf8ToWchar, c_str.
  rewrite Utf8ToWcharWithLen_at by (by apply scalars_code_points). cbn [fmap option_fmap option_map mbind option_bind fst].
  rewrite CHECK_true; [done|]. apply Nat.leb_le.
  assert (Hw : Forall (fun c => 0 <= c < 0x110000) (wcs (cps ++ [0]))).
  { induction Hs as [|c cps Hc _ IH]; [apply Forall_nil_2|]. cbn. destruct (c =? 0); [apply Forall_nil_2|].
    apply Forall_cons_2; [apply Hc|done]. }
  induction Hw as [|c l Hc _ IH]; [cbn; lia|]. cbn [fmap list_fmap concat]. rewrite length_app.
  destruct (json_char_printable c Hc) as [_ Hl]. cbn [length]. lia.
Qed.

Lemma wcs_scalar cps : Forall scalar cps -> Forall scalar (wcs (cps ++ [0])).
Proof.
  induction 1 as [|c cps Hc _ IH]; [apply Forall_nil_2|]. cbn. destruct (c =? 0); [apply Forall_nil_2|].
  by apply Forall_cons_2.
Qed.

(** C18: What JsonStrEscape writes for a text of Unicode characters is ASCII that can be printed
    and, read as the contents of a JSON string by RFC 8259 and UTF-16, it is the text again, up
    to its first NUL: what follows a NUL is lost. *)
Theorem json_string_reads_back (cps : list Z) :
  Forall scalar cps ->
  exists out us, JsonStrEscape (c_str (enc cps)) (length (enc cps)) = Some out /\
    forallb printable out = true /\ json_units out = Some us /\ utf16 us = wcs (cps ++ [0]).
Proof.
  intros Hs. pose proof (wcs_scalar cps Hs) as Hw.
  destruct (json_units_text (wcs (cps ++ [0])) [] [] Hw eq_refl) as (us & E & Hu).
  rewrite app_nil_r in E, Hu. exists (concat (json_char <$> wcs (cps ++ [0]))), us.
  split_and!; [by apply JsonStrEscape_enc| |done|done].
  clear E Hu. induction Hw as [|c l Hc _ IH]; [done|]. cbn [fmap list_fmap concat].
  rewrite forallb_app, IH, andb_true_r. by apply json_char_printable, Hc.
Qed.

Lemma json_string_reads_back_witness :
  exists out us, JsonStrEscape (c_str (enc [0x218; 0x22; 0x1f600])) 7 = Some out /\
    json_units out = Some us /\ utf16 us = [0x218; 0x22; 0x1f600] /\
    out = bstr "\u0218\" ++ Byte.x22 :: bstr "\ud83d\ude00".
Proof.
  destruct (json_string_reads_back [0x218; 0x22; 0x1f600]) as (out & us & H1 & _ & H2 & H3).
  - repeat apply Forall_cons_2; [..|apply Forall_nil_2]; unfold scalar; (split; [lia|by vm_compute]).
  - exists out, us. split_and!; [exact H1|exact H2|exact H3|].
    assert (E : Some out = Some (bstr "\u0218\" ++ Byte.x22 :: bstr "\ud83d\ude00"))
      by (rewrite <- H1; by vm_compute).
    by injection E.
Defined.

(** ** Unescaping *)

(** What [JsonStrUnescape] makes of the number of an escape: only the last two digits count. *)
Definition two_digits (c : Z) : Z := c / 16 mod 16 * 256 + c mod 16.

Definition plain (c : Z) : Prop := 0 < c < 16 \/ 32 <= c <= 126.

(** What the escape of a character is turned into. *)
Definition undone (c : Z) : bytes :=
  if c <? 128 then (if bool_decide (plain c) then [to_byte c] else unescaped (two_digits c))
  else concat (unescaped <$> (two_digits <$> units c)).

Lemma unescaped_cases c :
  let d1 := c / 16 mod 16 in let d0 := c mod 16 in
  (d1 = 0 /\ unescaped (two_digits c) = [to_byte d0]) \/
  (0 < d1 < 8 /\ unescaped (two_digits c) = [to_byte (192 + 4 * d1); to_byte d0]) \/
  (8 <= d1 /\ unescaped (two_digits c) =
     [to_byte 224; to_byte (128 + 4 * d1); to_byte (128 + d0)]).
Proof.
  intros d1 d0. unfold unescaped, two_digits. fold d1 d0.
  assert (H1 : 0 <= d1 < 16) by by apply Z.mod_pos_bound.
  assert (H0 : 0 <= d0 < 16) by by apply Z.mod_pos_bound. clearbody d1 d0.
  rewrite !land_63, !shiftr_div by lia.
  destruct (decide (d1 = 0)) as [->|Hd]; [left|right; destruct (decide (d1 < 8)); [left|right]].
  - split; [done|]. replace (0 * 256 + d0 <? 127) with true by lia. done.
  - split; [lia|]. replace (d1 * 256 + d0 <? 127) with false by lia.
    replace (d1 * 256 + d0 <? 2047) with true by lia.
    f_equal; [f_equal; dlia|]. do 2 f_equal. dlia.
  - split; [lia|]. replace (d1 * 256 + d0 <? 127) with false by lia.
    replace (d1 * 256 + d0 <? 2047) with false by lia.
    replace (d1 * 256 + d0 <? 65535) with true by lia.
    f_equal; [f_equal; dlia|]. f_equal; [f_equal; dlia|]. do 2 f_equal. dlia.
Qed.

Lemma unescape_hex4 c s :
  0 <= c < 2 ^ 16 ->
  JsonStrUnescape_loop false (Byte.x5c :: Byte.x75 :: hex4 c ++ s) =
  unescaped (two_digits c) ++ JsonStrUnescape_loop false s.
Proof.
  intros Hc. destruct (hex4_spec c Hc) as (p0 & p1 & p2 & p3 & -> & _ & H0 & H1 & H2 & H3).
  cbn -[Z.shiftl Z.shiftr Z.land wrapU unescaped hexval]. rewrite H0, H1, H2, H3. do 2 f_equal. unfold two_digits, wrapU.
  rewrite !shiftl_mul by lia. dlia.
Qed.

Lemma unescape_char c s :
  0 <= c < 0x110000 ->
  JsonStrUnescape_loop false (json_char c ++ s) = undone c ++ JsonStrUnescape_loop false s.
Proof.
  intros Hc. destruct (decide (c < 128)) as [Hs|Hs].
  - apply (ascii_cases (fun c => JsonStrUnescape_loop false (json_char c ++ s) =
      undone c ++ JsonStrUnescape_loop false s)); [|lia].
    clear. intros b Hb. destruct b; try (exfalso; revert Hb; by vm_compute); reflexivity.
  - rewrite json_char_big by lia. unfold undone, units. replace (c <? 128) with false by lia.
    destruct (c <? 0x10000) eqn:E; bool_prop; cbn [fmap list_fmap concat].
    + rewrite app_nil_r. apply unescape_hex4. lia.
    + rewrite app_nil_r, <- app_assoc. cbn [app]. rewrite unescape_hex4 by dlia.
      rewrite unescape_hex4 by dlia. by rewrite <- app_assoc.
Qed.

(** The first bytes of the encoding of a character. *)
Lemma enc_char_bytes c :
  128 <= c < 0x110000 ->
  exists b0 b1 l, CodePointToUtf8Char c = b0 :: b1 :: l /\ 128 <= uchar b1 /\
    uchar b0 = (if c <? 0x800 then 192 + c / 64 else if c <? 0x10000 then 224 + c / 4096
                else 240 + c / 2 ^ 18) /\
    (0x800 <= c < 0x10000 -> uchar b1 = 128 + c / 64 mod 64).
Proof.
  intros Hc. unfold CodePointToUtf8Char. replace (c <=? 127) with false by lia.
  assert (Hlead : forall n mark width x, (S (S n), mark, width) ∈
      [(2%nat, 192, 5); (3%nat, 224, 4); (4%nat, 240, 3); (5%nat, 248, 2); (6%nat, 252, 1)] ->
      0 <= x < 2 ^ width ->
      uchar (to_byte (Z.lor mark (Z.land x (2 ^ width - 1)))) = mark + x).
  { intros n mark width x Hin Hx. destruct (lead_byte _ _ _ x Hin) as [H _]. rewrite H.
    by rewrite Z.mod_small. }
  assert (Hge : forall y, 128 <= uchar (cont y)).
  { intros y. rewrite uchar_cont. pose proof (Z.mod_pos_bound y 64). lia. }
  rewrite !shiftr_div by lia. cbv zeta.
  destruct (c <=? 2047) eqn:H1; [|destruct (c <=? 65535) eqn:H2; [|replace (c <=? 2097151) with true by lia]];
    bool_prop; (do 3 eexists; split; [reflexivity|split; [apply Hge|]]).
  - replace (c <? 0x800) with true by lia. split; [|lia].
    apply (Hlead 0%nat 192 5); [in_list|dlia].
  - replace (c <? 0x800) with false by lia. replace (c <? 0x10000) with true by lia. split.
    + apply (Hlead 1%nat 224 4); [in_list|dlia].
    + intros _. exact (uchar_cont (c / 2 ^ 6)).
  - replace (c <? 0x800) with false by lia. replace (c <? 0x10000) with false by lia. split; [|lia].
    apply (Hlead 2%nat 240 3); [in_list|dlia].
Qed.

Lemma undone_wrong c l l' :
  scalar c -> 0 < c -> ~ plain c -> undone c ++ l <> CodePointToUtf8Char c ++ l'.
Proof.
  intros (Hc & _) H0 Hp. destruct (decide (c < 128)) as [Hs|Hs].
  - revert H0 Hp. apply (ascii_cases (fun c => 0 < c -> ~ plain c ->
      undone c ++ l <> CodePointToUtf8Char c ++ l')); [|lia].
    clear. intros b Hb. destruct b; try (exfalso; revert Hb; by vm_compute); cbn; intros H1 H2;
      try (by destruct H2; unfold plain; lia); done.
  - destruct (enc_char_bytes c) as (b0 & b1 & r & -> & H1 & Hb0 & Hb1); [lia|].
    unfold undone, units. replace (c <? 128) with false by lia.
    intros E.
    assert (Hu : exists u rest, unescaped (two_digits u) ++ rest = b0 :: b1 :: r ++ l' /\
      (c < 0x10000 -> u = c)).
    { destruct (c <? 0x10000) eqn:Hc16; bool_prop; cbn [fmap list_fmap concat] in E;
        rewrite <- app_assoc in E; eexists _, _; (split; [exact E|lia]). }
    clear E. destruct Hu as (u & rest & E & Hu).
    destruct (unescaped_cases u) as [(Hd & Eu)|[(Hd & Eu)|(Hd & Eu)]]; rewrite Eu in E;
      cbn [app] in E.
    + injection E as E _. apply (f_equal uchar) in E. rewrite uchar_to_byte_small in E by dlia.
      revert Hb0. destruct (c <? 0x800) eqn:E1; [|destruct (c <? 0x10000) eqn:E2]; bool_prop; dlia.
    + injection E as _ E. apply (f_equal uchar) in E. rewrite uchar_to_byte_small in E by dlia. dlia.
    + injection E as E0 E1 _. apply (f_equal uchar) in E0, E1.
      rewrite uchar_to_byte_small in E0 by lia. rewrite uchar_to_byte_small in E1 by dlia.
      revert Hb0. destruct (c <? 0x800) eqn:C1; [|destruct (c <? 0x10000) eqn:C2]; bool_prop; intros Hb0.
      * dlia.
      * rewrite Hu in * by lia. rewrite Hb1 in E1 by lia. clear -E0 E1 Hb0 Hd C1. dlia.
      * assert (0 <= c / 2 ^ 18) by (apply Z.div_pos; lia). lia.
Qed.

Lemma undone_plain c : plain c -> undone c = CodePointToUtf8Char c.
Proof.
  intros Hp. unfold undone. replace (c <? 128) with true by (unfold plain in Hp; lia).
  rewrite bool_decide_true by done. unfold CodePointToUtf8Char.
  by replace (c <=? 127) with true by (unfold plain in Hp; lia).
Qed.

Lemma undone_text cps :
  Forall scalar cps ->
  JsonStrUnescape_loop false (concat (json_char <$> cps)) = concat (undone <$> cps).
Proof.
  induction 1 as [|c cps Hc _ IH]; [done|]. cbn [fmap list_fmap concat].
  rewrite unescape_char by apply Hc. by rewrite IH.
Qed.

Lemma undone_text_plain cps :
  Forall scalar cps -> 0 ∉ cps -> concat (undone <$> cps) = enc cps <-> Forall plain cps.
Proof.
  intros Hs H0. split.
  - induction Hs as [|c cps Hc _ IH]; [intros; apply Forall_nil_2|].
    apply not_elem_of_cons in H0 as [Hc0 H0]. rewrite enc_cons. cbn [fmap list_fmap concat]. intros E.
    destruct (decide (plain c)) as [Hp|Hp].
    + rewrite undone_plain in E by done. apply app_inv_head in E. apply Forall_cons_2; auto.
    + exfalso. eapply (undone_wrong c); [done| |done|exact E]. destruct Hc as [Hc _]. lia.
  - induction 1 as [|c cps Hp _ IH]; [done|]. cbn [fmap list_fmap concat].
    apply Forall_cons_1 in Hs as [_ Hs]. apply not_elem_of_cons in H0 as [_ H0].
    by rewrite undone_plain, IH.
Qed.

Lemma length_unescaped v : (length (unescaped v) <= 3)%nat.
Proof. unfold unescaped. repeat destruct (_ <? _); cbn; lia. Qed.

(** The array [dest] is never overrun. *)
Lemma length_unescape p b : (length (JsonStrUnescape_loop b p) <= length p)%nat.
Proof.
  remember (length p) as n eqn:Hn. revert p b Hn.
  induction n as [n IH] using lt_wf_ind. intros p b ->. destruct p as [|c p]; [cbn; lia|].
  assert (Hp : forall b (x : byte) p', (length p' <= length p)%nat ->
    (length (JsonStrUnescape_loop b p') <= length p')%nat).
  { intros b' x p' Hl. eapply IH; [|done]. cbn. lia. }
  pose proof (Hp false c p ltac:(lia)) as Hf. pose proof (Hp true c p ltac:(lia)) as Ht.
  cbn [JsonStrUnescape_loop]. destruct b; [|case_bool_decide; cbn [length]; lia].
  do 5 (case_bool_decide; [cbn [length]; lia|]).
  case_bool_decide; [|cbn [length]; lia].
  destruct p as [|p0 [|p1 [|p2 [|p3 p]]]]; try (cbn [length] in *; lia).
  cbv zeta. rewrite length_app. pose proof (length_unescaped (wrapU 16 (Z.shiftl (hexval p0) 24 +
    Z.shiftl (hexval p1) 16 + Z.shiftl (hexval p2) 8 + Z.shiftl (hexval p3) 0))).
  pose proof (Hp false c p ltac:(cbn; lia)). cbn [length] in *. lia.
Qed.

Lemma JsonStrUnescape_total p : JsonStrUnescape p = Some (JsonStrUnescape_loop false p).
Proof.
  unfold JsonStrUnescape. rewrite CHECK_true; [done|]. apply Nat.leb_le.
  pose proof (length_unescape p false). lia.
Qed.

(** A text without NUL that JsonStrEscape escapes comes back from JsonStrUnescape exactly when
    every character is one of U+0001 to U+000F or can be printed in ASCII: of the four digits of
    an escape JsonStrUnescape takes the last two, eight bits apart, so that every other text is
    changed by a round of encoding and decoding. *)
Theorem json_unescape_not_inverse (cps : list Z) :
  Forall scalar cps -> 0 ∉ cps ->
  exists out back, JsonStrEscape (c_str (enc cps)) (length (enc cps)) = Some out /\
    JsonStrUnescape out = Some back /\ (back = enc cps <-> Forall plain cps).
Proof.
  intros Hs H0. exists (concat (json_char <$> cps)), (concat (undone <$> cps)). split_and!.
  - rewrite JsonStrEscape_enc by done. by rewrite wcs_text.
  - by rewrite JsonStrUnescape_total, undone_text.
  - by apply undone_text_plain.
Qed.

Lemma json_unescape_not_inverse_witness :
  exists out back, JsonStrEscape (c_str (enc [0xe9])) 2 = Some out /\
    JsonStrUnescape out = Some back /\ back <> enc [0xe9] /\ out = bstr "\u00e9" /\
    back = [Byte.xe0; Byte.xb8; Byte.x89].
Proof.
  destruct (json_unescape_not_inverse [0xe9]) as (out & back & H1 & H2 & H3).
  - apply Forall_cons_2; [split; [lia|by vm_compute]|apply Forall_nil_2].
  - rewrite not_elem_of_cons. split; [lia|apply not_elem_of_nil].
  - assert (E : Some out = Some (bstr "\u00e9")) by (rewrite <- H1; by vm_compute).
    injection E as ->.
    assert (E : Some back = Some [Byte.xe0; Byte.xb8; Byte.x89]) by (rewrite <- H2; by vm_compute).
    injection E as ->. exists (bstr "\u00e9"), [Byte.xe0; Byte.xb8; Byte.x89].
    split_and!; [exact H1|exact H2|by vm_compute|done..].
Defined.

(** ** XML *)

(** The text of an element or attribute, with the five entities of XML. *)
Fixpoint xml_text (s : bytes) : option bytes :=
  match s with
  | [] => Some []
  | Byte.x26 :: Byte.x61 :: Byte.x6d :: Byte.x70 :: Byte.x3b :: s => cons Byte.x26 <$> xml_text s
  | Byte.x26 :: Byte.x71 :: Byte.x75 :: Byte.x6f :: Byte.x74 :: Byte.x3b :: s => cons Byte.x22 <$> xml_text s
  | Byte.x26 :: Byte.x61 :: Byte.x70 :: Byte.x6f :: Byte.x73 :: Byte.x3b :: s => cons Byte.x27 <$> xml_text s
  | Byte.x26 :: Byte.x6c :: Byte.x74 :: Byte.x3b :: s => cons Byte.x3c <$> xml_text s
  | Byte.x26 :: Byte.x67 :: Byte.x74 :: Byte.x3b :: s => cons Byte.x3e <$> xml_text s
  | (Byte.x26 | Byte.x3c | Byte.x3e | Byte.x22 | Byte.x27) :: _ => None
  | c :: s => cons c <$> xml_text s
  end.

Lemma xml_text_high l s :
  Forall (fun b => 128 <= uchar b) l -> xml_text (l ++ s) = app l <$> xml_text s.
Proof.
  induction 1 as [|b l Hb _ IH]; [cbn [app]; by destruct (xml_text s)|]. cbn [app].
  assert (Hx : forall s, xml_text (b :: s) = cons b <$> xml_text s).
  { intros s'. destruct b; try reflexivity; exfalso; revert Hb; by vm_compute. }
  rewrite Hx, IH. by destruct (xml_text s).
Qed.

Lemma xml_text_char c s :
  code_point c -> xml_text (xml_char c [] ++ s) = app (CodePointToUtf8Char c) <$> xml_text s.
Proof.
  intros Hc. destruct (decide (c < 128)) as [Hs|Hs].
  - apply (ascii_cases (fun c => xml_text (xml_char c [] ++ s) = app (CodePointToUtf8Char c) <$> xml_text s));
      [|unfold code_point in Hc; lia].
    clear. intros b Hb. destruct b; try (exfalso; revert Hb; by vm_compute); reflexivity.
  - unfold xml_char. rewrite !(proj2 (Z.eqb_neq c _)) by lia. rewrite CodePointToUtf8_spec. cbn [snd app].
    apply xml_text_high. destruct (enc_char_first c Hc) as (b & l & E & Hl & _ & Hr). rewrite E.
    assert (Hge : forall x : byte, Z.land (uchar x) 192 = 128 -> 128 <= uchar x).
    { clear. intros x. destruct x; vm_compute; congruence. }
    apply Forall_cons_2.
    + destruct (decide (uchar b < 128)) as [Hb|]; [|lia]. exfalso.
      assert (Hb1 : Utf8CharLen (uchar b) = (1%nat, Z.land (uchar b) 127)).
      { unfold Utf8CharLen. by replace (uchar b <=? 127) with true by lia. }
      rewrite Hb1 in Hl. cbn [fst snd] in Hl. destruct l; [|done].
      assert (Hd : Utf8ToCodePoint (CodePointToUtf8Char c ++ []) = Some (c, [])) by by apply Utf8ToCodePoint_enc.
      rewrite E in Hd. cbn [app Utf8ToCodePoint] in Hd. rewrite Hb1 in Hd. cbn in Hd.
      injection Hd as Hd. change 127 with (2 ^ 7 - 1) in Hd. rewrite land_mod in Hd by lia. dlia.
    + revert Hr. apply Forall_impl. intros x [_ Hx]. by apply Hge.
Qed.

Lemma xml_char_app c result : xml_char c result = result ++ xml_char c [].
Proof.
  unfold xml_char. repeat (destruct (c =? _); [done|]). by rewrite !CodePointToUtf8_spec.
Qed.

(** What [XmlStrEscape] writes is read back as the text; characters of markup are not in it. *)
Theorem xml_text_reads_back cps :
  Forall code_point cps ->
  exists out, XmlStrEscape (enc cps) = Some out /\ xml_text out = Some (enc cps).
Proof.
  intros Hc. unfold XmlStrEscape. rewrite for_text by done.
  rewrite (run_fold (fun result c => xml_char c result)) by done. eexists. split; [reflexivity|].
  enough (H : forall r, foldl (fun result c => xml_char c result) r cps =
    r ++ concat ((fun c => xml_char c []) <$> cps)).
  { rewrite H. cbn [app]. clear H. induction Hc as [|c cps Hc _ IH]; [done|].
    cbn [fmap list_fmap concat]. rewrite xml_text_char by done. rewrite enc_cons. unfold fmap, list_fmap in IH.
    unfold fmap, list_fmap. rewrite IH. done. }
  clear. induction cps as [|c cps IH]; intros r; cbn; [by rewrite app_nil_r|].
  rewrite IH, (xml_char_app c r). by rewrite <- app_assoc.
Qed.

End JsonText.
