(* ===== verification/Tokens.v ===== *)
(** * Tokens: the tokens of a memory stream ([io/buffer/data_block], [io/buffer/memory_stream])

    [ReadNextAsciiToken] walks the blocks of a stream by characters, like the line readers of
    [DataBlock.v].  [next_token] says what it finds in the bytes of the stream, however these
    are cut into blocks. *)

From S2P Require Import Prelude.
From S2P Require Import DataBlock.
From S2P Require Import DataBlockFacts.
From S2P Require Import MemoryStream.
From S2P Require Import MemoryStreamFacts.
From S2P Require Import MemoryStreamOps.

Module Tokens.

Inductive TokenReadError :=
  TOKEN_OK | TOKEN_QUOTED_OK | TOKEN_SEP_OK | TOKEN_ERROR_CHAR | TOKEN_NO_DATA.

#[export] Instance TokenReadError_eq_dec : EqDecision TokenReadError.
Proof. solve_decision. Defined.

(** ** Characters *)

Definition ERROR : Z := 1.
Definition QUOTE : Z := 2.
Definition SEP : Z := 4.
Definition CHAR : Z := 8.
Definition SPACE : Z := 16.

Definition kCharLookup : list Z :=
  [ERROR; ERROR; ERROR; ERROR; ERROR; ERROR; ERROR; ERROR; ERROR; SPACE; SPACE; ERROR; ERROR; SPACE; ERROR; ERROR;
   ERROR; ERROR; ERROR; ERROR; ERROR; ERROR; ERROR; ERROR; ERROR; ERROR; ERROR; ERROR; ERROR; ERROR; ERROR; ERROR;
   SPACE; SEP; Z.lor QUOTE SEP; SEP; SEP; SEP; SEP; Z.lor QUOTE SEP; SEP; SEP; SEP; CHAR; SEP; CHAR; CHAR; CHAR;
   CHAR; CHAR; CHAR; CHAR; CHAR; CHAR; CHAR; CHAR; CHAR; CHAR; SEP; SEP; SEP; SEP; SEP; CHAR;
   CHAR; CHAR; CHAR; CHAR; CHAR; CHAR; CHAR; CHAR; CHAR; CHAR; CHAR; CHAR; CHAR; CHAR; CHAR; CHAR;
   CHAR; CHAR; CHAR; CHAR; CHAR; CHAR; CHAR; CHAR; CHAR; CHAR; CHAR; SEP; SEP; SEP; SEP; CHAR;
   SEP; CHAR; CHAR; CHAR; CHAR; CHAR; CHAR; CHAR; CHAR; CHAR; CHAR; CHAR; CHAR; CHAR; CHAR; CHAR;
   CHAR; CHAR; CHAR; CHAR; CHAR; CHAR; CHAR; CHAR; CHAR; CHAR; CHAR; SEP; SEP; SEP; SEP; CHAR] ++ replicate 128 ERROR.

Definition attr (a : Z) (c : byte) : bool :=
  negb (Z.land (default 0 (kCharLookup !! Z.to_nat (uchar c))) a =? 0).

Definition AttrIsSpace (c : byte) : bool := attr SPACE c.
Definition AttrIsQuote (c : byte) : bool := attr QUOTE c.
Definition AttrIsError (c : byte) : bool := attr ERROR c.
Definition AttrIsSep (c : byte) : bool := attr SEP c.
Definition AttrIsChar (c : byte) : bool := attr CHAR c.

(** ** DataBlockPointer::ReadNextAsciiToken *)
Section Pointer.
Variables (h : heap) (q : BlockDqueue).

(** The local variables; [quote_char] is [NUL] outside quotes. *)
Record Scan := mkScan {
  self : DataBlockPointer;
  begin : DataBlockPointer;
  len : Z;
  skipped : Z;
  last_was_escape : bool;
  quote_char : byte;
}.

(** The answer, [*this], [*s] if it is assigned, and [*len_covered]. *)
Definition Token : Type := TokenReadError * DataBlockPointer * option bytes * Z.

(** One character, or one change of block. *)
Definition Token_step (saved : DataBlockPointer) (x : Scan) : option (Scan + Token) :=
  let p := self x in
  b ← dq_block h q (block_id p);
  if pos p =? size b then
    np ← AdvanceToNextBlock h q p;
    match np with
    | None => Some (inr (TOKEN_NO_DATA, saved, None, 0))
    | Some p' => Some (inl (mkScan p' (begin x) (len x) (skipped x) (last_was_escape x) (quote_char x)))
    end
  else
    c ← buffer b !! Z.to_nat (pos p);
    let p' := mkPointer (block_id p) (pos p + 1) in
    if bool_decide (quote_char x = Byte.x00) then
      if AttrIsError c then Some (inr (TOKEN_ERROR_CHAR, saved, None, 0))
      else if negb (len x =? 0) then
        if AttrIsChar c then
          Some (inl (mkScan p' (begin x) (len x + 1) (skipped x) (last_was_escape x) (quote_char x)))
        else
          '(p'', s) ← ReadStringData h q (begin x) (len x);
          Some (inr (TOKEN_OK, p'', Some s, len x + skipped x))
      else if AttrIsQuote c then
        Some (inl (mkScan p' p (len x + 1) (skipped x) (last_was_escape x) c))
      else if AttrIsSep c then
        '(p'', _) ← Advance h q p 1;
        Some (inr (TOKEN_SEP_OK, p'', Some [c], 1 + skipped x))
      else if AttrIsSpace c then
        Some (inl (mkScan p' (begin x) (len x) (skipped x + 1) (last_was_escape x) (quote_char x)))
      else Some (inl (mkScan p' p (len x + 1) (skipped x) (last_was_escape x) (quote_char x)))
    else
      if bool_decide (quote_char x = c) && negb (last_was_escape x) then
        '(p'', s) ← ReadStringData h q (begin x) (len x + 1);
        Some (inr (TOKEN_QUOTED_OK, p'', Some s, len x + skipped x + 1))
      else
        Some (inl (mkScan p' (begin x) (len x + 1) (skipped x)
                     (negb (last_was_escape x) && bool_decide (c = Byte.x5c)) (quote_char x))).

Definition Pointer_ReadNextAsciiToken (p : DataBlockPointer) : option Token :=
  loop (Token_step p) (char_fuel h q) (mkScan p p 0 0 false Byte.x00).

End Pointer.

(** ** MemoryStream::ReadNextAsciiToken *)
Definition ReadNextAsciiToken (h : heap) (s : MemoryStream)
    : option (MemoryStream * TokenReadError * option bytes) :=
  match MaybeInitReadPointer s with
  | None => Some (s, TOKEN_NO_DATA, None)
  | Some s =>
      '(ret, p, token, n) ← Pointer_ReadNextAsciiToken h (blocks_ s) (read_pointer_ s);
      Some (with_read s p (size_ s - n), ret, token)
  end.

(** ** The tokens of bytes *)

(** A token: the answer, its text and how many bytes it takes with the spaces before it. *)
Definition Result : Type := TokenReadError * option bytes * Z.

Definition no_data : Result := (TOKEN_NO_DATA, None, 0).

(** The rest of a string up to its quote; [esc] after a backslash that is not escaped. *)
Fixpoint quoted_end (quote : byte) (esc : bool) (c : bytes) : option bytes :=
  match c with
  | [] => None
  | x :: c =>
      if bool_decide (quote = x) && negb esc then Some [x]
      else cons x <$> quoted_end quote (negb esc && bool_decide (x = Byte.x5c)) c
  end.

(** The rest of a word; [Some None] is a character that may not be there. *)
Fixpoint word_end (c : bytes) : option (option bytes) :=
  match c with
  | [] => None
  | x :: c =>
      if AttrIsError x then Some None
      else if AttrIsChar x then
        match word_end c with Some (Some w) => Some (Some (x :: w)) | r => r end
      else Some (Some [])
  end.

(** After the letters [w] of a word. *)
Definition word_token (skipped : Z) (w c : bytes) : Result :=
  match word_end c with
  | None => no_data
  | Some None => (TOKEN_ERROR_CHAR, None, 0)
  | Some (Some x) => (TOKEN_OK, Some (w ++ x), skipped + zlen (w ++ x))
  end.

Definition quoted_token (skipped : Z) (quote : byte) (esc : bool) (w c : bytes) : Result :=
  match quoted_end quote esc c with
  | None => no_data
  | Some x => (TOKEN_QUOTED_OK, Some (w ++ x), skipped + zlen (w ++ x))
  end.

Fixpoint next_token (skipped : Z) (c : bytes) : Result :=
  match c with
  | [] => no_data
  | x :: c =>
      if AttrIsError x then (TOKEN_ERROR_CHAR, None, 0)
      else if AttrIsQuote x then quoted_token skipped x false [x] c
      else if AttrIsSep x then (TOKEN_SEP_OK, Some [x], 1 + skipped)
      else if AttrIsSpace x then next_token (skipped + 1) c
      else word_token skipped [x] c
  end.

(** ** Correctness *)

(** What a scan has still to find. *)
Definition to_find (x : Scan) (w c : bytes) : Result :=
  if bool_decide (quote_char x = Byte.x00) then
    match w with [] => next_token (skipped x) c | _ => word_token (skipped x) w c end
  else quoted_token (skipped x) (quote_char x) (last_was_escape x) w c.

Record scan_inv (h : heap) (q : BlockDqueue) (p : DataBlockPointer) (c : bytes) (n : nat) (x : Scan)
    (sp w c' : bytes) : Prop := {
  scan_split : c = sp ++ w ++ c';
  scan_skipped : skipped x = zlen sp;
  scan_len : len x = zlen w;
  scan_self : valid_at h q (self x) c';
  scan_begin : w <> [] -> valid_at h q (begin x) (w ++ c') /\ block_id p <= block_id (begin x);
  scan_quote : quote_char x <> Byte.x00 -> w <> [];
  scan_escape : quote_char x = Byte.x00 -> last_was_escape x = false;
  scan_id : block_id p <= block_id (self x);
  scan_fuel : n = (Z.to_nat (zlen c') + Z.to_nat (end_id q - block_id (self x)))%nat;
  scan_find : to_find x w c' = next_token 0 c;
}.

(** The pointer, the text and the length of a token of the bytes [c] at [p]. *)
Definition token_of (h : heap) (q : BlockDqueue) (p : DataBlockPointer) (c : bytes) (t : Token) : Prop :=
  let '(ret, p', s, n) := t in
  next_token 0 c = (ret, s, n) /\ 0 <= n <= zlen c /\ valid_at h q p' (dropZ n c) /\ block_id p <= block_id p'.

Lemma word_end_Some c x : word_end c = Some (Some x) -> exists c', c = x ++ c'.
Proof.
  revert x. induction c as [|b c IH]; intros x; cbn; [done|].
  destruct (AttrIsError b); [done|]. destruct (AttrIsChar b); [|intros [= <-]; by exists (b :: c)].
  destruct (word_end c) as [[y|]|]; [|done..]. intros [= <-].
  destruct (IH y eq_refl) as (c' & ->). by exists c'.
Qed.

Lemma Token_step_spec h q p c n x sp w c' :
  valid_at h q p c -> scan_inv h q p c n x sp w c' ->
  exists r, Token_step h q p x = Some r /\
    match r with
    | inl x' => exists n', (exists sp' w' c'', scan_inv h q p c n' x' sp' w' c'') /\ (n' < n)%nat
    | inr t => token_of h q p c t
    end.
Proof.
  intros Hv [Hc Hsk Hl Hs Hb Hq He Hid -> Hf]. unfold Token_step.
  destruct (valid_at_block _ _ _ _ Hs) as (b & W & Hat & Hp & Hok & Hblk & Hc').
  rewrite Hblk. cbn [mbind option_bind].
  destruct (Z.eqb_spec (pos (self x)) (size b)) as [E|E].
  - destruct (end_of_block _ _ _ _ _ Hs Hblk E) as ([p''|] & -> & H); cbn [mbind option_bind];
      (eexists; split; [done|]).
    + destruct H as (Hlt & Hv'' & _). pose proof (valid_at_id _ _ _ _ Hs).
      pose proof (valid_at_id _ _ _ _ Hv''). eexists. split.
      * exists sp, w, c'. constructor; cbn; try done; lia.
      * cbn. lia.
    + cbn. pose proof (zlen_nonneg c). rewrite dropZ_0. split_and!; [|lia|lia|done|lia].
      rewrite <- Hf, H. unfold to_find, quoted_token, word_token. destruct (bool_decide _), w; done.
  - destruct (data_lookup b (pos (self x)) W Hok ltac:(lia)) as (y & Hy & Hx).
    rewrite Hy. cbn [mbind option_bind]. rewrite Hx in Hc'. set (c2 := dropZ (pos (self x) + 1) (data b) ++ flat W) in *.
    assert (Hv2 : valid_at h q (mkPointer (block_id (self x)) (pos (self x) + 1)) c2).
    { pose proof (valid_at_move _ _ _ _ _ 1 Hat ltac:(lia) ltac:(lia) ltac:(lia)) as H.
      by rewrite Hx, dropZ_1 in H. }
    clearbody c2. rewrite Hc' in *. clear Hx Hc' c' E Hy Hat Hp Hok Hblk.
    assert (Hn : forall x' sp' w' c'', skipped x' = zlen sp' -> len x' = zlen w' ->
      sp ++ w ++ y :: c2 = sp' ++ w' ++ c2 -> c'' = c2 ->
      self x' = mkPointer (block_id (self x)) (pos (self x) + 1) ->
      (w' <> [] -> valid_at h q (begin x') (w' ++ c2) /\ block_id p <= block_id (begin x')) ->
      (quote_char x' <> Byte.x00 -> w' <> []) ->
      (quote_char x' = Byte.x00 -> last_was_escape x' = false) -> to_find x' w' c2 = to_find x w (y :: c2) ->
      exists n', (exists sp' w' c'', scan_inv h q p c n' x' sp' w' c'') /\
        (n' < Z.to_nat (zlen (y :: c2)) + Z.to_nat (end_id q - block_id (self x)))%nat).
    { intros x' sp' w' c'' H1 H2 H3 -> H5 H6 H7 H7' H8. eexists. split.
      - exists sp', w', c2. constructor; [by rewrite Hc|done|done|by rewrite H5|done|done|done|by rewrite H5|reflexivity|].
        by rewrite H8.
      - rewrite H5, zlen_cons. cbn [block_id]. pose proof (zlen_nonneg c2). lia. }
    assert (Htok : forall ret p'' s m, to_find x w (y :: c2) = (ret, s, m) -> 0 <= m <= zlen c ->
      valid_at h q p'' (dropZ m c) -> block_id p <= block_id p'' -> token_of h q p c (ret, p'', s, m)).
    { intros ret p'' s m H1 H2 H3 H4. cbn. rewrite <- Hf. destruct H2. by split_and!. }
    assert (Hread : forall m, w <> [] -> len x <= m -> m <= len x + 1 ->
      exists p'', ReadStringData h q (begin x) m = Some (p'', takeZ m (w ++ [y])) /\
        valid_at h q p'' (dropZ (skipped x + m) c) /\ block_id p <= block_id p'').
    { intros m Hw Hm1 Hm2. destruct (Hb Hw) as [Hvb Hbid].
      destruct (ReadData_spec _ _ _ _ m Hvb) as ([p'' out] & Hr & Hout & Hvr & Hle). cbn [fst snd] in *.
      exists p''. unfold ReadStringData. rewrite Hr, Hout. pose proof (zlen_nonneg w). split_and!; [| |lia].
      - do 2 f_equal. change (y :: c2) with ([y] ++ c2). rewrite app_assoc. by rewrite takeZ_app_l by (rewrite zlen_snoc; lia).
      - rewrite Hc, Hsk, dropZ_app_r by lia. by rewrite Z.add_simpl_l. }
    assert (Hw0 : len x = 0 <-> w = []).
    { rewrite Hl. unfold zlen. destruct w; cbn; split; (done || lia). }
    assert (Hv0 : valid_at h q p (dropZ 0 c)) by by rewrite dropZ_0.
    assert (Hlen : zlen c = zlen sp + zlen w + 1 + zlen c2).
    { rewrite Hc, !zlen_app, zlen_cons. lia. }
    pose proof (zlen_nonneg sp). pose proof (zlen_nonneg w). pose proof (zlen_nonneg c2).
    destruct (bool_decide (quote_char x = Byte.x00)) eqn:Hq0; bool_prop.
    + specialize (He Hq0).
      destruct (AttrIsError y) eqn:Eerr; [|destruct (len x =? 0) eqn:Elen; bool_prop; cbn [negb]].
      * eexists. split; [done|]. apply Htok; [|lia|done|done]. unfold to_find.
        rewrite bool_decide_true by done. destruct w; cbn [next_token]; rewrite ?Eerr; [done|].
        unfold word_token. cbn. by rewrite Eerr.
      * apply Hw0 in Elen. subst w. rewrite zlen_nil in Hl.
        assert (Hfind : to_find x [] (y :: c2) = next_token (skipped x) (y :: c2)).
        { unfold to_find. by rewrite bool_decide_true. }
        rewrite Hfind in Htok, Hn. cbn [next_token] in Htok, Hn. rewrite Eerr in Htok, Hn.
        destruct (AttrIsQuote y) eqn:Equ; [|destruct (AttrIsSep y) eqn:Esep; [|destruct (AttrIsSpace y) eqn:Esp]].
        -- eexists. split; [done|]. assert (Hy0 : y <> Byte.x00) by (by intros ->).
           apply (Hn _ sp [y] c2); cbn; try done; [by rewrite Hl|].
           unfold to_find. cbn. rewrite bool_decide_false by done. by rewrite He.
        -- destruct (Advance_spec _ _ _ _ 1 Hs ltac:(lia)) as ([p'' n'] & Ha & _ & Hva & Hle).
           cbn [fst snd] in *. rewrite Ha. cbn [mbind option_bind]. eexists. split; [done|].
           apply Htok; [done|lia| |lia].
           rewrite Hc, Hsk, dropZ_app_r by lia. by rewrite Z.add_simpl_r.
        -- eexists. split; [done|]. apply (Hn _ (sp ++ [y]) [] c2); cbn; try done.
           ++ by rewrite zlen_snoc, Hsk.
           ++ by rewrite <- app_assoc.
           ++ unfold to_find. cbn. by rewrite bool_decide_true.
        -- eexists. split; [done|]. apply (Hn _ sp [y] c2); cbn; try done; [by rewrite Hl|].
           unfold to_find. cbn. by rewrite bool_decide_true.
      * assert (Hw : w <> []) by (intros E; by apply Elen, Hw0).
        assert (Hfind : to_find x w (y :: c2) = word_token (skipped x) w (y :: c2)).
        { unfold to_find. rewrite bool_decide_true by done. by destruct w. }
        rewrite Hfind in Htok, Hn. unfold word_token in Htok, Hn. cbn [word_end] in Htok, Hn.
        rewrite Eerr in Htok, Hn. destruct (AttrIsChar y) eqn:Ech.
        -- eexists. split; [done|]. apply (Hn _ sp (w ++ [y]) c2); cbn; try done.
           ++ rewrite zlen_snoc. lia.
           ++ by rewrite <- app_assoc.
           ++ intros _. rewrite <- app_assoc. by apply Hb.
           ++ unfold to_find. cbn. rewrite bool_decide_true by done.
              destruct (w ++ [y]) as [|z l] eqn:E; [by destruct w|]. rewrite <- E. unfold word_token.
              destruct (word_end c2) as [[r|]|]; [|done..]. by rewrite <- app_assoc.
        -- destruct (Hread (len x) Hw ltac:(lia) ltac:(lia)) as (p'' & Hr & Hvr & Hle).
           rewrite Hr. cbn [mbind option_bind]. eexists. split; [done|].
           rewrite takeZ_app_l, takeZ_all by lia. 
           apply Htok; [by rewrite app_nil_r, (Z.add_comm (len x)), Hl|lia| |done].
           by rewrite (Z.add_comm (len x)).
    + specialize (Hq Hq0).
      assert (Hfind : to_find x w (y :: c2) =
        quoted_token (skipped x) (quote_char x) (last_was_escape x) w (y :: c2)).
      { unfold to_find. by rewrite bool_decide_false. }
      rewrite Hfind in Htok, Hn. unfold quoted_token in Htok, Hn. cbn [quoted_end] in Htok, Hn.
      destruct (bool_decide (quote_char x = y) && negb (last_was_escape x)) eqn:Eend.
      * destruct (Hread (len x + 1) Hq ltac:(lia) ltac:(lia)) as (p'' & Hr & Hvr & Hle).
        rewrite Hr. cbn [mbind option_bind]. eexists. split; [done|].
        rewrite takeZ_all by (rewrite zlen_snoc; lia).
        apply Htok; [rewrite zlen_snoc; f_equal; lia|lia| |done].
        by replace (len x + skipped x + 1) with (skipped x + (len x + 1)) by lia.
      * eexists. split; [done|]. apply (Hn _ sp (w ++ [y]) c2); cbn; try done.
        -- rewrite zlen_snoc. lia.
        -- by rewrite <- app_assoc.
        -- intros _. rewrite <- app_assoc. by apply Hb.
        -- by destruct w.
        -- unfold to_find. cbn. rewrite bool_decide_false by done. unfold quoted_token.
           destruct (quoted_end _ _ c2); [|done]. cbn. by rewrite <- app_assoc.
Qed.

Lemma Pointer_ReadNextAsciiToken_spec h q p c :
  valid_at h q p c ->
  exists t, Pointer_ReadNextAsciiToken h q p = Some t /\ token_of h q p c t.
Proof.
  intros Hv. unfold Pointer_ReadNextAsciiToken.
  apply (loop_total_ix (Token_step h q p)
    (fun n x => exists sp w c', scan_inv h q p c n x sp w c') (token_of h q p c)) with
    (n := (Z.to_nat (zlen c) + Z.to_nat (end_id q - block_id p))%nat).
  - intros n x (sp & w & c' & Hx). by eapply Token_step_spec.
  - exists [], [], c. by constructor.
  - by apply valid_at_size.
Qed.

(** Over the blocks of a memory stream the token is that of its bytes; it is taken from them. *)
Lemma ReadNextAsciiToken_spec O h s c ms :
  Inv O h s c ms ->
  exists s', let '(ret, token, n) := next_token 0 c in
    ReadNextAsciiToken h s = Some (s', ret, token) /\ Inv O h s' (dropZ n c) ms.
Proof.
  intros HI. pose proof (MaybeInit_spec _ _ _ _ _ HI) as Hi. unfold ReadNextAsciiToken.
  destruct (MaybeInitReadPointer s) as [s1|].
  2: { destruct Hi as [-> _]. by exists s. }
  destruct Hi as (HI1 & Hb & Hv & _).
  destruct (Pointer_ReadNextAsciiToken_spec _ _ _ _ Hv) as ([[[ret p] token] n] & -> & Ht).
  destruct Ht as (-> & Hn & Hv' & Hid). cbn [mbind option_bind].
  eexists. split; [done|].
  rewrite <- (takeZ_dropZ n c) in HI1. pose proof (Inv_consume _ _ _ _ _ _ p HI1 Hb Hv' Hid) as H.
  rewrite zlen_takeZ in H by lia. by replace (Z.min n (zlen c)) with n in H by lia.
Qed.

End Tokens.
