(* ===== verification/JsonCodec.v ===== *)
(** * JsonCodec: the JSON codec of the RPC ([rpc/codec])

    [codec::JsonEncoder] and [codec::JsonDecoder] with the methods of [codec::Encoder] and
    [codec::Decoder] for vectors and maps.  A value of C++ is a [value], its C++ type a [type];
    the templates are functions on them.  The encoder writes to any [ByteStream]; the decoder
    reads from any [TokenStream], what it relies on of a memory stream.  Values of type double
    are not there; the keys of maps are numbers, booleans or strings.  C++ cannot decode a
    vector of [bool] (an element is not an object of its own, and [DecodeBody] does not compile
    for it); the model has it like every other vector. *)

From S2P Require Import Prelude.
From S2P Require Import CString.
From S2P Require Import StrUtil.
From S2P Require Import DataBlock.
From S2P Require Import DataBlockFacts.
From S2P Require Import MemoryStream.
From S2P Require Import MemoryStreamFacts.
From S2P Require Import MemoryStreamOps.
From S2P Require Import ByteStream.
From S2P Require Import Tokens.
From S2P Require Import Utf8.

(** What a decoder relies on: the tokens of the bytes of a stream, and its markers. *)
Class TokenStream (M : Type) := {
  left_in : M -> bytes -> list bytes -> Prop;
  ts_Size : M -> Z;
  ts_ReadNextAsciiToken : M -> option (M * Tokens.TokenReadError * option bytes);
  ts_MarkerSet : M -> M;
  ts_MarkerRestore : M -> option M;
  ts_MarkerClear : M -> option M;
  ts_Size_law m c ms : left_in m c ms -> ts_Size m = zlen c;
  ts_ReadNextAsciiToken_law m c ms : left_in m c ms ->
    exists m', let '(ret, token, n) := Tokens.next_token 0 c in
      ts_ReadNextAsciiToken m = Some (m', ret, token) /\ left_in m' (dropZ n c) ms;
  ts_MarkerSet_law m c ms : left_in m c ms -> left_in (ts_MarkerSet m) c (ms ++ [c]);
  ts_MarkerRestore_law m c ms x : left_in m c (ms ++ [x]) ->
    exists m', ts_MarkerRestore m = Some m' /\ left_in m' x ms;
  ts_MarkerClear_law m c ms x : left_in m c (ms ++ [x]) ->
    exists m', ts_MarkerClear m = Some m' /\ left_in m' c ms;
}.

(** A queue of bytes with its markers. *)
#[export, refine] Instance queue_tokens : TokenStream (bytes * list bytes) := {|
  left_in m c ms := m = (c, ms);
  ts_Size m := zlen m.1;
  ts_ReadNextAsciiToken m :=
    let '(ret, token, n) := Tokens.next_token 0 m.1 in Some ((dropZ n m.1, m.2), ret, token);
  ts_MarkerSet m := (m.1, m.2 ++ [m.1]);
  ts_MarkerRestore m := x ← list.last m.2; Some (x, removelast m.2);
  ts_MarkerClear m := x ← list.last m.2; Some (m.1, removelast m.2);
|}.
Proof.
  - by intros m c ms ->.
  - intros m c ms ->. cbn [fst snd]. destruct (Tokens.next_token 0 c) as [[ret token] n]. by eexists.
  - by intros m c ms ->.
  - intros m c ms x ->. cbn [fst snd]. rewrite list.last_snoc, removelast_last. by eexists.
  - intros m c ms x ->. cbn [fst snd]. rewrite list.last_snoc, removelast_last. by eexists.
Defined.

(** A memory stream, as in [ByteStream.v]: at most 2 GB in it and in front of its markers. *)
#[refine] Instance memory_tokens (O : addr -> Z) : TokenStream (heap * MemoryStream) := {|
  left_in m c ms := Forall (fun m => zlen m < 2 ^ 31) (c :: ms) /\ Inv O m.1 m.2 c ms;
  ts_Size m := Size m.2;
  ts_ReadNextAsciiToken m :=
    '(s, ret, token) ← Tokens.ReadNextAsciiToken m.1 m.2; Some ((m.1, s), ret, token);
  ts_MarkerSet m := (m.1, MarkerSet m.2);
  ts_MarkerRestore m := s ← MarkerRestore m.1 m.2; Some (m.1, s);
  ts_MarkerClear m := MarkerClear m.1 m.2;
|}.
Proof.
  - intros [h s] c ms [_ HI]. unfold Size. by rewrite (Inv_size _ _ _ _ _ HI).
  - intros [h s] c ms [Hc HI]. cbn [fst snd] in *.
    destruct (Tokens.ReadNextAsciiToken_spec _ _ _ _ _ HI) as (s' & H). exists (h, s').
    destruct (Tokens.next_token 0 c) as [[ret token] n]. destruct H as [-> H]. split; [done|]. split; [|done].
    apply Forall_cons_1 in Hc as [Hc Hms]. apply Forall_cons_2; [|done].
    pose proof (zlen_dropZ_le n c). lia.
  - intros [h s] c ms [Hc HI]. split; [|by apply MarkerSet_spec].
    change (c :: ms ++ [c]) with ((c :: ms) ++ [c]). apply Forall_app. split; [done|].
    apply Forall_cons_1 in Hc as [Hc _]. apply Forall_cons_2; [done|apply Forall_nil_2].
  - intros [h s] c ms x [Hc HI]. cbn [fst snd] in *.
    change (c :: ms ++ [x]) with ((c :: ms) ++ [x]) in Hc.
    apply Forall_app in Hc as [Hc Hx]. apply Forall_cons_1 in Hc as [_ Hms]. apply Forall_cons_1 in Hx as [Hx _].
    destruct (MarkerRestore_spec _ _ _ _ _ _ HI Hx) as (s' & -> & HI'). exists (h, s').
    split; [done|]. split; [by apply Forall_cons_2|done].
  - intros [h s] c ms x [Hc HI]. cbn [fst snd] in *.
    change (c :: ms ++ [x]) with ((c :: ms) ++ [x]) in Hc. apply Forall_app in Hc as [Hc _].
    destruct (MarkerClear_spec _ _ _ _ _ _ HI) as (h' & s' & -> & HI' & _). by exists (h', s').
Defined.

Module JsonCodec.
Import Tokens StrUtil Utf8.

(** ** Values and types *)

Inductive scalar := Bool | Int32 | Uint32 | Int64 | Uint64 | String.

Inductive type := Scalar (s : scalar) | Vector (t : type) | Map (k : scalar) (t : type).

Inductive svalue := SBool (b : bool) | SInt (z : Z) | SString (s : bytes).

(** A map is the list of its pairs in the order of the keys. *)
#[warnings="-register-all"] Inductive value :=
  | VScalar (s : svalue)
  | VVector (l : list value)
  | VMap (m : list (svalue * value)).

(** [operator<] of the type of a key. *)
Definition key_ltb (a b : svalue) : bool :=
  match a, b with
  | SBool a, SBool b => negb a && b
  | SInt a, SInt b => a <? b
  | SString a, SString b => bytes_ltb a b
  | _, _ => false
  end.

(** [std::map::insert] keeps the value a key already has. *)
Fixpoint map_insert (k : svalue) (v : value) (m : list (svalue * value)) : list (svalue * value) :=
  match m with
  | [] => [(k, v)]
  | (k', v') :: m' =>
      if key_ltb k k' then (k, v) :: m
      else if key_ltb k' k then (k', v') :: map_insert k v m'
      else m
  end.

(** ** The encoder *)
Section Encoder.
Context {M : Type} `{BS : ByteStream M}.

Record Enc := mkEnc { out_ : M; encoding_map_key_ : bool }.

Definition Write (x : bytes) (e : Enc) : option Enc :=
  m ← bs_Write (out_ e) x; Some (mkEnc m (encoding_map_key_ e)).

Definition set_map_key (b : bool) (e : Enc) : Enc := mkEnc (out_ e) b.

Definition EncodeStructStart : Enc -> option Enc := Write (bstr "{").
Definition EncodeStructContinue : Enc -> option Enc := Write (bstr ", ").
Definition EncodeStructEnd : Enc -> option Enc := Write (bstr "}").
Definition EncodeStructAttribMiddle : Enc -> option Enc := Write (bstr ": ").
Definition EncodeArrayStart : Enc -> option Enc := Write (bstr "[").
Definition EncodeArrayContinue : Enc -> option Enc := Write (bstr ", ").
Definition EncodeArrayEnd : Enc -> option Enc := Write (bstr "]").
Definition EncodeMapStart : Enc -> option Enc := Write (bstr "{").
Definition EncodeMapContinue : Enc -> option Enc := Write (bstr ", ").
Definition EncodeMapEnd : Enc -> option Enc := Write (bstr "}").
Definition EncodeMapPairStart (e : Enc) : Enc := set_map_key true e.
Definition EncodeMapPairMiddle (e : Enc) : option Enc :=
  e ← Write (bstr ": ") e; Some (set_map_key false e).

Definition QUOT : byte := Byte.x22.

(** [PrintBody] with the format of an integer type. *)
Definition PrintBody (z : Z) (e : Enc) : option Enc :=
  if negb (encoding_map_key_ e) then Write (print_int z ++ [SP]) e
  else Write ([QUOT] ++ print_int z ++ [QUOT]) e.

Definition EncodeBody_bool (obj : bool) : Enc -> option Enc :=
  Write (if negb obj then bstr "false " else bstr "true ").

Definition EncodeBody_string (obj : bytes) (e : Enc) : option Enc :=
  s ← JsonStrEscape (c_str obj) (length obj);
  Write ([QUOT] ++ cstr s ++ [QUOT]) e.

Definition EncodeScalar (s : svalue) : Enc -> option Enc :=
  match s with
  | SBool b => EncodeBody_bool b
  | SInt z => PrintBody z
  | SString s => EncodeBody_string s
  end.

(** The loops over the elements of a vector and the pairs of a map; [elem] is [Encode] of their
    values and [count], a [uint32], their number. *)
Section Loops.
Variables (elem : value -> Enc -> option Enc) (count : Z).

Fixpoint EncodeElements (l : list value) (i : Z) (e : Enc) : option Enc :=
  match l with
  | [] => Some e
  | x :: l =>
      if i <? count then
        e ← elem x e;
        e ← (if i + 1 <? count then EncodeArrayContinue e else Some e);
        EncodeElements l (i + 1) e
      else Some e
  end.

Fixpoint EncodePairs (m : list (svalue * value)) (i : Z) (e : Enc) : option Enc :=
  match m with
  | [] => Some e
  | (k, x) :: m =>
      e ← EncodeScalar k (EncodeMapPairStart e);
      e ← EncodeMapPairMiddle e;
      e ← elem x e;
      e ← (if uint32 (i + 1) <? count then EncodeMapContinue e else Some e);
      EncodePairs m (uint32 (i + 1)) e
  end.

End Loops.

Fixpoint EncodeBody (v : value) (e : Enc) : option Enc :=
  match v with
  | VScalar s => EncodeScalar s e
  | VVector l =>
      e ← EncodeArrayStart e;
      e ← EncodeElements EncodeBody (uint32 (zlen l)) l 0 e;
      EncodeArrayEnd e
  | VMap m =>
      e ← EncodeMapStart e;
      e ← EncodePairs EncodeBody (uint32 (zlen m)) m 0 e;
      EncodeMapEnd e
  end.

End Encoder.

#[global] Arguments Enc M : clear implicits.

(** ** Numbers *)

Definition isxdigit (c : byte) : bool := between 48 57 c || between 97 102 c || between 65 70 c.

(** The digits of a base of eight, ten or sixteen. *)
Definition is_digit (base : Z) (c : byte) : bool := isxdigit c && (hexval c <? base).

Definition number (base : Z) (s : bytes) : Z := foldl (fun v c => v * base + hexval c) 0 s.

(** The base that a number with no sign is written in, and the number without [0x]. *)
Definition number_base (s : bytes) : Z * bytes :=
  match s with
  | a :: s' =>
      if bool_decide (a = Byte.x30) then
        match s' with
        | b :: c :: s'' =>
            if (bool_decide (b = Byte.x78) || bool_decide (b = Byte.x58)) && isxdigit c
            then (16, c :: s'') else (8, s)
        | _ => (8, s)
        end
      else (10, s)
  | [] => (10, s)
  end.

(** [strtoll(s, &endp, 0)]: the result, whether [errno] is set, and [endp], if it is not [s]. *)
Definition strtoll (s : bytes) : Z * bool * option bytes :=
  let s := drop_while isspace (cstr s) in
  let '(neg, s) :=
    match s with
    | c :: s' => if bool_decide (c = Byte.x2d) then (true, s')
                 else if bool_decide (c = Byte.x2b) then (false, s') else (false, s)
    | [] => (false, s)
    end in
  let '(base, s) := number_base s in
  let digits := take_while (is_digit base) s in
  let v := number base digits in
  let v := if neg : bool then - v else v in
  match digits with
  | [] => (0, false, None)
  | _ =>
      let endp := Some (drop_while (is_digit base) s) in
      if v <? LONG_MIN then (LONG_MIN, true, endp)
      else if LONG_MAX <? v then (LONG_MAX, true, endp)
      else (v, false, endp)
  end.

(** ** The decoder *)

Inductive DECODE_RESULT := DECODE_RESULT_SUCCESS | DECODE_RESULT_NOT_ENOUGH_DATA | DECODE_RESULT_ERROR.

#[export] Instance DECODE_RESULT_eq_dec : EqDecision DECODE_RESULT.
Proof. solve_decision. Defined.

(** The assignment [out = l] to an integer type. *)
Definition convert (s : scalar) (z : Z) : Z :=
  match s with
  | Int32 => int32 z
  | Uint32 => uint32 z
  | Uint64 => wrapU 64 z
  | _ => z
  end.

Section Decoder.
Context {M : Type} `{TS : TokenStream M}.

Record Dec := mkDec { in_ : M; decoding_map_key_ : bool; is_first_item_ : bool }.

Definition with_in (d : Dec) (m : M) : Dec := mkDec m (decoding_map_key_ d) (is_first_item_ d).
Definition set_first (d : Dec) (b : bool) : Dec := mkDec (in_ d) (decoding_map_key_ d) b.
Definition set_key (d : Dec) (b : bool) : Dec := mkDec (in_ d) b (is_first_item_ d).

Definition Reset (d : Dec) : Dec := mkDec (in_ d) false true.

(** A step with a result: the value if it is [DECODE_RESULT_SUCCESS], else the result, which
    [DECODE_VERIFY] returns. *)
Abbreviation Decoded A := (option (Dec * (A + DECODE_RESULT))).

Definition verify {A B} (x : Decoded A) (f : Dec -> A -> Decoded B) : Decoded B :=
  '(d, r) ← x; match r with inl a => f d a | inr e => Some (d, inr e) end.

Definition success {A} (a : A) (d : Dec) : Decoded A := Some (d, inl a).
Definition failure {A} (r : DECODE_RESULT) (d : Dec) : Decoded A := Some (d, inr r).

(** The local string [s] is empty when nothing is assigned to it. *)
Definition ReadNextAsciiToken (d : Dec) : option (Dec * TokenReadError * bytes) :=
  '(m, res, s) ← ts_ReadNextAsciiToken (in_ d); Some (with_in d m, res, default [] s).

Definition MarkerRestore (d : Dec) : option Dec := m ← ts_MarkerRestore (in_ d); Some (with_in d m).
Definition MarkerClear (d : Dec) : option Dec := m ← ts_MarkerClear (in_ d); Some (with_in d m).

Definition ReadExpectedSeparator (expected : byte) (d : Dec) : Decoded unit :=
  '(d, res, s) ← ReadNextAsciiToken d;
  if decide (res = TOKEN_NO_DATA) then failure DECODE_RESULT_NOT_ENOUGH_DATA d
  else if decide (default NUL (head s) = expected) then success () d
  else failure DECODE_RESULT_ERROR d.

(** The value is [more_attribs]. *)
Definition DecodeElementContinue (separator : bytes) (d : Dec) : Decoded bool :=
  let d := with_in d (ts_MarkerSet (in_ d)) in
  '(d, res, s) ← ReadNextAsciiToken d;
  if decide (res = TOKEN_NO_DATA) then
    d ← MarkerRestore d; failure DECODE_RESULT_NOT_ENOUGH_DATA d
  else if decide (res = TOKEN_SEP_OK /\ s = separator) then
    d ← MarkerClear d; success false d
  else if decide (res = TOKEN_SEP_OK /\ s = bstr ",") then
    d ← MarkerClear d; success true d
  else if negb (is_first_item_ d) then
    d ← MarkerRestore d; failure DECODE_RESULT_ERROR d
  else
    d ← MarkerRestore d; success true (set_first d false).

Definition DecodeStructStart (d : Dec) : Decoded unit :=
  ReadExpectedSeparator Byte.x7b (set_first d true).
Definition DecodeStructContinue : Dec -> Decoded bool := DecodeElementContinue (bstr "}").
Definition DecodeStructAttribMiddle : Dec -> Decoded unit := ReadExpectedSeparator Byte.x3a.
Definition DecodeArrayStart (d : Dec) : Decoded unit :=
  ReadExpectedSeparator Byte.x5b (set_first d true).
Definition DecodeArrayContinue : Dec -> Decoded bool := DecodeElementContinue (bstr "]").
Definition DecodeMapStart (d : Dec) : Decoded unit :=
  ReadExpectedSeparator Byte.x7b (set_first d true).
Definition DecodeMapContinue : Dec -> Decoded bool := DecodeElementContinue (bstr "}").
Definition DecodeMapPairStart (d : Dec) : Decoded unit := success () (set_key d true).
Definition DecodeMapPairMiddle (d : Dec) : Decoded unit :=
  ReadExpectedSeparator Byte.x3a (set_key d false).

(** ** Scalars *)

(** [s.substr(1, s.length() - 2)] *)
Definition unquoted (s : bytes) : bytes := substr s 1 (length s - 2).

Definition DecodeBody_bool (d : Dec) : Decoded svalue :=
  '(d, res, s) ← ReadNextAsciiToken d;
  if decide (res = TOKEN_NO_DATA) then failure DECODE_RESULT_NOT_ENOUGH_DATA d
  else if decide (res = TOKEN_OK /\ s = bstr "true") then success (SBool true) d
  else if decide (res = TOKEN_OK /\ s = bstr "false") then success (SBool false) d
  else failure DECODE_RESULT_ERROR d.

(** The end of [ReadNumber], for an integer type. *)
Definition parse_number (t : scalar) (s : bytes) (d : Dec) : Decoded svalue :=
  let '(l, errno, endp) := strtoll s in
  if negb errno && bool_decide (endp = Some []) then success (SInt (convert t l)) d
  else failure DECODE_RESULT_ERROR d.

Definition ReadNumber (t : scalar) (has_quotes : bool) (d : Dec) : Decoded svalue :=
  '(d, res, s) ← ReadNextAsciiToken d;
  match res with
  | TOKEN_NO_DATA => failure DECODE_RESULT_NOT_ENOUGH_DATA d
  | TOKEN_OK => if has_quotes : bool then failure DECODE_RESULT_ERROR d else parse_number t s d
  | TOKEN_QUOTED_OK =>
      if negb has_quotes then failure DECODE_RESULT_ERROR d
      else s ← JsonStrUnescape (unquoted s); parse_number t s d
  | _ => failure DECODE_RESULT_ERROR d
  end.

Definition DecodeBody_string (d : Dec) : Decoded svalue :=
  '(d, res, s) ← ReadNextAsciiToken d;
  if decide (res = TOKEN_NO_DATA) then failure DECODE_RESULT_NOT_ENOUGH_DATA d
  else if decide (res = TOKEN_QUOTED_OK) then
    out ← JsonStrUnescape (unquoted s); success (SString out) d
  else failure DECODE_RESULT_ERROR d.

Definition DecodeScalar (t : scalar) (d : Dec) : Decoded svalue :=
  match t with
  | Bool => DecodeBody_bool d
  | String => DecodeBody_string d
  | _ => ReadNumber t (decoding_map_key_ d) d
  end.

(** ** Vectors and maps

    [DecodeArrayStart] of JSON always gives the count [kMaxUInt32], so that the branch for a
    known count is not taken.  A turn of the loops: [elem] decodes an element. *)
Section Loops.
Variable elem : Dec -> Decoded value.

Definition array_step (st : Dec * list value)
    : option ((Dec * list value) + (Dec * (value + DECODE_RESULT))) :=
  let '(d, tmp) := st in
  '(d, r) ← verify (DecodeArrayContinue d) (fun d has_more =>
    if has_more : bool then verify (elem d) (fun d item => success (Some item) d)
    else success None d);
  Some (match r with
        | inl (Some item) => inl (d, tmp ++ [item])
        | inl None => inr (d, inl (VVector tmp))
        | inr e => inr (d, inr e)
        end).

Definition map_step (k : scalar) (st : Dec * list (svalue * value))
    : option ((Dec * list (svalue * value)) + (Dec * (value + DECODE_RESULT))) :=
  let '(d, out) := st in
  '(d, r) ← verify (DecodeMapContinue d) (fun d has_more =>
    if has_more : bool then
      verify (DecodeMapPairStart d) (fun d _ =>
      verify (DecodeScalar k d) (fun d key =>
      verify (DecodeMapPairMiddle d) (fun d _ =>
      verify (elem d) (fun d item => success (Some (key, item)) d))))
    else success None d);
  Some (match r with
        | inl (Some (key, item)) => inl (d, map_insert key item out)
        | inl None => inr (d, inl (VMap out))
        | inr e => inr (d, inr e)
        end).

End Loops.

(** Every turn of a loop takes a byte at least. *)
Definition turns (d : Dec) : nat := S (Z.to_nat (ts_Size (in_ d))).

Fixpoint DecodeBody (t : type) (d : Dec) : Decoded value :=
  match t with
  | Scalar s => verify (DecodeScalar s d) (fun d v => success (VScalar v) d)
  | Vector t =>
      verify (DecodeArrayStart d) (fun d _ => loop (array_step (DecodeBody t)) (turns d) (d, []))
  | Map k t =>
      verify (DecodeMapStart d) (fun d _ => loop (map_step (DecodeBody t) k) (turns d) (d, []))
  end.

(** ** A value of any type, as it is

    [paranthesis] with its last element first; the value is what is written to [out]. *)
Definition raw_step (st : Dec * bytes * bytes)
    : option ((Dec * bytes * bytes) + (Dec * (bytes + DECODE_RESULT))) :=
  let '(d, paranthesis, out) := st in
  '(d, res, s) ← ReadNextAsciiToken d;
  let next d paranthesis :=
    let out := out ++ s in
    if bool_decide (paranthesis = []) then
      d ← MarkerClear d; Some (inr (d, inl (out ++ [SP])))
    else Some (inl (d, paranthesis, out)) in
  match res with
  | TOKEN_OK | TOKEN_QUOTED_OK => next d paranthesis
  | TOKEN_SEP_OK =>
      if decide (s = bstr "{") then next d (Byte.x7d :: paranthesis)
      else if decide (s = bstr "[") then next d (Byte.x5d :: paranthesis)
      else if decide (s = bstr "}" \/ s = bstr "]") then
        match paranthesis with
        | [] => d ← MarkerClear d; Some (inr (d, inr DECODE_RESULT_ERROR))
        | p :: paranthesis =>
            if decide (p = default NUL (head s)) then next d paranthesis
            else d ← MarkerClear d; Some (inr (d, inr DECODE_RESULT_ERROR))
        end
      else next d paranthesis
  | TOKEN_ERROR_CHAR => d ← MarkerClear d; Some (inr (d, inr DECODE_RESULT_ERROR))
  | TOKEN_NO_DATA => d ← MarkerRestore d; Some (inr (d, inr DECODE_RESULT_NOT_ENOUGH_DATA))
  end.

Definition DecodeRaw (d : Dec) : Decoded bytes :=
  loop raw_step (turns d) (with_in d (ts_MarkerSet (in_ d)), [], []).

End Decoder.

#[global] Arguments Dec M : clear implicits.

End JsonCodec.
