(* ===== verification/JsonCodecProps.v ===== *)
(** * JsonCodecProps: values sent as JSON

    What the encoder writes for a value ([text]) and that the decoder reads it back; the values
    that do not come back; the decoder on any input. *)

From Stdlib Require Import Sorting.Sorted.
From S2P Require Import Prelude.
From S2P Require Import CString.
From S2P Require Import StrUtil.
From S2P Require Import ByteStream.
From S2P Require Import Tokens.
From S2P Require Import Utf8.
From S2P Require Import Utf8Props.
From S2P Require Import JsonText.
From S2P Require Import JsonCodec.

Module JsonCodecProps.
Import Tokens StrUtil Utf8 Utf8Props JsonText JsonCodec.

(** ** Values of a type *)

(** What a C++ object of a type may be. *)
Definition scalar_ok (t : scalar) (s : svalue) : Prop :=
  match t, s with
  | Bool, SBool _ => True
  | Int32, SInt z => - 2 ^ 31 <= z < 2 ^ 31
  | Uint32, SInt z => 0 <= z < 2 ^ 32
  | Int64, SInt z => - 2 ^ 63 <= z < 2 ^ 63
  | Uint64, SInt z => 0 <= z < 2 ^ 64
  | String, SString _ => True
  | _, _ => False
  end.

(** Characters that survive [JsonStrEscape] and [JsonStrUnescape]. *)
Definition plain_byte (b : byte) : bool := between 1 15 b || between 32 126 b.

(** What comes back: unsigned numbers below 2^63 and strings of such characters. *)
Definition sendable (t : scalar) (s : svalue) : Prop :=
  scalar_ok t s /\
  match s with
  | SBool _ => True
  | SInt z => z < 2 ^ 63
  | SString s => forallb plain_byte s = true
  end.

Definition ordered (m : list (svalue * value)) : Prop :=
  StronglySorted (fun p q => key_ltb p.1 q.1 = true) m.

(** A value of a type whose scalars satisfy [ok]. *)
Fixpoint of_type (ok : scalar -> svalue -> Prop) (t : type) (v : value) : Prop :=
  match t, v with
  | Scalar t, VScalar s => ok t s
  | Vector t, VVector l => zlen l < 2 ^ 32 /\ Forall (of_type ok t) l
  | Map k t, VMap m =>
      zlen m < 2 ^ 32 /\ ordered m /\ Forall (fun p => ok k p.1 /\ of_type ok t p.2) m
  | _, _ => False
  end.

(** ** What is written *)

Definition json_text (s : bytes) : bytes := concat (json_char <$> (uchar <$> s)).

Definition scalar_text (key : bool) (s : svalue) : bytes :=
  match s with
  | SBool b => if b then bstr "true " else bstr "false "
  | SInt z => if key then [QUOT] ++ print_int z ++ [QUOT] else print_int z ++ [SP]
  | SString s => [QUOT] ++ json_text s ++ [QUOT]
  end.

(** The items after the first. *)
Definition more (items : list bytes) : bytes := concat (app (bstr ", ") <$> items).

Definition items_text (items : list bytes) : bytes :=
  match items with [] => [] | x :: l => x ++ more l end.

Fixpoint text (v : value) : bytes :=
  match v with
  | VScalar s => scalar_text false s
  | VVector l => bstr "[" ++ items_text (map text l) ++ bstr "]"
  | VMap m =>
      bstr "{" ++ items_text (map (fun p => scalar_text true (fst p) ++ bstr ": " ++ text (snd p)) m)
      ++ bstr "}"
  end.

Definition pair_text (p : svalue * value) : bytes := scalar_text true p.1 ++ bstr ": " ++ text p.2.

(** ** Strings *)

Lemma plain_byte_plain b : plain_byte b = true -> plain (uchar b).
Proof.
  unfold plain_byte, plain, between. intros H. apply orb_true_iff in H as [H|H]; bool_prop; lia.
Qed.

Lemma plain_ascii b : plain_byte b = true -> uchar b < 128.
Proof. intros H%plain_byte_plain. unfold plain in H. lia. Qed.

Lemma enc_ascii s : Forall (fun b => uchar b < 128) s -> enc (uchar <$> s) = s.
Proof.
  induction 1 as [|b s Hb _ IH]; [done|]. cbn [fmap list_fmap]. rewrite enc_cons, IH.
  unfold CodePointToUtf8Char. replace (uchar b <=? 127) with true by lia. by rewrite to_byte_uchar.
Qed.

Lemma plain_forall s : forallb plain_byte s = true ->
  Forall (fun b => uchar b < 128) s /\ Forall JsonText.scalar (uchar <$> s) /\ (0 ∉ (uchar <$> s)) /\
  Forall plain (uchar <$> s).
Proof.
  intros H. assert (Hp : Forall (fun b => plain_byte b = true) s).
  { apply List.Forall_forall. rewrite forallb_forall in H. exact H. }
  clear H. induction Hp as [|b s Hb _ (H1 & H2 & H3 & H4)].
  - split_and!; try apply Forall_nil_2. apply not_elem_of_nil.
  - pose proof (plain_byte_plain b Hb) as Hpl. pose proof (plain_ascii b Hb).
    cbn [fmap list_fmap]. split_and!; try (apply Forall_cons_2; [|done]); try done.
    + pose proof (uchar_range b). unfold JsonText.scalar, high, low. split; [lia|].
      split; apply andb_false_iff; left; apply Z.leb_gt; lia.
    + rewrite not_elem_of_cons. split; [|done]. unfold plain in Hpl. lia.
Qed.

Lemma printable_no_nul s : forallb printable s = true -> NUL ∉ s.
Proof. intros H Hin. rewrite forallb_forall in H. by specialize (H NUL (proj1 (list_elem_of_In _ _) Hin)). Qed.

(** What the encoder makes of a string of plain characters. *)
Lemma plain_escaped s :
  forallb plain_byte s = true ->
  JsonStrEscape (c_str s) (length s) = Some (json_text s) /\ cstr (json_text s) = json_text s /\
  JsonStrUnescape (json_text s) = Some s.
Proof.
  intros H. destruct (plain_forall s H) as (H1 & H2 & H3 & H4).
  pose proof (JsonStrEscape_enc _ H2) as He. rewrite enc_ascii, wcs_text in He by done.
  split_and!; [exact He| |].
  - apply cstr_id, printable_no_nul. unfold json_text. clear -H2.
    induction H2 as [|c l Hc _ IH]; [done|]. cbn [fmap list_fmap concat].
    rewrite forallb_app, IH, andb_true_r. by apply json_char_printable, Hc.
  - rewrite JsonStrUnescape_total. unfold json_text. rewrite undone_text by done.
    rewrite (proj2 (undone_text_plain _ H2 H3) H4). by rewrite enc_ascii.
Qed.

(** ** Encoding *)
Section Encode.
Context {M : Type} `{BS : ByteStream M}.

(** The room for what is written next is part of the room for all of it. *)
Ltac room H :=
  rewrite <- ?app_assoc in H; rewrite <- ?app_assoc;
  first [exact H|eapply bs_room_prefix; rewrite <- ?app_assoc; exact H].

Definition writes (f : Enc M -> option (Enc M)) (x : bytes) : Prop :=
  forall e c, holds (out_ e) c -> bs_room (c ++ x) ->
    exists e', f e = Some e' /\ holds (out_ e') (c ++ x) /\ encoding_map_key_ e' = encoding_map_key_ e.

Lemma Write_writes x : writes (Write x) x.
Proof.
  intros e c Hc Hr. unfold Write. destruct (bs_Write_law _ _ x Hc Hr) as (m & -> & Hm).
  by exists (mkEnc m (encoding_map_key_ e)).
Qed.

Lemma EncodeScalar_writes t s e c :
  sendable t s -> holds (out_ e) c -> bs_room (c ++ scalar_text (encoding_map_key_ e) s) ->
  exists e', EncodeScalar s e = Some e' /\ holds (out_ e') (c ++ scalar_text (encoding_map_key_ e) s) /\
    encoding_map_key_ e' = encoding_map_key_ e.
Proof.
  intros [_ Hs] Hc Hr. destruct s as [b|z|s]; cbn [EncodeScalar scalar_text] in *.
  - destruct b; by apply Write_writes.
  - unfold PrintBody. destruct (encoding_map_key_ e) eqn:Hk; cbn [negb]; rewrite <- Hk;
      by apply Write_writes.
  - unfold EncodeBody_string. destruct (plain_escaped s Hs) as (-> & H & _). cbn [mbind option_bind].
    rewrite H. by apply Write_writes.
Qed.

(** The elements after the first. *)
Lemma more_cons (x : bytes) l : more (x :: l) = bstr ", " ++ items_text (x :: l).
Proof. unfold more, items_text, more. cbn [fmap list_fmap concat]. by rewrite <- app_assoc. Qed.

Lemma EncodeElements_writes t count l i e c :
  (forall v e c, of_type sendable t v -> holds (out_ e) c -> encoding_map_key_ e = false ->
    bs_room (c ++ text v) ->
    exists e', EncodeBody v e = Some e' /\ holds (out_ e') (c ++ text v) /\ encoding_map_key_ e' = false) ->
  Forall (of_type sendable t) l -> holds (out_ e) c -> encoding_map_key_ e = false ->
  0 <= i -> i + zlen l = count -> bs_room (c ++ items_text (map text l)) ->
  exists e', EncodeElements EncodeBody count l i e = Some e' /\
    holds (out_ e') (c ++ items_text (map text l)) /\ encoding_map_key_ e' = false.
Proof.
  intros IH. revert i e c. induction l as [|x l IHl]; intros i e c Hl Hc Hk Hi Hlen Hr.
  - exists e. by rewrite app_nil_r.
  - apply Forall_cons_1 in Hl as [Hx Hl]. rewrite zlen_cons in Hlen. pose proof (zlen_nonneg l).
    cbn [EncodeElements]. replace (i <? count) with true by lia.
    cbn [map items_text] in Hr.
    destruct (IH x e c Hx Hc Hk) as (e' & -> & Hc' & Hk'); [room Hr|]. cbn [mbind option_bind].
    destruct l as [|y l].
    + rewrite zlen_nil in Hlen. replace (i + 1 <? count) with false by lia. cbn.
      exists e'. by rewrite app_nil_r.
    + rewrite zlen_cons in Hlen. pose proof (zlen_nonneg l). replace (i + 1 <? count) with true by lia.
      cbn [map] in Hr. rewrite more_cons in Hr.
      destruct (Write_writes (bstr ", ") e' _ Hc') as (e2 & He2 & Hc2 & Hk2); [room Hr|].
      unfold EncodeArrayContinue. rewrite He2. cbn [mbind option_bind]. rewrite Hk' in Hk2.
      destruct (IHl (i + 1) e2 _ Hl Hc2 Hk2) as (e3 & He3 & Hc3 & Hk3); [lia|rewrite zlen_cons; lia|room Hr|].
      exists e3. split; [exact He3|]. split; [|done]. cbn [map items_text].
      rewrite more_cons.
      by rewrite <- !app_assoc in Hc3.
Qed.

Lemma EncodePairs_writes k t count m i e c :
  (forall v e c, of_type sendable t v -> holds (out_ e) c -> encoding_map_key_ e = false ->
    bs_room (c ++ text v) ->
    exists e', EncodeBody v e = Some e' /\ holds (out_ e') (c ++ text v) /\ encoding_map_key_ e' = false) ->
  Forall (fun p => sendable k p.1 /\ of_type sendable t p.2) m ->
  holds (out_ e) c -> encoding_map_key_ e = false ->
  0 <= i -> i + zlen m = count -> count < 2 ^ 32 -> bs_room (c ++ items_text (map pair_text m)) ->
  exists e', EncodePairs EncodeBody count m i e = Some e' /\
    holds (out_ e') (c ++ items_text (map pair_text m)) /\ encoding_map_key_ e' = false.
Proof.
  intros IH. revert i e c. induction m as [|[key x] m IHm]; intros i e c Hl Hc Hk Hi Hlen H32 Hr.
  - exists e. by rewrite app_nil_r.
  - apply Forall_cons_1 in Hl as [[Hkey Hx] Hl]. rewrite zlen_cons in Hlen. pose proof (zlen_nonneg m).
    cbn [EncodePairs]. cbn [fst snd map items_text] in *. unfold pair_text at 1 in Hr. cbn [fst snd] in Hr.
    destruct (EncodeScalar_writes k key (EncodeMapPairStart e) c Hkey Hc) as (e1 & -> & Hc1 & Hk1);
      [cbn [EncodeMapPairStart set_map_key encoding_map_key_]; room Hr|].
    cbn [EncodeMapPairStart set_map_key encoding_map_key_ mbind option_bind] in *.
    unfold EncodeMapPairMiddle. destruct (Write_writes (bstr ": ") e1 _ Hc1) as (e2 & -> & Hc2 & _); [room Hr|].
    cbn [mbind option_bind].
    destruct (IH x (set_map_key false e2) _ Hx Hc2 eq_refl) as (e' & -> & Hc' & Hk'); [room Hr|]. cbn [mbind option_bind].
    rewrite wrapU_small by lia. rewrite <- !app_assoc in Hc'.
    destruct m as [|q m].
    + rewrite zlen_nil in Hlen. replace (i + 1 <? count) with false by lia. cbn [mbind option_bind EncodePairs].
      exists e'. cbn [map items_text more fmap list_fmap concat]. by rewrite app_nil_r.
    + rewrite zlen_cons in Hlen. pose proof (zlen_nonneg m). replace (i + 1 <? count) with true by lia.
      cbn [map] in Hr. rewrite more_cons in Hr.
      destruct (Write_writes (bstr ", ") e' _ Hc') as (e3 & He3 & Hc3 & Hk3); [room Hr|].
      unfold EncodeMapContinue. rewrite He3. cbn [mbind option_bind]. rewrite Hk' in Hk3.
      destruct (IHm (i + 1) e3 _ Hl Hc3 Hk3) as (e4 & He4 & Hc4 & Hk4); [lia|rewrite zlen_cons; lia|done|room Hr|].
      exists e4. split; [exact He4|]. split; [|done]. cbn [map items_text].
      rewrite more_cons.
      rewrite <- !app_assoc in Hc4. unfold pair_text at 1. cbn [fst snd]. by rewrite <- !app_assoc.
Qed.

Lemma EncodeBody_writes t v e c :
  of_type sendable t v -> holds (out_ e) c -> encoding_map_key_ e = false ->
  bs_room (c ++ text v) ->
  exists e', EncodeBody v e = Some e' /\ holds (out_ e') (c ++ text v) /\ encoding_map_key_ e' = false.
Proof.
  revert v e c. induction t as [t|t IH|k t IH]; intros [s|l|m] e c Hv Hc Hk Hr; try done;
    cbn [of_type] in Hv; cbn [EncodeBody text] in *.
  - destruct (EncodeScalar_writes t s e c Hv Hc) as (e' & -> & H1 & H2); [by rewrite Hk|]. rewrite Hk in *. eauto.
  - destruct Hv as [Hlen Hl]. unfold EncodeArrayStart, EncodeArrayEnd.
    destruct (Write_writes (bstr "[") e c Hc) as (e1 & -> & Hc1 & Hk1); [room Hr|]. cbn [mbind option_bind].
    rewrite Hk in Hk1. pose proof (zlen_nonneg l). rewrite wrapU_small by lia.
    destruct (EncodeElements_writes t (zlen l) l 0 e1 _ IH Hl Hc1 Hk1) as (e2 & -> & Hc2 & Hk2); [lia|lia|room Hr|].
    cbn [mbind option_bind].
    destruct (Write_writes (bstr "]") e2 _ Hc2) as (e3 & -> & Hc3 & Hk3); [room Hr|].
    exists e3. split; [done|]. rewrite Hk3. split; [|done]. by rewrite <- !app_assoc in Hc3.
  - destruct Hv as (Hlen & _ & Hl). unfold EncodeMapStart, EncodeMapEnd.
    destruct (Write_writes (bstr "{") e c Hc) as (e1 & -> & Hc1 & Hk1); [room Hr|]. cbn [mbind option_bind].
    rewrite Hk in Hk1. pose proof (zlen_nonneg m). rewrite wrapU_small by lia.
    destruct (EncodePairs_writes k t (zlen m) m 0 e1 _ IH Hl Hc1 Hk1) as (e2 & -> & Hc2 & Hk2); [lia|lia|lia|room Hr|].
    cbn [mbind option_bind].
    destruct (Write_writes (bstr "}") e2 _ Hc2) as (e3 & -> & Hc3 & Hk3); [room Hr|].
    exists e3. split; [done|]. rewrite Hk3. split; [|done]. by rewrite <- !app_assoc in Hc3.
Qed.

End Encode.

(** ** Tokens of the text *)

Definition blank (sp : bytes) : Prop := sp = [] \/ sp = [SP].

Lemma next_token_blank k sp c : blank sp -> next_token k (sp ++ c) = next_token (k + zlen sp) c.
Proof.
  intros [->| ->]; cbn [app]; [by rewrite zlen_nil, Z.add_0_r|]. done.
Qed.

(** A separator of JSON. *)
Definition separator (b : byte) : bool :=
  negb (AttrIsError b) && negb (AttrIsQuote b) && AttrIsSep b.

Lemma next_token_sep k sp b c :
  blank sp -> separator b = true -> next_token k (sp ++ b :: c) = (TOKEN_SEP_OK, Some [b], k + zlen (sp ++ [b])).
Proof.
  intros Hsp Hb. unfold separator in Hb. bool_prop. rewrite next_token_blank by done. cbn [next_token].
  replace (AttrIsError b) with false by done. replace (AttrIsQuote b) with false by done.
  replace (AttrIsSep b) with true by done. rewrite zlen_snoc. f_equal. lia.
Qed.

Definition word_char (b : byte) : bool :=
  negb (AttrIsError b) && negb (AttrIsQuote b) && negb (AttrIsSep b) && negb (AttrIsSpace b) && AttrIsChar b.

Lemma word_end_word w c :
  forallb word_char w = true -> word_end (w ++ SP :: c) = Some (Some w).
Proof.
  induction w as [|b w IH]; [done|]. cbn [forallb app word_end]. intros H. bool_prop.
  unfold word_char in *. bool_prop. replace (AttrIsError b) with false by done.
  replace (AttrIsChar b) with true by done. by rewrite IH.
Qed.

Lemma next_token_word k sp w c :
  blank sp -> w <> [] -> forallb word_char w = true ->
  next_token k (sp ++ w ++ SP :: c) = (TOKEN_OK, Some w, k + zlen (sp ++ w)).
Proof.
  intros Hsp Hw H. rewrite next_token_blank by done. destruct w as [|b w]; [done|].
  cbn [forallb] in H. bool_prop. unfold word_char in *. bool_prop. cbn [app next_token].
  replace (AttrIsError b) with false by done. replace (AttrIsQuote b) with false by done.
  replace (AttrIsSep b) with false by done. replace (AttrIsSpace b) with false by done.
  unfold word_token. rewrite word_end_word by done. cbn [app]. rewrite zlen_app. f_equal. lia.
Qed.

(** Bytes that a string may have between its quotes. *)
Definition in_quotes (s : bytes) : Prop :=
  forall c, quoted_end QUOT false (s ++ c) = app s <$> quoted_end QUOT false c.

(** By evaluation: no quote that is not escaped, and no backslash at the end. *)
Fixpoint quotable (esc : bool) (s : bytes) : bool :=
  match s with
  | [] => negb esc
  | x :: s =>
      if bool_decide (QUOT = x) && negb esc then false
      else quotable (negb esc && bool_decide (x = Byte.x5c)) s
  end.

Lemma quotable_in_quotes s : quotable false s = true -> in_quotes s.
Proof.
  intros H c. enough (Hesc : forall esc, quotable esc s = true ->
    quoted_end QUOT esc (s ++ c) = app s <$> quoted_end QUOT false c) by by apply Hesc.
  clear H. induction s as [|x s IH]; intros esc H; cbn in H.
  - destruct esc; [done|]. cbn [app]. by destruct (quoted_end _ _ c).
  - cbn [app quoted_end]. destruct (_ && negb esc); [done|]. rewrite IH by done.
    by destruct (quoted_end _ _ c).
Qed.

Lemma in_quotes_app s1 s2 : in_quotes s1 -> in_quotes s2 -> in_quotes (s1 ++ s2).
Proof.
  intros H1 H2 c. rewrite <- app_assoc, H1, H2. destruct (quoted_end _ _ c); [|done]. cbn.
  by rewrite <- app_assoc.
Qed.

Lemma in_quotes_nil : in_quotes [].
Proof. intros c. cbn [app]. by destruct (quoted_end _ _ c). Qed.

Lemma next_token_quoted k sp s c :
  blank sp -> in_quotes s ->
  next_token k (sp ++ [QUOT] ++ s ++ [QUOT] ++ c) =
  (TOKEN_QUOTED_OK, Some ([QUOT] ++ s ++ [QUOT]), k + zlen (sp ++ [QUOT] ++ s ++ [QUOT])).
Proof.
  intros Hsp Hs. rewrite next_token_blank by done. cbn [app next_token].
  change (AttrIsError QUOT) with false. change (AttrIsQuote QUOT) with true. cbn iota.
  unfold quoted_token. rewrite Hs. cbn [quoted_end]. rewrite bool_decide_true by done. cbn.
  rewrite zlen_app. f_equal. unfold zlen. cbn. lia.
Qed.

Lemma in_quotes_plain c : plain c -> in_quotes (json_char c).
Proof.
  intros Hc. apply quotable_in_quotes, (ascii_cases (fun c => quotable false (json_char c) = true) c);
    [|unfold plain in Hc; lia].
  clear. intros b Hb. destruct b; try (exfalso; revert Hb; by vm_compute); reflexivity.
Qed.

Lemma in_quotes_json_text s : forallb plain_byte s = true -> in_quotes (json_text s).
Proof.
  intros H. destruct (plain_forall s H) as (_ & _ & _ & Hp). unfold json_text. clear H.
  induction Hp as [|c l Hc _ IH]; [apply in_quotes_nil|]. cbn [fmap list_fmap concat].
  apply in_quotes_app; [by apply in_quotes_plain|done].
Qed.

(** ** Numbers *)

Lemma digit_facts c : isdigit c = true ->
  word_char c = true /\ is_digit 10 c = true /\ is_digit 8 Byte.x30 = true /\ hexval c = digit_val c /\
  in_quotes [c] /\ plain_byte c = true /\ json_char (uchar c) = [c].
Proof.
  intros H. destruct c; try done; split_and!; try reflexivity; by apply quotable_in_quotes.
Qed.

Lemma print_int_facts z : - 2 ^ 63 <= z < 2 ^ 63 ->
  print_int z <> [] /\ forallb word_char (print_int z) = true /\ in_quotes (print_int z) /\
  forallb plain_byte (print_int z) = true /\ json_text (print_int z) = print_int z.
Proof.
  intros Hz.
  assert (Hall : Forall (fun c => word_char c = true /\ in_quotes [c] /\ plain_byte c = true /\
    json_char (uchar c) = [c]) (print_int z)).
  { apply List.Forall_forall. intros c Hc%list_elem_of_In.
    destruct (print_int_chars z c Hz Hc) as [->|Hd].
    - split_and!; try reflexivity. by apply quotable_in_quotes.
    - by destruct (digit_facts c Hd) as (? & _ & _ & _ & ? & ? & ?). }
  split_and!.
  - unfold print_int. destruct (Z.ltb_spec z 0); [done|]. apply (digits_of_spec 19 z). lia.
  - induction Hall as [|c l (H & _) _ IH]; [done|]. cbn. by rewrite H.
  - induction Hall as [|c l (_ & H & _) _ IH]; [apply in_quotes_nil|]. change (c :: l) with ([c] ++ l).
    by apply in_quotes_app.
  - induction Hall as [|c l (_ & _ & H & _) _ IH]; [done|]. cbn. by rewrite H.
  - unfold json_text. induction Hall as [|c l (_ & _ & _ & H) _ IH]; [done|].
    cbn [fmap list_fmap concat]. unfold fmap, list_fmap in IH. unfold fmap, list_fmap. by rewrite H, IH.
Qed.

Lemma digits_of_first fuel z : 0 < z < 10 ^ (Z.of_nat fuel + 1) ->
  exists c l, digits_of fuel z = c :: l /\ c <> Byte.x30.
Proof.
  assert (Hne : forall d, 0 < d < 10 -> to_byte (48 + d) <> Byte.x30).
  { intros d Hd E. apply (f_equal uchar) in E. rewrite uchar_to_byte_small in E by lia.
    change (uchar Byte.x30) with 48 in E. lia. }
  revert z. induction fuel as [|fuel IH]; intros z Hz; cbn [digits_of].
  - change (10 ^ (Z.of_nat 0 + 1)) with 10 in Hz. rewrite Z.mod_small by lia. eexists _, []. split; [done|].
    apply Hne. lia.
  - destruct (Z.ltb_spec z 10); [eexists _, []; split; [done|]; apply Hne; lia|].
    replace (Z.of_nat (S fuel) + 1) with (Z.succ (Z.of_nat fuel + 1)) in Hz by lia.
    rewrite Z.pow_succ_r in Hz by lia.
    destruct (IH (z / 10)) as (c & l & -> & Hc); [dlia|]. by exists c, (l ++ [to_byte (48 + z mod 10)]).
Qed.

(** The digits that [%llu] prints, read by [strtoll]. *)
Lemma number_digits z : 0 <= z < 2 ^ 64 ->
  exists base, number_base (digits_of 19 z) = (base, digits_of 19 z) /\
    forallb (is_digit base) (digits_of 19 z) = true /\ number base (digits_of 19 z) = z.
Proof.
  intros Hz. destruct (digits_of_spec 19 z) as (H1 & H2 & _); [lia|].
  destruct (decide (z = 0)) as [->|Hne]; [by exists 8|]. exists 10.
  destruct (digits_of_first 19 z) as (c & l & E & Hc); [lia|].
  assert (Hd : Forall (fun c => isdigit c = true) (digits_of 19 z)).
  { apply List.Forall_forall. rewrite forallb_forall in H1. exact H1. }
  split_and!.
  - rewrite E. unfold number_base. by rewrite bool_decide_false.
  - apply forallb_forall. intros x Hx. rewrite List.Forall_forall in Hd. by apply digit_facts, Hd.
  - rewrite <- H2 at 2. unfold number, digits_val. clear -Hd. generalize 0 as v.
    induction Hd as [|c l Hc _ IH]; intros v; [done|]. cbn [foldl].
    destruct (digit_facts c Hc) as (_ & _ & _ & -> & _). apply IH.
Qed.

Lemma drop_while_all P s : forallb P s = true -> drop_while P s = [].
Proof. intros H. rewrite <- (app_nil_r s) at 1. by rewrite drop_while_app. Qed.

Lemma take_while_all P s : forallb P s = true -> take_while P s = s.
Proof. intros H. rewrite <- (app_nil_r s) at 1. by rewrite take_while_app. Qed.

Lemma strtoll_print_int z : - 2 ^ 63 <= z < 2 ^ 64 ->
  strtoll (print_int z) = if z <? 2 ^ 63 then (z, false, Some []) else (LONG_MAX, true, Some []).
Proof.
  intros Hz. unfold strtoll, print_int.
  assert (Hn : forall z, 0 <= z < 2 ^ 64 -> exists c l, digits_of 19 z = c :: l /\ isdigit c = true /\
    cstr (digits_of 19 z) = digits_of 19 z).
  { clear. intros z Hz. destruct (digits_of_spec 19 z) as (H1 & _ & H3); [lia|].
    assert (Hnul : NUL ∉ digits_of 19 z).
    { intros Hin%list_elem_of_In. rewrite forallb_forall in H1. by specialize (H1 _ Hin). }
    destruct (digits_of 19 z) as [|c l]; [done|]. cbn in H1. bool_prop. exists c, l.
    split_and!; [done|done|by apply cstr_id]. }
  destruct (Z.ltb_spec z 0).
  - destruct (Hn (- z)) as (c & l & E & Hc & Hs); [lia|].
    destruct (number_digits (- z)) as (base & Hb & Hd & Hv); [lia|].
    unfold cstr in *. cbn [take_while]. change (not_nul Byte.x2d) with true. cbn iota. rewrite Hs.
    cbn [drop_while]. change (isspace Byte.x2d) with false. cbn iota.
    rewrite bool_decide_true by done. cbn iota beta. rewrite Hb. cbn iota beta zeta.
    rewrite take_while_all, drop_while_all, Hv by done. rewrite E.
    unfold LONG_MIN, LONG_MAX. rewrite Z.opp_involutive.
    replace (z <? - 2 ^ 63) with false by lia. replace (2 ^ 63 - 1 <? z) with false by lia.
    by replace (z <? 2 ^ 63) with true by lia.
  - destruct (Hn z) as (c & l & E & Hc & ->); [lia|].
    destruct (number_digits z) as (base & Hb & Hd & Hv); [lia|].
    destruct (isdigit_spec c Hc) as (Hs & H1 & H2 & _).
    assert (Hdw : drop_while isspace (digits_of 19 z) = digits_of 19 z) by (rewrite E; cbn; by rewrite Hs).
    rewrite Hdw. cbv zeta. rewrite E at 1. rewrite !bool_decide_false by done. cbn iota beta. rewrite Hb. cbn iota beta zeta. rewrite take_while_all, drop_while_all, Hv by done.
    rewrite E. unfold LONG_MIN, LONG_MAX.
    replace (z <? - 2 ^ 63) with false by lia.
    destruct (Z.ltb_spec z (2 ^ 63)).
    + by replace (2 ^ 63 - 1 <? z) with false by lia.
    + by replace (2 ^ 63 - 1 <? z) with true by lia.
Qed.

(** ** Decoding *)
Section Decode.
Context {M : Type} `{TS : TokenStream M}.

Lemma ReadNextAsciiToken_at (d : Dec M) c ms ret token n :
  left_in (in_ d) c ms -> next_token 0 c = (ret, token, n) ->
  exists m, ReadNextAsciiToken d = Some (with_in d m, ret, default [] token) /\ left_in m (dropZ n c) ms.
Proof.
  intros Hl Hn. unfold ReadNextAsciiToken. destruct (ts_ReadNextAsciiToken_law _ _ _ Hl) as (m & H).
  rewrite Hn in H. destruct H as [-> H]. by exists m.
Qed.

(** A token with what is before it taken from the stream. *)
Lemma ReadNextAsciiToken_found (d : Dec M) x c ms ret token :
  left_in (in_ d) (x ++ c) ms -> next_token 0 (x ++ c) = (ret, token, zlen x) ->
  exists m, ReadNextAsciiToken d = Some (with_in d m, ret, default [] token) /\ left_in m c ms.
Proof.
  intros Hl Hn. destruct (ReadNextAsciiToken_at d _ _ _ _ _ Hl Hn) as (m & Hm & Hm').
  rewrite dropZ_app_r, Z.sub_diag, dropZ_0 in Hm' by lia. by exists m.
Qed.

Lemma read_sep (d : Dec M) sp b c ms :
  left_in (in_ d) (sp ++ b :: c) ms -> blank sp -> separator b = true ->
  exists m, ReadNextAsciiToken d = Some (with_in d m, TOKEN_SEP_OK, [b]) /\ left_in m c ms.
Proof.
  intros Hl Hsp Hb. change (b :: c) with ([b] ++ c) in Hl. rewrite app_assoc in Hl.
  destruct (ReadNextAsciiToken_found d _ _ _ TOKEN_SEP_OK (Some [b]) Hl) as (m & Hm); [|by exists m].
  rewrite <- app_assoc. by apply next_token_sep.
Qed.

Lemma ReadExpectedSeparator_ok b (d : Dec M) sp c ms :
  left_in (in_ d) (sp ++ b :: c) ms -> blank sp -> separator b = true ->
  exists m, ReadExpectedSeparator b d = success () (with_in d m) /\ left_in m c ms.
Proof.
  intros Hl Hsp Hb. destruct (read_sep d sp b c ms Hl Hsp Hb) as (m & Hr & Hm). exists m.
  unfold ReadExpectedSeparator. rewrite Hr. cbn [mbind option_bind].
  rewrite decide_False, decide_True by done. by split.
Qed.

(** The three ways [DecodeElementContinue] goes on: the end, a comma, a first item. *)
Lemma Continue_end b (d : Dec M) sp c ms :
  left_in (in_ d) (sp ++ b :: c) ms -> blank sp -> separator b = true ->
  exists m, DecodeElementContinue [b] d = success false (with_in d m) /\ left_in m c ms.
Proof.
  intros Hl Hsp Hb. apply ts_MarkerSet_law in Hl. unfold DecodeElementContinue.
  destruct (read_sep (with_in d (ts_MarkerSet (in_ d))) sp b c _ Hl Hsp Hb) as (m & -> & Hm).
  cbn [mbind option_bind]. rewrite decide_False by done. rewrite decide_True by done.
  unfold MarkerClear. cbn [in_ with_in].
  destruct (ts_MarkerClear_law _ _ _ _ Hm) as (m' & -> & Hm'). by exists m'.
Qed.

Lemma Continue_comma b (d : Dec M) sp c ms :
  left_in (in_ d) (sp ++ Byte.x2c :: c) ms -> blank sp -> b <> Byte.x2c ->
  exists m, DecodeElementContinue [b] d = success true (with_in d m) /\ left_in m c ms.
Proof.
  intros Hl Hsp Hb. apply ts_MarkerSet_law in Hl. unfold DecodeElementContinue.
  destruct (read_sep (with_in d (ts_MarkerSet (in_ d))) sp Byte.x2c c _ Hl Hsp eq_refl) as (m & -> & Hm).
  cbn [mbind option_bind]. rewrite decide_False by done. rewrite decide_False by (intros [_ [= E]]; by apply Hb).
  rewrite decide_True by done. unfold MarkerClear. cbn [in_ with_in].
  destruct (ts_MarkerClear_law _ _ _ _ Hm) as (m' & -> & Hm'). by exists m'.
Qed.

(** The bytes begin with a value: not with the end of a container or a comma. *)
Definition begins (c : bytes) : Prop :=
  exists ret token n, next_token 0 c = (ret, token, n) /\ ret <> TOKEN_NO_DATA /\
    (ret = TOKEN_SEP_OK -> token = Some (bstr "[") \/ token = Some (bstr "{")).

Lemma Continue_first b (d : Dec M) c ms :
  left_in (in_ d) c ms -> begins c -> is_first_item_ d = true -> b = Byte.x5d \/ b = Byte.x7d ->
  exists m, DecodeElementContinue [b] d = success true (set_first (with_in d m) false) /\ left_in m c ms.
Proof.
  intros Hl (ret & token & n & Hn & Hnd & Hsep) Hf Hb. apply ts_MarkerSet_law in Hl.
  unfold DecodeElementContinue.
  destruct (ReadNextAsciiToken_at (with_in d (ts_MarkerSet (in_ d))) _ _ _ _ _ Hl Hn) as (m & -> & Hm).
  cbn [mbind option_bind]. rewrite decide_False by done.
  rewrite decide_False by (intros [E1 E2]; destruct (Hsep E1) as [->| ->], Hb as [->| ->]; done).
  rewrite decide_False by (intros [E1 E2]; destruct (Hsep E1) as [->| ->]; done).
  cbn [with_in is_first_item_]. rewrite Hf. cbn [negb]. unfold MarkerRestore. cbn [in_ with_in].
  destruct (ts_MarkerRestore_law _ _ _ _ Hm) as (m' & -> & Hm'). by exists m'.
Qed.

Lemma unquoted_quoted (s : bytes) : unquoted ([QUOT] ++ s ++ [QUOT]) = s.
Proof.
  unfold unquoted, substr. cbn [app drop]. rewrite length_cons, length_app. cbn [length].
  replace (S (length s + 1) - 2)%nat with (length s) by lia. apply take_app_length.
Qed.

Lemma parse_number_ok t z (d : Dec M) :
  sendable t (SInt z) -> parse_number t (print_int z) d = success (SInt z) d.
Proof.
  intros [Ht Hz]. assert (Hr : - 2 ^ 63 <= z < 2 ^ 64) by (destruct t; cbn in Ht; try done; lia).
  unfold parse_number. rewrite strtoll_print_int by done. replace (z <? 2 ^ 63) with true by lia.
  cbn [negb andb]. rewrite bool_decide_true by done. do 3 f_equal.
  destruct t; cbn in Ht |- *; try done.
  - apply wrapS_small; lia.
  - by apply wrapU_small.
  - apply wrapU_small. lia.
Qed.

Lemma assoc_quoted (sp a w b c : bytes) : (sp ++ a ++ w ++ b) ++ c = sp ++ a ++ w ++ b ++ c.
Proof. by rewrite <- !app_assoc. Qed.

Lemma assoc_quoted' (sp a w b c : bytes) : sp ++ (a ++ w ++ b) ++ c = sp ++ a ++ w ++ b ++ c.
Proof. by rewrite <- !app_assoc. Qed.

Lemma DecodeScalar_ok t s (d : Dec M) sp c ms :
  sendable t s -> blank sp ->
  left_in (in_ d) (sp ++ scalar_text (decoding_map_key_ d) s ++ c) ms ->
  exists m sp', DecodeScalar t d = success s (with_in d m) /\ left_in m (sp' ++ c) ms /\ blank sp'.
Proof.
  intros Hs Hsp Hl. pose proof Hs as [Ht Hsend]. destruct s as [b|z|s].
  - destruct t; try done. cbn [DecodeScalar]. unfold DecodeBody_bool.
    assert (Hw : next_token 0 (sp ++ (if b then bstr "true" else bstr "false") ++ SP :: c) =
      (TOKEN_OK, Some (if b then bstr "true" else bstr "false"),
       zlen (sp ++ (if b then bstr "true" else bstr "false")))) by (apply next_token_word; by destruct b).
    destruct (ReadNextAsciiToken_found d (sp ++ (if b then bstr "true" else bstr "false")) (SP :: c) ms
      TOKEN_OK (Some (if b then bstr "true" else bstr "false"))) as (m & -> & Hm).
    + rewrite <- app_assoc. by destruct b.
    + by rewrite <- app_assoc.
    + exists m, [SP]. split_and!; [by destruct b|done|by right].
  - assert (Hz : - 2 ^ 63 <= z < 2 ^ 63) by (destruct t; cbn in Ht; try done; lia).
    destruct (print_int_facts z Hz) as (H1 & H2 & H3 & H4 & H5).
    replace (DecodeScalar t d) with (ReadNumber t (decoding_map_key_ d) d) by by destruct t.
    unfold ReadNumber. cbn [scalar_text] in Hl. destruct (decoding_map_key_ d) eqn:Hk; cbn iota in Hl.
    + destruct (ReadNextAsciiToken_found d (sp ++ [QUOT] ++ print_int z ++ [QUOT]) c ms TOKEN_QUOTED_OK
        (Some ([QUOT] ++ print_int z ++ [QUOT]))) as (m & -> & Hm).
      * rewrite assoc_quoted. by rewrite assoc_quoted' in Hl.
      * rewrite assoc_quoted. by apply next_token_quoted.
      * cbn [mbind option_bind default from_option negb id]. rewrite unquoted_quoted.
        destruct (plain_escaped _ H4) as (_ & _ & Hu). rewrite H5 in Hu. rewrite Hu.
        cbn [mbind option_bind]. rewrite parse_number_ok by done. exists m, []. split_and!; [done|done|by left].
    + destruct (ReadNextAsciiToken_found d (sp ++ print_int z) (SP :: c) ms TOKEN_OK (Some (print_int z)))
        as (m & -> & Hm).
      * by rewrite <- !app_assoc in Hl |- *.
      * rewrite <- app_assoc. by apply next_token_word.
      * cbn [mbind option_bind default from_option id]. rewrite parse_number_ok by done.
        exists m, [SP]. split_and!; [done|done|by right].
  - destruct t; try done. cbn [DecodeScalar]. unfold DecodeBody_string. cbn [scalar_text] in Hl.
    destruct (ReadNextAsciiToken_found d (sp ++ [QUOT] ++ json_text s ++ [QUOT]) c ms TOKEN_QUOTED_OK
      (Some ([QUOT] ++ json_text s ++ [QUOT]))) as (m & -> & Hm).
    + rewrite assoc_quoted. by rewrite assoc_quoted' in Hl.
    + rewrite assoc_quoted. apply next_token_quoted; [done|by apply in_quotes_json_text].
    + cbn [mbind option_bind default from_option id]. rewrite decide_False, decide_True by done.
      rewrite unquoted_quoted. destruct (plain_escaped _ Hsend) as (_ & _ & ->). cbn [mbind option_bind].
      exists m, []. split_and!; [done|done|by left].
Qed.

(** *** Containers *)

Lemma begins_scalar t s sp c :
  sendable t s -> blank sp -> begins (sp ++ scalar_text false s ++ c).
Proof.
  intros [Ht Hs] Hsp. destruct s as [b|z|s]; cbn [scalar_text].
  - assert (E : (if b then bstr "true " else bstr "false ") ++ c =
      (if b then bstr "true" else bstr "false") ++ SP :: c) by by destruct b.
    rewrite E. do 3 eexists. split; [apply next_token_word; by destruct b|done].
  - assert (Hz : - 2 ^ 63 <= z < 2 ^ 63) by (destruct t; cbn in Ht; try done; lia).
    destruct (print_int_facts z Hz) as (H1 & H2 & _). rewrite <- app_assoc.
    do 3 eexists. split; [by apply next_token_word|done].
  - rewrite assoc_quoted'. do 3 eexists.
    split; [apply next_token_quoted; [done|by apply in_quotes_json_text]|done].
Qed.

Lemma begins_text t v sp c : of_type sendable t v -> blank sp -> begins (sp ++ text v ++ c).
Proof.
  intros Hv Hsp. destruct t as [t|t|k t], v as [s|l|m]; try done.
  - by apply (begins_scalar t).
  - do 3 eexists. split; [by apply (next_token_sep 0 sp Byte.x5b)|]. split; [done|by left].
  - do 3 eexists. split; [by apply (next_token_sep 0 sp Byte.x7b)|]. split; [done|by right].
Qed.

Lemma more_items x l : more (x :: l) = Byte.x2c :: SP :: x ++ more l.
Proof. done. Qed.

Lemma length_more items : (length items <= length (more items))%nat.
Proof.
  induction items as [|x l IH]; [done|]. rewrite more_items. cbn [length]. rewrite length_app. lia.
Qed.

Definition decodes (t : type) : Prop :=
  forall v (d : Dec M) sp c ms, of_type sendable t v -> blank sp ->
    left_in (in_ d) (sp ++ text v ++ c) ms -> decoding_map_key_ d = false ->
    exists d' sp', DecodeBody t d = success v d' /\ left_in (in_ d') (sp' ++ c) ms /\ blank sp' /\
      decoding_map_key_ d' = false.

Lemma array_more t l fuel tmp (d : Dec M) sp c ms :
  decodes t -> Forall (of_type sendable t) l -> blank sp ->
  left_in (in_ d) (sp ++ more (map text l) ++ Byte.x5d :: c) ms -> decoding_map_key_ d = false ->
  (length l < fuel)%nat ->
  exists d', loop (array_step (DecodeBody t)) fuel (d, tmp) = success (VVector (tmp ++ l)) d' /\
    left_in (in_ d') c ms /\ decoding_map_key_ d' = false.
Proof.
  intros IH. revert fuel tmp d sp. induction l as [|x l IHl]; intros fuel tmp d sp Hl Hsp Hd Hk Hf;
    (destruct fuel as [|fuel]; [lia|]); rewrite loop_S; cbn [array_step].
  - destruct (Continue_end Byte.x5d d sp c ms Hd Hsp eq_refl) as (m & Hr & Hm).
    change (DecodeArrayContinue d) with (DecodeElementContinue [Byte.x5d] d). rewrite Hr. cbn. rewrite app_nil_r. by exists (with_in d m).
  - apply Forall_cons_1 in Hl as [Hx Hl]. cbn [map] in Hd. rewrite more_items in Hd. cbn [app] in Hd.
    destruct (Continue_comma Byte.x5d d sp _ ms Hd Hsp ltac:(done)) as (m & Hr & Hm).
    change (DecodeArrayContinue d) with (DecodeElementContinue [Byte.x5d] d). rewrite Hr. cbn [verify success mbind option_bind].
    rewrite <- app_assoc in Hm.
    destruct (IH x (with_in d m) [SP] _ ms Hx (or_intror eq_refl) Hm Hk) as (d1 & sp1 & -> & Hd1 & Hsp1 & Hk1).
    cbn [verify success mbind option_bind].
    destruct (IHl fuel (tmp ++ [x]) d1 sp1 Hl Hsp1 Hd1 Hk1) as (d2 & Hr2 & Hd2 & Hk2); [cbn in Hf; lia|].
    exists d2. rewrite Hr2, <- app_assoc. by split.
Qed.

Lemma array_items t l fuel (d : Dec M) c ms :
  decodes t -> Forall (of_type sendable t) l ->
  left_in (in_ d) (items_text (map text l) ++ Byte.x5d :: c) ms ->
  decoding_map_key_ d = false -> is_first_item_ d = true -> (length l < fuel)%nat ->
  exists d', loop (array_step (DecodeBody t)) fuel (d, []) = success (VVector l) d' /\
    left_in (in_ d') c ms /\ decoding_map_key_ d' = false.
Proof.
  intros IH Hl Hd Hk Hfirst Hf. destruct l as [|x l].
  - apply (array_more t [] fuel [] d [] c ms); (done || by left).
  - destruct fuel as [|fuel]; [lia|]. rewrite loop_S. cbn [array_step].
    apply Forall_cons_1 in Hl as [Hx Hl]. cbn [map items_text] in Hd. rewrite <- app_assoc in Hd.
    destruct (Continue_first Byte.x5d d _ ms Hd) as (m & Hr & Hm); [|done|by left|].
    { by apply (begins_text t x []); [|left]. }
    change (DecodeArrayContinue d) with (DecodeElementContinue [Byte.x5d] d). rewrite Hr. cbn [verify success mbind option_bind].
    destruct (IH x (set_first (with_in d m) false) [] _ ms Hx (or_introl eq_refl) Hm Hk)
      as (d1 & sp1 & -> & Hd1 & Hsp1 & Hk1).
    cbn [verify success mbind option_bind app].
    destruct (array_more t l fuel [x] d1 sp1 c ms IH Hl Hsp1 Hd1 Hk1) as (d2 & Hr2 & Hd2 & Hk2);
      [cbn in Hf; lia|]. exists d2. by rewrite Hr2.
Qed.

Lemma bytes_leb_total a b : bytes_leb a b = false -> bytes_leb b a = true.
Proof.
  revert b. induction a as [|x a IH]; intros b; [done|]. destruct b as [|y b]; [done|]. cbn. intros H.
  apply orb_false_iff in H as [H1 H2]. destruct (Z.eqb_spec (uchar x) (uchar y)) as [E|E]; cbn in H2.
  - rewrite E, Z.ltb_irrefl, Z.eqb_refl. cbn. by apply IH.
  - bool_prop. apply orb_true_iff. left. lia.
Qed.

Lemma key_ltb_asym a b : key_ltb a b = true -> key_ltb b a = false.
Proof.
  destruct a as [x|x|x], b as [y|y|y]; cbn; try done.
  - by destruct x, y.
  - lia.
  - unfold bytes_ltb. intros H. bool_prop. apply negb_false_iff. by apply bytes_leb_total.
Qed.

Lemma map_insert_last k v m :
  Forall (fun p => key_ltb p.1 k = true) m -> map_insert k v m = m ++ [(k, v)].
Proof.
  induction 1 as [|[k' v'] m Hk _ IH]; [done|]. cbn [map_insert fst] in *.
  rewrite (key_ltb_asym _ _ Hk), Hk. by rewrite IH.
Qed.

Lemma pair_text_app p c : pair_text p ++ c = scalar_text true p.1 ++ Byte.x3a :: SP :: text p.2 ++ c.
Proof. unfold pair_text. by rewrite <- !app_assoc. Qed.

(** The four steps of a pair after [DecodeMapContinue]. *)
Lemma decode_pair k t p (d : Dec M) sp c ms :
  decodes t -> sendable k p.1 -> of_type sendable t p.2 -> blank sp ->
  left_in (in_ d) (sp ++ pair_text p ++ c) ms ->
  exists d' sp',
    verify (DecodeMapPairStart d) (fun d _ =>
    verify (DecodeScalar k d) (fun d key =>
    verify (DecodeMapPairMiddle d) (fun d _ =>
    verify (DecodeBody t d) (fun d item => success (Some (key, item)) d)))) = success (Some p) d' /\
    left_in (in_ d') (sp' ++ c) ms /\ blank sp' /\ decoding_map_key_ d' = false.
Proof.
  intros IH Hk Hv Hsp Hd. rewrite pair_text_app in Hd. cbn [verify DecodeMapPairStart success mbind option_bind].
  destruct (DecodeScalar_ok k p.1 (set_key d true) sp _ ms Hk Hsp Hd) as (m & sp1 & -> & Hm & Hsp1).
  cbn [verify success mbind option_bind]. unfold DecodeMapPairMiddle.
  destruct (ReadExpectedSeparator_ok Byte.x3a (set_key (with_in (set_key d true) m) false) sp1 _ ms Hm Hsp1 eq_refl)
    as (m2 & -> & Hm2). cbn [verify success mbind option_bind].
  destruct (IH p.2 (with_in (set_key (with_in (set_key d true) m) false) m2) [SP] c ms Hv
    (or_intror eq_refl) Hm2 eq_refl) as (d' & sp' & -> & Hd' & Hsp' & Hk').
  exists d', sp'. cbn. by destruct p.
Qed.

Definition before (out m : list (svalue * value)) : Prop :=
  Forall (fun p => Forall (fun q => key_ltb p.1 q.1 = true) m) out.

Lemma map_more k t l fuel out (d : Dec M) sp c ms :
  decodes t -> Forall (fun p => sendable k p.1 /\ of_type sendable t p.2) l -> blank sp ->
  ordered (out ++ l) ->
  left_in (in_ d) (sp ++ more (map pair_text l) ++ Byte.x7d :: c) ms -> (length l < fuel)%nat ->
  decoding_map_key_ d = false ->
  exists d', loop (map_step (DecodeBody t) k) fuel (d, out) = success (VMap (out ++ l)) d' /\
    left_in (in_ d') c ms /\ decoding_map_key_ d' = false.
Proof.
  intros IH. revert fuel out d sp. induction l as [|x l IHl]; intros fuel out d sp Hl Hsp Ho Hd Hf Hk;
    (destruct fuel as [|fuel]; [lia|]); rewrite loop_S; cbn [map_step].
  - destruct (Continue_end Byte.x7d d sp c ms Hd Hsp eq_refl) as (m & Hr & Hm).
    change (DecodeMapContinue d) with (DecodeElementContinue [Byte.x7d] d). rewrite Hr. cbn.
    rewrite app_nil_r. by exists (with_in d m).
  - apply Forall_cons_1 in Hl as [[Hx Hv] Hl]. cbn [map] in Hd. rewrite more_items in Hd. cbn [app] in Hd.
    destruct (Continue_comma Byte.x7d d sp _ ms Hd Hsp ltac:(done)) as (m & Hr & Hm).
    change (DecodeMapContinue d) with (DecodeElementContinue [Byte.x7d] d). rewrite Hr.
    cbn [verify success mbind option_bind]. rewrite <- app_assoc in Hm.
    destruct (decode_pair k t x (with_in d m) [SP] _ ms IH Hx Hv (or_intror eq_refl) Hm)
      as (d1 & sp1 & Hp & Hd1 & Hsp1 & Hk1).
    unfold verify in Hp. unfold verify. rewrite Hp. cbn [success mbind option_bind].
    destruct x as [key item]. cbn iota beta.
    assert (Hins : map_insert key item out = out ++ [(key, item)]).
    { apply map_insert_last. unfold ordered in Ho. clear -Ho. induction out as [|q out IHo]; [apply Forall_nil_2|].
      cbn [app] in Ho. apply StronglySorted_inv in Ho as [Ho Hq]. apply Forall_cons_2; [|by apply IHo].
      rewrite List.Forall_forall in Hq. apply (Hq (key, item)). apply in_app_iff. right. by left. }
    rewrite Hins.
    destruct (IHl fuel (out ++ [(key, item)]) d1 sp1 Hl Hsp1) as (d2 & Hr2 & Hd2 & Hk2);
      [by rewrite <- app_assoc|done|cbn in Hf; lia|done|].
    exists d2. unfold verify in Hr2. rewrite Hr2, <- app_assoc. by split.
Qed.

Lemma map_items k t l fuel (d : Dec M) c ms :
  decodes t -> Forall (fun p => sendable k p.1 /\ of_type sendable t p.2) l -> ordered l ->
  left_in (in_ d) (items_text (map pair_text l) ++ Byte.x7d :: c) ms ->
  decoding_map_key_ d = false -> is_first_item_ d = true -> (length l < fuel)%nat ->
  exists d', loop (map_step (DecodeBody t) k) fuel (d, []) = success (VMap l) d' /\
    left_in (in_ d') c ms /\ decoding_map_key_ d' = false.
Proof.
  intros IH Hl Ho Hd Hk Hfirst Hf. destruct l as [|x l].
  - apply (map_more k t [] fuel [] d [] c ms); (done || by left).
  - destruct fuel as [|fuel]; [lia|]. rewrite loop_S. cbn [map_step].
    apply Forall_cons_1 in Hl as [[Hx Hv] Hl]. cbn [map items_text] in Hd. rewrite <- app_assoc in Hd.
    assert (Hb : begins (pair_text x ++ more (map pair_text l) ++ Byte.x7d :: c)).
    { rewrite pair_text_app. destruct Hx as [Ht Hs]. destruct (x.1) as [b|z|s]; cbn [scalar_text].
      - match goal with |- begins (_ ++ ?r) => pose proof (begins_scalar k (SBool b) [] r) as H end.
        apply H; [by split|by left].
      - assert (Hz : - 2 ^ 63 <= z < 2 ^ 63) by (destruct k; cbn in Ht; try done; lia).
        destruct (print_int_facts z Hz) as (_ & _ & Hq & _). rewrite <- !app_assoc.
        do 3 eexists. split; [by apply (next_token_quoted 0 [] _ _ (or_introl eq_refl) Hq)|done].
      - match goal with |- begins (_ ++ ?r) => pose proof (begins_scalar k (SString s) [] r) as H end.
        apply H; [by split|by left]. }
    destruct (Continue_first Byte.x7d d _ ms Hd Hb Hfirst (or_intror eq_refl)) as (m & Hr & Hm).
    change (DecodeMapContinue d) with (DecodeElementContinue [Byte.x7d] d). rewrite Hr.
    cbn [verify success mbind option_bind].
    destruct (decode_pair k t x (set_first (with_in d m) false) [] _ ms IH Hx Hv (or_introl eq_refl) Hm)
      as (d1 & sp1 & Hp & Hd1 & Hsp1 & Hk1).
    unfold verify in Hp. unfold verify. rewrite Hp. cbn [success mbind option_bind].
    destruct x as [key item]. cbn [map_insert].
    destruct (map_more k t l fuel [(key, item)] d1 sp1 c ms IH Hl Hsp1 Ho Hd1) as (d2 & Hr2 & Hd2 & Hk2);
      [cbn in Hf; lia|done|]. exists d2. unfold verify in Hr2. by rewrite Hr2.
Qed.

Lemma DecodeBody_ok t : decodes t.
Proof.
  induction t as [t|t IH|k t IH]; intros [s|l|m] d sp c ms Hv Hsp Hd Hk; try done; cbn [DecodeBody].
  - cbn [text] in Hd. rewrite <- Hk in Hd.
    destruct (DecodeScalar_ok t s d sp c ms Hv Hsp Hd) as (m & sp' & -> & Hm & Hsp'). cbn.
    by exists (with_in d m), sp'.
  - destruct Hv as [_ Hl]. cbn [text] in Hd. unfold DecodeArrayStart.
    destruct (ReadExpectedSeparator_ok Byte.x5b (set_first d true) sp
      (items_text (map text l) ++ Byte.x5d :: c) ms) as (m & -> & Hm); [|done|done|].
    { by rewrite assoc_quoted' in Hd. }
    cbn [verify success mbind option_bind].
    destruct (array_items t l (turns (with_in (set_first d true) m)) (with_in (set_first d true) m) c ms IH Hl Hm Hk eq_refl)
      as (d' & -> & Hd' & Hk').
    { unfold turns. cbn [in_ with_in]. rewrite (ts_Size_law _ _ _ Hm). unfold zlen. rewrite Nat2Z.id.
      destruct l as [|x l]; [cbn; lia|]. cbn [map items_text]. rewrite !length_app. cbn [length].
      pose proof (length_more (map text l)) as H. rewrite length_map in H. lia. }
    exists d', []. by split_and!; [| |left|].
  - destruct Hv as (_ & Ho & Hl). cbn [text] in Hd. unfold DecodeMapStart.
    destruct (ReadExpectedSeparator_ok Byte.x7b (set_first d true) sp
      (items_text (map pair_text m) ++ Byte.x7d :: c) ms) as (m' & -> & Hm); [|done|done|].
    { by rewrite assoc_quoted' in Hd. }
    cbn [verify success mbind option_bind].
    destruct (map_items k t m (turns (with_in (set_first d true) m')) (with_in (set_first d true) m') c ms IH Hl Ho Hm Hk eq_refl)
      as (d' & -> & Hd' & Hk').
    { unfold turns. cbn [in_ with_in]. rewrite (ts_Size_law _ _ _ Hm). unfold zlen. rewrite Nat2Z.id.
      destruct m as [|x l]; [cbn; lia|]. cbn [map items_text]. rewrite !length_app. cbn [length].
      pose proof (length_more (map pair_text l)) as H. rewrite length_map in H. lia. }
    exists d', []. by split_and!; [| |left|].
Qed.

(** *** Any input *)

Lemma quoted_end_Some q esc c x : quoted_end q esc c = Some x -> exists c', c = x ++ c'.
Proof.
  revert esc x. induction c as [|b c IH]; intros esc x; cbn; [done|]. destruct (_ && negb esc).
  - intros [= <-]. by exists c.
  - intros (y & Hy & ->)%fmap_Some. destruct (IH _ _ Hy) as (c' & ->). by exists c'.
Qed.

(** A token takes one byte at least; an error or the lack of data takes none. *)
Lemma next_token_length k c ret token n :
  next_token k c = (ret, token, n) ->
  if decide (ret = TOKEN_NO_DATA \/ ret = TOKEN_ERROR_CHAR) then n = 0
  else k < n <= k + zlen c.
Proof.
  revert k. induction c as [|b c IH]; intros k; cbn [next_token]; [by intros [= <- <- <-]|].
  pose proof (zlen_nonneg c). rewrite zlen_cons. destruct (AttrIsError b); [by intros [= <- <- <-]|].
  destruct (AttrIsQuote b).
  { unfold quoted_token. destruct (quoted_end b false c) as [x|] eqn:E; [|by intros [= <- <- <-]].
    destruct (quoted_end_Some _ _ _ _ E) as (c' & ->). rewrite zlen_app in *.
    pose proof (zlen_nonneg x). pose proof (zlen_nonneg c').
    intros [= <- <- <-]. rewrite decide_False by (by intros [|]). rewrite ?zlen_app. change (zlen [b]) with 1. lia. }
  destruct (AttrIsSep b); [intros [= <- <- <-]; rewrite decide_False by (by intros [|]); lia|].
  destruct (AttrIsSpace b).
  { intros Hn. specialize (IH (k + 1) Hn). destruct (decide _); [done|lia]. }
  unfold word_token. destruct (word_end c) as [[x|]|] eqn:E; [|by intros [= <- <- <-]..].
  destruct (word_end_Some _ _ E) as (c' & ->). rewrite zlen_app in *.
  pose proof (zlen_nonneg x). pose proof (zlen_nonneg c').
  intros [= <- <- <-]. rewrite decide_False by (by intros [|]). rewrite ?zlen_app. change (zlen [b]) with 1. lia.
Qed.

Abbreviation Decoded A := (option (Dec M * (A + DECODE_RESULT))).

(** A step that ends on the bytes [c]: it leaves no more of them, and fewer if it [takes] some
    when it succeeds. *)
Definition ends {A} (takes : bool) (c : bytes) (ms : list bytes) (x : Decoded A) : Prop :=
  exists (d' : Dec M) r c', x = Some (d', r) /\ left_in (in_ d') c' ms /\ (length c' <= length c)%nat /\
    (takes = true -> forall a, r = inl a -> (length c' < length c)%nat).

Lemma token_ends {A} (d : Dec M) c ms (f : Dec M * TokenReadError * bytes -> Decoded A) :
  left_in (in_ d) c ms ->
  (forall m ret s c', left_in m c' ms -> (length c' <= length c)%nat ->
     (ret <> TOKEN_NO_DATA -> ret <> TOKEN_ERROR_CHAR -> (length c' < length c)%nat) ->
     ends true c ms (f (with_in d m, ret, s))) ->
  ends true c ms (ReadNextAsciiToken d ≫= f).
Proof.
  intros Hl Hf. destruct (next_token 0 c) as [[ret token] n] eqn:E.
  destruct (ReadNextAsciiToken_at d c ms ret token n Hl E) as (m & -> & Hm). cbn [mbind option_bind].
  apply (Hf _ _ _ (dropZ n c) Hm).
  - unfold dropZ. rewrite length_drop. lia.
  - intros H1 H2. apply next_token_length in E. rewrite decide_False in E by (by intros [|]).
    unfold dropZ. rewrite length_drop. unfold zlen in E. lia.
Qed.

Lemma verify_ends {A B} t1 t2 (x : Decoded A) (f : Dec M -> A -> Decoded B) c ms :
  ends t1 c ms x ->
  (forall d a c', left_in (in_ d) c' ms -> (length c' <= length c)%nat -> ends t2 c' ms (f d a)) ->
  ends (t1 || t2) c ms (verify x f).
Proof.
  intros (d & r & c1 & -> & Hl & Hle & Hlt) Hf. destruct r as [a|e]; cbn.
  - destruct (Hf d a c1 Hl Hle) as (d2 & r2 & c2 & -> & Hl2 & Hle2 & Hlt2).
    exists d2, r2, c2. split_and!; [done|done|lia|]. intros Ht b Hb. apply orb_true_iff in Ht as [Ht|Ht].
    + specialize (Hlt Ht a eq_refl). lia.
    + specialize (Hlt2 Ht b Hb). lia.
  - exists d, (inr e), c1. by split_and!.
Qed.

Lemma failure_ends {A} b (d : Dec M) r c c' ms :
  left_in (in_ d) c' ms -> (length c' <= length c)%nat -> ends (A := A) b c ms (failure r d).
Proof. intros H1 H2. exists d, (inr r), c'. by split_and!. Qed.

Lemma success_ends {A} (a : A) (d : Dec M) c ms : left_in (in_ d) c ms -> ends false c ms (success a d).
Proof. intros H1. by exists d, (inl a), c. Qed.

Lemma success_takes {A} (a : A) (d : Dec M) c c' ms :
  left_in (in_ d) c' ms -> (length c' < length c)%nat -> ends true c ms (success a d).
Proof. intros H1 H2. exists d, (inl a), c'. split_and!; [done|done|lia|done]. Qed.

Lemma ReadExpectedSeparator_ends b (d : Dec M) c ms :
  left_in (in_ d) c ms -> b <> NUL -> ends true c ms (ReadExpectedSeparator b d).
Proof.
  intros Hl Hb. destruct (next_token 0 c) as [[ret token] n] eqn:E.
  destruct (ReadNextAsciiToken_at d c ms ret token n Hl E) as (m & Hr & Hm).
  unfold ReadExpectedSeparator. rewrite Hr. cbn [mbind option_bind].
  assert (Hle : (length (dropZ n c) <= length c)%nat) by (unfold dropZ; rewrite length_drop; lia).
  destruct (decide (ret = TOKEN_NO_DATA)); [by apply (failure_ends _ (with_in d m) _ _ _ _ Hm)|].
  destruct (decide _) as [Hc|]; [|by apply (failure_ends _ (with_in d m) _ _ _ _ Hm)].
  apply (success_takes _ (with_in d m) _ _ _ Hm). pose proof E as E'. apply next_token_length in E.
  destruct (decide (ret = TOKEN_NO_DATA \/ ret = TOKEN_ERROR_CHAR)) as [He|He].
  - exfalso. destruct He as [He|He]; [done|]. subst ret.
    assert (Htok : forall k c, (next_token k c).1.1 = TOKEN_ERROR_CHAR -> (next_token k c).1.2 = None).
    { clear. intros k c. revert k. induction c as [|x c IH]; intros k; cbn [next_token]; [done|].
      destruct (AttrIsError x); [done|]. destruct (AttrIsQuote x).
      { unfold quoted_token. by destruct (quoted_end _ _ _). }
      destruct (AttrIsSep x); [done|]. destruct (AttrIsSpace x); [apply IH|].
      unfold word_token. by destruct (word_end c) as [[]|]. }
    specialize (Htok 0 c). rewrite E' in Htok. cbn in Htok. rewrite Htok in Hc by done. cbn in Hc. by apply Hb.
  - unfold dropZ. rewrite length_drop. unfold zlen in E. lia.
Qed.

Lemma DecodeElementContinue_ends sep (d : Dec M) c ms :
  left_in (in_ d) c ms -> ends false c ms (DecodeElementContinue sep d).
Proof.
  intros Hl. apply ts_MarkerSet_law in Hl. unfold DecodeElementContinue.
  destruct (next_token 0 c) as [[ret token] n] eqn:E.
  destruct (ReadNextAsciiToken_at (with_in d (ts_MarkerSet (in_ d))) c _ ret token n Hl E) as (m & -> & Hm).
  cbn [mbind option_bind].
  assert (Hle : (length (dropZ n c) <= length c)%nat) by (unfold dropZ; rewrite length_drop; lia).
  unfold MarkerRestore, MarkerClear. cbn [in_ with_in is_first_item_].
  destruct (ts_MarkerRestore_law _ _ _ _ Hm) as (m1 & -> & Hm1).
  destruct (ts_MarkerClear_law _ _ _ _ Hm) as (m2 & -> & Hm2). cbn [mbind option_bind].
  repeat case_decide; [| | |destruct (is_first_item_ d); cbn [negb]];
    [exists (with_in (with_in (with_in d (ts_MarkerSet (in_ d))) m) m1), (inr DECODE_RESULT_NOT_ENOUGH_DATA), c
    |exists (with_in (with_in (with_in d (ts_MarkerSet (in_ d))) m) m2), (inl false), (dropZ n c)
    |exists (with_in (with_in (with_in d (ts_MarkerSet (in_ d))) m) m2), (inl true), (dropZ n c)
    |exists (set_first (with_in (with_in (with_in d (ts_MarkerSet (in_ d))) m) m1) false), (inl true), c
    |exists (with_in (with_in (with_in d (ts_MarkerSet (in_ d))) m) m1), (inr DECODE_RESULT_ERROR), c];
    by split_and!.
Qed.

Lemma parse_number_ends t s (d : Dec M) c c' ms :
  left_in (in_ d) c' ms -> (length c' < length c)%nat -> ends true c ms (parse_number t s d).
Proof.
  intros Hl Hlt. unfold parse_number. destruct (strtoll s) as [[l errno] endp].
  destruct (_ && _); [by eapply success_takes|]. eapply failure_ends; [done|lia].
Qed.

Lemma DecodeScalar_ends t (d : Dec M) c ms : left_in (in_ d) c ms -> ends true c ms (DecodeScalar t d).
Proof.
  intros Hl.
  assert (Hnum : forall t, ends true c ms (ReadNumber t (decoding_map_key_ d) d)).
  { clear t. intros t. unfold ReadNumber. apply (token_ends d c ms _ Hl). intros m ret s c' Hm Hle Hlt.
    assert (Hf : ends (A := svalue) true c ms (failure DECODE_RESULT_ERROR (with_in d m)))
      by (by eapply (failure_ends _ (with_in d m))).
    destruct ret; cbn iota; try done; try (by eapply (failure_ends _ (with_in d m))).
    - destruct (decoding_map_key_ d); [done|]. apply (parse_number_ends _ _ (with_in d m) _ c'); [done|by apply Hlt].
    - destruct (decoding_map_key_ d); cbn [negb]; [|done]. rewrite JsonStrUnescape_total. cbn [mbind option_bind].
      apply (parse_number_ends _ _ (with_in d m) _ c'); [done|by apply Hlt]. }
  destruct t; cbn [DecodeScalar]; try apply Hnum.
  - unfold DecodeBody_bool. apply (token_ends d c ms _ Hl). intros m ret s c' Hm Hle Hlt.
    repeat case_decide; try (by eapply (failure_ends _ (with_in d m)));
      apply (success_takes _ (with_in d m) _ c'); (done || (destruct_and?; subst ret; by apply Hlt)).
  - unfold DecodeBody_string. apply (token_ends d c ms _ Hl). intros m ret s c' Hm Hle Hlt.
    repeat case_decide; try (by eapply (failure_ends _ (with_in d m))).
    rewrite JsonStrUnescape_total. cbn [mbind option_bind].
    apply (success_takes _ (with_in d m) _ c'); (done || (destruct_and?; subst ret; by apply Hlt)).
Qed.

(** A loop of which every turn that goes on takes some of the bytes. *)
Lemma loop_ends {S : Type} (step : Dec M * S -> option ((Dec M * S) + (Dec M * (value + DECODE_RESULT))))
    fuel (d : Dec M) (s : S) c ms :
  (forall d s c, left_in (in_ d) c ms -> exists x, step (d, s) = Some x /\
     match x with
     | inl (d', _) => exists c', left_in (in_ d') c' ms /\ (length c' < length c)%nat
     | inr (d', _) => exists c', left_in (in_ d') c' ms /\ (length c' <= length c)%nat
     end) ->
  left_in (in_ d) c ms -> (length c < fuel)%nat -> ends false c ms (loop step fuel (d, s)).
Proof.
  intros Hstep. revert d s c. induction fuel as [|fuel IH]; intros d s c Hl Hf; [lia|].
  rewrite loop_S. destruct (Hstep d s c Hl) as ([[d' s']|[d' r]] & -> & c' & Hl' & Hlt); cbn [mbind option_bind].
  - destruct (IH d' s' c' Hl') as (d2 & r & c2 & -> & H1 & H2 & _); [lia|].
    exists d2, r, c2. split_and!; [done|done|lia|done].
  - exists d', r, c'. by split_and!.
Qed.

Lemma turns_at (d : Dec M) c ms : left_in (in_ d) c ms -> turns d = S (length c).
Proof. intros Hl. unfold turns. rewrite (ts_Size_law _ _ _ Hl). unfold zlen. by rewrite Nat2Z.id. Qed.

Lemma ends_weaken {A} b c ms (x : Decoded A) : ends true c ms x -> ends b c ms x.
Proof. intros (d & r & c' & -> & H1 & H2 & H3). exists d, r, c'. by split_and!; [| | |intros _; apply H3]. Qed.

Lemma pair_ends k t (d : Dec M) c ms :
  (forall (d : Dec M) c, left_in (in_ d) c ms -> ends true c ms (DecodeBody t d)) ->
  left_in (in_ d) c ms ->
  ends true c ms
    (verify (DecodeMapPairStart d) (fun d _ =>
     verify (DecodeScalar k d) (fun d key =>
     verify (DecodeMapPairMiddle d) (fun d _ =>
     verify (DecodeBody t d) (fun d item => success (Some (key, item)) d))))).
Proof.
  intros IH Hl. apply (verify_ends false true); [by apply (success_ends () (set_key d true))|].
  intros d2 _ c2 Hl2 _. apply (verify_ends true false); [by apply DecodeScalar_ends|].
  intros d3 key c3 Hl3 _. apply ends_weaken, (verify_ends true false).
  { by apply (ReadExpectedSeparator_ends Byte.x3a (set_key d3 false)). }
  intros d4 _ c4 Hl4 _. apply ends_weaken, (verify_ends true false); [by apply IH|].
  intros d5 item c5 Hl5 _. by apply success_ends.
Qed.

Lemma DecodeBody_ends t (d : Dec M) c ms : left_in (in_ d) c ms -> ends true c ms (DecodeBody t d).
Proof.
  revert d c. induction t as [t|t IH|k t IH]; intros d c Hl; cbn [DecodeBody].
  - apply (verify_ends true false); [by apply DecodeScalar_ends|]. intros d' a c' Hl' _. by apply success_ends.
  - apply (verify_ends true false); [by apply ReadExpectedSeparator_ends|]. intros d' _ c' Hl' _.
    apply (loop_ends (array_step (DecodeBody t)) _ d' [] c' ms); [|done|rewrite (turns_at _ _ _ Hl'); lia].
    clear d c Hl d' c' Hl'. intros d tmp c Hl. cbn [array_step]. unfold DecodeArrayContinue.
    destruct (DecodeElementContinue_ends (bstr "]") d c ms Hl) as (d1 & r1 & c1 & -> & Hl1 & Hle1 & _).
    destruct r1 as [[]|e]; cbn [verify success mbind option_bind].
    + destruct (IH d1 c1 Hl1) as (d2 & r2 & c2 & -> & Hl2 & Hle2 & Hlt2).
      destruct r2 as [a|e]; cbn [verify success mbind option_bind]; (eexists; split; [done|]); exists c2.
      * split; [done|]. specialize (Hlt2 eq_refl a eq_refl). lia.
      * split; [done|lia].
    + eexists. split; [done|]. exists c1. by split.
    + eexists. split; [done|]. exists c1. by split.
  - apply (verify_ends true false); [by apply ReadExpectedSeparator_ends|]. intros d' _ c' Hl' _.
    apply (loop_ends (map_step (DecodeBody t) k) _ d' [] c' ms); [|done|rewrite (turns_at _ _ _ Hl'); lia].
    clear d c Hl d' c' Hl'. intros d out c Hl. cbn [map_step]. unfold DecodeMapContinue.
    destruct (DecodeElementContinue_ends (bstr "}") d c ms Hl) as (d1 & r1 & c1 & -> & Hl1 & Hle1 & _).
    destruct r1 as [[]|e]; cbn [mbind option_bind].
    + unfold verify at 1. cbn [mbind option_bind]. cbn iota.
      destruct (pair_ends k t d1 c1 ms IH Hl1) as (d2 & r2 & c2 & Hp & Hl2 & Hle2 & Hlt2).
      rewrite Hp. cbn [mbind option_bind].
      destruct r2 as [[[key item]|]|e]; (eexists; split; [done|]); exists c2.
      * split; [done|]. specialize (Hlt2 eq_refl _ eq_refl). lia.
      * split; [done|lia].
      * split; [done|lia].
    + eexists. split; [done|]. exists c1. by split.
    + eexists. split; [done|]. exists c1. by split.
Qed.

(** A string as it is written, whatever its characters. *)
Lemma DecodeString_undone cps (d : Dec M) c ms :
  Forall JsonText.scalar cps -> in_quotes (concat (json_char <$> cps)) ->
  left_in (in_ d) (([QUOT] ++ concat (json_char <$> cps) ++ [QUOT]) ++ c) ms ->
  exists m, DecodeScalar String d = success (SString (concat (undone <$> cps))) (with_in d m) /\
    left_in m c ms.
Proof.
  intros Hs Hq Hl. cbn [DecodeScalar]. unfold DecodeBody_string.
  destruct (ReadNextAsciiToken_found d ([QUOT] ++ concat (json_char <$> cps) ++ [QUOT]) c ms
    TOKEN_QUOTED_OK (Some ([QUOT] ++ concat (json_char <$> cps) ++ [QUOT])) Hl) as (m & -> & Hm).
  { rewrite <- (app_nil_l (([QUOT] ++ _) ++ c)), assoc_quoted'.
    by apply (next_token_quoted 0 []); [left|]. }
  cbn [mbind option_bind default from_option id]. rewrite decide_False, decide_True by done.
  rewrite unquoted_quoted, JsonStrUnescape_total, undone_text by done. cbn [mbind option_bind].
  by exists m.
Qed.

Lemma DecodeNumber_text t z (d : Dec M) c ms :
  t <> Bool -> t <> String -> decoding_map_key_ d = false -> - 2 ^ 63 <= z < 2 ^ 64 ->
  left_in (in_ d) ((print_int z ++ [SP]) ++ c) ms ->
  exists m, DecodeScalar t d = parse_number t (print_int z) (with_in d m) /\ left_in m (SP :: c) ms.
Proof.
  intros Ht1 Ht2 Hk Hz Hl. replace (DecodeScalar t d) with (ReadNumber t (decoding_map_key_ d) d) by by destruct t.
  rewrite Hk. unfold ReadNumber. rewrite <- app_assoc in Hl.
  assert (Hw : print_int z <> [] /\ forallb word_char (print_int z) = true).
  { destruct (decide (z < 2 ^ 63)); [by destruct (print_int_facts z) as (? & ? & _); [lia|]|].
    destruct (digits_of_spec 19 z) as (H1 & _ & H3); [lia|]. unfold print_int. replace (z <? 0) with false by lia.
    split; [done|]. rewrite forallb_forall in H1 |- *. intros x Hx. by apply digit_facts, H1. }
  destruct Hw as [Hw1 Hw2].
  destruct (ReadNextAsciiToken_found d (print_int z) (SP :: c) ms TOKEN_OK (Some (print_int z)) Hl)
    as (m & -> & Hm); [by apply (next_token_word 0 []); [left| |]|]. by exists m.
Qed.

End Decode.

Lemma in_quotes_hex4 c : in_quotes (hex4 c).
Proof.
  assert (Hd : forall n, in_quotes [default NUL (kHexChars !! Z.to_nat (n mod 16))]).
  { intros n. apply quotable_in_quotes.
    apply (below_spec 16 (fun n => quotable false [default NUL (kHexChars !! Z.to_nat n)])); [done|].
    by apply Z.mod_pos_bound. }
  unfold hex4. cbn [fmap list_fmap]. rewrite !nibble by lia.
  by repeat (apply (in_quotes_app [_]); [apply Hd|]); apply in_quotes_nil.
Qed.

Lemma in_quotes_char c : JsonText.scalar c -> in_quotes (json_char c).
Proof.
  intros [Hc _]. destruct (decide (c < 128)) as [Hs|Hs].
  - apply quotable_in_quotes, (ascii_cases (fun c => quotable false (json_char c) = true) c); [|lia].
    clear. intros b Hb. destruct b; try (exfalso; revert Hb; by vm_compute); reflexivity.
  - assert (Hu : forall c, in_quotes (Byte.x5c :: Byte.x75 :: hex4 c)).
    { intros x. apply (in_quotes_app [Byte.x5c; Byte.x75]); [by apply quotable_in_quotes|apply in_quotes_hex4]. }
    rewrite json_char_big by lia. destruct (c <? 0x10000); [apply Hu|]. apply in_quotes_app; apply Hu.
Qed.

Lemma in_quotes_text cps : Forall JsonText.scalar cps -> in_quotes (concat (json_char <$> cps)).
Proof.
  induction 1 as [|c l Hc _ IH]; [apply in_quotes_nil|]. cbn [fmap list_fmap concat].
  apply in_quotes_app; [by apply in_quotes_char|done].
Qed.

(** ** Theorems *)
Section Theorems.
Context {M1 M2 : Type} `{BS : ByteStream M1} `{TS : TokenStream M2}.

(** C14: A value of booleans, integers and strings in vectors and maps, nested as they may be, comes
    back from the JSON decoder as it was given to the encoder, with at most a blank of its text
    left, if its unsigned numbers are below 2^63 and its strings have the characters U+0001 to
    U+000F and those that can be printed in ASCII; whatever streams carry it that have room
    for its text (memory streams have for 2 GB). *)
Theorem json_value_sent t v (e : Enc M1) c (d : Dec M2) rest ms :
  of_type sendable t v -> holds (out_ e) c -> encoding_map_key_ e = false ->
  bs_room (c ++ text v) ->
  exists e' x, EncodeBody v e = Some e' /\ holds (out_ e') (c ++ x) /\
    (left_in (in_ d) (x ++ rest) ms -> decoding_map_key_ d = false ->
     exists d' sp, DecodeBody t d = Some (d', inl v) /\ left_in (in_ d') (sp ++ rest) ms /\ blank sp).
Proof.
  intros Hv Hc Hk Hroom. destruct (EncodeBody_writes t v e c Hv Hc Hk Hroom) as (e' & He & Hc' & _).
  exists e', (text v). split_and!; [done|done|]. intros Hl Hd.
  destruct (DecodeBody_ok t v d [] rest ms Hv (or_introl eq_refl) Hl Hd) as (d' & sp & H1 & H2 & H3 & _).
  by exists d', sp.
Qed.

(** C15: The JSON decoder returns on any input, whatever type it decodes: its loops end, its markers
    are set and cleared in pairs, and a value takes one byte of the stream at least. *)
Theorem json_decoder_ends t (d : Dec M2) c ms :
  left_in (in_ d) c ms ->
  exists d' r c', DecodeBody t d = Some (d', r) /\ left_in (in_ d') c' ms /\
    (length c' <= length c)%nat /\ (forall v, r = inl v -> (length c' < length c)%nat).
Proof.
  intros Hl. destruct (DecodeBody_ends t d c ms Hl) as (d' & r & c' & H1 & H2 & H3 & H4).
  exists d', r, c'. split_and!; [done..|by apply H4].
Qed.

(** C16: What the JSON codec loses: an unsigned number from 2^63 on is sent but refused by the
    decoder, which reads it as a signed one; a number that does not fit is cut to the type without
    an error; and a Unicode text without NUL is received as it was sent exactly when every
    character is one of U+0001 to U+000F or can be printed in ASCII.  The stream has room for
    what is written. *)
Theorem json_values_lost (e : Enc M1) c (d : Dec M2) rest ms :
  holds (out_ e) c -> encoding_map_key_ e = false -> decoding_map_key_ d = false ->
  (forall z, 2 ^ 63 <= z < 2 ^ 64 -> bs_room (c ++ print_int z ++ [SP]) ->
     exists e' x, EncodeBody (VScalar (SInt z)) e = Some e' /\ holds (out_ e') (c ++ x) /\
       (left_in (in_ d) (x ++ rest) ms ->
        exists d', DecodeBody (Scalar Uint64) d = Some (d', inr DECODE_RESULT_ERROR))) /\
  (forall z, - 2 ^ 63 <= z < 2 ^ 63 -> bs_room (c ++ print_int z ++ [SP]) ->
     exists e' x, EncodeBody (VScalar (SInt z)) e = Some e' /\ holds (out_ e') (c ++ x) /\
       (left_in (in_ d) (x ++ rest) ms ->
        exists d', DecodeBody (Scalar Int32) d = Some (d', inl (VScalar (SInt (int32 z)))))) /\
  (forall cps, Forall JsonText.scalar cps -> 0 ∉ cps ->
     bs_room (c ++ [QUOT] ++ concat (json_char <$> cps) ++ [QUOT]) ->
     exists e' x, EncodeBody (VScalar (SString (enc cps))) e = Some e' /\ holds (out_ e') (c ++ x) /\
       (left_in (in_ d) (x ++ rest) ms ->
        exists d' s, DecodeBody (Scalar String) d = Some (d', inl (VScalar (SString s))) /\
          (s = enc cps <-> Forall plain cps))).
Proof.
  intros Hc Hk Hd.
  assert (Hint : forall z, bs_room (c ++ print_int z ++ [SP]) -> exists e', EncodeBody (VScalar (SInt z)) e = Some e' /\
    holds (out_ e') (c ++ print_int z ++ [SP])).
  { intros z Hz. cbn [EncodeBody EncodeScalar]. unfold PrintBody. rewrite Hk. cbn [negb].
    destruct (Write_writes (print_int z ++ [SP]) e c Hc Hz) as (e' & He & Hc' & _). by exists e'. }
  split_and!.
  - intros z Hz Hroom. destruct (Hint z Hroom) as (e' & He & Hc'). exists e', (print_int z ++ [SP]).
    split_and!; [done|done|]. intros Hl.
    destruct (DecodeNumber_text Uint64 z d rest ms ltac:(done) ltac:(done) Hd ltac:(lia) Hl) as (m & Hr & _).
    exists (with_in d m). cbn [DecodeBody]. rewrite Hr. unfold parse_number.
    rewrite strtoll_print_int by lia. by replace (z <? 2 ^ 63) with false by lia.
  - intros z Hz Hroom. destruct (Hint z Hroom) as (e' & He & Hc'). exists e', (print_int z ++ [SP]).
    split_and!; [done|done|]. intros Hl.
    destruct (DecodeNumber_text Int32 z d rest ms ltac:(done) ltac:(done) Hd ltac:(lia) Hl) as (m & Hr & _).
    exists (with_in d m). cbn [DecodeBody]. rewrite Hr. unfold parse_number.
    rewrite strtoll_print_int by lia. by replace (z <? 2 ^ 63) with true by lia.
  - intros cps Hs H0 Hroom. cbn [EncodeBody EncodeScalar]. unfold EncodeBody_string.
    rewrite JsonStrEscape_enc, wcs_text by done. cbn [mbind option_bind].
    assert (Hcs : cstr (concat (json_char <$> cps)) = concat (json_char <$> cps)).
    { apply cstr_id, printable_no_nul. clear -Hs. induction Hs as [|x l Hx _ IH]; [done|].
      cbn [fmap list_fmap concat]. rewrite forallb_app, IH, andb_true_r. by apply json_char_printable, Hx. }
    rewrite Hcs. destruct (Write_writes ([QUOT] ++ concat (json_char <$> cps) ++ [QUOT]) e c Hc Hroom)
      as (e' & He & Hc' & _). exists e', ([QUOT] ++ concat (json_char <$> cps) ++ [QUOT]).
    split_and!; [done|done|]. intros Hl.
    destruct (DecodeString_undone cps d rest ms Hs (in_quotes_text cps Hs) Hl) as (m & Hr & _).
    exists (with_in d m), (concat (undone <$> cps)). cbn [DecodeBody]. rewrite Hr. split; [done|].
    by apply undone_text_plain.
Qed.

End Theorems.

(** ** Examples *)

Definition sample : value :=
  VMap [(SInt (-5), VVector [VScalar (SString (bstr "a\b")); VScalar (SString [])]); (SInt 7, VVector [])].

Lemma json_value_sent_witness :
  exists e' d' sp, EncodeBody sample (mkEnc [] false) = Some e' /\
    out_ e' = bstr "{" ++ [QUOT] ++ bstr "-5" ++ [QUOT] ++ bstr ": [" ++ [QUOT] ++ bstr "a\\b" ++ [QUOT] ++ bstr ", "
      ++ [QUOT; QUOT] ++ bstr "], " ++ [QUOT] ++ bstr "7" ++ [QUOT] ++ bstr ": []}" /\
    DecodeBody (Map Int32 (Vector (Scalar String))) (mkDec (out_ e', []) false true) = Some (d', inl sample) /\
    in_ d' = (sp, []).
Proof.
  assert (Hv : of_type sendable (Map Int32 (Vector (Scalar String))) sample).
  { unfold sample. cbn [of_type]. split_and!; [by vm_compute| |].
    - unfold ordered. repeat constructor.
    - repeat apply Forall_cons_2; try apply Forall_nil_2; split; cbn [fst snd of_type];
        try (split; [by vm_compute|]); repeat apply Forall_cons_2; try apply Forall_nil_2;
        unfold sendable; cbn; try (split; [lia|lia]); try lia; by split. }
  set (x := bstr "{" ++ [QUOT] ++ bstr "-5" ++ [QUOT] ++ bstr ": [" ++ [QUOT] ++ bstr "a\\b" ++ [QUOT] ++ bstr ", "
      ++ [QUOT; QUOT] ++ bstr "], " ++ [QUOT] ++ bstr "7" ++ [QUOT] ++ bstr ": []}").
  destruct (json_value_sent (BS := queue_stream) (TS := queue_tokens) _ _ (mkEnc [] false) []
    (mkDec (x, []) false true) [] [] Hv eq_refl eq_refl I) as (e' & y & He & Hy & Hd).
  cbn in Hy. assert (Ex : out_ e' = x).
  { assert (E : out_ <$> EncodeBody sample (mkEnc (M := bytes) [] false) = Some x) by by vm_compute.
    rewrite He in E. by injection E. }
  assert (Ey : y = x) by (etransitivity; [symmetry; exact Hy|exact Ex]). clear Hy. subst y.
  destruct Hd as (d' & sp & Hr & Hl & _);
    [exact (f_equal (fun l => (l, [])) (eq_sym (app_nil_r x)))|done|].
  exists e', d', sp. split_and!; [exact He|exact Ex|by rewrite Ex|]. cbn in Hl. by rewrite app_nil_r in Hl.
Defined.

Lemma json_decoder_ends_witness :
  exists d' r c', DecodeBody (Vector (Scalar Int32)) (mkDec (bstr "[1 ,2", []) false true) = Some (d', r) /\
    in_ d' = (c', []) /\ (length c' <= 5)%nat /\ r = inr DECODE_RESULT_NOT_ENOUGH_DATA.
Proof.
  destruct (json_decoder_ends (TS := queue_tokens) (Vector (Scalar Int32))
    (mkDec (bstr "[1 ,2", []) false true) (bstr "[1 ,2") [] eq_refl) as (d' & r & c' & H1 & H2 & H3 & _).
  exists d', r, c'. split_and!; [exact H1|exact H2|exact H3|].
  assert (E : snd <$> DecodeBody (Vector (Scalar Int32)) (mkDec (M := bytes * list bytes) (bstr "[1 ,2", []) false true)
    = Some (inr DECODE_RESULT_NOT_ENOUGH_DATA)) by by vm_compute.
  rewrite H1 in E. by injection E.
Defined.

Lemma json_values_lost_witness :
  exists d', DecodeBody (Scalar Uint64)
    (mkDec (M := bytes * list bytes) (bstr "18446744073709551615 ", []) false true) =
    Some (d', inr DECODE_RESULT_ERROR).
Proof.
  destruct (json_values_lost (BS := queue_stream) (TS := queue_tokens) (mkEnc [] false) []
    (mkDec (bstr "18446744073709551615 ", []) false true) [] [] eq_refl eq_refl eq_refl) as (H & _ & _).
  destruct (H 18446744073709551615 ltac:(lia) I) as (e' & x & He & Hx & Hd). apply Hd.
  cbn in Hx. rewrite <- Hx, app_nil_r.
  assert (E : out_ <$> EncodeBody (VScalar (SInt 18446744073709551615)) (mkEnc (M := bytes) [] false) =
    Some (bstr "18446744073709551615 ")) by by vm_compute.
  rewrite He in E. by injection E as ->.
Defined.

(** Malformed arrays are read: a comma before the first element, and none between two after an
    empty one. *)
Theorem malformed_arrays_accepted :
  (exists d, DecodeBody (Vector (Scalar Int32)) (mkDec (M := bytes * list bytes) (bstr "[,1 ]", []) false true) =
     Some (d, inl (VVector [VScalar (SInt 1)]))) /\
  (exists d, DecodeBody (Vector (Vector (Scalar Int32)))
     (mkDec (M := bytes * list bytes) (bstr "[[] [1 ]]", []) false true) =
     Some (d, inl (VVector [VVector []; VVector [VScalar (SInt 1)]]))).
Proof. split; eexists; by vm_compute. Qed.

(** The input [", 14"] is a value for [DecodeRaw], against its description. *)
Theorem raw_value_comma :
  exists d, DecodeRaw (mkDec (M := bytes * list bytes) (bstr ", 14", []) false true) =
    Some (d, inl (bstr ", ")).
Proof. eexists. by vm_compute. Qed.

End JsonCodecProps.
