(* ===== verification/Cache.v ===== *)
(** * Cache: the cache with a life for its values ([base/cache.h])

    [util::Cache]: the items on a heap, where an address is never used twice, and the three
    containers that point to them.  What a call does while it has the mutex is a section; the
    calls are made of these.  The calls of the destructor of the values are recorded in
    [destroyed].  [Pop] is left out: it does not compile, since it assigns to a constant. *)

From S2P Require Import Prelude.

Module Cache.

Inductive Algorithm := LRU | MRU | RANDOM.

Section Cache.
Context {K V : Type} `{Countable K}.

Record Item := mkItem {
  key_ : K;
  value_ : V;
  item_destructor_ : bool;
  use_ : Z;
  expiration_ts_ : Z;
}.

(** [items_by_use_] is a [std::map], in the order of its keys, and [items_by_exp_] a
    [std::list]: the node that [items_by_exp_it_] of an item points to is the one with the
    item. *)
Record Cache := mkCache {
  items_ : gmap K nat;
  items_by_use_ : list (Z * nat);
  items_by_exp_ : list nat;
  next_use_ : Z;
  heap : gmap nat Item;
  next_item : nat;
  destroyed : list V;
}.

(** The arguments of the constructor; [destructor_] says whether there is one. *)
Variables (algorithm_ : Algorithm) (max_size_ default_expiration_ms_ : Z) (destructor_ : bool)
  (null_value_ : V).

Definition Cache_new : Cache := mkCache ∅ [] [] 0 ∅ 0 [].

(** ** Items *)

Definition destroy (destructor : bool) (v : V) (c : Cache) : Cache :=
  mkCache (items_ c) (items_by_use_ c) (items_by_exp_ c) (next_use_ c) (heap c) (next_item c)
    (if destructor then destroyed c ++ [v] else destroyed c).

(** [delete item] *)
Definition Item_delete (item : nat) (c : Cache) : option Cache :=
  it ← heap c !! item;
  Some (destroy (item_destructor_ it) (value_ it)
    (mkCache (items_ c) (items_by_use_ c) (items_by_exp_ c) (next_use_ c) (delete item (heap c))
       (next_item c) (destroyed c))).

Definition FindLocked (key : K) (c : Cache) : option nat := items_ c !! key.

(** [items_by_use_[use] = item] *)
Fixpoint use_set (use : Z) (item : nat) (m : list (Z * nat)) : list (Z * nat) :=
  match m with
  | [] => [(use, item)]
  | (use', item') :: m' =>
      if use <? use' then (use, item) :: m
      else if use =? use' then (use, item) :: m'
      else (use', item') :: use_set use item m'
  end.

Definition use_erase (use : Z) (m : list (Z * nat)) : list (Z * nat) := filter (fun x => x.1 <> use) m.

(** Erasing the node of an item, which has to be in the list. *)
Definition exp_erase (item : nat) (l : list nat) : option (list nat) :=
  if decide (item ∈ l) then Some (filter (fun x => x <> item) l) else None.

Definition DelItemLocked (item : nat) (c : Cache) : option Cache :=
  it ← heap c !! item;
  by_exp ← exp_erase item (items_by_exp_ c);
  Item_delete item
    (mkCache (delete (key_ it) (items_ c)) (use_erase (use_ it) (items_by_use_ c)) by_exp
       (next_use_ c) (heap c) (next_item c) (destroyed c)).

(** The first item of the hash map is [first] of its keys. *)
Definition DelByAlgorithmLocked (first : gset K -> K) (c : Cache) : option Cache :=
  match items_by_use_ c with
  | [] => Some c
  | x :: _ =>
      to_del ← match algorithm_ with
               | LRU => Some (x.2)
               | MRU => snd <$> list.last (items_by_use_ c)
               | RANDOM => items_ c !! first (dom (items_ c))
               end;
      DelItemLocked to_del c
  end.

(** ** What a call does with the mutex *)

(** The items at the head of the list that expire by [now]. *)
Fixpoint to_expire (now : Z) (by_exp : list nat) (c : Cache) : option (list nat) :=
  match by_exp with
  | [] => Some []
  | item :: by_exp =>
      it ← heap c !! item;
      if now <? expiration_ts_ it then Some [] else cons item <$> to_expire now by_exp c
  end.

Fixpoint del_all (to_del : list nat) (c : Cache) : option Cache :=
  match to_del with
  | [] => Some c
  | item :: to_del => c ← DelItemLocked item c; del_all to_del c
  end.

(** The index of the second loop is a [uint32]: it would not end for [2^32] items. *)
Definition ExpireSomeCache (now : Z) (c : Cache) : option Cache :=
  to_del ← to_expire now (items_by_exp_ c) c;
  if zlen to_del <? 2 ^ 32 then del_all to_del c else None.

Definition NextUse (c : Cache) : Z * Cache :=
  (next_use_ c, mkCache (items_ c) (items_by_use_ c) (items_by_exp_ c) (wrapU 64 (next_use_ c + 1))
                  (heap c) (next_item c) (destroyed c)).

Definition Del_key (key : K) (c : Cache) : option Cache :=
  match FindLocked key c with None => Some c | Some item => DelItemLocked item c end.

Definition Del (first : gset K -> K) (c : Cache) : option Cache := DelByAlgorithmLocked first c.

Definition items_size (c : Cache) : Z := Z.of_nat (size (items_ c)).

(** A new item in the three containers; [std::map::insert] does not replace. *)
Definition Add_item (key : K) (value : V) (expiration_ts : Z) (c : Cache) : Cache :=
  let '(use, c) := NextUse c in
  let item := next_item c in
  mkCache (match items_ c !! key with Some _ => items_ c | None => <[key := item]> (items_ c) end)
    (use_set use item (items_by_use_ c)) (items_by_exp_ c ++ [item]) (next_use_ c)
    (<[item := mkItem key value destructor_ use expiration_ts]> (heap c)) (S item) (destroyed c).

Definition Add_section (key : K) (value : V) (expiration_ms now : Z) (first : gset K -> K)
    (c : Cache) : option Cache :=
  let expiration_ms := if expiration_ms =? -1 then default_expiration_ms_ else expiration_ms in
  c ← match FindLocked key c with Some _ => Del_key key c | None => Some c end;
  if max_size_ <=? items_size c then
    c ← DelByAlgorithmLocked first c;
    if max_size_ <=? items_size c then Some (destroy destructor_ value c)
    else Some (Add_item key value (int64 (now + expiration_ms)) c)
  else Some (Add_item key value (int64 (now + expiration_ms)) c).

Definition Has (key : K) (c : Cache) : bool := bool_decide (is_Some (FindLocked key c)).

Definition Get_section (key : K) (c : Cache) : option (Cache * V) :=
  match FindLocked key c with
  | None => Some (c, null_value_)
  | Some item =>
      it ← heap c !! item;
      let by_use := use_erase (use_ it) (items_by_use_ c) in
      let '(use, c) := NextUse c in
      let it := mkItem (key_ it) (value_ it) (item_destructor_ it) use (expiration_ts_ it) in
      Some (mkCache (items_ c) (use_set use item by_use) (items_by_exp_ c) (next_use_ c)
              (<[item := it]> (heap c)) (next_item c) (destroyed c), value_ it)
  end.

(** [out], a [std::map], keeps the values it has. *)
Definition GetAll_section (out : gmap K V) (c : Cache) : option (gmap K V) :=
  if decide (map_Forall (fun _ item => is_Some (heap c !! item)) (items_ c)) then
    Some (out ∪ omap (fun item => value_ <$> heap c !! item) (items_ c))
  else None.

(** The items are deleted in the order of the hash map. *)
Fixpoint delete_all (items : list nat) (c : Cache) : option Cache :=
  match items with
  | [] => Some c
  | item :: items => c ← Item_delete item c; delete_all items c
  end.

Definition Clear (c : Cache) : option Cache :=
  c ← delete_all (snd <$> map_to_list (items_ c)) c;
  Some (mkCache ∅ [] (items_by_exp_ c) (next_use_ c) (heap c) (next_item c) (destroyed c)).

(** ** The calls

    [now] and [now'] are what [timer::TicksMsec] gives, to [ExpireSomeCache] and later. *)

Definition Add (key : K) (value : V) (expiration_ms now now' : Z) (first : gset K -> K) (c : Cache)
    : option Cache :=
  c ← ExpireSomeCache now c; Add_section key value expiration_ms now' first c.

Definition Get (key : K) (now : Z) (c : Cache) : option (Cache * V) :=
  c ← ExpireSomeCache now c; Get_section key c.

Definition GetAll (out : gmap K V) (now : Z) (c : Cache) : option (Cache * gmap K V) :=
  c ← ExpireSomeCache now c; out ← GetAll_section out c; Some (c, out).

(** ** Threads

    Whatever threads use a cache, what it goes through is a sequence of sections. *)
Inductive Section_ :=
  | InExpireSomeCache (now : Z)
  | InAdd (key : K) (value : V) (expiration_ms now : Z) (first : gset K -> K)
  | InGet (key : K)
  | InGetAll (out : gmap K V)
  | InHas (key : K)
  | InSize
  | InDel_key (key : K)
  | InDel (first : gset K -> K).

Inductive Answer := Done | Value (v : V) | Values (m : gmap K V) | Bool (b : bool) | Size (n : Z).

Definition run_section (x : Section_) (c : Cache) : option (Cache * Answer) :=
  match x with
  | InExpireSomeCache now => c ← ExpireSomeCache now c; Some (c, Done)
  | InAdd key value ms now first => c ← Add_section key value ms now first c; Some (c, Done)
  | InGet key => '(c, v) ← Get_section key c; Some (c, Value v)
  | InGetAll out => m ← GetAll_section out c; Some (c, Values m)
  | InHas key => Some (c, Bool (Has key c))
  | InSize => Some (c, Size (items_size c))
  | InDel_key key => c ← Del_key key c; Some (c, Done)
  | InDel first => c ← Del first c; Some (c, Done)
  end.

Fixpoint run_sections (xs : list Section_) (c : Cache) : option (Cache * list Answer) :=
  match xs with
  | [] => Some (c, [])
  | x :: xs => '(c, a) ← run_section x c; '(c, l) ← run_sections xs c; Some (c, a :: l)
  end.

End Cache.

#[global] Arguments Item : clear implicits.
#[global] Arguments Cache K V {_ _}.
#[global] Arguments Section_ K V {_ _}.
#[global] Arguments Answer K V {_ _}.

End Cache.
