(* ===== verification/CacheProps.v ===== *)
(** * CacheProps: what a cache with a life for its values does

    [Contents] is what a cache is for its users: the entries in the order they were added and
    the keys in the order they were used.  Every section of the code does to it what
    [spec_section] says. *)

From Stdlib Require Import Sorting.Sorted.
From S2P Require Import Prelude.
From S2P Require Import Cache.

Module CacheProps.
Import Cache.

(** ** Lists *)

Lemma omap_filter {A B} (P : A -> Prop) `{!forall x, Decision (P x)} (Q : B -> Prop)
    `{!forall x, Decision (Q x)} (f g : A -> option B) (l : list A) :
  (forall x, x ∈ l -> exists b, g x = Some b /\ (P x -> f x = Some b) /\ (P x <-> Q b)) ->
  omap f (filter P l) = filter Q (omap g l).
Proof.
  induction l as [|x l IH]; intros Hl; [done|].
  destruct (Hl x) as (b & Hg & Hf & HPQ); [by left|].
  rewrite filter_cons. cbn [omap list_omap]. rewrite Hg, filter_cons.
  assert (IH' : omap f (filter P l) = filter Q (omap g l)) by (apply IH; intros y Hy; apply Hl; by right).
  destruct (decide (P x)) as [Hx|Hx].
  - rewrite decide_True by by apply HPQ. cbn [omap list_omap]. by rewrite Hf, IH'.
  - by rewrite decide_False by by rewrite <- HPQ.
Qed.

Lemma omap_ext_in {A B} (f g : A -> option B) (l : list A) :
  (forall x, x ∈ l -> f x = g x) -> omap f l = omap g l.
Proof.
  induction l as [|x l IH]; intros Hl; [done|]. cbn [omap list_omap].
  rewrite (Hl x) by by left. rewrite IH; [done|]. intros y Hy. apply Hl. by right.
Qed.

Lemma length_filter_ne {A} `{EqDecision A} (x : A) (l : list A) :
  NoDup l -> x ∈ l -> length l = S (length (filter (fun y => y <> x) l)).
Proof.
  intros Hl Hx. apply (Permutation_length (l' := x :: filter (fun y => y <> x) l)).
  apply NoDup_Permutation; [done| |].
  - constructor; [|by apply list.NoDup_filter]. rewrite list_elem_of_filter. by intros [].
  - intros y. rewrite elem_of_cons, list_elem_of_filter. destruct (decide (y = x)) as [->|]; tauto.
Qed.

Section Props.
Context {K V : Type} `{Countable K}.

(** ** The contents *)

Record Entry := mkEntry { e_key : K; e_value : V; e_expires : Z }.

Record Contents := mkContents { entries : list Entry; used : list K; gone : list V }.

Definition find_entry (key : K) (l : list Entry) : option Entry := head (filter (fun e => e_key e = key) l).

Variables (algorithm_ : Algorithm) (max_size_ default_expiration_ms_ : Z) (destructor_ : bool)
  (null_value_ : V).

Definition spec_gone (v : V) (s : Contents) : list V := if destructor_ then gone s ++ [v] else gone s.

Definition spec_del (key : K) (s : Contents) : Contents :=
  match find_entry key (entries s) with
  | None => s
  | Some e => mkContents (filter (fun e => e_key e <> key) (entries s))
                (filter (fun k => k <> key) (used s)) (spec_gone (e_value e) s)
  end.

Definition spec_evict (first : gset K -> K) (s : Contents) : Contents :=
  match used s with
  | [] => s
  | k :: _ =>
      spec_del (match algorithm_ with
                | LRU => k
                | MRU => default k (list.last (used s))
                | RANDOM => first (list_to_set (used s))
                end) s
  end.

(** The entries before the first one that does not expire yet. *)
Fixpoint spec_expire (now : Z) (l : list Entry) (s : Contents) : Contents :=
  match l with
  | [] => s
  | e :: l => if now <? e_expires e then s else spec_expire now l (spec_del (e_key e) s)
  end.

Definition spec_add (key : K) (value : V) (ms now : Z) (first : gset K -> K) (s : Contents) : Contents :=
  let ms := if ms =? -1 then default_expiration_ms_ else ms in
  let s := spec_del key s in
  let s := if max_size_ <=? zlen (entries s) then spec_evict first s else s in
  if max_size_ <=? zlen (entries s) then mkContents (entries s) (used s) (spec_gone value s)
  else mkContents (entries s ++ [mkEntry key value (int64 (now + ms))]) (used s ++ [key]) (gone s).

Definition spec_get (key : K) (s : Contents) : Contents * V :=
  match find_entry key (entries s) with
  | None => (s, null_value_)
  | Some e => (mkContents (entries s) (filter (fun k => k <> key) (used s) ++ [key]) (gone s), e_value e)
  end.

Definition spec_section (x : Section_ K V) (s : Contents) : Contents * Answer K V :=
  match x with
  | InExpireSomeCache now => (spec_expire now (entries s) s, Done)
  | InAdd key value ms now first => (spec_add key value ms now first s, Done)
  | InGet key => let '(s, v) := spec_get key s in (s, Value v)
  | InGetAll out => (s, Values (out ∪ list_to_map ((fun e => (e_key e, e_value e)) <$> entries s)))
  | InHas key => (s, Bool (bool_decide (is_Some (find_entry key (entries s)))))
  | InSize => (s, Size (zlen (entries s)))
  | InDel_key key => (spec_del key s, Done)
  | InDel first => (spec_evict first s, Done)
  end.

Fixpoint spec_sections (xs : list (Section_ K V)) (s : Contents) : Contents * list (Answer K V) :=
  match xs with
  | [] => (s, [])
  | x :: xs =>
      let '(s, a) := spec_section x s in
      let '(s, l) := spec_sections xs s in (s, a :: l)
  end.

(** ** The contents of a cache *)

Definition entry_of (it : Item K V) : Entry := mkEntry (key_ it) (value_ it) (expiration_ts_ it).

Definition contents (c : Cache K V) : Contents :=
  mkContents (omap (fun p => entry_of <$> heap c !! p) (items_by_exp_ c))
    (omap (fun x => key_ <$> heap c !! x.2) (items_by_use_ c)) (destroyed c).

Record WF (c : Cache K V) : Prop := {
  wf_exp : forall p, p ∈ items_by_exp_ c <-> is_Some (heap c !! p);
  wf_nodup : NoDup (items_by_exp_ c);
  wf_items : forall k p, items_ c !! k = Some p <-> exists it, heap c !! p = Some it /\ key_ it = k;
  wf_use : forall u p, (u, p) ∈ items_by_use_ c <-> exists it, heap c !! p = Some it /\ use_ it = u;
  wf_uses : forall p q a b, heap c !! p = Some a -> heap c !! q = Some b -> use_ a = use_ b -> p = q;
  wf_next_use : forall p it, heap c !! p = Some it -> 0 <= use_ it < next_use_ c;
  wf_next : forall p it, heap c !! p = Some it -> (p < next_item c)%nat;
  wf_size : size (items_ c) = length (items_by_exp_ c);
  wf_destructor : forall p it, heap c !! p = Some it -> item_destructor_ it = destructor_;
}.

Lemma WF_new : WF Cache_new.
Proof.
  split; cbn; intros *; rewrite ?lookup_empty; try done.
  - split; [by intros ?%not_elem_of_nil|by intros []].
  - constructor.
  - split; [done|]. by intros (? & ? & _).
  - split; [by intros ?%not_elem_of_nil|]. by intros (? & ? & _).
Qed.

Lemma keys_differ c p q a b :
  WF c -> heap c !! p = Some a -> heap c !! q = Some b -> key_ a = key_ b -> p = q.
Proof.
  intros W Ha Hb Hk. assert (E1 : items_ c !! key_ a = Some p) by (apply (wf_items _ W); eauto).
  assert (E2 : items_ c !! key_ a = Some q) by (apply (wf_items _ W); eauto). congruence.
Qed.

Lemma elem_of_entries c e : WF c ->
  e ∈ entries (contents c) <-> exists p it, heap c !! p = Some it /\ e = entry_of it.
Proof.
  intros W. cbn [entries contents]. rewrite list_elem_of_omap. split.
  - intros (p & _ & Hp). apply fmap_Some in Hp as (it & Hit & ->). eauto.
  - intros (p & it & Hp & ->). exists p. rewrite Hp. split; [|done]. apply (wf_exp _ W). by eexists.
Qed.

Lemma find_entry_Some (l : list Entry) e :
  e ∈ l -> (forall e', e' ∈ l -> e_key e' = e_key e -> e' = e) -> find_entry (e_key e) l = Some e.
Proof.
  intros He Hu. unfold find_entry. destruct (filter _ l) as [|e' l'] eqn:E.
  - exfalso. assert (Hin : e ∈ filter (fun e' => e_key e' = e_key e) l) by by apply list_elem_of_filter.
    rewrite E in Hin. by apply not_elem_of_nil in Hin.
  - assert (Hin : e' ∈ filter (fun e' => e_key e' = e_key e) l) by (rewrite E; left).
    apply list_elem_of_filter in Hin as [Hk Hin]. cbn. f_equal. by apply Hu.
Qed.

Lemma find_entry_None key (l : list Entry) :
  (forall e, e ∈ l -> e_key e <> key) -> find_entry key l = None.
Proof.
  intros Hl. unfold find_entry. destruct (filter _ l) as [|e l'] eqn:E; [done|].
  assert (Hin : e ∈ filter (fun e => e_key e = key) l) by (rewrite E; left).
  apply list_elem_of_filter in Hin as [Hk Hin]. by apply Hl in Hin.
Qed.

(** Looking a key up in the contents is looking it up in the map. *)
Lemma find_entry_at c key :
  WF c -> find_entry key (entries (contents c)) =
    match items_ c !! key with Some p => entry_of <$> heap c !! p | None => None end.
Proof.
  intros W. destruct (items_ c !! key) as [p|] eqn:E.
  - apply (wf_items _ W) in E as (it & Hp & <-). rewrite Hp.
    apply (find_entry_Some _ (entry_of it)); [apply elem_of_entries; eauto|].
    intros e' (q & b & Hq & ->)%elem_of_entries Hk; [|done].
    rewrite (keys_differ c p q it b W Hp Hq) in Hp by done. congruence.
  - apply find_entry_None. intros e (q & b & Hq & ->)%elem_of_entries Hk; [|done].
    assert (E' : items_ c !! key = Some q) by (apply (wf_items _ W); eauto). congruence.
Qed.

Lemma zlen_entries c : WF c -> zlen (entries (contents c)) = items_size c.
Proof.
  intros W. unfold items_size, zlen. rewrite (wf_size _ W). f_equal. cbn [entries contents].
  assert (Hl : forall p, p ∈ items_by_exp_ c -> is_Some (heap c !! p)) by (intros p; apply (wf_exp _ W)).
  induction (items_by_exp_ c) as [|p l IH]; [done|]. cbn [omap list_omap].
  destruct (Hl p) as [it ->]; [by left|]. cbn. f_equal. apply IH. intros q Hq. apply Hl. by right.
Qed.

(** ** Removing an item *)

Lemma DelItemLocked_spec c p it :
  WF c -> heap c !! p = Some it ->
  exists c', DelItemLocked p c = Some c' /\ WF c' /\ contents c' = spec_del (key_ it) (contents c) /\
    next_use_ c' = next_use_ c /\ heap c' = delete p (heap c).
Proof.
  intros W Hp. unfold DelItemLocked. rewrite Hp. cbn [mbind option_bind].
  unfold exp_erase. rewrite decide_True by (apply (wf_exp _ W); by eexists). cbn [mbind option_bind].
  unfold Item_delete. cbn [heap]. rewrite Hp. cbn [mbind option_bind].
  eexists. split; [done|]. split_and!.
  - split; cbn.
    + intros q. rewrite list_elem_of_filter, (wf_exp _ W). destruct (decide (q = p)) as [->|Hq].
      * rewrite lookup_delete_eq. split; [by intros []|by intros []].
      * rewrite lookup_delete_ne by done. tauto.
    + apply list.NoDup_filter, W.
    + intros k q. destruct (decide (q = p)) as [->|Hq].
      * rewrite lookup_delete_eq. split; [|by intros (? & ? & _)].
        rewrite lookup_delete_Some. intros [Hk (it' & Hit & E)%(wf_items _ W)]. congruence.
      * rewrite (lookup_delete_ne (heap c)) by done. rewrite lookup_delete_Some, (wf_items _ W).
        split; [by intros [_ ?]|]. intros (it' & Hit & <-). split; [|by eexists].
        intros E. by apply Hq, (keys_differ c q p it' it W).
    + intros u q. unfold use_erase. rewrite list_elem_of_filter, (wf_use _ W). cbn [fst].
      destruct (decide (q = p)) as [->|Hq].
      * rewrite lookup_delete_eq. split; [|by intros (? & ? & _)]. intros (Hu & it' & Hit & <-). congruence.
      * rewrite lookup_delete_ne by done. split; [by intros [_ ?]|]. intros (it' & Hit & <-).
        split; [|by eexists]. intros E. by apply Hq, (wf_uses _ W q p it' it).
    + intros q r a b (_ & Ha)%lookup_delete_Some (_ & Hb)%lookup_delete_Some. by apply (wf_uses _ W).
    + intros q a (_ & Ha)%lookup_delete_Some. by apply (wf_next_use _ W q).
    + intros q a (_ & Ha)%lookup_delete_Some. by apply (wf_next _ W q a).
    + rewrite map_size_delete_Some by (exists p; apply (wf_items _ W); eauto). rewrite (wf_size _ W).
      rewrite (length_filter_ne p (items_by_exp_ c)); [lia|apply W|]. apply (wf_exp _ W). by eexists.
    + intros q a (_ & Ha)%lookup_delete_Some. by apply (wf_destructor _ W q a).
  - unfold spec_del. rewrite (find_entry_at c _ W).
    replace (items_ c !! key_ it) with (Some p) by (symmetry; apply (wf_items _ W); eauto).
    rewrite Hp. unfold contents at 1. cbn [items_by_exp_ items_by_use_ destroyed heap destroy fmap option_fmap option_map].
    unfold spec_gone. rewrite (wf_destructor _ W p it Hp). f_equal.
    + apply omap_filter. intros q (a & Ha)%(wf_exp _ W). exists (entry_of a). rewrite Ha. split_and!; [done| |].
      * intros Hq. by rewrite lookup_delete_ne, Ha.
      * cbn [entry_of e_key]. split; intros Hn E; apply Hn; [by apply (keys_differ c q p a it)|]. subst q. congruence.
    + apply omap_filter. intros [u q] (a & Ha & Hu)%(wf_use _ W). cbn [fst snd]. exists (key_ a). rewrite Ha.
      split_and!; [done| |].
      * intros Hq. rewrite lookup_delete_ne, Ha; [done|]. intros <-. congruence.
      * split; intros Hn E; apply Hn.
        -- rewrite (keys_differ c q p a it W Ha Hp E) in Ha. congruence.
        -- subst u. rewrite (wf_uses _ W q p a it Ha Hp E) in Ha. congruence.
  - done.
  - done.
Qed.

Lemma spec_del_absent c key : WF c -> items_ c !! key = None -> spec_del key (contents c) = contents c.
Proof. intros W E. unfold spec_del. by rewrite (find_entry_at c key W), E. Qed.

Lemma Del_key_spec c key :
  WF c -> exists c', Del_key key c = Some c' /\ WF c' /\ contents c' = spec_del key (contents c) /\
    next_use_ c' = next_use_ c /\ items_ c' !! key = None.
Proof.
  intros W. unfold Del_key, FindLocked. destruct (items_ c !! key) as [p|] eqn:E.
  - apply (wf_items _ W) in E as (it & Hp & <-).
    destruct (DelItemLocked_spec c p it W Hp) as (c' & Hc & W' & Hs & Hn & Hh).
    exists c'. split_and!; [done..|]. destruct (items_ c' !! key_ it) as [q|] eqn:E; [|done].
    apply (wf_items _ W') in E as (b & Hb & Hk). rewrite Hh in Hb. apply lookup_delete_Some in Hb as [Hq Hb].
    exfalso. by apply Hq, (keys_differ c p q it b).
  - exists c. split_and!; [done..|by rewrite spec_del_absent|done|done].
Qed.

(** ** The item that makes room *)

Definition good_first (first : gset K -> K) : Prop := forall X, X <> ∅ -> first X ∈ X.

Lemma used_at c u p it : WF c -> (u, p) ∈ items_by_use_ c -> heap c !! p = Some it ->
  key_ it ∈ used (contents c).
Proof.
  intros W Hu Hp. cbn [used contents]. apply list_elem_of_omap. exists (u, p). cbn [snd]. by rewrite Hp.
Qed.

Lemma last_used c x : WF c -> list.last (items_by_use_ c) = Some x ->
  exists it, heap c !! x.2 = Some it /\ list.last (used (contents c)) = Some (key_ it).
Proof.
  intros W Hx. assert (Hin : x ∈ items_by_use_ c) by by apply list.last_Some_elem_of.
  apply list.last_Some in Hx as [l Hl]. destruct x as [u p].
  apply (wf_use _ W) in Hin as (it & Hp & _). exists it. split; [done|].
  cbn [used contents]. rewrite Hl. cbn [snd]. rewrite omap_app. cbn. rewrite Hp. cbn. apply list.last_snoc.
Qed.

Lemma dom_items c : WF c -> dom (items_ c) = list_to_set (used (contents c)).
Proof.
  intros W. apply set_eq. intros k. rewrite elem_of_dom, elem_of_list_to_set. split.
  - intros (p & (it & Hp & <-)%(wf_items _ W)).
    apply (used_at c (use_ it) p); [done|apply (wf_use _ W); eauto|done].
  - intros ([u p] & _ & (it & Hp & ->)%fmap_Some)%list_elem_of_omap. exists p. apply (wf_items _ W). eauto.
Qed.

Lemma DelByAlgorithmLocked_spec c first :
  WF c -> good_first first ->
  exists c', DelByAlgorithmLocked algorithm_ first c = Some c' /\ WF c' /\
    contents c' = spec_evict first (contents c) /\ next_use_ c' = next_use_ c.
Proof.
  intros W Hf. unfold DelByAlgorithmLocked, spec_evict.
  destruct (items_by_use_ c) as [|[u p] l] eqn:E.
  - exists c. cbn [contents used]. rewrite E. done.
  - assert (Hin : (u, p) ∈ items_by_use_ c) by (rewrite E; left).
    apply (wf_use _ W) in Hin as (it & Hp & _).
    assert (Hu : exists t, used (contents c) = key_ it :: t).
    { cbn [used contents]. rewrite E. cbn. rewrite Hp. cbn. by eexists. }
    destruct Hu as [t Hu]. rewrite Hu.
    assert (Hdel : forall q b, heap c !! q = Some b -> exists c', DelItemLocked q c = Some c' /\ WF c' /\
      contents c' = spec_del (key_ b) (contents c) /\ next_use_ c' = next_use_ c).
    { intros q b Hq. destruct (DelItemLocked_spec c q b W Hq) as (c' & H1 & H2 & H3 & H4 & _). by exists c'. }
    destruct algorithm_; cbn [mbind option_bind snd].
    + by apply Hdel.
    + destruct (list.last_is_Some (items_by_use_ c)) as [_ [x Hx]]; [by rewrite E|].
      rewrite <- E, Hx. cbn [fmap option_fmap option_map mbind option_bind].
      destruct (last_used c x W Hx) as (b & Hb & Hl). rewrite Hu in Hl. rewrite Hl. by apply Hdel.
    + assert (Hd : first (dom (items_ c)) ∈ dom (items_ c)).
      { apply Hf. rewrite (dom_items c W), Hu. cbn. set_solver. }
      apply elem_of_dom in Hd as [q Hq]. rewrite Hq. cbn [mbind option_bind].
      pose proof Hq as (b & Hb & Hk)%(wf_items _ W). rewrite <- Hu, <- (dom_items c W), <- Hk. by apply Hdel.
Qed.

(** ** The items that have expired *)

Lemma expire_all now ps c0 c :
  WF c -> NoDup ps -> (forall p, p ∈ ps -> exists it, heap c0 !! p = Some it /\ heap c !! p = Some it) ->
  exists td c', to_expire now ps c0 = Some td /\ (length td <= length ps)%nat /\
    del_all td c = Some c' /\ WF c' /\ next_use_ c' = next_use_ c /\
    contents c' = spec_expire now (omap (fun p => entry_of <$> heap c0 !! p) ps) (contents c).
Proof.
  intros W Hnd. revert c W. induction Hnd as [|p ps Hp Hnd IH]; intros c W Hl; [by exists [], c|].
  destruct (Hl p) as (it & H0 & Hc); [by left|]. cbn [to_expire omap list_omap]. rewrite H0.
  cbn [mbind option_bind fmap option_fmap option_map spec_expire entry_of e_expires e_key].
  destruct (now <? expiration_ts_ it); [exists [], c; split_and!; (done || cbn; lia)|].
  destruct (DelItemLocked_spec c p it W Hc) as (c1 & Hc1 & W1 & Hs1 & Hn1 & Hh1).
  destruct (IH c1 W1) as (td & c' & Ht & Hle & Hd & W' & Hn & Hs).
  { intros q Hq. destruct (Hl q) as (b & Hb0 & Hb); [by right|]. exists b. split; [done|].
    rewrite Hh1, lookup_delete_ne; [done|]. by intros ->. }
  exists (p :: td), c'. rewrite Ht. cbn [fmap option_fmap option_map del_all]. rewrite Hc1.
  cbn [mbind option_bind length]. split_and!; [done|lia|done|done|congruence|]. by rewrite Hs, Hs1.
Qed.

Lemma ExpireSomeCache_spec now c :
  WF c -> zlen (entries (contents c)) < 2 ^ 32 ->
  exists c', ExpireSomeCache now c = Some c' /\ WF c' /\ next_use_ c' = next_use_ c /\
    contents c' = spec_expire now (entries (contents c)) (contents c).
Proof.
  intros W Hz. destruct (expire_all now (items_by_exp_ c) c c W (wf_nodup _ W)) as (td & c' & Ht & Hle & Hd & W' & Hn & Hs).
  { intros p (it & Hp)%(wf_exp _ W). by exists it. }
  exists c'. unfold ExpireSomeCache. rewrite Ht. cbn [mbind option_bind].
  rewrite (zlen_entries c W) in Hz. unfold items_size in Hz. rewrite (wf_size _ W) in Hz.
  replace (zlen td <? 2 ^ 32) with true by (unfold zlen; lia). done.
Qed.

(** ** Adding and getting *)

Lemma use_set_last use p m : Forall (fun x => x.1 < use) m -> use_set use p m = m ++ [(use, p)].
Proof.
  induction 1 as [|[u q] m Hu _ IH]; [done|]. cbn [use_set fst] in *.
  replace (use <? u) with false by lia. replace (use =? u) with false by lia. by rewrite IH.
Qed.

Lemma uses_below c (P : Z * nat -> Prop) `{!forall x, Decision (P x)} :
  WF c -> Forall (fun x => x.1 < next_use_ c) (filter P (items_by_use_ c)).
Proof.
  intros W. apply List.Forall_forall. intros [u p] Hin%list_elem_of_In.
  apply list_elem_of_filter in Hin as [_ Hin]. apply (wf_use _ W) in Hin as (it & Hp & <-).
  by apply (wf_next_use _ W p).
Qed.

Lemma filter_true {A} (l : list A) : filter (fun _ => True) l = l.
Proof. induction l as [|x l IH]; [done|]. rewrite filter_cons, decide_True by done. by rewrite IH. Qed.

Lemma fresh_item c : WF c -> heap c !! next_item c = None.
Proof. intros W. destruct (heap c !! next_item c) as [it|] eqn:E; [|done]. pose proof (wf_next _ W _ _ E). lia. Qed.

Lemma Add_item_spec c key value ts :
  WF c -> items_ c !! key = None -> 0 <= next_use_ c -> next_use_ c + 1 < 2 ^ 64 ->
  let c' := Add_item destructor_ key value ts c in
  WF c' /\ next_use_ c' = next_use_ c + 1 /\
  contents c' = mkContents (entries (contents c) ++ [mkEntry key value ts]) (used (contents c) ++ [key])
                  (gone (contents c)).
Proof.
  intros W Hk H0 Hn. pose proof (fresh_item c W) as Hf.
  assert (Hne : forall p it, heap c !! p = Some it -> next_item c <> p) by congruence.
  unfold Add_item, NextUse. cbn [items_ items_by_use_ items_by_exp_ next_use_ heap next_item destroyed].
  rewrite Hk, wrapU_small by lia. pose proof (uses_below c (fun _ => True) W) as Hu. rewrite filter_true in Hu.
  rewrite use_set_last by done. split_and!; [|done|].
  - split; cbn.
    + intros p. rewrite elem_of_app, list_elem_of_singleton, (wf_exp _ W), lookup_insert_is_Some'. split; intros [?|?]; auto.
    + apply list.NoDup_app. split_and!; [apply W| |apply NoDup_singleton].
      intros p (it & Hp)%(wf_exp _ W) E%list_elem_of_singleton. congruence.
    + intros k p. rewrite lookup_insert_Some. split.
      * intros [[<- <-]|[Hkk (it & Hp & <-)%(wf_items _ W)]].
        -- eexists. by rewrite lookup_insert_eq.
        -- exists it. rewrite lookup_insert_ne by by apply (Hne p it). done.
      * intros (it & [[<- <-]|[Hp Hit]]%lookup_insert_Some & <-); [by left|]. right.
        assert (E : items_ c !! key_ it = Some p) by (apply (wf_items _ W); eauto).
        split; [congruence|done].
    + intros u p. rewrite elem_of_app, list_elem_of_singleton, (wf_use _ W). split.
      * intros [(it & Hp & <-)|[= -> ->]].
        -- exists it. rewrite lookup_insert_ne by by apply (Hne p it). done.
        -- eexists. by rewrite lookup_insert_eq.
      * intros (it & [[<- <-]|[Hp Hit]]%lookup_insert_Some & <-); [by right|]. left. eauto.
    + intros p q a b [[<- <-]|[Hp Ha]]%lookup_insert_Some [[<- <-]|[Hq Hb]]%lookup_insert_Some; cbn; [done| | |].
      * intros E. pose proof (wf_next_use _ W q b Hb). lia.
      * intros E. pose proof (wf_next_use _ W p a Ha). lia.
      * by apply (wf_uses _ W).
    + intros p it [[<- <-]|[Hp Hit]]%lookup_insert_Some; cbn; [lia|]. pose proof (wf_next_use _ W p it Hit). lia.
    + intros p it [[<- <-]|[Hp Hit]]%lookup_insert_Some; [lia|]. pose proof (wf_next _ W p it Hit). lia.
    + rewrite map_size_insert_None, length_app by done. rewrite (wf_size _ W). cbn. lia.
    + intros p it [[<- <-]|[Hp Hit]]%lookup_insert_Some; [done|]. by apply (wf_destructor _ W p).
  - unfold contents. cbn [items_by_exp_ items_by_use_ destroyed heap entries used gone].
    rewrite !omap_app. cbn. rewrite !lookup_insert_eq. cbn. f_equal; f_equal; apply omap_ext_in.
    + intros p (it & Hp)%(wf_exp _ W). by rewrite lookup_insert_ne by by apply (Hne p it).
    + intros [u p] (it & Hp & _)%(wf_use _ W). cbn [snd]. by rewrite lookup_insert_ne by by apply (Hne p it).
Qed.

Lemma Get_section_spec c key :
  WF c -> 0 <= next_use_ c -> next_use_ c + 1 < 2 ^ 64 ->
  exists c', Get_section null_value_ key c = Some (c', (spec_get key (contents c)).2) /\ WF c' /\
    contents c' = (spec_get key (contents c)).1 /\ next_use_ c <= next_use_ c' <= next_use_ c + 1.
Proof.
  intros W H0 Hn. unfold Get_section, spec_get, FindLocked. rewrite (find_entry_at c key W).
  destruct (items_ c !! key) as [p|] eqn:E; [|exists c; cbn; split_and!; (done || lia)].
  pose proof E as (it & Hp & <-)%(wf_items _ W). rewrite Hp.
  unfold NextUse. cbn [mbind option_bind fmap option_fmap option_map items_ items_by_use_ items_by_exp_ next_use_ heap next_item destroyed].
  rewrite wrapU_small by lia. unfold use_erase. rewrite use_set_last by by apply uses_below.
  eexists. split; [done|]. cbn [fst]. split_and!; [| |cbn; lia..].
  - split; cbn.
    + intros q. rewrite (wf_exp _ W), lookup_insert_is_Some'. split; [by right|]. by intros [<-|?].
    + apply W.
    + intros k q. rewrite (wf_items _ W). destruct (decide (p = q)) as [<-|Hq].
      * rewrite lookup_insert_eq, Hp. split; intros (b & [= <-] & <-); by eexists.
      * by rewrite lookup_insert_ne.
    + intros u q. rewrite elem_of_app, list_elem_of_singleton, list_elem_of_filter, (wf_use _ W). cbn [fst].
      destruct (decide (p = q)) as [<-|Hq].
      * rewrite lookup_insert_eq. split.
        -- intros [(Hu & b & Hb & <-)|[= ->]]; [congruence|by eexists].
        -- intros (b & [= <-] & <-). by right.
      * rewrite lookup_insert_ne by done. split.
        -- by intros [(Hu & b & Hb & <-)|[= -> ->]]; [eexists|].
        -- intros (b & Hb & <-). left. split; [|by eexists]. intros Hu. by apply Hq, (wf_uses _ W p q it b).
    + intros q r a b [[<- <-]|[Hq Ha]]%lookup_insert_Some [[<- <-]|[Hr Hb]]%lookup_insert_Some; cbn; [done| | |].
      * intros Eu. pose proof (wf_next_use _ W r b Hb). lia.
      * intros Eu. pose proof (wf_next_use _ W q a Ha). lia.
      * by apply (wf_uses _ W).
    + intros q a [[<- <-]|[Hq Ha]]%lookup_insert_Some; cbn; [lia|]. pose proof (wf_next_use _ W q a Ha). lia.
    + intros q a [[<- <-]|[Hq Ha]]%lookup_insert_Some; [by apply (wf_next _ W p it)|by apply (wf_next _ W q a)].
    + apply W.
    + intros q a [[<- <-]|[Hq Ha]]%lookup_insert_Some; [by apply (wf_destructor _ W p it)|by apply (wf_destructor _ W q a)].
  - unfold contents. cbn [items_by_exp_ items_by_use_ destroyed heap entries used gone].
    rewrite !omap_app. cbn. rewrite !lookup_insert_eq. cbn. f_equal; [|f_equal].
    + apply omap_ext_in. intros q _. destruct (decide (p = q)) as [<-|Hq]; [by rewrite lookup_insert_eq, Hp|].
      by rewrite lookup_insert_ne.
    + apply omap_filter. intros [u q] (a & Ha & Hu)%(wf_use _ W). cbn [fst snd]. exists (key_ a). rewrite Ha.
      split_and!; [done| |].
      * intros Hq. rewrite lookup_insert_ne, Ha; [done|]. intros <-. congruence.
      * split; intros Hx Ex; apply Hx.
        -- rewrite (keys_differ c q p a it W Ha Hp Ex) in Ha. congruence.
        -- subst u. rewrite (wf_uses _ W q p a it Ha Hp Ex) in Ha. congruence.
Qed.

Lemma Add_section_spec c key value ms now first :
  WF c -> good_first first -> 0 <= next_use_ c -> next_use_ c + 1 < 2 ^ 64 ->
  exists c', Add_section algorithm_ max_size_ default_expiration_ms_ destructor_ key value ms now first c = Some c' /\
    WF c' /\ contents c' = spec_add key value ms now first (contents c) /\
    next_use_ c <= next_use_ c' <= next_use_ c + 1.
Proof.
  intros W Hf H0 Hn. unfold Add_section, spec_add.
  destruct (Del_key_spec c key W) as (c1 & Hc1 & W1 & Hs1 & Hn1 & Hk1).
  assert (E : match FindLocked key c with Some _ => Del_key key c | None => Some c end = Some c1).
  { unfold Del_key in *. by destruct (FindLocked key c). }
  rewrite E. cbn [mbind option_bind]. rewrite <- Hs1, (zlen_entries c1 W1).
  set (ts := int64 _).
  assert (Hadd : forall c2, WF c2 -> items_ c2 !! key = None -> next_use_ c2 = next_use_ c ->
    exists c', Some (Add_item destructor_ key value ts c2) = Some c' /\ WF c' /\
      contents c' = mkContents (entries (contents c2) ++ [mkEntry key value ts])
        (used (contents c2) ++ [key]) (gone (contents c2)) /\
      next_use_ c <= next_use_ c' <= next_use_ c + 1).
  { intros c2 W2 Hk2 Hn2. destruct (Add_item_spec c2 key value ts W2 Hk2) as (A1 & A2 & A3); [lia..|].
    eexists. split; [done|]. split_and!; [done|done|lia..]. }
  destruct (max_size_ <=? items_size c1) eqn:Em.
  - destruct (DelByAlgorithmLocked_spec c1 first W1 Hf) as (c2 & Hc2 & W2 & Hs2 & Hn2).
    rewrite Hc2. cbn [mbind option_bind]. rewrite <- Hs2, (zlen_entries c2 W2).
    destruct (max_size_ <=? items_size c2).
    + eexists. split; [done|]. split_and!; [destruct W2; by split|done|cbn; lia..].
    + apply Hadd; [done| |congruence].
      destruct (items_ c2 !! key) as [q|] eqn:Eq; [|done].
      apply (wf_items _ W2) in Eq as (it & Hq & Hk).
      assert (Hin : entry_of it ∈ entries (contents c2)) by (apply elem_of_entries; eauto).
      assert (Hin1 : entry_of it ∈ entries (contents c1)).
      { rewrite Hs2 in Hin. unfold spec_evict, spec_del in Hin. destruct (used _); [done|].
        destruct (find_entry _ _); [|done]. cbn [entries] in Hin. by apply list_elem_of_filter in Hin as [_ Hin]. }
      apply elem_of_entries in Hin1 as (q1 & it1 & Hq1 & Ei); [|done].
      assert (Ek : items_ c1 !! key = Some q1).
      { apply (wf_items _ W1). exists it1. split; [done|]. injection Ei. congruence. }
      congruence.
  - rewrite (zlen_entries c1 W1), Em. by apply Hadd.
Qed.

Lemma find_entry_cons key e l :
  find_entry key (e :: l) = if decide (e_key e = key) then Some e else find_entry key l.
Proof. unfold find_entry. rewrite filter_cons. by destruct (decide _). Qed.

Lemma lookup_entries (l : list Entry) key :
  (list_to_map ((fun e => (e_key e, e_value e)) <$> l) : gmap K V) !! key = e_value <$> find_entry key l.
Proof.
  induction l as [|e l IH]; [apply lookup_empty|]. rewrite find_entry_cons. cbn.
  destruct (decide (e_key e = key)) as [<-|]; [by rewrite lookup_insert_eq|by rewrite lookup_insert_ne].
Qed.

Lemma GetAll_section_spec c out :
  WF c -> GetAll_section out c =
    Some (out ∪ list_to_map ((fun e => (e_key e, e_value e)) <$> entries (contents c))).
Proof.
  intros W. unfold GetAll_section. rewrite decide_True.
  - do 2 f_equal. apply map_eq. intros k. rewrite lookup_entries, lookup_omap, (find_entry_at c k W).
    destruct (items_ c !! k) as [p|]; [|done]. cbn. by destruct (heap c !! p).
  - intros k p (it & Hp & _)%(wf_items _ W). by eexists.
Qed.

(** ** Sections *)

Lemma spec_del_sublist key s : entries (spec_del key s) `sublist_of` entries s.
Proof. unfold spec_del. destruct (find_entry _ _); [apply sublist_filter|done]. Qed.

Lemma spec_evict_sublist first s : entries (spec_evict first s) `sublist_of` entries s.
Proof. unfold spec_evict. destruct (used s); [done|apply spec_del_sublist]. Qed.

Lemma spec_expire_sublist now l s : entries (spec_expire now l s) `sublist_of` entries s.
Proof.
  revert s. induction l as [|e l IH]; intros s; cbn; [done|]. destruct (_ <? _); [done|].
  etransitivity; [apply IH|apply spec_del_sublist].
Qed.

Lemma sublist_zlen {A} (l k : list A) : l `sublist_of` k -> zlen l <= zlen k.
Proof. intros Hl%sublist_length. unfold zlen. lia. Qed.

Lemma length_spec_section x s :
  zlen (entries s) <= max_size_ -> zlen (entries (spec_section x s).1) <= max_size_.
Proof.
  intros Hs. destruct x; cbn [spec_section fst]; try done.
  - pose proof (sublist_zlen _ _ (spec_expire_sublist now (entries s) s)). lia.
  - unfold spec_add. pose proof (sublist_zlen _ _ (spec_del_sublist key s)).
    destruct (max_size_ <=? zlen (entries (spec_del key s))) eqn:E1.
    + pose proof (sublist_zlen _ _ (spec_evict_sublist first (spec_del key s))).
      destruct (max_size_ <=? zlen (entries (spec_evict _ _))) eqn:E2; cbn [entries]; [lia|].
      rewrite zlen_snoc. lia.
    + rewrite E1. cbn [entries]. rewrite zlen_snoc. lia.
  - unfold spec_get. by destruct (find_entry _ _).
  - pose proof (sublist_zlen _ _ (spec_del_sublist key s)). lia.
  - pose proof (sublist_zlen _ _ (spec_evict_sublist first s)). lia.
Qed.

(** Where the hash map begins is one of its keys. *)
Definition good_section (x : Section_ K V) : Prop :=
  match x with InAdd _ _ _ _ first | InDel first => good_first first | _ => True end.

Definition run : list (Section_ K V) -> Cache K V -> option (Cache K V * list (Answer K V)) :=
  run_sections algorithm_ max_size_ default_expiration_ms_ destructor_ null_value_.

Lemma run_section_spec x c :
  WF c -> good_section x -> zlen (entries (contents c)) < 2 ^ 32 -> 0 <= next_use_ c ->
  next_use_ c + 1 < 2 ^ 64 ->
  exists c' a, run_section algorithm_ max_size_ default_expiration_ms_ destructor_ null_value_ x c = Some (c', a) /\
    WF c' /\ spec_section x (contents c) = (contents c', a) /\ next_use_ c <= next_use_ c' <= next_use_ c + 1.
Proof.
  intros W Hg Hz H0 Hn. destruct x; cbn [run_section spec_section good_section] in *.
  - destruct (ExpireSomeCache_spec now c W Hz) as (c' & -> & W' & Hn' & Hs).
    exists c', Done. cbn. rewrite Hs. split_and!; (done || lia).
  - destruct (Add_section_spec c key value expiration_ms now first W Hg H0 Hn) as (c' & -> & W' & Hs & Hn').
    exists c', Done. cbn. by rewrite Hs.
  - destruct (Get_section_spec c key W H0 Hn) as (c' & -> & W' & Hs & Hn').
    exists c'. eexists. cbn. split_and!; [done|done| |lia..]. rewrite Hs. by destruct (spec_get key (contents c)).
  - rewrite (GetAll_section_spec c out W). exists c. eexists. cbn. split_and!; (done || lia).
  - exists c. eexists. split_and!; [done|done| |lia..]. do 2 f_equal. unfold Has, FindLocked.
    rewrite (find_entry_at c key W). apply bool_decide_ext. destruct (items_ c !! key) as [p|] eqn:E; [|done].
    apply (wf_items _ W) in E as (it & Hp & _). rewrite Hp. cbn. split; by eexists.
  - exists c. eexists. rewrite (zlen_entries c W). split_and!; (done || lia).
  - destruct (Del_key_spec c key W) as (c' & -> & W' & Hs & Hn' & _). exists c', Done. cbn. rewrite Hs.
    split_and!; (done || lia).
  - unfold Del. destruct (DelByAlgorithmLocked_spec c first W Hg) as (c' & -> & W' & Hs & Hn').
    exists c', Done. cbn. rewrite Hs. split_and!; (done || lia).
Qed.

Lemma run_sections_spec xs c :
  0 <= max_size_ < 2 ^ 32 -> Forall good_section xs -> WF c -> zlen (entries (contents c)) <= max_size_ ->
  0 <= next_use_ c -> next_use_ c + zlen xs < 2 ^ 64 ->
  exists c' l, run xs c = Some (c', l) /\ WF c' /\ spec_sections xs (contents c) = (contents c', l) /\
    zlen (entries (contents c')) <= max_size_ /\ 0 <= next_use_ c' <= next_use_ c + zlen xs.
Proof.
  intros Hmax Hxs. revert c. induction Hxs as [|x xs Hx _ IH]; intros c W Hz H0 Hn.
  - exists c, []. change (zlen []) with 0. by split_and!; [..|lia].
  - rewrite zlen_cons in *. pose proof (zlen_nonneg xs).
    destruct (run_section_spec x c W Hx ltac:(lia) H0 ltac:(lia)) as (c1 & a & Hc1 & W1 & Hs1 & Hn1).
    pose proof (length_spec_section x (contents c) Hz) as Hz1. rewrite Hs1 in Hz1. cbn [fst] in Hz1.
    destruct (IH c1 W1 Hz1) as (c' & l & Hc' & W' & Hs' & Hz' & Hu'); [lia..|].
    exists c', (a :: l). unfold run in *. cbn [run_sections spec_sections]. rewrite Hc1. cbn [mbind option_bind].
    rewrite Hc'. cbn [mbind option_bind]. rewrite Hs1, Hs'. split_and!; (done || lia).
Qed.

(** ** Keys and values *)

Definition distinct (s : Contents) : Prop := NoDup (e_key <$> entries s).

Definition values (s : Contents) : list V := gone s ++ (e_value <$> entries s).

Lemma distinct_filter (P : Entry -> Prop) `{!forall e, Decision (P e)} (l : list Entry) :
  NoDup (e_key <$> l) -> NoDup (e_key <$> filter P l).
Proof. intros Hl. eapply sublist_NoDup; [exact Hl|]. apply fmap_sublist, sublist_filter. Qed.

Lemma filter_others key (l : list Entry) :
  key ∉ (e_key <$> l) -> filter (fun e => e_key e <> key) l = l.
Proof.
  induction l as [|e l IH]; [done|]. cbn [fmap list_fmap]. rewrite not_elem_of_cons. intros [Hk Hl].
  rewrite filter_cons, decide_True by congruence. by rewrite IH.
Qed.

Lemma spec_del_distinct key s : distinct s -> distinct (spec_del key s).
Proof. unfold distinct, spec_del. intros Hs. destruct (find_entry _ _); [by apply distinct_filter|done]. Qed.

Lemma filter_values key (l : list Entry) e :
  NoDup (e_key <$> l) -> find_entry key l = Some e ->
  e_value e :: (e_value <$> filter (fun e => e_key e <> key) l) ≡ₚ e_value <$> l.
Proof.
  induction l as [|x l IH]; [done|]. cbn [fmap list_fmap]. intros [Hx Hl]%list.NoDup_cons. rewrite find_entry_cons.
  destruct (decide (e_key x = key)) as [<-|Hk].
  - intros [= <-]. rewrite filter_cons, decide_False by (intros Hk; by apply Hk). by rewrite filter_others.
  - intros Hf. rewrite filter_cons, decide_True by done. cbn [fmap list_fmap]. rewrite <- (IH Hl Hf). constructor.
Qed.

Lemma spec_del_values key s : destructor_ = true -> distinct s -> values (spec_del key s) ≡ₚ values s.
Proof.
  intros Hd Hs. unfold values, spec_del, spec_gone. destruct (find_entry _ _) as [e|] eqn:E; [|done].
  rewrite Hd. cbn [entries gone]. rewrite <- app_assoc. apply Permutation_app_head. cbn [app].
  by apply filter_values.
Qed.

(** The values that a section adds. *)
Definition added (x : Section_ K V) : list V := match x with InAdd _ value _ _ _ => [value] | _ => [] end.

Lemma spec_evict_kept first s : distinct s ->
  distinct (spec_evict first s) /\ (destructor_ = true -> values (spec_evict first s) ≡ₚ values s).
Proof.
  intros Hs. unfold spec_evict. destruct (used s); [by split|].
  split; [by apply spec_del_distinct|]. intros Hd. by apply spec_del_values.
Qed.

Lemma spec_expire_kept now l s : distinct s ->
  distinct (spec_expire now l s) /\ (destructor_ = true -> values (spec_expire now l s) ≡ₚ values s).
Proof.
  revert s. induction l as [|e l IH]; intros s Hs; cbn; [by split|]. destruct (_ <? _); [by split|].
  destruct (IH (spec_del (e_key e) s)) as [H1 H2]; [by apply spec_del_distinct|]. split; [done|].
  intros Hd. rewrite H2 by done. by apply spec_del_values.
Qed.

Lemma spec_del_gone key s : key ∉ (e_key <$> entries (spec_del key s)).
Proof.
  unfold spec_del. destruct (find_entry key (entries s)) as [e|] eqn:E.
  - cbn [entries]. intros (e' & -> & [Hk _]%list_elem_of_filter)%list_elem_of_fmap. by apply Hk.
  - intros (e & -> & He)%list_elem_of_fmap. revert E. unfold find_entry.
    destruct (filter _ _) as [|e' l] eqn:Ef; [|done]. intros _.
    assert (Hin : e ∈ filter (fun e' => e_key e' = e_key e) (entries s)) by by apply list_elem_of_filter.
    rewrite Ef in Hin. by apply not_elem_of_nil in Hin.
Qed.

Lemma spec_section_kept x s : distinct s ->
  distinct (spec_section x s).1 /\
  (destructor_ = true -> values (spec_section x s).1 ≡ₚ values s ++ added x).
Proof.
  intros Hs. destruct x; cbn [spec_section fst added]; rewrite ?app_nil_r; try by split.
  - by apply spec_expire_kept.
  - unfold spec_add. set (ts := int64 _).
    pose proof (spec_del_distinct key s Hs) as Hs1. pose proof (spec_del_gone key s) as Hk1.
    pose proof (fun Hd => spec_del_values key s Hd Hs) as Hv1.
    set (s1 := spec_del key s) in *.
    assert (Hadd : forall s2, distinct s2 -> key ∉ (e_key <$> entries s2) ->
      (destructor_ = true -> values s2 ≡ₚ values s) ->
      let s' := mkContents (entries s2 ++ [mkEntry key value ts]) (used s2 ++ [key]) (gone s2) in
      distinct s' /\ (destructor_ = true -> values s' ≡ₚ values s ++ [value])).
    { intros s2 Hs2 Hk2 Hv2. unfold distinct, values in *. cbn [entries gone]. rewrite !fmap_app. split.
      - apply list.NoDup_app. split_and!; [done| |apply NoDup_singleton].
        intros k Hk E%list_elem_of_singleton. by subst k.
      - intros Hd. rewrite <- (Hv2 Hd), app_assoc. done. }
    destruct (max_size_ <=? zlen (entries s1)) eqn:E1; [|rewrite E1; by apply Hadd].
    destruct (spec_evict_kept first s1 Hs1) as [Hs2 Hv2].
    destruct (max_size_ <=? zlen (entries (spec_evict first s1))).
    + split; [done|]. intros Hd. unfold values at 1. cbn [entries gone]. unfold spec_gone. rewrite Hd.
      rewrite <- (Hv1 Hd), <- (Hv2 Hd). unfold values. rewrite <- !app_assoc. apply Permutation_app_head.
      apply Permutation_app_comm.
    + apply Hadd; [done| |].
      * intros Hin. apply Hk1. eapply elem_of_submseteq; [exact Hin|].
        apply sublist_submseteq, fmap_sublist, spec_evict_sublist.
      * intros Hd. by rewrite (Hv2 Hd), (Hv1 Hd).
  - unfold spec_get. by destruct (find_entry _ _).
  - split; [by apply spec_del_distinct|]. intros Hd. by apply spec_del_values.
  - by apply spec_evict_kept.
Qed.

Lemma spec_sections_kept xs s : distinct s ->
  distinct (spec_sections xs s).1 /\
  (destructor_ = true -> values (spec_sections xs s).1 ≡ₚ values s ++ concat (added <$> xs)).
Proof.
  revert s. induction xs as [|x xs IH]; intros s Hs; cbn [spec_sections fmap list_fmap concat].
  - rewrite app_nil_r. by split.
  - destruct (spec_section_kept x s Hs) as [H1 H2]. destruct (spec_section x s) as [s1 a]. cbn [fst] in *.
    destruct (IH s1 H1) as [H3 H4]. destruct (spec_sections xs s1) as [s2 l]. cbn [fst] in *.
    split; [done|]. intros Hd. by rewrite (H4 Hd), (H2 Hd), app_assoc.
Qed.

(** ** The life of the values *)

Definition sooner (e e' : Entry) : Prop := e_expires e <= e_expires e'.

(** The entries expire in the order of the list, none later than a life after [t]. *)
Definition in_order (t : Z) (s : Contents) : Prop :=
  StronglySorted sooner (entries s) /\ Forall (fun e => e_expires e <= t + default_expiration_ms_) (entries s).

Lemma sublist_all {A} (P : A -> Prop) (l k : list A) : l `sublist_of` k -> Forall P k -> Forall P l.
Proof.
  induction 1 as [|x l k Hl IH|x l k Hl IH]; intros Hk; [done| |]; apply Forall_cons_1 in Hk as [Hx Hk];
    [apply Forall_cons_2; [done|]|]; by apply IH.
Qed.

Lemma sublist_sorted {A} (R : A -> A -> Prop) (l k : list A) :
  l `sublist_of` k -> StronglySorted R k -> StronglySorted R l.
Proof.
  induction 1 as [|x l k Hl IH|x l k Hl IH]; intros Hk; [done| |].
  - apply StronglySorted_inv in Hk as [Hk Hx]. apply SSorted_cons; [by apply IH|].
    by apply (sublist_all _ _ _ Hl).
  - apply StronglySorted_inv in Hk as [Hk _]. by apply IH.
Qed.

Lemma in_order_sublist t s s' : entries s' `sublist_of` entries s -> in_order t s -> in_order t s'.
Proof. intros Hs [H1 H2]. split; [by apply (sublist_sorted _ _ _ Hs)|by apply (sublist_all _ _ _ Hs)]. Qed.

Lemma spec_expire_fresh now l s :
  distinct s -> entries s = l -> StronglySorted sooner l ->
  Forall (fun e => now < e_expires e) (entries (spec_expire now l s)).
Proof.
  intros Hs Hl Hsort. revert s Hs Hl. induction Hsort as [|e l Hsort IH He]; intros s Hs Hl; cbn [spec_expire].
  - rewrite Hl. by apply Forall_nil_2.
  - destruct (now <? e_expires e) eqn:E.
    + rewrite Hl. apply Forall_cons_2; [lia|]. eapply Forall_impl; [|exact He]. unfold sooner. cbn. lia.
    + apply IH; [by apply spec_del_distinct|]. unfold spec_del.
      rewrite Hl, find_entry_cons, decide_True by done. cbn [entries].
      unfold distinct in Hs. rewrite Hl in Hs. cbn in Hs. apply list.NoDup_cons in Hs as [Hn _].
      rewrite filter_cons, decide_False by (intros Hk; by apply Hk). by apply filter_others.
Qed.

(** The values are added with the life of the cache, and the clock does not go back from one
    to the next. *)
Fixpoint default_lives (t : Z) (xs : list (Section_ K V)) : Prop :=
  match xs with
  | [] => True
  | InAdd _ _ ms now _ :: xs =>
      ms = -1 /\ t <= now /\ now + default_expiration_ms_ < 2 ^ 63 /\ default_lives now xs
  | _ :: xs => default_lives t xs
  end.

Lemma spec_add_in_order t key value now first s :
  0 <= t <= now -> 0 <= default_expiration_ms_ -> now + default_expiration_ms_ < 2 ^ 63 ->
  in_order t s -> in_order now (spec_add key value (-1) now first s).
Proof.
  intros Ht Hd Hn Hs. unfold spec_add. change (-1 =? -1) with true. cbv zeta. cbn iota.
  rewrite wrapS_small by lia.
  assert (Hlater : forall s', entries s' `sublist_of` entries s -> in_order now s').
  { intros s' Hs'. destruct (in_order_sublist t s s' Hs' Hs) as [H1 H2]. split; [done|].
    eapply Forall_impl; [|exact H2]. cbn. lia. }
  assert (Hadd : forall s', entries s' `sublist_of` entries s -> in_order now
    (mkContents (entries s' ++ [mkEntry key value (now + default_expiration_ms_)]) (used s' ++ [key]) (gone s'))).
  { intros s' Hs'. destruct (in_order_sublist t s s' Hs' Hs) as [H1 H2]. split; cbn [entries].
    - clear Hs'. induction H1 as [|e l H1 IH He]; [by repeat constructor|]. apply Forall_cons_1 in H2 as [Hx H2].
      cbn [app]. apply SSorted_cons; [by apply IH|]. apply Forall_app_2; [done|].
      apply Forall_cons_2; [|by apply Forall_nil_2]. unfold sooner. cbn. lia.
    - apply Forall_app_2; [|by apply Forall_cons_2; [cbn; lia|apply Forall_nil_2]].
      eapply Forall_impl; [|exact H2]. cbn. lia. }
  assert (Hev : entries (spec_evict first (spec_del key s)) `sublist_of` entries s)
    by (etransitivity; [apply spec_evict_sublist|apply spec_del_sublist]).
  destruct (max_size_ <=? zlen (entries (spec_del key s))) eqn:E; [|rewrite E; by apply Hadd, spec_del_sublist].
  destruct (max_size_ <=? zlen (entries (spec_evict _ _))); [|by apply Hadd].
  by apply (Hlater (mkContents _ _ _)).
Qed.

Lemma spec_sections_in_order t xs s :
  0 <= t -> 0 <= default_expiration_ms_ -> default_lives t xs -> in_order t s ->
  exists t', in_order t' (spec_sections xs s).1.
Proof.
  intros Ht Hd. revert t s Ht. induction xs as [|x xs IH]; intros t s Ht Hl Hs; [by exists t|].
  assert (Hx : exists t', 0 <= t' /\ default_lives t' xs /\ in_order t' (spec_section x s).1).
  { destruct x; cbn [spec_section fst default_lives] in *; try (exists t; split_and!; [done|done|]).
    - by apply (in_order_sublist t s), Hs; apply spec_expire_sublist.
    - destruct Hl as (-> & Hle & Hn & Hl). exists now. split_and!; [lia|done|]. by apply (spec_add_in_order t).
    - unfold spec_get. by destruct (find_entry _ _).
    - done.
    - done.
    - done.
    - by apply (in_order_sublist t s), Hs; apply spec_del_sublist.
    - by apply (in_order_sublist t s), Hs; apply spec_evict_sublist. }
  destruct Hx as (t' & Ht' & Hl' & Hs'). cbn [spec_sections]. destruct (spec_section x s) as [s1 a].
  destruct (IH t' s1 Ht' Hl' Hs') as [t2 H2]. destruct (spec_sections xs s1) as [s2 l]. by exists t2.
Qed.

(** ** Clearing *)

Lemma delete_all_frame ps (c c' : Cache K V) p :
  delete_all ps c = Some c' -> heap c !! p = None -> heap c' !! p = None.
Proof.
  revert c. induction ps as [|q ps IH]; intros c; cbn [delete_all]; [by intros [= ->]|].
  unfold Item_delete. destruct (heap c !! q) as [it|]; [|done]. cbn [mbind option_bind].
  intros Hd Hp. apply (IH _ Hd). cbn. apply lookup_delete_None. by right.
Qed.

Lemma delete_all_spec ps (c : Cache K V) :
  NoDup ps -> (forall p, p ∈ ps -> exists it, heap c !! p = Some it /\ item_destructor_ it = destructor_) ->
  exists c', delete_all ps c = Some c' /\ items_by_exp_ c' = items_by_exp_ c /\
    (forall p, p ∈ ps -> heap c' !! p = None) /\
    destroyed c' = destroyed c ++ (if destructor_ then omap (fun p => value_ <$> heap c !! p) ps else []).
Proof.
  intros Hnd. revert c. induction Hnd as [|p ps Hp Hnd IH]; intros c Hl.
  - exists c. split_and!; [done|done|by intros p ?%not_elem_of_nil|]. by destruct destructor_; rewrite app_nil_r.
  - destruct (Hl p) as (it & Hit & Hd); [by left|]. cbn [delete_all]. unfold Item_delete. rewrite Hit.
    cbn [mbind option_bind]. set (c1 := destroy _ _ _).
    assert (Hh : heap c1 = delete p (heap c)) by done.
    destruct (IH c1) as (c' & Hc' & He & Hn & Hg).
    { intros q Hq. destruct (Hl q) as (b & Hb & Hbd); [by right|]. exists b. split; [|done].
      rewrite Hh, lookup_delete_ne; [done|]. by intros ->. }
    exists c'. split_and!; [done|done| |].
    + intros q [->|Hq]%elem_of_cons; [|by apply Hn].
      apply (delete_all_frame ps c1 c' p Hc'). by rewrite Hh, lookup_delete_eq.
    + rewrite Hg. subst c1. cbn [destroyed destroy heap]. rewrite Hd. cbn [omap list_omap]. rewrite Hit. cbn.
      destruct destructor_; [|done]. rewrite <- app_assoc. cbn. do 2 f_equal. apply omap_ext_in.
      intros q Hq. rewrite lookup_delete_ne; [done|]. by intros ->.
Qed.

Lemma Clear_destroys c :
  WF c -> exists c', Clear c = Some c' /\ items_ c' = ∅ /\ items_by_exp_ c' = items_by_exp_ c /\
    (forall p, p ∈ items_by_exp_ c -> heap c' !! p = None) /\
    (destructor_ = true -> destroyed c' ≡ₚ values (contents c)).
Proof.
  intros W. set (ps := snd <$> map_to_list (items_ c)).
  assert (Hin : forall p, p ∈ ps <-> p ∈ items_by_exp_ c).
  { intros p. unfold ps. rewrite list_elem_of_fmap, (wf_exp _ W). split.
    - intros ([k q] & -> & Hq%elem_of_map_to_list). apply (wf_items _ W) in Hq as (it & Hit & _). by eexists.
    - intros [it Hit]. exists (key_ it, p). split; [done|]. apply elem_of_map_to_list, (wf_items _ W). eauto. }
  assert (Hnd : NoDup ps).
  { unfold ps. apply NoDup_fmap_2_strong; [|apply NoDup_map_to_list].
    intros [k q] [k' q'] Hk%elem_of_map_to_list Hk'%elem_of_map_to_list E. cbn in E. subst q'.
    apply (wf_items _ W) in Hk as (a & Ha & <-), Hk' as (b & Hb & <-). congruence. }
  destruct (delete_all_spec ps c Hnd) as (c1 & Hc1 & He & Hn & Hg).
  { intros p Hp%Hin. apply (wf_exp _ W) in Hp as [it Hit]. exists it. split; [done|]. by apply (wf_destructor _ W p). }
  unfold Clear. fold ps. rewrite Hc1. cbn [mbind option_bind]. eexists. split; [done|].
  split_and!; [done|done| |].
  - intros p Hp%Hin. by apply Hn.
  - intros Hd. cbn [destroyed]. rewrite Hg, Hd. unfold values. cbn [contents gone entries].
    apply Permutation_app_head.
    rewrite (NoDup_Permutation ps (items_by_exp_ c) Hnd (wf_nodup _ W) Hin).
    assert (Hl : forall p, p ∈ items_by_exp_ c -> is_Some (heap c !! p)) by (intros p; apply (wf_exp _ W)).
    match goal with |- ?x ≡ₚ ?y => enough (x = y) as -> by done end. clear -Hl. induction (items_by_exp_ c) as [|p l IH]; [done|].
    cbn [omap list_omap]. destruct (Hl p) as [it ->]; [by left|]. cbn. f_equal. apply IH.
    intros q Hq. apply Hl. by right.
Qed.

(** ** Theorems *)

Definition nothing : Contents := mkContents [] [] [].

Lemma run_new xs :
  0 <= max_size_ < 2 ^ 32 -> Forall good_section xs -> zlen xs < 2 ^ 64 ->
  exists c l, run xs Cache_new = Some (c, l) /\ WF c /\ spec_sections xs nothing = (contents c, l) /\
    zlen (entries (contents c)) <= max_size_ /\ 0 <= next_use_ c <= zlen xs /\ distinct (contents c) /\
    (destructor_ = true -> values (contents c) ≡ₚ concat (added <$> xs)).
Proof.
  intros Hm Hg Hn.
  destruct (run_sections_spec xs Cache_new Hm Hg WF_new) as (c & l & Hr & W & Hs & Hz & Hu);
    [unfold zlen; cbn; lia|done|exact Hn|].
  change (contents Cache_new) with nothing in Hs. exists c, l.
  pose proof (spec_sections_kept xs nothing (base.NoDup_nil_2 (A := K))) as [H1 H2].
  rewrite Hs in H1, H2. by split_and!; [..|apply Hu|apply Hu| |].
Qed.

(** C38: Whatever threads use a cache of less than 2^32 entries, with the sections of their
    calls other than [Clear] in any order, less than 2^64 of them, no access fails, and the
    answers are those of a list of entries in the order they were added and a list of keys in
    the order they were used: a section that expires takes the entries before the first that
    has not expired, a full cache gives up what its algorithm says, there are never more
    entries than its size, no key is there twice, and every value that was added is either
    there or was destroyed, once. (After [Clear] it is not so: [clear_leaves_expirations].) *)
Theorem cache_sections xs :
  0 <= max_size_ < 2 ^ 32 -> Forall good_section xs -> zlen xs < 2 ^ 64 ->
  exists c l, run xs Cache_new = Some (c, l) /\
    spec_sections xs nothing = (contents c, l) /\
    zlen (entries (contents c)) <= max_size_ /\ distinct (contents c) /\
    (destructor_ = true -> values (contents c) ≡ₚ concat (added <$> xs)).
Proof.
  intros Hm Hg Hn. destruct (run_new xs Hm Hg Hn) as (c & l & Hr & _ & Hs & Hz & _ & H1 & H2).
  exists c, l. by split_and!.
Qed.

(** In a cache to which values are only added with its own life, and with a clock that does
    not go back between two additions, Get never gives a value that has expired, whatever the
    sections of the calls before it. *)
Theorem default_life_respected xs c l key now :
  0 <= max_size_ < 2 ^ 32 -> 0 <= default_expiration_ms_ -> Forall good_section xs ->
  zlen xs + 1 < 2 ^ 64 -> default_lives 0 xs -> run xs Cache_new = Some (c, l) ->
  exists c' v, Get null_value_ key now c = Some (c', v) /\
    match find_entry key (entries (contents c')) with
    | Some e => v = e_value e /\ now < e_expires e
    | None => v = null_value_
    end.
Proof.
  intros Hm Hd Hg Hn Hl Hr.
  destruct (run_new xs Hm Hg ltac:(lia)) as (c1 & l1 & Hr1 & W & Hs & Hz & Hu & H1 & _).
  rewrite Hr in Hr1. injection Hr1 as <- <-.
  destruct (spec_sections_in_order 0 xs nothing) as [t [Ht _]]; [done..| |].
  { split; [constructor|by apply Forall_nil_2]. }
  rewrite Hs in Ht. cbn [fst] in Ht.
  destruct (ExpireSomeCache_spec now c W ltac:(lia)) as (c2 & Hc2 & W2 & Hn2 & Hs2).
  pose proof (spec_expire_fresh now _ _ H1 eq_refl Ht) as Hf. rewrite <- Hs2 in Hf.
  destruct (Get_section_spec c2 key W2) as (c' & Hc' & W' & Hs' & _); [lia..|].
  exists c'. eexists. unfold Get. rewrite Hc2. cbn [mbind option_bind]. split; [exact Hc'|].
  rewrite Hs'. unfold spec_get. destruct (find_entry key (entries (contents c2))) as [e|] eqn:E; cbn [fst snd entries].
  - rewrite E. split; [done|]. rewrite List.Forall_forall in Hf. apply (Hf e), list_elem_of_In.
    revert E. unfold find_entry. destruct (filter _ _) as [|e' l'] eqn:Ef; [done|]. intros [= ->].
    assert (Hin : e ∈ filter (fun e => e_key e = key) (entries (contents c2))) by (rewrite Ef; left).
    by apply list_elem_of_filter in Hin as [_ Hin].
  - by rewrite E.
Qed.

(** C31: Clear destroys every value once and leaves the map empty, but items_by_exp_ as it was: if
    there was something in the cache, every later Add, Get and GetAll reads a deleted item. *)
Theorem clear_leaves_expirations xs c l :
  0 <= max_size_ < 2 ^ 32 -> Forall good_section xs -> zlen xs < 2 ^ 64 ->
  run xs Cache_new = Some (c, l) -> entries (contents c) <> [] ->
  exists c', Clear c = Some c' /\ items_size c' = 0 /\
    (destructor_ = true -> destroyed c' ≡ₚ concat (added <$> xs)) /\
    forall key value ms now now' first out,
      Add algorithm_ max_size_ default_expiration_ms_ destructor_ key value ms now now' first c' = None /\
      Get null_value_ key now c' = None /\ GetAll out now c' = None.
Proof.
  intros Hm Hg Hn Hr Hne.
  destruct (run_new xs Hm Hg Hn) as (c1 & l1 & Hr1 & W & _ & _ & _ & _ & Hv).
  rewrite Hr in Hr1. injection Hr1 as <- <-.
  destruct (Clear_destroys c W) as (c' & Hc' & Hi & He & Hh & Hd). exists c'. split_and!; [done| | |].
  - unfold items_size. by rewrite Hi, map_size_empty.
  - intros Ht. by rewrite (Hd Ht), (Hv Ht).
  - intros. assert (Hx : ExpireSomeCache now c' = None).
    { unfold ExpireSomeCache. rewrite He. destruct (items_by_exp_ c) as [|p ps] eqn:E.
      - exfalso. apply Hne. cbn [entries contents]. by rewrite E.
      - cbn [to_expire]. rewrite Hh; [done|left]. }
    unfold Add, Get, GetAll. by rewrite Hx.
Qed.

End Props.

(** ** Examples *)

Definition least (X : gset nat) : nat := default O (head (elements X)).

Lemma least_good : good_first least.
Proof.
  intros X HX. unfold least. destruct (elements X) as [|x l] eqn:E.
  - exfalso. apply HX, set_eq. intros x. rewrite <- elem_of_elements, E. set_solver.
  - cbn. rewrite <- elem_of_elements, E. left.
Qed.

(** Three values in a cache of two, with the first used before the third is added. *)
Definition three : list (Section_ nat nat) :=
  [InAdd 1%nat 10%nat (-1) 5 least; InAdd 2%nat 20%nat (-1) 6 least; InGet 1%nat;
   InAdd 3%nat 30%nat (-1) 7 least].

Lemma three_good : Forall good_section three.
Proof. repeat apply Forall_cons_2; try apply Forall_nil_2; cbn; (exact least_good || exact I). Qed.

Lemma cache_sections_witness :
  exists c l, run LRU 2 100 true O three Cache_new = Some (c, l) /\
    l = [Done; Done; Value 10%nat; Done] /\
    contents c = mkContents [mkEntry 1%nat 10%nat 105; mkEntry 3%nat 30%nat 107] [1%nat; 3%nat] [20%nat] /\
    values (contents c) ≡ₚ [10; 20; 30]%nat.
Proof.
  destruct (cache_sections LRU 2 100 true O three ltac:(lia) three_good ltac:(by vm_compute))
    as (c & l & Hr & Hs & _ & _ & Hv).
  assert (E : spec_sections LRU 2 100 true O three nothing =
    (mkContents [mkEntry 1%nat 10%nat 105; mkEntry 3%nat 30%nat 107] [1%nat; 3%nat] [20%nat],
     [Done; Done; Value 10%nat; Done])) by by vm_compute.
  rewrite E in Hs. apply pair_eq in Hs as [Hc Hl]. exists c, l. split_and!; [exact Hr|by rewrite <- Hl|by rewrite <- Hc|].
  exact (Hv eq_refl).
Defined.

Lemma default_life_respected_witness :
  exists c l c' v, run LRU 2 100 true O three Cache_new = Some (c, l) /\
    Get O 1%nat 105 c = Some (c', v) /\ v = O.
Proof.
  destruct (run LRU 2 100 true O three Cache_new) as [[c l]|] eqn:Hr; [|exfalso; by vm_compute in Hr].
  destruct (default_life_respected LRU 2 100 true O three c l 1%nat 105 ltac:(lia) ltac:(lia) three_good
    ltac:(by vm_compute) ltac:(cbn; lia) Hr) as (c' & v & Hg & Hv).
  exists c, l, c', v. split_and!; [done|exact Hg|].
  assert (E : option_map snd (x ← run LRU 2 100 true O three Cache_new; Get O 1%nat 105 x.1) = Some O) by by vm_compute.
  rewrite Hr in E. cbn [mbind option_bind fst] in E. rewrite Hg in E. by injection E.
Defined.

Lemma clear_leaves_expirations_witness :
  exists c l c', run LRU 2 100 true O three Cache_new = Some (c, l) /\ Clear c = Some c' /\
    destroyed c' ≡ₚ [10; 20; 30]%nat /\ Get O 1%nat 8 c' = None.
Proof.
  destruct (run LRU 2 100 true O three Cache_new) as [[c l]|] eqn:Hr; [|exfalso; by vm_compute in Hr].
  destruct (clear_leaves_expirations LRU 2 100 true O three c l ltac:(lia) three_good ltac:(by vm_compute) Hr)
    as (c' & Hc & _ & Hd & Hx).
  { assert (E : option_map (fun x => length (entries (contents x.1))) (run LRU 2 100 true O three Cache_new) = Some 2%nat)
      by by vm_compute.
    rewrite Hr in E. cbn [option_map fst] in E. intros En. by rewrite En in E. }
  exists c, l, c'. split_and!; [done|exact Hc|exact (Hd eq_refl)|]. by apply (Hx 1%nat O 0 8 0 least ∅).
Defined.

(** With a longer life in front of it a value is given after its own. *)
Theorem expired_value_given :
  (x ← run LRU 2 100 true O [InAdd 1%nat 10%nat (-1) 0 least; InAdd 2%nat 20%nat 10 0 least] Cache_new;
   snd <$> Get O 2%nat 50 x.1) = Some 20%nat.
Proof. by vm_compute. Qed.

End CacheProps.
