(* ===== verification/FreeList.v ===== *)
(** * FreeList: lists of objects to use again ([base/free_list.h])

    [FreeList], [FreeArrayList] and [MemAlignedFreeArrayList], whose calls run one at a time
    (the thread safe ones have a mutex around each), and [aligned_malloc].  A pointer is a
    number, and what is allocated is always a new one; [deleted] records what was deleted. *)

From S2P Require Import Prelude.

Module FreeList.

(** ** The lists *)

Record FreeList := mkFreeList {
  outstanding_ : Z;
  free_list_ : list nat;
  next_object : nat;
  deleted : list nat;
}.

Definition set_outstanding (n : Z) (f : FreeList) : FreeList :=
  mkFreeList n (free_list_ f) (next_object f) (deleted f).
Definition set_free_list (l : list nat) (f : FreeList) : FreeList :=
  mkFreeList (outstanding_ f) l (next_object f) (deleted f).
Definition delete_objects (l : list nat) (f : FreeList) : FreeList :=
  mkFreeList (outstanding_ f) (free_list_ f) (next_object f) (deleted f ++ l).

(** [new T], [new T[size_]] and the like. *)
Definition Allocate (f : FreeList) : FreeList * nat :=
  (mkFreeList (outstanding_ f) (free_list_ f) (S (next_object f)) (deleted f), next_object f).

(** [outstanding_] is 0 in a [FreeList]; the constructor of [FreeArrayList] does not set it. *)
Definition FreeList_new (outstanding : Z) : FreeList := mkFreeList outstanding [] 0 [].

(** [free_list_.pop_back()], if there is an object. *)
Definition pop_back (f : FreeList) : option (FreeList * nat) :=
  p ← list.last (free_list_ f); Some (set_free_list (removelast (free_list_ f)) f, p).

Section Lists.
Variable max_size_ : Z.

Definition New (f : FreeList) : FreeList * nat :=
  let f := set_outstanding (size_t (outstanding_ f + 1)) f in
  match pop_back f with Some x => x | None => Allocate f end.

(** Whether the object was deleted. *)
Definition Dispose (p : nat) (f : FreeList) : FreeList * bool :=
  let f := set_outstanding (size_t (outstanding_ f - 1)) f in
  if zlen (free_list_ f) <? max_size_ then (set_free_list (free_list_ f ++ [p]) f, false)
  else (delete_objects [p] f, true).

Definition DisposeAll (ps : list nat) (f : FreeList) : FreeList :=
  let f := set_outstanding (size_t (outstanding_ f - zlen ps)) f in
  let f := set_free_list (free_list_ f ++ ps) f in
  if max_size_ <? zlen (free_list_ f) then
    set_free_list (takeZ max_size_ (free_list_ f)) (delete_objects (dropZ max_size_ (free_list_ f)) f)
  else f.

(** The loop of the destructor takes the objects from the end. *)
Definition FreeList_delete (f : FreeList) : FreeList :=
  set_free_list [] (delete_objects (rev (free_list_ f)) f).

(** ** Calls of a client

    The client has [held], and gives back only what it has. *)
Inductive Call := CNew | CDispose (p : nat) | CDisposeAll (ps : list nat).

Definition call (x : Call) (st : FreeList * list nat) : option (FreeList * list nat) :=
  let '(f, held) := st in
  match x with
  | CNew => let '(f, p) := New f in Some (f, p :: held)
  | CDispose p =>
      if decide (p ∈ held) then Some ((Dispose p f).1, filter (fun q => q <> p) held) else None
  | CDisposeAll ps =>
      if decide (NoDup ps /\ ps ⊆ held) then Some (DisposeAll ps f, filter (fun q => q ∉ ps) held) else None
  end.

Fixpoint calls (xs : list Call) (st : FreeList * list nat) : option (FreeList * list nat) :=
  match xs with [] => Some st | x :: xs => st ← call x st; calls xs st end.

(** Every object is in one place, and only there. *)
Record Kept (outstanding : Z) (f : FreeList) (held : list nat) : Prop := {
  kept_once : held ++ free_list_ f ++ deleted f ≡ₚ seq 0 (next_object f);
  kept_max : zlen (free_list_ f) <= max_size_;
  kept_outstanding : outstanding_ f = size_t (outstanding + zlen held);
}.

Lemma Kept_NoDup o f held : Kept o f held -> NoDup held.
Proof.
  intros [Hk _ _]. assert (Hn : NoDup (held ++ free_list_ f ++ deleted f)) by (rewrite Hk; apply NoDup_seq).
  by apply list.NoDup_app in Hn as [Hn _].
Qed.

Lemma filter_in (ps held : list nat) :
  NoDup ps -> NoDup held -> ps ⊆ held -> held ≡ₚ ps ++ filter (fun q => q ∉ ps) held.
Proof.
  intros Hp Hh Hs. apply NoDup_Permutation; [done| |].
  - apply list.NoDup_app. split_and!; [done| |by apply list.NoDup_filter].
    intros q Hq [Hn _]%list_elem_of_filter. done.
  - intros q. rewrite elem_of_app, list_elem_of_filter. destruct (decide (q ∈ ps)); [|tauto].
    split; [by left|intros _; by apply Hs].
Qed.

Lemma size_t_add a b : size_t (size_t a + b) = size_t (a + b).
Proof. unfold wrapU. by rewrite Zplus_mod_idemp_l. Qed.

Lemma New_kept o f held : Kept o f held -> let '(f', p) := New f in Kept o f' (p :: held).
Proof.
  intros [Hk Hm Ho]. unfold New, pop_back. cbn [free_list_ set_outstanding].
  assert (Ho' : size_t (outstanding_ f + 1) = size_t (o + zlen (next_object f :: held))).
  { rewrite Ho, size_t_add, zlen_cons. f_equal. lia. }
  destruct (list.last (free_list_ f)) as [p|] eqn:E; cbn [mbind option_bind Allocate].
  - apply list.last_Some in E as [l El]. rewrite El, removelast_last in *.
    split; cbn [free_list_ outstanding_ deleted next_object set_free_list set_outstanding].
    + rewrite <- Hk. rewrite <- app_assoc. cbn [app]. rewrite (Permutation_middle held).
      apply Permutation_app_head. by rewrite Permutation_middle.
    + rewrite zlen_snoc in Hm. lia.
    + done.
  - split; cbn [free_list_ outstanding_ deleted next_object set_outstanding]; [|done|done].
    rewrite seq_S, <- Hk. cbn [app Nat.add]. by rewrite Permutation_cons_append.
Qed.

Lemma DisposeAll_kept o f held ps :
  0 <= max_size_ -> NoDup ps -> ps ⊆ held -> Kept o f held ->
  Kept o (DisposeAll ps f) (filter (fun q => q ∉ ps) held).
Proof.
  intros H0 Hp Hs HK. pose proof (filter_in ps held Hp (Kept_NoDup _ _ _ HK) Hs) as Hh.
  destruct HK as [Hk Hm Ho]. unfold DisposeAll. cbn [free_list_ set_free_list set_outstanding].
  assert (Ho' : size_t (outstanding_ f - zlen ps) = size_t (o + zlen (filter (fun q => q ∉ ps) held))).
  { apply Permutation_length in Hh. rewrite length_app in Hh. rewrite Ho. unfold Z.sub. rewrite size_t_add.
    f_equal. unfold zlen. lia. }
  assert (Hk' : filter (fun q => q ∉ ps) held ++ (free_list_ f ++ ps) ++ deleted f ≡ₚ seq 0 (next_object f)).
  { set (rest := filter _ held) in *. transitivity ((ps ++ rest) ++ free_list_ f ++ deleted f).
    - solve_Permutation.
    - by rewrite <- Hh. }
  destruct (max_size_ <? zlen (free_list_ f ++ ps)) eqn:E;
    split; cbn [free_list_ outstanding_ deleted next_object set_free_list set_outstanding delete_objects]; try done.
  - rewrite <- Hk'. rewrite <- (takeZ_dropZ max_size_ (free_list_ f ++ ps)) at 3.
    set (rest := filter _ held). solve_Permutation.
  - rewrite zlen_takeZ by done. lia.
  - lia.
Qed.

(** An object given back alone. *)
Lemma Dispose_all p f : zlen (free_list_ f) <= max_size_ -> (Dispose p f).1 = DisposeAll [p] f.
Proof.
  intros Hm. unfold Dispose, DisposeAll. cbn [free_list_ set_free_list set_outstanding]. rewrite zlen_snoc.
  change (zlen [p]) with 1.
  destruct (zlen (free_list_ f) <? max_size_) eqn:E; [by replace (max_size_ <? _) with false by lia|].
  replace (max_size_ <? _) with true by lia.
  unfold delete_objects, set_free_list. cbn. rewrite takeZ_app_l, takeZ_all, dropZ_app_r by lia.
  by replace (max_size_ - zlen (free_list_ f)) with 0 by lia.
Qed.

Lemma call_kept o x f held f' held' :
  0 <= max_size_ -> Kept o f held -> call x (f, held) = Some (f', held') -> Kept o f' held'.
Proof.
  intros H0 HK. destruct x as [|p|ps]; cbn [call].
  - pose proof (New_kept o f held HK) as Hn. destruct (New f) as [f1 p]. by intros [= <- <-].
  - destruct (decide (p ∈ held)) as [Hp|]; [|done]. intros [= <- <-]. rewrite Dispose_all by apply HK.
    rewrite (list_filter_iff _ (fun q => q ∉ [p])) by (intros q; by rewrite list_elem_of_singleton).
    apply DisposeAll_kept; [done|apply NoDup_singleton| |done]. by intros q ->%list_elem_of_singleton.
  - destruct (decide _) as [[Hn Hs]|]; [|done]. intros [= <- <-]. by apply DisposeAll_kept.
Qed.

Lemma calls_kept o xs f held f' held' :
  0 <= max_size_ -> Kept o f held -> calls xs (f, held) = Some (f', held') -> Kept o f' held'.
Proof.
  intros H0. revert f held. induction xs as [|x xs IH]; intros f held HK; cbn [calls]; [by intros [= <- <-]|].
  destruct (call x (f, held)) as [[f1 held1]|] eqn:E; [|done]. cbn [mbind option_bind].
  apply IH. by apply (call_kept o x f held).
Qed.

(** C39: Whatever a client takes from a free list and gives back, every object is at one place:
    with the client, in the list or deleted, so that none is given out twice or deleted while
    it is used; the list never has more than its size, and outstanding_ is the number of the
    objects of the client, above the value that it had first (which FreeArrayList leaves to
    chance).  When the list is deleted its objects are, once. *)
Theorem free_list_keeps_objects o xs f held :
  0 <= max_size_ -> 0 <= o < 2 ^ 64 -> calls xs (FreeList_new o, []) = Some (f, held) ->
  held ++ free_list_ f ++ deleted f ≡ₚ seq 0 (next_object f) /\
  zlen (free_list_ f) <= max_size_ /\ outstanding_ f = size_t (o + zlen held) /\
  ((New f).2 ∉ held) /\ held ++ deleted (FreeList_delete f) ≡ₚ seq 0 (next_object f).
Proof.
  intros H0 Ho Hc. assert (HK : Kept o f held).
  { apply (calls_kept o xs (FreeList_new o) [] f held H0); [|done].
    split; [done|done|]. change (zlen []) with 0. rewrite Z.add_0_r. cbn. by rewrite wrapU_small. }
  pose proof (New_kept o f held HK) as Hn. destruct (New f) as [f1 p]. apply Kept_NoDup, list.NoDup_cons in Hn as [Hn _].
  destruct HK as [Hk Hm Hout]. split_and!; [done..|]. cbn [FreeList_delete set_free_list delete_objects deleted].
  rewrite <- Hk. rewrite (Permutation_app_comm (deleted f)). by rewrite <- (Permutation_rev (free_list_ f)).
Qed.

End Lists.

Lemma free_list_keeps_objects_witness :
  exists f, calls 1 [CNew; CNew; CDispose 0; CDispose 1; CNew] (FreeList_new 0, []) = Some (f, [O]) /\
    free_list_ f = [] /\ deleted f = [1%nat] /\ outstanding_ f = 1.
Proof.
  destruct (calls 1 [CNew; CNew; CDispose 0; CDispose 1; CNew] (FreeList_new 0, [])) as [[f held]|] eqn:Hc;
    [|exfalso; by vm_compute in Hc].
  destruct (free_list_keeps_objects 1 0 _ f held ltac:(lia) ltac:(lia) Hc) as (_ & _ & Ho & _).
  vm_compute in Hc. injection Hc as <- <-. eexists. split_and!; [reflexivity|done|done|exact Ho].
Defined.

(** ** Blocks of aligned memory ([MemAlignedFreeArrayList])

    With [alloc_initially] the constructor fills the list and nothing is allocated later;
    [allocated] says whether there is memory when it is asked for. *)

Record Pool := mkPool { pool_list : list nat; alloc_initially_ : bool; next_block : nat }.

Definition NewInternal (allocated : bool) (f : Pool) : Pool * option nat :=
  match list.last (pool_list f) with
  | Some p => (mkPool (removelast (pool_list f)) (alloc_initially_ f) (next_block f), Some p)
  | None =>
      if alloc_initially_ f || negb allocated then (f, None)
      else (mkPool (pool_list f) (alloc_initially_ f) (S (next_block f)), Some (next_block f))
  end.

Definition DisposeInternal (max_size_ : Z) (p : nat) (f : Pool) : option (Pool * bool) :=
  if zlen (pool_list f) <? max_size_ then
    Some (mkPool (pool_list f ++ [p]) (alloc_initially_ f) (next_block f), false)
  else _ ← CHECK (negb (alloc_initially_ f)); Some (f, true).

(** The loops of the constructor; [None] is the [CHECK] of a block. *)
Fixpoint alloc_blocks (n : nat) (allocated : nat -> bool) (f : Pool) : option (Pool * list nat) :=
  match n with
  | O => Some (f, [])
  | S n =>
      '(f, ps) ← alloc_blocks n allocated f;
      let '(f, p) := NewInternal (allocated n) f in
      match p with Some p => Some (f, ps ++ [p]) | None => None end
  end.

Fixpoint dispose_blocks (max_size_ : Z) (ps : list nat) (f : Pool) : option Pool :=
  match ps with
  | [] => Some f
  | p :: ps => '(f, _) ← DisposeInternal max_size_ p f; dispose_blocks max_size_ ps f
  end.

Definition Pool_new (max_size : nat) (alloc_initially : bool) (allocated : nat -> bool) : option Pool :=
  let f := mkPool [] false 0 in
  if alloc_initially then
    '(f, ps) ← alloc_blocks max_size allocated f;
    f ← dispose_blocks (Z.of_nat max_size) ps f;
    Some (mkPool (pool_list f) true (next_block f))
  else Some f.

Lemma alloc_blocks_all n :
  alloc_blocks n (fun _ => true) (mkPool [] false 0) = Some (mkPool [] false n, seq 0 n).
Proof.
  induction n as [|n IH]; [done|]. cbn [alloc_blocks]. rewrite IH. cbn [mbind option_bind].
  unfold NewInternal. cbn [pool_list alloc_initially_ next_block list.last negb orb]. by rewrite (seq_S n 0).
Qed.

Lemma dispose_blocks_all max ps l b n :
  zlen l + zlen ps <= max ->
  dispose_blocks max ps (mkPool l b n) = Some (mkPool (l ++ ps) b n).
Proof.
  revert l. induction ps as [|p ps IH]; intros l Hl; [by rewrite app_nil_r|]. rewrite zlen_cons in Hl.
  pose proof (zlen_nonneg ps). cbn [dispose_blocks]. unfold DisposeInternal. cbn [pool_list].
  replace (zlen l <? max) with true by lia. cbn [mbind option_bind]. rewrite IH, <- app_assoc; [done|].
  rewrite zlen_snoc. lia.
Qed.

(** A pool that is filled by its constructor: the client and the list share its blocks, a block
    given back always has a place, and there is none for the client only when it has them all. *)
Theorem fixed_pool max :
  Pool_new max true (fun _ => true) = Some (mkPool (seq 0 max) true max) /\
  forall f held, alloc_initially_ f = true -> held ++ pool_list f ≡ₚ seq 0 max ->
    (forall a, match NewInternal a f with
     | (f', Some p) => (p :: held) ++ pool_list f' ≡ₚ seq 0 max
     | (f', None) => f' = f /\ held ≡ₚ seq 0 max
     end) /\
    (forall p, p ∈ held -> exists f', DisposeInternal (Z.of_nat max) p f = Some (f', false) /\
       filter (fun q => q <> p) held ++ pool_list f' ≡ₚ seq 0 max).
Proof.
  split.
  - unfold Pool_new. rewrite alloc_blocks_all. cbn [mbind option_bind].
    rewrite dispose_blocks_all; [done|]. unfold zlen. rewrite length_seq. cbn. lia.
  - intros f held Ha Hh. split.
    + intros a. unfold NewInternal. destruct (list.last (pool_list f)) as [p|] eqn:E.
      * apply list.last_Some in E as [l El]. rewrite El in *. rewrite removelast_last. cbn [pool_list].
        rewrite <- Hh. solve_Permutation.
      * rewrite Ha. cbn [orb]. apply list.last_None in E. rewrite E, app_nil_r in Hh. done.
    + intros p Hp. unfold DisposeInternal.
      assert (Hn : NoDup held).
      { assert (Hn : NoDup (held ++ pool_list f)) by (rewrite Hh; apply NoDup_seq).
        by apply list.NoDup_app in Hn as [Hn _]. }
      pose proof (filter_in [p] held (NoDup_singleton p) Hn) as Hs.
      rewrite (list_filter_iff _ (fun q => q <> p)) in Hs by (intros q; by rewrite list_elem_of_singleton).
      specialize (Hs ltac:(by intros q ->%list_elem_of_singleton)).
      assert (Hlen : length held = S (length (filter (fun q => q <> p) held))) by (by rewrite Hs at 1).
      pose proof (Permutation_length Hh) as Hl. rewrite length_app, length_seq in Hl. unfold zlen.
      replace (Z.of_nat (length (pool_list f)) <? Z.of_nat max) with true by lia.
      eexists. split; [done|]. cbn [pool_list]. rewrite <- Hh. rewrite Hs at 2. solve_Permutation.
Qed.

(** ** aligned_malloc

    What it asks [malloc] for, where it writes the pointer that it got, [mem], and what it
    returns. *)
Definition alloc_size (size align : Z) : Z := size_t (size + (align - 1) + 8).

Definition aligned_malloc (mem align : Z) : Z * Z :=
  let pos := mem + 8 in
  let delta := size_t (align - Z.rem pos align) in
  (mem + delta, mem + delta + 8).

(** C40: What aligned_malloc returns is aligned, and the pointer for aligned_free is right before
    it, in the block that malloc gave; but the bytes asked for are in that block only if mem
    with the size of a pointer added is not aligned, else the last of them is one byte past its
    end. *)
Theorem aligned_block_overflows mem size align :
  0 < mem -> 0 < align < 2 ^ 31 -> 0 <= size -> mem + size + align + 16 < 2 ^ 63 ->
  let '(written, ret) := aligned_malloc mem align in
  ret mod align = 0 /\ mem < written /\ ret = written + 8 /\
  ret + size <= mem + alloc_size size align + (if (mem + 8) mod align =? 0 then 1 else 0) /\
  ((mem + 8) mod align = 0 -> ret + size = mem + alloc_size size align + 1).
Proof.
  intros Hm Ha Hs Hb. unfold aligned_malloc, alloc_size. rewrite Z.rem_mod_nonneg by lia.
  pose proof (Z.mod_pos_bound (mem + 8) align ltac:(lia)) as Hr.
  rewrite !wrapU_small by lia.
  assert (Hal : (mem + (align - (mem + 8) mod align) + 8) mod align = 0).
  { replace (mem + (align - (mem + 8) mod align) + 8)
      with ((mem + 8) - (mem + 8) mod align + 1 * align) by lia.
    rewrite Z.mod_add by lia. rewrite Zminus_mod_idemp_r. by rewrite Z.sub_diag. }
  split_and!; [done|lia|lia| |lia]. destruct (Z.eqb_spec ((mem + 8) mod align) 0); lia.
Qed.

Lemma aligned_block_overflows_witness :
  aligned_malloc 16 8 = (24, 32) /\ 32 + 100 = 16 + alloc_size 100 8 + 1.
Proof.
  destruct (aligned_block_overflows 16 100 8 ltac:(lia) ltac:(lia) ltac:(lia) ltac:(lia)) as (_ & _ & _ & _ & H).
  split; [reflexivity|exact (H eq_refl)].
Defined.

End FreeList.
